(* ===== verification/_CoqProject ===== *)
-Q . S2P
Prelude.v
Strings.v
Constants.v
RWBuffer.v
Headers.v
HttpParser.v
Swar.v
Probe.v
HashShard.v
TimerWheel.v
Mime.v
Hash.v
Encoding.v
Uuid.v
RouteTrie.v
Router.v
BitmapPool.v
IpUtils.v
ShardMap.v
TimerHeap.v
ConnLimiter.v
RateLimiter.v
Response.v
Middleware.v
Metrics.v
Engine.v
Connections.v
ClientIO.v
HttpClient.v
Smtp.v
PgProtocol.v
PgResult.v
PgParams.v
PgClient.v
JsonStore.v
JsonText.v
JsonParser.v
JsonWriter.v
