(* ===== verification/Prelude.v ===== *)
(** * WFX: a verified model of the web server's core

    WFX is an event-driven HTTP server: worker processes run an epoll loop, parse
    requests out of a growable read buffer, route them in a trie, run middleware and
    the user's handlers (plain functions or coroutines) and build the response in a
    growable write buffer.  This library models the parts of it that decide what a
    client is answered, as executable functions, and proves what they promise.

    ** The program and the files

    A request crosses the components in this order.

    - bytes come in: [RWBuffer] (utils/rw_buffer) holds both buffers of a connection;
      [HttpParser] (http/parser, and [ClientCtx] of http/connection) is the
      incremental parser, [Headers] (http/headers) the header map of views into the
      buffer, [Strings] (utils/string) the path normalisation and number reading,
      [Constants] (shared/abis/constants.hpp) methods, versions and statuses;
    - the request is admitted: [IpUtils] (http/limits/ip_utils) finds the client
      behind trusted proxies, [ConnLimiter] and [RateLimiter] (http/limits) count it,
      over [HashShard] (utils/hash_map, a SwissTable; [Swar] its group matching,
      [Probe] its probe sequence, [ShardMap] its finite-map interface) and
      [BitmapPool] (utils/pool/bitmap_pool.hpp);
    - it is answered: [RouteTrie] and [Router] (http/routing) find the handler and its
      parameters, [Middleware] (http/middleware) runs the chain with suspension and
      resumption, [Response] (http/response) builds, streams and flushes the response,
      [Engine] (engine/core_engine.cpp) composes all of these into the handling of a
      read event, [Connections] runs the engine over many connections that share the
      limiters, each through many reads and requests, [Metrics] (utils/diagnostics/metric_tracer, include/wfx/telemetry.hpp)
      counts and times what was served;
    - bytes go out: [ClientIO] (the client half of os_specific/linux/epoll_connection)
      is what the event loop does with a client's slot: accepting, the TLS handshake,
      reading, sending the write buffer, files and streams, timeouts, closing and the
      dispatch of events; [HttpClient] (include/wfx/endpoint/http.hpp and helper.hpp)
      is the codec of the server's own outbound requests, and reads what [ClientIO] sends;
      [Smtp] (include/wfx/endpoint/smtp.hpp) sends mail: commands and messages, replies,
      and the handshake of a connection with STARTTLS and AUTH;
      [PgProtocol] (include/wfx/endpoint/postgres/protocol.hpp) is the wire format of
      Postgres: the writer with its patched lengths, framing, the field reader; [PgResult]
      (result.hpp) keeps what a query returns, [PgParams] (types.hpp, protocol.hpp) encodes
      the parameters of a request, [PgClient] (stmt_cache.hpp, wire.hpp, the slot of
      connection.hpp) turns requests into rounds of messages and reads the replies;
    - handlers exchange documents: [JsonStore] (shared/json/json_object.hpp) holds JSON
      values in arenas with handles, [JsonText] and [JsonParser] (json_parser) read their
      text, [JsonWriter] (json_writer) and the serializer of [JsonParser] write it;
    - the rest of what the core calls: [TimerWheel] (utils/timer/timer_wheel.cpp)
      expires connections, [TimerHeap] (utils/timer/timer_heap.cpp) wakes coroutines, [Mime] (http/common/http_detector.cpp) types files, [Hash]
      (shared/utils/hash.hpp), [Encoding] (include/wfx/utils/encoding.hpp) and [Uuid]
      (shared/abis/uuid.hpp).

    Each file is a Module of the component's name: the state is a Record, tagged data
    an Inductive with the source's constructors, every operation a Definition or
    Fixpoint with the source's name, its guards and early returns in the source's
    order.  Bytes are [Z], machine integers are [Z] wrapped at their width where the
    code computes on them, memory the code addresses (buffers, slots, linked nodes) is
    explicit, [Logger::Fatal] is the [Fatal] of [outcome], and a callback is an
    argument.  Interfaces are classes: [Allocator] (RWBuffer) for the memory library,
    [FiniteMap] (ShardMap), implemented by the shard and used by the limiters.

    ** What the theorems show

    - Parsing: whatever the reads, the parser's verdict is the reference parser's on
      the bytes received ([Parse_refines_plan], [parse_head_refines],
      [parse_fragmentation]); the limits refuse
      ([Parse_refuses]); growing the buffer keeps every view ([GrowReadBuffer_keeps_request]);
      a normalised path has no empty, dot or escaping segment ([normalize_safe]).
    - Data structures refine their specification: the shard a finite map, through
      collisions, tombstones, growth and in-place compaction ([shard_refines_map],
      [CompactInPlace_keeps_map]); the pool a set of slots;
      the headers a case-insensitive map; the write buffer a queue of bytes; the wheel
      fires an entry at its tick and no other; the timer heap is a priority queue
      ([heap_refines_queue]).
    - Limits: counts are exact and bounded ([connections_counted]), the request limiter
      is an LRU of token buckets ([limiter_refines_lru], [token_bucket_bound],
      [throttled_client_recovers]), a client cannot choose its identity
      ([client_ip_not_spoofable]), and all of it over every interleaving of many
      connections ([connections_accounted]).
    - Serving: a path is routed to the match whose segments were created first, compared
      from the root ([MatchNode_refines], [Insert_registers]); a suspended chain answers as one that runs
      at once ([suspension_is_transparent], [pipeline_refines_spec]); every read event
      ends in exactly one call that answers or waits ([every_request_answered_once]);
      whatever calls a handler makes to build its response, the client reads one well-formed
      message, with no header line it did not mean to send ([response_is_one_message]); a body
      written and flushed in rounds is decoded back ([flushed_body_roundtrip]).
    - The event loop's client: from when a response is handed over until the client reads
      again, whatever the kernel reports and the TLS library answers and if the timer fires,
      the peer receives a prefix of the response in order, and all of it when nothing fails,
      for generators that stay stopped once they have stopped
      ([response_delivered]); a slot is released once ([slot_released_once]); what is
      read is parsed in order ([Receive_keeps_order]).
    - The HTTP client: cutting a response into pieces changes nothing
      ([parse_in_pieces]), what the server sends is what the client reads, its body
      framed and its connection kept or closed as the headers' bytes announce
      ([client_reads_response]), a request is one message ([request_is_one_message]).
    - The mail client: a message reaches the relay as its headers and the lines of its body
      and nothing after them ([mail_is_one_message]), and credentials are sent over TLS
      only, whatever was injected before ([credentials_only_over_tls]).
    - The Postgres wire format: what the writer writes, framing and the field reader give
      back ([message_frames_back]).
    - The Postgres client: a result is the table the server sent ([result_refines_table]);
      over any session of requests the client encodes, retries and replies a request runs its
      own statement, in a transaction of its own session ([session_is_sound]).
    - Documents: the store refines a tree of values ([store_refines_document]), the parser
      accepts the grammar and builds its value ([ParseImpl_decides]), and writing then
      reading is the identity ([serialize_parse_roundtrip], [writer_reads_back]).
    - Round trips of the encodings, and the histogram's accuracy ([percentile_accuracy]).

    ** Bounds and fuel

    Loops that are structural in the source are Fixpoints on the data.  The others
    carry fuel equal to a bound the theorems show is enough: the length of the text for
    scanners, the number of groups for probing, the capacity for rehashing, the depth
    of the chain for resumption ([Engine.complete]).  Hypotheses bound sizes below the
    width the code stores them in, and are discharged at concrete values by the
    witness that follows each theorem.

    ** Not modelled

    Sockets, TLS and cryptography, processes and signals, files and logging are calls
    into the operating system or OpenSSL; [ClientIO] and [Smtp] have the kernel's, the TLS
    library's and the peer's answers as a script.  The endpoint half of the event loop
    (pools of outbound connections, reconnects, name resolution), the template engine
    and, of the Postgres client, the decoding half of its codecs and the handshake with
    SCRAM are subsystems of their own; the command line, configuration loading and code shared with
    user modules are glue.  User code is arbitrary
    functions; inet_pton, the allocator and the file system are parameters with their
    documented behaviour as hypotheses. *)

From Stdlib Require Export ZArith Lia ZifyBool.
From stdpp Require Export base numbers strings gmap sets list.

(** ** Conventions

    A byte is a [Z] in [0, 256); a byte string ([std::string_view],
    [std::string], a [char] buffer) is a [list Z].  Machine integers are [Z]
    with the truncation of the C++ type written out by [u8] .. [u64]. *)

Abbreviation bytes := (list Z).

Declare Scope wfx_scope.
Delimit Scope wfx_scope with wfx.
#[global] Open Scope Z_scope.
#[global] Open Scope wfx_scope.

(** ** Fixed-width integers *)

Definition wrap (w z : Z) : Z := z mod 2 ^ w.
Abbreviation u8 := (wrap 8).
Abbreviation u16 := (wrap 16).
Abbreviation u32 := (wrap 32).
Abbreviation u64 := (wrap 64).

Definition is_byte (c : Z) : Prop := 0 <= c < 256.
Definition is_uint (w z : Z) : Prop := 0 <= z < 2 ^ w.

(** ** Byte-string literals *)

Definition ascii_byte (a : Ascii.ascii) : Z := Z.of_N (Ascii.N_of_ascii a).

Fixpoint lit (s : string) : bytes :=
  match s with
  | EmptyString => []
  | String a r => ascii_byte a :: lit r
  end.

Arguments lit s%_string.

(** ASCII codes the sources write as character literals. *)
Abbreviation NUL := 0 (only parsing).
Abbreviation TAB := 9 (only parsing).
Abbreviation LF := 10 (only parsing).
Abbreviation CR := 13 (only parsing).
Abbreviation SPACE := 32 (only parsing).
Abbreviation DQUOTE := 34 (only parsing).
Abbreviation PERCENT := 37 (only parsing).
Abbreviation STAR := 42 (only parsing).
Abbreviation PLUS := 43 (only parsing).
Abbreviation COMMA := 44 (only parsing).
Abbreviation MINUS := 45 (only parsing).
Abbreviation DOT := 46 (only parsing).
Abbreviation SLASH := 47 (only parsing).
Abbreviation COLON := 58 (only parsing).
Abbreviation LANGLE := 60 (only parsing).
Abbreviation EQUALS := 61 (only parsing).
Abbreviation RANGLE := 62 (only parsing).
Abbreviation QMARK := 63 (only parsing).
Abbreviation LBRACKET := 91 (only parsing).
Abbreviation BACKSLASH := 92 (only parsing).
Abbreviation RBRACKET := 93 (only parsing).
Abbreviation UNDERSCORE := 95 (only parsing).
Abbreviation LBRACE := 123 (only parsing).
Abbreviation RBRACE := 125 (only parsing).

(** ** Buffer access

    Every read of a buffer in the sources is guarded by a bound; [at_] reads
    0 out of range so that the guards, and not the default, carry the proofs. *)

Definition at_ (l : bytes) (i : nat) : Z := default 0 (l !! i).

(** [std::string_view] equality: same length and same bytes. *)
Definition sv_eq (x y : bytes) : bool := bool_decide (x = y).

(** [memchr] / [find(char)]: the first index of [c], if any. *)
Fixpoint find_char (c : Z) (l : bytes) : option nat :=
  match l with
  | [] => None
  | x :: r => if x =? c then Some 0%nat else S <$> find_char c r
  end.

(** [rfind(char)]: the last index of [c], if any. *)
Fixpoint rfind_char (c : Z) (l : bytes) : option nat :=
  match l with
  | [] => None
  | x :: r => match rfind_char c r with
              | Some i => Some (S i)
              | None => if x =? c then Some 0%nat else None
              end
  end.

(** The longest prefix satisfying [p], and the rest. *)
Fixpoint span {A} (p : A -> bool) (l : list A) : list A * list A :=
  match l with
  | [] => ([], [])
  | x :: r => if p x then let '(a, c) := span p r in (x :: a, c) else ([], l)
  end.

(** ** Process outcomes

    [Logger::Fatal] is [[[noreturn]]]: it logs and calls [std::exit(1)].  An
    operation that may reach it returns an [outcome]. *)

Inductive outcome (A : Type) : Type :=
| Ret (a : A)
| Fatal (msg : string).
Arguments Ret {A} a.
Arguments Fatal {A} msg.

Lemma Ret_inj {A} (a b : A) : Ret a = Ret b -> a = b.
Proof. by intros [= ->]. Qed.

Definition obind {A B} (m : outcome A) (k : A -> outcome B) : outcome B :=
  match m with
  | Ret a => k a
  | Fatal e => Fatal e
  end.

Notation "'let*' p ':=' m 'in' k" := (obind m (fun p => k))
  (at level 10, p binder, m at level 100, k at level 200) : wfx_scope.

(** ** Automation *)

Create HintDb wfx.
Create Rewrite HintDb wfx_rw.

(** Split every boolean conjunction and disjunction of the context. *)
Ltac bool_split :=
  repeat match goal with
    | H : (_ && _)%bool = true |- _ => apply andb_true_iff in H; destruct H
    | H : (_ || _)%bool = false |- _ => apply orb_false_iff in H; destruct H
    | H : negb _ = true |- _ => apply negb_true_iff in H
    | H : negb _ = false |- _ => apply negb_false_iff in H
    end.

(** Case analysis on the innermost scrutinee of the goal, keeping equations. *)
Ltac case_goal :=
  match goal with
  | |- context [match ?x with _ => _ end] =>
      lazymatch x with
      | context [match _ with _ => _ end] => fail
      | _ => destruct x eqn:?
      end
  end.

(** The same on a hypothesis. *)
Ltac case_hyp H :=
  match type of H with
  | context [match ?x with _ => _ end] =>
      lazymatch x with
      | context [match _ with _ => _ end] => fail
      | _ => destruct x eqn:?
      end
  end.

Ltac zlia := bool_split; unfold is_byte, is_uint in *; lia.

(** ** Fixed-width integers: lemmas *)

Lemma wrap_small (w z : Z) : 0 <= z < 2 ^ w -> wrap w z = z.
Proof. intros H. unfold wrap. by apply Z.mod_small. Qed.

Lemma wrap_range (w z : Z) : 0 <= w -> 0 <= wrap w z < 2 ^ w.
Proof. intros H. unfold wrap. apply Z.mod_pos_bound. lia. Qed.

Lemma wrap_idem (w z : Z) : wrap w (wrap w z) = wrap w z.
Proof. unfold wrap. apply Zmod_mod. Qed.

#[export] Hint Resolve wrap_range : wfx.
#[export] Hint Rewrite wrap_idem : wfx_rw.

Lemma land_ones_wrap w x : 0 <= w -> wrap w x = Z.land x (Z.ones w).
Proof. intros H. unfold wrap. by rewrite Z.land_ones. Qed.

(** A shifted word and a short one do not overlap. *)
Lemma lor_add hi lo k : 0 <= k -> 0 <= lo < 2 ^ k -> Z.lor (hi * 2 ^ k) lo = hi * 2 ^ k + lo.
Proof.
  intros Hk Hlo. assert (HL : Z.land (hi * 2 ^ k) lo = 0).
  { apply Z.bits_inj'. intros n Hn. rewrite Z.land_spec, Z.bits_0, <- Z.shiftl_mul_pow2, Z.shiftl_spec by done.
    destruct (Z.lt_ge_cases n k) as [H|H]; [by rewrite Z.testbit_neg_r by lia|].
    rewrite <- (Z.mod_small lo (2 ^ k)) by done. rewrite Z.mod_pow2_bits_high by lia. by rewrite andb_false_r. }
  symmetry. rewrite <- Z.lxor_lor by done. by apply Z.add_nocarry_lxor.
Qed.

(** A boolean property of every byte, by evaluation. *)
Lemma forall_bytes (f : Z -> bool) : forallb f (seqZ 0 256) = true -> forall c, is_byte c -> f c = true.
Proof.
  intros H c Hc. rewrite forallb_forall in H. apply H, list_elem_of_In, elem_of_seqZ. unfold is_byte in Hc. lia.
Qed.

(** A concrete string holds bytes, by evaluation. *)
Lemma bytes_by_eval (l : bytes) : forallb (fun c => (0 <=? c) && (c <? 256)) l = true -> Forall is_byte l.
Proof.
  intros H. rewrite forallb_forall in H. apply Forall_forall. intros c Hc.
  apply list_elem_of_In, H in Hc. zlia.
Qed.

(** ** Lists: lemmas *)

Lemma at_lookup (l : bytes) i x : l !! i = Some x -> at_ l i = x.
Proof. intros H. unfold at_. by rewrite H. Qed.

Lemma at_app_l (l r : bytes) i : (i < length l)%nat -> at_ (l ++ r) i = at_ l i.
Proof. intros H. unfold at_. by rewrite lookup_app_l. Qed.

Lemma at_app_r (l r : bytes) i : at_ (l ++ r) (length l + i) = at_ r i.
Proof. unfold at_. rewrite lookup_app_r by lia. do 2 f_equal. lia. Qed.

Lemma at_byte (l : bytes) i : Forall is_byte l -> is_byte (at_ l i).
Proof.
  intros H. unfold at_. destruct (l !! i) eqn:E; simpl; [|unfold is_byte; lia].
  by eapply Forall_lookup_1.
Qed.

Lemma drop_at (l : bytes) i :
  (i < length l)%nat -> drop i l = at_ l i :: drop (S i) l.
Proof.
  intros H. destruct (lookup_lt_is_Some_2 l i H) as [x Hx].
  rewrite (at_lookup _ _ _ Hx). by apply drop_S.
Qed.

Lemma take_S_at (l : bytes) i :
  (i < length l)%nat -> take (S i) l = take i l ++ [at_ l i].
Proof.
  intros H. destruct (lookup_lt_is_Some_2 l i H) as [x Hx].
  rewrite (at_lookup _ _ _ Hx). by apply take_S_r.
Qed.

Lemma sv_eq_true (x y : bytes) : sv_eq x y = true <-> x = y.
Proof. unfold sv_eq. apply bool_decide_eq_true. Qed.

Lemma sv_eq_refl (x : bytes) : sv_eq x x = true.
Proof. by apply sv_eq_true. Qed.

Lemma find_char_Some c l i :
  find_char c l = Some i <-> l !! i = Some c /\ (forall j, (j < i)%nat -> l !! j <> Some c).
Proof.
  revert i. induction l as [|x r IH]; intros i; simpl.
  - split; [done|]. intros [H _]. destruct i; discriminate.
  - destruct (Z.eqb_spec x c) as [->|Hne].
    + split.
      * intros [= <-]. split; [done|]. intros j Hj. lia.
      * intros [H1 H2]. destruct i as [|i]; [done|]. exfalso. by apply (H2 0%nat); [lia|].
    + rewrite fmap_Some. split.
      * intros (j & Hj & ->). apply IH in Hj as [H1 H2]. split; [done|].
        intros [|k] Hk; simpl; [congruence|]. apply H2. lia.
      * intros [H1 H2]. destruct i as [|i]; simpl in H1; [congruence|].
        exists i. split; [|done]. apply IH. split; [done|].
        intros j Hj. apply (H2 (S j)). lia.
Qed.

Lemma find_char_None c l : find_char c l = None <-> c ∉ l.
Proof.
  induction l as [|x r IH]; simpl.
  - split; [intros _ H; by apply elem_of_nil in H | done].
  - rewrite not_elem_of_cons. destruct (Z.eqb_spec x c) as [->|Hne].
    + split; [done|]. intros [? _]. congruence.
    + rewrite fmap_None, IH. split; [intros H; split; congruence | tauto].
Qed.

Lemma rfind_char_None c l : c ∉ l -> rfind_char c l = None.
Proof.
  induction l as [|x r IH]; [done|]. intros [H1 H2]%not_elem_of_cons. simpl. rewrite IH by done.
  destruct (Z.eqb_spec x c); [congruence|done].
Qed.

Lemma rfind_char_last c l r : c ∉ r -> rfind_char c (l ++ c :: r) = Some (length l).
Proof.
  intros H. induction l as [|x l IH]; simpl.
  - by rewrite rfind_char_None, Z.eqb_refl.
  - by rewrite IH.
Qed.

Lemma span_app {A} (p : A -> bool) (l : list A) :
  (span p l).1 ++ (span p l).2 = l.
Proof.
  induction l as [|x r IH]; simpl; [done|].
  destruct (p x); [|done]. destruct (span p r). simpl in *. by rewrite IH.
Qed.

Lemma span_all {A} (p : A -> bool) (l r : list A) :
  Forall (fun x => p x = true) l ->
  (match r with [] => True | x :: _ => p x = false end) ->
  span p (l ++ r) = (l, r).
Proof.
  intros Hl Hr. induction Hl as [|x l Hx _ IH]; simpl.
  - destruct r as [|y r]; simpl; [done|]. by rewrite Hr.
  - by rewrite Hx, IH.
Qed.

Lemma span_prefix {A} (p : A -> bool) (l : list A) :
  Forall (fun x => p x = true) (span p l).1.
Proof.
  induction l as [|x r IH]; simpl; [constructor|].
  destruct (p x) eqn:E; [|constructor]. destruct (span p r). by constructor.
Qed.
