(* ===== verification/Strings.v ===== *)
(** * Strings: [utils/string/string.cpp], namespace [StringUtils]

    Comparisons, the in-place URI normaliser, decimal conversions
    ([std::from_chars] / [std::to_chars] are standard-library functions and are
    written out here) and trimming.  The normaliser is modelled on the buffer it
    overwrites, with its read index [i] and write index [out]; the list function
    [norm] is the specification it is proved to implement. *)

From S2P Require Import Prelude.

Module StringUtils.

(** ** Comparisons *)

Definition ToLowerAscii (c : Z) : Z :=
  if (65 <=? c) && (c <=? 90) then Z.lor c 32 else c.

(** The accumulating loops of the constant-time comparisons. *)
Fixpoint ct_acc (f : Z -> Z) (l r : bytes) (result : Z) : Z :=
  match l, r with
  | x :: l', y :: r' => ct_acc f l' r' (Z.lor result (Z.lxor (f x) (f y)))
  | _, _ => result
  end.

Definition CTStringCompare (lhs rhs : bytes) : bool :=
  if negb (length lhs =? length rhs)%nat then false
  else ct_acc id lhs rhs 0 =? 0.

Definition CTInsensitiveStringCompare (lhs rhs : bytes) : bool :=
  if negb (length lhs =? length rhs)%nat then false
  else ct_acc ToLowerAscii lhs rhs 0 =? 0.

Fixpoint insensitive_loop (l r : bytes) : bool :=
  match l, r with
  | x :: l', y :: r' =>
      if negb (ToLowerAscii x =? ToLowerAscii y) then false
      else insensitive_loop l' r'
  | _, _ => true
  end.

Definition InsensitiveStringCompare (lhs rhs : bytes) : bool :=
  if negb (length lhs =? length rhs)%nat then false
  else insensitive_loop lhs rhs.

(** ** NormalizeURIPathInplace *)

Record norm_state := NormState {
  n_buf : bytes;   (* the caller's buffer, overwritten in place *)
  n_i   : nat;     (* read index *)
  n_out : nat      (* write index *)
}.

(** [while(out > 0 && buf[out - 1] != '/') --out;] *)
Fixpoint back_to_slash (buf : bytes) (out : nat) : nat :=
  match out with
  | O => O
  | S o => if at_ buf o =? SLASH then out else back_to_slash buf o
  end.

(** One turn of the loop, taken while [i < len]. *)
Definition norm_step (len : nat) (s : norm_state) : norm_state :=
  let buf := n_buf s in
  let i := n_i s in
  let out := n_out s in
  if (at_ buf i =? SLASH) && (0 <? out)%nat && (at_ buf (out - 1) =? SLASH) then
    NormState buf (i + 1) out
  else if (at_ buf i =? DOT) &&
          ((len <=? i + 1)%nat || (at_ buf (i + 1) =? SLASH) || (at_ buf (i + 1) =? NUL)) then
    NormState buf
      (i + (if (i + 1 <? len)%nat && (at_ buf (i + 1) =? SLASH) then 2 else 1)) out
  else if (at_ buf i =? DOT) && (i + 1 <? len)%nat && (at_ buf (i + 1) =? DOT) &&
          ((len <=? i + 2)%nat || (at_ buf (i + 2) =? SLASH)) then
    NormState buf
      (i + (if (i + 2 <? len)%nat && (at_ buf (i + 2) =? SLASH) then 3 else 2))
      (if (1 <? out)%nat then back_to_slash buf (out - 1) else out)
  else
    NormState (<[out := at_ buf i]> buf) (i + 1) (out + 1).

(** [i] grows on every turn, so [len] turns reach the end. *)
Fixpoint norm_loop (fuel len : nat) (s : norm_state) : norm_state :=
  match fuel with
  | O => s
  | S f => if (n_i s <? len)%nat then norm_loop f len (norm_step len s) else s
  end.

(** The buffer after the call and the length of the new [path] view, which
    still starts at the buffer's first byte; [None] is [return false]. *)
Definition NormalizeURIPathInplace (path : bytes) : option (bytes * nat) :=
  match path with
  | [] => None
  | _ =>
      let len := length path in
      let s := norm_loop len len (NormState path 0 0) in
      if (n_out s =? 0)%nat then Some (<[0%nat := SLASH]> (n_buf s), 1%nat)
      else Some (n_buf s, n_out s)
  end.

(** The bytes the caller's [path] view denotes afterwards. *)
Definition normalized (path : bytes) : option bytes :=
  match NormalizeURIPathInplace path with
  | Some (buf, n) => Some (take n buf)
  | None => None
  end.

(** ** NormalizePathToIdentifier *)

Definition is_ident_byte (c : Z) : bool :=
  ((97 <=? c) && (c <=? 122)) || ((65 <=? c) && (c <=? 90)) || ((48 <=? c) && (c <=? 57)).

Definition NormalizePathToIdentifier (path prefix : bytes) : bytes :=
  prefix ++ map (fun c => if is_ident_byte c then c else UNDERSCORE) path.

(** ** Decimal conversions *)

Definition is_digit (c : Z) : bool := (48 <=? c) && (c <=? 57).

Definition dec_value (ds : bytes) : Z := fold_left (fun a c => a * 10 + (c - 48)) ds 0.

(** The three results of [std::from_chars]: no digits, value out of range (the
    digits are still consumed), a value; with what follows the match. *)
Inductive from_chars_result :=
| FcInvalid
| FcRange (rest : bytes)
| FcOk (value : Z) (rest : bytes).

Definition from_chars_uint (w : Z) (s : bytes) : from_chars_result :=
  match span is_digit s with
  | ([], _) => FcInvalid
  | (ds, rest) =>
      if dec_value ds <? 2 ^ w then FcOk (dec_value ds) rest else FcRange rest
  end.

Definition from_chars_int (w : Z) (s : bytes) : from_chars_result :=
  let neg := match s with c :: _ => c =? MINUS | [] => false end in
  match span is_digit (if neg then drop 1 s else s) with
  | ([], _) => FcInvalid
  | (ds, rest) =>
      let v := if neg then - dec_value ds else dec_value ds in
      if (- 2 ^ (w - 1) <=? v) && (v <? 2 ^ (w - 1)) then FcOk v rest else FcRange rest
  end.

(** [std::to_chars(first, last, value)] in base 10. *)
Fixpoint to_chars_loop (fuel : nat) (v : Z) (acc : bytes) : bytes :=
  match fuel with
  | O => acc
  | S f => if v <? 10 then (48 + v) :: acc
           else to_chars_loop f (v / 10) ((48 + v mod 10) :: acc)
  end.

(** A 64-bit value has at most twenty digits. *)
Definition to_chars_uint (v : Z) : bytes := to_chars_loop 20 v [].

Definition to_chars_int (v : Z) : bytes :=
  if v <? 0 then MINUS :: to_chars_uint (- v) else to_chars_uint v.

(** The buffer holds 21 bytes, so [ec] is never set and [fallback] never used
    (see [UInt64ToStr_fits]). *)
Definition UInt64ToStr (value : Z) (fallback : bytes) : bytes :=
  let s := to_chars_uint value in
  if (length s <=? 21)%nat then s else fallback.

Definition StrToUInt64 (str : bytes) : option Z :=
  match str with
  | [] => None
  | _ => match from_chars_uint 64 str with
         | FcOk v [] => Some v
         | _ => None
         end
  end.

Definition StrToInt64 (str : bytes) : option Z :=
  match str with
  | [] => None
  | _ => match from_chars_int 64 str with
         | FcOk v [] => Some v
         | _ => None
         end
  end.

(** ** Trimming *)

(** [std::isspace] in the C locale, and the explicit set of [TrimInline]. *)
Definition isspace (c : Z) : bool := ((9 <=? c) && (c <=? 13)) || (c =? SPACE).

Fixpoint drop_while (p : Z -> bool) (l : bytes) : bytes :=
  match l with
  | [] => []
  | x :: r => if p x then drop_while p r else l
  end.

(** Drop from the left while [start < end], then from the right while
    [end > start]. *)
Definition trim_by (p : Z -> bool) (l : bytes) : bytes :=
  rev (drop_while p (rev (drop_while p l))).

Definition TrimView (sv : bytes) : bytes := trim_by isspace sv.

(** [find_first_not_of] / [find_last_not_of] over the set " \t\n\r\f\v". *)
Definition TrimInline (s : bytes) : bytes := trim_by isspace s.

(** ** UInt8FromHexChar: [string.hpp] *)

Definition UInt8FromHexChar (uc : Z) : Z :=
  let lo := u8 (uc - 48) in
  let hi := u8 (Z.lor uc 32 - 97) in
  let isDigit := Z.b2z (lo <? 10) in
  let isHex := Z.b2z (hi <? 6) in
  u8 (Z.lor (Z.lor (isDigit * lo) (isHex * (hi + 10)))
            (if negb (Z.lor isDigit isHex =? 0) then 0 else 255)).

(** ** The normaliser's specification

    [norm acc inp]: the output so far, reversed, and the input still to read. *)

Fixpoint pop_segment (acc : bytes) : bytes :=
  match acc with
  | [] => []
  | x :: r => if x =? SLASH then acc else pop_segment r
  end.

Definition pop (acc : bytes) : bytes :=
  match acc with
  | _ :: ((_ :: _) as r) => pop_segment r
  | _ => acc
  end.

Fixpoint norm (acc inp : bytes) : bytes :=
  match inp with
  | [] => acc
  | c :: r =>
      if (c =? SLASH) && (match acc with x :: _ => x =? SLASH | [] => false end) then norm acc r
      else if c =? DOT then
        match r with
        | [] => acc
        | d :: r' =>
            if d =? SLASH then norm acc r'
            else if d =? NUL then norm acc r
            else if d =? DOT then
              match r' with
              | [] => pop acc
              | e :: r'' => if e =? SLASH then norm (pop acc) r'' else norm (c :: acc) r
              end
            else norm (c :: acc) r
        end
      else norm (c :: acc) r
  end.

(** Path segments: the pieces between slashes. *)
Fixpoint split_on (d : Z) (l : bytes) : list bytes :=
  match l with
  | [] => [[]]
  | x :: r =>
      if x =? d then [] :: split_on d r
      else match split_on d r with
           | s :: ss => (x :: s) :: ss
           | [] => [[x]]
           end
  end.

(** What a resolved path looks like: every segment but the first and the last
    is non-empty, and none is a dot segment. *)
Definition no_dot_segments (p : bytes) : Prop :=
  (lit "." ∉ split_on SLASH p) /\ (lit ".." ∉ split_on SLASH p).

Definition no_double_slash (p : bytes) : Prop :=
  forall i, ~ (p !! i = Some SLASH /\ p !! S i = Some SLASH).

(** A path the normaliser leaves alone: no two slashes in a row, and every dot
    is followed by a byte that is neither a slash nor NUL. *)
Fixpoint stable (p : bytes) : Prop :=
  match p with
  | [] => True
  | x :: r =>
      (x = SLASH -> head r <> Some SLASH) /\
      (x = DOT -> exists y, head r = Some y /\ y <> SLASH /\ y <> NUL) /\ stable r
  end.


(** ** Lemmas: comparisons *)

Section compare.

Lemma lxor_zero_eq x y : Z.lxor x y = 0 <-> x = y.
Proof. apply Z.lxor_eq_0_iff. Qed.

Lemma ct_acc_zero f l r res :
  length l = length r ->
  ct_acc f l r res = 0 <-> res = 0 /\ map f l = map f r.
Proof.
  revert r res. induction l as [|x l IH]; intros [|y r] res Hlen; simplify_eq/=; [tauto|].
  rewrite IH by done. rewrite Z.lor_eq_0_iff, lxor_zero_eq.
  split; [intros [[-> ->] ->]; done | intros [-> [= -> ->]]; done].
Qed.

Lemma insensitive_loop_spec l r :
  length l = length r ->
  insensitive_loop l r = true <-> map ToLowerAscii l = map ToLowerAscii r.
Proof.
  revert r. induction l as [|x l IH]; intros [|y r] Hlen; simplify_eq/=; [done|].
  destruct (Z.eqb_spec (ToLowerAscii x) (ToLowerAscii y)) as [E|E]; simpl.
  - rewrite IH by done. rewrite E. split; [intros ->; done | by intros [= ->]].
  - split; [done | intros [= ]; done].
Qed.

Lemma CTInsensitive_true l r :
  CTInsensitiveStringCompare l r = true <-> map ToLowerAscii l = map ToLowerAscii r.
Proof.
  unfold CTInsensitiveStringCompare.
  destruct (Nat.eqb_spec (length l) (length r)) as [Hl|Hl]; cbn [negb].
  - rewrite Z.eqb_eq, ct_acc_zero by done. tauto.
  - split; [done|]. intros H. apply (f_equal length) in H. by rewrite !length_map in H.
Qed.

Lemma CTInsensitive_false l r :
  CTInsensitiveStringCompare l r = false <-> map ToLowerAscii l <> map ToLowerAscii r.
Proof. rewrite <- CTInsensitive_true. by destruct (CTInsensitiveStringCompare l r). Qed.

End compare.

(** ** Lemmas: the normaliser refines [norm] *)

Lemma back_to_slash_le buf o : (back_to_slash buf o <= o)%nat.
Proof. induction o as [|o IH]; simpl; [done|]. case_match; lia. Qed.

Lemma back_to_slash_pop buf o :
  (o <= length buf)%nat ->
  rev (take (back_to_slash buf o) buf) = pop_segment (rev (take o buf)).
Proof.
  induction o as [|o IH]; intros Ho; simpl; [done|].
  rewrite take_S_at, rev_app_distr by lia. simpl.
  destruct (at_ buf o =? SLASH) eqn:E.
  - by rewrite take_S_at, rev_app_distr by lia.
  - apply IH. lia.
Qed.

Lemma pop_take buf out :
  (out <= length buf)%nat ->
  pop (rev (take out buf)) =
  rev (take (if (1 <? out)%nat then back_to_slash buf (out - 1) else out) buf).
Proof.
  intros Ho. destruct out as [|[|o]]; [done| |].
  - destruct buf; [simpl in Ho; lia | done].
  - replace (1 <? S (S o))%nat with true by done.
    replace (S (S o) - 1)%nat with (S o) by lia.
    rewrite back_to_slash_pop by lia.
    rewrite (take_S_at buf (S o)), rev_app_distr by lia.
    rewrite (take_S_at buf o), rev_app_distr by lia. done.
Qed.

Lemma acc_head_slash buf out :
  (out <= length buf)%nat ->
  (match rev (take out buf) with x :: _ => x =? SLASH | [] => false end) =
  ((0 <? out)%nat && (at_ buf (out - 1) =? SLASH)).
Proof.
  intros Ho. destruct out as [|o]; [done|].
  rewrite take_S_at, rev_app_distr by lia. simpl.
  by replace (o - 0)%nat with o by lia.
Qed.

Lemma drop_cases (l : bytes) i :
  ((length l <=? i)%nat = true /\ drop i l = []) \/
  ((length l <=? i)%nat = false /\ drop i l = at_ l i :: drop (S i) l).
Proof.
  destruct (Nat.leb_spec (length l) i); [left | right]; split; try done.
  - by apply drop_ge.
  - by apply drop_at.
Qed.

Lemma copy_char buf i out :
  (out <= i)%nat -> (i < length buf)%nat ->
  at_ buf i :: rev (take out buf) = rev (take (S out) (<[out := at_ buf i]> buf)) /\
  drop (S i) (<[out := at_ buf i]> buf) = drop (S i) buf.
Proof.
  intros Ho Hi. split.
  - rewrite (take_S_at (<[out:=_]> buf)) by (rewrite length_insert; lia).
    rewrite rev_app_distr. simpl. rewrite take_insert_ge by lia.
    f_equal. unfold at_ at 2. by rewrite list_lookup_insert_eq by lia.
  - by rewrite drop_insert_lt by lia.
Qed.

(** One turn of the loop is one unfolding of the specification. *)
Lemma norm_step_refines buf i out :
  (out <= i)%nat -> (i < length buf)%nat ->
  let s := norm_step (length buf) (NormState buf i out) in
  norm (rev (take out buf)) (drop i buf) =
    norm (rev (take (n_out s) (n_buf s))) (drop (n_i s) (n_buf s)) /\
  length (n_buf s) = length buf /\ (n_out s <= n_i s)%nat /\ (i < n_i s <= length buf)%nat.
Proof.
  intros Ho Hi. rewrite (drop_at buf i) by done. cbn [norm].
  rewrite acc_head_slash by lia. unfold norm_step; cbn [n_buf n_i n_out].
  rewrite andb_assoc, !Nat.add_1_r, !Nat.ltb_antisym.
  replace (i + 2)%nat with (S (S i)) by lia.
  destruct (copy_char buf i out Ho Hi) as [Hcopy Hdrop].
  destruct ((at_ buf i =? SLASH) && negb (out <=? 0)%nat && (at_ buf (out - 1) =? SLASH));
    [cbn [n_buf n_i n_out]; repeat split; lia|].
  destruct (at_ buf i =? DOT); cbn [andb];
    [|cbn [n_buf n_i n_out]; rewrite Hcopy, Hdrop, length_insert; repeat split; lia].
  destruct (drop_cases buf (S i)) as [[Hl1 Hd1]|[Hl1 Hd1]]; rewrite Hl1, Hd1; cbn [orb negb andb].
  { cbn [n_buf n_i n_out]. rewrite (drop_ge buf (i + 1)) by lia. repeat split; lia. }
  destruct (at_ buf (S i) =? SLASH) eqn:Esl; cbn [orb].
  { cbn [n_buf n_i n_out]. replace (i + 2)%nat with (S (S i)) by lia. repeat split; lia. }
  destruct (at_ buf (S i) =? NUL); cbn [orb].
  { cbn [n_buf n_i n_out]. rewrite Nat.add_1_r, Hd1. repeat split; lia. }
  destruct (at_ buf (S i) =? DOT) eqn:Edot; cbn [andb];
    [|cbn [n_buf n_i n_out]; rewrite Hcopy, Hdrop, length_insert, Hd1; repeat split; lia].
  assert (Hpop : forall k, (i < k)%nat ->
    ((if negb (out <=? 1)%nat then back_to_slash buf (out - 1) else out) <= k)%nat).
  { intros k Hk. pose proof (back_to_slash_le buf (out - 1)). destruct (negb _); lia. }
  rewrite pop_take, Nat.ltb_antisym by lia.
  destruct (drop_cases buf (S (S i))) as [[Hl2 Hd2]|[Hl2 Hd2]]; rewrite Hl2, Hd2; cbn [orb negb andb].
  { cbn [n_buf n_i n_out]. rewrite (drop_ge buf (i + 2)) by lia. repeat split; try lia. apply Hpop; lia. }
  destruct (at_ buf (S (S i)) =? SLASH); cbn [andb].
  { cbn [n_buf n_i n_out]. replace (i + 3)%nat with (S (S (S i))) by lia. repeat split; try lia. apply Hpop; lia. }
  cbn [n_buf n_i n_out]. rewrite Hcopy, Hdrop, length_insert, Hd1, Hd2. repeat split; lia.
Qed.

Lemma norm_loop_refines fuel buf i out :
  (out <= i <= length buf)%nat -> (length buf - i <= fuel)%nat ->
  let s := norm_loop fuel (length buf) (NormState buf i out) in
  rev (take (n_out s) (n_buf s)) = norm (rev (take out buf)) (drop i buf) /\
  length (n_buf s) = length buf /\ (n_out s <= n_i s)%nat /\ n_i s = length buf.
Proof.
  revert buf i out. induction fuel as [|f IH]; intros buf i out Ho Hf; simpl.
  { rewrite drop_ge by lia. repeat split; try done; lia. }
  destruct (Nat.ltb_spec i (length buf)) as [Hi|Hi]; simpl.
  2: { rewrite drop_ge by lia. repeat split; try done; lia. }
  destruct (norm_step_refines buf i out ltac:(lia) Hi) as (E & Hlen & Hle & Hlt).
  destruct (norm_step (length buf) (NormState buf i out)) as [buf' i' out']; simpl in *.
  rewrite E, <- Hlen. apply IH; lia.
Qed.

(** ** Lemmas: what [norm] produces

    The output is kept reversed, so [clean] reads its pairs backwards: a byte is
    compared with the one written just before it. *)

Fixpoint clean (acc : bytes) : Prop :=
  match acc with
  | x :: ((y :: _) as r) => (x = SLASH -> y <> SLASH /\ y <> DOT) /\ clean r
  | _ => True
  end.

(** A dot is only written when the next byte will be written after it. *)
Definition dot_pending (acc inp : bytes) : Prop :=
  head acc = Some DOT ->
  match inp with
  | [] => False
  | c :: r => c <> SLASH /\ (c = DOT -> match r with [] => False | d :: _ => d <> SLASH end)
  end.

Definition absolute_acc (acc : bytes) : Prop := last acc = Some SLASH.

Lemma pop_segment_spec acc :
  absolute_acc acc -> clean acc ->
  absolute_acc (pop_segment acc) /\ clean (pop_segment acc) /\ head (pop_segment acc) = Some SLASH.
Proof.
  unfold absolute_acc. induction acc as [|x r IH]; intros Ha Hc; simpl; [done|].
  destruct (Z.eqb_spec x SLASH) as [->|Hne]; [done|].
  destruct r as [|y r]; [simpl in Ha; congruence|].
  apply IH; [done|]. by destruct Hc.
Qed.

Lemma pop_spec acc :
  absolute_acc acc -> clean acc ->
  absolute_acc (pop acc) /\ clean (pop acc) /\ head (pop acc) = Some SLASH.
Proof.
  intros Ha Hc. destruct acc as [|x [|y r]]; [done| |].
  - unfold absolute_acc in *. simpl in *. by simplify_eq.
  - apply pop_segment_spec; [done|]. by destruct Hc.
Qed.

Lemma clean_push c acc :
  clean acc -> (c = SLASH -> head acc <> Some SLASH /\ head acc <> Some DOT) -> clean (c :: acc).
Proof.
  intros Hc H. destruct acc as [|y r]; simpl in *; [done|]. split; [|done].
  intros E. destruct (H E). split; congruence.
Qed.

Lemma absolute_push c acc : absolute_acc acc -> absolute_acc (c :: acc).
Proof. unfold absolute_acc. destruct acc; [done|]. by intros. Qed.

(** The written output stays absolute and free of [//] and of a dot before a
    slash, whatever the input. *)
Lemma norm_clean acc inp :
  absolute_acc acc -> clean acc -> dot_pending acc inp ->
  absolute_acc (norm acc inp) /\ clean (norm acc inp) /\ head (norm acc inp) <> Some DOT.
Proof.
  revert acc. induction inp as [inp IH] using (induction_ltof1 _ (@length Z)); unfold ltof in IH.
  intros acc Ha Hc Hd.
  destruct inp as [|c r]; cbn [norm].
  { split_and!; try done; intros E; by apply Hd in E. }
  assert (Hpush : forall acc', absolute_acc acc' -> clean acc' ->
    (c = SLASH -> head acc' <> Some SLASH /\ head acc' <> Some DOT) ->
    dot_pending (c :: acc') r ->
    absolute_acc (norm (c :: acc') r) /\ clean (norm (c :: acc') r) /\ head (norm (c :: acc') r) <> Some DOT).
  { intros acc' ????. apply IH; [simpl; lia | by apply absolute_push | by apply clean_push | done]. }
  destruct (Z.eqb_spec c SLASH) as [->|Hsl]; cbn [andb].
  - (* a slash *)
    assert (Hnd : head acc <> Some DOT) by (intros E; apply Hd in E; by destruct E).
    destruct acc as [|x acc']; [discriminate Ha|].
    destruct (Z.eqb_spec x SLASH) as [->|Hx].
    + apply IH; [simpl; lia | done | done | by intros [=]].
    + apply Hpush; [done|done| |by intros [=]]. intros _. split; simpl in *; congruence.
  - destruct (Z.eqb_spec c DOT) as [->|Hdot].
    2: { apply Hpush; [done|done|done|]. intros [= ->]. done. }
    (* a dot: not one the previous dot is waiting for unless it is kept *)
    destruct r as [|d r'].
    { split_and!; try done; intros E; by destruct (proj2 (Hd E) eq_refl). }
    destruct (Z.eqb_spec d SLASH) as [->|Hd1].
    { assert (Hnd : head acc <> Some DOT).
      { intros E. destruct (Hd E) as [_ H]. by specialize (H eq_refl). }
      apply IH; [simpl; lia|done|done|by intros E]. }
    destruct (Z.eqb_spec d NUL) as [->|Hd2].
    { apply IH; [simpl; lia|done|done|]. intros _. done. }
    destruct (Z.eqb_spec d DOT) as [->|Hd3].
    2: { apply Hpush; [done|done|done|]. intros _. split; [done|]. by intros ->. }
    destruct (pop_spec acc Ha Hc) as (Hp1 & Hp2 & Hp3).
    destruct r' as [|e r'']; [split_and!; try done; rewrite Hp3; by intros [=]|].
    destruct (Z.eqb_spec e SLASH) as [->|He].
    + apply IH; [simpl; lia|done|done|]. unfold dot_pending; rewrite Hp3. by intros [=].
    + apply Hpush; [done|done|done|]. intros _. split; [done|]. by intros _.
Qed.

Lemma rev_lookup_pair (acc : bytes) i x y :
  rev acc !! i = Some y -> rev acc !! S i = Some x ->
  clean acc -> x = SLASH -> y <> SLASH /\ y <> DOT.
Proof.
  revert i. induction acc as [|z r IH]; intros i Hy Hx Hc E; simpl in *; [done|].
  apply lookup_app_Some in Hx as [Hx|[Hlen Hx]].
  - rewrite lookup_app_l in Hy by (apply lookup_lt_Some in Hx; lia).
    apply (IH i); try done. destruct r; [done|]. by destruct Hc.
  - apply list_lookup_singleton_Some in Hx as [Hn ->].
    assert (Hi : S i = length (rev r)) by lia.
    rewrite lookup_app_l in Hy by lia.
    destruct r as [|w r]; [done|]. destruct Hc as [Hc _].
    simpl in Hy, Hi. rewrite length_app in Hi. simpl in Hi.
    rewrite lookup_app_r in Hy by lia.
    replace (i - length (rev r))%nat with 0%nat in Hy by lia. simpl in Hy.
    injection Hy as ->. by apply Hc.
Qed.

Lemma rev_lookup_last (acc : bytes) i y :
  rev acc !! i = Some y -> rev acc !! S i = None -> head acc = Some y.
Proof.
  destruct acc as [|z r]; intros Hy Hx; simpl in *; [done|].
  apply lookup_ge_None in Hx. rewrite length_app in Hx. simpl in Hx.
  rewrite lookup_app_r in Hy by lia.
  apply list_lookup_singleton_Some in Hy as [_ ->]. done.
Qed.

(** Every dot of the output is followed by a byte other than a slash. *)
Definition dots_followed (p : bytes) : Prop :=
  forall i, p !! i = Some DOT -> exists x, p !! S i = Some x /\ x <> SLASH.

Lemma clean_dots_followed acc :
  clean acc -> head acc <> Some DOT -> dots_followed (rev acc).
Proof.
  intros Hc Hh i Hi. destruct (rev acc !! S i) as [x|] eqn:E.
  - exists x. split; [done|]. intros ->.
    by destruct (rev_lookup_pair acc i SLASH DOT Hi E Hc eq_refl).
  - by apply (rev_lookup_last _ _ _ Hi) in E.
Qed.

Lemma clean_no_double_slash acc : clean acc -> no_double_slash (rev acc).
Proof. intros Hc i [H1 H2]. by destruct (rev_lookup_pair acc i SLASH SLASH H1 H2 Hc eq_refl). Qed.

(** *** The pieces between separators *)

Lemma split_on_app d l r : split_on d (l ++ d :: r) = split_on d l ++ split_on d r.
Proof.
  induction l as [|x l IH]; cbn [split_on app]; [by rewrite Z.eqb_refl|].
  rewrite IH. destruct (x =? d); [done|]. destruct (split_on d l) eqn:E; [|done].
  by destruct l as [|y l']; cbn in E; [|destruct (y =? d), (split_on d l')].
Qed.

Lemma split_on_none d l : d ∉ l -> split_on d l = [l].
Proof.
  induction l as [|x l IH]; [done|]. intros [Hx Hl]%not_elem_of_cons. cbn [split_on].
  destruct (Z.eqb_spec x d); [congruence|]. by rewrite IH.
Qed.

Lemma split_on_nonempty d l : split_on d l <> [].
Proof. destruct l as [|x l]; [done|]. cbn. destruct (x =? d); [done|]. by destruct (split_on d l). Qed.

Lemma split_on_find d s : split_on d s = match find_char d s with None => [s] | Some k => take k s :: split_on d (drop (S k) s) end.
Proof.
  induction s as [|x s IH]; [done|]. cbn [split_on find_char]. destruct (x =? d); [done|]. rewrite IH. by destruct (find_char d s).
Qed.

Lemma split_on_skip d l s : d ∉ l -> split_on d (l ++ d :: s) = l :: split_on d s.
Proof.
  induction l as [|x l IH]; intros H; cbn [app split_on]; [by rewrite Z.eqb_refl|]. apply not_elem_of_cons in H as [H1 H2]. rewrite IH by done.
  by destruct (Z.eqb_spec x d); [subst|].
Qed.

Lemma split_on_no d s l : l ∈ split_on d s -> d ∉ l.
Proof.
  revert l. induction s as [|x s IH]; intros l; cbn [split_on].
  - intros [->|?%elem_of_nil]%elem_of_cons; [apply not_elem_of_nil|done].
  - destruct (Z.eqb_spec x d) as [->|Hx].
    + intros [->|H]%elem_of_cons; [apply not_elem_of_nil|by apply IH].
    + destruct (split_on d s) as [|t ts]; [by intros [->|?%elem_of_nil]%elem_of_cons; [apply not_elem_of_cons; split; [done|apply not_elem_of_nil]|]|].
      intros [->|H]%elem_of_cons; [apply not_elem_of_cons; split; [done|apply IH; left]|apply IH; by right].
Qed.

(** The pieces are the stretches without the separator, bounded by it or by an end. *)
Lemma split_on_elem d s t :
  t ∈ split_on d s <-> d ∉ t /\ exists a b, s = a ++ t ++ b /\ (a = [] \/ last a = Some d) /\ (b = [] \/ head b = Some d).
Proof.
  split.
  - intros H. split; [exact (split_on_no _ _ _ H)|]. revert H. remember (length s) as n eqn:En. revert s En.
    induction (lt_wf n) as [n _ IH]. intros s ->. rewrite split_on_find. destruct (find_char d s) as [k|] eqn:Ek.
    + destruct (proj1 (find_char_Some _ _ _) Ek) as [Hk _]. pose proof (take_drop_middle s k d Hk) as Es. intros [->|H]%elem_of_cons.
      * exists [], (d :: drop (S k) s). split; [by rewrite Es|]. split; [by left|by right].
      * destruct (IH (length (drop (S k) s))) with (s := drop (S k) s) as (a & b & E & Ha & Hb); [rewrite length_drop; apply lookup_lt_Some in Hk; lia|done|done|].
        exists (take k s ++ d :: a), b. split; [rewrite <- app_assoc; cbn; by rewrite <- E, Es|]. split; [|done]. right. rewrite last_app, last_cons. by destruct Ha as [->| ->].
    + intros ->%list_elem_of_singleton. exists [], []. rewrite app_nil_r. split; [done|]. by split; left.
  - intros (Ht & a & b & -> & Ha & Hb). assert (H : t ∈ split_on d (t ++ b)).
    { destruct Hb as [->|Hb]; [rewrite app_nil_r, split_on_none by done; by left|]. destruct b as [|x b]; [done|]. injection Hb as ->. rewrite split_on_skip by done. by left. }
    destruct Ha as [->|[a' ->]%last_Some]; [done|]. rewrite <- app_assoc. cbn [app]. rewrite split_on_app. apply elem_of_app. by right.
Qed.

(** *** Trimming *)

Lemma drop_while_prefix p l : exists a, l = a ++ drop_while p l /\ Forall (fun c => p c = true) a.
Proof.
  induction l as [|x l (a & E & Ha)]; [by exists []|]. cbn. destruct (p x) eqn:Ex; [|by exists []]. exists (x :: a). cbn. split; [by rewrite <- E|by constructor].
Qed.

Lemma drop_while_skip p a l : Forall (fun c => p c = true) a -> drop_while p (a ++ l) = drop_while p l.
Proof. induction 1 as [|x a Hx _ IH]; [done|]. cbn. by rewrite Hx. Qed.

Lemma drop_while_stop p l : (forall c, head l = Some c -> p c = false) -> drop_while p l = l.
Proof. destruct l as [|x l]; [done|]. intros H. cbn. by rewrite (H x eq_refl). Qed.

Lemma trim_by_parts p l : exists a b, l = a ++ trim_by p l ++ b /\ Forall (fun c => p c = true) a /\ Forall (fun c => p c = true) b.
Proof.
  destruct (drop_while_prefix p l) as (a & E & Ha). destruct (drop_while_prefix p (rev (drop_while p l))) as (b & E' & Hb). exists a, (rev b). unfold trim_by.
  split; [|split; [done|by apply Forall_rev]]. rewrite <- rev_app_distr, <- E', rev_involutive. exact E.
Qed.

Lemma trim_by_around p a l b : Forall (fun c => p c = true) a -> Forall (fun c => p c = true) b -> (forall c, head l = Some c \/ last l = Some c -> p c = false) ->
  trim_by p (a ++ l ++ b) = l.
Proof.
  intros Ha Hb Hl. unfold trim_by. rewrite drop_while_skip by done. destruct l as [|x l].
  - cbn [app]. rewrite <- (app_nil_r b), drop_while_skip by done. done.
  - rewrite (drop_while_stop p ((x :: l) ++ b)) by (intros c [= <-]; apply Hl; by left). rewrite rev_app_distr, drop_while_skip by by apply Forall_rev.
    rewrite drop_while_stop; [apply rev_involutive|]. intros c Hc. apply Hl. right. rewrite <- Hc. rewrite <- (rev_involutive (x :: l)) at 1. generalize (rev (x :: l)). intros [|y m]; [done|].
    cbn [rev]. by rewrite last_snoc.
Qed.

Lemma split_on_head_nil d l s ss :
  split_on d l = s :: ss -> s = [] -> l = [] \/ head l = Some d.
Proof.
  intros H ->. destruct l as [|x r]; [by left|right]. simpl in *.
  destruct (Z.eqb_spec x d); [by subst|].
  by destruct (split_on d r).
Qed.

(** No segment of such a path ends in a dot. *)
Lemma dots_followed_segments p s :
  dots_followed p -> s ∈ split_on SLASH p -> last s <> Some DOT.
Proof.
  revert s. induction p as [|x r IH]; intros s Hd Hs; simpl in Hs.
  - apply list_elem_of_singleton in Hs as ->. done.
  - assert (Hr : dots_followed r) by (intros i Hi; apply (Hd (S i) Hi)).
    destruct (Z.eqb_spec x SLASH) as [->|Hx].
    { apply elem_of_cons in Hs as [->|Hs]; [done | by apply IH]. }
    destruct (split_on SLASH r) as [|t ts] eqn:E.
    { apply list_elem_of_singleton in Hs as ->. by destruct r as [|? ?]; simpl in E; repeat case_match. }
    apply elem_of_cons in Hs as [->|Hs]; [|apply IH; [done|by right]].
    destruct t as [|y t].
    + simpl. intros [= ->]. destruct (Hd 0%nat eq_refl) as (y & Hy & Hne). simpl in Hy.
      destruct (split_on_head_nil SLASH r [] ts E eq_refl) as [->|Hh]; [done|].
      rewrite head_lookup in Hh. congruence.
    + change (last (y :: t) <> Some DOT). apply IH; [done|by left].
Qed.

Lemma segments_no_dots p :
  (forall s, s ∈ split_on SLASH p -> last s <> Some DOT) -> no_dot_segments p.
Proof. intros H. split; intros Hs; by apply H in Hs. Qed.

(** ** Lemmas: the output of a stable path is the path *)

Lemma norm_stable acc inp :
  stable inp -> (head acc = Some SLASH -> head inp <> Some SLASH) ->
  norm acc inp = rev inp ++ acc.
Proof.
  revert acc. induction inp as [|c r IH]; intros acc Hs Hh; cbn [norm]; [done|].
  destruct Hs as (Hslash & Hdot & Hs).
  assert (Hpush : norm (c :: acc) r = rev (c :: r) ++ acc).
  { simpl. rewrite <- app_assoc. simpl. apply IH; [done|]. intros [= ->]. by apply Hslash. }
  destruct (Z.eqb_spec c SLASH) as [->|Hc]; cbn [andb].
  - destruct acc as [|x acc]; [done|].
    destruct (Z.eqb_spec x SLASH) as [->|]; [by destruct Hh | done].
  - destruct (Z.eqb_spec c DOT) as [->|Hc2]; [|done].
    destruct (Hdot eq_refl) as (y & Hy & Hy1 & Hy2).
    destruct r as [|d r']; [done|]. injection Hy as ->.
    destruct (Z.eqb_spec y SLASH); [done|]. destruct (Z.eqb_spec y NUL); [done|].
    destruct (Z.eqb_spec y DOT) as [->|]; [|done].
    destruct Hs as (_ & Hd2 & _). destruct (Hd2 eq_refl) as (e & He & He1 & He2).
    destruct r' as [|e' r'']; [done|]. injection He as ->.
    by destruct (Z.eqb_spec e SLASH).
Qed.

Lemma clean_stable acc :
  clean acc -> head acc <> Some DOT -> NUL ∉ acc -> stable (rev acc).
Proof.
  intros Hc Hh Hn.
  pose proof (clean_dots_followed acc Hc Hh) as Hd.
  pose proof (clean_no_double_slash acc Hc) as Hds.
  assert (Hn' : NUL ∉ rev acc) by (rewrite list_elem_of_In, <- in_rev, <- list_elem_of_In; done).
  revert Hd Hds Hn'. generalize (rev acc) as p. clear. induction p as [|x r IH]; simpl; intros Hd Hds Hn; [done|].
  split_and!.
  - intros -> E. rewrite head_lookup in E. by apply (Hds 0%nat).
  - intros ->. destruct (Hd 0%nat eq_refl) as (y & Hy & Hne). exists y.
    rewrite head_lookup. split_and!; [done|done|]. intros ->. apply Hn. right.
    simpl in Hy. by eapply list_elem_of_lookup_2.
  - apply IH.
    + intros i Hi. apply (Hd (S i) Hi).
    + intros i Hi. apply (Hds (S i) Hi).
    + intros H. apply Hn. by right.
Qed.

Lemma pop_segment_subset acc x : x ∈ pop_segment acc -> x ∈ acc.
Proof.
  induction acc as [|y r IH]; simpl; [done|]. case_match; [done|]. intros Hx. right. by apply IH.
Qed.

Lemma pop_subset acc x : x ∈ pop acc -> x ∈ acc.
Proof.
  destruct acc as [|y [|z r]]; [done|done|].
  change (pop (y :: z :: r)) with (pop_segment (z :: r)).
  intros Hp%pop_segment_subset. by right.
Qed.

(** The output holds no byte the input and the output so far did not hold. *)
Lemma norm_subset acc inp x : x ∈ norm acc inp -> x ∈ acc \/ x ∈ inp.
Proof.
  revert acc. induction inp as [inp IH] using (induction_ltof1 _ (@length Z)); unfold ltof in IH.
  intros acc. destruct inp as [|c r]; cbn [norm]; [by left|].
  assert (Hrec : forall acc' inp', (length inp' < length (c :: r))%nat ->
    (forall y, y ∈ acc' -> y ∈ acc \/ y ∈ c :: r) -> (forall y, y ∈ inp' -> y ∈ c :: r) ->
    x ∈ norm acc' inp' -> x ∈ acc \/ x ∈ c :: r).
  { intros acc' inp' Hl H1 H2 Hx. destruct (IH inp' Hl acc' Hx) as [Hy|Hy]; [exact (H1 x Hy)|right; exact (H2 x Hy)]. }
  assert (Hpush : x ∈ norm (c :: acc) r -> x ∈ acc \/ x ∈ c :: r)
    by (apply Hrec; [simpl; lia|set_solver|set_solver]).
  destruct (_ && _); [apply Hrec; [simpl; lia|set_solver|set_solver]|].
  destruct (c =? DOT); [|exact Hpush].
  destruct r as [|d r']; [by left|].
  destruct (d =? SLASH); [apply Hrec; [simpl; lia|set_solver|set_solver]|].
  destruct (d =? NUL); [apply Hrec; [simpl; lia|set_solver|set_solver]|].
  destruct (d =? DOT); [|exact Hpush].
  destruct r' as [|e r'']; [intros Hp%pop_subset; by left|].
  destruct (e =? SLASH); [|exact Hpush]. apply Hrec; [simpl; lia| |set_solver].
  intros y Hy%pop_subset. by left.
Qed.

(** The buffer version returns what [norm] computes. *)
Lemma normalize_spec path :
  path <> [] ->
  exists buf n, NormalizeURIPathInplace path = Some (buf, n) /\
    length buf = length path /\ (n <= length path)%nat /\
    take n buf = match norm [] path with [] => [SLASH] | acc => rev acc end.
Proof.
  intros Hne.
  assert (Hl : (0 < length path)%nat) by (destruct path; [done | simpl; lia]).
  replace (NormalizeURIPathInplace path) with
    (let s := norm_loop (length path) (length path) (NormState path 0 0) in
     if (n_out s =? 0)%nat then Some (<[0%nat := SLASH]> (n_buf s), 1%nat)
     else Some (n_buf s, n_out s)) by (destruct path; done).
  destruct (norm_loop_refines (length path) path 0 0) as (E & Hlen & Hle & Hi); [lia|lia|].
  destruct (norm_loop (length path) (length path) (NormState path 0 0)) as [buf i out].
  cbn [n_buf n_i n_out] in *.
  change (rev (take 0 path)) with (@nil Z) in E. change (drop 0 path) with path in E.
  rewrite <- E. destruct buf as [|y buf]; [simpl in Hlen; lia|].
  destruct out as [|o].
  { exists (SLASH :: buf), 1%nat. split_and!; [done|done|lia|done]. }
  exists (y :: buf), (S o). split_and!; [done|done|lia|].
  destruct (rev (take (S o) (y :: buf))) as [|z zs] eqn:Ez.
  - apply (f_equal (@length Z)) in Ez. rewrite length_rev in Ez. simpl in Ez. lia.
  - by rewrite <- Ez, rev_involutive.
Qed.

Lemma normalized_norm path :
  path <> [] ->
  normalized path = Some (match norm [] path with [] => [SLASH] | acc => rev acc end).
Proof.
  intros Hne. destruct (normalize_spec path Hne) as (buf & n & E & _ & _ & Ht).
  unfold normalized. by rewrite E, Ht.
Qed.

Lemma norm_absolute r :
  let acc := norm [] (SLASH :: r) in
  absolute_acc acc /\ clean acc /\ head acc <> Some DOT.
Proof.
  cbn [norm]. change (SLASH =? SLASH) with true. cbn [andb].
  change (SLASH =? DOT) with false. cbv iota. apply norm_clean; [done|done|by intros [=]].
Qed.

Lemma absolute_nonempty acc : absolute_acc acc -> exists x r, acc = x :: r.
Proof. destruct acc as [|x r]; [done|]. by exists x, r. Qed.

Lemma rev_absolute acc : absolute_acc acc -> head (rev acc) = Some SLASH.
Proof.
  unfold absolute_acc. intros H. destruct (rev acc) as [|y r] eqn:E.
  - apply (f_equal (@rev Z)) in E. rewrite rev_involutive in E. by subst.
  - apply (f_equal (@rev Z)) in E. rewrite rev_involutive in E. subst. simpl in H.
    by rewrite last_snoc in H.
Qed.

(** ** Lemmas: decimal conversions *)

Lemma dec_value_snoc ds d : dec_value (ds ++ [d]) = dec_value ds * 10 + (d - 48).
Proof. unfold dec_value. by rewrite fold_left_app. Qed.

Lemma dec_value_acc ds a :
  fold_left (fun a c => a * 10 + (c - 48)) ds a = a * 10 ^ Z.of_nat (length ds) + dec_value ds.
Proof.
  revert a. induction ds as [|d ds IH] using rev_ind; intros a.
  - unfold dec_value. simpl. lia.
  - rewrite fold_left_app, dec_value_snoc, length_app. simpl.
    rewrite IH, Nat2Z.inj_add, Z.pow_add_r by lia. simpl. nia.
Qed.

Lemma is_digit_spec c : is_digit c = true <-> 48 <= c <= 57.
Proof. unfold is_digit. lia. Qed.

Lemma dec_value_nonneg ds : Forall (fun c => is_digit c = true) ds -> 0 <= dec_value ds.
Proof.
  induction ds as [|d ds IH] using rev_ind; intros H; [unfold dec_value; simpl; lia|].
  apply Forall_app in H as [H1 H2]. apply Forall_inv in H2. cbv beta in H2.
  rewrite dec_value_snoc. apply is_digit_spec in H2. specialize (IH H1). lia.
Qed.

Lemma to_chars_loop_spec fuel v acc :
  0 <= v < 10 ^ Z.of_nat fuel -> (0 < fuel)%nat ->
  exists ds, to_chars_loop fuel v acc = ds ++ acc /\ ds <> [] /\ (length ds <= fuel)%nat /\
             Forall (fun c => is_digit c = true) ds /\ dec_value ds = v.
Proof.
  revert v acc. induction fuel as [|f IH]; intros v acc Hv Hf; [lia|]. cbn [to_chars_loop].
  destruct (Z.ltb_spec v 10) as [Hs|Hs].
  - exists [48 + v]. split_and!; [done|done|simpl; lia| |unfold dec_value; simpl; lia].
    constructor; [apply is_digit_spec; lia|constructor].
  - rewrite Nat2Z.inj_succ, Z.pow_succ_r in Hv by lia.
    assert (Hq : 0 <= v / 10 < 10 ^ Z.of_nat f)
      by (split; [apply Z.div_pos; lia | apply Z.div_lt_upper_bound; lia]).
    assert (Hf' : (0 < f)%nat).
    { destruct f; [|lia]. simpl in Hv. lia. }
    destruct (IH (v / 10) ((48 + v mod 10) :: acc) Hq Hf') as (ds & E & Hne & Hlen & Hd & Hval).
    exists (ds ++ [48 + v mod 10]). rewrite E.
    pose proof (Z.mod_pos_bound v 10 ltac:(lia)).
    split_and!.
    + by rewrite <- app_assoc.
    + by destruct ds.
    + rewrite length_app. simpl. lia.
    + apply Forall_app. split; [done|]. constructor; [apply is_digit_spec; lia|constructor].
    + rewrite dec_value_snoc, Hval. pose proof (Z.div_mod v 10). lia.
Qed.

Lemma to_chars_uint_spec v :
  0 <= v < 2 ^ 64 ->
  to_chars_uint v <> [] /\ (length (to_chars_uint v) <= 20)%nat /\
  Forall (fun c => is_digit c = true) (to_chars_uint v) /\ dec_value (to_chars_uint v) = v.
Proof.
  intros Hv. destruct (to_chars_loop_spec 20 v []) as (ds & E & H); [|lia|].
  - split; [lia|]. etransitivity; [apply Hv|]. reflexivity.
  - unfold to_chars_uint. rewrite E, app_nil_r. done.
Qed.

Lemma span_digits ds :
  Forall (fun c => is_digit c = true) ds -> span is_digit ds = (ds, []).
Proof. intros H. by rewrite <- (app_nil_r ds) at 1; apply span_all. Qed.

Lemma span_rest_nil {A} (p : A -> bool) (s : list A) :
  (span p s).2 = [] -> (span p s).1 = s /\ Forall (fun x => p x = true) s.
Proof.
  intros H. pose proof (span_app p s) as E. rewrite H, app_nil_r in E.
  split; [done|]. rewrite <- E. apply span_prefix.
Qed.

Lemma from_chars_uint_all w ds :
  ds <> [] -> Forall (fun c => is_digit c = true) ds ->
  from_chars_uint w ds = if dec_value ds <? 2 ^ w then FcOk (dec_value ds) [] else FcRange [].
Proof. intros Hne Hd. unfold from_chars_uint. rewrite span_digits by done. by destruct ds. Qed.

Lemma UInt64ToStr_eq v fb : 0 <= v < 2 ^ 64 -> UInt64ToStr v fb = to_chars_uint v.
Proof.
  intros Hv. destruct (to_chars_uint_spec v Hv) as (_ & Hl & _). unfold UInt64ToStr.
  by replace (_ <=? 21)%nat with true by lia.
Qed.

Lemma StrToUInt64_nonneg s v : StrToUInt64 s = Some v -> 0 <= v.
Proof.
  unfold StrToUInt64, from_chars_uint. destruct s as [|c s]; [done|].
  pose proof (span_prefix is_digit (c :: s)) as Hp.
  destruct (span is_digit (c :: s)) as [[|d ds] rest]; [done|].
  destruct (dec_value (d :: ds) <? 2 ^ 64); [|done]. destruct rest; [|done].
  intros [= <-]. by apply dec_value_nonneg.
Qed.

(** ** Properties *)

(** C18: path-traversal defence.  For every request path starting with [/], the
    in-place normaliser succeeds, keeps the buffer's length, returns a view no
    longer than the input that still starts with [/], and the view holds no
    [//] and no [.] or [..] segment. *)
Theorem normalize_safe r :
  exists buf n,
    NormalizeURIPathInplace (SLASH :: r) = Some (buf, n) /\
    length buf = length (SLASH :: r) /\ (n <= length buf)%nat /\
    head (take n buf) = Some SLASH /\
    no_double_slash (take n buf) /\ no_dot_segments (take n buf).
Proof.
  destruct (norm_absolute r) as (Ha & Hc & Hh).
  destruct (normalize_spec (SLASH :: r) ltac:(done)) as (buf & n & E & Hl & Hn & Ht).
  destruct (absolute_nonempty _ Ha) as (x & acc & Eacc). rewrite Eacc in *.
  exists buf, n. rewrite Ht. split_and!; [done|done|lia|by apply rev_absolute|by apply clean_no_double_slash|].
  apply segments_no_dots. intros s. apply dots_followed_segments. by apply clean_dots_followed.
Qed.

(** The normaliser is idempotent: normalising the view it returned for an
    absolute path without NUL bytes changes nothing. *)
Theorem normalize_idempotent r p :
  NUL ∉ r -> normalized (SLASH :: r) = Some p -> normalized p = Some p.
Proof.
  intros Hn Hp. destruct (norm_absolute r) as (Ha & Hc & Hh).
  rewrite normalized_norm in Hp by done.
  destruct (absolute_nonempty _ Ha) as (x & acc & Eacc).
  assert (Hn' : NUL ∉ norm [] (SLASH :: r)).
  { intros [H|H]%norm_subset; [by apply elem_of_nil in H|].
    apply elem_of_cons in H as [H|H]; [done|by apply Hn]. }
  pose proof (rev_absolute _ Ha) as Hr.
  pose proof (clean_stable _ Hc Hh Hn') as Hs.
  rewrite Eacc in *. assert (p = rev (x :: acc)) as -> by congruence. clear Hp.
  assert (Hne : rev (x :: acc) <> []) by (intros E; by rewrite E in Hr).
  rewrite normalized_norm by exact Hne.
  rewrite norm_stable, app_nil_r, rev_involutive by done. done.
Qed.

Lemma normalize_idempotent_witness :
  (NUL ∉ lit "a/../b//./c") /\
  normalized (SLASH :: lit "a/../b//./c") = Some (lit "/b/c") /\
  normalized (lit "/b/c") = Some (lit "/b/c").
Proof.
  assert (H : NUL ∉ lit "a/../b//./c") by (apply find_char_None; reflexivity).
  assert (E : normalized (SLASH :: lit "a/../b//./c") = Some (lit "/b/c")) by (vm_compute; reflexivity).
  split; [exact H|]. split; [exact E|]. exact (normalize_idempotent _ _ H E).
Defined.

(** The dot tests look at the bytes after the dot only: a segment that merely
    ends in a dot loses it together with the slash that follows. *)
Example normalize_trailing_dot : normalized (lit "/foo./bar") = Some (lit "/foobar").
Proof. vm_compute. reflexivity. Qed.

(** [StrToUInt64] accepts exactly the non-empty all-digit strings whose
    value fits in 64 bits, and returns that value. *)
Theorem StrToUInt64_spec s v :
  StrToUInt64 s = Some v <->
  s <> [] /\ Forall (fun c => is_digit c = true) s /\ v = dec_value s /\ v < 2 ^ 64.
Proof.
  destruct s as [|c r]; [simpl; split; [done|intros [? _]; done]|].
  unfold StrToUInt64, from_chars_uint.
  destruct (span is_digit (c :: r)) as [ds rest] eqn:E.
  pose proof (span_prefix is_digit (c :: r)) as Hp. pose proof (span_app is_digit (c :: r)) as Ha.
  rewrite E in Hp, Ha. cbn [fst snd] in Hp, Ha. split.
  - destruct ds as [|d ds]; [done|].
    destruct (Z.ltb_spec (dec_value (d :: ds)) (2 ^ 64)); [|done].
    destruct rest; [|done]. intros [= <-]. rewrite app_nil_r in Ha. rewrite <- Ha. done.
  - intros (_ & Hall & -> & Hlt). rewrite span_digits in E by done. injection E as <- <-.
    apply Z.ltb_lt in Hlt. by rewrite Hlt.
Qed.

(** [StrToUInt64] inverts [UInt64ToStr] on every 64-bit value. *)
Theorem UInt64ToStr_roundtrip v fallback :
  is_uint 64 v -> StrToUInt64 (UInt64ToStr v fallback) = Some v.
Proof.
  intros Hv. rewrite UInt64ToStr_eq by done.
  destruct (to_chars_uint_spec v Hv) as (Hne & _ & Hd & Hval).
  unfold StrToUInt64. rewrite from_chars_uint_all, Hval by done.
  replace (v <? 2 ^ 64) with true by (symmetry; apply Z.ltb_lt, Hv).
  by destruct (to_chars_uint v).
Qed.

Lemma UInt64ToStr_roundtrip_witness :
  is_uint 64 (2 ^ 64 - 1) /\
  StrToUInt64 (UInt64ToStr (2 ^ 64 - 1) (lit "NaN")) = Some (2 ^ 64 - 1).
Proof.
  assert (H : is_uint 64 (2 ^ 64 - 1)) by (split; [discriminate|reflexivity]).
  split; [exact H|]. exact (UInt64ToStr_roundtrip _ (lit "NaN") H).
Defined.

(** The three case-insensitive comparisons agree: the constant-time one and
    the early-exit one both decide equality of the lower-cased strings, and
    [CTStringCompare] decides equality. *)
Theorem string_compare_spec l r :
  (CTStringCompare l r = true <-> l = r) /\
  (CTInsensitiveStringCompare l r = true <-> map ToLowerAscii l = map ToLowerAscii r) /\
  InsensitiveStringCompare l r = CTInsensitiveStringCompare l r.
Proof.
  unfold CTStringCompare, CTInsensitiveStringCompare, InsensitiveStringCompare.
  destruct (Nat.eqb_spec (length l) (length r)) as [Hl|Hl]; cbn [negb].
  - rewrite Z.eqb_eq, Z.eqb_eq, !ct_acc_zero, !map_id by done.
    split_and!; [tauto|tauto|]. apply eq_true_iff_eq.
    rewrite insensitive_loop_spec, Z.eqb_eq, ct_acc_zero by done. tauto.
  - split_and!; [| |done].
    + split; [done|]. by intros ->.
    + split; [done|]. intros H. apply (f_equal length) in H. by rewrite !length_map in H.
Qed.

End StringUtils.
