(* ===== verification/Constants.v ===== *)
(** * Constants: [shared/abis/constants.hpp]

    The HTTP method, status and version enumerations shared by the server, the
    user binary and the outbound client, and the conversions between them and
    their wire form. *)

From S2P Require Import Prelude.

Module Constants.

Inductive HttpMethod : Type :=
  GET | POST | PUT | DELETE | PATCH | HEAD | OPTIONS | CONNECT | TRACE | UNKNOWN_METHOD.

Inductive HttpVersion : Type := HTTP_1_0 | HTTP_1_1 | HTTP_2_0 | UNKNOWN_VERSION.

#[export] Instance HttpMethod_eq_dec : EqDecision HttpMethod.
Proof. solve_decision. Defined.

#[export] Instance HttpVersion_eq_dec : EqDecision HttpVersion.
Proof. solve_decision. Defined.

(** Every named status. *)
Inductive HttpStatus : Type :=
| CONTINUE
| SWITCHING_PROTOCOLS
| PROCESSING
| EARLY_HINTS
| OK
| CREATED
| ACCEPTED
| NON_AUTHORITATIVE_INFO
| NO_CONTENT
| RESET_CONTENT
| PARTIAL_CONTENT
| MULTI_STATUS
| ALREADY_REPORTED
| IM_USED
| MULTIPLE_CHOICES
| MOVED_PERMANENTLY
| FOUND
| SEE_OTHER
| NOT_MODIFIED
| USE_PROXY
| TEMPORARY_REDIRECT
| PERMANENT_REDIRECT
| BAD_REQUEST
| UNAUTHORIZED
| PAYMENT_REQUIRED
| FORBIDDEN
| NOT_FOUND
| METHOD_NOT_ALLOWED
| NOT_ACCEPTABLE
| PROXY_AUTHENTICATION_REQUIRED
| REQUEST_TIMEOUT
| CONFLICT
| GONE
| LENGTH_REQUIRED
| PRECONDITION_FAILED
| PAYLOAD_TOO_LARGE
| URI_TOO_LONG
| UNSUPPORTED_MEDIA_TYPE
| RANGE_NOT_SATISFIABLE
| EXPECTATION_FAILED
| IM_A_TEAPOT
| MISDIRECTED_REQUEST
| UNPROCESSABLE_ENTITY
| LOCKED
| FAILED_DEPENDENCY
| TOO_EARLY
| UPGRADE_REQUIRED
| PRECONDITION_REQUIRED
| TOO_MANY_REQUESTS
| REQUEST_HEADER_FIELDS_TOO_LARGE
| UNAVAILABLE_FOR_LEGAL_REASONS
| INTERNAL_SERVER_ERROR
| NOT_IMPLEMENTED
| BAD_GATEWAY
| SERVICE_UNAVAILABLE
| GATEWAY_TIMEOUT
| HTTP_VERSION_NOT_SUPPORTED
| VARIANT_ALSO_NEGOTIATES
| INSUFFICIENT_STORAGE
| LOOP_DETECTED
| NOT_EXTENDED
| NETWORK_AUTHENTICATION_REQUIRED.

#[export] Instance HttpStatus_eq_dec : EqDecision HttpStatus.
Proof. solve_decision. Defined.

(** The underlying [std::uint16_t]. *)
Definition HttpStatus_value (s : HttpStatus) : Z :=
  match s with
  | CONTINUE => 100
  | SWITCHING_PROTOCOLS => 101
  | PROCESSING => 102
  | EARLY_HINTS => 103
  | OK => 200
  | CREATED => 201
  | ACCEPTED => 202
  | NON_AUTHORITATIVE_INFO => 203
  | NO_CONTENT => 204
  | RESET_CONTENT => 205
  | PARTIAL_CONTENT => 206
  | MULTI_STATUS => 207
  | ALREADY_REPORTED => 208
  | IM_USED => 226
  | MULTIPLE_CHOICES => 300
  | MOVED_PERMANENTLY => 301
  | FOUND => 302
  | SEE_OTHER => 303
  | NOT_MODIFIED => 304
  | USE_PROXY => 305
  | TEMPORARY_REDIRECT => 307
  | PERMANENT_REDIRECT => 308
  | BAD_REQUEST => 400
  | UNAUTHORIZED => 401
  | PAYMENT_REQUIRED => 402
  | FORBIDDEN => 403
  | NOT_FOUND => 404
  | METHOD_NOT_ALLOWED => 405
  | NOT_ACCEPTABLE => 406
  | PROXY_AUTHENTICATION_REQUIRED => 407
  | REQUEST_TIMEOUT => 408
  | CONFLICT => 409
  | GONE => 410
  | LENGTH_REQUIRED => 411
  | PRECONDITION_FAILED => 412
  | PAYLOAD_TOO_LARGE => 413
  | URI_TOO_LONG => 414
  | UNSUPPORTED_MEDIA_TYPE => 415
  | RANGE_NOT_SATISFIABLE => 416
  | EXPECTATION_FAILED => 417
  | IM_A_TEAPOT => 418
  | MISDIRECTED_REQUEST => 421
  | UNPROCESSABLE_ENTITY => 422
  | LOCKED => 423
  | FAILED_DEPENDENCY => 424
  | TOO_EARLY => 425
  | UPGRADE_REQUIRED => 426
  | PRECONDITION_REQUIRED => 428
  | TOO_MANY_REQUESTS => 429
  | REQUEST_HEADER_FIELDS_TOO_LARGE => 431
  | UNAVAILABLE_FOR_LEGAL_REASONS => 451
  | INTERNAL_SERVER_ERROR => 500
  | NOT_IMPLEMENTED => 501
  | BAD_GATEWAY => 502
  | SERVICE_UNAVAILABLE => 503
  | GATEWAY_TIMEOUT => 504
  | HTTP_VERSION_NOT_SUPPORTED => 505
  | VARIANT_ALSO_NEGOTIATES => 506
  | INSUFFICIENT_STORAGE => 507
  | LOOP_DETECTED => 508
  | NOT_EXTENDED => 510
  | NETWORK_AUTHENTICATION_REQUIRED => 511
  end.

Definition all_statuses : list HttpStatus :=
  [CONTINUE; SWITCHING_PROTOCOLS; PROCESSING; EARLY_HINTS;
   OK; CREATED; ACCEPTED; NON_AUTHORITATIVE_INFO;
   NO_CONTENT; RESET_CONTENT; PARTIAL_CONTENT; MULTI_STATUS;
   ALREADY_REPORTED; IM_USED; MULTIPLE_CHOICES; MOVED_PERMANENTLY;
   FOUND; SEE_OTHER; NOT_MODIFIED; USE_PROXY;
   TEMPORARY_REDIRECT; PERMANENT_REDIRECT; BAD_REQUEST; UNAUTHORIZED;
   PAYMENT_REQUIRED; FORBIDDEN; NOT_FOUND; METHOD_NOT_ALLOWED;
   NOT_ACCEPTABLE; PROXY_AUTHENTICATION_REQUIRED; REQUEST_TIMEOUT; CONFLICT;
   GONE; LENGTH_REQUIRED; PRECONDITION_FAILED; PAYLOAD_TOO_LARGE;
   URI_TOO_LONG; UNSUPPORTED_MEDIA_TYPE; RANGE_NOT_SATISFIABLE; EXPECTATION_FAILED;
   IM_A_TEAPOT; MISDIRECTED_REQUEST; UNPROCESSABLE_ENTITY; LOCKED;
   FAILED_DEPENDENCY; TOO_EARLY; UPGRADE_REQUIRED; PRECONDITION_REQUIRED;
   TOO_MANY_REQUESTS; REQUEST_HEADER_FIELDS_TOO_LARGE; UNAVAILABLE_FOR_LEGAL_REASONS; INTERNAL_SERVER_ERROR;
   NOT_IMPLEMENTED; BAD_GATEWAY; SERVICE_UNAVAILABLE; GATEWAY_TIMEOUT;
   HTTP_VERSION_NOT_SUPPORTED; VARIANT_ALSO_NEGOTIATES; INSUFFICIENT_STORAGE; LOOP_DETECTED;
   NOT_EXTENDED; NETWORK_AUTHENTICATION_REQUIRED].

(** The enumerator a [std::uint16_t] stands for, if it is a named one. *)
Definition status_of_value (code : Z) : option HttpStatus :=
  list_find (fun s => HttpStatus_value s = code) all_statuses ≫= fun p => Some p.2.

Definition status_reason (s : HttpStatus) : bytes :=
  match s with
  | CONTINUE => lit "Continue"
  | SWITCHING_PROTOCOLS => lit "Switching Protocols"
  | PROCESSING => lit "Processing"
  | EARLY_HINTS => lit "Early Hints"
  | OK => lit "OK"
  | CREATED => lit "Created"
  | ACCEPTED => lit "Accepted"
  | NON_AUTHORITATIVE_INFO => lit "Non-Authoritative Information"
  | NO_CONTENT => lit "No Content"
  | RESET_CONTENT => lit "Reset Content"
  | PARTIAL_CONTENT => lit "Partial Content"
  | MULTI_STATUS => lit "Multi-Status"
  | ALREADY_REPORTED => lit "Already Reported"
  | IM_USED => lit "IM Used"
  | MULTIPLE_CHOICES => lit "Multiple Choices"
  | MOVED_PERMANENTLY => lit "Moved Permanently"
  | FOUND => lit "Found"
  | SEE_OTHER => lit "See Other"
  | NOT_MODIFIED => lit "Not Modified"
  | USE_PROXY => lit "Use Proxy"
  | TEMPORARY_REDIRECT => lit "Temporary Redirect"
  | PERMANENT_REDIRECT => lit "Permanent Redirect"
  | BAD_REQUEST => lit "Bad Request"
  | UNAUTHORIZED => lit "Unauthorized"
  | PAYMENT_REQUIRED => lit "Payment Required"
  | FORBIDDEN => lit "Forbidden"
  | NOT_FOUND => lit "Not Found"
  | METHOD_NOT_ALLOWED => lit "Method Not Allowed"
  | NOT_ACCEPTABLE => lit "Not Acceptable"
  | PROXY_AUTHENTICATION_REQUIRED => lit "Proxy Authentication Required"
  | REQUEST_TIMEOUT => lit "Request Timeout"
  | CONFLICT => lit "Conflict"
  | GONE => lit "Gone"
  | LENGTH_REQUIRED => lit "Length Required"
  | PRECONDITION_FAILED => lit "Precondition Failed"
  | PAYLOAD_TOO_LARGE => lit "Payload Too Large"
  | URI_TOO_LONG => lit "URI Too Long"
  | UNSUPPORTED_MEDIA_TYPE => lit "Unsupported Media Type"
  | RANGE_NOT_SATISFIABLE => lit "Range Not Satisfiable"
  | EXPECTATION_FAILED => lit "Expectation Failed"
  | IM_A_TEAPOT => lit "I'm a teapot"
  | MISDIRECTED_REQUEST => lit "Misdirected Request"
  | UNPROCESSABLE_ENTITY => lit "Unprocessable Entity"
  | LOCKED => lit "Locked"
  | FAILED_DEPENDENCY => lit "Failed Dependency"
  | TOO_EARLY => lit "Too Early"
  | UPGRADE_REQUIRED => lit "Upgrade Required"
  | PRECONDITION_REQUIRED => lit "Precondition Required"
  | TOO_MANY_REQUESTS => lit "Too Many Requests"
  | REQUEST_HEADER_FIELDS_TOO_LARGE => lit "Request Header Fields Too Large"
  | UNAVAILABLE_FOR_LEGAL_REASONS => lit "Unavailable For Legal Reasons"
  | INTERNAL_SERVER_ERROR => lit "Internal Server Error"
  | NOT_IMPLEMENTED => lit "Not Implemented"
  | BAD_GATEWAY => lit "Bad Gateway"
  | SERVICE_UNAVAILABLE => lit "Service Unavailable"
  | GATEWAY_TIMEOUT => lit "Gateway Timeout"
  | HTTP_VERSION_NOT_SUPPORTED => lit "HTTP Version Not Supported"
  | VARIANT_ALSO_NEGOTIATES => lit "Variant Also Negotiates"
  | INSUFFICIENT_STORAGE => lit "Insufficient Storage"
  | LOOP_DETECTED => lit "Loop Detected"
  | NOT_EXTENDED => lit "Not Extended"
  | NETWORK_AUTHENTICATION_REQUIRED => lit "Network Authentication Required"
  end.

(** [switch(code)] on the enum's value; a value with no case is "Unknown". *)
Definition HttpStatusToReason (code : Z) : bytes :=
  match status_of_value code with
  | Some s => status_reason s
  | None => lit "Unknown"
  end.

Definition HttpMethodToEnum (method : bytes) : HttpMethod :=
  if sv_eq method (lit "GET") then GET
  else if sv_eq method (lit "POST") then POST
  else if sv_eq method (lit "PUT") then PUT
  else if sv_eq method (lit "DELETE") then DELETE
  else if sv_eq method (lit "PATCH") then PATCH
  else if sv_eq method (lit "HEAD") then HEAD
  else if sv_eq method (lit "OPTIONS") then OPTIONS
  else if sv_eq method (lit "CONNECT") then CONNECT
  else if sv_eq method (lit "TRACE") then TRACE
  else UNKNOWN_METHOD.

Definition HttpMethodToStringView (method : HttpMethod) : bytes :=
  match method with
  | GET => lit "GET"
  | POST => lit "POST"
  | PUT => lit "PUT"
  | DELETE => lit "DELETE"
  | PATCH => lit "PATCH"
  | HEAD => lit "HEAD"
  | OPTIONS => lit "OPTIONS"
  | CONNECT => lit "CONNECT"
  | TRACE => lit "TRACE"
  | UNKNOWN_METHOD => lit "GET"
  end.

Definition HttpVersionToEnum (version : bytes) : HttpVersion :=
  if sv_eq version (lit "HTTP/1.1") then HTTP_1_1
  else if sv_eq version (lit "HTTP/1.0") then HTTP_1_0
  else if sv_eq version (lit "HTTP/2.0") then HTTP_2_0
  else UNKNOWN_VERSION.

(** ** Lemmas *)

Lemma HttpVersionToEnum_known v : HttpVersionToEnum v <> UNKNOWN_VERSION -> length v = 8%nat.
Proof.
  unfold HttpVersionToEnum. repeat case_goal; try done;
    match goal with H : sv_eq _ _ = true |- _ => apply sv_eq_true in H as -> end; done.
Qed.

(** ** Properties *)

(** The method token and the enumerator determine each other: parsing the
    token the outbound client writes gives the method back, and a token that
    parses to a method is exactly the one written for it, so no other spelling
    (case, whitespace) is accepted. *)
Theorem HttpMethod_roundtrip (m : HttpMethod) (tok : bytes) :
  (m <> UNKNOWN_METHOD -> HttpMethodToEnum (HttpMethodToStringView m) = m) /\
  (HttpMethodToEnum tok = m -> m <> UNKNOWN_METHOD -> tok = HttpMethodToStringView m).
Proof.
  split.
  - destruct m; [reflexivity..|done].
  - unfold HttpMethodToEnum. intros <-.
    repeat (case_goal; [match goal with H : sv_eq _ _ = true |- _ => by apply sv_eq_true in H end|]).
    done.
Qed.

Lemma HttpMethod_roundtrip_witness :
  HttpMethodToEnum (HttpMethodToStringView PATCH) = PATCH /\ lit "PATCH" = HttpMethodToStringView PATCH.
Proof.
  split; [apply (HttpMethod_roundtrip PATCH []); discriminate|].
  apply (HttpMethod_roundtrip PATCH (lit "PATCH")); [reflexivity|discriminate].
Defined.

End Constants.
