(* ===== verification/RWBuffer.v ===== *)
(** * RWBuffer: [utils/rw_buffer/rw_buffer.cpp]

    The two heap blocks of a connection, each [ metadata | data ].  A block is
    modelled by its metadata fields, the address of its data and the data bytes
    themselves ([b_mem], everything the allocation holds past the metadata), so
    that lengths computed in [uint32_t] and the real allocation size can differ.

    [Shared::Alloc] and [Shared::Realloc] (the TLSF pool, third-party code) are
    parameters; what the code relies on is stated as [alloc_ok]/[realloc_ok]. *)

From S2P Require Import Prelude.

Module RWBuffer.

Record block := Block {
  b_base : Z;              (* address of the first data byte *)
  b_bufferSize : Z;        (* std::uint32_t bufferSize *)
  b_dataLength : Z;        (* std::uint32_t dataLength *)
  b_writtenLength : Z;     (* std::uint32_t writtenLength, write buffer only *)
  b_mem : bytes            (* the data area of the allocation *)
}.

Record rwbuffer := RW {
  readBuffer_ : option block;
  writeBuffer_ : option block
}.

Definition empty_rw : rwbuffer := RW None None.

(** [sizeof(ReadMetadata)] and [sizeof(WriteMetadata)]: both [alignas(8)]. *)
Definition sizeof_ReadMetadata : Z := 8.
Definition sizeof_WriteMetadata : Z := 16.

(** ** The allocator *)

(** A block obtained for [n] bytes: its address and its [n] bytes. *)
Class Allocator := {
  Alloc : Z -> option (Z * bytes);
  Realloc : Z * bytes -> Z -> option (Z * bytes)
}.

(** Documented behaviour of [malloc]/[realloc]: the block has the requested
    size, and [realloc] preserves the bytes both blocks have room for. *)
Class AllocatorOk `{Allocator} : Prop := {
  alloc_ok n addr m : Alloc n = Some (addr, m) -> 0 <= n -> Z.of_nat (length m) = n;
  realloc_ok old n addr m :
    Realloc old n = Some (addr, m) -> 0 <= n ->
    Z.of_nat (length m) = n /\
    take (Nat.min (length (snd old)) (Z.to_nat n)) m =
    take (Nat.min (length (snd old)) (Z.to_nat n)) (snd old)
}.

Section ops.
Context `{Allocator}.

(** The allocation holds the metadata first: the data area starts
    [metaSize] bytes in. *)
Definition alloc_block (metaSize allocSize size : Z) : option block :=
  match Alloc allocSize with
  | Some (addr, m) =>
      Some (Block (addr + metaSize) size 0 0 (drop (Z.to_nat metaSize) m))
  | None => None
  end.

(** [Realloc(buffer, allocSize)]: the metadata bytes are part of the preserved
    prefix; [hdr] stands for them. *)
Definition realloc_block (metaSize allocSize newSize : Z) (b : block) : option block :=
  let hdr := replicate (Z.to_nat metaSize) 0 in
  match Realloc (b_base b - metaSize, hdr ++ b_mem b) allocSize with
  | Some (addr, m) =>
      Some (Block (addr + metaSize) (u32 newSize) (b_dataLength b) (b_writtenLength b)
                  (drop (Z.to_nat metaSize) m))
  | None => None
  end.

(** ** Initialisation *)

Definition InitReadBuffer (size : Z) (rw : rwbuffer) : bool * rwbuffer :=
  match readBuffer_ rw with
  | Some _ => (true, rw)
  | None =>
      match alloc_block sizeof_ReadMetadata (sizeof_ReadMetadata + size) size with
      | Some b => (true, RW (Some b) (writeBuffer_ rw))
      | None => (false, rw)
      end
  end.

Definition InitWriteBuffer (size : Z) (rw : rwbuffer) : bool * rwbuffer :=
  match writeBuffer_ rw with
  | Some _ => (true, rw)
  | None =>
      match alloc_block sizeof_WriteMetadata (sizeof_WriteMetadata + size) size with
      | Some b => (true, RW (readBuffer_ rw) (Some b))
      | None => (false, rw)
      end
  end.

(** Both blocks are freed. *)
Definition ResetBuffer (_ : rwbuffer) : rwbuffer := RW None None.

Definition clear_block (b : block) : block :=
  Block (b_base b) (b_bufferSize b) 0 0 (b_mem b).

Definition ClearReadBuffer (rw : rwbuffer) : rwbuffer :=
  RW (clear_block <$> readBuffer_ rw) (writeBuffer_ rw).

Definition ClearWriteBuffer (rw : rwbuffer) : rwbuffer :=
  RW (readBuffer_ rw) (clear_block <$> writeBuffer_ rw).

Definition ClearBuffer (rw : rwbuffer) : rwbuffer := ClearWriteBuffer (ClearReadBuffer rw).

(** ** Generic buffer management *)

Definition GenericGrowBuffer (metaSize growSize maxSize minSize : Z) (b : block) : option block :=
  if maxSize <=? b_bufferSize b then None
  else if maxSize <? minSize then None
  else
    let newSize := if growSize =? 0 then maxSize else b_bufferSize b + growSize in
    let newSize := if newSize <? minSize then minSize else newSize in
    let newSize := if maxSize <? newSize then maxSize else newSize in
    realloc_block metaSize (u32 (metaSize + newSize)) newSize b.

(** [std::memcpy(dest, data, size)] at offset [off] of the data area. *)
Definition memcpy_at (off : nat) (data mem : bytes) : bytes :=
  take off mem ++ data ++ drop (off + length data) mem.

Definition append_at_end (data : bytes) (b : block) : block :=
  Block (b_base b) (b_bufferSize b) (u32 (b_dataLength b + Z.of_nat (length data)))
        (b_writtenLength b) (memcpy_at (Z.to_nat (b_dataLength b)) data (b_mem b)).

Definition append_new_size (b : block) (required growSize maxSize : Z) : Z :=
  let newSize :=
    if growSize =? 0 then required
    else let deficit := required - b_bufferSize b in
         let steps := (deficit + growSize - 1) / growSize in
         b_bufferSize b + steps * growSize in
  if maxSize <? newSize then maxSize else newSize.

Definition GenericAppendData (metaSize : Z) (data : bytes) (growSize maxSize : Z) (b : block)
  : option block :=
  if Z.of_nat (length data) =? 0 then None
  else
    let required := b_dataLength b + Z.of_nat (length data) in
    if b_bufferSize b <? required then
      if maxSize <? required then None
      else
        let newSize := append_new_size b required growSize maxSize in
        match realloc_block metaSize (u32 (metaSize + newSize)) newSize b with
        | Some b' => Some (append_at_end data b')
        | None => None
        end
    else Some (append_at_end data b).

(** ** Read buffer *)

Definition on_read (rw : rwbuffer) (f : block -> option block) : bool * rwbuffer :=
  match readBuffer_ rw with
  | None => (false, rw)
  | Some b => match f b with
              | Some b' => (true, RW (Some b') (writeBuffer_ rw))
              | None => (false, rw)
              end
  end.

Definition on_write (rw : rwbuffer) (f : block -> option block) : bool * rwbuffer :=
  match writeBuffer_ rw with
  | None => (false, rw)
  | Some b => match f b with
              | Some b' => (true, RW (readBuffer_ rw) (Some b'))
              | None => (false, rw)
              end
  end.

Definition GrowReadBuffer (growSize maxSize minSize : Z) (rw : rwbuffer) : bool * rwbuffer :=
  on_read rw (GenericGrowBuffer sizeof_ReadMetadata growSize maxSize minSize).

Definition AppendReadData (data : bytes) (incSize maxSize : Z) (rw : rwbuffer) : bool * rwbuffer :=
  on_read rw (GenericAppendData sizeof_ReadMetadata data incSize maxSize).

(** [std::min(dataLength + n, bufferSize)], the sum in [uint32_t]. *)
Definition AdvanceReadLength (n : Z) (rw : rwbuffer) : rwbuffer :=
  match readBuffer_ rw with
  | None => rw
  | Some b =>
      RW (Some (Block (b_base b) (b_bufferSize b)
                      (Z.min (u32 (b_dataLength b + n)) (b_bufferSize b))
                      (b_writtenLength b) (b_mem b)))
         (writeBuffer_ rw)
  end.

(** Offset of the free space in the data area, and its length. *)
Definition GetWritableReadRegion (rw : rwbuffer) : option (Z * Z) :=
  match readBuffer_ rw with
  | None => None
  | Some b => Some (b_dataLength b, u32 (b_bufferSize b - b_dataLength b))
  end.

(** ** Write buffer *)

Definition GrowWriteBuffer (growSize maxSize : Z) (rw : rwbuffer) : bool * rwbuffer :=
  on_write rw (GenericGrowBuffer sizeof_WriteMetadata growSize maxSize 0).

Definition AppendWriteData (data : bytes) (incSize maxSize : Z) (rw : rwbuffer) : bool * rwbuffer :=
  on_write rw (GenericAppendData sizeof_WriteMetadata data incSize maxSize).

Definition AdvanceWriteLength (n : Z) (rw : rwbuffer) : rwbuffer :=
  match writeBuffer_ rw with
  | None => rw
  | Some b =>
      RW (readBuffer_ rw)
         (Some (Block (b_base b) (b_bufferSize b) (b_dataLength b)
                      (Z.min (u32 (b_writtenLength b + n)) (b_dataLength b)) (b_mem b)))
  end.

(** [std::memmove] of the unsent tail down to offset 0. *)
Definition CompactWriteBuffer (rw : rwbuffer) : rwbuffer :=
  match writeBuffer_ rw with
  | None => rw
  | Some b =>
      if b_writtenLength b =? 0 then rw
      else
        let remaining := u32 (b_dataLength b - b_writtenLength b) in
        let tail := take (Z.to_nat remaining) (drop (Z.to_nat (b_writtenLength b)) (b_mem b)) in
        RW (readBuffer_ rw)
           (Some (Block (b_base b) (b_bufferSize b) remaining 0
                        (if 0 <? remaining then memcpy_at 0 tail (b_mem b) else b_mem b)))
  end.

Definition GetWritableWriteRegion (rw : rwbuffer) : option (Z * Z) :=
  match writeBuffer_ rw with
  | None => None
  | Some b => Some (b_dataLength b, u32 (b_bufferSize b - b_dataLength b))
  end.

End ops.

(** ** Invariant and views *)

(** The watermarks are ordered, and the storage behind the block is at least
    what the metadata claims. *)
Definition wf (b : block) : Prop :=
  0 <= b_writtenLength b <= b_dataLength b /\
  b_dataLength b <= b_bufferSize b < 2 ^ 32 /\
  b_bufferSize b <= Z.of_nat (length (b_mem b)).

(** The bytes received (read side) or queued (write side). *)
Definition live (b : block) : bytes := take (Z.to_nat (b_dataLength b)) (b_mem b).

(** The queued bytes not yet handed to the socket. *)
Definition pending (b : block) : bytes := drop (Z.to_nat (b_writtenLength b)) (live b).

(** ** The write side as a queue

    What [Serialize]/[Write] append, what [send] reports as flushed, and
    compaction, as steps on the write block; each carries the bytes it moved. *)

Inductive wop : Type :=
| WAppend (data : bytes) (incSize maxSize : Z)
| WAdvance (n : Z)
| WCompact.

(** The effect of one operation on (bytes accepted so far, bytes flushed so
    far, the buffer); a refused append accepts nothing. *)
Definition wstep `{Allocator} (op : wop) (st : bytes * bytes * rwbuffer) : bytes * bytes * rwbuffer :=
  let '(accepted, flushed, rw) := st in
  match op with
  | WAppend d inc mx =>
      let '(ok, rw') := AppendWriteData d inc mx rw in
      (if ok then accepted ++ d else accepted, flushed, rw')
  | WAdvance n =>
      let p := match writeBuffer_ rw with Some b => pending b | None => [] end in
      (accepted, flushed ++ take (Z.to_nat n) p, AdvanceWriteLength n rw)
  | WCompact => (accepted, flushed, CompactWriteBuffer rw)
  end.

(** [send] never reports more than it was given, and the configured maximum
    leaves room for the metadata in a [uint32_t]. *)
Definition wop_ok (op : wop) (rw : rwbuffer) : Prop :=
  match op with
  | WAppend _ inc mx => 0 <= inc /\ 0 <= mx /\ mx + sizeof_WriteMetadata < 2 ^ 32
  | WAdvance n =>
      0 <= n /\ forall b, writeBuffer_ rw = Some b -> n <= Z.of_nat (length (pending b))
  | WCompact => True
  end.

Inductive wreach `{Allocator} : bytes * bytes * rwbuffer -> Prop :=
| wreach_init size b rw :
    0 <= size < 2 ^ 32 ->
    InitWriteBuffer size empty_rw = (true, rw) -> writeBuffer_ rw = Some b ->
    wreach ([], [], rw)
| wreach_step op st :
    wreach st -> wop_ok op (snd st) -> wreach (wstep op st).

(** ** Lemmas *)

Section proofs.
Context `{AllocatorOk}.

Lemma length_live b : wf b -> Z.of_nat (length (live b)) = b_dataLength b.
Proof. intros (H1 & H2 & H3). unfold live. rewrite length_take. lia. Qed.

Lemma length_pending b : wf b -> Z.of_nat (length (pending b)) = b_dataLength b - b_writtenLength b.
Proof.
  intros Hwf. unfold pending. rewrite length_drop. pose proof (length_live b Hwf).
  destruct Hwf. lia.
Qed.

Lemma realloc_block_ok metaSize newSize b b' :
  wf b -> 0 <= metaSize -> b_bufferSize b <= newSize -> metaSize + newSize < 2 ^ 32 ->
  realloc_block metaSize (u32 (metaSize + newSize)) newSize b = Some b' ->
  wf b' /\ live b' = live b /\ b_bufferSize b' = newSize /\
  b_dataLength b' = b_dataLength b /\ b_writtenLength b' = b_writtenLength b.
Proof.
  intros Hwf Hm Hle Hlt Hr. pose proof Hwf as (H1 & H2 & H3).
  unfold realloc_block in Hr. rewrite (wrap_small 32 (metaSize + newSize)) in Hr by lia.
  destruct (Realloc _ _) as [[addr m]|] eqn:E; [|done]. injection Hr as <-.
  apply realloc_ok in E as [Hlen Htake]; [|lia]. cbn [snd] in Htake.
  unfold wf, live; cbn [b_base b_bufferSize b_dataLength b_writtenLength b_mem].
  rewrite wrap_small by lia. split_and!; try lia; [rewrite length_drop; lia|].
  rewrite !take_drop_commute.
  set (k := Z.to_nat metaSize) in *. set (d := Z.to_nat (b_dataLength b)) in *.
  set (old := replicate k 0 ++ b_mem b) in *.
  assert (Hold : length old = (k + length (b_mem b))%nat)
    by (unfold old; rewrite length_app, length_replicate; done).
  assert (Hkd : (k + d <= Nat.min (length old) (Z.to_nat (metaSize + newSize)))%nat) by (unfold k, d in *; lia).
  transitivity (drop k (take (k + d) old)).
  - f_equal. rewrite <- (Nat.min_l _ _ Hkd), <- (take_take m), <- (take_take old).
    by rewrite Htake.
  - rewrite <- take_drop_commute. unfold old.
    rewrite drop_app_length' by (by rewrite length_replicate). done.
Qed.

Lemma length_memcpy_at off data mem :
  (off + length data <= length mem)%nat -> length (memcpy_at off data mem) = length mem.
Proof. intros Hl. unfold memcpy_at. rewrite !length_app, length_take, length_drop. lia. Qed.

Lemma take_memcpy_at off data mem :
  (off + length data <= length mem)%nat ->
  take (off + length data) (memcpy_at off data mem) = take off mem ++ data.
Proof.
  intros Hl. unfold memcpy_at. rewrite app_assoc, take_app_length'; [done|].
  rewrite length_app, length_take. lia.
Qed.

Lemma append_at_end_ok data b :
  wf b -> b_dataLength b + Z.of_nat (length data) <= b_bufferSize b ->
  wf (append_at_end data b) /\ live (append_at_end data b) = live b ++ data /\
  b_writtenLength (append_at_end data b) = b_writtenLength b /\
  b_bufferSize (append_at_end data b) = b_bufferSize b.
Proof.
  intros (H1 & H2 & H3) Hfit. unfold append_at_end, wf, live; cbn [b_bufferSize b_dataLength b_writtenLength b_mem].
  rewrite wrap_small by lia. rewrite length_memcpy_at by lia.
  split_and!; try lia.
  replace (Z.to_nat (b_dataLength b + Z.of_nat (length data)))
    with (Z.to_nat (b_dataLength b) + length data)%nat by lia.
  apply take_memcpy_at. lia.
Qed.

Lemma append_new_size_ok b required growSize maxSize :
  0 <= growSize -> b_bufferSize b < required -> required <= maxSize ->
  required <= append_new_size b required growSize maxSize <= maxSize.
Proof.
  intros Hg Hr Hm. unfold append_new_size. destruct (Z.eqb_spec growSize 0) as [->|Hne].
  - destruct (Z.ltb_spec maxSize required); lia.
  - set (k := (required - b_bufferSize b + growSize - 1) / growSize).
    assert (required - b_bufferSize b <= k * growSize).
    { pose proof (Z.mul_succ_div_gt (required - b_bufferSize b + growSize - 1) growSize ltac:(lia)). unfold k. lia. }
    destruct (Z.ltb_spec maxSize (b_bufferSize b + k * growSize)); lia.
Qed.

Lemma GenericAppendData_ok metaSize data growSize maxSize b b' :
  wf b -> 0 <= metaSize -> 0 <= growSize -> maxSize + metaSize < 2 ^ 32 ->
  GenericAppendData metaSize data growSize maxSize b = Some b' ->
  wf b' /\ live b' = live b ++ data /\ b_writtenLength b' = b_writtenLength b.
Proof.
  intros Hwf Hm Hg Hmax. unfold GenericAppendData.
  destruct (Z.of_nat (length data) =? 0); [done|].
  destruct (Z.ltb_spec (b_bufferSize b) (b_dataLength b + Z.of_nat (length data))) as [Hlt|Hge].
  - destruct (Z.ltb_spec maxSize (b_dataLength b + Z.of_nat (length data))) as [|Hle]; [done|].
    pose proof (append_new_size_ok b _ growSize maxSize Hg Hlt Hle) as Hnew.
    set (ns := append_new_size _ _ _ _) in *.
    destruct (realloc_block _ _ _ b) as [b1|] eqn:E; [|done]. intros [= <-].
    apply realloc_block_ok in E as (Hwf1 & Hlive & Hbs & Hdl & Hwl); [|done|done|destruct Hwf; lia|lia].
    destruct (append_at_end_ok data b1 Hwf1) as (Ha & Hb & Hc & _); [lia|].
    split; [done|]. split; [by rewrite Hb, Hlive|congruence].
  - intros [= <-]. destruct (append_at_end_ok data b Hwf) as (Ha & Hb & Hc & _); [lia|done].
Qed.

Lemma GenericGrowBuffer_ok metaSize growSize maxSize minSize b b' :
  wf b -> 0 <= metaSize -> 0 <= growSize -> 0 <= maxSize -> maxSize + metaSize < 2 ^ 32 ->
  GenericGrowBuffer metaSize growSize maxSize minSize b = Some b' ->
  wf b' /\ live b' = live b /\ b_dataLength b' = b_dataLength b /\ b_writtenLength b' = b_writtenLength b /\
  b_bufferSize b < b_bufferSize b' <= maxSize /\ minSize <= b_bufferSize b'.
Proof.
  intros Hwf Hm Hg Hmx Hmax. unfold GenericGrowBuffer.
  destruct (Z.leb_spec maxSize (b_bufferSize b)) as [|Hlt]; [done|].
  destruct (Z.ltb_spec maxSize minSize) as [|Hmin]; [done|].
  set (n1 := if growSize =? 0 then maxSize else b_bufferSize b + growSize).
  set (n2 := if n1 <? minSize then minSize else n1).
  set (n3 := if maxSize <? n2 then maxSize else n2).
  assert (Hn1 : b_bufferSize b < n1) by (unfold n1; destruct (Z.eqb_spec growSize 0); lia).
  assert (Hn2 : b_bufferSize b < n2 /\ minSize <= n2) by (unfold n2; destruct (Z.ltb_spec n1 minSize); lia).
  assert (Hn3 : b_bufferSize b < n3 <= maxSize /\ minSize <= n3)
    by (unfold n3; destruct (Z.ltb_spec maxSize n2); lia).
  intros E. apply realloc_block_ok in E as (Hwf1 & Hlive & Hbs & Hdl & Hwl); [|done|done|lia|lia].
  rewrite Hbs. split_and!; try done; lia.
Qed.

Lemma alloc_block_ok metaSize size b :
  0 <= metaSize -> 0 <= size < 2 ^ 32 ->
  alloc_block metaSize (metaSize + size) size = Some b -> wf b /\ live b = [] /\ pending b = [].
Proof.
  intros Hm Hs. unfold alloc_block. destruct (Alloc _) as [[addr m]|] eqn:E; [|done].
  intros [= <-]. apply alloc_ok in E; [|lia].
  unfold wf, pending, live; cbn [b_bufferSize b_dataLength b_writtenLength b_mem].
  rewrite length_drop. split_and!; try done; lia.
Qed.

Lemma advance_write_ok n b :
  wf b -> 0 <= n <= Z.of_nat (length (pending b)) ->
  let b' := Block (b_base b) (b_bufferSize b) (b_dataLength b)
                  (Z.min (u32 (b_writtenLength b + n)) (b_dataLength b)) (b_mem b) in
  wf b' /\ pending b' = drop (Z.to_nat n) (pending b).
Proof.
  intros Hwf Hn b'. rewrite length_pending in Hn by done. destruct Hwf as (H1 & H2 & H3).
  assert (E : b_writtenLength b' = b_writtenLength b + n).
  { unfold b'; cbn [b_writtenLength]. rewrite wrap_small by lia. lia. }
  split.
  - unfold wf. rewrite E. unfold b'; cbn [b_bufferSize b_dataLength b_mem]. lia.
  - unfold pending. rewrite E, drop_drop. unfold live, b'; cbn [b_dataLength b_mem]. f_equal. lia.
Qed.

Lemma compact_write_ok b :
  wf b ->
  let remaining := u32 (b_dataLength b - b_writtenLength b) in
  let tail := take (Z.to_nat remaining) (drop (Z.to_nat (b_writtenLength b)) (b_mem b)) in
  let b' := Block (b_base b) (b_bufferSize b) remaining 0
                  (if 0 <? remaining then memcpy_at 0 tail (b_mem b) else b_mem b) in
  wf b' /\ pending b' = pending b.
Proof.
  intros Hwf remaining tail b'. pose proof Hwf as (H1 & H2 & H3).
  assert (Hr : remaining = b_dataLength b - b_writtenLength b)
    by (unfold remaining; apply wrap_small; lia).
  assert (Ht : tail = pending b).
  { unfold tail, pending, live. rewrite Hr, take_drop_commute. do 2 f_equal. lia. }
  assert (Hlt : length tail = Z.to_nat remaining).
  { rewrite Ht. pose proof (length_pending b Hwf). lia. }
  unfold b', wf, pending at 1, live at 1; cbn [b_bufferSize b_dataLength b_writtenLength b_mem].
  destruct (Z.ltb_spec 0 remaining) as [Hp|Hz].
  - rewrite length_memcpy_at by lia. split; [lia|].
    replace (Z.to_nat remaining) with (0 + length tail)%nat by lia.
    rewrite take_memcpy_at by lia. done.
  - split; [lia|]. replace (Z.to_nat remaining) with 0%nat in * by lia.
    rewrite <- Ht. by destruct tail.
Qed.

(** ** Properties *)

(** C29: the write buffer is a queue.  In every state reachable by appends
    (accepted or refused), partial sends and compactions, the bytes flushed so
    far followed by the bytes still pending are exactly the bytes accepted so
    far, in order, and the block stays within its allocation. *)
Theorem write_buffer_fifo accepted flushed rw :
  wreach (accepted, flushed, rw) ->
  exists b, writeBuffer_ rw = Some b /\ wf b /\ flushed ++ pending b = accepted.
Proof.
  intros Hr. remember (accepted, flushed, rw) as st eqn:Est. revert accepted flushed rw Est.
  induction Hr as [size b0 rw0 Hs Hi Hb|op [[acc fl] rw0] Hr IH Hop]; intros accepted flushed rw Est.
  - injection Est as <- <- <-. exists b0. split; [done|].
    unfold InitWriteBuffer, empty_rw in Hi; cbn [writeBuffer_] in Hi.
    destruct (alloc_block _ _ _) as [b1|] eqn:E; [|done]. injection Hi as <-.
    injection Hb as <-. apply alloc_block_ok in E as (? & ? & ->); [done|done|done].
  - destruct (IH _ _ _ eq_refl) as (b & Hb & Hwf & Heq). destruct rw0 as [rb wb]. cbn [writeBuffer_] in *. subst wb.
    destruct op as [d inc mx|n|]; cbn [wstep snd wop_ok] in *.
    + unfold AppendWriteData, on_write in Est; cbn [writeBuffer_ readBuffer_] in Est.
      destruct (GenericAppendData _ _ _ _ _) as [b'|] eqn:E; injection Est as <- <- <-; [|by exists b].
      apply GenericAppendData_ok in E as (Hwf' & Hl & Hw); [|done|unfold sizeof_WriteMetadata in *; lia..].
      exists b'. split_and!; [done|done|]. unfold pending. rewrite Hl, Hw, drop_app_le.
      * by rewrite app_assoc, <- Heq.
      * pose proof (length_live b Hwf). destruct Hwf. lia.
    + destruct Hop as [Hn0 Hn]. specialize (Hn b eq_refl).
      unfold AdvanceWriteLength in Est; cbn [writeBuffer_ readBuffer_] in Est. injection Est as <- <- <-.
      destruct (advance_write_ok n b Hwf) as [Hwf' Hp]; [lia|].
      eexists. split_and!; [reflexivity|exact Hwf'|]. rewrite Hp, <- app_assoc, take_drop. done.
    + unfold CompactWriteBuffer in Est; cbn [writeBuffer_ readBuffer_] in Est.
      destruct (b_writtenLength b =? 0); injection Est as <- <- <-; [by exists b|].
      destruct (compact_write_ok b Hwf) as [Hwf' Hp].
      eexists. split_and!; [reflexivity|exact Hwf'|]. by rewrite Hp.
Qed.

(** An append is refused only for the documented reasons: with an allocator that
    does not fail, every non-empty append that fits the maximum is accepted. *)
Lemma GenericAppendData_accepts metaSize data growSize maxSize b :
  (forall old n, Realloc old n <> None) ->
  data <> [] -> b_dataLength b + Z.of_nat (length data) <= Z.max maxSize (b_bufferSize b) ->
  GenericAppendData metaSize data growSize maxSize b <> None.
Proof.
  intros Hall Hne Hfit. unfold GenericAppendData.
  assert (length data <> 0%nat) by (by destruct data).
  destruct (Z.eqb_spec (Z.of_nat (length data)) 0); [lia|].
  destruct (Z.ltb_spec (b_bufferSize b) (b_dataLength b + Z.of_nat (length data))); [|done].
  destruct (Z.ltb_spec maxSize (b_dataLength b + Z.of_nat (length data))); [lia|].
  unfold realloc_block. destruct (Realloc _ _) as [[? ?]|] eqn:E; [done|]. by apply Hall in E.
Qed.

End proofs.

(** ** A concrete allocator *)

(** [malloc]/[realloc] on zero-filled memory at a fixed address. *)
#[export] Instance zero_alloc : Allocator := {
  Alloc n := Some (4096, replicate (Z.to_nat n) 0);
  Realloc old n := Some (4096, take (Z.to_nat n) (snd old ++ replicate (Z.to_nat n) 0))
}.

#[export] Instance zero_alloc_ok : AllocatorOk.
Proof.
  split.
  - intros n addr m [= _ <-] Hn. rewrite length_replicate. lia.
  - intros old n addr m [= _ <-] Hn. rewrite length_take, length_app, length_replicate.
    split; [lia|]. rewrite take_take, take_app_le by lia. f_equal. lia.
Qed.

(** Four bytes of storage, an append that grows it, a partial send, a second
    append and a compaction. *)
Definition fifo_run : bytes * bytes * rwbuffer :=
  wstep WCompact (wstep (WAppend [4; 5; 6] 4 16) (wstep (WAdvance 2)
    (wstep (WAppend [1; 2; 3; 9; 9] 4 16) ([], [], snd (InitWriteBuffer 4 empty_rw))))).

Lemma write_buffer_fifo_witness :
  exists b, writeBuffer_ (snd fifo_run) = Some b /\ wf b /\
    [1; 2] ++ pending b = [1; 2; 3; 9; 9; 4; 5; 6].
Proof.
  apply (write_buffer_fifo _ _ (snd fifo_run)).
  change (wreach fifo_run). unfold fifo_run.
  apply (wreach_step WCompact); [|exact I].
  apply (wreach_step (WAppend [4; 5; 6] 4 16)); [|vm_compute; done].
  apply (wreach_step (WAdvance 2) (wstep (WAppend [1; 2; 3; 9; 9] 4 16) _)).
  - apply (wreach_step (WAppend [1; 2; 3; 9; 9] 4 16)); [|vm_compute; done].
    eapply (wreach_init 4); [lia|vm_compute; reflexivity|vm_compute; reflexivity].
  - split; [lia|]. intros b. vm_compute. by intros [= <-].
Defined.

End RWBuffer.
