(* ===== verification/Headers.v ===== *)
(** * Headers: [http/headers/http_headers.ipp]

    [HttpHeaders<K, V>]: a case-insensitive map.  [std::unordered_map] is
    modelled as an association list without duplicate keys (its iteration order
    is unspecified and nothing here depends on it); [operator[]] keeps the key
    object it already holds and overwrites the value.  [key_bytes] reads a key:
    the identity for [std::string] keys, a read of the buffer for
    [std::string_view] keys. *)

From S2P Require Import Prelude Strings.
Import StringUtils.

Module HttpHeaders.

Definition CaseInsensitiveEqual (lhs rhs : bytes) : bool := CTInsensitiveStringCompare lhs rhs.

Section ops.
Context {K V : Type} (key_bytes : K -> bytes).

Definition same_key (k k' : K) : bool := CaseInsensitiveEqual (key_bytes k) (key_bytes k').

Fixpoint SetHeader (key : K) (value : V) (headers_ : list (K * V)) : list (K * V) :=
  match headers_ with
  | [] => [(key, value)]
  | (k, v) :: r =>
      if same_key k key then (k, value) :: r else (k, v) :: SetHeader key value r
  end.

(** [headers_.find(key)], the key given as bytes. *)
Fixpoint find_header (key : bytes) (headers_ : list (K * V)) : option V :=
  match headers_ with
  | [] => None
  | (k, v) :: r =>
      if CaseInsensitiveEqual (key_bytes k) key then Some v else find_header key r
  end.

Definition HasHeader (key : bytes) (headers_ : list (K * V)) : bool :=
  match find_header key headers_ with Some _ => true | None => false end.

Definition GetHeader (dflt : V) (key : bytes) (headers_ : list (K * V)) : V :=
  default dflt (find_header key headers_).

Definition CheckAndGetHeader (key : bytes) (headers_ : list (K * V)) : bool * option V :=
  match find_header key headers_ with Some v => (true, Some v) | None => (false, None) end.

Fixpoint RemoveHeader (key : bytes) (headers_ : list (K * V)) : list (K * V) :=
  match headers_ with
  | [] => []
  | (k, v) :: r =>
      if CaseInsensitiveEqual (key_bytes k) key then r else (k, v) :: RemoveHeader key r
  end.

Definition ClearHeaders (_ : list (K * V)) : list (K * V) := [].

(** ** Specification: a finite map on lower-cased keys *)

Definition fold_key (k : bytes) : bytes := map ToLowerAscii k.

Definition ukey (k : K) : bytes := fold_key (key_bytes k).

(** The map holds no two keys that compare equal. *)
Definition uniq (headers_ : list (K * V)) : Prop := NoDup (map (ukey ∘ fst) headers_).

Definition header_map (headers_ : list (K * V)) : gmap bytes V :=
  list_to_map (map (fun p => (ukey p.1, p.2)) headers_).

(** ** Lemmas *)

Lemma eq_true l r : CaseInsensitiveEqual l r = true <-> fold_key l = fold_key r.
Proof. apply CTInsensitive_true. Qed.

Lemma eq_false l r : CaseInsensitiveEqual l r = false <-> fold_key l <> fold_key r.
Proof. apply CTInsensitive_false. Qed.

Lemma header_map_cons k v hs : header_map ((k, v) :: hs) = <[ukey k := v]> (header_map hs).
Proof. done. Qed.

Lemma find_header_map key hs : find_header key hs = header_map hs !! fold_key key.
Proof.
  induction hs as [|[k v] hs IH]; simpl; [done|]. rewrite header_map_cons.
  destruct (CaseInsensitiveEqual (key_bytes k) key) eqn:E.
  - apply eq_true in E. unfold ukey. by rewrite E, lookup_insert_eq.
  - apply eq_false in E. by rewrite lookup_insert_ne.
Qed.

Lemma SetHeader_map key v hs : header_map (SetHeader key v hs) = <[ukey key := v]> (header_map hs).
Proof.
  induction hs as [|[k w] hs IH]; simpl; [done|].
  unfold same_key. destruct (CaseInsensitiveEqual (key_bytes k) (key_bytes key)) eqn:E.
  - apply eq_true in E. rewrite !header_map_cons. unfold ukey. by rewrite E, insert_insert_eq.
  - apply eq_false in E. rewrite !header_map_cons, IH. by apply insert_insert_ne.
Qed.

Lemma SetHeader_keys key v hs x :
  x ∈ map (ukey ∘ fst) (SetHeader key v hs) -> x = ukey key \/ x ∈ map (ukey ∘ fst) hs.
Proof.
  induction hs as [|[k w] hs IH]; simpl; [set_solver|].
  case_goal; simpl; set_solver.
Qed.

Lemma SetHeader_uniq key v hs : uniq hs -> uniq (SetHeader key v hs).
Proof.
  unfold uniq. induction hs as [|[k w] hs IH]; simpl; intros H.
  - apply NoDup_cons. split; [apply not_elem_of_nil|constructor].
  - apply NoDup_cons in H as [Hk Hnd]. unfold same_key.
    destruct (CaseInsensitiveEqual (key_bytes k) (key_bytes key)) eqn:E; simpl.
    + by apply NoDup_cons.
    + apply NoDup_cons. split; [|by apply IH]. intros [H|H]%SetHeader_keys; [|done].
      apply eq_false in E. apply E. by unfold ukey in H.
Qed.

Lemma header_map_None hs x : x ∉ map (ukey ∘ fst) hs -> header_map hs !! x = None.
Proof.
  intros H. unfold header_map. apply not_elem_of_list_to_map_1.
  rewrite <- list_fmap_compose in *. by erewrite (list_fmap_ext _ (ukey ∘ fst)).
Qed.

Lemma RemoveHeader_map key hs :
  uniq hs -> header_map (RemoveHeader key hs) = delete (fold_key key) (header_map hs).
Proof.
  unfold uniq. induction hs as [|[k w] hs IH]; simpl; intros H; [done|].
  apply NoDup_cons in H as [Hk Hnd].
  destruct (CaseInsensitiveEqual (key_bytes k) key) eqn:E.
  - apply eq_true in E. rewrite header_map_cons. unfold ukey. rewrite E, delete_insert_eq.
    symmetry. apply delete_id. rewrite <- E. by apply header_map_None.
  - apply eq_false in E. rewrite !header_map_cons, IH by done. by rewrite delete_insert_ne.
Qed.

Lemma RemoveHeader_sublist key hs : RemoveHeader key hs `sublist_of` hs.
Proof.
  induction hs as [|[k w] hs IH]; simpl; [done|].
  case_goal; [by apply sublist_cons|by apply sublist_skip].
Qed.

Lemma RemoveHeader_uniq key hs : uniq hs -> uniq (RemoveHeader key hs).
Proof.
  unfold uniq. intros H. eapply sublist_NoDup; [exact H|]. apply fmap_sublist, RemoveHeader_sublist.
Qed.

End ops.

(** ** Views into the read buffer, and moving them *)

(** [std::string_view]: an absolute address and a length. *)
Record view := View { v_addr : Z; v_len : Z }.

Definition empty_view : view := View 0 0.

(** The bytes a view denotes in a data area starting at [base]. *)
Definition view_bytes (base : Z) (mem : bytes) (v : view) : bytes :=
  take (Z.to_nat (v_len v)) (drop (Z.to_nat (v_addr v - base)) mem).

Definition shift_view (delta : Z) (v : view) : view := View (v_addr v + delta) (v_len v).

(** [rebased.emplace] per entry: an entry whose key is already present is not
    inserted.  [new_bytes] reads keys at their new place. *)
Definition emplace {V} (kb : view -> bytes) (k : view) (v : V) (hs : list (view * V)) :=
  match find_header kb (kb k) hs with Some _ => hs | None => hs ++ [(k, v)] end.

Definition RebasePointers (new_bytes : view -> bytes) (delta : Z) (headers_ : list (view * view))
  : list (view * view) :=
  if delta =? 0 then headers_
  else fold_left (fun acc p => emplace new_bytes (shift_view delta p.1) (shift_view delta p.2) acc)
                 headers_ [].

(** ** Properties *)

(** A header map is a finite map on case-folded names.  Starting from a map
    without duplicate names, setting, removing, clearing and looking up act on
    the abstract map as insert, delete, empty and lookup, and no operation
    introduces a duplicate name. *)
Theorem headers_refine_map {K V} (kb : K -> bytes) (key : K) (name : bytes) (v dflt : V) hs :
  uniq kb hs ->
  (uniq kb (SetHeader kb key v hs) /\ uniq kb (RemoveHeader kb name hs)) /\
  header_map kb (SetHeader kb key v hs) = <[fold_key (kb key) := v]> (header_map kb hs) /\
  header_map kb (RemoveHeader kb name hs) = delete (fold_key name) (header_map kb hs) /\
  header_map kb (ClearHeaders hs) = ∅ /\
  GetHeader kb dflt name hs = default dflt (header_map kb hs !! fold_key name) /\
  (HasHeader kb name hs = true <-> is_Some (header_map kb hs !! fold_key name)) /\
  CheckAndGetHeader kb name hs = (HasHeader kb name hs, header_map kb hs !! fold_key name).
Proof.
  intros Hu. split; [split; [by apply SetHeader_uniq|by apply (RemoveHeader_uniq kb)]|].
  split; [apply (SetHeader_map kb)|]. split; [by apply (RemoveHeader_map kb)|]. split; [done|].
  unfold GetHeader, HasHeader, CheckAndGetHeader. rewrite find_header_map.
  destruct (header_map kb hs !! fold_key name) eqn:E; (split; [done|split; [|done]]).
  - split; [by eexists|done].
  - split; [done|by intros [? ?]].
Qed.

Lemma headers_refine_map_witness :
  GetHeader id (lit "none") (lit "HOST") [(lit "Host", lit "a"); (lit "Accept", lit "b")] = lit "a".
Proof.
  assert (H : uniq id [(lit "Host", lit "a"); (lit "Accept", lit "b")])
    by (vm_compute; repeat constructor; set_solver).
  destruct (headers_refine_map id (lit "X") (lit "HOST") [] (lit "none") _ H) as (_ & _ & _ & _ & -> & _).
  vm_compute. reflexivity.
Defined.

End HttpHeaders.
