(* ===== verification/HttpParser.v ===== *)
(** * HttpParser: [http/parser/http_parser.cpp], and the part of [ClientCtx] it
    drives ([http/connection/http_connection.{hpp,cpp}])

    The parser runs on the connection's read buffer in place: it normalises the
    request target where it lies, slides the query behind it and writes a NUL
    after every header name and value.  Positions are [nat] offsets in the data
    area; the views it hands out are absolute addresses, as in the source, so
    that growing (and moving) the buffer is visible. *)

From S2P Require Import Prelude Strings Constants RWBuffer Headers.
Import StringUtils Constants RWBuffer HttpHeaders.

Module HttpParser.

(** ** Data *)

Inductive HttpParseState : Type :=
| PARSE_INCOMPLETE_HEADERS | PARSE_INCOMPLETE_BODY | PARSE_STREAMING_BODY
| PARSE_EXPECT_100 | PARSE_EXPECT_417 | PARSE_SUCCESS | PARSE_ERROR | PARSE_IDLE.

#[export] Instance HttpParseState_eq_dec : EqDecision HttpParseState.
Proof. solve_decision. Defined.

(** The fields the parser fills. *)
Record HttpRequest := Request {
  method : HttpMethod;
  version : HttpVersion;
  path : view;
  body : view;
  headers : list (view * view)
}.

(** [Shared::New<HttpRequest>()]: value-initialised. *)
Definition new_request : HttpRequest := Request GET HTTP_1_0 empty_view empty_view [].

(** [HttpRequest::ClearInfo]: the request line's fields are left as they are. *)
Definition ClearInfo (r : HttpRequest) : HttpRequest :=
  Request (method r) (version r) (path r) empty_view [].

(** [ClientCtx], restricted to what reading a request touches. *)
Record ClientCtx := Client {
  rwBuffer : rwbuffer;
  parseState : HttpParseState;
  trackBytes : Z;
  expectedBodyLength : Z;
  requestInfo : option HttpRequest
}.

(** [networkConfig]: the limits the parser reads. *)
Record NetworkConfig := Net {
  maxReadBufferSize : Z;
  maxBodyTotalSize : Z;
  maxHeaderTotalSize : Z;
  maxHeaderTotalCount : Z
}.

Definition SetParseState (s : HttpParseState) (c : ClientCtx) : ClientCtx :=
  Client (rwBuffer c) s (trackBytes c) (expectedBodyLength c) (requestInfo c).
Definition set_trackBytes (t : Z) (c : ClientCtx) : ClientCtx :=
  Client (rwBuffer c) (parseState c) t (expectedBodyLength c) (requestInfo c).
Definition set_request (r : HttpRequest) (c : ClientCtx) : ClientCtx :=
  Client (rwBuffer c) (parseState c) (trackBytes c) (expectedBodyLength c) (Some r).
Definition set_rwBuffer (rw : rwbuffer) (c : ClientCtx) : ClientCtx :=
  Client rw (parseState c) (trackBytes c) (expectedBodyLength c) (requestInfo c).

(** The parser's writes through [const_cast<char*>]. *)
Definition set_mem (mem : bytes) (c : ClientCtx) : ClientCtx :=
  match readBuffer_ (rwBuffer c) with
  | Some b => set_rwBuffer (RW (Some (Block (b_base b) (b_bufferSize b) (b_dataLength b)
                                            (b_writtenLength b) mem))
                               (writeBuffer_ (rwBuffer c))) c
  | None => c
  end.

(** [ClientCtx::Clear], between two requests of a connection. *)
Definition ClearClient (c : ClientCtx) : ClientCtx :=
  Client (ClearBuffer (rwBuffer c)) (parseState c) 0 0 (ClearInfo <$> requestInfo c).

(** ** Helpers *)

Definition slice (data : bytes) (a b : nat) : bytes := take (b - a) (drop a data).

(** The line is [data[from, end)]; the result is [(outNextPos, end)]. *)
Definition SafeFindCRLF (data : bytes) (size from : nat) : option (nat * nat) :=
  if (size <=? from)%nat then None
  else match find_char CR (slice data from size) with
       | None => None
       | Some k =>
           let e := (from + k)%nat in
           if (size <=? e + 1)%nat || negb (at_ data (e + 1) =? LF) then None
           else Some ((e + 2)%nat, e)
       end.

Definition crlf2_at (data : bytes) (p : nat) : bool :=
  (at_ data p =? CR) && (at_ data (p + 1) =? LF) &&
  (at_ data (p + 2) =? CR) && (at_ data (p + 3) =? LF).

(** The loop over [p], [n] positions before [end]. *)
Fixpoint header_end_loop (data : bytes) (n p : nat) : option nat :=
  match n with
  | O => None
  | S n' => if crlf2_at data p then Some (p + 4)%nat else header_end_loop data n' (p + 1)
  end.

Definition SafeFindHeaderEnd (data : bytes) (size from : nat) : option nat :=
  if (size <? 4)%nat || (size - 3 <=? from)%nat then None
  else header_end_loop data (size - 3 - from) from.

Definition is_blank (c : Z) : bool := (c =? SPACE) || (c =? TAB).

Fixpoint trim_start (sv : bytes) : nat :=
  match sv with
  | [] => 0%nat
  | c :: r => if is_blank c then S (trim_start r) else 0%nat
  end.

Fixpoint trim_end (sv : bytes) (start e : nat) : nat :=
  match e with
  | O => O
  | S e' => if (start <? e)%nat && is_blank (at_ sv e') then trim_end sv start e' else e
  end.

(** Start and length of the trimmed part. *)
Definition Trim (sv : bytes) : nat * nat :=
  let start := trim_start sv in
  let e := trim_end sv start (length sv) in
  (start, (e - start)%nat).

(** The characters the bitmap is filled from. *)
Definition tchars : bytes :=
  seqZ 48 10 ++ seqZ 65 26 ++ seqZ 97 26 ++ lit "!#$%&'*+-.^_`|~".

Definition K_TCHAR : list Z :=
  fold_left (fun bits c => alter (fun x => Z.lor x (u32 (Z.shiftl 1 (Z.land c 31))))
                                 (Z.to_nat (Z.shiftr c 5)) bits)
            tchars (replicate 8 0).

Definition tchar_bit (c : Z) : Z :=
  Z.land (Z.shiftr (at_ K_TCHAR (Z.to_nat (Z.shiftr c 5))) (Z.land c 31)) 1.

Fixpoint field_end_loop (line : bytes) (at' : nat) : option nat :=
  match line with
  | [] => None
  | c :: r =>
      if c =? COLON then (if (at' =? 0)%nat then None else Some at')
      else if tchar_bit c =? 0 then None
      else field_end_loop r (at' + 1)
  end.

Definition FindFieldEnd (line : bytes) : option nat := field_end_loop line 0.

Definition IsFieldSanitized (value : bytes) : bool :=
  fold_left (fun bad c => Z.lor bad (Z.b2z (((c <? 32) && negb (c =? TAB)) || (c =? 127))))
            value 0 =? 0.

(** ** The request line *)

Definition set_method (m : HttpMethod) (r : HttpRequest) : HttpRequest :=
  Request m (version r) (path r) (body r) (headers r).
Definition set_version (v : HttpVersion) (r : HttpRequest) : HttpRequest :=
  Request (method r) v (path r) (body r) (headers r).
Definition set_path (p : view) (r : HttpRequest) : HttpRequest :=
  Request (method r) (version r) p (body r) (headers r).
Definition set_headers (hs : list (view * view)) (r : HttpRequest) : HttpRequest :=
  Request (method r) (version r) (path r) (body r) hs.
Definition set_body (b : view) (r : HttpRequest) : HttpRequest :=
  Request (method r) (version r) (path r) b (headers r).

(** Normalise the target that starts at [start] and is [len] bytes long; the new
    data area and the length of the path view, which starts at [start]. *)
Definition normalize_target (data : bytes) (start len : nat) : option (bytes * nat) :=
  let rawTarget := slice data start (start + len) in
  match find_char QMARK rawTarget with
  | None =>
      match NormalizeURIPathInplace rawTarget with
      | None => None
      | Some (buf, n) => Some (memcpy_at start buf data, n)
      end
  | Some qpos =>
      match NormalizeURIPathInplace (take qpos rawTarget) with
      | None => None
      | Some (buf, newPathLen) =>
          let queryLen := (len - (qpos + 1))%nat in
          let data1 := memcpy_at start buf data in
          let query := slice data1 (start + qpos + 1) (start + qpos + 1 + queryLen) in
          let data2 := memcpy_at (start + newPathLen + 1) query data1 in
          Some (<[(start + newPathLen)%nat := QMARK]> data2, (newPathLen + 1 + queryLen)%nat)
      end
  end.

Definition parse_result : Type := bool * bytes * nat * HttpRequest.

Definition ParseRequest (base : Z) (data : bytes) (size pos : nat) (req : HttpRequest) : parse_result :=
  match SafeFindCRLF data size pos with
  | None => (false, data, pos, req)
  | Some (nextPos, e) =>
      let line := slice data pos e in
      match find_char SPACE line with
      | None => (false, data, nextPos, req)
      | Some mEnd =>
          let req := set_method (HttpMethodToEnum (take mEnd line)) req in
          if bool_decide (method req = UNKNOWN_METHOD) then (false, data, nextPos, req)
          else
            let pathStart := (mEnd + 1)%nat in
            match find_char SPACE (drop pathStart line) with
            | None => (false, data, nextPos, req)
            | Some O => (false, data, nextPos, req)
            | Some targetLen =>
                let pathEnd := (pathStart + targetLen)%nat in
                match normalize_target data pathStart targetLen with
                | None => (false, data, nextPos, req)
                | Some (data', pathLen) =>
                    let req := set_path (View (base + Z.of_nat pathStart) (Z.of_nat pathLen)) req in
                    let req := set_version (HttpVersionToEnum (slice data' (pos + pathEnd + 1) e)) req in
                    (bool_decide (version req <> UNKNOWN_VERSION), data', nextPos, req)
                end
            end
      end
  end.

(** ** The header block *)

(** [pos] grows by at least two on every turn: [size] turns are enough (lemma
    [headers_loop_fuel]). *)
Fixpoint headers_loop (fuel : nat) (cfg : NetworkConfig) (base : Z) (data : bytes) (size pos : nat)
    (headerCount : Z) (hs : list (view * view)) : bool * bytes * nat * list (view * view) :=
  match fuel with
  | O => (false, data, pos, hs)
  | S fuel' =>
      match SafeFindCRLF data size pos with
      | None => (false, data, pos, hs)
      | Some (nextPos, e) =>
          let line := slice data pos e in
          if (length line =? 0)%nat then (true, data, nextPos, hs)
          else
            match FindFieldEnd line with
            | None => (false, data, nextPos, hs)
            | Some colon =>
                let '(tstart, vlen) := Trim (drop (colon + 1) line) in
                let vstart := (pos + colon + 1 + tstart)%nat in
                if negb (IsFieldSanitized (slice data vstart (vstart + vlen)))
                then (false, data, nextPos, hs)
                else
                  let data := <[(pos + colon)%nat := NUL]> data in
                  let data := <[(vstart + vlen)%nat := NUL]> data in
                  let key := View (base + Z.of_nat pos) (Z.of_nat colon) in
                  let val := View (base + Z.of_nat vstart) (Z.of_nat vlen) in
                  let hs := SetHeader (view_bytes base data) key val hs in
                  if maxHeaderTotalCount cfg <? headerCount + 1 then (false, data, nextPos, hs)
                  else headers_loop fuel' cfg base data size nextPos (headerCount + 1) hs
            end
      end
  end.

Definition ParseHeaders (cfg : NetworkConfig) (base : Z) (data : bytes) (size pos : nat)
    (hs : list (view * view)) : bool * bytes * nat * list (view * view) :=
  headers_loop size cfg base data size pos 0 hs.

Definition ParseBody (base : Z) (size pos contentLen : nat) (req : HttpRequest) : bool * HttpRequest :=
  if (size <? pos)%nat || (size <? contentLen)%nat || (size <? pos + contentLen)%nat then (false, req)
  else (true, set_body (View (base + Z.of_nat pos) (Z.of_nat contentLen)) req).

(** ** Growing the read buffer *)

Section parse.
Context `{Allocator}.

(** [ClientCtx::GrowReadBuffer] *)
Definition ctx_GrowReadBuffer (growSize maxSize minSize : Z) (c : ClientCtx) : bool * ClientCtx :=
  match readBuffer_ (rwBuffer c) with
  | None => (false, c)
  | Some old =>
      match GrowReadBuffer growSize maxSize minSize (rwBuffer c) with
      | (false, _) => (false, c)
      | (true, rw') =>
          let c' := set_rwBuffer rw' c in
          match readBuffer_ rw', requestInfo c with
          | Some new, Some r =>
              if b_base new =? b_base old then (true, c')
              else if v_len (path r) =? 0 then (true, c')
              else
                let delta := b_base new - b_base old in
                let r := set_path (shift_view delta (path r)) r in
                let r := set_headers (RebasePointers (view_bytes (b_base new) (b_mem new)) delta (headers r)) r in
                (true, set_request r c')
          | _, _ => (true, c')
          end
      end
  end.

Definition PrepareForBody (headerEnd contentLen maxBufferSize : Z) (c : ClientCtx) : bool * ClientCtx :=
  let c := Client (rwBuffer c) (parseState c) (u32 (headerEnd + contentLen)) (u32 contentLen)
                  (requestInfo c) in
  ctx_GrowReadBuffer 1 maxBufferSize (trackBytes c) c.

(** ** The state machine *)

(** What [Parse] does once the request line and the headers are in the request:
    [pos] is where they ended, [headerEnd] where the scan found the blank line. *)
Definition dispatch_headers (cfg : NetworkConfig) (b : block) (size pos headerEnd : nat)
    (request : HttpRequest) (c : ClientCtx) : HttpParseState * ClientCtx :=
  let get name := GetHeader (view_bytes (b_base b) (b_mem b)) empty_view (lit name) (headers request) in
  let str v := view_bytes (b_base b) (b_mem b) v in
  let expectHeader := get "Expect"%string in
  let contentLengthHeader := get "Content-Length"%string in
  let encodingHeader := get "Transfer-Encoding"%string in
  let hasExpectHeader := negb (v_len expectHeader =? 0) &&
                         InsensitiveStringCompare (str expectHeader) (lit "100-continue") in
  let hasContentLengthHeader := negb (v_len contentLengthHeader =? 0) in
  let hasEncodingHeader := negb (v_len encodingHeader =? 0) in
  if hasEncodingHeader && hasContentLengthHeader then (PARSE_ERROR, c)
  else if hasExpectHeader && negb hasContentLengthHeader && negb hasEncodingHeader then (PARSE_EXPECT_417, c)
  else if hasContentLengthHeader then
    match StrToUInt64 (str contentLengthHeader) with
    | None => (PARSE_ERROR, c)
    | Some contentLen =>
        if (maxBodyTotalSize cfg <? contentLen) || (maxReadBufferSize cfg <? contentLen) ||
           (maxReadBufferSize cfg - contentLen <? Z.of_nat headerEnd)
        then (if hasExpectHeader then PARSE_EXPECT_417 else PARSE_ERROR, c)
        else if hasExpectHeader then
          match PrepareForBody (Z.of_nat headerEnd) contentLen (maxReadBufferSize cfg) c with
          | (false, c) => (PARSE_ERROR, c)
          | (true, c) => (PARSE_EXPECT_100, SetParseState PARSE_INCOMPLETE_BODY c)
          end
        else if 0 <? contentLen then
          let availableBody := Z.of_nat size - trackBytes c in
          if availableBody <? contentLen then
            match PrepareForBody (Z.of_nat headerEnd) contentLen (maxReadBufferSize cfg) c with
            | (false, c) => (PARSE_ERROR, c)
            | (true, c) => (PARSE_INCOMPLETE_BODY, SetParseState PARSE_INCOMPLETE_BODY c)
            end
          else
            match ParseBody (b_base b) size pos (Z.to_nat contentLen) request with
            | (false, r) => (PARSE_ERROR, set_request r c)
            | (true, r) => (PARSE_SUCCESS, SetParseState PARSE_SUCCESS (set_request r c))
            end
        else (PARSE_SUCCESS, SetParseState PARSE_SUCCESS c)
    end
  else if hasEncodingHeader then
    if negb (InsensitiveStringCompare (str encodingHeader) (lit "chunked")) then (PARSE_ERROR, c)
    else
      let c := SetParseState PARSE_STREAMING_BODY c in
      if hasExpectHeader then (PARSE_EXPECT_100, c) else (PARSE_STREAMING_BODY, c)
  else (PARSE_SUCCESS, SetParseState PARSE_SUCCESS c).

(** The [PARSE_INCOMPLETE_HEADERS] case. *)
Definition parse_headers_case (cfg : NetworkConfig) (b : block) (request : HttpRequest) (c : ClientCtx)
  : HttpParseState * ClientCtx :=
  let size := Z.to_nat (b_dataLength b) in
  match SafeFindHeaderEnd (b_mem b) size (Z.to_nat (trackBytes c)) with
  | None =>
      if maxHeaderTotalSize cfg <? b_dataLength b then (PARSE_ERROR, c)
      else (PARSE_INCOMPLETE_HEADERS,
            set_trackBytes (if 3 <=? b_dataLength b then b_dataLength b - 3 else 0) c)
  | Some headerEnd =>
      if maxHeaderTotalSize cfg <? Z.of_nat headerEnd then (PARSE_ERROR, c)
      else
        let c := set_trackBytes (u32 (Z.of_nat headerEnd)) c in
        match ParseRequest (b_base b) (b_mem b) size 0 request with
        | (false, mem, _, r) => (PARSE_ERROR, set_mem mem (set_request r c))
        | (true, mem, pos, r) =>
            match ParseHeaders cfg (b_base b) mem size pos (headers r) with
            | (false, mem, _, hs) => (PARSE_ERROR, set_mem mem (set_request (set_headers hs r) c))
            | (true, mem, pos, hs) =>
                let r := set_headers hs r in
                let b := Block (b_base b) (b_bufferSize b) (b_dataLength b) (b_writtenLength b) mem in
                dispatch_headers cfg b size pos headerEnd r (set_mem mem (set_request r c))
            end
        end
  end.

Definition Parse (cfg : NetworkConfig) (c : ClientCtx) : HttpParseState * ClientCtx :=
  match readBuffer_ (rwBuffer c) with
  | None => (PARSE_ERROR, c)
  | Some b =>
      if b_dataLength b =? 0 then (PARSE_ERROR, c)
      else
        let request := default new_request (requestInfo c) in
        let c := set_request request c in
        match parseState c with
        | PARSE_IDLE => parse_headers_case cfg b request (SetParseState PARSE_INCOMPLETE_HEADERS c)
        | PARSE_INCOMPLETE_HEADERS => parse_headers_case cfg b request c
        | PARSE_INCOMPLETE_BODY =>
            if b_dataLength b <? trackBytes c then (PARSE_INCOMPLETE_BODY, c)
            else
              let pos := Z.to_nat (u32 (trackBytes c - expectedBodyLength c)) in
              match ParseBody (b_base b) (Z.to_nat (b_dataLength b)) pos
                              (Z.to_nat (expectedBodyLength c)) request with
              | (false, r) => (PARSE_ERROR, set_request r c)
              | (true, r) => (PARSE_SUCCESS, SetParseState PARSE_SUCCESS (set_request r c))
              end
        | PARSE_STREAMING_BODY => (PARSE_STREAMING_BODY, c)
        | PARSE_SUCCESS => (PARSE_SUCCESS, c)
        | _ => (PARSE_ERROR, c)
        end
  end.

End parse.

(** ** Receiving *)

(** The event loop reads [d] into the writable region and advances the length
    ([GetWritableReadRegion], [AdvanceReadLength]). *)
Definition recv (d : bytes) (c : ClientCtx) : ClientCtx :=
  match readBuffer_ (rwBuffer c) with
  | None => c
  | Some b =>
      set_rwBuffer
        (AdvanceReadLength (Z.of_nat (length d))
          (RW (Some (Block (b_base b) (b_bufferSize b) (b_dataLength b) (b_writtenLength b)
                           (memcpy_at (Z.to_nat (b_dataLength b)) d (b_mem b))))
              (writeBuffer_ (rwBuffer c)))) c
  end.

(** Hand the chunks to the parser one read at a time while it asks for more
    header bytes: its last answer, and the chunks not yet read. *)
Fixpoint feed `{Allocator} (cfg : NetworkConfig) (chunks : list bytes) (c : ClientCtx)
  : HttpParseState * ClientCtx * list bytes :=
  match chunks with
  | [] => (PARSE_INCOMPLETE_HEADERS, c, [])
  | d :: rest =>
      match Parse cfg (recv d c) with
      | (PARSE_INCOMPLETE_HEADERS, c') => feed cfg rest c'
      | (st, c') => (st, c', rest)
      end
  end.

(** The scan has examined nothing it could have missed: every position before
    [trackBytes] was looked at with its four bytes present. *)
Definition scan_inv (c : ClientCtx) : Prop :=
  (parseState c = PARSE_IDLE \/ parseState c = PARSE_INCOMPLETE_HEADERS) /\
  exists b, readBuffer_ (rwBuffer c) = Some b /\ wf b /\ 0 <= trackBytes c /\
    forall p, Z.of_nat p < trackBytes c ->
      Z.of_nat p + 3 < b_dataLength b /\ crlf2_at (b_mem b) p = false.

(** The chunks fit the buffer as it is. *)
Definition fits (n : Z) (c : ClientCtx) : Prop :=
  exists b, readBuffer_ (rwBuffer c) = Some b /\ b_dataLength b + n <= b_bufferSize b.

(** ** The header scan *)

Lemma header_end_loop_spec data n p :
  match header_end_loop data n p with
  | Some q => exists i, (p <= i < p + n)%nat /\ q = (i + 4)%nat /\ crlf2_at data i = true /\
                        forall j, (p <= j < i)%nat -> crlf2_at data j = false
  | None => forall j, (p <= j < p + n)%nat -> crlf2_at data j = false
  end.
Proof.
  revert p. induction n as [|n IH]; intros p; simpl; [intros j Hj; lia|].
  destruct (crlf2_at data p) eqn:E.
  - exists p. split_and!; [lia|lia|done|done|]. intros j Hj; lia.
  - specialize (IH (p + 1)%nat). destruct (header_end_loop data n (p + 1)).
    + destruct IH as (i & Hi & -> & Ht & Hf). exists i. split_and!; [lia|lia|done|done|].
      intros j Hj. destruct (decide (j = p)) as [->|]; [done|]. apply Hf. lia.
    + intros j Hj. destruct (decide (j = p)) as [->|]; [done|]. apply IH. lia.
Qed.

Lemma SafeFindHeaderEnd_spec data size from :
  match SafeFindHeaderEnd data size from with
  | Some q => exists i, (from <= i)%nat /\ (i + 3 < size)%nat /\ q = (i + 4)%nat /\
                        crlf2_at data i = true /\ forall j, (from <= j < i)%nat -> crlf2_at data j = false
  | None => forall j, (from <= j)%nat -> (j + 3 < size)%nat -> crlf2_at data j = false
  end.
Proof.
  unfold SafeFindHeaderEnd.
  destruct ((size <? 4)%nat || (size - 3 <=? from)%nat) eqn:E; [intros j ? ?; lia|].
  pose proof (header_end_loop_spec data (size - 3 - from) from) as H.
  destruct (header_end_loop _ _ _).
  - destruct H as (i & Hi & -> & Ht & Hf). exists i. split_and!; [lia|lia|done|done|done].
  - intros j ? ?. apply H. lia.
Qed.

Lemma SafeFindHeaderEnd_from data size from :
  (forall p, (p < from)%nat -> (p + 3 < size)%nat -> crlf2_at data p = false) ->
  SafeFindHeaderEnd data size from = SafeFindHeaderEnd data size 0.
Proof.
  intros H. pose proof (SafeFindHeaderEnd_spec data size from) as H1.
  pose proof (SafeFindHeaderEnd_spec data size 0) as H0.
  destruct (SafeFindHeaderEnd data size from) as [q|], (SafeFindHeaderEnd data size 0) as [q0|].
  - destruct H1 as (i & Hi1 & Hi2 & -> & Ht & Hf). destruct H0 as (i0 & Hj1 & Hj2 & -> & Ht0 & Hf0).
    destruct (lt_eq_lt_dec i i0) as [[Hlt| ->]|Hlt]; [|done|].
    + rewrite Hf0 in Ht by lia. done.
    + destruct (decide (from <= i0)%nat) as [Hle|Hgt].
      * rewrite Hf in Ht0 by lia. done.
      * rewrite H in Ht0 by lia. done.
  - destruct H1 as (i & Hi1 & Hi2 & -> & Ht & Hf). rewrite H0 in Ht by lia. done.
  - destruct H0 as (i & Hi1 & Hi2 & -> & Ht & Hf).
    destruct (decide (from <= i)%nat) as [Hle|Hgt].
    + rewrite H1 in Ht by lia. done.
    + rewrite H in Ht by lia. done.
  - done.
Qed.

Lemma at_memcpy_at_lt off d mem i :
  (i < off)%nat -> (off <= length mem)%nat -> at_ (memcpy_at off d mem) i = at_ mem i.
Proof.
  intros Hi Ho. unfold memcpy_at. rewrite at_app_l by (rewrite length_take; lia).
  unfold at_. by rewrite lookup_take_lt.
Qed.

Lemma crlf2_at_memcpy off d mem p :
  (p + 3 < off)%nat -> (off <= length mem)%nat ->
  crlf2_at (memcpy_at off d mem) p = crlf2_at mem p.
Proof. intros. unfold crlf2_at. by rewrite !at_memcpy_at_lt by lia. Qed.

Lemma memcpy_at_app off d e mem :
  (off + length d <= length mem)%nat ->
  memcpy_at (off + length d) e (memcpy_at off d mem) = memcpy_at off (d ++ e) mem.
Proof.
  intros Hl. unfold memcpy_at at 1. rewrite take_memcpy_at by done.
  unfold memcpy_at. rewrite <- !app_assoc. do 3 f_equal.
  rewrite !drop_app, drop_drop, length_take, length_app.
  rewrite (drop_ge (take off mem)) by (rewrite length_take; lia).
  rewrite (drop_ge d) by lia. cbn [app].
  rewrite Nat.min_l by lia. f_equal. lia.
Qed.

(** ** Receiving, and what an incomplete parse leaves behind *)

Definition grown (d : bytes) (b : block) : block :=
  Block (b_base b) (b_bufferSize b) (b_dataLength b + Z.of_nat (length d)) (b_writtenLength b)
        (memcpy_at (Z.to_nat (b_dataLength b)) d (b_mem b)).

Lemma recv_eq d c b :
  readBuffer_ (rwBuffer c) = Some b -> wf b ->
  b_dataLength b + Z.of_nat (length d) <= b_bufferSize b ->
  recv d c = set_rwBuffer (RW (Some (grown d b)) (writeBuffer_ (rwBuffer c))) c.
Proof.
  intros Hb (H1 & H2 & H3) Hfit. unfold recv, AdvanceReadLength, grown. rewrite Hb.
  cbn [readBuffer_ writeBuffer_ b_base b_bufferSize b_dataLength b_writtenLength b_mem].
  do 4 f_equal. rewrite wrap_small by lia. lia.
Qed.

Lemma grown_wf d b :
  wf b -> b_dataLength b + Z.of_nat (length d) <= b_bufferSize b -> wf (grown d b).
Proof.
  intros (H1 & H2 & H3) Hfit. unfold wf, grown; cbn [b_bufferSize b_dataLength b_writtenLength b_mem].
  rewrite length_memcpy_at by lia. lia.
Qed.

Lemma recv_recv d e c :
  scan_inv c -> fits (Z.of_nat (length d) + Z.of_nat (length e)) c ->
  recv e (recv d c) = recv (d ++ e) c.
Proof.
  intros (_ & b & Hb & Hwf & _) (b' & Hb' & Hfit). simplify_eq.
  rewrite (recv_eq d c b), (recv_eq (d ++ e) c b) by (try done; rewrite ?length_app; lia).
  erewrite recv_eq; [|reflexivity|apply grown_wf; [done|lia]|cbn; lia].
  unfold set_rwBuffer, grown. cbn [rwBuffer writeBuffer_ readBuffer_ parseState trackBytes
    expectedBodyLength requestInfo b_base b_bufferSize b_dataLength b_writtenLength b_mem].
  destruct Hwf as (H1 & H2 & H3). rewrite <- memcpy_at_app by lia.
  rewrite length_app. do 4 f_equal; [lia|]. f_equal. lia.
Qed.

Lemma recv_scan_inv d c :
  scan_inv c -> fits (Z.of_nat (length d)) c -> scan_inv (recv d c).
Proof.
  intros (Hs & b & Hb & Hwf & Ht & Hscan) (b' & Hb' & Hfit). simplify_eq.
  erewrite recv_eq by done. split; [done|]. exists (grown d b).
  split_and!; [done|by apply grown_wf|done|]. intros p Hp. destruct (Hscan p Hp) as [Hp3 Hf].
  cbn [grown b_dataLength b_mem]. destruct Hwf as (? & ? & ?).
  split; [lia|]. rewrite crlf2_at_memcpy by lia. done.
Qed.

Section fragments.
Context `{AllocatorOk}.

Lemma dispatch_not_incomplete cfg b size pos he r c c' :
  dispatch_headers cfg b size pos he r c <> (PARSE_INCOMPLETE_HEADERS, c').
Proof. unfold dispatch_headers. cbv zeta. repeat case_goal; by intros [=]. Qed.

(** In a scanning state [Parse] is the header case, with the request allocated. *)
Lemma Parse_scan cfg c b :
  scan_inv c -> readBuffer_ (rwBuffer c) = Some b ->
  Parse cfg c =
    if b_dataLength b =? 0 then (PARSE_ERROR, c)
    else let r := default new_request (requestInfo c) in
         parse_headers_case cfg b r (SetParseState PARSE_INCOMPLETE_HEADERS (set_request r c)).
Proof.
  intros (Hs & _) Hb. unfold Parse. rewrite Hb. destruct (b_dataLength b =? 0); [done|].
  destruct c as [rw ps tb el rq]. cbn [parseState] in Hs. by destruct Hs as [-> | ->].
Qed.

Definition next_track (b : block) : Z := if 3 <=? b_dataLength b then b_dataLength b - 3 else 0.

Lemma Parse_incomplete cfg c c' b :
  scan_inv c -> readBuffer_ (rwBuffer c) = Some b ->
  Parse cfg c = (PARSE_INCOMPLETE_HEADERS, c') ->
  b_dataLength b <> 0 /\
  (forall p, Z.of_nat p + 3 < b_dataLength b -> crlf2_at (b_mem b) p = false) /\
  c' = Client (rwBuffer c) PARSE_INCOMPLETE_HEADERS (next_track b) (expectedBodyLength c)
              (Some (default new_request (requestInfo c))).
Proof.
  intros Hs Hb. rewrite (Parse_scan _ _ _ Hs Hb). destruct Hs as (_ & b' & Hb' & Hwf & Ht & Hscan).
  rewrite Hb in Hb'. injection Hb' as <-.
  destruct (Z.eqb_spec (b_dataLength b) 0) as [|Hne]; [by intros [=]|]. cbv zeta.
  unfold parse_headers_case. cbn [trackBytes SetParseState set_request].
  pose proof (SafeFindHeaderEnd_spec (b_mem b) (Z.to_nat (b_dataLength b)) (Z.to_nat (trackBytes c))) as Hf.
  destruct (SafeFindHeaderEnd _ _ _) as [he|].
  - destruct (_ <? Z.of_nat he); [by intros [=]|]. cbv zeta.
    destruct (ParseRequest _ _ _ _ _) as [[[[|] mem] pos] r]; [|by intros [=]].
    destruct (ParseHeaders _ _ _ _ _ _) as [[[[|] mem'] pos'] hs]; [|by intros [=]].
    intros E. by apply dispatch_not_incomplete in E.
  - destruct (_ <? b_dataLength b); [by intros [=]|]. intros [= <-]. split_and!; [done| |done].
    intros p Hp. destruct (decide (Z.of_nat p < trackBytes c)) as [Hlt|Hge]; [by apply Hscan|].
    apply Hf; lia.
Qed.

Lemma Parse_incomplete_inv cfg c c' :
  scan_inv c -> Parse cfg c = (PARSE_INCOMPLETE_HEADERS, c') -> scan_inv c'.
Proof.
  intros Hs Hp. pose proof Hs as (_ & b & Hb & Hwf & Ht & _).
  destruct (Parse_incomplete _ _ _ _ Hs Hb Hp) as (Hne & Hnone & ->).
  split; [by right|]. exists b. split_and!; [done|done| |].
  - cbn [trackBytes]. unfold next_track. destruct (Z.leb_spec 3 (b_dataLength b)); lia.
  - cbn [trackBytes]. unfold next_track. intros p Hp'.
    assert (Z.of_nat p + 3 < b_dataLength b) by (destruct (Z.leb_spec 3 (b_dataLength b)); lia).
    split; [done|by apply Hnone].
Qed.

(** Two answers that agree, and whose connections agree unless it is an error. *)
Definition agree (x y : HttpParseState * ClientCtx) : Prop :=
  fst x = fst y /\ (fst x <> PARSE_ERROR -> x = y).

Lemma agree_refl x : agree x x.
Proof. by split. Qed.

(** Only the place the scan resumes from may differ: the answer does not. *)
Lemma Parse_track_irrelevant cfg c1 c2 b :
  scan_inv c1 -> scan_inv c2 -> rwBuffer c1 = rwBuffer c2 ->
  readBuffer_ (rwBuffer c1) = Some b -> b_dataLength b <> 0 ->
  expectedBodyLength c1 = expectedBodyLength c2 ->
  default new_request (requestInfo c1) = default new_request (requestInfo c2) ->
  agree (Parse cfg c1) (Parse cfg c2).
Proof.
  intros H1 H2 Hrw Hb Hne Hel Hrq.
  rewrite (Parse_scan _ _ _ H1 Hb). rewrite Hrw in Hb. rewrite (Parse_scan _ _ _ H2 Hb).
  destruct (Z.eqb_spec (b_dataLength b) 0); [done|]. cbv zeta. rewrite Hrq.
  set (r := default _ _). unfold parse_headers_case. cbn [trackBytes SetParseState set_request].
  assert (Hfrom : forall c, scan_inv c -> rwBuffer c = rwBuffer c2 ->
    SafeFindHeaderEnd (b_mem b) (Z.to_nat (b_dataLength b)) (Z.to_nat (trackBytes c)) =
    SafeFindHeaderEnd (b_mem b) (Z.to_nat (b_dataLength b)) 0).
  { intros c (_ & b' & Hb' & _ & Ht & Hscan) Heq. rewrite Heq, Hb in Hb'. injection Hb' as <-.
    apply SafeFindHeaderEnd_from. intros p Hp _. apply Hscan. lia. }
  rewrite (Hfrom c1), (Hfrom c2) by done.
  destruct c1 as [rw ps1 tb1 el1 rq1], c2 as [rw2 ps2 tb2 el2 rq2].
  cbn [rwBuffer expectedBodyLength] in *. subst rw2 el2.
  destruct (SafeFindHeaderEnd _ _ _) as [he|].
  - destruct (_ <? Z.of_nat he); [by split|]. apply agree_refl.
  - destruct (_ <? b_dataLength b); [by split|]. apply agree_refl.
Qed.

(** Parsing, being told to wait, and parsing again with more bytes is parsing
    once with all of them. *)
Lemma Parse_incremental cfg c c' e :
  scan_inv c -> fits (Z.of_nat (length e)) c ->
  Parse cfg c = (PARSE_INCOMPLETE_HEADERS, c') ->
  agree (Parse cfg (recv e c')) (Parse cfg (recv e c)).
Proof.
  intros Hs Hfit Hp. pose proof (Parse_incomplete_inv _ _ _ Hs Hp) as Hs'.
  destruct Hfit as (b & Hb & Hfit). pose proof Hs as (_ & b' & Hb' & Hwf & _).
  rewrite Hb in Hb'. injection Hb' as <-.
  destruct (Parse_incomplete _ _ _ _ Hs Hb Hp) as (Hne & _ & Hc').
  assert (Hb2 : readBuffer_ (rwBuffer c') = Some b) by (by rewrite Hc').
  assert (Hi1 : scan_inv (recv e c')) by (apply recv_scan_inv; [done|by exists b]).
  assert (Hi2 : scan_inv (recv e c)) by (apply recv_scan_inv; [done|by exists b]).
  rewrite (recv_eq e c b), (recv_eq e c' b) in * by done.
  eapply Parse_track_irrelevant; [done|done|by rewrite Hc'|done| |by rewrite Hc'|by rewrite Hc'].
  cbn. destruct Hwf as (? & ? & ?). lia.
Qed.

Lemma fits_recv d n c :
  scan_inv c -> 0 <= n -> fits (Z.of_nat (length d) + n) c -> fits n (recv d c).
Proof.
  intros (_ & b' & Hb' & Hwf & _) Hn (b & Hb & Hfit). rewrite Hb in Hb'. injection Hb' as <-.
  rewrite (recv_eq d c b) by (done || lia). exists (grown d b). split; [done|]. cbn. lia.
Qed.

Lemma fits_weaken m n c : m <= n -> fits n c -> fits m c.
Proof. intros H' (b & Hb & Hfit). exists b. split; [done|lia]. Qed.

Lemma feed_one_shot cfg chunks c st c' rest :
  scan_inv c -> chunks <> [] -> fits (Z.of_nat (length (concat chunks))) c ->
  feed cfg chunks c = (st, c', rest) ->
  exists used, used <> [] /\ chunks = used ++ rest /\
    agree (st, c') (Parse cfg (recv (concat used) c)).
Proof.
  revert c. induction chunks as [|d cs IH]; intros c Hs Hne Hfit Hfeed; [done|].
  simpl in Hfit, Hfeed. rewrite length_app in Hfit.
  assert (Hfd : fits (Z.of_nat (length d)) c) by (eapply fits_weaken; [|exact Hfit]; lia).
  pose proof (recv_scan_inv _ _ Hs Hfd) as Hs1.
  destruct (Parse cfg (recv d c)) as [st1 c1] eqn:Ep.
  assert (Hstop : (st1, c1, cs) = (st, c', rest) ->
    exists used, used <> [] /\ d :: cs = used ++ rest /\ agree (st, c') (Parse cfg (recv (concat used) c))).
  { intros [= <- <- <-]. exists [d]. split_and!; [done|done|].
    cbn [concat]. rewrite app_nil_r, Ep. apply agree_refl. }
  destruct st1; try (by apply Hstop). clear Hstop.
  pose proof (Parse_incomplete_inv _ _ _ Hs1 Ep) as Hs2.
  destruct cs as [|d2 cs'].
  { injection Hfeed as <- <- <-. exists [d]. split_and!; [done|done|].
    cbn [concat]. rewrite app_nil_r, Ep. apply agree_refl. }
  assert (Hf1 : fits (Z.of_nat (length (concat (d2 :: cs')))) (recv d c)).
  { apply fits_recv; [done|lia|]. eapply fits_weaken; [|exact Hfit]. lia. }
  assert (Hf2 : fits (Z.of_nat (length (concat (d2 :: cs')))) c1).
  { destruct Hs1 as (? & b1 & Hb1 & ?).
    destruct (Parse_incomplete cfg _ _ b1 ltac:(by split; [|exists b1]) Hb1 Ep) as (_ & _ & ->).
    exact Hf1. }
  destruct (IH c1 Hs2 ltac:(done) Hf2 Hfeed) as (used & Hu & Hcs & Ha1 & Ha2).
  assert (Hlen : (length (concat (d2 :: cs')) = length (concat used) + length (concat rest))%nat)
    by (by rewrite Hcs, concat_app, length_app).
  assert (Hfu : fits (Z.of_nat (length (concat used))) (recv d c))
    by (eapply fits_weaken; [|exact Hf1]; lia).
  destruct (Parse_incremental cfg (recv d c) c1 (concat used) Hs1 Hfu Ep) as (Hb1 & Hb2).
  assert (Hfa : fits (Z.of_nat (length d) + Z.of_nat (length (concat used))) c)
    by (eapply fits_weaken; [|exact Hfit]; lia).
  rewrite recv_recv in Hb1, Hb2 by done.
  exists (d :: used). split_and!; [done|by rewrite Hcs|]. cbn [concat]. split.
  - by rewrite Ha1.
  - intros Hst. rewrite Ha2 by done. apply Hb2. by rewrite <- Ha1.
Qed.

End fragments.

(** ** Specification of the request head

    The same grammar read off immutable bytes, with no buffer, no views and no
    positions. *)

Definition is_tchar (c : Z) : bool := existsb (Z.eqb c) tchars.
Definition field_char (c : Z) : bool := negb (((c <? 32) && negb (c =? TAB)) || (c =? 127)).

Definition spec_field (line : bytes) : option (bytes * bytes) :=
  match find_char COLON line with
  | None => None
  | Some k =>
      let name := take k line in
      let value := trim_by is_blank (drop (k + 1) line) in
      if (0 <? k)%nat && forallb is_tchar name && forallb field_char value
      then Some (name, value) else None
  end.

(** A CRLF-terminated line at the front of [s]: its length. *)
Definition spec_crlf (s : bytes) : option nat :=
  match find_char CR s with
  | Some k => if (k + 1 <? length s)%nat && (at_ s (k + 1) =? LF) then Some k else None
  | None => None
  end.

(** The fields up to and including the empty line, and the bytes consumed. *)
Fixpoint spec_block (fuel : nat) (budget : Z) (s : bytes) : option (list (bytes * bytes) * nat) :=
  match fuel with
  | O => None
  | S f =>
      match spec_crlf s with
      | None => None
      | Some O => Some ([], 2%nat)
      | Some k =>
          match spec_field (take k s) with
          | None => None
          | Some fv =>
              if budget <? 1 then None
              else match spec_block f (budget - 1) (drop (k + 2) s) with
                   | Some (fs, n) => Some (fv :: fs, (k + 2 + n)%nat)
                   | None => None
                   end
          end
      end
  end.

(** Every turn consumes at least two bytes: the length of [s] is enough fuel
    (lemma [spec_block_fuel]). *)
Definition spec_headers (budget : Z) (s : bytes) : option (list (bytes * bytes) * nat) :=
  spec_block (length s) budget s.

(** Path normalised, query untouched. *)
Definition spec_target (raw : bytes) : option bytes :=
  match find_char QMARK raw with
  | None => normalized raw
  | Some q => match normalized (take q raw) with
              | Some p => Some (p ++ QMARK :: drop (q + 1) raw)
              | None => None
              end
  end.

(** "method SP target SP version", each part as the server reads it. *)
Definition spec_request_line (line : bytes) : option (HttpMethod * bytes * HttpVersion) :=
  match find_char SPACE line with
  | None => None
  | Some m =>
      let rest := drop (m + 1) line in
      match find_char SPACE rest with
      | None => None
      | Some t =>
          let meth := HttpMethodToEnum (take m line) in
          let ver := HttpVersionToEnum (drop (t + 1) rest) in
          if bool_decide (meth = UNKNOWN_METHOD) || (t =? 0)%nat || bool_decide (ver = UNKNOWN_VERSION)
          then None
          else match spec_target (take t rest) with
               | Some p => Some (meth, p, ver)
               | None => None
               end
      end
  end.

Record head := Head {
  h_method : HttpMethod;
  h_target : bytes;
  h_version : HttpVersion;
  h_fields : list (bytes * bytes);   (* in the order received *)
  h_end : nat                        (* the offset just past the empty line *)
}.

Definition spec_head (cfg : NetworkConfig) (s : bytes) : option head :=
  match spec_crlf s with
  | None => None
  | Some e =>
      match spec_request_line (take e s), spec_headers (maxHeaderTotalCount cfg) (drop (e + 2) s) with
      | Some (m, p, v), Some (fs, n) => Some (Head m p v fs (e + 2 + n))
      | _, _ => None
      end
  end.

(** The header map the fields amount to: a later field replaces an earlier one
    of the same name. *)
Definition fields_map (fs : list (bytes * bytes)) : list (bytes * bytes) :=
  fold_left (fun m f => SetHeader id f.1 f.2 m) fs [].

(** What the stored views denote. *)
Definition contents (base : Z) (data : bytes) (hs : list (view * view)) : list (bytes * bytes) :=
  map (fun p => (view_bytes base data p.1, view_bytes base data p.2)) hs.

(** A view that ends before [lim], with a NUL behind it. *)
Definition placed (base : Z) (data : bytes) (lim : nat) (v : view) : Prop :=
  base <= v_addr v /\ 0 <= v_len v /\ v_addr v + v_len v < base + Z.of_nat lim /\
  at_ data (Z.to_nat (v_addr v + v_len v - base)) = NUL.

Definition all_placed (base : Z) (data : bytes) (lim : nat) (hs : list (view * view)) : Prop :=
  Forall (fun p => placed base data lim p.1 /\ placed base data lim p.2) hs.

(** The request holds what the head says, and every view is inside the head. *)
Definition request_denotes (base : Z) (mem : bytes) (h : head) (r : HttpRequest) : Prop :=
  method r = h_method h /\ version r = h_version h /\
  view_bytes base mem (path r) = h_target h /\
  contents base mem (headers r) = fields_map (h_fields h) /\
  (base <= v_addr (path r) /\ 0 <= v_len (path r) /\
   v_addr (path r) + v_len (path r) <= base + Z.of_nat (h_end h)) /\
  all_placed base mem (h_end h) (headers r).

(** *** What a head asks for *)

Definition field (h : head) (name : string) : bytes :=
  default [] (find_header id (lit name) (fields_map (h_fields h))).

Inductive plan : Type :=
| Reject                                  (* malformed or over a limit *)
| Refuse417                               (* an expectation that cannot be met *)
| NoBody
| Chunked (expect : bool)                 (* body left to the handler *)
| Sized (expect : bool) (len : nat).      (* [len] bytes follow the head *)

Definition spec_plan (cfg : NetworkConfig) (h : head) : plan :=
  let present name := negb (length (field h name) =? 0)%nat in
  let expect := present "Expect"%string &&
                InsensitiveStringCompare (field h "Expect") (lit "100-continue") in
  if present "Transfer-Encoding"%string && present "Content-Length"%string then Reject
  else if present "Content-Length"%string then
    match StrToUInt64 (field h "Content-Length") with
    | None => Reject
    | Some n =>
        if (maxBodyTotalSize cfg <? n) || (maxReadBufferSize cfg <? Z.of_nat (h_end h) + n)
        then (if expect then Refuse417 else Reject)
        else if (n =? 0) && negb expect then NoBody else Sized expect (Z.to_nat n)
    end
  else if present "Transfer-Encoding"%string then
    if InsensitiveStringCompare (field h "Transfer-Encoding") (lit "chunked")
    then Chunked expect else Reject
  else if expect then Refuse417 else NoBody.

(** The connection holds a complete request: head [h] and body [bd]. *)
Definition delivered (c : ClientCtx) (h : head) (bd : bytes) : Prop :=
  parseState c = PARSE_SUCCESS /\
  exists b r, readBuffer_ (rwBuffer c) = Some b /\ requestInfo c = Some r /\
    request_denotes (b_base b) (b_mem b) h r /\ view_bytes (b_base b) (b_mem b) (body r) = bd.

(** The connection waits for the rest of an [n]-byte body, has [got] so far, and
    its buffer has room for all of it. *)
Definition awaiting (c : ClientCtx) (h : head) (n : nat) (got : bytes) : Prop :=
  parseState c = PARSE_INCOMPLETE_BODY /\
  trackBytes c = Z.of_nat (h_end h) + Z.of_nat n /\ expectedBodyLength c = Z.of_nat n /\
  exists b r, readBuffer_ (rwBuffer c) = Some b /\ requestInfo c = Some r /\ wf b /\
    Z.of_nat (h_end h) + Z.of_nat n <= b_bufferSize b /\
    Z.of_nat (h_end h) <= b_dataLength b /\ 0 < b_dataLength b /\
    request_denotes (b_base b) (b_mem b) h r /\ drop (h_end h) (live b) = got.

(** ** Slices *)

Lemma slice_mid (a b c : bytes) : slice (a ++ b ++ c) (length a) (length a + length b) = b.
Proof.
  unfold slice. rewrite drop_app_length. rewrite take_app_length'; [done|lia].
Qed.

Lemma slice_length (l : bytes) i j : (j <= length l)%nat -> length (slice l i j) = (j - i)%nat.
Proof. intros H. unfold slice. rewrite length_take, length_drop. lia. Qed.

Lemma slice_at (l : bytes) i j k : (k < j - i)%nat -> at_ (slice l i j) k = at_ l (i + k).
Proof. intros H. unfold slice, at_. rewrite lookup_take_lt by done. by rewrite lookup_drop. Qed.

Lemma slice_split (l : bytes) i j :
  (i <= j <= length l)%nat -> l = take i l ++ slice l i j ++ drop j l.
Proof.
  intros H. unfold slice. replace (drop j l) with (drop (j - i) (drop i l)) by (rewrite drop_drop; f_equal; lia).
  by rewrite take_drop, take_drop.
Qed.

Lemma memcpy_at_app_length (a d r : bytes) :
  memcpy_at (length a) d (a ++ r) = a ++ d ++ drop (length d) r.
Proof.
  unfold memcpy_at. rewrite take_app_length. do 2 f_equal.
  rewrite <- drop_drop, drop_app_length. done.
Qed.

Lemma normalize_cases raw :
  match NormalizeURIPathInplace raw with
  | Some (buf, n) => length buf = length raw /\ (n <= length raw)%nat /\ normalized raw = Some (take n buf)
  | None => normalized raw = None
  end.
Proof.
  destruct raw as [|x r]; [done|].
  destruct (normalize_spec (x :: r) ltac:(done)) as (buf & n & E & Hl & Hn & Ht).
  rewrite E. split_and!; [done|done|]. unfold normalized. by rewrite E.
Qed.

Lemma insert_mid (a r : bytes) x y : <[length a := y]> (a ++ x :: r) = a ++ y :: r.
Proof. replace (length a) with (length a + 0)%nat by lia. by rewrite insert_app_r. Qed.

(** [normalize_target] rewrites the target where it lies and touches nothing else. *)
Lemma normalize_target_spec pre raw post :
  match normalize_target (pre ++ raw ++ post) (length pre) (length raw) with
  | Some (data', n) =>
      (n <= length raw)%nat /\
      exists raw', data' = pre ++ raw' ++ post /\ length raw' = length raw /\
                   spec_target raw = Some (take n raw')
  | None => spec_target raw = None
  end.
Proof.
  unfold normalize_target, spec_target. rewrite slice_mid.
  destruct (find_char QMARK raw) as [q|] eqn:Eq.
  - apply find_char_Some in Eq as [Hq _]. pose proof (lookup_lt_Some _ _ _ Hq) as Hlt.
    pose proof (normalize_cases (take q raw)) as Hn.
    destruct (NormalizeURIPathInplace (take q raw)) as [[buf n]|]; [|by rewrite Hn].
    destruct Hn as (Hl & Hle & ->). rewrite length_take in Hl, Hle.
    rewrite Nat.min_l in Hl, Hle by lia.
    rewrite memcpy_at_app_length.
    assert (Eraw : raw = take q raw ++ QMARK :: drop (q + 1) raw).
    { rewrite <- (take_drop q raw) at 1. f_equal. rewrite (drop_S raw QMARK) by done. f_equal. f_equal. lia. }
    set (qs := drop (q + 1) raw) in *.
    assert (Hqs : length qs = (length raw - (q + 1))%nat) by (unfold qs; rewrite length_drop; lia).
    assert (Edrop : drop (length buf) (raw ++ post) = QMARK :: qs ++ post).
    { rewrite Eraw, <- app_assoc. rewrite drop_app_length'; [done|]. rewrite length_take. lia. }
    rewrite Edrop. rewrite <- Hqs.
    replace (pre ++ buf ++ QMARK :: qs ++ post) with ((pre ++ buf ++ [QMARK]) ++ qs ++ post)
      by (by rewrite <- !app_assoc).
    replace (length pre + q + 1)%nat with (length (pre ++ buf ++ [QMARK])) by (rewrite !length_app; simpl; lia).
    rewrite slice_mid.
    assert (Ebuf : buf = take n buf ++ drop n buf) by (by rewrite take_drop).
    set (b1 := take n buf) in *. set (b2 := drop n buf) in *.
    assert (Hb1 : length b1 = n) by (unfold b1; rewrite length_take; lia).
    assert (Hb2 : length b2 = (q - n)%nat) by (unfold b2; rewrite length_drop; lia).
    destruct (b2 ++ [QMARK]) as [|x b2'] eqn:Eb2; [by destruct b2|].
    assert (Hb2' : length b2' = (q - n)%nat).
    { apply (f_equal (@length Z)) in Eb2. rewrite length_app in Eb2. simpl in Eb2. lia. }
    replace ((pre ++ buf ++ [QMARK]) ++ qs ++ post) with ((pre ++ b1 ++ [x]) ++ b2' ++ qs ++ post).
    2: { rewrite Ebuf, <- !app_assoc. do 2 f_equal. rewrite (app_assoc b2), Eb2. done. }
    replace (length pre + n + 1)%nat with (length (pre ++ b1 ++ [x])) by (rewrite !length_app; simpl; lia).
    rewrite memcpy_at_app_length.
    replace ((pre ++ b1 ++ [x]) ++ qs ++ drop (length qs) (b2' ++ qs ++ post))
      with ((pre ++ b1) ++ x :: (qs ++ drop (length qs) (b2' ++ qs ++ post)))
      by (by rewrite <- !app_assoc).
    replace (length pre + n)%nat with (length (pre ++ b1)) by (rewrite length_app; lia).
    rewrite insert_mid. split; [lia|].
    exists (b1 ++ QMARK :: qs ++ drop (length qs) (b2' ++ qs)). split_and!.
    + rewrite <- !app_assoc. cbn [app]. do 3 f_equal. rewrite <- app_assoc. f_equal.
      rewrite (app_assoc b2'), drop_app_le; [done|]. rewrite length_app. lia.
    + rewrite length_app. simpl. rewrite length_app, length_drop, length_app. lia.
    + f_equal. rewrite take_app_ge by lia. f_equal.
      replace (n + 1 + length qs - length b1)%nat with (S (length qs)) by lia.
      cbn [take]. by rewrite take_app_length.
  - pose proof (normalize_cases raw) as Hn.
    destruct (NormalizeURIPathInplace raw) as [[buf n]|]; [|done].
    destruct Hn as (Hl & Hle & ->). rewrite memcpy_at_app_length.
    rewrite Hl, drop_app_length. split; [done|]. by exists buf.
Qed.

(** ** The request line *)

Lemma SafeFindCRLF_Some data size from np e :
  (size <= length data)%nat ->
  SafeFindCRLF data size from = Some (np, e) <->
  (from <= e)%nat /\ np = (e + 2)%nat /\ (e + 1 < size)%nat /\
  spec_crlf (slice data from size) = Some (e - from)%nat.
Proof.
  intros Hs. unfold SafeFindCRLF, spec_crlf.
  destruct (Nat.leb_spec size from) as [Hle|Hlt].
  { split; [done|]. intros (? & ? & ? & ?). lia. }
  destruct (find_char CR (slice data from size)) as [k|] eqn:E; [|split; [done|by intros (? & ? & ? & ?)]].
  apply find_char_Some in E as [E _]. apply lookup_lt_Some in E. rewrite slice_length in * by done.
  destruct (Nat.ltb_spec (k + 1) (size - from)) as [Hk|Hk].
  - rewrite slice_at by done. replace (from + (k + 1))%nat with (from + k + 1)%nat by lia.
    replace (size <=? from + k + 1)%nat with false by lia. cbn [orb andb].
    destruct (at_ data (from + k + 1) =? LF); cbn [negb].
    + split; [intros [= <- <-]; split_and!; [lia|lia|lia|f_equal; lia]|].
      intros (? & -> & ? & [= ?]). do 2 f_equal; lia.
    + split; [done|by intros (? & ? & ? & ?)].
  - replace (size <=? from + k + 1)%nat with true by lia. cbn [orb andb].
    split; [done|by intros (? & ? & ? & ?)].
Qed.

Lemma take_app_3 (a b c : bytes) n :
  n = (length a + length b)%nat -> take n (a ++ b ++ c) = a ++ b.
Proof. intros ->. rewrite app_assoc. apply take_app_length'. by rewrite length_app. Qed.

Lemma view_bytes_mid base (a b c : bytes) n :
  (n <= length b)%nat ->
  view_bytes base (a ++ b ++ c) (View (base + Z.of_nat (length a)) (Z.of_nat n)) = take n b.
Proof.
  intros Hn. unfold view_bytes; cbn [v_addr v_len].
  replace (Z.to_nat (base + Z.of_nat (length a) - base)) with (length a) by lia.
  rewrite drop_app_length, Nat2Z.id. by rewrite take_app_le.
Qed.

(** Where the parts of a request line lie. *)
Lemma request_line_split line m t :
  find_char SPACE line = Some m -> find_char SPACE (drop (m + 1) line) = Some t ->
  exists l1 raw ver, line = l1 ++ raw ++ SPACE :: ver /\ length l1 = (m + 1)%nat /\ length raw = t /\
    take t (drop (m + 1) line) = raw /\ drop (t + 1) (drop (m + 1) line) = ver /\
    take m line = take m l1.
Proof.
  intros Hm Ht. apply find_char_Some in Hm as [Hm _]. apply find_char_Some in Ht as [Ht _].
  pose proof (lookup_lt_Some _ _ _ Hm). pose proof (lookup_lt_Some _ _ _ Ht) as Htl.
  exists (take (m + 1) line), (take t (drop (m + 1) line)), (drop (t + 1) (drop (m + 1) line)).
  split_and!; [|rewrite length_take; lia|rewrite length_take, length_drop in *; lia|done|done|].
  - rewrite <- (take_drop (m + 1) line) at 1. f_equal.
    rewrite <- (take_drop t (drop (m + 1) line)) at 1. f_equal.
    rewrite (drop_S _ SPACE) by done. f_equal. f_equal. lia.
  - rewrite take_take. f_equal. lia.
Qed.

Lemma ParseRequest_spec base data size np e req :
  (size <= length data)%nat -> SafeFindCRLF data size 0 = Some (np, e) ->
  let '(ok, data', p, r) := ParseRequest base data size 0 req in
  p = np /\ length data' = length data /\ drop e data' = drop e data /\
  (headers r = headers req /\ body r = body req) /\
  match spec_request_line (take e data) with
  | Some (m, pa, v) =>
      ok = true /\ method r = m /\ version r = v /\ view_bytes base data' (path r) = pa /\
      base <= v_addr (path r) /\ 0 <= v_len (path r) /\ v_addr (path r) + v_len (path r) <= base + Z.of_nat e
  | None => ok = false
  end.
Proof.
  intros Hs Hf. unfold ParseRequest, spec_request_line. rewrite Hf.
  apply SafeFindCRLF_Some in Hf as (_ & -> & He & _); [|done].
  replace (slice data 0 e) with (take e data) by (unfold slice; f_equal; lia).
  set (line := take e data). assert (Hll : length line = e) by (unfold line; rewrite length_take; lia).
  destruct (find_char SPACE line) as [m|] eqn:Em; [|by split_and!].
  cbv zeta. cbn [method set_method].
  destruct (find_char SPACE (drop (m + 1) line)) as [t|] eqn:Et;
    [|by case_bool_decide; split_and!].
  case_bool_decide as Hmeth; cbn [orb]; [by split_and!|].
  destruct t as [|t']; [by split_and!|]. cbn [Nat.eqb orb]. set (t := S t') in *.
  destruct (request_line_split line m t Em Et) as (l1 & raw & ver & El & Hl1 & Hraw & -> & -> & _).
  assert (Edata : data = l1 ++ raw ++ (SPACE :: ver ++ drop e data)).
  { rewrite <- (take_drop e data) at 1. fold line. rewrite El. by rewrite <- !app_assoc. }
  pose proof (normalize_target_spec l1 raw (SPACE :: ver ++ drop e data)) as Hn.
  rewrite <- Edata, Hl1, Hraw in Hn.
  destruct (normalize_target data (m + 1) t) as [[data' n]|].
  2: { rewrite Hn. case_bool_decide; by split_and!. }
  destruct Hn as (Hn & raw' & Ed' & Hr' & Hsp).
  assert (Hlen : length line = (m + 1 + t + 1 + length ver)%nat).
  { rewrite El, !length_app. simpl. lia. }
  assert (Hver : slice data' (0 + (m + 1 + t) + 1) e = ver).
  { rewrite Ed'. replace (l1 ++ raw' ++ SPACE :: ver ++ drop e data)
      with ((l1 ++ raw' ++ [SPACE]) ++ ver ++ drop e data) by (by rewrite <- !app_assoc).
    etransitivity; [|exact (slice_mid (l1 ++ raw' ++ [SPACE]) ver (drop e data))].
    f_equal; rewrite !length_app; simpl; lia. }
  rewrite Hver. cbn [version set_version].
  assert (Hdrop : drop e data' = drop e data).
  { rewrite Ed'. replace (l1 ++ raw' ++ SPACE :: ver ++ drop e data)
      with ((l1 ++ raw' ++ SPACE :: ver) ++ drop e data) by (by rewrite <- !app_assoc).
    apply drop_app_length'. rewrite !length_app. simpl. lia. }
  assert (Hdl : length data' = length data).
  { rewrite Ed'. rewrite Edata at 2. rewrite !length_app. lia. }
  destruct (decide (HttpVersionToEnum ver = UNKNOWN_VERSION)) as [Hv|Hv].
  - rewrite (bool_decide_eq_true_2 _ Hv). rewrite bool_decide_eq_false_2 by tauto. by split_and!.
  - rewrite (bool_decide_eq_false_2 _ Hv). rewrite bool_decide_eq_true_2 by done.
    rewrite Hsp. cbn [method version path headers body set_method set_version set_path v_addr v_len].
    split_and!; try done; try lia.
    rewrite Ed', <- Hl1. apply view_bytes_mid. lia.
Qed.

(** ** One header field *)

Lemma tchar_bit_spec c : (tchar_bit c =? 0) = negb (is_tchar c).
Proof.
  destruct (decide (0 <= c < 256)) as [Hc|Hc].
  - assert (H : forallb (fun c => Bool.eqb (tchar_bit c =? 0) (negb (is_tchar c))) (seqZ 0 256) = true)
      by (vm_compute; reflexivity).
    rewrite forallb_forall in H. apply eqb_prop. apply H.
    apply list_elem_of_In, elem_of_seqZ. lia.
  - assert (Ht : is_tchar c = false).
    { apply not_true_iff_false. unfold is_tchar. rewrite existsb_exists. intros (x & Hx & Heq).
      apply Z.eqb_eq in Heq as ->. apply list_elem_of_In in Hx.
      assert (Hall : Forall (fun x => 0 <= x < 256) tchars) by (apply Forall_forall; intros y Hy;
        apply (Forall_forall (fun y => 0 <= y < 256) tchars); [by vm_compute; repeat constructor|done]).
      rewrite Forall_forall in Hall. by apply Hall in Hx. }
    rewrite Ht. unfold tchar_bit. cbn [negb]. apply Z.eqb_eq.
    assert (Ha : at_ K_TCHAR (Z.to_nat (Z.shiftr c 5)) = 0).
    { destruct (decide (c < 0)) as [Hneg|Hpos].
      - assert (Z.shiftr c 5 < 0) by (by apply Z.shiftr_neg).
        rewrite (Z2Nat.inj_neg (Z.to_pos (- Z.shiftr c 5))) || replace (Z.to_nat (Z.shiftr c 5)) with 0%nat by lia.
        vm_compute. reflexivity.
      - assert (8 <= Z.shiftr c 5) by (rewrite Z.shiftr_div_pow2 by lia; apply Z.div_le_lower_bound; lia).
        unfold at_. rewrite lookup_ge_None_2; [done|]. change (length K_TCHAR) with 8%nat. lia. }
    rewrite Ha, Z.shiftr_0_l. done.
Qed.

Lemma field_end_loop_spec line n :
  field_end_loop line n =
    match find_char COLON line with
    | Some k => if (0 <? n + k)%nat && forallb is_tchar (take k line) then Some (n + k)%nat else None
    | None => None
    end.
Proof.
  revert n. induction line as [|c r IH]; intros n; [done|].
  cbn [field_end_loop find_char]. destruct (Z.eqb_spec c COLON) as [->|Hne].
  - cbn [take forallb]. rewrite andb_true_r, Nat.add_0_r. by destruct n.
  - rewrite tchar_bit_spec, IH. destruct (find_char COLON r) as [k|]; cbn [fmap option_fmap option_map].
    + cbn [take forallb]. replace (n + 1 + k)%nat with (n + S k)%nat by lia.
      destruct (is_tchar c); cbn [negb andb]; [done|]. by rewrite andb_false_r.
    + by destruct (negb (is_tchar c)).
Qed.

Lemma trim_start_drop sv : drop (trim_start sv) sv = drop_while is_blank sv.
Proof. induction sv as [|c r IH]; [done|]. cbn. by destruct (is_blank c). Qed.

Lemma trim_start_le sv : (trim_start sv <= length sv)%nat.
Proof. induction sv as [|c r IH]; [done|]. cbn. destruct (is_blank c); lia. Qed.

Lemma slice_S (l : bytes) i j :
  (i <= j < length l)%nat -> slice l i (S j) = slice l i j ++ [at_ l j].
Proof.
  intros H. unfold slice. replace (S j - i)%nat with (S (j - i)) by lia.
  rewrite take_S_at by (rewrite length_drop; lia). do 2 f_equal.
  unfold at_. rewrite lookup_drop. do 2 f_equal. lia.
Qed.

Lemma trim_end_spec sv start e :
  (start <= e <= length sv)%nat ->
  (start <= trim_end sv start e <= e)%nat /\
  slice sv start (trim_end sv start e) = rev (drop_while is_blank (rev (slice sv start e))).
Proof.
  induction e as [|e IH]; intros He; cbn [trim_end].
  - split; [lia|]. unfold slice. by rewrite Nat.sub_0_l.
  - destruct (Nat.ltb_spec start (S e)) as [Hlt|Hge]; cbn [andb].
    + rewrite slice_S, rev_app_distr by lia. cbn [rev app drop_while].
      destruct (is_blank (at_ sv e)).
      * destruct IH as [IH1 IH2]; [lia|]. split; [lia|done].
      * split; [lia|]. cbn [rev]. by rewrite rev_involutive, slice_S by lia.
    + split; [lia|]. assert (start = S e) as -> by lia. unfold slice. by rewrite Nat.sub_diag.
Qed.

Lemma Trim_spec sv :
  let '(start, n) := Trim sv in
  (start + n <= length sv)%nat /\ slice sv start (start + n) = trim_by is_blank sv.
Proof.
  unfold Trim. pose proof (trim_start_le sv) as Hs.
  destruct (trim_end_spec sv (trim_start sv) (length sv)) as [He Heq]; [lia|].
  split; [lia|]. replace (trim_start sv + (trim_end sv (trim_start sv) (length sv) - trim_start sv))%nat
    with (trim_end sv (trim_start sv) (length sv)) by lia.
  rewrite Heq. unfold trim_by. rewrite <- (trim_start_drop sv). unfold slice.
  by rewrite (take_ge (drop _ sv)) by (rewrite length_drop; lia).
Qed.

Lemma fold_lor_zero (f : Z -> bool) v acc :
  0 <= acc ->
  (fold_left (fun bad c => Z.lor bad (Z.b2z (f c))) v acc =? 0) = (acc =? 0) && forallb (fun c => negb (f c)) v.
Proof.
  revert acc. induction v as [|c v IH]; intros acc Ha; cbn; [by rewrite andb_true_r|].
  rewrite IH by (apply Z.lor_nonneg; split; [done|by destruct (f c)]).
  assert (E : (Z.lor acc (Z.b2z (f c)) =? 0) = (acc =? 0) && negb (f c)).
  { apply eq_true_iff_eq. rewrite andb_true_iff, !Z.eqb_eq, Z.lor_eq_0_iff. destruct (f c); cbn; intuition (done || lia). }
  rewrite E. by rewrite andb_assoc.
Qed.

Lemma IsFieldSanitized_spec v : IsFieldSanitized v = forallb field_char v.
Proof. unfold IsFieldSanitized. by rewrite fold_lor_zero. Qed.

(** ** The header block *)

Lemma view_bytes_take base d d' lim v :
  base <= v_addr v -> 0 <= v_len v -> v_addr v + v_len v <= base + Z.of_nat lim ->
  take lim d = take lim d' -> view_bytes base d v = view_bytes base d' v.
Proof.
  intros H1 H2 H3 Ht. unfold view_bytes.
  assert (E : forall l : bytes, take (Z.to_nat (v_len v)) (drop (Z.to_nat (v_addr v - base)) l) =
    take (Z.to_nat (v_len v)) (drop (Z.to_nat (v_addr v - base)) (take lim l))).
  { intros l. rewrite !take_drop_commute, take_take. do 2 f_equal. lia. }
  by rewrite E, Ht, <- E.
Qed.

Lemma at_take_eq d d' lim i : (i < lim)%nat -> take lim d = take lim d' -> at_ d i = at_ d' i.
Proof.
  intros Hi Ht. unfold at_. rewrite <- (lookup_take_lt d lim i), <- (lookup_take_lt d' lim i) by done. by rewrite Ht.
Qed.

Lemma placed_take base d d' lim lim' v :
  (lim <= lim')%nat -> take lim d = take lim d' -> placed base d lim v -> placed base d' lim' v.
Proof.
  intros Hl Ht (H1 & H2 & H3 & H4). split_and!; [done|done|lia|].
  rewrite <- H4. symmetry. eapply at_take_eq; [|exact Ht]. lia.
Qed.

Lemma contents_take base d d' lim hs :
  all_placed base d lim hs -> take lim d = take lim d' -> contents base d hs = contents base d' hs.
Proof.
  intros Hp Ht. unfold contents. induction Hp as [|p hs [Hk Hv] _ IH]; [done|]. cbn [map].
  rewrite IH. destruct Hk as (K1 & K2 & K3 & _), Hv as (V1 & V2 & V3 & _).
  do 2 f_equal; (eapply view_bytes_take; [| | |exact Ht]; lia).
Qed.
Lemma contents_SetHeader base d k v hs :
  contents base d (SetHeader (view_bytes base d) k v hs) =
  SetHeader id (view_bytes base d k) (view_bytes base d v) (contents base d hs).
Proof.
  induction hs as [|[k' v'] hs IH]; [done|]. unfold contents in *. cbn. unfold same_key; cbn.
  destruct (CaseInsensitiveEqual _ _); cbn; [done|]. by rewrite IH.
Qed.

Lemma SetHeader_placed base d lim kb k v hs :
  placed base d lim k -> placed base d lim v -> all_placed base d lim hs ->
  all_placed base d lim (SetHeader kb k v hs).
Proof.
  intros Hk Hv. induction 1 as [|[k' v'] hs [Hk' Hv'] Hhs IH]; cbn.
  - by constructor.
  - unfold same_key. destruct (CaseInsensitiveEqual _ _); by constructor.
Qed.

Lemma spec_crlf_Some s k :
  spec_crlf s = Some k ->
  (k + 1 < length s)%nat /\ at_ s k = CR /\ at_ s (k + 1) = LF /\ forall j, (j < k)%nat -> at_ s j <> CR.
Proof.
  unfold spec_crlf. destruct (find_char CR s) as [i|] eqn:E; [|done].
  destruct ((i + 1 <? length s)%nat && (at_ s (i + 1) =? LF)) eqn:Eb; [|done]. intros [= ->].
  apply find_char_Some in E as [E1 E2]. bool_split. split_and!; [lia|by apply at_lookup|lia|].
  intros j Hj. pose proof (lookup_lt_Some _ _ _ E1).
  destruct (lookup_lt_is_Some_2 s j) as [x Hx]; [lia|]. rewrite (at_lookup _ _ _ Hx).
  intros ->. by apply (E2 j).
Qed.

(** The two NULs, and the views of one accepted field. *)
Lemma field_writes base data pos colon vstart vlen e :
  (e + 2 <= length data)%nat -> (pos + colon < vstart)%nat -> (vstart + vlen <= e)%nat ->
  let data' := <[(vstart + vlen)%nat := NUL]> (<[(pos + colon)%nat := NUL]> data) in
  let key := View (base + Z.of_nat pos) (Z.of_nat colon) in
  let val := View (base + Z.of_nat vstart) (Z.of_nat vlen) in
  length data' = length data /\ take pos data' = take pos data /\ drop (e + 2) data' = drop (e + 2) data /\
  view_bytes base data' key = slice data pos (pos + colon) /\
  view_bytes base data' val = slice data vstart (vstart + vlen) /\
  placed base data' (e + 2) key /\ placed base data' (e + 2) val.
Proof.
  intros He Hv Hle data' key val.
  assert (Hvb : forall d a n, view_bytes base d (View (base + Z.of_nat a) (Z.of_nat n)) = slice d a (a + n)).
  { intros d a n. unfold view_bytes, slice; cbn. do 2 f_equal; [lia|]. f_equal. lia. }
  unfold key, val. rewrite !Hvb. unfold data'.
  split_and!.
  - by rewrite !length_insert.
  - by rewrite !take_insert_ge by lia.
  - by rewrite !drop_insert_lt by lia.
  - unfold slice. rewrite !drop_insert_ge, !take_insert_ge by lia. done.
  - unfold slice. rewrite drop_insert_ge, take_insert_ge, drop_insert_lt by lia. done.
  - split_and!; cbn [v_addr v_len]; [lia|lia|lia|].
    replace (Z.to_nat _) with (pos + colon)%nat by lia. apply at_lookup.
    rewrite list_lookup_insert_ne by lia. by apply list_lookup_insert_eq; lia.
  - split_and!; cbn [v_addr v_len]; [lia|lia|lia|].
    replace (Z.to_nat _) with (vstart + vlen)%nat by lia. apply at_lookup.
    apply list_lookup_insert_eq. rewrite length_insert. lia.
Qed.
Lemma slice_prefix data pos size k :
  (pos + k <= size)%nat -> take k (slice data pos size) = slice data pos (pos + k).
Proof. intros H. unfold slice. rewrite take_take. f_equal. lia. Qed.

Lemma slice_suffix data pos size k : drop k (slice data pos size) = slice data (pos + k) size.
Proof. unfold slice. rewrite <- drop_drop, skipn_firstn_comm. f_equal. lia. Qed.

Lemma slice_slice data i j k n :
  (i + k + n <= j)%nat -> slice (slice data i j) k (k + n) = slice data (i + k) (i + k + n).
Proof.
  intros H. unfold slice at 1. rewrite slice_suffix, slice_prefix by lia. f_equal. lia.
Qed.

Lemma spec_field_loop line :
  match FindFieldEnd line with
  | None => spec_field line = None
  | Some colon =>
      let '(tstart, vlen) := Trim (drop (colon + 1) line) in
      (colon + 1 + tstart + vlen <= length line)%nat /\
      let value := slice line (colon + 1 + tstart) (colon + 1 + tstart + vlen) in
      spec_field line = if IsFieldSanitized value then Some (take colon line, value) else None
  end.
Proof.
  unfold FindFieldEnd, spec_field. rewrite field_end_loop_spec. cbn [Nat.add].
  destruct (find_char COLON line) as [k|] eqn:E; [|done].
  apply find_char_Some in E as [E _]. apply lookup_lt_Some in E.
  destruct ((0 <? k)%nat && forallb is_tchar (take k line)) eqn:Eb; [|done].
  pose proof (Trim_spec (drop (k + 1) line)) as Ht.
  destruct (Trim _) as [ts vl]. rewrite length_drop in Ht. destruct Ht as [Hl Hv].
  split; [lia|]. rewrite IsFieldSanitized_spec.
  assert (Ev : slice line (k + 1 + ts) (k + 1 + ts + vl) = trim_by is_blank (drop (k + 1) line)).
  { rewrite <- Hv. unfold slice. rewrite drop_drop. f_equal. lia. }
  rewrite Ev. cbn [andb]. by destruct (forallb field_char _).
Qed.

(** The loop on the buffer, with its views and its writes, computes the fields
    of the specification: same verdict, same end, and a header map whose views
    denote the specified names and values. *)
Lemma headers_loop_spec fuel cfg base data size pos cnt hs :
  (size <= length data)%nat -> all_placed base data pos hs ->
  let '(ok, data', pos', hs') := headers_loop fuel cfg base data size pos cnt hs in
  length data' = length data /\ take pos data' = take pos data /\
  match spec_block fuel (maxHeaderTotalCount cfg - cnt) (slice data pos size) with
  | Some (fs, n) =>
      ok = true /\ pos' = (pos + n)%nat /\ (pos' <= size)%nat /\ drop pos' data' = drop pos' data /\
      all_placed base data' pos' hs' /\
      contents base data' hs' = fold_left (fun m f => SetHeader id f.1 f.2 m) fs (contents base data hs)
  | None => ok = false
  end.
Proof.
  revert data pos cnt hs. induction fuel as [|fuel IH]; intros data pos cnt hs Hs Hp; [done|].
  cbn [headers_loop spec_block].
  destruct (SafeFindCRLF data size pos) as [[np e]|] eqn:Ef.
  2: { split_and!; [done|done|]. destruct (spec_crlf (slice data pos size)) as [k|] eqn:Ek; [|done]. exfalso.
       pose proof (spec_crlf_Some _ _ Ek) as (Hk & _). unfold slice in Hk. rewrite length_take, length_drop in Hk.
       enough (SafeFindCRLF data size pos = Some ((pos + k + 2)%nat, (pos + k)%nat)) by congruence.
       apply SafeFindCRLF_Some; [done|]. split_and!; [lia|lia|lia|]. rewrite Ek. f_equal. lia. }
  apply SafeFindCRLF_Some in Ef as (Hpe & -> & He & Ek); [|done]. rewrite Ek.
  set (line := slice data pos e). assert (Hll : length line = (e - pos)%nat) by (apply slice_length; lia).
  destruct (Nat.eqb_spec (length line) 0) as [Hz|Hnz].
  { rewrite <- Hll, Hz. split_and!; try done; [lia|lia|].
    eapply Forall_impl; [exact Hp|]. cbn. intros p [? ?]. split; (eapply placed_take; [|reflexivity|done]; lia). }
  destruct (e - pos)%nat as [|k'] eqn:Ekk; [lia|]. cbv beta iota. rewrite <- Ekk in Ek, Hll |- *. clear k' Ekk.
  rewrite slice_prefix by lia. replace (pos + (e - pos))%nat with e by lia. fold line.
  pose proof (spec_field_loop line) as Hsf.
  destruct (FindFieldEnd line) as [colon|]; [|by rewrite Hsf].
  destruct (Trim (drop (colon + 1) line)) as [ts vl]. destruct Hsf as [Hfit ->].
  unfold line. rewrite !slice_slice by lia. fold line.
  replace (pos + (colon + 1 + ts))%nat with (pos + colon + 1 + ts)%nat by lia.
  destruct (IsFieldSanitized _); cbn [negb]; [|done].
  destruct (field_writes base data pos colon (pos + colon + 1 + ts) vl e) as
    (Wl & Wt & Wd & Wk & Wv & Pk & Pv); [lia|lia|lia|].
  set (data2 := <[_ := _]> _) in *. set (key := View _ (Z.of_nat colon)) in *.
  set (val := View _ (Z.of_nat vl)) in *.
  destruct (Z.ltb_spec (maxHeaderTotalCount cfg) (cnt + 1)) as [Hmax|Hmax].
  { replace (maxHeaderTotalCount cfg - cnt <? 1) with true by lia. done. }
  replace (maxHeaderTotalCount cfg - cnt <? 1) with false by lia.
  set (hs2 := SetHeader _ _ _ _).
  assert (Hp2 : all_placed base data2 (e + 2) hs2).
  { apply SetHeader_placed; [done|done|]. eapply Forall_impl; [exact Hp|]. cbn. intros p [? ?].
    split; (eapply placed_take; [| |done]; [lia|done]). }
  assert (Hc2 : contents base data2 hs2 =
    SetHeader id (take colon line) (slice data (pos + colon + 1 + ts) (pos + colon + 1 + ts + vl)) (contents base data hs)).
  { unfold hs2. rewrite contents_SetHeader, Wk, Wv. f_equal.
    - unfold line. by rewrite slice_prefix by lia.
    - symmetry. eapply contents_take; [exact Hp|done]. }
  specialize (IH data2 (e + 2)%nat (cnt + 1) hs2 ltac:(lia) Hp2).
  destruct (headers_loop fuel cfg base data2 size (e + 2) (cnt + 1) hs2) as [[[ok data'] pos'] hs'].
  destruct IH as (IHl & IHt & IHm). split; [congruence|]. split.
  { rewrite <- Wt. apply (f_equal (take pos)) in IHt. rewrite !take_take in IHt.
    by rewrite !Nat.min_l in IHt by lia. }
  rewrite slice_suffix. replace (pos + (e - pos + 2))%nat with (e + 2)%nat by lia.
  assert (Es : slice data2 (e + 2) size = slice data (e + 2) size) by (unfold slice; by rewrite Wd).
  rewrite Es in IHm. replace (maxHeaderTotalCount cfg - (cnt + 1)) with (maxHeaderTotalCount cfg - cnt - 1) in IHm by lia.
  destruct (spec_block _ _ _) as [[fs n]|]; [|done].
  destruct IHm as (-> & Hpos & Hle & Hd & Hpl & Hcont). split_and!; [done|lia|done| |done|].
  - assert (Ed : forall l : bytes, drop pos' l = drop n (drop (e + 2) l))
      by (intros l; rewrite drop_drop; f_equal; lia).
    by rewrite Hd, !Ed, Wd.
  - rewrite Hcont, Hc2. done.
Qed.

(** ** The end of the head *)

Lemma spec_block_fuel f b s : (length s <= f)%nat -> spec_block f b s = spec_headers b s.
Proof.
  unfold spec_headers. remember (length s) as n eqn:En. revert f b s En.
  induction (lt_wf n) as [n _ IH]; intros f b s -> Hf.
  destruct (length s) as [|l] eqn:El.
  { destruct s; [|done]. by destruct f. }
  destruct f as [|f]; [lia|]. cbn [spec_block].
  destruct (spec_crlf s) as [[|k]|]; [done| |done].
  destruct (spec_field _); [|done]. destruct (b <? 1); [done|].
  set (s' := drop (S k + 2) s). assert (Hl : (length s' < S l)%nat) by (unfold s'; rewrite length_drop; lia).
  rewrite (IH (length s') Hl f _ s' eq_refl ltac:(lia)).
  by rewrite (IH (length s') Hl l _ s' eq_refl ltac:(lia)).
Qed.

Lemma at_drop (l : bytes) i j : at_ (drop i l) j = at_ l (i + j).
Proof. unfold at_. by rewrite lookup_drop. Qed.

Lemma crlf2_at_drop l i j : crlf2_at (drop i l) j = crlf2_at l (i + j).
Proof. unfold crlf2_at. by rewrite !at_drop, !Nat.add_assoc. Qed.

Lemma crlf2_at_not_CR l j : at_ l j <> CR -> crlf2_at l j = false.
Proof. intros H. unfold crlf2_at. by destruct (Z.eqb_spec (at_ l j) CR). Qed.

Lemma drop_crlf s k :
  spec_crlf s = Some k -> drop k s = CR :: LF :: drop (k + 2) s.
Proof.
  intros (Hl & H1 & H2 & _)%spec_crlf_Some.
  rewrite drop_at, H1 by lia. f_equal. rewrite drop_at by lia.
  replace (S k) with (k + 1)%nat by lia. rewrite H2. do 2 f_equal. lia.
Qed.

(** The block ends at the first CRLF CRLF, counting the CRLF before it. *)
Lemma spec_block_end f b s fs n :
  spec_block f b s = Some (fs, n) ->
  (2 <= n <= length s)%nat /\ crlf2_at (CR :: LF :: s) (n - 2) = true /\
  forall j, (j < n - 2)%nat -> crlf2_at (CR :: LF :: s) j = false.
Proof.
  revert b s fs n. induction f as [|f IH]; intros b s fs n; [done|]. cbn [spec_block].
  destruct (spec_crlf s) as [k|] eqn:Ek; [|done].
  pose proof (drop_crlf _ _ Ek) as Hd. apply spec_crlf_Some in Ek as (Hl & Hcr & Hlf & Hno).
  destruct k as [|k'].
  { intros [= <- <-]. split; [lia|]. split; [|intros j Hj; lia].
    rewrite drop_0 in Hd. rewrite Hd. reflexivity. }
  set (k := S k') in *. destruct (spec_field _); [|done]. destruct (b <? 1); [done|].
  destruct (spec_block f (b - 1) (drop (k + 2) s)) as [[fs' n']|] eqn:Eb; [|done].
  intros [= <- Hnn]. assert (En : n = (k + 2 + n')%nat) by (subst n k; lia). clear Hnn.
  apply IH in Eb as (Hn & Ht & Hf). rewrite length_drop in Hn.
  rewrite <- Hd in Ht, Hf.
  assert (E : forall j, crlf2_at (CR :: LF :: s) (k + 2 + j) = crlf2_at (drop k s) j).
  { intros j. rewrite crlf2_at_drop. replace (k + 2 + j)%nat with (2 + (k + j))%nat by lia.
    by rewrite <- (crlf2_at_drop (CR :: LF :: s) 2). }
  split; [lia|]. split.
  - replace (n - 2)%nat with (k + 2 + (n' - 2))%nat by lia. by rewrite E.
  - intros j Hj. destruct (decide (j < k + 2)%nat) as [Hlt|Hge].
    + destruct j as [|[|j]]; [|reflexivity|].
      * unfold crlf2_at. change (at_ (CR :: LF :: s) (0 + 2)) with (at_ s 0).
        destruct (Z.eqb_spec (at_ s 0) CR) as [Hc|]; [|by rewrite andb_false_r].
        exfalso. by apply (Hno 0%nat); [lia|].
      * apply crlf2_at_not_CR. change (at_ (CR :: LF :: s) (S (S j))) with (at_ s j). apply Hno. lia.
    + replace j with (k + 2 + (j - (k + 2)))%nat by lia. rewrite E. apply Hf. lia.
Qed.

(** What the specification reads as the head is what the scan delimits. *)
Lemma spec_head_end cfg mem size h :
  (size <= length mem)%nat -> spec_head cfg (take size mem) = Some h ->
  SafeFindHeaderEnd mem size 0 = Some (h_end h) /\ (h_end h <= size)%nat.
Proof.
  intros Hs. unfold spec_head. set (s := take size mem).
  assert (Hls : length s = size) by (unfold s; rewrite length_take; lia).
  destruct (spec_crlf s) as [e|] eqn:Ee; [|done].
  destruct (spec_request_line _) as [[[m p] v]|]; [|done].
  destruct (spec_headers _ _) as [[fs n]|] eqn:Eb; [|done]. intros [= <-]; cbn [h_end].
  pose proof (drop_crlf _ _ Ee) as Hd. apply spec_crlf_Some in Ee as (Hl & _ & _ & Hno).
  apply spec_block_end in Eb as (Hn & Ht & Hf). rewrite length_drop in Hn. rewrite <- Hd in Ht, Hf.
  rewrite crlf2_at_drop in Ht. split; [|lia].
  assert (Heq : forall j, (j + 3 < size)%nat -> crlf2_at mem j = crlf2_at s j).
  { intros j Hj. unfold crlf2_at. assert (E : forall i, (i < size)%nat -> at_ mem i = at_ s i)
      by (intros i Hi; unfold at_, s; by rewrite lookup_take_lt). by rewrite !E by lia. }
  pose proof (SafeFindHeaderEnd_spec mem size 0) as H.
  assert (Hnone : forall j, (j < e + (n - 2))%nat -> crlf2_at mem j = false).
  { intros j Hj. rewrite Heq by lia. destruct (decide (j < e)%nat).
    - apply crlf2_at_not_CR. by apply Hno.
    - replace j with (e + (j - e))%nat by lia. rewrite <- crlf2_at_drop. apply Hf. lia. }
  assert (Hyes : crlf2_at mem (e + (n - 2)) = true) by (rewrite Heq by lia; done).
  destruct (SafeFindHeaderEnd mem size 0) as [q|].
  - destruct H as (i & _ & Hi & -> & Hti & Hfi). f_equal.
    destruct (lt_eq_lt_dec i (e + (n - 2))) as [[Hlt| ->]|Hgt]; [|lia|].
    + by rewrite Hnone in Hti by lia.
    + by rewrite Hfi in Hyes by lia.
  - by rewrite H in Hyes by lia.
Qed.

(** ** The head, from the buffer to the request *)

(** Request line, then header block, as [Parse] runs them. *)
Definition parse_head (cfg : NetworkConfig) (base : Z) (mem : bytes) (size : nat) (req : HttpRequest)
  : parse_result :=
  match ParseRequest base mem size 0 req with
  | (false, mem, pos, r) => (false, mem, pos, r)
  | (true, mem, pos, r) =>
      match ParseHeaders cfg base mem size pos (headers r) with
      | (ok, mem, pos, hs) => (ok, mem, pos, set_headers hs r)
      end
  end.

Lemma drop_le (a b : bytes) i j : (i <= j)%nat -> drop i a = drop i b -> drop j a = drop j b.
Proof.
  intros H E. replace j with (i + (j - i))%nat by lia. by rewrite <- !drop_drop, E.
Qed.

Lemma parse_head_spec cfg base mem size req :
  (size <= length mem)%nat -> headers req = [] ->
  let '(ok, mem', pos, r) := parse_head cfg base mem size req in
  length mem' = length mem /\
  match spec_head cfg (take size mem) with
  | Some h =>
      ok = true /\ pos = h_end h /\ drop (h_end h) mem' = drop (h_end h) mem /\
      body r = body req /\ request_denotes base mem' h r
  | None => ok = false
  end.
Proof.
  intros Hs Hh. unfold parse_head, spec_head.
  assert (Esl : take size mem = slice mem 0 size) by (unfold slice; by rewrite Nat.sub_0_r).
  destruct (SafeFindCRLF mem size 0) as [[np e]|] eqn:Ef.
  2: { unfold ParseRequest. rewrite Ef. split; [done|].
       destruct (spec_crlf (take size mem)) as [k|] eqn:Ek; [|done]. exfalso.
       pose proof (spec_crlf_Some _ _ Ek) as (Hk & _). rewrite length_take in Hk.
       enough (SafeFindCRLF mem size 0 = Some ((k + 2)%nat, k)) by congruence.
       apply SafeFindCRLF_Some; [done|]. rewrite <- Esl, Nat.sub_0_r. split_and!; [lia|done|lia|done]. }
  pose proof (ParseRequest_spec base mem size np e req Hs Ef) as Hpr.
  apply SafeFindCRLF_Some in Ef as (_ & -> & He & Ek); [|done]. rewrite <- Esl, Nat.sub_0_r in Ek. rewrite Ek.
  rewrite take_take, Nat.min_l by lia.
  destruct (ParseRequest base mem size 0 req) as [[[ok mem1] p] r1].
  destruct Hpr as (-> & Hl1 & Hd1 & (Hh1 & Hb1) & Hreq).
  destruct (spec_request_line (take e mem)) as [[[m pa] v]|]; [|by rewrite Hreq].
  destruct Hreq as (-> & Hm & Hv & Hpath & Hpl). rewrite Hh1, Hh.
  pose proof (headers_loop_spec size cfg base mem1 size (e + 2) 0 [] ltac:(lia) ltac:(constructor)) as Hhs.
  unfold ParseHeaders.
  destruct (headers_loop size cfg base mem1 size (e + 2) 0 []) as [[[ok2 mem2] pos2] hs].
  destruct Hhs as (Hl2 & Ht2 & Hhs). split; [congruence|].
  assert (Es : slice mem1 (e + 2) size = drop (e + 2) (take size mem)).
  { rewrite Esl, slice_suffix. unfold slice. f_equal. eapply drop_le; [|exact Hd1]. lia. }
  rewrite Es, Z.sub_0_r, spec_block_fuel in Hhs by (rewrite length_drop, length_take; lia).
  destruct (spec_headers _ _) as [[fs n]|]; [|done].
  destruct Hhs as (-> & -> & Hle & Hd2 & Hpl2 & Hc). cbn [h_end].
  split; [done|]. split; [done|]. split.
  { rewrite Hd2. eapply drop_le; [|exact Hd1]. lia. }
  split; [done|].
  unfold request_denotes; cbn [h_method h_version h_target h_fields h_end method version path headers set_headers].
  split_and!; [done|done| |exact Hc|lia|lia|lia|done].
  rewrite <- Hpath. eapply (view_bytes_take _ _ _ (e + 2)); [lia|lia|lia|done].
Qed.

(** ** Moving the buffer *)

Lemma view_bytes_live b v n :
  wf b -> (b_base b <= v_addr v /\ 0 <= v_len v /\ v_addr v + v_len v <= b_base b + Z.of_nat n) ->
  Z.of_nat n <= b_dataLength b -> view_bytes (b_base b) (b_mem b) v = view_bytes (b_base b) (live b) v.
Proof.
  intros (H1 & H2 & H3) (V1 & V2 & V3) Hn. eapply (view_bytes_take _ _ _ n); [done|done|done|].
  unfold live. rewrite take_take. f_equal. lia.
Qed.

(** A view into the old data area, shifted to the new one, denotes the same bytes. *)
Lemma view_bytes_moved b b' v n :
  wf b -> wf b' -> live b' = live b -> b_dataLength b' = b_dataLength b ->
  (b_base b <= v_addr v /\ 0 <= v_len v /\ v_addr v + v_len v <= b_base b + Z.of_nat n) ->
  Z.of_nat n <= b_dataLength b ->
  view_bytes (b_base b') (b_mem b') (shift_view (b_base b' - b_base b) v) =
  view_bytes (b_base b) (b_mem b) v.
Proof.
  intros Hwf Hwf' Hl Hd Hv Hn.
  rewrite (view_bytes_live b v n), (view_bytes_live b' _ n) by (try done; cbn; lia).
  rewrite Hl. unfold view_bytes, shift_view; cbn. do 2 f_equal. f_equal. lia.
Qed.

Lemma placed_moved b b' n v :
  wf b -> wf b' -> live b' = live b -> b_dataLength b' = b_dataLength b ->
  Z.of_nat n <= b_dataLength b -> placed (b_base b) (b_mem b) n v ->
  placed (b_base b') (b_mem b') n (shift_view (b_base b' - b_base b) v).
Proof.
  intros Hwf Hwf' Hl Hd Hn (V1 & V2 & V3 & V4). split_and!; cbn [shift_view v_addr v_len]; [lia|lia|lia|].
  replace (Z.to_nat _) with (Z.to_nat (v_addr v + v_len v - b_base b)) by lia.
  rewrite <- V4. apply (at_take_eq _ _ (Z.to_nat (b_dataLength b))); [lia|].
  unfold live in Hl. by rewrite Hd in Hl.
Qed.

Lemma find_header_contents base mem key hs :
  view_bytes base mem <$> find_header (view_bytes base mem) key hs =
  find_header id key (contents base mem hs).
Proof.
  induction hs as [|[k v] hs IH]; [done|]. cbn. by destruct (CaseInsensitiveEqual _ _).
Qed.

Lemma RebasePointers_contents base mem base' mem' delta hs :
  uniq id (contents base mem hs) ->
  Forall (fun p => view_bytes base' mem' (shift_view delta p.1) = view_bytes base mem p.1 /\
                   view_bytes base' mem' (shift_view delta p.2) = view_bytes base mem p.2) hs ->
  delta <> 0 ->
  RebasePointers (view_bytes base' mem') delta hs =
  map (fun p => (shift_view delta p.1, shift_view delta p.2)) hs.
Proof.
  intros Hu Hall Hd. unfold RebasePointers. destruct (Z.eqb_spec delta 0); [done|].
  assert (Hgen : forall acc, uniq id (contents base' mem' acc ++ contents base mem hs) ->
    fold_left (fun acc p => emplace (view_bytes base' mem') (shift_view delta p.1) (shift_view delta p.2) acc) hs acc =
    acc ++ map (fun p => (shift_view delta p.1, shift_view delta p.2)) hs).
  { clear Hu. induction Hall as [|p hs [Hk Hv] _ IH]; intros acc Hu; cbn [fold_left map];
      [by rewrite app_nil_r|].
    assert (Hnone : find_header (view_bytes base' mem') (view_bytes base' mem' (shift_view delta p.1)) acc = None).
    { apply fmap_None with (f := view_bytes base' mem'). rewrite find_header_contents, find_header_map.
      apply header_map_None. unfold uniq in Hu. rewrite map_app in Hu. apply NoDup_app in Hu as (_ & Hdis & _).
      intros Hin. apply (Hdis _ Hin). cbn. rewrite Hk. apply elem_of_cons. by left. }
    unfold emplace at 2. rewrite Hnone, IH; [by rewrite <- app_assoc|].
    unfold contents in *. rewrite map_app. cbn. rewrite Hk, Hv, <- app_assoc. exact Hu. }
  by rewrite Hgen.
Qed.

Lemma fields_map_uniq fs : uniq id (fields_map fs).
Proof.
  unfold fields_map. assert (H : forall m, uniq id m ->
    uniq id (fold_left (fun m f => SetHeader id f.1 f.2 m) fs m)).
  { induction fs as [|f fs IH]; intros m Hm; cbn; [done|]. apply IH. by apply (SetHeader_uniq id). }
  apply H. constructor.
Qed.

Lemma request_denotes_moved b b' h r :
  wf b -> wf b' -> live b' = live b -> b_dataLength b' = b_dataLength b ->
  Z.of_nat (h_end h) <= b_dataLength b -> b_base b' <> b_base b ->
  request_denotes (b_base b) (b_mem b) h r ->
  let delta := b_base b' - b_base b in
  request_denotes (b_base b') (b_mem b') h
    (set_headers (RebasePointers (view_bytes (b_base b') (b_mem b')) delta (headers r))
                 (set_path (shift_view delta (path r)) r)).
Proof.
  intros Hwf Hwf' Hl Hd Hn Hne (Hm & Hv & Hp & Hc & Hpl & Hall) delta.
  assert (Hmoved : Forall (fun p => view_bytes (b_base b') (b_mem b') (shift_view delta p.1) = view_bytes (b_base b) (b_mem b) p.1 /\
                   view_bytes (b_base b') (b_mem b') (shift_view delta p.2) = view_bytes (b_base b) (b_mem b) p.2) (headers r)).
  { eapply Forall_impl; [exact Hall|]. cbn. intros p [(K1 & K2 & K3 & _) (V1 & V2 & V3 & _)].
    split; (eapply (view_bytes_moved b b' _ (h_end h)); [done|done|done|done|lia|done]). }
  assert (Hr : RebasePointers (view_bytes (b_base b') (b_mem b')) delta (headers r) =
               map (fun p => (shift_view delta p.1, shift_view delta p.2)) (headers r)).
  { eapply RebasePointers_contents; [|exact Hmoved|unfold delta; lia]. rewrite Hc. apply fields_map_uniq. }
  rewrite Hr. unfold request_denotes; cbn [method version path headers set_headers set_path].
  split_and!; [done|done| | |cbn; lia|cbn; lia|cbn; unfold delta; lia|].
  - rewrite <- Hp. eapply (view_bytes_moved b b' _ (h_end h)); done.
  - rewrite <- Hc. unfold contents. rewrite map_map. apply map_ext_in. intros p Hin.
    rewrite Forall_forall in Hmoved. destruct (Hmoved p) as [E1 E2]; [by apply list_elem_of_In|].
    cbn [fst snd]. by rewrite E1, E2.
  - unfold all_placed. apply Forall_map. eapply Forall_impl; [exact Hall|]. cbn. intros p [K V].
    split; by apply placed_moved.
Qed.

Lemma request_denotes_take base mem mem' h r :
  take (h_end h) mem = take (h_end h) mem' ->
  request_denotes base mem h r -> request_denotes base mem' h r.
Proof.
  intros Ht (Hm & Hv & Hp & Hc & Hpl & Hall).
  split_and!; [done|done| | |lia|lia|lia|].
  - rewrite <- Hp. symmetry. eapply view_bytes_take; [lia|lia| |exact Ht]. lia.
  - rewrite <- Hc. symmetry. by eapply contents_take.
  - eapply Forall_impl; [exact Hall|]. cbn. intros p [K V]. split; by eapply placed_take.
Qed.

Lemma normalized_nonempty raw p : normalized raw = Some p -> p <> [].
Proof.
  destruct raw as [|x r]; [done|]. rewrite normalized_norm by done.
  destruct (norm [] (x :: r)) as [|y l]; intros [= <-]; [done|].
  intros E. by apply app_eq_nil in E as [_ E].
Qed.

Lemma spec_target_nonempty raw p : spec_target raw = Some p -> p <> [].
Proof.
  unfold spec_target. destruct (find_char QMARK raw) as [q|]; [|apply normalized_nonempty].
  destruct (normalized (take q raw)) as [p'|] eqn:E; [|done].
  apply normalized_nonempty in E. by intros [= <-]; destruct p'.
Qed.

Lemma spec_request_line_target line m p v : spec_request_line line = Some (m, p, v) -> p <> [].
Proof.
  unfold spec_request_line. destruct (find_char SPACE line); [|done]. cbv zeta.
  destruct (find_char SPACE _); [|done]. destruct (_ || _); [done|].
  destruct (spec_target _) eqn:E; [|done]. intros [= _ <- _]. by apply spec_target_nonempty in E.
Qed.

Lemma spec_head_target cfg s h : spec_head cfg s = Some h -> h_target h <> [].
Proof.
  unfold spec_head. destruct (spec_crlf s); [|done].
  destruct (spec_request_line _) as [[[m p] v]|] eqn:E; [|done].
  destruct (spec_headers _ _) as [[fs k]|]; [|done]. intros [= <-]. by apply spec_request_line_target in E.
Qed.

(** ** Growing for the body *)

Section body.
Context `{AllocatorOk}.

(** A grow that was refused: at the ceiling already, a minimum above it, or an
    allocator failure. *)
Definition grow_refused (b : block) (maxSize minSize : Z) : Prop :=
  maxSize <= b_bufferSize b \/ maxSize < minSize \/ exists old n, Realloc old n = None.

Lemma GrowReadBuffer_spec g mx mn rw b :
  readBuffer_ rw = Some b -> wf b -> 0 <= g -> 0 <= mx -> mx + sizeof_ReadMetadata < 2 ^ 32 ->
  match GrowReadBuffer g mx mn rw with
  | (true, rw') => exists b', rw' = RW (Some b') (writeBuffer_ rw) /\ wf b' /\ live b' = live b /\
      b_dataLength b' = b_dataLength b /\ mn <= b_bufferSize b'
  | (false, rw') => rw' = rw /\ grow_refused b mx mn
  end.
Proof.
  intros Hb Hwf Hg Hm Hmx. unfold GrowReadBuffer, on_read. rewrite Hb.
  destruct (GenericGrowBuffer _ _ _ _ b) as [b'|] eqn:E.
  - apply GenericGrowBuffer_ok in E as (Hwf' & Hl & Hd & _ & _ & Hmn); [|done|done|lia..].
    by exists b'.
  - split; [done|]. unfold GenericGrowBuffer in E.
    destruct (Z.leb_spec mx (b_bufferSize b)) as [Hc|Hc]; [by left|].
    destruct (Z.ltb_spec mx mn) as [Hc'|Hc']; [by right; left|]. right; right.
    unfold realloc_block in E. destruct (Realloc _ _) as [[? ?]|] eqn:Er; [done|]. by do 2 eexists.
Qed.

Lemma ctx_Grow_spec g mx mn c b h r :
  readBuffer_ (rwBuffer c) = Some b -> requestInfo c = Some r -> wf b ->
  0 <= g -> 0 <= mx -> mx + sizeof_ReadMetadata < 2 ^ 32 ->
  request_denotes (b_base b) (b_mem b) h r -> Z.of_nat (h_end h) <= b_dataLength b -> h_target h <> [] ->
  match ctx_GrowReadBuffer g mx mn c with
  | (true, c') =>
      parseState c' = parseState c /\ trackBytes c' = trackBytes c /\
      expectedBodyLength c' = expectedBodyLength c /\
      exists b' r', readBuffer_ (rwBuffer c') = Some b' /\ requestInfo c' = Some r' /\ wf b' /\
        live b' = live b /\ b_dataLength b' = b_dataLength b /\ mn <= b_bufferSize b' /\
        request_denotes (b_base b') (b_mem b') h r'
  | (false, c') => c' = c /\ grow_refused b mx mn
  end.
Proof.
  intros Hb Hr Hwf Hg Hm Hmx Hden Hle Hne. unfold ctx_GrowReadBuffer. rewrite Hb.
  pose proof (GrowReadBuffer_spec g mx mn (rwBuffer c) b Hb Hwf Hg Hm Hmx) as Hs.
  destruct (GrowReadBuffer g mx mn (rwBuffer c)) as [[|] rw']; [|by destruct Hs].
  destruct Hs as (b' & -> & Hwf' & Hl & Hd & Hmn). cbn [readBuffer_]. rewrite Hr.
  assert (Hlen : take (h_end h) (b_mem b) = take (h_end h) (b_mem b')).
  { apply (f_equal (take (h_end h))) in Hl. unfold live in Hl. rewrite !take_take, Hd in Hl.
    by rewrite !Nat.min_l in Hl by lia. }
  destruct (Z.eqb_spec (b_base b') (b_base b)) as [Heq|Hneq].
  { split_and!; [done..|]. exists b', r. split_and!; [done..|].
    rewrite Heq. by eapply request_denotes_take. }
  destruct (Z.eqb_spec (v_len (path r)) 0) as [Hz|Hnz].
  { exfalso. destruct Hden as (_ & _ & Hp & _). unfold view_bytes in Hp. rewrite Hz in Hp. by apply Hne. }
  split_and!; [done..|]. do 2 eexists. split_and!; [reflexivity|reflexivity|done|done|done|done|].
  by apply (request_denotes_moved b b' h r).
Qed.

Lemma find_header_placed kb base mem lim key hs v :
  all_placed base mem lim hs -> find_header kb key hs = Some v -> placed base mem lim v.
Proof.
  induction 1 as [|[k w] hs [Hk Hv] _ IH]; [done|]. cbn. destruct (CaseInsensitiveEqual _ _); [|done].
  by intros [= <-].
Qed.

(** Looking a name up in the views is looking it up in the head. *)
Lemma GetHeader_denotes base mem h r name :
  request_denotes base mem h r -> (h_end h <= length mem)%nat ->
  let v := GetHeader (view_bytes base mem) empty_view (lit name) (headers r) in
  view_bytes base mem v = field h name /\ (v_len v =? 0) = (length (field h name) =? 0)%nat.
Proof.
  intros (_ & _ & _ & Hc & _ & Hall) Hle v. unfold v, field, GetHeader. rewrite <- Hc.
  rewrite <- find_header_contents.
  destruct (find_header (view_bytes base mem) (lit name) (headers r)) as [w|] eqn:E; cbn; [|done].
  split; [done|]. apply (find_header_placed _ _ _ _ _ _ _ Hall) in E as (E1 & E2 & E3 & _).
  unfold view_bytes. rewrite length_take, length_drop. apply eq_true_iff_eq.
  rewrite Z.eqb_eq, Nat.eqb_eq. lia.
Qed.

Definition cfg_ok (cfg : NetworkConfig) : Prop :=
  0 <= maxReadBufferSize cfg /\ maxReadBufferSize cfg + sizeof_ReadMetadata < 2 ^ 32.

(** The request object as a connection starts a request with it. *)
Definition fresh_request (r : HttpRequest) : Prop := headers r = [] /\ body r = empty_view.

Lemma live_drop_mem b n m :
  drop n (live b) = take (Z.to_nat (b_dataLength b) - n) (drop n (b_mem b)) /\
  ((n + m <= Z.to_nat (b_dataLength b))%nat -> take m (drop n (b_mem b)) = take m (drop n (live b))).
Proof.
  unfold live. rewrite skipn_firstn_comm. split; [done|]. intros Hm. rewrite take_take. f_equal. lia.
Qed.

Lemma view_bytes_at base mem i n :
  view_bytes base mem (View (base + Z.of_nat i) (Z.of_nat n)) = take n (drop i mem).
Proof. unfold view_bytes; cbn. rewrite Nat2Z.id. do 2 f_equal. lia. Qed.

(** Waiting for the body: the buffer is grown to hold all of it. *)
Lemma PrepareForBody_spec cfg c b h r n :
  cfg_ok cfg -> readBuffer_ (rwBuffer c) = Some b -> requestInfo c = Some r -> wf b ->
  request_denotes (b_base b) (b_mem b) h r -> Z.of_nat (h_end h) <= b_dataLength b ->
  0 < b_dataLength b -> h_target h <> [] ->
  0 <= n -> Z.of_nat (h_end h) + n <= maxReadBufferSize cfg ->
  match PrepareForBody (Z.of_nat (h_end h)) n (maxReadBufferSize cfg) c with
  | (true, c') => awaiting (SetParseState PARSE_INCOMPLETE_BODY c') h (Z.to_nat n) (drop (h_end h) (live b))
  | (false, _) => grow_refused b (maxReadBufferSize cfg) (Z.of_nat (h_end h) + n)
  end.
Proof.
  intros [Hc1 Hc2] Hb Hr Hwf Hden Hle Hpos Hne Hn Hfit. unfold PrepareForBody. cbn [trackBytes].
  unfold sizeof_ReadMetadata in *. rewrite !wrap_small by lia.
  set (c0 := Client _ _ _ _ _).
  pose proof (ctx_Grow_spec 1 (maxReadBufferSize cfg) (Z.of_nat (h_end h) + n) c0 b h r Hb Hr Hwf
    ltac:(lia) Hc1 Hc2 Hden Hle Hne) as Hg.
  destruct (ctx_GrowReadBuffer _ _ _ c0) as [[|] c']; [|by destruct Hg].
  destruct Hg as (_ & Ht & He & b' & r' & Hb' & Hr' & Hwf' & Hl & Hd & Hmn & Hden').
  split; [done|]. cbn [trackBytes expectedBodyLength SetParseState rwBuffer requestInfo].
  rewrite Ht, He. split; [cbn; lia|]. split; [cbn; lia|].
  exists b', r'. split_and!; [done|done|done|lia|lia|lia|done|by rewrite Hl].
Qed.

(** What answering [st] and leaving [c'] has to mean, for a head [h] in front of
    what the buffer [b] holds. *)
Definition plan_result (cfg : NetworkConfig) (b : block) (h : head) (st : HttpParseState) (c' : ClientCtx)
  : Prop :=
  match spec_plan cfg h with
  | Reject => st = PARSE_ERROR
  | Refuse417 => st = PARSE_EXPECT_417
  | NoBody => st = PARSE_SUCCESS /\ delivered c' h []
  | Chunked ex => st = (if ex then PARSE_EXPECT_100 else PARSE_STREAMING_BODY) /\
                  parseState c' = PARSE_STREAMING_BODY
  | Sized ex n =>
      let rest := drop (h_end h) (live b) in
      if negb ex && (n <=? length rest)%nat then st = PARSE_SUCCESS /\ delivered c' h (take n rest)
      else (st = (if ex then PARSE_EXPECT_100 else PARSE_INCOMPLETE_BODY) /\ awaiting c' h n rest) \/
           (st = PARSE_ERROR /\
            grow_refused b (maxReadBufferSize cfg) (Z.of_nat (h_end h) + Z.of_nat n))
  end.

Lemma dispatch_spec cfg c b h r :
  let size := Z.to_nat (b_dataLength b) in
  cfg_ok cfg -> readBuffer_ (rwBuffer c) = Some b -> requestInfo c = Some r -> wf b ->
  trackBytes c = Z.of_nat (h_end h) -> body r = empty_view ->
  request_denotes (b_base b) (b_mem b) h r -> (h_end h <= size)%nat -> 0 < b_dataLength b -> h_target h <> [] ->
  let '(st, c') := dispatch_headers cfg b size (h_end h) (h_end h) r c in
  plan_result cfg b h st c'.
Proof.
  intros size Hcfg Hb Hr Hwf Ht Hbody Hden Hle Hpos Hne. unfold dispatch_headers, plan_result, spec_plan. cbv zeta.
  assert (Hlen : (h_end h <= length (b_mem b))%nat) by (destruct Hwf as (? & ? & ?); lia).
  assert (Hrest : length (drop (h_end h) (live b)) = (size - h_end h)%nat).
  { rewrite length_drop. pose proof (length_live b Hwf). unfold size. lia. }
  rewrite Hrest. clear Hrest.
  destruct (GetHeader_denotes _ _ _ _ "Expect" Hden Hlen) as [-> ->].
  destruct (GetHeader_denotes _ _ _ _ "Content-Length" Hden Hlen) as [-> ->].
  destruct (GetHeader_denotes _ _ _ _ "Transfer-Encoding" Hden Hlen) as [-> ->].
  set (ex := _ && InsensitiveStringCompare _ _).
  set (cl := negb (length (field h "Content-Length") =? 0)%nat).
  set (te := negb (length (field h "Transfer-Encoding") =? 0)%nat).
  destruct (te && cl); [done|].
  destruct cl; cbn [negb andb].
  2: { rewrite andb_true_r. destruct te; cbn [negb].
       - rewrite andb_false_r. destruct (InsensitiveStringCompare _ (lit "chunked")); cbn [negb]; [|done]. destruct ex; by split.
       - rewrite andb_true_r. destruct ex; [done|]. split; [done|]. split; [done|].
         exists b, r. split_and!; [done|done|done|]. by rewrite Hbody. }
  rewrite andb_false_r. cbn [andb].
  destruct (StrToUInt64 _) as [n|] eqn:En; [|done]. apply StrToUInt64_nonneg in En.
  replace ((maxBodyTotalSize cfg <? n) || (maxReadBufferSize cfg <? n) ||
           (maxReadBufferSize cfg - n <? Z.of_nat (h_end h)))
    with ((maxBodyTotalSize cfg <? n) || (maxReadBufferSize cfg <? Z.of_nat (h_end h) + n)) by lia.
  destruct (_ || _) eqn:Elim; [by destruct ex|].
  pose proof (PrepareForBody_spec cfg c b h r n Hcfg Hb Hr Hwf Hden ltac:(lia) Hpos Hne En ltac:(lia)) as Hp.
  destruct ex; cbn [negb andb].
  { rewrite andb_false_r. rewrite Z2Nat.id by done.
    destruct (PrepareForBody _ _ _ c) as [[|] c']; [by left|by right]. }
  rewrite andb_true_r. rewrite Ht. destruct (Z.eqb_spec n 0) as [->|Hn0].
  { cbn. split; [done|]. split; [done|]. exists b, r. split_and!; [done|done|done|]. by rewrite Hbody. }
  replace (0 <? n) with true by lia.
  destruct (Z.ltb_spec (Z.of_nat size - Z.of_nat (h_end h)) n) as [Hlt|Hge].
  - replace (Z.to_nat n <=? size - h_end h)%nat with false by lia. rewrite Z2Nat.id by done.
    destruct (PrepareForBody _ _ _ c) as [[|] c']; [by left|by right].
  - replace (Z.to_nat n <=? size - h_end h)%nat with true by lia.
    unfold ParseBody. replace ((size <? h_end h)%nat || (size <? Z.to_nat n)%nat ||
      (size <? h_end h + Z.to_nat n)%nat) with false by lia.
    split; [done|]. split; [done|]. exists b. eexists. split_and!; [exact Hb|reflexivity|exact Hden|].
    cbn [body set_body]. rewrite view_bytes_at. apply live_drop_mem. unfold size in *. lia.
Qed.

Definition with_mem (b : block) (mem : bytes) : block :=
  Block (b_base b) (b_bufferSize b) (b_dataLength b) (b_writtenLength b) mem.

(** [Parse] on a complete head within the limit goes on to dispatch it; on a
    complete head that is malformed it fails. *)
Lemma Parse_complete_head cfg c b he :
  scan_inv c -> readBuffer_ (rwBuffer c) = Some b -> fresh_request (default new_request (requestInfo c)) ->
  SafeFindHeaderEnd (b_mem b) (Z.to_nat (b_dataLength b)) 0 = Some he ->
  Z.of_nat he <= maxHeaderTotalSize cfg ->
  match spec_head cfg (live b) with
  | None => fst (Parse cfg c) = PARSE_ERROR
  | Some h => he = h_end h /\ exists mem r,
      let b1 := with_mem b mem in
      length mem = length (b_mem b) /\ drop (h_end h) mem = drop (h_end h) (b_mem b) /\
      request_denotes (b_base b) mem h r /\ body r = empty_view /\
      Parse cfg c = dispatch_headers cfg b1 (Z.to_nat (b_dataLength b)) (h_end h) (h_end h) r
        (Client (RW (Some b1) (writeBuffer_ (rwBuffer c))) PARSE_INCOMPLETE_HEADERS (Z.of_nat (h_end h))
                (expectedBodyLength c) (Some r))
  end.
Proof.
  intros Hs Hb [Hf1 Hf2] He Hmax. pose proof Hs as (_ & b' & Hb' & Hwf & Ht & Hscan).
  rewrite Hb in Hb'. injection Hb' as <-. destruct Hwf as (W1 & W2 & W3).
  rewrite (Parse_scan _ _ _ Hs Hb).
  assert (Hhe : (4 <= he <= Z.to_nat (b_dataLength b))%nat).
  { pose proof (SafeFindHeaderEnd_spec (b_mem b) (Z.to_nat (b_dataLength b)) 0) as Hx. rewrite He in Hx.
    destruct Hx as (i & ? & ? & -> & _). lia. }
  destruct (Z.eqb_spec (b_dataLength b) 0); [lia|]. cbv zeta. unfold parse_headers_case.
  cbn [trackBytes SetParseState set_request].
  rewrite SafeFindHeaderEnd_from by (intros p Hp _; apply Hscan; lia). rewrite He.
  destruct (Z.ltb_spec (maxHeaderTotalSize cfg) (Z.of_nat he)); [lia|].
  pose proof (parse_head_spec cfg (b_base b) (b_mem b) (Z.to_nat (b_dataLength b)) _ ltac:(lia) Hf1) as Hp.
  unfold parse_head in Hp. change (take (Z.to_nat (b_dataLength b)) (b_mem b)) with (live b) in Hp.
  set (req := default new_request (requestInfo c)) in *.
  destruct (ParseRequest _ _ _ _ req) as [[[[|] mem1] pos1] r1].
  2: { destruct Hp as [_ Hp]. destruct (spec_head cfg (live b)); [|done]. by destruct Hp. }
  destruct (ParseHeaders _ _ _ _ _ _) as [[[ok mem2] pos2] hs]. destruct Hp as [Hl Hp].
  destruct (spec_head cfg (live b)) as [h|] eqn:Eh; [|by rewrite Hp].
  destruct Hp as (-> & -> & Hd & Hbd & Hden).
  destruct (spec_head_end cfg (b_mem b) (Z.to_nat (b_dataLength b)) h ltac:(lia) Eh) as [He' _].
  rewrite He in He'. injection He' as ->. split; [done|].
  exists mem2, (set_headers hs r1). split_and!; [done|done|done|by rewrite <- Hf2, <- Hbd|].
  rewrite wrap_small by lia. unfold set_mem. cbn [rwBuffer set_request set_trackBytes SetParseState].
  rewrite Hb. unfold set_rwBuffer; cbn. done.
Qed.

(** The scan fails: wait, or refuse an endless head. *)
Lemma Parse_no_head cfg c b :
  scan_inv c -> readBuffer_ (rwBuffer c) = Some b -> b_dataLength b <> 0 ->
  SafeFindHeaderEnd (b_mem b) (Z.to_nat (b_dataLength b)) 0 = None ->
  fst (Parse cfg c) = if maxHeaderTotalSize cfg <? b_dataLength b then PARSE_ERROR else PARSE_INCOMPLETE_HEADERS.
Proof.
  intros Hs Hb Hne He. rewrite (Parse_scan _ _ _ Hs Hb). pose proof Hs as (_ & b' & Hb' & Hwf & Ht & Hscan).
  rewrite Hb in Hb'. injection Hb' as <-.
  destruct (Z.eqb_spec (b_dataLength b) 0); [lia|]. cbv zeta. unfold parse_headers_case.
  cbn [trackBytes SetParseState set_request].
  rewrite SafeFindHeaderEnd_from, He by (intros p Hp _; apply Hscan; lia). by destruct (_ <? _).
Qed.

(** Receiving body bytes. *)
Lemma Parse_body_step cfg c h n got d :
  awaiting c h n got -> fits (Z.of_nat (length d)) c ->
  let '(st, c') := Parse cfg (recv d c) in
  if (length (got ++ d) <? n)%nat
  then st = PARSE_INCOMPLETE_BODY /\ awaiting c' h n (got ++ d) /\ rwBuffer c' = rwBuffer (recv d c)
  else st = PARSE_SUCCESS /\ delivered c' h (take n (got ++ d)).
Proof.
  intros (Hps & Ht & He & b & r & Hb & Hr & Hwf & Hroom & Hle & Hpos & Hden & Hgot) (b' & Hb' & Hfit).
  rewrite Hb in Hb'. injection Hb' as <-. rewrite (recv_eq d c b Hb Hwf Hfit).
  pose proof (grown_wf d b Hwf Hfit) as Hwf'. pose proof Hwf as (W1 & W2 & W3).
  assert (Hden' : request_denotes (b_base b) (b_mem (grown d b)) h r).
  { eapply request_denotes_take; [|exact Hden]. cbn. unfold memcpy_at.
    rewrite take_app_le by (rewrite length_take; lia). rewrite take_take. f_equal. lia. }
  assert (Hlive : live (grown d b) = live b ++ d).
  { unfold live, grown; cbn. rewrite Z2Nat.inj_add, Nat2Z.id by lia. apply take_memcpy_at. lia. }
  assert (Hgot' : drop (h_end h) (live (grown d b)) = got ++ d).
  { rewrite Hlive, drop_app_le, Hgot; [done|]. pose proof (length_live b Hwf). lia. }
  assert (Hlg : Z.of_nat (length (got ++ d)) = b_dataLength b + Z.of_nat (length d) - Z.of_nat (h_end h)).
  { rewrite <- Hgot', length_drop. pose proof (length_live _ Hwf') as Hx. cbn in Hx. lia. }
  unfold Parse. cbn [rwBuffer readBuffer_ set_rwBuffer parseState requestInfo trackBytes expectedBodyLength set_request].
  rewrite Hps, Hr. cbn [default grown b_dataLength b_base b_bufferSize b_writtenLength b_mem].
  destruct (Z.eqb_spec (b_dataLength b + Z.of_nat (length d)) 0); [lia|].
  destruct (Nat.ltb_spec (length (got ++ d)) n) as [Hlt|Hge].
  - replace (_ <? trackBytes c) with true by lia. split; [done|]. split; [|done].
    split; [done|]. split; [done|]. split; [done|]. exists (grown d b), r. cbn. split_and!; try done; lia.
  - replace (_ <? trackBytes c) with false by lia. rewrite Ht, He.
    replace (Z.of_nat (h_end h) + Z.of_nat n - Z.of_nat n) with (Z.of_nat (h_end h)) by lia.
    rewrite wrap_small, !Nat2Z.id by lia. unfold ParseBody.
    replace ((_ <? h_end h)%nat || _ || _) with false by lia.
    split; [done|]. split; [done|]. exists (grown d b). eexists. split_and!; [reflexivity|reflexivity|exact Hden'|].
    cbn [body set_body]. change (b_base (grown d b)) with (b_base b). rewrite view_bytes_at.
    rewrite <- Hgot'. apply live_drop_mem. cbn. lia.
Qed.

(** A body delivered in chunks. *)
Fixpoint feed_body (cfg : NetworkConfig) (chunks : list bytes) (c : ClientCtx)
  : HttpParseState * ClientCtx * list bytes :=
  match chunks with
  | [] => (PARSE_INCOMPLETE_BODY, c, [])
  | d :: rest =>
      match Parse cfg (recv d c) with
      | (PARSE_INCOMPLETE_BODY, c') => feed_body cfg rest c'
      | (st, c') => (st, c', rest)
      end
  end.

(** ** Properties *)

(** C25: reading a request head does not depend on how it was cut into reads.
    Feeding a fresh connection the chunks one at a time, re-parsing after each
    and resuming the scan where it stopped, gives the answer (and, unless it is
    an error, the same connection) as parsing once with everything received so
    far; in particular a blank line straddling two reads is never missed. *)
Theorem parse_fragmentation cfg b wb chunks st c' rest :
  wf b -> chunks <> [] -> b_dataLength b + Z.of_nat (length (concat chunks)) <= b_bufferSize b ->
  let c := Client (RW (Some b) wb) PARSE_IDLE 0 0 None in
  feed cfg chunks c = (st, c', rest) ->
  exists used, used <> [] /\ chunks = used ++ rest /\
    agree (st, c') (Parse cfg (recv (concat used) c)).
Proof.
  intros Hwf Hne Hfit c Hf. apply feed_one_shot; [|done|by exists b|done].
  split; [by left|]. exists b. split_and!; [done|done|done|]. cbn. intros p Hp. lia.
Qed.

(** The request line and the header block, parsed in place over the read
    buffer, are what the immutable grammar reads from the received bytes:
    success exactly when it has a reading, the method, version, normalised
    target and (case-folded, last-wins) header map it gives, every view inside
    the head and followed by a NUL, the bytes after the head untouched, and the
    parse ends exactly where the scan for the blank line ended. *)
Theorem parse_head_refines cfg base mem size req :
  (size <= length mem)%nat -> headers req = [] ->
  let '(ok, mem', pos, r) := parse_head cfg base mem size req in
  match spec_head cfg (take size mem) with
  | Some h => ok = true /\ pos = h_end h /\ request_denotes base mem' h r /\
      drop pos mem' = drop pos mem /\ SafeFindHeaderEnd mem size 0 = Some pos
  | None => ok = false
  end.
Proof.
  intros Hs Hh. pose proof (parse_head_spec cfg base mem size req Hs Hh) as Hp.
  destruct (parse_head cfg base mem size req) as [[[ok mem'] pos] r]. destruct Hp as [_ Hp].
  destruct (spec_head cfg (take size mem)) as [h|] eqn:Eh; [|done].
  destruct Hp as (-> & -> & Hd & _ & Hden). split_and!; [done|done|done|done|].
  by eapply spec_head_end.
Qed.

(** C3: one parse of a connection whose buffer holds a complete, well-formed head
    within the limit answers what the head asks for: an error or 417 when it must
    be refused, success with exactly the declared body when it is all there (or
    when there is none), a wait with a buffer grown to the declared size (the
    views moved along with it) otherwise, and hand-off for a chunked body; the
    only other failure is a buffer that could not be grown. *)
Theorem Parse_refines_plan cfg c b h :
  cfg_ok cfg -> scan_inv c -> readBuffer_ (rwBuffer c) = Some b ->
  fresh_request (default new_request (requestInfo c)) ->
  spec_head cfg (live b) = Some h -> Z.of_nat (h_end h) <= maxHeaderTotalSize cfg ->
  let '(st, c') := Parse cfg c in plan_result cfg b h st c'.
Proof.
  intros Hcfg Hs Hb Hf Eh Hmax. pose proof Hs as (_ & b' & Hb' & Hwf & _).
  rewrite Hb in Hb'. injection Hb' as <-. pose proof Hwf as (W1 & W2 & W3).
  destruct (spec_head_end cfg (b_mem b) (Z.to_nat (b_dataLength b)) h ltac:(lia) Eh) as [He Hle].
  pose proof (Parse_complete_head cfg c b (h_end h) Hs Hb Hf He Hmax) as Hp. rewrite Eh in Hp.
  destruct Hp as (_ & mem & r & Hl & Hd & Hden & Hbd & ->). set (b1 := with_mem b mem) in *.
  assert (Hpos : 0 < b_dataLength b).
  { pose proof (SafeFindHeaderEnd_spec (b_mem b) (Z.to_nat (b_dataLength b)) 0) as Hx. rewrite He in Hx.
    destruct Hx as (i & ? & ? & _). lia. }
  assert (Hdrop : drop (h_end h) (live b1) = drop (h_end h) (live b)).
  { unfold live; cbn. rewrite !skipn_firstn_comm. by rewrite Hd. }
  set (c1 := Client _ _ _ _ _).
  pose proof (dispatch_spec cfg c1 b1 h r Hcfg eq_refl eq_refl
    ltac:(unfold wf; cbn; lia) eq_refl Hbd Hden Hle Hpos (spec_head_target _ _ _ Eh)) as Hr.
  change (b_dataLength b1) with (b_dataLength b) in Hr.
  destruct (dispatch_headers cfg b1 _ _ _ r c1) as [st c']. unfold plan_result in *.
  by rewrite Hdrop in Hr.
Qed.

(** C26: nothing else is accepted.  A head that never ends is waited for up to the
    header limit and refused beyond it; a complete head over the limit, or one the
    grammar does not read, is refused. *)
Theorem Parse_refuses cfg c b :
  scan_inv c -> readBuffer_ (rwBuffer c) = Some b -> b_dataLength b <> 0 ->
  fresh_request (default new_request (requestInfo c)) ->
  match SafeFindHeaderEnd (b_mem b) (Z.to_nat (b_dataLength b)) 0 with
  | None => fst (Parse cfg c) = if maxHeaderTotalSize cfg <? b_dataLength b then PARSE_ERROR
                                else PARSE_INCOMPLETE_HEADERS
  | Some he => maxHeaderTotalSize cfg < Z.of_nat he \/ spec_head cfg (live b) = None ->
               fst (Parse cfg c) = PARSE_ERROR
  end.
Proof.
  intros Hs Hb Hne Hf. destruct (SafeFindHeaderEnd _ _ _) as [he|] eqn:He; [|by apply Parse_no_head].
  intros Hor. destruct (decide (Z.of_nat he <= maxHeaderTotalSize cfg)) as [Hle|Hgt].
  - destruct Hor as [|Hn]; [lia|]. pose proof (Parse_complete_head cfg c b he Hs Hb Hf He Hle) as Hp.
    by rewrite Hn in Hp.
  - rewrite (Parse_scan _ _ _ Hs Hb). destruct (Z.eqb_spec (b_dataLength b) 0); [done|]. cbv zeta.
    destruct Hs as (_ & b' & Hb' & Hwf & Ht & Hscan). rewrite Hb in Hb'. injection Hb' as <-.
    unfold parse_headers_case. cbn [trackBytes SetParseState set_request].
    rewrite SafeFindHeaderEnd_from, He by (intros p Hp _; apply Hscan; lia).
    by replace (_ <? Z.of_nat he) with true by lia.
Qed.

(** A declared body is delivered whole and exactly.  From the waiting state,
    whatever the chunks it arrives in, the connection keeps waiting while fewer
    than the declared bytes are there and then succeeds with precisely the first
    [n] bytes after the head as the body, the head's views intact. *)
Theorem body_fragmentation cfg chunks c h n got :
  awaiting c h n got -> chunks <> [] -> fits (Z.of_nat (length (concat chunks))) c ->
  let '(st, c', rest) := feed_body cfg chunks c in
  exists used, chunks = used ++ rest /\
    let all := got ++ concat used in
    if (length all <? n)%nat then st = PARSE_INCOMPLETE_BODY /\ rest = [] /\ awaiting c' h n all
    else st = PARSE_SUCCESS /\ delivered c' h (take n all).
Proof.
  revert c got. induction chunks as [|d cs IH]; intros c got Ha Hne Hfit; [done|].
  cbn [concat] in Hfit. rewrite length_app in Hfit. cbn [feed_body].
  pose proof (Parse_body_step cfg c h n got d Ha ltac:(eapply fits_weaken; [|exact Hfit]; lia)) as Hs.
  destruct (Parse cfg (recv d c)) as [st c1].
  destruct (Nat.ltb_spec (length (got ++ d)) n) as [Hlt|Hge].
  2: { destruct Hs as [-> Hd]. exists [d]. split; [done|]. cbn [concat]. rewrite app_nil_r. cbv zeta.
       destruct (Nat.ltb_spec (length (got ++ d)) n); [lia|done]. }
  destruct Hs as (-> & Ha1 & Hrw). destruct cs as [|d2 cs'].
  { exists [d]. split; [done|]. cbn [concat]. rewrite app_nil_r. cbv zeta.
    destruct (Nat.ltb_spec (length (got ++ d)) n); [done|lia]. }
  assert (Hf1 : fits (Z.of_nat (length (concat (d2 :: cs')))) c1).
  { destruct Ha as (_ & _ & _ & b & r & Hb & _ & Hwf & _). destruct Hfit as (b' & Hb' & Hfit).
    rewrite Hb in Hb'. injection Hb' as <-.
    rewrite (recv_eq d c b Hb Hwf ltac:(lia)) in Hrw. exists (grown d b). rewrite Hrw.
    split; [done|]. cbn [grown b_dataLength b_bufferSize]. lia. }
  specialize (IH c1 (got ++ d) Ha1 ltac:(done) Hf1).
  destruct (feed_body cfg (d2 :: cs') c1) as [[st' c'] rest]. destruct IH as (used & Hu & Hres).
  exists (d :: used). split; [by rewrite Hu|]. cbn [concat]. by rewrite app_assoc.
Qed.

(** C27: growing the read buffer of a parsed request loses nothing: when it
    succeeds, even if the block moved, the received bytes are the same and the
    request's target and header views denote the same head. *)
Theorem GrowReadBuffer_keeps_request g mx mn c b h r :
  readBuffer_ (rwBuffer c) = Some b -> requestInfo c = Some r -> wf b ->
  0 <= g -> 0 <= mx -> mx + sizeof_ReadMetadata < 2 ^ 32 ->
  request_denotes (b_base b) (b_mem b) h r -> Z.of_nat (h_end h) <= b_dataLength b -> h_target h <> [] ->
  let '(ok, c') := ctx_GrowReadBuffer g mx mn c in
  ok = true -> exists b' r', readBuffer_ (rwBuffer c') = Some b' /\ requestInfo c' = Some r' /\ wf b' /\
    live b' = live b /\ mn <= b_bufferSize b' /\ request_denotes (b_base b') (b_mem b') h r'.
Proof.
  intros Hb Hr Hwf Hg Hm Hmx Hden Hle Hne.
  pose proof (ctx_Grow_spec g mx mn c b h r Hb Hr Hwf Hg Hm Hmx Hden Hle Hne) as Hs.
  destruct (ctx_GrowReadBuffer g mx mn c) as [[|] c']; [|done]. intros _.
  destruct Hs as (_ & _ & _ & b' & r' & ? & ? & ? & ? & _ & ? & ?). exists b', r'. by split_and!.
Qed.

End body.

(** ** Concrete runs *)

Definition w_cfg : NetworkConfig := Net 256 100 100 10.
Definition w_block : block := Block 5000 64 0 0 (replicate 64 0).
Definition w_crlf : bytes := [CR; LF].
Definition w_chunks : list bytes :=
  [lit "POST /a/../b?x=/.. HTTP/1.1" ++ [CR]; [LF] ++ lit "Content-Length: 3" ++ w_crlf ++ [CR];
   [LF] ++ lit "ab"; lit "cREST"].
Definition w_fresh : ClientCtx := Client (RW (Some w_block) None) PARSE_IDLE 0 0 None.
(** The head and two of three body bytes. *)
Definition w_c3 : ClientCtx := recv (concat (take 3 w_chunks)) w_fresh.
Definition w_b3 : block := default w_block (readBuffer_ (rwBuffer w_c3)).
Definition w_head : head :=
  Head POST (lit "/b?x=/..") HTTP_1_1 [(lit "Content-Length", lit "3")] 50.
(** The connection once it waits for the last byte. *)
Definition w_wait : ClientCtx := snd (Parse w_cfg w_c3).

Lemma w_wf : wf w_block.
Proof. vm_compute. intuition discriminate. Qed.

Lemma w_scan : scan_inv w_c3.
Proof.
  apply recv_scan_inv.
  - split; [by left|]. exists w_block. split_and!; [done|apply w_wf|done|]. cbn. intros p Hp. lia.
  - exists w_block. split; [done|]. vm_compute. discriminate.
Qed.

Lemma w_buffer : readBuffer_ (rwBuffer w_c3) = Some w_b3.
Proof. vm_compute. reflexivity. Qed.

Lemma w_request : fresh_request (default new_request (requestInfo w_c3)).
Proof. vm_compute. split; reflexivity. Qed.

Lemma w_spec_head : spec_head w_cfg (live w_b3) = Some w_head.
Proof. vm_compute. reflexivity. Qed.

Lemma w_plan : spec_plan w_cfg w_head = Sized false 3.
Proof. vm_compute. reflexivity. Qed.

Lemma w_cfg_ok : cfg_ok w_cfg.
Proof. vm_compute. intuition discriminate. Qed.

Lemma w_awaiting : awaiting w_wait w_head 3 (lit "ab").
Proof.
  pose proof (Parse_complete_head w_cfg w_c3 w_b3 50 w_scan w_buffer w_request) as Hp.
  rewrite w_spec_head in Hp.
  destruct Hp as (_ & mem & r & Hl & Hd & Hden & Hbd & Hp);
    [vm_compute; reflexivity|vm_compute; discriminate|].
  unfold w_wait. rewrite Hp. set (b1 := with_mem w_b3 mem) in *. set (c1 := Client _ _ _ _ _).
  assert (Hwf : wf b1).
  { unfold wf, b1; cbn [with_mem b_bufferSize b_dataLength b_writtenLength b_mem]. rewrite Hl.
    vm_compute. intuition discriminate. }
  pose proof (dispatch_spec w_cfg c1 b1 w_head r w_cfg_ok eq_refl eq_refl Hwf eq_refl Hbd Hden
    ltac:(vm_compute; lia) ltac:(vm_compute; reflexivity) ltac:(discriminate)) as Hr.
  change (Z.to_nat (b_dataLength b1)) with (Z.to_nat (b_dataLength w_b3)) in Hr.
  destruct (dispatch_headers w_cfg b1 _ _ _ r c1) as [st c']. unfold plan_result in Hr. rewrite w_plan in Hr.
  assert (Hdrop : drop (h_end w_head) (live b1) = lit "ab").
  { unfold live; cbn [b1 with_mem b_dataLength b_mem]. rewrite skipn_firstn_comm, Hd. vm_compute. reflexivity. }
  rewrite Hdrop in Hr. cbn [length lit negb andb Nat.leb] in Hr.
  destruct Hr as [[_ Hr]|[_ Hr]]; [exact Hr|]. exfalso.
  destruct Hr as [Hr|[Hr|(old & n & Hr)]]; [| |discriminate Hr].
  - change (b_bufferSize b1) with (b_bufferSize w_b3) in Hr.
    replace (b_bufferSize w_b3) with 64 in Hr by (vm_compute; reflexivity). cbn in Hr. lia.
  - cbn in Hr. lia.
Qed.

Lemma parse_fragmentation_witness :
  exists used, used <> [] /\ w_chunks = used ++ [lit "cREST"] /\
    agree (PARSE_INCOMPLETE_BODY, w_wait) (Parse w_cfg (recv (concat used) w_fresh)).
Proof.
  apply (parse_fragmentation w_cfg w_block None w_chunks).
  - apply w_wf.
  - discriminate.
  - vm_compute. discriminate.
  - vm_compute. reflexivity.
Defined.

Lemma parse_head_refines_witness :
  let '(ok, mem', pos, r) := parse_head w_cfg (b_base w_b3) (b_mem w_b3) 52 new_request in
  ok = true /\ pos = h_end w_head /\ request_denotes (b_base w_b3) mem' w_head r /\
  drop pos mem' = drop pos (b_mem w_b3) /\ SafeFindHeaderEnd (b_mem w_b3) 52 0 = Some pos.
Proof.
  pose proof (parse_head_refines w_cfg (b_base w_b3) (b_mem w_b3) 52 new_request
    ltac:(vm_compute; lia) eq_refl) as H.
  destruct (parse_head _ _ _ _ _) as [[[ok mem'] pos] r].
  replace (spec_head w_cfg (take 52 (b_mem w_b3))) with (Some w_head) in H by (vm_compute; reflexivity).
  exact H.
Defined.

Lemma Parse_refines_plan_witness :
  let '(st, c') := Parse w_cfg w_c3 in plan_result w_cfg w_b3 w_head st c'.
Proof.
  apply (Parse_refines_plan w_cfg w_c3 w_b3 w_head w_cfg_ok w_scan).
  - apply w_buffer.
  - apply w_request.
  - apply w_spec_head.
  - vm_compute. discriminate.
Defined.

Lemma Parse_refuses_witness :
  fst (Parse (Net 256 100 20 10) w_c3) = PARSE_ERROR.
Proof.
  pose proof (Parse_refuses (Net 256 100 20 10) w_c3 w_b3 w_scan w_buffer) as H.
  replace (SafeFindHeaderEnd (b_mem w_b3) (Z.to_nat (b_dataLength w_b3)) 0) with (Some 50%nat) in H
    by (vm_compute; reflexivity).
  apply H; [vm_compute; discriminate|apply w_request|left; vm_compute; reflexivity].
Defined.

Lemma body_fragmentation_witness :
  let '(st, c', rest) := feed_body w_cfg [lit "cREST"] w_wait in
  exists used, [lit "cREST"] = used ++ rest /\
    let all := lit "ab" ++ concat used in
    if (length all <? 3)%nat then st = PARSE_INCOMPLETE_BODY /\ rest = [] /\ awaiting c' w_head 3 all
    else st = PARSE_SUCCESS /\ delivered c' w_head (take 3 all).
Proof.
  apply body_fragmentation; [apply w_awaiting|discriminate|].
  eexists. split; [vm_compute; reflexivity|]. vm_compute. discriminate.
Defined.

Lemma GrowReadBuffer_keeps_request_witness :
  let '(ok, c') := ctx_GrowReadBuffer 1 256 200 w_wait in
  ok = true -> exists b' r', readBuffer_ (rwBuffer c') = Some b' /\ requestInfo c' = Some r' /\ wf b' /\
    live b' = live (default w_block (readBuffer_ (rwBuffer w_wait))) /\ 200 <= b_bufferSize b' /\
    request_denotes (b_base b') (b_mem b') w_head r'.
Proof.
  destruct w_awaiting as (_ & _ & _ & b & r & Hb & Hr & Hwf & _ & Hle & _ & Hden & _).
  rewrite Hb. apply (GrowReadBuffer_keeps_request 1 256 200 w_wait b w_head r); try done; vm_compute; discriminate.
Defined.

(** [PrepareForBody] insists on growing: a buffer already at the configured
    maximum refuses a body it has room for. *)
Example body_refused_at_ceiling :
  fst (Parse (Net 64 100 100 10) w_c3) = PARSE_ERROR /\
  fst (Parse (Net 65 100 100 10) w_c3) = PARSE_INCOMPLETE_BODY.
Proof. vm_compute. split; reflexivity. Qed.

(** Two different lengths in one head are accepted; the later one counts. *)
Example duplicate_content_length :
  spec_plan w_cfg (Head POST (lit "/") HTTP_1_1
    [(lit "Content-Length", lit "30"); (lit "content-length", lit "3")] 60) = Sized false 3.
Proof. vm_compute. reflexivity. Qed.

End HttpParser.
