(* ===== verification/Swar.v ===== *)
(** * Swar: eight control bytes in one 64-bit word
    ([utils/hash_map/hash_shard.hpp], the group-matching helpers)

    [memcpy] of eight bytes into a [std::uint64_t] on a little-endian machine,
    the three SWAR matchers on the word, and the [std::countr_zero] /
    [std::countl_zero] / [mask &= mask - 1] idioms their results are read with.
    The lemmas say what each computes lane by lane. *)

From S2P Require Import Prelude.

Module Swar.

(** ** Definitions *)

(** The word loaded from bytes, lowest address first. *)
Fixpoint le_word (bs : bytes) : Z :=
  match bs with
  | [] => 0
  | b :: r => b + 256 * le_word r
  end.

Definition LANES_01 : Z := 0x0101010101010101.
Definition LANES_80 : Z := 0x8080808080808080.

Definition not64 (z : Z) : Z := Z.lxor z (2 ^ 64 - 1).

Definition MatchByte (group tag : Z) : Z :=
  let bcast := u64 (tag * LANES_01) in
  let cmp := Z.lxor group bcast in
  Z.land (Z.land (u64 (cmp - LANES_01)) (not64 cmp)) LANES_80.

Definition MatchEmpty (group : Z) : Z :=
  Z.land (Z.land group (u64 (Z.shiftl group 1))) LANES_80.

Definition MatchEmptyOrDeleted (group : Z) : Z := Z.land group LANES_80.

Fixpoint ctz_pos (p : positive) : nat :=
  match p with
  | xO q => S (ctz_pos q)
  | _ => O
  end.

Definition countr_zero (z : Z) : nat :=
  match z with Zpos p => ctz_pos p | _ => 64%nat end.

Definition countl_zero (z : Z) : nat :=
  if z <=? 0 then 64%nat else (63 - Z.to_nat (Z.log2 z))%nat.

(** [mask &= mask - 1] *)
Definition clear_lowest (mask : Z) : Z := Z.land mask (mask - 1).

(** ** Masks, one bit per lane *)

Fixpoint mask_of (ms : list bool) : Z :=
  match ms with
  | [] => 0
  | m :: r => Z.b2z m * 128 + 256 * mask_of r
  end.

Fixpoint repeat_lane (n : nat) (c : Z) : Z :=
  match n with
  | O => 0
  | S k => c + 256 * repeat_lane k c
  end.

(** The index of the first [true]; the length when there is none. *)
Fixpoint first_true (ms : list bool) : nat :=
  match ms with
  | [] => O
  | m :: r => if m then O else S (first_true r)
  end.

(** ** Lane-wise arithmetic *)

Lemma le_word_range bs : Forall is_byte bs -> 0 <= le_word bs < 256 ^ Z.of_nat (length bs).
Proof.
  induction 1 as [|b r Hb _ IH]; [cbn; lia|]. cbn [le_word length].
  rewrite Nat2Z.inj_succ, Z.pow_succ_r by lia. unfold is_byte in Hb. lia.
Qed.

Lemma div_mod_256 a : a = a mod 2 ^ 8 + 256 * Z.shiftr a 8.
Proof. rewrite Z.shiftr_div_pow2 by lia. pose proof (Z.div_mod a (2 ^ 8) ltac:(lia)). lia. Qed.

Lemma lane_parts x u : 0 <= x < 256 -> (x + 256 * u) mod 2 ^ 8 = x /\ Z.shiftr (x + 256 * u) 8 = u.
Proof.
  intros Hx. rewrite Z.shiftr_div_pow2 by lia. change (2 ^ 8) with 256.
  rewrite Z.mul_comm, Z_mod_plus_full, Z_div_plus_full by lia.
  by rewrite Z.mod_small, Z.div_small by lia.
Qed.

Lemma land_mod a b : Z.land a b mod 2 ^ 8 = Z.land (a mod 2 ^ 8) (b mod 2 ^ 8).
Proof.
  rewrite <- !Z.land_ones by lia. apply Z.bits_inj'. intros n Hn. rewrite !Z.land_spec.
  destruct (Z.testbit a n), (Z.testbit b n), (Z.testbit (Z.ones 8) n); done.
Qed.

Lemma lxor_mod a b : Z.lxor a b mod 2 ^ 8 = Z.lxor (a mod 2 ^ 8) (b mod 2 ^ 8).
Proof.
  rewrite <- !Z.land_ones by lia. apply Z.bits_inj'. intros n Hn.
  rewrite Z.land_spec, !Z.lxor_spec, !Z.land_spec.
  destruct (Z.testbit a n), (Z.testbit b n), (Z.testbit (Z.ones 8) n); done.
Qed.

Lemma lane_land x y u v :
  0 <= x < 256 -> 0 <= y < 256 -> Z.land (x + 256 * u) (y + 256 * v) = Z.land x y + 256 * Z.land u v.
Proof.
  intros Hx Hy. rewrite (div_mod_256 (Z.land (x + _) _)), Z.shiftr_land, land_mod.
  by destruct (lane_parts x u Hx) as [-> ->], (lane_parts y v Hy) as [-> ->].
Qed.

Lemma lane_lxor x y u v :
  0 <= x < 256 -> 0 <= y < 256 -> Z.lxor (x + 256 * u) (y + 256 * v) = Z.lxor x y + 256 * Z.lxor u v.
Proof.
  intros Hx Hy. rewrite (div_mod_256 (Z.lxor (x + _) _)), Z.shiftr_lxor, lxor_mod.
  by destruct (lane_parts x u Hx) as [-> ->], (lane_parts y v Hy) as [-> ->].
Qed.

Lemma byte_lxor x y : 0 <= x < 256 -> 0 <= y < 256 -> 0 <= Z.lxor x y < 256.
Proof.
  intros Hx Hy. pose proof (lxor_mod x y) as H. change (2 ^ 8) with 256 in H.
  rewrite (Z.mod_small x), (Z.mod_small y) in H by done. rewrite <- H. by apply Z.mod_pos_bound.
Qed.

Lemma byte_land x y : 0 <= x < 256 -> 0 <= y < 256 -> 0 <= Z.land x y < 256.
Proof.
  intros Hx Hy. pose proof (land_mod x y) as H. change (2 ^ 8) with 256 in H.
  rewrite (Z.mod_small x), (Z.mod_small y) in H by done. rewrite <- H. by apply Z.mod_pos_bound.
Qed.

(** ** Reading a mask *)

Lemma mask_of_range ms : 0 <= mask_of ms < 256 ^ Z.of_nat (length ms).
Proof.
  induction ms as [|m r IH]; [cbn; lia|]. cbn [mask_of length].
  rewrite Nat2Z.inj_succ, Z.pow_succ_r by lia. destruct m; cbn [Z.b2z]; lia.
Qed.

Lemma mask_of_zero ms : mask_of ms = 0 <-> Forall (fun m => m = false) ms.
Proof.
  induction ms as [|m r IH]; [done|]. cbn [mask_of]. pose proof (mask_of_range r). rewrite Forall_cons, <- IH.
  destruct m; cbn [Z.b2z]; split; intros; [lia|by destruct H0|split; [done|lia]|lia].
Qed.

Lemma ctz_double z : 0 < z -> countr_zero (2 * z) = S (countr_zero z).
Proof. destruct z; [lia|done|lia]. Qed.

Lemma ctz_256 z : 0 < z -> countr_zero (256 * z) = (8 + countr_zero z)%nat.
Proof.
  intros Hz. replace (256 * z) with (2 * (2 * (2 * (2 * (2 * (2 * (2 * (2 * z)))))))) by lia.
  by rewrite !ctz_double by lia.
Qed.

Lemma countr_zero_mask ms :
  (length ms <= 8)%nat -> mask_of ms <> 0 -> Nat.shiftr (countr_zero (mask_of ms)) 3 = first_true ms.
Proof.
  assert (G : mask_of ms <> 0 -> countr_zero (mask_of ms) = (8 * first_true ms + 7)%nat).
  { induction ms as [|m r IH]; [done|]. cbn [mask_of first_true]. pose proof (mask_of_range r).
    destruct m; cbn [Z.b2z]; intros Hne.
    - replace (1 * 128 + 256 * mask_of r)
        with (2 * (2 * (2 * (2 * (2 * (2 * (2 * (1 + 2 * mask_of r)))))))) by lia.
      rewrite !ctz_double by lia. f_equal. destruct (mask_of r); [done|done|lia].
    - replace (0 * 128 + 256 * mask_of r) with (256 * mask_of r) by lia.
      rewrite ctz_256 by lia. rewrite IH by lia. lia. }
  intros _ Hne. rewrite G by done. rewrite Nat.shiftr_div_pow2. change (2 ^ 3)%nat with 8%nat.
  symmetry. apply (Nat.div_unique _ _ _ 7); lia.
Qed.

Lemma clear_lowest_mask ms :
  mask_of ms <> 0 ->
  clear_lowest (mask_of ms) = mask_of (<[first_true ms := false]> ms).
Proof.
  unfold clear_lowest. induction ms as [|m r IH]; [done|]. cbn [mask_of first_true]. pose proof (mask_of_range r).
  destruct m; cbn [Z.b2z insert list_insert mask_of]; intros Hne.
  - replace (1 * 128 + 256 * mask_of r - 1) with (127 + 256 * mask_of r) by lia.
    replace (1 * 128) with 128 by lia. rewrite lane_land, Z.land_diag by lia. done.
  - replace (0 * 128 + 256 * mask_of r) with (0 + 256 * mask_of r) by lia.
    replace (0 + 256 * mask_of r - 1) with (255 + 256 * (mask_of r - 1)) by lia.
    rewrite lane_land by lia. rewrite IH by lia. change (Z.land 0 255) with 0. done.
Qed.

(** ** The three matchers, lane by lane *)

Lemma byte_forall (f : Z -> bool) :
  forallb f (seqZ 0 256) = true -> forall b, is_byte b -> f b = true.
Proof.
  intros H b Hb. rewrite forallb_forall in H. apply H, list_elem_of_In, elem_of_seqZ.
  unfold is_byte in Hb. lia.
Qed.

Lemma land_u64 x y : 0 <= x < 2 ^ 64 -> Z.land (u64 y) x = Z.land y x.
Proof.
  intros Hx. unfold wrap. rewrite <- Z.land_ones by lia.
  rewrite <- Z.land_assoc, (Z.land_comm (Z.ones 64)), Z.land_ones by lia. by rewrite Z.mod_small.
Qed.

Definition high_bit (b : Z) : bool := Z.testbit b 7.
Definition top_bits (b : Z) : bool := Z.testbit b 7 && Z.testbit b 6.

Lemma byte_high b : is_byte b -> Z.land b 128 = Z.b2z (high_bit b) * 128.
Proof.
  intros Hb. apply Z.eqb_eq.
  apply (byte_forall (fun b => Z.land b 128 =? Z.b2z (high_bit b) * 128)); [by vm_compute|done].
Qed.

Lemma byte_top b c : is_byte b -> c = 0 \/ c = 1 ->
  Z.land (Z.land b ((2 * b + c) mod 256)) 128 = Z.b2z (top_bits b) * 128.
Proof.
  intros Hb Hc. apply Z.eqb_eq. destruct Hc as [-> | ->].
  - apply (byte_forall (fun b => Z.land (Z.land b ((2 * b + 0) mod 256)) 128 =? Z.b2z (top_bits b) * 128));
      [by vm_compute|done].
  - apply (byte_forall (fun b => Z.land (Z.land b ((2 * b + 1) mod 256)) 128 =? Z.b2z (top_bits b) * 128));
      [by vm_compute|done].
Qed.

Lemma MatchEmptyOrDeleted_lanes bs :
  length bs = 8%nat -> Forall is_byte bs ->
  MatchEmptyOrDeleted (le_word bs) = mask_of (map high_bit bs).
Proof.
  intros Hl Hb. unfold MatchEmptyOrDeleted. change LANES_80 with (repeat_lane 8 128). rewrite <- Hl. clear Hl.
  induction Hb as [|b r Hb _ IH]; [done|]. cbn [le_word length repeat_lane map mask_of].
  rewrite lane_land by (unfold is_byte in Hb; lia). by rewrite IH, byte_high.
Qed.

Lemma MatchEmpty_lanes bs :
  length bs = 8%nat -> Forall is_byte bs -> MatchEmpty (le_word bs) = mask_of (map top_bits bs).
Proof.
  intros Hl Hb. unfold MatchEmpty. rewrite (Z.land_comm (le_word bs)), <- Z.land_assoc, land_u64.
  2: { rewrite Z.land_comm. change LANES_80 with (repeat_lane 8 128). rewrite <- Hl.
       assert (H : 0 <= Z.land (repeat_lane (length bs) 128) (le_word bs) <= repeat_lane (length bs) 128).
       { clear Hl. induction Hb as [|b r Hb _ IH]; [done|]. cbn [le_word length repeat_lane].
         rewrite lane_land by (unfold is_byte in Hb; lia). rewrite Z.land_comm, byte_high by done.
         destruct (high_bit b); cbn [Z.b2z]; lia. }
       rewrite Hl in *. change (repeat_lane 8 128) with 9259542123273814144 in *. lia. }
  rewrite (Z.land_assoc (Z.shiftl _ _)), (Z.land_comm (Z.shiftl _ _)).
  change LANES_80 with (repeat_lane 8 128). rewrite <- Hl, Z.shiftl_mul_pow2 by lia. change (2 ^ 1) with 2. clear Hl.
  enough (G : forall c, c = 0 \/ c = 1 ->
    Z.land (Z.land (le_word bs) (2 * le_word bs + c)) (repeat_lane (length bs) 128) = mask_of (map top_bits bs)).
  { rewrite <- (G 0) by lia. do 2 f_equal. lia. }
  induction Hb as [|b r Hb _ IH]; intros c Hc; [done|]. cbn [le_word length repeat_lane map mask_of].
  pose proof Hb as Hb'. unfold is_byte in Hb'.
  pose proof (Z.div_mod (2 * b + c) 256 ltac:(lia)) as Hdm.
  pose proof (Z.mod_pos_bound (2 * b + c) 256 ltac:(lia)) as Hm.
  replace (2 * (b + 256 * le_word r) + c) with ((2 * b + c) mod 256 + 256 * (2 * le_word r + (2 * b + c) / 256)) by lia.
  rewrite lane_land, lane_land, byte_top, IH by (done || (apply byte_land; lia) || lia). done.
Qed.

(** The lanes of [(cmp - 0x01..) & ~cmp & 0x80..]: a zero lane is flagged, and a
    lane holding 1 just above a flagged one is too, through the borrow. *)
Fixpoint match_lanes (cs : bytes) (borrow : bool) : list bool :=
  match cs with
  | [] => []
  | c :: r => ((c =? 0) || (c =? 1) && borrow) :: match_lanes r ((c =? 0) || (c =? 1) && borrow)
  end.

Lemma byte_match c bo : is_byte c ->
  let d := c - 1 - Z.b2z bo in
  Z.land (Z.land (d mod 256) (Z.lxor c 255)) 128 = Z.b2z ((c =? 0) || (c =? 1) && bo) * 128 /\
  d / 256 = - Z.b2z ((c =? 0) || (c =? 1) && bo).
Proof.
  intros Hc d. unfold d.
  pose (f bo c := (Z.land (Z.land ((c - 1 - Z.b2z bo) mod 256) (Z.lxor c 255)) 128 =?
                   Z.b2z ((c =? 0) || (c =? 1) && bo) * 128) &&
                  ((c - 1 - Z.b2z bo) / 256 =? - Z.b2z ((c =? 0) || (c =? 1) && bo))).
  assert (H : f bo c = true) by (apply byte_forall; [by destruct bo; vm_compute|done]).
  unfold f in H. apply andb_true_iff in H as [H1 H2]. by split; apply Z.eqb_eq.
Qed.

Lemma match_lanes_word cs bo :
  Forall is_byte cs ->
  let n := length cs in
  Z.land (Z.land (le_word cs - repeat_lane n 1 - Z.b2z bo) (Z.lxor (le_word cs) (repeat_lane n 255)))
         (repeat_lane n 128) = mask_of (match_lanes cs bo).
Proof.
  intros Hc n. unfold n. clear n. revert bo. induction Hc as [|c r Hc _ IH]; intros bo.
  - apply Z.land_0_r.
  - cbn [le_word length repeat_lane match_lanes mask_of].
    destruct (byte_match c bo Hc) as [Hm Hd]. pose proof Hc as Hc'. unfold is_byte in Hc'.
    set (flag := (c =? 0) || (c =? 1) && bo) in *.
    pose proof (Z.div_mod (c - 1 - Z.b2z bo) 256 ltac:(lia)) as Hdm.
    pose proof (Z.mod_pos_bound (c - 1 - Z.b2z bo) 256 ltac:(lia)) as Hb.
    replace (c + 256 * le_word r - (1 + 256 * repeat_lane (length r) 1) - Z.b2z bo)
      with ((c - 1 - Z.b2z bo) mod 256 + 256 * (le_word r - repeat_lane (length r) 1 - Z.b2z flag)) by lia.
    pose proof (byte_lxor c 255 Hc' ltac:(lia)).
    rewrite lane_lxor, lane_land, lane_land, IH, Hm by (done || (apply byte_land; lia) || lia). done.
Qed.

Lemma repeat_lane_scale n t : repeat_lane n t = t * repeat_lane n 1.
Proof. induction n as [|n IH]; cbn [repeat_lane]; lia. Qed.

Lemma le_word_lxor bs t :
  Forall is_byte bs -> is_byte t ->
  Z.lxor (le_word bs) (repeat_lane (length bs) t) = le_word (map (Z.lxor t) bs).
Proof.
  intros Hb Ht. induction Hb as [|b r Hb _ IH]; [done|]. cbn [le_word length repeat_lane map].
  unfold is_byte in *. rewrite lane_lxor, IH by lia. by rewrite Z.lxor_comm.
Qed.

Lemma repeat_lane_bytes n t : is_byte t -> 0 <= repeat_lane n t < 256 ^ Z.of_nat n.
Proof.
  unfold is_byte. intros Ht. induction n as [|n IH]; [cbn; lia|]. cbn [repeat_lane].
  rewrite Nat2Z.inj_succ, Z.pow_succ_r by lia. lia.
Qed.

Lemma MatchByte_lanes bs tag :
  length bs = 8%nat -> Forall is_byte bs -> is_byte tag ->
  MatchByte (le_word bs) tag = mask_of (match_lanes (map (Z.lxor tag) bs) false).
Proof.
  intros Hl Hb Ht. unfold MatchByte, not64.
  assert (Hcs : Forall is_byte (map (Z.lxor tag) bs)).
  { apply Forall_map. eapply Forall_impl; [exact Hb|]. intros b Hbb. unfold is_byte in *. by apply byte_lxor. }
  assert (E : u64 (tag * LANES_01) = repeat_lane (length bs) tag).
  { rewrite Hl, (repeat_lane_scale 8 tag). apply wrap_small.
    pose proof (repeat_lane_bytes 8 tag Ht) as H. rewrite repeat_lane_scale in H.
    change (256 ^ Z.of_nat 8) with (2 ^ 64) in H. exact H. }
  rewrite E, le_word_lxor by done. rewrite <- match_lanes_word, length_map, Hl by done.
  change LANES_80 with (repeat_lane 8 128). change LANES_01 with (repeat_lane 8 1).
  change (2 ^ 64 - 1) with (repeat_lane 8 255). cbn [Z.b2z]. rewrite Z.sub_0_r.
  set (cmp := le_word _). set (x := Z.lxor cmp _).
  rewrite <- !Z.land_assoc, (Z.land_comm x), !Z.land_assoc, land_u64; [done|].
  split; [by vm_compute|by vm_compute].
Qed.

(** ** Scanning the flagged lanes *)

Lemma first_true_lt ms : mask_of ms <> 0 -> (first_true ms < length ms)%nat /\ ms !! first_true ms = Some true.
Proof.
  induction ms as [|m r IH]; [done|]. cbn [mask_of first_true length]. destruct m; [by split; [lia|]|].
  cbn [Z.b2z]. intros H. destruct IH as [H1 H2]; [lia|]. by split; [lia|].
Qed.

Lemma first_true_before ms j : (j < first_true ms)%nat -> ms !! j <> Some true.
Proof.
  revert j. induction ms as [|m r IH]; cbn [first_true]; intros j Hj; [lia|].
  destruct m; [lia|]. destruct j as [|j]; [done|]. cbn. apply IH. lia.
Qed.

Lemma first_true_map {A} (f : A -> bool) l i x :
  l !! i = Some x -> f x = true -> (first_true (map f l) <= i)%nat.
Proof.
  intros Hl Hf. destruct (Nat.le_gt_cases (first_true (map f l)) i) as [|Hgt]; [done|].
  exfalso. apply (first_true_before _ _ Hgt). rewrite list_lookup_fmap, Hl. cbn. by rewrite Hf.
Qed.

Lemma mask_nonzero ms i : ms !! i = Some true -> mask_of ms <> 0.
Proof. rewrite mask_of_zero. intros Hi Hall. by apply (Forall_lookup_1 _ _ _ _ Hall) in Hi. Qed.

(** [std::countl_zero(mask) / 8]: the run of clear lanes at the top. *)
Fixpoint last_true (ms : list bool) : option nat :=
  match ms with
  | [] => None
  | m :: r => match last_true r with
              | Some i => Some (S i)
              | None => if m then Some O else None
              end
  end.

Lemma log2_mask ms :
  match last_true ms with
  | Some i => mask_of ms <> 0 /\ Z.log2 (mask_of ms) = 8 * Z.of_nat i + 7
  | None => mask_of ms = 0
  end.
Proof.
  induction ms as [|m r IH]; [done|]. cbn [last_true mask_of]. pose proof (mask_of_range r) as Hr.
  destruct (last_true r) as [i|].
  - destruct IH as [Hne IH]. split; [lia|].
    apply Z.log2_unique; [lia|]. pose proof (Z.log2_spec (mask_of r) ltac:(lia)) as Hs. rewrite IH in Hs.
    replace (8 * Z.of_nat (S i) + 7) with (8 + (8 * Z.of_nat i + 7)) by lia.
    rewrite Z.pow_succ_r in * by lia. rewrite Z.pow_add_r by lia. change (2 ^ 8) with 256.
    destruct m; cbn [Z.b2z]; lia.
  - rewrite IH. destruct m; cbn [Z.b2z]; [split; [lia|reflexivity]|lia].
Qed.

Lemma countl_zero_mask ms :
  (length ms = 8)%nat ->
  (countl_zero (mask_of ms) / 8 = match last_true ms with Some i => 7 - i | None => 8 end)%nat.
Proof.
  intros Hl. pose proof (log2_mask ms) as H. pose proof (mask_of_range ms) as Hr. unfold countl_zero.
  destruct (last_true ms) as [i|]; [|by rewrite H].
  destruct H as [Hne H]. replace (mask_of ms <=? 0) with false by lia. rewrite H.
  assert (Hi : 8 * Z.of_nat i + 7 < 64).
  { rewrite <- H. apply Z.log2_lt_pow2; [lia|]. rewrite Hl in Hr. change (256 ^ Z.of_nat 8) with (2 ^ 64) in Hr. lia. }
  replace (63 - Z.to_nat (8 * Z.of_nat i + 7))%nat with ((7 - i) * 8)%nat by lia.
  by rewrite Nat.div_mul.
Qed.

Lemma countr_zero_run ms :
  (length ms = 8)%nat -> (countr_zero (mask_of ms) / 8 = first_true ms)%nat.
Proof.
  intros Hl. destruct (Z.eq_dec (mask_of ms) 0) as [E|Hne].
  - rewrite E. change (countr_zero 0 / 8)%nat with 8%nat. apply mask_of_zero in E. rewrite <- Hl. clear Hl.
    induction E as [|m r -> _ IH]; [done|]. cbn. by rewrite IH.
  - rewrite <- countr_zero_mask by (done || lia). by rewrite Nat.shiftr_div_pow2.
Qed.

Lemma last_true_spec ms :
  match last_true ms with
  | Some i => ms !! i = Some true /\ forall j, (i < j)%nat -> ms !! j <> Some true
  | None => forall j, ms !! j <> Some true
  end.
Proof.
  induction ms as [|m r IH]; [done|]. cbn [last_true]. destruct (last_true r) as [i|].
  - destruct IH as [H1 H2]. split; [done|]. intros [|j] Hj; [lia|]. apply H2. lia.
  - destruct m; [split; [done|]|]; intros [|j]; cbn; try done; try lia; intros; apply IH.
Qed.

Lemma match_lanes_length cs bo : length (match_lanes cs bo) = length cs.
Proof. revert bo. induction cs as [|c r IH]; intros bo; cbn; [done|]. by rewrite IH. Qed.

Lemma match_lanes_flag cs bo j :
  match_lanes cs bo !! j = Some true -> exists c, cs !! j = Some c /\ (c = 0 \/ c = 1).
Proof.
  revert bo j. induction cs as [|c r IH]; intros bo [|j]; cbn [match_lanes lookup list_lookup]; try done.
  - intros [= H]. exists c. split; [done|]. lia.
  - apply IH.
Qed.

Lemma match_lanes_hit cs bo j : cs !! j = Some 0 -> match_lanes cs bo !! j = Some true.
Proof.
  revert bo j. induction cs as [|c r IH]; intros bo [|j]; cbn [match_lanes lookup list_lookup]; try done.
  - by intros [= ->].
  - apply IH.
Qed.

(** [MatchByte] flags every lane holding the tag, and otherwise only lanes that
    differ from it in bit 0. *)
Lemma lxor_flag tag b : Z.lxor tag b = 0 \/ Z.lxor tag b = 1 -> b = tag \/ b = Z.lxor tag 1.
Proof.
  intros [H|H].
  - left. symmetry. by apply Z.lxor_eq_0_iff.
  - right. rewrite <- H, <- Z.lxor_assoc, Z.lxor_nilpotent. by rewrite Z.lxor_0_l.
Qed.

(** ** Properties *)

(** The SWAR tag match is safe to trust.  Over eight control bytes, the word
    the loop walks has the top bit of lane [j] set whenever byte [j] is the tag;
    it may also be set for a byte that is not, but then that byte is a full one
    (never EMPTY or DELETED), so the key it leads to is a live object; and the
    two availability masks are exact. *)
Theorem group_match_sound bs tag j b :
  length bs = 8%nat -> Forall is_byte bs -> 0 <= tag < 128 -> bs !! j = Some b ->
  exists flags,
    MatchByte (le_word bs) tag = mask_of flags /\ length flags = 8%nat /\
    (b = tag -> flags !! j = Some true) /\ (flags !! j = Some true -> 0 <= b < 128) /\
    MatchEmptyOrDeleted (le_word bs) = mask_of (map high_bit bs) /\
    MatchEmpty (le_word bs) = mask_of (map top_bits bs).
Proof.
  intros Hl Hb Ht Hj. exists (match_lanes (map (Z.lxor tag) bs) false).
  split_and!; [|by rewrite match_lanes_length, length_map| | |by apply MatchEmptyOrDeleted_lanes|by apply MatchEmpty_lanes].
  - apply MatchByte_lanes; [done|done|unfold is_byte; lia].
  - intros ->. apply match_lanes_hit. rewrite list_lookup_fmap, Hj. cbn. by rewrite Z.lxor_nilpotent.
  - intros Hf. apply match_lanes_flag in Hf as (c & Hc & Hor). rewrite list_lookup_fmap, Hj in Hc. cbn in Hc.
    injection Hc as <-. apply lxor_flag in Hor as [->|E]; [done|]. rewrite E.
    pose proof (byte_forall (fun x => negb (x <? 128) || (Z.lxor x 1 <? 128)) ltac:(by vm_compute) tag
      ltac:(unfold is_byte; lia)) as Hx. cbv beta in Hx.
    pose proof (byte_lxor tag 1 ltac:(lia) ltac:(lia)). lia.
Qed.

Lemma group_match_sound_witness :
  exists flags, MatchByte (le_word [5; 4; 255; 128; 5; 127; 4; 5]) 5 = mask_of flags /\ length flags = 8%nat /\
    (4 = 5 -> flags !! 1%nat = Some true) /\ (flags !! 1%nat = Some true -> 0 <= 4 < 128) /\
    MatchEmptyOrDeleted (le_word [5; 4; 255; 128; 5; 127; 4; 5]) = mask_of (map high_bit [5; 4; 255; 128; 5; 127; 4; 5]) /\
    MatchEmpty (le_word [5; 4; 255; 128; 5; 127; 4; 5]) = mask_of (map top_bits [5; 4; 255; 128; 5; 127; 4; 5]).
Proof.
  apply group_match_sound; [reflexivity|repeat constructor; vm_compute; discriminate|lia|reflexivity].
Defined.

(** The borrow does flag a lane that does not hold the tag. *)
Example match_byte_false_positive :
  MatchByte (le_word [5; 4; 255; 255; 255; 255; 255; 255]) 5 = mask_of [true; true; false; false; false; false; false; false].
Proof. vm_compute. reflexivity. Qed.

End Swar.
