(* ===== verification/Probe.v ===== *)
(** * Probe: the arithmetic of triangular probing

    A reference for the walk that [HashShard.find_loop] and [HashShard.avail_loop] take by adding
    1, 2, 3, ... to the group and masking ([utils/hash_map/hash_shard.ipp]): the group of each
    step in closed form, that the masked step follows it, and that over a power of two groups
    it visits each exactly once.  Nothing here models code; [HashShard] proves its loops
    against it. *)

From S2P Require Import Prelude.

Module Probe.

Definition tri (i : nat) : nat := (i * (i + 1) / 2)%nat.

(** The group visited at step [i]. *)
Definition probe (h G i : nat) : nat := ((h + tri i) mod G)%nat.

Lemma tri_S i : tri (S i) = (tri i + S i)%nat.
Proof.
  unfold tri. replace (S i * (S i + 1))%nat with (i * (i + 1) + S i * 2)%nat by lia.
  by rewrite Nat.div_add by lia.
Qed.

Lemma tri_double i : (2 * tri i = i * (i + 1))%nat.
Proof. induction i as [|i IH]; [done|]. rewrite tri_S. lia. Qed.

Lemma probe_0 h G : (h < G)%nat -> probe h G 0 = h.
Proof. intros H. unfold probe. rewrite Nat.mod_small; unfold tri; cbn; lia. Qed.

Lemma land_mask a k : Nat.land a (2 ^ k - 1) = (a mod 2 ^ k)%nat.
Proof.
  replace (2 ^ k - 1)%nat with (Nat.ones k) by (rewrite Nat.ones_equiv; lia). apply Nat.land_ones.
Qed.

Lemma probe_step h k i :
  Nat.land (probe h (2 ^ k) i + (i + 1)) (2 ^ k - 1) = probe h (2 ^ k) (S i).
Proof.
  rewrite land_mask. unfold probe. rewrite tri_S, Nat.Div0.add_mod_idemp_l. f_equal. lia.
Qed.

(** An odd factor carries no power of two. *)
Lemma pow2_divides_odd (n : nat) (a m : Z) :
  Z.odd m = true -> (2 ^ Z.of_nat n | a * m) -> (2 ^ Z.of_nat n | a).
Proof.
  intros Ho. revert a. induction n as [|n IH]; intros a [q Hq]; [apply Z.divide_1_l|].
  rewrite Nat2Z.inj_succ, Z.pow_succ_r in * by lia.
  assert (He : Z.even a = true).
  { apply (f_equal Z.even) in Hq. rewrite !Z.even_mul in Hq. rewrite <- (Z.negb_odd m), Ho in Hq.
    change (Z.even 2) with true in Hq. destruct (Z.even a), (Z.even q); done. }
  apply Z.even_spec in He as [a' ->].
  destruct (IH a') as [r Hr]; [exists q; lia|]. exists r. lia.
Qed.

Lemma tri_injective (k i j : nat) (h : Z) :
  (i < j)%nat -> (j < 2 ^ k)%nat ->
  (h + Z.of_nat (tri i)) mod 2 ^ Z.of_nat k <> (h + Z.of_nat (tri j)) mod 2 ^ Z.of_nat k.
Proof.
  intros Hij Hj E.
  assert (Hpow : Z.of_nat (2 ^ k) = 2 ^ Z.of_nat k) by apply Nat2Z.inj_pow.
  assert (Hd : (2 ^ Z.of_nat k | Z.of_nat (tri j) - Z.of_nat (tri i))).
  { apply Z.mod_divide; [lia|]. replace (Z.of_nat (tri j) - Z.of_nat (tri i))
      with ((h + Z.of_nat (tri j)) - (h + Z.of_nat (tri i))) by lia.
    rewrite Zminus_mod, <- E, Z.sub_diag. apply Z.mod_0_l. lia. }
  assert (Hd2 : (2 ^ Z.of_nat (S k) | (Z.of_nat j - Z.of_nat i) * (Z.of_nat j + Z.of_nat i + 1))).
  { destruct Hd as [q Hq]. exists q. pose proof (tri_double i). pose proof (tri_double j).
    rewrite Nat2Z.inj_succ, Z.pow_succ_r by lia. nia. }
  assert (Hlt : 2 ^ Z.of_nat (S k) = 2 * 2 ^ Z.of_nat k) by (rewrite Nat2Z.inj_succ, Z.pow_succ_r; lia).
  destruct (Z.odd (Z.of_nat j - Z.of_nat i)) eqn:Eo.
  - assert (H : (2 ^ Z.of_nat (S k) | Z.of_nat j + Z.of_nat i + 1)).
    { apply (pow2_divides_odd _ _ _ Eo). by rewrite Z.mul_comm. }
    apply Z.divide_pos_le in H; lia.
  - assert (Eo' : Z.odd (Z.of_nat j + Z.of_nat i + 1) = true).
    { replace (Z.of_nat j + Z.of_nat i + 1) with ((Z.of_nat j - Z.of_nat i) + (1 + 2 * Z.of_nat i)) by lia.
      rewrite Z.odd_add, Eo, Z.odd_add, Z.odd_mul. done. }
    assert (H : (2 ^ Z.of_nat (S k) | Z.of_nat j - Z.of_nat i)).
    { by apply (pow2_divides_odd _ _ _ Eo'). }
    apply Z.divide_pos_le in H; lia.
Qed.

Lemma probe_injective h k i j :
  (i < 2 ^ k)%nat -> (j < 2 ^ k)%nat -> probe h (2 ^ k) i = probe h (2 ^ k) j -> i = j.
Proof.
  intros Hi Hj E. unfold probe in E. apply (f_equal Z.of_nat) in E.
  rewrite !Nat2Z.inj_mod, !Nat2Z.inj_add, Nat2Z.inj_pow in E. change (Z.of_nat 2) with 2 in E.
  destruct (lt_eq_lt_dec i j) as [[Hlt|Heq]|Hgt]; [|done|]; exfalso.
  - by apply (tri_injective k i j (Z.of_nat h)).
  - by apply (tri_injective k j i (Z.of_nat h)).
Qed.

Lemma probe_covers h k g :
  (g < 2 ^ k)%nat -> exists i, (i < 2 ^ k)%nat /\ probe h (2 ^ k) i = g.
Proof.
  intros Hg.
  assert (Hincl : incl (seq 0 (2 ^ k)) (map (probe h (2 ^ k)) (seq 0 (2 ^ k)))).
  { apply NoDup_length_incl.
    - apply NoDup_ListNoDup, (NoDup_fmap_2_strong (probe h (2 ^ k))); [|apply NoDup_seq].
      intros x y Hx Hy. apply elem_of_seq in Hx, Hy. apply probe_injective; lia.
    - by rewrite length_map.
    - intros x Hx. apply in_map_iff in Hx as (i & <- & Hi). apply in_seq. unfold probe.
      pose proof (Nat.mod_upper_bound (h + tri i) (2 ^ k) ltac:(lia)). lia. }
  specialize (Hincl g ltac:(apply in_seq; lia)). apply in_map_iff in Hincl as (i & Hi & Hin).
  apply in_seq in Hin. exists i. split; [lia|done].
Qed.

Lemma probe_lt h G i : G <> 0%nat -> (probe h G i < G)%nat.
Proof. intros H. unfold probe. by apply Nat.mod_upper_bound. Qed.

(** Triangular probing over a power-of-two number of groups visits every
    group, and each exactly once in as many steps as there are groups. *)
Theorem triangular_probe_permutes h k :
  map (probe h (2 ^ k)) (seq 0 (2 ^ k)) ≡ₚ seq 0 (2 ^ k).
Proof.
  apply NoDup_Permutation.
  - apply (NoDup_fmap_2_strong (probe h (2 ^ k))); [|apply NoDup_seq].
    intros x y Hx Hy. apply elem_of_seq in Hx, Hy. apply probe_injective; lia.
  - apply NoDup_seq.
  - intros g. rewrite list_elem_of_fmap. split.
    + intros (i & -> & _). apply elem_of_seq. pose proof (probe_lt h (2 ^ k) i ltac:(apply Nat.pow_nonzero; lia)). lia.
    + intros Hg. apply elem_of_seq in Hg. destruct (probe_covers h k g) as (i & Hi & <-); [lia|].
      exists i. split; [done|]. apply elem_of_seq. lia.
Qed.

End Probe.
