(* ===== verification/HashShard.v ===== *)
(** * HashShard: [utils/hash_map/hash_shard.{hpp,ipp}]

    The open-addressing table: a control byte per slot, scanned eight at a time
    as one word (file [Swar]), triangular probing over aligned groups of eight,
    tombstones, growth by load factor and in-place compaction.  Entries and
    control bytes are lists indexed by slot; an entry is [None] while its slot is
    raw storage.  [std::hash], [sizeof(Entry)] and the success of [Shared::Alloc]
    are parameters. *)

From S2P Require Import Prelude Swar Probe.
Import Swar Probe.

Module HashShard.

Definition GROUP_WIDTH : nat := 8.
Definition TAG_EMPTY : Z := 0xFF.
Definition TAG_DELETED : Z := 0x80.

Definition IsFull (m : Z) : bool := Z.land m 0x80 =? 0.

(** [std::bit_ceil] *)
Definition bit_ceil (n : nat) : nat := (2 ^ Nat.log2_up n)%nat.

(** [static_cast<float>(n)]: round to nearest even at 24 significant bits. *)
Definition to_float (n : Z) : Z :=
  let e := Z.log2 n in
  if e <=? 23 then n
  else
    let unit := 2 ^ (e - 23) in
    let q := n / unit in
    let r := n mod unit in
    (if (unit <? 2 * r) || ((unit =? 2 * r) && Z.odd q) then q + 1 else q) * unit.

(** [static_cast<float>(n) / capacity > 0.875f]: the division by a power of two is
    exact. *)
Definition over_load (n capacity : nat) : bool :=
  7 * Z.of_nat capacity <? 8 * to_float (Z.of_nat n).

Record SlotResult := Slot { s_pos : nat; s_h2 : Z; s_found : bool }.

Section table.
Context {K V : Type} `{EqDecision K}.

(** The element hash, the entry size, and whether an allocation of so many bytes
    succeeds. *)
Context (std_hash : K -> Z) (entry_size : Z) (Alloc_ok : Z -> bool).

Definition WFXHash (key : K) : Z :=
  let h := u64 (u64 (std_hash key) * 0x9E3779B97F4A7C15) in
  Z.lxor h (Z.shiftr h 32).

Definition KeysEqual (a b : K) : bool := bool_decide (a = b).

Record table := Table {
  entries_ : list (option (K * V));
  meta_ : bytes;
  capacity_ : nat;
  initialBucketCapacity_ : nat;
  size_ : nat;
  deletedCount_ : nat
}.

(** Every write of a control byte keeps the mirror of the first group. *)
Definition SetMetaByte (meta : bytes) (capacity pos : nat) (tag : Z) : bytes :=
  let meta := <[pos := tag]> meta in
  if (pos <? GROUP_WIDTH)%nat then <[(capacity + pos)%nat := tag]> meta else meta.

(** [memcpy(&word, &meta[base], 8)] *)
Definition word_at (meta : bytes) (base : nat) : Z := le_word (take 8 (drop base meta)).

(** [SafeByteSize] then [Shared::Alloc]. *)
Definition checked_alloc (count : nat) (elemSize : Z) : outcome bool :=
  if (2 ^ 64 - 1) / elemSize <? Z.of_nat count
  then Fatal "[HashShard]: Requested capacity overflows allocation size"
  else Ret (Alloc_ok (Z.of_nat count * elemSize)).

(** A shard before [Init] has no table ([entries_ == nullptr]). *)
Definition shard : Type := option table.

(** [forLiveCount]: [cap / 0.7f], truncated, plus one; 0.7f is 11744051 / 2^24
    and the [double] quotient truncates exactly for [cap] below 2^28. *)
Definition live_ceiling (cap : nat) : nat := Z.to_nat (Z.of_nat cap * 2 ^ 24 / 11744051 + 1).

Definition init_table (cap : nat) : outcome table :=
  let cap := bit_ceil (if (cap <? GROUP_WIDTH)%nat then GROUP_WIDTH else cap) in
  let* ok := checked_alloc cap entry_size in
  if negb ok then Fatal "[HashShard]: Failed to get memory for entries"
  else
    let* ok := checked_alloc (cap + GROUP_WIDTH) 1 in
    if negb ok then Fatal "[HashShard]: Failed to get memory for metadata"
    else Ret (Table (replicate cap None) (replicate (cap + GROUP_WIDTH) TAG_EMPTY) cap cap 0 0).

Definition Init (cap : nat) (forLiveCount : bool) (s : shard) : outcome shard :=
  match s with
  | Some _ => Fatal "[HashShard]: Init() called twice"
  | None => let* t := init_table (if forLiveCount then live_ceiling cap else cap) in Ret (Some t)
  end.

(** ** The probe walk *)

Definition key_at (ents : list (option (K * V))) (pos : nat) : option K := fst <$> mjoin (ents !! pos).

(** The loop over the lanes [MatchByte] flags; at most eight of them. *)
Fixpoint match_loop (fuel : nat) (ents : list (option (K * V))) (base : nat) (matches : Z) (key : K)
  : option nat :=
  match fuel with
  | O => None
  | S f =>
      if matches =? 0 then None
      else
        let pos := (base + Nat.shiftr (countr_zero matches) 3)%nat in
        if match key_at ents pos with Some k => KeysEqual k key | None => false end
        then Some pos
        else match_loop f ents base (clear_lowest matches) key
  end.

Definition h2_of (key : K) : Z := u8 (Z.shiftr (WFXHash key) 57).

(** [n] groups left to visit; [insertPos] is [None] for [NO_INSERT_POS]. *)
Fixpoint find_loop (n : nat) (ents : list (option (K * V))) (meta : bytes) (groupMask groupIdx stride : nat)
    (insertPos : option nat) (key : K) : outcome SlotResult :=
  match n with
  | O => Fatal "[HashShard]: FindSlot exhausted every group, table is completely full"
  | S n' =>
      let base := (groupIdx * GROUP_WIDTH)%nat in
      let word := word_at meta base in
      match match_loop 8 ents base (MatchByte word (h2_of key)) key with
      | Some pos => Ret (Slot pos (h2_of key) true)
      | None =>
          let insertPos :=
            match insertPos with
            | Some p => Some p
            | None => if MatchEmptyOrDeleted word =? 0 then None
                      else Some (base + Nat.shiftr (countr_zero (MatchEmptyOrDeleted word)) 3)%nat
            end in
          if negb (MatchEmpty word =? 0)
          then Ret (Slot (default (length ents) insertPos) (h2_of key) false)
          else find_loop n' ents meta groupMask (Nat.land (groupIdx + (stride + 1)) groupMask) (stride + 1)
                         insertPos key
      end
  end.

Definition first_group (key : K) (groupMask : nat) : nat :=
  Z.to_nat (Z.land (WFXHash key) (Z.of_nat groupMask)).

Definition FindSlot (ents : list (option (K * V))) (meta : bytes) (capacity : nat) (key : K)
  : outcome SlotResult :=
  let groupMask := (capacity / GROUP_WIDTH - 1)%nat in
  find_loop (groupMask + 1) ents meta groupMask (first_group key groupMask) 0 None key.

Fixpoint avail_loop (n : nat) (meta : bytes) (groupMask groupIdx stride : nat) (key : K) : outcome SlotResult :=
  match n with
  | O => Fatal "[HashShard]: FindAvailableSlot exhausted every group during in-place compaction"
  | S n' =>
      let base := (groupIdx * GROUP_WIDTH)%nat in
      let avail := MatchEmptyOrDeleted (word_at meta base) in
      if negb (avail =? 0)
      then Ret (Slot (base + Nat.shiftr (countr_zero avail) 3) (h2_of key) false)
      else avail_loop n' meta groupMask (Nat.land (groupIdx + (stride + 1)) groupMask) (stride + 1) key
  end.

Definition FindAvailableSlot (meta : bytes) (capacity : nat) (key : K) : outcome SlotResult :=
  let groupMask := (capacity / GROUP_WIDTH - 1)%nat in
  avail_loop (groupMask + 1) meta groupMask (first_group key groupMask) 0 key.

(** ** Growing and compacting *)

(** The rehash loop: [i] runs over the old slots. *)
Fixpoint rehash (old : list (option (K * V))) (oldMeta : bytes) (newCapacity : nat)
    (newEntries : list (option (K * V))) (newMeta : bytes) : outcome (list (option (K * V)) * bytes) :=
  match old, oldMeta with
  | e :: old', m :: oldMeta' =>
      if negb (IsFull m) then rehash old' oldMeta' newCapacity newEntries newMeta
      else match e with
           | Some (k, v) =>
               let* slot := FindSlot newEntries newMeta newCapacity k in
               rehash old' oldMeta' newCapacity (<[s_pos slot := Some (k, v)]> newEntries)
                      (SetMetaByte newMeta newCapacity (s_pos slot) (s_h2 slot))
           | None => rehash old' oldMeta' newCapacity newEntries newMeta
           end
  | _, _ => Ret (newEntries, newMeta)
  end.

Definition Resize (newCapacity : nat) (t : table) : outcome (bool * table) :=
  if (newCapacity =? 0)%nat && (2 ^ 63 <? Z.of_nat (capacity_ t)) then Ret (false, t)
  else
    let newCapacity := if (newCapacity =? 0)%nat then Z.to_nat (u64 (Z.of_nat (capacity_ t) * 2))
                       else newCapacity in
    if (newCapacity <? initialBucketCapacity_ t)%nat then Ret (true, t)
    else
      let newCapacity := if (newCapacity <? capacity_ t)%nat then capacity_ t else newCapacity in
      let newCapacity := bit_ceil (if (newCapacity <? GROUP_WIDTH)%nat then GROUP_WIDTH else newCapacity) in
      let* ok := checked_alloc newCapacity entry_size in
      if negb ok then Ret (false, t)
      else
        let* ok := checked_alloc (newCapacity + GROUP_WIDTH) 1 in
        if negb ok then Ret (false, t)
        else
          let* p := rehash (entries_ t) (meta_ t) newCapacity (replicate newCapacity None)
                           (replicate (newCapacity + GROUP_WIDTH) TAG_EMPTY) in
          Ret (true, Table (fst p) (snd p) newCapacity (initialBucketCapacity_ t) (size_ t) 0).

(** Pass 1 of the compaction, slot by slot. *)
Definition demote (capacity : nat) (meta : bytes) (i : nat) : bytes :=
  if IsFull (at_ meta i) then SetMetaByte meta capacity i TAG_DELETED
  else if at_ meta i =? TAG_DELETED then SetMetaByte meta capacity i TAG_EMPTY
  else meta.

(** The [while] of pass 2 at slot [i]; each turn that goes on settles an entry
    for good. *)
Fixpoint settle (fuel : nat) (capacity i : nat) (ents : list (option (K * V))) (meta : bytes)
  : outcome (list (option (K * V)) * bytes) :=
  match fuel with
  | O => Ret (ents, meta)
  | S f =>
      if negb (at_ meta i =? TAG_DELETED) then Ret (ents, meta)
      else match key_at ents i with
           | None => Ret (ents, meta)
           | Some k =>
               let* slot := FindAvailableSlot meta capacity k in
               let pos := s_pos slot in
               if (pos =? i)%nat then Ret (ents, SetMetaByte meta capacity i (s_h2 slot))
               else if at_ meta pos =? TAG_EMPTY then
                 Ret (<[i := None]> (<[pos := mjoin (ents !! i)]> ents),
                      SetMetaByte (SetMetaByte meta capacity pos (s_h2 slot)) capacity i TAG_EMPTY)
               else
                 settle f capacity i (<[pos := mjoin (ents !! i)]> (<[i := mjoin (ents !! pos)]> ents))
                        (SetMetaByte meta capacity pos (s_h2 slot))
           end
  end.

Fixpoint settle_all (slots : list nat) (capacity : nat) (ents : list (option (K * V))) (meta : bytes)
  : outcome (list (option (K * V)) * bytes) :=
  match slots with
  | [] => Ret (ents, meta)
  | i :: r => let* p := settle (S capacity) capacity i ents meta in
              settle_all r capacity (fst p) (snd p)
  end.

Definition CompactInPlace (t : table) : outcome table :=
  let cap := capacity_ t in
  let meta := fold_left (demote cap) (seq 0 cap) (meta_ t) in
  let* p := settle_all (seq 0 cap) cap (entries_ t) meta in
  Ret (Table (fst p) (snd p) cap (initialBucketCapacity_ t) (size_ t) 0).

(** ** Operations *)

(** The pre-emptive grow or compaction; a failed grow is only warned about. *)
Definition make_room (t : table) : outcome table :=
  if over_load (size_ t + deletedCount_ t + 1) (capacity_ t) then
    if over_load (size_ t + 1) (capacity_ t) then
      let* p := Resize 0 t in Ret (snd p)
    else CompactInPlace t
  else Ret t.

(** The walk and the placement, on a table with room: the table after the call
    and the value the returned pointer designates. *)
Definition insert_step (key : K) (value : V) (overwriteExisting : bool) (t : table) : outcome (table * V) :=
  let* slot := FindSlot (entries_ t) (meta_ t) (capacity_ t) key in
  let pos := s_pos slot in
  if s_found slot then
    let ents := if overwriteExisting
                then alter (fmap (fun e => (fst e, value))) pos (entries_ t) else entries_ t in
    Ret (Table ents (meta_ t) (capacity_ t) (initialBucketCapacity_ t) (size_ t) (deletedCount_ t),
         default value (snd <$> mjoin (ents !! pos)))
  else
    let deleted := if at_ (meta_ t) pos =? TAG_DELETED then (deletedCount_ t - 1)%nat else deletedCount_ t in
    Ret (Table (<[pos := Some (key, value)]> (entries_ t))
               (SetMetaByte (meta_ t) (capacity_ t) pos (s_h2 slot))
               (capacity_ t) (initialBucketCapacity_ t) (size_ t + 1) deleted, value).

Definition insert_or_get (key : K) (value : V) (overwriteExisting : bool) (t : table) : outcome (table * V) :=
  let* t := make_room t in insert_step key value overwriteExisting t.

Definition erase_table (key : K) (t : table) : outcome (table * bool) :=
  let* slot := FindSlot (entries_ t) (meta_ t) (capacity_ t) key in
  if negb (s_found slot) then Ret (t, false)
  else
    let pos := s_pos slot in
    let ents := <[pos := None]> (entries_ t) in
    let mask := (capacity_ t - 1)%nat in
    let indexBefore := Nat.land (pos + capacity_ t - GROUP_WIDTH) mask in
    let wordBefore := word_at (meta_ t) indexBefore in
    let wordAfter := word_at (meta_ t) pos in
    let beforeRun := (countl_zero (MatchEmpty wordBefore) / 8)%nat in
    let afterRun := (countr_zero (MatchEmpty wordAfter) / 8)%nat in
    let tombstone := (GROUP_WIDTH <=? beforeRun + afterRun)%nat in
    Ret (Table ents (SetMetaByte (meta_ t) (capacity_ t) pos (if tombstone then TAG_DELETED else TAG_EMPTY))
               (capacity_ t) (initialBucketCapacity_ t) (size_ t - 1)
               (if tombstone then deletedCount_ t + 1 else deletedCount_ t)%nat, true).

Definition get_table (key : K) (t : table) : outcome (option V) :=
  let* slot := FindSlot (entries_ t) (meta_ t) (capacity_ t) key in
  Ret (if s_found slot then snd <$> mjoin (entries_ t !! s_pos slot) else None).

(** The public calls: on a shard that was never initialised they return
    [nullptr] or [false]. *)
Definition InsertOrGet (key : K) (value : V) (overwriteExisting : bool) (s : shard)
  : outcome (shard * option V) :=
  match s with
  | None => Ret (None, None)
  | Some t => let* p := insert_or_get key value overwriteExisting t in Ret (Some (fst p), Some (snd p))
  end.

Definition Emplace (key : K) (value : V) (s : shard) : outcome (shard * bool) :=
  let* p := InsertOrGet key value true s in
  Ret (fst p, match snd p with Some _ => true | None => false end).

Definition Insert (key : K) (value : V) (s : shard) : outcome (shard * bool) :=
  let copy := value in
  let* p := InsertOrGet key copy true s in
  Ret (fst p, match snd p with Some _ => true | None => false end).

Definition GetOrInsert (key : K) (defaultValue : V) (s : shard) : outcome (shard * option V) :=
  InsertOrGet key defaultValue false s.

Definition Erase (key : K) (s : shard) : outcome (shard * bool) :=
  match s with
  | None => Ret (None, false)
  | Some t => let* p := erase_table key t in Ret (Some (fst p), snd p)
  end.

Definition Get (key : K) (s : shard) : outcome (option V) :=
  match s with
  | None => Ret None
  | Some t => get_table key t
  end.

End table.

(** ** Control bytes *)

Definition valid_tag (m : Z) : Prop := m = TAG_EMPTY \/ m = TAG_DELETED \/ 0 <= m < 128.

Definition full (m : Z) : bool := (0 <=? m) && (m <? 128).

Lemma valid_byte m : valid_tag m -> is_byte m.
Proof. unfold valid_tag, TAG_EMPTY, TAG_DELETED, is_byte. lia. Qed.

Lemma valid_cases m : valid_tag m ->
  (m = TAG_EMPTY /\ high_bit m = true /\ top_bits m = true /\ full m = false /\ IsFull m = false) \/
  (m = TAG_DELETED /\ high_bit m = true /\ top_bits m = false /\ full m = false /\ IsFull m = false) \/
  (0 <= m < 128 /\ high_bit m = false /\ top_bits m = false /\ full m = true /\ IsFull m = true).
Proof.
  intros [-> | [-> | Hm]]; [by left|by right; left|]. right; right. split; [done|].
  assert (Hh : high_bit m = false).
  { unfold high_bit. rewrite Z.testbit_eqb by lia. rewrite Z.div_small by lia. done. }
  unfold top_bits. fold (high_bit m). rewrite Hh. split_and!; [done|done|unfold full; lia|].
  unfold IsFull. rewrite byte_high by (unfold is_byte; lia). by rewrite Hh.
Qed.

Lemma IsFull_full m : valid_tag m -> IsFull m = full m.
Proof. intros [(_&_&_&->&->)|[(_&_&_&->&->)|(_&_&_&->&->)]]%valid_cases; done. Qed.

(** The eight control bytes of a word. *)
Definition lanes (meta : bytes) (base : nat) : bytes := take 8 (drop base meta).

Definition has_empty (meta : bytes) (g : nat) : Prop :=
  exists l, (l < 8)%nat /\ at_ meta (g * GROUP_WIDTH + l) = TAG_EMPTY.
Definition all_full (meta : bytes) (g : nat) : Prop :=
  forall l, (l < 8)%nat -> full (at_ meta (g * GROUP_WIDTH + l)) = true.

Lemma lanes_length meta base : (base + 8 <= length meta)%nat -> length (lanes meta base) = 8%nat.
Proof. intros H. unfold lanes. rewrite length_take, length_drop. lia. Qed.

Lemma lanes_lookup meta base l :
  (base + 8 <= length meta)%nat -> (l < 8)%nat -> lanes meta base !! l = Some (at_ meta (base + l)).
Proof.
  intros H Hl. unfold lanes. rewrite lookup_take_lt, lookup_drop by done.
  destruct (lookup_lt_is_Some_2 meta (base + l)) as [x Hx]; [lia|]. by rewrite (at_lookup _ _ _ Hx).
Qed.

Section groups.
Context (meta : bytes) (base : nat).
Context (Hlen : (base + 8 <= length meta)%nat).
Context (Hvalid : forall l, (l < 8)%nat -> valid_tag (at_ meta (base + l))).

Lemma lanes_bytes : Forall is_byte (lanes meta base).
Proof.
  apply Forall_lookup. intros i x Hx. pose proof (lookup_lt_Some _ _ _ Hx) as Hi.
  rewrite lanes_length in Hi by done. rewrite lanes_lookup in Hx by done. injection Hx as <-.
  by apply valid_byte, Hvalid.
Qed.

(** A lane-wise mask and the positions it flags. *)
Lemma mask_lanes (f : Z -> bool) :
  match first_true (map f (lanes meta base)) with
  | l => if mask_of (map f (lanes meta base)) =? 0
         then forall j, (j < 8)%nat -> f (at_ meta (base + j)) = false
         else (l < 8)%nat /\ f (at_ meta (base + l)) = true /\
              Nat.shiftr (countr_zero (mask_of (map f (lanes meta base)))) 3 = l
  end.
Proof.
  destruct (Z.eqb_spec (mask_of (map f (lanes meta base))) 0) as [E|E].
  - intros j Hj. apply mask_of_zero in E.
    apply (Forall_lookup_1 _ _ j (f (at_ meta (base + j))) E). rewrite list_lookup_fmap, lanes_lookup by done. done.
  - pose proof (first_true_lt _ E) as [H1 H2]. rewrite length_map, lanes_length in H1 by done.
    split; [done|]. split.
    + rewrite list_lookup_fmap, lanes_lookup in H2 by done. by injection H2.
    + apply countr_zero_mask; [|done]. rewrite length_map, lanes_length; lia.
Qed.

Lemma avail_word :
  let m := MatchEmptyOrDeleted (word_at meta base) in
  if m =? 0 then forall j, (j < 8)%nat -> full (at_ meta (base + j)) = true
  else exists l, (l < 8)%nat /\ full (at_ meta (base + l)) = false /\
                 Nat.shiftr (countr_zero m) 3 = l.
Proof.
  cbv zeta. unfold word_at. fold (lanes meta base).
  rewrite MatchEmptyOrDeleted_lanes by (by apply lanes_length || apply lanes_bytes).
  pose proof (mask_lanes high_bit) as H. cbv zeta in H. destruct (_ =? 0).
  - intros j Hj. specialize (H j Hj). destruct (valid_cases _ (Hvalid j Hj)) as [E|[E|E]]; intuition congruence.
  - destruct H as (H1 & H2 & H3). exists (first_true (map high_bit (lanes meta base))). split_and!; [done| |done].
    destruct (valid_cases _ (Hvalid _ H1)) as [E|[E|E]]; intuition congruence.
Qed.

Lemma empty_word :
  let m := MatchEmpty (word_at meta base) in
  if m =? 0 then forall j, (j < 8)%nat -> at_ meta (base + j) <> TAG_EMPTY
  else exists l, (l < 8)%nat /\ at_ meta (base + l) = TAG_EMPTY.
Proof.
  cbv zeta. unfold word_at. fold (lanes meta base).
  rewrite MatchEmpty_lanes by (by apply lanes_length || apply lanes_bytes).
  pose proof (mask_lanes top_bits) as H. cbv zeta in H. destruct (_ =? 0).
  - intros j Hj Ej. specialize (H j Hj). rewrite Ej in H. done.
  - destruct H as (H1 & H2 & H3). exists (first_true (map top_bits (lanes meta base))). split; [done|].
    destruct (valid_cases _ (Hvalid _ H1)) as [E|[E|E]]; intuition congruence.
Qed.

End groups.

(** ** One group of the probe walk *)

Section walk.
Context {K V : Type} `{EqDecision K} (std_hash : K -> Z).
Implicit Types (ents : list (option (K * V))) (meta : bytes) (key : K).

Lemma h2_range key : 0 <= h2_of std_hash key < 128.
Proof.
  unfold h2_of, WFXHash. set (h := u64 _).
  assert (Hh : 0 <= h < 2 ^ 64) by (apply wrap_range; lia).
  set (x := Z.lxor h (Z.shiftr h 32)).
  assert (Hx : 0 <= Z.shiftr x 57 < 128).
  { rewrite Z.shiftr_div_pow2 by lia.
    assert (Hb : 0 <= x < 2 ^ 64).
    { unfold x. assert (Hs : 0 <= Z.shiftr h 32 < 2 ^ 64).
      { rewrite Z.shiftr_div_pow2 by lia. split; [apply Z.div_pos; lia|].
        apply Z.div_lt_upper_bound; lia. }
      split; [apply Z.lxor_nonneg; lia|].
      destruct (Z.eq_dec (Z.lxor h (Z.shiftr h 32)) 0) as [->|Hne]; [lia|].
      assert (0 <= Z.lxor h (Z.shiftr h 32)) by (apply Z.lxor_nonneg; lia).
      apply Z.log2_lt_pow2; [lia|]. eapply Z.le_lt_trans; [apply Z.log2_lxor; lia|].
      apply Z.max_lub_lt.
      - destruct (Z.eq_dec h 0) as [->|]; [by vm_compute|]. apply Z.log2_lt_pow2; lia.
      - destruct (Z.eq_dec (Z.shiftr h 32) 0) as [->|]; [by vm_compute|]. apply Z.log2_lt_pow2; lia. }
    split; [apply Z.div_pos; lia|]. apply Z.div_lt_upper_bound; lia. }
  rewrite wrap_small; lia.
Qed.

Lemma match_loop_spec fuel ents base ms key i :
  length ms = 8%nat -> (8 <= fuel + i)%nat -> (forall j, (j < i)%nat -> ms !! j <> Some true) ->
  match match_loop fuel ents base (mask_of ms) key with
  | Some pos => exists l, (l < 8)%nat /\ ms !! l = Some true /\ pos = (base + l)%nat /\ key_at ents pos = Some key
  | None => forall l, ms !! l = Some true -> key_at ents (base + l) <> Some key
  end.
Proof.
  revert ms i. induction fuel as [|fuel IH]; intros ms i Hl Hf Hlow; cbn [match_loop].
  - intros l Hlt. pose proof (lookup_lt_Some _ _ _ Hlt). exfalso. apply (Hlow l); [lia|done].
  - destruct (Z.eqb_spec (mask_of ms) 0) as [E|E].
    { intros l Hlt. exfalso. by apply (mask_nonzero _ _ Hlt). }
    pose proof (first_true_lt _ E) as [Hft Hfl].
    rewrite countr_zero_mask by (lia || done). set (f := first_true ms) in *.
    assert (Hge : (i <= f)%nat).
    { destruct (Nat.le_gt_cases i f) as [|Hgt]; [done|]. exfalso. by apply (Hlow f). }
    destruct (match key_at ents (base + f) with Some k => KeysEqual k key | None => false end) eqn:Eh.
    { destruct (key_at ents (base + f)) as [k|] eqn:Ek; [|done].
      apply bool_decide_eq_true in Eh as ->. exists f. by split_and!; [lia|..]. }
    assert (Hmiss : key_at ents (base + f) <> Some key).
    { intros Ek. rewrite Ek in Eh. by apply bool_decide_eq_false in Eh. }
    rewrite clear_lowest_mask by done. fold f.
    assert (Hlow' : forall j, (j < S f)%nat -> <[f := false]> ms !! j <> Some true).
    { intros j Hj. destruct (decide (j = f)) as [->|Hne].
      - by rewrite list_lookup_insert_eq by done.
      - rewrite list_lookup_insert_ne by done. apply first_true_before. fold f. lia. }
    specialize (IH (<[f := false]> ms) (S f) ltac:(by rewrite length_insert) ltac:(lia) Hlow').
    destruct (match_loop _ _ _ _ _) as [pos|].
    + destruct IH as (l & H1 & H2 & H3 & H4). exists l. split_and!; [done| |done|done].
      destruct (decide (l = f)) as [->|Hne]; [done|]. by rewrite list_lookup_insert_ne in H2.
    + intros l Hlt. destruct (decide (l = f)) as [->|Hne]; [done|].
      apply IH. by rewrite list_lookup_insert_ne.
Qed.

(** The arrays of a table of [2 ^ k] groups. *)
Record shape (k : nat) (cap : nat) meta : Prop := {
  sh_cap : cap = (8 * 2 ^ k)%nat;
  sh_len : length meta = (cap + 8)%nat;
  sh_valid : forall p, (p < cap)%nat -> valid_tag (at_ meta p);
  sh_mirror : forall p, (p < 8)%nat -> at_ meta (cap + p) = at_ meta p
}.

(** Entries sit exactly in the full slots, under their tag. *)
Record stored (cap : nat) ents meta : Prop := {
  st_len : length ents = cap;
  st_live : forall p, (p < cap)%nat -> full (at_ meta p) = true <-> is_Some (key_at ents p);
  st_tag : forall p key, key_at ents p = Some key -> at_ meta p = h2_of std_hash key
}.

Definition pg (k : nat) key (i : nat) : nat := probe (first_group std_hash key (2 ^ k - 1)) (2 ^ k) i.

Lemma pow2_pos k : (0 < 2 ^ k)%nat.
Proof. apply Nat.neq_0_lt_0, Nat.pow_nonzero. lia. Qed.

Lemma first_group_lt k key : (first_group std_hash key (2 ^ k - 1) < 2 ^ k)%nat.
Proof.
  unfold first_group. pose proof (pow2_pos k).
  replace (Z.of_nat (2 ^ k - 1)) with (Z.ones (Z.of_nat k)).
  - rewrite Z.land_ones by lia. pose proof (Z.mod_pos_bound (WFXHash std_hash key) (2 ^ Z.of_nat k) ltac:(lia)).
    apply Nat2Z.inj_lt. rewrite Z2Nat.id, Nat2Z.inj_pow by lia. change (Z.of_nat 2) with 2. lia.
  - rewrite Z.ones_equiv, Nat2Z.inj_sub, Nat2Z.inj_pow by lia. change (Z.of_nat 2) with 2. lia.
Qed.

Lemma pg_0 k key : pg k key 0 = first_group std_hash key (2 ^ k - 1).
Proof. apply probe_0, first_group_lt. Qed.

Lemma pg_lt k key i : (pg k key i < 2 ^ k)%nat.
Proof. apply probe_lt. pose proof (pow2_pos k). lia. Qed.

Lemma groupMask_eq k cap meta : shape k cap meta -> (cap / GROUP_WIDTH - 1 = 2 ^ k - 1)%nat.
Proof. intros [-> _ _ _]. unfold GROUP_WIDTH. rewrite Nat.mul_comm, Nat.div_mul by lia. done. Qed.

Section groups_of.
Context (k cap : nat) (meta : bytes) (Hsh : shape k cap meta).

Lemma group_base_lt g l : (g < 2 ^ k)%nat -> (l < 8)%nat -> (g * GROUP_WIDTH + l < cap)%nat.
Proof. intros Hg Hl. destruct Hsh as [-> _ _ _]. unfold GROUP_WIDTH. nia. Qed.

Lemma group_len g : (g < 2 ^ k)%nat -> (g * GROUP_WIDTH + 8 <= length meta)%nat.
Proof. intros Hg. pose proof (group_base_lt g 7 Hg ltac:(lia)). destruct Hsh as [_ -> _ _]. lia. Qed.

Lemma group_valid g l : (g < 2 ^ k)%nat -> (l < 8)%nat -> valid_tag (at_ meta (g * GROUP_WIDTH + l)).
Proof. intros Hg Hl. apply (sh_valid _ _ _ Hsh). by apply group_base_lt. Qed.

Lemma position_group p : (p < cap)%nat -> (p / 8 < 2 ^ k)%nat /\ (p = p / 8 * GROUP_WIDTH + p mod 8)%nat /\ (p mod 8 < 8)%nat.
Proof.
  intros Hp. destruct Hsh as [Hc _ _ _]. pose proof (Nat.div_mod_eq p 8). pose proof (Nat.mod_upper_bound p 8 ltac:(lia)).
  unfold GROUP_WIDTH. split; [apply Nat.Div0.div_lt_upper_bound; lia|lia].
Qed.

Lemma group_of_index g l : (l < 8)%nat -> ((g * GROUP_WIDTH + l) / 8 = g)%nat.
Proof. intros Hl. unfold GROUP_WIDTH. symmetry. apply (Nat.div_unique _ _ _ l); lia. Qed.

(** Matching a tag in one group: a hit is a full slot with the key; a miss means
    the key is not stored in the group. *)
Lemma group_match ents g key :
  stored cap ents meta -> (g < 2 ^ k)%nat ->
  match match_loop 8 ents (g * GROUP_WIDTH) (MatchByte (word_at meta (g * GROUP_WIDTH)) (h2_of std_hash key)) key with
  | Some pos => (pos < cap)%nat /\ (pos / 8 = g)%nat /\ full (at_ meta pos) = true /\ key_at ents pos = Some key
  | None => forall p, (p < cap)%nat -> (p / 8 = g)%nat -> key_at ents p <> Some key
  end.
Proof.
  intros Hst Hg. pose proof (group_len g Hg) as Hl. pose proof (h2_range key) as Hh.
  pose proof (fun l => group_valid g l Hg) as Hv.
  set (base := (g * GROUP_WIDTH)%nat) in *. unfold word_at. fold (lanes meta base).
  rewrite MatchByte_lanes; [|by apply lanes_length|by apply lanes_bytes|unfold is_byte; lia].
  set (cs := map (Z.lxor (h2_of std_hash key)) (lanes meta base)).
  assert (Hcs : length (match_lanes cs false) = 8%nat)
    by (unfold cs; by rewrite match_lanes_length, length_map, lanes_length).
  pose proof (match_loop_spec 8 ents base (match_lanes cs false) key 0 Hcs ltac:(lia) ltac:(intros j Hj; lia)) as Hm.
  destruct (match_loop _ _ _ _ _) as [pos|].
  - destruct Hm as (l & Hl8 & Hfl & -> & Hk). pose proof (group_base_lt g l Hg Hl8) as Hpos.
    split; [done|]. split; [by apply group_of_index|]. split; [|done].
    rewrite (st_live _ _ _ Hst) by done. by rewrite Hk.
  - intros p Hp Hpg Hk. destruct (position_group p Hp) as (_ & Ep & Hl8). rewrite Hpg in Ep. fold base in Ep.
    apply (Hm (p mod 8)%nat); [|by rewrite <- Ep]. apply match_lanes_hit. unfold cs.
    rewrite list_lookup_fmap, lanes_lookup by done. rewrite <- Ep, (st_tag _ _ _ Hst p key Hk).
    cbn [fmap option_fmap option_map]. by rewrite Z.lxor_nilpotent.
Qed.

End groups_of.

(** ** The whole walk *)

Section find.
Context (k cap : nat) (ents : list (option (K * V))) (meta : bytes) (key : K).
Context (Hsh : shape k cap meta) (Hst : stored cap ents meta).

Definition absent_upto (n : nat) : Prop :=
  forall j p, (j < n)%nat -> (p < cap)%nat -> (p / 8)%nat = pg k key j -> key_at ents p <> Some key.

Definition no_empty_before (n : nat) : Prop := forall j, (j < n)%nat -> ~ has_empty meta (pg k key j).

(** The remembered insert position: the first slot that is not full, after only
    full groups. *)
Definition insert_ok (n : nat) (ins : option nat) : Prop :=
  match ins with
  | None => forall j, (j < n)%nat -> all_full meta (pg k key j)
  | Some p => (p < cap)%nat /\ full (at_ meta p) = false /\
              exists m, (m < n)%nat /\ (p / 8)%nat = pg k key m /\ forall j, (j < m)%nat -> all_full meta (pg k key j)
  end.

Lemma all_full_no_empty g : all_full meta g -> ~ has_empty meta g.
Proof. intros Hf (l & Hl & He). specialize (Hf l Hl). rewrite He in Hf. done. Qed.

Lemma insert_ok_step i ins g :
  g = pg k key i -> insert_ok i ins ->
  let m := MatchEmptyOrDeleted (word_at meta (g * GROUP_WIDTH)) in
  insert_ok (S i) (match ins with
                   | Some p => Some p
                   | None => if m =? 0 then None else Some (g * GROUP_WIDTH + Nat.shiftr (countr_zero m) 3)%nat
                   end).
Proof.
  intros -> Hins m. pose proof (pg_lt k key i) as Hg. destruct ins as [p|].
  - destruct Hins as (Hp & Hf & j & Hj & Hrest). split_and!; [done|done|]. exists j. split; [lia|done].
  - pose proof (avail_word meta (pg k key i * GROUP_WIDTH) (group_len k cap meta Hsh _ Hg)
                 (fun l => group_valid k cap meta Hsh _ l Hg)) as Ha. cbv zeta in Ha. fold m in Ha.
    destruct (m =? 0).
    + intros j Hj. destruct (decide (j = i)) as [->|]; [exact Ha|apply Hins; lia].
    + destruct Ha as (l & Hl & Hf & ->). split; [by apply (group_base_lt k cap meta)|].
      split; [done|]. exists i. split; [lia|]. split; [by apply group_of_index|exact Hins].
Qed.

Lemma find_loop_spec n i ins :
  (n + i = 2 ^ k)%nat -> absent_upto i -> no_empty_before i -> insert_ok i ins ->
  match find_loop std_hash n ents meta (2 ^ k - 1) (pg k key i) i ins key with
  | Ret (Slot p h2 true) => (p < cap)%nat /\ key_at ents p = Some key
  | Ret (Slot p h2 false) => h2 = h2_of std_hash key /\
      exists m, (m < 2 ^ k)%nat /\ has_empty meta (pg k key m) /\ no_empty_before m /\
                absent_upto (S m) /\ insert_ok (S m) (Some p)
  | Fatal _ => no_empty_before (2 ^ k)
  end.
Proof.
  revert i ins. induction n as [|n IH]; intros i ins Hn Habs Hne Hins; cbn [find_loop].
  { cbn in Hn. by rewrite <- Hn. }
  pose proof (pg_lt k key i) as Hg. set (g := pg k key i) in *.
  pose proof (group_match k cap meta Hsh ents g key Hst Hg) as Hm.
  destruct (match_loop _ _ _ _ _) as [pos|]; [by destruct Hm as (? & _ & _ & ?)|].
  pose proof (insert_ok_step i ins g eq_refl Hins) as Hins'. cbv zeta in Hins'.
  set (ins' := match ins with Some _ => _ | None => _ end) in *.
  assert (Habs' : absent_upto (S i)).
  { intros j p Hj Hp Hpg. destruct (decide (j = i)) as [->|]; [by apply Hm|apply (Habs j); (done || lia)]. }
  pose proof (empty_word meta (g * GROUP_WIDTH) (group_len k cap meta Hsh _ Hg)
               (fun l => group_valid k cap meta Hsh _ l Hg)) as He. cbv zeta in He.
  destruct (MatchEmpty _ =? 0); cbn [negb].
  - assert (Hne' : no_empty_before (S i)).
    { intros j Hj. destruct (decide (j = i)) as [->|]; [|apply Hne; lia].
      intros (l & Hl & El). by apply (He l Hl). }
    replace (Nat.land (g + (i + 1)) (2 ^ k - 1)) with (pg k key (S i)) by (unfold g, pg; by rewrite probe_step).
    replace (i + 1)%nat with (S i) by lia. apply IH; [lia|done|done|done].
  - destruct ins' as [p|].
    + split; [done|]. exists i. split; [lia|]. split; [exact He|]. split; [done|]. split; [done|exact Hins'].
    + exfalso. apply (all_full_no_empty g); [apply (Hins' i); lia|exact He].
Qed.

Lemma FindSlot_spec :
  match FindSlot std_hash ents meta cap key with
  | Ret (Slot p h2 true) => (p < cap)%nat /\ key_at ents p = Some key
  | Ret (Slot p h2 false) => h2 = h2_of std_hash key /\
      exists m, (m < 2 ^ k)%nat /\ has_empty meta (pg k key m) /\ no_empty_before m /\
                absent_upto (S m) /\ insert_ok (S m) (Some p)
  | Fatal _ => forall g, (g < 2 ^ k)%nat -> ~ has_empty meta g
  end.
Proof.
  unfold FindSlot. rewrite (groupMask_eq k cap meta Hsh). pose proof (pow2_pos k).
  replace (2 ^ k - 1 + 1)%nat with (2 ^ k)%nat by lia. rewrite <- pg_0.
  pose proof (find_loop_spec (2 ^ k) 0 None ltac:(lia)) as Hf.
  destruct (find_loop _ _ _ _ _ _ _ _ _) as [[p h2 found]|e].
  - apply Hf; intros ?; lia.
  - intros g Hg. destruct (probe_covers (first_group std_hash key (2 ^ k - 1)) k g Hg) as (i & Hi & <-).
    apply Hf; [intros ?; lia|intros ?; lia|intros ?; lia|done].
Qed.

End find.

(** ** Placing and removing entries *)

Lemma SetMetaByte_length meta cap p tag : length (SetMetaByte meta cap p tag) = length meta.
Proof. unfold SetMetaByte. cbv zeta. destruct (p <? GROUP_WIDTH)%nat; by rewrite ?length_insert. Qed.

Lemma at_insert (l : bytes) i j x :
  (i < length l)%nat -> at_ (<[i := x]> l) j = if decide (j = i) then x else at_ l j.
Proof.
  intros Hi. unfold at_. destruct (decide (j = i)) as [->|Hne].
  - by rewrite list_lookup_insert_eq.
  - by rewrite list_lookup_insert_ne.
Qed.

Lemma SetMetaByte_at k cap meta p tag q :
  shape k cap meta -> (p < cap)%nat -> (q < cap)%nat ->
  at_ (SetMetaByte meta cap p tag) q = if decide (q = p) then tag else at_ meta q.
Proof.
  intros [_ Hl _ _] Hp Hq. unfold SetMetaByte. cbv zeta.
  destruct (Nat.ltb_spec p GROUP_WIDTH); rewrite !at_insert by (rewrite ?length_insert; unfold GROUP_WIDTH in *; lia);
    repeat destruct (decide _); (done || lia).
Qed.

Lemma SetMetaByte_shape k cap meta p tag :
  shape k cap meta -> (p < cap)%nat -> valid_tag tag -> shape k cap (SetMetaByte meta cap p tag).
Proof.
  intros Hsh Hp Ht. pose proof Hsh as [Hc Hl Hv Hm]. split.
  - done.
  - by rewrite SetMetaByte_length.
  - intros q Hq. rewrite (SetMetaByte_at k) by done. destruct (decide _); [done|by apply Hv].
  - intros q Hq. pose proof (pow2_pos k). assert (Hqc : (q < cap)%nat) by lia.
    rewrite (SetMetaByte_at k cap meta p tag q) by done. unfold SetMetaByte. cbv zeta. unfold GROUP_WIDTH.
    destruct (Nat.ltb_spec p 8).
    + rewrite !at_insert by (rewrite ?length_insert; lia). rewrite (Hm q Hq).
      repeat destruct (decide _); (done || lia).
    + rewrite !at_insert by lia. rewrite (Hm q Hq). repeat destruct (decide _); (done || lia).
Qed.

Lemma has_empty_set k cap meta p tag g :
  shape k cap meta -> (p < cap)%nat -> (g < 2 ^ k)%nat -> tag <> TAG_EMPTY ->
  has_empty (SetMetaByte meta cap p tag) g -> has_empty meta g.
Proof.
  intros Hsh Hp Hg Ht (l & Hl & He). exists l. split; [done|].
  rewrite (SetMetaByte_at k) in He by (done || by apply (group_base_lt k cap meta)).
  by destruct (decide _).
Qed.

(** The key is where its walk would find it: every group before its own on the
    walk has no empty slot. *)
Definition reachable (k : nat) meta key (p : nat) : Prop :=
  exists i, (i < 2 ^ k)%nat /\ (p / 8)%nat = pg k key i /\ forall j, (j < i)%nat -> ~ has_empty meta (pg k key j).

Record core (k cap : nat) ents meta : Prop := {
  co_shape : shape k cap meta;
  co_stored : stored cap ents meta;
  co_unique : forall p q key, key_at ents p = Some key -> key_at ents q = Some key -> p = q;
  co_reach : forall p key, key_at ents p = Some key -> reachable k meta key p
}.

Lemma key_at_lt ents p key : key_at ents p = Some key -> (p < length ents)%nat.
Proof. unfold key_at. intros H. destruct (ents !! p) eqn:E; [|done]. by apply lookup_lt_Some in E. Qed.

Lemma key_at_insert ents p e q :
  (p < length ents)%nat -> key_at (<[p := e]> ents) q = if decide (q = p) then fst <$> e else key_at ents q.
Proof.
  intros Hp. unfold key_at. destruct (decide (q = p)) as [->|Hne].
  - rewrite list_lookup_insert_eq by done. by destruct e.
  - by rewrite list_lookup_insert_ne.
Qed.

Lemma absent_everywhere k cap ents meta key m :
  core k cap ents meta -> has_empty meta (pg k key m) -> no_empty_before k meta key m ->
  absent_upto k cap ents key (S m) -> forall p, key_at ents p <> Some key.
Proof.
  intros Hc He Hne Habs p Hp. pose proof (key_at_lt _ _ _ Hp) as Hlt. rewrite (st_len _ _ _ (co_stored _ _ _ _ Hc)) in Hlt.
  destruct (co_reach _ _ _ _ Hc p key Hp) as (i & Hi & Hpi & Hbefore).
  destruct (decide (i <= m)%nat) as [Hle|Hgt].
  - by apply (Habs i p ltac:(lia) Hlt Hpi).
  - by apply (Hbefore m ltac:(lia)).
Qed.

(** The walk decides membership, and finds room when the key is absent. *)
Lemma FindSlot_cases k cap ents meta key g :
  core k cap ents meta -> (g < 2 ^ k)%nat -> has_empty meta g ->
  (exists p h2, FindSlot std_hash ents meta cap key = Ret (Slot p h2 true) /\ key_at ents p = Some key) \/
  (exists p m, FindSlot std_hash ents meta cap key = Ret (Slot p (h2_of std_hash key) false) /\
     (forall q, key_at ents q <> Some key) /\ (m < 2 ^ k)%nat /\ insert_ok k cap meta key (S m) (Some p)).
Proof.
  intros Hc Hg He. pose proof (FindSlot_spec k cap ents meta key (co_shape _ _ _ _ Hc) (co_stored _ _ _ _ Hc)) as Hf.
  destruct (FindSlot _ _ _ _ _) as [[p h2 [|]]|e].
  - left. exists p, h2. split; [done|apply Hf].
  - right. destruct Hf as (-> & m & Hm & Hem & Hne & Habs & Hins). exists p, m. split_and!; [done| |done|done].
    by eapply absent_everywhere.
  - by apply Hf in He.
Qed.

Lemma place_core k cap ents meta key v p m :
  core k cap ents meta -> (m < 2 ^ k)%nat -> (forall q, key_at ents q <> Some key) ->
  insert_ok k cap meta key (S m) (Some p) ->
  core k cap (<[p := Some (key, v)]> ents) (SetMetaByte meta cap p (h2_of std_hash key)).
Proof.
  intros [Hsh Hst Hu Hr] Hm Habs (Hp & Hf & m0 & Hm0 & Hpm & Hfull).
  pose proof (h2_range key) as Hh. pose proof (st_len _ _ _ Hst) as Hlen.
  assert (Hmono : forall g, (g < 2 ^ k)%nat -> has_empty (SetMetaByte meta cap p (h2_of std_hash key)) g -> has_empty meta g).
  { intros g Hg. apply (has_empty_set k); [done|done|done|]. unfold TAG_EMPTY. lia. }
  split.
  - apply SetMetaByte_shape; [done|done|]. right; right. lia.
  - split; [by rewrite length_insert| |].
    + intros q Hq. rewrite key_at_insert, (SetMetaByte_at k) by (done || lia).
      destruct (decide (q = p)); [|by apply (st_live _ _ _ Hst)].
      cbn. unfold full. split; [by eexists|lia].
    + intros q key' Hq. rewrite key_at_insert in Hq by lia.
      pose proof (SetMetaByte_at k cap meta p (h2_of std_hash key) q Hsh Hp) as Hat.
      destruct (decide (q = p)) as [->|Hne].
      * cbn in Hq. injection Hq as <-. by apply Hat.
      * pose proof (key_at_lt _ _ _ Hq). rewrite Hat by lia. by apply (st_tag _ _ _ Hst).
  - intros q1 q2 key'. rewrite !key_at_insert by lia.
    destruct (decide (q1 = p)) as [->|], (decide (q2 = p)) as [->|]; cbn; try done.
    + intros [= <-] H2. by apply Habs in H2.
    + intros H1 [= <-]. by apply Habs in H1.
    + apply Hu.
  - intros q key'. rewrite key_at_insert by lia. destruct (decide (q = p)) as [->|Hne]; cbn.
    + intros [= <-]. exists m0. split; [lia|]. split; [done|]. intros j Hj He.
      apply Hmono in He; [|apply pg_lt]. by apply (all_full_no_empty meta _ (Hfull j Hj)).
    + intros Hq. destruct (Hr q key' Hq) as (i & Hi & Hqi & Hb). exists i. split_and!; [done|done|].
      intros j Hj He. apply (Hb j Hj). apply Hmono; [apply pg_lt|done].
Qed.

(** A slot may be given back as empty when its group already has one. *)
Lemma remove_core k cap ents meta key p tag :
  core k cap ents meta -> key_at ents p = Some key ->
  (tag = TAG_DELETED \/ tag = TAG_EMPTY /\ has_empty meta (p / 8)) ->
  core k cap (<[p := None]> ents) (SetMetaByte meta cap p tag).
Proof.
  intros [Hsh Hst Hu Hr] Hk Htag. pose proof (key_at_lt _ _ _ Hk) as Hp. pose proof (st_len _ _ _ Hst) as Hlen.
  assert (Hpc : (p < cap)%nat) by lia.
  assert (Hmono : forall g, (g < 2 ^ k)%nat -> has_empty (SetMetaByte meta cap p tag) g -> has_empty meta g).
  { intros g Hg. destruct Htag as [->|[-> He]]; [by apply (has_empty_set k)|].
    intros (l & Hl & Hat). rewrite (SetMetaByte_at k) in Hat by (done || by apply (group_base_lt k cap meta)).
    destruct (decide _) as [E|]; [|by exists l]. by rewrite <- E, group_of_index in He. }
  assert (Hvt : valid_tag tag) by (destruct Htag as [->|[-> _]]; unfold valid_tag; auto).
  assert (Hnf : full tag = false) by (by destruct Htag as [->|[-> _]]).
  split.
  - by apply SetMetaByte_shape.
  - split; [by rewrite length_insert| |].
    + intros q Hq. rewrite key_at_insert, (SetMetaByte_at k) by (done || lia).
      destruct (decide (q = p)); [|by apply (st_live _ _ _ Hst)].
      rewrite Hnf. cbn. split; [done|by intros [? ?]].
    + intros q key' Hq. rewrite key_at_insert in Hq by lia. destruct (decide (q = p)) as [->|Hne]; [done|].
      pose proof (key_at_lt _ _ _ Hq). rewrite (SetMetaByte_at k) by (done || lia).
      destruct (decide _); [done|]. by apply (st_tag _ _ _ Hst).
  - intros q1 q2 key'. rewrite !key_at_insert by lia.
    destruct (decide (q1 = p)) as [->|], (decide (q2 = p)) as [->|]; cbn; try done. apply Hu.
  - intros q key'. rewrite key_at_insert by lia. destruct (decide (q = p)) as [->|Hne]; [done|]. intros Hq.
    destruct (Hr q key' Hq) as (i & Hi & Hqi & Hb). exists i. split_and!; [done|done|].
    intros j Hj He. apply (Hb j Hj). apply Hmono; [apply pg_lt|done].
Qed.

Lemma valid_ext k cap meta q : shape k cap meta -> (q < cap + 8)%nat -> valid_tag (at_ meta q).
Proof.
  intros [Hc Hl Hv Hm] Hq. pose proof (pow2_pos k). destruct (decide (q < cap)%nat); [by apply Hv|].
  replace q with (cap + (q - cap))%nat by lia. rewrite Hm by lia. apply Hv. lia.
Qed.

(** [countr_zero(MatchEmpty(w)) / 8] and [countl_zero(MatchEmpty(w)) / 8]. *)
Lemma after_run k cap meta b :
  shape k cap meta -> (b <= cap)%nat ->
  let n := (countr_zero (MatchEmpty (word_at meta b)) / 8)%nat in
  (n < 8)%nat -> at_ meta (b + n) = TAG_EMPTY.
Proof.
  intros Hsh Hb n Hn. assert (Hlen : (b + 8 <= length meta)%nat) by (destruct Hsh as [_ -> _ _]; lia).
  assert (Hv : forall l, (l < 8)%nat -> valid_tag (at_ meta (b + l))) by (intros l Hl; apply (valid_ext k cap); [done|lia]).
  unfold n, word_at in *. fold (lanes meta b) in *.
  rewrite MatchEmpty_lanes in * by (by apply lanes_length || apply lanes_bytes).
  rewrite countr_zero_run in * by (by rewrite length_map, lanes_length).
  destruct (Z.eq_dec (mask_of (map top_bits (lanes meta b))) 0) as [E|E].
  { exfalso. apply mask_of_zero in E.
    assert (Hl : length (map top_bits (lanes meta b)) = 8%nat) by (by rewrite length_map, lanes_length).
    enough (first_true (map top_bits (lanes meta b)) = 8)%nat by lia. rewrite <- Hl. clear -E.
    induction E as [|m r -> _ IH]; [done|]. cbn. by rewrite IH. }
  apply first_true_lt in E as [H1 H2]. rewrite list_lookup_fmap, lanes_lookup in H2 by (done || lia).
  cbn in H2. injection H2 as H2. destruct (valid_cases _ (Hv _ Hn)) as [X|[X|X]]; intuition congruence.
Qed.

Lemma before_run k cap meta b :
  shape k cap meta -> (b <= cap)%nat ->
  let n := (countl_zero (MatchEmpty (word_at meta b)) / 8)%nat in
  (n < 8)%nat -> at_ meta (b + (7 - n)) = TAG_EMPTY.
Proof.
  intros Hsh Hb n Hn. assert (Hlen : (b + 8 <= length meta)%nat) by (destruct Hsh as [_ -> _ _]; lia).
  assert (Hv : forall l, (l < 8)%nat -> valid_tag (at_ meta (b + l))) by (intros l Hl; apply (valid_ext k cap); [done|lia]).
  unfold n, word_at in *. fold (lanes meta b) in *.
  rewrite MatchEmpty_lanes in * by (by apply lanes_length || apply lanes_bytes).
  rewrite countl_zero_mask in * by (by rewrite length_map, lanes_length).
  pose proof (last_true_spec (map top_bits (lanes meta b))) as H.
  destruct (last_true _) as [i|]; [|lia]. destruct H as [H _]. pose proof (lookup_lt_Some _ _ _ H) as Hi.
  rewrite length_map, lanes_length in Hi by done. rewrite list_lookup_fmap, lanes_lookup in H by done.
  cbn in H. injection H as H. replace (7 - (7 - i))%nat with i by lia.
  destruct (valid_cases _ (Hv _ Hi)) as [X|[X|X]]; intuition congruence.
Qed.

(** Erase's test: a run of fewer than eight non-empty slots around [p] leaves an
    empty one inside [p]'s own group. *)
Lemma erase_test k cap meta p :
  shape k cap meta -> (p < cap)%nat ->
  let before := (countl_zero (MatchEmpty (word_at meta (Nat.land (p + cap - GROUP_WIDTH) (cap - 1)))) / 8)%nat in
  let after := (countr_zero (MatchEmpty (word_at meta p)) / 8)%nat in
  (before + after < 8)%nat -> has_empty meta (p / 8).
Proof.
  intros Hsh Hp before after Hrun. pose proof Hsh as [Hc Hl Hv Hm]. pose proof (pow2_pos k).
  destruct (position_group k cap meta Hsh p Hp) as (Hg & Ep & Hmod). unfold GROUP_WIDTH in *.
  destruct (decide (after < 8 - p mod 8)%nat) as [Ha|Ha].
  - pose proof (after_run k cap meta p Hsh ltac:(lia)) as He. fold after in He. cbv zeta in He.
    exists (p mod 8 + after)%nat. split; [lia|]. unfold GROUP_WIDTH.
    replace (p / 8 * 8 + (p mod 8 + after))%nat with (p + after)%nat by lia. apply He. lia.
  - assert (Eland : (8 <= p)%nat /\ Nat.land (p + cap - 8) (cap - 1) = (p - 8)%nat \/
                    (p < 8)%nat /\ Nat.land (p + cap - 8) (cap - 1) = (p + cap - 8)%nat).
    { assert (Ec : cap = (2 ^ (3 + k))%nat) by (by rewrite Hc, Nat.pow_add_r).
      assert (El : Nat.land (p + cap - 8) (cap - 1) = ((p + cap - 8) mod cap)%nat)
        by (rewrite Ec at 2; rewrite land_mask, <- Ec; done).
      rewrite El. destruct (decide (8 <= p)%nat); [left|right]; (split; [lia|]).
      - replace (p + cap - 8)%nat with (p - 8 + 1 * cap)%nat by lia.
        rewrite Nat.Div0.mod_add. apply Nat.mod_small. lia.
      - apply Nat.mod_small. lia. }
    assert (Hb : (before < p mod 8)%nat) by lia.
    exists (p mod 8 - 1 - before)%nat. split; [lia|]. unfold GROUP_WIDTH, before in *.
    destruct Eland as [[H8 Eland]|[H8 Eland]]; rewrite Eland in *.
    + pose proof (before_run k cap meta (p - 8) Hsh ltac:(lia)) as He. cbv zeta in He.
      rewrite <- He by lia. f_equal. lia.
    + pose proof (before_run k cap meta (p + cap - 8) Hsh ltac:(lia)) as He. cbv zeta in He.
      rewrite <- He by lia. set (n := (countl_zero (MatchEmpty (word_at meta (p + cap - 8))) / 8)%nat) in *.
      assert (E0 : (p / 8 = 0)%nat) by (apply Nat.div_small; lia). rewrite E0 in *.
      replace (p + cap - 8 + (7 - n))%nat with (cap + (p - 1 - n))%nat by lia.
      rewrite Hm by lia. f_equal. lia.
Qed.

End walk.

(** ** Counting control bytes *)

Fixpoint cnt (f : Z -> bool) (l : bytes) : nat :=
  match l with
  | [] => O
  | x :: r => (Nat.b2n (f x) + cnt f r)%nat
  end.

Definition is_deleted (m : Z) : bool := m =? TAG_DELETED.

Lemma cnt_insert f l p x y :
  l !! p = Some x -> (cnt f (<[p := y]> l) + Nat.b2n (f x) = cnt f l + Nat.b2n (f y))%nat.
Proof.
  revert p. induction l as [|z l IH]; intros [|p]; simpl; try done.
  - intros [= ->]. lia.
  - intros Hp. specialize (IH p Hp). lia.
Qed.

Lemma cnt_replicate f n x : cnt f (replicate n x) = (n * Nat.b2n (f x))%nat.
Proof. induction n as [|n IH]; cbn [replicate cnt]; lia. Qed.

Lemma cnt_find_empty l :
  Forall valid_tag l -> (cnt full l + cnt is_deleted l < length l)%nat -> exists p, l !! p = Some TAG_EMPTY.
Proof.
  induction 1 as [|x l Hx _ IH]; cbn [cnt length]; [lia|]. intros Hc.
  destruct (valid_cases x Hx) as [(-> & _)|[(Ex & _ & _ & Hf & _)|(Hr & _ & _ & Hf & _)]].
  - by exists 0%nat.
  - rewrite Hf, Ex in Hc. cbn in Hc. destruct IH as [p Hp]; [lia|]. by exists (S p).
  - rewrite Hf in Hc. unfold is_deleted at 1 in Hc. unfold TAG_DELETED in Hc.
    replace (x =? 128) with false in Hc by lia. cbn in Hc. destruct IH as [p Hp]; [lia|]. by exists (S p).
Qed.

Lemma cnt_le f l : (cnt f l <= length l)%nat.
Proof. induction l as [|x l IH]; cbn [cnt length]; [lia|]. destruct (f x); cbn; lia. Qed.

Lemma take_SetMetaByte k cap meta p tag :
  shape k cap meta -> (p < cap)%nat -> take cap (SetMetaByte meta cap p tag) = <[p := tag]> (take cap meta).
Proof.
  intros [_ Hl _ _] Hp. unfold SetMetaByte. cbv zeta. destruct (p <? GROUP_WIDTH)%nat.
  - rewrite take_insert_ge by lia. by rewrite take_insert_lt.
  - by rewrite take_insert_lt.
Qed.

Lemma take_meta_lookup k cap meta p :
  shape k cap meta -> (p < cap)%nat -> take cap meta !! p = Some (at_ meta p).
Proof.
  intros [_ Hl _ _] Hp. rewrite lookup_take_lt by done.
  destruct (lookup_lt_is_Some_2 meta p) as [x Hx]; [lia|]. by rewrite (at_lookup _ _ _ Hx).
Qed.

Lemma exists_empty k cap meta :
  shape k cap meta -> (cnt full (take cap meta) + cnt is_deleted (take cap meta) < cap)%nat ->
  exists g, (g < 2 ^ k)%nat /\ has_empty meta g.
Proof.
  intros Hsh Hc. pose proof Hsh as [_ Hl _ _].
  assert (Hlen : length (take cap meta) = cap) by (rewrite length_take; lia).
  destruct (cnt_find_empty (take cap meta)) as [p Hp]; [|lia|].
  - apply Forall_lookup. intros q x Hq. pose proof (lookup_lt_Some _ _ _ Hq) as Hlt. rewrite Hlen in Hlt.
    rewrite (take_meta_lookup k) in Hq by done. injection Hq as <-. by apply (sh_valid _ _ _ Hsh).
  - pose proof (lookup_lt_Some _ _ _ Hp) as Hlt. rewrite Hlen in Hlt.
    rewrite (take_meta_lookup k) in Hp by done. injection Hp as Hp.
    destruct (position_group k cap meta Hsh p Hlt) as (Hg & Ep & Hm). exists (p / 8)%nat. split; [done|].
    exists (p mod 8)%nat. split; [done|]. by rewrite <- Ep.
Qed.

(** ** The abstract map *)

Section map.
Context {K V : Type} `{Countable K}.
Implicit Types (ents : list (option (K * V))).

Definition contents ents : gmap K V :=
  foldr (fun e m => match e with Some (k, v) => <[k := v]> m | None => m end) ∅ ents.

Definition uniq ents : Prop :=
  forall p q key, key_at ents p = Some key -> key_at ents q = Some key -> p = q.

Lemma key_at_entry ents p key : key_at ents p = Some key <-> exists v, ents !! p = Some (Some (key, v)).
Proof.
  unfold key_at. destruct (ents !! p) as [[[k v]|]|]; cbn.
  - split; [intros [= ->]; by exists v|by intros (? & [= -> _])].
  - split; [done|by intros (? & ?)].
  - split; [done|by intros (? & ?)].
Qed.

Lemma contents_Some ents key v :
  uniq ents -> contents ents !! key = Some v <-> exists p, ents !! p = Some (Some (key, v)).
Proof.
  induction ents as [|e ents IH]; intros Hu; [cbn; rewrite lookup_empty; split; [done|by intros ([|?] & ?)]|].
  assert (Hu' : uniq ents) by (intros p q k Hp Hq; specialize (Hu (S p) (S q) k Hp Hq); lia).
  specialize (IH Hu'). cbn. fold (contents ents). destruct e as [[k w]|].
  - destruct (decide (k = key)) as [->|Hne].
    + rewrite lookup_insert_eq. split; [intros [= ->]; by exists 0%nat|].
      intros ([|p] & Hp); [by injection Hp as ->|].
      exfalso. enough (0%nat = S p) by lia. apply (Hu 0%nat (S p) key); [done|].
      apply key_at_entry. by exists v.
    + rewrite lookup_insert_ne by done. rewrite IH. split; [intros (p & Hp); by exists (S p)|].
      intros ([|p] & Hp); [injection Hp; congruence|by exists p].
  - rewrite IH. split; [intros (p & Hp); by exists (S p)|]. intros ([|p] & Hp); [done|by exists p].
Qed.

Lemma contents_None ents key : uniq ents -> (forall p, key_at ents p <> Some key) -> contents ents !! key = None.
Proof.
  intros Hu Habs. apply eq_None_not_Some. intros [v Hv]. apply contents_Some in Hv as [p Hp]; [|done].
  apply (Habs p), key_at_entry. by exists v.
Qed.

Lemma contents_eq ents (m : gmap K V) :
  uniq ents -> (forall key v, m !! key = Some v <-> exists p, ents !! p = Some (Some (key, v))) -> contents ents = m.
Proof. intros Hu Hm. apply map_eq. intros key. apply option_eq. intros v. by rewrite contents_Some, Hm. Qed.

Lemma contents_insert ents p key v :
  uniq ents -> uniq (<[p := Some (key, v)]> ents) -> (p < length ents)%nat ->
  (key_at ents p = None \/ key_at ents p = Some key) ->
  contents (<[p := Some (key, v)]> ents) = <[key := v]> (contents ents).
Proof.
  intros Hu Hu' Hp Hold. apply contents_eq; [done|]. intros key' v'. destruct (decide (key' = key)) as [->|Hne].
  - rewrite lookup_insert_eq. split.
    + intros [= <-]. exists p. by apply list_lookup_insert_eq.
    + intros (q & Hq). enough (q = p) as ->.
      { rewrite list_lookup_insert_eq in Hq by done. congruence. }
      apply (Hu' q p key); apply key_at_entry; [by exists v'|]. exists v. by apply list_lookup_insert_eq.
  - rewrite lookup_insert_ne, contents_Some by done. split; intros (q & Hq); exists q.
    + destruct (decide (q = p)) as [->|]; [|by rewrite list_lookup_insert_ne].
      exfalso. assert (key_at ents p = Some key') by (apply key_at_entry; by exists v'). destruct Hold; congruence.
    + destruct (decide (q = p)) as [->|]; [|by rewrite list_lookup_insert_ne in Hq].
      rewrite list_lookup_insert_eq in Hq by done. congruence.
Qed.

Lemma contents_delete ents p key :
  uniq ents -> uniq (<[p := None]> ents) -> key_at ents p = Some key ->
  contents (<[p := None]> ents) = delete key (contents ents).
Proof.
  intros Hu Hu' Hk. pose proof (key_at_lt _ _ _ Hk) as Hp. apply contents_eq; [done|].
  intros key' v'. destruct (decide (key' = key)) as [->|Hne].
  - rewrite lookup_delete_eq. split; [done|]. intros (q & Hq). exfalso.
    destruct (decide (q = p)) as [->|Hqp]; [by rewrite list_lookup_insert_eq in Hq|].
    rewrite list_lookup_insert_ne in Hq by done. apply Hqp. apply (Hu q p key); [|done].
    apply key_at_entry. by exists v'.
  - rewrite lookup_delete_ne, contents_Some by done. split; intros (q & Hq); exists q.
    + rewrite list_lookup_insert_ne; [done|]. intros ->. apply key_at_entry in Hk as [w Hw]. congruence.
    + destruct (decide (q = p)) as [->|Hqp]; [by rewrite list_lookup_insert_eq in Hq|].
      by rewrite list_lookup_insert_ne in Hq.
Qed.

End map.

(** ** Operations on a table with room *)

Section ops.
Context {K V : Type} `{Countable K} (std_hash : K -> Z).
Implicit Types (t : @table K V) (key : K) (v : V).

Definition counted (cap : nat) (meta : bytes) (size deleted : nat) : Prop :=
  size = cnt full (take cap meta) /\ deleted = cnt is_deleted (take cap meta).

(** The representation invariant: the arrays are well formed, every key is where
    its walk finds it, and the counters are exact. *)
Definition inv_at (k : nat) t : Prop :=
  core std_hash k (capacity_ t) (entries_ t) (meta_ t) /\
  counted (capacity_ t) (meta_ t) (size_ t) (deletedCount_ t) /\
  (initialBucketCapacity_ t <= capacity_ t)%nat.

(** ... and there is an empty slot, so that every walk ends. *)
Definition inv t : Prop := exists k, inv_at k t /\ (size_ t + deletedCount_ t < capacity_ t)%nat.

Definition map_of t : gmap K V := contents (entries_ t).

Lemma inv_empty k t :
  inv_at k t -> (size_ t + deletedCount_ t < capacity_ t)%nat ->
  exists g, (g < 2 ^ k)%nat /\ has_empty (meta_ t) g.
Proof.
  intros (Hc & [Hs Hd] & _) Hlt. apply (exists_empty k (capacity_ t)); [apply (co_shape _ _ _ _ _ Hc)|]. by rewrite <- Hs, <- Hd.
Qed.

Lemma value_at ents p key :
  key_at ents p = Some key -> uniq ents -> (snd <$> mjoin (ents !! p) : option V) = contents ents !! key.
Proof.
  intros Hk Hu. apply key_at_entry in Hk as [v Hv]. rewrite Hv. cbn. symmetry.
  apply contents_Some; [done|]. by exists p.
Qed.

(** Assigning the value of a stored entry. *)
Lemma alter_entry (ents : list (option (K * V))) (f : V -> V) p key w :
  ents !! p = Some (Some (key, w)) ->
  alter (fmap (fun e => (fst e, f (snd e)))) p ents = <[p := Some (key, f w)]> ents.
Proof.
  intros Hw. apply list_eq. intros q. destruct (decide (q = p)) as [->|Hne].
  - rewrite list_lookup_alter_eq, Hw, list_lookup_insert_eq by (by eapply lookup_lt_Some). done.
  - by rewrite list_lookup_alter_ne, list_lookup_insert_ne by done.
Qed.

Definition with_entries (ents : list (option (K * V))) (t : @table K V) : table :=
  Table ents (meta_ t) (capacity_ t) (initialBucketCapacity_ t) (size_ t) (deletedCount_ t).

Lemma set_value_spec k t p key w v :
  inv_at k t -> entries_ t !! p = Some (Some (key, w)) ->
  let t' := with_entries (<[p := Some (key, v)]> (entries_ t)) t in
  inv_at k t' /\ map_of t' = <[key := v]> (map_of t).
Proof.
  intros (Hc & Hn & Hini) Hw. pose proof (lookup_lt_Some _ _ _ Hw) as Hp.
  assert (Hkeys : forall q, key_at (<[p := Some (key, v)]> (entries_ t)) q = key_at (entries_ t) q).
  { intros q. rewrite key_at_insert by done. destruct (decide (q = p)) as [->|]; [|done]. unfold key_at. by rewrite Hw. }
  assert (Hc' : core std_hash k (capacity_ t) (<[p := Some (key, v)]> (entries_ t)) (meta_ t)).
  { destruct Hc as [C1 [S1 S2 S3] C3 C4]. split; [done| | |].
    - split; [by rewrite length_insert|intros q Hq; rewrite Hkeys; by apply S2|intros q k'; rewrite Hkeys; apply S3].
    - intros q1 q2 k'. rewrite !Hkeys. apply C3.
    - intros q k'. rewrite Hkeys. apply C4. }
  split; [by split_and!|].
  apply contents_insert; [exact (co_unique _ _ _ _ _ Hc)|exact (co_unique _ _ _ _ _ Hc')|done|].
  right. unfold key_at. by rewrite Hw.
Qed.

Lemma get_table_spec key t : inv t -> get_table std_hash key t = Ret (map_of t !! key).
Proof.
  intros (k & Hi & Hlt). destruct (inv_empty k t Hi Hlt) as (g & Hg & He). destruct Hi as (Hc & _).
  unfold get_table, map_of. destruct (FindSlot_cases std_hash k _ _ _ key g Hc Hg He) as
    [(p & h2 & -> & Hk)|(p & m & -> & Habs & _)]; cbn.
  - f_equal. apply value_at; [done|exact (co_unique _ _ _ _ _ Hc)].
  - symmetry. f_equal. apply contents_None; [exact (co_unique _ _ _ _ _ Hc)|done].
Qed.

Lemma erase_table_spec key t :
  inv t -> exists t', erase_table std_hash key t = Ret (t', bool_decide (is_Some (map_of t !! key))) /\
    inv t' /\ map_of t' = delete key (map_of t) /\ capacity_ t' = capacity_ t.
Proof.
  intros (k & Hi & Hlt). destruct (inv_empty k t Hi Hlt) as (g & Hg & He). pose proof Hi as (Hc & [Hs Hd] & Hini).
  unfold erase_table, map_of. destruct (FindSlot_cases std_hash k _ _ _ key g Hc Hg He) as
    [(p & h2 & -> & Hk)|(p & m & -> & Habs & _)]; cbn [obind s_found s_pos negb].
  - set (ts := (GROUP_WIDTH <=? _)%nat). set (tag := if ts then TAG_DELETED else TAG_EMPTY).
    pose proof (key_at_lt _ _ _ Hk) as Hp. pose proof (st_len _ _ _ _ (co_stored _ _ _ _ _ Hc)) as Hlen.
    assert (Hpc : (p < capacity_ t)%nat) by lia.
    pose proof (co_shape _ _ _ _ _ Hc) as Hsh.
    assert (Htag : tag = TAG_DELETED \/ tag = TAG_EMPTY /\ has_empty (meta_ t) (p / 8)).
    { unfold tag. destruct ts eqn:Ets; [by left|right]. split; [done|].
      apply (erase_test k (capacity_ t)); [done|done|]. by apply Nat.leb_gt in Ets. }
    pose proof (remove_core std_hash k _ _ _ key p tag Hc Hk Htag) as Hc'.
    eexists. split.
    { rewrite bool_decide_eq_true_2; [reflexivity|]. rewrite <- (value_at _ p key Hk) by exact (co_unique _ _ _ _ _ Hc).
      apply key_at_entry in Hk as [v ->]. by eexists. }
    assert (Hold : full (at_ (meta_ t) p) = true)
      by (apply (st_live _ _ _ _ (co_stored _ _ _ _ _ Hc)); [done|by rewrite Hk]).
    pose proof (take_meta_lookup k _ _ p Hsh Hpc) as Hlk.
    pose proof (cnt_insert full _ p _ tag Hlk) as Hcf. pose proof (cnt_insert is_deleted _ p _ tag Hlk) as Hcd.
    rewrite Hold in Hcf. assert (Hnd : is_deleted (at_ (meta_ t) p) = false)
      by (unfold is_deleted, TAG_DELETED; unfold full in Hold; lia).
    rewrite Hnd in Hcd. assert (Hft : full tag = false) by (unfold tag; by destruct ts).
    assert (Hdt : is_deleted tag = ts) by (unfold tag; by destruct ts). rewrite Hft in Hcf. rewrite Hdt in Hcd.
    cbn [Nat.b2n] in *. split; [|split; [|done]].
    + exists k. unfold inv_at, counted. cbn [entries_ meta_ capacity_ initialBucketCapacity_ size_ deletedCount_].
      rewrite (take_SetMetaByte k) by done. fold tag. destruct ts; cbn [Nat.b2n] in *; split_and!; try done; lia.
    + apply contents_delete; [exact (co_unique _ _ _ _ _ Hc)|exact (co_unique _ _ _ _ _ Hc')|done].
  - exists t. assert (Hnone : contents (entries_ t) !! key = None) by (apply contents_None; [exact (co_unique _ _ _ _ _ Hc)|done]).
    rewrite Hnone. split; [by rewrite bool_decide_eq_false_2 by (by intros [? ?])|].
    split; [by exists k|]. split; [by rewrite delete_id|done].
Qed.

(** What an insertion may leave, when there was room for it. *)
Lemma insert_step_spec key v ow t :
  (exists k, inv_at k t) -> (size_ t + deletedCount_ t + 1 < capacity_ t)%nat ->
  exists t', insert_step std_hash key v ow t =
      Ret (t', if ow then v else default v (map_of t !! key)) /\
    inv t' /\ map_of t' = (if ow then <[key := v]> (map_of t)
                          else <[key := default v (map_of t !! key)]> (map_of t)).
Proof.
  intros (k & Hi) Hlt. destruct (inv_empty k t Hi ltac:(lia)) as (g & Hg & He). pose proof Hi as (Hc & [Hs Hd] & Hini).
  pose proof (st_len _ _ _ _ (co_stored _ _ _ _ _ Hc)) as Hlen. pose proof (co_shape _ _ _ _ _ Hc) as Hsh.
  unfold insert_step, map_of. destruct (FindSlot_cases std_hash k _ _ _ key g Hc Hg He) as
    [(p & h2 & -> & Hk)|(p & m & -> & Habs & Hm & Hins)]; cbn [obind s_found s_pos s_h2].
  - pose proof (value_at _ p key Hk (co_unique _ _ _ _ _ Hc)) as Hv. apply key_at_entry in Hk as [w Hw].
    pose proof (lookup_lt_Some _ _ _ Hw) as Hp. rewrite Hw in Hv. cbn in Hv. destruct ow.
    + rewrite (alter_entry _ (fun _ => v) p key w Hw), list_lookup_insert_eq by done. cbn.
      eexists. split; [reflexivity|]. destruct (set_value_spec k t p key w v Hi Hw) as [H1 H2].
      split; [exists k; split; [done|cbn; lia]|done].
    + rewrite Hw. cbn. exists t. rewrite <- Hv. split; [by destruct t|]. split; [exists k; split; [done|lia]|].
      cbn. rewrite insert_id; [done|]. by rewrite <- Hv.
  - pose proof (place_core std_hash k _ _ _ key v p m Hc Hm Habs Hins) as Hc'.
    destruct Hins as (Hpc & Hnf & _). pose proof (h2_range std_hash key) as Hh.
    assert (Hnone : contents (entries_ t) !! key = None) by (apply contents_None; [exact (co_unique _ _ _ _ _ Hc)|done]).
    pose proof (take_meta_lookup k _ _ p Hsh Hpc) as Hlk.
    pose proof (cnt_insert full _ p _ (h2_of std_hash key) Hlk) as Hcf.
    pose proof (cnt_insert is_deleted _ p _ (h2_of std_hash key) Hlk) as Hcd.
    replace (full (h2_of std_hash key)) with true in Hcf by (unfold full; lia).
    replace (is_deleted (h2_of std_hash key)) with false in Hcd by (unfold is_deleted, TAG_DELETED; lia).
    rewrite Hnf in Hcf. fold (is_deleted (at_ (meta_ t) p)).
    eexists. split; [rewrite Hnone; by destruct ow|]. split.
    + exists k. unfold inv_at, counted. cbn [entries_ meta_ capacity_ initialBucketCapacity_ size_ deletedCount_].
      rewrite (take_SetMetaByte k) by done. cbn [Nat.b2n] in *.
      destruct (is_deleted (at_ (meta_ t) p)); cbn [Nat.b2n] in *; split_and!; try done; lia.
    + cbn [entries_]. rewrite Hnone. cbn [default].
      assert (Hx : contents (<[p := Some (key, v)]> (entries_ t)) = <[key := v]> (contents (entries_ t))).
      { apply contents_insert; [exact (co_unique _ _ _ _ _ Hc)|exact (co_unique _ _ _ _ _ Hc')|lia|]. left.
        destruct (key_at (entries_ t) p) as [k'|] eqn:Ek; [|done]. exfalso.
        assert (full (at_ (meta_ t) p) = true); [|congruence].
        apply (st_live _ _ _ _ (co_stored _ _ _ _ _ Hc)); [done|by rewrite Ek]. }
      rewrite Hx. by destruct ow.
Qed.

(** ** The load factor *)

Lemma to_float_ge n : 0 < n -> 2 ^ Z.log2 n <= to_float n.
Proof.
  intros Hn. unfold to_float. cbv zeta. pose proof (Z.log2_spec n Hn) as [H1 H2].
  destruct (Z.leb_spec (Z.log2 n) 23) as [Hle|Hgt]; [done|].
  set (u := 2 ^ (Z.log2 n - 23)). assert (Hu : 0 < u) by (apply Z.pow_pos_nonneg; lia).
  assert (Eu : 2 ^ Z.log2 n = 2 ^ 23 * u) by (unfold u; rewrite <- Z.pow_add_r by lia; f_equal; lia).
  assert (Hq : 2 ^ 23 <= n / u) by (apply Z.div_le_lower_bound; lia).
  rewrite Eu. destruct (_ || _); nia.
Qed.

Lemma over_load_full a n : (2 ^ a <= n)%nat -> over_load n (2 ^ a) = true.
Proof.
  intros Hn. assert (Hp : (0 < 2 ^ a)%nat) by (apply Nat.neq_0_lt_0, Nat.pow_nonzero; lia).
  unfold over_load. pose proof (to_float_ge (Z.of_nat n) ltac:(lia)) as Hf.
  assert (Hl : 2 ^ Z.of_nat a <= 2 ^ Z.log2 (Z.of_nat n)).
  { apply Z.pow_le_mono_r; [lia|]. apply Z.log2_le_pow2; [lia|].
    apply Nat2Z.inj_le in Hn. rewrite Nat2Z.inj_pow in Hn. exact Hn. }
  apply Z.ltb_lt. rewrite Nat2Z.inj_pow. change (Z.of_nat 2) with 2.
  assert (0 < 2 ^ Z.of_nat a) by lia. lia.
Qed.

Lemma under_load k cap n : cap = (8 * 2 ^ k)%nat -> over_load n cap = false -> (n < cap)%nat.
Proof.
  intros -> Ho. destruct (Nat.le_gt_cases (8 * 2 ^ k) n) as [Hle|]; [|done].
  change (8 * 2 ^ k)%nat with (2 ^ 3 * 2 ^ k)%nat in *. rewrite <- Nat.pow_add_r in *.
  by rewrite over_load_full in Ho.
Qed.

(** ** Growing *)

Lemma lookup_replicate_at n x q : (q < n)%nat -> at_ (replicate n x) q = x.
Proof. intros Hq. unfold at_. by rewrite lookup_replicate_2. Qed.

Lemma fresh_core k cap :
  cap = (8 * 2 ^ k)%nat ->
  core std_hash k cap (replicate cap None : list (option (K * V))) (replicate (cap + GROUP_WIDTH) TAG_EMPTY).
Proof.
  intros Hc. unfold GROUP_WIDTH.
  assert (Hnone : forall p, key_at (replicate cap None : list (option (K * V))) p = None).
  { intros p. unfold key_at. destruct (replicate cap _ !! p) as [e|] eqn:E; [|done].
    by apply lookup_replicate in E as [-> _]. }
  split.
  - split; [done|by rewrite length_replicate| |].
    + intros p Hp. rewrite lookup_replicate_at by lia. by left.
    + intros p Hp. pose proof (pow2_pos k). by rewrite !lookup_replicate_at by lia.
  - split; [by rewrite length_replicate| |].
    + intros p Hp. rewrite Hnone, lookup_replicate_at by lia. split; [done|by intros [? ?]].
    + intros p key Hp. by rewrite Hnone in Hp.
  - intros p q key Hp. by rewrite Hnone in Hp.
  - intros p key Hp. by rewrite Hnone in Hp.
Qed.

Lemma contents_replicate n : contents (replicate n None : list (option (K * V))) = ∅.
Proof. by induction n. Qed.

(** Moving the live entries of [old] into a table with room for them. *)
Lemma rehash_spec k cap (old : list (option (K * V))) oldMeta (ents : list (option (K * V))) meta :
  core std_hash k cap ents meta -> uniq old -> (length old <= length oldMeta)%nat ->
  (forall p, (p < length old)%nat -> IsFull (at_ oldMeta p) = true <-> is_Some (key_at old p)) ->
  (forall p q key, key_at old p = Some key -> key_at ents q <> Some key) ->
  cnt is_deleted (take cap meta) = 0%nat ->
  (cnt full (take cap meta) + cnt IsFull (take (length old) oldMeta) < cap)%nat ->
  exists ents' meta', rehash std_hash old oldMeta cap ents meta = Ret (ents', meta') /\
    core std_hash k cap ents' meta' /\ cnt is_deleted (take cap meta') = 0%nat /\
    cnt full (take cap meta') = (cnt full (take cap meta) + cnt IsFull (take (length old) oldMeta))%nat /\
    contents ents' = contents old ∪ contents ents.
Proof.
  revert oldMeta ents meta.
  induction old as [|e old IH]; intros oldMeta ents meta Hc Hu Hlen Hlive Hdis Hdel Hroom.
  { exists ents, meta. cbn [rehash take cnt length contents foldr]. split_and!; try done.
    - by rewrite (left_id_L ∅ (∪)). }
  destruct oldMeta as [|m oldMeta]; [cbn in Hlen; lia|].
  assert (Hu' : uniq old) by (intros p q key Hp Hq; specialize (Hu (S p) (S q) key Hp Hq); lia).
  assert (Hlen' : (length old <= length oldMeta)%nat) by (cbn in Hlen; lia).
  assert (Hlive' : forall p, (p < length old)%nat -> IsFull (at_ oldMeta p) = true <-> is_Some (key_at old p)).
  { intros p Hp. apply (Hlive (S p)). cbn. lia. }
  pose proof (Hlive 0%nat ltac:(cbn; lia)) as Hl0. change (at_ (m :: oldMeta) 0) with m in Hl0.
  cbn [rehash length take cnt] in *. destruct (IsFull m) eqn:Em; cbn [negb Nat.b2n] in *.
  2: { destruct e as [[key v]|]; [exfalso; by destruct Hl0 as [_ Hl0]; specialize (Hl0 (ex_intro _ key eq_refl))|].
       destruct (IH oldMeta ents meta Hc Hu' Hlen' Hlive' ltac:(intros p q key Hp; by apply (Hdis (S p))) Hdel ltac:(lia))
         as (ents' & meta' & -> & H1 & H2 & H3 & H4). exists ents', meta'. split_and!; try done; lia. }
  destruct Hl0 as [Hl0 _]. destruct (Hl0 eq_refl) as [key Hkey].
  destruct e as [[k0 v]|]; [|done]. cbn in Hkey. injection Hkey as ->.
  pose proof (co_shape _ _ _ _ _ Hc) as Hsh.
  destruct (exists_empty k cap meta Hsh ltac:(lia)) as (g & Hg & He).
  destruct (FindSlot_cases std_hash k cap ents meta key g Hc Hg He) as
    [(p & h2 & _ & Hk)|(p & m0 & -> & Habs & Hm & Hins)]; [by apply (Hdis 0%nat p key) in Hk|].
  cbn [obind s_pos s_h2].
  pose proof (place_core std_hash k _ _ _ key v p m0 Hc Hm Habs Hins) as Hc'.
  destruct Hins as (Hpc & Hnf & _). pose proof (h2_range std_hash key) as Hh.
  pose proof (take_meta_lookup k _ _ p Hsh Hpc) as Hlk.
  pose proof (cnt_insert full _ p _ (h2_of std_hash key) Hlk) as Hcf.
  pose proof (cnt_insert is_deleted _ p _ (h2_of std_hash key) Hlk) as Hcd.
  replace (full (h2_of std_hash key)) with true in Hcf by (unfold full; lia).
  replace (is_deleted (h2_of std_hash key)) with false in Hcd by (unfold is_deleted, TAG_DELETED; lia).
  rewrite Hnf in Hcf. rewrite <- (take_SetMetaByte k) in Hcf, Hcd by done. cbn [Nat.b2n] in *.
  pose proof (st_len _ _ _ _ (co_stored _ _ _ _ _ Hc)) as Hel.
  destruct (IH oldMeta _ _ Hc' Hu' Hlen' Hlive') as (ents' & meta' & -> & H1 & H2 & H3 & H4).
  - intros q1 q2 key' Hq1. rewrite key_at_insert by lia. destruct (decide (q2 = p)) as [->|].
    + cbn. intros [= <-]. specialize (Hu 0%nat (S q1) key eq_refl Hq1). lia.
    + by apply (Hdis (S q1)).
  - lia.
  - lia.
  - exists ents', meta'. split_and!; [done|done|done|lia|]. rewrite H4. cbn. fold (contents old).
    rewrite contents_insert; [|exact (co_unique _ _ _ _ _ Hc)|exact (co_unique _ _ _ _ _ Hc')|lia|].
    + rewrite <- insert_union_l, insert_union_r; [done|]. apply contents_None; [done|].
      intros q Hq. specialize (Hu 0%nat (S q) key eq_refl Hq). lia.
    + left. destruct (key_at ents p) as [k'|] eqn:Ek; [|done]. exfalso.
      assert (full (at_ meta p) = true); [|congruence].
      apply (st_live _ _ _ _ (co_stored _ _ _ _ _ Hc)); [done|by rewrite Ek].
Qed.

(** The allocator serves a table twice this size. *)
Definition memory_ok (entry_size : Z) (Alloc_ok : Z -> bool) t : Prop :=
  (forall n, Alloc_ok n = true) /\ 0 < entry_size /\ 2 * Z.of_nat (capacity_ t) * entry_size < 2 ^ 63.

Lemma bit_ceil_pow2 a : bit_ceil (2 ^ a) = (2 ^ a)%nat.
Proof. unfold bit_ceil. by rewrite Nat.log2_up_pow2 by lia. Qed.

Lemma checked_alloc_ok (Alloc_ok : Z -> bool) n sz :
  (forall n, Alloc_ok n = true) -> 0 < sz -> Z.of_nat n * sz < 2 ^ 64 -> checked_alloc Alloc_ok n sz = Ret true.
Proof.
  intros Ha Hs Hn. unfold checked_alloc. replace (_ <? _) with false; [by rewrite Ha|].
  symmetry. apply Z.ltb_ge. apply Z.div_le_lower_bound; lia.
Qed.

Lemma cnt_ext (f g : Z -> bool) l : Forall (fun x => f x = g x) l -> cnt f l = cnt g l.
Proof. induction 1 as [|x l Hx _ IH]; cbn [cnt]; [done|]. by rewrite Hx, IH. Qed.

Lemma take_meta_valid k cap meta : shape k cap meta -> Forall valid_tag (take cap meta).
Proof.
  intros Hsh. apply Forall_lookup. intros q x Hq. pose proof (lookup_lt_Some _ _ _ Hq) as Hlt.
  rewrite length_take in Hlt. rewrite (take_meta_lookup k) in Hq by (done || lia). injection Hq as <-.
  apply (sh_valid _ _ _ Hsh). lia.
Qed.

Lemma Resize_spec k entry_size Alloc_ok t :
  inv_at k t -> memory_ok entry_size Alloc_ok t -> (size_ t < capacity_ t)%nat ->
  exists t', Resize std_hash entry_size Alloc_ok 0 t = Ret (true, t') /\ inv_at (S k) t' /\
    map_of t' = map_of t /\ size_ t' = size_ t /\ deletedCount_ t' = 0%nat /\ capacity_ t' = (2 * capacity_ t)%nat.
Proof.
  intros (Hc & [Hs Hd] & Hini) (Hal & Hes & Hmem) Hlt. pose proof (co_shape _ _ _ _ _ Hc) as Hsh.
  pose proof (sh_cap _ _ _ Hsh) as Hcap. pose proof (pow2_pos k) as Hp2.
  assert (Hcz : 2 * Z.of_nat (capacity_ t) < 2 ^ 63) by nia.
  unfold Resize. replace (2 ^ 63 <? Z.of_nat (capacity_ t)) with false by lia. cbn [Nat.eqb andb].
  rewrite wrap_small by lia. replace (Z.to_nat (Z.of_nat (capacity_ t) * 2)) with (2 * capacity_ t)%nat by lia.
  replace (2 * capacity_ t <? initialBucketCapacity_ t)%nat with false by lia.
  replace (2 * capacity_ t <? capacity_ t)%nat with false by lia.
  replace (2 * capacity_ t <? GROUP_WIDTH)%nat with false by (unfold GROUP_WIDTH; lia).
  assert (Hnc : (2 * capacity_ t)%nat = (8 * 2 ^ S k)%nat) by (rewrite Nat.pow_succ_r'; lia).
  assert (Hbc : bit_ceil (2 * capacity_ t) = (2 * capacity_ t)%nat).
  { rewrite Hnc. change (8 * 2 ^ S k)%nat with (2 ^ 3 * 2 ^ S k)%nat. rewrite <- Nat.pow_add_r. apply bit_ceil_pow2. }
  rewrite Hbc, !checked_alloc_ok by (done || unfold GROUP_WIDTH; nia). cbn [obind negb].
  set (nc := (2 * capacity_ t)%nat) in *.
  pose proof (st_len _ _ _ _ (co_stored _ _ _ _ _ Hc)) as Hel.
  pose proof (fresh_core (S k) nc Hnc) as Hf.
  assert (Hfull0 : forall f, f TAG_EMPTY = false ->
    cnt f (take nc (replicate (nc + GROUP_WIDTH) TAG_EMPTY)) = 0%nat).
  { intros f Hfe. rewrite take_replicate, cnt_replicate, Hfe. cbn. lia. }
  assert (Hif : cnt IsFull (take (capacity_ t) (meta_ t)) = size_ t).
  { rewrite Hs. apply cnt_ext. eapply Forall_impl; [by eapply take_meta_valid|]. apply IsFull_full. }
  destruct (rehash_spec (S k) nc (entries_ t) (meta_ t) _ _ Hf (co_unique _ _ _ _ _ Hc))
    as (ents' & meta' & Hr & H1 & H2 & H3 & H4).
  - rewrite Hel. destruct Hsh as [_ -> _ _]. lia.
  - rewrite Hel. intros p Hp. rewrite IsFull_full by (by apply (sh_valid _ _ _ Hsh)).
    by apply (st_live _ _ _ _ (co_stored _ _ _ _ _ Hc)).
  - intros p q key _. unfold key_at. destruct (replicate nc _ !! q) as [e|] eqn:E; [|done].
    by apply lookup_replicate in E as [-> _].
  - by apply Hfull0.
  - rewrite Hfull0, Hel, Hif by done. lia.
  - rewrite Hr. cbn [obind fst snd]. eexists. split; [reflexivity|].
    rewrite Hfull0, Hel, Hif in H3 by done. split; [|split; [|split_and!; [done|done|done]]].
    + split; [exact H1|]. cbn [size_ deletedCount_ meta_ capacity_ initialBucketCapacity_].
      split; [split; lia|lia].
    + unfold map_of; cbn [entries_]. rewrite H4, contents_replicate. by rewrite (right_id_L ∅ (∪)).
Qed.

(** ** Compacting *)

(** Pass 1, on one control byte. *)
Definition demoted (m : Z) : Z := if full m then TAG_DELETED else TAG_EMPTY.

Lemma demote_at k cap meta i :
  shape k cap meta -> (i < cap)%nat ->
  shape k cap (demote cap meta i) /\
  forall q, (q < cap)%nat -> at_ (demote cap meta i) q = if decide (q = i) then demoted (at_ meta q) else at_ meta q.
Proof.
  intros Hsh Hi. unfold demote. pose proof (sh_valid _ _ _ Hsh i Hi) as Hv. rewrite IsFull_full by done.
  assert (Hset : forall tag, valid_tag tag -> demoted (at_ meta i) = tag ->
    shape k cap (SetMetaByte meta cap i tag) /\ forall q, (q < cap)%nat ->
    at_ (SetMetaByte meta cap i tag) q = if decide (q = i) then demoted (at_ meta q) else at_ meta q).
  { intros tag Ht Hd. split; [by apply SetMetaByte_shape|]. intros q Hq. rewrite (SetMetaByte_at k) by done.
    destruct (decide (q = i)) as [->|]; [by rewrite Hd|done]. }
  destruct (valid_cases _ Hv) as [(E & _ & _ & Hf & _)|[(E & _ & _ & Hf & _)|(E & _ & _ & Hf & _)]]; rewrite Hf.
  - replace (at_ meta i =? TAG_DELETED) with false by (by rewrite E). split; [done|].
    intros q Hq. destruct (decide (q = i)) as [->|]; [|done]. unfold demoted. by rewrite E.
  - replace (at_ meta i =? TAG_DELETED) with true by (by rewrite E). apply Hset; [by left|]. unfold demoted. by rewrite Hf.
  - apply Hset; [by right; left|]. unfold demoted. by rewrite Hf.
Qed.

Lemma demote_all k cap meta n :
  shape k cap meta -> (n <= cap)%nat ->
  let meta' := fold_left (demote cap) (seq 0 n) meta in
  shape k cap meta' /\
  forall q, (q < cap)%nat -> at_ meta' q = if decide (q < n)%nat then demoted (at_ meta q) else at_ meta q.
Proof.
  intros Hsh. induction n as [|n IH]; intros Hn meta'; [split; [done|]; intros q Hq; by destruct (decide _); [lia|]|].
  destruct IH as [IHs IHa]; [lia|]. unfold meta'. rewrite seq_S, fold_left_app. cbn [fold_left Nat.add].
  destruct (demote_at k cap _ n IHs ltac:(lia)) as [Hs Ha]. split; [done|].
  intros q Hq. rewrite Ha, IHa by done. repeat destruct (decide _); (done || lia).
Qed.

(** During pass 2: entries sit in the slots that are not empty, settled ones in
    the full slots, behind nothing but full groups. *)
Record mid (k cap : nat) (ents : list (option (K * V))) (meta : bytes) : Prop := {
  md_shape : shape k cap meta;
  md_len : length ents = cap;
  md_live : forall p, (p < cap)%nat -> at_ meta p <> TAG_EMPTY <-> is_Some (key_at ents p);
  md_tag : forall p key, key_at ents p = Some key -> full (at_ meta p) = true -> at_ meta p = h2_of std_hash key;
  md_unique : uniq ents;
  md_reach : forall p key, key_at ents p = Some key -> full (at_ meta p) = true ->
    exists i, (i < 2 ^ k)%nat /\ (p / 8)%nat = pg std_hash k key i /\
      forall j, (j < i)%nat -> all_full meta (pg std_hash k key j)
}.

Lemma avail_loop_spec k cap meta n i key :
  shape k cap meta -> (n + i = 2 ^ k)%nat -> (forall j, (j < i)%nat -> all_full meta (pg std_hash k key j)) ->
  match avail_loop std_hash n meta (2 ^ k - 1) (pg std_hash k key i) i key with
  | Ret (Slot p h2 fd) => h2 = h2_of std_hash key /\ fd = false /\ exists m, (m < 2 ^ k)%nat /\ insert_ok std_hash k cap meta key (S m) (Some p)
  | Fatal _ => forall j, (j < 2 ^ k)%nat -> all_full meta (pg std_hash k key j)
  end.
Proof.
  intros Hsh. revert i. induction n as [|n IH]; intros i Hn Hfull; cbn [avail_loop].
  { intros j Hj. apply Hfull. lia. }
  pose proof (insert_ok_step std_hash k cap meta key Hsh i None _ eq_refl Hfull) as Hins. cbv zeta in Hins.
  destruct (_ =? 0); cbn [negb].
  - replace (Nat.land (pg std_hash k key i + (i + 1)) (2 ^ k - 1)) with (pg std_hash k key (S i))
      by (unfold pg; by rewrite probe_step).
    replace (i + 1)%nat with (S i) by lia. apply IH; [lia|done].
  - split; [done|]. split; [done|]. exists i. split; [lia|done].
Qed.

(** As long as some slot is not full, a place is found. *)
Lemma FindAvailableSlot_spec k cap meta key q :
  shape k cap meta -> (q < cap)%nat -> full (at_ meta q) = false ->
  exists p m, FindAvailableSlot std_hash meta cap key = Ret (Slot p (h2_of std_hash key) false) /\
    (m < 2 ^ k)%nat /\ insert_ok std_hash k cap meta key (S m) (Some p).
Proof.
  intros Hsh Hq Hnf. unfold FindAvailableSlot. rewrite (groupMask_eq k cap meta Hsh). pose proof (pow2_pos k).
  replace (2 ^ k - 1 + 1)%nat with (2 ^ k)%nat by lia. rewrite <- pg_0.
  pose proof (avail_loop_spec k cap meta (2 ^ k) 0 key Hsh ltac:(lia) ltac:(intros j Hj; lia)) as Ha.
  destruct (avail_loop _ _ _ _ _ _ _) as [[p h2 fd]|e] eqn:E.
  - destruct Ha as (-> & -> & m & Hm & Hins). by exists p, m.
  - exfalso. destruct (position_group k cap meta Hsh q Hq) as (Hg & Ep & Hmod).
    destruct (probe_covers (first_group std_hash key (2 ^ k - 1)) k (q / 8) Hg) as (j & Hj & Hpj).
    specialize (Ha j Hj (q mod 8)%nat Hmod). unfold pg in Ha. rewrite Hpj, <- Ep in Ha. congruence.
Qed.

(** Only fullness matters to the groups before a slot. *)
Lemma all_full_ext k cap meta meta' g :
  shape k cap meta -> (g < 2 ^ k)%nat ->
  (forall q, (q < cap)%nat -> full (at_ meta q) = true -> full (at_ meta' q) = true) ->
  all_full meta g -> all_full meta' g.
Proof.
  intros Hsh Hg Hm Hf l Hl. apply Hm; [by apply (group_base_lt k cap meta)|by apply Hf].
Qed.

(** Where a key may be settled at slot [p]. *)
Definition place_for (k : nat) (meta : bytes) key (p : nat) : Prop :=
  exists i, (i < 2 ^ k)%nat /\ (p / 8)%nat = pg std_hash k key i /\
    forall j, (j < i)%nat -> all_full meta (pg std_hash k key j).

Lemma place_for_ext k cap meta meta' key p :
  shape k cap meta -> (forall q, (q < cap)%nat -> full (at_ meta q) = true -> full (at_ meta' q) = true) ->
  place_for k meta key p -> place_for k meta' key p.
Proof.
  intros Hsh Hm (i & Hi & Hp & Hf). exists i. split_and!; [done|done|]. intros j Hj.
  eapply all_full_ext; [exact Hsh|apply pg_lt|exact Hm|by apply Hf].
Qed.

Lemma mid_ext k cap ents meta meta' :
  mid k cap ents meta -> shape k cap meta' -> (forall q, (q < cap)%nat -> at_ meta' q = at_ meta q) ->
  mid k cap ents meta'.
Proof.
  intros [M1 M2 M3 M4 M5 M6] Hsh Heq. split; try done.
  - intros p Hp. rewrite Heq by done. by apply M3.
  - intros p key Hk. pose proof (key_at_lt _ _ _ Hk). rewrite Heq by lia. by apply M4.
  - intros p key Hk. pose proof (key_at_lt _ _ _ Hk). rewrite Heq by lia. intros Hf.
    apply (place_for_ext k cap meta); [done|intros q Hq; by rewrite Heq|by apply M6].
Qed.

(** Settling the entry that already lies at [p]. *)
Lemma mid_fill k cap ents meta p key :
  mid k cap ents meta -> key_at ents p = Some key -> full (at_ meta p) = false -> place_for k meta key p ->
  mid k cap ents (SetMetaByte meta cap p (h2_of std_hash key)).
Proof.
  intros [M1 M2 M3 M4 M5 M6] Hk Hnf Hpl. pose proof (key_at_lt _ _ _ Hk) as Hp. rewrite M2 in Hp.
  pose proof (h2_range std_hash key) as Hh.
  assert (Hat : forall q, (q < cap)%nat -> at_ (SetMetaByte meta cap p (h2_of std_hash key)) q =
    if decide (q = p) then h2_of std_hash key else at_ meta q) by (intros q Hq; by apply (SetMetaByte_at k)).
  assert (Hmono : forall q, (q < cap)%nat -> full (at_ meta q) = true ->
    full (at_ (SetMetaByte meta cap p (h2_of std_hash key)) q) = true).
  { intros q Hq Hf. rewrite Hat by done. destruct (decide (q = p)) as [->|]; [congruence|done]. }
  split.
  - apply SetMetaByte_shape; [done|done|]. right; right. lia.
  - done.
  - intros q Hq. rewrite Hat by done. destruct (decide (q = p)) as [->|]; [|by apply M3].
    rewrite Hk. split; [by eexists|]. unfold TAG_EMPTY. lia.
  - intros q key' Hq. pose proof (key_at_lt _ _ _ Hq). rewrite Hat by lia. destruct (decide (q = p)) as [->|]; [|by apply M4].
    congruence.
  - done.
  - intros q key' Hq. pose proof (key_at_lt _ _ _ Hq). rewrite Hat by lia. intros Hf.
    apply (place_for_ext k cap meta); [done|exact Hmono|].
    destruct (decide (q = p)) as [->|]; [|by apply M6]. by rewrite Hk in Hq; injection Hq as <-.
Qed.

Definition transpose (a b q : nat) : nat :=
  if decide (q = a) then b else if decide (q = b) then a else q.

Lemma transpose_inj a b q1 q2 : transpose a b q1 = transpose a b q2 -> q1 = q2.
Proof. unfold transpose. repeat destruct (decide _); lia. Qed.

Lemma transpose_lt a b q n : (a < n)%nat -> (b < n)%nat -> (q < n)%nat -> (transpose a b q < n)%nat.
Proof. unfold transpose. repeat destruct (decide _); lia. Qed.

(** Exchanging two unsettled slots. *)
Lemma mid_swap k cap ents ents' meta meta' a b :
  mid k cap ents meta -> (a < cap)%nat -> (b < cap)%nat ->
  full (at_ meta a) = false -> full (at_ meta b) = false ->
  length ents' = cap -> (forall q, key_at ents' q = key_at ents (transpose a b q)) ->
  shape k cap meta' -> (forall q, (q < cap)%nat -> at_ meta' q = at_ meta (transpose a b q)) ->
  mid k cap ents' meta'.
Proof.
  intros [M1 M2 M3 M4 M5 M6] Ha Hb Hfa Hfb Hl Hk Hsh Hat.
  assert (Hfix : forall q, (q < cap)%nat -> full (at_ meta' q) = true -> transpose a b q = q /\ at_ meta' q = at_ meta q).
  { intros q Hq. rewrite Hat by done. unfold transpose. repeat destruct (decide _); intros; subst; (congruence || done). }
  assert (Hmono : forall q, (q < cap)%nat -> full (at_ meta q) = true -> full (at_ meta' q) = true).
  { intros q Hq Hf. rewrite Hat by done. unfold transpose. repeat destruct (decide _); subst; (congruence || done). }
  split.
  - done.
  - done.
  - intros q Hq. rewrite Hat, Hk by done. apply M3. by apply transpose_lt.
  - intros q key Hq Hf. pose proof (key_at_lt _ _ _ Hq). destruct (Hfix q ltac:(lia) Hf) as [Ht Em].
    rewrite Hk, Ht in Hq. rewrite Em in *. by apply M4.
  - intros q1 q2 key. rewrite !Hk. intros H1 H2. by apply (transpose_inj a b), (M5 _ _ key).
  - intros q key Hq Hf. pose proof (key_at_lt _ _ _ Hq). destruct (Hfix q ltac:(lia) Hf) as [Ht Em].
    rewrite Hk, Ht in Hq. rewrite Em in Hf.
    apply (place_for_ext k cap meta); [done|exact Hmono|by apply M6].
Qed.

Definition same_entries (ents ents' : list (option (K * V))) : Prop :=
  forall e, (exists p, ents !! p = Some (Some e)) <-> (exists p, ents' !! p = Some (Some e)).

Lemma same_entries_swap ents ents' a b :
  (forall q, mjoin (ents' !! q) = mjoin (ents !! transpose a b q)) -> same_entries ents ents'.
Proof.
  intros Hq e.
  assert (E : forall (l : list (option (K * V))) q, l !! q = Some (Some e) <-> mjoin (l !! q) = Some e)
    by (intros l q; destruct (l !! q) as [[?|]|]; cbn; split; congruence).
  split; intros [p Hp]; exists (transpose a b p).
  - rewrite E, Hq. replace (transpose a b (transpose a b p)) with p; [by apply E|].
    unfold transpose. repeat destruct (decide _); lia.
  - rewrite E, <- Hq. by apply E.
Qed.

Lemma same_entries_trans e1 e2 e3 : same_entries e1 e2 -> same_entries e2 e3 -> same_entries e1 e3.
Proof. intros H1 H2 e. by rewrite (H1 e), (H2 e). Qed.

Lemma lookup_swap_entries (ents : list (option (K * V))) a b x y q :
  (a < length ents)%nat -> (b < length ents)%nat -> a <> b ->
  mjoin (ents !! a) = x -> mjoin (ents !! b) = y ->
  mjoin (<[b := x]> (<[a := y]> ents) !! q) = mjoin (ents !! transpose a b q).
Proof.
  intros Ha Hb Hab Hx Hy. unfold transpose. destruct (decide (q = a)) as [->|Hqa].
  - rewrite list_lookup_insert_ne, list_lookup_insert_eq by done. by rewrite Hy.
  - destruct (decide (q = b)) as [->|Hqb].
    + rewrite list_lookup_insert_eq by (by rewrite length_insert). by rewrite Hx.
    + by rewrite !list_lookup_insert_ne.
Qed.

Lemma insert_ok_place k cap meta key m p :
  (m < 2 ^ k)%nat -> insert_ok std_hash k cap meta key (S m) (Some p) ->
  (p < cap)%nat /\ full (at_ meta p) = false /\ place_for k meta key p.
Proof.
  intros Hm (Hp & Hf & m0 & Hm0 & Hpm & Hall). split_and!; [done|done|]. exists m0. split_and!; [lia|done|done].
Qed.

Lemma not_full_cases k cap meta p :
  shape k cap meta -> (p < cap)%nat -> full (at_ meta p) = false -> at_ meta p = TAG_EMPTY \/ at_ meta p = TAG_DELETED.
Proof.
  intros Hsh Hp Hf. destruct (sh_valid _ _ _ Hsh p Hp) as [E|[E|E]]; [by left|by right|]. unfold full in Hf. lia.
Qed.

(** The [while] at slot [i]: it ends, keeps the entries, settles slot [i] and
    unsettles none. *)
Lemma settle_spec fuel k cap ents meta i :
  mid k cap ents meta -> (i < cap)%nat -> (cnt is_deleted (take cap meta) < fuel)%nat ->
  exists ents' meta', settle std_hash fuel cap i ents meta = Ret (ents', meta') /\
    mid k cap ents' meta' /\ same_entries ents ents' /\ at_ meta' i <> TAG_DELETED /\
    forall q, (q < cap)%nat -> at_ meta q <> TAG_DELETED -> at_ meta' q <> TAG_DELETED.
Proof.
  revert ents meta. induction fuel as [|fuel IH]; intros ents meta Hmid Hi Hfuel; [lia|]. cbn [settle].
  destruct (Z.eqb_spec (at_ meta i) TAG_DELETED) as [Edel|Ndel]; cbn [negb].
  2: { exists ents, meta. split_and!; done. }
  pose proof (md_shape _ _ _ _ Hmid) as Hsh. pose proof (md_len _ _ _ _ Hmid) as Hlen.
  destruct (key_at ents i) as [key|] eqn:Ekey.
  2: { exfalso. destruct (md_live _ _ _ _ Hmid i Hi) as [Hlive _]. rewrite Edel, Ekey in Hlive.
       destruct Hlive as [? ?]; done. }
  assert (Hnfi : full (at_ meta i) = false) by (by rewrite Edel).
  destruct (FindAvailableSlot_spec k cap meta key i Hsh Hi Hnfi) as (p & m & -> & Hm & Hins).
  apply insert_ok_place in Hins as (Hp & Hnfp & Hpl); [|done]. cbn [obind s_pos s_h2].
  pose proof (h2_range std_hash key) as Hh.
  destruct (Nat.eqb_spec p i) as [->|Hpi].
  { exists ents. eexists. split; [reflexivity|]. split; [by apply mid_fill|]. split; [done|].
    split; [|intros q Hq Hnq]; rewrite (SetMetaByte_at k) by done; destruct (decide _); try done; unfold TAG_DELETED; lia. }
  set (ents1 := <[p := mjoin (ents !! i)]> (<[i := mjoin (ents !! p)]> ents)).
  assert (Hsw : forall q, mjoin (ents1 !! q) = mjoin (ents !! transpose i p q))
    by (intros q; by apply lookup_swap_entries; [lia|lia|lia|..]).
  assert (Hkey1 : forall q, key_at ents1 q = key_at ents (transpose i p q))
    by (intros q; unfold key_at; by rewrite Hsw).
  assert (Hlen1 : length ents1 = cap) by (unfold ents1; by rewrite !length_insert).
  assert (Hk1p : key_at ents1 p = Some key).
  { rewrite Hkey1. unfold transpose. repeat destruct (decide _); (done || lia). }
  pose proof (same_entries_swap ents ents1 i p Hsw) as Hsame.
  destruct (not_full_cases k cap meta p Hsh Hp Hnfp) as [Ep|Ep]; rewrite Ep.
  - cbn [TAG_EMPTY Z.eqb]. change (TAG_EMPTY =? TAG_EMPTY) with true. cbv iota.
    assert (Hpn : mjoin (ents !! p) = None).
    { destruct (key_at ents p) as [k'|] eqn:Ek; [|unfold key_at in Ek; by destruct (mjoin (ents !! p))].
      exfalso. assert (Hx : is_Some (key_at ents p)) by (by rewrite Ek).
      by apply (md_live _ _ _ _ Hmid p Hp) in Hx. }
    set (meta1 := SetMetaByte (SetMetaByte meta cap p TAG_DELETED) cap i TAG_EMPTY).
    assert (Hsh0 : shape k cap (SetMetaByte meta cap p TAG_DELETED)) by (apply SetMetaByte_shape; [done|done|by right; left]).
    assert (Hsh1 : shape k cap meta1) by (apply SetMetaByte_shape; [done|done|by left]).
    assert (Hm1 : forall q, (q < cap)%nat -> at_ meta1 q = at_ meta (transpose i p q)).
    { intros q Hq. unfold meta1. rewrite !(SetMetaByte_at k) by done. unfold transpose.
      repeat destruct (decide _); subst; congruence. }
    pose proof (mid_swap k cap ents ents1 meta meta1 i p Hmid Hi Hp Hnfi Hnfp Hlen1 Hkey1 Hsh1 Hm1) as Hmid1.
    assert (Hnf1 : full (at_ meta1 p) = false).
    { rewrite Hm1 by done. unfold transpose. repeat destruct (decide _); (done || lia). }
    assert (Hpl1 : place_for k meta1 key p).
    { apply (place_for_ext k cap meta); [done| |done]. intros q Hq Hf. rewrite Hm1 by done.
      unfold transpose. repeat destruct (decide _); subst; congruence. }
    pose proof (mid_fill k cap ents1 meta1 p key Hmid1 Hk1p Hnf1 Hpl1) as Hmid2.
    assert (Hshp : shape k cap (SetMetaByte meta cap p (h2_of std_hash key)))
      by (apply SetMetaByte_shape; [done|done|by right; right; lia]).
    eexists _, _. split; [reflexivity|]. split; [|split; [|split]].
    + assert (Ee : <[i := None]> (<[p := mjoin (ents !! i)]> ents) = ents1).
      { unfold ents1. rewrite Hpn. by apply list_insert_insert_ne; lia. }
      rewrite Ee. eapply mid_ext; [exact Hmid2|apply SetMetaByte_shape; [done|done|by left]|].
      intros q Hq. rewrite !(SetMetaByte_at k) by done. unfold meta1. rewrite !(SetMetaByte_at k) by done.
      repeat destruct (decide _); subst; congruence.
    + unfold ents1 in Hsame. rewrite Hpn in Hsame.
      rewrite list_insert_insert_ne by lia. done.
    + rewrite (SetMetaByte_at k) by done. by destruct (decide _).
    + intros q Hq Hnq. rewrite !(SetMetaByte_at k) by done.
      repeat destruct (decide _); try done. unfold TAG_DELETED. lia.
  - change (TAG_DELETED =? TAG_EMPTY) with false. cbv iota. fold ents1.
    assert (Hm1 : forall q, (q < cap)%nat -> at_ meta q = at_ meta (transpose i p q)).
    { intros q Hq. unfold transpose. repeat destruct (decide _); subst; congruence. }
    pose proof (mid_swap k cap ents ents1 meta meta i p Hmid Hi Hp Hnfi Hnfp Hlen1 Hkey1 Hsh Hm1) as Hmid1.
    pose proof (mid_fill k cap ents1 meta p key Hmid1 Hk1p Hnfp Hpl) as Hmid2.
    pose proof (take_meta_lookup k _ _ p Hsh Hp) as Hlk.
    pose proof (cnt_insert is_deleted _ p _ (h2_of std_hash key) Hlk) as Hcd.
    replace (is_deleted (h2_of std_hash key)) with false in Hcd by (unfold is_deleted, TAG_DELETED; lia).
    rewrite Ep in Hcd. change (is_deleted TAG_DELETED) with true in Hcd. cbn [Nat.b2n] in Hcd.
    rewrite <- (take_SetMetaByte k) in Hcd by done.
    destruct (IH ents1 _ Hmid2 Hi ltac:(lia)) as (ents' & meta' & -> & H1 & H2 & H3 & H4).
    exists ents', meta'. split_and!; [done|done|by eapply same_entries_trans|done|].
    intros q Hq Hnq. apply H4; [done|]. rewrite (SetMetaByte_at k) by done. destruct (decide _); [|done].
    unfold TAG_DELETED. lia.
Qed.

Lemma settle_all_spec k cap slots ents meta :
  mid k cap ents meta -> (forall i, i ∈ slots -> (i < cap)%nat) -> length meta = (cap + 8)%nat ->
  exists ents' meta', settle_all std_hash slots cap ents meta = Ret (ents', meta') /\
    mid k cap ents' meta' /\ same_entries ents ents' /\
    (forall i, i ∈ slots -> at_ meta' i <> TAG_DELETED) /\
    forall q, (q < cap)%nat -> at_ meta q <> TAG_DELETED -> at_ meta' q <> TAG_DELETED.
Proof.
  revert ents meta. induction slots as [|i slots IH]; intros ents meta Hmid Hb Hlen.
  - exists ents, meta. split_and!; try done. intros i Hi. by apply elem_of_nil in Hi.
  - cbn [settle_all]. assert (Hi : (i < cap)%nat) by (apply Hb; by left).
    destruct (settle_spec (S cap) k cap ents meta i Hmid Hi) as (e1 & m1 & -> & H1 & H2 & H3 & H4).
    { pose proof (cnt_le is_deleted (take cap meta)) as Hle. rewrite length_take in Hle. lia. }
    cbn [obind fst snd]. destruct (IH e1 m1 H1) as (e2 & m2 & -> & G1 & G2 & G3 & G4).
    { intros j Hj. apply Hb. by right. }
    { apply (sh_len _ _ _ (md_shape _ _ _ _ H1)). }
    exists e2, m2. split_and!; [done|done|by eapply same_entries_trans| |].
    + intros j [->|Hj]%elem_of_cons; [by apply G4|by apply G3].
    + intros q Hq Hn. apply G4; [done|by apply H4].
Qed.

Lemma cnt_size (ents : list (option (K * V))) ms :
  uniq ents -> length ms = length ents ->
  (forall p, (p < length ents)%nat -> full (at_ ms p) = true <-> is_Some (key_at ents p)) ->
  cnt full ms = size (contents ents).
Proof.
  revert ms. induction ents as [|e ents IH]; intros [|m ms] Hu Hl Hf; try done.
  assert (Hu' : uniq ents) by (intros p q key Hp Hq; specialize (Hu (S p) (S q) key Hp Hq); lia).
  specialize (IH ms Hu' ltac:(by injection Hl)). cbn [cnt].
  rewrite IH by (intros p Hp; apply (Hf (S p)); cbn; lia).
  specialize (Hf 0%nat ltac:(cbn; lia)). change (at_ (m :: ms) 0) with m in Hf. cbn. fold (contents ents).
  destruct e as [[key v]|]; cbn in Hf.
  - rewrite map_size_insert_None.
    + replace (full m) with true by (symmetry; apply Hf; by eexists). done.
    + apply contents_None; [done|]. intros q Hq. specialize (Hu 0%nat (S q) key eq_refl Hq). lia.
  - destruct (full m); [|done]. destruct Hf as [Hf _]. by destruct (Hf eq_refl).
Qed.

Lemma cnt_zero f l : (forall p x, l !! p = Some x -> f x = false) -> cnt f l = 0%nat.
Proof.
  induction l as [|x l IH]; intros Hf; [done|]. cbn [cnt]. rewrite (Hf 0%nat x eq_refl), IH; [done|].
  intros p y Hp. by apply (Hf (S p)).
Qed.

Lemma same_entries_contents ents ents' :
  uniq ents -> uniq ents' -> same_entries ents ents' -> contents ents' = contents ents.
Proof.
  intros Hu Hu' Hs. apply contents_eq; [done|]. intros key v. rewrite contents_Some by done. apply Hs.
Qed.

(** Between the passes. *)
Lemma demoted_mid k cap ents meta :
  core std_hash k cap ents meta -> mid k cap ents (fold_left (demote cap) (seq 0 cap) meta).
Proof.
  intros [Hsh Hst Hu Hr]. destruct (demote_all k cap meta cap Hsh ltac:(lia)) as [Hsh' Hat].
  assert (Hnf : forall p, (p < cap)%nat -> full (at_ (fold_left (demote cap) (seq 0 cap) meta) p) = false).
  { intros p Hp. rewrite Hat by done. destruct (decide _); [|lia]. unfold demoted. by destruct (full (at_ meta p)). }
  split; [done|by apply Hst| | |done|].
  - intros p Hp. rewrite <- (st_live _ _ _ _ Hst) by done. rewrite Hat by done. destruct (decide _); [|lia].
    unfold demoted. by destruct (full (at_ meta p)).
  - intros p key Hk Hf. pose proof (key_at_lt _ _ _ Hk) as Hlt. rewrite (st_len _ _ _ _ Hst) in Hlt.
    by rewrite Hnf in Hf.
  - intros p key Hk Hf. pose proof (key_at_lt _ _ _ Hk) as Hlt. rewrite (st_len _ _ _ _ Hst) in Hlt.
    by rewrite Hnf in Hf.
Qed.

(** When nothing is left unsettled the table is well formed again. *)
Lemma mid_core k cap ents meta :
  mid k cap ents meta -> (forall p, (p < cap)%nat -> at_ meta p <> TAG_DELETED) -> core std_hash k cap ents meta.
Proof.
  intros [M1 M2 M3 M4 M5 M6] Hnd.
  assert (Hfe : forall p, (p < cap)%nat -> full (at_ meta p) = true <-> at_ meta p <> TAG_EMPTY).
  { intros p Hp. destruct (valid_cases _ (sh_valid _ _ _ M1 p Hp)) as [(E & _ & _ & Hf & _)|[(E & _)|(E & _ & _ & Hf & _)]].
    - rewrite Hf. split; congruence.
    - by apply Hnd in E.
    - rewrite Hf. split; [|done]. intros _. unfold TAG_EMPTY. lia. }
  assert (Hlv : forall p key, key_at ents p = Some key -> full (at_ meta p) = true).
  { intros p key Hk. pose proof (key_at_lt _ _ _ Hk). apply Hfe; [lia|]. apply M3; [lia|by rewrite Hk]. }
  split; [done| |done|].
  - split; [done| |].
    + intros p Hp. rewrite Hfe by done. by apply M3.
    + intros p key Hk. apply M4; [done|by eapply Hlv].
  - intros p key Hk. destruct (M6 p key Hk (Hlv _ _ Hk)) as (i & Hi & Hp & Hf). exists i. split_and!; [done|done|].
    intros j Hj. by apply all_full_no_empty, Hf.
Qed.

Lemma CompactInPlace_spec k t :
  inv_at k t -> exists t', CompactInPlace std_hash t = Ret t' /\ inv_at k t' /\ map_of t' = map_of t /\
    size_ t' = size_ t /\ deletedCount_ t' = 0%nat /\ capacity_ t' = capacity_ t.
Proof.
  intros (Hc & [Hs Hd] & Hini). unfold CompactInPlace. cbv zeta.
  pose proof (demoted_mid _ _ _ _ Hc) as Hmid. set (cap := capacity_ t) in *.
  destruct (settle_all_spec k cap (seq 0 cap) (entries_ t) _ Hmid) as (ents' & meta' & -> & H1 & H2 & H3 & _).
  { intros i Hi. apply elem_of_seq in Hi. lia. }
  { apply (sh_len _ _ _ (md_shape _ _ _ _ Hmid)). }
  cbn [obind fst snd].
  assert (Hnd : forall p, (p < cap)%nat -> at_ meta' p <> TAG_DELETED) by (intros p Hp; apply H3, elem_of_seq; lia).
  pose proof (mid_core _ _ _ _ H1 Hnd) as Hc'.
  assert (Hm : contents ents' = contents (entries_ t))
    by (apply same_entries_contents; [exact (co_unique _ _ _ _ _ Hc)|exact (co_unique _ _ _ _ _ Hc')|done]).
  assert (Hsize : forall (e : list (option (K * V))) m, core std_hash k cap e m -> cnt full (take cap m) = size (contents e)).
  { intros e m C. pose proof (st_len _ _ _ _ (co_stored _ _ _ _ _ C)) as Hl. pose proof (co_shape _ _ _ _ _ C) as Hsh.
    apply cnt_size; [exact (co_unique _ _ _ _ _ C)|rewrite length_take, (sh_len _ _ _ Hsh); lia|].
    intros p Hp. rewrite Hl in Hp. rewrite (at_lookup _ _ _ (take_meta_lookup k cap m p Hsh Hp)).
    by apply (st_live _ _ _ _ (co_stored _ _ _ _ _ C)). }
  eexists. split; [reflexivity|]. split; [|by split_and!].
  split; [exact Hc'|]. split; [|done]. split; cbn [size_ deletedCount_ meta_ capacity_].
  - rewrite Hs, (Hsize _ _ Hc), (Hsize _ _ Hc'). by rewrite Hm.
  - symmetry. apply cnt_zero. intros p x Hp. pose proof (lookup_lt_Some _ _ _ Hp) as Hlt. rewrite length_take in Hlt.
    rewrite (take_meta_lookup k) in Hp by (apply (co_shape _ _ _ _ _ Hc') || lia). injection Hp as <-.
    specialize (Hnd p ltac:(lia)). unfold is_deleted. by apply Z.eqb_neq.
Qed.

(** ** Making room, and the operations *)

Lemma make_room_spec entry_size Alloc_ok t :
  inv t -> memory_ok entry_size Alloc_ok t ->
  exists t', make_room std_hash entry_size Alloc_ok t = Ret t' /\ (exists k, inv_at k t') /\
    map_of t' = map_of t /\ (size_ t' + deletedCount_ t' + 1 < capacity_ t')%nat.
Proof.
  intros (k & Hi & Hlt) Hmem. pose proof Hi as (Hc & _). pose proof (sh_cap _ _ _ (co_shape _ _ _ _ _ Hc)) as Hcap.
  unfold make_room. destruct (over_load (size_ t + deletedCount_ t + 1) (capacity_ t)) eqn:E1.
  - destruct (over_load (size_ t + 1) (capacity_ t)) eqn:E2.
    + destruct (Resize_spec k entry_size Alloc_ok t Hi Hmem ltac:(lia)) as (t' & -> & H1 & H2 & H3 & H4 & H5).
      cbn. exists t'. split_and!; [done|by exists (S k)|done|]. pose proof (pow2_pos k). lia.
    + destruct (CompactInPlace_spec k t Hi) as (t' & -> & H1 & H2 & H3 & H4 & H5).
      exists t'. split_and!; [done|by exists k|done|]. apply (under_load k) in E2; [lia|done].
  - exists t. split_and!; [done|by exists k|done|]. by apply (under_load k) in E1.
Qed.

Lemma insert_or_get_spec entry_size Alloc_ok key v ow t :
  inv t -> memory_ok entry_size Alloc_ok t ->
  exists t', insert_or_get std_hash entry_size Alloc_ok key v ow t =
      Ret (t', if ow then v else default v (map_of t !! key)) /\ inv t' /\
    map_of t' = (if ow then <[key := v]> (map_of t) else <[key := default v (map_of t !! key)]> (map_of t)).
Proof.
  intros Hi Hmem. destruct (make_room_spec entry_size Alloc_ok t Hi Hmem) as (t1 & E & Hk & Hm & Hr).
  unfold insert_or_get. rewrite E. cbn [obind].
  destruct (insert_step_spec key v ow t1 Hk Hr) as (t2 & -> & H1 & H2). exists t2. by rewrite Hm in *.
Qed.

Lemma init_table_spec entry_size Alloc_ok cap :
  (forall n, Alloc_ok n = true) -> 0 < entry_size -> Z.of_nat (bit_ceil (max 8 cap)) * entry_size < 2 ^ 63 ->
  exists t, init_table (K := K) (V := V) entry_size Alloc_ok cap = Ret t /\ inv t /\ map_of t = ∅ /\
    capacity_ t = bit_ceil (max 8 cap).
Proof.
  intros Ha He Hmem. unfold init_table, GROUP_WIDTH in *.
  replace (if (cap <? 8)%nat then 8%nat else cap) with (max 8 cap) by (destruct (Nat.ltb_spec cap 8); lia).
  set (c := bit_ceil (max 8 cap)) in *.
  assert (Hc : exists k, c = (8 * 2 ^ k)%nat).
  { unfold c, bit_ceil. exists (Nat.log2_up (max 8 cap) - 3)%nat.
    pose proof (Nat.log2_up_le_mono 8 (max 8 cap) ltac:(lia)) as Hl. change (Nat.log2_up 8) with 3%nat in Hl.
    remember (Nat.log2_up (max 8 cap)) as lg. change 8%nat with (2 ^ 3)%nat. rewrite <- Nat.pow_add_r. f_equal. lia. }
  destruct Hc as [k Hc]. pose proof (pow2_pos k).
  rewrite !checked_alloc_ok by (done || nia). cbn [obind negb]. eexists. split; [reflexivity|].
  split; [|split; [apply contents_replicate|done]]. exists k. cbn [size_ deletedCount_ capacity_]. split; [|lia].
  split; [by apply fresh_core|]. cbn [size_ deletedCount_ capacity_ meta_ initialBucketCapacity_].
  split; [|lia]. split; symmetry; rewrite take_replicate, cnt_replicate; cbn; lia.
Qed.

(** ** Properties *)

(** A shard stands for a finite map. *)
Definition represents (s : @shard K V) (m : gmap K V) : Prop :=
  exists t, s = Some t /\ inv t /\ map_of t = m.

Definition has_memory (entry_size : Z) (Alloc_ok : Z -> bool) (s : @shard K V) : Prop :=
  match s with Some t => memory_ok entry_size Alloc_ok t | None => False end.

(** C16: the table is a finite map.  On a shard standing for [m] (a new one stands for the
    empty map, see [Init_empty]), Get answers [m !! key], Erase says whether the key was there and
    leaves [delete key m], and, with memory for a table twice the size, Insert
    leaves [<[key := v]> m] and GetOrInsert returns and keeps the value already
    there; none of them exhausts the probe walk, whatever the hash function and
    however much was inserted and erased before. *)
Theorem shard_refines_map entry_size Alloc_ok s (m : gmap K V) key v :
  represents s m ->
  Get std_hash key s = Ret (m !! key) /\
  (exists s', Erase std_hash key s = Ret (s', bool_decide (is_Some (m !! key))) /\ represents s' (delete key m)) /\
  (has_memory entry_size Alloc_ok s ->
    (exists s', Insert std_hash entry_size Alloc_ok key v s = Ret (s', true) /\ represents s' (<[key := v]> m)) /\
    (exists s', GetOrInsert std_hash entry_size Alloc_ok key v s = Ret (s', Some (default v (m !! key))) /\
                represents s' (<[key := default v (m !! key)]> m))).
Proof.
  intros (t & -> & Hi & <-). split; [by apply get_table_spec|]. split.
  - destruct (erase_table_spec key t Hi) as (t' & E & Hi' & Hm & _).
    exists (Some t'). unfold Erase. rewrite E. split; [done|]. by exists t'.
  - intros Hmem. cbn in Hmem. unfold Insert, GetOrInsert, InsertOrGet. split.
    + destruct (insert_or_get_spec entry_size Alloc_ok key v true t Hi Hmem) as (t' & E & Hi' & Hm).
      exists (Some t'). rewrite E. split; [done|]. by exists t'.
    + destruct (insert_or_get_spec entry_size Alloc_ok key v false t Hi Hmem) as (t' & E & Hi' & Hm).
      exists (Some t'). rewrite E. split; [done|]. by exists t'.
Qed.

(** A fresh shard is the empty map, at the requested capacity rounded up to a
    power of two of at least one group. *)
Theorem Init_empty entry_size Alloc_ok cap :
  (forall n, Alloc_ok n = true) -> 0 < entry_size -> Z.of_nat (bit_ceil (max 8 cap)) * entry_size < 2 ^ 63 ->
  exists s, Init (K := K) (V := V) entry_size Alloc_ok cap false None = Ret s /\ represents s ∅ /\
            exists t, s = Some t /\ capacity_ t = bit_ceil (max 8 cap).
Proof.
  intros Ha He Hm. destruct (init_table_spec entry_size Alloc_ok cap Ha He Hm) as (t & E & Hi & Hmap & Hc).
  exists (Some t). unfold Init. rewrite E. split; [done|]. split; [by exists t|by exists t].
Qed.

(** C30: in-place compaction always ends without running out of slots, keeps every
    entry (and the invariant), changes neither the size nor the capacity, and
    leaves no tombstone. *)
Theorem CompactInPlace_keeps_map (t : @table K V) :
  inv t -> exists t', CompactInPlace std_hash t = Ret t' /\ inv t' /\ map_of t' = map_of t /\
    size_ t' = size_ t /\ deletedCount_ t' = 0%nat /\ capacity_ t' = capacity_ t /\
    forall p, (p < capacity_ t)%nat -> at_ (meta_ t') p <> TAG_DELETED.
Proof.
  intros (k & Hi & Hlt). destruct (CompactInPlace_spec k t Hi) as (t' & E & Hi' & Hm & Hs & Hd & Hc).
  exists t'. split; [done|]. split; [exists k; split; [done|lia]|]. split_and!; [done|done|done|done|].
  intros p Hp Hdel. destruct Hi' as (Hc' & [_ Hcd] & _). rewrite Hd, Hc in Hcd. rewrite Hc in Hc'.
  pose proof (take_meta_lookup k _ _ p (co_shape _ _ _ _ _ Hc') Hp) as Hlk. rewrite Hdel in Hlk.
  pose proof (cnt_insert is_deleted _ p _ TAG_EMPTY Hlk) as Hx. cbn in Hx. lia.
Qed.

End ops.

(** ** Concrete runs *)

Definition w_hash (k : Z) : Z := k.
Definition w_alloc (n : Z) : bool := true.

(** Seven keys in one group's worth of slots, one of them erased. *)
Definition w_run : outcome (@shard Z Z) :=
  let ins := fun k s => let* p := Insert w_hash 16 w_alloc k (10 * k) s in Ret (fst p) in
  let* s := Init 16 w_alloc 8 false None in
  let* s := ins 1 s in let* s := ins 2 s in let* s := ins 3 s in let* s := ins 4 s in
  let* s := ins 5 s in let* s := ins 6 s in
  let* p := Erase w_hash 3 s in Ret (fst p).

Definition w_shard : @shard Z Z := match w_run with Ret s => s | Fatal _ => None end.

Lemma w_init : exists s, Init (K := Z) (V := Z) 16 w_alloc 8 false None = Ret s /\ represents w_hash s ∅.
Proof.
  destruct (Init_empty w_hash (V := Z) 16 w_alloc 8) as (s & E & Hr & _); [done|lia|vm_compute; done|]. by exists s.
Qed.

Lemma shard_refines_map_witness :
  exists s, Init (K := Z) (V := Z) 16 w_alloc 8 false None = Ret s /\
    Get w_hash 7 s = Ret ((∅ : gmap Z Z) !! 7).
Proof.
  destruct w_init as (s & E & Hr). exists s. split; [exact E|].
  exact (proj1 (shard_refines_map w_hash 16 w_alloc s ∅ 7 70 Hr)).
Defined.

Lemma Init_empty_witness :
  exists s, Init (K := Z) (V := Z) 16 w_alloc 20 false None = Ret s /\ represents w_hash s ∅ /\
    exists t, s = Some t /\ capacity_ t = 32%nat.
Proof.
  apply (Init_empty w_hash 16 w_alloc 20); [intros n; reflexivity|lia|vm_compute; reflexivity].
Defined.

Lemma CompactInPlace_keeps_map_witness :
  exists t : @table Z Z, init_table 16 w_alloc 8 = Ret t /\
    exists t', CompactInPlace w_hash t = Ret t' /\ map_of t' = map_of t.
Proof.
  destruct (init_table_spec w_hash 16 w_alloc 8 (V := Z)) as (t & E & Hi & _); [intros n; reflexivity|lia|vm_compute; reflexivity|].
  exists t. split; [exact E|]. destruct (CompactInPlace_keeps_map w_hash t Hi) as (t' & H1 & _ & H2 & _).
  exists t'. split; [exact H1|exact H2].
Defined.

Example w_run_erased :
  Get w_hash 3 w_shard = Ret None /\ Get w_hash 4 w_shard = Ret (Some 40).
Proof. vm_compute. split; reflexivity. Qed.

End HashShard.
