(* ===== verification/TimerWheel.v ===== *)
(** * The connection timeout wheel (utils/timer/timer_wheel.cpp)

    The wheel with its intrusive doubly linked buckets over [meta_], each
    operation as written, [Tick] with a callback that may call back into the
    wheel.  The theorems read a wheel as a map from a slot to the tick it
    fires at: [Schedule] and [Cancel] change one entry of the map, [Tick]
    reports the entries that are due, in order, once each. *)

From stdpp Require Import sorting.
From S2P Require Import Prelude Swar.

Module TimerWheel.

Definition NIL : Z := 0xFFFFFFFF.

Inductive TimeUnit := SECONDS | MILLISECONDS | MICROSECONDS.

Record SlotMeta := mkSlot { next : Z; prev : Z; extra : Z; bucket : Z; rounds : Z }.

(** [SlotMeta{}] *)
Definition SlotMeta_init : SlotMeta := mkSlot NIL NIL 0 0xFFFF 0.

Definition set_next (v : Z) (m : SlotMeta) := mkSlot v (prev m) (extra m) (bucket m) (rounds m).
Definition set_prev (v : Z) (m : SlotMeta) := mkSlot (next m) v (extra m) (bucket m) (rounds m).
Definition set_rounds (v : Z) (m : SlotMeta) := mkSlot (next m) (prev m) (extra m) (bucket m) v.

Record wheel := mkWheel {
  cap_ : Z; mask_ : Z; slots_ : Z; shift_ : Z; tickVal_ : Z; nowTick_ : Z;
  unit_ : TimeUnit; meta_ : list SlotMeta; wheelHeads_ : list Z }.

Definition with_meta (w : wheel) (m : list SlotMeta) : wheel :=
  mkWheel (cap_ w) (mask_ w) (slots_ w) (shift_ w) (tickVal_ w) (nowTick_ w) (unit_ w) m (wheelHeads_ w).
Definition with_heads (w : wheel) (h : list Z) : wheel :=
  mkWheel (cap_ w) (mask_ w) (slots_ w) (shift_ w) (tickVal_ w) (nowTick_ w) (unit_ w) (meta_ w) h.
Definition with_now (w : wheel) (n : Z) : wheel :=
  mkWheel (cap_ w) (mask_ w) (slots_ w) (shift_ w) (tickVal_ w) n (unit_ w) (meta_ w) (wheelHeads_ w).

(** [meta_[p]] and [wheelHeads_[b]]; the callers keep both in range. *)
Definition slot (w : wheel) (p : Z) : SlotMeta := default SlotMeta_init (meta_ w !! Z.to_nat p).
Definition head_of (w : wheel) (b : Z) : Z := default NIL (wheelHeads_ w !! Z.to_nat b).
Definition upd (w : wheel) (p : Z) (f : SlotMeta -> SlotMeta) : wheel :=
  with_meta w (<[Z.to_nat p := f (slot w p)]> (meta_ w)).
Definition set_head (w : wheel) (b p : Z) : wheel :=
  with_heads w (<[Z.to_nat b := p]> (wheelHeads_ w)).

(** [while((1u << shift_) < slots_) ++shift_;] *)
Fixpoint shift_loop (fuel : nat) (s slots : Z) : Z :=
  match fuel with
  | O => s
  | S f => if Z.shiftl 1 s <? slots then shift_loop f (s + 1) slots else s
  end.

(** The default-constructed wheel. *)
Definition fresh : wheel := mkWheel 0 0 0 0 1 0 MILLISECONDS [] [].

(** [Init]; [onExpire] says whether the callback is set.  [slots_] has 16
    bits, so the shift loop stops within 16 turns. *)
Definition Init (w : wheel) (capacity wheelSlots tickVal : Z) (unit : TimeUnit) (onExpire : bool)
  : outcome wheel :=
  if negb onExpire then Fatal "[TimerWheel]: 'onExpire' function was nullptr"
  else if negb (Z.land wheelSlots (u32 (wheelSlots - 1)) =? 0)
  then Fatal "[TimerWheel]: 'wheelSlots' must be a power of two"
  else Ret (mkWheel capacity (u32 (wheelSlots - 1)) wheelSlots (shift_loop 16 0 wheelSlots)
              (u16 (if tickVal =? 0 then 1 else tickVal)) 0 unit
              (replicate (Z.to_nat capacity) SlotMeta_init)
              (replicate (Z.to_nat wheelSlots) NIL)).

Definition Reinit (w : wheel) (capacity : Z) : wheel :=
  mkWheel capacity (mask_ w) (slots_ w) (shift_ w) (tickVal_ w) (nowTick_ w) (unit_ w)
    (replicate (Z.to_nat capacity) SlotMeta_init) (wheelHeads_ w).

Definition Expand (w : wheel) (extraCapacity : Z) : wheel :=
  if extraCapacity =? 0 then w
  else let cap := u32 (cap_ w + extraCapacity) in
       mkWheel cap (mask_ w) (slots_ w) (shift_ w) (tickVal_ w) (nowTick_ w) (unit_ w)
         (take (Z.to_nat cap) (meta_ w) ++
          replicate (Z.to_nat cap - length (meta_ w)) SlotMeta_init) (wheelHeads_ w).

Definition SetTick (w : wheel) (val : Z) (unit : TimeUnit) : wheel :=
  mkWheel (cap_ w) (mask_ w) (slots_ w) (shift_ w) (u16 (if val =? 0 then 1 else val)) (nowTick_ w)
    unit (meta_ w) (wheelHeads_ w).

Definition GetTick (w : wheel) : Z := nowTick_ w.

(** The body of [Unlink] once the slot is known to be in range. *)
Definition unlink (w : wheel) (pos : Z) : wheel :=
  let m := slot w pos in
  if slots_ w <=? bucket m then w
  else
    let w1 := if negb (prev m =? NIL) then upd w (prev m) (set_next (next m))
              else if head_of w (bucket m) =? pos then set_head w (bucket m) (next m) else w in
    let w2 := if negb (next m =? NIL) then upd w1 (next m) (set_prev (prev m)) else w1 in
    upd w2 pos (fun s => mkSlot NIL NIL (extra s) (slots_ w) 0).

Definition Unlink (w : wheel) (pos : Z) : outcome wheel :=
  if cap_ w <=? pos then Fatal "[TimerWheel]: 'Unlink' expected 'pos' to be less than wheel capacity"
  else Ret (unlink w pos).

Definition ClearSlot (w : wheel) (pos : Z) : wheel := upd w pos (fun _ => SlotMeta_init).

(** The number of ticks of a timeout. *)
Definition ticks_of (w : wheel) (timeout : Z) : Z :=
  if 1 <? tickVal_ w then
    if Z.land (tickVal_ w) (tickVal_ w - 1) =? 0
    then Z.shiftr timeout (Z.of_nat (Swar.countr_zero (tickVal_ w)))
    else timeout / tickVal_ w
  else timeout.

Definition insert_head (w : wheel) (pos ext expireTick : Z) : wheel :=
  let b := u32 (Z.land expireTick (mask_ w)) in
  let r := u8 (Z.shiftr expireTick (shift_ w) - Z.shiftr (nowTick_ w) (shift_ w)) in
  let h := head_of w b in
  let w1 := upd w pos (fun _ => mkSlot h NIL ext (u16 b) r) in
  let w2 := if negb (h =? NIL) then upd w1 h (set_prev pos) else w1 in
  set_head w2 b pos.

Definition Schedule (w : wheel) (pos ext timeout : Z) : outcome wheel :=
  if cap_ w <=? pos then Fatal "[TimerWheel]: 'Schedule' expected 'pos' to be less than wheel capacity"
  else let* w1 := Unlink w pos in
       Ret (insert_head w1 pos ext (u64 (nowTick_ w1 + ticks_of w1 timeout))).

Definition Cancel (w : wheel) (pos : Z) : outcome wheel :=
  if cap_ w <=? pos then Fatal "[TimerWheel]: 'Cancel' expected 'pos' to be less than wheel capacity"
  else let* w1 := Unlink w pos in Ret (ClearSlot w1 pos).

(** What a callback does to the wheel it is called from. *)
Inductive wheel_op :=
| OpSchedule (pos ext timeout : Z)
| OpCancel (pos : Z).

Definition run_op (w : wheel) (o : wheel_op) : outcome wheel :=
  match o with
  | OpSchedule p e t => Schedule w p e t
  | OpCancel p => Cancel w p
  end.

Fixpoint run_ops (w : wheel) (os : list wheel_op) : outcome wheel :=
  match os with
  | [] => Ret w
  | o :: r => let* w1 := run_op w o in run_ops w1 r
  end.

Section Tick.
(** [onExpire_]: from its arguments and the state it closes over, the calls
    it makes into the wheel and that state after it. *)
Context {W : Type} (onExpire : Z -> Z -> W -> list wheel_op * W).

(** The inner loop: process the entries of a bucket from [curr].  The third
    component of the result lists the calls of the callback. *)
Fixpoint bucket_loop (fuel : nat) (w : wheel) (st : W) (curr : Z)
  : option (outcome (wheel * W * list (Z * Z))) :=
  if curr =? NIL then Some (Ret (w, st, []))
  else match fuel with
  | O => None
  | S f =>
      let m := slot w curr in
      if rounds m =? 0 then
        let '(os, st') := onExpire curr (extra m) st in
        match (let* w1 := run_ops w os in Unlink w1 curr) with
        | Fatal e => Some (Fatal e)
        | Ret w2 =>
            match bucket_loop f w2 st' (next m) with
            | Some (Ret (w3, st3, evs)) => Some (Ret (w3, st3, (curr, extra m) :: evs))
            | r => r
            end
        end
      else bucket_loop f (upd w curr (fun s => set_rounds (u8 (rounds s - 1)) s)) st (next m)
  end.

(** One turn of the outer loop. *)
Definition tick_once (w : wheel) (st : W) : option (outcome (wheel * W * list (Z * Z))) :=
  match bucket_loop (Z.to_nat (cap_ w)) w st
          (head_of w (u32 (Z.land (nowTick_ w) (mask_ w)))) with
  | Some (Ret (w1, st1, evs)) => Some (Ret (with_now w1 (u64 (nowTick_ w1 + 1)), st1, evs))
  | r => r
  end.

(** [n] turns of the outer loop. *)
Fixpoint tick_loop (n : nat) (w : wheel) (st : W) : option (outcome (wheel * W * list (Z * Z))) :=
  match n with
  | O => Some (Ret (w, st, []))
  | S n' =>
      match tick_once w st with
      | Some (Ret (w1, st1, evs)) =>
          match tick_loop n' w1 st1 with
          | Some (Ret (w2, st2, evs')) => Some (Ret (w2, st2, evs ++ evs'))
          | r => r
          end
      | r => r
      end
  end.

(** [while(nowTick_ < nowTick)]: the callback has no access to [nowTick_]. *)
Definition Tick (w : wheel) (st : W) (nowTick : Z) : option (outcome (wheel * W * list (Z * Z))) :=
  tick_loop (Z.to_nat (nowTick - nowTick_ w)) w st.
End Tick.

(** ** The wheel as a map of due ticks *)

(** The tick at which a linked slot fires if nobody touches it. *)
Definition due (w : wheel) (p : Z) : Z :=
  let m := slot w p in
  nowTick_ w + (bucket m - nowTick_ w) mod slots_ w + rounds m * slots_ w.

Definition timer_of (w : wheel) (p : Z) : option (Z * Z) :=
  if bool_decide (0 <= p < cap_ w) then
    if slots_ w <=? bucket (slot w p) then None else Some (due w p, extra (slot w p))
  else None.


(** ** Well-formed wheels *)

Definition hd (l : list Z) : Z := default NIL (list.head l).
Definition lst (l : list Z) : Z := default NIL (last l).

(** [l] is bucket [b]: the head points to its first entry and every entry to
    its neighbours. *)
Record dll (w : wheel) (b : Z) (l : list Z) : Prop := {
  dll_head : head_of w b = hd l;
  dll_node : forall l1 p l2, l = l1 ++ p :: l2 ->
    0 <= p < cap_ w /\ bucket (slot w p) = b /\ prev (slot w p) = lst l1 /\ next (slot w p) = hd l2
}.

(** The part of the state the operations on slots leave alone. *)
Record same_config (w w' : wheel) : Prop := {
  sc_cap : cap_ w' = cap_ w; sc_mask : mask_ w' = mask_ w; sc_slots : slots_ w' = slots_ w;
  sc_shift : shift_ w' = shift_ w; sc_tick : tickVal_ w' = tickVal_ w;
  sc_meta : length (meta_ w') = length (meta_ w);
  sc_heads : length (wheelHeads_ w') = length (wheelHeads_ w)
}.

(** [ls b] are the entries of bucket [b]. *)
Record Rep (w : wheel) (ls : Z -> list Z) : Prop := {
  rep_cap : 0 <= cap_ w < 2 ^ 32;
  rep_shift : 0 <= shift_ w < 16;
  rep_slots : slots_ w = 2 ^ shift_ w;
  rep_mask : mask_ w = Z.ones (shift_ w);
  rep_meta : length (meta_ w) = Z.to_nat (cap_ w);
  rep_heads : length (wheelHeads_ w) = Z.to_nat (slots_ w);
  rep_dll : forall b, 0 <= b < slots_ w -> dll w b (ls b);
  rep_nodup : forall b, 0 <= b < slots_ w -> NoDup (ls b);
  rep_slot : forall p, 0 <= p < cap_ w ->
    0 <= rounds (slot w p) < 256 /\
    (slots_ w <= bucket (slot w p) \/
     (0 <= bucket (slot w p) < slots_ w /\ p ∈ ls (bucket (slot w p))))
}.

Lemma same_config_refl w : same_config w w.
Proof. by constructor. Qed.

Lemma same_config_trans a b c : same_config a b -> same_config b c -> same_config a c.
Proof. intros [] []. constructor; congruence. Qed.

Lemma same_config_upd w p f : same_config w (upd w p f).
Proof. constructor; simpl; try done. by rewrite length_insert. Qed.

Lemma same_config_set_head w b p : same_config w (set_head w b p).
Proof. constructor; simpl; try done. by rewrite length_insert. Qed.

#[local] Hint Resolve same_config_refl same_config_upd same_config_set_head : core.

Lemma slot_upd w p q f :
  0 <= p < Z.of_nat (length (meta_ w)) -> 0 <= q ->
  slot (upd w p f) q = if decide (q = p) then f (slot w p) else slot w q.
Proof.
  intros Hp Hq. unfold slot at 1. cbn [upd with_meta meta_]. case_decide as H.
  - subst q. rewrite list_lookup_insert_eq by lia. done.
  - rewrite list_lookup_insert_ne by lia. done.
Qed.

Lemma slot_eta s : s = mkSlot (next s) (prev s) (extra s) (bucket s) (rounds s).
Proof. by destruct s. Qed.

Lemma length_meta_upd w p f : length (meta_ (upd w p f)) = length (meta_ w).
Proof. apply length_insert. Qed.

Lemma slot_set_head w b p q : slot (set_head w b p) q = slot w q.
Proof. done. Qed.

Lemma head_of_upd w p f b : head_of (upd w p f) b = head_of w b.
Proof. done. Qed.

Lemma head_of_set_head w b p c :
  0 <= b < Z.of_nat (length (wheelHeads_ w)) -> 0 <= c ->
  head_of (set_head w b p) c = if decide (c = b) then p else head_of w c.
Proof.
  intros Hb Hc. unfold head_of. cbn [set_head with_heads wheelHeads_]. case_decide as H.
  - subst c. by rewrite list_lookup_insert_eq by lia.
  - by rewrite list_lookup_insert_ne by lia.
Qed.

Lemma lst_snoc l x : lst (l ++ [x]) = x.
Proof. unfold lst. by rewrite last_snoc. Qed.

Lemma lst_app_cons l x k : lst (l ++ x :: k) = lst (x :: k).
Proof. unfold lst. rewrite last_app_cons. done. Qed.

Lemma hd_app_cons l x k : hd (l ++ x :: k) = hd (l ++ [x]).
Proof. by destruct l. Qed.

Lemma lst_in l : lst l <> NIL -> exists k, l = k ++ [lst l].
Proof.
  unfold lst. induction l as [|x l IH] using rev_ind; [done|].
  rewrite last_snoc. intros _. by exists l.
Qed.

Lemma hd_in l : hd l <> NIL -> exists k, l = hd l :: k.
Proof. destruct l as [|x l]; [done|]. intros _. by exists l. Qed.

(** Where a linked slot sits in its bucket. *)
Record sits (w : wheel) (ls : Z -> list Z) (p : Z) (l1 l2 : list Z) : Prop := {
  sits_eq : ls (bucket (slot w p)) = l1 ++ p :: l2;
  sits_prev : prev (slot w p) = lst l1;
  sits_next : next (slot w p) = hd l2;
  sits_nin1 : p ∉ l1; sits_nin2 : p ∉ l2;
  sits_disj : forall q, q ∈ l1 -> q ∈ l2 -> False
}.

Lemma rep_node w ls b q :
  Rep w ls -> 0 <= b < slots_ w -> q ∈ ls b -> 0 <= q < cap_ w /\ bucket (slot w q) = b /\ q <> NIL.
Proof.
  intros R Hb Hq. apply list_elem_of_split in Hq as (l1 & l2 & E).
  destruct (dll_node _ _ _ (rep_dll _ _ R b Hb) _ _ _ E) as (H1 & H2 & _).
  repeat split; try done; try lia. pose proof (rep_cap _ _ R). unfold NIL. lia.
Qed.

Lemma linked_sits w ls p :
  Rep w ls -> 0 <= p < cap_ w -> bucket (slot w p) < slots_ w ->
  0 <= bucket (slot w p) /\ exists l1 l2, sits w ls p l1 l2.
Proof.
  intros R Hp Hb. destruct (rep_slot _ _ R p Hp) as [_ [H|[H1 H2]]]; [lia|].
  split; [lia|]. apply list_elem_of_split in H2 as (l1 & l2 & E). exists l1, l2.
  destruct (dll_node _ _ _ (rep_dll _ _ R _ H1) _ _ _ E) as (_ & _ & H3 & H4).
  pose proof (rep_nodup _ _ R _ H1) as HN. rewrite E in HN.
  apply NoDup_app in HN as (HN1 & HN2 & HN3). apply NoDup_cons in HN3 as [HN3 _].
  constructor; try done.
  - intros HI. apply (HN2 p HI). by left.
  - intros q Hq1 Hq2. apply (HN2 q Hq1). by right.
Qed.

Lemma sits_prev_in w ls p l1 l2 :
  sits w ls p l1 l2 -> prev (slot w p) <> NIL -> prev (slot w p) ∈ l1.
Proof.
  intros S H. rewrite (sits_prev _ _ _ _ _ S) in *.
  destruct (lst_in _ H) as [k E]. rewrite E at 2. apply elem_of_app. right. by left.
Qed.

Lemma sits_next_in w ls p l1 l2 :
  sits w ls p l1 l2 -> next (slot w p) <> NIL -> next (slot w p) ∈ l2.
Proof.
  intros S H. rewrite (sits_next _ _ _ _ _ S) in *.
  destruct (hd_in _ H) as [k E]. rewrite E at 2. by left.
Qed.

(** [unlink] on a linked slot: what every slot and every head becomes. *)
Lemma unlink_linked w ls p :
  Rep w ls -> 0 <= p < cap_ w -> bucket (slot w p) < slots_ w ->
  (forall q, 0 <= q < cap_ w -> slot (unlink w p) q =
     if decide (q = p) then mkSlot NIL NIL (extra (slot w p)) (slots_ w) 0
     else mkSlot (if decide (q = prev (slot w p)) then next (slot w p) else next (slot w q))
                 (if decide (q = next (slot w p)) then prev (slot w p) else prev (slot w q))
                 (extra (slot w q)) (bucket (slot w q)) (rounds (slot w q))) /\
  (forall b, 0 <= b -> head_of (unlink w p) b =
     if decide (b = bucket (slot w p) /\ head_of w b = p) then next (slot w p) else head_of w b).
Proof.
  intros R Hp Hb. destruct (linked_sits _ _ _ R Hp Hb) as (Hb0 & l1 & l2 & S).
  pose proof (dll_head _ _ _ (rep_dll _ _ R _ (conj Hb0 Hb))) as Hhd. rewrite (sits_eq _ _ _ _ _ S) in Hhd.
  assert (Hin : forall q, q ∈ l1 \/ q ∈ l2 -> 0 <= q < cap_ w /\ q <> NIL).
  { intros q Hq. destruct (rep_node w ls (bucket (slot w p)) q R) as (? & _ & ?); [lia| |done].
    rewrite (sits_eq _ _ _ _ _ S), elem_of_app, elem_of_cons. tauto. }
  pose proof (rep_meta _ _ R) as Hm. pose proof (rep_heads _ _ R) as Hh.
  assert (Hpn : p <> NIL) by (pose proof (rep_cap _ _ R); unfold NIL; lia).
  pose proof (sits_prev_in _ _ _ _ _ S) as HP. pose proof (sits_next_in _ _ _ _ _ S) as HN.
  unfold unlink. destruct (Z.leb_spec (slots_ w) (bucket (slot w p))); [lia|].
  set (P := prev (slot w p)) in *. set (N := next (slot w p)) in *.
  assert (Hhead : P <> NIL -> head_of w (bucket (slot w p)) <> p).
  { intros HPn Heq. rewrite Hhd in Heq. destruct l1 as [|x l1']; [by apply elem_of_nil in HP|].
    cbn in Heq. subst x. apply (sits_nin1 _ _ _ _ _ S). by left. }
  assert (Hhead' : P = NIL -> head_of w (bucket (slot w p)) = p).
  { intros HPn. rewrite Hhd. unfold P in HPn. rewrite (sits_prev _ _ _ _ _ S) in HPn.
    destruct l1 as [|x l1' _] using rev_ind; [done|]. exfalso. rewrite lst_snoc in HPn.
    destruct (Hin x); [left; apply elem_of_app; right; by left|]. done. }
  assert (HPN : P <> NIL -> P <> N).
  { intros HPn Heq. apply (sits_disj _ _ _ _ _ S P); [auto|]. rewrite Heq. apply HN. congruence. }
  assert (HPp : P <> NIL -> P <> p) by (intros HPn Heq; apply (sits_nin1 _ _ _ _ _ S); rewrite <- Heq; auto).
  assert (HNp : N <> NIL -> N <> p) by (intros HNn Heq; apply (sits_nin2 _ _ _ _ _ S); rewrite <- Heq; auto).
  assert (HPr : P <> NIL -> 0 <= P < cap_ w) by (intros HH; apply Hin; auto).
  assert (HNr : N <> NIL -> 0 <= N < cap_ w) by (intros HH; apply Hin; auto).
  split.
  - intros q Hq. assert (Hqn : q <> NIL) by (pose proof (rep_cap _ _ R); unfold NIL; lia).

    assert (Hlen : Z.of_nat (length (meta_ w)) = cap_ w) by (rewrite Hm; apply Z2Nat.id; apply (rep_cap _ _ R)).
    rewrite <- Hlen in HPr, HNr, Hp. rename HPr into HPr', HNr into HNr'. pose proof Hp as Hp'.
    assert (Hq0 : 0 <= q) by apply Hq. assert (Hp0 : 0 <= p) by apply Hp.
    clear HP HN Hhead Hin S Hhd Hlen Hq Hp Hm Hh R Hb0 Hb.
    destruct (Z.eqb_spec P NIL) as [EP|EP]; [rewrite (Hhead' EP), Z.eqb_refl|]; clear Hhead';
      destruct (Z.eqb_spec N NIL) as [EN|EN]; cbn [negb].
    + rewrite slot_upd, !slot_set_head by done. repeat case_decide; try congruence; apply slot_eta.
    + specialize (HNp EN). assert (0 <= N) by (specialize (HNr' EN); lia).
      rewrite !slot_upd, !slot_set_head by (rewrite ?length_meta_upd; auto).
      repeat case_decide; try congruence; try subst q; try done; apply slot_eta.
    + specialize (HPp EP). rewrite !slot_upd by (rewrite ?length_meta_upd; auto; lia).
      repeat case_decide; try congruence; try subst q; try done; apply slot_eta.
    + specialize (HPp EP). specialize (HNp EN). specialize (HPN EP).
      assert (0 <= P) by (specialize (HPr' EP); lia). assert (0 <= N) by (specialize (HNr' EN); lia).
      rewrite !slot_upd by (rewrite ?length_meta_upd; auto).
      repeat case_decide; try congruence; try subst q; try done; apply slot_eta.
  - intros b Hbb.
    destruct (Z.eqb_spec P NIL) as [EP|EP]; [rewrite (Hhead' EP), Z.eqb_refl|];
      destruct (Z.eqb_spec N NIL) as [EN|EN]; cbn [negb];
      rewrite ?head_of_upd; try (rewrite head_of_set_head by lia); repeat case_decide; try done;
      exfalso; clear HP HN Hin HPN HPp HNp HPr HNr;
      try specialize (Hhead EP); try specialize (Hhead' EP); subst; intuition congruence.
Qed.

Lemma same_config_unlink w p : same_config w (unlink w p).
Proof.
  unfold unlink. case_match; [done|].
  eapply same_config_trans; [|apply same_config_upd].
  repeat case_match; auto; try (eapply same_config_trans; [|apply same_config_upd]); auto.
Qed.

Lemma shared_now w p : nowTick_ (unlink w p) = nowTick_ w /\ unit_ (unlink w p) = unit_ w.
Proof. unfold unlink. repeat case_match; done. Qed.

Definition without (p : Z) (ls : Z -> list Z) : Z -> list Z :=
  fun b => filter (fun q => q <> p) (ls b).

Lemma filter_out (p : Z) (l : list Z) : p ∉ l -> filter (fun q => q <> p) l = l.
Proof.
  intros H. induction l as [|x l IH]; [done|].
  apply not_elem_of_cons in H as [H1 H2]. rewrite filter_cons_True by congruence. by rewrite IH.
Qed.

Lemma filter_out_mid (p : Z) (l1 l2 : list Z) :
  p ∉ l1 -> p ∉ l2 -> filter (fun q => q <> p) (l1 ++ p :: l2) = l1 ++ l2.
Proof.
  intros H1 H2. rewrite filter_app, filter_cons_False by tauto. by rewrite !filter_out.
Qed.

(** A list in which no element is [P] or [N] keeps its nodes. *)
Lemma dll_frame w w' b l :
  cap_ w' = cap_ w -> head_of w' b = head_of w b ->
  (forall q, q ∈ l -> next (slot w' q) = next (slot w q) /\ prev (slot w' q) = prev (slot w q) /\
                      bucket (slot w' q) = bucket (slot w q)) ->
  dll w b l -> dll w' b l.
Proof.
  intros Hc Hh Hs [H1 H2]. constructor; [congruence|]. intros l1 p l2 E.
  destruct (Hs p) as (A & B & C); [rewrite E; apply elem_of_app; right; by left|].
  rewrite A, B, C, Hc. by apply H2.
Qed.

Lemma sits_nodes w ls p l1 l2 k1 q k2 :
  Rep w ls -> 0 <= p < cap_ w -> bucket (slot w p) < slots_ w -> sits w ls p l1 l2 ->
  l1 ++ l2 = k1 ++ q :: k2 ->
  q <> p /\ 0 <= q < cap_ w /\ bucket (slot w q) = bucket (slot w p) /\
  (if decide (q = prev (slot w p)) then next (slot w p) else next (slot w q)) = hd k2 /\
  (if decide (q = next (slot w p)) then prev (slot w p) else prev (slot w q)) = lst k1.
Proof.
  intros R Hp Hb S E. destruct (linked_sits _ _ _ R Hp Hb) as (Hb0 & _).
  pose proof (rep_dll _ _ R _ (conj Hb0 Hb)) as [_ HD]. pose proof (rep_nodup _ _ R _ (conj Hb0 Hb)) as HN.
  rewrite (sits_eq _ _ _ _ _ S) in HD, HN.
  rewrite (sits_prev _ _ _ _ _ S), (sits_next _ _ _ _ _ S).
  assert (Hqn : q <> NIL /\ q <> p).
  { assert (Hq : q ∈ l1 ++ l2) by (rewrite E; apply elem_of_app; right; by left).
    split; [|intros ->; apply elem_of_app in Hq as [H|H]; [by apply (sits_nin1 _ _ _ _ _ S)|by apply (sits_nin2 _ _ _ _ _ S)]].
    destruct (rep_node w ls (bucket (slot w p)) q R) as (_ & _ & ?); [lia| |done].
    rewrite (sits_eq _ _ _ _ _ S). set_solver. }
  destruct Hqn as [Hqn Hqp]. split; [done|].
  apply app_eq_inv in E as [(k & E1 & E2)|(k & E1 & E2)].
  - destruct k as [|x k]; cbn in E2.
    + rewrite app_nil_r in E1. subst k1 l2. destruct (HD (l1 ++ [p]) q k2) as (A & B & C & D); [by rewrite <- app_assoc|].
      rewrite C, D, lst_snoc. repeat (split; [done|]). cbn [hd]. split.
      * rewrite decide_False; [done|]. intros Hq. destruct (lst_in l1) as [u Eu]; [congruence|].
        apply (sits_disj _ _ _ _ _ S q); [rewrite Eu, Hq; set_solver|by left].
      * rewrite decide_True by done. done.
    + injection E2 as <- ->. subst l1. destruct (HD k1 q (k ++ p :: l2)) as (A & B & C & D); [by rewrite <- app_assoc|].
      rewrite C, D. repeat (split; [done|]). split.
      * destruct k as [|y k]; [rewrite decide_True; [done|by rewrite lst_snoc]|].
        rewrite decide_False; [done|]. change (q :: y :: k) with ([q] ++ y :: k).
        rewrite app_assoc, lst_app_cons. intros Hq. destruct (lst_in (y :: k)) as [u Eu]; [congruence|].
        rewrite <- app_assoc in HN. cbn in HN. apply NoDup_app in HN as (_ & _ & HN).
        apply NoDup_cons in HN as [HN _]. apply HN.
        change (y :: k ++ p :: l2) with ((y :: k) ++ p :: l2). rewrite Eu, <- Hq. set_solver.
      * rewrite decide_False; [done|]. intros Hq. destruct (hd_in l2) as [u Eu]; [congruence|].
        apply (sits_disj _ _ _ _ _ S q); [set_solver|]. rewrite Eu, <- Hq. by left.
  - subst k1 l2. destruct (HD (l1 ++ p :: k) q k2) as (A & B & C & D); [by rewrite <- app_assoc|].
    rewrite C, D. repeat (split; [done|]). split.
    + rewrite decide_False; [done|]. intros Hq. destruct (lst_in l1) as [u Eu]; [congruence|].
      apply (sits_disj _ _ _ _ _ S q); [rewrite Eu, Hq; set_solver|set_solver].
    + destruct k as [|y k]; [rewrite decide_True by done; by rewrite app_nil_r|].
      rewrite decide_False, lst_app_cons.
      * change (p :: y :: k) with ([p] ++ y :: k). by rewrite !lst_app_cons.
      * cbn. intros <-. apply NoDup_app in HN as (_ & _ & HN). apply NoDup_cons in HN as [_ HN].
        cbn in HN. apply NoDup_cons in HN as [HN _]. apply HN. set_solver.
Qed.

Lemma unlink_rep w ls p : Rep w ls -> 0 <= p < cap_ w -> Rep (unlink w p) (without p ls).
Proof.
  intros R Hp. pose proof (same_config_unlink w p) as SC. destruct SC as [C1 C2 C3 C4 C5 C6 C7].
  destruct (decide (slots_ w <= bucket (slot w p))) as [Hb|Hb].
  - assert (unlink w p = w) as ->.
    { unfold unlink. destruct (Z.leb_spec (slots_ w) (bucket (slot w p))); [done|lia]. }
    assert (HE : forall b, 0 <= b < slots_ w -> without p ls b = ls b).
    { intros b Hbb. apply filter_out. intros HI. destruct (rep_node _ _ _ _ R Hbb HI) as (_ & ? & _). lia. }
    destruct R. constructor; try done; intros q Hq; try (rewrite HE by done; auto).
    destruct (rep_slot0 q Hq) as [H1 [H2|[H2 H3]]]; [auto|].
    split; [done|right; split; [done|]]. by rewrite HE by lia.
  - assert (Hb' : bucket (slot w p) < slots_ w) by lia. clear Hb.
    destruct (unlink_linked _ _ _ R Hp Hb') as [HS HH].
    destruct (linked_sits _ _ _ R Hp Hb') as (Hb0 & l1 & l2 & S).
    assert (Hout : forall b, 0 <= b < slots_ w -> b <> bucket (slot w p) -> without p ls b = ls b).
    { intros b Hbb Hne. apply filter_out. intros HI. destruct (rep_node _ _ _ _ R Hbb HI) as (_ & ? & _). lia. }
    assert (Hin : without p ls (bucket (slot w p)) = l1 ++ l2).
    { unfold without. rewrite (sits_eq _ _ _ _ _ S). apply filter_out_mid; [apply (sits_nin1 _ _ _ _ _ S)|apply (sits_nin2 _ _ _ _ _ S)]. }
    pose proof R as [R1 R2 R3 R4 R5 R6 R7 R8 R9]. constructor; rewrite ?C1, ?C2, ?C3, ?C4, ?C6, ?C7; try done.
    + intros b Hbb. destruct (decide (b = bucket (slot w p))) as [->|Hne].
      * rewrite Hin. constructor.
        -- rewrite HH by lia. rewrite (dll_head _ _ _ (R7 _ Hbb)), (sits_eq _ _ _ _ _ S).
           destruct l1 as [|x l1]; cbn.
           ++ rewrite decide_True by done. apply (sits_next _ _ _ _ _ S).
           ++ rewrite decide_False; [done|]. intros [_ ->]. apply (sits_nin1 _ _ _ _ _ S). by left.
        -- intros k1 q k2 E. rewrite C1. destruct (sits_nodes _ _ _ _ _ _ _ _ R Hp Hb' S E) as (A & B & C & D & F).
           rewrite HS by done. rewrite decide_False by done. cbn. done.
      * rewrite Hout by done. apply (dll_frame w); [done| | |by apply R7].
        -- rewrite HH by lia. rewrite decide_False; [done|]. tauto.
        -- intros q Hq. destruct (rep_node _ _ _ _ R Hbb Hq) as (A & B & C).
           rewrite HS by done. rewrite decide_False by congruence. cbn.
           rewrite !decide_False; [done| |].
           ++ intros ->. pose proof (sits_next_in _ _ _ _ _ S C) as HI. apply Hne.
              destruct (rep_node w ls (bucket (slot w p)) (next (slot w p)) R) as (_ & D & _); [done| |congruence].
              rewrite (sits_eq _ _ _ _ _ S). set_solver.
           ++ intros ->. pose proof (sits_prev_in _ _ _ _ _ S C) as HI. apply Hne.
              destruct (rep_node w ls (bucket (slot w p)) (prev (slot w p)) R) as (_ & D & _); [done| |congruence].
              rewrite (sits_eq _ _ _ _ _ S). set_solver.
    + intros b Hbb. by apply NoDup_filter, R8.
    + intros q Hq. rewrite HS by done. case_decide as Hqp; cbn; [lia|].
      destruct (R9 q Hq) as [H1 [H2|[H2 H3]]]; [auto|]. split; [done|right; split; [done|]].
      unfold without. apply list_elem_of_filter. done.
Qed.

(** ** Insertion *)

Lemma pow_lt_16 s : 0 <= s < 16 -> 0 < 2 ^ s /\ 2 ^ s <= 32768.
Proof.
  intros H. split; [apply Z.pow_pos_nonneg; lia|]. change 32768 with (2 ^ 15). apply Z.pow_le_mono_r; lia.
Qed.

Lemma rep_slots_pos w ls : Rep w ls -> 0 < slots_ w <= 32768.
Proof. intros R. rewrite (rep_slots _ _ R). pose proof (pow_lt_16 _ (rep_shift _ _ R)). lia. Qed.

(** [expireTick & mask_] is the residue modulo the number of buckets. *)
Lemma wheel_land_mask w ls t : Rep w ls -> Z.land t (mask_ w) = t mod slots_ w.
Proof. intros R. rewrite (rep_mask _ _ R), (rep_slots _ _ R). apply Z.land_ones. apply (rep_shift _ _ R). Qed.

Lemma shr_shift w ls t : Rep w ls -> Z.shiftr t (shift_ w) = t / slots_ w.
Proof. intros R. rewrite (rep_slots _ _ R). apply Z.shiftr_div_pow2. apply (rep_shift _ _ R). Qed.

Lemma bucket_small w ls t : Rep w ls -> u32 (t mod slots_ w) = t mod slots_ w /\ u16 (t mod slots_ w) = t mod slots_ w.
Proof.
  intros R. pose proof (rep_slots_pos _ _ R). pose proof (Z.mod_pos_bound t (slots_ w)).
  split; apply wrap_small; lia.
Qed.

Lemma insert_head_unfold w ls pos ext e :
  Rep w ls ->
  insert_head w pos ext e =
    let b := e mod slots_ w in let h := head_of w b in
    let w1 := upd w pos (fun _ => mkSlot h NIL ext b (u8 (e / slots_ w - nowTick_ w / slots_ w))) in
    set_head (if negb (h =? NIL) then upd w1 h (set_prev pos) else w1) b pos.
Proof.
  intros R. unfold insert_head. rewrite (wheel_land_mask _ _ _ R), !(shr_shift _ _ _ R).
  destruct (bucket_small _ _ e R) as [-> ->]. done.
Qed.

Lemma head_range w ls b : Rep w ls -> 0 <= b < slots_ w -> head_of w b <> NIL ->
  0 <= head_of w b < cap_ w /\ exists r, ls b = head_of w b :: r.
Proof.
  intros R Hb Hn. pose proof (dll_head _ _ _ (rep_dll _ _ R b Hb)) as H. rewrite H in *.
  destruct (hd_in _ Hn) as [r E]. split; [|by exists r].
  apply (rep_node w ls b _ R Hb). rewrite E. by left.
Qed.

Lemma insert_head_slot w ls pos ext e q :
  Rep w ls -> 0 <= pos < cap_ w -> slots_ w <= bucket (slot w pos) -> 0 <= q < cap_ w ->
  slot (insert_head w pos ext e) q =
    if decide (q = pos) then mkSlot (head_of w (e mod slots_ w)) NIL ext (e mod slots_ w)
                               (u8 (e / slots_ w - nowTick_ w / slots_ w))
    else mkSlot (next (slot w q)) (if decide (q = head_of w (e mod slots_ w)) then pos else prev (slot w q))
           (extra (slot w q)) (bucket (slot w q)) (rounds (slot w q)).
Proof.
  intros R Hp Hu Hq. rewrite (insert_head_unfold _ _ _ _ _ R). cbv zeta.
  pose proof (rep_slots_pos _ _ R) as Hs. pose proof (Z.mod_pos_bound e (slots_ w) ltac:(lia)) as Hb.
  pose proof (rep_meta _ _ R) as Hm. rewrite slot_set_head.
  destruct (Z.eqb_spec (head_of w (e mod slots_ w)) NIL) as [E|E]; cbn [negb].
  - rewrite slot_upd by lia. repeat case_decide; try done; [|apply slot_eta].
    exfalso. pose proof (rep_cap _ _ R). rewrite E in *. unfold NIL in *. lia.
  - destruct (head_range _ _ _ R Hb E) as [Hr [r Er]].
    assert (Hne : head_of w (e mod slots_ w) <> pos).
    { intros Heq. destruct (rep_node w ls (e mod slots_ w) (head_of w (e mod slots_ w)) R Hb) as (_ & ? & _).
      - rewrite Er. by left. - rewrite Heq in *. lia. }
    rewrite !slot_upd by (rewrite ?length_meta_upd; lia).
    repeat case_decide; try congruence; try done; [|apply slot_eta]. subst q. done.
Qed.

Lemma insert_head_rep w ls pos ext e :
  Rep w ls -> 0 <= pos < cap_ w -> slots_ w <= bucket (slot w pos) ->
  Rep (insert_head w pos ext e)
      (fun b => if decide (b = e mod slots_ w) then pos :: ls b else ls b).
Proof.
  intros R Hp Hu. assert (HS := fun q => insert_head_slot w ls pos ext e q R Hp Hu).
  assert (HI := insert_head_unfold _ _ pos ext e R). cbv zeta in HI.
  pose proof (rep_slots_pos _ _ R) as Hs. pose proof (Z.mod_pos_bound e (slots_ w) ltac:(lia)) as Hb.
  pose proof (rep_heads _ _ R) as Hh.
  assert (HH : forall b, 0 <= b -> head_of (insert_head w pos ext e) b = if decide (b = e mod slots_ w) then pos else head_of w b).
  { intros b Hbb. rewrite HI. case_match; rewrite head_of_set_head by (cbn; lia); by rewrite ?head_of_upd. }
  assert (HC : same_config w (insert_head w pos ext e) /\ nowTick_ (insert_head w pos ext e) = nowTick_ w).
  { rewrite HI. split; [|by case_match]. eapply same_config_trans; [|apply same_config_set_head].
    case_match; auto. eapply same_config_trans; [|apply same_config_upd]. auto. }
  destruct HC as [[C1 C2 C3 C4 C5 C6 C7] C8]. clear HI.
  assert (Hnin : forall b, 0 <= b < slots_ w -> pos ∉ ls b).
  { intros b Hbb HIn. destruct (rep_node _ _ _ _ R Hbb HIn) as (_ & ? & _). lia. }
  pose proof R as [R1 R2 R3 R4 R5 R6 R7 R8 R9].
  constructor; rewrite ?C1, ?C2, ?C3, ?C4, ?C6, ?C7; try done.
  - intros b Hbb. case_decide as Hd; [subst b|].
    + constructor; [rewrite HH by lia; by rewrite decide_True|]. intros l1 q l2 E. rewrite C1.
      destruct l1 as [|x l1]; injection E as <- E.
      * rewrite HS by done. rewrite decide_True by done. cbn. repeat split; try lia.
        rewrite <- E. apply (dll_head _ _ _ (R7 _ Hbb)).
      * destruct (dll_node _ _ _ (R7 _ Hbb) _ _ _ E) as (A & B & C & D).
        rewrite HS by done. rewrite decide_False by (intros ->; lia).
        cbn [bucket prev next]. repeat split; try done; try lia.
        rewrite (dll_head _ _ _ (R7 _ Hbb)), E. destruct l1 as [|y l1]; cbn [app hd head default].
        -- by rewrite decide_True.
        -- rewrite decide_False; [rewrite C; unfold lst; cbn; by rewrite !last_cons|]. cbn.
           intros <-. pose proof (R8 _ Hbb) as HN. rewrite E in HN. apply NoDup_cons in HN as [HN _].
           apply HN. set_solver.
    + apply (dll_frame w); [done| | |by apply R7].
      * rewrite HH by lia. by rewrite decide_False.
      * intros q Hq. destruct (rep_node _ _ _ _ R Hbb Hq) as (A & B & C). rewrite HS by done.
        rewrite decide_False by (intros ->; lia). cbn. repeat split; try done. apply decide_False.
        intros ->. destruct (head_range _ _ _ R Hb C) as [_ [r Er]]. apply Hd.
        destruct (rep_node w ls (e mod slots_ w) (head_of w (e mod slots_ w)) R Hb) as (_ & D & _); [rewrite Er; by left|lia].
  - intros b Hbb. case_decide; [|auto]. apply NoDup_cons. auto.
  - intros q Hq. rewrite HS by done. case_decide as Hd; cbn [rounds bucket].
    + split; [apply wrap_range; lia|right; split; [lia|]]. rewrite decide_True by done. subst. by left.
    + destruct (R9 q Hq) as [H1 [H2|[H2 H3]]]; [auto|]. split; [done|right; split; [done|]].
      case_decide; [by right|done].
Qed.

(** ** One slot at a time *)

Definition wf (w : wheel) : Prop := exists ls, Rep w ls.

Lemma Rep_ext w ls ls' :
  (forall b, 0 <= b < slots_ w -> ls b = ls' b) -> Rep w ls -> Rep w ls'.
Proof.
  intros E []. constructor; try done; intros b Hb; try (rewrite <- E by done; auto).
  destruct (rep_slot0 b Hb) as [H1 [H2|[H2 H3]]]; [auto|]. split; [done|right; split; [done|]]. by rewrite <- E.
Qed.

(** Equal but for the slot [p] and for the links. *)
Record agree (p : Z) (w w' : wheel) : Prop := {
  ag_config : same_config w w';
  ag_now : nowTick_ w' = nowTick_ w;
  ag_slot : forall q, 0 <= q < cap_ w -> q <> p ->
    extra (slot w' q) = extra (slot w q) /\ bucket (slot w' q) = bucket (slot w q) /\
    rounds (slot w' q) = rounds (slot w q)
}.

Lemma agree_trans p a b c : agree p a b -> agree p b c -> agree p a c.
Proof.
  intros [A1 A2 A3] [B1 B2 B3]. constructor; [by eapply same_config_trans|congruence|].
  intros q Hq Hne. destruct (A3 q Hq Hne) as (?&?&?). destruct (B3 q) as (?&?&?); [by rewrite (sc_cap _ _ A1)|done|].
  repeat split; congruence.
Qed.

Lemma unlink_agree w ls p : Rep w ls -> 0 <= p < cap_ w -> agree p w (unlink w p).
Proof.
  intros R Hp. constructor; [apply same_config_unlink|apply shared_now|]. intros q Hq Hne.
  destruct (decide (slots_ w <= bucket (slot w p))) as [Hb|Hb].
  - unfold unlink. destruct (Z.leb_spec (slots_ w) (bucket (slot w p))); [done|lia].
  - destruct (unlink_linked _ _ _ R Hp ltac:(lia)) as [HS _]. rewrite HS by done.
    by rewrite decide_False.
Qed.

Lemma unlink_unlinked w ls p :
  Rep w ls -> 0 <= p < cap_ w -> slots_ w <= bucket (slot (unlink w p) p).
Proof.
  intros R Hp. destruct (decide (slots_ w <= bucket (slot w p))) as [Hb|Hb].
  - unfold unlink. destruct (Z.leb_spec (slots_ w) (bucket (slot w p))); [done|lia].
  - destruct (unlink_linked _ _ _ R Hp ltac:(lia)) as [HS _]. rewrite HS by done.
    rewrite decide_True by done. cbn. lia.
Qed.

Lemma Unlink_ok w ls p :
  Rep w ls -> 0 <= p < cap_ w ->
  Unlink w p = Ret (unlink w p) /\ Rep (unlink w p) (without p ls) /\ agree p w (unlink w p) /\
  slots_ w <= bucket (slot (unlink w p) p).
Proof.
  intros R Hp. split; [|split; [by apply unlink_rep|split; [by eapply unlink_agree|by eapply unlink_unlinked]]].
  unfold Unlink. destruct (Z.leb_spec (cap_ w) p); [lia|done].
Qed.

Lemma ClearSlot_ok w ls p :
  Rep w ls -> 0 <= p < cap_ w -> slots_ w <= bucket (slot w p) ->
  Rep (ClearSlot w p) ls /\ agree p w (ClearSlot w p) /\ slot (ClearSlot w p) p = SlotMeta_init.
Proof.
  intros R Hp Hu. pose proof (rep_slots_pos _ _ R) as Hs. pose proof (rep_meta _ _ R) as Hm.
  assert (HS : forall q, 0 <= q -> slot (ClearSlot w p) q = if decide (q = p) then SlotMeta_init else slot w q).
  { intros q Hq. unfold ClearSlot. by rewrite slot_upd by lia. }
  split; [|split].
  - assert (Hnin : forall b, 0 <= b < slots_ w -> p ∉ ls b).
    { intros b Hbb HIn. destruct (rep_node _ _ _ _ R Hbb HIn) as (_ & ? & _). lia. }
    destruct R. constructor; try done.
    + unfold ClearSlot. by rewrite length_meta_upd.
    + intros b Hb. apply (dll_frame w); [done|done| |by apply rep_dll0]. intros q Hq.
      rewrite HS; [|destruct (list_elem_of_split _ _ Hq) as (l1 & l2 & E);
        destruct (dll_node _ _ _ (rep_dll0 _ Hb) _ _ _ E); lia].
      rewrite decide_False; [done|]. intros ->. by apply (Hnin b).
    + intros q Hq. rewrite HS by lia. case_decide; [|auto]. cbn. cbn in *. lia.
  - constructor; [apply same_config_upd|done|]. intros q Hq Hne. rewrite HS by lia. by rewrite decide_False.
  - rewrite HS by lia. by rewrite decide_True.
Qed.

(** The tick [Schedule] computes for a timeout. *)
Definition expire_tick (w : wheel) (timeout : Z) : Z := u64 (nowTick_ w + ticks_of w timeout).

Lemma Schedule_ok w ls p ext t :
  Rep w ls -> 0 <= p < cap_ w ->
  exists w', Schedule w p ext t = Ret w' /\
    Rep w' (fun b => if decide (b = expire_tick w t mod slots_ w) then p :: without p ls b else without p ls b) /\
    agree p w w' /\
    bucket (slot w' p) = expire_tick w t mod slots_ w /\ extra (slot w' p) = ext /\
    rounds (slot w' p) = u8 (expire_tick w t / slots_ w - nowTick_ w / slots_ w).
Proof.
  intros R Hp. destruct (Unlink_ok _ _ _ R Hp) as (E & R' & A & U).
  unfold Schedule. destruct (Z.leb_spec (cap_ w) p); [lia|]. rewrite E. cbn [obind].
  set (w1 := unlink w p) in *. destruct A as [A1 A2 A3].
  assert (HE : u64 (nowTick_ w1 + ticks_of w1 t) = expire_tick w t).
  { unfold expire_tick, ticks_of. by rewrite A2, (sc_tick _ _ A1). }
  rewrite HE. rewrite <- (sc_cap _ _ A1) in Hp. rewrite <- (sc_slots _ _ A1) in *.
  eexists. split; [done|]. split; [by apply insert_head_rep|].
  pose proof (fun q => insert_head_slot w1 _ p ext (expire_tick w t) q R' Hp U) as HS.
  split; [|rewrite HS, decide_True by done; cbn; by rewrite A2].
  constructor.
  - eapply same_config_trans; [done|]. rewrite (insert_head_unfold _ _ _ _ _ R'). cbv zeta.
    eapply same_config_trans; [|apply same_config_set_head].
    case_match; auto. eapply same_config_trans; [|apply same_config_upd]. auto.
  - rewrite <- A2. rewrite (insert_head_unfold _ _ _ _ _ R'). cbv zeta. by case_match.
  - intros q Hq Hne. destruct (A3 q Hq Hne) as (X & Y & Z). rewrite HS by (rewrite (sc_cap _ _ A1); done).
    rewrite decide_False by done. cbn. done.
Qed.

Lemma Cancel_ok w ls p :
  Rep w ls -> 0 <= p < cap_ w ->
  exists w', Cancel w p = Ret w' /\ Rep w' (without p ls) /\ agree p w w' /\ slot w' p = SlotMeta_init.
Proof.
  intros R Hp. destruct (Unlink_ok _ _ _ R Hp) as (E & R' & A & U).
  unfold Cancel. destruct (Z.leb_spec (cap_ w) p); [lia|]. rewrite E. cbn [obind].
  destruct (ClearSlot_ok _ _ p R') as (R2 & A2 & S2);
    [by rewrite (sc_cap _ _ (ag_config _ _ _ A))|by rewrite (sc_slots _ _ (ag_config _ _ _ A))|].
  eexists. split; [done|]. split; [done|]. split; [by eapply agree_trans|done].
Qed.

Definition op_on (p : Z) (o : wheel_op) : Prop :=
  match o with OpSchedule q _ _ => q = p | OpCancel q => q = p end.

Lemma without_idem p ls b : without p (without p ls) b = without p ls b.
Proof.
  unfold without. apply filter_out. intros H. apply list_elem_of_filter in H. tauto.
Qed.

Lemma run_ops_own w ls p os :
  Rep w ls -> 0 <= p < cap_ w -> Forall (op_on p) os ->
  exists w' ls', run_ops w os = Ret w' /\ Rep w' ls' /\ agree p w w' /\
    (forall b, without p ls' b = without p ls b).
Proof.
  intros R Hp HF. revert w ls R Hp. induction HF as [|o os Ho _ IH]; intros w ls R Hp; cbn [run_ops].
  - exists w, ls. split; [done|]. split; [done|]. split; [|done]. by constructor.
  - assert (exists w1 ls1, run_op w o = Ret w1 /\ Rep w1 ls1 /\ agree p w w1 /\
      (forall b, without p ls1 b = without p ls b)) as (w1 & ls1 & E & R1 & A1 & W1).
    { destruct o as [q e t|q]; cbn in Ho; subst q; cbn [run_op].
      - destruct (Schedule_ok w ls p e t R Hp) as (w1 & E & R1 & A1 & _).
        eexists w1, _. split; [done|]. split; [done|]. split; [done|]. intros b.
        rewrite <- (without_idem p ls b). unfold without at 1. case_decide; [|done].
        by rewrite filter_cons_False by tauto.
      - destruct (Cancel_ok w ls p R Hp) as (w1 & E & R1 & A1 & _). eexists w1, _.
        split; [done|]. split; [done|]. split; [done|]. intros b. apply without_idem. }
    rewrite E. cbn [obind]. destruct (IH w1 ls1 R1) as (w2 & ls2 & E2 & R2 & A2 & W2).
    { by rewrite (sc_cap _ _ (ag_config _ _ _ A1)). }
    exists w2, ls2. split; [done|]. split; [done|]. split; [by eapply agree_trans|].
    intros b. by rewrite W2.
Qed.

(** A callback that keeps to its own slot, then the unlinking after it. *)
Lemma fire_own w ls p os :
  Rep w ls -> 0 <= p < cap_ w -> Forall (op_on p) os ->
  exists w', (let* w1 := run_ops w os in Unlink w1 p) = Ret w' /\ Rep w' (without p ls) /\
    agree p w w' /\ slots_ w <= bucket (slot w' p).
Proof.
  intros R Hp HF. destruct (run_ops_own _ _ _ _ R Hp HF) as (w1 & ls1 & E & R1 & A1 & W1).
  rewrite E. cbn [obind]. rewrite <- (sc_cap _ _ (ag_config _ _ _ A1)) in Hp.
  destruct (Unlink_ok _ _ _ R1 Hp) as (E2 & R2 & A2 & U2). eexists. split; [done|].
  split; [by eapply Rep_ext, R2|]. split; [by eapply agree_trans|].
  by rewrite <- (sc_slots _ _ (ag_config _ _ _ A1)).
Qed.

(** ** One bucket *)

Definition fires (w : wheel) (p : Z) : bool := rounds (slot w p) =? 0.

Definition event (w : wheel) (p : Z) : Z * Z := (p, extra (slot w p)).

(** What a pass over the entries [todo] of a bucket does to slot [q]. *)
Definition passed (w w' : wheel) (todo : list Z) (q : Z) : Prop :=
  if decide (q ∈ todo) then
    if fires w q then slots_ w <= bucket (slot w' q)
    else extra (slot w' q) = extra (slot w q) /\ bucket (slot w' q) = bucket (slot w q) /\
         rounds (slot w' q) = rounds (slot w q) - 1
  else extra (slot w' q) = extra (slot w q) /\ bucket (slot w' q) = bucket (slot w q) /\
       rounds (slot w' q) = rounds (slot w q).

Definition keep (w : wheel) (l : list Z) : list Z := filter (fun q => fires w q = false) l.

Definition events (w : wheel) (l : list Z) : list (Z * Z) :=
  event w <$> filter (fun q => fires w q = true) l.

Lemma pass_ext w w' l :
  (forall q, q ∈ l -> extra (slot w' q) = extra (slot w q) /\ rounds (slot w' q) = rounds (slot w q)) ->
  events w' l = events w l /\ keep w' l = keep w l.
Proof.
  unfold events, keep. induction l as [|x l IH]; intros H; [done|].
  destruct (H x) as [H1 H2]; [by left|]. destruct IH as [I1 I2]; [intros q Hq; apply H; by right|].
  assert (HF : fires w' x = fires w x) by (unfold fires; by rewrite H2).
  rewrite !filter_cons, HF. split; case_decide; cbn; rewrite ?I1, ?I2; unfold event; rewrite ?H1; done.
Qed.

Lemma passed_cons w w1 w2 p todo q :
  p ∉ todo -> slots_ w1 = slots_ w ->
  (q <> p -> extra (slot w1 q) = extra (slot w q) /\ bucket (slot w1 q) = bucket (slot w q) /\
             rounds (slot w1 q) = rounds (slot w q)) ->
  (if fires w p then slots_ w <= bucket (slot w1 p)
   else extra (slot w1 p) = extra (slot w p) /\ bucket (slot w1 p) = bucket (slot w p) /\
        rounds (slot w1 p) = rounds (slot w p) - 1) ->
  passed w1 w2 todo q -> passed w w2 (p :: todo) q.
Proof.
  intros Hn Hs Hne Hp HP. unfold passed in *. destruct (decide (q = p)) as [->|Hd].
  - rewrite decide_True by (by left). rewrite decide_False in HP by done. destruct HP as (A & B & C).
    destruct (fires w p); [by rewrite B|]. by rewrite A, B, C.
  - destruct (Hne Hd) as (A & B & C). assert (HF : fires w1 q = fires w q) by (unfold fires; by rewrite C).
    rewrite HF, Hs, A, B, C in HP.
    case_decide as Hq1; case_decide as Hq2; try done; exfalso; set_solver.
Qed.

Lemma set_rounds_rep w ls p :
  Rep w ls -> 0 <= p < cap_ w -> rounds (slot w p) <> 0 ->
  let w' := upd w p (fun s => set_rounds (u8 (rounds s - 1)) s) in
  Rep w' ls /\ same_config w w' /\
  (forall q, 0 <= q < cap_ w -> slot w' q = if decide (q = p) then set_rounds (rounds (slot w p) - 1) (slot w p)
                               else slot w q).
Proof.
  intros R Hp Hr w'. pose proof (rep_meta _ _ R) as Hm.
  assert (Hru : u8 (rounds (slot w p) - 1) = rounds (slot w p) - 1).
  { apply wrap_small. destruct (rep_slot _ _ R p Hp) as [? _]. lia. }
  assert (HS : forall q, 0 <= q < cap_ w -> slot w' q =
    if decide (q = p) then set_rounds (rounds (slot w p) - 1) (slot w p) else slot w q).
  { intros q Hq. unfold w'. rewrite slot_upd by lia. by rewrite Hru. }
  split; [|split; [apply same_config_upd|done]].
  destruct R. constructor; try done.
  - unfold w'. by rewrite length_meta_upd.
  - intros b Hb. apply (dll_frame w); [done|done| |by apply rep_dll0]. intros q Hq.
    destruct (list_elem_of_split _ _ Hq) as (l1 & l2 & E).
    destruct (dll_node _ _ _ (rep_dll0 _ Hb) _ _ _ E) as [Hqr _].
    rewrite HS by done. case_decide; [subst|]; done.
  - intros q Hq. rewrite HS by done. case_decide as Hd; [subst q|auto].
    destruct (rep_slot0 p Hp) as [? ?]. cbn. split; [lia|done].
Qed.

Section Loop.
Context {W : Type} (onExpire : Z -> Z -> W -> list wheel_op * W).
Hypothesis own : forall p ext st, Forall (op_on p) (fst (onExpire p ext st)).

(** The pass over one bucket, from the entry after [dn]. *)
Lemma bucket_loop_ok todo : forall fuel w st ls b dn,
  Rep w ls -> 0 <= b < slots_ w -> ls b = dn ++ todo -> (length todo <= fuel)%nat ->
  exists w' st', bucket_loop onExpire fuel w st (hd todo) = Some (Ret (w', st', events w todo)) /\
    Rep w' (fun c => if decide (c = b) then dn ++ keep w todo else ls c) /\
    same_config w w' /\ nowTick_ w' = nowTick_ w /\
    (forall q, 0 <= q < cap_ w -> passed w w' todo q).
Proof.
  induction todo as [|p todo IH]; intros fuel w st ls b dn R Hb E Hf.
  { exists w, st. split; [by destruct fuel|]. split; [|split; [done|split; [done|]]].
    - eapply Rep_ext, R. intros c Hc. cbn. case_decide; [by subst|done].
    - intros q Hq. unfold passed. rewrite decide_False by apply not_elem_of_nil. done. }
  destruct fuel as [|fuel]; cbn [length] in Hf; [lia|].
  destruct (dll_node _ _ _ (rep_dll _ _ R b Hb) _ _ _ E) as (Hp & Hpb & _ & Hpn).
  assert (HN := rep_nodup _ _ R b Hb). rewrite E in HN. apply NoDup_app in HN as (_ & HN2 & HN3).
  apply NoDup_cons in HN3 as [Hpt HN3].
  assert (Hpd : p ∉ dn) by (intros HI; apply (HN2 p HI); by left).
  assert (Hpne : p <> NIL) by (pose proof (rep_cap _ _ R); unfold NIL; lia).
  assert (Htodo : forall q, q ∈ todo -> 0 <= q < cap_ w /\ q <> p).
  { intros q Hq. split; [|by intros ->]. apply (rep_node w ls b q R Hb). rewrite E. set_solver. }
  change (hd (p :: todo)) with p. cbn [bucket_loop]. destruct (Z.eqb_spec p NIL); [done|].
  unfold keep, events. rewrite !filter_cons. fold (keep w todo).
  destruct (Z.eqb_spec (rounds (slot w p)) 0) as [Hr|Hr].
  - assert (HF : fires w p = true) by (unfold fires; by rewrite Hr).
    rewrite HF, decide_True, decide_False by done.
    pose proof (own p (extra (slot w p)) st) as HO. destruct (onExpire p (extra (slot w p)) st) as [os st'].
    destruct (fire_own w ls p os R Hp HO) as (w1 & E1 & R1 & A1 & U1).
    cbv beta iota. rewrite E1, Hpn.
    destruct (pass_ext w w1 todo) as [X1 X2].
    { intros q Hq. destruct (ag_slot _ _ _ A1 q) as (? & ? & ?); naive_solver. }
    pose proof (ag_config _ _ _ A1) as SC.
    destruct (IH fuel w1 st' (without p ls) b dn R1) as (w2 & st2 & E2 & R2 & C2 & N2 & P2).
    { by rewrite (sc_slots _ _ SC). } { unfold without. rewrite E. by apply filter_out_mid. } { lia. }
    rewrite E2, X1. exists w2, st2. split; [done|]. split; [|split; [|split]].
    + eapply Rep_ext, R2. intros c Hc. cbn. rewrite X2. case_decide; [done|].
      apply filter_out. intros HI. rewrite (sc_slots _ _ C2), (sc_slots _ _ SC) in Hc.
      destruct (rep_node _ _ _ _ R Hc HI) as (_ & ? & _). congruence.
    + by eapply same_config_trans.
    + by rewrite N2, (ag_now _ _ _ A1).
    + intros q Hq. apply (passed_cons w w1); [done|apply (sc_slots _ _ SC)|by apply (ag_slot _ _ _ A1)|by rewrite HF|].
      apply P2. by rewrite (sc_cap _ _ SC).
  - assert (HF : fires w p = false) by (unfold fires; by apply Z.eqb_neq).
    rewrite HF, decide_False, decide_True by done.
    destruct (set_rounds_rep w ls p R Hp Hr) as (R1 & SC & HS). set (w1 := upd w p _) in *.
    destruct (pass_ext w w1 todo) as [X1 X2].
    { intros q Hq. destruct (Htodo q Hq). rewrite HS by done. by rewrite decide_False. }
    destruct (IH fuel w1 st ls b (dn ++ [p]) R1) as (w2 & st2 & E2 & R2 & C2 & N2 & P2).
    { done. } { rewrite E. by rewrite <- app_assoc. } { lia. }
    rewrite Hpn, E2, X1. exists w2, st2. split; [done|]. split; [|split; [|split]].
    + eapply Rep_ext, R2. intros c Hc. cbn. rewrite X2. case_decide; [|done]. by rewrite <- app_assoc.
    + by eapply same_config_trans.
    + by rewrite N2.
    + intros q Hq. apply (passed_cons w w1); [done|done| |rewrite HF; rewrite HS, decide_True by done; done|by apply P2].
      intros Hne. rewrite HS by done. by rewrite decide_False.
Qed.
End Loop.

(** ** The map of due ticks *)

Lemma bucket_length w ls b : Rep w ls -> 0 <= b < slots_ w -> (length (ls b) <= Z.to_nat (cap_ w))%nat.
Proof.
  intros R Hb. rewrite <- (length_seqZ 0 (cap_ w)). apply submseteq_length, NoDup_submseteq.
  - by apply (rep_nodup _ _ R).
  - intros q Hq. destruct (rep_node _ _ _ _ R Hb Hq) as [? _]. apply elem_of_seqZ. lia.
Qed.

Lemma timer_of_Some w p d x :
  timer_of w p = Some (d, x) <->
  0 <= p < cap_ w /\ bucket (slot w p) < slots_ w /\ d = due w p /\ x = extra (slot w p).
Proof.
  unfold timer_of. case_bool_decide as Hp; [|naive_solver].
  destruct (Z.leb_spec (slots_ w) (bucket (slot w p))); split; [done|naive_solver lia|naive_solver|].
  intros (_ & _ & -> & ->). done.
Qed.

Lemma timer_of_None w p :
  timer_of w p = None <-> ~ (0 <= p < cap_ w) \/ slots_ w <= bucket (slot w p).
Proof.
  unfold timer_of. case_bool_decide as Hp; [|naive_solver].
  destruct (Z.leb_spec (slots_ w) (bucket (slot w p))); split; try done; try naive_solver lia.
  all: auto.
Qed.

Lemma linked_bucket w ls p :
  Rep w ls -> 0 <= p < cap_ w -> bucket (slot w p) < slots_ w ->
  0 <= bucket (slot w p) < slots_ w /\ p ∈ ls (bucket (slot w p)) /\ 0 <= rounds (slot w p) < 256.
Proof. intros R Hp Hb. destruct (rep_slot _ _ R p Hp) as [? [?|[? ?]]]; [lia|auto]. Qed.

Lemma due_ge w ls p :
  Rep w ls -> 0 <= p < cap_ w -> bucket (slot w p) < slots_ w -> nowTick_ w <= due w p.
Proof.
  intros R Hp Hb. destruct (linked_bucket _ _ _ R Hp Hb) as (A & _ & B). unfold due.
  pose proof (Z.mod_pos_bound (bucket (slot w p) - nowTick_ w) (slots_ w)). nia.
Qed.

(** An entry is due now exactly if its bucket is being processed with no
    rounds left. *)
Lemma due_now w ls p :
  Rep w ls -> 0 <= p < cap_ w -> bucket (slot w p) < slots_ w ->
  due w p = nowTick_ w <-> bucket (slot w p) = nowTick_ w mod slots_ w /\ fires w p = true.
Proof.
  intros R Hp Hb. destruct (linked_bucket _ _ _ R Hp Hb) as (A & _ & B). unfold due, fires.
  pose proof (Z.mod_pos_bound (bucket (slot w p) - nowTick_ w) (slots_ w)) as HM. rewrite Z.eqb_eq.
  assert (HZ : (bucket (slot w p) - nowTick_ w) mod slots_ w = 0 <-> bucket (slot w p) = nowTick_ w mod slots_ w).
  { rewrite <- (Z.mod_small (bucket (slot w p)) (slots_ w)) at 2 by done. rewrite <- Z.cong_iff_0. done. }
  rewrite <- HZ. split; [|intros [-> ->]; lia]. intros H. split; nia.
Qed.

(** The next visit of a bucket, one tick later. *)
Lemma next_visit S b n :
  0 < S -> (b - (n + 1)) mod S = if decide ((b - n) mod S = 0) then S - 1 else (b - n) mod S - 1.
Proof.
  intros HS. pose proof (Z.mod_pos_bound (b - n) S HS) as HB. pose proof (Z.div_mod (b - n) S ltac:(lia)) as HD.
  case_decide as H.
  - symmetry. apply (Z.mod_unique_pos _ _ ((b - n) / S - 1)); [lia|]. lia.
  - symmetry. apply (Z.mod_unique_pos _ _ ((b - n) / S)); [lia|]. lia.
Qed.

Lemma slot_with_now w n q : slot (with_now w n) q = slot w q.
Proof. done. Qed.

Lemma with_now_rep w ls n : Rep w ls -> Rep (with_now w n) ls.
Proof.
  intros []. constructor; try done. intros b Hb. by apply (dll_frame w), rep_dll0.
Qed.

Section TickOnce.
Context {W : Type} (onExpire : Z -> Z -> W -> list wheel_op * W).
Hypothesis own : forall p ext st, Forall (op_on p) (fst (onExpire p ext st)).

Definition expired (n : Z) (t : option (Z * Z)) : option (Z * Z) :=
  match t with Some (d, x) => if d <? n then None else Some (d, x) | None => None end.

Lemma tick_once_ok w ls st :
  Rep w ls -> 0 <= nowTick_ w < 2 ^ 64 - 1 ->
  exists w' st' evs, tick_once onExpire w st = Some (Ret (w', st', evs)) /\ wf w' /\
    nowTick_ w' = nowTick_ w + 1 /\
    (forall p x, (p, x) ∈ evs <-> timer_of w p = Some (nowTick_ w, x)) /\ NoDup evs.*1 /\
    (forall q, timer_of w' q = expired (nowTick_ w + 1) (timer_of w q)).
Proof using own.
  intros R Hn. set (b := nowTick_ w mod slots_ w). pose proof (rep_slots_pos _ _ R) as Hs.
  assert (Hb : 0 <= b < slots_ w) by (apply Z.mod_pos_bound; lia).
  unfold tick_once. rewrite (wheel_land_mask _ _ _ R).
  destruct (bucket_small _ _ (nowTick_ w) R) as [-> _]. fold b.
  rewrite (dll_head _ _ _ (rep_dll _ _ R b Hb)).
  destruct (bucket_loop_ok onExpire own (ls b) (Z.to_nat (cap_ w)) w st ls b [] R Hb)
    as (w1 & st1 & E & R1 & SC & N1 & P1); [done|by eapply bucket_length|].
  rewrite E. eexists _, st1, _. split; [done|].
  assert (Hnow : nowTick_ (with_now w1 (u64 (nowTick_ w1 + 1))) = nowTick_ w + 1).
  { cbn. rewrite N1. apply wrap_small. lia. }
  split; [|split; [done|split; [|split]]].
  - exists (fun c => if decide (c = b) then [] ++ keep w (ls b) else ls c). by apply with_now_rep.
  - intros p x. unfold events. rewrite list_elem_of_fmap. setoid_rewrite list_elem_of_filter. split.
    + intros (q & [= -> ->] & HF & Hq). destruct (rep_node _ _ _ _ R Hb Hq) as (A & B & C).
      apply timer_of_Some. repeat split; try done; try lia. symmetry. apply (due_now _ _ _ R A); [lia|done].
    + intros H. apply timer_of_Some in H as (A & B & C & ->). exists p. split; [done|].
      symmetry in C. destruct (proj1 (due_now _ _ _ R A B) C) as [D F]. split; [done|].
      unfold b. rewrite <- D. by apply (linked_bucket _ _ _ R A B).
  - unfold events. rewrite <- list_fmap_compose. change (fst ∘ event w) with (fun q : Z => q).
    rewrite list_fmap_id. by apply NoDup_filter, (rep_nodup _ _ R).
  - intros q. destruct (decide (0 <= q < cap_ w)) as [Hq|Hq].
    2:{ rewrite (proj2 (timer_of_None w q)) by auto. apply timer_of_None. left. cbn. by rewrite (sc_cap _ _ SC). }
    specialize (P1 q Hq). destruct (decide (slots_ w <= bucket (slot w q))) as [Hu|Hu].
    { rewrite (proj2 (timer_of_None w q)) by auto. apply timer_of_None. right. rewrite slot_with_now. cbn [with_now slots_]. rewrite (sc_slots _ _ SC).
      unfold passed in P1. rewrite decide_False in P1; [by destruct P1 as (_ & -> & _)|].
      intros HI. destruct (rep_node _ _ _ _ R Hb HI) as (_ & ? & _). lia. }
    assert (Hl : bucket (slot w q) < slots_ w) by lia. clear Hu.
    rewrite (proj2 (timer_of_Some w q (due w q) (extra (slot w q)))) by done. cbn [expired].
    pose proof (due_ge _ _ _ R Hq Hl) as HG. pose proof (due_now _ _ _ R Hq Hl) as HD.
    destruct (linked_bucket _ _ _ R Hq Hl) as (HB & HI & HR).
    assert (HZ : (bucket (slot w q) - nowTick_ w) mod slots_ w = 0 <-> bucket (slot w q) = b).
    { rewrite <- (Z.mod_small (bucket (slot w q)) (slots_ w)) at 2 by done. apply symmetry, Z.cong_iff_0. }
    unfold passed in P1. destruct (Z.ltb_spec (due w q) (nowTick_ w + 1)) as [Hd|Hd].
    + destruct (proj1 HD ltac:(lia)) as [D F]. fold b in D. rewrite D in HI.
      rewrite decide_True, F in P1 by done. apply timer_of_None. right. rewrite slot_with_now. cbn [with_now slots_]. by rewrite (sc_slots _ _ SC).
    + apply timer_of_Some. unfold due. rewrite Hnow, slot_with_now. cbn [with_now slots_ cap_]. rewrite (sc_slots _ _ SC), (sc_cap _ _ SC).
      rewrite next_visit by lia. case_decide as Hin.
      * destruct (rep_node _ _ _ _ R Hb Hin) as (_ & D & _).
        destruct (fires w q) eqn:HF; [exfalso; assert (due w q = nowTick_ w) by (by apply HD); lia|].
        destruct P1 as (A & B & C). rewrite A, B, C, decide_True by (by apply HZ). unfold due.
        rewrite (proj2 HZ D). repeat split; try lia.
      * destruct P1 as (A & B & C). rewrite A, B, C, decide_False.
        -- unfold due. repeat split; lia.
        -- intros H. apply Hin. apply HZ in H. congruence.
Qed.
End TickOnce.

(** ** The operations on the map of due ticks *)

Lemma agree_timer p w w' q :
  agree p w w' -> q <> p -> timer_of w' q = timer_of w q.
Proof.
  intros [A1 A2 A3] Hq. unfold timer_of. rewrite (sc_cap _ _ A1), (sc_slots _ _ A1).
  case_bool_decide as Hr; [|done]. destruct (A3 q Hr Hq) as (X & Y & Z).
  unfold due. by rewrite X, Y, Z, A2, (sc_slots _ _ A1).
Qed.

Lemma wf_ticks_of w ls t : Rep w ls -> 0 <= t -> 0 <= ticks_of w t.
Proof.
  intros R Ht. unfold ticks_of. repeat case_match; try done.
  - by apply Z.shiftr_nonneg.
  - apply Z.div_pos; lia.
Qed.

(** The tick a fresh entry fires at, from the bucket and the rounds stored. *)
Lemma stored_due S now e :
  0 < S -> now <= e -> e - now <= 255 * S ->
  now + (e mod S - now) mod S + u8 (e / S - now / S) * S =
  if e mod S <? now mod S then e + S else e.
Proof.
  intros HS He Hd.
  pose proof (Z.mod_pos_bound e S HS) as Be. pose proof (Z.mod_pos_bound now S HS) as Bn.
  pose proof (Z.div_mod e S ltac:(lia)) as De. pose proof (Z.div_mod now S ltac:(lia)) as Dn.
  set (qe := e / S) in *. set (qn := now / S) in *. set (re := e mod S) in *. set (rn := now mod S) in *.
  assert (Hq : 0 <= qe - qn < 256) by nia.
  rewrite wrap_small by lia.
  destruct (Z.ltb_spec re rn) as [Hlt|Hge].
  - assert ((re - now) mod S = re - rn + S) as ->; [|nia].
    symmetry. apply (Z.mod_unique_pos _ _ (- qn - 1)); [lia|]. nia.
  - assert ((re - now) mod S = re - rn) as ->; [|nia].
    symmetry. apply (Z.mod_unique_pos _ _ (- qn)); [lia|]. nia.
Qed.

(** [Schedule] on a well-formed wheel replaces whatever the slot had by
    one entry and leaves every other slot's due tick alone.  The new entry
    fires at tick [nowTick_ + ticks] exactly when that tick's bucket is not
    before the current one; when it wraps past bucket 0 the entry fires a
    whole rotation late.  [ticks] is bounded by the 8 bits of [rounds]. *)
Theorem Schedule_due (w : wheel) (p ext timeout : Z) :
  wf w -> 0 <= p < cap_ w -> 0 <= timeout -> 0 <= nowTick_ w ->
  nowTick_ w + ticks_of w timeout < 2 ^ 64 -> ticks_of w timeout <= 255 * slots_ w ->
  let e := nowTick_ w + ticks_of w timeout in
  exists w', Schedule w p ext timeout = Ret w' /\ wf w' /\
    timer_of w' p = Some (if e mod slots_ w <? nowTick_ w mod slots_ w then e + slots_ w else e, ext) /\
    (forall q, q <> p -> timer_of w' q = timer_of w q).
Proof.
  intros [ls R] Hp Ht Hn Hov Hr e. pose proof (wf_ticks_of _ _ _ R Ht) as Htk.
  pose proof (rep_slots_pos _ _ R) as Hs.
  destruct (Schedule_ok w ls p ext timeout R Hp) as (w' & E & R' & A & B & X & Q).
  assert (HE : expire_tick w timeout = e) by (apply wrap_small; lia). rewrite HE in *.
  exists w'. split; [done|]. split; [by eexists|]. split; [|intros q Hq; by eapply agree_timer].
  pose proof (Z.mod_pos_bound e (slots_ w) ltac:(lia)) as Hb. destruct A as [SC A2 _].
  apply timer_of_Some. rewrite (sc_cap _ _ SC), (sc_slots _ _ SC), B. repeat split; try lia.
  unfold due. rewrite B, Q, A2, (sc_slots _ _ SC). symmetry. apply stored_due; unfold e; lia.
Qed.

Lemma Cancel_timer w p :
  wf w -> 0 <= p < cap_ w ->
  exists w', Cancel w p = Ret w' /\ wf w' /\ timer_of w' p = None /\
    (forall q, q <> p -> timer_of w' q = timer_of w q).
Proof.
  intros [ls R] Hp. destruct (Cancel_ok w ls p R Hp) as (w' & E & R' & A & X).
  exists w'. split; [done|]. split; [by eexists|]. split; [|intros q Hq; by eapply agree_timer].
  apply timer_of_None. right. rewrite X, (sc_slots _ _ (ag_config _ _ _ A)). cbn.
  pose proof (rep_slots_pos _ _ R). lia.
Qed.

Definition due_order (w : wheel) (a b : Z * Z) : Prop := due w a.1 <= due w b.1.

Lemma sorted_same w n (l : list (Z * Z)) :
  (forall a, a ∈ l -> due w a.1 = n) -> StronglySorted (due_order w) l.
Proof.
  induction l as [|a l IH]; intros H; [constructor|]. constructor; [apply IH; intros b Hb; apply H; by right|].
  apply Forall_forall. intros b Hb. unfold due_order. rewrite (H a), (H b); [lia|by right|by left].
Qed.

Lemma sorted_ext w w' (l : list (Z * Z)) :
  (forall a, a ∈ l -> due w a.1 = due w' a.1) -> StronglySorted (due_order w) l -> StronglySorted (due_order w') l.
Proof.
  intros H HS. induction HS as [|a l HS IH HF]; [constructor|]. constructor; [apply IH; intros b Hb; apply H; by right|].
  apply Forall_forall. intros b Hb. rewrite Forall_forall in HF. specialize (HF b Hb). unfold due_order in *.
  by rewrite <- (H a), <- (H b); [|by right|by left].
Qed.

Section TickAll.
Context {W : Type} (onExpire : Z -> Z -> W -> list wheel_op * W).
Hypothesis own : forall p ext st, Forall (op_on p) (fst (onExpire p ext st)).

Lemma expired_Some n t d x : expired n t = Some (d, x) <-> t = Some (d, x) /\ n <= d.
Proof.
  unfold expired. destruct t as [[d' x']|]; [|naive_solver].
  destruct (Z.ltb_spec d' n); naive_solver lia.
Qed.

Lemma timer_ge w ls p d x : Rep w ls -> timer_of w p = Some (d, x) -> nowTick_ w <= d.
Proof. intros R H. apply timer_of_Some in H as (A & B & -> & _). by eapply due_ge. Qed.

Lemma tick_loop_ok n : forall w st,
  wf w -> 0 <= nowTick_ w -> nowTick_ w + Z.of_nat n < 2 ^ 64 ->
  exists w' st' evs, tick_loop onExpire n w st = Some (Ret (w', st', evs)) /\ wf w' /\
    nowTick_ w' = nowTick_ w + Z.of_nat n /\
    (forall p x, (p, x) ∈ evs <-> exists d, timer_of w p = Some (d, x) /\ d < nowTick_ w + Z.of_nat n) /\
    NoDup evs.*1 /\ StronglySorted (due_order w) evs /\
    (forall q, timer_of w' q = expired (nowTick_ w + Z.of_nat n) (timer_of w q)).
Proof using own.
  induction n as [|n IH]; intros w st [ls R] Hn Hov.
  - exists w, st, []. cbn [tick_loop]. rewrite Z.add_0_r. split; [done|]. split; [by eexists|].
    split; [done|]. split; [|split; [constructor|split; [constructor|]]].
    + intros p x. split; [intros H; by apply elem_of_nil in H|]. intros (d & H & Hd).
      pose proof (timer_ge _ _ _ _ _ R H). lia.
    + intros q. destruct (timer_of w q) as [[d x]|] eqn:H; [|done]. cbn.
      pose proof (timer_ge _ _ _ _ _ R H). destruct (Z.ltb_spec d (nowTick_ w)); [lia|done].
  - destruct (tick_once_ok onExpire own w ls st R) as (w1 & st1 & ev1 & E1 & W1 & N1 & M1 & D1 & T1); [lia|].
    destruct (IH w1 st1 W1) as (w2 & st2 & ev2 & E2 & W2 & N2 & M2 & D2 & S2 & T2); [lia|lia|].
    assert (Hend : nowTick_ w1 + Z.of_nat n = nowTick_ w + Z.of_nat (S n)) by lia. rewrite Hend in *.
    assert (M2' : forall p x, (p, x) ∈ ev2 <-> exists d, timer_of w p = Some (d, x) /\
      nowTick_ w < d < nowTick_ w + Z.of_nat (S n)).
    { intros p x. rewrite M2. setoid_rewrite T1. setoid_rewrite expired_Some.
      split; intros (d & H); exists d; [destruct H as [[? ?] ?]|destruct H as [? ?]]; repeat split; try done; lia. }
    assert (Hsub : forall p x, (p, x) ∈ ev2 -> due w1 p = due w p).
    { intros p x H. apply M2 in H as (d & H & _). pose proof H as H'. rewrite T1 in H'.
      apply expired_Some in H' as [H' _]. apply timer_of_Some in H as (_ & _ & <- & _).
      apply timer_of_Some in H' as (_ & _ & <- & _). done. }
    exists w2, st2, (ev1 ++ ev2). cbn [tick_loop]. rewrite E1, E2. split; [done|]. split; [done|].
    split; [lia|]. split; [|split; [|split]].
    + intros p x. rewrite elem_of_app, M1, M2'. split.
      * intros [H|(d & H & Hd)]; eexists; (split; [done|lia]).
      * intros (d & H & Hd). pose proof (timer_ge _ _ _ _ _ R H).
        destruct (decide (d = nowTick_ w)) as [->|]; [by left|right; exists d; split; [done|lia]].
    + rewrite fmap_app. apply NoDup_app. split; [done|]. split; [|done].
      intros p H1 H2. apply list_elem_of_fmap in H1 as ([? x1] & -> & H1).
      apply list_elem_of_fmap in H2 as ([? x2] & Heq & H2). cbn in Heq. subst.
      apply M1 in H1. apply M2' in H2 as (d & H2 & Hd). rewrite H1 in H2. injection H2 as <- <-. lia.
    + apply StronglySorted_app. split; [|split].
      * intros [p x] [q y] H1 H2. unfold due_order. cbn [fst]. apply M1, timer_of_Some in H1 as (_ & _ & <- & _).
        apply M2' in H2 as (d & H2 & Hd). apply timer_of_Some in H2 as (_ & _ & <- & _). lia.
      * apply (sorted_same _ (nowTick_ w)). intros [p x] H.
        apply M1, timer_of_Some in H as (_ & _ & H & _). by rewrite H.
      * apply (sorted_ext w1); [|done]. intros [p x] H. cbn [fst]. by apply (Hsub p x).
    + intros q. rewrite T2, T1. destruct (timer_of w q) as [[d x]|]; [|done]. cbn [expired].
      destruct (Z.ltb_spec d (nowTick_ w + 1)); cbn; [|done].
      destruct (Z.ltb_spec d (nowTick_ w + Z.of_nat (S n))); [done|lia].
Qed.

(** C35: advancing a well-formed wheel to tick [n] terminates and calls back
    exactly once for each entry due before [n], in the order of their due
    ticks; those entries are gone afterwards, every other entry keeps its
    due tick.  The callback may cancel or reschedule the slot it is called
    for (the reschedule is undone by the unlinking that follows). *)
Theorem Tick_fires_due (w : wheel) (st : W) (n : Z) :
  wf w -> 0 <= nowTick_ w -> nowTick_ w <= n < 2 ^ 64 ->
  exists w' st' evs, Tick onExpire w st n = Some (Ret (w', st', evs)) /\ wf w' /\ nowTick_ w' = n /\
    (forall p x, (p, x) ∈ evs <-> exists d, timer_of w p = Some (d, x) /\ d < n) /\
    NoDup evs.*1 /\ StronglySorted (due_order w) evs /\
    (forall q, timer_of w' q = expired n (timer_of w q)).
Proof using own.
  intros Hw H0 Hn. unfold Tick.
  destruct (tick_loop_ok (Z.to_nat (n - nowTick_ w)) w st Hw H0) as (w' & st' & evs & H); [lia|].
  exists w', st', evs. replace (nowTick_ w + Z.of_nat (Z.to_nat (n - nowTick_ w))) with n in H by lia. done.
Qed.
End TickAll.

(** ** Initialisation *)

Lemma shift_loop_ok fuel k s :
  0 <= s -> s <= k -> (Z.to_nat (k - s) <= fuel)%nat -> shift_loop fuel s (2 ^ k) = k.
Proof.
  revert s. induction fuel as [|f IH]; intros s Hs Hk Hf; cbn [shift_loop]; [lia|].
  rewrite Z.shiftl_1_l. destruct (Z.ltb_spec (2 ^ s) (2 ^ k)) as [H|H].
  - apply Z.pow_lt_mono_r_iff in H; [|lia|lia]. apply IH; lia.
  - apply Z.pow_le_mono_r_iff in H; lia.
Qed.

Lemma Init_wf w cap k tickVal unit :
  0 <= cap < 2 ^ 32 -> 0 <= k < 16 ->
  exists w', Init w cap (2 ^ k) tickVal unit true = Ret w' /\ wf w' /\ cap_ w' = cap /\ slots_ w' = 2 ^ k /\
    nowTick_ w' = 0 /\ (forall p, timer_of w' p = None).
Proof.
  intros Hc Hk. unfold Init. cbn [negb]. pose proof (pow_lt_16 k Hk) as Hp.
  rewrite (wrap_small 32 (2 ^ k - 1)) by lia.
  assert (Z.land (2 ^ k) (2 ^ k - 1) = 0) as ->.
  { replace (2 ^ k - 1) with (Z.ones k) by (rewrite Z.ones_equiv; lia).
    rewrite Z.land_ones by lia. apply Z.mod_same. lia. }
  cbn [Z.eqb negb]. eexists. split; [done|].
  assert (HS : forall p, slot (mkWheel cap (2 ^ k - 1) (2 ^ k) (shift_loop 16 0 (2 ^ k))
     (u16 (if tickVal =? 0 then 1 else tickVal)) 0 unit (replicate (Z.to_nat cap) SlotMeta_init)
     (replicate (Z.to_nat (2 ^ k)) NIL)) p = SlotMeta_init).
  { intros p. unfold slot. cbn [meta_]. destruct (_ !! _) eqn:E; [|done]. by apply lookup_replicate in E as [-> _]. }
  split; [|split; [done|split; [done|split; [done|]]]].
  - exists (fun _ => []). constructor; cbn [cap_ shift_ slots_ mask_ meta_ wheelHeads_]; try lia.
    + rewrite shift_loop_ok; lia.
    + rewrite shift_loop_ok; lia.
    + rewrite shift_loop_ok by lia. rewrite Z.ones_equiv. lia.
    + by rewrite length_replicate.
    + by rewrite length_replicate.
    + intros b Hb. constructor; [|intros [|] ? ? ?; discriminate]. unfold head_of. cbn [wheelHeads_].
      rewrite lookup_replicate_2 by lia. done.
    + intros b Hb. constructor.
    + intros p Hpp. rewrite HS. cbn. lia.
  - intros p. apply timer_of_None. right. rewrite HS. cbn. lia.
Qed.

(** ** Concrete runs *)

(** Eight buckets, capacity four, seconds. *)
Definition w8 : wheel := match Init fresh 4 8 1 SECONDS true with Ret w => w | Fatal _ => fresh end.

Lemma w8_wf : wf w8.
Proof.
  destruct (Init_wf fresh 4 3 1 SECONDS) as (w & E & H & _); [lia|lia|].
  change (2 ^ 3) with 8 in E. unfold w8. by rewrite E.
Qed.

(** A callback without effects, as for a connection already closing. *)
Definition quiet (_ _ : Z) (st : unit) : list wheel_op * unit := ([], st).

Lemma Schedule_due_witness :
  exists w', Schedule w8 2 7 11 = Ret w' /\ wf w' /\ timer_of w' 2 = Some (11, 7) /\
    (forall q, q <> 2 -> timer_of w' q = timer_of w8 q).
Proof.
  apply (Schedule_due w8 2 7 11); try (vm_compute; repeat split; congruence). apply w8_wf.
Defined.

Lemma Tick_fires_due_witness :
  exists w' st' evs, Tick quiet w8 tt 20 = Some (Ret (w', st', evs)) /\ wf w' /\ nowTick_ w' = 20 /\
    (forall p x, (p, x) ∈ evs <-> exists d, timer_of w8 p = Some (d, x) /\ d < 20) /\
    NoDup evs.*1 /\ StronglySorted (due_order w8) evs /\
    (forall q, timer_of w' q = expired 20 (timer_of w8 q)).
Proof.
  apply (Tick_fires_due quiet); [constructor|apply w8_wf|vm_compute; congruence|vm_compute; split; congruence].
Defined.

Definition trace {W} (r : option (outcome (wheel * W * list (Z * Z)))) : option (list (Z * Z)) :=
  match r with Some (Ret (_, _, evs)) => Some evs | _ => None end.

(** From tick 7 a timeout of one tick falls in bucket 0 of the next rotation:
    it is not reported at tick 8 but at tick 16. *)
Example late_by_a_rotation :
  let w7 := match Tick quiet w8 tt 7 with Some (Ret (w, _, _)) => w | _ => fresh end in
  match Schedule w7 1 0 1 with
  | Ret w => trace (Tick quiet w tt 16) = Some [] /\ trace (Tick quiet w tt 17) = Some [(1, 0)]
  | Fatal _ => False
  end.
Proof. vm_compute. by split. Qed.

(** A callback that cancels the entry saved as [next] (slot 2 closes slot 1):
    the cancelled slot is reported all the same, with its [extra] reset to
    0, and the rest of the bucket (slot 0) is skipped. *)
Definition closes_1 (p _ : Z) (st : unit) : list wheel_op * unit :=
  (if p =? 2 then [OpCancel 1] else [], st).

Example cancelled_neighbour_reported :
  match (let* w := Schedule w8 0 5 3 in let* w := Schedule w 1 6 3 in Schedule w 2 7 3) with
  | Ret w => trace (Tick quiet w tt 4) = Some [(2, 7); (1, 6); (0, 5)] /\
             trace (Tick closes_1 w tt 4) = Some [(2, 7); (1, 0)]
  | Fatal _ => False
  end.
Proof. vm_compute. by split. Qed.

End TimerWheel.
