(* ===== verification/Mime.v ===== *)
(** * Media types and default ports (http/common/http_detector.cpp)

    The three tables in the order of their initialisers and the look-ups over
    them.  [std::unordered_map] built from an initialiser list keeps the first
    of two entries with the same key. *)

From S2P Require Import Prelude.

Module Mime.

Definition table := list (bytes * bytes).

(** Archives, documents, office, fonts .. up to the Java section. *)
Definition MIME_DOCUMENTS : table := [
   (lit "epub", lit "application/epub+zip"); (lit "gz", lit "application/gzip");
   (lit "tgz", lit "application/gzip"); (lit "jar", lit "application/java-archive");
   (lit "mpkg", lit "application/vnd.apple.installer+xml"); (lit "apk", lit "application/vnd.android.package-archive");
   (lit "cab", lit "application/vnd.ms-cab-compressed"); (lit "oxt", lit "application/vnd.openofficeorg.extension");
   (lit "xps", lit "application/vnd.ms-xpsdocument"); (lit "7z", lit "application/x-7z-compressed");
   (lit "rar", lit "application/vnd.rar"); (lit "zip", lit "application/zip");
   (lit "tar", lit "application/x-tar"); (lit "bz2", lit "application/x-bzip2");
   (lit "pdf", lit "application/pdf"); (lit "opf", lit "application/oebps-package+xml");
   (lit "xhtml", lit "application/xhtml+xml"); (lit "xml", lit "application/xml");
   (lit "rss", lit "application/rss+xml"); (lit "rdf", lit "application/rdf+xml");
   (lit "rtf", lit "application/rtf"); (lit "smil", lit "application/smil+xml");
   (lit "smi", lit "application/smil+xml"); (lit "ps", lit "application/postscript");
   (lit "ai", lit "application/postscript"); (lit "eps", lit "application/postscript");
   (lit "xdp", lit "application/vnd.adobe.xdp+xml"); (lit "xfdf", lit "application/vnd.adobe.xfdf");
   (lit "azw", lit "application/vnd.amazon.ebook"); (lit "doc", lit "application/msword");
   (lit "dot", lit "application/msword"); (lit "docx", lit "application/vnd.openxmlformats-officedocument.wordprocessingml.document");
   (lit "dotx", lit "application/vnd.openxmlformats-officedocument.wordprocessingml.template"); (lit "docm", lit "application/vnd.ms-word.document.macroenabled.12");
   (lit "dotm", lit "application/vnd.ms-word.template.macroenabled.12"); (lit "xls", lit "application/vnd.ms-excel");
   (lit "xlt", lit "application/vnd.ms-excel"); (lit "xlsx", lit "application/vnd.openxmlformats-officedocument.spreadsheetml.sheet");
   (lit "xltx", lit "application/vnd.openxmlformats-officedocument.spreadsheetml.template"); (lit "xlsm", lit "application/vnd.ms-excel.sheet.macroenabled.12");
   (lit "xltm", lit "application/vnd.ms-excel.template.macroenabled.12"); (lit "xlsb", lit "application/vnd.ms-excel.sheet.binary.macroenabled.12");
   (lit "xlam", lit "application/vnd.ms-excel.addin.macroenabled.12"); (lit "ppt", lit "application/vnd.ms-powerpoint");
   (lit "pps", lit "application/vnd.ms-powerpoint"); (lit "pot", lit "application/vnd.ms-powerpoint");
   (lit "pptx", lit "application/vnd.openxmlformats-officedocument.presentationml.presentation"); (lit "ppsx", lit "application/vnd.openxmlformats-officedocument.presentationml.slideshow");
   (lit "potx", lit "application/vnd.openxmlformats-officedocument.presentationml.template"); (lit "pptm", lit "application/vnd.ms-powerpoint.presentation.macroenabled.12");
   (lit "ppsm", lit "application/vnd.ms-powerpoint.slideshow.macroenabled.12"); (lit "potm", lit "application/vnd.ms-powerpoint.template.macroenabled.12");
   (lit "ppam", lit "application/vnd.ms-powerpoint.addin.macroenabled.12"); (lit "sldm", lit "application/vnd.ms-powerpoint.slide.macroenabled.12");
   (lit "sldx", lit "application/vnd.openxmlformats-officedocument.presentationml.slide"); (lit "odt", lit "application/vnd.oasis.opendocument.text");
   (lit "ods", lit "application/vnd.oasis.opendocument.spreadsheet"); (lit "odp", lit "application/vnd.oasis.opendocument.presentation");
   (lit "odg", lit "application/vnd.oasis.opendocument.graphics"); (lit "odc", lit "application/vnd.oasis.opendocument.chart");
   (lit "odb", lit "application/vnd.oasis.opendocument.database"); (lit "eot", lit "application/vnd.ms-fontobject");
   (lit "kml", lit "application/vnd.google-earth.kml+xml"); (lit "kmz", lit "application/vnd.google-earth.kmz");
   (lit "xdw", lit "application/vnd.fujixerox.docuworks"); (lit "xbd", lit "application/vnd.fujixerox.docuworks.binder");
   (lit "ggb", lit "application/vnd.geogebra.file"); (lit "ggt", lit "application/vnd.geogebra.tool");
   (lit "gbr", lit "application/vnd.gerber"); (lit "jam", lit "application/vnd.jam");
   (lit "icc", lit "application/vnd.iccprofile"); (lit "icm", lit "application/vnd.iccprofile");
   (lit "qbo", lit "application/vnd.intu.qbo"); (lit "qfx", lit "application/vnd.intu.qfx");
   (lit "deb", lit "application/vnd.debian.binary-package"); (lit "udeb", lit "application/vnd.debian.binary-package");
   (lit "fdf", lit "application/vnd.fdf"); (lit "chm", lit "application/vnd.ms-htmlhelp");
   (lit "xul", lit "application/vnd.mozilla.xul+xml"); (lit "hlp", lit "application/winhlp");
   (lit "wspolicy", lit "application/wspolicy+xml"); (lit "wsdl", lit "application/wsdl+xml");
   (lit "sqlite", lit "application/vnd.sqlite3"); (lit "sqlite3", lit "application/vnd.sqlite3");
   (lit "db", lit "application/vnd.sqlite3"); (lit "vsd", lit "application/vnd.visio");
   (lit "vsdx", lit "application/vnd.visio"); (lit "vssx", lit "application/vnd.visio");
   (lit "vstx", lit "application/vnd.visio"); (lit "wpd", lit "application/vnd.wordperfect");
   (lit "unityweb", lit "application/vnd.unity"); (lit "vxml", lit "application/voicexml+xml");
   (lit "torrent", lit "application/x-bittorrent"); (lit "ttf", lit "font/ttf");
   (lit "otf", lit "font/otf"); (lit "woff", lit "font/woff");
   (lit "woff2", lit "font/woff2")].

(** Java, text, audio, images, mail, 3D, video. *)
Definition MIME_MEDIA : table := [
   (lit "jnlp", lit "application/x-java-jnlp-file"); (lit "xpi", lit "application/x-xpinstall");
   (lit "swf", lit "application/x-shockwave-flash"); (lit "xap", lit "application/x-silverlight-app");
   (lit "dvi", lit "application/x-dvi"); (lit "tex", lit "application/x-tex");
   (lit "latex", lit "application/x-latex"); (lit "xml", lit "application/xml");
   (lit "xhtml", lit "application/xhtml+xml"); (lit "xht", lit "application/xhtml+xml");
   (lit "xsl", lit "application/xml"); (lit "xslt", lit "application/xslt+xml");
   (lit "yaml", lit "application/x-yaml"); (lit "yml", lit "application/x-yaml");
   (lit "json", lit "application/json"); (lit "toml", lit "application/toml");
   (lit "ts", lit "application/typescript"); (lit "tsx", lit "application/typescript");
   (lit "mp3", lit "audio/mpeg"); (lit "aac", lit "audio/aac");
   (lit "m4a", lit "audio/mp4"); (lit "oga", lit "audio/ogg");
   (lit "ogg", lit "audio/ogg"); (lit "opus", lit "audio/opus");
   (lit "flac", lit "audio/flac"); (lit "wav", lit "audio/wav");
   (lit "mid", lit "audio/midi"); (lit "kar", lit "audio/midi");
   (lit "avif", lit "image/avif"); (lit "avifs", lit "image/avif-sequence");
   (lit "bmp", lit "image/bmp"); (lit "gif", lit "image/gif");
   (lit "heif", lit "image/heic"); (lit "heic", lit "image/heic");
   (lit "jpeg", lit "image/jpeg"); (lit "jpg", lit "image/jpeg");
   (lit "png", lit "image/png"); (lit "svg", lit "image/svg+xml");
   (lit "svgz", lit "image/svg+xml"); (lit "tif", lit "image/tiff");
   (lit "tiff", lit "image/tiff"); (lit "psd", lit "image/vnd.adobe.photoshop");
   (lit "webp", lit "image/webp"); (lit "ico", lit "image/x-icon");
   (lit "cr2", lit "image/x-canon-cr2"); (lit "nef", lit "image/x-nikon-nef");
   (lit "arw", lit "image/x-sony-arw"); (lit "dng", lit "image/x-adobe-dng");
   (lit "eml", lit "message/rfc822"); (lit "mht", lit "message/rfc822");
   (lit "mhtml", lit "message/rfc822"); (lit "ics", lit "text/calendar");
   (lit "css", lit "text/css"); (lit "csv", lit "text/csv");
   (lit "html", lit "text/html"); (lit "htm", lit "text/html");
   (lit "js", lit "text/javascript"); (lit "mjs", lit "text/javascript");
   (lit "md", lit "text/markdown"); (lit "markdown", lit "text/markdown");
   (lit "txt", lit "text/plain"); (lit "log", lit "text/plain");
   (lit "tsv", lit "text/tab-separated-values"); (lit "c", lit "text/x-c");
   (lit "cpp", lit "text/x-c"); (lit "h", lit "text/x-c");
   (lit "hpp", lit "text/x-c"); (lit "java", lit "text/x-java-source");
   (lit "py", lit "text/x-python"); (lit "jsx", lit "text/jsx");
   (lit "vue", lit "text/vue"); (lit "rs", lit "text/rust");
   (lit "go", lit "text/x-go"); (lit "igs", lit "model/iges");
   (lit "iges", lit "model/iges"); (lit "stl", lit "model/stl");
   (lit "mesh", lit "model/mesh"); (lit "msh", lit "model/mesh");
   (lit "vrml", lit "model/vrml"); (lit "wrl", lit "model/vrml");
   (lit "dwg", lit "image/vnd.dwg"); (lit "dxf", lit "image/vnd.dxf");
   (lit "3gp", lit "video/3gpp"); (lit "3g2", lit "video/3gpp2");
   (lit "h261", lit "video/h261"); (lit "h263", lit "video/h263");
   (lit "h264", lit "video/h264"); (lit "jpgv", lit "video/jpeg");
   (lit "jpm", lit "video/jpm"); (lit "jpgm", lit "video/jpm");
   (lit "mj2", lit "video/mj2"); (lit "mjp2", lit "video/mj2");
   (lit "ts", lit "video/mp2t"); (lit "mp4", lit "video/mp4");
   (lit "mp4v", lit "video/mp4"); (lit "mpg4", lit "video/mp4");
   (lit "m1v", lit "video/mpeg"); (lit "m2v", lit "video/mpeg");
   (lit "mpa", lit "video/mpeg"); (lit "mpe", lit "video/mpeg");
   (lit "mpeg", lit "video/mpeg"); (lit "mpg", lit "video/mpeg");
   (lit "ogv", lit "video/ogg"); (lit "mov", lit "video/quicktime");
   (lit "qt", lit "video/quicktime"); (lit "fvt", lit "video/vnd.fvt");
   (lit "m4u", lit "video/vnd.mpegurl"); (lit "mxu", lit "video/vnd.mpegurl");
   (lit "pyv", lit "video/vnd.ms-playready.media.pyv"); (lit "viv", lit "video/vnd.vivo");
   (lit "webm", lit "video/webm"); (lit "f4v", lit "video/x-f4v");
   (lit "fli", lit "video/x-fli"); (lit "flv", lit "video/x-flv");
   (lit "m4v", lit "video/x-m4v"); (lit "mkv", lit "video/x-matroska");
   (lit "asf", lit "video/x-ms-asf"); (lit "asx", lit "video/x-ms-asf");
   (lit "wm", lit "video/x-ms-wm"); (lit "wmv", lit "video/x-ms-wmv");
   (lit "wmx", lit "video/x-ms-wmx"); (lit "wvx", lit "video/x-ms-wvx");
   (lit "avi", lit "video/x-msvideo"); (lit "movie", lit "video/x-sgi-movie")].

Definition MIME_FROM_EXT : table := MIME_DOCUMENTS ++ MIME_MEDIA.

Definition EXT_FROM_MIME : table := [
   (lit "application/epub+zip", lit "epub"); (lit "application/gzip", lit "gz");
   (lit "application/java-archive", lit "jar"); (lit "application/vnd.apple.installer+xml", lit "mpkg");
   (lit "application/vnd.android.package-archive", lit "apk"); (lit "application/vnd.ms-cab-compressed", lit "cab");
   (lit "application/vnd.openofficeorg.extension", lit "oxt"); (lit "application/vnd.ms-xpsdocument", lit "xps");
   (lit "application/x-bittorrent", lit "torrent"); (lit "application/pdf", lit "pdf");
   (lit "application/oebps-package+xml", lit "opf"); (lit "application/xhtml+xml", lit "xhtml");
   (lit "application/xml", lit "xml"); (lit "application/rss+xml", lit "rss");
   (lit "application/rdf+xml", lit "rdf"); (lit "application/rtf", lit "rtf");
   (lit "application/smil+xml", lit "smil"); (lit "application/postscript", lit "ps");
   (lit "application/vnd.adobe.xdp+xml", lit "xdp"); (lit "application/vnd.adobe.xfdf", lit "xfdf");
   (lit "application/msword", lit "doc"); (lit "application/vnd.openxmlformats-officedocument.wordprocessingml.document", lit "docx");
   (lit "application/vnd.ms-excel", lit "xls"); (lit "application/vnd.openxmlformats-officedocument.spreadsheetml.sheet", lit "xlsx");
   (lit "application/vnd.ms-powerpoint", lit "ppt"); (lit "application/vnd.openxmlformats-officedocument.presentationml.presentation", lit "pptx");
   (lit "application/vnd.oasis.opendocument.text", lit "odt"); (lit "application/vnd.oasis.opendocument.spreadsheet", lit "ods");
   (lit "application/vnd.ms-fontobject", lit "eot"); (lit "font/ttf", lit "ttf");
   (lit "font/woff", lit "woff"); (lit "font/woff2", lit "woff2");
   (lit "application/vnd.sqlite3", lit "sqlite"); (lit "application/vnd.visio", lit "vsd");
   (lit "application/vnd.wordperfect", lit "wpd"); (lit "audio/mpeg", lit "mp3");
   (lit "audio/aac", lit "aac"); (lit "audio/mp4", lit "m4a");
   (lit "audio/ogg", lit "ogg"); (lit "audio/opus", lit "opus");
   (lit "audio/flac", lit "flac"); (lit "audio/wav", lit "wav");
   (lit "audio/midi", lit "mid"); (lit "image/avif", lit "avif");
   (lit "image/bmp", lit "bmp"); (lit "image/gif", lit "gif");
   (lit "image/heic", lit "heic"); (lit "image/jpeg", lit "jpg");
   (lit "image/png", lit "png"); (lit "image/svg+xml", lit "svg");
   (lit "image/tiff", lit "tif"); (lit "image/webp", lit "webp");
   (lit "image/x-icon", lit "ico"); (lit "message/rfc822", lit "eml");
   (lit "text/calendar", lit "ics"); (lit "text/html", lit "html");
   (lit "text/css", lit "css"); (lit "text/csv", lit "csv");
   (lit "text/plain", lit "txt"); (lit "text/javascript", lit "js");
   (lit "text/markdown", lit "md"); (lit "application/json", lit "json");
   (lit "model/stl", lit "stl"); (lit "model/iges", lit "igs");
   (lit "model/mesh", lit "mesh"); (lit "model/vrml", lit "wrl");
   (lit "video/mp4", lit "mp4"); (lit "video/mpeg", lit "mpeg");
   (lit "video/webm", lit "webm"); (lit "video/x-matroska", lit "mkv");
   (lit "video/quicktime", lit "mov"); (lit "video/x-msvideo", lit "avi");
   (lit "video/x-flv", lit "flv")].

Definition PORT_FROM_PROTOCOL : table := [
   (lit "http", lit "80"); (lit "https", lit "443");
   (lit "ws", lit "80"); (lit "wss", lit "443");
   (lit "ftp", lit "21"); (lit "ftps", lit "990");
   (lit "sftp", lit "22"); (lit "ssh", lit "22");
   (lit "telnet", lit "23"); (lit "smtp", lit "25");
   (lit "smtps", lit "465"); (lit "imap", lit "143");
   (lit "imaps", lit "993"); (lit "pop3", lit "110");
   (lit "pop3s", lit "995"); (lit "ldap", lit "389");
   (lit "ldaps", lit "636"); (lit "nntp", lit "119");
   (lit "nntps", lit "563"); (lit "rtsp", lit "554");
   (lit "sip", lit "5060"); (lit "sips", lit "5061");
   (lit "xmpp", lit "5222"); (lit "xmpps", lit "5223");
   (lit "mqtt", lit "1883"); (lit "mqtts", lit "8883");
   (lit "redis", lit "6379"); (lit "rediss", lit "6380");
   (lit "mysql", lit "3306"); (lit "postgres", lit "5432");
   (lit "mongodb", lit "27017"); (lit "amqp", lit "5672");
   (lit "amqps", lit "5671"); (lit "grpc", lit "50051");
   (lit "grpc+tls", lit "50052"); (lit "kafka", lit "9092");
   (lit "kafkas", lit "9093")].

(** [find] on the map built from the list. *)
Fixpoint find (k : bytes) (t : table) : option bytes :=
  match t with
  | [] => None
  | (k', v) :: r => if sv_eq k k' then Some v else find k r
  end.

Definition ExtractExtension (path : bytes) : bytes :=
  match rfind_char DOT path with
  | None => []
  | Some pos => if (length path <=? pos + 1)%nat then [] else drop (pos + 1) path
  end.

Definition octet_stream : bytes := lit "application/octet-stream".

Definition DetectMimeFromExt (path : bytes) : bytes :=
  let ext := ExtractExtension path in
  match ext with
  | [] => octet_stream
  | _ => default octet_stream (find ext MIME_FROM_EXT)
  end.

Definition DetectExtFromMime (mime : bytes) : bytes := default [] (find mime EXT_FROM_MIME).

Definition DetectFromProtocol (protocol : bytes) : bytes := default [] (find protocol PORT_FROM_PROTOCOL).

(** ** Lemmas *)

(** The extension is what follows the last dot. *)
Lemma ExtractExtension_dot path ext :
  (DOT : Z) ∉ ext -> ExtractExtension (path ++ DOT :: ext) = ext.
Proof.
  intros H. unfold ExtractExtension. rewrite rfind_char_last by done.
  rewrite length_app. simpl. destruct (Nat.leb_spec (length path + S (length ext)) (length path + 1)) as [Hl|Hl].
  - destruct ext; [done|simpl in Hl; lia].
  - rewrite Nat.add_1_r. rewrite (cons_middle DOT), app_assoc.
    replace (S (length path)) with (length (path ++ [DOT])) by (rewrite length_app; simpl; lia).
    by rewrite drop_app_length.
Qed.

Lemma find_Some_in k v t : find k t = Some v -> (k, v) ∈ t.
Proof.
  induction t as [|[k' v'] t IH]; simpl; [done|]. destruct (sv_eq k k') eqn:E.
  - apply sv_eq_true in E as ->. intros [= ->]. by left.
  - intros H. right. auto.
Qed.

(** Every entry of the reverse table agrees with the forward one. *)
Definition reverse_entry_ok (p : bytes * bytes) : bool :=
  bool_decide (p.2 <> [] /\ DOT ∉ p.2 /\ find (p.2) MIME_FROM_EXT = Some p.1).

Lemma reverse_table_ok : forallb reverse_entry_ok EXT_FROM_MIME = true.
Proof. vm_compute. reflexivity. Qed.

(** A file named with the extension the server picks for a media type is
    served as that media type, whatever precedes the last dot of its path;
    the two tables cannot drift apart. *)
Theorem ext_mime_roundtrip (mime path : bytes) :
  DetectExtFromMime mime <> [] ->
  DetectMimeFromExt (path ++ DOT :: DetectExtFromMime mime) = mime.
Proof.
  intros H. unfold DetectExtFromMime in *. destruct (find mime EXT_FROM_MIME) as [ext|] eqn:E; [|done].
  apply find_Some_in in E. pose proof reverse_table_ok as HT. rewrite forallb_forall in HT.
  apply list_elem_of_In, HT in E. apply bool_decide_eq_true in E. cbn [fst snd] in E. destruct E as (H1 & H2 & H3).
  cbn [default option_rect] in *. unfold id, DetectMimeFromExt. rewrite ExtractExtension_dot by done. rewrite H3. by destruct ext.
Qed.

Lemma ext_mime_roundtrip_witness :
  DetectMimeFromExt (lit "/static/a.b/app" ++ DOT :: DetectExtFromMime (lit "application/json")) = lit "application/json".
Proof. apply (ext_mime_roundtrip (lit "application/json") (lit "/static/a.b/app")). vm_compute. discriminate. Defined.

(** [ts] is listed twice; the first entry wins, so an MPEG transport stream
    is served as TypeScript. *)
Example ts_is_typescript : DetectMimeFromExt (lit "/seg0.ts") = lit "application/typescript".
Proof. vm_compute. reflexivity. Qed.

End Mime.
