(* ===== verification/Hash.v ===== *)
(** * Hashing (shared/utils/hash.hpp)

    WyHash, the two FNV-1a variants, the Murmur3 finalisers and XXH3, with
    every 64-bit operation truncated as in C++ and every read of the input or
    of a secret checked against the end of its array: a read past the end is
    [None].  Pointers are an array and an offset. *)

From S2P Require Import Prelude Swar Strings Headers.

Module Hash.

Import Swar.

(** ** Detail: primitives *)

Definition read (n : nat) (p : bytes) (i : nat) : option Z :=
  if (i + n <=? length p)%nat then Some (le_word (take n (drop i p))) else None.

Definition Read32 (p : bytes) (i : nat) : option Z := read 4 p i.
Definition Read64 (p : bytes) (i : nat) : option Z := read 8 p i.

Definition ByteSwap32 (x : Z) : Z :=
  Z.lor (Z.lor (Z.lor (u32 (Z.shiftl (Z.land x 0x000000FF) 24)) (u32 (Z.shiftl (Z.land x 0x0000FF00) 8)))
    (Z.shiftr (Z.land x 0x00FF0000) 8)) (Z.shiftr (Z.land x 0xFF000000) 24).

Definition ByteSwap64 (x : Z) : Z :=
  Z.lor (Z.lor (Z.lor (Z.lor (Z.lor (Z.lor (Z.lor
    (u64 (Z.shiftl (Z.land x 0x00000000000000FF) 56)) (u64 (Z.shiftl (Z.land x 0x000000000000FF00) 40)))
    (u64 (Z.shiftl (Z.land x 0x0000000000FF0000) 24))) (u64 (Z.shiftl (Z.land x 0x00000000FF000000) 8)))
    (Z.shiftr (Z.land x 0x000000FF00000000) 8)) (Z.shiftr (Z.land x 0x0000FF0000000000) 24))
    (Z.shiftr (Z.land x 0x00FF000000000000) 40)) (Z.shiftr (Z.land x 0xFF00000000000000) 56).

(** [Mix], the [__uint128_t] branch. *)
Definition Mix (a b : Z) : Z :=
  let r := wrap 128 (a * b) in Z.lxor (u64 r) (u64 (Z.shiftr r 64)).

(** [Mix], the portable branch. *)
Definition Mix_portable (a b : Z) : Z :=
  let a_lo := u32 a in let a_hi := Z.shiftr a 32 in
  let b_lo := u32 b in let b_hi := Z.shiftr b 32 in
  let ll := u64 (a_lo * b_lo) in
  let lh := u64 (a_lo * b_hi) in
  let hl := u64 (a_hi * b_lo) in
  let hh := u64 (a_hi * b_hi) in
  let mid := u64 (u64 (Z.shiftr ll 32 + u32 lh) + u32 hl) in
  let hi := u64 (u64 (u64 (hh + Z.shiftr lh 32) + Z.shiftr hl 32) + Z.shiftr mid 32) in
  let lo := Z.lor (u64 (Z.shiftl mid 32)) (u32 ll) in
  Z.lxor lo hi.

(** ** WyHash *)

Definition SECRET0 : Z := 0xa0761d6478bd642f.
Definition SECRET1 : Z := 0xe7037ed1a0b428db.
Definition SECRET2 : Z := 0x8ebc6af09c88c6e3.
Definition SECRET3 : Z := 0x589965cc75374cc3.

(** [Mix(Read64(p) ^ secret, Read64(p + 8) ^ seed)] *)
Definition wy_round (data : bytes) (p : nat) (secret seed : Z) : option Z :=
  x ← Read64 data p; y ← Read64 data (p + 8);
  Some (Mix (Z.lxor x secret) (Z.lxor y seed)).

(** The three-lane loop: [do .. while(i > 48)]. *)
Fixpoint wy_loop48 (fuel : nat) (data : bytes) (p i : nat) (seed s see2 : Z)
  : option (nat * nat * Z * Z * Z) :=
  match fuel with
  | O => None
  | S f =>
      seed' ← wy_round data p SECRET1 seed;
      s' ← wy_round data (p + 16) SECRET2 s;
      see2' ← wy_round data (p + 32) SECRET3 see2;
      if (48 <? i - 48)%nat then wy_loop48 f data (p + 48) (i - 48) seed' s' see2'
      else Some ((p + 48)%nat, (i - 48)%nat, seed', s', see2')
  end.

Fixpoint wy_loop16 (fuel : nat) (data : bytes) (p i : nat) (seed : Z) : option (nat * nat * Z) :=
  if (16 <? i)%nat then
    match fuel with
    | O => None
    | S f => seed' ← wy_round data p SECRET1 seed; wy_loop16 f data (p + 16) (i - 16) seed'
    end
  else Some (p, i, seed).

(** The two words of a key of at most 16 bytes. *)
Definition wy_short (key : bytes) : option (Z * Z) :=
  let len := length key in
  if (4 <=? len)%nat then
    let mid := (Nat.shiftl (Nat.shiftr len 3) 2)%nat in
    x ← Read32 key 0; y ← Read32 key mid;
    u ← Read32 key (len - 4); v ← Read32 key (len - 4 - mid);
    Some (Z.lor (u64 (Z.shiftl x 32)) y, Z.lor (u64 (Z.shiftl u 32)) v)
  else if (0 <? len)%nat then
    x ← key !! 0%nat; y ← key !! Nat.shiftr len 1; z ← key !! (len - 1)%nat;
    Some (Z.lor (Z.lor (u64 (Z.shiftl x 16)) (u64 (Z.shiftl y 8))) z, 0)
  else Some (0, 0).

(** The two final words and the accumulated seed of a longer key. *)
Definition wy_long (key : bytes) (seed : Z) : option (Z * Z * Z) :=
  let len := length key in
  '(p, i, seed) ←
    (if (48 <? len)%nat then
       '(p, i, seed, s, see2) ← wy_loop48 len key 0 len seed seed seed;
       Some (p, i, Z.lxor seed (Z.lxor s see2))
     else Some (0%nat, len, seed));
  '(p, i, seed) ← wy_loop16 len key p i seed;
  a ← Read64 key (p + i - 16); b ← Read64 key (p + i - 8);
  Some (a, b, seed).

Definition WyHash (key : bytes) (seed : Z) : option Z :=
  let len := Z.of_nat (length key) in
  let seed := Z.lxor seed SECRET0 in
  '(a, b, seed) ← (if (length key <=? 16)%nat then '(a, b) ← wy_short key; Some (a, b, seed)
                    else wy_long key seed);
  Some (Mix (Z.lxor SECRET1 len) (Mix (Z.lxor a SECRET1) (Z.lxor b seed))).

(** ** FNV-1a *)

Definition FNV_PRIME : Z := 1099511628211.
Definition FNV_OFFSET : Z := 14695981039346656037.

(** A [char] converted to [std::uint64_t]: [char] is signed. *)
Definition char_u64 (c : Z) : Z := if c <? 128 then c else u64 (c - 256).

Definition Fnv1a (data : bytes) : Z :=
  fold_left (fun hash c => u64 (Z.lxor hash (char_u64 c) * FNV_PRIME)) data FNV_OFFSET.

Definition Fnv1aCaseInsensitive (data : bytes) : Z :=
  fold_left (fun hash c =>
    u64 (Z.lxor hash (u8 (if (65 <=? c) && (c <=? 90) then Z.lor c 32 else c)) * FNV_PRIME)) data FNV_OFFSET.

(** ** Integer mixers *)

(** [h ^= h >> k] *)
Definition xorshift (k h : Z) : Z := Z.lxor h (Z.shiftr h k).

Definition Murmur3Mix32 (h : Z) : Z :=
  xorshift 16 (u32 (xorshift 13 (u32 (xorshift 16 h * 0x85ebca6b)) * 0xc2b2ae35)).

Definition Murmur3Mix64 (h : Z) : Z :=
  xorshift 33 (u64 (xorshift 33 (u64 (xorshift 33 h * 0xff51afd7ed558ccd)) * 0xc4ceb9fe1a85ec53)).

Definition HashCombine (a b : Z) : Z :=
  Z.lxor a (u64 (u64 (u64 (b + 0x9e3779b97f4a7c15) + u64 (Z.shiftl a 6)) + Z.shiftr a 2)).

Definition HashInt32 (x : Z) : Z := Murmur3Mix32 x.
Definition HashInt64 (x : Z) : Z := Murmur3Mix64 x.

(** ** XXH3 *)

Definition SECRET : bytes :=
  [0xb8; 0xfe; 0x6c; 0x39; 0x23; 0xa4; 0x4b; 0xbe; 0x7c; 0x01; 0x81; 0x2c; 0xf7; 0x21; 0xad; 0x1c;
   0xde; 0xd4; 0x6d; 0xe9; 0x83; 0x90; 0x97; 0xdb; 0x72; 0x40; 0xa4; 0xa4; 0xb7; 0xb3; 0x67; 0x1f;
   0xcb; 0x79; 0xe6; 0x4e; 0xcc; 0xc0; 0xe5; 0x78; 0x82; 0x5a; 0xd0; 0x7d; 0xcc; 0xff; 0x72; 0x21;
   0xb8; 0x08; 0x46; 0x74; 0xf7; 0x43; 0x24; 0x8e; 0xe0; 0x35; 0x90; 0xe6; 0x81; 0x3a; 0x26; 0x4c;
   0x3c; 0x28; 0x52; 0xbb; 0x91; 0xc3; 0x00; 0xcb; 0x88; 0xd0; 0x65; 0x8b; 0x1b; 0x53; 0x2e; 0xa3;
   0x71; 0x64; 0x48; 0x97; 0xa2; 0x0d; 0xf9; 0x4e; 0x38; 0x19; 0xef; 0x46; 0xa9; 0xde; 0xac; 0xd8;
   0xa8; 0xfa; 0x76; 0x3f; 0xe3; 0x9c; 0x34; 0x3f; 0xf9; 0xdc; 0xbb; 0xc7; 0xc7; 0x0b; 0x4f; 0x1d;
   0x8a; 0x51; 0xe0; 0x4b; 0xcd; 0xb4; 0x59; 0x31; 0xc8; 0x9f; 0x7e; 0xc9; 0xd9; 0x78; 0x73; 0x64;
   0xea; 0xc5; 0xac; 0x83; 0x34; 0xd3; 0xeb; 0xc3; 0xc5; 0x81; 0xa0; 0xff; 0xfa; 0x13; 0x63; 0xeb;
   0x17; 0x0d; 0xdd; 0x51; 0xb7; 0xf0; 0xda; 0x49; 0xd3; 0x16; 0x55; 0x26; 0x29; 0xd4; 0x68; 0x9e;
   0x2b; 0x16; 0xbe; 0x58; 0x7d; 0x47; 0xa1; 0xfc; 0x8f; 0xf8; 0xb8; 0xd1; 0x7a; 0xd0; 0x31; 0xce;
   0x45; 0xcb; 0x3a; 0x8f; 0x95; 0x16; 0x04; 0x28; 0xaf; 0xd7; 0xfb; 0xca; 0xbb; 0x4b; 0x40; 0x7e].

Definition PRIME32_1 : Z := 0x9E3779B1.
Definition PRIME32_2 : Z := 0x85EBCA77.
Definition PRIME32_3 : Z := 0xC2B2AE3D.
Definition PRIME64_1 : Z := 0x9E3779B185EBCA87.
Definition PRIME64_2 : Z := 0xC2B2AE3D27D4EB4F.
Definition PRIME64_3 : Z := 0x165667B19E3779F9.
Definition PRIME64_4 : Z := 0x85EBCA77C2B2AE63.
Definition PRIME64_5 : Z := 0x27D4EB2F165667C5.
Definition PRIME_MX1 : Z := 0x165667919E3779F9.
Definition PRIME_MX2 : Z := 0x9FB21C651E98DF25.

Definition STRIPE_LEN : nat := 64.
Definition SECRET_SIZE : nat := 192.
Definition SECRET_CONSUME_RATE : nat := 8.
Definition NB_ROUNDS : nat := 16.

Definition Xxh64Avalanche (h : Z) : Z :=
  xorshift 32 (u64 (xorshift 29 (u64 (xorshift 33 h * PRIME64_2)) * PRIME64_3)).

Definition Avalanche (h : Z) : Z := xorshift 32 (u64 (xorshift 37 h * PRIME_MX1)).

Definition rotl (x k : Z) : Z := Z.lor (u64 (Z.shiftl x k)) (Z.shiftr x (64 - k)).

Definition Rrmxmx (h len : Z) : Z :=
  let h := Z.lxor h (Z.lxor (rotl h 49) (rotl h 24)) in
  let h := u64 (h * PRIME_MX2) in
  let h := Z.lxor h (u64 (Z.shiftr h 35 + len)) in
  let h := u64 (h * PRIME_MX2) in
  xorshift 28 h.

Definition Len0 (seed : Z) : option Z :=
  x ← Read64 SECRET 56; y ← Read64 SECRET 64;
  Some (Xxh64Avalanche (Z.lxor seed (Z.lxor x y))).

Definition Len1to3 (inp : bytes) (seed : Z) : option Z :=
  let len := length inp in
  c1 ← inp !! 0%nat; c2 ← inp !! Nat.shiftr len 1; c3 ← inp !! (len - 1)%nat;
  x ← Read32 SECRET 0; y ← Read32 SECRET 4;
  let combined := u32 (Z.lor (Z.lor (Z.lor (Z.shiftl c1 16) (Z.shiftl c2 24)) c3) (Z.shiftl (Z.of_nat len) 8)) in
  let bitflip := u64 (Z.lxor x y + seed) in
  Some (Xxh64Avalanche (Z.lxor combined bitflip)).

Definition Len4to8 (inp : bytes) (seed : Z) : option Z :=
  let len := length inp in
  let seed := Z.lxor seed (u64 (Z.shiftl (ByteSwap32 (u32 seed)) 32)) in
  x ← Read64 SECRET 8; y ← Read64 SECRET 16;
  let bitflip := u64 (Z.lxor x y - seed) in
  input1 ← Read32 inp 0; input2 ← Read32 inp (len - 4);
  let input64 := u64 (input2 + u64 (Z.shiftl input1 32)) in
  Some (Rrmxmx (Z.lxor input64 bitflip) (Z.of_nat len)).

Definition Len9to16 (inp : bytes) (seed : Z) : option Z :=
  let len := length inp in
  x1 ← Read64 SECRET 24; y1 ← Read64 SECRET 32;
  x2 ← Read64 SECRET 40; y2 ← Read64 SECRET 48;
  let bitflip1 := u64 (Z.lxor x1 y1 + seed) in
  let bitflip2 := u64 (Z.lxor x2 y2 - seed) in
  i1 ← Read64 inp 0; i2 ← Read64 inp (len - 8);
  let lo := Z.lxor i1 bitflip1 in
  let hi := Z.lxor i2 bitflip2 in
  Some (Avalanche (u64 (u64 (u64 (Z.of_nat len + ByteSwap64 lo) + hi) + Mix lo hi))).

Definition Len0to16 (inp : bytes) (seed : Z) : option Z :=
  let len := length inp in
  if (8 <? len)%nat then Len9to16 inp seed
  else if (4 <=? len)%nat then Len4to8 inp seed
  else if (0 <? len)%nat then Len1to3 inp seed
  else Len0 seed.

Definition Mix16B (inp : bytes) (i : nat) (secret : bytes) (j : nat) (seed : Z) : option Z :=
  lo ← Read64 inp i; hi ← Read64 inp (i + 8);
  s1 ← Read64 secret j; s2 ← Read64 secret (j + 8);
  Some (Mix (Z.lxor lo (u64 (s1 + seed))) (Z.lxor hi (u64 (s2 - seed)))).

(** [acc += Mix16B(..)] *)
Definition add16B (acc : Z) (inp : bytes) (i : nat) (j : nat) (seed : Z) : option Z :=
  m ← Mix16B inp i SECRET j seed; Some (u64 (acc + m)).

Definition Len17to128 (inp : bytes) (seed : Z) : option Z :=
  let len := length inp in
  let acc := u64 (Z.of_nat len * PRIME64_1) in
  acc ← (if (96 <? len)%nat then acc ← add16B acc inp 48 96 seed; add16B acc inp (len - 64) 112 seed else Some acc);
  acc ← (if (64 <? len)%nat then acc ← add16B acc inp 32 64 seed; add16B acc inp (len - 48) 80 seed else Some acc);
  acc ← (if (32 <? len)%nat then acc ← add16B acc inp 16 32 seed; add16B acc inp (len - 32) 48 seed else Some acc);
  acc ← add16B acc inp 0 0 seed;
  acc ← add16B acc inp (len - 16) 16 seed;
  Some (Avalanche acc).

(** [for(int i = from; i < from + n; ++i) acc += Mix16B(in + 16 * i, SECRET + off(i), seed)] *)
Fixpoint mix_rounds (n from : nat) (off : nat -> nat) (acc : Z) (inp : bytes) (seed : Z) : option Z :=
  match n with
  | O => Some acc
  | S k => acc ← add16B acc inp (16 * from) (off from) seed; mix_rounds k (S from) off acc inp seed
  end.

Definition Len129to240 (inp : bytes) (seed : Z) : option Z :=
  let len := length inp in
  let acc := u64 (Z.of_nat len * PRIME64_1) in
  let rounds := (len / 16)%nat in
  acc ← mix_rounds 8 0 (fun i => 16 * i)%nat acc inp seed;
  acc ← mix_rounds (rounds - 8) 8 (fun i => 16 * (i - 8) + 3)%nat (Avalanche acc) inp seed;
  acc ← add16B acc inp (len - 16) (136 - 17) seed;
  Some (Avalanche acc).

(** [acc[i] op= v] *)
Definition at_acc (acc : list Z) (i : nat) (f : Z -> Z) : list Z := alter f i acc.

(** The loop body of [Accumulate512], [n] lanes from lane [i]. *)
Fixpoint accumulate_lanes (n i : nat) (acc : list Z) (inp : bytes) (p : nat) (secret : bytes) (q : nat)
  : option (list Z) :=
  match n with
  | O => Some acc
  | S k =>
      dataVal ← Read64 inp (p + 8 * i);
      s ← Read64 secret (q + 8 * i);
      let dataKey := Z.lxor dataVal s in
      let acc := at_acc acc (Nat.lxor i 1) (fun a => u64 (a + dataVal)) in
      let acc := at_acc acc i (fun a => u64 (a + u64 (u32 dataKey * u32 (Z.shiftr dataKey 32)))) in
      accumulate_lanes k (S i) acc inp p secret q
  end.

Definition Accumulate512 (acc : list Z) (inp : bytes) (p : nat) (secret : bytes) (q : nat) : option (list Z) :=
  accumulate_lanes 8 0 acc inp p secret q.

Fixpoint scramble_lanes (n i : nat) (acc : list Z) (secret : bytes) (q : nat) : option (list Z) :=
  match n with
  | O => Some acc
  | S k =>
      s ← Read64 secret (q + 8 * i);
      scramble_lanes k (S i) (at_acc acc i (fun a => u64 (Z.lxor (xorshift 47 a) s * PRIME32_1))) secret q
  end.

Definition ScrambleAcc (acc : list Z) (secret : bytes) (q : nat) : option (list Z) :=
  scramble_lanes 8 0 acc secret q.

(** [nbStripes] stripes from stripe [n]. *)
Fixpoint accumulate_from (nbStripes n : nat) (acc : list Z) (inp : bytes) (p : nat) (secret : bytes)
  : option (list Z) :=
  match nbStripes with
  | O => Some acc
  | S k =>
      acc ← Accumulate512 acc inp (p + n * STRIPE_LEN) secret (n * SECRET_CONSUME_RATE);
      accumulate_from k (S n) acc inp p secret
  end.

Definition Accumulate (acc : list Z) (inp : bytes) (p : nat) (secret : bytes) (nbStripes : nat) : option (list Z) :=
  accumulate_from nbStripes 0 acc inp p secret.

Definition acc_at (acc : list Z) (i : nat) : Z := default 0 (acc !! i).

Definition Mix2Accs (acc : list Z) (i : nat) (secret : bytes) (q : nat) : option Z :=
  x ← Read64 secret q; y ← Read64 secret (q + 8);
  Some (Mix (Z.lxor (acc_at acc i) x) (Z.lxor (acc_at acc (i + 1)) y)).

Fixpoint merge_from (n i : nat) (acc : list Z) (secret : bytes) (q : nat) (result : Z) : option Z :=
  match n with
  | O => Some result
  | S k => m ← Mix2Accs acc (2 * i) secret (q + 16 * i); merge_from k (S i) acc secret q (u64 (result + m))
  end.

Definition MergeAccs (acc : list Z) (secret : bytes) (q : nat) (start : Z) : option Z :=
  r ← merge_from 4 0 acc secret q start; Some (Avalanche r).

(** [memcpy] of a word: eight bytes, lowest first. *)
Fixpoint le_bytes (n : nat) (v : Z) : bytes :=
  match n with
  | O => []
  | S k => v mod 256 :: le_bytes k (v / 256)
  end.

Fixpoint custom_secret (n i : nat) (seed : Z) : option bytes :=
  match n with
  | O => Some []
  | S k =>
      x ← Read64 SECRET (i * 16); y ← Read64 SECRET (i * 16 + 8);
      rest ← custom_secret k (S i) seed;
      Some (le_bytes 8 (u64 (x + seed)) ++ le_bytes 8 (u64 (y - seed)) ++ rest)
  end.

Definition InitCustomSecret (seed : Z) : option bytes := custom_secret (SECRET_SIZE / 16) 0 seed.

(** The whole blocks: [n] of them from block [b]. *)
Fixpoint hash_blocks (n b : nat) (acc : list Z) (inp secret : bytes) : option (list Z) :=
  match n with
  | O => Some acc
  | S k =>
      acc ← Accumulate acc inp (b * STRIPE_LEN * NB_ROUNDS) secret NB_ROUNDS;
      acc ← ScrambleAcc acc secret (SECRET_SIZE - STRIPE_LEN);
      hash_blocks k (S b) acc inp secret
  end.

Definition acc_init : list Z :=
  [PRIME32_3; PRIME64_1; PRIME64_2; PRIME64_3; PRIME64_4; PRIME32_2; PRIME64_5; PRIME32_1].

Definition HashLong (inp : bytes) (seed : Z) : option Z :=
  let len := length inp in
  secret ← (if seed =? 0 then Some SECRET else InitCustomSecret seed);
  let nbBlocks := ((len - 1) / (STRIPE_LEN * NB_ROUNDS))%nat in
  acc ← hash_blocks nbBlocks 0 acc_init inp secret;
  let nbStripes := (((len - 1) - (STRIPE_LEN * NB_ROUNDS * nbBlocks)) / STRIPE_LEN)%nat in
  acc ← Accumulate acc inp (nbBlocks * STRIPE_LEN * NB_ROUNDS) secret nbStripes;
  acc ← Accumulate512 acc inp (len - STRIPE_LEN) secret (SECRET_SIZE - STRIPE_LEN - 7);
  MergeAccs acc secret 11 (u64 (Z.of_nat len * PRIME64_1)).

Definition Xxh3 (data : bytes) (seed : Z) : option Z :=
  let len := length data in
  if (len <=? 16)%nat then Len0to16 data seed
  else if (len <=? 128)%nat then Len17to128 data seed
  else if (len <=? 240)%nat then Len129to240 data seed
  else HashLong data seed.

(** The published XXH3 vector for the empty input. *)
Example Xxh3_empty : Xxh3 [] 0 = Some 0x2D06800538D394C2.
Proof. vm_compute. reflexivity. Qed.

(** ** The two branches of [Mix] *)

(** The portable branch of [Mix] computes the same word as the 128-bit
    one on every pair of 64-bit operands, so hashes do not depend on the
    compiler. *)
Theorem Mix_branches_agree (a b : Z) : is_uint 64 a -> is_uint 64 b -> Mix_portable a b = Mix a b.
Proof.
  unfold is_uint. intros Ha Hb. unfold Mix_portable, Mix.
  rewrite !Z.shiftr_div_pow2 by lia. rewrite (Z.shiftl_mul_pow2 _ 32) by lia. unfold wrap.
  change (2 ^ 128) with (2 ^ 64 * 2 ^ 64). change (2 ^ 64) with (2 ^ 32 * 2 ^ 32) in *. set (B := 2 ^ 32) in *.
  assert (HB : 0 < B) by (unfold B; lia).
  pose proof (Z.mod_pos_bound a B HB) as A1. pose proof (Z.mod_pos_bound b B HB) as B1.
  pose proof (Z.div_mod a B ltac:(lia)) as DA. pose proof (Z.div_mod b B ltac:(lia)) as DB.
  set (al := a mod B) in *. set (ah := a / B) in *. set (bl := b mod B) in *. set (bh := b / B) in *.
  assert (A2 : 0 <= ah < B) by nia. assert (B2 : 0 <= bh < B) by nia.
  assert (X : forall u v, 0 <= u < B -> 0 <= v < B -> 0 <= u * v <= (B - 1) * (B - 1)) by (intros; nia).
  pose proof (X al bl A1 B1) as X1. pose proof (X al bh A1 B2) as X2.
  pose proof (X ah bl A2 B1) as X3. pose proof (X ah bh A2 B2) as X4. clear X.
  rewrite (Z.mod_small (al * bl)), (Z.mod_small (al * bh)), (Z.mod_small (ah * bl)), (Z.mod_small (ah * bh)) by nia.
  pose proof (Z.div_mod (al * bl) B ltac:(lia)) as E1. pose proof (Z.mod_pos_bound (al * bl) B HB) as M1.
  pose proof (Z.div_mod (al * bh) B ltac:(lia)) as E2. pose proof (Z.mod_pos_bound (al * bh) B HB) as M2.
  pose proof (Z.div_mod (ah * bl) B ltac:(lia)) as E3. pose proof (Z.mod_pos_bound (ah * bl) B HB) as M3.
  set (l1 := al * bl) in *. set (l2 := al * bh) in *. set (l3 := ah * bl) in *. set (l4 := ah * bh) in *.
  assert (HAB : a * b = l1 + B * (l2 + l3) + B * B * l4) by (unfold l1, l2, l3, l4; rewrite DA, DB; ring).
  set (q1 := l1 / B) in *. set (r1 := l1 mod B) in *. set (q2 := l2 / B) in *. set (r2 := l2 mod B) in *.
  set (q3 := l3 / B) in *. set (r3 := l3 mod B) in *.
  assert (HBB : B = 4294967296) by reflexivity.
  assert (Q1 : 0 <= q1 < B) by nia. assert (Q2 : 0 <= q2 < B) by nia. assert (Q3 : 0 <= q3 < B) by nia.
  rewrite (Z.mod_small (q1 + r2)) by nia. rewrite (Z.mod_small (q1 + r2 + r3)) by nia.
  set (mid := q1 + r2 + r3) in *.
  pose proof (Z.div_mod mid B ltac:(lia)) as E4. pose proof (Z.mod_pos_bound mid B HB) as M4.
  set (q4 := mid / B) in *. set (r4 := mid mod B) in *.
  assert (Hlo : (mid * B) mod (B * B) = r4 * B) by (unfold r4; rewrite Z.mul_mod_distr_r by lia; done).
  rewrite Hlo. assert (HL : Z.lor (r4 * B) r1 = r4 * B + r1) by (apply (lor_add r4 r1 32); lia). rewrite HL.
  set (lo := r4 * B + r1). set (hi := l4 + q2 + q3 + q4).
  assert (HS : a * b = hi * (B * B) + lo) by (unfold hi, lo; rewrite HAB; unfold mid in *; nia).
  assert (Hl : 0 <= lo < B * B) by (unfold lo; nia).
  assert (Hab : 0 <= a * b < (B * B) * (B * B)) by nia.
  assert (Hh : 0 <= hi < B * B) by nia.
  assert (0 <= q4) by nia.
  rewrite (Z.mod_small (l4 + q2)) by nia. rewrite (Z.mod_small (l4 + q2 + q3)) by nia. fold hi.
  rewrite (Z.mod_small hi), (Z.mod_small (a * b)) by done.
  rewrite HS. rewrite Z.div_add_l, (Z.div_small lo), Z.add_0_r, (Z.mod_small hi) by lia.
  rewrite Z.add_comm, Z.mod_add, (Z.mod_small lo) by lia. done.
Qed.

Lemma Mix_branches_agree_witness :
  Mix_portable 0xe7037ed1a0b428db 0xffffffffffffffff = Mix 0xe7037ed1a0b428db 0xffffffffffffffff.
Proof. apply Mix_branches_agree; unfold is_uint; lia. Defined.

(** ** Every read is inside its array *)

Lemma bind_is_Some {A B} (m : option A) (k : A -> option B) :
  is_Some m -> (forall x, is_Some (k x)) -> is_Some (m ≫= k).
Proof. intros [x ->] H. apply H. Qed.

Lemma bind_is_Some_eq {A B} (m : option A) (k : A -> option B) (P : A -> Prop) :
  (exists x, m = Some x /\ P x) -> (forall x, P x -> is_Some (k x)) -> is_Some (m ≫= k).
Proof. intros (x & -> & HP) H. by apply H. Qed.

Lemma read_is_Some n p i : (i + n <= length p)%nat -> is_Some (read n p i).
Proof. intros H. unfold read. destruct (Nat.leb_spec (i + n) (length p)); [by eexists|lia]. Qed.

Lemma Read32_ok p i : (i + 4 <= length p)%nat -> is_Some (Read32 p i).
Proof. apply read_is_Some. Qed.
Lemma Read64_ok p i : (i + 8 <= length p)%nat -> is_Some (Read64 p i).
Proof. apply read_is_Some. Qed.

Lemma byte_ok (p : bytes) i : (i < length p)%nat -> is_Some (p !! i).
Proof. apply lookup_lt_is_Some_2. Qed.

Lemma SECRET_length : length SECRET = 192%nat.
Proof. reflexivity. Qed.

(** One step through a chain of reads. *)
Ltac reads :=
  repeat first
    [ by eexists
    | apply bind_is_Some; [first [apply Read64_ok | apply Read32_ok | apply byte_ok]; rewrite ?SECRET_length; lia|intros ?] ].

Lemma wy_round_ok data p s seed : (p + 16 <= length data)%nat -> is_Some (wy_round data p s seed).
Proof. intros H. unfold wy_round. reads. Qed.

Lemma wy_loop48_ok fuel data p i seed s see2 :
  (p + i = length data)%nat -> (48 < i <= fuel)%nat ->
  exists p' i' a b c, wy_loop48 fuel data p i seed s see2 = Some (p', i', a, b, c) /\
    (p' + i' = length data)%nat.
Proof.
  revert p i seed s see2. induction fuel as [|f IH]; intros p i seed s see2 Hp Hi; [lia|].
  cbn [wy_loop48].
  destruct (wy_round_ok data p SECRET1 seed) as [x ->]; [lia|]. cbn [mbind option_bind].
  destruct (wy_round_ok data (p + 16) SECRET2 s) as [y ->]; [lia|]. cbn [mbind option_bind].
  destruct (wy_round_ok data (p + 32) SECRET3 see2) as [z ->]; [lia|]. cbn [mbind option_bind].
  destruct (Nat.ltb_spec 48 (i - 48)).
  - apply IH; lia.
  - eexists _, _, _, _, _. split; [done|lia].
Qed.

Lemma wy_loop16_ok fuel data p i seed :
  (p + i = length data)%nat -> (i <= fuel)%nat ->
  exists p' i' a, wy_loop16 fuel data p i seed = Some (p', i', a) /\ (p' + i' = length data)%nat.
Proof.
  revert p i seed. induction fuel as [|f IH]; intros p i seed Hp Hi; cbn [wy_loop16];
    destruct (Nat.ltb_spec 16 i) as [H|H]; try lia.
  - eexists _, _, _. split; [done|lia].
  - destruct (wy_round_ok data p SECRET1 seed) as [x ->]; [lia|]. cbn [mbind option_bind]. apply IH; lia.
  - eexists _, _, _. split; [done|lia].
Qed.

Lemma wy_long_ok key seed : (16 < length key)%nat -> is_Some (wy_long key seed).
Proof.
  intros H. unfold wy_long.
  apply (bind_is_Some_eq _ _ (fun r => r.1.1 + r.1.2 = length key)%nat).
  - destruct (Nat.ltb_spec 48 (length key)) as [H48|H48].
    + destruct (wy_loop48_ok (length key) key 0 (length key) seed seed seed) as (p & i & a & b & c & -> & E); [lia|lia|].
      by eexists.
    + eexists. split; [done|]. cbn. lia.
  - intros [[p i] s] E. cbn in E.
    apply (bind_is_Some_eq _ _ (fun r => r.1.1 + r.1.2 = length key)%nat).
    + destruct (wy_loop16_ok (length key) key p i s) as (p' & i' & a & -> & E'); [done|lia|]. by eexists.
    + intros [[p' i'] s'] E'. cbn in E'. reads.
Qed.

Lemma wy_mid_bound len : (4 <= len <= 16)%nat ->
  (Nat.shiftl (Nat.shiftr len 3) 2 + 4 <= len)%nat.
Proof. intros H. do 17 (destruct len as [|len]; [cbn; lia|]). lia. Qed.

Lemma shiftr_1_lt n : (0 < n)%nat -> (Nat.shiftr n 1 < n)%nat.
Proof. intros H. rewrite Nat.shiftr_div_pow2. apply Nat.div_lt; cbn; lia. Qed.

Lemma wy_short_ok key : (length key <= 16)%nat -> is_Some (wy_short key).
Proof.
  intros H. unfold wy_short. destruct (Nat.leb_spec 4 (length key)) as [H4|H4].
  - pose proof (wy_mid_bound (length key) ltac:(lia)) as Hm. cbv zeta. reads.
  - destruct (Nat.ltb_spec 0 (length key)) as [HL|HL]; [|by eexists].
    pose proof (shiftr_1_lt _ HL). reads.
Qed.

Lemma WyHash_ok key seed : is_Some (WyHash key seed).
Proof.
  unfold WyHash. apply bind_is_Some; [|intros [[a b] s]; by eexists].
  destruct (Nat.leb_spec (length key) 16) as [H|H]; [|by apply wy_long_ok].
  apply bind_is_Some; [by apply wy_short_ok|]. intros [a b]. by eexists.
Qed.

Lemma Mix16B_ok inp i secret j seed :
  (i + 16 <= length inp)%nat -> (j + 16 <= length secret)%nat -> is_Some (Mix16B inp i secret j seed).
Proof. intros H1 H2. unfold Mix16B. reads. Qed.

Lemma add16B_ok acc inp i j seed :
  (i + 16 <= length inp)%nat -> (j + 16 <= 192)%nat -> is_Some (add16B acc inp i j seed).
Proof. intros H1 H2. unfold add16B. apply bind_is_Some; [|by eexists]. apply Mix16B_ok; [done|]. by rewrite SECRET_length. Qed.

Lemma short_ok inp seed : (length inp <= 16)%nat -> is_Some (Len0to16 inp seed).
Proof.
  intros H. unfold Len0to16.
  destruct (Nat.ltb_spec 8 (length inp)); [unfold Len9to16; cbv zeta; reads|].
  destruct (Nat.leb_spec 4 (length inp)); [unfold Len4to8; cbv zeta; reads|].
  destruct (Nat.ltb_spec 0 (length inp)) as [HL|]; [|unfold Len0; reads].
  pose proof (shiftr_1_lt _ HL). unfold Len1to3. cbv zeta. reads.
Qed.

Lemma guarded_ok (c : bool) {A} (m : option A) x : (c = true -> is_Some m) -> is_Some (if c then m else Some x).
Proof. destruct c; [auto|by eexists]. Qed.

Ltac adds := repeat first [ apply add16B_ok; lia | apply bind_is_Some; [apply add16B_ok; lia|intros ?] | by eexists ].

Lemma middle_ok inp seed : (16 < length inp)%nat -> is_Some (Len17to128 inp seed).
Proof.
  intros H. unfold Len17to128. cbv zeta.
  do 3 (apply bind_is_Some; [apply guarded_ok; intros ?%Nat.ltb_lt; adds|intros ?]). adds.
Qed.

Lemma mix_rounds_ok n from off acc inp seed :
  (16 * (from + n) <= length inp)%nat ->
  (forall i, (from <= i < from + n)%nat -> (off i + 16 <= 192)%nat) ->
  is_Some (mix_rounds n from off acc inp seed).
Proof.
  revert from acc. induction n as [|n IH]; intros from acc H1 H2; cbn [mix_rounds]; [by eexists|].
  apply bind_is_Some; [apply add16B_ok; [lia|apply H2; lia]|]. intros a. apply IH; [lia|].
  intros i Hi. apply H2. lia.
Qed.

Lemma long_middle_ok inp seed : (128 < length inp <= 240)%nat -> is_Some (Len129to240 inp seed).
Proof.
  intros H. unfold Len129to240. cbv zeta.
  pose proof (Nat.div_mod (length inp) 16 ltac:(lia)) as HD. pose proof (Nat.mod_upper_bound (length inp) 16 ltac:(lia)) as HM.
  set (q := (length inp / 16)%nat) in *.
  apply bind_is_Some; [apply mix_rounds_ok; [lia|intros; lia]|intros a].
  apply bind_is_Some; [apply mix_rounds_ok; [lia|intros; lia]|intros b]. adds.
Qed.

Lemma accumulate_lanes_ok n i acc inp p secret q :
  (p + 8 * (i + n) <= length inp)%nat -> (q + 8 * (i + n) <= length secret)%nat ->
  is_Some (accumulate_lanes n i acc inp p secret q).
Proof.
  revert i acc. induction n as [|n IH]; intros i acc H1 H2; cbn [accumulate_lanes]; [by eexists|].
  apply bind_is_Some; [apply Read64_ok; lia|intros x]. apply bind_is_Some; [apply Read64_ok; lia|intros y].
  apply IH; lia.
Qed.

Lemma Accumulate512_ok acc inp p secret q :
  (p + 64 <= length inp)%nat -> (q + 64 <= length secret)%nat -> is_Some (Accumulate512 acc inp p secret q).
Proof. intros. apply accumulate_lanes_ok; lia. Qed.

Lemma scramble_lanes_ok n i acc secret q :
  (q + 8 * (i + n) <= length secret)%nat -> is_Some (scramble_lanes n i acc secret q).
Proof.
  revert i acc. induction n as [|n IH]; intros i acc H; cbn [scramble_lanes]; [by eexists|].
  apply bind_is_Some; [apply Read64_ok; lia|intros x]. apply IH. lia.
Qed.

Lemma accumulate_from_ok k n acc inp p secret :
  (p + 64 * (n + k) <= length inp)%nat -> (n + k <= 17)%nat -> length secret = 192%nat ->
  is_Some (accumulate_from k n acc inp p secret).
Proof.
  revert n acc. induction k as [|k IH]; intros n acc H1 H2 H3; cbn [accumulate_from]; [by eexists|].
  unfold STRIPE_LEN, SECRET_CONSUME_RATE.
  apply bind_is_Some; [apply Accumulate512_ok; lia|intros a]. apply IH; lia.
Qed.

Lemma hash_blocks_ok n b acc inp secret :
  (1024 * (b + n) <= length inp)%nat -> length secret = 192%nat -> is_Some (hash_blocks n b acc inp secret).
Proof.
  revert b acc. induction n as [|n IH]; intros b acc H1 H2; cbn [hash_blocks]; [by eexists|].
  unfold STRIPE_LEN, NB_ROUNDS, SECRET_SIZE.
  apply bind_is_Some; [apply accumulate_from_ok; lia|intros x].
  apply bind_is_Some; [apply scramble_lanes_ok; lia|intros y]. apply IH; [lia|done].
Qed.

Lemma custom_secret_ok n i seed :
  (16 * (i + n) <= 192)%nat -> exists l, custom_secret n i seed = Some l /\ length l = (16 * n)%nat.
Proof.
  revert i. induction n as [|n IH]; intros i H; cbn [custom_secret]; [by exists []|].
  destruct (Read64_ok SECRET (i * 16)) as [x ->]; [rewrite SECRET_length; lia|]. cbn [mbind option_bind].
  destruct (Read64_ok SECRET (i * 16 + 8)) as [y ->]; [rewrite SECRET_length; lia|]. cbn [mbind option_bind].
  destruct (IH (S i)) as (l & -> & Hl); [lia|]. cbn [mbind option_bind]. eexists. split; [done|].
  rewrite !length_app, Hl. cbn [le_bytes length]. lia.
Qed.

Lemma merge_from_ok n i acc secret q r :
  (q + 16 * (i + n) <= length secret)%nat -> is_Some (merge_from n i acc secret q r).
Proof.
  revert i r. induction n as [|n IH]; intros i r H; cbn [merge_from]; [by eexists|].
  apply bind_is_Some; [unfold Mix2Accs; reads|intros m]. apply IH. lia.
Qed.

Lemma HashLong_ok inp seed : (240 < length inp)%nat -> is_Some (HashLong inp seed).
Proof.
  intros H. unfold HashLong. cbv zeta.
  apply (bind_is_Some_eq _ _ (fun s => length s = 192%nat)).
  { destruct (seed =? 0); [by exists SECRET|]. destruct (custom_secret_ok 12 0 seed) as (l & E & Hl); [lia|].
    by exists l. }
  intros secret Hs. change (STRIPE_LEN * NB_ROUNDS)%nat with 1024%nat. unfold STRIPE_LEN, SECRET_SIZE.
  pose proof (Nat.div_mod (length inp - 1) 1024 ltac:(lia)) as HD.
  pose proof (Nat.mod_upper_bound (length inp - 1) 1024 ltac:(lia)) as HM.
  set (nb := ((length inp - 1) / 1024)%nat) in *.
  set (rest := (length inp - 1 - 1024 * nb)%nat) in *.
  pose proof (Nat.div_mod rest 64 ltac:(lia)) as HD2. pose proof (Nat.mod_upper_bound rest 64 ltac:(lia)) as HM2.
  set (ns := (rest / 64)%nat) in *.
  apply bind_is_Some; [apply hash_blocks_ok; [lia|done]|intros a1].
  apply bind_is_Some; [apply accumulate_from_ok; [unfold rest, NB_ROUNDS in *; lia|unfold rest in *; lia|done]|intros a2].
  apply bind_is_Some; [apply Accumulate512_ok; lia|intros a3].
  unfold MergeAccs. apply bind_is_Some; [apply merge_from_ok; lia|intros r]. by eexists.
Qed.

(** Both general hashes read only inside the key (and XXH3 inside its
    secret, the default and the derived one), at every length and seed, and
    their loops stop: a result is always produced. *)
Theorem hash_reads_in_bounds (key : bytes) (seed : Z) :
  is_Some (WyHash key seed) /\ is_Some (Xxh3 key seed).
Proof.
  split; [apply WyHash_ok|]. unfold Xxh3.
  destruct (Nat.leb_spec (length key) 16); [by apply short_ok|].
  destruct (Nat.leb_spec (length key) 128); [by apply middle_ok|].
  destruct (Nat.leb_spec (length key) 240); [by apply long_middle_ok|by apply HashLong_ok].
Qed.

(** ** Case-insensitive FNV-1a *)

(** Header names that [CaseInsensitiveEqual] identifies have the same
    hash, which is what a hash table keyed case-insensitively needs. *)
Theorem Fnv1aCaseInsensitive_respects_equal (x y : bytes) :
  HttpHeaders.CaseInsensitiveEqual x y = true ->
  Fnv1aCaseInsensitive x = Fnv1aCaseInsensitive y.
Proof.
  intros HE. apply HttpHeaders.eq_true in HE.
  assert (HF : forall l h,
    fold_left (fun hash c => u64 (Z.lxor hash (u8 (if (65 <=? c) && (c <=? 90) then Z.lor c 32 else c)) * FNV_PRIME)) l h =
    fold_left (fun hash c => u64 (Z.lxor hash (u8 c) * FNV_PRIME)) (HttpHeaders.fold_key l) h).
  { induction l as [|c l IH]; intros h; [done|]. cbn [fold_left HttpHeaders.fold_key map]. apply IH. }
  unfold Fnv1aCaseInsensitive. by rewrite !HF, HE.
Qed.

Lemma Fnv1aCaseInsensitive_respects_equal_witness :
  Fnv1aCaseInsensitive (lit "Content-Length") = Fnv1aCaseInsensitive (lit "content-LENGTH").
Proof. apply Fnv1aCaseInsensitive_respects_equal. vm_compute. reflexivity. Defined.

(** ** The integer mixers lose nothing *)

Lemma shiftr_fixed d k : 0 < k -> 0 <= d -> Z.shiftr d k = d -> d = 0.
Proof.
  intros Hk Hd E. rewrite Z.shiftr_div_pow2 in E by lia.
  destruct (Z.eq_dec d 0) as [|Hn]; [done|]. pose proof (Z.pow_gt_1 2 k ltac:(lia)) as HP.
  pose proof (Z.div_lt d (2 ^ k)). lia.
Qed.

Lemma xorshift_inj k x y : 0 < k -> 0 <= x -> 0 <= y -> xorshift k x = xorshift k y -> x = y.
Proof.
  intros Hk Hx Hy E. unfold xorshift in E. apply Z.lxor_eq.
  apply (shiftr_fixed _ k Hk); [by apply Z.lxor_nonneg; split|].
  rewrite Z.shiftr_lxor.
  assert (H : Z.lxor (Z.lxor x (Z.shiftr x k)) (Z.lxor y (Z.shiftr y k)) = 0) by (rewrite E; apply Z.lxor_nilpotent).
  apply Z.lxor_eq. rewrite <- H.
  apply Z.bits_inj'. intros n Hn. rewrite !Z.lxor_spec.
  by destruct (Z.testbit x n), (Z.testbit y n), (Z.testbit (Z.shiftr x k) n), (Z.testbit (Z.shiftr y k) n).
Qed.

Lemma xorshift_range w k x : 0 <= w -> 0 <= k -> 0 <= x < 2 ^ w -> 0 <= xorshift k x < 2 ^ w.
Proof.
  intros Hw Hk Hx. unfold xorshift. assert (Hs : 0 <= Z.shiftr x k <= x).
  { split; [apply Z.shiftr_nonneg; lia|]. rewrite Z.shiftr_div_pow2 by done.
    apply Z.div_le_upper_bound; [apply Z.pow_pos_nonneg; lia|]. pose proof (Z.pow_pos_nonneg 2 k). nia. }
  split; [apply Z.lxor_nonneg; split; lia|].
  destruct (Z.eq_dec (Z.lxor x (Z.shiftr x k)) 0) as [->|Hn]; [lia|].
  assert (0 <= Z.lxor x (Z.shiftr x k)) by (apply Z.lxor_nonneg; split; lia).
  assert (Hlog : forall v, 0 <= v < 2 ^ w -> v = 0 \/ Z.log2 v < w).
  { intros v Hv. destruct (Z.eq_dec v 0); [by left|right]. apply Z.log2_lt_pow2; lia. }
  destruct (Z.eq_dec w 0) as [->|Hw0]; [assert (x = 0) as -> by lia; by rewrite Z.shiftr_0_l in Hn|].
  apply Z.log2_lt_pow2; [lia|]. pose proof (Z.log2_lxor x (Z.shiftr x k) ltac:(lia) ltac:(lia)).
  assert (Z.log2 x < w) by (destruct (Hlog x Hx) as [->|]; [cbn; lia|done]).
  assert (Z.log2 (Z.shiftr x k) < w) by (destruct (Hlog (Z.shiftr x k) ltac:(lia)) as [->|]; [cbn; lia|done]).
  lia.
Qed.

Lemma mul_odd_inj w m m' x y :
  0 < w -> wrap w (m * m') = 1 -> 0 <= x < 2 ^ w -> 0 <= y < 2 ^ w ->
  wrap w (x * m) = wrap w (y * m) -> x = y.
Proof.
  unfold wrap. intros Hw Hm Hx Hy E.
  assert (H : forall z, 0 <= z < 2 ^ w -> ((z * m) mod 2 ^ w * m') mod 2 ^ w = z).
  { intros z Hz. rewrite Z.mul_mod_idemp_l by lia. rewrite <- Z.mul_assoc, <- Z.mul_mod_idemp_r by lia.
    rewrite Hm, Z.mul_1_r. by apply Z.mod_small. }
  by rewrite <- (H x Hx), <- (H y Hy), E.
Qed.

(** One round [h ^= h >> k; h *= m]. *)
Lemma round_inj w k m m' x y :
  0 < w -> 0 < k -> wrap w (m * m') = 1 -> 0 <= x < 2 ^ w -> 0 <= y < 2 ^ w ->
  wrap w (xorshift k x * m) = wrap w (xorshift k y * m) -> x = y.
Proof.
  intros Hw Hk Hm Hx Hy E. apply (mul_odd_inj w m m') in E; [|done|done| |]; [|apply xorshift_range; lia..].
  apply (xorshift_inj k) in E; lia.
Qed.

(** The integer hashes are injective on their whole range, so two
    different integer keys never share all the bits of a hash. *)
Theorem Murmur3Mix_injective (x y : Z) :
  (is_uint 64 x -> is_uint 64 y -> x <> y -> HashInt64 x <> HashInt64 y) /\
  (is_uint 32 x -> is_uint 32 y -> x <> y -> HashInt32 x <> HashInt32 y).
Proof.
  unfold HashInt64, HashInt32, Murmur3Mix64, Murmur3Mix32, is_uint. split; intros Hx Hy Hne E; apply Hne; clear Hne.
  - apply xorshift_inj in E; [|lia|apply wrap_range; lia..].
    apply (round_inj 64 33 _ 0x9cb4b2f8129337db) in E; [|lia|lia|vm_compute; reflexivity|apply wrap_range; lia..].
    by apply (round_inj 64 33 _ 0x4f74430c22a54005) in E; [|lia|lia|vm_compute; reflexivity|..].
  - apply xorshift_inj in E; [|lia|apply wrap_range; lia..].
    apply (round_inj 32 13 _ 0x7ed1b41d) in E; [|lia|lia|vm_compute; reflexivity|apply wrap_range; lia..].
    by apply (round_inj 32 16 _ 0xa5cb9243) in E; [|lia|lia|vm_compute; reflexivity|..].
Qed.

Lemma Murmur3Mix_injective_witness : HashInt64 1 <> HashInt64 2 /\ HashInt32 1 <> HashInt32 2.
Proof.
  split; [apply (proj1 (Murmur3Mix_injective 1 2))|apply (proj2 (Murmur3Mix_injective 1 2))];
    try (vm_compute; split; congruence); discriminate.
Defined.

(** [Fnv1a] reads its bytes as signed characters: a byte above 127 is mixed in
    sign-extended, so on such input it is not the published FNV-1a. *)
Example Fnv1a_sign_extends : Fnv1a [0xe9] <> u64 (Z.lxor FNV_OFFSET 0xe9 * FNV_PRIME).
Proof. vm_compute. discriminate. Qed.

End Hash.
