(* ===== verification/Encoding.v ===== *)
(** * Base64, hex and percent encoding (include/wfx/utils/encoding.hpp)

    The character table as the constexpr lambda builds it, the span forms of
    the six conversions (the span is its capacity, a result the bytes written
    to it, [None] the {false, 0} return) and the allocating forms over them.
    The theorems are the round trips and the sufficiency of the lengths the
    allocating forms size their buffers with. *)

From S2P Require Import Prelude.

Module Encoding.

Definition BASE64_STD_ALPHABET : bytes := lit "ABCDEFGHIJKLMNOPQRSTUVWXYZabcdefghijklmnopqrstuvwxyz0123456789+/".
Definition BASE64_URL_ALPHABET : bytes := lit "ABCDEFGHIJKLMNOPQRSTUVWXYZabcdefghijklmnopqrstuvwxyz0123456789-_".
Definition HEX_LOWER : bytes := lit "0123456789abcdef".
Definition HEX_UPPER : bytes := lit "0123456789ABCDEF".

Record CharInfo := mkInfo { base64 : Z; hex : Z; urlSafe : bool }.

Definition set_base64 (v : Z) (i : CharInfo) := mkInfo v (hex i) (urlSafe i).
Definition set_hex (v : Z) (i : CharInfo) := mkInfo (base64 i) v (urlSafe i).
Definition set_urlSafe (v : bool) (i : CharInfo) := mkInfo (base64 i) (hex i) v.

Definition is_unreserved (c : Z) : bool :=
  ((65 <=? c) && (c <=? 90)) || ((97 <=? c) && (c <=? 122)) || ((48 <=? c) && (c <=? 57)) ||
  (c =? MINUS) || (c =? DOT) || (c =? UNDERSCORE) || (c =? 126).

Definition upd_at (alphabet : bytes) (f : Z -> CharInfo -> CharInfo) (t : list CharInfo) (i : nat) : list CharInfo :=
  alter (f (Z.of_nat i)) (Z.to_nat (at_ alphabet i)) t.

Definition CHAR_TABLE : list CharInfo :=
  let t := replicate 256 (mkInfo 0xFF 0xFF false) in
  let t := fold_left (fun t i => upd_at BASE64_URL_ALPHABET set_base64 (upd_at BASE64_STD_ALPHABET set_base64 t i) i)
             (seq 0 64) t in
  let t := fold_left (fun t i => upd_at HEX_UPPER set_hex (upd_at HEX_LOWER set_hex t i) i) (seq 0 16) t in
  fold_left (fun t c => alter (set_urlSafe (is_unreserved (Z.of_nat c))) c t) (seq 0 256) t.

Definition info (c : Z) : CharInfo := default (mkInfo 0xFF 0xFF false) (CHAR_TABLE !! Z.to_nat c).

(** ** Lengths *)

Definition Base64EncodedLen (n : nat) (padded : bool) : nat :=
  if padded then ((n + 2) / 3 * 4)%nat else ((n * 4 + 2) / 3)%nat.
Definition Base64DecodedMaxLen (chars : nat) : nat := (chars * 3 / 4)%nat.
Definition HexEncodedLen (n : nat) : nat := (n * 2)%nat.
Definition UrlEncodedMaxLen (n : nat) : nat := (n * 3)%nat.
Definition UrlDecodedMaxLen (chars : nat) : nat := chars.
Definition HexDecodedLen (chars : nat) : nat := (chars / 2)%nat.

(** ** Base64 *)

(** [alphabet[(chunk >> k) & 0x3F]] *)
Definition digit (alphabet : bytes) (chunk k : Z) : Z :=
  at_ alphabet (Z.to_nat (Z.land (Z.shiftr chunk k) 0x3F)).

(** The main loop and the tail of one or two bytes. *)
Fixpoint base64_groups (alphabet : bytes) (padded : bool) (p : bytes) : bytes :=
  match p with
  | b0 :: b1 :: b2 :: r =>
      let chunk := Z.lor (Z.lor (Z.shiftl b0 16) (Z.shiftl b1 8)) b2 in
      digit alphabet chunk 18 :: digit alphabet chunk 12 :: digit alphabet chunk 6 :: digit alphabet chunk 0 ::
        base64_groups alphabet padded r
  | [b0] =>
      let chunk := Z.shiftl b0 16 in
      digit alphabet chunk 18 :: digit alphabet chunk 12 :: (if padded then [EQUALS; EQUALS] else [])
  | [b0; b1] =>
      let chunk := Z.lor (Z.shiftl b0 16) (Z.shiftl b1 8) in
      digit alphabet chunk 18 :: digit alphabet chunk 12 :: digit alphabet chunk 6 ::
        (if padded then [EQUALS] else [])
  | [] => []
  end.

Definition Base64Encode_span (data : bytes) (out : nat) (urlSafe padded : bool) : option bytes :=
  if (out <? Base64EncodedLen (length data) padded)%nat then None
  else Some (base64_groups (if urlSafe then BASE64_URL_ALPHABET else BASE64_STD_ALPHABET) padded data).

Definition Base64Encode (data : bytes) (urlSafe padded : bool) : bytes :=
  default [] (Base64Encode_span data (Base64EncodedLen (length data) padded) urlSafe padded).

(** [while(len > 0 && data[len - 1] == '=') --len;] on the reversed text. *)
Fixpoint drop_pad (rdata : bytes) : bytes :=
  match rdata with
  | c :: r => if c =? EQUALS then drop_pad r else rdata
  | [] => []
  end.

(** The decoding loop; [room] is what is left of the span. *)
Fixpoint base64_loop (data : bytes) (buf bits : Z) (room : nat) : option bytes :=
  match data with
  | [] => Some []
  | c :: r =>
      let v := base64 (info c) in
      if v =? 0xFF then None
      else
        let buf := Z.lor (u32 (Z.shiftl buf 6)) v in
        let bits := bits + 6 in
        if 8 <=? bits then
          match room with
          | O => None
          | S room =>
              let bits := bits - 8 in
              cons (u8 (Z.land (Z.shiftr buf bits) 0xFF)) <$> base64_loop r buf bits room
          end
        else base64_loop r buf bits room
  end.

Definition Base64Decode_span (data : bytes) (out : nat) : option bytes :=
  base64_loop (rev (drop_pad (rev data))) 0 0 out.

Definition Base64Decode (data : bytes) : option bytes :=
  Base64Decode_span data (Base64DecodedMaxLen (length data)).

(** ** Hex *)

Definition hex_pair (table : bytes) (byte : Z) : bytes :=
  [at_ table (Z.to_nat (Z.shiftr byte 4)); at_ table (Z.to_nat (Z.land byte 0x0F))].

Definition HexEncode_span (data : bytes) (out : nat) (upper : bool) : option bytes :=
  if (out <? HexEncodedLen (length data))%nat then None
  else Some (data ≫= hex_pair (if upper then HEX_UPPER else HEX_LOWER)).

Definition HexEncode (data : bytes) (upper : bool) : bytes :=
  default [] (HexEncode_span data (HexEncodedLen (length data)) upper).

Fixpoint hex_loop (data : bytes) : option bytes :=
  match data with
  | c0 :: c1 :: r =>
      let hi := hex (info c0) in
      let lo := hex (info c1) in
      if (hi =? 0xFF) || (lo =? 0xFF) then None
      else cons (u8 (Z.lor (Z.shiftl hi 4) lo)) <$> hex_loop r
  | _ => Some []
  end.

Definition HexDecode_span (data : bytes) (out : nat) : option bytes :=
  if negb (length data mod 2 =? 0)%nat || (out <? HexDecodedLen (length data))%nat then None
  else hex_loop data.

Definition HexDecode (data : bytes) : option bytes := HexDecode_span data (HexDecodedLen (length data)).

(** ** Percent encoding *)

Definition url_char (c : Z) : bytes :=
  if urlSafe (info c) then [c] else PERCENT :: hex_pair HEX_UPPER c.

Definition UrlEncode_span (data : bytes) (out : nat) : option bytes :=
  if (out <? UrlEncodedMaxLen (length data))%nat then None else Some (data ≫= url_char).

Definition UrlEncode (data : bytes) : bytes :=
  default [] (UrlEncode_span data (UrlEncodedMaxLen (length data))).

Fixpoint url_loop (data : bytes) : option bytes :=
  match data with
  | [] => Some []
  | c :: r =>
      if c =? PERCENT then
        match r with
        | c1 :: c2 :: r' =>
            let hi := hex (info c1) in
            let lo := hex (info c2) in
            if (hi =? 0xFF) || (lo =? 0xFF) then None
            else cons (u8 (Z.lor (Z.shiftl hi 4) lo)) <$> url_loop r'
        | _ => None
        end
      else if c =? PLUS then cons SPACE <$> url_loop r
      else cons c <$> url_loop r
  end.

Definition UrlDecode_span (data : bytes) (out : nat) : option bytes :=
  if (out <? UrlDecodedMaxLen (length data))%nat then None else url_loop data.

Definition UrlDecode (data : bytes) : option bytes := UrlDecode_span data (UrlDecodedMaxLen (length data)).

(** ** The table *)

Lemma alphabet_inverse (b : bool) i : (i < 64)%nat ->
  base64 (info (at_ (if b then BASE64_URL_ALPHABET else BASE64_STD_ALPHABET) i)) = Z.of_nat i /\
  at_ (if b then BASE64_URL_ALPHABET else BASE64_STD_ALPHABET) i <> EQUALS.
Proof.
  intros H. assert (Hi : i ∈ seq 0 64) by (apply elem_of_seq; lia). clear H. revert i Hi. apply Forall_forall.
  destruct b; vm_compute; repeat constructor; congruence.
Qed.

Lemma hex_inverse (b : bool) i : (i < 16)%nat ->
  hex (info (at_ (if b then HEX_UPPER else HEX_LOWER) i)) = Z.of_nat i.
Proof.
  intros H. assert (Hi : i ∈ seq 0 16) by (apply elem_of_seq; lia). clear H. revert i Hi. apply Forall_forall.
  destruct b; vm_compute; repeat constructor.
Qed.

Lemma unreserved_table c : is_byte c -> urlSafe (info c) = true -> c <> PERCENT /\ c <> PLUS.
Proof.
  intros Hc. assert (Hi : c ∈ seqZ 0 256) by (apply elem_of_seqZ; zlia). clear Hc. revert c Hi.
  assert (HF : Forall (fun c => urlSafe (info c) = false \/ (c <> PERCENT /\ c <> PLUS)) (seqZ 0 256)).
  { apply Forall_forall. intros c Hc. destruct (decide (c = PERCENT)) as [->|]; [by left; vm_compute|].
    destruct (decide (c = PLUS)) as [->|]; [by left; vm_compute|]. by right. }
  rewrite Forall_forall in HF. intros c Hc Hu. destruct (HF c Hc) as [E|]; [congruence|done].
Qed.

(** ** Hex and percent *)

Lemma hex_pair_byte (b : bool) c : is_byte c ->
  exists x y, hex_pair (if b then HEX_UPPER else HEX_LOWER) c = [x; y] /\
    hex (info x) <> 0xFF /\ hex (info y) <> 0xFF /\
    u8 (Z.lor (Z.shiftl (hex (info x)) 4) (hex (info y))) = c.
Proof.
  intros Hc. eexists _, _. split; [done|].
  assert (HB : forall b, forallb (fun c => match hex_pair (if b : bool then HEX_UPPER else HEX_LOWER) c with
    | [x; y] => negb (hex (info x) =? 0xFF) && negb (hex (info y) =? 0xFF) &&
                (u8 (Z.lor (Z.shiftl (hex (info x)) 4) (hex (info y))) =? c)
    | _ => false end) (seqZ 0 256) = true) by (intros []; vm_compute; reflexivity).
  pose proof (forall_bytes _ (HB b) c Hc) as H. cbv beta delta [hex_pair] iota in H. bool_split.
  repeat match goal with H : (_ =? _) = _ |- _ => rewrite ?Z.eqb_eq, ?Z.eqb_neq in H end. done.
Qed.

Lemma hex_loop_encoded (b : bool) data : Forall is_byte data ->
  hex_loop (data ≫= hex_pair (if b then HEX_UPPER else HEX_LOWER)) = Some data.
Proof.
  induction 1 as [|c l Hc _ IH]; [done|]. rewrite bind_cons.
  destruct (hex_pair_byte b c Hc) as (x & y & -> & H1 & H2 & H3). cbn [app hex_loop]. rewrite IH, H3.
  apply Z.eqb_neq in H1, H2. by rewrite H1, H2.
Qed.

Lemma length_hex_pairs tbl data : length (data ≫= hex_pair tbl) = (length data * 2)%nat.
Proof. induction data as [|c l IH]; [done|]. rewrite bind_cons, length_app, IH. cbn. lia. Qed.

Lemma url_loop_encoded data : Forall is_byte data -> url_loop (data ≫= url_char) = Some data.
Proof.
  induction 1 as [|c l Hc _ IH]; [done|]. rewrite bind_cons. unfold url_char at 1.
  destruct (urlSafe (info c)) eqn:E.
  - destruct (unreserved_table c Hc E) as [H1 H2]. cbn [app url_loop].
    apply Z.eqb_neq in H1, H2. by rewrite H1, H2, IH.
  - destruct (hex_pair_byte true c Hc) as (x & y & -> & H1 & H2 & H3). cbn [app url_loop].
    apply Z.eqb_neq in H1, H2. by rewrite Z.eqb_refl, H1, H2, H3, IH.
Qed.

Lemma url_char_length c : (length (url_char c) <= 3)%nat.
Proof. unfold url_char. case_match; cbn; lia. Qed.

Lemma length_url_chars data : (length (data ≫= url_char) <= length data * 3)%nat.
Proof.
  induction data as [|c l IH]; [done|]. rewrite bind_cons, length_app. pose proof (url_char_length c). cbn. lia.
Qed.

(** No byte of the encoded text needs escaping. *)
Definition url_clean (c : Z) : bool := urlSafe (info c) || (c =? PERCENT).

Lemma url_chars_clean data : Forall is_byte data -> Forall (fun c => url_clean c = true) (data ≫= url_char).
Proof.
  induction 1 as [|c l Hc _ IH]; [constructor|]. rewrite bind_cons. apply Forall_app. split; [|done].
  assert (HB : forallb (fun c => forallb url_clean (url_char c)) (seqZ 0 256) = true) by (vm_compute; reflexivity).
  pose proof (forall_bytes _ HB c Hc) as H. rewrite forallb_forall in H. apply Forall_forall.
  intros x Hx. by apply H, list_elem_of_In.
Qed.

(** hex and percent encoding round-trip on every byte string, in both
    letter cases and through buffers of exactly the advertised lengths; the
    percent-encoded text holds only unreserved characters and escapes. *)
Theorem hex_url_roundtrip (data : bytes) (upper : bool) :
  Forall is_byte data ->
  HexDecode (HexEncode data upper) = Some data /\
  length (HexEncode data upper) = HexEncodedLen (length data) /\
  UrlDecode (UrlEncode data) = Some data /\
  (length (UrlEncode data) <= UrlEncodedMaxLen (length data))%nat /\
  Forall (fun c => url_clean c = true) (UrlEncode data).
Proof.
  intros H. unfold HexEncode, HexEncode_span, UrlEncode, UrlEncode_span, HexDecode, HexDecode_span, UrlDecode, UrlDecode_span.
  rewrite !Nat.ltb_irrefl. cbn [default option_rect]. unfold id. rewrite !length_hex_pairs.
  rewrite Nat.Div0.mod_mul, orb_false_r. cbn [Nat.eqb negb].
  split; [by apply hex_loop_encoded|]. split; [done|]. split; [by apply url_loop_encoded|].
  split; [apply length_url_chars|by apply url_chars_clean].
Qed.

Definition sample : bytes := [0; 127; 255].

Lemma hex_url_roundtrip_witness :
  HexDecode (HexEncode sample true) = Some sample /\
  length (HexEncode sample true) = HexEncodedLen (length sample) /\
  UrlDecode (UrlEncode sample) = Some sample /\
  (length (UrlEncode sample) <= UrlEncodedMaxLen (length sample))%nat /\
  Forall (fun c => url_clean c = true) (UrlEncode sample).
Proof. apply (hex_url_roundtrip sample true). repeat constructor; lia. Defined.

(** ** Base64 *)

(** The decoder on digit values, keeping only the [bits] pending bits. *)
Fixpoint b64_ref (pend bits : Z) (vals : list Z) : bytes :=
  match vals with
  | [] => []
  | v :: r =>
      let pend := pend * 64 + v in
      let bits := bits + 6 in
      if 8 <=? bits then pend / 2 ^ (bits - 8) :: b64_ref (pend mod 2 ^ (bits - 8)) (bits - 8) r
      else b64_ref pend bits r
  end.

Definition val (c : Z) : Z := base64 (info c).

Lemma val_cases c : val c = 0xFF \/ 0 <= val c < 64.
Proof.
  unfold val, info. destruct (CHAR_TABLE !! Z.to_nat c) as [i|] eqn:E; [|by left].
  assert (HT : Forall (fun i => base64 i = 0xFF \/ 0 <= base64 i < 64) CHAR_TABLE).
  { apply Forall_forall. intros x Hx.
    assert (HB : forallb (fun i => (base64 i =? 0xFF) || ((0 <=? base64 i) && (base64 i <? 64))) CHAR_TABLE = true)
      by (vm_compute; reflexivity).
    rewrite forallb_forall in HB. apply list_elem_of_In, HB in Hx. lia. }
  by apply (Forall_lookup_1 _ _ _ _ HT E).
Qed.

Lemma push_digit buf bits v :
  0 <= bits <= 26 -> 0 <= v < 64 ->
  Z.lor (u32 (Z.shiftl buf 6)) v mod 2 ^ (bits + 6) = (buf mod 2 ^ bits) * 64 + v.
Proof.
  intros Hb Hv. rewrite Z.shiftl_mul_pow2 by lia. unfold wrap.
  replace (2 ^ 32) with (2 ^ 26 * 2 ^ 6) by reflexivity. rewrite Z.mul_mod_distr_r by lia.
  rewrite lor_add by lia. change (2 ^ 6) with 64. rewrite Z.pow_add_r by lia. change (2 ^ 6) with 64.
  assert (HM : 0 < 2 ^ bits) by (apply Z.pow_pos_nonneg; lia).
  rewrite (Z.mul_comm (2 ^ bits)), Z.rem_mul_r by lia.
  rewrite (Z.add_comm (_ * 64) v). rewrite Z.mod_add, (Z.mod_small v), Z.div_add, (Z.div_small v) by lia.
  rewrite Z.add_0_l. replace (2 ^ 26) with (2 ^ bits * 2 ^ (26 - bits)) by (rewrite <- Z.pow_add_r by lia; f_equal; lia).
  assert (0 < 2 ^ (26 - bits)) by (apply Z.pow_pos_nonneg; lia).
  rewrite Z.rem_mul_r by lia. rewrite (Z.mul_comm (2 ^ bits)), Z.mod_add, Z.mod_mod by lia. lia.
Qed.

Lemma emit_byte x k : 0 <= k -> u8 (Z.land (Z.shiftr x k) 0xFF) = (x mod 2 ^ (k + 8)) / 2 ^ k.
Proof.
  intros Hk. assert (0 < 2 ^ k) by (apply Z.pow_pos_nonneg; lia).
  change 0xFF with (Z.ones 8). rewrite Z.land_ones, Z.shiftr_div_pow2 by lia. unfold wrap. rewrite Z.mod_mod by lia.
  rewrite Z.pow_add_r by lia. rewrite Z.rem_mul_r by lia. rewrite Z.mul_comm, Z.div_add, (Z.div_small (x mod 2 ^ k)) by (lia || (apply Z.mod_pos_bound; lia)).
  lia.
Qed.

Lemma base64_loop_ref data : forall buf bits room,
  0 <= bits < 8 -> (6 * Z.of_nat (length data) + bits) / 8 <= Z.of_nat room ->
  base64_loop data buf bits room =
    if forallb (fun c => negb (val c =? 0xFF)) data then Some (b64_ref (buf mod 2 ^ bits) bits (val <$> data)) else None.
Proof.
  induction data as [|c r IH]; intros buf bits room Hb Hr; [done|]. cbn [base64_loop forallb].
  fold (val c). destruct (val_cases c) as [E|Hv]; [rewrite E; done|].
  destruct (Z.eqb_spec (val c) 0xFF); [lia|]. cbn [negb andb length] in *. rewrite Nat2Z.inj_succ in Hr.
  rewrite fmap_cons. cbn [b64_ref].
  set (buf' := Z.lor (u32 (Z.shiftl buf 6)) (val c)).
  assert (HP : buf' mod 2 ^ (bits + 6) = buf mod 2 ^ bits * 64 + val c) by (apply push_digit; lia).
  destruct (Z.leb_spec 8 (bits + 6)) as [H8|H8].
  - destruct room as [|room].
    { exfalso. assert (1 <= (6 * Z.succ (Z.of_nat (length r)) + bits) / 8) by (apply Z.div_le_lower_bound; lia). lia. }
    rewrite (IH buf' (bits + 6 - 8) room); [|lia|].
    + rewrite emit_byte by lia. replace (bits + 6 - 8 + 8) with (bits + 6) by lia. rewrite HP.
      replace (buf' mod 2 ^ (bits + 6 - 8)) with ((buf' mod 2 ^ (bits + 6)) mod 2 ^ (bits + 6 - 8)); [rewrite HP; by destruct (forallb _ r)|].
      apply Z.mod_mod_divide. exists (2 ^ 8). rewrite <- Z.pow_add_r by lia. f_equal. lia.
    + replace (6 * Z.succ (Z.of_nat (length r)) + bits) with (6 * Z.of_nat (length r) + (bits + 6 - 8) + 1 * 8) in Hr by lia.
      rewrite Z.div_add in Hr by lia. lia.
  - rewrite (IH buf' (bits + 6) room); [by rewrite HP|lia|]. etrans; [|exact Hr]. apply Z.div_le_mono; lia.
Qed.

Lemma drop_pad_digits n l : last l <> Some EQUALS -> rev (drop_pad (rev (l ++ replicate n EQUALS))) = l.
Proof.
  intros H. rewrite rev_app_distr. replace (rev (replicate n EQUALS)) with (replicate n EQUALS);
    [|rewrite rev_alt; symmetry; apply reverse_replicate].
  induction n as [|n IH]; [|exact IH]. cbn [replicate app].
  destruct l as [|x l _] using rev_ind; [done|]. rewrite rev_app_distr. cbn [rev app drop_pad].
  rewrite last_snoc in H. destruct (Z.eqb_spec x EQUALS); [congruence|].
  cbn [rev]. by rewrite rev_involutive.
Qed.

Definition alphabet_of (u : bool) : bytes := if u then BASE64_URL_ALPHABET else BASE64_STD_ALPHABET.

Lemma digit_val u chunk k : 0 <= chunk -> 0 <= k ->
  val (digit (alphabet_of u) chunk k) = (chunk / 2 ^ k) mod 64 /\ digit (alphabet_of u) chunk k <> EQUALS.
Proof.
  intros Hc Hk. unfold digit, val, alphabet_of. change 0x3F with (Z.ones 6).
  rewrite Z.land_ones, Z.shiftr_div_pow2 by lia. change (2 ^ 6) with 64.
  pose proof (Z.mod_pos_bound (chunk / 2 ^ k) 64 ltac:(lia)) as HM.
  destruct (alphabet_inverse u (Z.to_nat ((chunk / 2 ^ k) mod 64))) as [E1 E2]; [lia|].
  rewrite E1. split; [lia|done].
Qed.

(** Encoding, on digit values: the groups without the padding. *)
Fixpoint b64_vals (data : bytes) : list Z :=
  match data with
  | b0 :: b1 :: b2 :: r => b0 / 4 :: b0 mod 4 * 16 + b1 / 16 :: b1 mod 16 * 4 + b2 / 64 :: b2 mod 64 :: b64_vals r
  | [b0] => [b0 / 4; b0 mod 4 * 16]
  | [b0; b1] => [b0 / 4; b0 mod 4 * 16 + b1 / 16; b1 mod 16 * 4]
  | [] => []
  end.

Definition pads (data : bytes) : nat := match (length data mod 3)%nat with 1%nat => 2%nat | 2%nat => 1%nat | _ => 0%nat end.

(** Induction three bytes at a time. *)
Lemma bytes_ind3 (P : bytes -> Prop) :
  P [] -> (forall a, P [a]) -> (forall a b, P [a; b]) ->
  (forall a b c r, P r -> P (a :: b :: c :: r)) -> forall l, P l.
Proof.
  intros H0 H1 H2 H3 l. remember (length l) as n eqn:E. revert l E.
  induction n as [n IH] using (well_founded_induction lt_wf). intros l ->.
  destruct l as [|a [|b [|c r]]]; auto. apply H3. eapply IH; [|done]. cbn. lia.
Qed.

Lemma chunk3 b0 b1 b2 : is_byte b0 -> is_byte b1 -> is_byte b2 ->
  Z.lor (Z.lor (Z.shiftl b0 16) (Z.shiftl b1 8)) b2 = b0 * 65536 + b1 * 256 + b2.
Proof.
  unfold is_byte. intros H0 H1 H2. rewrite !Z.shiftl_mul_pow2 by lia.
  rewrite (lor_add b0 (b1 * 2 ^ 8) 16) by lia.
  replace (b0 * 2 ^ 16 + b1 * 2 ^ 8) with ((b0 * 256 + b1) * 2 ^ 8) by lia.
  rewrite lor_add by lia. lia.
Qed.

Lemma chunk2 b0 b1 : is_byte b0 -> is_byte b1 ->
  Z.lor (Z.shiftl b0 16) (Z.shiftl b1 8) = b0 * 65536 + b1 * 256 + 0.
Proof. intros H0 H1. rewrite <- (chunk3 b0 b1 0) by (done || (unfold is_byte; lia)). by rewrite Z.lor_0_r. Qed.

Lemma chunk1 b0 : is_byte b0 -> Z.shiftl b0 16 = b0 * 65536 + 0 * 256 + 0.
Proof. intros H0. rewrite <- (chunk3 b0 0 0) by (done || (unfold is_byte; lia)). by rewrite !Z.lor_0_r. Qed.

(** The four six-bit digits of a chunk. *)
Lemma chunk_digits b0 b1 b2 : is_byte b0 -> is_byte b1 -> is_byte b2 ->
  let c := b0 * 65536 + b1 * 256 + b2 in
  (c / 2 ^ 18) mod 64 = b0 / 4 /\ (c / 2 ^ 12) mod 64 = b0 mod 4 * 16 + b1 / 16 /\
  (c / 2 ^ 6) mod 64 = b1 mod 16 * 4 + b2 / 64 /\ (c / 2 ^ 0) mod 64 = b2 mod 64.
Proof.
  unfold is_byte. intros H0 H1 H2. cbv zeta.
  change (2 ^ 18) with 262144. change (2 ^ 12) with 4096. change (2 ^ 6) with 64. change (2 ^ 0) with 1.
  repeat split; Z.to_euclidean_division_equations; lia.
Qed.

Lemma groups_split u padded data : Forall is_byte data ->
  exists ds, base64_groups (alphabet_of u) padded data = ds ++ replicate (if padded then pads data else 0) EQUALS /\
    val <$> ds = b64_vals data /\ Forall (fun c => c <> EQUALS) ds.
Proof.
  revert data. apply (bytes_ind3 (fun data => Forall is_byte data -> _)).
  - intros _. exists []. cbn. split; [by destruct padded|]. by split.
  - intros a Ha. apply Forall_cons in Ha as [Ha _]. cbn [base64_groups]. cbv zeta. rewrite (chunk1 a Ha).
    destruct (chunk_digits a 0 0 Ha) as (E1 & E2 & _); [unfold is_byte; lia..|].
    set (c := a * 65536 + 0 * 256 + 0) in *. assert (0 <= c) by (unfold is_byte in *; lia).
    destruct (digit_val u c 18) as [V1 N1]; [done..|]. destruct (digit_val u c 12) as [V2 N2]; [done..|].
    exists [digit (alphabet_of u) c 18; digit (alphabet_of u) c 12].
    split; [by destruct padded|]. cbn [fmap list_fmap b64_vals]. rewrite V1, V2, E1, E2.
    split; [f_equal; f_equal; rewrite Z.div_0_l by lia; lia|]. by repeat constructor.
  - intros a b HF. apply Forall_cons in HF as [Ha HF]. apply Forall_cons in HF as [Hb _].
    cbn [base64_groups]. cbv zeta. rewrite (chunk2 a b Ha Hb).
    destruct (chunk_digits a b 0 Ha Hb) as (E1 & E2 & E3 & _); [unfold is_byte; lia|].
    set (c := a * 65536 + b * 256 + 0) in *. assert (0 <= c) by (unfold is_byte in *; lia).
    destruct (digit_val u c 18) as [V1 N1]; [done..|]. destruct (digit_val u c 12) as [V2 N2]; [done..|].
    destruct (digit_val u c 6) as [V3 N3]; [done..|].
    exists [digit (alphabet_of u) c 18; digit (alphabet_of u) c 12; digit (alphabet_of u) c 6].
    split; [by destruct padded|]. cbn [fmap list_fmap b64_vals]. rewrite V1, V2, V3, E1, E2, E3.
    split; [do 3 f_equal; rewrite Z.div_0_l by lia; lia|]. by repeat constructor.
  - intros a b d r IH HF. apply Forall_cons in HF as [Ha HF]. apply Forall_cons in HF as [Hb HF].
    apply Forall_cons in HF as [Hd HF]. destruct (IH HF) as (ds & E & V & N).
    cbn [base64_groups]. cbv zeta. rewrite (chunk3 a b d Ha Hb Hd).
    destruct (chunk_digits a b d Ha Hb Hd) as (E1 & E2 & E3 & E4).
    set (c := a * 65536 + b * 256 + d) in *. assert (0 <= c) by (unfold is_byte in *; lia).
    destruct (digit_val u c 18) as [V1 N1]; [done..|]. destruct (digit_val u c 12) as [V2 N2]; [done..|].
    destruct (digit_val u c 6) as [V3 N3]; [done..|]. destruct (digit_val u c 0) as [V4 N4]; [done..|].
    exists (digit (alphabet_of u) c 18 :: digit (alphabet_of u) c 12 :: digit (alphabet_of u) c 6 ::
            digit (alphabet_of u) c 0 :: ds).
    assert (HP : pads (a :: b :: d :: r) = pads r).
    { unfold pads. cbn [length]. replace (S (S (S (length r)))) with (length r + 1 * 3)%nat by lia.
      by rewrite Nat.Div0.mod_add. }
    rewrite HP, E. split; [done|]. cbn [fmap list_fmap b64_vals]. change (list_fmap Z Z val ds) with (val <$> ds).
    rewrite V1, V2, V3, V4, E1, E2, E3, E4, V. split; [done|]. by repeat constructor.
Qed.

Lemma ref_vals data : Forall is_byte data -> b64_ref 0 0 (b64_vals data) = data.
Proof.
  revert data. apply (bytes_ind3 (fun data => Forall is_byte data -> _)).
  - done.
  - intros a Ha. apply Forall_cons in Ha as [Ha _]. cbn -[Z.div Z.modulo Z.mul]. f_equal.
    unfold is_byte in Ha. Z.to_euclidean_division_equations. lia.
  - intros a b HF. apply Forall_cons in HF as [Ha HF]. apply Forall_cons in HF as [Hb _].
    unfold is_byte in *. cbn -[Z.div Z.modulo Z.mul]. f_equal; [|f_equal]; Z.to_euclidean_division_equations; lia.
  - intros a b d r IH HF. apply Forall_cons in HF as [Ha HF]. apply Forall_cons in HF as [Hb HF].
    apply Forall_cons in HF as [Hd HF]. cbn [b64_vals b64_ref]. cbv zeta.
    change (8 <=? 0 + 6) with false. change (8 <=? 0 + 6 + 6) with true. change (0 + 6 + 6 - 8) with 4.
    cbv iota. change (8 <=? 4 + 6) with true. change (4 + 6 - 8) with 2. cbv iota.
    change (8 <=? 2 + 6) with true. change (2 + 6 - 8) with 0. cbv iota.
    change (2 ^ 4) with 16. change (2 ^ 2) with 4. change (2 ^ 0) with 1. unfold is_byte in *.
    rewrite Z.mod_1_r, IH by done.
    f_equal; [|f_equal; [|f_equal]]; Z.to_euclidean_division_equations; lia.
Qed.

Lemma b64_vals_last (ds : bytes) : Forall (fun c => c <> EQUALS) ds -> last ds <> Some EQUALS.
Proof.
  intros H E. rewrite last_Some in E. destruct E as [l ->]. apply Forall_app in H as [_ H].
  apply Forall_cons in H as [H _]. done.
Qed.

Lemma b64_vals_range data : Forall is_byte data -> Forall (fun v => 0 <= v < 64) (b64_vals data).
Proof.
  revert data. apply (bytes_ind3 (fun data => Forall is_byte data -> _)).
  - constructor.
  - intros a H. apply Forall_cons in H as [H _]. unfold is_byte in *. cbn [b64_vals].
    repeat constructor; Z.to_euclidean_division_equations; lia.
  - intros a b H. apply Forall_cons in H as [Ha H]. apply Forall_cons in H as [Hb _]. unfold is_byte in *. cbn [b64_vals].
    repeat constructor; Z.to_euclidean_division_equations; lia.
  - intros a b c r IH H. apply Forall_cons in H as [Ha H]. apply Forall_cons in H as [Hb H].
    apply Forall_cons in H as [Hc H]. unfold is_byte in *. cbn [b64_vals].
    repeat (apply Forall_cons; split; [Z.to_euclidean_division_equations; lia|]). by apply IH.
Qed.

Lemma groups_length alphabet padded data :
  length (base64_groups alphabet padded data) = Base64EncodedLen (length data) padded.
Proof.
  revert data. apply bytes_ind3; [by destruct padded..|]. intros a b c r IH. cbn [base64_groups length]. rewrite IH.
  unfold Base64EncodedLen. destruct padded.
  - replace (S (S (S (length r))) + 2)%nat with ((length r + 2) + 1 * 3)%nat by lia.
    rewrite Nat.div_add by lia. lia.
  - replace (S (S (S (length r))) * 4 + 2)%nat with ((length r * 4 + 2) + 4 * 3)%nat by lia.
    rewrite Nat.div_add by lia. lia.
Qed.

Lemma room_enough (n m : nat) : (n <= m)%nat ->
  (6 * Z.of_nat n + 0) / 8 <= Z.of_nat (Base64DecodedMaxLen m).
Proof.
  intros H. unfold Base64DecodedMaxLen. rewrite Nat2Z.inj_div. apply Z.div_le_lower_bound; [lia|].
  Z.to_euclidean_division_equations. lia.
Qed.

(** The text the decoder reads: without the trailing [=]. *)
Definition unpadded (data : bytes) : bytes := rev (drop_pad (rev data)).

Lemma drop_pad_length l : (length (drop_pad l) <= length l)%nat.
Proof. induction l as [|c l IH]; cbn; [lia|]. case_match; cbn; lia. Qed.

Lemma Base64Decode_ref data :
  Base64Decode data = if forallb (fun c => negb (val c =? 0xFF)) (unpadded data)
                      then Some (b64_ref 0 0 (val <$> unpadded data)) else None.
Proof.
  unfold Base64Decode, Base64Decode_span. fold (unpadded data).
  rewrite base64_loop_ref; [by rewrite Z.mod_1_r|lia|]. apply room_enough.
  unfold unpadded. rewrite length_rev. etrans; [apply drop_pad_length|]. by rewrite length_rev.
Qed.

(** Base64 round-trips on every byte string, in both alphabets, padded or
    not, and the encoded text has exactly the advertised length; decoding
    fails only on a character of neither alphabet, never for want of room. *)
Theorem Base64_roundtrip (data text : bytes) (urlSafe padded : bool) :
  Forall is_byte data ->
  Base64Decode (Base64Encode data urlSafe padded) = Some data /\
  length (Base64Encode data urlSafe padded) = Base64EncodedLen (length data) padded /\
  (Base64Decode text = None <-> exists c, c ∈ unpadded text /\ val c = 0xFF).
Proof.
  intros H. unfold Base64Encode, Base64Encode_span. rewrite Nat.ltb_irrefl. cbn [default option_rect]. unfold id.
  fold (alphabet_of urlSafe). split; [|split; [apply groups_length|]].
  - rewrite Base64Decode_ref. destruct (groups_split urlSafe padded data H) as (ds & -> & V & N).
    unfold unpadded. rewrite drop_pad_digits by (by apply b64_vals_last). rewrite V, ref_vals by done.
    assert (forallb (fun c => negb (val c =? 0xFF)) ds = true) as ->; [|done].
    apply forallb_forall. intros c Hc. apply list_elem_of_In in Hc.
    assert (Hv : val c ∈ b64_vals data) by (rewrite <- V; by apply list_elem_of_fmap_2).
    pose proof (b64_vals_range data H) as HR. rewrite Forall_forall in HR. specialize (HR _ Hv).
    apply negb_true_iff, Z.eqb_neq. lia.
  - rewrite Base64Decode_ref. destruct (forallb _ (unpadded text)) eqn:E; split; try done.
    + intros (c & Hc & Hv). rewrite forallb_forall in E. apply list_elem_of_In, E in Hc. by rewrite Hv in Hc.
    + intros _. apply not_true_iff_false in E. rewrite forallb_forall in E.
      destruct (decide (Exists (fun c => val c = 0xFF) (unpadded text))) as [HE|HE].
      * apply Exists_exists in HE as (c & Hc & Hv). by exists c.
      * exfalso. apply E. intros c Hc. apply not_Exists_Forall in HE; [|intros x; apply _].
        rewrite Forall_forall in HE. apply negb_true_iff, Z.eqb_neq, HE. by apply list_elem_of_In.
Qed.

Lemma Base64_roundtrip_witness :
  Base64Decode (Base64Encode sample true false) = Some sample /\
  length (Base64Encode sample true false) = Base64EncodedLen (length sample) false /\
  (Base64Decode (lit "AA!A") = None <-> exists c, c ∈ unpadded (lit "AA!A") /\ val c = 0xFF).
Proof. apply (Base64_roundtrip sample (lit "AA!A") true false). repeat constructor; lia. Defined.

End Encoding.
