(* ===== verification/Uuid.v ===== *)
(** * UUIDs (shared/abis/uuid.hpp)

    Sixteen bytes and their canonical text.  Parsing fills its output byte by
    byte and stops at the first bad digit, so a refused text leaves a prefix
    written: the output is passed in and returned. *)

From S2P Require Import Prelude Strings.

Module Uuid.

Abbreviation UUID := bytes (only parsing).

Definition Zero : bytes := replicate 16 0.
Definition Clear (id : bytes) : bytes := replicate 16 0.
Definition IsZero (id : bytes) : bool := bool_decide (id = replicate 16 0).
Definition Equals (id other : bytes) : bool := bool_decide (id = other).
Definition FromBytes (data : option bytes) : bytes :=
  match data with Some d => take 16 d | None => Clear Zero end.

Definition kDecode : list Z :=
  [0xFF; 0xFF; 0xFF; 0xFF; 0xFF; 0xFF; 0xFF; 0xFF; 0xFF; 0xFF; 0xFF; 0xFF; 0xFF; 0xFF; 0xFF; 0xFF;
   0xFF; 0xFF; 0xFF; 0xFF; 0xFF; 0xFF; 0xFF; 0xFF; 0xFF; 0xFF; 0xFF; 0xFF; 0xFF; 0xFF; 0xFF; 0xFF;
   0xFF; 0xFF; 0xFF; 0xFF; 0xFF; 0xFF; 0xFF; 0xFF; 0xFF; 0xFF; 0xFF; 0xFF; 0xFF; 0xFF; 0xFF; 0xFF;
   0x00; 0x01; 0x02; 0x03; 0x04; 0x05; 0x06; 0x07; 0x08; 0x09; 0xFF; 0xFF; 0xFF; 0xFF; 0xFF; 0xFF;
   0xFF; 0x0A; 0x0B; 0x0C; 0x0D; 0x0E; 0x0F; 0xFF; 0xFF; 0xFF; 0xFF; 0xFF; 0xFF; 0xFF; 0xFF; 0xFF;
   0xFF; 0xFF; 0xFF; 0xFF; 0xFF; 0xFF; 0xFF; 0xFF; 0xFF; 0xFF; 0xFF; 0xFF; 0xFF; 0xFF; 0xFF; 0xFF;
   0xFF; 0x0A; 0x0B; 0x0C; 0x0D; 0x0E; 0x0F; 0xFF; 0xFF; 0xFF; 0xFF; 0xFF; 0xFF; 0xFF; 0xFF; 0xFF;
   0xFF; 0xFF; 0xFF; 0xFF; 0xFF; 0xFF; 0xFF; 0xFF; 0xFF; 0xFF; 0xFF; 0xFF; 0xFF; 0xFF; 0xFF; 0xFF;
   0xFF; 0xFF; 0xFF; 0xFF; 0xFF; 0xFF; 0xFF; 0xFF; 0xFF; 0xFF; 0xFF; 0xFF; 0xFF; 0xFF; 0xFF; 0xFF;
   0xFF; 0xFF; 0xFF; 0xFF; 0xFF; 0xFF; 0xFF; 0xFF; 0xFF; 0xFF; 0xFF; 0xFF; 0xFF; 0xFF; 0xFF; 0xFF;
   0xFF; 0xFF; 0xFF; 0xFF; 0xFF; 0xFF; 0xFF; 0xFF; 0xFF; 0xFF; 0xFF; 0xFF; 0xFF; 0xFF; 0xFF; 0xFF;
   0xFF; 0xFF; 0xFF; 0xFF; 0xFF; 0xFF; 0xFF; 0xFF; 0xFF; 0xFF; 0xFF; 0xFF; 0xFF; 0xFF; 0xFF; 0xFF;
   0xFF; 0xFF; 0xFF; 0xFF; 0xFF; 0xFF; 0xFF; 0xFF; 0xFF; 0xFF; 0xFF; 0xFF; 0xFF; 0xFF; 0xFF; 0xFF;
   0xFF; 0xFF; 0xFF; 0xFF; 0xFF; 0xFF; 0xFF; 0xFF; 0xFF; 0xFF; 0xFF; 0xFF; 0xFF; 0xFF; 0xFF; 0xFF;
   0xFF; 0xFF; 0xFF; 0xFF; 0xFF; 0xFF; 0xFF; 0xFF; 0xFF; 0xFF; 0xFF; 0xFF; 0xFF; 0xFF; 0xFF; 0xFF;
   0xFF; 0xFF; 0xFF; 0xFF; 0xFF; 0xFF; 0xFF; 0xFF; 0xFF; 0xFF; 0xFF; 0xFF; 0xFF; 0xFF; 0xFF; 0xFF].

(** [P(dst, i)] *)
Definition P (dst i : nat) (s out : bytes) : bool * bytes :=
  let hi := at_ kDecode (Z.to_nat (at_ s i)) in
  let lo := at_ kDecode (Z.to_nat (at_ s (i + 1))) in
  if (hi =? 0xFF) || (lo =? 0xFF) then (false, out)
  else (true, <[dst := u8 (Z.lor (Z.shiftl hi 4) lo)]> out).

Definition positions : list (nat * nat) :=
  [(0, 0); (1, 2); (2, 4); (3, 6); (4, 9); (5, 11); (6, 14); (7, 16); (8, 19); (9, 21);
   (10, 24); (11, 26); (12, 28); (13, 30); (14, 32); (15, 34)]%nat.

Fixpoint parse_bytes (ps : list (nat * nat)) (s out : bytes) : bool * bytes :=
  match ps with
  | [] => (true, out)
  | (dst, i) :: r =>
      let '(ok, out) := P dst i s out in
      if ok then parse_bytes r s out else (false, out)
  end.

Definition FromString (str out : bytes) : bool * bytes :=
  if negb (length str =? 36)%nat then (false, out)
  else if negb (at_ str 8 =? MINUS) || negb (at_ str 13 =? MINUS) || negb (at_ str 18 =? MINUS) ||
          negb (at_ str 23 =? MINUS) then (false, out)
  else parse_bytes positions str out.

(** [strnlen(str, cap)] on a C string's bytes. *)
Fixpoint strnlen (s : bytes) (cap : nat) : nat :=
  match cap, s with
  | S n, c :: r => if c =? 0 then O else S (strnlen r n)
  | _, _ => O
  end.

(** The [const char*] overload. *)
Definition FromCString (str : option bytes) (out : bytes) : bool * bytes :=
  match str with
  | None => (false, out)
  | Some s => if (strnlen s 37 =? 36)%nat then FromString (take 36 s) out else (false, out)
  end.

Definition kHex : bytes :=
  lit "000102030405060708090a0b0c0d0e0f" ++
   lit "101112131415161718191a1b1c1d1e1f" ++
   lit "202122232425262728292a2b2c2d2e2f" ++
   lit "303132333435363738393a3b3c3d3e3f" ++
   lit "404142434445464748494a4b4c4d4e4f" ++
   lit "505152535455565758595a5b5c5d5e5f" ++
   lit "606162636465666768696a6b6c6d6e6f" ++
   lit "707172737475767778797a7b7c7d7e7f" ++
   lit "808182838485868788898a8b8c8d8e8f" ++
   lit "909192939495969798999a9b9c9d9e9f" ++
   lit "a0a1a2a3a4a5a6a7a8a9aaabacadaeaf" ++
   lit "b0b1b2b3b4b5b6b7b8b9babbbcbdbebf" ++
   lit "c0c1c2c3c4c5c6c7c8c9cacbcccdcecf" ++
   lit "d0d1d2d3d4d5d6d7d8d9dadbdcdddedf" ++
   lit "e0e1e2e3e4e5e6e7e8e9eaebecedeeef" ++
   lit "f0f1f2f3f4f5f6f7f8f9fafbfcfdfeff".

(** [W(i)] *)
Definition W (id : bytes) (i : nat) : bytes :=
  let b := Z.to_nat (at_ id i) in [at_ kHex (b * 2); at_ kHex (b * 2 + 1)].

Definition ToString (id : bytes) : bytes :=
  W id 0 ++ W id 1 ++ W id 2 ++ W id 3 ++ [MINUS] ++
  W id 4 ++ W id 5 ++ [MINUS] ++ W id 6 ++ W id 7 ++ [MINUS] ++ W id 8 ++ W id 9 ++ [MINUS] ++
  W id 10 ++ W id 11 ++ W id 12 ++ W id 13 ++ W id 14 ++ W id 15.

(** ** Lemmas *)

Definition dec (c : Z) : Z := at_ kDecode (Z.to_nat c).

Lemma hex_byte c : is_byte c ->
  dec (at_ kHex (Z.to_nat c * 2)) <> 0xFF /\ dec (at_ kHex (Z.to_nat c * 2 + 1)) <> 0xFF /\
  u8 (Z.lor (Z.shiftl (dec (at_ kHex (Z.to_nat c * 2))) 4) (dec (at_ kHex (Z.to_nat c * 2 + 1)))) = c.
Proof.
  intros Hc.
  assert (HB : forallb (fun c => negb (dec (at_ kHex (Z.to_nat c * 2)) =? 0xFF) &&
      negb (dec (at_ kHex (Z.to_nat c * 2 + 1)) =? 0xFF) &&
      (u8 (Z.lor (Z.shiftl (dec (at_ kHex (Z.to_nat c * 2))) 4) (dec (at_ kHex (Z.to_nat c * 2 + 1)))) =? c))
    (seqZ 0 256) = true) by (vm_compute; reflexivity).
  pose proof (forall_bytes _ HB c Hc) as H. cbv beta in H. 
  apply andb_true_iff in H as [H H3]. apply andb_true_iff in H as [H1 H2].
  apply negb_true_iff, Z.eqb_neq in H1. apply negb_true_iff, Z.eqb_neq in H2. apply Z.eqb_eq in H3.
  exact (conj H1 (conj H2 H3)).
Qed.

(** A pair of hex digits and the byte it stands for. *)
Lemma dec_lower x y : is_byte x -> is_byte y -> dec x <> 0xFF -> dec y <> 0xFF ->
  let b := u8 (Z.lor (Z.shiftl (dec x) 4) (dec y)) in
  is_byte b /\ at_ kHex (Z.to_nat b * 2) = StringUtils.ToLowerAscii x /\
  at_ kHex (Z.to_nat b * 2 + 1) = StringUtils.ToLowerAscii y.
Proof.
  intros Hx Hy Dx Dy b. split; [unfold b, is_byte; apply (wrap_range 8); lia|].
  assert (HB : forallb (fun x => if dec x =? 0xFF then true else forallb (fun y => if dec y =? 0xFF then true else
      (let b := u8 (Z.lor (Z.shiftl (dec x) 4) (dec y)) in
       (at_ kHex (Z.to_nat b * 2) =? StringUtils.ToLowerAscii x) &&
       (at_ kHex (Z.to_nat b * 2 + 1) =? StringUtils.ToLowerAscii y))) (seqZ 0 256)) (seqZ 0 256) = true)
    by (vm_compute; reflexivity).
  pose proof (forall_bytes _ HB x Hx) as H. cbv beta in H. apply Z.eqb_neq in Dx, Dy. rewrite Dx in H.
  pose proof (forall_bytes _ H y Hy) as H'. cbv beta in H'. rewrite Dy in H'. cbv zeta in H'.
  apply andb_true_iff in H' as [H1 H2]. apply Z.eqb_eq in H1, H2. exact (conj H1 H2).
Qed.

#[local] Opaque kHex kDecode.

Lemma W_at l i x : at_ l i = x -> W l i = [at_ kHex (Z.to_nat x * 2); at_ kHex (Z.to_nat x * 2 + 1)].
Proof. intros <-. reflexivity. Qed.

Lemma P_ok dst i s out b : is_byte b ->
  at_ s i = at_ kHex (Z.to_nat b * 2) -> at_ s (i + 1) = at_ kHex (Z.to_nat b * 2 + 1) ->
  P dst i s out = (true, <[dst := b]> out).
Proof.
  intros Hb E1 E2. unfold P. rewrite E1, E2. destruct (hex_byte b Hb) as (H1 & H2 & H3). unfold dec in *.
  cbv zeta. apply Z.eqb_neq in H1, H2. by rewrite H1, H2, H3.
Qed.

Lemma P_inv dst i s out out' : P dst i s out = (true, out') ->
  dec (at_ s i) <> 0xFF /\ dec (at_ s (i + 1)) <> 0xFF /\
  out' = <[dst := u8 (Z.lor (Z.shiftl (dec (at_ s i)) 4) (dec (at_ s (i + 1))))]> out.
Proof.
  unfold P, dec. cbv zeta. destruct (_ || _) eqn:E; [done|]. apply orb_false_iff in E as [E1 E2].
  apply Z.eqb_neq in E1, E2. intros [= <-]. done.
Qed.

Lemma parse_step dst i r s out u : parse_bytes ((dst, i) :: r) s out = (true, u) ->
  dec (at_ s i) <> 0xFF /\ dec (at_ s (i + 1)) <> 0xFF /\
  parse_bytes r s (<[dst := u8 (Z.lor (Z.shiftl (dec (at_ s i)) 4) (dec (at_ s (i + 1))))]> out) = (true, u).
Proof.
  cbn [parse_bytes]. destruct (P dst i s out) as [[] out'] eqn:E; [|done]. intros H.
  apply P_inv in E as (H1 & H2 & ->). done.
Qed.

Ltac split_length l :=
  repeat match goal with
    | H : length l = S _ |- _ => destruct l as [|? l]; [discriminate H|injection H as H]
    | H : length l = O |- _ => apply nil_length_inv in H; subst l
    end.

Lemma FromString_ToString id out :
  Forall is_byte id -> length id = 16%nat -> length out = 16%nat ->
  FromString (ToString id) out = (true, id).
Proof.
  intros Hb H1 H2. split_length id. split_length out.
  repeat match goal with H : Forall is_byte (_ :: _) |- _ => apply Forall_cons in H as [? H] end.
  unfold FromString. rewrite Nat.eqb_refl. cbn [negb].
  change (negb _ || negb _ || negb _ || negb _) with false. cbv iota.
  unfold positions. cbn [parse_bytes].
  repeat (erewrite P_ok; [| |reflexivity|reflexivity]; [|assumption]).
  reflexivity.
Qed.

Lemma ToString_FromString s out u :
  Forall is_byte s -> length out = 16%nat -> FromString s out = (true, u) ->
  ToString u = map StringUtils.ToLowerAscii s /\ Forall is_byte u /\ length u = 16%nat.
Proof.
  intros Hb H2. unfold FromString.
  destruct (Nat.eqb_spec (length s) 36) as [H1|]; cbn [negb]; [|discriminate].
  destruct (_ || _) eqn:ED; [discriminate|].
  repeat match goal with H : (_ || _) = false |- _ => apply orb_false_iff in H as [? ?] end.
  repeat match goal with H : negb _ = false |- _ => apply negb_false_iff, Z.eqb_eq in H end.
  split_length s. split_length out. unfold positions.
  repeat match goal with H : Forall is_byte (_ :: _) |- _ => apply Forall_cons in H as [? H] end.
  intros HP.
  do 16 (apply parse_step in HP as (? & ? & HP)).
  cbn [parse_bytes] in HP. injection HP as <-.
  repeat match goal with H : at_ ?l ?i = MINUS |- _ =>
    let x := eval cbv [at_ lookup list_lookup default option_rect id] in (at_ l i) in change (x = MINUS) in H; subst x end.
  cbv [at_ lookup list_lookup default option_rect id Nat.add] in *.
  repeat match goal with
    | H1 : dec ?x <> 0xFF, H2 : dec ?y <> 0xFF |- context [u8 (Z.lor (Z.shiftl (dec ?x) 4) (dec ?y))] =>
        lazymatch goal with _ : is_byte (u8 (Z.lor (Z.shiftl (dec x) 4) (dec y))) |- _ => fail | _ =>
        let B := fresh "B" in let L := fresh "L" in let R := fresh "R" in
        destruct (dec_lower x y ltac:(assumption) ltac:(assumption) H1 H2) as (B & L & R);
        revert B L R; generalize (u8 (Z.lor (Z.shiftl (dec x) 4) (dec y))); intros ? B L R end
    end.
  cbn [insert list_insert] in *.
  split; [|split; [repeat (apply Forall_cons; split; [assumption|]); constructor|reflexivity]].
  unfold ToString.
  repeat match goal with |- context [W ?l ?i] =>
    let x := eval cbv [at_ lookup list_lookup default option_rect id] in (at_ l i) in rewrite (W_at l i x eq_refl) end.
  repeat match goal with H : at_ kHex _ = _ |- _ => rewrite H; clear H end.
  reflexivity.
Qed.

(** Parsing the text of a UUID gives the UUID back, and a text is accepted
    only if it is the text of the bytes read, up to the case of its digits:
    accepting and printing canonicalises. *)
Theorem uuid_roundtrip (id out s u : bytes) :
  Forall is_byte id -> length id = 16%nat -> length out = 16%nat -> Forall is_byte s ->
  FromString (ToString id) out = (true, id) /\
  (FromString s out = (true, u) ->
   ToString u = map StringUtils.ToLowerAscii s /\ Forall is_byte u /\ length u = 16%nat).
Proof.
  intros H1 H2 H3 H4. split; [by apply FromString_ToString|]. intros H. by apply (ToString_FromString s out).
Qed.

Definition sample_text : bytes := lit "6BA7B810-9dad-11d1-80b4-00c04fd430c8".

Lemma uuid_roundtrip_witness :
  FromString (ToString Zero) Zero = (true, Zero) /\
  (FromString sample_text Zero = (true, (FromString sample_text Zero).2) ->
   ToString (FromString sample_text Zero).2 = map StringUtils.ToLowerAscii sample_text /\
   Forall is_byte (FromString sample_text Zero).2 /\ length (FromString sample_text Zero).2 = 16%nat).
Proof.
  apply (uuid_roundtrip Zero Zero sample_text); solve [reflexivity | apply bytes_by_eval; vm_compute; reflexivity].
Defined.

Example sample_accepted : (FromString sample_text Zero).1 = true.
Proof. vm_compute. reflexivity. Qed.

End Uuid.
