(* ===== verification/RouteTrie.v ===== *)
(** * The router (http/routing)

    The trie of route_trie.cpp, with its nodes owned by their parents and a
    node pointer ([insertCursor_], [cursorStack_], the node [Insert] returns)
    the list of child indices that leads to it from the root, which stays
    valid because children are only ever appended; the segments of
    route_segment.cpp and segment_variant.hpp; and the seven tries, route
    identities and group prefixes of router.cpp. *)

From S2P Require Import Prelude Strings Constants Uuid.

Module RouteTrie.

(** [SegmentVariant]: the tag and the union member it selects. *)
Inductive SegmentVariant :=
| SEG_EMPTY
| SEG_U64 (v : Z)
| SEG_I64 (v : Z)
| SEG_STR (s : bytes)
| SEG_UUID (id : bytes)
| SEG_STC_STR (s : bytes).

#[export] Instance SegmentVariant_eq_dec : EqDecision SegmentVariant.
Proof. solve_decision. Defined.

Definition PathSegments := list SegmentVariant.

Inductive ParamType := UINT | INT | STRING | UUID_T | UNKNOWN.

Definition IsStatic (rv : SegmentVariant) : bool :=
  match rv with SEG_STC_STR _ => true | _ => false end.

Definition IsParam (rv : SegmentVariant) : bool :=
  match rv with SEG_U64 _ | SEG_I64 _ | SEG_STR _ | SEG_UUID _ => true | _ => false end.

Definition MatchesStatic (rv : SegmentVariant) (candidate : bytes) : bool :=
  match rv with SEG_STC_STR s => sv_eq s candidate | _ => false end.

Definition GetParamType (rv : SegmentVariant) : ParamType :=
  match rv with
  | SEG_U64 _ => UINT
  | SEG_I64 _ => INT
  | SEG_STR _ => STRING
  | SEG_UUID _ => UUID_T
  | _ => UNKNOWN
  end.

(** The first segment of a path and what follows its slash. *)
Definition split_seg (path : bytes) : bytes * bytes :=
  match find_char SLASH path with
  | None => (path, [])
  | Some p => (take p path, drop (p + 1) path)
  end.

Definition StripRoute (route : bytes) : bytes :=
  match route with c :: r => if c =? SLASH then r else route | [] => [] end.

(** The value a parameter captures from a segment: the cases of the [switch]
    that do not [continue]. *)
Definition capture (t : ParamType) (segment : bytes) : option SegmentVariant :=
  match t with
  | UINT => SEG_U64 <$> StringUtils.StrToUInt64 segment
  | INT => SEG_I64 <$> StringUtils.StrToInt64 segment
  | UUID_T => let '(ok, id) := Uuid.FromString segment Uuid.Zero in if ok then Some (SEG_UUID id) else None
  | STRING => Some (SEG_STR segment)
  | UNKNOWN => None
  end.

(** What the wildcard captures: [{segment.data(), len}] is a prefix of the
    path. *)
Definition wild_capture (path : bytes) : bytes :=
  let '(segment, rest) := split_seg path in
  take (length segment + match rest with [] => 0 | _ => 1 + length rest end) path.

Section Trie.
(** The handlers: [None] is an empty [RouteCallback]. *)
Context {C : Type}.

Inductive TrieNode :=
| Node (children : list (SegmentVariant * TrieNode)) (callback : option C) (metricsIdx : Z).

Definition children (n : TrieNode) := match n with Node c _ _ => c end.
Definition callback (n : TrieNode) := match n with Node _ c _ => c end.
Definition metricsIdx (n : TrieNode) := match n with Node _ _ m => m end.

Definition METRICS_IDX_UNASSIGNED : Z := 0xFFFF.
Definition new_node : TrieNode := Node [] None METRICS_IDX_UNASSIGNED.

(** [MatchNode]: the node that answers, and [outParams] afterwards. *)
Fixpoint MatchNode (node : TrieNode) (requestPath : bytes) (outParams : PathSegments)
  : option TrieNode * PathSegments :=
  match requestPath with
  | [] => (match callback node with None => None | Some _ => Some node end, outParams)
  | _ =>
      let '(segment, rest) := split_seg requestPath in
      (fix siblings (cs : list (SegmentVariant * TrieNode)) (outParams : PathSegments) :=
         match cs with
         | [] => (None, outParams)
         | (rv, child) :: cs' =>
             if IsStatic rv then
               if MatchesStatic rv [STAR] then
                 match MatchNode child [] (outParams ++ [SEG_STR (wild_capture requestPath)]) with
                 | (Some hit, out) => (Some hit, out)
                 | (None, out) => siblings cs' (removelast out)
                 end
               else if MatchesStatic rv segment then
                 match MatchNode child rest outParams with
                 | (Some hit, out) => (Some hit, out)
                 | (None, out) => siblings cs' out
                 end
               else siblings cs' outParams
             else if IsParam rv then
               match capture (GetParamType rv) segment with
               | None => siblings cs' outParams
               | Some v =>
                   match MatchNode child rest (outParams ++ [v]) with
                   | (Some hit, out) => (Some hit, out)
                   | (None, out) => siblings cs' (removelast out)
                   end
               end
             else siblings cs' outParams
         end) (children node) outParams
  end.

(** The first static child with this key. *)
Fixpoint find_static (segment : bytes) (cs : list (SegmentVariant * TrieNode)) : option nat :=
  match cs with
  | [] => None
  | (rv, _) :: r => if IsStatic rv && MatchesStatic rv segment then Some 0%nat else S <$> find_static segment r
  end.

(** The segment of a dynamic route part, [<type>] or [<name:type>]. *)
Definition is_dynamic (segment : bytes) : bool :=
  match segment with
  | [] => false
  | c :: _ => (c =? LANGLE) && (at_ segment (length segment - 1) =? RANGLE)
  end.

Definition dynamic_type (segment : bytes) : outcome bytes :=
  if (length segment <=? 2)%nat then Fatal "[Route-Formatter]: Empty parameter segment"
  else
    let inner := take (length segment - 2) (drop 1 segment) in
    match find_char COLON inner with
    | None => Ret inner
    | Some colon =>
        if (colon =? 0)%nat || (colon =? length inner - 1)%nat
        then Fatal "[Route-Formatter]: Malformed dynamic segment"
        else Ret (drop (colon + 1) inner)
    end.

Definition dynamic_segment (segment : bytes) : outcome SegmentVariant :=
  let* type := dynamic_type segment in
  if sv_eq type (lit "uint") then Ret (SEG_U64 0)
  else if sv_eq type (lit "int") then Ret (SEG_I64 0)
  else if sv_eq type (lit "uuid") then Ret (SEG_UUID Uuid.Zero)
  else if sv_eq type (lit "string") then Ret (SEG_STR [])
  else Fatal "[Route-Formatter]: Unknown parameter type".

Definition with_children (n : TrieNode) (cs : list (SegmentVariant * TrieNode)) : TrieNode :=
  Node cs (callback n) (metricsIdx n).

Definition set_child (n : TrieNode) (i : nat) (ch : TrieNode) : TrieNode :=
  with_children n (alter (fun p => (p.1, ch)) i (children n)).

Definition add_child (n : TrieNode) (rv : SegmentVariant) (ch : TrieNode) : TrieNode :=
  with_children n (children n ++ [(rv, ch)]).

(** The loop of [InsertRoute] from a node: the node with the route below it,
    and the way to the route's last node.  Each turn consumes a segment, so
    the length of the route bounds the turns. *)
Fixpoint insert_from (fuel : nat) (node : TrieNode) (route : bytes) : outcome (TrieNode * list nat) :=
  match route, fuel with
  | [], _ | _, O => Ret (node, [])
  | _, S f =>
      let '(segment, route) := split_seg route in
      let fresh rv :=
        let* r := insert_from f new_node route in
        Ret (add_child node rv r.1, length (children node) :: r.2) in
      if is_dynamic segment then let* dynSeg := dynamic_segment segment in fresh dynSeg
      else
        match find_static segment (children node) with
        | Some i =>
            let next := match children node !! i with Some p => p.2 | None => new_node end in
            let* r := insert_from f next route in Ret (set_child node i r.1, i :: r.2)
        | None =>
            if sv_eq segment [STAR] then
              match route with
              | [] => fresh (SEG_STC_STR segment)
              | _ => Fatal "[Route-Formatter]: Wildcard '*' must be the last segment in a route."
              end
            else fresh (SEG_STC_STR segment)
        end
  end.

(** Work on the node a pointer designates.  A pointer always leads to a node
    ([Insert_registers] keeps that); nothing happens otherwise. *)
Fixpoint at_node (p : list nat) (f : TrieNode -> outcome (TrieNode * list nat)) (t : TrieNode)
  : outcome (TrieNode * list nat) :=
  match p with
  | [] => f t
  | i :: q =>
      match children t !! i with
      | Some (_, ch) => let* r := at_node q f ch in Ret (set_child t i r.1, i :: r.2)
      | None => Ret (t, [])
      end
  end.

Record RouteTrie := mkTrie { root_ : TrieNode; insertCursor_ : list nat; cursorStack_ : list (list nat) }.

Definition new_trie : RouteTrie := mkTrie new_node [] [].

Definition InsertRoute (t : RouteTrie) (route : bytes) : outcome (RouteTrie * list nat) :=
  let route := StripRoute route in
  let* r := at_node (insertCursor_ t) (fun n => insert_from (length route) n route) (root_ t) in
  Ret (mkTrie r.1 (insertCursor_ t) (cursorStack_ t), r.2).

(** [node->callback = handler], [node->metricsIdx = idx] *)
Definition set_callback (h : option C) (n : TrieNode) : outcome (TrieNode * list nat) :=
  Ret (Node (children n) h (metricsIdx n), []).
Definition set_metricsIdx (m : Z) (n : TrieNode) : outcome (TrieNode * list nat) :=
  Ret (Node (children n) (callback n) m, []).

Definition Insert (t : RouteTrie) (fullRoute : bytes) (handler : option C) : outcome (RouteTrie * list nat) :=
  let* r := InsertRoute t fullRoute in
  let '(t1, p) := r in
  let* n := at_node p (set_callback handler) (root_ t1) in
  Ret (mkTrie n.1 (insertCursor_ t1) (cursorStack_ t1), p).

Definition Match (t : RouteTrie) (requestPath : bytes) (outParams : PathSegments)
  : option TrieNode * PathSegments :=
  MatchNode (root_ t) (StripRoute requestPath) outParams.

Definition PushGroup (t : RouteTrie) (prefix : bytes) : outcome RouteTrie :=
  let* r := InsertRoute (mkTrie (root_ t) (insertCursor_ t) (insertCursor_ t :: cursorStack_ t)) prefix in
  Ret (mkTrie (root_ r.1) r.2 (cursorStack_ r.1)).

Definition PopGroup (t : RouteTrie) : outcome RouteTrie :=
  match cursorStack_ t with
  | [] => Fatal "[RouteTrie]: PopGroup called without corresponding PushGroup."
  | p :: r => Ret (mkTrie (root_ t) p r)
  end.

End Trie.

Arguments TrieNode C : clear implicits.
Arguments RouteTrie C : clear implicits.

(** ** What a route matches *)

(** [matches pats path ps]: a path answers a route with these segments, and
    the parameters are [ps]. *)
Inductive matches : list SegmentVariant -> bytes -> PathSegments -> Prop :=
| matches_end : matches [] [] []
| matches_wild path : path <> [] -> matches [SEG_STC_STR [STAR]] path [SEG_STR (wild_capture path)]
| matches_static s pats path ps :
    path <> [] -> s <> [STAR] -> (split_seg path).1 = s -> matches pats (split_seg path).2 ps ->
    matches (SEG_STC_STR s :: pats) path ps
| matches_param rv v pats path ps :
    path <> [] -> IsParam rv = true -> capture (GetParamType rv) (split_seg path).1 = Some v ->
    matches pats (split_seg path).2 ps -> matches (rv :: pats) path (v :: ps).

Section Matching.
Context {C : Type}.
Implicit Types n h : TrieNode C.

(** [descends n pats h]: the segments on the way from [n] down to [h]. *)
Inductive descends : TrieNode C -> list SegmentVariant -> TrieNode C -> Prop :=
| descends_here n : descends n [] n
| descends_child n rv ch pats h : (rv, ch) ∈ children n -> descends ch pats h -> descends n (rv :: pats) h.

Definition answers n : list (TrieNode C * PathSegments) :=
  match callback n with None => [] | Some _ => [(n, [])] end.

(** Every node that answers a path, depth first through the children in their order. *)
Fixpoint all_matches n (path : bytes) : list (TrieNode C * PathSegments) :=
  match path with
  | [] => answers n
  | _ =>
      let '(segment, rest) := split_seg path in
      (fix siblings (cs : list (SegmentVariant * TrieNode C)) : list (TrieNode C * PathSegments) :=
         match cs with
         | [] => []
         | (rv, child) :: cs' =>
             (if IsStatic rv then
                if MatchesStatic rv [STAR] then
                  (fun r => (r.1, SEG_STR (wild_capture path) :: r.2)) <$> all_matches child []
                else if MatchesStatic rv segment then all_matches child rest else []
              else if IsParam rv then
                match capture (GetParamType rv) segment with
                | None => []
                | Some v => (fun r => (r.1, v :: r.2)) <$> all_matches child rest
                end
              else []) ++ siblings cs'
         end) (children n)
  end.

(** Induction on nodes through their children. *)
Lemma TrieNode_ind' (P : TrieNode C -> Prop) :
  (forall cs cb m, Forall (fun p => P p.2) cs -> P (Node cs cb m)) -> forall n, P n.
Proof.
  intros H. fix IH 1. intros [cs cb m]. apply H.
  induction cs as [|[rv ch] cs IHcs]; constructor; [apply IH|apply IHcs].
Qed.

Definition first_of (l : list (TrieNode C * PathSegments)) (out : PathSegments)
  : option (TrieNode C) * PathSegments :=
  match l with
  | [] => (None, out)
  | (h, ps) :: _ => (Some h, out ++ ps)
  end.

Lemma first_of_app l1 l2 out :
  first_of (l1 ++ l2) out = match l1 with [] => first_of l2 out | _ => first_of l1 out end.
Proof. by destruct l1 as [|[h ps] l1]. Qed.

Lemma removelast_snoc {A} (l : list A) x : removelast (l ++ [x]) = l.
Proof. by rewrite removelast_last. Qed.

(** The search with its shared parameter stack is the first entry of the
    enumeration. *)
Lemma MatchNode_first n : forall path out, MatchNode n path out = first_of (all_matches n path) out.
Proof.
  induction n as [cs cb m IH] using TrieNode_ind'. intros path out.
  destruct path as [|c path'].
  { cbn. unfold answers. cbn. destruct cb; cbn; by rewrite ?app_nil_r. }
  cbn [MatchNode all_matches]. destruct (split_seg (c :: path')) as [segment rest].
  cbn [children]. revert out. induction IH as [|[rv ch] cs Hch _ IHcs]; intros out; [done|]. cbn [snd] in Hch.
  cbv beta iota. rewrite first_of_app.
  destruct (IsStatic rv) eqn:ES; [destruct (MatchesStatic rv [STAR]) eqn:EW; [|destruct (MatchesStatic rv segment)]|
    destruct (IsParam rv); [destruct (capture (GetParamType rv) segment) as [v|]|]]; try apply IHcs.
  - rewrite Hch. destruct (all_matches ch []) as [|[h ps] l]; cbn; [by rewrite removelast_snoc|by rewrite <- app_assoc].
  - rewrite Hch. by destruct (all_matches ch rest) as [|[h ps] l]; cbn.
  - rewrite Hch. destruct (all_matches ch rest) as [|[h ps] l]; cbn; [by rewrite removelast_snoc|by rewrite <- app_assoc].
Qed.

Lemma answers_spec n h ps : (h, ps) ∈ answers n <-> h = n /\ ps = [] /\ callback n <> None.
Proof.
  unfold answers. destruct (callback n); rewrite ?list_elem_of_singleton; split; try naive_solver.
  intros H. by apply elem_of_nil in H.
Qed.

Lemma star_inj rv : IsStatic rv = true -> MatchesStatic rv [STAR] = true -> rv = SEG_STC_STR [STAR].
Proof. destruct rv; try done. cbn. intros _ H. apply sv_eq_true in H. congruence. Qed.

(** What one child contributes to the enumeration of a nonempty path. *)
Definition child_matches (path : bytes) (rv : SegmentVariant) ch : list (TrieNode C * PathSegments) :=
  if IsStatic rv then
    if MatchesStatic rv [STAR] then (fun r => (r.1, SEG_STR (wild_capture path) :: r.2)) <$> all_matches ch []
    else if MatchesStatic rv (split_seg path).1 then all_matches ch (split_seg path).2 else []
  else if IsParam rv then
    match capture (GetParamType rv) (split_seg path).1 with
    | None => []
    | Some v => (fun r => (r.1, v :: r.2)) <$> all_matches ch (split_seg path).2
    end
  else [].

Lemma all_matches_children n path h ps :
  path <> [] ->
  (h, ps) ∈ all_matches n path <-> exists rv ch, (rv, ch) ∈ children n /\ (h, ps) ∈ child_matches path rv ch.
Proof.
  intros Hp. destruct n as [cs cb m]. destruct path as [|c path']; [done|].
  unfold child_matches. cbn [all_matches children]. destruct (split_seg (c :: path')) as [segment rest]. cbn [fst snd].
  induction cs as [|[rv ch] cs IH].
  - split; [intros H; inversion H|]. intros (? & ? & H & _). inversion H.
  - rewrite elem_of_app, IH. split.
    + intros [H|(rv' & ch' & H1 & H2)]; [exists rv, ch; split; [by left|done]|exists rv', ch'; split; [by right|done]].
    + intros (rv' & ch' & H1 & H2). apply elem_of_cons in H1 as [[= -> ->]|H1]; [by left|].
      right. by exists rv', ch'.
Qed.

Lemma child_matches_spec path rv ch h ps :
  path <> [] ->
  (forall q ps', (h, ps') ∈ all_matches ch q <->
     exists pats, descends ch pats h /\ callback h <> None /\ matches pats q ps') ->
  (h, ps) ∈ child_matches path rv ch <->
  exists pats, descends ch pats h /\ callback h <> None /\ matches (rv :: pats) path ps.
Proof.
  intros Hp IH. unfold child_matches. split.
  - destruct (IsStatic rv) eqn:ES.
    + destruct (MatchesStatic rv [STAR]) eqn:EW.
      * apply star_inj in EW; [|done]. subst rv. intros H. apply list_elem_of_fmap in H as ([h' ps'] & [= -> ->] & H).
        assert (Hn : h' = ch /\ ps' = [] /\ callback ch <> None).
        { destruct ch as [cs cb m]. by apply answers_spec in H. }
        destruct Hn as (-> & -> & Hc). exists []. split; [constructor|]. split; [done|]. by constructor.
      * destruct (MatchesStatic rv (split_seg path).1) eqn:EM; [|intros H; by apply elem_of_nil in H].
        intros H. apply IH in H as (pats & D & Hc & M). exists pats. split; [done|]. split; [done|].
        destruct rv; try done. cbn in EM, EW. apply sv_eq_true in EM. constructor; try done.
        intros ->. by rewrite sv_eq_refl in EW.
    + destruct (IsParam rv) eqn:EP; [|intros H; by apply elem_of_nil in H].
      destruct (capture _ _) as [v|] eqn:EC; [|intros H; by apply elem_of_nil in H].
      intros H. apply list_elem_of_fmap in H as ([h' ps'] & [= -> ->] & H).
      apply IH in H as (pats & D & Hc & M). exists pats. split; [done|]. split; [done|]. by econstructor.
  - intros (pats & D & Hc & M). inversion M; subst.
    + cbn. apply list_elem_of_fmap. exists (h, []). split; [done|]. apply IH. exists []. split; [done|]. split; [done|constructor].
    + cbn. destruct (sv_eq (split_seg path).1 [STAR]) eqn:EW; [apply sv_eq_true in EW; done|].
      rewrite sv_eq_refl. apply IH. by exists pats.
    + destruct (IsStatic rv) eqn:ES; [by destruct rv|].
      match goal with H : IsParam rv = true |- _ => rewrite H end.
      match goal with H : capture _ _ = Some _ |- _ => rewrite H end.
      apply list_elem_of_fmap. exists (h, ps0). split; [done|]. apply IH. by exists pats.
Qed.

Lemma all_matches_spec n : forall path h ps,
  (h, ps) ∈ all_matches n path <->
  exists pats, descends n pats h /\ callback h <> None /\ matches pats path ps.
Proof.
  induction n as [cs cb m IH] using TrieNode_ind'. intros path h ps. rewrite Forall_forall in IH.
  destruct (decide (path = [])) as [->|Hp].
  - cbn [all_matches]. rewrite answers_spec. split.
    + intros (-> & -> & Hc). exists []. repeat split; [constructor|done|constructor].
    + intros (pats & D & Hc & M). inversion M; subst; try done. inversion D; subst. done.
  - rewrite all_matches_children by done. split.
    + intros (rv & ch & Hin & H). apply child_matches_spec in H; [|done|intros q ps'; apply (IH _ Hin)].
      destruct H as (pats & D & Hc & M). exists (rv :: pats). split; [by econstructor|done].
    + intros (pats & D & Hc & M). inversion D as [|? rv ch pats' ? Hin D']; subst; [by inversion M; subst|].
      exists rv, ch. split; [done|]. apply child_matches_spec; [done|intros q ps'; apply (IH _ Hin)|]. by exists pats'.
Qed.

(** *** Which of several matches is taken *)

(** The segments on the way of a pointer, and the node it points at. *)
Fixpoint walk n (p : list nat) : option (list SegmentVariant * TrieNode C) :=
  match p with
  | [] => Some ([], n)
  | i :: q => '(rv, ch) ← children n !! i; (fun r => (rv :: r.1, r.2)) <$> walk ch q
  end.

(** The route at [p], with its handler on [h], matches the path. *)
Definition route_at n (p : list nat) h (path : bytes) (ps : PathSegments) : Prop :=
  exists pats, walk n p = Some (pats, h) /\ callback h <> None /\ matches pats path ps.

(** [p] leaves the common way at an earlier child than [q]. *)
Fixpoint before (p q : list nat) : Prop :=
  match p, q with
  | i :: p, j :: q => (i < j)%nat \/ (i = j /\ before p q)
  | _, _ => False
  end.

(** [l], an enumeration of answers at the pointers in [P], starts with the first of them. *)
Definition starts_least (P : list nat -> TrieNode C -> PathSegments -> Prop) (l : list (TrieNode C * PathSegments)) : Prop :=
  match l with
  | [] => forall q h ps, ~ P q h ps
  | (h, ps) :: _ => exists p, P p h ps /\ forall q h' ps', P q h' ps' -> q = p \/ before p q
  end.

Lemma starts_least_map P Q f l : starts_least P l -> (forall q h ps, P q h ps -> Q q h (f ps)) ->
  (forall q h ps, Q q h ps -> exists ps0, P q h ps0) -> starts_least Q ((fun r => (r.1, f r.2)) <$> l).
Proof.
  intros Hl HPQ HQP. destruct l as [|[h ps] l]; cbn in *.
  - intros q h ps HQ. destruct (HQP _ _ _ HQ) as [ps0 HP]. by apply Hl in HP.
  - destruct Hl as (p & Hp & Hleast). exists p. split; [by apply HPQ|]. intros q h' ps' HQ. destruct (HQP _ _ _ HQ) as [ps0 HP]. by apply Hleast in HP.
Qed.

Lemma starts_least_iff P Q l : starts_least P l -> (forall q h ps, P q h ps <-> Q q h ps) -> starts_least Q l.
Proof.
  intros Hl HPQ. destruct l as [|[h ps] l]; cbn in *.
  - intros q h ps HQ%HPQ. by apply Hl in HQ.
  - destruct Hl as (p & Hp & Hleast). exists p. split; [by apply HPQ|]. intros q h' ps' HQ%HPQ. by apply Hleast in HQ.
Qed.

(** What the children from the [i]-th on contribute. *)
Lemma starts_least_concat (P : nat -> list nat -> TrieNode C -> PathSegments -> Prop) ls : forall i,
  (forall k l, ls !! k = Some l -> starts_least (P (i + k)%nat) l) ->
  starts_least (fun p h ps => match p with j :: q => (i <= j < i + length ls)%nat /\ P j q h ps | [] => False end) (concat ls).
Proof.
  induction ls as [|l ls IH]; intros i Hl; cbn [concat].
  - intros [|j q] h ps H; [done|]. destruct H as [H _]. cbn in H. lia.
  - assert (H0 : starts_least (P i) l) by (rewrite <- (Nat.add_0_r i); by apply Hl).
    assert (HS : forall k l', ls !! k = Some l' -> starts_least (P (S i + k)%nat) l') by (intros k l' Hk; replace (S i + k)%nat with (i + S k)%nat by lia; by apply Hl).
    specialize (IH (S i) HS). destruct l as [|[h ps] l]; cbn [app].
    + eapply starts_least_iff; [exact IH|]. intros [|j q] h ps; [done|]. cbn [length]. split; intros [Hj HP]; (split; [|done]); [lia|].
      destruct (decide (j = i)) as [->|]; [by apply H0 in HP|lia].
    + destruct H0 as (p & Hp & Hleast). exists (i :: p). split; [split; [cbn [length]; lia|done]|].
      intros [|j q] h' ps'; [done|]. intros [Hj HP]. cbn [before]. destruct (decide (j = i)) as [->|]; [|right; left; lia].
      destruct (Hleast _ _ _ HP) as [->|Hb]; [by left|by right; right].
Qed.

Lemma all_matches_concat n path : path <> [] -> all_matches n path = concat ((fun c => child_matches path c.1 c.2) <$> children n).
Proof.
  intros Hp. destruct n as [cs cb m]. destruct path as [|c path']; [done|]. unfold child_matches. cbn [all_matches children]. destruct (split_seg (c :: path')) as [segment rest]. cbn [fst snd].
  induction cs as [|[rv ch] cs IH]; [done|]. cbn [fmap list_fmap concat fst snd]. by rewrite <- IH.
Qed.

(** A child answers with the way below it, for its own segment. *)
Definition below (path : bytes) (rv : SegmentVariant) ch (q : list nat) h (ps : PathSegments) : Prop :=
  exists pats, walk ch q = Some (pats, h) /\ callback h <> None /\ matches (rv :: pats) path ps.

Lemma child_least path rv ch : path <> [] -> (forall q, starts_least (fun p h ps => route_at ch p h q ps) (all_matches ch q)) -> starts_least (below path rv ch) (child_matches path rv ch).
Proof.
  intros Hp IH. unfold child_matches. destruct (IsStatic rv) eqn:ES.
  - destruct (MatchesStatic rv [STAR]) eqn:EW.
    + apply star_inj in EW; [|done]. subst rv. eapply (starts_least_map _ _ (cons (SEG_STR (wild_capture path)))); [exact (IH [])| |].
      * intros q h ps (pats & W & Hc & M). inversion M; subst; [|done..]. exists []. split; [done|]. split; [done|by constructor].
      * intros q h ps (pats & W & Hc & M). inversion M; subst; [|done|done]. exists []. exists []. split; [done|]. split; [done|constructor].
    + destruct (MatchesStatic rv (split_seg path).1) eqn:EM.
      * eapply starts_least_iff; [exact (IH (split_seg path).2)|]. destruct rv; try done.
        cbn in EM, EW. apply sv_eq_true in EM. intros q h ps. split; intros (pats & W & Hc & M); exists pats; (split; [done|]); (split; [done|]).
        -- constructor; try done. intros ->. by rewrite sv_eq_refl in EW.
        -- inversion M; subst; try done. match goal with H : [STAR] = _ |- _ => rewrite <- H in EW end. by rewrite sv_eq_refl in EW.
      * intros q h ps (pats & W & Hc & M). inversion M; subst; [by cbn in EW; rewrite sv_eq_refl in EW|by cbn in EM; rewrite sv_eq_refl in EM|by destruct rv].
  - assert (Hinv : forall pats ps, matches (rv :: pats) path ps -> IsParam rv = true /\ exists v ps', capture (GetParamType rv) (split_seg path).1 = Some v /\ ps = v :: ps' /\ matches pats (split_seg path).2 ps').
    { intros pats ps M. inversion M; subst; try done. split; [done|]. by eexists _, _. }
    destruct (IsParam rv) eqn:EP; [|by intros q h ps (pats & _ & _ & [M _]%Hinv)].
    destruct (capture _ _) as [v|] eqn:EC; [|by intros q h ps (pats & _ & _ & (_ & v & ps' & E & _)%Hinv)].
    eapply (starts_least_map _ _ (cons v)); [exact (IH (split_seg path).2)| |].
    + intros q h ps (pats & W & Hc & M). exists pats. split; [done|]. split; [done|]. by econstructor.
    + intros q h ps (pats & W & Hc & (_ & v' & ps' & E & -> & M)%Hinv). by exists ps', pats.
Qed.

Lemma all_matches_least n : forall path, starts_least (fun p h ps => route_at n p h path ps) (all_matches n path).
Proof.
  induction n as [cs cb m IH] using TrieNode_ind'. intros path. rewrite Forall_forall in IH. destruct (decide (path = [])) as [->|Hp].
  - assert (Hnil : forall p h ps, route_at (Node cs cb m) p h [] ps -> p = [] /\ h = Node cs cb m /\ ps = [] /\ cb <> None).
    { intros p h ps (pats & W & Hc & M). inversion M; subst; try done. destruct p as [|i q]; [by injection W as <-|]. cbn in W.
      destruct (cs !! i) as [[rv ch]|]; [|done]. cbn in W. by destruct (walk ch q). }
    cbn [all_matches answers callback]. unfold answers. cbn [callback]. destruct cb; cbn.
    + exists []. split; [exists []; split; [done|]; split; [done|constructor]|]. intros q h ps H. left. by apply Hnil in H as [-> _].
    + intros q h ps H. by apply Hnil in H as (_ & _ & _ & H).
  - rewrite all_matches_concat by done. cbn [children].
    eapply starts_least_iff; [apply (starts_least_concat (fun j q h ps => exists rv ch, cs !! j = Some (rv, ch) /\ below path rv ch q h ps) _ 0)|].
    + intros k l Hk. rewrite list_lookup_fmap in Hk. destruct (cs !! k) as [[rv ch]|] eqn:E; [|done]. injection Hk as <-. cbn [Nat.add fst snd].
      eapply starts_least_iff; [apply (child_least path rv ch Hp); intros q; apply (IH (rv, ch)); by eapply list_elem_of_lookup_2|].
      intros q h ps. split; [by eexists _, _|]. intros (rv' & ch' & E' & H). rewrite E in E'. by injection E' as <- <-.
    + intros [|j q] h ps; (split; [|]).
      * done.
      * intros (pats & W & Hc & M). injection W as <- <-. by inversion M.
      * intros [_ (rv & ch & E & pats & W & Hc & M)]. exists (rv :: pats). cbn. rewrite E. cbn. by rewrite W.
      * intros (pats & W & Hc & M). cbn in W. destruct (cs !! j) as [[rv ch]|] eqn:E; [|done]. cbn in W. destruct (walk ch q) as [[pats' h']|] eqn:W'; [|done]. injection W as <- <-.
        split; [rewrite length_fmap; apply lookup_lt_Some in E; lia|]. exists rv, ch. split; [done|]. by exists pats'.
Qed.

(** C24: matching a request path finds a handler exactly when some route of the trie matches
    it, backtracking out of partial matches.  Of several, the one it returns is the first by
    its segments: at the first segment where two matching routes differ, the one whose
    segment was registered earlier on that node wins, whichever route was registered first
    (see [earlier_segment_wins]).  The captured parameters are those of that route appended
    to the ones already there, and a failed search leaves the parameters as they were. *)
Theorem MatchNode_refines (node : TrieNode C) (path : bytes) (out : PathSegments) :
  match MatchNode node path out with
  | (Some hit, out') => exists p ps, route_at node p hit path ps /\ out' = out ++ ps /\
      forall q h ps', route_at node q h path ps' -> q = p \/ before p q
  | (None, out') => out' = out /\ forall q h ps, ~ route_at node q h path ps
  end.
Proof.
  rewrite MatchNode_first. pose proof (all_matches_least node path) as H. destruct (all_matches node path) as [|[h ps] l]; cbn in *; [done|].
  destruct H as (p & Hp & Hleast). by exists p, ps.
Qed.

End Matching.

(** ** Registration *)

Section Registration.
Context {C : Type}.
Implicit Types n t : TrieNode C.

(** The segments of a route, as registration splits it. *)
Fixpoint route_pats (fuel : nat) (route : bytes) : outcome (list SegmentVariant) :=
  match route, fuel with
  | [], _ | _, O => Ret []
  | _, S f =>
      let '(segment, rest) := split_seg route in
      let* rv := (if is_dynamic segment then dynamic_segment segment else Ret (SEG_STC_STR segment)) in
      let* r := route_pats f rest in Ret (rv :: r)
  end.

(** What a pointer shows: the segments on the way, the handler and the metrics
    index. *)
Fixpoint view t (p : list nat) : option (list SegmentVariant * (option C * Z)) :=
  match p with
  | [] => Some ([], (callback t, metricsIdx t))
  | i :: q =>
      match children t !! i with
      | Some (rv, ch) => (fun r => (rv :: r.1, r.2)) <$> view ch q
      | None => None
      end
  end.

Definition blank : option C * Z := (None, METRICS_IDX_UNASSIGNED).

(** Every pointer keeps its meaning, and new nodes are blank. *)
Definition grows t t' : Prop :=
  forall q, view t' q = view t q \/ (view t q = None /\ exists ls, view t' q = Some (ls, blank)).

Definition prefixed (ls : list SegmentVariant) (v : option (list SegmentVariant * (option C * Z)))
  : option (list SegmentVariant * (option C * Z)) := (fun r => (ls ++ r.1, r.2)) <$> v.

Lemma grows_refl t : grows t t.
Proof. intros q. by left. Qed.

Lemma view_new q : view new_node q = match q with [] => Some ([], blank) | _ => None end.
Proof. by destruct q. Qed.

Lemma grows_new_blank t' : grows new_node t' -> forall q, view t' q = None \/ exists ls, view t' q = Some (ls, blank).
Proof.
  intros G q. destruct (G q) as [E|[_ H]]; [|by right]. rewrite E, view_new. destruct q; [right; by eexists|by left].
Qed.

Lemma add_child_grows n rv ch : grows new_node ch -> grows n (add_child n rv ch).
Proof.
  intros G q. destruct q as [|i q]; [by left|]. cbn [view add_child with_children children].
  destruct (decide (i < length (children n))%nat) as [H|H]; [rewrite lookup_app_l by done; by left|].
  rewrite (lookup_ge_None_2 (children n)) by lia. rewrite lookup_app_r by lia.
  destruct (i - length (children n))%nat as [|k]; cbn; [|by left].
  destruct (grows_new_blank ch G q) as [->|[ls ->]]; cbn; [by left|]. right. split; [done|by eexists].
Qed.

Lemma add_child_view n rv ch q : view (add_child n rv ch) (length (children n) :: q) = prefixed [rv] (view ch q).
Proof.
  cbn [view add_child with_children children]. rewrite lookup_app_r by lia. by rewrite Nat.sub_diag.
Qed.

Lemma set_child_lookup n i ch rv ch0 j :
  children n !! i = Some (rv, ch0) ->
  children (set_child n i ch) !! j = if decide (j = i) then Some (rv, ch) else children n !! j.
Proof.
  intros H. cbn. case_decide as E; [subst; by rewrite list_lookup_alter_eq, H|by rewrite list_lookup_alter_ne by congruence].
Qed.

Lemma set_child_grows n i ch rv ch0 :
  children n !! i = Some (rv, ch0) -> grows ch0 ch -> grows n (set_child n i ch).
Proof.
  intros H G q. destruct q as [|j q]; [by left|]. cbn [view]. rewrite (set_child_lookup n i ch rv ch0) by done.
  case_decide as E; [subst j; rewrite H|by left].
  destruct (G q) as [->|[-> [ls ->]]]; cbn; [by left|]. right. split; [done|by eexists].
Qed.

Lemma set_child_view n i ch rv ch0 q :
  children n !! i = Some (rv, ch0) -> view (set_child n i ch) (i :: q) = prefixed [rv] (view ch q).
Proof. intros H. cbn [view]. rewrite (set_child_lookup n i ch rv ch0) by done. by rewrite decide_True. Qed.

Lemma find_static_Some segment (cs : list (SegmentVariant * TrieNode C)) i :
  find_static segment cs = Some i -> exists ch, cs !! i = Some (SEG_STC_STR segment, ch).
Proof.
  revert i. induction cs as [|[rv ch] cs IH]; intros i; cbn; [done|].
  destruct (IsStatic rv && MatchesStatic rv segment) eqn:E.
  - intros [= <-]. exists ch. destruct rv; try done. cbn in E. by apply sv_eq_true in E as ->.
  - intros H. apply fmap_Some in H as (k & Hk & ->). by apply IH.
Qed.

Lemma split_seg_shorter route : route <> [] -> (length (split_seg route).2 < length route)%nat.
Proof.
  intros H. unfold split_seg. destruct (find_char SLASH route) as [i|] eqn:E; cbn.
  - rewrite length_drop. apply find_char_Some in E as [E _]. apply lookup_lt_Some in E. lia.
  - destruct route; [done|cbn; lia].
Qed.

Lemma insert_from_ok fuel n route n' p :
  insert_from fuel n route = Ret (n', p) -> (length route <= fuel)%nat ->
  grows n n' /\ exists pats d, route_pats fuel route = Ret pats /\ view n' p = Some (pats, d) /\
    (view n p = None -> d = blank).
Proof.
  revert n route n' p. induction fuel as [|f IH]; intros n route n' p H Hf.
  { destruct route; [|cbn in Hf; lia]. injection H as <- <-. split; [apply grows_refl|].
    exists [], (callback n, metricsIdx n). by repeat split. }
  destruct route as [|c r]; [injection H as <- <-; split; [apply grows_refl|]; exists [], (callback n, metricsIdx n); by repeat split|].
  cbn [insert_from route_pats] in *. pose proof (split_seg_shorter (c :: r) ltac:(done)) as Hs.
  destruct (split_seg (c :: r)) as [segment rest]. cbn [snd length] in Hs, Hf.
  assert (Hfresh : forall rv, (let* x := insert_from f new_node rest in
      Ret (add_child n rv x.1, length (children n) :: x.2)) = Ret (n', p) ->
    grows n n' /\ exists pats d, (let* x := route_pats f rest in Ret (rv :: x)) = Ret pats /\ view n' p = Some (pats, d) /\
    (view n p = None -> d = blank)).
  { intros rv HF. destruct (insert_from f new_node rest) as [[ch q]|] eqn:E; [|done]. injection HF as <- <-.
    apply IH in E as (G & pats & d & -> & V & D); [|lia]. split; [by apply add_child_grows|].
    exists (rv :: pats), d. cbn [obind fst snd]. rewrite add_child_view, V. split; [done|]. split; [done|]. intros _.
    destruct (grows_new_blank ch G q) as [E'|[ls E']]; rewrite V in E'; [done|by injection E'].
  }
  destruct (is_dynamic segment).
  { destruct (dynamic_segment segment) as [rv|]; [|done]. by apply Hfresh. }
  destruct (find_static segment (children n)) as [i|] eqn:EF.
  - apply find_static_Some in EF as [ch EF]. rewrite EF in H.
    destruct (insert_from f ch rest) as [[ch' q]|] eqn:E; cbn [snd] in H; rewrite E in H; [|done]. injection H as <- <-.
    apply IH in E as (G & pats & d & -> & V & D); [|lia]. split; [by eapply set_child_grows|].
    exists (SEG_STC_STR segment :: pats), d. cbn [obind]. rewrite (set_child_view n i ch' _ ch) by done. rewrite V.
    split; [done|]. split; [done|]. cbn [view]. rewrite EF. intros HN. apply fmap_None in HN. auto.
  - cbn [obind]. destruct (sv_eq segment [STAR]); [destruct rest; [|done]|]; by apply Hfresh.
Qed.

(** ** Working through a pointer *)

Lemma prefixed_app ls1 ls2 v : prefixed ls1 (prefixed ls2 v) = prefixed (ls1 ++ ls2) v.
Proof. unfold prefixed. destruct v as [[l d]|]; cbn; [by rewrite app_assoc|done]. Qed.

Lemma prefixed_nil v : prefixed [] v = v.
Proof. by destruct v as [[l d]|]. Qed.

(** The node a valid pointer leads to, and the effect of working on it. *)
Lemma at_node_ok p t ls d f t' r :
  view t p = Some (ls, d) -> at_node p f t = Ret (t', r) ->
  exists n n' r', f n = Ret (n', r') /\ r = p ++ r' /\ d = (callback n, metricsIdx n) /\
    (forall q, view t (p ++ q) = prefixed ls (view n q)) /\
    (forall q, view t' (p ++ q) = prefixed ls (view n' q)) /\
    (forall q, ~ p `prefix_of` q -> view t' q = view t q).
Proof.
  revert t ls d t' r. induction p as [|i p IH]; intros t ls d t' r V H.
  - cbn in V. injection V as <- <-. cbn in H. exists t, t', r. split; [done|]. split; [done|]. split; [done|].
    split; [intros q; by rewrite prefixed_nil|]. split; [intros q; by rewrite prefixed_nil|].
    intros q Hq. exfalso. apply Hq. apply prefix_nil.
  - cbn [view at_node] in V, H. destruct (children t !! i) as [[rv ch]|] eqn:Ei; [|done].
    apply fmap_Some in V as ([ls' d'] & V & [= -> ->]).
    destruct (at_node p f ch) as [[ch' r1]|] eqn:E; [|done]. injection H as <- <-.
    destruct (IH _ _ _ _ _ V E) as (n & n' & r' & Hf & -> & -> & V1 & V2 & V3).
    exists n, n', r'. split; [done|]. split; [done|]. split; [done|]. split; [|split].
    + intros q. cbn [app view]. rewrite Ei, V1. apply (prefixed_app [rv] ls').
    + intros q. cbn [app]. rewrite (set_child_view t i ch' rv ch) by done. rewrite V2. apply (prefixed_app [rv] ls').
    + intros q Hq. destruct q as [|j q]; [done|]. cbn [view]. rewrite (set_child_lookup t i ch' rv ch) by done.
      case_decide as Ej; [subst j|done]. rewrite Ei, V3; [done|]. intros [k ->]. apply Hq. by exists k.
Qed.

Lemma at_node_grows p t ls d f t' r :
  view t p = Some (ls, d) -> at_node p f t = Ret (t', r) ->
  (forall n n' r', f n = Ret (n', r') -> grows n n') -> grows t t'.
Proof.
  intros V H Hf q. destruct (at_node_ok _ _ _ _ _ _ _ V H) as (n & n' & r' & E & _ & _ & V1 & V2 & V3).
  apply Hf in E. destruct (decide (p `prefix_of` q)) as [[k ->]|Hn]; [|left; by apply V3].
  rewrite V1, V2. destruct (E k) as [->|[-> [l ->]]]; [by left|]. right. split; [done|by eexists].
Qed.

(** A well-formed trie: the cursor and the saved cursors lead to nodes. *)
Definition valid t (p : list nat) : Prop := is_Some (view t p).

Definition wf (rt : RouteTrie C) : Prop :=
  valid (root_ rt) (insertCursor_ rt) /\ Forall (valid (root_ rt)) (cursorStack_ rt).

Lemma grows_valid t t' p : grows t t' -> valid t p -> valid t' p.
Proof. intros G [v V]. destruct (G p) as [E|[E _]]; [rewrite V in E; by exists v|congruence]. Qed.

Lemma grows_wf t' rt p : grows (root_ rt) t' -> wf rt -> valid t' p -> wf (mkTrie t' p (cursorStack_ rt)).
Proof. intros G [_ H2] V. split; [done|]. eapply Forall_impl; [exact H2|]. intros q. by apply grows_valid. Qed.

Lemma InsertRoute_ok rt route rt' p :
  wf rt -> InsertRoute rt route = Ret (rt', p) ->
  exists gp d0 pats d, view (root_ rt) (insertCursor_ rt) = Some (gp, d0) /\
    route_pats (length (StripRoute route)) (StripRoute route) = Ret pats /\
    view (root_ rt') p = Some (gp ++ pats, d) /\ (view (root_ rt) p = None -> d = blank) /\
    grows (root_ rt) (root_ rt') /\ wf rt' /\
    insertCursor_ rt' = insertCursor_ rt /\ cursorStack_ rt' = cursorStack_ rt.
Proof.
  intros W H. pose proof W as [[[gp d0] V] _]. unfold InsertRoute in H.
  destruct (at_node _ _ _) as [[t' r]|] eqn:E; [|done]. injection H as <- <-.
  assert (G : grows (root_ rt) t').
  { eapply at_node_grows; [exact V|exact E|]. intros n n' r' Hr. by apply insert_from_ok in Hr as [? _]. }
  destruct (at_node_ok _ _ _ _ _ _ _ V E) as (n & n' & r' & Hi & -> & -> & V1 & V2 & _).
  apply insert_from_ok in Hi as (_ & pats & d & HR & HV & HD); [|done].
  exists gp, (callback n, metricsIdx n), pats, d. cbn [root_ insertCursor_ cursorStack_].
  split; [done|]. split; [done|]. split; [by rewrite V2, HV|]. split; [|split; [done|split; [|done]]].
  - intros HN. apply HD. rewrite V1 in HN. unfold prefixed in HN. by apply fmap_None in HN.
  - apply (grows_wf _ rt); [done|done|]. eapply grows_valid; [exact G|]. by exists (gp, (callback n, metricsIdx n)).
Qed.

(** A pointer with a handler is a route of the trie. *)
Lemma view_descends t p ls d : view t p = Some (ls, d) -> exists h, descends t ls h /\ d = (callback h, metricsIdx h).
Proof.
  revert t ls d. induction p as [|i p IH]; intros t ls d V.
  - injection V as <- <-. exists t. split; [constructor|done].
  - cbn [view] in V. destruct (children t !! i) as [[rv ch]|] eqn:E; [|done].
    apply fmap_Some in V as ([ls' d'] & V & [= -> ->]). apply IH in V as (h & D & ->). exists h. split; [|done].
    econstructor; [|done]. by eapply list_elem_of_lookup_2.
Qed.

Lemma find_registered t p ls h m path ps out :
  view t p = Some (ls, (Some h, m)) -> matches ls path ps ->
  exists hit out', MatchNode t path out = (Some hit, out').
Proof.
  intros V M. apply view_descends in V as (n & D & E). injection E as E1 E2.
  assert (HI : (n, ps) ∈ all_matches t path) by (apply all_matches_spec; exists ls; repeat split; [done|congruence|done]).
  rewrite MatchNode_first. destruct (all_matches t path) as [|[h' ps'] l]; [inversion HI|]. by eexists _, _.
Qed.

(** C36: registering a route puts its handler on the node its segments lead to
    from the group in force, where every path that matches group and route
    finds a handler afterwards; every other pointer keeps its segments, its
    handler and its metrics index, nodes made on the way are blank, and the
    cursors of the open groups stay valid. *)
Theorem Insert_registers (rt rt' : RouteTrie C) (route : bytes) (h : C) (p : list nat) :
  wf rt -> Insert rt route (Some h) = Ret (rt', p) ->
  exists gp d0 pats m, view (root_ rt) (insertCursor_ rt) = Some (gp, d0) /\
    route_pats (length (StripRoute route)) (StripRoute route) = Ret pats /\
    view (root_ rt') p = Some (gp ++ pats, (Some h, m)) /\
    (forall path ps out, matches (gp ++ pats) (StripRoute path) ps ->
       exists hit out', Match rt' path out = (Some hit, out')) /\
    (forall q, q <> p -> view (root_ rt') q = view (root_ rt) q \/
       (view (root_ rt) q = None /\ exists ls, view (root_ rt') q = Some (ls, blank))) /\
    wf rt' /\ insertCursor_ rt' = insertCursor_ rt /\ cursorStack_ rt' = cursorStack_ rt.
Proof.
  intros W H. unfold Insert in H. destruct (InsertRoute rt route) as [[rt1 q]|] eqn:E; [|done].
  apply InsertRoute_ok in E as (gp & d0 & pats & d & V0 & HP & V1 & _ & G & W1 & C1 & S1); [|done].
  cbn [obind] in H. destruct (at_node q _ _) as [[t' r]|] eqn:E; [|done]. injection H as <- <-.
  destruct (at_node_ok _ _ _ _ _ _ _ V1 E) as (n & n' & r' & Hs & _ & -> & VA & VB & VC).
  injection Hs as <- <-.
  assert (Hp : view t' q = Some (gp ++ pats, (Some h, metricsIdx n))).
  { specialize (VB []). rewrite app_nil_r in VB. rewrite VB. cbn. by rewrite app_nil_r. }
  assert (Hq : forall k, k <> q -> view t' k = view (root_ rt1) k).
  { intros k Hk. destruct (decide (q `prefix_of` k)) as [[s ->]|Hn]; [|by apply VC].
    rewrite VA, VB. destruct s as [|i s]; [by rewrite app_nil_r in Hk|done]. }
  exists gp, d0, pats, (metricsIdx n). split; [done|]. split; [done|]. split; [done|]. split; [|split; [|split]].
  - intros path ps out M. by eapply find_registered.
  - intros k Hk. cbn [root_]. rewrite Hq by done. apply G.
  - destruct W1 as [W1 W2]. assert (HV : forall k, valid (root_ rt1) k -> valid t' k).
    { intros k Hv. destruct (decide (k = q)) as [->|Hk]; [by eexists|]. unfold valid. by rewrite Hq. }
    split; [by apply HV|]. eapply Forall_impl; [exact W2|]. exact HV.
  - done.
Qed.

Lemma PushGroup_ok rt rt' prefix :
  wf rt -> PushGroup rt prefix = Ret rt' ->
  wf rt' /\ cursorStack_ rt' = insertCursor_ rt :: cursorStack_ rt /\ grows (root_ rt) (root_ rt').
Proof.
  intros W H. unfold PushGroup in H. destruct (InsertRoute _ _) as [[rt1 q]|] eqn:E; [|done]. injection H as <-.
  apply InsertRoute_ok in E as (gp & d0 & pats & d & _ & _ & V & _ & G & [W1 W2] & C1 & S1).
  - cbn in *. split; [|split; [done|done]]. split; [by eexists|]. by rewrite S1 in *.
  - destruct W as [W1 W2]. split; [done|]. by constructor.
Qed.

Lemma PopGroup_ok rt :
  wf rt -> match PopGroup rt with
           | Ret rt' => wf rt' /\ root_ rt' = root_ rt /\ exists p, cursorStack_ rt = p :: cursorStack_ rt' /\ insertCursor_ rt' = p
           | Fatal _ => cursorStack_ rt = []
           end.
Proof.
  intros [W1 W2]. unfold PopGroup. destruct (cursorStack_ rt) as [|p r]; [done|].
  apply Forall_cons in W2 as [Wp Wr]. split; [by split|]. split; [done|]. by exists p.
Qed.

End Registration.

(** ** A concrete trie *)

Definition demo : RouteTrie nat * list nat :=
  match Insert new_trie (lit "/users/<id:uint>") (Some 7%nat) with Ret x => x | Fatal _ => (new_trie, []) end.

Lemma Insert_registers_witness :
  exists hit out', Match demo.1 (lit "/users/9") [] = (Some hit, out').
Proof.
  destruct (Insert_registers new_trie demo.1 (lit "/users/<id:uint>") 7%nat demo.2)
    as (gp & d0 & pats & m & HV & HP & _ & HM & _).
  - split; [by eexists|constructor].
  - vm_compute. reflexivity.
  - injection HV as <- <-. assert (pats = [SEG_STC_STR (lit "users"); SEG_U64 0]) as ->.
    { vm_compute in HP. injection HP as <-. reflexivity. }
    apply (HM (lit "/users/9") [SEG_U64 9] []). cbn [app].
    apply matches_static; [discriminate|discriminate|reflexivity|].
    apply matches_param; [discriminate|reflexivity|vm_compute; reflexivity|constructor].
Defined.

(** Backtracking: the static sibling matches first and dead-ends. *)
Example backtracks :
  match (let* a := Insert new_trie (lit "/a/b") (Some 1%nat) in Insert a.1 (lit "/<string>/c") (Some 2%nat)) with
  | Ret (t, _) => (fun r => (callback <$> r.1, r.2)) (Match t (lit "/a/c") []) = (Some (Some 2%nat), [SEG_STR (lit "a")])
  | Fatal _ => False
  end.
Proof. vm_compute. reflexivity. Qed.

(** Of [/a/b], [/<s:string>/c] and [/a/c], registered in this order, the third answers [/a/c]:
    its segment [a] was on the root before the parameter. *)
Example earlier_segment_wins :
  match (let* a := Insert new_trie (lit "/a/b") (Some 1%nat) in let* a := Insert a.1 (lit "/<s:string>/c") (Some 2%nat) in Insert a.1 (lit "/a/c") (Some 3%nat)) with
  | Ret (t, _) => (fun r => (callback <$> r.1, r.2)) (Match t (lit "/a/c") []) = (Some (Some 3%nat), [])
  | Fatal _ => False
  end.
Proof. vm_compute. reflexivity. Qed.

End RouteTrie.
