(* ===== verification/Router.v ===== *)
(** * The router (http/routing/router.cpp)

    Seven tries, one per routable method; the identities the metrics refer to;
    the joined prefix of the open groups.  The invariant ties the three
    together: the metrics index of a node names the path and method that lead
    to it, through groups opened and closed. *)

From stdpp Require Import sorting.
From S2P Require Import Prelude Strings Constants Uuid RouteTrie.

Module Router.
Import RouteTrie Constants.

(** Drop one trailing slash. *)
Definition pop_slash (acc : bytes) : bytes :=
  match last acc with
  | Some c => if c =? SLASH then removelast acc else acc
  | None => acc
  end.

Definition JoinPath (acc seg : bytes) : bytes :=
  let acc := pop_slash acc in
  match seg with
  | [] => acc
  | c :: _ => (if c =? SLASH then acc else acc ++ [SLASH]) ++ seg
  end.

Definition ROUTABLE_METHOD_COUNT : nat := 7.

(** The underlying value of the enumeration. *)
Definition method_index (m : HttpMethod) : nat :=
  match m with
  | GET => 0 | POST => 1 | PUT => 2 | DELETE => 3 | PATCH => 4 | HEAD => 5 | OPTIONS => 6
  | CONNECT => 7 | TRACE => 8 | UNKNOWN_METHOD => 9
  end%nat.

Definition method_at (i : nat) : HttpMethod :=
  match i with
  | 0 => GET | 1 => POST | 2 => PUT | 3 => DELETE | 4 => PATCH | 5 => HEAD | 6 => OPTIONS
  | 7 => CONNECT | 8 => TRACE | _ => UNKNOWN_METHOD
  end%nat.

(** [path.substr(0, path.find('?'))] *)
Definition strip_query (path : bytes) : bytes :=
  match find_char QMARK path with Some i => take i path | None => path end.

(** Resize a string: longer is padded with NUL. *)
Definition resize (n : nat) (s : bytes) : bytes := take n s ++ replicate (n - length s) NUL.

Section Router.
Context {C : Type}.

Record Router := mkRouter {
  routesByMethod_ : list (RouteTrie C);
  identities_ : list (bytes * HttpMethod);
  groupPrefix_ : bytes;
  groupLenStack_ : list nat }.

Definition new_router : Router := mkRouter (replicate ROUTABLE_METHOD_COUNT new_trie) [] [] [].

Definition trie_at (r : Router) (i : nat) : RouteTrie C := default new_trie (routesByMethod_ r !! i).

(** The result: the router and the pointer to the route's node.  [maxRoutes]
    is [metricsConfig.maxRoutes]. *)
Definition RegisterRoute (maxRoutes : nat) (r : Router) (method : HttpMethod) (path : bytes) (handler : option C)
  : outcome (Router * list nat) :=
  match path with
  | c :: _ =>
      if negb (c =? SLASH) then Fatal "[Router]: Path is either empty or does not start with '/'."
      else
        let methodIdx := method_index method in
        if (ROUTABLE_METHOD_COUNT <=? methodIdx)%nat
        then Fatal "[Router]: Unsupported HTTP method found in RegisterRoute."
        else
          let* x := Insert (trie_at r methodIdx) path handler in
          let '(t, node) := x in
          let idx := match view (root_ t) node with Some (_, (_, m)) => m | None => METRICS_IDX_UNASSIGNED end in
          if idx =? METRICS_IDX_UNASSIGNED then
            if (maxRoutes <=? length (identities_ r))%nat
            then Fatal "[Router]: Cannot register, all route metric slots are taken."
            else
              let* y := at_node node (set_metricsIdx (u16 (Z.of_nat (length (identities_ r))))) (root_ t) in
              let t' := mkTrie y.1 (insertCursor_ t) (cursorStack_ t) in
              Ret (mkRouter (<[methodIdx := t']> (routesByMethod_ r))
                     (identities_ r ++ [(JoinPath (groupPrefix_ r) path, method)])
                     (groupPrefix_ r) (groupLenStack_ r), node)
          else
            Ret (mkRouter (<[methodIdx := t]> (routesByMethod_ r)) (identities_ r) (groupPrefix_ r) (groupLenStack_ r),
                 node)
  | [] => Fatal "[Router]: Path is either empty or does not start with '/'."
  end.

Definition MatchRoute (r : Router) (method : HttpMethod) (path : bytes) (out : PathSegments)
  : option (TrieNode C) * PathSegments :=
  let methodIdx := method_index method in
  if (ROUTABLE_METHOD_COUNT <=? methodIdx)%nat then (None, out)
  else Match (trie_at r methodIdx) (strip_query path) out.

Definition MethodsAt (r : Router) (path : bytes) : list HttpMethod :=
  method_at <$> filter (fun i => is_Some (fst (Match (trie_at r i) (strip_query path) [])))
    (seq 0 ROUTABLE_METHOD_COUNT).

Fixpoint map_outcome {A B} (f : A -> outcome B) (l : list A) : outcome (list B) :=
  match l with
  | [] => Ret []
  | x :: r => let* y := f x in let* ys := map_outcome f r in Ret (y :: ys)
  end.

Definition PushRouteGroup (r : Router) (prefix : bytes) : outcome Router :=
  let* ts := map_outcome (fun t => PushGroup t prefix) (routesByMethod_ r) in
  Ret (mkRouter ts (identities_ r) (JoinPath (groupPrefix_ r) prefix)
         (length (groupPrefix_ r) :: groupLenStack_ r)).

Definition PopRouteGroup (r : Router) : outcome Router :=
  match groupLenStack_ r with
  | [] => Fatal "[Router]: WFX_GROUP_END() without a matching WFX_GROUP_START()"
  | n :: s =>
      let* ts := map_outcome PopGroup (routesByMethod_ r) in
      Ret (mkRouter ts (identities_ r) (resize n (groupPrefix_ r)) s)
  end.

Definition EnsureGroupsClosed (r : Router) : outcome unit :=
  match groupLenStack_ r with
  | [] => Ret tt
  | _ => Fatal "[Router]: WFX_GROUP_START() without a matching WFX_GROUP_END()"
  end.

Definition RouteCount (r : Router) : Z := u16 (Z.of_nat (length (identities_ r))).

Definition RouteAt (r : Router) (idx : nat) : bytes * HttpMethod := default ([], GET) (identities_ r !! idx).

End Router.
Arguments Router C : clear implicits.

(** ** Joining paths *)

(** All the parts between slashes. *)
Fixpoint parts (l : bytes) : list bytes :=
  match l with
  | [] => [[]]
  | c :: r =>
      if c =? SLASH then [] :: parts r
      else match parts r with h :: t => (c :: h) :: t | [] => [[c]] end
  end.

Fixpoint trim_last (l : list bytes) : list bytes :=
  match l with
  | [] => []
  | [x] => match x with [] => [] | _ => [x] end
  | x :: r => x :: trim_last r
  end.

(** The segments registration and matching walk over. *)
Definition segs (l : bytes) : list bytes := trim_last (parts l).

Definition pat_of (segment : bytes) : outcome SegmentVariant :=
  if is_dynamic segment then dynamic_segment segment else Ret (SEG_STC_STR segment).

(** The segments of a whole path, as its route would be registered. *)
Definition labels (path : bytes) : outcome (list SegmentVariant) := map_outcome pat_of (segs (StripRoute path)).

Lemma parts_nonempty l : parts l <> [].
Proof. destruct l as [|c r]; cbn; [done|]. destruct (c =? SLASH); [done|]. by destruct (parts r). Qed.

Lemma parts_split l : parts l = (split_seg l).1 :: match find_char SLASH l with Some _ => parts (split_seg l).2 | None => [] end.
Proof.
  unfold split_seg. induction l as [|c r IH]; [done|]. cbn [parts find_char].
  destruct (c =? SLASH); [done|]. rewrite IH.
  destruct (find_char SLASH r) as [i|]; cbn; [|done]. done.
Qed.

Lemma segs_split l : l <> [] -> segs l = (split_seg l).1 :: segs (split_seg l).2.
Proof.
  intros Hl. unfold segs. rewrite parts_split. unfold split_seg. destruct (find_char SLASH l) as [i|] eqn:E; cbn [fst snd].
  - destruct (parts (drop (i + 1) l)) as [|x p] eqn:EP; [by apply parts_nonempty in EP|done].
  - cbn. by destruct l.
Qed.

Lemma route_pats_segs fuel l : (length l <= fuel)%nat -> route_pats fuel l = map_outcome pat_of (segs l).
Proof.
  revert l. induction fuel as [|f IH]; intros l Hl; [by destruct l; [|cbn in Hl; lia]|].
  destruct l as [|c r]; [done|]. rewrite segs_split by done. pose proof (split_seg_shorter (c :: r) ltac:(done)) as Hs.
  cbn [route_pats]. destruct (split_seg (c :: r)) as [segment rest]. cbn [fst snd map_outcome length] in *.
  fold (pat_of segment). destruct (pat_of segment); [|done]. cbn [obind]. by rewrite IH by lia.
Qed.

Lemma parts_app a b : parts (a ++ SLASH :: b) = parts a ++ parts b.
Proof.
  induction a as [|c a IH]; [done|]. cbn [app parts]. destruct (c =? SLASH); [by rewrite IH|].
  rewrite IH. destruct (parts a) as [|h t] eqn:E; [by apply parts_nonempty in E|done].
Qed.

Lemma trim_last_app a b : b <> [] -> trim_last (a ++ b) = a ++ trim_last b.
Proof.
  intros Hb. induction a as [|x a IH]; [done|]. cbn [app]. rewrite <- IH. destruct (a ++ b) eqn:E; [|done].
  by apply app_eq_nil in E as [_ ->].
Qed.

Lemma segs_app a b : segs (a ++ SLASH :: b) = parts a ++ segs b.
Proof. unfold segs. rewrite parts_app. apply trim_last_app, parts_nonempty. Qed.

Lemma segs_slash a : segs (a ++ [SLASH]) = parts a.
Proof. rewrite segs_app. cbn. apply app_nil_r. Qed.

Lemma trim_last_snoc l x : x <> [] -> trim_last (l ++ [x]) = l ++ [x].
Proof. intros H. rewrite trim_last_app by done. by destruct x. Qed.

Lemma parts_last a c : c <> SLASH -> exists l x, parts (a ++ [c]) = l ++ [x ++ [c]].
Proof.
  intros Hc. apply Z.eqb_neq in Hc. induction a as [|d a (l & x & IH)]; cbn [app parts].
  - rewrite Hc. by exists [], [].
  - destruct (d =? SLASH); [rewrite IH; by exists ([] :: l), x|]. rewrite IH.
    destruct l as [|h t]; [by exists [], (d :: x)|by exists ((d :: h) :: t), x].
Qed.

Lemma segs_no_slash a c : c <> SLASH -> segs (a ++ [c]) = parts (a ++ [c]).
Proof.
  intros Hc. unfold segs. destruct (parts_last a c Hc) as (l & x & ->). apply trim_last_snoc. by destruct x.
Qed.

(** The joined path, with the one slash between its halves made explicit. *)
Lemma JoinPath_eq acc seg : seg <> [] -> JoinPath acc seg = pop_slash acc ++ SLASH :: StripRoute seg.
Proof.
  intros H. unfold JoinPath, StripRoute. destruct seg as [|c r]; [done|].
  destruct (Z.eqb_spec c SLASH) as [->|]; [done|]. by rewrite <- app_assoc.
Qed.

Lemma pop_slash_snoc a c : pop_slash (a ++ [c]) = if c =? SLASH then a else a ++ [c].
Proof. unfold pop_slash. rewrite last_snoc. destruct (c =? SLASH); [apply removelast_last|done]. Qed.

Lemma StripRoute_app a b : a <> [] -> StripRoute (a ++ b) = StripRoute a ++ b.
Proof. destruct a as [|c r]; [done|]. intros _. cbn. by destruct (c =? SLASH). Qed.

Lemma JoinPath_segs acc seg : seg <> [] ->
  segs (StripRoute (JoinPath acc seg)) = segs (StripRoute acc) ++ segs (StripRoute seg).
Proof.
  intros Hs. rewrite JoinPath_eq by done. destruct acc as [|c a _] using rev_ind; [done|].
  rewrite pop_slash_snoc. destruct (Z.eqb_spec c SLASH) as [->|Hc].
  - destruct a as [|d a']; [done|]. rewrite !StripRoute_app by done. by rewrite segs_app, segs_slash.
  - rewrite StripRoute_app by (by destruct a). rewrite segs_app. f_equal.
    destruct a as [|d a']; cbn [app StripRoute].
    + apply Z.eqb_neq in Hc. rewrite Hc. symmetry. apply (segs_no_slash []). by apply Z.eqb_neq.
    + destruct (d =? SLASH); symmetry; [by apply segs_no_slash|by apply (segs_no_slash (d :: a'))].
Qed.

Lemma map_outcome_app {A B} (f : A -> outcome B) l1 l2 x1 x2 :
  map_outcome f l1 = Ret x1 -> map_outcome f l2 = Ret x2 -> map_outcome f (l1 ++ l2) = Ret (x1 ++ x2).
Proof.
  revert x1. induction l1 as [|a l1 IH]; intros x1 H1 H2; cbn in *; [by injection H1 as <-|].
  destruct (f a); [|done]. cbn in *. destruct (map_outcome f l1) as [ys|]; [|done]. injection H1 as <-.
  by rewrite (IH ys).
Qed.

(** Joining never doubles or drops a slash: the segments of the joined path
    are those of its halves. *)
Lemma JoinPath_labels acc seg l1 l2 : seg <> [] ->
  labels acc = Ret l1 -> labels seg = Ret l2 -> labels (JoinPath acc seg) = Ret (l1 ++ l2).
Proof. intros Hs H1 H2. unfold labels in *. rewrite JoinPath_segs by done. by apply map_outcome_app. Qed.

Lemma labels_route_pats route : labels route = route_pats (length (StripRoute route)) (StripRoute route).
Proof. unfold labels. by rewrite route_pats_segs. Qed.

(** ** The invariant *)

Section Invariant.
Context {C : Type}.
Implicit Types (r : Router C) (t : RouteTrie C).

(** A pointer leads along the segments of a path. *)
Definition leads (n : TrieNode C) (p : list nat) (path : bytes) : Prop :=
  exists ls d, view n p = Some (ls, d) /\ labels path = Ret ls.

(** The prefixes the open groups restore, innermost first. *)
Definition saved (r : Router C) : list bytes := (fun k => take k (groupPrefix_ r)) <$> groupLenStack_ r.

Record trie_ok (r : Router C) (t : RouteTrie C) : Prop := {
  to_wf : wf t;
  to_cursor : leads (root_ t) (insertCursor_ t) (groupPrefix_ r);
  to_stack : Forall2 (leads (root_ t)) (cursorStack_ t) (saved r)
}.

(** The metrics index of a node. *)
Definition idx_of t (p : list nat) : option Z := (fun v => v.2.2) <$> view (root_ t) p.

Record inv (r : Router C) : Prop := {
  inv_count : length (routesByMethod_ r) = ROUTABLE_METHOD_COUNT;
  inv_tries : Forall (trie_ok r) (routesByMethod_ r);
  inv_lens : StronglySorted (fun a b => (b <= a)%nat) (length (groupPrefix_ r) :: groupLenStack_ r);
  inv_room : Z.of_nat (length (identities_ r)) <= 65535;
  inv_index : forall i t p m, routesByMethod_ r !! i = Some t -> idx_of t p = Some m -> m <> METRICS_IDX_UNASSIGNED ->
    exists path, 0 <= m /\ identities_ r !! Z.to_nat m = Some (path, method_at i) /\ leads (root_ t) p path;
  inv_unique : forall i j t u p q m, routesByMethod_ r !! i = Some t -> routesByMethod_ r !! j = Some u ->
    idx_of t p = Some m -> idx_of u q = Some m -> m <> METRICS_IDX_UNASSIGNED -> i = j /\ p = q
}.

Lemma leads_grows n n' p path : grows n n' -> leads n p path -> leads n' p path.
Proof.
  intros G (ls & d & V & L). exists ls, d. split; [|done]. destruct (G p) as [E|[E _]]; congruence.
Qed.

Lemma idx_grows t t' p m : grows (root_ t) (root_ t') -> idx_of t' p = Some m -> m <> METRICS_IDX_UNASSIGNED ->
  idx_of t p = Some m.
Proof.
  unfold idx_of. intros G H Hm. destruct (G p) as [E|[_ [ls E]]]; rewrite E in H; [done|].
  injection H as <-. done.
Qed.

Lemma trie_ok_mono r r' t t' :
  grows (root_ t) (root_ t') -> wf t' -> insertCursor_ t' = insertCursor_ t -> cursorStack_ t' = cursorStack_ t ->
  groupPrefix_ r' = groupPrefix_ r -> groupLenStack_ r' = groupLenStack_ r ->
  trie_ok r t -> trie_ok r' t'.
Proof.
  intros G W E1 E2 E3 E4 [H1 H2 H3]. constructor; [done|rewrite E1, E3; by eapply leads_grows|].
  rewrite E2. unfold saved. rewrite E3, E4. eapply Forall2_impl; [exact H3|]. intros p path. by apply leads_grows.
Qed.

Lemma trie_at_lookup r i : inv r -> (i < ROUTABLE_METHOD_COUNT)%nat ->
  routesByMethod_ r !! i = Some (trie_at r i) /\ trie_ok r (trie_at r i).
Proof.
  intros I Hi. destruct (lookup_lt_is_Some_2 (routesByMethod_ r) i) as [t E]; [by rewrite (inv_count _ I)|].
  unfold trie_at. rewrite E. split; [done|]. by eapply Forall_lookup_1, E; apply inv_tries.
Qed.

Lemma method_at_index m : (method_index m < ROUTABLE_METHOD_COUNT)%nat -> method_at (method_index m) = m.
Proof. destruct m; cbn; unfold ROUTABLE_METHOD_COUNT; intros; lia || done. Qed.

(** Only the fields of [view] are read by the invariant. *)
Lemma inv_replace r i t' ids :
  inv r -> (i < ROUTABLE_METHOD_COUNT)%nat ->
  trie_ok r t' -> Z.of_nat (length ids) <= 65535 ->
  (forall k x, identities_ r !! k = Some x -> ids !! k = Some x) ->
  (forall p path, leads (root_ (trie_at r i)) p path -> leads (root_ t') p path) ->
  (forall p m, idx_of t' p = Some m -> m <> METRICS_IDX_UNASSIGNED ->
     idx_of (trie_at r i) p = Some m \/
     (m = Z.of_nat (length (identities_ r)) /\ exists path, ids !! length (identities_ r) = Some (path, method_at i) /\
        leads (root_ t') p path /\ forall q, idx_of t' q = Some m -> q = p)) ->
  inv (mkRouter (<[i := t']> (routesByMethod_ r)) ids (groupPrefix_ r) (groupLenStack_ r)).
Proof.
  intros I Hi HT HL HI HLd HM. pose proof I as [I1 I2 I3 I4 I5 I6].
  destruct (trie_at_lookup r i I Hi) as [Ei _].
  assert (Hlk : forall j u, <[i := t']> (routesByMethod_ r) !! j = Some u ->
    (j = i /\ u = t') \/ (j <> i /\ routesByMethod_ r !! j = Some u)).
  { intros j u H. destruct (decide (j = i)) as [->|Hj].
    - rewrite list_lookup_insert_eq in H by (rewrite I1; done). left. split; [done|congruence].
    - rewrite list_lookup_insert_ne in H by done. by right. }
  assert (Hold : forall j u p m, routesByMethod_ r !! j = Some u -> idx_of u p = Some m -> m <> METRICS_IDX_UNASSIGNED ->
    m <> Z.of_nat (length (identities_ r))).
  { intros j u p m Hu Hp Hm -> . destruct (I5 _ _ _ _ Hu Hp Hm) as (path & _ & E & _).
    apply lookup_lt_Some in E. lia. }
  constructor; cbn [routesByMethod_ identities_ groupPrefix_ groupLenStack_]; try done; try lia.
  - by rewrite length_insert.
  - apply Forall_insert; [|destruct HT; by constructor].
    eapply Forall_impl; [exact I2|]. intros u []. by constructor.
  - intros j u p m Hu Hp Hm. destruct (Hlk _ _ Hu) as [[-> ->]|[Hj Hu']].
    + destruct (HM p m Hp Hm) as [Ho|(-> & path & Hid & Hld & _)].
      * destruct (I5 _ _ _ _ Ei Ho Hm) as (path & Hp0 & Hid & Hld). exists path. split; [done|]. split; [by apply HI|by apply HLd].
      * exists path. split; [lia|]. rewrite Nat2Z.id. done.
    + destruct (I5 _ _ _ _ Hu' Hp Hm) as (path & Hp0 & Hid & Hld). exists path. split; [done|]. split; [by apply HI|done].
  - intros j k u v p q m Hu Hv Hp Hq Hm. destruct (Hlk _ _ Hu) as [[-> ->]|[Hj Hu']], (Hlk _ _ Hv) as [[-> ->]|[Hk Hv']].
    + split; [done|]. destruct (HM p m Hp Hm) as [Ho|(-> & path & _ & _ & HU)]; [|symmetry; by apply HU].
      destruct (HM q m Hq Hm) as [Ho'|(-> & path & _ & _ & HU)]; [|by apply HU].
      by apply (I6 _ _ _ _ p q m Ei Ei Ho Ho' Hm).
    + destruct (HM p m Hp Hm) as [Ho|(-> & _)]; [by apply (I6 _ _ _ _ p q m Ei Hv' Ho Hq Hm)|].
      exfalso. by apply (Hold _ _ _ _ Hv' Hq Hm).
    + destruct (HM q m Hq Hm) as [Ho|(-> & _)]; [by apply (I6 _ _ _ _ p q m Hu' Ei Hp Ho Hm)|].
      exfalso. by apply (Hold _ _ _ _ Hu' Hp Hm).
    + by apply (I6 _ _ _ _ p q m Hu' Hv' Hp Hq Hm).
Qed.

End Invariant.

Section Preservation.
Context {C : Type}.
Implicit Types (r : Router C) (t : RouteTrie C).

Lemma new_inv : inv (new_router (C := C)).
Proof.
  constructor; cbn [new_router routesByMethod_ identities_ groupPrefix_ groupLenStack_].
  - done.
  - apply Forall_replicate. constructor.
    + split; [by eexists|constructor].
    + by exists [], blank.
    + constructor.
  - repeat constructor.
  - cbn. lia.
  - intros i t p m Ht Hp Hm. apply lookup_replicate in Ht as [-> _]. unfold idx_of in Hp. cbn in Hp.
    rewrite view_new in Hp. destruct p; [|done]. injection Hp as <-. done.
  - intros i j t u p q m Ht _ Hp _ Hm. apply lookup_replicate in Ht as [-> _]. unfold idx_of in Hp. cbn in Hp.
    rewrite view_new in Hp. destruct p; [|done]. injection Hp as <-. done.
Qed.

(** What [Insert] leaves in the trie, for the invariant. *)
Lemma Insert_step r t route h t' p :
  trie_ok r t -> route <> [] -> Insert t route h = Ret (t', p) ->
  exists m, idx_of t' p = Some m /\ leads (root_ t') p (JoinPath (groupPrefix_ r) route) /\
    trie_ok r t' /\ (forall q path, leads (root_ t) q path -> leads (root_ t') q path) /\
    (forall q k, idx_of t' q = Some k -> k <> METRICS_IDX_UNASSIGNED -> idx_of t q = Some k).
Proof.
  intros TO Hr H. pose proof TO as [W (gp & d0 & V0 & L0) _]. unfold Insert in H.
  destruct (InsertRoute t route) as [[t1 q]|] eqn:E; [|done].
  apply InsertRoute_ok in E as (gp' & d0' & pats & d & V0' & HP & V1 & _ & G & W1 & C1 & S1); [|done].
  rewrite V0 in V0'. injection V0' as <- <-. cbn [obind] in H.
  destruct (at_node q _ _) as [[n2 r2]|] eqn:E; [|done]. injection H as <- <-.
  destruct (at_node_ok _ _ _ _ _ _ _ V1 E) as (n & n' & r' & Hs & _ & -> & VA & VB & VC).
  injection Hs as <- <-.
  assert (Hv : forall k, exists f, view n2 k = (fun v => (v.1, (f v.2.1, v.2.2))) <$> view (root_ t1) k).
  { intros k. destruct (decide (q `prefix_of` k)) as [[s ->]|Hn].
    - rewrite VA, VB. destruct s as [|i s]; [by exists (fun _ => h)|exists (fun x => x)].
      change (view (Node (children n) h (metricsIdx n)) (i :: s)) with (view n (i :: s)).
      by destruct (view n (i :: s)) as [[? [? ?]]|].
    - exists (fun x => x). rewrite VC by done. by destruct (view (root_ t1) k) as [[? [? ?]]|]. }
  assert (Hidx : forall k, idx_of (mkTrie n2 (insertCursor_ t1) (cursorStack_ t1)) k = idx_of t1 k).
  { intros k. unfold idx_of. cbn [root_]. destruct (Hv k) as [f ->]. by destruct (view (root_ t1) k). }
  assert (Hld : forall k path, leads (root_ t) k path -> leads n2 k path).
  { intros k path HL. apply (leads_grows _ _ _ _ G) in HL as (ls & e & V & L). destruct (Hv k) as [f Hk].
    rewrite V in Hk. by exists ls, (f e.1, e.2). }
  assert (Hval : forall k, valid (root_ t1) k -> valid n2 k).
  { intros k [v V]. destruct (Hv k) as [f Hk]. rewrite V in Hk. by eexists. }
  exists (metricsIdx n). rewrite Hidx. split; [unfold idx_of; by rewrite V1|]. split; [|split; [|split; [done|]]].
  - destruct (Hv q) as [f Hq]. rewrite V1 in Hq. exists (gp ++ pats). eexists. split; [exact Hq|].
    rewrite <- labels_route_pats in HP. by apply JoinPath_labels.
  - destruct TO as [_ _ T3]. destruct W1 as [W1 W2]. constructor.
    + split; [by apply Hval|]. eapply Forall_impl; [exact W2|]. exact Hval.
    + cbn. rewrite C1. apply Hld. by exists gp, d0.
    + cbn. rewrite S1. eapply Forall2_impl; [exact T3|]. intros k path. apply Hld.
  - intros k m. rewrite Hidx. intros Hk Hm. by eapply idx_grows.
Qed.

Lemma RegisterRoute_inv maxRoutes r method path handler r' p :
  Z.of_nat maxRoutes <= 65535 -> inv r -> RegisterRoute maxRoutes r method path handler = Ret (r', p) ->
  inv r' /\ exists t m, routesByMethod_ r' !! method_index method = Some t /\ idx_of t p = Some m /\
    m <> METRICS_IDX_UNASSIGNED /\ leads (root_ t) p (JoinPath (groupPrefix_ r) path).
Proof.
  intros Hmax I H. unfold RegisterRoute in H. destruct path as [|c path']; [done|].
  destruct (negb (c =? SLASH)); [done|]. set (i := method_index method) in *.
  destruct (Nat.leb_spec ROUTABLE_METHOD_COUNT i) as [|Hi]; [done|]. cbv zeta in H.
  destruct (Insert (trie_at r i) (c :: path') handler) as [[t node]|] eqn:EI; [|done]. cbn [obind] in H.
  destruct (trie_at_lookup r i I Hi) as [Ei TO].
  destruct (Insert_step r _ (c :: path') _ _ _ TO ltac:(done) EI) as (m & Hm & HL & TO' & HLd & HIx).
  assert (Hmv : match view (root_ t) node with Some (_, (_, m)) => m | None => METRICS_IDX_UNASSIGNED end = m).
  { unfold idx_of in Hm. destruct (view (root_ t) node) as [[? [? ?]]|]; [|done]. by injection Hm. }
  rewrite Hmv in H. destruct (Z.eqb_spec m METRICS_IDX_UNASSIGNED) as [Hun|Has].
  - destruct (Nat.leb_spec maxRoutes (length (identities_ r))) as [|Hroom]; [done|].
    set (k := u16 (Z.of_nat (length (identities_ r)))) in *.
    assert (Hk : k = Z.of_nat (length (identities_ r))) by (apply wrap_small; lia).
    assert (Hku : k <> METRICS_IDX_UNASSIGNED) by (unfold METRICS_IDX_UNASSIGNED; lia).
    destruct HL as (ls & d & V & L).
    destruct (at_node node _ (root_ t)) as [[n2 r2]|] eqn:E; [|done]. injection H as <- <-.
    destruct (at_node_ok _ _ _ _ _ _ _ V E) as (n & n' & r'' & Hs & _ & -> & VA & VB & VC).
    injection Hs as <- <-. set (t' := mkTrie n2 (insertCursor_ t) (cursorStack_ t)).
    assert (Hother : forall q, q <> node -> view n2 q = view (root_ t) q).
    { intros q Hq. destruct (decide (node `prefix_of` q)) as [[s ->]|Hn]; [|by apply VC].
      rewrite VA, VB. destruct s as [|j s]; [by rewrite app_nil_r in Hq|done]. }
    assert (Hself : view n2 node = Some (ls, (callback n, k))).
    { specialize (VB []). rewrite app_nil_r in VB. rewrite VB. cbn. by rewrite app_nil_r. }
    assert (HLd' : forall q pa, leads (root_ t) q pa -> leads n2 q pa).
    { intros q pa (l & e & V' & L'). destruct (decide (q = node)) as [->|Hq].
      - rewrite V in V'. injection V' as <- <-. exists ls. eexists. split; [exact Hself|done].
      - exists l, e. by rewrite Hother. }
    assert (HOK : trie_ok r t').
    { destruct TO' as [[W1 W2] T2 T3].
      assert (Hval : forall q, valid (root_ t) q -> valid n2 q).
      { intros q Hv. destruct (decide (q = node)) as [->|Hq]; [by eexists|]. unfold valid. by rewrite Hother. }
      constructor; [split; [by apply Hval|eapply Forall_impl; [exact W2|exact Hval]]|by apply HLd'|].
      eapply Forall2_impl; [exact T3|]. intros q pa. apply HLd'. }
    assert (Hixself : idx_of t' node = Some k) by (unfold idx_of; cbn [root_ t']; by rewrite Hself).
    assert (Hixother : forall q, q <> node -> idx_of t' q = idx_of t q).
    { intros q Hq. unfold idx_of. cbn [root_ t']. by rewrite Hother. }
    split.
    + apply inv_replace; try done.
      * rewrite length_app. cbn. lia.
      * intros j x Hx. by apply lookup_app_l_Some.
      * intros q pa HLq. by apply HLd', HLd.
      * intros q j Hq Hj. destruct (decide (q = node)) as [->|Hqn].
        -- right. rewrite Hixself in Hq. injection Hq as <-. split; [done|].
           exists (JoinPath (groupPrefix_ r) (c :: path')). split; [|split].
           ++ rewrite lookup_app_r, Nat.sub_diag by lia. unfold i. by rewrite method_at_index.
           ++ apply HLd'. by eexists ls, _.
           ++ intros q Hq. destruct (decide (q = node)) as [|Hqn]; [done|]. exfalso.
              rewrite Hixother in Hq by done. apply HIx in Hq; [|done].
              destruct (inv_index _ I _ _ _ _ Ei Hq Hku) as (pa & _ & Hid & _). apply lookup_lt_Some in Hid. lia.
        -- left. rewrite Hixother in Hq by done. by apply HIx.
    + exists t', k. cbn [routesByMethod_]. rewrite list_lookup_insert_eq by (by rewrite (inv_count _ I)).
      split; [done|]. split; [done|]. split; [done|]. apply HLd'. by eexists ls, _.
  - injection H as <- <-. split.
    + apply inv_replace; try done; [apply I|]. intros q j Hq Hj. left. by apply HIx.
    + exists t, m. cbn [routesByMethod_]. rewrite list_lookup_insert_eq by (by rewrite (inv_count _ I)). done.
Qed.

End Preservation.

Section Groups.
Context {C : Type}.
Implicit Types (r : Router C) (t : RouteTrie C).

Lemma map_outcome_Forall2 {A B} (f : A -> outcome B) l l' :
  map_outcome f l = Ret l' -> Forall2 (fun x y => f x = Ret y) l l'.
Proof.
  revert l'. induction l as [|x l IH]; intros l' H; cbn in H; [by injection H as <-|].
  destruct (f x) as [y|] eqn:E; [|done]. cbn in H. destruct (map_outcome f l) as [ys|]; [|done].
  injection H as <-. constructor; [done|by apply IH].
Qed.

Lemma JoinPath_extends acc seg : seg <> [] -> acc `prefix_of` JoinPath acc seg.
Proof.
  intros H. rewrite JoinPath_eq by done. destruct acc as [|c a _] using rev_ind; [apply prefix_nil|].
  rewrite pop_slash_snoc. destruct (Z.eqb_spec c SLASH) as [->|]; [|by eexists].
  exists (StripRoute seg). by rewrite <- app_assoc.
Qed.

Lemma take_prefix (a b : bytes) k : a `prefix_of` b -> (k <= length a)%nat -> take k b = take k a.
Proof. intros [c ->] Hk. by rewrite take_app_le. Qed.

(** Replacing every trie by a grown one, with the group state to match. *)
Lemma inv_regroup r ts prefix lens :
  inv r -> Forall2 (fun t t' => grows (root_ t) (root_ t')) (routesByMethod_ r) ts ->
  Forall (trie_ok (mkRouter ts (identities_ r) prefix lens)) ts ->
  StronglySorted (fun a b => (b <= a)%nat) (length prefix :: lens) ->
  inv (mkRouter ts (identities_ r) prefix lens).
Proof.
  intros [I1 I2 I3 I4 I5 I6] HF HT HS.
  assert (HB : forall i t' p m, ts !! i = Some t' -> idx_of t' p = Some m -> m <> METRICS_IDX_UNASSIGNED ->
    exists t, routesByMethod_ r !! i = Some t /\ idx_of t p = Some m /\ grows (root_ t) (root_ t')).
  { intros i t' p m Ht Hp Hm. destruct (Forall2_lookup_r _ _ _ _ _ HF Ht) as (t & Et & G).
    exists t. split; [done|]. split; [by eapply idx_grows|done]. }
  constructor; cbn [routesByMethod_ identities_ groupPrefix_ groupLenStack_]; try done.
  - by rewrite <- (Forall2_length _ _ _ HF).
  - intros i t' p m Ht Hp Hm. destruct (HB _ _ _ _ Ht Hp Hm) as (t & Et & Hp' & G).
    destruct (I5 _ _ _ _ Et Hp' Hm) as (path & H0 & Hid & HL). exists path. split; [done|]. split; [done|].
    by eapply leads_grows.
  - intros i j t' u' p q m Ht Hu Hp Hq Hm. destruct (HB _ _ _ _ Ht Hp Hm) as (t & Et & Hp' & _).
    destruct (HB _ _ _ _ Hu Hq Hm) as (u & Eu & Hq' & _). by apply (I6 _ _ _ _ p q m Et Eu).
Qed.

Lemma PushGroup_step r t prefix t' :
  trie_ok r t -> prefix <> [] -> PushGroup t prefix = Ret t' ->
  grows (root_ t) (root_ t') /\ wf t' /\ leads (root_ t') (insertCursor_ t') (JoinPath (groupPrefix_ r) prefix) /\
  Forall2 (leads (root_ t')) (cursorStack_ t') (groupPrefix_ r :: saved r).
Proof.
  intros TO Hp H. pose proof H as H0. pose proof TO as [W (gp & d0 & V0 & L0) T3].
  apply PushGroup_ok in H0 as (W' & S' & G); [|done]. split; [done|]. split; [done|].
  unfold PushGroup in H. destruct (InsertRoute _ _) as [[t1 q]|] eqn:E; [|done]. injection H as <-.
  apply InsertRoute_ok in E as (gp' & d0' & pats & d & V0' & HP & V1 & _); [|by destruct W; split; [|constructor]].
  cbn in V0'. rewrite V0 in V0'. injection V0' as <- <-. cbn [obind root_ insertCursor_ fst snd] in *. split.
  - eexists (gp ++ pats), d. split; [done|]. rewrite <- labels_route_pats in HP. by apply JoinPath_labels.
  - rewrite S'. constructor; [eapply leads_grows; [exact G|by exists gp, d0]|].
    eapply Forall2_impl; [exact T3|]. intros k path. by apply leads_grows.
Qed.

Lemma PushRouteGroup_inv r prefix r' :
  inv r -> prefix <> [] -> PushRouteGroup r prefix = Ret r' -> inv r'.
Proof.
  intros I Hp H. unfold PushRouteGroup in H. destruct (map_outcome _ _) as [ts|] eqn:E; [|done]. injection H as <-.
  apply map_outcome_Forall2 in E. pose proof (JoinPath_extends (groupPrefix_ r) prefix Hp) as HX.
  pose proof (inv_lens _ I) as HS. apply StronglySorted_inv in HS as [HS HF].
  assert (Hsaved : saved (mkRouter ts (identities_ r) (JoinPath (groupPrefix_ r) prefix)
      (length (groupPrefix_ r) :: groupLenStack_ r)) = groupPrefix_ r :: saved r).
  { unfold saved. cbn [groupPrefix_ groupLenStack_]. rewrite fmap_cons. f_equal.
    - rewrite (take_prefix _ _ _ HX) by lia. by rewrite take_ge.
    - apply list_fmap_ext. intros k x Hx. apply take_prefix; [done|].
      rewrite Forall_forall in HF. apply HF. by eapply list_elem_of_lookup_2. }
  assert (HP : Forall2 (fun t t' => trie_ok r t /\ PushGroup t prefix = Ret t') (routesByMethod_ r) ts).
  { apply Forall2_same_length_lookup_2; [by eapply Forall2_length|]. intros i t t' Ht Ht'.
    split; [by eapply Forall_lookup_1; [apply inv_tries|]|by eapply Forall2_lookup_lr in E]. }
  apply inv_regroup; [done| | |].
  - eapply Forall2_impl; [exact HP|]. intros t t' [HT HG]. by apply (PushGroup_step r t prefix).
  - apply Forall_forall. intros t' Ht'. apply list_elem_of_lookup_1 in Ht' as [i Hi].
    destruct (Forall2_lookup_r _ _ _ _ _ HP Hi) as (t & _ & HT & HG).
    destruct (PushGroup_step r t prefix t' HT Hp HG) as (_ & W & L & S). constructor; [done|done|by rewrite Hsaved].
  - constructor; [by constructor|]. constructor.
    + destruct HX as [c ->]. rewrite length_app. lia.
    + eapply Forall_impl; [exact HF|]. intros k Hk. cbn in Hk. destruct HX as [c ->]. rewrite length_app. lia.
Qed.

Lemma PopRouteGroup_inv r r' : inv r -> PopRouteGroup r = Ret r' -> inv r'.
Proof.
  intros I H. unfold PopRouteGroup in H. destruct (groupLenStack_ r) as [|n s] eqn:EL; [done|].
  destruct (map_outcome _ _) as [ts|] eqn:E; [|done]. injection H as <-. apply map_outcome_Forall2 in E.
  pose proof (inv_lens _ I) as HS. rewrite EL in HS. apply StronglySorted_inv in HS as [HS HF].
  apply Forall_cons in HF as [Hn _]. apply StronglySorted_inv in HS as [HS HF].
  assert (HR : resize n (groupPrefix_ r) = take n (groupPrefix_ r)).
  { unfold resize. replace (n - length (groupPrefix_ r))%nat with 0%nat by lia. apply app_nil_r. }
  rewrite HR.
  assert (HP : Forall2 (fun t t' => trie_ok r t /\ PopGroup t = Ret t') (routesByMethod_ r) ts).
  { apply Forall2_same_length_lookup_2; [by eapply Forall2_length|]. intros i t t' Ht Ht'.
    split; [by eapply Forall_lookup_1; [apply inv_tries|]|by eapply Forall2_lookup_lr in E]. }
  assert (Hst : forall t t', trie_ok r t -> PopGroup t = Ret t' ->
    root_ t' = root_ t /\ trie_ok (mkRouter ts (identities_ r) (take n (groupPrefix_ r)) s) t').
  { intros t t' [W _ T3] HG. pose proof (PopGroup_ok t W) as HO. rewrite HG in HO. destruct HO as (W' & HRt & p & Hc & Hcur).
    split; [done|]. unfold saved in T3. rewrite Hc, EL, fmap_cons in T3. apply Forall2_cons in T3 as [T3 T4].
    constructor; [done|by rewrite HRt, Hcur|]. unfold saved. cbn [groupPrefix_ groupLenStack_]. rewrite HRt.
    replace ((fun k => take k (take n (groupPrefix_ r))) <$> s) with ((fun k => take k (groupPrefix_ r)) <$> s); [done|].
    apply list_fmap_ext. intros k x Hx. rewrite Forall_forall in HF. rewrite take_take. f_equal.
    specialize (HF x (list_elem_of_lookup_2 _ _ _ Hx)). cbn in HF. lia. }
  apply inv_regroup; [done| | |].
  - eapply Forall2_impl; [exact HP|]. intros t t' [HT HG]. destruct (Hst _ _ HT HG) as [-> _]. apply grows_refl.
  - apply Forall_forall. intros t' Ht'. apply list_elem_of_lookup_1 in Ht' as [i Hi].
    destruct (Forall2_lookup_r _ _ _ _ _ HP Hi) as (t & _ & HT & HG). by apply (Hst t).
  - constructor; [done|]. eapply Forall_impl; [exact HF|]. intros k Hk. cbn in Hk. rewrite length_take. lia.
Qed.

(** The registration calls of user code. *)
Inductive reg_op :=
| OpRoute (method : HttpMethod) (path : bytes) (handler : option C)
| OpPush (prefix : bytes)
| OpPop.

Definition run_op (maxRoutes : nat) r (o : reg_op) : outcome (Router C) :=
  match o with
  | OpRoute m p h => let* x := RegisterRoute maxRoutes r m p h in Ret x.1
  | OpPush p => PushRouteGroup r p
  | OpPop => PopRouteGroup r
  end.

Fixpoint run_ops (maxRoutes : nat) r (os : list reg_op) : outcome (Router C) :=
  match os with
  | [] => Ret r
  | o :: k => let* r1 := run_op maxRoutes r o in run_ops maxRoutes r1 k
  end.

Definition named_group (o : reg_op) : Prop := match o with OpPush p => p <> [] | _ => True end.

Lemma run_ops_inv maxRoutes os : forall r r',
  Z.of_nat maxRoutes <= 65535 -> inv r -> Forall named_group os -> run_ops maxRoutes r os = Ret r' -> inv r'.
Proof.
  induction os as [|o os IH]; intros r r' Hmax I HF H; [by injection H as <-|].
  apply Forall_cons in HF as [Ho HF]. cbn [run_ops] in H.
  destruct (run_op maxRoutes r o) as [r1|] eqn:E; [|done]. cbn [obind] in H. apply (IH r1 r'); try done.
  destruct o as [m p h|p|]; cbn [run_op] in E.
  - destruct (RegisterRoute maxRoutes r m p h) as [[r2 q]|] eqn:ER; [|done]. injection E as <-.
    by apply RegisterRoute_inv in ER as [? _].
  - by eapply PushRouteGroup_inv.
  - by eapply PopRouteGroup_inv.
Qed.

(** after any registration program (routes, nested named groups), every
    node with a metrics index is led to by exactly the segments of the path
    the identity at that index reports, under that method, and no two nodes
    share an index; the groups left open are restored by closing them. *)
Theorem routes_reported (maxRoutes : nat) (os : list reg_op) (r : Router C) :
  Z.of_nat maxRoutes <= 65535 -> Forall named_group os -> run_ops maxRoutes new_router os = Ret r ->
  inv r /\
  (forall i t p ls h m, routesByMethod_ r !! i = Some t -> view (root_ t) p = Some (ls, (h, m)) ->
     m <> METRICS_IDX_UNASSIGNED ->
     labels (RouteAt r (Z.to_nat m)).1 = Ret ls /\ (RouteAt r (Z.to_nat m)).2 = method_at i).
Proof.
  intros Hmax HF H. assert (I : inv r) by (by eapply run_ops_inv; [|apply new_inv| |]). split; [done|].
  intros i t p ls h m Ht V Hm. assert (Hx : idx_of t p = Some m) by (unfold idx_of; by rewrite V).
  destruct (inv_index _ I _ _ _ _ Ht Hx Hm) as (path & _ & Hid & ls' & d & V' & L).
  rewrite V in V'. injection V' as <- <-. unfold RouteAt. by rewrite Hid.
Qed.

End Groups.

(** ** Concrete routers *)

Definition api : list (reg_op (C := nat)) :=
  [OpRoute GET (lit "/") (Some 0%nat); OpPush (lit "/api/"); OpPush (lit "v1");
   OpRoute GET (lit "/users/<id:uint>") (Some 1%nat); OpRoute POST (lit "/users") (Some 2%nat); OpPop;
   OpRoute GET (lit "/files/*") (Some 3%nat); OpPop].

Definition api_router : Router nat := match run_ops 64 new_router api with Ret r => r | Fatal _ => new_router end.

Lemma routes_reported_witness :
  inv api_router /\
  (forall i t p ls h m, routesByMethod_ api_router !! i = Some t -> view (root_ t) p = Some (ls, (h, m)) ->
     m <> METRICS_IDX_UNASSIGNED ->
     labels (RouteAt api_router (Z.to_nat m)).1 = Ret ls /\ (RouteAt api_router (Z.to_nat m)).2 = method_at i).
Proof.
  apply (routes_reported 64 api); [vm_compute; discriminate| |vm_compute; reflexivity].
  repeat (apply Forall_cons; split; [try exact I; discriminate|]). apply Forall_nil. exact I.
Defined.

Example api_paths : (fun p => p.1) <$> identities_ api_router =
  [lit "/"; lit "/api/v1/users/<id:uint>"; lit "/api/v1/users"; lit "/api/files/*"].
Proof. vm_compute. reflexivity. Qed.

Example api_match :
  (fun r => (callback <$> r.1, r.2)) (MatchRoute api_router GET (lit "/api/v1/users/42?x=1") []) = (Some (Some 1%nat), [SEG_U64 42]) /\
  MethodsAt api_router (lit "/api/v1/users") = [POST].
Proof. vm_compute. by split. Qed.

(** A dynamic route registered twice gets a second node: the first handler
    keeps answering and a second metrics slot is taken. *)
Example dynamic_route_twice :
  match run_ops 64 new_router [OpRoute GET (lit "/u/<int>") (Some 1%nat); OpRoute GET (lit "/u/<int>") (Some 2%nat)] with
  | Ret r => callback <$> (MatchRoute r GET (lit "/u/5") []).1 = Some (Some 1%nat) /\ RouteCount r = 2
  | Fatal _ => False
  end.
Proof. vm_compute. by split. Qed.

(** An empty group inside one whose prefix ends in a slash: closing it pads
    the prefix with a NUL. *)
Example empty_group_pads :
  match run_ops (C := nat) 64 new_router [OpPush (lit "/api/"); OpPush []; OpPop; OpRoute GET (lit "/x") (Some 1%nat)] with
  | Ret r => (RouteAt r 0).1 = lit "/api" ++ [NUL] ++ lit "/x"
  | Fatal _ => False
  end.
Proof. vm_compute. reflexivity. Qed.

(** The wildcard must come last only where it is first registered. *)
Example wildcard_then_more :
  match run_ops 64 new_router [OpRoute GET (lit "/*") (Some 1%nat); OpRoute GET (lit "/*/x") (Some 2%nat)] with
  | Ret r => callback <$> (MatchRoute r GET (lit "/a/x") []).1 = Some (Some 1%nat)
  | Fatal _ => False
  end.
Proof. vm_compute. reflexivity. Qed.

End Router.
