(* ===== verification/BitmapPool.v ===== *)
(** * BitmapPool: [utils/pool/bitmap_pool.hpp]

    The fixed-address object pool behind the client and endpoint contexts and the
    rate limiter's nodes: one bit per slot, scanned a word at a time from the last
    word used, and a second bitmap of marks.  Slots are their indices ([GetPtr]
    and [GetIndex] translate); the allocator is a parameter.  Copies are deleted
    and moves only hand the arrays over, so neither is modelled. *)

From S2P Require Import Prelude Swar.
Import Swar.

Module BitmapPool.

(** ** Definitions *)

(** Maximum valid 64-aligned slot count for [std::uint32_t]. *)
Definition MAX_64_ALIGNED : Z := 0xFFFFFFC0.

Section pool.
Context {T : Type} (new_T : T) (sizeof_T : Z).

Record pool := Pool {
  pool_ : list T;
  bitmap_ : list Z;
  marks_ : option (list Z);
  slots_ : Z;
  words_ : Z;
  lastUsedIndex_ : Z
}.

Definition word (ws : list Z) (w : Z) : Z := default 0 (ws !! Z.to_nat w).

Definition upd_word (f : Z -> Z) (w : Z) (ws : list Z) : list Z := alter f (Z.to_nat w) ws.

(** [1ULL << bit] *)
Definition bit_of (bit : Z) : Z := u64 (Z.shiftl 1 bit).

(** [Shared::NewArray<std::uint64_t>(words)] once memory was found: zeroes. *)
Definition zero_words (words : Z) : list Z := replicate (Z.to_nat words) 0.

(** The constructor's slot and word counts. *)
Definition pool_shape (numSlots : Z) (exactSize : bool) : Z * Z :=
  if exactSize then (numSlots, u32 (Z.shiftr (u64 (numSlots + 63)) 6))
  else
    let rounded := Z.land (u64 (numSlots + 63)) (not64 63) in
    let rounded := if MAX_64_ALIGNED <? rounded then MAX_64_ALIGNED else rounded in
    let slots := u32 rounded in
    (slots, Z.shiftr slots 6).

(** The constructor; [Alloc_ok n] is whether [Alloc(n)] finds memory. *)
Definition new_pool (Alloc_ok : Z -> bool) (numSlots : Z) (exactSize : bool) : outcome pool :=
  let '(slots, words) := pool_shape numSlots exactSize in
  let got := Alloc_ok (u64 (slots * sizeof_T)) && Alloc_ok (u64 (words * 8)) in
  if (0 <? slots) && negb got then Fatal "[BitmapPool]: Failed to create pools (Allocation returned nullptr)"
  else
    let tailBits := Z.land slots 63 in
    let bitmap := zero_words words in
    let bitmap := if tailBits =? 0 then bitmap
                  else upd_word (fun _ => not64 (bit_of tailBits - 1)) (words - 1) bitmap in
    Ret (Pool (replicate (Z.to_nat slots) new_T) bitmap None slots words 0).

(** The loops of the allocators: [n] words left, from word [w]; [avail w] has the
    bits of the slots that may be taken. *)
Fixpoint scan (n : nat) (avail : Z -> Z) (w : Z) : option (Z * Z) :=
  match n with
  | O => None
  | S n' =>
      if avail w =? 0 then scan n' avail (w + 1)
      else Some (w, Z.of_nat (countr_zero (avail w)))
  end.

Definition set_bitmap (bm : list Z) (p : pool) : pool :=
  Pool (pool_ p) bm (marks_ p) (slots_ p) (words_ p) (lastUsedIndex_ p).
Definition set_marks (ms : option (list Z)) (p : pool) : pool :=
  Pool (pool_ p) (bitmap_ p) ms (slots_ p) (words_ p) (lastUsedIndex_ p).
Definition set_last (w : Z) (p : pool) : pool :=
  Pool (pool_ p) (bitmap_ p) (marks_ p) (slots_ p) (words_ p) w.

(** [bitmap_[w] |= 1ULL << bit] *)
Definition take_bit (w bit : Z) (p : pool) : pool :=
  set_bitmap (upd_word (fun x => Z.lor x (bit_of bit)) w (bitmap_ p)) p.

Definition slot_index (w bit : Z) : Z := u32 (Z.shiftl w 6 + bit).

Definition AllocSlot (p : pool) : option Z * pool :=
  let inv w := not64 (word (bitmap_ p) w) in
  let hit '(w, bit) := (Some (slot_index w bit), set_last w (take_bit w bit p)) in
  match scan (Z.to_nat (words_ p - lastUsedIndex_ p)) inv (lastUsedIndex_ p) with
  | Some wb => hit wb
  | None =>
      match scan (Z.to_nat (lastUsedIndex_ p)) inv 0 with
      | Some wb => hit wb
      | None => (None, p)
      end
  end.

Definition AllocMarked (p : pool) : option Z * pool :=
  match marks_ p with
  | None => (None, p)
  | Some ms =>
      match scan (Z.to_nat (words_ p)) (fun w => Z.land (word ms w) (not64 (word (bitmap_ p) w))) 0 with
      | None => (None, p)
      | Some (w, bit) =>
          (Some (slot_index w bit),
           set_marks (Some (upd_word (fun x => Z.land x (not64 (bit_of bit))) w ms)) (take_bit w bit p))
      end
  end.

(** [got_memory] is whether the first mark finds memory for the marks. *)
Definition Mark (got_memory : bool) (idx : Z) (p : pool) : pool :=
  match (match marks_ p with
         | Some ms => Some ms
         | None => if got_memory then Some (zero_words (words_ p)) else None
         end) with
  | None => p
  | Some ms =>
      set_marks (Some (upd_word (fun x => Z.lor x (bit_of (Z.land idx 63))) (Z.shiftr idx 6) ms)) p
  end.

Definition Unmark (idx : Z) (p : pool) : pool :=
  match marks_ p with
  | None => p
  | Some ms =>
      set_marks (Some (upd_word (fun x => Z.land x (not64 (bit_of (Z.land idx 63)))) (Z.shiftr idx 6) ms)) p
  end.

Definition FreeSlot (idx : Z) (p : pool) : pool :=
  set_bitmap (upd_word (fun x => Z.land x (not64 (bit_of (Z.land idx 63)))) (Z.shiftr idx 6) (bitmap_ p)) p.

Definition IsAllocated (p : pool) (idx : Z) : bool :=
  negb (Z.land (word (bitmap_ p) (Z.shiftr idx 6)) (bit_of (Z.land idx 63)) =? 0).

Definition GetSlots (p : pool) : Z := slots_ p.

(** The object at a slot, read and written through [GetPtr]. *)
Definition GetPtr (p : pool) (idx : Z) : option T := pool_ p !! Z.to_nat idx.
Definition write_slot (f : T -> T) (idx : Z) (p : pool) : pool :=
  Pool (alter f (Z.to_nat idx) (pool_ p)) (bitmap_ p) (marks_ p) (slots_ p) (words_ p) (lastUsedIndex_ p).

End pool.
Arguments pool T : clear implicits.

(** ** Bits of a word *)

Lemma bit_of_pow b : 0 <= b < 64 -> bit_of b = 2 ^ b.
Proof.
  intros H. unfold bit_of. rewrite Z.shiftl_1_l. apply wrap_small.
  split; [lia|]. apply Z.pow_lt_mono_r; lia.
Qed.

Lemma testbit_bit_of b n : 0 <= b < 64 -> 0 <= n -> Z.testbit (bit_of b) n = (n =? b).
Proof.
  intros H Hn. rewrite bit_of_pow, Z.pow2_bits_eqb by lia. destruct (Z.eqb_spec b n), (Z.eqb_spec n b); lia.
Qed.

Lemma testbit_not64 x n : 0 <= n < 64 -> Z.testbit (not64 x) n = negb (Z.testbit x n).
Proof.
  intros H. unfold not64. rewrite Z.lxor_spec. change (2 ^ 64 - 1) with (Z.ones 64).
  rewrite Z.ones_spec_low by lia. apply xorb_true_r.
Qed.

Lemma testbit_set x b n : 0 <= b < 64 -> 0 <= n -> Z.testbit (Z.lor x (bit_of b)) n = (n =? b) || Z.testbit x n.
Proof. intros H Hn. rewrite Z.lor_spec, testbit_bit_of by done. apply orb_comm. Qed.

Lemma testbit_clear x b n :
  0 <= b < 64 -> 0 <= n < 64 -> Z.testbit (Z.land x (not64 (bit_of b))) n = negb (n =? b) && Z.testbit x n.
Proof.
  intros H Hn. rewrite Z.land_spec, testbit_not64, testbit_bit_of by lia. apply andb_comm.
Qed.

Lemma uint_bits x : is_uint 64 x <-> 0 <= x /\ forall n, 64 <= n -> Z.testbit x n = false.
Proof.
  unfold is_uint. split.
  - intros H. split; [lia|]. intros n Hn. destruct (Z.eq_dec x 0) as [->|]; [apply Z.bits_0|].
    apply Z.bits_above_log2; [lia|]. apply Z.lt_le_trans with 64; [|done]. by apply Z.log2_lt_pow2; lia.
  - intros [H0 Hb]. split; [done|]. destruct (Z.eq_dec x 0) as [->|]; [lia|].
    apply Z.log2_lt_pow2; [lia|]. apply Z.nle_gt. intros Hl.
    pose proof (Z.bit_log2 x ltac:(lia)). rewrite Hb in *; done || lia.
Qed.

Lemma not64_uint x : is_uint 64 x -> is_uint 64 (not64 x).
Proof.
  rewrite !uint_bits. intros [H0 H]. unfold not64. split; [apply Z.lxor_nonneg; lia|].
  intros n Hn. rewrite Z.lxor_spec, H by done. change (2 ^ 64 - 1) with (Z.ones 64).
  by rewrite Z.ones_spec_high by lia.
Qed.

Lemma set_uint x b : 0 <= b < 64 -> is_uint 64 x -> is_uint 64 (Z.lor x (bit_of b)).
Proof.
  intros Hb. rewrite !uint_bits. intros [H0 H]. split.
  - apply Z.lor_nonneg. split; [done|]. rewrite bit_of_pow by done. lia.
  - intros n Hn. rewrite testbit_set, H by lia. destruct (Z.eqb_spec n b); [lia|done].
Qed.

Lemma land_uint x y : is_uint 64 x -> is_uint 64 (Z.land x y).
Proof.
  rewrite !uint_bits. intros [H0 H]. split; [apply Z.land_nonneg; by left|].
  intros n Hn. by rewrite Z.land_spec, H.
Qed.

(** [std::countr_zero] finds a bit that is set. *)
Lemma countr_zero_bit z : 0 < z -> Z.testbit z (Z.of_nat (countr_zero z)) = true.
Proof.
  destruct z as [|p|p]; [lia| |lia]. intros _. cbn [countr_zero].
  induction p as [p IH|p IH|]; [done| |done].
  cbn [ctz_pos]. rewrite Nat2Z.inj_succ. change (Zpos p~0) with (2 * Zpos p).
  by rewrite Z.testbit_even_succ by lia.
Qed.

Lemma countr_zero_lt z : 0 < z -> is_uint 64 z -> 0 <= Z.of_nat (countr_zero z) < 64.
Proof.
  intros H0 Hu. split; [lia|]. apply Z.nle_gt. intros Hl. apply uint_bits in Hu as [_ Hu].
  pose proof (countr_zero_bit z H0). rewrite Hu in *; done.
Qed.

Lemma zero_bits x : is_uint 64 x -> (forall n, 0 <= n < 64 -> Z.testbit x n = false) -> x = 0.
Proof.
  intros Hu H. apply uint_bits in Hu as [_ Hu]. apply Z.bits_inj'. intros n Hn. rewrite Z.bits_0.
  destruct (Z.lt_ge_cases n 64); auto.
Qed.

(** ** Bitmaps *)

(** Bit [i] of a bitmap. *)
Definition tbit (ws : list Z) (i : Z) : bool := Z.testbit (word ws (i / 64)) (i mod 64).

(** A bitmap of [words] words. *)
Definition is_bitmap (words : Z) (ws : list Z) : Prop :=
  Z.of_nat (length ws) = words /\ Forall (is_uint 64) ws.

Lemma word_uint words ws w : is_bitmap words ws -> is_uint 64 (word ws w).
Proof.
  intros [_ H]. unfold word. destruct (ws !! _) eqn:E; [|unfold is_uint; cbn; lia].
  by eapply Forall_lookup_1.
Qed.

Lemma upd_word_bitmap f w words ws :
  is_bitmap words ws -> (forall x, is_uint 64 x -> is_uint 64 (f x)) -> is_bitmap words (upd_word f w ws).
Proof.
  intros [Hl Hu] Hf. split; [by unfold upd_word; rewrite length_alter|].
  unfold upd_word. apply Forall_alter; [done|]. intros x _. apply Hf.
Qed.

Lemma word_upd f w v words ws :
  is_bitmap words ws -> 0 <= w < words -> 0 <= v -> word (upd_word f w ws) v = if v =? w then f (word ws v) else word ws v.
Proof.
  intros [Hl _] Hw Hv. unfold word, upd_word. destruct (Z.eqb_spec v w) as [->|Hne].
  - rewrite list_lookup_alter_eq. destruct (lookup_lt_is_Some_2 ws (Z.to_nat w)) as [x Hx]; [lia|]. by rewrite Hx.
  - by rewrite list_lookup_alter_ne by lia.
Qed.

Ltac dlia := Z.to_euclidean_division_equations; lia.

Lemma index_parts i j : (i =? j) = (i / 64 =? j / 64) && (i mod 64 =? j mod 64).
Proof.
  pose proof (Z.div_mod i 64 ltac:(lia)). pose proof (Z.div_mod j 64 ltac:(lia)).
  destruct (Z.eqb_spec i j) as [->|]; [by rewrite !Z.eqb_refl|].
  destruct (Z.eqb_spec (i / 64) (j / 64)), (Z.eqb_spec (i mod 64) (j mod 64)); cbn; try done. dlia.
Qed.

Lemma tbit_set words ws i j :
  is_bitmap words ws -> 0 <= i < 64 * words -> 0 <= j ->
  tbit (upd_word (fun x => Z.lor x (bit_of (i mod 64))) (i / 64) ws) j = (j =? i) || tbit ws j.
Proof.
  intros HB Hi Hj. unfold tbit. rewrite (word_upd _ _ _ words), (index_parts j i) by (done || dlia).
  destruct (j / 64 =? i / 64); [|done]. by rewrite testbit_set by dlia.
Qed.

Lemma tbit_clear words ws i j :
  is_bitmap words ws -> 0 <= i < 64 * words -> 0 <= j ->
  tbit (upd_word (fun x => Z.land x (not64 (bit_of (i mod 64)))) (i / 64) ws) j = negb (j =? i) && tbit ws j.
Proof.
  intros HB Hi Hj. unfold tbit. rewrite (word_upd _ _ _ words), (index_parts j i) by (done || dlia).
  destruct (j / 64 =? i / 64); [|done]. by rewrite testbit_clear by dlia.
Qed.

Lemma set_bitmap_ok words ws i :
  is_bitmap words ws -> is_bitmap words (upd_word (fun x => Z.lor x (bit_of (i mod 64))) (i / 64) ws).
Proof. intros HB. apply upd_word_bitmap; [done|]. intros x. apply set_uint. dlia. Qed.

Lemma clear_bitmap_ok words ws i :
  is_bitmap words ws -> is_bitmap words (upd_word (fun x => Z.land x (not64 (bit_of (i mod 64)))) (i / 64) ws).
Proof. intros HB. apply upd_word_bitmap; [done|]. intros x. apply land_uint. Qed.

Lemma zero_words_bitmap words : 0 <= words -> is_bitmap words (zero_words words).
Proof.
  intros H. unfold zero_words. split; [rewrite length_replicate; lia|].
  apply Forall_replicate. unfold is_uint. lia.
Qed.

Lemma tbit_zero words i : tbit (zero_words words) i = false.
Proof.
  unfold tbit, word, zero_words. destruct (_ !! _) eqn:E; [|apply Z.bits_0].
  apply lookup_replicate in E as [-> _]. apply Z.bits_0.
Qed.

(** The 32-bit index arithmetic of the accesses. *)
Lemma slot_word idx : 0 <= idx -> Z.shiftr idx 6 = idx / 64 /\ Z.land idx 63 = idx mod 64.
Proof.
  intros H. split; [by rewrite Z.shiftr_div_pow2|]. change 63 with (Z.ones 6). by rewrite Z.land_ones.
Qed.

Lemma slot_index_eq w b : 0 <= w -> 0 <= b < 64 -> w < 2 ^ 26 ->
  slot_index w b = 64 * w + b /\ slot_index w b / 64 = w /\ slot_index w b mod 64 = b.
Proof.
  intros Hw Hb Hlt. assert (E : slot_index w b = 64 * w + b).
  { unfold slot_index. rewrite Z.shiftl_mul_pow2 by lia. rewrite wrap_small; lia. }
  rewrite E. split; [done|]. split; dlia.
Qed.

(** ** The scan *)

Lemma scan_Some n avail w w' b :
  scan n avail w = Some (w', b) ->
  w <= w' < w + Z.of_nat n /\ avail w' <> 0 /\ b = Z.of_nat (countr_zero (avail w')).
Proof.
  revert w. induction n as [|n IH]; intros w; [done|]. cbn [scan].
  destruct (Z.eqb_spec (avail w) 0) as [E|E].
  - intros H. apply IH in H. lia.
  - intros [= <- <-]. split; [lia|done].
Qed.

Lemma scan_None n avail w :
  scan n avail w = None -> forall v, w <= v < w + Z.of_nat n -> avail v = 0.
Proof.
  revert w. induction n as [|n IH]; intros w; cbn [scan]; [lia|].
  destruct (Z.eqb_spec (avail w) 0) as [E|E]; [|done].
  intros H v Hv. destruct (Z.eq_dec v w) as [->|]; [done|]. apply (IH _ H). lia.
Qed.

(** ** The pool as a set of slots *)

Section spec.
Context {T : Type} (new_T : T) (sizeof_T : Z).
Implicit Types p : pool T.

Definition in_range p (i : Z) : Prop := 0 <= i < slots_ p.

Record wf p : Prop := Wf {
  wf_words : 0 <= slots_ p <= 64 * words_ p /\ words_ p <= 2 ^ 26;
  wf_bitmap : is_bitmap (words_ p) (bitmap_ p);
  wf_tail : forall i, slots_ p <= i < 64 * words_ p -> tbit (bitmap_ p) i = true;
  wf_last : 0 <= lastUsedIndex_ p <= words_ p;
  wf_marks : forall ms, marks_ p = Some ms -> is_bitmap (words_ p) ms;
  wf_pool : Z.of_nat (length (pool_ p)) = slots_ p
}.

Definition marked p (i : Z) : bool := match marks_ p with Some ms => tbit ms i | None => false end.

(** A pool stands for the set of slots handed out and the set of slots marked. *)
Definition represents p (live marks : gset Z) : Prop :=
  wf p /\
  (forall i, in_range p i -> tbit (bitmap_ p) i = bool_decide (i ∈ live)) /\
  (forall i, in_range p i -> marked p i = bool_decide (i ∈ marks)).

Lemma IsAllocated_tbit p idx : 0 <= idx -> IsAllocated p idx = tbit (bitmap_ p) idx.
Proof.
  intros H. unfold IsAllocated, tbit. destruct (slot_word idx H) as [-> ->].
  set (x := word _ _). set (b := idx mod 64). assert (Hb : 0 <= b < 64) by (unfold b; dlia).
  assert (E : Z.testbit (Z.land x (bit_of b)) b = Z.testbit x b).
  { rewrite Z.land_spec, testbit_bit_of, Z.eqb_refl by lia. apply andb_true_r. }
  destruct (Z.eqb_spec (Z.land x (bit_of b)) 0) as [Z0|Hne]; cbn.
  - by rewrite <- E, Z0, Z.bits_0.
  - destruct (Z.testbit x b) eqn:Ex; [done|]. exfalso. apply Hne, Z.bits_inj'. intros n Hn.
    rewrite Z.land_spec, testbit_bit_of, Z.bits_0 by lia. destruct (Z.eqb_spec n b) as [->|]; [by rewrite Ex|].
    apply andb_false_r.
Qed.

Lemma bool_decide_cons (i j : Z) (S : gset Z) :
  (j =? i) || bool_decide (j ∈ S) = bool_decide (j ∈ ({[i]} ∪ S : gset Z)).
Proof. apply eq_true_iff_eq. rewrite orb_true_iff, !bool_decide_eq_true, Z.eqb_eq. set_solver. Qed.

Lemma bool_decide_drop (i j : Z) (S : gset Z) :
  negb (j =? i) && bool_decide (j ∈ S) = bool_decide (j ∈ (S ∖ {[i]} : gset Z)).
Proof.
  apply eq_true_iff_eq. rewrite andb_true_iff, negb_true_iff, !bool_decide_eq_true, Z.eqb_neq. set_solver.
Qed.

(** Taking a free slot. *)
Lemma take_bit_ok p live marks i :
  represents p live marks -> in_range p i ->
  represents (take_bit (i / 64) (i mod 64) p) ({[i]} ∪ live) marks.
Proof.
  intros (W & HL & HM) Hi. pose proof (wf_words p W) as [[_ Hw] _]. unfold in_range in Hi.
  split; [|split].
  - destruct W. split; cbn; try done; [by apply set_bitmap_ok|].
    intros j Hj. rewrite (tbit_set (words_ p)), wf_tail0 by (done || lia). apply orb_true_r.
  - intros j Hj. change (in_range p j) in Hj. cbn.
    rewrite (tbit_set (words_ p)) by (apply W || unfold in_range in Hj; lia). rewrite HL by done.
    apply bool_decide_cons.
  - intros j Hj. by apply HM.
Qed.

Lemma set_last_ok p live marks w :
  0 <= w <= words_ p -> represents p live marks -> represents (set_last w p) live marks.
Proof. intros Hw ([] & HL & HM). split; [by split|by split]. Qed.

(** What a scan over the free bits finds. *)
Lemma scan_hit p live marks n start w b avail :
  represents p live marks ->
  0 <= start -> start + Z.of_nat n <= words_ p ->
  (forall v, is_uint 64 (avail v)) ->
  (forall v k, 0 <= k < 64 -> Z.testbit (avail v) k = true -> Z.testbit (word (bitmap_ p) v) k = false) ->
  scan n avail start = Some (w, b) ->
  exists i, slot_index w b = i /\ i / 64 = w /\ i mod 64 = b /\ in_range p i /\ (i ∉ live) /\
            Z.testbit (avail w) b = true /\ 0 <= w < words_ p.
Proof.
  intros (W & HL & _) Hs Hn Hu Hfree H. apply scan_Some in H as (Hw & Hne & ->).
  pose proof (wf_words p W) as [_ Hmax].
  assert (Hp : 0 < avail w) by (pose proof (Hu w); unfold is_uint in *; lia).
  pose proof (countr_zero_lt _ Hp (Hu w)) as Hb. pose proof (countr_zero_bit _ Hp) as Hbit.
  set (b := Z.of_nat (countr_zero (avail w))) in *.
  assert (w < 2 ^ 26) by lia.
  destruct (slot_index_eq w b) as (E & Ew & Eb); [lia..|].
  exists (slot_index w b). rewrite Ew, Eb. do 3 (split; [done|]).
  assert (Hf : tbit (bitmap_ p) (slot_index w b) = false)
    by (unfold tbit; rewrite Ew, Eb; by apply Hfree).
  assert (Hr : in_range p (slot_index w b)).
  { split; [lia|]. apply Z.nle_gt. intros Hge. rewrite (wf_tail p W) in Hf; [done|dlia]. }
  split; [done|]. rewrite HL in Hf by done. apply bool_decide_eq_false in Hf.
  split; [done|]. split; [done|]. lia.
Qed.

Lemma free_words p live marks :
  represents p live marks ->
  (forall v, is_uint 64 (not64 (word (bitmap_ p) v))) /\
  (forall v k, 0 <= k < 64 -> Z.testbit (not64 (word (bitmap_ p) v)) k = true ->
               Z.testbit (word (bitmap_ p) v) k = false).
Proof.
  intros (W & _). split.
  - intros v. apply not64_uint, (word_uint (words_ p)), W.
  - intros v k Hk. rewrite testbit_not64 by done. apply negb_true_iff.
Qed.

Lemma no_free_word p live marks v :
  represents p live marks -> not64 (word (bitmap_ p) v) = 0 ->
  forall i, in_range p i -> i / 64 = v -> i ∈ live.
Proof.
  intros (W & HL & _) E i Hi <-. specialize (HL i Hi). unfold tbit in HL.
  rewrite <- (negb_involutive (Z.testbit _ _)), <- testbit_not64, E, Z.bits_0 in HL by dlia.
  symmetry in HL. by apply bool_decide_eq_true in HL.
Qed.

Lemma AllocSlot_ok p live marks :
  represents p live marks ->
  match AllocSlot p with
  | (Some i, p') => in_range p i /\ (i ∉ live) /\ represents p' ({[i]} ∪ live) marks
  | (None, p') => p' = p /\ forall i, in_range p i -> i ∈ live
  end.
Proof.
  intros R. destruct (free_words p live marks R) as [Hu Hf]. pose proof R as (W & _).
  pose proof (wf_last p W) as Hlast. pose proof (wf_words p W) as [Hsl _].
  assert (Hit : forall n start w b, 0 <= start -> start + Z.of_nat n <= words_ p ->
    scan n (fun w => not64 (word (bitmap_ p) w)) start = Some (w, b) ->
    in_range p (slot_index w b) /\ (slot_index w b ∉ live) /\
    represents (set_last w (take_bit w b p)) ({[slot_index w b]} ∪ live) marks).
  { intros n start w b H1 H2 H3.
    destruct (scan_hit p live marks n start w b _ R H1 H2 Hu Hf H3) as (i & -> & <- & <- & Hi & Hni & _ & Hw).
    split; [done|]. split; [done|]. apply set_last_ok; [cbn; lia|]. by apply take_bit_ok. }
  unfold AllocSlot.
  destruct (scan (Z.to_nat (words_ p - lastUsedIndex_ p)) _ _) as [[w b]|] eqn:E1.
  { eapply Hit, E1; lia. }
  destruct (scan (Z.to_nat (lastUsedIndex_ p)) _ 0) as [[w b]|] eqn:E2.
  { eapply Hit, E2; lia. }
  split; [done|]. intros i Hi. eapply (no_free_word p live marks (i / 64)); [done| |done|done].
  unfold in_range in Hi.
  destruct (Z.lt_ge_cases (i / 64) (lastUsedIndex_ p)).
  - apply (scan_None _ _ _ E2). dlia.
  - apply (scan_None _ _ _ E1). dlia.
Qed.

Lemma AllocMarked_ok p live marks :
  represents p live marks ->
  match AllocMarked p with
  | (Some i, p') => in_range p i /\ i ∈ marks /\ (i ∉ live) /\ represents p' ({[i]} ∪ live) (marks ∖ {[i]})
  | (None, p') => p' = p /\ forall i, in_range p i -> i ∈ marks -> i ∈ live
  end.
Proof.
  intros R. destruct (free_words p live marks R) as [Hu Hf]. pose proof R as (W & HL & HM).
  pose proof (wf_words p W) as [Hsl _]. unfold AllocMarked, marked in *.
  destruct (marks_ p) as [ms|] eqn:Ems.
  2:{ split; [done|]. intros i Hi Hm. specialize (HM i Hi). symmetry in HM. by apply bool_decide_eq_false in HM. }
  pose proof (wf_marks p W ms Ems) as Hms.
  destruct (scan _ _ 0) as [[w b]|] eqn:E.
  - apply (scan_hit p live marks) in E as (i & -> & <- & <- & Hi & Hni & Hb & Hw); [|done|lia|lia| |].
    + rewrite Z.land_spec in Hb. apply andb_true_iff in Hb as [Hb _].
      split; [done|]. assert (Him : tbit ms i = true) by done.
      rewrite HM in Him by done. apply bool_decide_eq_true in Him. do 2 (split; [done|]).
      destruct (take_bit_ok p live marks i R Hi) as (W' & HL' & _). split; [|split; [exact HL'|]].
      * destruct W'. split; try done. intros ms' [= <-]. by apply clear_bitmap_ok.
      * intros j Hj. change (in_range p j) in Hj. unfold marked. cbn.
        rewrite (tbit_clear (words_ p)), HM by (done || unfold in_range in *; dlia). apply bool_decide_drop.
    + intros v. apply land_uint, (word_uint (words_ p)), Hms.
    + intros v k Hk. rewrite Z.land_spec. intros [_ H]%andb_true_iff. by apply Hf.
  - split; [done|]. intros i Hi Him. specialize (HM i Hi). rewrite bool_decide_true in HM by done.
    unfold in_range in Hi. pose proof (scan_None _ _ _ E (i / 64) ltac:(dlia)) as E0.
    cbn beta in E0. specialize (HL i Hi). unfold tbit in HM, HL.
    pose proof (f_equal (fun x => Z.testbit x (i mod 64)) E0) as E1. cbn beta in E1.
    rewrite Z.land_spec, testbit_not64, HM, Z.bits_0 in E1 by dlia. cbn in E1.
    apply negb_false_iff in E1. rewrite E1 in HL. symmetry in HL. by apply bool_decide_eq_true in HL.
Qed.

Lemma FreeSlot_ok p live marks i :
  represents p live marks -> in_range p i -> represents (FreeSlot i p) (live ∖ {[i]}) marks.
Proof.
  intros (W & HL & HM) Hi. pose proof (wf_words p W) as [[_ Hw] _]. unfold in_range in Hi.
  unfold FreeSlot. destruct (slot_word i) as [-> ->]; [lia|]. split; [|split].
  - destruct W. split; cbn; try done; [by apply clear_bitmap_ok|].
    intros j Hj. rewrite (tbit_clear (words_ p)), wf_tail0 by (done || lia).
    destruct (Z.eqb_spec j i); [lia|done].
  - intros j Hj. change (in_range p j) in Hj. cbn.
    rewrite (tbit_clear (words_ p)) by (apply W || unfold in_range in Hj; lia). rewrite HL by done.
    apply bool_decide_drop.
  - intros j Hj. by apply HM.
Qed.

Lemma with_marks p live marks marks' ms :
  represents p live marks -> is_bitmap (words_ p) ms ->
  (forall i, in_range p i -> tbit ms i = bool_decide (i ∈ marks')) ->
  represents (set_marks (Some ms) p) live marks'.
Proof.
  intros ([] & HL & _) Hms HM. split; [|split; [exact HL|exact HM]].
  split; try done. by intros ms' [= <-].
Qed.

Lemma Mark_ok p live marks i :
  represents p live marks -> in_range p i -> represents (Mark true i p) live ({[i]} ∪ marks).
Proof.
  intros R Hi. pose proof R as (W & _ & HM). pose proof (wf_words p W) as [[_ Hw] _].
  unfold Mark. destruct (slot_word i) as [-> ->]; [by apply Hi|].
  assert (Hset : forall ms, is_bitmap (words_ p) ms -> (forall j, in_range p j -> tbit ms j = bool_decide (j ∈ marks)) ->
    represents (set_marks (Some (upd_word (fun x => Z.lor x (bit_of (i mod 64))) (i / 64) ms)) p) live ({[i]} ∪ marks)).
  { intros ms Hms Hj. eapply with_marks; [done|by apply set_bitmap_ok|]. intros j Hjr.
    rewrite (tbit_set (words_ p)), Hj by (done || unfold in_range in *; lia). apply bool_decide_cons. }
  unfold marked in HM. destruct (marks_ p) as [ms|] eqn:Ems; [by apply Hset; [apply W|]|].
  apply Hset; [apply zero_words_bitmap; unfold in_range in Hi; lia|].
  intros j Hj. by rewrite tbit_zero, <- HM.
Qed.

Lemma Mark_failed p i : marks_ p = None -> Mark false i p = p.
Proof. intros E. unfold Mark. by rewrite E. Qed.

Lemma Unmark_ok p live marks i :
  represents p live marks -> in_range p i -> represents (Unmark i p) live (marks ∖ {[i]}).
Proof.
  intros R Hi. pose proof R as (W & HL & HM). pose proof (wf_words p W) as [[_ Hw] _].
  unfold Unmark. destruct (slot_word i) as [-> ->]; [by apply Hi|].
  unfold marked in HM. destruct (marks_ p) as [ms|] eqn:Ems.
  - pose proof (wf_marks p W ms Ems) as Hms. eapply with_marks; [done|by apply clear_bitmap_ok|].
    intros j Hj. rewrite (tbit_clear (words_ p)), HM by (done || unfold in_range in *; lia). apply bool_decide_drop.
  - split; [done|]. split; [done|]. intros j Hj. unfold marked. rewrite Ems, <- bool_decide_drop, <- HM by done.
    by rewrite andb_false_r.
Qed.

(** Writing the object in a slot moves no slot. *)
Lemma write_slot_ok p live marks f i :
  represents p live marks -> represents (write_slot f i p) live marks.
Proof. intros ([] & HL & HM). split; [|by split]. split; try done. cbn. by rewrite length_alter. Qed.

End spec.

(** ** The constructor *)

Lemma land_not63 x : is_uint 64 x -> Z.land x (not64 63) = x / 64 * 64.
Proof.
  intros H. assert (E : Z.land x (not64 63) = Z.ldiff x (Z.ones 6)).
  { apply uint_bits in H as [_ H]. apply Z.bits_inj'. intros n Hn. rewrite Z.land_spec, Z.ldiff_spec.
    destruct (Z.lt_ge_cases n 64); [by rewrite testbit_not64|]. by rewrite H. }
  rewrite E, Z.ldiff_ones_r, Z.shiftr_div_pow2, Z.shiftl_mul_pow2 by lia. done.
Qed.

(** The slots really allocated: what was asked for, rounded up unless an exact size
    was. *)
Definition pool_slots (numSlots : Z) (exactSize : bool) : Z :=
  if exactSize then numSlots else Z.min MAX_64_ALIGNED ((numSlots + 63) / 64 * 64).

Lemma pool_shape_eq n exact :
  is_uint 32 n -> pool_shape n exact = (pool_slots n exact, (pool_slots n exact + 63) / 64).
Proof.
  unfold is_uint. intros H. unfold pool_shape, pool_slots. rewrite (wrap_small 64) by lia. destruct exact.
  - f_equal. rewrite Z.shiftr_div_pow2 by lia. change (2 ^ 6) with 64. apply wrap_small. dlia.
  - rewrite land_not63 by (unfold is_uint; lia). unfold MAX_64_ALIGNED.
    set (r := (n + 63) / 64 * 64). assert (Hr : 0 <= r /\ r mod 64 = 0) by (unfold r; dlia).
    assert (E : (if 4294967232 <? r then 4294967232 else r) = Z.min 4294967232 r)
      by (destruct (Z.ltb_spec 4294967232 r); lia).
    rewrite E, wrap_small, Z.shiftr_div_pow2 by lia. f_equal. change (2 ^ 6) with 64. dlia.
Qed.

Lemma pool_slots_range n exact : is_uint 32 n -> 0 <= pool_slots n exact < 2 ^ 32.
Proof. unfold is_uint, pool_slots, MAX_64_ALIGNED. intros H. destruct exact; dlia. Qed.

Lemma low_bits_free t k :
  0 <= t < 64 -> 0 <= k < 64 -> Z.testbit (not64 (bit_of t - 1)) k = (t <=? k).
Proof.
  intros Ht Hk. rewrite testbit_not64, bit_of_pow by done.
  replace (2 ^ t - 1) with (Z.ones t) by (rewrite Z.ones_equiv; lia).
  rewrite Z.testbit_ones_nonneg by lia. destruct (Z.ltb_spec k t), (Z.leb_spec t k); done || lia.
Qed.

Lemma new_pool_ok {T} (new_T : T) sizeof_T Alloc_ok n exact :
  is_uint 32 n -> (forall k, Alloc_ok k = true) ->
  exists p, new_pool new_T sizeof_T Alloc_ok n exact = Ret p /\ slots_ p = pool_slots n exact /\
            pool_ p = replicate (Z.to_nat (pool_slots n exact)) new_T /\ represents p ∅ ∅.
Proof.
  intros Hn Ha. unfold new_pool. rewrite pool_shape_eq by done.
  pose proof (pool_slots_range n exact Hn) as Hs. set (slots := pool_slots n exact) in *.
  rewrite !Ha. cbn [andb negb]. rewrite andb_false_r. cbv zeta.
  destruct (slot_word slots) as [_ ->]; [lia|]. set (words := (slots + 63) / 64).
  set (bm := if slots mod 64 =? 0 then _ else _).
  assert (Hw : 0 <= words /\ 64 * words - 64 < slots <= 64 * words) by (unfold words; dlia).
  assert (Hbm : is_bitmap words bm /\ forall i, 0 <= i < 64 * words -> tbit bm i = (slots <=? i)).
  { pose proof (zero_words_bitmap words ltac:(lia)) as Hz. unfold bm.
    destruct (Z.eqb_spec (slots mod 64) 0) as [E0|E0].
    - split; [done|]. intros i Hi. rewrite tbit_zero. unfold words in Hi. dlia.
    - assert (Hw1 : words - 1 = slots / 64) by (unfold words; dlia). split.
      + apply upd_word_bitmap; [done|]. intros _ _. apply not64_uint.
        rewrite bit_of_pow by dlia. unfold is_uint.
        pose proof (Z.pow_pos_nonneg 2 (slots mod 64) ltac:(lia) ltac:(dlia)).
        assert (2 ^ (slots mod 64) < 2 ^ 64) by (apply Z.pow_lt_mono_r; dlia). lia.
      + intros i Hi. unfold tbit. rewrite (word_upd _ _ _ words) by (done || dlia). rewrite Hw1.
        destruct (Z.eqb_spec (i / 64) (slots / 64)) as [E|E].
        * rewrite low_bits_free by dlia. dlia.
        * change (tbit (zero_words words) i = (slots <=? i)). rewrite tbit_zero. unfold words in Hi. dlia. }
  destruct Hbm as [Hbm Ht]. eexists. split; [done|]. cbn. split; [done|]. split; [done|].
  split; [|split].
  - split; cbn; try done; [|intros i Hi; rewrite Ht by lia; lia|lia|rewrite length_replicate; lia].
    split; [lia|]. unfold words. dlia.
  - intros i Hi. unfold in_range in Hi. cbn [slots_ bitmap_] in *.
    rewrite Ht, bool_decide_false by (set_solver || lia). apply Z.leb_gt. lia.
  - intros i Hi. cbn. by rewrite bool_decide_false by set_solver.
Qed.

(** ** Properties *)

(** C21: the pool is a set of slots.  On a pool standing for the live slots and the
    marks (a new one has every slot free, see [new_pool_ok]), [AllocSlot] hands out an in-range
    slot that was free and fails only when none is, [AllocMarked] the same among
    the marked ones (clearing the mark), [FreeSlot], [Mark] and [Unmark] act on
    their slot alone, and [IsAllocated] tells; no operation moves the others, so no
    slot is handed out twice. *)
Theorem pool_refines_set {T} (p : pool T) (live marks : gset Z) (i : Z) :
  represents p live marks ->
  match AllocSlot p with
  | (Some k, p') => in_range p k /\ (k ∉ live) /\ represents p' ({[k]} ∪ live) marks
  | (None, p') => p' = p /\ forall k, in_range p k -> k ∈ live
  end /\
  match AllocMarked p with
  | (Some k, p') => in_range p k /\ k ∈ marks /\ (k ∉ live) /\ represents p' ({[k]} ∪ live) (marks ∖ {[k]})
  | (None, p') => p' = p /\ forall k, in_range p k -> k ∈ marks -> k ∈ live
  end /\
  (in_range p i ->
    IsAllocated p i = bool_decide (i ∈ live) /\
    represents (FreeSlot i p) (live ∖ {[i]}) marks /\
    represents (Mark true i p) live ({[i]} ∪ marks) /\
    represents (Unmark i p) live (marks ∖ {[i]})).
Proof.
  intros R. split; [by apply AllocSlot_ok|]. split; [by apply AllocMarked_ok|]. intros Hi.
  split; [|by auto using FreeSlot_ok, Mark_ok, Unmark_ok].
  rewrite IsAllocated_tbit by (by apply Hi). by apply R.
Qed.

(** A pool of 3 slots of which slot 0 is live and slot 2 marked. *)
Definition w_pool : pool Z :=
  match new_pool 0 4 (fun _ => true) 3 true with
  | Ret p => Mark true 2 (AllocSlot p).2
  | Fatal _ => Pool [] [] None 0 0 0
  end.

Lemma w_pool_ok : represents w_pool {[0]} {[2]}.
Proof.
  destruct (new_pool_ok 0 4 (fun _ => true) 3 true) as (p & E & Es & _ & R); [unfold is_uint; lia|done|].
  unfold w_pool. rewrite E. pose proof (AllocSlot_ok p ∅ ∅ R) as H.
  assert (Hp : p = Pool [0; 0; 0] [not64 7] None 3 1 0) by (vm_compute in E; by injection E as <-).
  assert (EA : exists q, AllocSlot p = (Some 0, q) /\ slots_ q = 3)
    by (rewrite Hp; vm_compute; by eexists).
  destruct EA as (q & EA & Hq). rewrite EA in *. destruct H as (_ & _ & H). cbn [snd].
  replace ({[2]} : gset Z) with ({[2]} ∪ ∅ : gset Z) by set_solver.
  replace ({[0]} : gset Z) with ({[0]} ∪ ∅ : gset Z) by set_solver.
  apply Mark_ok; [done|]. unfold in_range. lia.
Qed.

Lemma pool_refines_set_witness :
  (exists k p', AllocSlot w_pool = (Some k, p') /\ in_range w_pool k /\ (k ∉ ({[0]} : gset Z))) /\
  IsAllocated w_pool 1 = false.
Proof.
  pose proof (pool_refines_set w_pool {[0]} {[2]} 1 w_pool_ok) as (H1 & _ & H3). split.
  - assert (E : exists k p', AllocSlot w_pool = (Some k, p')) by (vm_compute; eauto).
    destruct E as (k & p' & E). rewrite E in H1. destruct H1 as (? & ? & _). by exists k, p'.
  - assert (Hr : in_range w_pool 1) by (split; vm_compute; congruence). destruct (H3 Hr) as [-> _].
    apply bool_decide_eq_false. set_solver.
Defined.

End BitmapPool.
