(* ===== verification/IpUtils.v ===== *)
(** * IpUtils: [http/limits/ip_utils.cpp], [WFXIpAddress] of [http/connection]

    Parsing addresses and CIDR blocks, matching, the subnet key of the limiters,
    and resolving the client's address behind trusted proxies.  [inet_pton] is a
    parameter: [inet_pton af text] is [Some] of the address bytes in network order
    when it returns 1. *)

From S2P Require Import Prelude Strings Headers Swar.
Import StringUtils HttpHeaders Swar.

Module IpUtils.

Definition AF_INET : Z := 2.
Definition AF_INET6 : Z := 10.
Definition INET6_ADDRSTRLEN : nat := 46.

(** The union is the bytes of its active member: 4 for [AF_INET], 16 otherwise;
    no code reads the bytes past them. *)
Record WFXIpAddress := IpAddress { raw : bytes; port : Z; type : Z }.

#[export] Instance WFXIpAddress_eq_dec : EqDecision WFXIpAddress.
Proof. solve_decision. Defined.

#[export] Instance WFXIpAddress_countable : Countable WFXIpAddress.
Proof.
  refine (inj_countable' (fun a => (raw a, port a, type a)) (fun x => IpAddress x.1.1 x.1.2 x.2) _).
  by intros [].
Defined.

Definition addr_len (type : Z) : nat := if type =? AF_INET then 4 else 16.

(** [operator=]: an unknown family is copied as zeroes. *)
Definition assign (other : WFXIpAddress) : WFXIpAddress :=
  if (type other =? AF_INET) || (type other =? AF_INET6) then other
  else IpAddress (replicate 16 0) (port other) (type other).

(** [operator==] *)
Definition ip_eq (a b : WFXIpAddress) : bool :=
  (port a =? port b) && (type a =? type b) &&
  sv_eq (take (addr_len (type a)) (raw a)) (take (addr_len (type a)) (raw b)).

Record CidrBlock := Cidr { base : WFXIpAddress; prefixLen : Z }.

Record IPConfig := MkIPConfig {
  maxConnectionsPerIp : Z;
  maxRequestBurstSize : Z;
  maxTokensPerSecond : Z;
  maxTrackedIdentities : Z;
  realIpRecursive : bool;
  realIpHeader : bytes;
  trustedProxies : list bytes
}.

(** A C string ends at its first NUL. *)
Definition c_string (buf : bytes) : bytes := (span (fun c => negb (c =? NUL)) buf).1.

(** [IN6_IS_ADDR_V4MAPPED] *)
Definition v4_mapped (v6 : bytes) : bool :=
  forallb (fun c => c =? 0) (take 10 v6) && sv_eq (take 2 (drop 10 v6)) [0xFF; 0xFF].

Section parse.
Context (inet_pton : Z -> bytes -> option bytes).

Definition ParseIpAddress (text : bytes) : option WFXIpAddress :=
  if (length text =? 0)%nat || (INET6_ADDRSTRLEN <=? length text)%nat then None
  else
    let addrBuf := text ++ replicate (INET6_ADDRSTRLEN - length text) NUL in
    match inet_pton AF_INET (c_string addrBuf) with
    | Some v4 => Some (IpAddress v4 0 AF_INET)
    | None =>
        match inet_pton AF_INET6 (c_string addrBuf) with
        | Some v6 =>
            if v4_mapped v6 then Some (IpAddress (take 4 (drop 12 v6)) 0 AF_INET)
            else Some (IpAddress v6 0 AF_INET6)
        | None => None
        end
    end.

Definition ParseCidr (text : bytes) : option CidrBlock :=
  match find_char SLASH text with
  | None => None
  | Some slash =>
      let addrPart := take slash text in
      let prefixPart := drop (slash + 1) text in
      match ParseIpAddress addrPart with
      | None => None
      | Some b =>
          let maxPrefix := if type b =? AF_INET then 32 else 128 in
          match from_chars_uint 32 prefixPart with
          | FcOk prefixVal [] =>
              if maxPrefix <? prefixVal then None else Some (Cidr b (u8 prefixVal))
          | _ => None
          end
      end
  end.

Definition CidrMatches (ip : WFXIpAddress) (block : CidrBlock) : bool :=
  if negb (type ip =? type (base block)) then false
  else
    let fullBytes := Z.to_nat (prefixLen block / 8) in
    let remBits := prefixLen block mod 8 in
    if (0 <? fullBytes)%nat && negb (sv_eq (take fullBytes (raw ip)) (take fullBytes (raw (base block))))
    then false
    else if 0 <? remBits then
      let mask := u8 (Z.shiftl 0xFF (8 - remBits)) in
      Z.land (at_ (raw ip) fullBytes) mask =? Z.land (at_ (raw (base block)) fullBytes) mask
    else true.

(** [htonl] on a little-endian host. *)
Definition htonl (x : Z) : Z :=
  Z.lor (Z.lor (Z.shiftl (Z.land x 0xFF) 24) (Z.shiftl (Z.land x 0xFF00) 8))
        (Z.lor (Z.land (Z.shiftr x 8) 0xFF00) (Z.land (Z.shiftr x 24) 0xFF)).

(** The bytes of a word, lowest address first. *)
Fixpoint le_bytes (n : nat) (x : Z) : bytes :=
  match n with
  | O => []
  | S k => Z.land x 0xFF :: le_bytes k (Z.shiftr x 8)
  end.

Definition NormalizeIp (ip : WFXIpAddress) : WFXIpAddress :=
  if type ip =? AF_INET then
    let s_addr := le_word (take 4 (raw ip)) in
    IpAddress (le_bytes 4 (Z.land s_addr (htonl 0xFFFFFF00))) 0 (type ip)
  else IpAddress (take 8 (raw ip) ++ replicate 8 0) 0 (type ip).

Definition IsTrustedProxy (ip : WFXIpAddress) (ipConfig : IPConfig) : bool :=
  existsb (fun cidrText => match ParseCidr cidrText with
                           | Some block => CidrMatches ip block
                           | None => false
                           end) (trustedProxies ipConfig).

(** The walk over the hops, right to left; every turn drops a comma. *)
Fixpoint hop_loop (fuel : nat) (ipConfig : IPConfig) (candidate : bytes) : bytes :=
  match fuel with
  | O => candidate
  | S f =>
      let comma := rfind_char COMMA candidate in
      let hop := TrimView (match comma with None => candidate | Some i => drop (i + 1) candidate end) in
      if match ParseIpAddress hop with
         | None => true
         | Some hopIp => negb (IsTrustedProxy hopIp ipConfig)
         end
      then hop
      else match comma with
           | None => hop
           | Some i => hop_loop f ipConfig (take i candidate)
           end
  end.

Definition ResolveClientIp (peerIp : WFXIpAddress) (headers : list (bytes * bytes)) (ipConfig : IPConfig)
  : WFXIpAddress :=
  if (length (realIpHeader ipConfig) =? 0)%nat || negb (IsTrustedProxy peerIp ipConfig) then peerIp
  else
    let headerValue := GetHeader id [] (realIpHeader ipConfig) headers in
    if (length headerValue =? 0)%nat then peerIp
    else
      let candidate := if realIpRecursive ipConfig
                       then hop_loop (S (length headerValue)) ipConfig headerValue
                       else TrimView headerValue in
      match ParseIpAddress candidate with
      | None => peerIp
      | Some resolved => resolved
      end.

End parse.

(** ** Bits of an address *)

Lemma testbit_byte_high x n : is_byte x -> 8 <= n -> Z.testbit x n = false.
Proof.
  unfold is_byte. intros Hx Hn. rewrite <- (Z.mod_small x (2 ^ 8)) by lia. by apply Z.mod_pow2_bits_high.
Qed.

(** Two bytes agree on their bits from [s] up when they agree under the mask of
    their high bits. *)
Lemma high_bits_eq x y s :
  is_byte x -> is_byte y -> 0 <= s <= 8 ->
  (Z.land x (u8 (Z.shiftl 0xFF s)) =? Z.land y (u8 (Z.shiftl 0xFF s))) = true <->
  forall j, s <= j < 8 -> Z.testbit x j = Z.testbit y j.
Proof.
  intros Hx Hy Hs. assert (Hm : forall j, 0 <= j < 8 -> Z.testbit (u8 (Z.shiftl 0xFF s)) j = (s <=? j)).
  { intros j Hj. unfold wrap. rewrite Z.mod_pow2_bits_low, Z.shiftl_spec by lia. change 0xFF with (Z.ones 8).
    destruct (Z.leb_spec s j); [by apply Z.ones_spec_low; lia|by apply Z.testbit_neg_r; lia]. }
  rewrite Z.eqb_eq. split.
  - intros E j Hj. apply (f_equal (fun z => Z.testbit z j)) in E. rewrite !Z.land_spec, Hm in E by lia.
    destruct (Z.leb_spec s j); [|lia]. by rewrite !andb_true_r in E.
  - intros E. apply Z.bits_inj'. intros n Hn. rewrite !Z.land_spec.
    destruct (Z.lt_ge_cases n 8); [|by rewrite (testbit_byte_high x), (testbit_byte_high y)].
    rewrite Hm by lia. destruct (Z.leb_spec s n); [by rewrite E by lia|by rewrite !andb_false_r].
Qed.

Lemma byte_bits_eq x y : is_byte x -> is_byte y -> x = y <-> forall j, 0 <= j < 8 -> Z.testbit x j = Z.testbit y j.
Proof.
  intros Hx Hy. split; [by intros ->|]. intros E. apply Z.bits_inj'. intros n Hn.
  destruct (Z.lt_ge_cases n 8); [auto|by rewrite (testbit_byte_high x), (testbit_byte_high y)].
Qed.

(** Bit [k] of an address, most significant first. *)
Definition addr_bit (a : WFXIpAddress) (k : Z) : bool :=
  Z.testbit (at_ (raw a) (Z.to_nat (k / 8))) (7 - k mod 8).

Definition same_prefix (n : Z) (a b : WFXIpAddress) : Prop :=
  forall k, 0 <= k < n -> addr_bit a k = addr_bit b k.

Definition wf_ip (a : WFXIpAddress) : Prop :=
  (type a = AF_INET \/ type a = AF_INET6) /\ length (raw a) = addr_len (type a) /\ Forall is_byte (raw a).

Lemma take_eq_at (x y : bytes) n :
  (n <= length x)%nat -> (n <= length y)%nat ->
  take n x = take n y <-> forall i, (i < n)%nat -> at_ x i = at_ y i.
Proof.
  intros Hx Hy. split.
  - intros E i Hi. unfold at_. by rewrite <- (lookup_take_lt x n), E, lookup_take_lt.
  - revert x y Hx Hy. induction n as [|n IH]; intros x y Hx Hy E; [done|].
    assert (E' : take n x = take n y) by (apply IH; [lia|lia|]; intros i Hi; apply E; lia).
    by rewrite !take_S_at, E', (E n ltac:(lia)) by lia.
Qed.

Lemma bytes_same_prefix a b n :
  wf_ip a -> wf_ip b -> (n <= length (raw a))%nat -> (n <= length (raw b))%nat ->
  take n (raw a) = take n (raw b) <-> same_prefix (8 * Z.of_nat n) a b.
Proof.
  intros (_ & _ & Ha) (_ & _ & Hb) Hna Hnb. rewrite take_eq_at by done. unfold same_prefix, addr_bit. split.
  - intros E k Hk. rewrite E; [done|]. Z.to_euclidean_division_equations; lia.
  - intros E i Hi. apply byte_bits_eq; [by apply at_byte..|]. intros j Hj.
    specialize (E (8 * Z.of_nat i + (7 - j)) ltac:(lia)).
    replace ((8 * Z.of_nat i + (7 - j)) / 8) with (Z.of_nat i) in E by (Z.to_euclidean_division_equations; lia).
    replace (7 - (8 * Z.of_nat i + (7 - j)) mod 8) with j in E by (Z.to_euclidean_division_equations; lia).
    by rewrite Nat2Z.id in E.
Qed.

Lemma same_prefix_split a b q r :
  0 <= q -> 0 <= r < 8 ->
  same_prefix (8 * q + r) a b <->
  same_prefix (8 * q) a b /\
  forall j, 8 - r <= j < 8 -> Z.testbit (at_ (raw a) (Z.to_nat q)) j = Z.testbit (at_ (raw b) (Z.to_nat q)) j.
Proof.
  intros Hq Hr. unfold same_prefix, addr_bit. split.
  - intros E. split; [intros k Hk; apply E; lia|]. intros j Hj. specialize (E (8 * q + (7 - j)) ltac:(lia)).
    replace ((8 * q + (7 - j)) / 8) with q in E by (Z.to_euclidean_division_equations; lia).
    by replace (7 - (8 * q + (7 - j)) mod 8) with j in E by (Z.to_euclidean_division_equations; lia).
  - intros [E1 E2] k Hk. destruct (Z.lt_ge_cases k (8 * q)); [apply E1; lia|].
    replace (k / 8) with q by (Z.to_euclidean_division_equations; lia). apply E2.
    Z.to_euclidean_division_equations; lia.
Qed.

Lemma CidrMatches_bits ip b :
  wf_ip ip -> wf_ip (base b) -> 0 <= prefixLen b <= 8 * Z.of_nat (addr_len (type (base b))) ->
  CidrMatches ip b = true <-> type ip = type (base b) /\ same_prefix (prefixLen b) ip (base b).
Proof.
  intros Ha Hb Hp. unfold CidrMatches. destruct (Z.eqb_spec (type ip) (type (base b))) as [Et|Et]; cbn [negb];
    [|by split; [|intros []]].
  pose proof Ha as (_ & Hla & Hba). pose proof Hb as (_ & Hlb & Hbb). rewrite Et in Hla.
  set (q := prefixLen b / 8). set (r := prefixLen b mod 8).
  assert (Hq : prefixLen b = 8 * q + r /\ 0 <= q /\ 0 <= r < 8)
    by (unfold q, r; Z.to_euclidean_division_equations; lia).
  destruct Hq as (Eq & Hq & Hr). rewrite Eq, same_prefix_split by done.
  assert (E1 : same_prefix (8 * q) ip (base b) <->
               sv_eq (take (Z.to_nat q) (raw ip)) (take (Z.to_nat q) (raw (base b))) = true).
  { rewrite sv_eq_true, bytes_same_prefix by (done || lia). by rewrite Z2Nat.id by done. }
  destruct (sv_eq _ _) eqn:Es; cbn [negb].
  2:{ destruct (Nat.ltb_spec 0 (Z.to_nat q)) as [H0|H0]; cbn [andb].
      - split; [done|]. intros (_ & H & _). by apply E1 in H.
      - by replace (Z.to_nat q) with 0%nat in Es by lia. }
  rewrite andb_false_r. destruct (Z.ltb_spec 0 r) as [H0|H0].
  - rewrite high_bits_eq by (by apply at_byte || lia). tauto.
  - split; [|done]. intros _. split; [done|]. split; [tauto|]. intros j Hj. lia.
Qed.

(** ** The subnet key *)

Lemma NormalizeIp_v4 a x y z w p :
  is_byte x -> is_byte y -> is_byte z -> is_byte w ->
  a = IpAddress [x; y; z; w] p AF_INET -> NormalizeIp a = IpAddress [x; y; z; 0] 0 AF_INET.
Proof.
  intros Hx Hy Hz Hw ->. unfold NormalizeIp. cbn [type raw Z.eqb take].
  change (htonl 0xFFFFFF00) with (Z.ones 24). rewrite Z.land_ones by lia.
  set (v := le_word _). assert (E : v mod 2 ^ 24 = x + 256 * (y + 256 * z)).
  { unfold v. cbn [le_word]. unfold is_byte in *. Z.to_euclidean_division_equations. lia. }
  rewrite E. clear E v. unfold is_byte in *.
  assert (G : forall c u, 0 <= c < 256 -> Z.land (c + 256 * u) 0xFF = c /\ Z.shiftr (c + 256 * u) 8 = u).
  { intros c u Hc. change 0xFF with (Z.ones 8). rewrite Z.land_ones by lia. by apply lane_parts. }
  cbn [AF_INET Z.eqb Pos.eqb le_bytes]. destruct (G x (y + 256 * z) Hx) as [-> ->]. destruct (G y z Hy) as [-> ->].
  destruct (G z 0 Hz) as [Gz Gs]. rewrite Z.mul_0_r, Z.add_0_r in Gz, Gs. rewrite Gz, Gs. done.
Qed.

(** The bits of an address that its key keeps: a /24 or a /64. *)
Definition subnet_bits (type : Z) : Z := if type =? AF_INET then 24 else 64.

Lemma NormalizeIp_eq a :
  wf_ip a ->
  NormalizeIp a = IpAddress (take (Z.to_nat (subnet_bits (type a) / 8)) (raw a) ++
                             replicate (addr_len (type a) - Z.to_nat (subnet_bits (type a) / 8)) 0) 0 (type a).
Proof.
  intros (Ht & Hl & Hb). destruct a as [r p t]. cbn [type raw] in *. destruct Ht as [-> | ->].
  - destruct r as [|x [|y [|z [|w [|]]]]]; try discriminate Hl.
    apply Forall_cons in Hb as [Hx Hb]. apply Forall_cons in Hb as [Hy Hb].
    apply Forall_cons in Hb as [Hz Hb]. apply Forall_cons in Hb as [Hw _].
    by rewrite (NormalizeIp_v4 _ x y z w p).
  - done.
Qed.

Lemma NormalizeIp_wf a : wf_ip a -> wf_ip (NormalizeIp a).
Proof.
  intros W. rewrite NormalizeIp_eq by done. destruct W as (Ht & Hl & Hb). split; [done|]. split.
  - cbn [raw type]. rewrite length_app, length_take, length_replicate, Hl. by destruct Ht as [-> | ->].
  - apply Forall_app. split; [by apply Forall_take|]. apply Forall_replicate. unfold is_byte. lia.
Qed.

Lemma subnet_len a : wf_ip a -> (Z.to_nat (subnet_bits (type a) / 8) <= length (raw a))%nat.
Proof. intros (Ht & Hl & _). rewrite Hl. by destruct Ht as [-> | ->]; vm_compute; repeat constructor. Qed.

(** ** The hop walk *)

Lemma rfind_char_spec c l :
  match rfind_char c l with
  | None => c ∉ l
  | Some i => l = take i l ++ c :: drop (i + 1) l /\ (c ∉ drop (i + 1) l) /\ (i < length l)%nat
  end.
Proof.
  induction l as [|x l IH]; cbn [rfind_char]; [by apply not_elem_of_nil|].
  destruct (rfind_char c l) as [i|].
  - destruct IH as (E & Hn & Hi). cbn [take drop plus length app]. rewrite <- E. repeat split; [done|lia].
  - destruct (Z.eqb_spec x c) as [->|Hne]; cbn [take drop plus length app]; [by repeat split; [|lia]|].
    apply not_elem_of_cons. by split.
Qed.

Section resolve.
Context (inet_pton : Z -> bytes -> option bytes) (ipConfig : IPConfig).

(** A hop that parses to a trusted proxy's address. *)
Definition trusted_hop (hop : bytes) : bool :=
  match ParseIpAddress inet_pton hop with
  | Some a => IsTrustedProxy inet_pton a ipConfig
  | None => false
  end.

(** The first hop, right to left, that is not one; the leftmost when all are. *)
Fixpoint pick_hop (hops : list bytes) : bytes :=
  match hops with
  | [] => []
  | [h] => h
  | h :: r => if trusted_hop h then pick_hop r else h
  end.

Definition hops (value : bytes) : list bytes := rev (map TrimView (split_on COMMA value)).

Lemma hops_app l r : hops (l ++ COMMA :: r) = hops r ++ hops l.
Proof. unfold hops. by rewrite split_on_app, map_app, rev_app_distr. Qed.

Lemma hops_nonempty l : hops l <> [].
Proof.
  unfold hops. intros H%(f_equal (@length _)). rewrite length_rev, length_map in H. cbn in H.
  by apply nil_length_inv, split_on_nonempty in H.
Qed.

Lemma hop_loop_spec fuel v : (length v < fuel)%nat -> hop_loop inet_pton fuel ipConfig v = pick_hop (hops v).
Proof.
  revert v. induction fuel as [|f IH]; intros v Hf; [lia|]. cbn [hop_loop].
  pose proof (rfind_char_spec COMMA v) as H.
  assert (G : forall h, (match ParseIpAddress inet_pton h with
                         | None => true | Some a => negb (IsTrustedProxy inet_pton a ipConfig) end)
                        = negb (trusted_hop h)) by (intros h; unfold trusted_hop; by destruct (ParseIpAddress _ _)).
  destruct (rfind_char COMMA v) as [i|]; rewrite G.
  - destruct H as (E & Hn & Hi). 
    pose proof (hops_app (take i v) (drop (i + 1) v)) as Hh. rewrite <- E in Hh. rewrite Hh.
    unfold hops at 1. rewrite split_on_none by done. cbn [map rev app].
    pose proof (hops_nonempty (take i v)). destruct (hops (take i v)) as [|h r] eqn:Eh; [done|].
    cbn [pick_hop]. destruct (trusted_hop _); cbn [negb]; [|done].
    change (hop_loop inet_pton f ipConfig (take i v) = pick_hop (h :: r)). rewrite <- Eh. apply IH.
    rewrite length_take. lia.
  - unfold hops. rewrite split_on_none by done. cbn. by destruct (trusted_hop _).
Qed.

Lemma pick_hop_app l r : existsb (fun h => negb (trusted_hop h)) l = true -> pick_hop (l ++ r) = pick_hop l.
Proof.
  induction l as [|h l IH]; [done|]. cbn [existsb app]. intros H.
  destruct l as [|h' l]; cbn [app] in *.
  - cbn in H. rewrite orb_false_r in H. apply negb_true_iff in H. destruct r; cbn; [done|by rewrite H].
  - cbn [pick_hop]. destruct (trusted_hop h) eqn:E; [|done]. cbn in H. by apply IH.
Qed.

(** The address a header value resolves to. *)
Definition header_ip (value : bytes) : option WFXIpAddress :=
  ParseIpAddress inet_pton (if realIpRecursive ipConfig then pick_hop (hops value) else TrimView value).

Lemma ResolveClientIp_eq peer hs :
  ResolveClientIp inet_pton peer hs ipConfig =
  let value := GetHeader id [] (realIpHeader ipConfig) hs in
  if (length (realIpHeader ipConfig) =? 0)%nat || negb (IsTrustedProxy inet_pton peer ipConfig) ||
     (length value =? 0)%nat
  then peer else default peer (header_ip value).
Proof.
  unfold ResolveClientIp, header_ip. cbv zeta.
  destruct (_ =? 0)%nat; [done|]. destruct (IsTrustedProxy _ _ _); [|done]. cbn [negb orb].
  destruct (length (GetHeader _ _ _ _) =? 0)%nat; [done|].
  rewrite hop_loop_spec by lia. by destruct (ParseIpAddress _ _).
Qed.

End resolve.

(** ** Properties *)

(** A CIDR block matches exactly the addresses of its family that share its
    first [prefixLen] bits, and the limiters' key identifies exactly the addresses
    of one /24 (IPv4) or /64 (IPv6): two addresses have the same key when one
    matches the block of the other, whatever their ports.  Keys are normalised:
    normalising one again changes nothing. *)
Theorem subnet_key_spec (a b : WFXIpAddress) (n : Z) :
  wf_ip a -> wf_ip b -> 0 <= n <= 8 * Z.of_nat (addr_len (type b)) ->
  (CidrMatches a (Cidr b n) = true <-> type a = type b /\ same_prefix n a b) /\
  (NormalizeIp a = NormalizeIp b <-> CidrMatches a (Cidr b (subnet_bits (type b))) = true) /\
  NormalizeIp (NormalizeIp a) = NormalizeIp a.
Proof.
  intros Ha Hb Hn. split; [by apply CidrMatches_bits|]. pose proof Ha as (Hta & _). pose proof Hb as (Htb & _).
  pose proof (subnet_len a Ha) as La. pose proof (subnet_len b Hb) as Lb. split.
  - rewrite CidrMatches_bits by (done || (cbn; destruct Htb as [-> | ->]; vm_compute; split; congruence)).
    cbn [base prefixLen]. rewrite !NormalizeIp_eq by done. split.
    + intros [= E Et]. rewrite Et in *. split; [done|].
      apply app_inj_1 in E as [E _]; [|by rewrite !length_take_le].
      apply bytes_same_prefix in E; [|done..]. by destruct Htb as [Et' | Et']; rewrite Et' in E |- *.
    + intros [Et E]. rewrite Et in La |- *. f_equal. f_equal. apply bytes_same_prefix; [done..|].
      by destruct Htb as [Et' | Et']; rewrite Et' in E |- *.
  - rewrite (NormalizeIp_eq (NormalizeIp a)) by (by apply NormalizeIp_wf). rewrite (NormalizeIp_eq a) by done.
    cbn [raw type]. rewrite take_app_length' by (by rewrite length_take_le). done.
Qed.

(** A stand-in for [inet_pton] that knows three addresses. *)
Definition toy_pton (af : Z) (text : bytes) : option bytes :=
  if negb (af =? AF_INET) then None
  else if sv_eq text (lit "10.0.0.1") then Some [10; 0; 0; 1]
  else if sv_eq text (lit "9.9.9.9") then Some [9; 9; 9; 9]
  else if sv_eq text (lit "10.0.0.0") then Some [10; 0; 0; 0]
  else None.

Lemma w_wf_ip x y z w : forallb (fun c => (0 <=? c) && (c <? 256)) [x; y; z; w] = true ->
  wf_ip (IpAddress [x; y; z; w] 80 AF_INET).
Proof. intros H. split; [by left|]. split; [done|]. by apply bytes_by_eval. Qed.

Lemma subnet_key_spec_witness :
  NormalizeIp (IpAddress [10; 0; 0; 1] 80 AF_INET) = NormalizeIp (IpAddress [10; 0; 0; 9] 80 AF_INET).
Proof.
  pose proof (w_wf_ip 10 0 0 1 eq_refl) as Ha. pose proof (w_wf_ip 10 0 0 9 eq_refl) as Hb.
  destruct (subnet_key_spec _ _ 8 Ha Hb ltac:(vm_compute; split; congruence)) as (_ & H & _).
  apply H. reflexivity.
Defined.

(** C31: a client cannot choose the address it is limited by.  From a peer that is
    not a trusted proxy the headers are ignored; from one that is, with recursive
    resolution, the value's hops are trimmed and read right to left, and as soon as
    some hop of [chain] is not a trusted proxy, nothing written to the left of
    [chain] has any influence. *)
Theorem client_ip_not_spoofable inet_pton ipConfig peer hs hs' spoof spoof' chain :
  (IsTrustedProxy inet_pton peer ipConfig = false -> ResolveClientIp inet_pton peer hs ipConfig = peer) /\
  (realIpRecursive ipConfig = true ->
   GetHeader id [] (realIpHeader ipConfig) hs = spoof ++ COMMA :: chain ->
   GetHeader id [] (realIpHeader ipConfig) hs' = spoof' ++ COMMA :: chain ->
   Exists (fun hop => trusted_hop inet_pton ipConfig hop = false) (map TrimView (split_on COMMA chain)) ->
   ResolveClientIp inet_pton peer hs ipConfig = ResolveClientIp inet_pton peer hs' ipConfig).
Proof.
  split.
  - intros Ht. rewrite ResolveClientIp_eq. cbv zeta. rewrite Ht. cbn [negb]. by rewrite orb_true_r.
  - intros Hr E E' Hex. rewrite !ResolveClientIp_eq. cbv zeta. rewrite E, E'.
    unfold header_ip. rewrite Hr, !hops_app, !pick_hop_app.
    + assert (L : forall s, (length (s ++ COMMA :: chain) =? 0)%nat = false)
        by (intros s; apply Nat.eqb_neq; rewrite length_app; cbn; lia). by rewrite !L.
    + apply existsb_exists. apply Exists_exists in Hex as (h & Hin & Hh). exists h.
      unfold hops. rewrite <- in_rev, <- list_elem_of_In, Hh. done.
    + apply existsb_exists. apply Exists_exists in Hex as (h & Hin & Hh). exists h.
      unfold hops. rewrite <- in_rev, <- list_elem_of_In, Hh. done.
Qed.

Definition w_cfg : IPConfig := MkIPConfig 20 10 5 64 true (lit "X-Forwarded-For") [lit "10.0.0.0/8"].

Lemma client_ip_not_spoofable_witness :
  ResolveClientIp toy_pton (IpAddress [10; 0; 0; 1] 80 AF_INET)
    [(lit "X-Forwarded-For", lit "1.2.3.4,9.9.9.9, 10.0.0.1")] w_cfg = IpAddress [9; 9; 9; 9] 0 AF_INET.
Proof.
  destruct (client_ip_not_spoofable toy_pton w_cfg (IpAddress [10; 0; 0; 1] 80 AF_INET)
    [(lit "X-Forwarded-For", lit "1.2.3.4,9.9.9.9, 10.0.0.1")]
    [(lit "x-forwarded-for", lit "spoofed,9.9.9.9, 10.0.0.1")]
    (lit "1.2.3.4") (lit "spoofed") (lit "9.9.9.9, 10.0.0.1")) as [_ H].
  rewrite H; [vm_compute; reflexivity|reflexivity|reflexivity|reflexivity|].
  apply Exists_cons_hd. vm_compute. reflexivity.
Defined.

End IpUtils.
