(* ===== verification/ShardMap.v ===== *)
(** * ShardMap: the finite-map interface of the hash shard

    What the limiters need of an index: the class states the operations they call
    and the laws they rely on, and the instance discharges it for [HashShard].
    [map_store] is an assignment through the pointer [Get] or [GetOrInsert]
    returned, before any other operation of the shard. *)

From S2P Require Import Prelude Swar Probe HashShard.
Import HashShard.

Module ShardMap.

Class FiniteMap (K V S : Type) `{Countable K} := {
  map_get : K -> S -> outcome (option V);
  map_insert : K -> V -> S -> outcome (S * bool);
  map_get_or_insert : K -> V -> S -> outcome (S * option V);
  map_erase : K -> S -> outcome (S * bool);
  map_store : K -> (V -> V) -> S -> outcome S;
  map_rep : S -> gmap K V -> Prop;
  map_room : S -> Prop;

  map_get_ok k s m : map_rep s m -> map_get k s = Ret (m !! k);
  map_insert_ok k v s m :
    map_rep s m -> map_room s -> exists s', map_insert k v s = Ret (s', true) /\ map_rep s' (<[k := v]> m);
  map_get_or_insert_ok k v s m :
    map_rep s m -> map_room s ->
    exists s', map_get_or_insert k v s = Ret (s', Some (default v (m !! k))) /\
               map_rep s' (<[k := default v (m !! k)]> m);
  map_erase_ok k s m :
    map_rep s m -> exists s', map_erase k s = Ret (s', bool_decide (is_Some (m !! k))) /\ map_rep s' (delete k m) /\
                              (map_room s -> map_room s');
  map_store_ok k f s m :
    map_rep s m -> exists s', map_store k f s = Ret s' /\ map_rep s' (alter f k m)
}.

(** ** The shard *)

Section shard.
Context {K V : Type} `{Countable K} (std_hash : K -> Z) (entry_size : Z) (Alloc_ok : Z -> bool).

(** Assigning [f v] through the pointer [Get] returns to a value [v]; nothing happens
    on [nullptr]. *)
Definition Store (key : K) (f : V -> V) (s : @shard K V) : outcome (@shard K V) :=
  match s with
  | None => Ret None
  | Some t =>
      let* slot := FindSlot std_hash (entries_ t) (meta_ t) (capacity_ t) key in
      if negb (s_found slot) then Ret (Some t)
      else Ret (Some (Table (alter (fmap (fun e => (fst e, f (snd e)))) (s_pos slot) (entries_ t))
                            (meta_ t) (capacity_ t) (initialBucketCapacity_ t) (size_ t) (deletedCount_ t)))
  end.

Lemma Store_ok key f s (m : gmap K V) :
  represents std_hash s m -> exists s', Store key f s = Ret s' /\ represents std_hash s' (alter f key m).
Proof.
  intros (t & -> & Hi & <-). pose proof Hi as (k & Hk & Hlt).
  destruct (inv_empty std_hash k t Hk Hlt) as (g & Hg & He). pose proof Hk as (Hc & _).
  cbn [Store]. destruct (FindSlot_cases std_hash k _ _ _ key g Hc Hg He) as [(p & h2 & -> & Hp)|(p & n & -> & Habs & _)];
    cbn [obind s_found s_pos negb].
  - pose proof (value_at _ p key Hp (co_unique _ _ _ _ _ Hc)) as Hv. apply key_at_entry in Hp as [v Hp].
    rewrite Hp in Hv. cbn in Hv. eexists. split; [done|].
    destruct (set_value_spec std_hash k t p key v (f v) Hk Hp) as [Hk' Hm].
    eexists. split; [done|]. rewrite (alter_entry _ f p key v Hp). split; [by exists k|].
    etransitivity; [exact Hm|]. apply map_eq. intros key'. destruct (decide (key' = key)) as [->|Hne].
    + rewrite lookup_insert_eq, lookup_alter_eq. unfold map_of. by rewrite <- Hv.
    + by rewrite lookup_insert_ne, lookup_alter_ne by done.
  - eexists. split; [done|]. exists t. split; [done|]. split; [done|].
    assert (Hn : map_of t !! key = None) by (by apply contents_None; [exact (co_unique _ _ _ _ _ Hc)|]).
    apply map_eq. intros key'. destruct (decide (key' = key)) as [->|Hne].
    + by rewrite lookup_alter_eq, Hn.
    + by rewrite lookup_alter_ne.
Qed.

#[export] Instance shard_map : FiniteMap K V (@shard K V).
Proof.
  refine {| map_get := Get std_hash;
            map_insert := Insert std_hash entry_size Alloc_ok;
            map_get_or_insert := GetOrInsert std_hash entry_size Alloc_ok;
            map_erase := Erase std_hash;
            map_store := Store;
            map_rep := represents std_hash;
            map_room := has_memory entry_size Alloc_ok |}.
  - intros k s m (t & -> & Hi & <-). by apply get_table_spec.
  - intros k v s m (t & -> & Hi & <-) Hmem. cbn in Hmem. unfold Insert, InsertOrGet.
    destruct (insert_or_get_spec std_hash entry_size Alloc_ok k v true t Hi Hmem) as (t' & E & Hi' & Hm).
    exists (Some t'). rewrite E. split; [done|]. by exists t'.
  - intros k v s m (t & -> & Hi & <-) Hmem. cbn in Hmem. unfold GetOrInsert, InsertOrGet.
    destruct (insert_or_get_spec std_hash entry_size Alloc_ok k v false t Hi Hmem) as (t' & E & Hi' & Hm).
    exists (Some t'). rewrite E. split; [done|]. by exists t'.
  - intros k s m (t & -> & Hi & <-). destruct (erase_table_spec std_hash k t Hi) as (t' & E & Hi' & Hm & Hc).
    exists (Some t'). unfold Erase. rewrite E. split; [done|]. split; [by exists t'|].
    cbn. unfold memory_ok. by rewrite Hc.
  - exact Store_ok.
Defined.

End shard.

End ShardMap.
