(* ===== verification/TimerHeap.v ===== *)
(** * TimerHeap: [utils/timer/timer_heap.cpp]

    The binary heap of coroutine timers, with an index from an entry's id to its
    position.  The index is any implementation of the map interface of [ShardMap]; the
    heap is proved to be a queue by priority over a finite map from ids to deadlines. *)

From S2P Require Import Prelude Swar Probe HashShard ShardMap.
Import ShardMap.

Module TimerHeap.

Record TimerNode := Node { data : Z; delay : Z; heapIdx : nat }.
Definition set_heapIdx (i : nat) (n : TimerNode) : TimerNode := Node (data n) (delay n) i.
Definition no_node : TimerNode := Node 0 0 0.
Definition node_at (h : list TimerNode) (i : nat) : TimerNode := default no_node (h !! i).

Record TimerHeap (Index : Type) := Heap { heap_ : list TimerNode; idMap_ : Index }.
Arguments Heap {Index} _ _.
Arguments heap_ {Index} _.
Arguments idMap_ {Index} _.

(** To the nearest multiple of [delta], on 64 bits. *)
Definition RoundToBucket (expire delta : Z) : Z :=
  if delta =? 0 then expire else let half := Z.shiftr delta 1 in u64 (u64 (expire + half) / delta * delta).

Section heap.
Context {Index : Type} {FM : FiniteMap Z nat Index}.

(** [if(auto* p = idMap_.Get(data)) *p = idx;] *)
Definition set_index (d : Z) (i : nat) (m : Index) : outcome Index := map_store d (fun _ => i) m.

(** The nodes at two places change places, and the index follows. *)
Definition SwapNodes (i j : nat) (t : TimerHeap Index) : outcome (TimerHeap Index) :=
  let lhs := set_heapIdx i (node_at (heap_ t) j) in
  let rhs := set_heapIdx j (node_at (heap_ t) i) in
  let h := <[j := rhs]> (<[i := lhs]> (heap_ t)) in
  let* m := set_index (data lhs) i (idMap_ t) in
  let* m := set_index (data rhs) j m in
  Ret (Heap h m).

Definition parent (i : nat) : nat := ((i - 1) / 2)%nat.

Fixpoint sift_up (fuel : nat) (idx : nat) (t : TimerHeap Index) : outcome (nat * TimerHeap Index) :=
  match fuel with
  | O => Ret (idx, t)
  | S f =>
      if (idx =? 0)%nat then Ret (idx, t)
      else if delay (node_at (heap_ t) (parent idx)) <=? delay (node_at (heap_ t) idx) then Ret (idx, t)
      else let* t := SwapNodes idx (parent idx) t in sift_up f (parent idx) t
  end.

(** The smallest of a node and its children. *)
Definition smallest_of (h : list TimerNode) (idx : nat) : nat :=
  let l := (2 * idx + 1)%nat in
  let r := (2 * idx + 2)%nat in
  let smallest := if (l <? length h)%nat && (delay (node_at h l) <? delay (node_at h idx)) then l else idx in
  if (r <? length h)%nat && (delay (node_at h r) <? delay (node_at h smallest)) then r else smallest.

Fixpoint sift_down (fuel : nat) (idx : nat) (t : TimerHeap Index) : outcome (TimerHeap Index) :=
  match fuel with
  | O => Ret t
  | S f =>
      let smallest := smallest_of (heap_ t) idx in
      if (smallest =? idx)%nat then Ret t else let* t := SwapNodes idx smallest t in sift_down f smallest t
  end.

Definition FixHeap (idx : nat) (t : TimerHeap Index) : outcome (TimerHeap Index) :=
  let* p := sift_up (S idx) idx t in
  let '(idx, t) := p in sift_down (S (length (heap_ t))) idx t.

Definition Insert (d dl delta : Z) (t : TimerHeap Index) : outcome (TimerHeap Index * bool) :=
  let* known := map_get d (idMap_ t) in
  match known with
  | Some _ => Ret (t, false)
  | None =>
      let dl := RoundToBucket dl delta in
      let idx := length (heap_ t) in
      let h := heap_ t ++ [Node d dl idx] in
      let* p := map_insert d idx (idMap_ t) in
      let '(m, inserted) := p in
      if negb inserted then Fatal "[TimerHeap]: idMap_ insert unexpectedly failed for a key just confirmed absent"%string
      else let* t := FixHeap idx (Heap h m) in Ret (t, true)
  end.

Definition Remove (d : Z) (t : TimerHeap Index) : outcome (TimerHeap Index * bool) :=
  let* idxPtr := map_get d (idMap_ t) in
  match idxPtr with
  | None => Ret (t, false)
  | Some idx =>
      let lastIdx := (length (heap_ t) - 1)%nat in
      let* p := map_erase d (idMap_ t) in
      let m := fst p in
      let* t :=
        (if negb (idx =? lastIdx)%nat then
           let moved := set_heapIdx idx (node_at (heap_ t) lastIdx) in
           let* m := set_index (data moved) idx m in
           Ret (Heap (<[idx := moved]> (heap_ t)) m)
         else Ret (Heap (heap_ t) m)) in
      let t := Heap (take lastIdx (heap_ t)) (idMap_ t) in
      let* t := (if (idx <? length (heap_ t))%nat then FixHeap idx t else Ret t) in
      Ret (t, true)
  end.

Definition GetMin (t : TimerHeap Index) : option TimerNode := head (heap_ t).
Definition Size (t : TimerHeap Index) : nat := length (heap_ t).

(** The id of an entry that is due, taken out of the heap. *)
Definition PopExpired (now : Z) (t : TimerHeap Index) : outcome (TimerHeap Index * option Z) :=
  match heap_ t with
  | [] => Ret (t, None)
  | min :: _ =>
      if now <? delay min then Ret (t, None)
      else
        let outData := data min in
        let* p := Remove outData t in
        let '(t, removed) := p in Ret (t, if (removed : bool) then Some outData else None)
  end.

(** ** Specification *)

(** The index and the back pointers agree with the heap. *)
Definition linked (h : list TimerNode) (m : Index) : Prop :=
  exists im : gmap Z nat, map_rep m im /\
    (forall d i, im !! d = Some i <-> exists n, h !! i = Some n /\ data n = d) /\ (forall i n, h !! i = Some n -> heapIdx n = i).

Definition key (h : list TimerNode) (i : nat) : Z := delay (node_at h i).

(** A node is not smaller than its parent. *)
Definition edge (h : list TimerNode) (i : nat) : Prop := (0 < i < length h)%nat -> key h (parent i) <= key h i.
Definition heap_order (h : list TimerNode) : Prop := forall i, edge h i.

(** The entries of the heap. *)
Definition entries (h : list TimerNode) (m : gmap Z Z) : Prop :=
  forall d v, m !! d = Some v <-> exists i n, h !! i = Some n /\ data n = d /\ delay n = v.

Definition represents (t : TimerHeap Index) (m : gmap Z Z) : Prop := linked (heap_ t) (idMap_ t) /\ heap_order (heap_ t) /\ entries (heap_ t) m.

(** *** Swapping *)

Definition swapped (i j : nat) (h : list TimerNode) : list TimerNode :=
  <[j := set_heapIdx j (node_at h i)]> (<[i := set_heapIdx i (node_at h j)]> h).

Lemma heap_lookup h i : (i < length h)%nat -> h !! i = Some (node_at h i).
Proof. intros Hi. unfold node_at. destruct (h !! i) eqn:E; [done|]. apply lookup_ge_None in E. lia. Qed.

Lemma swapped_length i j h : length (swapped i j h) = length h.
Proof. unfold swapped. by rewrite !length_insert. Qed.

Lemma swapped_lookup i j h k : (i < length h)%nat -> (j < length h)%nat -> i <> j ->
  swapped i j h !! k = if decide (k = i) then Some (set_heapIdx i (node_at h j)) else if decide (k = j) then Some (set_heapIdx j (node_at h i)) else h !! k.
Proof.
  intros Hi Hj Hij. unfold swapped. destruct (decide (k = i)) as [->|Hk].
  - rewrite list_lookup_insert_ne, list_lookup_insert_eq by done. done.
  - destruct (decide (k = j)) as [->|Hk']; [by rewrite list_lookup_insert_eq by (by rewrite length_insert)|]. by rewrite !list_lookup_insert_ne.
Qed.

Lemma swapped_key i j h k : (i < length h)%nat -> (j < length h)%nat -> i <> j ->
  key (swapped i j h) k = if decide (k = i) then key h j else if decide (k = j) then key h i else key h k.
Proof. intros Hi Hj Hij. unfold key, node_at at 1. rewrite swapped_lookup by done. by repeat destruct (decide _). Qed.

(** Two heaps with the same entries. *)
Definition same_heap (h h' : list TimerNode) : Prop := length h' = length h /\ forall m, entries h m -> entries h' m.

Lemma swapped_entries i j h : (i < length h)%nat -> (j < length h)%nat -> i <> j -> same_heap h (swapped i j h).
Proof.
  intros Hi Hj Hij. split; [apply swapped_length|]. intros m He d v. rewrite (He d v). split.
  - intros (k & n & Hk & <- & <-). destruct (decide (k = i)) as [->|H1]; [|destruct (decide (k = j)) as [->|H2]].
    + exists j. eexists. rewrite swapped_lookup, decide_False, decide_True by done. split; [done|]. rewrite heap_lookup in Hk by done. by injection Hk as <-.
    + exists i. eexists. rewrite swapped_lookup, decide_True by done. split; [done|]. rewrite heap_lookup in Hk by done. by injection Hk as <-.
    + exists k, n. by rewrite swapped_lookup, !decide_False.
  - intros (k & n & Hk & <- & <-). rewrite swapped_lookup in Hk by done. destruct (decide (k = i)) as [->|H1]; [|destruct (decide (k = j)) as [->|H2]].
    + injection Hk as <-. exists j. eexists. by rewrite heap_lookup.
    + injection Hk as <-. exists i. eexists. by rewrite heap_lookup.
    + by exists k, n.
Qed.

Lemma SwapNodes_ok i j h m : linked h m -> (i < length h)%nat -> (j < length h)%nat -> i <> j ->
  exists m', SwapNodes i j (Heap h m) = Ret (Heap (swapped i j h) m') /\ linked (swapped i j h) m'.
Proof.
  intros (im & Hm & Hi1 & Hi2) Hi Hj Hij. unfold SwapNodes, set_index. cbn [heap_ idMap_].
  destruct (map_store_ok (data (set_heapIdx i (node_at h j))) (fun _ => i) m im Hm) as (m1 & -> & R1). cbn [obind].
  destruct (map_store_ok (data (set_heapIdx j (node_at h i))) (fun _ => j) m1 _ R1) as (m2 & -> & R2). cbn [obind].
  exists m2. split; [done|]. eexists. split; [exact R2|]. cbn [data set_heapIdx].
  assert (Hd : data (node_at h i) <> data (node_at h j)).
  { intros E. apply Hij. assert (im !! data (node_at h i) = Some i) as A by (apply Hi1; eexists; by rewrite heap_lookup).
    assert (im !! data (node_at h i) = Some j) as B by (apply Hi1; rewrite E; eexists; by rewrite heap_lookup). congruence. }
  assert (Li : im !! data (node_at h i) = Some i) by (apply Hi1; eexists; by rewrite heap_lookup).
  assert (Lj : im !! data (node_at h j) = Some j) by (apply Hi1; eexists; by rewrite heap_lookup).
  split.
  - intros d k. rewrite lookup_alter. destruct (decide (data (node_at h i) = d)) as [<-|N1].
    + rewrite lookup_alter_ne, Li by done. cbn. split.
      * intros [= <-]. eexists. by rewrite swapped_lookup, decide_False, decide_True.
      * intros (n & Hn & Hdn). f_equal. rewrite swapped_lookup in Hn by done. destruct (decide (k = i)) as [->|]; [injection Hn as <-; by cbn in Hdn|].
        destruct (decide (k = j)) as [->|]; [done|]. assert (im !! data (node_at h i) = Some k) as E by (apply Hi1; by exists n). congruence.
    + rewrite lookup_alter. destruct (decide (data (node_at h j) = d)) as [<-|N2].
      * rewrite Lj. cbn. split; [intros [= <-]; eexists; by rewrite swapped_lookup, decide_True|].
        intros (n & Hn & Hdn). f_equal. rewrite swapped_lookup in Hn by done. destruct (decide (k = i)) as [->|]; [done|].
        destruct (decide (k = j)) as [->|]; [injection Hn as <-; by cbn in Hdn|]. assert (im !! data (node_at h j) = Some k) as E by (apply Hi1; by exists n). congruence.
      * rewrite Hi1, swapped_lookup by done. destruct (decide (k = i)) as [->|]; [|destruct (decide (k = j)) as [->|]; [|done]].
        -- rewrite heap_lookup by done. split; [intros (e & [= <-] & E); by rewrite E in N1|intros (e & [= <-] & E); by cbn in E; rewrite E in N2].
        -- rewrite heap_lookup by done. split; [intros (e & [= <-] & E); by rewrite E in N2|intros (e & [= <-] & E); by cbn in E; rewrite E in N1].
  - intros k n. rewrite swapped_lookup by done. destruct (decide (k = i)) as [->|]; [by intros [= <-]|]. destruct (decide (k = j)) as [->|]; [by intros [= <-]|]. apply Hi2.
Qed.

(** *** Restoring the order *)

(** Every edge but those at [idx] is in order, and those around it would be. *)
Definition almost (idx : nat) (h : list TimerNode) : Prop :=
  (forall i, i <> idx -> parent i <> idx -> edge h i) /\
  (forall c, (0 < idx)%nat -> (0 < c < length h)%nat -> parent c = idx -> key h (parent idx) <= key h c).

(** Only the edges to the children are left. *)
Definition sinking (idx : nat) (h : list TimerNode) : Prop := almost idx h /\ edge h idx.

Lemma parent_lt i : (0 < i)%nat -> (parent i < i)%nat.
Proof. intros H. unfold parent. apply Nat.Div0.div_lt_upper_bound. lia. Qed.

Lemma parent_children i c : (0 < c)%nat -> parent c = i <-> c = (2 * i + 1)%nat \/ c = (2 * i + 2)%nat.
Proof. intros H. unfold parent. pose proof (Nat.div_mod_eq (c - 1) 2). pose proof (Nat.mod_upper_bound (c - 1) 2). lia. Qed.

Lemma up_step h idx : almost idx h -> (0 < idx < length h)%nat -> key h idx < key h (parent idx) -> almost (parent idx) (swapped idx (parent idx) h).
Proof.
  intros [A1 A2] Hi Hlt. pose proof (parent_lt idx (proj1 Hi)) as Hp. set (p := parent idx) in *.
  assert (K : forall k, key (swapped idx p h) k = if decide (k = idx) then key h p else if decide (k = p) then key h idx else key h k) by (intros k; apply swapped_key; lia).
  split.
  - intros i H1 H2 H3. rewrite swapped_length in H3. rewrite !K. rewrite (decide_False (P := i = p)), (decide_False (P := parent i = p)) by done.
    destruct (decide (i = idx)) as [->|N1]; [done|]. destruct (decide (parent i = idx)) as [E|N2]; [apply A2; [apply Hi|done|done]|by apply A1].
  - intros c H1 H2 H3. rewrite swapped_length in H2. rewrite !K. pose proof (parent_lt p H1) as Hpp. rewrite (decide_False (P := parent p = idx)), (decide_False (P := parent p = p)) by lia.
    assert (E1 : key h (parent p) <= key h p) by (apply A1; [lia|lia|lia]). destruct (decide (c = idx)) as [->|N1]; [done|]. rewrite (decide_False (P := c = p)) by (intros ->; lia).
    assert (E2 : key h p <= key h c) by (rewrite <- H3; apply A1; [done|lia|lia]). lia.
Qed.

Lemma up_stop h idx : almost idx h -> (idx < length h)%nat -> (idx = 0)%nat \/ key h (parent idx) <= key h idx -> sinking idx h.
Proof. intros A Hi H. split; [done|]. intros H1. destruct H as [->|H]; [lia|done]. Qed.

Lemma down_step h idx s : sinking idx h -> (0 < s < length h)%nat -> parent s = idx -> key h s <= key h idx ->
  (forall c, (0 < c < length h)%nat -> parent c = idx -> key h s <= key h c) -> sinking s (swapped idx s h).
Proof.
  intros [[A1 A2] A3] Hs Hp Hlt Hmin. pose proof (parent_lt s (proj1 Hs)) as Hps. rewrite Hp in Hps.
  assert (K : forall k, key (swapped idx s h) k = if decide (k = idx) then key h s else if decide (k = s) then key h idx else key h k) by (intros k; apply swapped_key; lia).
  split; [split|].
  - intros i H1 H2 H3. rewrite swapped_length in H3. rewrite !K. rewrite (decide_False (P := i = s)), (decide_False (P := parent i = s)) by done.
    destruct (decide (i = idx)) as [->|N1].
    + pose proof (parent_lt idx (proj1 H3)). rewrite decide_False by lia. apply A2; [lia|lia|done].
    + destruct (decide (parent i = idx)) as [E|N2]; [by apply Hmin|]. by apply A1.
  - intros c H1 H2 H3. rewrite swapped_length in H2. rewrite Hp, !K, decide_True by done. pose proof (parent_lt c (proj1 H2)).
    rewrite !decide_False by lia. rewrite <- H3. apply A1; [lia|lia|lia].
  - intros _. rewrite Hp, !K. rewrite decide_True, decide_False, decide_True by (done || lia). done.
Qed.

Lemma down_stop h idx : sinking idx h -> (forall c, (0 < c < length h)%nat -> parent c = idx -> key h idx <= key h c) -> heap_order h.
Proof.
  intros [[A1 A2] A3] Hmin i. destruct (decide (i = idx)) as [->|N1]; [done|]. destruct (decide (parent i = idx)) as [E|N2]; [|by apply A1].
  intros Hi. rewrite E. by apply Hmin.
Qed.

Lemma smallest_spec h idx : (idx < length h)%nat -> let s := smallest_of h idx in
  (s < length h)%nat /\ (s = idx \/ (0 < s)%nat /\ parent s = idx) /\ key h s <= key h idx /\ (forall c, (0 < c < length h)%nat -> parent c = idx -> key h s <= key h c).
Proof.
  intros Hi. cbv zeta. unfold smallest_of. fold (key h idx) (key h (2 * idx + 1)). set (l := (2 * idx + 1)%nat). set (r := (2 * idx + 2)%nat).
  assert (Hl : parent l = idx) by (apply parent_children; lia). assert (Hr : parent r = idx) by (apply parent_children; lia).
  fold l r. set (s1 := if (l <? length h)%nat && (key h l <? key h idx) then l else idx).
  assert (H1 : (s1 < length h)%nat /\ (s1 = idx \/ s1 = l) /\ key h s1 <= key h idx /\ ((l < length h)%nat -> key h s1 <= key h l)).
  { unfold s1. destruct (Nat.ltb_spec l (length h)), (Z.ltb_spec (key h l) (key h idx)); cbn [andb]; repeat split; try lia; auto. }
  clearbody s1. destruct H1 as (B1 & B2 & B3 & B4). fold (key h r) (key h s1).
  assert (Hc : forall c, (0 < c < length h)%nat -> parent c = idx -> c = l \/ c = r) by (intros c Hc1 Hc2; exact (proj1 (parent_children idx c (proj1 Hc1)) Hc2)).
  destruct (Nat.ltb_spec r (length h)), (Z.ltb_spec (key h r) (key h s1)); cbn [andb]; (split; [lia|]); (split; [|split; [lia|]]).
  all: try (intros c Hc1 Hc2; destruct (Hc c Hc1 Hc2) as [-> | ->]; lia || (specialize (B4 (proj2 Hc1)); lia)).
  all: try (right; split; [lia|done]).
  all: destruct B2 as [-> | ->]; [by left|right; split; [lia|done]].
Qed.


Lemma same_heap_refl h : same_heap h h.
Proof. by split. Qed.
Lemma same_heap_trans h1 h2 h3 : same_heap h1 h2 -> same_heap h2 h3 -> same_heap h1 h3.
Proof. intros [A1 A2] [B1 B2]. split; [congruence|auto]. Qed.

Lemma sift_up_ok f : forall idx h m, (idx < f)%nat -> (idx < length h)%nat -> linked h m -> almost idx h ->
  exists idx' h' m', sift_up f idx (Heap h m) = Ret (idx', Heap h' m') /\ linked h' m' /\ sinking idx' h' /\ (idx' < length h')%nat /\ same_heap h h'.
Proof.
  induction f as [|f IH]; intros idx h m Hf Hi HL HA; [lia|]. cbn [sift_up heap_]. destruct (Nat.eqb_spec idx 0) as [E|E].
  - exists idx, h, m. split; [done|]. split; [done|]. split; [apply up_stop; auto|]. split; [done|apply same_heap_refl].
  - fold (key h idx) (key h (parent idx)). pose proof (parent_lt idx ltac:(lia)) as Hp. destruct (Z.leb_spec (key h (parent idx)) (key h idx)).
    + exists idx, h, m. split; [done|]. split; [done|]. split; [apply up_stop; auto|]. split; [done|apply same_heap_refl].
    + destruct (SwapNodes_ok idx (parent idx) h m HL Hi) as (m1 & -> & L1); [lia|lia|]. cbn [obind].
      destruct (IH (parent idx) (swapped idx (parent idx) h) m1) as (i' & h' & m' & E' & L' & S' & I' & En); [lia|rewrite swapped_length; lia|done|apply up_step; [done|lia|done]|].
      exists i', h', m'. split; [done|]. split; [done|]. split; [done|]. split; [done|]. eapply same_heap_trans; [|exact En]. apply swapped_entries; lia.
Qed.

Lemma sift_down_ok f : forall idx h m, (length h - idx < f)%nat -> (idx < length h)%nat -> linked h m -> sinking idx h ->
  exists h' m', sift_down f idx (Heap h m) = Ret (Heap h' m') /\ linked h' m' /\ heap_order h' /\ same_heap h h'.
Proof.
  induction f as [|f IH]; intros idx h m Hf Hi HL HS; [lia|]. cbn [sift_down heap_]. cbv zeta.
  destruct (smallest_spec h idx Hi) as (B1 & B2 & B3 & B4). destruct (Nat.eqb_spec (smallest_of h idx) idx) as [E|E].
  - exists h, m. split; [done|]. split; [done|]. split; [|apply same_heap_refl]. apply (down_stop h idx HS). rewrite E in B4. exact B4.
  - destruct B2 as [B2|[B2 Bp]]; [done|]. pose proof (parent_lt _ B2) as Hlt. rewrite Bp in Hlt. set (s := smallest_of h idx) in *.
    destruct (SwapNodes_ok idx s h m HL Hi B1) as (m1 & -> & L1); [lia|]. cbn [obind].
    destruct (IH s (swapped idx s h) m1) as (h' & m' & E' & L' & O' & En); [rewrite swapped_length; lia|by rewrite swapped_length|done|by apply down_step|].
    exists h', m'. split; [done|]. split; [done|]. split; [done|]. eapply same_heap_trans; [|exact En]. apply swapped_entries; lia.
Qed.

Lemma FixHeap_ok idx h m : (idx < length h)%nat -> linked h m -> almost idx h ->
  exists h' m', FixHeap idx (Heap h m) = Ret (Heap h' m') /\ linked h' m' /\ heap_order h' /\ same_heap h h'.
Proof.
  intros Hi HL HA. unfold FixHeap. destruct (sift_up_ok (S idx) idx h m) as (i' & h1 & m1 & -> & L1 & S1 & I1 & E1); [lia|done|done|done|]. cbn [obind heap_].
  destruct (sift_down_ok (S (length h1)) i' h1 m1) as (h' & m' & -> & L' & O' & E'); [lia|done|done|done|]. exists h', m'. split; [done|]. split; [done|]. split; [done|].
  by eapply same_heap_trans.
Qed.

(** *** The operations *)

Lemma linked_known h m d : linked h m -> exists o, map_get d m = Ret o /\
  match o with Some i => exists n, h !! i = Some n /\ data n = d | None => forall i n, h !! i = Some n -> data n <> d end.
Proof.
  intros (im & Hm & Hi1 & Hi2). exists (im !! d). rewrite (map_get_ok d m im Hm). split; [done|]. destruct (im !! d) as [i|] eqn:E; [by apply Hi1|].
  intros i n Hn Hd. assert (im !! d = Some i) by (apply Hi1; by exists n). congruence.
Qed.

Lemma entries_known h (e : gmap Z Z) d : entries h e -> (exists i n, h !! i = Some n /\ data n = d) <-> is_Some (e !! d).
Proof.
  intros He. split.
  - intros (i & n & Hn & Hd). exists (delay n). apply He. by exists i, n.
  - intros [v Hv]. apply He in Hv as (i & n & Hn & Hd & _). by exists i, n.
Qed.

Lemma pushed_entries h (e : gmap Z Z) d v : entries h e -> e !! d = None -> entries (h ++ [Node d v (length h)]) (<[d := v]> e).
Proof.
  intros He Hd d' v'. rewrite lookup_insert. destruct (decide (d = d')) as [<-|N].
  - split; [intros [= <-]; exists (length h), (Node d v (length h)); by rewrite lookup_app_r, Nat.sub_diag by done|].
    intros (i & n & Hn & Hdn & Hv). apply lookup_app_Some in Hn as [Hn|[_ Hn]].
    + exfalso. destruct (proj1 (entries_known h e d He)) as [x Hx]; [by exists i, n|]. congruence.
    + apply list_lookup_singleton_Some in Hn as [_ <-]. by rewrite <- Hv.
  - rewrite (He d' v'). split.
    + intros (i & n & Hn & R). exists i, n. split; [by apply lookup_app_l_Some|done].
    + intros (i & n & Hn & Hdn & Hv). apply lookup_app_Some in Hn as [Hn|[_ Hn]]; [by exists i, n|]. apply list_lookup_singleton_Some in Hn as [_ <-]. by cbn in Hdn.
Qed.

Lemma pushed_almost h n : heap_order h -> almost (length h) (h ++ [n]).
Proof.
  intros HO. assert (K : forall k, (k < length h)%nat -> key (h ++ [n]) k = key h k) by (intros k Hk; unfold key, node_at; by rewrite lookup_app_l).
  split.
  - intros i H1 H2 H3. rewrite length_app in H3. cbn [length] in H3. pose proof (parent_lt i (proj1 H3)). rewrite !K by lia. apply HO. lia.
  - intros c H1 H2 H3. rewrite length_app in H2. cbn [length] in H2. pose proof (parent_lt c (proj1 H2)). lia.
Qed.

Lemma Insert_ok d v delta t (e : gmap Z Z) : represents t e -> map_room (idMap_ t) ->
  exists t', Insert d v delta t = Ret (t', bool_decide (e !! d = None)) /\ represents t' (if decide (e !! d = None) then <[d := RoundToBucket v delta]> e else e).
Proof.
  destruct t as [h m]. intros (HL & HO & He) Hroom. cbn [heap_ idMap_] in *. unfold Insert. cbn [heap_ idMap_]. destruct (linked_known h m d HL) as (o & -> & Ho). cbn [obind].
  destruct o as [i|].
  - destruct (proj1 (entries_known h e d He)) as [x Hx]; [by exists i|]. rewrite Hx. exists (Heap h m). by rewrite bool_decide_false, decide_False.
  - assert (Hn : e !! d = None). { destruct (e !! d) eqn:E; [|done]. destruct (proj2 (entries_known h e d He)) as (i & n & A & B); [by rewrite E|]. by destruct (Ho i n A). }
    rewrite bool_decide_true, decide_True by done. pose proof HL as (im & Hm & Hi1 & Hi2). set (w := RoundToBucket v delta). cbv zeta.
    destruct (map_insert_ok d (length h) m im Hm Hroom) as (m1 & -> & R1). cbn [obind negb].
    destruct (FixHeap_ok (length h) (h ++ [Node d w (length h)]) m1) as (h' & m' & -> & L' & O' & E1 & E2); [rewrite length_app; cbn; lia| |by apply pushed_almost|].
    + exists (<[d := length h]> im). split; [done|]. split.
      * intros d' i. rewrite lookup_insert. destruct (decide (d = d')) as [<-|N].
        -- split; [intros [= <-]; eexists; by rewrite lookup_app_r, Nat.sub_diag|]. intros (n & [Hin|[Hle Hin]]%lookup_app_Some & Hd); [by destruct (Ho i n Hin)|].
           apply list_lookup_singleton_Some in Hin as [Hin _]. f_equal. lia.
        -- rewrite Hi1. split; [intros (n & Hin & Hd); exists n; split; [by apply lookup_app_l_Some|done]|]. intros (n & [Hin|[_ Hin]]%lookup_app_Some & Hd); [by exists n|].
           by apply list_lookup_singleton_Some in Hin as [_ <-].
      * intros i n [Hin|[Hle Hin]]%lookup_app_Some; [by apply Hi2|]. apply list_lookup_singleton_Some in Hin as [Hin <-]. cbn. lia.
    + cbn [obind]. exists (Heap h' m'). split; [done|]. split; [done|]. split; [done|]. by apply E2, pushed_entries.
Qed.


(** *** Removal *)

(** The last node takes the place of the removed one. *)
Definition removed (idx : nat) (h : list TimerNode) : list TimerNode :=
  let last := (length h - 1)%nat in take last (<[idx := set_heapIdx idx (node_at h last)]> h).

Lemma removed_length idx h : length (removed idx h) = (length h - 1)%nat.
Proof. unfold removed. rewrite length_take, length_insert. lia. Qed.

Lemma removed_last h : removed (length h - 1) h = take (length h - 1) h.
Proof. unfold removed. by rewrite take_insert_ge by lia. Qed.

Lemma removed_lookup idx h k : (idx < length h)%nat ->
  removed idx h !! k = if decide (k < length h - 1)%nat then (if decide (k = idx) then Some (set_heapIdx idx (node_at h (length h - 1))) else h !! k) else None.
Proof.
  intros Hi. unfold removed. destruct (decide (k < length h - 1)%nat) as [Hk|Hk]; [|apply lookup_take_ge; lia]. rewrite lookup_take_lt by done.
  destruct (decide (k = idx)) as [->|N]; [by rewrite list_lookup_insert_eq|by rewrite list_lookup_insert_ne].
Qed.

Lemma removed_key idx h k : (idx < length h)%nat -> (k < length h - 1)%nat -> key (removed idx h) k = if decide (k = idx) then key h (length h - 1) else key h k.
Proof. intros Hi Hk. unfold key, node_at at 1. rewrite removed_lookup, decide_True by done. by destruct (decide (k = idx)). Qed.

Lemma removed_almost idx h : heap_order h -> (idx < length h - 1)%nat -> almost idx (removed idx h).
Proof.
  intros HO Hi. split.
  - intros i H1 H2 H3. rewrite removed_length in H3. pose proof (parent_lt i (proj1 H3)). rewrite !removed_key, !decide_False by lia. apply HO. lia.
  - intros c H1 H2 H3. rewrite removed_length in H2. pose proof (parent_lt c (proj1 H2)). pose proof (parent_lt idx H1). rewrite !removed_key, !decide_False by lia.
    trans (key h idx); [apply HO; lia|]. rewrite <- H3. apply HO. lia.
Qed.

Lemma removed_order h : heap_order h -> heap_order (removed (length h - 1) h).
Proof.
  intros HO i Hi. rewrite removed_length in Hi. pose proof (parent_lt i (proj1 Hi)). rewrite !removed_key, !decide_False by lia. apply HO. lia.
Qed.

Lemma linked_unique h m i j n n' : linked h m -> h !! i = Some n -> h !! j = Some n' -> data n = data n' -> i = j.
Proof.
  intros (im & _ & Hi1 & _) A B E. assert (im !! data n = Some i) by (apply Hi1; by exists n). assert (im !! data n = Some j) by (apply Hi1; by exists n'). congruence.
Qed.

Lemma removed_entries idx h m n (e : gmap Z Z) : linked h m -> h !! idx = Some n -> entries h e -> entries (removed idx h) (delete (data n) e).
Proof.
  intros HL Hn He. pose proof (lookup_lt_Some _ _ _ Hn) as Hi. intros d v. rewrite lookup_delete_Some, (He d v).
  assert (Hl : h !! (length h - 1)%nat = Some (node_at h (length h - 1))) by (apply heap_lookup; lia). split.
  - intros (N & i & x & Hx & <- & <-). pose proof (lookup_lt_Some _ _ _ Hx) as Hxi. assert (i <> idx) by (intros ->; congruence).
    destruct (decide (i = length h - 1)%nat) as [->|N2].
    + exists idx. eexists. rewrite removed_lookup, decide_True, decide_True by (done || lia). split; [done|]. rewrite Hl in Hx. by injection Hx as <-.
    + exists i, x. rewrite removed_lookup, decide_True, decide_False by (done || lia). done.
  - intros (i & x & Hx & <- & <-). rewrite removed_lookup in Hx by done. destruct (decide (i < length h - 1)%nat) as [Hk|]; [|done].
    destruct (decide (i = idx)) as [->|N].
    + injection Hx as <-. split; [|by exists (length h - 1)%nat; eexists]. cbn. intros E. pose proof (linked_unique _ _ _ _ _ _ HL Hn Hl E). lia.
    + split; [intros E; by apply N; symmetry; eapply linked_unique|by exists i, x].
Qed.

(** The index after removing the node at [idx]. *)
Lemma removed_linked idx h m n (im : gmap Z nat) : linked h m -> h !! idx = Some n ->
  (forall d i, im !! d = Some i <-> exists x, h !! i = Some x /\ data x = d) ->
  let last := (length h - 1)%nat in
  let im' := if decide (idx = last) then delete (data n) im else alter (fun _ => idx) (data (node_at h last)) (delete (data n) im) in
  (forall d i, im' !! d = Some i <-> exists x, removed idx h !! i = Some x /\ data x = d) /\ (forall i x, removed idx h !! i = Some x -> heapIdx x = i).
Proof.
  intros HL Hn Him last im'. pose proof (lookup_lt_Some _ _ _ Hn) as Hi. pose proof HL as (im0 & _ & _ & Hidx).
  assert (Hl : h !! last = Some (node_at h last)) by (apply heap_lookup; unfold last; lia).
  assert (Hne : idx <> last -> data n <> data (node_at h last)) by (intros A E; by apply A; eapply linked_unique).
  split.
  - intros d i. assert (HR : (exists x, removed idx h !! i = Some x /\ data x = d) <-> (i < last)%nat /\ (if decide (i = idx) then data (node_at h last) = d else exists x, h !! i = Some x /\ data x = d)).
    { rewrite removed_lookup by done. fold last. destruct (decide (i < last)%nat) as [Hk|Hk]; [|split; [by intros (? & ? & _)|by intros [? _]]].
      destruct (decide (i = idx)) as [->|N]; [|by split; [intros H|intros [_ H]]]. split; [intros (x & [= <-] & E); by split|intros [_ E]; by eexists]. }
    rewrite HR. clear HR. unfold im'. destruct (decide (idx = last)) as [->|N].
    + rewrite lookup_delete_Some, Him. split.
      * intros (Nd & x & Hx & Hd). pose proof (lookup_lt_Some _ _ _ Hx). assert (i <> last) by (intros ->; congruence). split; [unfold last in *; lia|]. rewrite decide_False by done. by exists x.
      * intros [Hk H]. rewrite decide_False in H by lia. split; [|done]. destruct H as (x & Hx & <-). intros E. pose proof (linked_unique _ _ _ _ _ _ HL Hn Hx E). lia.
    + specialize (Hne N). assert (idx < last)%nat by (unfold last in *; lia). rewrite lookup_alter. destruct (decide (data (node_at h last) = d)) as [<-|Nd].
      * rewrite lookup_delete_ne by done. rewrite (proj2 (Him _ last)) by eauto. cbn. split.
        -- intros [= <-]. split; [done|]. by rewrite decide_True.
        -- intros [Hk Hx]. f_equal. destruct (decide (i = idx)); [done|]. destruct Hx as (x & Hx & E). pose proof (linked_unique _ _ _ _ _ _ HL Hx Hl E). lia.
      * rewrite lookup_delete_Some, Him. split.
        -- intros (N1 & x & Hx & Hd). pose proof (lookup_lt_Some _ _ _ Hx). assert (i <> last) by (intros ->; congruence). assert (i <> idx) by (intros ->; congruence). split; [unfold last in *; lia|].
           rewrite decide_False by done. by exists x.
        -- intros [Hk Q]. destruct (decide (i = idx)); [done|]. split; [|done]. destruct Q as (x & Hx & <-). intros E. by pose proof (linked_unique _ _ _ _ _ _ HL Hn Hx E).
  - intros i x. rewrite removed_lookup by done. fold last. destruct (decide (i < last)%nat); [|done]. destruct (decide (i = idx)) as [->|]; [by intros [= <-]|apply Hidx].
Qed.


Lemma Remove_ok d t (e : gmap Z Z) : represents t e ->
  exists t', Remove d t = Ret (t', bool_decide (is_Some (e !! d))) /\ represents t' (delete d e).
Proof.
  destruct t as [h m]. intros (HL & HO & He). cbn [heap_ idMap_] in *. unfold Remove. cbn [heap_ idMap_]. destruct (linked_known h m d HL) as (o & -> & Ho). cbn [obind].
  destruct o as [idx|].
  2:{ assert (Hn : e !! d = None) by (destruct (e !! d) eqn:E; [|done]; destruct (proj2 (entries_known h e d He)) as (i & n & A & B); [by rewrite E|]; by destruct (Ho i n A)).
      exists (Heap h m). rewrite Hn, delete_id by done. by rewrite bool_decide_false by (by intros [? ?]). }
  destruct Ho as (n & Hn & <-). rewrite bool_decide_true by (apply (entries_known h e _ He); by exists idx, n). pose proof (lookup_lt_Some _ _ _ Hn) as Hi.
  pose proof HL as (im & Hm & Him & Hidx). destruct (map_erase_ok (data n) m im Hm) as (m1 & -> & R1 & _). cbn [obind fst]. cbv zeta.
  pose proof (removed_linked idx h m n im HL Hn Him) as HR. cbv zeta in HR. pose proof (removed_entries idx h m n e HL Hn He) as HE. set (last := (length h - 1)%nat) in *.
  destruct (Nat.eqb_spec idx last) as [E|E]; cbn [negb].
  - cbn [obind heap_ idMap_]. rewrite decide_True in HR by done. subst idx. change (take last h) with (take (length h - 1) h). rewrite <- removed_last. fold last. rewrite removed_length, Nat.ltb_irrefl. cbn [obind].
    exists (Heap (removed last h) m1). split; [done|]. split; [eexists; split; [exact R1|exact HR]|]. split; [by apply removed_order|done].
  - rewrite decide_False in HR by done. unfold set_index. cbn [data set_heapIdx]. destruct (map_store_ok (data (node_at h last)) (fun _ => idx) m1 _ R1) as (m2 & -> & R2). cbn [obind heap_ idMap_].
    change (take last (<[idx := _]> h)) with (removed idx h). rewrite removed_length. fold last. destruct (Nat.ltb_spec idx last); [|unfold last in *; lia].
    destruct (FixHeap_ok idx (removed idx h) m2) as (h' & m' & -> & L' & O' & _ & E2); [by rewrite removed_length|eexists; split; [exact R2|exact HR]|by apply removed_almost|]. cbn [obind].
    exists (Heap h' m'). split; [done|]. split; [done|]. split; [done|]. by apply E2.
Qed.

Lemma root_least h i : heap_order h -> (i < length h)%nat -> key h 0 <= key h i.
Proof.
  intros HO. induction i as [i IH] using lt_wf_ind. intros Hi. destruct (decide (i = 0)%nat) as [->|N]; [done|]. pose proof (parent_lt i ltac:(lia)).
  trans (key h (parent i)); [apply IH; lia|apply HO; lia].
Qed.

(** The first node: an entry with the least deadline. *)
Lemma first_entry t (e : gmap Z Z) : represents t e ->
  match GetMin t with
  | Some n => e !! data n = Some (delay n) /\ (forall d v, e !! d = Some v -> delay n <= v)
  | None => e = ∅
  end.
Proof.
  destruct t as [h m]. intros (_ & HO & He). unfold GetMin. cbn [heap_ idMap_] in *. destruct h as [|n h]; cbn [head].
  - apply map_empty. intros d. destruct (e !! d) as [v|] eqn:E; [|done]. apply He in E as (i & n & Hn & _). done.
  - split; [apply He; by exists O, n|]. intros d v (i & x & Hx & _ & <-)%He. pose proof (root_least (n :: h) i HO (lookup_lt_Some _ _ _ Hx)) as Hle.
    unfold key, node_at in Hle. by rewrite Hx in Hle.
Qed.

Lemma PopExpired_ok now t (e : gmap Z Z) : represents t e ->
  exists t' r, PopExpired now t = Ret (t', r) /\
    match r with
    | Some d => exists v, e !! d = Some v /\ v <= now /\ (forall d' v', e !! d' = Some v' -> v <= v') /\ represents t' (delete d e)
    | None => t' = t /\ (forall d v, e !! d = Some v -> now < v)
    end.
Proof.
  intros HR. pose proof (first_entry t e HR) as Hmin. unfold PopExpired, GetMin in *. destruct (heap_ t) as [|n h] eqn:E; cbn [head] in Hmin.
  - exists t, None. split; [done|]. split; [done|]. subst e. intros d v. by rewrite lookup_empty.
  - destruct Hmin as [H1 H2]. destruct (Z.ltb_spec now (delay n)) as [Hlt|Hle].
    + exists t, None. split; [done|]. split; [done|]. intros d v Hv. specialize (H2 d v Hv). lia.
    + destruct (Remove_ok (data n) t e HR) as (t' & -> & R'). cbn [obind]. rewrite bool_decide_true by (by eexists). exists t', (Some (data n)). split; [done|]. by exists (delay n).
Qed.

Lemma size_entries t (e : gmap Z Z) : represents t e -> Size t = size e.
Proof.
  destruct t as [h m]. intros (HL & _ & He). unfold Size. cbn [heap_ idMap_] in *.
  assert (Hnd : NoDup ((fun n => (data n, delay n)) <$> h).*1).
  { rewrite <- list_fmap_compose. apply NoDup_alt. intros i j x (n & -> & A)%list_lookup_fmap_Some_1 (n' & B1 & B)%list_lookup_fmap_Some_1. cbn in B1. by eapply linked_unique. }
  assert (Ee : e = list_to_map ((fun n => (data n, delay n)) <$> h)).
  { apply map_eq. intros d. apply option_eq. intros v. rewrite <- elem_of_list_to_map by done. rewrite (He d v). split.
    - intros (i & n & Hn & <- & <-). apply list_elem_of_fmap. exists n. split; [done|]. by eapply list_elem_of_lookup_2.
    - intros (n & [= -> ->] & [i Hi]%list_elem_of_lookup_1)%list_elem_of_fmap. by exists i, n. }
  rewrite Ee, map_size_list_to_map by done. by rewrite length_fmap.
Qed.

(** C17: The timer heap is a priority queue.  Against a map from ids to deadlines: [Insert]
    adds an id that has no entry, at its deadline rounded to the bucket, and refuses one that
    has; [Remove] takes an entry out and says whether there was one; [PopExpired] takes out an
    entry with the least deadline exactly when one is due; [GetMin] is such an entry and
    [Size] the number of entries.  Through every swap of nodes the index of the heap, the
    back pointers and the order are kept, and no operation stops the program. *)
Theorem heap_refines_queue t (e : gmap Z Z) : represents t e ->
  (forall d v delta, map_room (idMap_ t) -> exists t', Insert d v delta t = Ret (t', bool_decide (e !! d = None)) /\
     represents t' (if decide (e !! d = None) then <[d := RoundToBucket v delta]> e else e)) /\
  (forall d, exists t', Remove d t = Ret (t', bool_decide (is_Some (e !! d))) /\ represents t' (delete d e)) /\
  (forall now, exists t' r, PopExpired now t = Ret (t', r) /\
     match r with
     | Some d => exists v, e !! d = Some v /\ v <= now /\ (forall d' v', e !! d' = Some v' -> v <= v') /\ represents t' (delete d e)
     | None => t' = t /\ (forall d v, e !! d = Some v -> now < v)
     end) /\
  match GetMin t with Some n => e !! data n = Some (delay n) /\ (forall d v, e !! d = Some v -> delay n <= v) | None => e = ∅ end /\
  Size t = size e.
Proof.
  intros HR. split; [intros d v delta; by apply Insert_ok|]. split; [intros d; by apply Remove_ok|]. split; [intros now; by apply PopExpired_ok|].
  split; [by apply first_entry|by apply size_entries].
Qed.

(** A new heap. *)
Lemma empty_heap m : map_rep m ∅ -> represents (Heap [] m) ∅.
Proof.
  intros Hm. split; [|split].
  - exists ∅. split; [done|]. split; [|done]. intros d i. rewrite lookup_empty. split; [done|by intros (n & ? & _)].
  - intros i Hi. cbn in Hi. lia.
  - intros d v. rewrite lookup_empty. split; [done|by intros (i & n & ? & _)].
Qed.


End heap.

(** The rounding gives a multiple of the bucket, at most half a bucket away. *)
Lemma RoundToBucket_near expire delta : 0 <= expire -> 0 < delta -> expire + delta < 2 ^ 64 ->
  let r := RoundToBucket expire delta in r mod delta = 0 /\ 2 * Z.abs (r - expire) <= delta.
Proof.
  intros He Hd Hw. cbv zeta. unfold RoundToBucket. destruct (Z.eqb_spec delta 0); [lia|]. rewrite Z.shiftr_div_pow2 by lia. change (2 ^ 1) with 2.
  assert (Hh : 0 <= delta / 2 <= delta /\ 2 * (delta / 2) <= delta < 2 * (delta / 2) + 2) by (pose proof (Z.div_mod delta 2 ltac:(lia)); pose proof (Z.mod_pos_bound delta 2 ltac:(lia)); lia).
  rewrite (wrap_small 64 (expire + delta / 2)) by lia. set (x := expire + delta / 2). pose proof (Z.div_mod x delta ltac:(lia)). pose proof (Z.mod_pos_bound x delta ltac:(lia)).
  assert (0 <= x / delta * delta) by (pose proof (Z.div_pos x delta ltac:(lia) ltac:(lia)); nia). rewrite wrap_small by lia. split; [by rewrite Z.mod_mul by lia|lia].
Qed.

(** ** A heap over the hash shard *)

Definition new_heap (entry_size : Z) (Alloc_ok : Z -> bool) : outcome (TimerHeap (@HashShard.shard Z nat)) :=
  let* m := HashShard.Init entry_size Alloc_ok 64 false None in Ret (Heap [] m).

Definition w_hash (k : Z) : Z := 3 * k.
Definition w_map := shard_map w_hash 24 (fun _ => true) (K := Z) (V := nat).

Lemma w_new_heap : exists t, new_heap 24 (fun _ => true) = Ret t /\ represents (FM := w_map) t ∅ /\ map_room (FiniteMap := w_map) (idMap_ t).
Proof.
  unfold new_heap, HashShard.Init. destruct (HashShard.init_table_spec w_hash 24 (fun _ => true) 64 (K := Z) (V := nat)) as (t & -> & Hi & Hm & Hc); [done|done|vm_compute; done|]. cbn [obind].
  eexists. split; [done|]. split; [apply (empty_heap (FM := w_map)); exists t; split; [done|]; split; [done|exact Hm]|]. cbn. split; [done|]. split; [done|]. rewrite Hc. vm_compute. done.
Qed.

Lemma heap_refines_queue_witness : exists t, new_heap 24 (fun _ => true) = Ret t /\
  (exists t', Insert (FM := w_map) 7 103 10 t = Ret (t', true) /\ represents (FM := w_map) t' {[ 7 := 100 ]}) /\
  (exists t', Remove (FM := w_map) 7 t = Ret (t', false)) /\ PopExpired (FM := w_map) 50 t = Ret (t, None) /\ Size t = O.
Proof.
  destruct w_new_heap as (t & E & R & Hroom). exists t. split; [exact E|].
  destruct (heap_refines_queue (FM := w_map) t ∅ R) as (H1 & H2 & H3 & H4 & H5). split; [|split; [|split]].
  - exact (H1 7 103 10 Hroom).
  - destruct (H2 7) as (t' & H & _). exists t'. exact H.
  - destruct (H3 50) as (t' & [d|] & H & Hr); [destruct Hr as (v & Hv & _); discriminate Hv|]. destruct Hr as [-> _]. exact H.
  - rewrite H5. reflexivity.
Defined.

(** Three timers, one taken out, and the two left fired in the order of their deadlines. *)
Definition w_run : outcome (list (option Z)) :=
  let* t := new_heap 24 (fun _ => true) in
  let* p := Insert (FM := w_map) 1 58 10 t in
  let* p := Insert (FM := w_map) 2 31 10 (fst p) in
  let* p := Insert (FM := w_map) 3 12 10 (fst p) in
  let* p := Insert (FM := w_map) 4 44 10 (fst p) in
  let* p := Remove (FM := w_map) 3 (fst p) in
  let* p := PopExpired (FM := w_map) 60 (fst p) in
  let* q := PopExpired (FM := w_map) 60 (fst p) in
  let* r := PopExpired (FM := w_map) 59 (fst q) in
  Ret [snd p; snd q; snd r].

Example w_run_fired : w_run = Ret [Some 2; Some 4; None].
Proof. vm_compute. reflexivity. Qed.


End TimerHeap.
