(* ===== verification/ConnLimiter.v ===== *)
(** * ConnLimiter: [http/limits/connection_limiter.cpp]

    Concurrent connections per subnet.  The limiter is proved against the map
    interface of [ShardMap]; a [ConnectionLimiterEntry] is its counter. *)

From S2P Require Import Prelude Strings Headers Swar IpUtils Probe HashShard ShardMap.
Import IpUtils ShardMap.

Module ConnLimiter.

(** [count -= (count > 0)] on [std::uint32_t]. *)
Definition decrement (count : Z) : Z := u32 (count - Z.b2z (0 <? count)).

(** [ConnectionLimiterEntry{}] *)
Definition new_entry : Z := 0.

Section limiter.
Context {S : Type} {FM : FiniteMap WFXIpAddress Z S} (ipConfig : IPConfig).

Definition AllowConnection (ip : WFXIpAddress) (connLimits_ : S) : outcome (S * bool) :=
  let key := NormalizeIp ip in
  let* p := map_get_or_insert key new_entry connLimits_ in
  match p with
  | (s, None) => Ret (s, false)
  | (s, Some connectionCount) =>
      if maxConnectionsPerIp ipConfig <=? connectionCount then Ret (s, false)
      else
        let* s := map_store key (fun c => u32 (c + 1)) s in
        Ret (s, true)
  end.

Definition ReleaseConnection (ip : WFXIpAddress) (connLimits_ : S) : outcome S :=
  let key := NormalizeIp ip in
  let* entry := map_get key connLimits_ in
  match entry with
  | None => Ret connLimits_
  | Some connectionCount =>
      let* s := map_store key decrement connLimits_ in
      if decrement connectionCount =? 0 then let* p := map_erase key s in Ret (fst p)
      else Ret s
  end.

(** ** Specification *)

(** How many of the open connections share the key. *)
Definition open_on (key : WFXIpAddress) (conns : list WFXIpAddress) : Z :=
  Z.of_nat (length (filter (fun ip => NormalizeIp ip = key) conns)).

(** A run of the server: the limiter and the connections it admitted that are
    still open.  A refused connection is never released. *)
Inductive run : S -> list WFXIpAddress -> Prop :=
| run_init s : map_rep s ∅ -> run s []
| run_accept s conns ip s' :
    run s conns -> map_room s -> AllowConnection ip s = Ret (s', true) -> run s' (ip :: conns)
| run_refuse s conns ip s' :
    run s conns -> map_room s -> AllowConnection ip s = Ret (s', false) -> run s' conns
| run_close s l ip r s' :
    run s (l ++ ip :: r) -> ReleaseConnection ip s = Ret s' -> run s' (l ++ r).

(** The table holds exactly the subnets with an open connection, with their
    counts. *)
Definition counts (m : gmap WFXIpAddress Z) (conns : list WFXIpAddress) : Prop :=
  forall key, m !! key = if 0 <? open_on key conns then Some (open_on key conns) else None.

Lemma open_on_cons key ip conns :
  open_on key (ip :: conns) = open_on key conns + (if decide (NormalizeIp ip = key) then 1 else 0).
Proof. unfold open_on. rewrite filter_cons. destruct (decide _); cbn [length]; lia. Qed.

Lemma open_on_mid key l ip r : open_on key (l ++ ip :: r) = open_on key (ip :: l ++ r).
Proof.
  unfold open_on. rewrite filter_app, !filter_cons, filter_app. destruct (decide _); cbn [length];
    rewrite !length_app; cbn [length]; lia.
Qed.

Lemma open_on_nonneg key conns : 0 <= open_on key conns.
Proof. unfold open_on. lia. Qed.

Lemma counts_default m conns key : counts m conns -> default 0 (m !! key) = open_on key conns.
Proof. intros C. rewrite C. pose proof (open_on_nonneg key conns). destruct (Z.ltb_spec 0 (open_on key conns)); cbn; lia. Qed.

Context (Hmax : 0 < maxConnectionsPerIp ipConfig < 2 ^ 32).

Definition within (conns : list WFXIpAddress) : Prop := forall key, open_on key conns <= maxConnectionsPerIp ipConfig.

Lemma AllowConnection_ok ip s m conns :
  map_rep s m -> counts m conns -> within conns -> map_room s ->
  let accept := open_on (NormalizeIp ip) conns <? maxConnectionsPerIp ipConfig in
  exists s' m', AllowConnection ip s = Ret (s', accept) /\ map_rep s' m' /\
    counts m' (if accept then ip :: conns else conns) /\ within (if accept then ip :: conns else conns).
Proof.
  intros R C W Hr accept. set (key := NormalizeIp ip) in *. pose proof (open_on_nonneg key conns) as H0.
  destruct (map_get_or_insert_ok key new_entry s m R Hr) as (s1 & E1 & R1).
  unfold new_entry in *. rewrite (counts_default m conns key C) in *.
  unfold AllowConnection. fold key. unfold new_entry. rewrite E1. cbn [obind].
  unfold accept. destruct (Z.leb_spec (maxConnectionsPerIp ipConfig) (open_on key conns)) as [Hge|Hlt].
  - replace (open_on key conns <? maxConnectionsPerIp ipConfig) with false by lia.
    exists s1, (<[key := open_on key conns]> m). split; [done|]. split; [done|]. split; [|done].
    rewrite insert_id; [done|]. rewrite C. by replace (0 <? open_on key conns) with true by lia.
  - replace (open_on key conns <? maxConnectionsPerIp ipConfig) with true by lia.
    destruct (map_store_ok key (fun c => u32 (c + 1)) s1 _ R1) as (s2 & E2 & R2). rewrite E2. cbn [obind].
    eexists s2, _. split; [done|]. split; [exact R2|]. split.
    + intros key'. rewrite open_on_cons. fold key. destruct (decide (key = key')) as [<-|Hne].
      * rewrite lookup_alter_eq, lookup_insert_eq. cbn. rewrite wrap_small by lia.
        by replace (0 <? open_on key conns + 1) with true by lia.
      * rewrite lookup_alter_ne, lookup_insert_ne by done. by rewrite C, Z.add_0_r.
    + intros key'. rewrite open_on_cons. fold key. specialize (W key'). destruct (decide (key = key')) as [<-|]; lia.
Qed.

Lemma ReleaseConnection_ok ip s m l r :
  map_rep s m -> counts m (l ++ ip :: r) -> within (l ++ ip :: r) ->
  exists s' m', ReleaseConnection ip s = Ret s' /\ map_rep s' m' /\ counts m' (l ++ r) /\ within (l ++ r).
Proof.
  intros R C W. set (key := NormalizeIp ip).
  assert (Ho : forall key', open_on key' (l ++ ip :: r) = open_on key' (l ++ r) + (if decide (key = key') then 1 else 0))
    by (intros key'; rewrite open_on_mid; apply open_on_cons).
  assert (Hk : open_on key (l ++ ip :: r) = open_on key (l ++ r) + 1) by (rewrite Ho; by rewrite decide_True).
  pose proof (open_on_nonneg key (l ++ r)) as H0.
  assert (W' : within (l ++ r)) by (intros key'; specialize (W key'); rewrite Ho in W; destruct (decide _); lia).
  assert (Hget : m !! key = Some (open_on key (l ++ r) + 1))
    by (rewrite C, Hk; by replace (0 <? open_on key (l ++ r) + 1) with true by lia).
  assert (Hdec : decrement (open_on key (l ++ r) + 1) = open_on key (l ++ r)).
  { unfold decrement. replace (0 <? open_on key (l ++ r) + 1) with true by lia. cbn [Z.b2z].
    specialize (W' key). rewrite wrap_small; lia. }
  destruct (map_store_ok key decrement s m R) as (s1 & E1 & R1).
  assert (Hother : forall key', key <> key' -> m !! key' = if 0 <? open_on key' (l ++ r) then Some (open_on key' (l ++ r)) else None)
    by (intros key' Hne; rewrite C, Ho, decide_False, Z.add_0_r by done; done).
  unfold ReleaseConnection. fold key.  rewrite (map_get_ok key s m R), Hget. cbn [obind]. rewrite E1. cbn [obind].
  rewrite Hdec. destruct (Z.eqb_spec (open_on key (l ++ r)) 0) as [E0|E0].
  - destruct (map_erase_ok key s1 _ R1) as (s2 & E2 & R2 & _). rewrite E2. cbn [obind fst].
    eexists s2, _. split; [done|]. split; [exact R2|]. split; [|done].
    intros key'. destruct (decide (key = key')) as [<-|Hne]; [rewrite lookup_delete_eq, E0; done|].
    rewrite lookup_delete_ne, lookup_alter_ne by done. auto.
  - eexists s1, _. split; [done|]. split; [exact R1|]. split; [|done].
    intros key'. destruct (decide (key = key')) as [<-|Hne].
    + rewrite lookup_alter_eq, Hget. cbn. rewrite Hdec. by replace (0 <? open_on key (l ++ r)) with true by lia.
    + rewrite lookup_alter_ne by done. auto.
Qed.

Lemma run_counts s conns : run s conns -> exists m, map_rep s m /\ counts m conns /\ within conns.
Proof.
  induction 1 as [s R|s conns ip s' Hrun (m & R & C & W) Hr E|s conns ip s' Hrun (m & R & C & W) Hr E
                 |s l ip r s' Hrun (m & R & C & W) E].
  - exists ∅. split; [done|]. split; [done|]. intros key. unfold open_on. cbn. lia.
  - destruct (AllowConnection_ok ip s m conns R C W Hr) as (s1 & m1 & E1 & R1 & C1 & W1).
    rewrite E1 in E. injection E as -> Ea. rewrite Ea in *. by exists m1.
  - destruct (AllowConnection_ok ip s m conns R C W Hr) as (s1 & m1 & E1 & R1 & C1 & W1).
    rewrite E1 in E. injection E as -> Ea. rewrite Ea in *. by exists m1.
  - destruct (ReleaseConnection_ok ip s m l r R C W) as (s1 & m1 & E1 & R1 & C1 & W1).
    rewrite E1 in E. injection E as ->. by exists m1.
Qed.

(** In every run, no subnet ever has more open connections than the limit; the
    next connection is admitted exactly when its subnet is below it; closing one
    always succeeds; and the table holds the subnets with an open connection and
    no other, so it never grows past them. *)
Theorem connections_counted s conns ip :
  run s conns ->
  open_on (NormalizeIp ip) conns <= maxConnectionsPerIp ipConfig /\
  (map_room s -> exists s', AllowConnection ip s =
     Ret (s', bool_decide (open_on (NormalizeIp ip) conns < maxConnectionsPerIp ipConfig))) /\
  (ip ∈ conns -> exists s', ReleaseConnection ip s = Ret s') /\
  map_get (NormalizeIp ip) s =
    Ret (if 0 <? open_on (NormalizeIp ip) conns then Some (open_on (NormalizeIp ip) conns) else None).
Proof.
  intros Hrun. destruct (run_counts s conns Hrun) as (m & R & C & W). split; [apply W|]. split; [|split].
  - intros Hr. destruct (AllowConnection_ok ip s m conns R C W Hr) as (s' & m' & E & _). exists s'.
    rewrite E. do 2 f_equal. destruct (Z.ltb_spec (open_on (NormalizeIp ip) conns) (maxConnectionsPerIp ipConfig));
      symmetry; [by apply bool_decide_eq_true|apply bool_decide_eq_false; lia].
  - intros (l & r & ->)%list_elem_of_split.
    destruct (ReleaseConnection_ok ip s m l r R C W) as (s' & _ & E & _). by exists s'.
  - by rewrite (map_get_ok _ s m R), C.
Qed.

End limiter.

(** [ConnectionLimiter()]: the shard, with 512 slots. *)
Definition new_limiter (entry_size : Z) (Alloc_ok : Z -> bool) : outcome (@HashShard.shard WFXIpAddress Z) :=
  HashShard.Init entry_size Alloc_ok 512 false None.

(** ** Witness: the limiter over the real shard *)

Definition w_hash (a : WFXIpAddress) : Z := fold_right (fun c h => c + 7 * h) 0 (raw a).
Definition w_shard_map := shard_map w_hash 32 (fun _ => true) (K := WFXIpAddress) (V := Z).
Definition w_ip : WFXIpAddress := IpAddress [10; 0; 0; 1] 0 AF_INET.

Lemma w_new : exists s, new_limiter 32 (fun _ => true) = Ret s /\ HashShard.represents w_hash s ∅ /\
  HashShard.has_memory 32 (fun _ => true) s.
Proof.
  destruct (HashShard.init_table_spec w_hash 32 (fun _ => true) 512 (K := WFXIpAddress) (V := Z)) as (t & E & Hi & Hm & Hc);
    [done|lia|vm_compute; done|].
  exists (Some t). unfold new_limiter, HashShard.Init. rewrite E. split; [done|]. split; [by exists t|].
  cbn. split; [done|]. split; [lia|]. rewrite Hc. vm_compute. done.
Qed.

Lemma connections_counted_witness :
  exists s, new_limiter 32 (fun _ => true) = Ret s /\
    exists s', AllowConnection (FM := w_shard_map) (MkIPConfig 1 10 5 64 false [] []) w_ip s = Ret (s', true).
Proof.
  destruct w_new as (s & E & R & Hm). exists s. split; [exact E|].
  pose proof (run_init (FM := w_shard_map) (MkIPConfig 1 10 5 64 false [] []) s R) as Hrun.
  destruct (connections_counted (FM := w_shard_map) (MkIPConfig 1 10 5 64 false [] []) ltac:(cbn; lia)
              s [] w_ip Hrun) as (_ & H & _).
  exact (H Hm).
Defined.

End ConnLimiter.
