(* ===== verification/RateLimiter.v ===== *)
(** * RateLimiter: [http/limits/request_rate_limiter.cpp]

    Token buckets per subnet, in a bitmap pool, indexed by a hash shard and
    threaded on an intrusive list in order of last use.  The clock is an argument
    ([now], in nanoseconds); the shard is used through the interface of
    [ShardMap]. *)

From S2P Require Import Prelude Strings Headers Swar IpUtils Probe HashShard ShardMap BitmapPool.
Import IpUtils ShardMap BitmapPool.

Module RateLimiter.

(** ** Definitions *)

Definition K_NO_LIMITER_NODE : Z := 0xFFFFFFFF.

Record TokenBucket := Bucket { tokens : Z; lastRefill : Z }.

Record RequestRateLimiterEntry := Entry { refCount : Z; bucket : TokenBucket }.

Record RequestRateLimiterNode := Node {
  key : WFXIpAddress;
  entry : RequestRateLimiterEntry;
  prev : Z;
  next : Z
}.

(** [RequestRateLimiterEntry{}]: a bucket reads the clock when constructed. *)
Definition new_entry (now : Z) : RequestRateLimiterEntry := Entry 0 (Bucket 0 now).

Definition new_node (now : Z) : RequestRateLimiterNode :=
  Node (IpAddress (replicate 16 0) 0 0) (new_entry now) K_NO_LIMITER_NODE K_NO_LIMITER_NODE.

Definition set_prev (i : Z) (n : RequestRateLimiterNode) := Node (key n) (entry n) i (next n).
Definition set_next (i : Z) (n : RequestRateLimiterNode) := Node (key n) (entry n) (prev n) i.
Definition set_entry (e : RequestRateLimiterEntry) (n : RequestRateLimiterNode) := Node (key n) e (prev n) (next n).
Definition set_refCount (c : Z) (n : RequestRateLimiterNode) := set_entry (Entry c (bucket (entry n))) n.
Definition set_bucket (b : TokenBucket) (n : RequestRateLimiterNode) := set_entry (Entry (refCount (entry n)) b) n.

(** The part of [AllowRequest] after the lookup: refill, then take a token. *)
Definition bucket_step (ipConfig : IPConfig) (now : Z) (b : TokenBucket) : bool * TokenBucket :=
  let elapsedMs := Z.max 0 (Z.quot (now - lastRefill b) 1000000) in
  let refill := u64 (elapsedMs * maxTokensPerSecond ipConfig) / 1000 in
  let b := if 0 <? refill
           then Bucket (Z.min (maxRequestBurstSize ipConfig) (u32 (tokens b + u32 refill))) now
           else b in
  if 0 <? tokens b then (true, Bucket (tokens b - 1) (lastRefill b)) else (false, b).

Section limiter.
Context {S : Type} {FM : FiniteMap WFXIpAddress Z S} (ipConfig : IPConfig).

Record limiter := Limiter {
  pool : pool RequestRateLimiterNode;
  index_ : S;
  head_ : Z;
  tail_ : Z
}.

Definition with_pool p (l : limiter) := Limiter p (index_ l) (head_ l) (tail_ l).
Definition with_index s (l : limiter) := Limiter (pool l) s (head_ l) (tail_ l).
Definition with_head h (l : limiter) := Limiter (pool l) (index_ l) h (tail_ l).
Definition with_tail t (l : limiter) := Limiter (pool l) (index_ l) (head_ l) t.

(** [*pool_.GetPtr(idx)], read and assigned. *)
Definition node (l : limiter) (idx : Z) : RequestRateLimiterNode := default (new_node 0) (GetPtr (pool l) idx).
Definition set_node (f : RequestRateLimiterNode -> RequestRateLimiterNode) (idx : Z) (l : limiter) : limiter :=
  with_pool (write_slot f idx (pool l)) l.

Definition Unlink (idx : Z) (l : limiter) : limiter :=
  let n := node l idx in
  let l := if negb (prev n =? K_NO_LIMITER_NODE) then set_node (set_next (next n)) (prev n) l
           else with_head (next n) l in
  let n := node l idx in
  let l := if negb (next n =? K_NO_LIMITER_NODE) then set_node (set_prev (prev n)) (next n) l
           else with_tail (prev n) l in
  set_node (set_next K_NO_LIMITER_NODE) idx (set_node (set_prev K_NO_LIMITER_NODE) idx l).

Definition LinkFront (idx : Z) (l : limiter) : limiter :=
  let l := set_node (set_next (head_ l)) idx (set_node (set_prev K_NO_LIMITER_NODE) idx l) in
  let l := if negb (head_ l =? K_NO_LIMITER_NODE) then set_node (set_prev idx) (head_ l) l else l in
  let l := with_head idx l in
  if tail_ l =? K_NO_LIMITER_NODE then with_tail idx l else l.

Definition Touch (idx : Z) (l : limiter) : limiter :=
  if idx =? head_ l then l else LinkFront idx (Unlink idx l).

(** The walk from the LRU end past the live entries; [fuel] bounds the list. *)
Fixpoint find_victim (fuel : nat) (l : limiter) (victim : Z) : Z :=
  match fuel with
  | O => K_NO_LIMITER_NODE
  | Datatypes.S f =>
      if negb (victim =? K_NO_LIMITER_NODE) && (0 <? refCount (entry (node l victim)))
      then find_victim f l (prev (node l victim))
      else victim
  end.

(** The slot for a new entry: a free one, or the victim's. *)
Definition take_slot (l : limiter) : outcome (limiter * option Z) :=
  match AllocSlot (pool l) with
  | (Some idx, p) => Ret (with_pool p l, Some idx)
  | (None, p) =>
      let l := with_pool p l in
      let victim := find_victim (Datatypes.S (length (pool_ p))) l (tail_ l) in
      if victim =? K_NO_LIMITER_NODE then Ret (l, None)
      else
        let k := key (node l victim) in
        let l := Unlink victim l in
        let* r := map_erase k (index_ l) in
        Ret (with_index (fst r) l, Some victim)
  end.

(** The node's index, and whether it was created. *)
Definition FindOrCreate (now : Z) (ip : WFXIpAddress) (l : limiter) : outcome (limiter * option (Z * bool)) :=
  let k := NormalizeIp ip in
  let* found := map_get k (index_ l) in
  match found with
  | Some idx => Ret (Touch idx l, Some (idx, false))
  | None =>
      let* r := take_slot l in
      match r with
      | (l, None) => Ret (l, None)
      | (l, Some idx) =>
          let* r := map_insert k idx (index_ l) in
          let l := with_index (fst r) l in
          if negb (snd r) then Ret (l, None)
          else
            let l := set_node (fun n => Node k (new_entry now) (prev n) (next n)) idx l in
            Ret (LinkFront idx l, Some (idx, true))
      end
  end.

Definition Acquire (now : Z) (ip : WFXIpAddress) (l : limiter) : outcome (limiter * bool) :=
  let* r := FindOrCreate now ip l in
  match r with
  | (l, None) => Ret (l, false)
  | (l, Some (idx, wasCreated)) =>
      let l := if wasCreated
               then set_node (fun n => set_bucket (Bucket (maxRequestBurstSize ipConfig) (lastRefill (bucket (entry n)))) n) idx l
               else l in
      Ret (set_node (fun n => set_refCount (u32 (refCount (entry n) + 1)) n) idx l, true)
  end.

Definition AllowRequest (now : Z) (ip : WFXIpAddress) (l : limiter) : outcome (limiter * bool) :=
  let k := NormalizeIp ip in
  let* found := map_get k (index_ l) in
  match found with
  | None => Ret (l, false)
  | Some idx =>
      let l := Touch idx l in
      let r := bucket_step ipConfig now (bucket (entry (node l idx))) in
      Ret (set_node (set_bucket (snd r)) idx l, fst r)
  end.

Definition Release (ip : WFXIpAddress) (l : limiter) : outcome limiter :=
  let* found := map_get (NormalizeIp ip) (index_ l) in
  match found with
  | None => Ret l
  | Some idx =>
      Ret (set_node (fun n => set_refCount (u32 (refCount (entry n) - Z.b2z (0 <? refCount (entry n)))) n) idx l)
  end.

End limiter.
Arguments limiter S : clear implicits.

(** [RequestRateLimiter()]: the pool, and the index sized for as many live
    entries. *)
Definition new_limiter (ipConfig : IPConfig) (now entry_size : Z) (Alloc_ok : Z -> bool)
  : outcome (limiter (@HashShard.shard WFXIpAddress Z)) :=
  let* p := new_pool (new_node now) 64 Alloc_ok (maxTrackedIdentities ipConfig) false in
  let* s := HashShard.Init entry_size Alloc_ok (Z.to_nat (maxTrackedIdentities ipConfig)) true None in
  Ret (Limiter p s K_NO_LIMITER_NODE K_NO_LIMITER_NODE).

(** ** Segments of a doubly linked list

    [seg pv nx p ls q]: the nodes [ls] are chained by [pv] and [nx], entered from
    [p] and left to [q]. *)

Definition hd (q : Z) (ls : list Z) : Z := match ls with [] => q | i :: _ => i end.

Fixpoint lst (p : Z) (ls : list Z) : Z := match ls with [] => p | i :: r => lst i r end.

Fixpoint seg (pv nx : Z -> Z) (p : Z) (ls : list Z) (q : Z) : Prop :=
  match ls with
  | [] => True
  | i :: r => pv i = p /\ nx i = hd q r /\ seg pv nx i r q
  end.

Lemma hd_app q l1 l2 : hd q (l1 ++ l2) = hd (hd q l2) l1.
Proof. by destruct l1. Qed.

Lemma lst_app p l1 l2 : lst p (l1 ++ l2) = lst (lst p l1) l2.
Proof. revert p. induction l1; intros p; [done|apply IHl1]. Qed.

Lemma seg_lst_snoc p l i : lst p (l ++ [i]) = i.
Proof. by rewrite lst_app. Qed.

Lemma seg_hd_in q l : hd q l = q \/ hd q l ∈ l.
Proof. destruct l; [by left|]. right. apply list_elem_of_here. Qed.

Lemma seg_lst_in p l : lst p l = p \/ lst p l ∈ l.
Proof.
  revert p. induction l as [|i l IH]; intros p; [by left|]. right. cbn.
  destruct (IH i) as [->|]; [apply list_elem_of_here|by apply list_elem_of_further].
Qed.

Lemma seg_app pv nx p l1 l2 q :
  seg pv nx p (l1 ++ l2) q <-> seg pv nx p l1 (hd q l2) /\ seg pv nx (lst p l1) l2 q.
Proof.
  revert p. induction l1 as [|i l1 IH]; intros p; cbn [seg app lst]; [tauto|].
  rewrite IH, hd_app. tauto.
Qed.

Lemma seg_ext pv nx pv' nx' p ls q :
  (forall i, i ∈ ls -> pv' i = pv i /\ nx' i = nx i) -> seg pv nx p ls q -> seg pv' nx' p ls q.
Proof.
  revert p. induction ls as [|i r IH]; intros p H; [done|]. cbn [seg]. intros (H1 & H2 & H3).
  destruct (H i) as [-> ->]; [apply list_elem_of_here|]. split; [done|]. split; [done|].
  apply IH; [|done]. intros j Hj. apply H. by apply list_elem_of_further.
Qed.

(** Leaving to another node. *)
Lemma seg_leave pv nx pv' nx' p ls q q' :
  NoDup ls -> (forall i, i ∈ ls -> pv' i = pv i) ->
  (forall i, i ∈ ls -> nx' i = if i =? lst p ls then q' else nx i) ->
  seg pv nx p ls q -> seg pv' nx' p ls q'.
Proof.
  revert p. induction ls as [|i r IH]; intros p Hd Hp Hn; [done|]. cbn [seg lst] in *. intros (H1 & H2 & H3).
  apply NoDup_cons in Hd as [Hi Hd].
  rewrite (Hp i), (Hn i) by apply list_elem_of_here. split; [done|].
  assert (Hr : forall j, j ∈ r -> j ∈ i :: r) by (intros; by apply list_elem_of_further).
  split; [|apply IH; auto].
  destruct r as [|j r]; cbn [lst hd] in *; [by rewrite Z.eqb_refl|].
  destruct (Z.eqb_spec i (lst j r)) as [E|_]; [|done]. exfalso. apply Hi.
  destruct (seg_lst_in j r) as [E'|E']; rewrite E; [rewrite E'; apply list_elem_of_here|by apply list_elem_of_further].
Qed.

(** Entering from another node. *)
Lemma seg_enter pv nx pv' nx' p p' ls q :
  NoDup ls -> (forall i, i ∈ ls -> nx' i = nx i) ->
  (forall i, i ∈ ls -> pv' i = if i =? hd q ls then p' else pv i) ->
  seg pv nx p ls q -> seg pv' nx' p' ls q.
Proof.
  destruct ls as [|i r]; intros Hd Hn Hp; [done|]. cbn [seg hd] in *. intros (H1 & H2 & H3).
  rewrite (Hp i), (Hn i), Z.eqb_refl by apply list_elem_of_here. do 2 (split; [done|]).
  apply NoDup_cons in Hd as [Hi Hd]. eapply seg_ext, H3. intros j Hj.
  rewrite (Hp j), (Hn j) by (by apply list_elem_of_further).
  destruct (Z.eqb_spec j i) as [->|]; done.
Qed.

Section proofs.
Context {S : Type} {FM : FiniteMap WFXIpAddress Z S} (ipConfig : IPConfig).
Implicit Types l : limiter S.

(** ** Nodes *)

Definition slot_ok l (i : Z) : Prop := 0 <= i < slots_ (pool l).

(** The pool's shape: enough for the sentinel to name no slot. *)
Definition pool_ok l : Prop :=
  Z.of_nat (length (pool_ (pool l))) = slots_ (pool l) /\ slots_ (pool l) <= MAX_64_ALIGNED.

Lemma node_set f j i l :
  pool_ok l -> slot_ok l j -> slot_ok l i -> node (set_node f j l) i = if i =? j then f (node l i) else node l i.
Proof.
  intros [Hl _] Hj Hi. unfold node, set_node, with_pool, GetPtr, write_slot, slot_ok in *. cbn.
  destruct (Z.eqb_spec i j) as [->|Hne].
  - rewrite list_lookup_alter_eq. destruct (lookup_lt_is_Some_2 (pool_ (pool l)) (Z.to_nat j)) as [n Hn]; [lia|].
    by rewrite Hn.
  - by rewrite list_lookup_alter_ne by lia.
Qed.

Lemma pool_ok_set f j l : pool_ok l -> pool_ok (set_node f j l).
Proof. intros [H1 H2]. split; [|done]. cbn. by rewrite length_alter. Qed.

Lemma slot_not_nil l i : pool_ok l -> slot_ok l i -> (i =? K_NO_LIMITER_NODE) = false.
Proof. unfold pool_ok, slot_ok, MAX_64_ALIGNED, K_NO_LIMITER_NODE. intros [_ H] Hi. lia. Qed.

(** What does not depend on the links. *)
Definition same_data l l' : Prop :=
  index_ l' = index_ l /\ slots_ (pool l') = slots_ (pool l) /\
  (forall live marks, represents (pool l) live marks -> represents (pool l') live marks) /\
  (forall i, slot_ok l i -> key (node l' i) = key (node l i) /\ entry (node l' i) = entry (node l i)).

Lemma same_data_refl l : same_data l l.
Proof. split; [done|]. split; [done|]. by split. Qed.

Lemma same_data_trans l1 l2 l3 : same_data l1 l2 -> same_data l2 l3 -> same_data l1 l3.
Proof.
  intros (A1 & A2 & A3 & A4) (B1 & B2 & B3 & B4). split; [congruence|]. split; [congruence|]. split; [auto|].
  intros i Hi. destruct (A4 i Hi), (B4 i) as [-> ->]; [unfold slot_ok in *; lia|done].
Qed.

Lemma same_data_link f j l :
  pool_ok l -> slot_ok l j -> (forall n, key (f n) = key n /\ entry (f n) = entry n) ->
  same_data l (set_node f j l).
Proof.
  intros Hp Hj Hf. split; [done|]. split; [done|]. split; [intros; by apply write_slot_ok|].
  intros i Hi. rewrite node_set by done. by destruct (i =? j).
Qed.

(** Updating the node at [e] unless [e] is the sentinel, as the list code does. *)
Lemma cond_set f e l l0 :
  pool_ok l -> ((e =? K_NO_LIMITER_NODE) = false -> slot_ok l e) ->
  pool l0 = pool l -> index_ l0 = index_ l ->
  (forall n, key (f n) = key n /\ entry (f n) = entry n) ->
  let l' := if negb (e =? K_NO_LIMITER_NODE) then set_node f e l else l0 in
  same_data l l' /\ pool_ok l' /\
  forall j, slot_ok l j -> node l' j = if j =? e then f (node l j) else node l j.
Proof.
  intros Hp He E0 E1 Hf l'. unfold l'. destruct (e =? K_NO_LIMITER_NODE) eqn:Ee; cbn [negb].
  - assert (En : forall j, node l0 j = node l j) by (intros j; unfold node; by rewrite E0).
    assert (Hd : same_data l l0).
    { split; [done|]. rewrite E0. split; [done|]. split; [done|]. intros j _. by rewrite En. }
    split; [done|]. split; [unfold pool_ok; by rewrite E0|]. intros j Hj. rewrite En.
    destruct (Z.eqb_spec j e) as [->|]; [|done]. pose proof (slot_not_nil l e Hp Hj). congruence.
  - split; [by apply same_data_link; auto|]. split; [by apply pool_ok_set|]. intros j Hj. apply node_set; auto.
Qed.

Lemma slot_ok_data l l' i : same_data l l' -> slot_ok l i -> slot_ok l' i.
Proof. intros (_ & E & _) H. unfold slot_ok. by rewrite E. Qed.

(** ** The list in order of use *)

Record linked l (ls : list Z) : Prop := Linked {
  ln_pool : pool_ok l;
  ln_nodup : NoDup ls;
  ln_slots : forall i, i ∈ ls -> slot_ok l i;
  ln_head : head_ l = hd K_NO_LIMITER_NODE ls;
  ln_tail : tail_ l = lst K_NO_LIMITER_NODE ls;
  ln_seg : seg (fun i => prev (node l i)) (fun i => next (node l i)) K_NO_LIMITER_NODE ls K_NO_LIMITER_NODE
}.

Lemma linked_not_nil l ls i : linked l ls -> i ∈ ls -> i <> K_NO_LIMITER_NODE.
Proof.
  intros L Hi. apply Z.eqb_neq, (slot_not_nil l); [apply L|by apply (ln_slots l ls L)].
Qed.

Lemma linked_hd l ls xs : linked l ls -> (forall i, i ∈ xs -> i ∈ ls) ->
  (hd K_NO_LIMITER_NODE xs =? K_NO_LIMITER_NODE) = false -> slot_ok l (hd K_NO_LIMITER_NODE xs).
Proof.
  intros L Hs E. destruct (seg_hd_in K_NO_LIMITER_NODE xs) as [E'|Hin]; [rewrite E' in E; discriminate|].
  by apply (ln_slots l ls L), Hs.
Qed.

Lemma linked_lst l ls xs : linked l ls -> (forall i, i ∈ xs -> i ∈ ls) ->
  (lst K_NO_LIMITER_NODE xs =? K_NO_LIMITER_NODE) = false -> slot_ok l (lst K_NO_LIMITER_NODE xs).
Proof.
  intros L Hs E. destruct (seg_lst_in K_NO_LIMITER_NODE xs) as [E'|Hin]; [rewrite E' in E; discriminate|].
  by apply (ln_slots l ls L), Hs.
Qed.

(** An end is the sentinel exactly when there is no node there. *)
Lemma linked_lst_nil l ls xs : linked l ls -> (forall i, i ∈ xs -> i ∈ ls) ->
  lst K_NO_LIMITER_NODE xs = K_NO_LIMITER_NODE -> xs = [].
Proof.
  intros L Hs E. destruct xs as [|x xs]; [done|]. exfalso. cbn in E.
  apply (linked_not_nil l ls (lst x xs) L); [|done]. apply Hs.
  destruct (seg_lst_in x xs) as [->|]; [apply list_elem_of_here|by apply list_elem_of_further].
Qed.

Lemma linked_hd_nil l ls xs : linked l ls -> (forall i, i ∈ xs -> i ∈ ls) ->
  hd K_NO_LIMITER_NODE xs = K_NO_LIMITER_NODE -> xs = [].
Proof.
  intros L Hs E. destruct xs as [|x xs]; [done|]. exfalso. cbn in E.
  apply (linked_not_nil l ls x L); [|done]. apply Hs, list_elem_of_here.
Qed.

Lemma linked_mid l xs i ys :
  linked l (xs ++ i :: ys) -> prev (node l i) = lst K_NO_LIMITER_NODE xs /\ next (node l i) = hd K_NO_LIMITER_NODE ys.
Proof. intros L. pose proof (ln_seg _ _ L) as H. apply seg_app in H as [_ H]. cbn in H. tauto. Qed.

Lemma elem_mid (x i : Z) xs ys : x ∈ xs ++ ys -> x ∈ xs ++ i :: ys.
Proof. rewrite !elem_of_app. intros [H|H]; [by left|]. right. by apply list_elem_of_further. Qed.

(** Unlinking, field by field. *)
Lemma Unlink_fields l xs i ys (L : linked l (xs ++ i :: ys)) :
  let p := lst K_NO_LIMITER_NODE xs in
  let n := hd K_NO_LIMITER_NODE ys in
  let l' := Unlink i l in
  same_data l l' /\ pool_ok l' /\
  head_ l' = hd K_NO_LIMITER_NODE (xs ++ ys) /\ tail_ l' = lst K_NO_LIMITER_NODE (xs ++ ys) /\
  (forall j, slot_ok l j -> j <> i -> prev (node l' j) = (if j =? n then p else prev (node l j)) /\
                                     next (node l' j) = (if j =? p then n else next (node l j))).
Proof.
  intros p n l'. destruct (linked_mid _ _ _ _ L) as [Ep En].
  pose proof (ln_pool _ _ L) as Hp. pose proof (ln_nodup _ _ L) as Hnd.
  assert (Hii : i ∈ xs ++ i :: ys) by (apply elem_of_app; right; apply list_elem_of_here).
  assert (Hi : slot_ok l i) by (by apply (ln_slots _ _ L)).
  assert (Hxs : forall j, j ∈ xs -> j ∈ xs ++ i :: ys) by (intros j Hj; apply elem_of_app; by left).
  assert (Hys : forall j, j ∈ ys -> j ∈ xs ++ i :: ys)
    by (intros j Hj; apply elem_of_app; right; by apply list_elem_of_further).
  assert (Hpi : p <> i).
  { intros E. destruct (seg_lst_in K_NO_LIMITER_NODE xs) as [E'|E']; fold p in E'.
    - by apply (linked_not_nil l _ i L Hii); rewrite <- E.
    - rewrite E in E'. apply NoDup_app in Hnd as (_ & Hd & _). apply (Hd i E'), list_elem_of_here. }
  destruct (cond_set (set_next n) p l (with_head n l) Hp (linked_lst l _ xs L Hxs) eq_refl eq_refl ltac:(done))
    as (D1 & P1 & N1).
  set (l1 := if negb (p =? K_NO_LIMITER_NODE) then set_node (set_next n) p l else with_head n l) in *.
  assert (Ni : node l1 i = node l i) by (rewrite N1 by done; by destruct (Z.eqb_spec i p); [congruence|]).
  assert (Hn1 : (n =? K_NO_LIMITER_NODE) = false -> slot_ok l1 n)
    by (intros E; by eapply slot_ok_data, (linked_hd l _ ys L Hys)).
  destruct (cond_set (set_prev p) n l1 (with_tail p l1) P1 Hn1 eq_refl eq_refl ltac:(done)) as (D2 & P2 & N2).
  set (l2 := if negb (n =? K_NO_LIMITER_NODE) then set_node (set_prev p) n l1 else with_tail p l1) in *.
  assert (El : l' = set_node (set_next K_NO_LIMITER_NODE) i (set_node (set_prev K_NO_LIMITER_NODE) i l2)).
  { unfold l', Unlink. rewrite Ep, En. fold p n l1. by rewrite Ni, Ep, En. }
  pose proof (same_data_trans _ _ _ D1 D2) as D12.
  assert (Hi2 : slot_ok l2 i) by (by eapply slot_ok_data).
  assert (D3 : same_data l2 (set_node (set_prev K_NO_LIMITER_NODE) i l2)) by (by apply same_data_link).
  assert (D4 : same_data (set_node (set_prev K_NO_LIMITER_NODE) i l2) l')
    by (rewrite El; apply same_data_link; [by apply pool_ok_set|done|done]).
  split; [by eapply same_data_trans, same_data_trans|].
  split; [rewrite El; by do 2 apply pool_ok_set|].
  assert (H1 : head_ l' = head_ l1 /\ tail_ l' = tail_ l2 /\ head_ l2 = head_ l1)
    by (rewrite El; unfold l2; by destruct (negb (n =? _))).
  destruct H1 as (-> & -> & _). split; [|split].
  - unfold l1. rewrite hd_app. fold n. destruct (Z.eqb_spec p K_NO_LIMITER_NODE) as [E|E]; cbn [negb].
    + by rewrite (linked_lst_nil l _ xs L Hxs E).
    + cbn. rewrite (ln_head _ _ L), hd_app. by destruct xs.
  - unfold l2. rewrite lst_app. fold p. destruct (Z.eqb_spec n K_NO_LIMITER_NODE) as [E|E]; cbn [negb].
    + by rewrite (linked_hd_nil l _ ys L Hys E).
    + transitivity (tail_ l); [unfold l1; by destruct (negb (p =? _))|]. rewrite (ln_tail _ _ L), lst_app. cbn.
      by destruct ys.
  - intros j Hj Hji. assert (Hj2 : slot_ok l2 j) by (by eapply slot_ok_data).
    assert (E : node l' j = node l2 j).
    { rewrite El, !node_set by (done || by apply pool_ok_set). by destruct (Z.eqb_spec j i). }
    rewrite E, N2, N1 by (done || by eapply slot_ok_data).
    destruct (Z.eqb_spec j n), (Z.eqb_spec j p); done.
Qed.

Lemma lru_Unlink_ok l xs i ys :
  linked l (xs ++ i :: ys) -> linked (Unlink i l) (xs ++ ys) /\ same_data l (Unlink i l).
Proof.
  intros L. destruct (Unlink_fields l xs i ys L) as (D & P & Eh & Et & Hf). split; [|done].
  pose proof (ln_nodup _ _ L) as Hnd.
  apply NoDup_app in Hnd as (Nx & Nxy & Ny). apply NoDup_cons in Ny as [Niy Ny].
  assert (Hs : forall j, j ∈ xs ++ ys -> slot_ok l j /\ j <> i).
  { intros j Hj. split; [by apply (ln_slots _ _ L), elem_mid|]. intros ->.
    apply elem_of_app in Hj as [Hj|Hj]; [|done]. apply (Nxy i Hj), list_elem_of_here. }
  assert (Nd : NoDup (xs ++ ys)).
  { apply NoDup_app. split; [done|]. split; [|done]. intros j Hj Hj'. apply (Nxy j Hj). by apply list_elem_of_further. }
  split; try done; [intros j Hj; eapply slot_ok_data; [done|by apply Hs]|].
  pose proof (ln_seg _ _ L) as Hseg. apply seg_app in Hseg as [S1 S2]. cbn [seg hd lst] in S2.
  destruct S2 as (_ & _ & S2). apply seg_app. split.
  - eapply seg_leave, S1; [done| |]; intros j Hj; assert (Hj' : j ∈ xs ++ ys) by (apply elem_of_app; by left).
    + destruct (Hs j Hj') as [H1 H2]. destruct (Hf j H1 H2) as [-> _].
      destruct (Z.eqb_spec j (hd K_NO_LIMITER_NODE ys)) as [->|]; [|done]. exfalso.
      destruct (seg_hd_in K_NO_LIMITER_NODE ys) as [E|E].
      * apply (linked_not_nil l _ _ L (elem_mid _ i _ _ Hj') E).
      * apply (Nxy _ Hj). by apply list_elem_of_further.
    + destruct (Hs j Hj') as [H1 H2]. by destruct (Hf j H1 H2) as [_ ->].
  - eapply seg_enter, S2; [done| |]; intros j Hj; assert (Hj' : j ∈ xs ++ ys) by (apply elem_of_app; by right).
    + destruct (Hs j Hj') as [H1 H2]. destruct (Hf j H1 H2) as [_ ->].
      destruct (Z.eqb_spec j (lst K_NO_LIMITER_NODE xs)) as [->|]; [|done]. exfalso.
      destruct (seg_lst_in K_NO_LIMITER_NODE xs) as [E|E].
      * apply (linked_not_nil l _ _ L (elem_mid _ i _ _ Hj') E).
      * apply (Nxy _ E). by apply list_elem_of_further.
    + destruct (Hs j Hj') as [H1 H2]. by destruct (Hf j H1 H2) as [-> _].
Qed.

Lemma LinkFront_ok l i ls :
  linked l ls -> slot_ok l i -> i ∉ ls -> linked (LinkFront i l) (i :: ls) /\ same_data l (LinkFront i l).
Proof.
  intros L Hi Hni. pose proof (ln_pool _ _ L) as Hp. set (h := hd K_NO_LIMITER_NODE ls).
  set (l1 := set_node (set_next (head_ l)) i (set_node (set_prev K_NO_LIMITER_NODE) i l)).
  assert (P1 : pool_ok l1) by (by do 2 apply pool_ok_set).
  assert (D1 : same_data l l1).
  { eapply same_data_trans; apply same_data_link; try done. by apply pool_ok_set. }
  assert (N1 : forall j, slot_ok l j -> node l1 j = if j =? i then set_next h (set_prev K_NO_LIMITER_NODE (node l j)) else node l j).
  { intros j Hj. unfold l1. rewrite !node_set by (done || by apply pool_ok_set). rewrite (ln_head _ _ L).
    by destruct (j =? i). }
  assert (Hh : (h =? K_NO_LIMITER_NODE) = false -> slot_ok l1 h)
    by (intros E; by eapply slot_ok_data, (linked_hd l _ ls L)).
  destruct (cond_set (set_prev i) h l1 l1 P1 Hh eq_refl eq_refl ltac:(done)) as (D2 & P2 & N2).
  set (l2 := if negb (h =? K_NO_LIMITER_NODE) then set_node (set_prev i) h l1 else l1) in *.
  assert (Hhi : i <> h).
  { intros E. destruct (seg_hd_in K_NO_LIMITER_NODE ls) as [E'|E']; fold h in E'.
    - pose proof (slot_not_nil l i Hp Hi). lia.
    - by rewrite <- E in E'. }
  assert (El : LinkFront i l = if tail_ l =? K_NO_LIMITER_NODE then with_tail i (with_head i l2) else with_head i l2).
  { unfold LinkFront. fold l1. change (head_ l1) with (head_ l). rewrite (ln_head _ _ L). fold h. fold l2.
    assert (tail_ (with_head i l2) = tail_ l) as -> by (unfold l2; by destruct (negb (h =? _))). done. }
  assert (En : forall j, node (LinkFront i l) j = node l2 j) by (intros j; rewrite El; by destruct (tail_ l =? _)).
  assert (D : same_data l (LinkFront i l)).
  { eapply same_data_trans; [by eapply same_data_trans|].
    rewrite El. destruct (tail_ l =? _); (split; [done|]; split; [done|]; by split). }
  split; [|done].
  assert (Hs : forall j, j ∈ ls -> slot_ok l j) by apply (ln_slots _ _ L).
  split; try done.
  - rewrite El. by destruct (tail_ l =? _).
  - apply NoDup_cons. split; [done|apply L].
  - intros j [->|Hj]%elem_of_cons; eapply slot_ok_data; [done|done|done|by apply Hs].
  - rewrite El. by destruct (tail_ l =? _).
  - rewrite El. destruct (Z.eqb_spec (tail_ l) K_NO_LIMITER_NODE) as [E|E]; cbn [lst].
    + rewrite (ln_tail _ _ L) in E. by rewrite (linked_lst_nil l ls ls L ltac:(done) E).
    + assert (tail_ (with_head i l2) = tail_ l) as -> by (unfold l2; by destruct (negb (h =? _))).
      rewrite (ln_tail _ _ L) in *. by destruct ls.
  - cbn [seg hd]. rewrite !En, !N2, !N1 by (done || by eapply slot_ok_data).
    rewrite Z.eqb_refl. destruct (Z.eqb_spec i h) as [|_]; [done|]. split; [done|]. split; [done|].
    eapply seg_enter, (ln_seg _ _ L); [apply L| |]; intros j Hj; pose proof (Hs j Hj);
      rewrite !En, !N2, !N1 by (done || by eapply slot_ok_data);
      (assert (E : (j =? i) = false) by (apply Z.eqb_neq; intros ->; done)); rewrite E; fold h; by destruct (j =? h).
Qed.

Lemma Touch_ok l xs i ys :
  linked l (xs ++ i :: ys) -> linked (Touch i l) (i :: xs ++ ys) /\ same_data l (Touch i l).
Proof.
  intros L. pose proof (ln_nodup _ _ L) as Hnd. unfold Touch. rewrite (ln_head _ _ L).
  destruct (Z.eqb_spec i (hd K_NO_LIMITER_NODE (xs ++ i :: ys))) as [E|E].
  - destruct xs as [|x xs]; [split; [done|apply same_data_refl]|]. exfalso. cbn in E. subst x.
    apply NoDup_app in Hnd as (_ & Hd & _). apply (Hd i); apply list_elem_of_here || (apply list_elem_of_here).
  - destruct (lru_Unlink_ok l xs i ys L) as [L1 D1].
    assert (Hi : slot_ok l i) by (apply (ln_slots _ _ L), elem_of_app; right; apply list_elem_of_here).
    destruct (LinkFront_ok (Unlink i l) i (xs ++ ys) L1) as [L2 D2]; [by eapply slot_ok_data| |].
    + apply NoDup_app in Hnd as (_ & Hd & Hy). apply NoDup_cons in Hy as [Hy _].
      intros [Hin|Hin]%elem_of_app; [|done]. apply (Hd i Hin), list_elem_of_here.
    + split; [done|]. by eapply same_data_trans.
Qed.

(** ** Specification: a bounded list in order of use *)

Abbreviation lru := (list (WFXIpAddress * RequestRateLimiterEntry)).

Definition spec_find (k : WFXIpAddress) (V : lru) : option RequestRateLimiterEntry :=
  snd <$> find (fun x => bool_decide (fst x = k)) V.

Definition spec_remove (k : WFXIpAddress) (V : lru) : lru := filter (fun x => fst x <> k) V.

Definition live (x : WFXIpAddress * RequestRateLimiterEntry) : bool := 0 <? refCount (snd x).

(** Drop the least recently used entry without a connection. *)
Fixpoint evict (V : lru) : option lru :=
  match V with
  | [] => None
  | x :: r => match evict r with
              | Some r' => Some (x :: r')
              | None => if live x then None else Some r
              end
  end.

Definition add_ref (e : RequestRateLimiterEntry) := Entry (u32 (refCount e + 1)) (bucket e).
Definition drop_ref (e : RequestRateLimiterEntry) := Entry (u32 (refCount e - Z.b2z (0 <? refCount e))) (bucket e).

Definition spec_acquire (cap now : Z) (k : WFXIpAddress) (V : lru) : lru * bool :=
  match spec_find k V with
  | Some e => ((k, add_ref e) :: spec_remove k V, true)
  | None =>
      match (if Z.of_nat (length V) <? cap then Some V else evict V) with
      | None => (V, false)
      | Some V' => ((k, Entry 1 (Bucket (maxRequestBurstSize ipConfig) now)) :: V', true)
      end
  end.

Definition spec_allow (now : Z) (k : WFXIpAddress) (V : lru) : lru * bool :=
  match spec_find k V with
  | None => (V, false)
  | Some e => let r := bucket_step ipConfig now (bucket e) in
              ((k, Entry (refCount e) (snd r)) :: spec_remove k V, fst r)
  end.

Definition spec_release (k : WFXIpAddress) (V : lru) : lru :=
  map (fun x => if decide (fst x = k) then (fst x, drop_ref (snd x)) else x) V.

Definition no_key (k : WFXIpAddress) (V : lru) : Prop := Forall (fun x => fst x <> k) V.

Lemma no_key_remove k V : no_key k V -> spec_remove k V = V.
Proof. induction 1 as [|x V Hx _ IH]; [done|]. unfold spec_remove. rewrite filter_cons_True by done. f_equal. exact IH. Qed.

Lemma no_key_find k V : no_key k V -> spec_find k V = None.
Proof.
  unfold spec_find. induction 1 as [|x V Hx _ IH]; [done|]. cbn. by rewrite bool_decide_false.
Qed.

Lemma spec_find_mid k A e B : no_key k A -> spec_find k (A ++ (k, e) :: B) = Some e.
Proof.
  unfold spec_find. induction 1 as [|x A Hx _ IH]; cbn; [by rewrite bool_decide_true|]. by rewrite bool_decide_false.
Qed.

Lemma spec_remove_mid k A e B : no_key k A -> no_key k B -> spec_remove k (A ++ (k, e) :: B) = A ++ B.
Proof.
  intros HA HB. unfold spec_remove. rewrite filter_app, filter_cons_False by naive_solver.
  f_equal; by apply no_key_remove.
Qed.

Lemma spec_release_none k V : no_key k V -> spec_release k V = V.
Proof. induction 1 as [|x V Hx _ IH]; [done|]. cbn. rewrite decide_False by done. by f_equal. Qed.

Lemma spec_release_mid k A e B :
  no_key k A -> no_key k B -> spec_release k (A ++ (k, e) :: B) = A ++ (k, drop_ref e) :: B.
Proof.
  intros HA HB. unfold spec_release. rewrite map_app. cbn. rewrite decide_True by done.
  f_equal; [by apply spec_release_none|]. f_equal. by apply spec_release_none.
Qed.

Lemma evict_live V : Forall (fun x => live x = true) V -> evict V = None.
Proof. induction 1 as [|x V Hx _ IH]; [done|]. cbn. by rewrite IH, Hx. Qed.

Lemma evict_mid A x B : live x = false -> Forall (fun x => live x = true) B -> evict (A ++ x :: B) = Some (A ++ B).
Proof.
  intros Hx HB. induction A as [|a A IH]; cbn; [by rewrite (evict_live B HB), Hx|]. by rewrite IH.
Qed.

(** ** The state a limiter stands for *)

Definition view l (ls : list Z) : lru := map (fun i => (key (node l i), entry (node l i))) ls.

Definition indexed l (ls : list Z) (m : gmap WFXIpAddress Z) : Prop :=
  (forall i, i ∈ ls -> m !! key (node l i) = Some i) /\
  (forall k i, m !! k = Some i -> i ∈ ls /\ key (node l i) = k).

Definition inv l (ls : list Z) (m : gmap WFXIpAddress Z) : Prop :=
  linked l ls /\ represents (pool l) (list_to_set ls) ∅ /\ map_rep (index_ l) m /\ indexed l ls m.

Definition refines (cap : Z) l (V : lru) : Prop :=
  slots_ (pool l) = cap /\ exists ls m, inv l ls m /\ V = view l ls.

Lemma view_ext l l' ls :
  (forall i, i ∈ ls -> key (node l' i) = key (node l i) /\ entry (node l' i) = entry (node l i)) ->
  view l' ls = view l ls.
Proof.
  intros H. apply map_ext_in. intros i Hi%list_elem_of_In. by destruct (H i Hi) as [-> ->].
Qed.

Lemma indexed_ext l l' ls ls' m :
  (forall i, i ∈ ls -> key (node l' i) = key (node l i)) -> (forall i, i ∈ ls' <-> i ∈ ls) ->
  indexed l ls m -> indexed l' ls' m.
Proof.
  intros Hk Hm [H1 H2]. split.
  - intros i Hi%Hm. rewrite Hk by done. auto.
  - intros k i Hi. destruct (H2 k i Hi) as [H3 H4]. split; [by apply Hm|]. by rewrite Hk.
Qed.

Lemma view_cons l i ls : view l (i :: ls) = (key (node l i), entry (node l i)) :: view l ls.
Proof. done. Qed.

Lemma view_app l xs ys : view l (xs ++ ys) = view l xs ++ view l ys.
Proof. apply map_app. Qed.

(** Changing the entry of one node, links untouched. *)
Lemma linked_ext l l' ls :
  linked l ls -> slots_ (pool l') = slots_ (pool l) -> length (pool_ (pool l')) = length (pool_ (pool l)) ->
  head_ l' = head_ l -> tail_ l' = tail_ l ->
  (forall i, i ∈ ls -> prev (node l' i) = prev (node l i) /\ next (node l' i) = next (node l i)) ->
  linked l' ls.
Proof.
  intros [] Es El Eh Et Hn. split; [unfold pool_ok in *; by rewrite Es, El|done| |congruence|congruence|].
  - intros i Hi. unfold slot_ok. rewrite Es. by apply ln_slots0.
  - eapply seg_ext, ln_seg0. intros i Hi. by destruct (Hn i Hi) as [-> ->].
Qed.

Lemma set_links_ok l ls i f :
  linked l ls -> slot_ok l i -> (forall n, prev (f n) = prev n /\ next (f n) = next n) -> linked (set_node f i l) ls.
Proof.
  intros L Hi Hf. apply (linked_ext l); try done; [cbn; apply length_alter|].
  intros j Hj. rewrite node_set by (done || (by apply (ln_slots l ls L)) || apply L).
  destruct (j =? i); [apply Hf|done].
Qed.

Lemma AllocSlot_frame (p : BitmapPool.pool RequestRateLimiterNode) :
  pool_ (AllocSlot p).2 = pool_ p /\ slots_ (AllocSlot p).2 = slots_ p.
Proof.
  unfold AllocSlot. destruct (scan _ _ (lastUsedIndex_ p)) as [[w b]|]; [done|].
  by destruct (scan _ _ 0) as [[w b]|].
Qed.

(** A key in the index sits somewhere in the list, once. *)
Lemma inv_found l ls m k i :
  inv l ls m -> m !! k = Some i ->
  exists xs ys, ls = xs ++ i :: ys /\ slot_ok l i /\ key (node l i) = k /\
    no_key k (view l xs) /\ no_key k (view l ys) /\
    view l ls = view l xs ++ (k, entry (node l i)) :: view l ys.
Proof.
  intros (L & _ & _ & H1 & H2) Hk. destruct (H2 k i Hk) as [Hi Ek].
  apply list_elem_of_split in Hi as (xs & ys & ->). exists xs, ys. split; [done|].
  split; [apply (ln_slots _ _ L), elem_of_app; right; apply list_elem_of_here|]. split; [done|].
  pose proof (ln_nodup _ _ L) as Hnd. apply NoDup_app in Hnd as (_ & Hxy & Hy). apply NoDup_cons in Hy as [Hy _].
  assert (Hne : forall j, j ∈ xs ++ ys -> key (node l j) <> k).
  { intros j Hj E. specialize (H1 j (elem_mid _ i _ _ Hj)). rewrite E, Hk in H1. injection H1 as <-.
    apply elem_of_app in Hj as [Hj|Hj]; [|done]. apply (Hxy i Hj), list_elem_of_here. }
  split; [|split].
  - apply Forall_map, Forall_forall. intros j Hj. apply Hne, elem_of_app. by left.
  - apply Forall_map, Forall_forall. intros j Hj. apply Hne, elem_of_app. by right.
  - rewrite view_app. cbn. by rewrite Ek.
Qed.

Lemma inv_absent l ls m k : inv l ls m -> m !! k = None -> no_key k (view l ls).
Proof.
  intros (_ & _ & _ & H1 & _) Hk. apply Forall_map, Forall_forall. intros j Hj E. cbn in E.
  specialize (H1 j Hj). congruence.
Qed.

(** ** Touching, and changing the entry of a node *)

Lemma same_data_inv l l' ls ls' m :
  inv l ls m -> same_data l l' -> linked l' ls' -> (forall i, i ∈ ls' <-> i ∈ ls) -> inv l' ls' m.
Proof.
  intros (L & R & I & X) (D1 & D2 & D3 & D4) L' Hm. split; [done|]. split; [|split].
  - apply D3. by replace (list_to_set ls' : gset Z) with (list_to_set ls : gset Z) by set_solver.
  - by rewrite D1.
  - eapply indexed_ext; [|exact Hm|exact X]. intros i Hi. by destruct (D4 i (ln_slots l ls L i Hi)) as [-> _].
Qed.

Lemma Touch_inv l ls m k i :
  inv l ls m -> m !! k = Some i ->
  exists xs ys, ls = xs ++ i :: ys /\ inv (Touch i l) (i :: xs ++ ys) m /\ same_data l (Touch i l) /\
    spec_find k (view l ls) = Some (entry (node l i)) /\
    view (Touch i l) (i :: xs ++ ys) = (k, entry (node l i)) :: spec_remove k (view l ls) /\
    slot_ok (Touch i l) i.
Proof.
  intros I Hk. destruct (inv_found l ls m k i I Hk) as (xs & ys & -> & Hi & Ek & Hx & Hy & Ev).
  exists xs, ys. split; [done|]. pose proof I as (L & _). destruct (Touch_ok l xs i ys L) as [L' D].
  split; [|split; [done|split; [by rewrite Ev, spec_find_mid|split; [|by eapply slot_ok_data]]]].
  - eapply same_data_inv; [done..|]. intros j. rewrite elem_of_cons, !elem_of_app, elem_of_cons. tauto.
  - rewrite Ev, spec_remove_mid, <- view_app, view_cons by done. destruct D as (_ & _ & _ & D4).
    destruct (D4 i Hi) as [-> ->]. rewrite Ek. f_equal. apply view_ext. intros j Hj. apply D4, (ln_slots _ _ L), elem_mid, Hj.
Qed.

(** A change of the entry at the front. *)
Lemma front_entry l i ls m f g :
  inv l (i :: ls) m ->
  (forall n, prev (f n) = prev n /\ next (f n) = next n /\ key (f n) = key n /\ entry (f n) = g (entry n)) ->
  inv (set_node f i l) (i :: ls) m /\
  view (set_node f i l) (i :: ls) = (key (node l i), g (entry (node l i))) :: view l ls.
Proof.
  intros (L & R & I & X) Hf. pose proof (ln_pool _ _ L) as Hp.
  assert (Hs : forall j, j ∈ i :: ls -> slot_ok l j) by apply (ln_slots _ _ L).
  assert (Hi : slot_ok l i) by (apply Hs, list_elem_of_here).
  pose proof (ln_nodup _ _ L) as Hnd. apply NoDup_cons in Hnd as [Hni _].
  split; [split; [|split; [|split]]|].
  - apply set_links_ok; [done..|]. intros n. by destruct (Hf n) as (-> & -> & _).
  - by apply write_slot_ok.
  - done.
  - eapply indexed_ext; [| |exact X]; [|done]. intros j Hj. rewrite node_set by auto.
    destruct (j =? i); [apply Hf|done].
  - assert (Ei : node (set_node f i l) i = f (node l i)) by (rewrite node_set by done; by rewrite Z.eqb_refl).
    cbn. rewrite Ei. destruct (Hf (node l i)) as (_ & _ & -> & ->). f_equal. apply view_ext. intros j Hj.
    rewrite node_set by (done || apply Hs; by apply list_elem_of_further).
    destruct (Z.eqb_spec j i) as [->|]; done.
Qed.

Lemma Release_refines cap ip l V :
  refines cap l V -> exists l', Release ip l = Ret l' /\ refines cap l' (spec_release (NormalizeIp ip) V).
Proof.
  intros (Hc & ls & m & I & ->). set (k := NormalizeIp ip). unfold Release. fold k. pose proof I as (L & R & Ix & X).
  rewrite (map_get_ok k _ m Ix). cbn [obind]. destruct (m !! k) as [i|] eqn:Hk.
  - destruct (inv_found l ls m k i I Hk) as (xs & ys & -> & Hi & Ek & Hx & Hy & Ev).
    eexists. split; [done|]. split; [done|]. exists (xs ++ i :: ys), m.
    set (f := fun n => set_refCount (u32 (refCount (entry n) - Z.b2z (0 <? refCount (entry n)))) n).
    assert (Hn : forall j, j ∈ xs ++ i :: ys -> node (set_node f i l) j = if j =? i then f (node l j) else node l j)
      by (intros j Hj; apply node_set; [apply L|done|by apply (ln_slots _ _ L)]).
    split; [split; [by apply set_links_ok|split; [by apply write_slot_ok|split; [done|]]]|].
    + eapply indexed_ext; [| |exact X]; [|done]. intros j Hj. rewrite Hn by done. by destruct (j =? i).
    + rewrite Ev, spec_release_mid by done. rewrite view_app. f_equal; [|cbn; f_equal].
      * symmetry. apply view_ext. intros j Hj. rewrite Hn by (apply elem_of_app; by left).
        destruct (Z.eqb_spec j i) as [->|]; [|done]. exfalso.
        pose proof (ln_nodup _ _ L) as Hnd. apply NoDup_app in Hnd as (_ & Hd & _). apply (Hd i Hj), list_elem_of_here.
      * rewrite Hn, Z.eqb_refl by (apply elem_of_app; right; apply list_elem_of_here). cbn. by rewrite Ek.
      * symmetry. apply view_ext. intros j Hj. rewrite Hn by (apply elem_of_app; right; by apply list_elem_of_further).
        destruct (Z.eqb_spec j i) as [->|]; [|done]. exfalso.
        pose proof (ln_nodup _ _ L) as Hnd. apply NoDup_app in Hnd as (_ & _ & Hd). by apply NoDup_cons in Hd as [Hd _].
  - eexists. split; [done|]. split; [done|]. exists ls, m. split; [done|].
    by rewrite spec_release_none by (by eapply inv_absent).
Qed.

Lemma AllowRequest_refines cap now ip l V :
  refines cap l V ->
  exists l', AllowRequest ipConfig now ip l = Ret (l', (spec_allow now (NormalizeIp ip) V).2) /\
             refines cap l' (spec_allow now (NormalizeIp ip) V).1.
Proof.
  intros (Hc & ls & m & I & ->). set (k := NormalizeIp ip). unfold AllowRequest. fold k. pose proof I as (L & R & Ix & X).
  rewrite (map_get_ok k _ m Ix). cbn [obind]. destruct (m !! k) as [i|] eqn:Hk.
  - destruct (Touch_inv l ls m k i I Hk) as (xs & ys & E & I' & D & Ef & Ev & Hi).
    unfold spec_allow. rewrite Ef. cbn zeta. pose proof D as (_ & D2 & _ & D4).
    assert (Hi0 : slot_ok l i) by (unfold slot_ok in *; lia).
    destruct (D4 i Hi0) as [Ek Ee]. rewrite Ee.
    eexists. split; [done|]. set (r := bucket_step ipConfig now (bucket (entry (node l i)))).
    destruct (front_entry (Touch i l) i (xs ++ ys) m (set_bucket r.2) (fun e => Entry (refCount e) r.2) I' ltac:(done))
      as [I2 V2].
    split; [cbn; by rewrite D2|]. exists (i :: xs ++ ys), m. split; [done|]. rewrite V2. cbn [fst]. rewrite view_cons in Ev.
    injection Ev as Ev1 Ev2 Ev3. by rewrite Ev1, Ev2, Ev3.
  - unfold spec_allow. rewrite no_key_find by (by eapply inv_absent). eexists. split; [done|]. split; [done|]. by exists ls, m.
Qed.

(** ** Making room for a new identity *)

Lemma find_victim_spec l ls zs ys fuel :
  linked l ls -> ls = zs ++ ys -> (length zs < fuel)%nat ->
  let v := find_victim fuel l (lst K_NO_LIMITER_NODE zs) in
  (v = K_NO_LIMITER_NODE /\ Forall (fun x => live x = true) (view l zs)) \/
  (exists xs i ws, v = i /\ zs = xs ++ i :: ws /\ live (key (node l i), entry (node l i)) = false /\
                   Forall (fun x => live x = true) (view l ws)).
Proof.
  intros L. revert zs ys. induction fuel as [|f IH]; intros zs ys E Hf; [lia|]. cbn [find_victim].
  destruct zs as [|i zs _] using rev_ind.
  { left. split; [done|constructor]. }
  rewrite seg_lst_snoc. rewrite length_app in Hf. cbn in Hf.
  assert (Hi : i ∈ ls) by (rewrite E, !elem_of_app; left; right; apply list_elem_of_here).
  assert (E' : ls = zs ++ i :: ys) by (by rewrite E, <- app_assoc).
  pose proof (linked_not_nil l ls i L Hi). rewrite (proj2 (Z.eqb_neq i _)) by done. cbn [negb andb].
  destruct (0 <? refCount (entry (node l i))) eqn:El.
  - assert (Ep : prev (node l i) = lst K_NO_LIMITER_NODE zs) by (rewrite E' in L; by apply (linked_mid l zs i ys)).
    rewrite Ep. destruct (IH zs (i :: ys) E' ltac:(lia)) as [[H1 H2]|(xs & j & ws & H1 & H2 & H3 & H4)].
    + left. split; [done|]. rewrite view_app. apply Forall_app. split; [done|]. by apply Forall_singleton.
    + right. exists xs, j, (ws ++ [i]). split; [done|]. split; [by rewrite H2, <- app_assoc|]. split; [done|].
      rewrite view_app. apply Forall_app. split; [done|]. by apply Forall_singleton.
  - right. exists zs, i, []. split; [done|]. split; [done|]. split; [exact El|]. constructor.
Qed.

(** The state between taking a slot and linking it: [idx] is allocated and not in
    the list. *)
Definition pending l (ls : list Z) (m : gmap WFXIpAddress Z) (idx : Z) : Prop :=
  linked l ls /\ slot_ok l idx /\ (idx ∉ ls) /\
  represents (pool l) ({[idx]} ∪ list_to_set ls) ∅ /\ map_rep (index_ l) m /\ indexed l ls m.

Lemma nodup_in_range (ls : list Z) n :
  NoDup ls -> (forall i, i ∈ ls -> 0 <= i < n) -> 0 <= n -> Z.of_nat (length ls) <= n.
Proof.
  intros Hd Hr Hn. assert (H : ls ⊆+ seqZ 0 n).
  { apply NoDup_submseteq; [done|]. intros i Hi. apply elem_of_seqZ. specialize (Hr i Hi). lia. }
  apply submseteq_length in H. rewrite length_seqZ in H. lia.
Qed.

Lemma full_length (ls : list Z) n :
  0 <= n -> (forall i, 0 <= i < n -> i ∈ ls) -> n <= Z.of_nat (length ls).
Proof.
  intros Hn Hr. assert (H : seqZ 0 n ⊆+ ls).
  { apply NoDup_submseteq; [apply NoDup_seqZ|]. intros i Hi%elem_of_seqZ. apply Hr. lia. }
  apply submseteq_length in H. rewrite length_seqZ in H. lia.
Qed.

Lemma indexed_delete l ls i xs ys m :
  ls = xs ++ i :: ys -> NoDup ls -> indexed l ls m -> indexed l (xs ++ ys) (delete (key (node l i)) m).
Proof.
  intros -> Hnd [H1 H2]. apply NoDup_app in Hnd as (_ & Hxy & Hy). apply NoDup_cons in Hy as [Hy _].
  assert (Hi : i ∈ xs ++ i :: ys) by (apply elem_of_app; right; apply list_elem_of_here).
  split.
  - intros j Hj. pose proof (H1 j (elem_mid _ i _ _ Hj)) as Hj'. rewrite lookup_delete_ne; [done|].
    intros E. rewrite <- E, (H1 i Hi) in Hj'. injection Hj' as <-.
    apply elem_of_app in Hj as [Hj|Hj]; [|done]. apply (Hxy i Hj), list_elem_of_here.
  - intros k j Hj. apply lookup_delete_Some in Hj as [Hne Hj]. destruct (H2 k j Hj) as [Hin E]. split; [|done].
    apply elem_of_app. apply elem_of_app in Hin as [Hin|Hin]; [by left|].
    apply elem_of_cons in Hin as [->|Hin]; [done|by right].
Qed.

Lemma take_slot_ok l ls m :
  inv l ls m ->
  exists l1 o, take_slot l = Ret (l1, o) /\ slots_ (pool l1) = slots_ (pool l) /\
    (map_room (index_ l) -> map_room (index_ l1)) /\
    match (if Z.of_nat (length (view l ls)) <? slots_ (pool l) then Some (view l ls) else evict (view l ls)) with
    | None => o = None /\ inv l1 ls m /\ view l1 ls = view l ls
    | Some V' => exists idx ls1 m1, o = Some idx /\ pending l1 ls1 m1 idx /\ view l1 ls1 = V' /\
                   (forall k, m !! k = None -> m1 !! k = None)
    end.
Proof.
  intros (L & R & I & X). unfold take_slot. pose proof (AllocSlot_ok (pool l) _ _ R) as HA.
  destruct (AllocSlot_frame (pool l)) as [Fp Fs].
  assert (Hs0 : 0 <= slots_ (pool l)) by (destruct R as ([] & _); lia).
  assert (Hn : forall l', pool_ (pool l') = pool_ (pool l) -> forall j, node l' j = node l j)
    by (intros l' E j; unfold node, GetPtr; by rewrite E).
  replace (length (view l ls)) with (length ls) by (symmetry; apply length_map).
  destruct (AllocSlot (pool l)) as [[idx|] p] eqn:EA; cbn [snd] in Fp, Fs.
  - destruct HA as (Hi & Hni & R'). eexists _, _. split; [done|]. split; [done|]. split; [done|].
    rewrite not_elem_of_list_to_set in Hni.
    assert (Hlt : Z.of_nat (length ls) < slots_ (pool l)).
    { pose proof (nodup_in_range (idx :: ls) (slots_ (pool l))) as Hr. cbn [length] in Hr.
      enough (Z.of_nat (Datatypes.S (length ls)) <= slots_ (pool l)) by lia. apply Hr; [|intros j Hj|done].
      - apply NoDup_cons. split; [done|apply L].
      - apply elem_of_cons in Hj as [->|Hj]; [apply Hi|by apply (ln_slots _ _ L)]. }
    rewrite (proj2 (Z.ltb_lt _ _)) by done. exists idx, ls, m. split; [done|].
    pose proof (Hn (with_pool p l) Fp) as Hn'. split; [|split; [|done]].
    + split; [|split; [unfold slot_ok; cbn; rewrite Fs; exact Hi|split; [done|split; [done|split; [done|]]]]].
      * apply (linked_ext l); try done; [cbn; by rewrite Fp|]. intros j _. by rewrite Hn'.
      * eapply indexed_ext; [| |exact X]; [|done]. intros j _. by rewrite Hn'.
    + apply view_ext. intros j _. by rewrite Hn'.
  - destruct HA as [-> Hfull]. pose proof (Hn (with_pool (pool l) l) eq_refl) as Hn'.
    replace (with_pool (pool l) l) with l by (by destruct l).
    assert (Hge : slots_ (pool l) <= Z.of_nat (length ls)).
    { apply full_length; [done|]. intros i Hi. apply Hfull in Hi. by apply elem_of_list_to_set in Hi. }
    rewrite (proj2 (Z.ltb_ge _ _)) by done.
    assert (Hle : Z.of_nat (length ls) <= slots_ (pool l))
      by (apply nodup_in_range; [apply L|apply (ln_slots _ _ L)|done]).
    pose proof (find_victim_spec l ls ls [] (Datatypes.S (length (pool_ (pool l)))) L) as Hv. rewrite app_nil_r in Hv.
    specialize (Hv eq_refl). rewrite <- (ln_tail _ _ L) in Hv.
    destruct Hv as [[-> Hl]|(xs & i & ws & -> & E & Hidle & Hl)].
    { destruct (ln_pool _ _ L) as [Hp _]. lia. }
    + rewrite Z.eqb_refl. eexists _, _. split; [done|]. split; [done|]. split; [done|].
      rewrite evict_live by done. split; [done|]. by split.
    + assert (Hi : i ∈ ls) by (rewrite E; apply elem_of_app; right; apply list_elem_of_here).
      rewrite (proj2 (Z.eqb_neq _ _)) by (by apply (linked_not_nil l ls)).
      rewrite E in L. destruct (lru_Unlink_ok l xs i ws L) as [L' D]. pose proof D as (D1 & D2 & D3 & D4).
      rewrite D1. destruct (map_erase_ok (key (node l i)) _ m I) as (s' & Es & I' & Hroom). rewrite Es. cbn [obind fst].
      eexists _, _. split; [done|]. split; [done|]. split; [done|].
      rewrite E, view_app, view_cons, evict_mid by done.
      assert (Hs : forall j, j ∈ xs ++ ws -> slot_ok l j) by (intros j Hj; apply (ln_slots _ _ L), elem_mid, Hj).
      exists i, (xs ++ ws), (delete (key (node l i)) m). split; [done|]. split; [|split].
      * split; [by apply (linked_ext (Unlink i l))|].
        split; [apply (slot_ok_data l (Unlink i l)); [exact D|rewrite <- E in L; by apply (ln_slots _ _ L)]|].
        pose proof (ln_nodup _ _ L) as Hnd.
        split. { apply NoDup_app in Hnd as (_ & Hxy & Hy). apply NoDup_cons in Hy as [Hy _].
                 intros [Hj|Hj]%elem_of_app; [|done]. apply (Hxy i Hj), list_elem_of_here. }
        split. { apply D3 in R. cbn. replace ({[i]} ∪ list_to_set (xs ++ ws) : gset Z) with (list_to_set ls : gset Z); [done|].
                 rewrite E, !list_to_set_app_L, list_to_set_cons. clear. set_solver. }
        split; [done|]. apply (indexed_ext l _ (xs ++ ws)); [|done|].
        { intros j Hj. by destruct (D4 j (Hs j Hj)). }
        apply (indexed_delete l ls i xs ws m E); [by rewrite E|exact X].
      * rewrite <- view_app. apply view_ext. intros j Hj. apply (D4 j), Hs, Hj.
      * intros k Hk. apply lookup_delete_None. by right.
Qed.

Lemma Acquire_refines cap now ip l V :
  refines cap l V -> map_room (index_ l) ->
  exists l', Acquire ipConfig now ip l = Ret (l', (spec_acquire cap now (NormalizeIp ip) V).2) /\
             refines cap l' (spec_acquire cap now (NormalizeIp ip) V).1.
Proof.
  intros (Hc & ls & m & I & ->) Hroom. set (k := NormalizeIp ip). unfold Acquire, FindOrCreate. fold k.
  pose proof I as (L & R & Ix & X). rewrite (map_get_ok k _ m Ix). cbn [obind]. unfold spec_acquire.
  destruct (m !! k) as [i|] eqn:Hk; cbn [obind].
  - destruct (Touch_inv l ls m k i I Hk) as (xs & ys & E & I' & D & Ef & Ev & Hi). rewrite Ef.
    eexists. split; [done|]. pose proof D as (_ & D2 & _).
    destruct (front_entry (Touch i l) i (xs ++ ys) m (fun n => set_refCount (u32 (refCount (entry n) + 1)) n) add_ref I' ltac:(done))
      as [I2 V2].
    split; [cbn; by rewrite D2|]. exists (i :: xs ++ ys), m. split; [done|]. rewrite V2. cbn [fst].
    rewrite view_cons in Ev. injection Ev as Ev1 Ev2 Ev3. by rewrite Ev1, Ev2, Ev3.
  - rewrite no_key_find by (by eapply inv_absent). destruct (take_slot_ok l ls m I) as (l1 & o & Et & Es & Hr & H).
    rewrite Et. cbn [obind]. rewrite <- Hc. destruct (if _ <? _ then _ else _) as [V'|].
    + destruct H as (idx & ls1 & m1 & -> & (L1 & Hi & Hni & R1 & I1 & X1) & Ev & Hm).
      destruct (map_insert_ok k idx _ m1 I1 (Hr Hroom)) as (s2 & E2 & I2). rewrite E2. cbn [obind snd fst negb].
      set (l2 := with_index s2 l1). set (f := fun n => Node k (new_entry now) (prev n) (next n)).
      assert (Hs : forall j, j ∈ ls1 -> slot_ok l1 j) by apply (ln_slots _ _ L1).
      assert (L2 : linked (set_node f idx l2) ls1) by (apply set_links_ok; [by apply (linked_ext l1)|done|done]).
      assert (N2 : forall j, slot_ok l1 j -> node (set_node f idx l2) j = if j =? idx then f (node l1 j) else node l1 j)
        by (intros j Hj; rewrite node_set by (done || apply L1); done).
      destruct (LinkFront_ok (set_node f idx l2) idx ls1 L2 Hi Hni) as [L3 D3].
      pose proof D3 as (F1 & F2 & F3 & F4). set (l3 := LinkFront idx (set_node f idx l2)) in *.
      assert (N3 : forall j, slot_ok l1 j -> key (node l3 j) = (if j =? idx then k else key (node l1 j)) /\
                                             entry (node l3 j) = (if j =? idx then new_entry now else entry (node l1 j))).
      { intros j Hj. destruct (F4 j Hj) as [-> ->]. rewrite N2 by done. by destruct (j =? idx). }
      assert (Hne : forall j, j ∈ ls1 -> (j =? idx) = false) by (intros j Hj; apply Z.eqb_neq; intros ->; done).
      assert (Hk1 : m1 !! k = None) by (by apply Hm).
      assert (I3 : inv l3 (idx :: ls1) (<[k := idx]> m1)).
      { split; [done|]. split; [|split; [by rewrite F1|]].
        - apply F3, write_slot_ok. cbn. done.
        - destruct X1 as [X1 X2]. split.
          + intros j [->|Hj]%elem_of_cons.
            * destruct (N3 idx Hi) as [-> _]. rewrite Z.eqb_refl. apply lookup_insert_eq.
            * destruct (N3 j (Hs j Hj)) as [-> _]. rewrite Hne by done. rewrite lookup_insert_ne; [auto|].
              intros E. specialize (X1 j Hj). congruence.
          + intros k' j. destruct (decide (k' = k)) as [->|Hnk].
            * rewrite lookup_insert_eq. intros [= <-]. split; [apply list_elem_of_here|].
              destruct (N3 idx Hi) as [-> _]. by rewrite Z.eqb_refl.
            * rewrite lookup_insert_ne by done. intros Hj. destruct (X2 k' j Hj) as [Hin E].
              split; [by apply list_elem_of_further|]. destruct (N3 j (Hs j Hin)) as [-> _]. by rewrite Hne. }
      assert (V3 : view l3 ls1 = V').
      { rewrite <- Ev. apply view_ext. intros j Hj. destruct (N3 j (Hs j Hj)) as [-> ->]. by rewrite Hne. }
      destruct (front_entry l3 idx ls1 _ (fun n => set_bucket (Bucket (maxRequestBurstSize ipConfig) (lastRefill (bucket (entry n)))) n)
                  (fun e => Entry (refCount e) (Bucket (maxRequestBurstSize ipConfig) (lastRefill (bucket e)))) I3 ltac:(done)) as [I4 V4].
      set (l4 := set_node (fun n => set_bucket _ n) idx l3) in *.
      destruct (front_entry l4 idx ls1 _ (fun n => set_refCount (u32 (refCount (entry n) + 1)) n) add_ref I4 ltac:(done)) as [I5 V5].
      eexists. split; [done|]. split; [cbn; rewrite F2; cbn; congruence|].
      exists (idx :: ls1), (<[k := idx]> m1). split; [done|]. rewrite V5. cbn [fst].
      rewrite view_cons in V4. injection V4 as V4a V4b V4c. rewrite V4a, V4b, V4c, V3.
      destruct (N3 idx Hi) as [-> ->]. rewrite Z.eqb_refl. done.
    + destruct H as (-> & I1 & Ev). eexists. split; [done|]. split; [cbn; congruence|]. by exists ls, m.
Qed.

(** ** Properties *)

(** The connection of an identity keeps it tracked: only idle entries are
    evicted. *)
Lemma evict_keeps_live V V' x : evict V = Some V' -> x ∈ V -> live x = true -> x ∈ V'.
Proof.
  revert V'. induction V as [|y V IH]; intros V'; [done|]. cbn. intros E Hx Hl.
  apply elem_of_cons in Hx. destruct (evict V) as [r|].
  - injection E as <-. apply elem_of_cons. destruct Hx as [->|Hx]; [by left|right; by apply IH].
  - destruct (live y) eqn:Ey; [done|]. injection E as <-. destruct Hx as [->|Hx]; [congruence|done].
Qed.

Lemma acquire_keeps_live cap now k V x :
  x ∈ V -> live x = true -> fst x <> k -> x ∈ (spec_acquire cap now k V).1.
Proof.
  intros Hx Hl Hk. unfold spec_acquire. destruct (spec_find k V).
  - apply list_elem_of_further. by apply list_elem_of_filter.
  - destruct (_ <? _); [by apply list_elem_of_further|]. destruct (evict V) eqn:E; [|done].
    apply list_elem_of_further. by eapply evict_keeps_live.
Qed.

(** C20: the limiter is a list of identities in order of use, of at most as many as
    the pool has slots.  [Acquire] moves an identity to the front and counts a
    connection on it, its bucket untouched, or tracks a new one with a full bucket,
    dropping at capacity the least recently used identity without a connection and
    refusing when there is none; [AllowRequest] moves a tracked identity to the
    front and runs its bucket, and denies an untracked one; [Release] only counts a
    connection off.  No identity with a connection is ever evicted. *)
Theorem limiter_refines_lru cap now ip l V :
  refines cap l V ->
  let k := NormalizeIp ip in
  (map_room (index_ l) ->
     exists l', Acquire ipConfig now ip l = Ret (l', (spec_acquire cap now k V).2) /\
                refines cap l' (spec_acquire cap now k V).1) /\
  (exists l', AllowRequest ipConfig now ip l = Ret (l', (spec_allow now k V).2) /\
              refines cap l' (spec_allow now k V).1) /\
  (exists l', Release ip l = Ret l' /\ refines cap l' (spec_release k V)) /\
  (forall x, x ∈ V -> live x = true -> fst x <> k -> x ∈ (spec_acquire cap now k V).1).
Proof.
  intros R k. split; [by apply Acquire_refines|]. split; [by apply AllowRequest_refines|].
  split; [by apply Release_refines|]. intros x. apply acquire_keeps_live.
Qed.

(** ** The bucket *)

(** The requests of one identity at the times [ts]: how many were allowed. *)
Fixpoint allowed (ts : list Z) (b : TokenBucket) : Z :=
  match ts with
  | [] => 0
  | t :: r => Z.b2z (fst (bucket_step ipConfig t b)) + allowed r (snd (bucket_step ipConfig t b))
  end.

(** [std::chrono::steady_clock] never goes back. *)
Fixpoint monotone (from : Z) (ts : list Z) : Prop :=
  match ts with
  | [] => True
  | t :: r => from <= t /\ monotone t r
  end.

Context (Hrate : 0 <= maxTokensPerSecond ipConfig) (Hburst : 0 <= maxRequestBurstSize ipConfig).

(** Tokens and the time not yet turned into tokens, in billionths of a token. *)
Definition credit (t : Z) (b : TokenBucket) : Z :=
  10 ^ 9 * tokens b + maxTokensPerSecond ipConfig * (t - lastRefill b).

Lemma wrap_le w x : 0 <= x -> 0 <= w -> wrap w x <= x.
Proof. intros H Hw. unfold wrap. apply Z.mod_le; [done|]. apply Z.pow_pos_nonneg; lia. Qed.

Lemma bucket_step_credit t b :
  0 <= tokens b -> lastRefill b <= t ->
  let r := bucket_step ipConfig t b in
  10 ^ 9 * Z.b2z (fst r) + credit t (snd r) <= credit t b /\ 0 <= tokens (snd r) /\ lastRefill (snd r) <= t.
Proof.
  intros Ht Hl r. unfold r, bucket_step, credit. clear r.
  rewrite Z.quot_div_nonneg by lia. set (rate := maxTokensPerSecond ipConfig) in *.
  set (ms := Z.max 0 ((t - lastRefill b) / 1000000)).
  assert (Hms : 0 <= ms /\ 1000000 * ms <= t - lastRefill b) by (unfold ms; Z.to_euclidean_division_equations; lia).
  pose proof (wrap_le 64 (ms * rate) ltac:(nia) ltac:(lia)) as Hw. pose proof (wrap_range 64 (ms * rate) ltac:(lia)) as Hw0.
  set (x := u64 (ms * rate)) in *. set (refill := x / 1000).
  assert (Hr : 0 <= refill /\ 1000 * refill <= x) by (unfold refill; Z.to_euclidean_division_equations; lia).
  assert (Hc : 10 ^ 9 * refill <= rate * (t - lastRefill b)) by nia.
  destruct (Z.ltb_spec 0 refill) as [Hp|Hz].
  - pose proof (wrap_le 32 refill ltac:(lia) ltac:(lia)). pose proof (wrap_range 32 refill ltac:(lia)).
    pose proof (wrap_le 32 (tokens b + u32 refill) ltac:(lia) ltac:(lia)).
    pose proof (wrap_range 32 (tokens b + u32 refill) ltac:(lia)).
    set (tk := Z.min _ _). assert (0 <= tk <= tokens b + refill) by (unfold tk; lia).
    cbn [tokens lastRefill]. destruct (Z.ltb_spec 0 tk); cbn [fst snd tokens lastRefill Z.b2z]; nia.
  - destruct (Z.ltb_spec 0 (tokens b)); cbn [fst snd tokens lastRefill Z.b2z]; nia.
Qed.

(** C32: the rate limit holds over any sequence of requests: from a bucket with [n]
    tokens last refilled at [t0], the requests up to time [t] that are allowed are
    at most [n] plus the configured rate times the time elapsed, whatever their
    number and spacing (and however the 32- and 64-bit arithmetic wraps), and the
    bucket never holds more than the burst. *)
Theorem token_bucket_bound ts t b :
  0 <= tokens b <= maxRequestBurstSize ipConfig -> monotone (lastRefill b) ts ->
  Forall (fun t' => t' <= t) ts -> lastRefill b <= t ->
  allowed ts b <= tokens b + maxTokensPerSecond ipConfig * (t - lastRefill b) / 10 ^ 9 /\
  Forall (fun t' => tokens (snd (bucket_step ipConfig t' b)) <= maxRequestBurstSize ipConfig) ts.
Proof.
  intros Hb Hm Hts Hl. split.
  - assert (G : forall from, 0 <= tokens b -> lastRefill b <= from -> from <= t -> monotone from ts -> Forall (fun t' => t' <= t) ts ->
                10 ^ 9 * allowed ts b <= credit t b).
    { clear Hb Hm Hts Hl. revert b. induction ts as [|t1 ts IH]; intros b from H0 Hf Hft Hm Ht; [unfold credit; cbn; nia|].
      cbn [allowed monotone] in *. destruct Hm as [Hm1 Hm2]. apply Forall_cons in Ht as [Ht1 Ht].
      destruct (bucket_step_credit t1 b H0 ltac:(lia)) as (Hc & Hn & Hl).
      specialize (IH (snd (bucket_step ipConfig t1 b)) t1 Hn Hl Ht1 Hm2 Ht). unfold credit in *. nia. }
    specialize (G (lastRefill b) ltac:(lia) ltac:(lia) Hl Hm Hts). unfold credit in G.
    pose proof (Z.div_mod (maxTokensPerSecond ipConfig * (t - lastRefill b)) (10 ^ 9) ltac:(lia)).
    pose proof (Z.mod_pos_bound (maxTokensPerSecond ipConfig * (t - lastRefill b)) (10 ^ 9) ltac:(lia)). lia.
  - apply Forall_forall. intros t' _. unfold bucket_step. set (refill := _ / 1000).
    destruct (0 <? refill); cbn [tokens]; destruct (0 <? _); cbn [snd tokens]; lia.
Qed.

(** C33: a throttled client is served again: once the time since the bucket was last
    refilled is worth a token ([1000 / rate] milliseconds), the next request of a
    tracked identity is allowed, as long as the burst is not zero and the 32-bit sum of
    the tokens and the refill does not wrap to exactly zero (it can: see
    [refill_wraps_to_zero]); the product of time and rate is below [2 ^ 64]. *)
Theorem throttled_client_recovers cap now ip l V e :
  refines cap l V -> spec_find (NormalizeIp ip) V = Some e ->
  0 < maxRequestBurstSize ipConfig ->
  let ms := (now - lastRefill (bucket e)) / 1000000 in
  0 <= ms -> 1000 <= ms * maxTokensPerSecond ipConfig < 2 ^ 64 ->
  (tokens (bucket e) + ms * maxTokensPerSecond ipConfig / 1000) mod 2 ^ 32 <> 0 ->
  exists l', AllowRequest ipConfig now ip l = Ret (l', true) /\
             refines cap l' (spec_allow now (NormalizeIp ip) V).1.
Proof.
  intros R Ef Hb ms Hms Hone Hnz. destruct (AllowRequest_refines cap now ip l V R) as (l' & E & R').
  exists l'. split; [|done]. rewrite E. do 2 f_equal. unfold spec_allow. rewrite Ef. cbn zeta. cbn [snd].
  unfold bucket_step. assert (H0 : 0 <= now - lastRefill (bucket e)) by (unfold ms in Hms; Z.to_euclidean_division_equations; lia).
  rewrite Z.quot_div_nonneg, Z.max_r by lia. fold ms. set (x := ms * maxTokensPerSecond ipConfig) in *.
  assert (Hr : 1 <= x / 1000) by (Z.to_euclidean_division_equations; lia).
  rewrite (wrap_small 64) by lia. rewrite (proj2 (Z.ltb_lt 0 (x / 1000))) by lia. cbn [tokens].
  assert (Hw : 0 < u32 (tokens (bucket e) + u32 (x / 1000))).
  { unfold wrap. rewrite Z.add_mod_idemp_r by lia. pose proof (Z.mod_pos_bound (tokens (bucket e) + x / 1000) (2 ^ 32) ltac:(lia)). lia. }
  rewrite (proj2 (Z.ltb_lt 0 (Z.min _ _))) by lia. done.
Qed.

End proofs.

(** ** A new limiter *)

Section fresh.
Context (ipConfig : IPConfig) (w_hash : WFXIpAddress -> Z) (entry_size : Z) (Alloc_ok : Z -> bool).
Context (Hmem : forall n, Alloc_ok n = true) (Hsize : 0 < entry_size).

Let FM := shard_map w_hash entry_size Alloc_ok (K := WFXIpAddress) (V := Z).

Lemma new_limiter_ok now :
  is_uint 32 (maxTrackedIdentities ipConfig) ->
  2 * Z.of_nat (HashShard.bit_ceil (max 8 (HashShard.live_ceiling (Z.to_nat (maxTrackedIdentities ipConfig))))) * entry_size < 2 ^ 63 ->
  exists l, new_limiter ipConfig now entry_size Alloc_ok = Ret l /\
    refines (FM := FM) (pool_slots (maxTrackedIdentities ipConfig) false) l [] /\ map_room (FiniteMap := FM) (index_ l).
Proof.
  intros Hn Hm. unfold new_limiter. set (n := maxTrackedIdentities ipConfig) in *.
  destruct (new_pool_ok (new_node now) 64 Alloc_ok n false Hn Hmem) as (p & -> & Es & Ep & R). cbn [obind].
  destruct (HashShard.init_table_spec w_hash entry_size Alloc_ok (HashShard.live_ceiling (Z.to_nat n)) (K := WFXIpAddress) (V := Z))
    as (t & Et & Hi & Hmap & Hc); [done|done|lia|].
  unfold HashShard.Init. rewrite Et. cbn [obind]. eexists. split; [done|]. split.
  - split; [done|]. exists [], ∅. split; [|done].
    assert (Hp : Z.of_nat (length (pool_ p)) = slots_ p) by (destruct R as ([] & _); done).
    split; [|split; [exact R|split; [|split; [by intros i Hi'%elem_of_nil|intros k i; by rewrite lookup_empty]]]].
    + split; try done; [|constructor|by intros i Hi'%elem_of_nil]. split; [done|]. cbn. rewrite Es.
      unfold pool_slots, MAX_64_ALIGNED. lia.
    + exists t. split; [done|]. split; [done|exact Hmap].
  - cbn. split; [done|]. split; [done|]. rewrite Hc. lia.
Qed.

End fresh.

(** ** Witnesses *)

Definition w_cfg : IPConfig := MkIPConfig 20 3 5 2 false [] [].
Definition w_hash (a : WFXIpAddress) : Z := fold_right (fun c h => c + 7 * h) 0 (raw a).
Definition w_map := shard_map w_hash 32 (fun _ => true) (K := WFXIpAddress) (V := Z).
Definition w_ip : WFXIpAddress := IpAddress [10; 0; 0; 1] 0 AF_INET.

Lemma w_fresh : exists l, new_limiter w_cfg 0 32 (fun _ => true) = Ret l /\ refines (FM := w_map) 64 l [] /\
  map_room (FiniteMap := w_map) (index_ l).
Proof. apply (new_limiter_ok w_cfg w_hash 32 (fun _ => true)); [done|done|done|vm_compute; reflexivity]. Qed.

Lemma limiter_refines_lru_witness :
  exists l, new_limiter w_cfg 0 32 (fun _ => true) = Ret l /\
    exists l', Acquire (FM := w_map) w_cfg 7 w_ip l = Ret (l', true).
Proof.
  destruct w_fresh as (l & E & R & Hroom). exists l. split; [exact E|].
  destruct (limiter_refines_lru (FM := w_map) w_cfg 64 7 w_ip l [] R) as (HA & _).
  destruct (HA Hroom) as (l' & El & _). exists l'. exact El.
Defined.

(** Three tokens and five a second: of five requests at once three pass, and one
    more 200 ms later. *)
Lemma token_bucket_bound_witness :
  allowed w_cfg [0; 0; 0; 0; 0; 200000000] (Bucket 3 0) = 4 /\
  allowed w_cfg [0; 0; 0; 0; 0; 200000000] (Bucket 3 0) <= 3 + 5 * (200000000 - 0) / 10 ^ 9.
Proof.
  split; [vm_compute; reflexivity|].
  apply (token_bucket_bound w_cfg ltac:(cbn; lia) ltac:(cbn; lia) [0; 0; 0; 0; 0; 200000000] 200000000 (Bucket 3 0)).
  - cbn. lia.
  - cbn. lia.
  - repeat constructor; lia.
  - cbn. lia.
Defined.

Lemma throttled_client_recovers_witness :
  exists l l', refines (FM := w_map) 64 l [(NormalizeIp w_ip, Entry 1 (Bucket 3 7))] /\
    AllowRequest (FM := w_map) w_cfg 200000007 w_ip l = Ret (l', true).
Proof.
  destruct w_fresh as (l & E & R & Hroom).
  destruct (Acquire_refines (FM := w_map) w_cfg 64 7 w_ip l [] R Hroom) as (l1 & _ & R1). exists l1.
  destruct (throttled_client_recovers (FM := w_map) w_cfg ltac:(cbn; lia) 64 200000007 w_ip l1 _ (Entry 1 (Bucket 3 7)) R1) as (l' & El & _).
  - reflexivity.
  - cbn. lia.
  - vm_compute. congruence.
  - vm_compute. split; [congruence|reflexivity].
  - vm_compute. congruence.
  - exists l'. split; [exact R1|exact El].
Defined.

(** Half a wrap of tokens a second for two seconds is a refill of [2 ^ 32], which counts as
    none: the request is denied although the bucket should be full. *)
Example refill_wraps_to_zero :
  (bucket_step (MkIPConfig 20 3 (2 ^ 31) (2 ^ 31) false [] []) 2000000000 (Bucket 0 0)).1 = false.
Proof. vm_compute. reflexivity. Qed.

(** The pool rounds the cap up to whole words: asked for two identities, 64 are
    tracked. *)
Example cap_rounded_up : match new_limiter w_cfg 0 32 (fun _ => true) with Ret l => slots_ (pool l) | Fatal _ => 0 end = 64.
Proof. vm_compute. reflexivity. Qed.

End RateLimiter.
