(* ===== verification/Response.v ===== *)
(** * Response: [http/response/http_response.cpp]

    [HttpResponse] serialises straight into the connection's write buffer: a status
    line whose code is patched in place, headers, a [Content-Length] slot patched
    at [Commit], and the chunked rounds of a flushed body.  A call that breaks the
    contract replaces the whole response with a 500.

    [HttpStatus] is its numeric value.  The file system is a parameter.  A
    [StreamGenerator] is an identifier; [destroyed_] records the generators whose
    destructor was called.  Templates are not modelled here. *)

From S2P Require Import Prelude Strings Constants RWBuffer Mime.
Import StringUtils RWBuffer Constants.

Module Response.

(** ** Constants and formatting *)

Definition CL_FIELD_WIDTH : nat := 10.
Definition CL_HEADER_PREFIX : bytes := lit "Content-Length: ".
Definition CL_PLACEHOLDER : bytes := lit "0000000000".
Definition CRLF : bytes := [CR; LF].
Definition CL_ZERO : bytes := lit "Content-Length: 0" ++ CRLF.
Definition CHUNK_HDR_RESERVE : nat := 10.
Definition CHUNK_TERMINATOR : bytes := lit "0" ++ CRLF ++ CRLF.
Definition STATUS_CODE_OFFSET : nat := 9.
Definition STATUS_LINE_PLACEHOLDER : bytes := lit "200 " ++ CRLF.

Definition HasCRLFOrNull (s : bytes) : bool := existsb (fun c => (c =? CR) || (c =? LF) || (c =? NUL)) s.

(** The low digits of [value], most significant first. *)
Fixpoint format_fixed (base : Z) (digit : Z -> Z) (n : nat) (value : Z) : bytes :=
  match n with
  | O => []
  | S k => format_fixed base digit k (value / base) ++ [digit (value mod base)]
  end.

Definition FormatFixed10 (value : Z) : bytes := format_fixed 10 (fun d => 48 + d) CL_FIELD_WIDTH value.

Definition HEX_DIGITS : bytes := lit "0123456789ABCDEF".
Definition FormatFixedHex8 (value : Z) : bytes := format_fixed 16 (fun d => at_ HEX_DIGITS (Z.to_nat d)) 8 value.

(** Digits least significant first; a 64-bit value has at most twenty. *)
Fixpoint digits_rev (fuel : nat) (value : Z) : bytes :=
  match fuel with
  | O => []
  | S f => if 0 <? value then (48 + value mod 10) :: digits_rev f (value / 10) else []
  end.

Definition FormatUInt64 (value : Z) : bytes := if value =? 0 then [48] else rev (digits_rev 20 value).

Definition StatusForbidsBody (code : Z) : bool :=
  ((100 <=? code) && (code <? 200)) || (code =? 204) || (code =? 304).

(** The three characters [WriteStatus] patches in. *)
Definition status_digits (c : Z) : bytes :=
  [u8 (48 + c / 100); u8 (48 + (c / 10) mod 10); u8 (48 + c mod 10)].

(** ** State *)

Inductive ResponsePhase := FRESH | STATUS | HEADERS | BODY | COMMITTED.
Inductive BodyKind := NONE | BUFFERED | GEN_STREAM | AWAIT_STREAM | FILE.

#[export] Instance ResponsePhase_eq_dec : EqDecision ResponsePhase.
Proof. solve_decision. Defined.
#[export] Instance BodyKind_eq_dec : EqDecision BodyKind.
Proof. solve_decision. Defined.

Definition phase_value (p : ResponsePhase) : Z :=
  match p with FRESH => 0 | STATUS => 1 | HEADERS => 2 | BODY => 3 | COMMITTED => 4 end.
Definition phase_is (p q : ResponsePhase) : bool := phase_value p =? phase_value q.
Definition phase_ge (p q : ResponsePhase) : bool := phase_value q <=? phase_value p.

Record HttpResponse := mkResponse {
  rwBuffer_ : rwbuffer;
  version_ : HttpVersion;
  shouldClose_ : bool;
  phase_ : ResponsePhase;
  bodyKind_ : BodyKind;
  status_ : Z;
  clNeeded_ : bool;
  aborted_ : bool;
  clOffset_ : Z;
  bodyStartOffset_ : Z;
  persistentHeadersEndOffset_ : Z;
  filePath_ : bytes;
  stream_ : option Z;
  destroyed_ : list Z
}.

Definition set_rw rw r := mkResponse rw (version_ r) (shouldClose_ r) (phase_ r) (bodyKind_ r) (status_ r) (clNeeded_ r)
  (aborted_ r) (clOffset_ r) (bodyStartOffset_ r) (persistentHeadersEndOffset_ r) (filePath_ r) (stream_ r) (destroyed_ r).
Definition set_phase p r := mkResponse (rwBuffer_ r) (version_ r) (shouldClose_ r) p (bodyKind_ r) (status_ r) (clNeeded_ r)
  (aborted_ r) (clOffset_ r) (bodyStartOffset_ r) (persistentHeadersEndOffset_ r) (filePath_ r) (stream_ r) (destroyed_ r).
Definition set_kind k r := mkResponse (rwBuffer_ r) (version_ r) (shouldClose_ r) (phase_ r) k (status_ r) (clNeeded_ r)
  (aborted_ r) (clOffset_ r) (bodyStartOffset_ r) (persistentHeadersEndOffset_ r) (filePath_ r) (stream_ r) (destroyed_ r).
Definition set_status s r := mkResponse (rwBuffer_ r) (version_ r) (shouldClose_ r) (phase_ r) (bodyKind_ r) s (clNeeded_ r)
  (aborted_ r) (clOffset_ r) (bodyStartOffset_ r) (persistentHeadersEndOffset_ r) (filePath_ r) (stream_ r) (destroyed_ r).
Definition set_cl needed off r := mkResponse (rwBuffer_ r) (version_ r) (shouldClose_ r) (phase_ r) (bodyKind_ r) (status_ r) needed
  (aborted_ r) off (bodyStartOffset_ r) (persistentHeadersEndOffset_ r) (filePath_ r) (stream_ r) (destroyed_ r).
Definition set_aborted a r := mkResponse (rwBuffer_ r) (version_ r) (shouldClose_ r) (phase_ r) (bodyKind_ r) (status_ r) (clNeeded_ r)
  a (clOffset_ r) (bodyStartOffset_ r) (persistentHeadersEndOffset_ r) (filePath_ r) (stream_ r) (destroyed_ r).
Definition set_bodyStart o r := mkResponse (rwBuffer_ r) (version_ r) (shouldClose_ r) (phase_ r) (bodyKind_ r) (status_ r) (clNeeded_ r)
  (aborted_ r) (clOffset_ r) o (persistentHeadersEndOffset_ r) (filePath_ r) (stream_ r) (destroyed_ r).
Definition set_persistentEnd o r := mkResponse (rwBuffer_ r) (version_ r) (shouldClose_ r) (phase_ r) (bodyKind_ r) (status_ r) (clNeeded_ r)
  (aborted_ r) (clOffset_ r) (bodyStartOffset_ r) o (filePath_ r) (stream_ r) (destroyed_ r).
Definition set_file f r := mkResponse (rwBuffer_ r) (version_ r) (shouldClose_ r) (phase_ r) (bodyKind_ r) (status_ r) (clNeeded_ r)
  (aborted_ r) (clOffset_ r) (bodyStartOffset_ r) (persistentHeadersEndOffset_ r) f (stream_ r) (destroyed_ r).
Definition set_stream s d r := mkResponse (rwBuffer_ r) (version_ r) (shouldClose_ r) (phase_ r) (bodyKind_ r) (status_ r) (clNeeded_ r)
  (aborted_ r) (clOffset_ r) (bodyStartOffset_ r) (persistentHeadersEndOffset_ r) (filePath_ r) s d.

(** [SetVersion], [SetShouldClose], [SetRWBuffer]. *)
Definition SetShouldClose sc r := mkResponse (rwBuffer_ r) (version_ r) sc (phase_ r) (bodyKind_ r) (status_ r) (clNeeded_ r)
  (aborted_ r) (clOffset_ r) (bodyStartOffset_ r) (persistentHeadersEndOffset_ r) (filePath_ r) (stream_ r) (destroyed_ r).
Definition SetVersion v r := mkResponse (rwBuffer_ r) v (shouldClose_ r) (phase_ r) (bodyKind_ r) (status_ r) (clNeeded_ r)
  (aborted_ r) (clOffset_ r) (bodyStartOffset_ r) (persistentHeadersEndOffset_ r) (filePath_ r) (stream_ r) (destroyed_ r).

(** [if(stream_.ctx && stream_.destroy) stream_.destroy(stream_.ctx)] *)
Definition destroy_stream (r : HttpResponse) : list Z :=
  match stream_ r with Some g => destroyed_ r ++ [g] | None => destroyed_ r end.

(** ** The write buffer *)

Definition dataLength (r : HttpResponse) : Z :=
  match writeBuffer_ (rwBuffer_ r) with Some b => b_dataLength b | None => 0 end.

Definition on_block (f : block -> block) (r : HttpResponse) : HttpResponse :=
  set_rw (RW (readBuffer_ (rwBuffer_ r)) (f <$> writeBuffer_ (rwBuffer_ r))) r.

(** [GetWriteMeta()->dataLength = n] *)
Definition set_dataLength (n : Z) : HttpResponse -> HttpResponse :=
  on_block (fun b => Block (b_base b) (b_bufferSize b) n (b_writtenLength b) (b_mem b)).

(** [memcpy(GetWriteData() + off, data, size)] *)
Definition patch (off : Z) (data : bytes) : HttpResponse -> HttpResponse :=
  on_block (fun b => Block (b_base b) (b_bufferSize b) (b_dataLength b) (b_writtenLength b)
                           (memcpy_at (Z.to_nat off) data (b_mem b))).

Section response.
Context `{Allocator} (sendBufferIncSize maxSendBufferSize : Z).
Context (FileExists : bytes -> bool) (GetFileSize : bytes -> Z).

Definition Append (data : bytes) (r : HttpResponse) : bool * HttpResponse :=
  let '(ok, rw) := AppendWriteData data sendBufferIncSize maxSendBufferSize (rwBuffer_ r) in
  (ok, set_rw rw r).

(** An append whose result is not looked at. *)
Definition put (data : bytes) (r : HttpResponse) : HttpResponse := snd (Append data r).

Definition Reset (r : HttpResponse) : HttpResponse :=
  let r := if bool_decide (bodyKind_ r = GEN_STREAM) then set_stream None (destroy_stream r) r else r in
  mkResponse (ClearWriteBuffer (rwBuffer_ r)) (version_ r) (shouldClose_ r) FRESH NONE 200 false false 0 0 0
             (filePath_ r) (stream_ r) (destroyed_ r).

Definition EnsureStatusLineReserved (r : HttpResponse) : HttpResponse :=
  if negb (phase_is (phase_ r) FRESH) then r
  else
    let r := put (lit "HTTP/1.") r in
    let r := put (if bool_decide (version_ r = HTTP_1_1) then lit "1 " else lit "0 ") r in
    let r := put STATUS_LINE_PLACEHOLDER r in
    set_persistentEnd (dataLength r) (set_phase STATUS r).

Definition EnsureHeadersOpen (r : HttpResponse) : HttpResponse :=
  let r := EnsureStatusLineReserved r in
  if phase_is (phase_ r) STATUS then
    let r := put (lit "Connection: ") r in
    let r := put ((if shouldClose_ r then lit "close" else lit "keep-alive") ++ CRLF) r in
    set_phase HEADERS r
  else r.

Definition InjectContentLength (r : HttpResponse) : HttpResponse :=
  let r := put CL_HEADER_PREFIX r in
  let off := dataLength r in
  set_cl true off (put CRLF (put CL_PLACEHOLDER r)).

(** A header line: four appends. *)
Definition put_line (key value : bytes) (r : HttpResponse) : HttpResponse :=
  put CRLF (put value (put (lit ": ") (put key r))).

(** *** What a contract violation runs

    [AbortContractViolation] rebuilds the response with [WriteStatus], [SendText]
    and [Commit], which can themselves report a violation: the operations take what
    a violation does as [violate], and the knot is tied below. *)

Section violate.
Context (violate : HttpResponse -> HttpResponse).

(** [RejectIfCommitted]: whether the call is rejected, and the response. *)
Definition RejectIfCommitted_ (r : HttpResponse) : bool * HttpResponse :=
  if aborted_ r then (true, r)
  else if negb (phase_is (phase_ r) COMMITTED) then (false, r)
  else (true, violate r).

Definition EnsureBodyOpen_ (r : HttpResponse) : bool * HttpResponse :=
  let r := EnsureHeadersOpen r in
  if phase_ge (phase_ r) BODY then (true, r)
  else if StatusForbidsBody (status_ r) then (false, violate r)
  else
    let r := put CRLF (InjectContentLength r) in
    (true, set_phase BODY (set_kind BUFFERED (set_bodyStart (dataLength r) r))).

Definition WriteStatus_ (code : Z) (r : HttpResponse) : HttpResponse :=
  match RejectIfCommitted_ r with
  | (true, r) => r
  | (false, r) =>
      if phase_ge (phase_ r) BODY then violate r
      else
        let r := EnsureStatusLineReserved r in
        patch (Z.of_nat STATUS_CODE_OFFSET) (status_digits code) (set_status code r)
  end.

Definition WriteBodyData_ (data : bytes) (r : HttpResponse) : HttpResponse :=
  match RejectIfCommitted_ r with
  | (true, r) => r
  | (false, r) =>
      match EnsureBodyOpen_ r with
      | (false, r) => r
      | (true, r) => if (length data =? 0)%nat then r else put data r
      end
  end.

Definition Commit_ (r : HttpResponse) : HttpResponse :=
  match RejectIfCommitted_ r with
  | (true, r) => r
  | (false, r) =>
      if bool_decide (bodyKind_ r = AWAIT_STREAM) then
        set_phase COMMITTED (put CHUNK_TERMINATOR (set_dataLength (u32 (dataLength r - Z.of_nat CHUNK_HDR_RESERVE)) r))
      else if negb (phase_ge (phase_ r) BODY) then
        let r := EnsureHeadersOpen r in
        let r := if StatusForbidsBody (status_ r) then r else put CL_ZERO r in
        set_phase COMMITTED (set_kind BUFFERED (put CRLF r))
      else
        let r := if clNeeded_ r
                 then patch (clOffset_ r) (FormatFixed10 (u32 (u64 (dataLength r - bodyStartOffset_ r)))) r
                 else r in
        set_phase COMMITTED r
  end.

Definition SendText_ (data : bytes) (r : HttpResponse) : HttpResponse :=
  let r := EnsureHeadersOpen r in
  let r := set_phase HEADERS (put (lit "Content-Type: text/plain" ++ CRLF) r) in
  Commit_ (WriteBodyData_ data r).

Definition AbortWithError_ (status : Z) (message : bytes) (r : HttpResponse) : HttpResponse :=
  let r := if bool_decide (bodyKind_ r = GEN_STREAM) then set_stream None (destroy_stream r) r else r in
  let r := set_dataLength (persistentHeadersEndOffset_ r) r in
  let phase := if 0 <? persistentHeadersEndOffset_ r then STATUS else FRESH in
  let r := set_phase phase (set_kind NONE (set_status 200 (set_bodyStart 0 (set_cl false 0 (set_aborted false r))))) in
  SendText_ message (WriteStatus_ status r).

End violate.

(** The 500 it rebuilds violates nothing, so the recursion is one deep: see
    [abort_fuel]. *)
Fixpoint AbortContractViolation (fuel : nat) (r : HttpResponse) : HttpResponse :=
  match fuel with
  | O => r
  | S f =>
      if aborted_ r then r
      else set_aborted true (AbortWithError_ (AbortContractViolation f) 500 (lit "Response contract violation") r)
  end.

Definition violate : HttpResponse -> HttpResponse := AbortContractViolation 2.

Definition RejectIfCommitted := RejectIfCommitted_ violate.
Definition EnsureBodyOpen := EnsureBodyOpen_ violate.
Definition WriteStatus := WriteStatus_ violate.
Definition WriteBodyData := WriteBodyData_ violate.
Definition Commit := Commit_ violate.
Definition SendText := SendText_ violate.
Definition AbortWithError := AbortWithError_ violate.

Definition WritePersistentHeader (key value : bytes) (r : HttpResponse) : HttpResponse :=
  match RejectIfCommitted r with
  | (true, r) => r
  | (false, r) =>
      if phase_ge (phase_ r) HEADERS then violate r
      else if InsensitiveStringCompare key (lit "connection") then violate r
      else if HasCRLFOrNull key || HasCRLFOrNull value then violate r
      else
        let r := put_line key value (EnsureStatusLineReserved r) in
        set_persistentEnd (dataLength r) r
  end.

Definition WriteHeader (key value : bytes) (r : HttpResponse) : HttpResponse :=
  match RejectIfCommitted r with
  | (true, r) => r
  | (false, r) =>
      if phase_is (phase_ r) BODY then violate r
      else if InsensitiveStringCompare key (lit "connection") then violate r
      else if HasCRLFOrNull key || HasCRLFOrNull value then violate r
      else set_phase HEADERS (put_line key value (EnsureHeadersOpen r))
  end.

Definition WriteFile (path : bytes) (autoHandle404 : bool) (r : HttpResponse) : HttpResponse :=
  match RejectIfCommitted r with
  | (true, r) => r
  | (false, r) =>
      if phase_is (phase_ r) BODY then violate r
      else if negb (bool_decide (bodyKind_ r = NONE)) then violate r
      else if StatusForbidsBody (status_ r) then violate r
      else if autoHandle404 && negb (FileExists path) then AbortWithError 404 (lit "File not found") r
      else
        let r := EnsureHeadersOpen r in
        let fileSize := GetFileSize path in
        let mime := Mime.DetectMimeFromExt path in
        let r := put CRLF (put (FormatUInt64 fileSize) (put CL_HEADER_PREFIX r)) in
        let r := put CRLF (put mime (put (lit "Content-Type: ") r)) in
        let r := put CRLF r in
        set_phase COMMITTED (set_kind FILE (set_file path r))
  end.

Definition WriteStream (gen : Z) (chunked : bool) (r : HttpResponse) : HttpResponse :=
  match RejectIfCommitted r with
  | (true, r) => r
  | (false, r) =>
      if negb (bool_decide (bodyKind_ r = NONE)) then violate r
      else if StatusForbidsBody (status_ r) then violate r
      else
        let r := EnsureHeadersOpen r in
        let r := if chunked then put (lit "Transfer-Encoding: chunked" ++ CRLF) r else r in
        let r := put CRLF r in
        set_phase COMMITTED (set_kind GEN_STREAM (set_stream (Some gen) (destroy_stream r) r))
  end.

Definition SendFile := WriteFile.
Definition SendStream := WriteStream.

(** What the template engine, the file cache and the allocator make of a template's path:
    none, a file sent as it is, a step that fails ([message] says which), the generator's
    state not allocated, or a generator. *)
Inductive template :=
| TplMissing
| TplStatic (filePath : bytes)
| TplBroken (message : bytes)
| TplNoMemory
| TplDynamic (gen : Z).

Definition WriteHtmlHeader : HttpResponse -> HttpResponse := WriteHeader (lit "Content-Type") (lit "text/html; charset=utf-8").

Definition WriteTemplate (t : template) (r : HttpResponse) : HttpResponse :=
  match RejectIfCommitted r with
  | (true, r) => r
  | (false, r) =>
      match t with
      | TplMissing => AbortWithError 404 (lit "Template not found :(") r
      | TplStatic path => WriteFile path false (WriteHtmlHeader r)
      | TplBroken message => AbortWithError 500 message r
      | TplNoMemory => AbortWithError 500 (lit "Template allocation failed") (WriteHtmlHeader r)
      | TplDynamic gen => WriteStream gen true (WriteHtmlHeader r)
      end
  end.

(** *** Flushed bodies *)

Definition ReserveNextFlushGap (r : HttpResponse) : bool * HttpResponse :=
  match Append (replicate CHUNK_HDR_RESERVE NUL) r with
  | (false, r) => (false, r)
  | (true, r) => (true, set_bodyStart (dataLength r) r)
  end.

Definition WriteFlushStart (r : HttpResponse) : HttpResponse :=
  match RejectIfCommitted r with
  | (true, r) => r
  | (false, r) =>
      if negb (bool_decide (bodyKind_ r = NONE)) then violate r
      else if StatusForbidsBody (status_ r) then violate r
      else
        let r := EnsureHeadersOpen r in
        let r := put CRLF (put (lit "Transfer-Encoding: chunked" ++ CRLF) r) in
        snd (ReserveNextFlushGap (set_phase BODY (set_kind AWAIT_STREAM r)))
  end.

(** The queries the engine makes. *)
Definition IsCommitted (r : HttpResponse) : bool := phase_is (phase_ r) COMMITTED.
Definition IsGenStream (r : HttpResponse) : bool := bool_decide (bodyKind_ r = GEN_STREAM).
Definition IsFile (r : HttpResponse) : bool := bool_decide (bodyKind_ r = FILE).
Definition TakeGenerator (r : HttpResponse) : option Z * HttpResponse := (stream_ r, set_stream None (destroyed_ r) r).

Definition HasPendingFlushData (r : HttpResponse) : bool := bodyStartOffset_ r <? dataLength r.

Definition PrepareFlushChunk (isFinal : bool) (r : HttpResponse) : bool * HttpResponse :=
  match writeBuffer_ (rwBuffer_ r) with
  | None => (false, r)
  | Some _ =>
      let bodyLen := u32 (dataLength r - bodyStartOffset_ r) in
      if bodyLen =? 0 then
        Append CHUNK_TERMINATOR (set_dataLength (u32 (dataLength r - Z.of_nat CHUNK_HDR_RESERVE)) r)
      else
        let r := patch (bodyStartOffset_ r - Z.of_nat CHUNK_HDR_RESERVE) (FormatFixedHex8 bodyLen ++ CRLF) r in
        match Append CRLF r with
        | (false, r) => (false, r)
        | (true, r) => if isFinal then Append CHUNK_TERMINATOR r else (true, r)
        end
  end.

Definition FinishFlushRound (isFinal : bool) (r : HttpResponse) : bool * HttpResponse :=
  let r := set_rw (ClearWriteBuffer (rwBuffer_ r)) r in
  if isFinal then (true, set_phase COMMITTED r) else ReserveNextFlushGap r.

End response.

(** ** Specification: the message being built *)

Abbreviation lines := (list (bytes * bytes)).

Definition header_line (h : bytes * bytes) : bytes := h.1 ++ lit ": " ++ h.2.
Definition render_lines (hs : lines) : bytes := concat (map (fun h => header_line h ++ CRLF) hs).

Inductive rstate :=
| RFresh
| RStatus (code : Z) (pers : lines)
| RHeaders (code : Z) (pers hdrs : lines)
| RBody (code : Z) (pers hdrs : lines) (body : bytes)
| RDone (code : Z) (pers hdrs : lines) (body : bytes) (kind : BodyKind) (aborted : bool).

Definition ok_status : Z := 200.

Definition code_of (st : rstate) : Z :=
  match st with RFresh => ok_status | RStatus c _ | RHeaders c _ _ | RBody c _ _ _ | RDone c _ _ _ _ _ => c end.
Definition pers_of (st : rstate) : lines :=
  match st with RFresh => [] | RStatus _ p | RHeaders _ p _ | RBody _ p _ _ | RDone _ p _ _ _ _ => p end.
Definition hdrs_of (st : rstate) : lines :=
  match st with RFresh | RStatus _ _ => [] | RHeaders _ _ h | RBody _ _ h _ | RDone _ _ h _ _ _ => h end.

Section spec.
Context (version : HttpVersion) (close : bool).

Definition status_line (code : Z) : bytes :=
  lit "HTTP/1." ++ (if bool_decide (version = HTTP_1_1) then lit "1 " else lit "0 ") ++ status_digits code ++ lit " ".

Definition connection_header : bytes * bytes := (lit "Connection", if close then lit "close" else lit "keep-alive").

(** A message: status line, header lines, an empty line, the body. *)
Definition message (code : Z) (hs : lines) (body : bytes) : bytes :=
  status_line code ++ CRLF ++ render_lines hs ++ CRLF ++ body.

Definition head (code : Z) (hs : lines) : bytes := status_line code ++ CRLF ++ render_lines hs.

Definition cl_slot : bytes * bytes := (lit "Content-Length", CL_PLACEHOLDER).
Definition cl_line (n : Z) : bytes * bytes := (lit "Content-Length", FormatFixed10 n).

Definition all_headers (p h : lines) : lines := p ++ connection_header :: h.

Definition wire (st : rstate) : bytes :=
  match st with
  | RFresh => []
  | RStatus c p => head c p
  | RHeaders c p h => head c (all_headers p h)
  | RBody c p h b => message c (all_headers p (h ++ [cl_slot])) b
  | RDone c p h b _ _ => message c (all_headers p h) b
  end.

(** A short response that replaces whatever was built, keeping the persistent
    headers. *)
Definition replaced (code : Z) (text : bytes) (aborted : bool) (st : rstate) : rstate :=
  RDone code (pers_of st) [(lit "Content-Type", lit "text/plain"); cl_line (Z.of_nat (length text))] text BUFFERED aborted.

Definition violation (st : rstate) : rstate :=
  match st with
  | RDone _ _ _ _ _ true => st
  | _ => replaced 500 (lit "Response contract violation") true st
  end.

Definition bad_header (key value : bytes) : bool :=
  InsensitiveStringCompare key (lit "connection") || (HasCRLFOrNull key || HasCRLFOrNull value).

Definition spec_status (code : Z) (st : rstate) : rstate :=
  match st with
  | RFresh => RStatus code []
  | RStatus _ p => RStatus code p
  | RHeaders _ p h => RHeaders code p h
  | _ => violation st
  end.

Definition spec_persistent (key value : bytes) (st : rstate) : rstate :=
  match st with
  | RFresh | RStatus _ _ => if bad_header key value then violation st
                            else RStatus (code_of st) (pers_of st ++ [(key, value)])
  | _ => violation st
  end.

Definition spec_header (key value : bytes) (st : rstate) : rstate :=
  match st with
  | RBody _ _ _ _ | RDone _ _ _ _ _ _ => violation st
  | _ => if bad_header key value then violation st
         else RHeaders (code_of st) (pers_of st) (hdrs_of st ++ [(key, value)])
  end.

Definition spec_body (data : bytes) (st : rstate) : rstate :=
  match st with
  | RBody c p h b => RBody c p h (b ++ data)
  | RDone _ _ _ _ _ _ => violation st
  | _ => if StatusForbidsBody (code_of st) then violation st
         else RBody (code_of st) (pers_of st) (hdrs_of st) data
  end.

Definition spec_commit (st : rstate) : rstate :=
  match st with
  | RBody c p h b => RDone c p (h ++ [cl_line (Z.of_nat (length b))]) b BUFFERED false
  | RDone _ _ _ _ _ _ => violation st
  | _ => RDone (code_of st) (pers_of st)
           (hdrs_of st ++ if StatusForbidsBody (code_of st) then [] else [(lit "Content-Length", lit "0")]) [] BUFFERED false
  end.

Definition spec_file (FileExists : bytes -> bool) (GetFileSize : bytes -> Z) (path : bytes) (auto404 : bool)
    (st : rstate) : rstate :=
  match st with
  | RBody _ _ _ _ | RDone _ _ _ _ _ _ => violation st
  | _ => if StatusForbidsBody (code_of st) then violation st
         else if auto404 && negb (FileExists path) then replaced 404 (lit "File not found") false st
         else RDone (code_of st) (pers_of st)
                (hdrs_of st ++ [(lit "Content-Length", FormatUInt64 (GetFileSize path));
                                (lit "Content-Type", Mime.DetectMimeFromExt path)]) [] FILE false
  end.

Definition spec_stream (chunked : bool) (st : rstate) : rstate :=
  match st with
  | RBody _ _ _ _ | RDone _ _ _ _ _ _ => violation st
  | _ => if StatusForbidsBody (code_of st) then violation st
         else RDone (code_of st) (pers_of st)
                (hdrs_of st ++ if chunked then [(lit "Transfer-Encoding", lit "chunked")] else []) [] GEN_STREAM false
  end.

Definition spec_html : rstate -> rstate := spec_header (lit "Content-Type") (lit "text/html; charset=utf-8").

Definition spec_template (FileExists : bytes -> bool) (GetFileSize : bytes -> Z) (t : template) (st : rstate) : rstate :=
  match st with
  | RDone _ _ _ _ _ _ => violation st
  | _ =>
      match t with
      | TplMissing => replaced 404 (lit "Template not found :(") false st
      | TplStatic path => spec_file FileExists GetFileSize path false (spec_html st)
      | TplBroken message => replaced 500 message false st
      | TplNoMemory => replaced 500 (lit "Template allocation failed") false (spec_html st)
      | TplDynamic _ => spec_stream true (spec_html st)
      end
  end.

(** What a response records of the state it is in, its buffer apart. *)
Definition fields_ok (r : HttpResponse) (st : rstate) : Prop :=
  version_ r = version /\ shouldClose_ r = close /\ status_ r = code_of st /\
  persistentHeadersEndOffset_ r = match st with RFresh => 0 | _ => Z.of_nat (length (head (code_of st) (pers_of st))) end /\
  aborted_ r = match st with RDone _ _ _ _ _ a => a | _ => false end /\
  match st with
  | RFresh => phase_ r = FRESH /\ bodyKind_ r = NONE
  | RStatus _ _ => phase_ r = STATUS /\ bodyKind_ r = NONE
  | RHeaders _ _ _ => phase_ r = HEADERS /\ bodyKind_ r = NONE
  | RBody c p h b =>
      phase_ r = BODY /\ bodyKind_ r = BUFFERED /\ clNeeded_ r = true /\
      clOffset_ r = Z.of_nat (length (head c (all_headers p h) ++ CL_HEADER_PREFIX)) /\
      bodyStartOffset_ r = Z.of_nat (length (message c (all_headers p (h ++ [cl_slot])) []))
  | RDone _ _ _ _ k _ => phase_ r = COMMITTED /\ bodyKind_ r = k
  end.

(** ... and its buffer. *)
Definition holds (r : HttpResponse) (x : bytes) : Prop :=
  exists b, writeBuffer_ (rwBuffer_ r) = Some b /\ wf b /\ b_writtenLength b = 0 /\ live b = x.

Definition models (r : HttpResponse) (st : rstate) : Prop := fields_ok r st /\ holds r (wire st).

End spec.

(** ** Handlers *)

(** The calls a handler makes on its response, the flushed body apart. *)
Inductive op :=
| OStatus (code : Z)
| OPersistent (key value : bytes)
| OHeader (key value : bytes)
| OBody (data : bytes)
| OFile (path : bytes) (autoHandle404 : bool)
| OStream (gen : Z) (chunked : bool)
| OTemplate (t : template)
| OCommit.

(** [HttpStatus] enumerates three-digit codes. *)
Definition op_ok (o : op) : Prop := match o with OStatus c => 100 <= c < 1000 | _ => True end.

Section handlers.
Context `{Allocator} (inc max : Z) (FileExists : bytes -> bool) (GetFileSize : bytes -> Z).

Definition exec (r : HttpResponse) (o : op) : HttpResponse :=
  match o with
  | OStatus c => WriteStatus inc max c r
  | OPersistent k v => WritePersistentHeader inc max k v r
  | OHeader k v => WriteHeader inc max k v r
  | OBody d => WriteBodyData inc max d r
  | OFile path auto => WriteFile inc max FileExists GetFileSize path auto r
  | OStream g ck => WriteStream inc max g ck r
  | OTemplate t => WriteTemplate inc max FileExists GetFileSize t r
  | OCommit => Commit inc max r
  end.

(** [if(!res.IsCommitted()) res.Commit()] *)
Definition finish (r : HttpResponse) : HttpResponse := if IsCommitted r then r else Commit inc max r.

(** One response: [Reset], the handler's calls, what the engine adds. *)
Definition respond (ops : list op) (r : HttpResponse) : HttpResponse := finish (fold_left exec ops (Reset r)).

Definition spec_exec (st : rstate) (o : op) : rstate :=
  match o with
  | OStatus c => spec_status c st
  | OPersistent k v => spec_persistent k v st
  | OHeader k v => spec_header k v st
  | OBody d => spec_body d st
  | OFile path auto => spec_file FileExists GetFileSize path auto st
  | OStream g ck => spec_stream ck st
  | OTemplate t => spec_template FileExists GetFileSize t st
  | OCommit => spec_commit st
  end.

Definition is_done (st : rstate) : bool := match st with RDone _ _ _ _ _ _ => true | _ => false end.

Definition spec_finish (st : rstate) : rstate := if is_done st then st else spec_commit st.

(** The message a call leaves for a while before its last one: a template's header. *)
Definition spec_before (st : rstate) (o : op) : rstate :=
  match o with OTemplate (TplStatic _ | TplNoMemory | TplDynamic _) => spec_html st | _ => RFresh end.

(** Every message on the way is within the buffer's limit. *)
Fixpoint runs_fit (version : HttpVersion) (close : bool) (ops : list op) (st : rstate) : Prop :=
  match ops with
  | [] => Z.of_nat (length (wire version close (spec_finish st))) <= max
  | o :: ops =>
      (Z.of_nat (length (wire version close (spec_before st o))) <= max /\ Z.of_nat (length (wire version close (spec_exec st o))) <= max) /\
      runs_fit version close ops (spec_exec st o)
  end.

End handlers.

(** ** A client *)

(** A line up to its CRLF, and what follows. *)
Fixpoint read_line (s : bytes) : option (bytes * bytes) :=
  match s with
  | [] => None
  | c :: t =>
      match t with
      | d :: rest => if (c =? CR) && (d =? LF) then Some ([], rest)
                     else match read_line t with Some (l, rest) => Some (c :: l, rest) | None => None end
      | [] => None
      end
  end.

(** Lines up to the empty one, and the body. *)
Fixpoint read_lines (fuel : nat) (s : bytes) : option (list bytes * bytes) :=
  match fuel with
  | O => None
  | S f =>
      match read_line s with
      | None => None
      | Some ([], rest) => Some ([], rest)
      | Some (l, rest) => match read_lines f rest with Some (ls, b) => Some (l :: ls, b) | None => None end
      end
  end.

Definition read_message (s : bytes) : option (list bytes * bytes) := read_lines (length s) s.

(** ** Flushed responses *)

(** [EpollConnectionHandler::FlushChunk] when the socket takes everything that is
    pending: the bytes sent, and [None] where it closes the connection. *)
Section flush.
Context `{Allocator} (inc max : Z).

Definition FlushChunk (isFinal : bool) (r : HttpResponse) : option (bytes * HttpResponse) :=
  if negb (bool_decide (bodyKind_ r = AWAIT_STREAM)) then None
  else if negb isFinal && negb (HasPendingFlushData r) then Some ([], r)
  else
    match PrepareFlushChunk inc max isFinal r with
    | (false, _) => None
    | (true, r) =>
        let sent := match writeBuffer_ (rwBuffer_ r) with Some b => pending b | None => [] end in
        match FinishFlushRound inc max isFinal r with
        | (false, _) => None
        | (true, r) => Some (sent, r)
        end
    end.

(** What a streaming handler does between [FlushStart] and [FlushEnd]. *)
Inductive fop := FWrite (data : bytes) | FFlush.

(** All the bytes sent by a program of writes and flushes, closed by [FlushEnd]. *)
Fixpoint flush_run (ops : list fop) (r : HttpResponse) : option bytes :=
  match ops with
  | [] => match FlushChunk true r with Some (sent, _) => Some sent | None => None end
  | FWrite d :: ops => flush_run ops (WriteBodyData inc max d r)
  | FFlush :: ops =>
      match FlushChunk false r with
      | Some (sent, r) => match flush_run ops r with Some more => Some (sent ++ more) | None => None end
      | None => None
      end
  end.

Definition flush_gap : bytes := replicate CHUNK_HDR_RESERVE NUL.

Definition within (x : bytes) : Prop := Z.of_nat (length x) <= max.

(** Every round is within the buffer's limit: [x] is what precedes the gap, [d]
    what was written after it. *)
Fixpoint rounds_fit (ops : list fop) (x d : bytes) : Prop :=
  match ops with
  | [] => within (x ++ flush_gap ++ d ++ CRLF ++ CHUNK_TERMINATOR)
  | FWrite e :: ops => within (x ++ flush_gap ++ d ++ e) /\ rounds_fit ops x (d ++ e)
  | FFlush :: ops => match d with [] => rounds_fit ops x d
                                | _ => within (x ++ flush_gap ++ d ++ CRLF) /\ rounds_fit ops [] [] end
  end.

End flush.

Definition written (ops : list fop) : bytes := concat (map (fun o => match o with FWrite d => d | FFlush => [] end) ops).

(** The decoder of chunked bodies: a hexadecimal length, the data, until a chunk of
    length zero. *)
Definition is_hex_digit (c : Z) : bool := is_digit c || ((65 <=? c) && (c <=? 70)) || ((97 <=? c) && (c <=? 102)).
Definition hex_digit (c : Z) : Z := if is_digit c then c - 48 else if 97 <=? c then c - 87 else c - 55.
Definition hex_value (ds : bytes) : Z := fold_left (fun a c => a * 16 + hex_digit c) ds 0.

Fixpoint read_chunks (fuel : nat) (s : bytes) : option bytes :=
  match fuel with
  | O => None
  | S f =>
      match read_line s with
      | None => None
      | Some (l, rest) =>
          let n := Z.to_nat (hex_value l) in
          if negb (forallb is_hex_digit l) then None
          else if (n =? 0)%nat then (if bool_decide (rest = CRLF) then Some [] else None)
          else if bool_decide (take 2 (drop n rest) = CRLF) then
            match read_chunks f (drop (n + 2) rest) with Some more => Some (take n rest ++ more) | None => None end
          else None
      end
  end.

Definition read_chunked (s : bytes) : option bytes := read_chunks (length s) s.

(** ** Writing *)

(** [r] is [r0] with a buffer that holds [x]. *)
Definition wrote (r0 : HttpResponse) (x : bytes) (r : HttpResponse) : Prop :=
  r = set_rw (rwBuffer_ r) r0 /\ holds r x.

Lemma wrote_set (f : HttpResponse -> HttpResponse) r0 x r :
  (forall rw r1, f (set_rw rw r1) = set_rw rw (f r1)) -> wrote r0 x r -> wrote (f r0) x (f r).
Proof.
  intros Hf [E Hh]. assert (Ef : f r = set_rw (rwBuffer_ r) (f r0)) by (rewrite E at 1; apply Hf).
  split; [by rewrite Ef|]. rewrite Ef. exact Hh.
Qed.

Ltac wset f W := let W' := fresh in pose proof (wrote_set f _ _ _ (fun _ _ => eq_refl) W) as W'; clear W; rename W' into W.

Section proofs.
Context `{AllocatorOk} (inc max : Z).
Context (Hinc : 0 <= inc) (Hmax : 0 <= max /\ max + sizeof_WriteMetadata < 2 ^ 32).
Context (Halloc : forall old n, Realloc old n <> None).

Definition fits (x : bytes) : Prop := Z.of_nat (length x) <= max.

Lemma fits_app x y : fits (x ++ y) -> fits x.
Proof. unfold fits. rewrite length_app. lia. Qed.

Lemma wrote_refl r x : holds r x -> wrote r x r.
Proof. intros Hr. split; [by destruct r|done]. Qed.

Lemma dataLength_holds r x : holds r x -> dataLength r = Z.of_nat (length x).
Proof.
  intros (b & E & W & _ & <-). unfold dataLength. rewrite E. symmetry. by apply length_live.
Qed.

Lemma Append_wrote r0 x d r :
  wrote r0 x r -> fits (x ++ d) -> d <> [] ->
  (Append inc max d r).1 = true /\ wrote r0 (x ++ d) (Append inc max d r).2.
Proof.
  intros [E (b & Eb & W & Hw & <-)] Hf Hd. unfold Append, AppendWriteData, on_write. rewrite Eb.
  unfold fits in Hf. rewrite length_app in Hf. pose proof (length_live b W) as Hl.
  destruct (GenericAppendData _ _ _ _ b) as [b'|] eqn:Ea.
  - apply GenericAppendData_ok in Ea as (W' & Hl' & Hw'); [|done|unfold sizeof_WriteMetadata; lia|done|lia].
    split; [done|]. split; [by rewrite E|]. exists b'. cbn. split_and!; [done|done|congruence|done].
  - exfalso. revert Ea. apply GenericAppendData_accepts; [done|done|]. lia.
Qed.

Lemma put_wrote r0 x d r : wrote r0 x r -> fits (x ++ d) -> wrote r0 (x ++ d) (put inc max d r).
Proof.
  intros W Hf. destruct (decide (d = [])) as [->|Hd]; [|by apply Append_wrote].
  rewrite app_nil_r. destruct W as [E (b & Eb & Hb)]. unfold put, Append, AppendWriteData, on_write. rewrite Eb. cbn.
  split; [by rewrite E|]. by exists b.
Qed.

(** Two writes at once. *)
Lemma put_app r0 x d1 d2 r :
  wrote r0 x r -> fits (x ++ d1 ++ d2) -> wrote r0 (x ++ d1 ++ d2) (put inc max d2 (put inc max d1 r)).
Proof.
  rewrite app_assoc. intros W Hf. apply put_wrote; [|done]. apply put_wrote; [done|]. by eapply fits_app.
Qed.

(** ... and any number. *)
Lemma puts_wrote r0 ds : forall x r,
  wrote r0 x r -> fits (x ++ concat ds) -> wrote r0 (x ++ concat ds) (fold_left (fun r d => put inc max d r) ds r).
Proof.
  induction ds as [|d ds IH]; intros x r W Hf; cbn in *; [by rewrite app_nil_r in *|].
  rewrite app_assoc in *. apply IH; [|done]. apply put_wrote; [done|]. by eapply fits_app.
Qed.

Lemma patch_wrote r0 x r off d :
  wrote r0 x r -> (off + length d <= length x)%nat ->
  wrote r0 (take off x ++ d ++ drop (off + length d) x) (patch (Z.of_nat off) d r).
Proof.
  intros [E (b & Eb & W & Hw & Hx)] Hl. unfold patch, on_block. rewrite Eb. cbn [fmap option_fmap option_map].
  split; [by rewrite E|]. eexists. split; [done|]. rewrite Nat2Z.id. pose proof W as (W1 & W2 & W3).
  pose proof (length_live b W) as Hll. rewrite Hx in Hll.
  unfold wf, live in *. cbn [b_bufferSize b_dataLength b_writtenLength b_mem].
  set (n := Z.to_nat (b_dataLength b)) in *.
  rewrite length_memcpy_at by lia. split; [done|]. split; [done|].
  unfold memcpy_at. rewrite <- Hx, take_take. replace (off `min` n)%nat with off by lia.
  assert (Hlen : length (take off (b_mem b) ++ d) = (off + length d)%nat) by (rewrite length_app, length_take; lia).
  rewrite !app_assoc, take_app_ge, Hlen by (rewrite Hlen; lia). f_equal.
  rewrite take_drop_commute. f_equal. f_equal. lia.
Qed.

Lemma truncate_wrote r0 x y r :
  wrote r0 (x ++ y) r -> wrote r0 x (set_dataLength (Z.of_nat (length x)) r).
Proof.
  intros [E (b & Eb & W & Hw & Hx)]. unfold set_dataLength, on_block. rewrite Eb. cbn [fmap option_fmap option_map].
  split; [by rewrite E|]. eexists. split; [done|]. pose proof W as (W1 & W2 & W3).
  pose proof (length_live b W) as Hll. rewrite Hx, length_app in Hll.
  unfold wf, live in *. cbn [b_bufferSize b_dataLength b_writtenLength b_mem].
  split; [lia|]. split; [done|]. rewrite Nat2Z.id.
  transitivity (take (length x) (x ++ y)); [|apply take_app_length]. rewrite <- Hx, take_take. f_equal. lia.
Qed.

(** ** The operations implement the specification *)

Context (version : HttpVersion) (close : bool).

Abbreviation models := (models version close).
Abbreviation wire := (wire version close).
Abbreviation head := (head version).
Abbreviation message := (message version).
Abbreviation all_headers := (all_headers close).
Abbreviation put := (put inc max).

Lemma wrote_models r0 x r st : wrote r0 x r -> fields_ok version close r0 st -> x = wire st -> models r st.
Proof. intros [-> Hh] F ->. split; [exact F|exact Hh]. Qed.

Lemma models_wrote r st : models r st -> wrote r (wire st) r.
Proof. intros [_ Hh]. by apply wrote_refl. Qed.

Lemma render_lines_app h1 h2 : render_lines (h1 ++ h2) = render_lines h1 ++ render_lines h2.
Proof. unfold render_lines. by rewrite map_app, concat_app. Qed.

Lemma render_lines_one h : render_lines [h] = header_line h ++ CRLF.
Proof. unfold render_lines. cbn. by rewrite app_nil_r. Qed.

Lemma head_app c h1 h2 : head c (h1 ++ h2) = head c h1 ++ render_lines h2.
Proof. unfold Response.head. by rewrite render_lines_app, <- !app_assoc. Qed.

Lemma message_head c h b : message c h b = head c h ++ CRLF ++ b.
Proof. unfold Response.message, Response.head. by rewrite <- !app_assoc. Qed.

Lemma all_headers_app p h1 h2 : all_headers p (h1 ++ h2) = all_headers p h1 ++ h2.
Proof. unfold Response.all_headers. by rewrite <- app_assoc. Qed.

Lemma length_status_line c : length (status_line version c) = 13%nat.
Proof. unfold status_line. by destruct (bool_decide _). Qed.

Lemma length_head c h : length (head c h) = (15 + length (render_lines h))%nat.
Proof. unfold Response.head. rewrite !length_app, length_status_line. cbn. lia. Qed.

Definition open_status (st : rstate) : rstate := match st with RFresh => RStatus ok_status [] | _ => st end.
Definition open_headers (st : rstate) : rstate :=
  match st with RFresh | RStatus _ _ => RHeaders (code_of st) (pers_of st) [] | _ => st end.

Lemma EnsureStatusLineReserved_ok r st :
  models r st -> fits (wire (open_status st)) -> models (EnsureStatusLineReserved inc max r) (open_status st).
Proof.
  intros M Hf. pose proof (models_wrote r st M) as W. destruct M as [F _]. pose proof F as (Fv & Fs & Fc & Fp & Fa & Fk).
  unfold EnsureStatusLineReserved. destruct st; destruct Fk as [Fk1 Fk2]; rewrite Fk1; cbn [open_status phase_is phase_value Z.eqb Pos.eqb negb];
    [|by split; [exact F|apply W]..].
  cbn [Response.wire open_status] in W, Hf. set (v := if bool_decide (version = HTTP_1_1) then lit "1 " else lit "0 ").
  assert (Ev : version_ (put (lit "HTTP/1.") r) = version) by (unfold Response.put, Append; by destruct (AppendWriteData _ _ _ _)).
  rewrite Ev. fold v.
  assert (Eh : head ok_status [] = ([] ++ lit "HTTP/1.") ++ v ++ STATUS_LINE_PLACEHOLDER)
    by (unfold Response.head, status_line; fold v; by destruct (bool_decide _)).
  rewrite Eh in Hf.
  pose proof (put_wrote _ _ _ _ W (fits_app _ _ Hf)) as W1.
  pose proof (put_app _ _ _ _ _ W1 Hf) as W2. rewrite <- Eh in W2.
  set (r2 := Response.put _ _ _ (Response.put _ _ _ (Response.put _ _ _ r))) in *.
  rewrite (dataLength_holds r2 _ (proj2 W2)).
  pose proof (wrote_set (set_phase STATUS) _ _ _ (fun _ _ => eq_refl) W2) as W3.
  pose proof (wrote_set (set_persistentEnd (Z.of_nat (length (head ok_status [])))) _ _ _ (fun _ _ => eq_refl) W3) as W4.
  eapply wrote_models; [exact W4| |done]. by repeat split.
Qed.

Lemma open_headers_status st : open_headers (open_status st) = open_headers st.
Proof. by destruct st. Qed.

Lemma wire_open_headers c p : wire (RHeaders c p []) = head c p ++ header_line (connection_header close) ++ CRLF.
Proof. cbn [Response.wire]. unfold Response.all_headers. by rewrite head_app, render_lines_one. Qed.

Lemma EnsureHeadersOpen_ok r st :
  models r st -> fits (wire (open_headers st)) -> models (EnsureHeadersOpen inc max r) (open_headers st).
Proof.
  intros M Hf. unfold EnsureHeadersOpen.
  assert (Hf1 : fits (wire (open_status st))).
  { destruct st as [|c p| | |]; try exact Hf; cbn [open_headers code_of pers_of] in Hf; rewrite wire_open_headers in Hf;
      by apply fits_app in Hf. }
  pose proof (EnsureStatusLineReserved_ok r st M Hf1) as M1. clear M Hf1. rewrite <- open_headers_status in Hf |- *.
  set (r1 := EnsureStatusLineReserved inc max r) in *. pose proof (models_wrote _ _ M1) as W. destruct M1 as [F _].
  pose proof F as (Fv & Fs & Fc & Fp & Fa & Fk).
  destruct (open_status st) as [|c p|c p h|c p h b|c p h b k a] eqn:Est; [by destruct st| |..]; destruct Fk as [Fk1 Fk2];
    rewrite Fk1; cbn [phase_is phase_value Z.eqb Pos.eqb negb open_headers]; [|by split; [exact F|apply W]..].
  assert (Esc : shouldClose_ (put (lit "Connection: ") r1) = close)
    by (unfold Response.put, Append; by destruct (AppendWriteData _ _ _ _)).
  rewrite Esc. cbn [open_headers code_of pers_of] in Hf. rewrite wire_open_headers in Hf.
  assert (El : header_line (connection_header close) ++ CRLF
               = lit "Connection: " ++ (if close then lit "close" else lit "keep-alive") ++ CRLF).
  { unfold header_line, connection_header. cbn [fst snd]. by destruct close. }
  rewrite El in Hf. pose proof (put_app _ _ _ _ _ W Hf) as W1. cbn [Response.wire] in W1. rewrite <- El in W1. wset (set_phase HEADERS) W1.
  eapply wrote_models; [exact W1| |by rewrite <- wire_open_headers]. by repeat split.
Qed.

(** The header lines written so far are a prefix of every later message. *)
Lemma fits_prefix x y z : x = y ++ z -> fits x -> fits y.
Proof. intros ->. apply fits_app. Qed.

Lemma put_line_wrote r0 x k v r :
  wrote r0 x r -> fits (x ++ header_line (k, v) ++ CRLF) ->
  wrote r0 (x ++ header_line (k, v) ++ CRLF) (put_line inc max k v r).
Proof.
  intros W Hf. unfold put_line. unfold header_line in *. cbn [fst snd] in *.
  replace (x ++ (k ++ lit ": " ++ v) ++ CRLF) with ((x ++ k ++ lit ": ") ++ v ++ CRLF) in * by (by rewrite <- !app_assoc).
  apply put_app; [|done]. apply put_app; [done|]. by eapply fits_app.
Qed.

(** The state of the fields while headers may still be added. *)
Definition headers_open (r : HttpResponse) (c : Z) (p h : lines) : Prop := models r (RHeaders c p h).

Lemma InjectContentLength_ok r c p h :
  models r (RHeaders c p h) -> fits (wire (RBody c p h [])) ->
  let r' := InjectContentLength inc max r in
  wrote (set_cl true (Z.of_nat (length (head c (all_headers p h) ++ CL_HEADER_PREFIX))) r)
        (head c (all_headers p (h ++ [cl_slot]))) r'.
Proof.
  intros M Hf r'. pose proof (models_wrote _ _ M) as W. cbn [Response.wire] in W, Hf.
  assert (E : head c (all_headers p (h ++ [cl_slot])) = (head c (all_headers p h) ++ CL_HEADER_PREFIX) ++ CL_PLACEHOLDER ++ CRLF)
    by (rewrite all_headers_app, head_app, render_lines_one, <- app_assoc; done).
  rewrite message_head, E in Hf. apply fits_app in Hf.
  pose proof (put_wrote _ _ _ _ W (fits_app _ _ Hf)) as W1. pose proof (put_app _ _ _ _ _ W1 Hf) as W2.
  unfold r', InjectContentLength. cbv zeta. rewrite (dataLength_holds _ _ (proj2 W1)). rewrite E.
  by wset (set_cl true (Z.of_nat (length (head c (all_headers p h) ++ CL_HEADER_PREFIX)))) W2.
Qed.

(** Opening the body on a response that may have one. *)
Lemma open_body_ok r c p h :
  models r (RHeaders c p h) -> fits (wire (RBody c p h [])) ->
  let r' := put CRLF (InjectContentLength inc max r) in
  models (set_phase BODY (set_kind BUFFERED (set_bodyStart (dataLength r') r'))) (RBody c p h []).
Proof.
  intros M Hf r'. pose proof (InjectContentLength_ok r c p h M Hf) as W. cbn [Response.wire] in Hf. rewrite message_head in Hf.
  pose proof (put_wrote _ _ _ _ W Hf) as W1. fold r' in W1.
  rewrite (dataLength_holds r' _ (proj2 W1)). rewrite <- (app_nil_r CRLF) in W1. rewrite <- message_head in W1.
  rewrite <- (app_nil_r CRLF), <- message_head.
  set (n := length (message c (all_headers p (h ++ [cl_slot])) [])) in *.
  wset (set_bodyStart (Z.of_nat n)) W1. wset (set_kind BUFFERED) W1. wset (set_phase BODY) W1.
  eapply wrote_models; [exact W1| |done]. destruct M as [(Fv & Fs & Fc & Fp & Fa & Fk1 & Fk2) _].
  do 5 (split; [done|]). by repeat split.
Qed.

Definition in_head (st : rstate) : bool := match st with RFresh | RStatus _ _ | RHeaders _ _ _ => true | _ => false end.

Lemma reject_open v r st : models r st -> is_done st = false -> RejectIfCommitted_ v r = (false, r).
Proof.
  intros [(Fv & Fs & Fc & Fp & Fa & Fk) _] Hd. unfold RejectIfCommitted_.
  destruct st; try discriminate Hd; rewrite Fa; destruct Fk as [-> _]; done.
Qed.

Lemma reject_done v r c p h b k a :
  models r (RDone c p h b k a) -> RejectIfCommitted_ v r = (true, if a then r else v r).
Proof.
  intros [(Fv & Fs & Fc & Fp & Fa & Fk & _) _]. unfold RejectIfCommitted_. rewrite Fa, Fk. by destruct a.
Qed.

(** Patching the status code of a message. *)
Lemma patch_status r0 c c' h y r :
  wrote r0 (head c h ++ y) r ->
  wrote r0 (head c' h ++ y) (patch (Z.of_nat STATUS_CODE_OFFSET) (status_digits c') r).
Proof.
  intros W. assert (Hd : forall k, head k h ++ y = (lit "HTTP/1." ++ (if bool_decide (version = HTTP_1_1) then lit "1 " else lit "0 "))
                                       ++ status_digits k ++ (lit " " ++ CRLF ++ render_lines h ++ y))
    by (intros k; unfold Response.head, status_line; by rewrite <- !app_assoc).
  pose proof (patch_wrote _ _ _ STATUS_CODE_OFFSET (status_digits c') W) as W1.
  rewrite (Hd c) in W1. rewrite (Hd c').
  assert (E : forall X, take STATUS_CODE_OFFSET ((lit "HTTP/1." ++ (if bool_decide (version = HTTP_1_1) then lit "1 " else lit "0 ")) ++ X)
                        = lit "HTTP/1." ++ (if bool_decide (version = HTTP_1_1) then lit "1 " else lit "0 "))
    by (intros X; by destruct (bool_decide _)).
  assert (E' : forall X, drop (STATUS_CODE_OFFSET + length (status_digits c'))
                 ((lit "HTTP/1." ++ (if bool_decide (version = HTTP_1_1) then lit "1 " else lit "0 ")) ++ status_digits c ++ X) = X)
    by (intros X; by destruct (bool_decide _)).
  rewrite E, E' in W1. apply W1. destruct (bool_decide _); cbn; lia.
Qed.

Lemma WriteStatus_ok v r st code :
  models r st -> in_head st = true -> fits (wire (spec_status code st)) -> models (WriteStatus_ inc max v code r) (spec_status code st).
Proof.
  intros M Hh Hf. unfold WriteStatus_. rewrite (reject_open v r st M) by (by destruct st).
  assert (Hf1 : fits (wire (open_status st))).
  { unfold fits in *. destruct st as [|c p|c p h| |]; try discriminate Hh; cbn [open_status spec_status Response.wire] in *;
      rewrite !length_head in *; done. }
  pose proof (EnsureStatusLineReserved_ok r st M Hf1) as M1.
  assert (Ep : phase_ge (phase_ r) BODY = false).
  { destruct M as [(_ & _ & _ & _ & _ & Fk) _]. destruct st; try discriminate Hh; by destruct Fk as [-> _]. }
  rewrite Ep. cbv zeta. set (r1 := EnsureStatusLineReserved inc max r) in *.
  pose proof (models_wrote _ _ M1) as W. destruct M1 as [F _].
  wset (set_status code) W.
  destruct st as [|c p|c p h| |]; try discriminate Hh; cbn [open_status spec_status Response.wire] in *;
    match type of W with wrote _ (head ?c0 ?hs) _ => rewrite <- (app_nil_r (head c0 hs)) in W end;
    apply (patch_status _ _ code) in W; rewrite app_nil_r in W; (eapply wrote_models; [exact W| |done]);
    destruct F as (Fv & Fs & Fc & Fp & Fa & Fk1 & Fk2); do 3 (split; [done|]);
    (split; [cbn [persistentHeadersEndOffset_ set_status]; rewrite Fp; cbn [code_of pers_of]; by rewrite !length_head|by repeat split]).
Qed.

Lemma WriteBodyData_open v r st d :
  models r st -> in_head st = true -> StatusForbidsBody (code_of st) = false ->
  fits (wire (RBody (code_of st) (pers_of st) (hdrs_of st) d)) ->
  models (WriteBodyData_ inc max v d r) (RBody (code_of st) (pers_of st) (hdrs_of st) d).
Proof.
  intros M Hh Hb Hf. unfold WriteBodyData_, EnsureBodyOpen_. rewrite (reject_open v r st M) by (by destruct st).
  assert (Eo : open_headers st = RHeaders (code_of st) (pers_of st) (hdrs_of st)) by (by destruct st).
  assert (Hf0 : fits (wire (RBody (code_of st) (pers_of st) (hdrs_of st) []))).
  { cbn [Response.wire] in *. rewrite message_head, app_assoc in Hf. apply fits_app in Hf. by rewrite message_head, app_nil_r. }
  assert (Hf1 : fits (wire (open_headers st))).
  { rewrite Eo. cbn [Response.wire] in *. rewrite message_head, all_headers_app, head_app, <- app_assoc in Hf. by apply fits_app in Hf. }
  pose proof (EnsureHeadersOpen_ok r st M Hf1) as M1. rewrite Eo in M1. cbv zeta.
  set (r1 := EnsureHeadersOpen inc max r) in *. pose proof M1 as [(Fv & Fs & Fc & Fp & Fa & Fk1 & Fk2) _].
  rewrite Fk1, Fc. cbn [phase_ge phase_value Z.leb Z.compare Pos.compare Pos.compare_cont code_of]. rewrite Hb.
  pose proof (open_body_ok r1 _ _ _ M1 Hf0) as M2. cbv zeta in M2.
  set (r2 := set_phase BODY _) in *.
  destruct (Nat.eqb_spec (length d) 0) as [E|E]; [by apply nil_length_inv in E as ->|].
  pose proof (models_wrote _ _ M2) as W. cbn [Response.wire] in W, Hf. rewrite message_head, app_nil_r in W.
  rewrite message_head, app_assoc in Hf. pose proof (put_wrote _ _ _ _ W Hf) as W1. rewrite <- app_assoc, <- message_head in W1.
  eapply wrote_models; [exact W1|exact (proj1 M2)|done].
Qed.

Lemma EnsureBodyOpen_body v r : phase_ r = BODY -> EnsureBodyOpen_ inc max v r = (true, r).
Proof. intros E. unfold EnsureBodyOpen_, EnsureHeadersOpen, EnsureStatusLineReserved. rewrite E. cbn. rewrite E. cbn. by rewrite E. Qed.

Lemma WriteBodyData_more v r c p h b d :
  models r (RBody c p h b) -> fits (wire (RBody c p h (b ++ d))) ->
  models (WriteBodyData_ inc max v d r) (RBody c p h (b ++ d)).
Proof.
  intros M Hf. unfold WriteBodyData_. rewrite (reject_open v r _ M) by done.
  rewrite EnsureBodyOpen_body by (by destruct M as [(_ & _ & _ & _ & _ & Fk & _) _]).
  destruct (Nat.eqb_spec (length d) 0) as [E|E]; [apply nil_length_inv in E as ->; by rewrite app_nil_r|].
  pose proof (models_wrote _ _ M) as W. cbn [Response.wire] in W, Hf. rewrite message_head in W.
  rewrite message_head, !app_assoc in Hf. rewrite app_assoc in W. pose proof (put_wrote _ _ _ _ W Hf) as W1.
  rewrite <- !app_assoc, <- message_head in W1. eapply wrote_models; [exact W1|exact (proj1 M)|done].
Qed.

Lemma length_format_fixed base digit n v : length (format_fixed base digit n v) = n.
Proof. revert v. induction n as [|n IH]; intros v; [done|]. cbn. rewrite length_app, IH. cbn. lia. Qed.

Lemma length_FormatFixed10 v : length (FormatFixed10 v) = CL_FIELD_WIDTH.
Proof. apply length_format_fixed. Qed.

Lemma Commit_body v r c p h b :
  models r (RBody c p h b) -> fits (wire (RBody c p h b)) ->
  models (Commit_ inc max v r) (RDone c p (h ++ [cl_line (Z.of_nat (length b))]) b BUFFERED false).
Proof.
  intros M Hf. unfold Commit_. rewrite (reject_open v r _ M) by done.
  pose proof M as [(Fv & Fs & Fc & Fp & Fa & Fk1 & Fk2 & Fn & Fo & Fb) _]. rewrite Fk2, Fk1, Fn.
  rewrite bool_decide_false by done. cbn [phase_ge phase_value Z.leb Z.compare Pos.compare Pos.compare_cont negb].
  pose proof (models_wrote _ _ M) as W. rewrite (dataLength_holds _ _ (proj2 W)), Fo, Fb. cbn [Response.wire] in *.
  assert (El : Z.of_nat (length (message c (all_headers p (h ++ [cl_slot])) b)) -
               Z.of_nat (length (message c (all_headers p (h ++ [cl_slot])) [])) = Z.of_nat (length b))
    by (rewrite !message_head, !length_app; cbn; lia).
  rewrite El.
  assert (Hb : Z.of_nat (length b) < 2 ^ 32).
  { unfold fits in Hf. rewrite message_head, !length_app in Hf. unfold sizeof_WriteMetadata in Hmax. lia. }
  rewrite (wrap_small 64), (wrap_small 32) by lia.
  assert (Hsplit : forall x : bytes, message c (all_headers p (h ++ [(lit "Content-Length", x)])) b =
            (head c (all_headers p h) ++ CL_HEADER_PREFIX) ++ x ++ CRLF ++ CRLF ++ b).
  { intros x. rewrite message_head, all_headers_app, head_app, render_lines_one, <- !app_assoc. done. }
  unfold cl_slot in W. rewrite Hsplit in W.
  pose proof (patch_wrote _ _ _ (length (head c (all_headers p h) ++ CL_HEADER_PREFIX)) (FormatFixed10 (Z.of_nat (length b))) W) as W1.
  rewrite take_app_length, length_FormatFixed10, drop_app_add in W1.
  assert (Hdrop : forall X : bytes, drop CL_FIELD_WIDTH (CL_PLACEHOLDER ++ X) = X) by done. rewrite Hdrop in W1.
  rewrite <- (Hsplit (FormatFixed10 (Z.of_nat (length b)))) in W1. fold (cl_line (Z.of_nat (length b))) in W1.
  assert (W2 := W1 ltac:(rewrite !length_app; change (length CL_PLACEHOLDER) with CL_FIELD_WIDTH; lia)). clear W1.
  wset (set_phase COMMITTED) W2. eapply wrote_models; [exact W2| |done]. do 5 (split; [done|]). by split.
Qed.

Lemma Commit_empty v r st :
  models r st -> in_head st = true -> fits (wire (spec_commit st)) -> models (Commit_ inc max v r) (spec_commit st).
Proof.
  intros M Hh Hf. unfold Commit_. rewrite (reject_open v r st M) by (by destruct st).
  assert (Eo : open_headers st = RHeaders (code_of st) (pers_of st) (hdrs_of st)) by (by destruct st).
  assert (Es : spec_commit st = RDone (code_of st) (pers_of st)
    (hdrs_of st ++ if StatusForbidsBody (code_of st) then [] else [(lit "Content-Length", lit "0")]) [] BUFFERED false)
    by (by destruct st).
  rewrite Es in *. cbn [Response.wire] in Hf.
  assert (Hf1 : fits (wire (open_headers st))).
  { rewrite Eo. cbn [Response.wire]. rewrite message_head, all_headers_app, head_app, <- app_assoc in Hf. by apply fits_app in Hf. }
  assert (Hk : bodyKind_ r = NONE /\ phase_ge (phase_ r) BODY = false).
  { destruct M as [(_ & _ & _ & _ & _ & Fk) _]. destruct st; try discriminate Hh; by destruct Fk as [-> ->]. }
  destruct Hk as [-> ->]. rewrite bool_decide_false by done. cbn [negb].
  pose proof (EnsureHeadersOpen_ok r st M Hf1) as M1. rewrite Eo in M1. cbv zeta.
  set (r1 := EnsureHeadersOpen inc max r) in *. pose proof M1 as [(Fv & Fs & Fc & Fp & Fa & Fk1 & Fk2) _].
  rewrite Fc. cbn [code_of]. pose proof (models_wrote _ _ M1) as W. cbn [Response.wire] in W.
  rewrite message_head in Hf. set (c := code_of st) in *.
  assert (W1 : wrote r1 (head c (all_headers (pers_of st) (hdrs_of st ++
     if StatusForbidsBody c then [] else [(lit "Content-Length", lit "0")]))) (if StatusForbidsBody c then r1 else put CL_ZERO r1)).
  { destruct (StatusForbidsBody c); [by rewrite app_nil_r|]. apply fits_app in Hf.
    rewrite all_headers_app, head_app, render_lines_one in *. by apply put_wrote. }
  rewrite app_nil_r in Hf. pose proof (put_wrote _ _ _ _ W1 Hf) as W2.
  wset (set_kind BUFFERED) W2. wset (set_phase COMMITTED) W2.
  eapply wrote_models; [exact W2| |by cbn [Response.wire]; rewrite message_head, app_nil_r]. by repeat split.
Qed.

Lemma fits_shorter x y : (length x <= length y)%nat -> fits y -> fits x.
Proof. unfold fits. lia. Qed.

Lemma head_one c p x : head c (all_headers p [x]) = head c (all_headers p []) ++ header_line x ++ CRLF.
Proof. change [x] with ([] ++ [x]). by rewrite all_headers_app, head_app, render_lines_one. Qed.

(** The slot is as wide as what is patched into it. *)
Lemma wire_body_length c p h b n a :
  length (wire (RBody c p h b)) = length (wire (RDone c p (h ++ [cl_line n]) b BUFFERED a)).
Proof.
  cbn [Response.wire]. rewrite !message_head, !all_headers_app, !head_app, !render_lines_one, !length_app.
  unfold header_line. rewrite !length_app. unfold cl_line, cl_slot. cbn [fst snd]. rewrite length_FormatFixed10. done.
Qed.

(** The sugar that ends every rebuilt response. *)
Lemma SendText_ok v r c p msg :
  models r (RStatus c p) -> StatusForbidsBody c = false ->
  fits (wire (RDone c p [(lit "Content-Type", lit "text/plain"); cl_line (Z.of_nat (length msg))] msg BUFFERED false)) ->
  models (SendText_ inc max v msg r)
         (RDone c p [(lit "Content-Type", lit "text/plain"); cl_line (Z.of_nat (length msg))] msg BUFFERED false).
Proof.
  intros M Hb Hf. set (ct := (lit "Content-Type", lit "text/plain")) in *.
  assert (Hf3 : fits (wire (RBody c p [ct] msg))).
  { eapply fits_shorter, Hf. change [ct; cl_line (Z.of_nat (length msg))] with ([ct] ++ [cl_line (Z.of_nat (length msg))]).
    by rewrite (wire_body_length c p [ct] msg (Z.of_nat (length msg)) false). }
  assert (Hf2 : fits (wire (RHeaders c p [ct]))).
  { cbn [Response.wire] in *. rewrite message_head, all_headers_app, head_app, <- app_assoc in Hf3. by apply fits_app in Hf3. }
  assert (Hf1 : fits (wire (RHeaders c p []))).
  { cbn [Response.wire] in *. rewrite head_one in Hf2. by apply fits_app in Hf2. }
  pose proof (EnsureHeadersOpen_ok r _ M Hf1) as M1. cbn [open_headers code_of pers_of] in M1.
  unfold SendText_. cbv zeta. set (r1 := EnsureHeadersOpen inc max r) in *.
  pose proof (models_wrote _ _ M1) as W. cbn [Response.wire] in W, Hf2.
  rewrite head_one in Hf2.
  pose proof (put_wrote _ _ _ _ W Hf2) as W1. wset (set_phase HEADERS) W1.
  assert (M2 : models (set_phase HEADERS (put (lit "Content-Type: text/plain" ++ CRLF) r1)) (RHeaders c p [ct])).
  { eapply wrote_models; [exact W1| |by cbn [Response.wire]; rewrite head_one].
    destruct M1 as [(Fv & Fs & Fc & Fp & Fa & Fk1 & Fk2) _]. by repeat split. }
  apply (Commit_body v _ c p [ct] msg); [|done].
  by apply (WriteBodyData_open v _ (RHeaders c p [ct]) msg).
Qed.

(** What every later message keeps in front. *)
Lemma wire_persistent st : st <> RFresh -> exists y, wire st = head (code_of st) (pers_of st) ++ y.
Proof.
  intros Hne. destruct st as [|c p|c p h|c p h b|c p h b k a]; [done| | | |]; cbn [Response.wire code_of pers_of].
  - exists []. by rewrite app_nil_r.
  - eexists. unfold Response.all_headers. by rewrite head_app.
  - eexists. rewrite message_head. unfold Response.all_headers. by rewrite head_app, <- app_assoc.
  - eexists. rewrite message_head. unfold Response.all_headers. by rewrite head_app, <- app_assoc.
Qed.

Lemma WriteStatus_reserved v r code :
  phase_ r = STATUS -> aborted_ r = false ->
  WriteStatus_ inc max v code r = patch (Z.of_nat STATUS_CODE_OFFSET) (status_digits code) (set_status code r).
Proof. intros E1 E2. unfold WriteStatus_, RejectIfCommitted_, EnsureStatusLineReserved. by rewrite E2, !E1; cbn; rewrite !E1. Qed.

Lemma AbortWithError_ok v r st code msg a :
  models r st -> StatusForbidsBody code = false -> fits (wire (replaced code msg a st)) ->
  models (AbortWithError_ inc max v code msg r) (replaced code msg false st).
Proof.
  intros M Hb Hf. unfold AbortWithError_, replaced in *.
  set (r1 := if bool_decide (bodyKind_ r = GEN_STREAM) then _ else r).
  assert (M1 : models r1 st).
  { unfold r1. destruct (bool_decide _); [|done]. destruct M as [F Hh]. by split. }
  clearbody r1. clear M r. rename r1 into r, M1 into M. pose proof (models_wrote _ _ M) as W.
  pose proof M as [(Fv & Fs & Fc & Fp & Fa & Fk) _].
  assert (M2 : models (WriteStatus_ inc max v code
     (set_phase (if 0 <? persistentHeadersEndOffset_ r then STATUS else FRESH) (set_kind NONE (set_status 200 (set_bodyStart 0
        (set_cl false 0 (set_aborted false (set_dataLength (persistentHeadersEndOffset_ r) r)))))))) (RStatus code (pers_of st))).
  2:{ apply (SendText_ok v _ _ _ msg M2 Hb). exact Hf. }
  assert (Hf1 : fits (head code (pers_of st))).
  { cbn [Response.wire] in Hf. rewrite message_head in Hf. unfold Response.all_headers in Hf. rewrite head_app, <- app_assoc in Hf.
    by apply fits_app in Hf. }
  assert (Hcase : st = RFresh \/ st <> RFresh) by (destruct st; [by left|by right..]).
  destruct Hcase as [->|Hne].
  - rewrite Fp. cbn [Z.ltb Z.compare]. cbn [pers_of Response.wire] in *.
    apply (WriteStatus_ok v _ RFresh code); [|done|exact Hf1].
    rewrite <- (app_nil_r []) in W. apply truncate_wrote in W. cbn [length Z.of_nat] in W.
    wset (set_aborted false) W. wset (set_cl false 0) W. wset (set_bodyStart 0) W. wset (set_status 200) W.
    wset (set_kind NONE) W. wset (set_phase FRESH) W. eapply wrote_models; [exact W| |done]. by repeat split.
  - destruct (wire_persistent st Hne) as [y Ey]. rewrite Ey in W. apply truncate_wrote in W.
    assert (Ep : persistentHeadersEndOffset_ r = Z.of_nat (length (head (code_of st) (pers_of st)))) by (by destruct st).
    rewrite <- Ep in W. rewrite (proj2 (Z.ltb_lt 0 _)) by (rewrite Ep, length_head; lia).
    wset (set_aborted false) W. wset (set_cl false 0) W. wset (set_bodyStart 0) W. wset (set_status 200) W.
    wset (set_kind NONE) W. wset (set_phase STATUS) W. rewrite WriteStatus_reserved by done.
    wset (set_status code) W. rewrite <- (app_nil_r (head _ _)) in W. apply (patch_status _ _ code) in W.
    rewrite app_nil_r in W. eapply wrote_models; [exact W| |done].
    split_and!; try done. etransitivity; [exact Ep|]. by rewrite !length_head.
Qed.

(** *** Contract violations *)

Abbreviation violate := (violate inc max).
Abbreviation AbortContractViolation := (AbortContractViolation inc max).

Definition is_aborted (st : rstate) : bool := match st with RDone _ _ _ _ _ a => a | _ => false end.

Lemma violation_cases st :
  violation st = if is_aborted st then st else replaced 500 (lit "Response contract violation") true st.
Proof. by destruct st as [| | | |? ? ? ? ? []]. Qed.

Lemma aborted_models r st : models r st -> aborted_ r = is_aborted st.
Proof. intros [(_ & _ & _ & _ & Fa & _) _]. by rewrite Fa; destruct st. Qed.

(** One level of recursion is enough: any more fuel builds the same message. *)
Lemma abort_fuel f r st :
  models r st -> fits (wire (violation st)) -> models (AbortContractViolation (S f) r) (violation st).
Proof.
  intros M Hf. rewrite violation_cases in *. cbn [Response.AbortContractViolation]. rewrite (aborted_models r st M).
  destruct (is_aborted st); [done|].
  pose proof (AbortWithError_ok (AbortContractViolation f) r st 500 _ true M eq_refl Hf) as M1.
  set (r1 := AbortWithError_ _ _ _ _ _ _) in *. clearbody r1. destruct M1 as [F Hh].
  split; [|destruct Hh as (b & Eb & Hb); by exists b]. destruct F as (Fv & Fs & Fc & Fp & Fa & Fk1 & Fk2).
  do 3 (split; [done|]). split; [exact Fp|]. by repeat split.
Qed.

Lemma violate_ok r st : models r st -> fits (wire (violation st)) -> models (violate r) (violation st).
Proof. intros M Hf. exact (abort_fuel 1 r st M Hf). Qed.

Lemma reject_done_ok r st st' :
  models r st -> is_done st = true -> st' = violation st -> fits (wire st') ->
  exists r', RejectIfCommitted inc max r = (true, r') /\ models r' st'.
Proof.
  intros M Hd -> Hf. destruct st as [| | | |c p h b k a]; try discriminate Hd.
  eexists. split; [exact (reject_done _ r _ _ _ _ _ _ M)|].
  destruct a; [exact M|]. by apply violate_ok.
Qed.

Lemma violation_open_headers st : is_done st = false -> violation (open_headers st) = violation st.
Proof. by destruct st. Qed.

Lemma pers_wire_fits st c' h b k a :
  in_head st = true -> fits (wire (RDone c' (pers_of st) h b k a)) -> fits (wire (RHeaders (code_of st) (pers_of st) [])).
Proof.
  intros _. apply fits_shorter. cbn [Response.wire]. rewrite message_head, length_app, !length_head.
  unfold Response.all_headers. rewrite !render_lines_app. change (connection_header close :: h) with ([connection_header close] ++ h).
  rewrite render_lines_app, !length_app. lia.
Qed.

Lemma EnsureHeadersOpen_id r c p h : models r (RHeaders c p h) -> EnsureHeadersOpen inc max r = r.
Proof.
  intros [(_ & _ & _ & _ & _ & Fk & _) _]. unfold EnsureHeadersOpen, EnsureStatusLineReserved. by rewrite Fk; cbn; rewrite Fk.
Qed.

(** *** Each operation refines its specification *)

Lemma phase_open r st : models r st -> in_head st = true -> phase_ge (phase_ r) BODY = false /\ phase_is (phase_ r) BODY = false /\ bodyKind_ r = NONE.
Proof. intros [(_ & _ & _ & _ & _ & Fk) _] Hh. destruct st; try discriminate Hh; by destruct Fk as [-> ->]. Qed.

Lemma WriteStatus_refines r st code :
  models r st -> fits (wire (spec_status code st)) -> models (WriteStatus inc max code r) (spec_status code st).
Proof.
  intros M Hf. destruct (in_head st) eqn:Hh; [by apply WriteStatus_ok|]. unfold WriteStatus, WriteStatus_.
  destruct (is_done st) eqn:Hd.
  - assert (E : spec_status code st = violation st) by (by destruct st).
    destruct (reject_done_ok r st _ M Hd E Hf) as (r' & Er & M'). unfold RejectIfCommitted in Er. by rewrite Er.
  - rewrite (reject_open _ r st M Hd). destruct st as [| | |c p h b|]; try discriminate.
    assert (Ep : phase_ r = BODY) by (by destruct M as [(_ & _ & _ & _ & _ & Fk & _) _]).
    rewrite Ep. by apply violate_ok.
Qed.

Lemma WriteBodyData_refines r st d :
  models r st -> fits (wire (spec_body d st)) -> models (WriteBodyData inc max d r) (spec_body d st).
Proof.
  intros M Hf. destruct (is_done st) eqn:Hd.
  { assert (E : spec_body d st = violation st) by (by destruct st). unfold WriteBodyData, WriteBodyData_.
    destruct (reject_done_ok r st _ M Hd E Hf) as (r' & Er & M'). unfold RejectIfCommitted in Er. by rewrite Er. }
  destruct (in_head st) eqn:Hh; [|destruct st; try discriminate; by apply WriteBodyData_more].
  assert (E : spec_body d st = if StatusForbidsBody (code_of st) then violation st
                               else RBody (code_of st) (pers_of st) (hdrs_of st) d) by (by destruct st).
  rewrite E in *. destruct (StatusForbidsBody (code_of st)) eqn:Hb; [|by apply WriteBodyData_open].
  unfold WriteBodyData, WriteBodyData_. rewrite (reject_open _ r st M Hd). unfold EnsureBodyOpen_. cbv zeta.
  assert (Eo : open_headers st = RHeaders (code_of st) (pers_of st) (hdrs_of st)) by (by destruct st).
  assert (Hf1 : fits (wire (violation (open_headers st)))) by (by rewrite violation_open_headers).
  assert (M1 : models (EnsureHeadersOpen inc max r) (open_headers st)).
  { destruct st as [|c p|c p h| |]; try discriminate Hh; [..|by rewrite (EnsureHeadersOpen_id _ _ _ _ M)];
      (apply EnsureHeadersOpen_ok; [done|]); by eapply (pers_wire_fits _ 500 _ _ _ _ Hh), Hf. }
  rewrite <- violation_open_headers by done.
  set (r1 := EnsureHeadersOpen inc max r) in *.
  assert (Hp : phase_ge (phase_ r1) BODY = false /\ status_ r1 = code_of st).
  { rewrite Eo in M1. destruct M1 as [(_ & _ & -> & _ & _ & -> & _) _]. done. }
  destruct Hp as [-> ->]. rewrite Hb. by apply violate_ok.
Qed.

Lemma Commit_refines r st :
  models r st -> fits (wire (spec_commit st)) -> models (Commit inc max r) (spec_commit st).
Proof.
  intros M Hf. destruct (is_done st) eqn:Hd.
  { assert (E : spec_commit st = violation st) by (by destruct st). unfold Commit, Commit_.
    destruct (reject_done_ok r st _ M Hd E Hf) as (r' & Er & M'). unfold RejectIfCommitted in Er. by rewrite Er. }
  destruct (in_head st) eqn:Hh; [by apply Commit_empty|]. destruct st as [| | |c p h b|]; try discriminate.
  apply Commit_body; [done|]. unfold fits in *. cbn [spec_commit] in Hf. by rewrite (wire_body_length _ _ _ _ (Z.of_nat (length b)) false).
Qed.

(** A header line after the head written so far. *)
Lemma put_header_wrote r0 r c hs k v :
  wrote r0 (head c hs) r -> fits (head c (hs ++ [(k, v)])) -> wrote r0 (head c (hs ++ [(k, v)])) (put_line inc max k v r).
Proof. rewrite head_app, render_lines_one. apply put_line_wrote. Qed.

Lemma WritePersistentHeader_refines r st k v :
  models r st -> fits (wire (spec_persistent k v st)) -> models (WritePersistentHeader inc max k v r) (spec_persistent k v st).
Proof.
  intros M Hf. unfold WritePersistentHeader. destruct (is_done st) eqn:Hd.
  { assert (E : spec_persistent k v st = violation st) by (by destruct st).
    destruct (reject_done_ok r st _ M Hd E Hf) as (r' & Er & M'). by rewrite Er. }
  unfold RejectIfCommitted. rewrite (reject_open _ r st M Hd).
  destruct (phase_ge (phase_ r) HEADERS) eqn:Eh.
  { assert (E : spec_persistent k v st = violation st).
    { destruct M as [(_ & _ & _ & _ & _ & Fk) _]. destruct st; try done; destruct Fk as [Fk _]; by rewrite Fk in Eh. }
    rewrite E in *. by apply violate_ok. }
  assert (Es : spec_persistent k v st = (if bad_header k v then violation st else RStatus (code_of st) (pers_of st ++ [(k, v)]))
               /\ open_status st = RStatus (code_of st) (pers_of st)).
  { destruct M as [(_ & _ & _ & _ & _ & Fk) _].
    destruct st; try done; destruct Fk as [Fk _]; by rewrite Fk in Eh. }
  destruct Es as [Es Eo]. rewrite Es in *. unfold bad_header in *.
  destruct (InsensitiveStringCompare k (lit "connection")); cbn [orb] in *; [by apply violate_ok|].
  destruct (HasCRLFOrNull k || HasCRLFOrNull v); [by apply violate_ok|].
  cbv zeta. cbn [Response.wire] in Hf.
  assert (M1 : models (EnsureStatusLineReserved inc max r) (open_status st)).
  { apply EnsureStatusLineReserved_ok; [done|]. rewrite Eo. cbn [Response.wire]. rewrite head_app in Hf. by apply fits_app in Hf. }
  rewrite Eo in M1. pose proof (models_wrote _ _ M1) as W. cbn [Response.wire] in W.
  pose proof (put_header_wrote _ _ _ _ k v W Hf) as W1. rewrite (dataLength_holds _ _ (proj2 W1)).
  wset (set_persistentEnd (Z.of_nat (length (head (code_of st) (pers_of st ++ [(k, v)]))))) W1.
  eapply wrote_models; [exact W1| |done]. destruct M1 as [(Fv & Fs & Fc & Fp & Fa & Fk1 & Fk2) _]. by repeat split.
Qed.

Lemma WriteHeader_refines r st k v :
  models r st -> fits (wire (spec_header k v st)) -> models (WriteHeader inc max k v r) (spec_header k v st).
Proof.
  intros M Hf. unfold WriteHeader. destruct (is_done st) eqn:Hd.
  { assert (E : spec_header k v st = violation st) by (by destruct st).
    destruct (reject_done_ok r st _ M Hd E Hf) as (r' & Er & M'). by rewrite Er. }
  unfold RejectIfCommitted. rewrite (reject_open _ r st M Hd). destruct (in_head st) eqn:Hh.
  2:{ destruct st as [| | |c p h b|]; try discriminate. assert (Ep : phase_ r = BODY) by (by destruct M as [(_ & _ & _ & _ & _ & Fk & _) _]).
      rewrite Ep. by apply violate_ok. }
  destruct (phase_open r st M Hh) as (_ & -> & _).
  assert (Es : spec_header k v st = if bad_header k v then violation st else RHeaders (code_of st) (pers_of st) (hdrs_of st ++ [(k, v)]))
    by (by destruct st).
  assert (Eo : open_headers st = RHeaders (code_of st) (pers_of st) (hdrs_of st)) by (by destruct st).
  rewrite Es in *. unfold bad_header in *.
  destruct (InsensitiveStringCompare k (lit "connection")); cbn [orb] in *; [by apply violate_ok|].
  destruct (HasCRLFOrNull k || HasCRLFOrNull v); [by apply violate_ok|].
  cbn [Response.wire] in Hf. rewrite all_headers_app in Hf.
  assert (M1 : models (EnsureHeadersOpen inc max r) (open_headers st)).
  { apply EnsureHeadersOpen_ok; [done|]. rewrite Eo. cbn [Response.wire]. rewrite head_app in Hf. by apply fits_app in Hf. }
  rewrite Eo in M1. pose proof (models_wrote _ _ M1) as W. cbn [Response.wire] in W.
  pose proof (put_header_wrote _ _ _ _ k v W Hf) as W1. rewrite <- all_headers_app in W1. wset (set_phase HEADERS) W1.
  eapply wrote_models; [exact W1| |done]. destruct M1 as [(Fv & Fs & Fc & Fp & Fa & Fk1 & Fk2) _].
  do 3 (split; [done|]). split; [exact Fp|]. by repeat split.
Qed.

(** What [WriteFile] and [WriteStream] share: headers are appended, and the
    response is committed with a body that is sent from elsewhere. *)
Lemma open_for r st hs k :
  models r st -> in_head st = true -> fits (wire (RDone (code_of st) (pers_of st) (hdrs_of st ++ hs) [] k false)) ->
  models (EnsureHeadersOpen inc max r) (RHeaders (code_of st) (pers_of st) (hdrs_of st)) /\
  fits (head (code_of st) (all_headers (pers_of st) (hdrs_of st ++ hs)) ++ CRLF).
Proof.
  intros M Hh Hf. cbn [Response.wire] in *. rewrite message_head, app_nil_r in Hf. split; [|done]. apply fits_app in Hf.
  assert (Eo : open_headers st = RHeaders (code_of st) (pers_of st) (hdrs_of st)) by (by destruct st).
  rewrite <- Eo. apply EnsureHeadersOpen_ok; [done|]. rewrite Eo. cbn [Response.wire].
  rewrite all_headers_app, head_app in Hf. by apply fits_app in Hf.
Qed.

Lemma close_head r0 r1 c p h h' k f :
  models r0 (RHeaders c p h) -> wrote r0 (head c (all_headers p h')) r1 -> fits (head c (all_headers p h') ++ CRLF) ->
  (forall rw r, f (set_rw rw r) = set_rw rw (f r)) -> fields_ok version close (f r0) (RDone c p h' [] k false) ->
  models (f (put CRLF r1)) (RDone c p h' [] k false).
Proof.
  intros M W Hf Hset F. pose proof (put_wrote _ _ _ _ W Hf) as W1.
  pose proof (wrote_set f _ _ _ Hset W1) as W2. eapply wrote_models; [exact W2|exact F|].
  cbn [Response.wire]. by rewrite message_head, app_nil_r.
Qed.

Lemma WriteStream_refines r st g ck :
  models r st -> fits (wire (spec_stream ck st)) -> models (WriteStream inc max g ck r) (spec_stream ck st).
Proof.
  intros M Hf. unfold WriteStream. destruct (is_done st) eqn:Hd.
  { assert (E : spec_stream ck st = violation st) by (by destruct st).
    destruct (reject_done_ok r st _ M Hd E Hf) as (r' & Er & M'). by rewrite Er. }
  unfold RejectIfCommitted. rewrite (reject_open _ r st M Hd). destruct (in_head st) eqn:Hh.
  2:{ destruct st as [| | |c p h b|]; try discriminate.
      assert (Ek : bodyKind_ r = BUFFERED) by (by destruct M as [(_ & _ & _ & _ & _ & _ & Fk & _) _]).
      rewrite Ek. by apply violate_ok. }
  destruct (phase_open r st M Hh) as (_ & _ & ->). cbn [bool_decide negb].
  assert (Ec : status_ r = code_of st) by (by destruct M as [(_ & _ & Fc & _) _]). rewrite Ec.
  set (hs := if ck then [(lit "Transfer-Encoding", lit "chunked")] else []).
  assert (Es : spec_stream ck st = if StatusForbidsBody (code_of st) then violation st
                                   else RDone (code_of st) (pers_of st) (hdrs_of st ++ hs) [] GEN_STREAM false) by (by destruct st).
  rewrite Es in *. rewrite bool_decide_true by done. cbn [negb].
  destruct (StatusForbidsBody (code_of st)); [by apply violate_ok|].
  destruct (open_for r st hs GEN_STREAM M Hh Hf) as [M1 Hf1]. cbv zeta. set (r0 := EnsureHeadersOpen inc max r) in *.
  apply (close_head r0 _ _ _ (hdrs_of st) _ _ (fun r => set_phase COMMITTED (set_kind GEN_STREAM (set_stream (Some g) (destroy_stream r) r))));
    [done| |done|done|].
  - pose proof (models_wrote _ _ M1) as W. cbn [Response.wire] in W. rewrite all_headers_app, head_app in *. unfold hs in *.
    destruct ck; [|by rewrite app_nil_r]. apply fits_app in Hf1. rewrite render_lines_one in *. by apply put_wrote.
  - destruct M1 as [(Fv & Fs & Fc & Fp & Fa & Fk) _]. do 3 (split; [done|]). split; [exact Fp|]. by repeat split.
Qed.

Context (FileExists : bytes -> bool) (GetFileSize : bytes -> Z).

Lemma WriteFile_refines r st path auto :
  models r st -> fits (wire (spec_file FileExists GetFileSize path auto st)) ->
  models (WriteFile inc max FileExists GetFileSize path auto r) (spec_file FileExists GetFileSize path auto st).
Proof.
  intros M Hf. unfold WriteFile. destruct (is_done st) eqn:Hd.
  { assert (E : spec_file FileExists GetFileSize path auto st = violation st) by (by destruct st).
    destruct (reject_done_ok r st _ M Hd E Hf) as (r' & Er & M'). by rewrite Er. }
  unfold RejectIfCommitted. rewrite (reject_open _ r st M Hd). destruct (in_head st) eqn:Hh.
  2:{ destruct st as [| | |c p h b|]; try discriminate.
      assert (Ep : phase_ r = BODY) by (by destruct M as [(_ & _ & _ & _ & _ & Fk & _) _]).
      rewrite Ep. by apply violate_ok. }
  destruct (phase_open r st M Hh) as (_ & -> & Ek). rewrite Ek, bool_decide_true by done. cbn [negb].
  assert (Ec : status_ r = code_of st) by (by destruct M as [(_ & _ & Fc & _) _]). rewrite Ec.
  set (hs := [(lit "Content-Length", FormatUInt64 (GetFileSize path)); (lit "Content-Type", Mime.DetectMimeFromExt path)]).
  assert (Es : spec_file FileExists GetFileSize path auto st =
    if StatusForbidsBody (code_of st) then violation st
    else if auto && negb (FileExists path) then replaced 404 (lit "File not found") false st
    else RDone (code_of st) (pers_of st) (hdrs_of st ++ hs) [] FILE false) by (by destruct st).
  rewrite Es in *. destruct (StatusForbidsBody (code_of st)); [by apply violate_ok|].
  destruct (auto && negb (FileExists path)); [by eapply AbortWithError_ok|].
  destruct (open_for r st hs FILE M Hh Hf) as [M1 Hf1]. cbv zeta. set (r0 := EnsureHeadersOpen inc max r) in *.
  apply (close_head r0 _ _ _ (hdrs_of st) _ _ (fun r => set_phase COMMITTED (set_kind FILE (set_file path r)))); [done| |done|done|].
  - pose proof (models_wrote _ _ M1) as W. cbn [Response.wire] in W. rewrite all_headers_app, head_app in *.
    apply fits_app in Hf1.
    set (len := FormatUInt64 (GetFileSize path)) in *. set (mime := Mime.DetectMimeFromExt path) in *.
    assert (Eh : render_lines hs = concat [CL_HEADER_PREFIX; len; CRLF; lit "Content-Type: "; mime; CRLF]).
    { unfold hs, render_lines. cbn [map concat]. unfold header_line. cbn [fst snd]. by rewrite <- !app_assoc. }
    rewrite Eh in *. exact (puts_wrote _ _ _ _ W Hf1).
  - destruct M1 as [(Fv & Fs & Fc & Fp & Fa & Fk) _]. do 3 (split; [done|]). split; [exact Fp|]. by repeat split.
Qed.

Lemma WriteTemplate_refines r st t :
  models r st -> fits (wire (spec_before st (OTemplate t))) -> fits (wire (spec_template FileExists GetFileSize t st)) ->
  models (WriteTemplate inc max FileExists GetFileSize t r) (spec_template FileExists GetFileSize t st).
Proof.
  intros M Hb Hf. unfold WriteTemplate. destruct (is_done st) eqn:Hd.
  { assert (E : spec_template FileExists GetFileSize t st = violation st) by (by destruct st).
    destruct (reject_done_ok r st _ M Hd E Hf) as (r' & Er & M'). by rewrite Er. }
  unfold RejectIfCommitted. rewrite (reject_open _ r st M Hd).
  assert (Es : spec_template FileExists GetFileSize t st =
    match t with
    | TplMissing => replaced 404 (lit "Template not found :(") false st
    | TplStatic path => spec_file FileExists GetFileSize path false (spec_html st)
    | TplBroken message => replaced 500 message false st
    | TplNoMemory => replaced 500 (lit "Template allocation failed") false (spec_html st)
    | TplDynamic _ => spec_stream true (spec_html st)
    end) by (by destruct st).
  rewrite Es in *. destruct t as [|path|msg| |g]; cbn [spec_before] in Hb.
  - by eapply AbortWithError_ok.
  - by apply WriteFile_refines; [apply WriteHeader_refines|].
  - by eapply AbortWithError_ok.
  - eapply AbortWithError_ok; [by apply WriteHeader_refines|done|exact Hf].
  - by apply WriteStream_refines; [apply WriteHeader_refines|].
Qed.

(** *** Whole responses *)

Abbreviation spec_exec := (spec_exec FileExists GetFileSize).
Abbreviation exec := (exec inc max FileExists GetFileSize).
Abbreviation runs_fit := (runs_fit max FileExists GetFileSize version close).

Lemma exec_refines r st o : models r st -> fits (wire (spec_before st o)) -> fits (wire (spec_exec st o)) -> models (exec r o) (spec_exec st o).
Proof.
  destruct o; cbn [Response.exec Response.spec_exec]; intros M Hb Hf;
    [by apply WriteStatus_refines|by apply WritePersistentHeader_refines|by apply WriteHeader_refines
    |by apply WriteBodyData_refines|by apply WriteFile_refines|by apply WriteStream_refines|by apply WriteTemplate_refines|by apply Commit_refines].
Qed.

Lemma finish_refines r st : models r st -> fits (wire (spec_finish st)) -> models (finish inc max r) (spec_finish st).
Proof.
  intros M Hf. unfold finish, IsCommitted, spec_finish in *. destruct (is_done st) eqn:Hd.
  - assert (Ep : phase_ r = COMMITTED) by (destruct M as [(_ & _ & _ & _ & _ & Fk) _]; destruct st; try discriminate Hd; apply Fk).
    by rewrite Ep.
  - assert (Ep : phase_is (phase_ r) COMMITTED = false).
    { destruct M as [(_ & _ & _ & _ & _ & Fk) _]. destruct st; try discriminate Hd; by destruct Fk as [-> _]. }
    rewrite Ep. by apply Commit_refines.
Qed.

Lemma run_refines ops : forall r st,
  models r st -> runs_fit ops st ->
  models (finish inc max (fold_left exec ops r)) (spec_finish (fold_left spec_exec ops st)).
Proof.
  induction ops as [|o ops IH]; intros r st M Hf; cbn in *; [by apply finish_refines|].
  destruct Hf as [[Hf0 Hf1] Hf2]. apply IH; [|done]. by apply exec_refines.
Qed.

Lemma Reset_models r b :
  writeBuffer_ (rwBuffer_ r) = Some b -> wf b -> version_ r = version -> shouldClose_ r = close -> models (Reset r) RFresh.
Proof.
  intros Eb (W1 & W2 & W3) <- <-. unfold Reset.
  set (r1 := if bool_decide (bodyKind_ r = GEN_STREAM) then _ else r).
  assert (E : rwBuffer_ r1 = rwBuffer_ r /\ version_ r1 = version_ r /\ shouldClose_ r1 = shouldClose_ r)
    by (unfold r1; by destruct (bool_decide _)).
  destruct E as (-> & -> & ->). split; [by repeat split|]. eexists. unfold ClearWriteBuffer. cbn. rewrite Eb. cbn.
  split; [done|]. unfold wf, clear_block. cbn. split; [lia|]. done.
Qed.

End proofs.

(** ** What a client reads *)

Definition clean (s : bytes) : Prop := Forall (fun c => c <> CR /\ c <> LF /\ c <> NUL) s.

Lemma HasCRLFOrNull_clean s : HasCRLFOrNull s = false <-> clean s.
Proof.
  unfold HasCRLFOrNull, clean. induction s as [|c s IH]; cbn; [by split|].
  rewrite orb_false_iff, IH, Forall_cons, !orb_false_iff, !Z.eqb_neq. tauto.
Qed.

Lemma clean_app x y : clean (x ++ y) <-> clean x /\ clean y.
Proof. apply Forall_app. Qed.

Lemma read_line_clean l rest : clean l -> read_line (l ++ CRLF ++ rest) = Some (l, rest).
Proof.
  intros Hl. induction Hl as [|c l (Hc & _) _ IH]; [done|]. cbn [app read_line]. apply Z.eqb_neq in Hc. rewrite Hc. cbn [andb].
  rewrite IH. by destruct l.
Qed.

Lemma read_lines_clean ls body fuel :
  Forall (fun l => clean l /\ l <> []) ls -> (length ls < fuel)%nat ->
  read_lines fuel (concat (map (fun l => l ++ CRLF) ls) ++ CRLF ++ body) = Some (ls, body).
Proof.
  intros Hl. revert fuel. induction Hl as [|l ls [Hc Hne] _ IH]; intros [|fuel] Hf; cbn [length] in Hf; try lia; [done|].
  cbn [map concat]. cbn [read_lines]. rewrite <- !app_assoc, read_line_clean by done. destruct l; [done|]. rewrite IH by lia. done.
Qed.

Lemma length_crlf_lines ls rest : (length ls < length (concat (map (fun l => l ++ CRLF) ls) ++ CRLF ++ rest))%nat.
Proof.
  induction ls as [|l ls IH]; cbn; [lia|]. rewrite !length_app in *. cbn [length] in *. lia.
Qed.

(** Reading back a message whose parts hold no CR or LF. *)
Lemma read_message_ok version c hs body :
  clean (status_line version c) -> Forall (fun h => clean (header_line h)) hs ->
  read_message (message version c hs body) = Some (status_line version c :: map header_line hs, body).
Proof.
  intros Hs Hh. unfold read_message.
  assert (E : message version c hs body = concat (map (fun l => l ++ CRLF) (status_line version c :: map header_line hs)) ++ CRLF ++ body).
  { unfold message, render_lines. cbn [map concat]. rewrite map_map, <- !app_assoc. done. }
  rewrite E. apply read_lines_clean; [|apply length_crlf_lines].
  constructor; [split; [done|]; intros E0; by apply (f_equal length) in E0; rewrite length_status_line in E0|].
  apply Forall_fmap. eapply Forall_impl; [exact Hh|]. intros [k v] Hc. split; [exact Hc|]. unfold header_line. cbn. by destruct k.
Qed.

(** *** What the specification keeps *)

Definition not_connection (h : bytes * bytes) : Prop := InsensitiveStringCompare h.1 (lit "connection") = false.
Definition safe_line (h : bytes * bytes) : Prop := clean (header_line h) /\ not_connection h.

Definition reads_length (hdrs : lines) (body : bytes) : Prop :=
  exists hs v, hdrs = hs ++ [(lit "Content-Length", v)] /\ StrToUInt64 v = Some (Z.of_nat (length body)).

Definition spec_ok (st : rstate) : Prop :=
  100 <= code_of st < 1000 /\ Forall safe_line (pers_of st) /\ Forall safe_line (hdrs_of st) /\
  match st with
  | RBody c _ _ _ => StatusForbidsBody c = false
  | RDone c _ h b k _ =>
      (StatusForbidsBody c = true -> b = []) /\
      (k = BUFFERED -> StatusForbidsBody c = false -> Z.of_nat (length b) < 2 ^ 32 -> reads_length h b)
  | _ => True
  end.

Lemma bad_header_safe k v : bad_header k v = false -> safe_line (k, v).
Proof.
  unfold bad_header, safe_line, header_line. rewrite !orb_false_iff, !HasCRLFOrNull_clean. intros (Hc & Hk & Hv).
  split; [|done]. cbn [fst snd]. rewrite !clean_app. split; [done|]. split; [|done].
  repeat (constructor; [done|]). constructor.
Qed.

Lemma digits_clean s : Forall (fun c => is_digit c = true) s -> clean s.
Proof.
  intros Hs. eapply Forall_impl; [exact Hs|]. intros c Hc. apply is_digit_spec in Hc. lia.
Qed.

Lemma decimal_digit d : 0 <= d < 10 -> is_digit (48 + d) = true.
Proof. intros Hd. apply is_digit_spec. lia. Qed.

Lemma format_fixed_digits n v : Forall (fun c => is_digit c = true) (format_fixed 10 (fun d => 48 + d) n v).
Proof.
  revert v. induction n as [|n IH]; intros v; cbn [format_fixed]; [constructor|].
  apply Forall_app. split; [apply IH|]. constructor; [|constructor]. apply decimal_digit. apply Z.mod_pos_bound. lia.
Qed.

Lemma dec_value_format_fixed n v : dec_value (format_fixed 10 (fun d => 48 + d) n v) = v mod 10 ^ Z.of_nat n.
Proof.
  revert v. induction n as [|n IH]; intros v; cbn [format_fixed]; [by rewrite Z.mod_1_r|].
  rewrite dec_value_snoc, IH. rewrite Nat2Z.inj_succ, Z.pow_succ_r by lia.
  rewrite Z.rem_mul_r by lia. lia.
Qed.

Lemma StrToUInt64_digits s :
  s <> [] -> Forall (fun c => is_digit c = true) s -> dec_value s < 2 ^ 64 -> StrToUInt64 s = Some (dec_value s).
Proof.
  intros Hne Hd Hv. unfold StrToUInt64. rewrite from_chars_uint_all by done. apply Z.ltb_lt in Hv. rewrite Hv. by destruct s.
Qed.

(** The ten digits hold any 32-bit length. *)
Lemma FormatFixed10_reads v : 0 <= v < 2 ^ 32 -> StrToUInt64 (FormatFixed10 v) = Some v.
Proof.
  intros Hv. unfold FormatFixed10.
  assert (Ev : dec_value (format_fixed 10 (fun d => 48 + d) CL_FIELD_WIDTH v) = v).
  { rewrite dec_value_format_fixed. apply Z.mod_small. unfold CL_FIELD_WIDTH. lia. }
  rewrite StrToUInt64_digits; [by rewrite Ev| |apply format_fixed_digits|rewrite Ev; lia].
  intros E. by apply (f_equal length) in E; rewrite length_format_fixed in E.
Qed.

Lemma digits_rev_digits fuel v : 0 <= v -> Forall (fun c => is_digit c = true) (digits_rev fuel v).
Proof.
  revert v. induction fuel as [|fuel IH]; intros v Hv; cbn [digits_rev]; [constructor|].
  destruct (0 <? v); [|constructor]. constructor; [apply decimal_digit, Z.mod_pos_bound; lia|].
  apply IH, Z.div_pos; lia.
Qed.

Lemma FormatUInt64_digits v : 0 <= v -> Forall (fun c => is_digit c = true) (FormatUInt64 v).
Proof.
  intros Hv. unfold FormatUInt64. destruct (v =? 0); [by repeat constructor|]. apply Forall_rev, digits_rev_digits, Hv.
Qed.

Lemma named_safe name v : clean name -> clean v -> not_connection (name, v) -> safe_line (name, v).
Proof.
  intros Hn Hv Hc. split; [|done]. unfold header_line. cbn [fst snd]. rewrite !clean_app. split; [done|]. split; [|done].
  repeat (constructor; [done|]). constructor.
Qed.

Definition cleanb (s : bytes) : bool := negb (HasCRLFOrNull s).
Lemma cleanb_clean s : cleanb s = true -> clean s.
Proof. unfold cleanb. intros Hs. apply negb_true_iff in Hs. by apply HasCRLFOrNull_clean. Qed.

Lemma mime_table_clean : forallb (fun e => cleanb (snd e)) Mime.MIME_FROM_EXT = true.
Proof. vm_compute. reflexivity. Qed.

Lemma mime_clean path : clean (Mime.DetectMimeFromExt path).
Proof.
  apply cleanb_clean. unfold Mime.DetectMimeFromExt. destruct (Mime.ExtractExtension path) as [|c e]; [done|].
  destruct (Mime.find (c :: e) Mime.MIME_FROM_EXT) as [m|] eqn:E; [|done]. apply Mime.find_Some_in in E.
  pose proof mime_table_clean as Ht. rewrite forallb_forall in Ht. by apply list_elem_of_In, Ht in E.
Qed.

Lemma cl_safe v : Forall (fun c => is_digit c = true) v -> safe_line (lit "Content-Length", v).
Proof. intros Hv. apply named_safe; [by apply cleanb_clean|by apply digits_clean|done]. Qed.

Lemma cl_line_safe n : safe_line (cl_line n).
Proof. apply cl_safe, format_fixed_digits. Qed.

Lemma replaced_ok code msg a st :
  spec_ok st -> 100 <= code < 1000 -> StatusForbidsBody code = false -> spec_ok (replaced code msg a st).
Proof.
  intros (_ & Hp & _ & _) Hc Hb. unfold replaced. split; [done|]. split; [done|]. split.
  - constructor; [by apply named_safe; [apply cleanb_clean..|]|]. constructor; [apply cl_line_safe|constructor].
  - split; [by rewrite Hb|]. intros _ _ Hl. exists [(lit "Content-Type", lit "text/plain")]. eexists. split; [done|].
    apply FormatFixed10_reads. lia.
Qed.

Lemma violation_ok st : spec_ok st -> spec_ok (violation st).
Proof. intros Hs. rewrite violation_cases. destruct (is_aborted st); [done|]. by apply replaced_ok. Qed.

Lemma spec_commit_ok st : spec_ok st -> spec_ok (spec_commit st).
Proof.
  intros Hs. pose proof Hs as (Hc & Hp & Hh & Hk).
  assert (Hhead : in_head st = true -> spec_ok (RDone (code_of st) (pers_of st)
    (hdrs_of st ++ if StatusForbidsBody (code_of st) then [] else [(lit "Content-Length", lit "0")]) [] BUFFERED false)).
  { intros _. split; [done|]. split; [done|]. cbn [hdrs_of]. split.
    - apply Forall_app. split; [done|]. destruct (StatusForbidsBody _); constructor; [by apply cl_safe; repeat constructor|constructor].
    - split; [done|]. intros _ -> _. by exists (hdrs_of st), (lit "0"). }
  destruct st as [| | |c p h b|]; [by apply Hhead..| |by apply violation_ok].
  split; [done|]. split; [done|]. cbn [spec_commit hdrs_of pers_of code_of] in *. split.
  - apply Forall_app. split; [done|]. constructor; [apply cl_line_safe|constructor].
  - split; [by rewrite Hk|]. intros _ _ Hl. exists h. eexists. split; [done|]. apply FormatFixed10_reads. lia.
Qed.

Lemma RFresh_ok : spec_ok RFresh.
Proof. split; [unfold code_of, ok_status; lia|]. by repeat constructor. Qed.

Section client.
Context (FileExists : bytes -> bool) (GetFileSize : bytes -> Z) (Hsize : forall path, 0 <= GetFileSize path).

Ltac ok_parts := unfold spec_ok; cbn in *; split_and!; first [done|lia].

Definition basic (o : op) : Prop := match o with OTemplate _ => False | _ => True end.

Lemma spec_basic_ok st o : basic o -> spec_ok st -> op_ok o -> spec_ok (spec_exec FileExists GetFileSize st o).
Proof.
  intros Hb Hs Ho. pose proof Hs as (Hc & Hp & Hh & Hk). pose proof (violation_ok st Hs) as Hv.
  destruct o as [c|k v|k v|d|path auto|g ck|t|]; cbn [spec_exec op_ok] in *; try done.
  - destruct st; try exact Hv; ok_parts.
  - destruct st; try exact Hv; cbn [spec_persistent]; (destruct (bad_header k v) eqn:E; [exact Hv|]);
      (split; [done|]); (split; [|by split]); apply Forall_app; (split; [done|]); by constructor; [apply bad_header_safe|].
  - destruct st; try exact Hv; cbn [spec_header]; (destruct (bad_header k v) eqn:E; [exact Hv|]);
      (split; [done|]); (split; [done|]); (split; [|done]); apply Forall_app; (split; [done|]); by constructor; [apply bad_header_safe|].
  - destruct st; try exact Hv; cbn [spec_body code_of] in *; try ok_parts.
    all: destruct (StatusForbidsBody _) eqn:E; [exact Hv|ok_parts].
  - assert (Hd : in_head st = true -> StatusForbidsBody (code_of st) = false ->
      spec_ok (RDone (code_of st) (pers_of st) (hdrs_of st ++ [(lit "Content-Length", FormatUInt64 (GetFileSize path));
                (lit "Content-Type", Mime.DetectMimeFromExt path)]) [] FILE false)).
    { intros _ E. split; [done|]. split; [done|]. split; [|by rewrite E]. apply Forall_app. split; [done|].
      constructor; [apply cl_safe, FormatUInt64_digits, Hsize|]. constructor; [|constructor].
      apply named_safe; [by apply cleanb_clean|apply mime_clean|done]. }
    destruct st; try exact Hv; unfold spec_file; (destruct (StatusForbidsBody _) eqn:E; [exact Hv|]);
      (destruct (auto && negb (FileExists path)); [by apply replaced_ok|by apply Hd]).
  - assert (Hd : in_head st = true -> StatusForbidsBody (code_of st) = false ->
      spec_ok (RDone (code_of st) (pers_of st) (hdrs_of st ++ if ck then [(lit "Transfer-Encoding", lit "chunked")] else []) [] GEN_STREAM false)).
    { intros _ E. split; [done|]. split; [done|]. split; [|by rewrite E]. apply Forall_app. split; [done|].
      destruct ck; constructor; [|constructor]. by apply named_safe; [apply cleanb_clean..|]. }
    destruct st; try exact Hv; unfold spec_stream; (destruct (StatusForbidsBody _) eqn:E; [exact Hv|by apply Hd]).
  - by apply spec_commit_ok.
Qed.

Lemma spec_exec_ok st o : spec_ok st -> op_ok o -> spec_ok (spec_exec FileExists GetFileSize st o).
Proof.
  intros Hs Ho. destruct o as [| | | | | |t|]; try by apply spec_basic_ok. cbn [spec_exec].
  assert (Hh : spec_ok (spec_html st)) by exact (spec_basic_ok st (OHeader _ _) I Hs I).
  assert (Hgo : spec_ok match t with
    | TplMissing => replaced 404 (lit "Template not found :(") false st
    | TplStatic path => spec_file FileExists GetFileSize path false (spec_html st)
    | TplBroken message => replaced 500 message false st
    | TplNoMemory => replaced 500 (lit "Template allocation failed") false (spec_html st)
    | TplDynamic _ => spec_stream true (spec_html st)
    end).
  { destruct t as [|path|msg| |g]; [by apply replaced_ok|exact (spec_basic_ok _ (OFile path false) I Hh I)|by apply replaced_ok|by apply replaced_ok|exact (spec_basic_ok _ (OStream g true) I Hh I)]. }
  destruct st; [exact Hgo..|]. by apply violation_ok.
Qed.

Lemma spec_run_ok ops : forall st,
  spec_ok st -> Forall op_ok ops -> spec_ok (fold_left (spec_exec FileExists GetFileSize) ops st).
Proof.
  induction ops as [|o ops IH]; intros st Hs Ho; [done|]. apply Forall_cons in Ho as [Ho1 Ho2].
  cbn. apply IH; [by apply spec_exec_ok|done].
Qed.

Lemma spec_finish_ok st : spec_ok st -> spec_ok (spec_finish st) /\ is_done (spec_finish st) = true.
Proof.
  intros Hs. unfold spec_finish. destruct (is_done st) eqn:E; [done|]. split; [by apply spec_commit_ok|]. by destruct st.
Qed.

End client.

Section response.
Context `{AllocatorOk} (inc max : Z).
Context (Hinc : 0 <= inc) (Hmax : 0 <= max /\ max + sizeof_WriteMetadata < 2 ^ 32).
Context (Halloc : forall old n, Realloc old n <> None).

Lemma status_line_clean v c : 100 <= c < 1000 -> clean (status_line v c).
Proof.
  intros Hc. unfold status_line. rewrite !clean_app. split; [by apply cleanb_clean|].
  split; [by destruct (bool_decide _); apply cleanb_clean|]. split; [|by apply cleanb_clean].
  assert (Hd : forall d, 0 <= d < 10 -> u8 (48 + d) <> CR /\ u8 (48 + d) <> LF /\ u8 (48 + d) <> NUL).
  { intros d Hd. rewrite (wrap_small 8) by lia. lia. }
  unfold status_digits. repeat (constructor; [apply Hd; Z.to_euclidean_division_equations; lia|]). constructor.
Qed.

Lemma connection_clean close : clean (header_line (connection_header close)).
Proof. by destruct close; apply cleanb_clean. Qed.

(** C4: a response is one message.  Whatever calls a handler makes to build its response
    (status, headers, persistent headers, body writes, a file, a generator, a template, a
    commit, in any order, legal or not), the bytes in the write buffer once
    the engine has finished it are one well-formed message, the one the specification of the
    calls builds ([spec_exec], over a status, lists of headers and a body).  A client that reads
    lines up to CRLF recovers exactly the status line, the handler's header lines
    and the single [Connection] line the server decided on: no value a handler
    passes can add a line or forge that header.  A status that forbids a body has
    none; a buffered response ends its head with a [Content-Length] that reads
    back as the length of the body.  Statuses have three digits, as those of [HttpStatus] do; the
    limit on the buffer's size and an allocator that does not fail are the other
    hypotheses.  Handlers that flush ([FlushStart], [Flush], [FlushEnd]) send their body in several
    messages of the socket and are outside: see [flushed_body_roundtrip], and the
    examples after it for what goes wrong there. *)
Theorem response_is_one_message FileExists GetFileSize ops r b :
  (forall path, 0 <= GetFileSize path) ->
  writeBuffer_ (rwBuffer_ r) = Some b -> wf b -> Forall op_ok ops ->
  runs_fit max FileExists GetFileSize (version_ r) (shouldClose_ r) ops RFresh ->
  let r' := respond inc max FileExists GetFileSize ops r in
  exists code pers hdrs body aborted b',
    spec_finish (fold_left (spec_exec FileExists GetFileSize) ops RFresh) = RDone code pers hdrs body (bodyKind_ r') aborted /\
    writeBuffer_ (rwBuffer_ r') = Some b' /\ wf b' /\ b_writtenLength b' = 0 /\ phase_ r' = COMMITTED /\ status_ r' = code /\
    read_message (live b') =
      Some (status_line (version_ r) code :: map header_line (pers ++ connection_header (shouldClose_ r) :: hdrs), body) /\
    Forall not_connection (pers ++ hdrs) /\
    (StatusForbidsBody code = true -> body = []) /\
    (bodyKind_ r' = BUFFERED -> StatusForbidsBody code = false -> reads_length hdrs body).
Proof.
  intros Hsize Eb Hwf Hops Hfit r'.
  pose proof (Reset_models (version_ r) (shouldClose_ r) r b Eb Hwf eq_refl eq_refl) as M0.
  pose proof (run_refines inc max Hinc Hmax Halloc _ _ FileExists GetFileSize ops _ _ M0 Hfit) as M.
  fold (respond inc max FileExists GetFileSize ops r) in M. fold r' in M. clearbody r'.
  pose proof RFresh_ok as Hok.
  apply (spec_run_ok FileExists GetFileSize Hsize ops) in Hok; [|done].
  destruct (spec_finish_ok _ Hok) as [Hs Hd]. clear Hok M0.
  assert (Hf : fits max (wire (version_ r) (shouldClose_ r) (spec_finish (fold_left (spec_exec FileExists GetFileSize) ops RFresh)))).
  { clear -Hfit. revert Hfit. generalize RFresh as st. induction ops as [|o ops IH]; intros st Hfit; cbn in *; [done|]. apply IH, Hfit. }
  destruct (spec_finish _) as [| | | |c p h body k a]; try discriminate Hd.
  destruct M as [(Fv & Fs & Fc & Fp & Fa & Fk1 & Fk2) (b' & Eb' & Wb' & Hw & Hl)].
  destruct Hs as (Hc & Hp & Hh & Hforbid & Hlen). cbn [code_of pers_of hdrs_of] in *.
  exists c, p, h, body, a, b'. rewrite Hl, Fk2. cbn [wire]. do 6 (split; [done|]). split.
  { apply read_message_ok; [by apply status_line_clean|]. unfold all_headers. apply Forall_app. split.
    - eapply Forall_impl; [exact Hp|]. by intros ? [? _].
    - constructor; [apply connection_clean|]. eapply Forall_impl; [exact Hh|]. by intros ? [? _]. }
  split. { apply Forall_app. split; (eapply Forall_impl; [eassumption|]); by intros ? [_ ?]. }
  split; [done|]. intros Hk Hb. apply Hlen; [done|done|].
  unfold fits in Hf. cbn [wire] in Hf. rewrite message_head, !length_app in Hf. unfold sizeof_WriteMetadata in Hmax. lia.
Qed.

End response.

(** A handler that tries to smuggle a second header line in a value: the client
    reads the 500 that replaces it. *)
Definition sample_response : HttpResponse :=
  mkResponse (snd (InitWriteBuffer 64 empty_rw)) HTTP_1_1 false COMMITTED NONE 0 true true 7 7 7 [] None [].

Definition sample_ops : list op :=
  [OStatus 201; OPersistent (lit "X-Id") (lit "7"); OHeader (lit "A") (lit "b"); OBody (lit "hello")].

Definition smuggling_ops : list op :=
  [OStatus 201; OHeader (lit "A") (lit "b" ++ CRLF ++ lit "Set-Cookie: x"); OBody (lit "hello")].

Definition client_view (r : HttpResponse) : option (list bytes * bytes) :=
  match writeBuffer_ (rwBuffer_ r) with Some b => read_message (live b) | None => None end.

Example client_reads_sample :
  client_view (respond 64 4096 (fun _ => false) (fun _ => 0) sample_ops sample_response) =
  Some ([lit "HTTP/1.1 201 "; lit "X-Id: 7"; lit "Connection: keep-alive"; lit "A: b"; lit "Content-Length: 0000000005"], lit "hello").
Proof. vm_compute. reflexivity. Qed.

(** A static template states two types: its own with a charset, and its file's without. *)
Example template_states_two_types :
  (fun x => x.1) <$> client_view (respond 64 4096 (fun _ => true) (fun _ => 9) [OTemplate (TplStatic (lit "a.html"))] sample_response) =
  Some [lit "HTTP/1.1 200 "; lit "Connection: keep-alive"; lit "Content-Type: text/html; charset=utf-8"; lit "Content-Length: 9"; lit "Content-Type: text/html"].
Proof. vm_compute. reflexivity. Qed.

Example client_reads_smuggled :
  client_view (respond 64 4096 (fun _ => false) (fun _ => 0) smuggling_ops sample_response) =
  Some ([lit "HTTP/1.1 500 "; lit "Connection: keep-alive"; lit "Content-Type: text/plain"; lit "Content-Length: 0000000027"],
        lit "Response contract violation").
Proof. vm_compute. reflexivity. Qed.

Lemma zero_alloc_total : forall old n, Realloc old n <> None.
Proof. done. Qed.

Lemma response_is_one_message_witness :
  exists code pers hdrs body aborted b',
    let r' := respond 64 4096 (fun _ => false) (fun _ => 0) sample_ops sample_response in
    spec_finish (fold_left (spec_exec (fun _ => false) (fun _ => 0)) sample_ops RFresh) = RDone code pers hdrs body (bodyKind_ r') aborted /\
    writeBuffer_ (rwBuffer_ r') = Some b' /\ wf b' /\ b_writtenLength b' = 0 /\ phase_ r' = COMMITTED /\ status_ r' = code /\
    read_message (live b') =
      Some (status_line HTTP_1_1 code :: map header_line (pers ++ connection_header false :: hdrs), body) /\
    Forall not_connection (pers ++ hdrs) /\
    (StatusForbidsBody code = true -> body = []) /\
    (bodyKind_ r' = BUFFERED -> StatusForbidsBody code = false -> reads_length hdrs body).
Proof.
  eapply (response_is_one_message 64 4096 ltac:(discriminate) ltac:(split; [discriminate|reflexivity]) zero_alloc_total
            (fun _ => false) (fun _ => 0) sample_ops sample_response).
  - intros _. lia.
  - vm_compute. reflexivity.
  - vm_compute. repeat split; first [discriminate|reflexivity].
  - repeat (constructor; [cbn; lia || exact I|]). constructor.
  - vm_compute. repeat split; discriminate.
Defined.

(** ** Flushed responses *)

Section flushing.
Context `{AllocatorOk} (inc max : Z).
Context (Hinc : 0 <= inc) (Hmax : 0 <= max /\ max + sizeof_WriteMetadata < 2 ^ 32).
Context (Halloc : forall old n, Realloc old n <> None).

Definition flushing (x d : bytes) (r : HttpResponse) : Prop :=
  phase_ r = BODY /\ bodyKind_ r = AWAIT_STREAM /\ aborted_ r = false /\
  bodyStartOffset_ r = Z.of_nat (length (x ++ flush_gap)) /\ holds r (x ++ flush_gap ++ d).

Abbreviation put_wrote := (put_wrote inc max Hinc Hmax Halloc).
Abbreviation fits := (fits max).

Definition chunk (d : bytes) : bytes := FormatFixedHex8 (Z.of_nat (length d)) ++ CRLF ++ d ++ CRLF.
Definition chunk_or_nothing (d : bytes) : bytes := match d with [] => [] | _ => chunk d end.

Lemma wrote_flushing x d r0 r : flushing x [] r0 -> wrote r0 (x ++ flush_gap ++ d) r -> flushing x d r.
Proof. intros (E1 & E2 & E3 & E4 & _) [-> Hh]. by repeat split. Qed.

Lemma flushing_write x d e r :
  flushing x d r -> fits (x ++ flush_gap ++ d ++ e) -> flushing x (d ++ e) (WriteBodyData inc max e r).
Proof.
  intros (E1 & E2 & E3 & E4 & Hh) Hf.
  unfold WriteBodyData, WriteBodyData_, RejectIfCommitted_. rewrite E3, E1. cbn [phase_is phase_value Z.eqb Pos.eqb negb].
  rewrite EnsureBodyOpen_body by done.
  destruct (Nat.eqb_spec (length e) 0) as [E|_]; [apply nil_length_inv in E as ->; rewrite app_nil_r; by repeat split|].
  rewrite !app_assoc in Hf. pose proof (put_wrote _ _ e _ (wrote_refl r _ Hh)) as W. rewrite !app_assoc in W.
  destruct (W Hf) as [-> Hh']. rewrite <- !app_assoc in Hh'. by repeat split.
Qed.

Lemma ReserveNextFlushGap_ok r0 x r :
  wrote r0 x r -> fits (x ++ flush_gap) ->
  exists r', ReserveNextFlushGap inc max r = (true, r') /\
    wrote (set_bodyStart (Z.of_nat (length (x ++ flush_gap))) r0) (x ++ flush_gap) r'.
Proof.
  intros W Hf. unfold ReserveNextFlushGap. fold flush_gap.
  destruct (Append_wrote inc max Hinc Hmax Halloc r0 x flush_gap r W Hf ltac:(done)) as [E1 W1].
  destruct (Append inc max flush_gap r) as [ok r1]. cbn in E1, W1. subst ok. eexists. split; [done|].
  rewrite (dataLength_holds r1 _ (proj2 W1)). exact (wrote_set (set_bodyStart _) _ _ _ (fun _ _ => eq_refl) W1).
Qed.

Lemma WriteFlushStart_ok version close r st :
  models version close r st -> in_head st = true -> StatusForbidsBody (code_of st) = false ->
  let x := wire version close (RDone (code_of st) (pers_of st) (hdrs_of st ++ [(lit "Transfer-Encoding", lit "chunked")]) [] AWAIT_STREAM false) in
  fits (x ++ flush_gap) -> flushing x [] (WriteFlushStart inc max r).
Proof.
  intros M Hh Hb x Hf. unfold WriteFlushStart.
  assert (Ec : status_ r = code_of st) by (by destruct M as [(_ & _ & Fc & _) _]).
  unfold RejectIfCommitted. rewrite (reject_open version close _ r st M) by (by destruct st).
  destruct (phase_open version close r st M Hh) as (_ & _ & Ek). rewrite Ek, Ec, Hb, bool_decide_true by done. cbn [negb].
  assert (Hf1 : fits x) by (by apply fits_app in Hf).
  destruct (open_for inc max Hinc Hmax Halloc version close r st _ AWAIT_STREAM M Hh Hf1) as [M1 Hf2]. cbv zeta.
  set (r0 := EnsureHeadersOpen inc max r) in *. pose proof (models_wrote _ _ _ _ M1) as W. cbn [wire] in W.
  assert (Ex : x = head version (code_of st) (all_headers close (pers_of st) (hdrs_of st)) ++
     (lit "Transfer-Encoding: chunked" ++ CRLF) ++ CRLF).
  { unfold x. cbn [wire]. rewrite message_head, all_headers_app, head_app, render_lines_one, app_nil_r, <- !app_assoc. done. }
  pose proof (put_app inc max Hinc Hmax Halloc _ _ (lit "Transfer-Encoding: chunked" ++ CRLF) CRLF _ W) as W1.
  rewrite <- Ex in W1. specialize (W1 Hf1).
  wset (set_kind AWAIT_STREAM) W1. wset (set_phase BODY) W1.
  destruct (ReserveNextFlushGap_ok _ _ _ W1 Hf) as (r' & -> & [E Hh']).
  destruct M1 as [(Fv & Fs & Fc & Fp & Fa & Fk) _]. rewrite E. unfold flushing. rewrite app_nil_r. by repeat split.
Qed.

Lemma flush_round (final : bool) x d r :
  flushing x d r -> d <> [] ->
  fits (x ++ flush_gap ++ d ++ CRLF ++ if final then CHUNK_TERMINATOR else []) ->
  exists r', PrepareFlushChunk inc max final r = (true, r') /\ bodyKind_ r' = AWAIT_STREAM /\ aborted_ r' = false /\
    phase_ r' = BODY /\ holds r' (x ++ chunk d ++ if final then CHUNK_TERMINATOR else []).
Proof.
  intros (E1 & E2 & E3 & E4 & Hh) Hd Hf. unfold PrepareFlushChunk. pose proof Hh as (b & Eb & _ & _ & _). rewrite Eb. clear b Eb.
  rewrite (dataLength_holds _ _ Hh), E4. rewrite !length_app.
  replace (Z.of_nat _ - Z.of_nat _) with (Z.of_nat (length d)) by lia.
  assert (Hl : Z.of_nat (length d) < 2 ^ 32) by (unfold Response.fits in Hf; rewrite !length_app in Hf; unfold sizeof_WriteMetadata in Hmax; lia).
  rewrite (wrap_small 32) by lia. destruct (Z.eqb_spec (Z.of_nat (length d)) 0) as [E|_]; [destruct d; [done|cbn in E; lia]|].
  cbv zeta. replace (Z.of_nat (length x + length flush_gap) - Z.of_nat CHUNK_HDR_RESERVE) with (Z.of_nat (length x))
    by (change (length flush_gap) with CHUNK_HDR_RESERVE; lia).
  set (hdr := FormatFixedHex8 _ ++ CRLF).
  assert (Ehdr : length hdr = length flush_gap) by (unfold hdr, FormatFixedHex8; rewrite length_app, length_format_fixed; done).
  pose proof (patch_wrote r _ r (length x) hdr (wrote_refl r _ Hh)) as W.
  rewrite take_app_length, Ehdr, drop_app_add, drop_app_length in W. specialize (W ltac:(rewrite !length_app; lia)).
  assert (Hf1 : fits ((x ++ hdr ++ d) ++ CRLF)).
  { eapply fits_shorter, Hf. rewrite !length_app, Ehdr. lia. }
  destruct (Append_wrote inc max Hinc Hmax Halloc _ _ CRLF _ W Hf1 ltac:(done)) as [Ea W1].
  destruct (Append inc max CRLF _) as [ok r1]. cbn [fst snd] in Ea, W1. subst ok.
  assert (Ec : (x ++ hdr ++ d) ++ CRLF = x ++ chunk d) by (unfold chunk, hdr; by rewrite <- !app_assoc). rewrite Ec in W1.
  destruct final.
  - assert (Hf2 : fits ((x ++ chunk d) ++ CHUNK_TERMINATOR)).
    { eapply fits_shorter, Hf. rewrite <- Ec, !length_app, Ehdr. lia. }
    destruct (Append_wrote inc max Hinc Hmax Halloc _ _ CHUNK_TERMINATOR _ W1 Hf2 ltac:(done)) as [Eb W2].
    destruct (Append inc max CHUNK_TERMINATOR r1) as [ok r2]. cbn [fst snd] in Eb, W2. subst ok.
    destruct W2 as [E Hh2]. exists r2. rewrite app_assoc. rewrite E. by repeat split.
  - destruct W1 as [E Hh1]. exists r1. rewrite app_nil_r. rewrite E. by repeat split.
Qed.

(** The last round of a body with nothing pending: the gap is dropped. *)
Lemma flush_nothing x r :
  flushing x [] r -> fits (x ++ CHUNK_TERMINATOR) ->
  exists r', PrepareFlushChunk inc max true r = (true, r') /\ bodyKind_ r' = AWAIT_STREAM /\ holds r' (x ++ CHUNK_TERMINATOR).
Proof.
  intros (E1 & E2 & E3 & E4 & Hh) Hf. unfold PrepareFlushChunk. pose proof Hh as (b & Eb & Wf & _ & Hl). rewrite Eb.
  assert (Hlt : Z.of_nat (length (x ++ flush_gap ++ [])) < 2 ^ 32).
  { rewrite <- Hl, (length_live b Wf). destruct Wf. lia. }
  rewrite (dataLength_holds _ _ Hh), E4. rewrite app_nil_r in *. rewrite Z.sub_diag. cbn [Z.eqb wrap].
  rewrite length_app in *. change (length flush_gap) with CHUNK_HDR_RESERVE in *.
  replace (Z.of_nat (length x + CHUNK_HDR_RESERVE) - Z.of_nat CHUNK_HDR_RESERVE) with (Z.of_nat (length x)) by lia.
  change (u32 0 =? 0) with true. cbv iota. rewrite (wrap_small 32) by lia.
  pose proof (truncate_wrote r x flush_gap r (wrote_refl r _ Hh)) as W.
  destruct (Append_wrote inc max Hinc Hmax Halloc _ _ CHUNK_TERMINATOR _ W Hf ltac:(done)) as [Ea W1].
  destruct (Append inc max CHUNK_TERMINATOR _) as [ok r1]. cbn [fst snd] in Ea, W1. subst ok.
  destruct W1 as [E Hh1]. exists r1. rewrite E. by repeat split.
Qed.

Lemma cleared_holds r x : holds r x -> holds (set_rw (ClearWriteBuffer (rwBuffer_ r)) r) [].
Proof.
  intros (b & Eb & (W1 & W2 & W3) & _ & _). eexists. unfold ClearWriteBuffer. cbn. rewrite Eb. cbn. split; [done|].
  unfold wf, clear_block. cbn. split; [lia|]. done.
Qed.

Lemma sent_holds r x : holds r x -> match writeBuffer_ (rwBuffer_ r) with Some b => pending b | None => [] end = x.
Proof. intros (b & -> & _ & Hw & <-). unfold pending. by rewrite Hw. Qed.

Lemma FlushChunk_some x d r :
  flushing x d r -> d <> [] -> fits (x ++ flush_gap ++ d ++ CRLF) ->
  exists r', FlushChunk inc max false r = Some (x ++ chunk d, r') /\ flushing [] [] r'.
Proof.
  intros Hr Hd Hf. pose proof Hr as (E1 & E2 & E3 & E4 & Hh). unfold FlushChunk, HasPendingFlushData.
  rewrite E2, bool_decide_true, (dataLength_holds _ _ Hh), E4 by done. cbn [negb andb].
  replace (_ <? _) with true by (symmetry; apply Z.ltb_lt; rewrite !length_app; destruct d; [done|cbn; lia]).
  destruct (flush_round false x d r Hr Hd) as (r1 & -> & K1 & K2 & K3 & Hh1); [by rewrite app_nil_r|].
  rewrite app_nil_r in Hh1. rewrite (sent_holds _ _ Hh1). unfold FinishFlushRound.
  pose proof (wrote_refl _ _ (cleared_holds _ _ Hh1)) as W.
  destruct (ReserveNextFlushGap_ok _ [] _ W) as (r2 & -> & [E Hh2]).
  { eapply fits_shorter, Hf. rewrite !length_app. cbn [length]. lia. }
  exists r2. split; [done|]. rewrite E. by repeat split.
Qed.

Lemma FlushChunk_none x r : flushing x [] r -> FlushChunk inc max false r = Some ([], r).
Proof.
  intros (E1 & E2 & E3 & E4 & Hh). unfold FlushChunk, HasPendingFlushData.
  rewrite E2, bool_decide_true, (dataLength_holds _ _ Hh), E4, app_nil_r by done. by rewrite Z.ltb_irrefl.
Qed.

Lemma FlushChunk_end x d r :
  flushing x d r -> fits (x ++ flush_gap ++ d ++ CRLF ++ CHUNK_TERMINATOR) ->
  exists r', FlushChunk inc max true r = Some (x ++ chunk_or_nothing d ++ CHUNK_TERMINATOR, r').
Proof.
  intros Hr Hf. pose proof Hr as (E1 & E2 & E3 & E4 & Hh). unfold FlushChunk.
  rewrite E2, bool_decide_true by done. cbn [negb andb]. destruct (decide (d = [])) as [->|Hd].
  - destruct (flush_nothing x r Hr) as (r1 & -> & K1 & Hh1).
    { eapply fits_shorter, Hf. change ([] ++ CRLF ++ CHUNK_TERMINATOR) with (CRLF ++ CHUNK_TERMINATOR). rewrite !length_app. lia. }
    rewrite (sent_holds _ _ Hh1). unfold FinishFlushRound. by eexists.
  - destruct (flush_round true x d r Hr Hd Hf) as (r1 & -> & K1 & K2 & K3 & Hh1).
    rewrite (sent_holds _ _ Hh1). unfold FinishFlushRound. destruct d; [done|]. by eexists.
Qed.

(** What a program of writes and flushes sends. *)
Fixpoint flushed (ops : list fop) (x d : bytes) : bytes :=
  match ops with
  | [] => x ++ chunk_or_nothing d ++ CHUNK_TERMINATOR
  | FWrite e :: ops => flushed ops x (d ++ e)
  | FFlush :: ops => match d with [] => flushed ops x d | _ => (x ++ chunk d) ++ flushed ops [] [] end
  end.

Lemma flush_run_ok ops : forall x d r, flushing x d r -> rounds_fit max ops x d -> flush_run inc max ops r = Some (flushed ops x d).
Proof.
  induction ops as [|[e|] ops IH]; intros x d r Hr Hf; cbn [flush_run flushed rounds_fit] in *.
  - by destruct (FlushChunk_end x d r Hr Hf) as (r' & ->).
  - destruct Hf as [Hf1 Hf2]. apply IH; [|done]. by apply flushing_write.
  - destruct d as [|c d]; [rewrite (FlushChunk_none x r Hr); by rewrite (IH x [] r Hr Hf)|].
    destruct Hf as [Hf1 Hf2]. destruct (FlushChunk_some x (c :: d) r Hr ltac:(done) Hf1) as (r' & -> & Hr').
    by rewrite (IH [] [] r' Hr' Hf2).
Qed.

Lemma flushed_split ops : forall x d, flushed ops x d = x ++ flushed ops [] d.
Proof.
  induction ops as [|[e|] ops IH]; intros x d; cbn [flushed]; [done|apply IH|].
  destruct d; [apply IH|]. cbn [app]. by rewrite <- app_assoc.
Qed.

End flushing.

(** *** Decoding *)

Lemma hex_value_fixed n v :
  hex_value (format_fixed 16 (fun d => at_ HEX_DIGITS (Z.to_nat d)) n v) = v mod 16 ^ Z.of_nat n.
Proof.
  revert v. induction n as [|n IH]; intros v; cbn [format_fixed]; [by rewrite Z.mod_1_r|].
  unfold hex_value in *. rewrite fold_left_app, IH. cbn [fold_left].
  assert (Hd : forall d, 0 <= d < 16 -> hex_digit (at_ HEX_DIGITS (Z.to_nat d)) = d).
  { intros d Hd. assert (Hin : d ∈ seqZ 0 16) by (apply elem_of_seqZ; lia).
    revert d Hin Hd. apply (Forall_forall (fun d => 0 <= d < 16 -> hex_digit (at_ HEX_DIGITS (Z.to_nat d)) = d)).
    vm_compute. repeat (constructor; [done|]). constructor. }
  rewrite Hd by (apply Z.mod_pos_bound; lia). rewrite Nat2Z.inj_succ, Z.pow_succ_r by lia.
  rewrite Z.rem_mul_r by lia. lia.
Qed.

Lemma hex_digits n v : forallb is_hex_digit (format_fixed 16 (fun d => at_ HEX_DIGITS (Z.to_nat d)) n v) = true.
Proof.
  revert v. induction n as [|n IH]; intros v; cbn [format_fixed]; [done|]. rewrite forallb_app, IH. cbn [forallb andb].
  assert (Hin : v mod 16 ∈ seqZ 0 16) by (apply elem_of_seqZ; pose proof (Z.mod_pos_bound v 16); lia).
  revert Hin. generalize (v mod 16). apply (Forall_forall (fun d => is_hex_digit (at_ HEX_DIGITS (Z.to_nat d)) && true = true)).
  vm_compute. repeat (constructor; [done|]). constructor.
Qed.

Lemma hex_clean l : forallb is_hex_digit l = true -> clean l.
Proof.
  rewrite forallb_forall. intros Hl. apply Forall_forall. intros c Hc. apply list_elem_of_In, Hl in Hc.
  unfold is_hex_digit, is_digit in Hc. lia.
Qed.

Lemma read_chunk fuel d rest :
  d <> [] -> Z.of_nat (length d) < 2 ^ 32 ->
  read_chunks (S fuel) (chunk d ++ rest) = match read_chunks fuel rest with Some more => Some (d ++ more) | None => None end.
Proof.
  intros Hd Hl. unfold chunk. rewrite <- !app_assoc. cbn [read_chunks]. unfold FormatFixedHex8.
  rewrite read_line_clean by apply hex_clean, hex_digits. rewrite hex_digits. cbn [negb]. rewrite hex_value_fixed, Z.mod_small by (change (16 ^ Z.of_nat 8) with (2 ^ 32); lia).
  rewrite Nat2Z.id. destruct (Nat.eqb_spec (length d) 0) as [E|_]; [by apply nil_length_inv in E|].
  rewrite drop_app_length. change (take 2 (CRLF ++ rest)) with CRLF. rewrite bool_decide_true by done.
  rewrite drop_app_add. change (drop 2 (CRLF ++ rest)) with rest. rewrite take_app_length. done.
Qed.

Lemma read_chunks_end fuel : read_chunks (S fuel) CHUNK_TERMINATOR = Some [].
Proof. done. Qed.

Lemma rounds_fit_bound max ops x d : rounds_fit max ops x d -> Z.of_nat (length d) <= max.
Proof.
  revert x d. induction ops as [|[e|] ops IH]; intros x d; cbn [rounds_fit]; unfold within.
  - rewrite !length_app. lia.
  - rewrite !length_app. lia.
  - destruct d; [intros Hf; by apply IH in Hf|]. rewrite !length_app. lia.
Qed.

Lemma length_flushed ops : forall d, (length ops < length (flushed ops [] d) + length ops)%nat.
Proof.
  induction ops as [|[e|] ops IH]; intros d; cbn [flushed length].
  - rewrite !length_app. cbn. lia.
  - specialize (IH (d ++ e)). lia.
  - destruct d as [|c d]; [specialize (IH []); lia|]. rewrite !length_app. specialize (IH []). lia.
Qed.

Lemma read_flushed max ops : max < 2 ^ 32 -> forall x d fuel,
  rounds_fit max ops x d -> (length (flushed ops [] d) <= fuel)%nat ->
  read_chunks fuel (flushed ops [] d) = Some (d ++ written ops).
Proof.
  intros Hmax. induction ops as [|[e|] ops IH]; intros x d fuel Hf Hl; cbn [flushed] in *.
  - unfold written. cbn [map concat]. rewrite app_nil_r. pose proof (rounds_fit_bound _ _ _ _ Hf) as Hb.
    cbn [app] in *. rewrite length_app in Hl. change (length CHUNK_TERMINATOR) with 5%nat in Hl.
    destruct fuel as [|[|fuel]]; [lia..|]. destruct (decide (d = [])) as [->|Hd]; [apply read_chunks_end|].
    destruct d as [|c d]; [done|]. unfold chunk_or_nothing. rewrite read_chunk by (done || lia).
    by rewrite read_chunks_end, app_nil_r.
  - cbn [rounds_fit] in Hf. destruct Hf as [_ Hf]. unfold written. cbn [map concat]. rewrite app_assoc. by apply (IH x).
  - unfold written. cbn [map concat app]. destruct d as [|c d]; [by apply (IH x)|].
    pose proof (rounds_fit_bound _ _ _ _ Hf) as Hb. cbn [rounds_fit] in Hf. destruct Hf as [_ Hf].
    cbn [app] in Hl. rewrite length_app in Hl. cbn [app].
    assert (Hc : (1 <= length (chunk (c :: d)))%nat) by (unfold chunk; rewrite !length_app; cbn [length CRLF]; lia).
    destruct fuel as [|fuel]; [lia|]. change (chunk (c :: d)) with (chunk (c :: d)).
    rewrite read_chunk by (done || lia). rewrite (IH [] [] fuel Hf) by lia. done.
Qed.

Section flush_roundtrip.
Context `{AllocatorOk} (inc max : Z).
Context (Hinc : 0 <= inc) (Hmax : 0 <= max /\ max + sizeof_WriteMetadata < 2 ^ 32).
Context (Halloc : forall old n, Realloc old n <> None).

(** C34: a streamed response survives its chunking.  From a response whose head is still
    open, whatever a handler writes and wherever it flushes, everything sent up to
    and including [FlushEnd] is one message with [Transfer-Encoding: chunked] whose
    chunked body decodes to exactly the concatenation of the writes: empty writes
    and flushes with nothing pending produce no chunk that would end the body
    early, and no round loses or repeats a byte. *)
Theorem flushed_body_roundtrip version close r st ops :
  models version close r st -> in_head st = true -> StatusForbidsBody (code_of st) = false -> spec_ok st ->
  rounds_fit max ops (wire version close (RDone (code_of st) (pers_of st)
     (hdrs_of st ++ [(lit "Transfer-Encoding", lit "chunked")]) [] AWAIT_STREAM false)) [] ->
  exists sent payload,
    flush_run inc max ops (WriteFlushStart inc max r) = Some sent /\
    read_message sent = Some (status_line version (code_of st) :: map header_line (pers_of st ++ connection_header close ::
        hdrs_of st ++ [(lit "Transfer-Encoding", lit "chunked")]), payload) /\
    read_chunked payload = Some (written ops).
Proof.
  intros M Hh Hb (Hc & Hp & Hhd & _) Hf. set (te := (lit "Transfer-Encoding", lit "chunked")) in *. set (x := wire _ _ _) in *.
  assert (Hx : fits max (x ++ flush_gap)).
  { clear -Hf. generalize (@nil Z) as d. revert Hf. generalize (@nil Z) at 1 as d.
    induction ops as [|[e|] ops IH]; intros d Hf _; cbn [rounds_fit] in Hf.
    - eapply fits_shorter, Hf. rewrite !length_app. lia.
    - destruct Hf as [Hf _]. eapply fits_shorter, Hf. rewrite !length_app. lia.
    - destruct d; [by apply (IH [])|]. destruct Hf as [Hf _]. eapply fits_shorter, Hf. rewrite !length_app. lia. }
  pose proof (WriteFlushStart_ok inc max Hinc Hmax Halloc version close r st M Hh Hb Hx) as Hr. fold x in Hr.
  exists (flushed ops x []), (flushed ops [] []).
  split; [by apply flush_run_ok|]. split.
  - assert (Es : flushed ops x [] = message version (code_of st) (all_headers close (pers_of st) (hdrs_of st ++ [te])) (flushed ops [] [])).
    { rewrite flushed_split. unfold x. cbn [wire]. rewrite !message_head, app_nil_r, <- app_assoc. done. }
    rewrite Es. apply read_message_ok; [by apply status_line_clean|]. unfold all_headers. apply Forall_app. split.
    + eapply Forall_impl; [exact Hp|]. by intros ? [? _].
    + constructor; [apply connection_clean|]. apply Forall_app. split.
      * eapply Forall_impl; [exact Hhd|]. by intros ? [? _].
      * constructor; [by apply cleanb_clean|constructor].
  - unfold read_chunked. apply (read_flushed max ops ltac:(unfold sizeof_WriteMetadata in Hmax; lia) x []); [done|lia].
Qed.

End flush_roundtrip.

Definition sample_stream : list fop := [FWrite (lit "ab"); FFlush; FFlush; FWrite []; FWrite (lit "cde"); FWrite (lit "f")].

Definition sample_fresh : HttpResponse := Reset sample_response.

Lemma flushed_body_roundtrip_witness :
  models HTTP_1_1 false sample_fresh RFresh /\
  exists sent payload,
    flush_run 64 4096 sample_stream (WriteFlushStart 64 4096 sample_fresh) = Some sent /\
    read_message sent = Some (status_line HTTP_1_1 200 :: map header_line ([] ++ connection_header false ::
        [] ++ [(lit "Transfer-Encoding", lit "chunked")]), payload) /\
    read_chunked payload = Some (lit "abcdef").
Proof.
  assert (M : models HTTP_1_1 false sample_fresh RFresh).
  { eapply Reset_models; [vm_compute; reflexivity| |done|done]. vm_compute. repeat split; first [discriminate|reflexivity]. }
  split; [exact M|].
  apply (flushed_body_roundtrip 64 4096 ltac:(discriminate) ltac:(split; [discriminate|reflexivity]) zero_alloc_total
           HTTP_1_1 false sample_fresh RFresh sample_stream M eq_refl eq_refl RFresh_ok).
  vm_compute. repeat split; discriminate.
Defined.

(** [Commit] on a stream whose handler never reached [FlushEnd] takes ten bytes off
    the buffer for the gap.  With data pending they are the data's last ten bytes,
    and the gap itself is sent: a client cannot decode the body. *)
Example commit_cuts_pending_data :
  (let r := WriteBodyData 64 4096 (lit "twelve bytes") (WriteFlushStart 64 4096 sample_fresh) in
   match client_view (Commit 64 4096 r) with
   | Some (_, payload) => Some (take 12 payload, read_chunked payload)
   | None => None
   end) = Some (flush_gap ++ lit "tw", None).
Proof. vm_compute. reflexivity. Qed.

(** With nothing pending the same call ends the body properly. *)
Example commit_ends_flushed_stream :
  (let r := WriteFlushStart 64 4096 sample_fresh in
   match client_view (Commit 64 4096 r) with Some (_, payload) => read_chunked payload | None => None end) = Some [].
Proof. vm_compute. reflexivity. Qed.

(** A violation after a round was flushed rewrites the head in a buffer whose head is
    gone: what follows the first chunk on the wire is neither a chunk nor a
    response. *)
Example violation_after_flush :
  (let r := WriteFlushStart 64 4096 sample_fresh in
   match FlushChunk 64 4096 false (WriteBodyData 64 4096 (lit "ab") r) with
   | Some (_, r) => match writeBuffer_ (rwBuffer_ (WriteStatus 64 4096 404 r)) with
                    | Some b => take 9 (live b)
                    | None => []
                    end
   | None => []
   end) = replicate 9 NUL.
Proof. vm_compute. reflexivity. Qed.

End Response.
