(* ===== verification/Middleware.v ===== *)
(** * The middleware chain (http/middleware/http_middleware.cpp)

    Global middleware, then a route's own, each of which goes on, skips the next one
    or stops the chain.  An asynchronous one may suspend: the chain then returns to
    the event loop with its position in [AsyncTrack] and is re-entered when the
    coroutine completes.  The theorem is that suspending changes nothing.

    A callback is a function on [W], the state user code sees.  An asynchronous
    callback runs up to its completion or its first suspension; what the event loop
    does from there to its completion is the continuation it leaves, the coroutine's
    frame.  [K] stands for the address of a route's node. *)

From stdpp Require Import gmap.
From S2P Require Import Prelude.

Module Middleware.

(** ** Data *)

Inductive MiddlewareAction := CONTINUE | BREAK | SKIP_NEXT.

Definition action_value (a : MiddlewareAction) : Z := match a with CONTINUE => 0 | BREAK => 1 | SKIP_NEXT => 2 end.

(** A [switch] over the byte: no case for another value. *)
Definition action_of (b : Z) : option MiddlewareAction :=
  if b =? 0 then Some CONTINUE else if b =? 1 then Some BREAK else if b =? 2 then Some SKIP_NEXT else None.

(** [MiddlewareLevel] and [ExecutionLevel], as the nibbles hold them. *)
Definition GLOBAL : Z := 0.
Definition PER_ROUTE : Z := 1.
Definition MIDDLEWARE : Z := 0.
Definition RESPONSE : Z := 1.

Record AsyncTrack := Track { mAction : Z; levels : Z; mIndex : Z }.

(** The union with [trackBytes]. *)
Definition track_of_bytes (z : Z) : AsyncTrack :=
  Track (u8 z) (u8 (Z.shiftr z 8)) (u16 (Z.shiftr z 16)).
Definition bytes_of_track (t : AsyncTrack) : Z :=
  Z.lor (mAction t) (Z.lor (Z.shiftl (levels t) 8) (Z.shiftl (mIndex t) 16)).

Definition GetELevel (t : AsyncTrack) : Z := Z.land (Z.shiftr (levels t) 4) 0x0F.
Definition SetELevel (v : Z) (t : AsyncTrack) : AsyncTrack :=
  Track (mAction t) (u8 (Z.lor (Z.land (levels t) 0x0F) (Z.shiftl (Z.land v 0x0F) 4))) (mIndex t).
Definition GetMLevel (t : AsyncTrack) : Z := Z.land (levels t) 0x0F.
Definition SetMLevel (v : Z) (t : AsyncTrack) : AsyncTrack :=
  Track (mAction t) (u8 (Z.lor (Z.land (levels t) 0xF0) (Z.land v 0x0F))) (mIndex t).
Definition GetMIndex (t : AsyncTrack) : Z := mIndex t.
Definition SetMIndex (i : Z) (t : AsyncTrack) : AsyncTrack := Track (mAction t) (levels t) (u16 i).
(** [*GetMAction() = a] *)
Definition SetMAction (a : MiddlewareAction) (t : AsyncTrack) : AsyncTrack := Track (action_value a) (levels t) (mIndex t).

Inductive AsyncCallState := IDLE | INLINE_RUNNING | INLINE_DONE | SUSPENDED.

#[export] Instance AsyncCallState_eq_dec : EqDecision AsyncCallState.
Proof. solve_decision. Defined.

(** [AsyncResult]: whether [status] is [COMPLETED], and the action. *)
Record AsyncResult := Result { completed : bool; action : MiddlewareAction }.

Record MiddlewareResult := MwResult { success : bool; isAsync : bool; isBroken : bool }.

Section world.
Context {W : Type}.

(** A coroutine's frame: the rest of it, run by the event loop. *)
Definition frame := W -> AsyncResult * W.

Inductive MwCallback :=
| MwSync (f : W -> MiddlewareAction * W)
| MwAsync (start : W -> (AsyncResult + frame) * W).

Definition MiddlewareStack := list MwCallback.

(** What of [ClientCtx] the chain touches, the scheduler's frame, and the rest of
    the world.  [globalPtr] is the pointer shared with the user module. *)
Record Ctx := mkCtx {
  trackAsync : AsyncTrack;
  asyncCallState : AsyncCallState;
  globalPtr : bool;
  suspended : option frame;
  world : W
}.

Definition set_track t c := mkCtx t (asyncCallState c) (globalPtr c) (suspended c) (world c).
Definition SetAsyncCallState s c := mkCtx (trackAsync c) s (globalPtr c) (suspended c) (world c).
Definition setGlobalPtrData b c := mkCtx (trackAsync c) (asyncCallState c) b (suspended c) (world c).
Definition set_suspended k c := mkCtx (trackAsync c) (asyncCallState c) (globalPtr c) k (world c).
Definition set_world w c := mkCtx (trackAsync c) (asyncCallState c) (globalPtr c) (suspended c) w.

(** ** Running *)

Section execute.
(** What [CoreEngine::OnCoroutineComplete] does when a callback fails before the
    call that started it returned. *)
Context (inline_failure : W -> W).

(** Its first branch: the coroutine completed before the call that started it
    returned. *)
Definition OnCoroutineComplete_inline (r : AsyncResult) (c : Ctx) : Ctx :=
  let c := SetAsyncCallState INLINE_DONE c in
  if completed r then set_track (SetMAction (action r) (trackAsync c)) c
  else set_track (SetMAction BREAK (trackAsync c)) (set_world (inline_failure (world c)) c).

(** Calling [async] with that callback. *)
Definition call_async (start : W -> (AsyncResult + frame) * W) (c : Ctx) : Ctx :=
  match start (world c) with
  | (inl r, w) => OnCoroutineComplete_inline r (set_world w c)
  | (inr k, w) => set_suspended (Some k) (set_world w c)
  end.

(** Starting an asynchronous callback: whether it was done before it returned. *)
Definition start_async (start : W -> (AsyncResult + frame) * W) (c : Ctx) : bool * Ctx :=
  let c := SetAsyncCallState INLINE_RUNNING (setGlobalPtrData true c) in
  let c := call_async start c in
  let doneInline := bool_decide (asyncCallState c = INLINE_DONE) in
  (doneInline, setGlobalPtrData false (SetAsyncCallState (if doneInline then IDLE else SUSPENDED) c)).

Definition ExecuteFunction (mw : MwCallback) (c : Ctx) : (option MiddlewareAction * bool) * Ctx :=
  match mw with
  | MwSync f => let '(a, w) := f (world c) in ((Some a, false), set_world w c)
  | MwAsync start =>
      let '(doneInline, c) := start_async start c in
      if doneInline then ((action_of (mAction (trackAsync c)), false), c) else ((Some CONTINUE, true), c)
  end.

(** The loop from index [i], [rest] being the stack from there. *)
Fixpoint helper_loop (rest : MiddlewareStack) (i : nat) (c : Ctx) : MiddlewareResult * Ctx :=
  match rest with
  | [] => (MwResult true false false, c)
  | mw :: rest =>
      match ExecuteFunction mw c with
      | ((_, true), c) => (MwResult false true false, set_track (SetMIndex (Z.of_nat (i + 1)) (trackAsync c)) c)
      | ((Some BREAK, false), c) => (MwResult false false true, c)
      | ((Some SKIP_NEXT, false), c) =>
          match rest with
          | [] => (MwResult true false false, c)
          | _ :: rest => helper_loop rest (i + 2) c
          end
      | ((_, false), c) => helper_loop rest (i + 1) c
      end
  end.

Definition ExecuteHelper (stack : MiddlewareStack) (c : Ctx) : MiddlewareResult * Ctx :=
  if (length stack =? 0)%nat then (MwResult true false false, c)
  else
    let mIndex := GetMIndex (trackAsync c) in
    let run mIndex := helper_loop (drop (Z.to_nat mIndex) stack) (Z.to_nat mIndex) c in
    if 0 <? mIndex then
      match action_of (mAction (trackAsync c)) with
      | Some BREAK => (MwResult false false true, c)
      | Some SKIP_NEXT => run (u16 (mIndex + 1))
      | _ => run mIndex
      end
    else run mIndex.

End execute.

(** ** Registration and loading *)

Context {K : Type} `{Countable K}.

Record HttpMiddleware := mkMiddleware {
  middlewareFactories_ : list (bytes * MwCallback);
  middlewareGlobalCallbacks_ : MiddlewareStack;
  middlewarePerRouteCallbacks_ : gmap K MiddlewareStack
}.

Definition new_middleware : HttpMiddleware := mkMiddleware [] [] ∅.

(** [find] on the factory map, whose order is the one it is iterated in. *)
Definition find_factory (name : bytes) (fs : list (bytes * MwCallback)) : option MwCallback :=
  snd <$> List.find (fun e => bool_decide (e.1 = name)) fs.

Definition RegisterMiddleware (name : bytes) (mw : MwCallback) (m : HttpMiddleware) : outcome HttpMiddleware :=
  match find_factory name (middlewareFactories_ m) with
  | Some _ => Fatal "[HttpMiddleware]: Duplicate registration attempt for middleware"
  | None => Ret (mkMiddleware (middlewareFactories_ m ++ [(name, mw)]) (middlewareGlobalCallbacks_ m)
                   (middlewarePerRouteCallbacks_ m))
  end.

Definition RegisterPerRouteMiddleware (node : option K) (mwStack : MiddlewareStack) (m : HttpMiddleware)
    : outcome HttpMiddleware :=
  match node with
  | None => Fatal "[HttpMiddleware]: Route node is nullptr for per-route middleware registeration"
  | Some node =>
      match middlewarePerRouteCallbacks_ m !! node with
      | Some _ => Fatal "[HttpMiddleware]: Duplicate registration attempt for route node"
      | None => Ret (mkMiddleware (middlewareFactories_ m) (middlewareGlobalCallbacks_ m)
                       (<[node := mwStack]> (middlewarePerRouteCallbacks_ m)))
      end
  end.

Fixpoint load_loop (order loadedNames : list bytes) (fs : list (bytes * MwCallback)) (acc : MiddlewareStack)
    : outcome (list bytes * MiddlewareStack) :=
  match order with
  | [] => Ret (loadedNames, acc)
  | name :: order =>
      if bool_decide (name ∈ loadedNames) then Fatal "[HttpMiddleware]: Middleware is listed multiple times in config"
      else
        match find_factory name fs with
        | Some cb => load_loop order (loadedNames ++ [name]) fs (acc ++ [cb])
        | None => Fatal "[HttpMiddleware]: Middleware was listed in config but has not been registered."
        end
  end.

Definition LoadMiddlewareFromConfig (order : list bytes) (m : HttpMiddleware) : outcome HttpMiddleware :=
  let* x := load_loop order [] (middlewareFactories_ m) [] in
  let '(loadedNames, stack) := x in
  if forallb (fun e => bool_decide (e.1 ∈ loadedNames)) (middlewareFactories_ m)
  then Ret (mkMiddleware (middlewareFactories_ m) stack (middlewarePerRouteCallbacks_ m))
  else Fatal "[HttpMiddleware]: Middleware was registered but is missing from config's 'middleware_list'".

Definition DiscardFactoryMap (m : HttpMiddleware) : HttpMiddleware :=
  mkMiddleware [] (middlewareGlobalCallbacks_ m) (middlewarePerRouteCallbacks_ m).

Definition per_route (node : option K) (m : HttpMiddleware) : option MiddlewareStack :=
  match node with None => None | Some node => middlewarePerRouteCallbacks_ m !! node end.

Definition ExecuteMiddleware (inline_failure : W -> W) (m : HttpMiddleware) (node : option K) (c : Ctx)
    : MiddlewareResult * Ctx :=
  let finish c :=
    match per_route node m with
    | None => (MwResult true false false, c)
    | Some stack => ExecuteHelper inline_failure stack c
    end in
  if GetMLevel (trackAsync c) =? GLOBAL then
    match ExecuteHelper inline_failure (middlewareGlobalCallbacks_ m) c with
    | (MwResult false a b, c) => (MwResult false a b, c)
    | (_, c) => finish (set_track (SetMLevel PER_ROUTE (SetMIndex 0 (trackAsync c))) c)
    end
  else finish c.

End world.
Arguments MwCallback W : clear implicits.
Arguments MiddlewareStack W : clear implicits.
Arguments Ctx W : clear implicits.
Arguments frame W : clear implicits.
Arguments HttpMiddleware W K {_ _}.

(** ** Specification: a chain whose callbacks all run to their end at once *)

Section spec.
Context {W : Type} (inline_failure resumed_failure : W -> W).

(** What the engine does to the world when the chain suspends. *)
Context (on_suspend : W -> W).

(** How a result counts. *)
Definition settle (failure : W -> W) (r : AsyncResult) (w : W) : MiddlewareAction * W :=
  if completed r then (action r, w) else (BREAK, failure w).

Definition effect (mw : MwCallback W) (w : W) : MiddlewareAction * W :=
  match mw with
  | MwSync f => f w
  | MwAsync start =>
      match start w with
      | (inl r, w) => settle inline_failure r w
      | (inr k, w) => let '(r, w) := k (on_suspend w) in settle resumed_failure r w
      end
  end.

(** Whether the chain was stopped, and the world after it. *)
Fixpoint spec_stack (stack : MiddlewareStack W) (w : W) : bool * W :=
  match stack with
  | [] => (false, w)
  | mw :: rest =>
      match effect mw w with
      | (CONTINUE, w) => spec_stack rest w
      | (BREAK, w) => (true, w)
      | (SKIP_NEXT, w) => match rest with [] => (false, w) | _ :: rest => spec_stack rest w end
      end
  end.

(** What is left to do after a callback's action. *)
Definition after (a : MiddlewareAction) (rest : MiddlewareStack W) (w : W) : bool * W :=
  match a with CONTINUE => spec_stack rest w | BREAK => (true, w) | SKIP_NEXT => spec_stack (tail rest) w end.

Definition spec_chain (global per : MiddlewareStack W) (w : W) : bool * W :=
  match spec_stack global w with (true, w) => (true, w) | (false, w) => spec_stack per w end.

Context {K : Type} `{Countable K}.

(** The chain with every suspension resumed, as [HandleSuccess] and
    [OnCoroutineComplete] do it. *)
Fixpoint run_chain (fuel : nat) (m : HttpMiddleware W K) (node : option K) (c : Ctx W) : option (bool * Ctx W) :=
  match ExecuteMiddleware inline_failure m node c with
  | (MwResult true _ _, c) => Some (false, c)
  | (MwResult false _ true, c) => Some (true, c)
  | (MwResult false _ false, c) =>
      match fuel, suspended c with
      | S f, Some k =>
          let '(r, w) := k (on_suspend (world c)) in
          let c := set_suspended None (set_world w c) in
          if completed r then run_chain f m node (set_track (SetMAction (action r) (trackAsync c)) c)
          else Some (true, set_world (resumed_failure w) c)
      | _, _ => None
      end
  end.

End spec.

(** ** Lemmas *)

Section chain.
Context {W : Type} (inline_failure resumed_failure on_suspend : W -> W).

Abbreviation spec_stack := (spec_stack inline_failure resumed_failure on_suspend).
Abbreviation after := (after inline_failure resumed_failure on_suspend).
Abbreviation effect := (effect inline_failure resumed_failure on_suspend).
Abbreviation settle := (@settle W).

Lemma spec_stack_cons mw rest w : spec_stack (mw :: rest) w = (let '(a, w) := effect mw w in after a rest w).
Proof. cbn. destruct (effect mw w) as [[] w']; [done|done|]. by destruct rest. Qed.

Lemma action_of_value a : action_of (action_value a) = Some a.
Proof. by destruct a. Qed.

(** Starting a callback: it is done, its action recorded, or its frame is left. *)
Lemma start_async_ok start (c : Ctx W) :
  let '(done, c') := start_async inline_failure start c in
  levels (trackAsync c') = levels (trackAsync c) /\ mIndex (trackAsync c') = mIndex (trackAsync c) /\
  match start (world c) with
  | (inl r, w) => done = true /\ suspended c' = suspended c /\
      settle inline_failure r w = (default CONTINUE (action_of (mAction (trackAsync c'))), world c') /\
      is_Some (action_of (mAction (trackAsync c')))
  | (inr k, w) => done = false /\ suspended c' = Some k /\ world c' = w
  end.
Proof.
  unfold start_async, call_async. cbn [world SetAsyncCallState setGlobalPtrData].
  destruct (start (world c)) as [[r|k] w] eqn:E; cbn; [|done].
  unfold OnCoroutineComplete_inline, Middleware.settle. destruct (completed r); cbn; [by destruct (action r)|done].
Qed.

(** What one callback does to the context. *)
Lemma ExecuteFunction_ok mw (c : Ctx W) :
  let '((a, async), c') := ExecuteFunction inline_failure mw c in
  levels (trackAsync c') = levels (trackAsync c) /\ mIndex (trackAsync c') = mIndex (trackAsync c) /\
  if async then exists k, suspended c' = Some k /\ effect mw (world c) = (let '(r, w) := k (on_suspend (world c')) in settle resumed_failure r w)
  else suspended c' = suspended c /\ exists b, a = Some b /\ effect mw (world c) = (b, world c').
Proof.
  destruct mw as [f|start]; cbn [ExecuteFunction Middleware.effect].
  - destruct (f (world c)) as [a w] eqn:E. cbn. do 3 (split; [done|]). by exists a.
  - pose proof (start_async_ok start c) as Hs. destruct (start_async inline_failure start c) as [done c'].
    destruct Hs as (Hl & Hm & Hs). destruct (start (world c)) as [[r|k] w].
    + destruct Hs as (-> & Hsp & -> & [a Ha]). do 3 (split; [done|]). rewrite Ha. by exists a.
    + destruct Hs as (-> & Hk & <-). split; [done|]. split; [done|]. by exists k.
Qed.

(** The outcome of running from [rest]: [j] is where the chain resumes. *)
Definition runs (stack : MiddlewareStack W) (lo : nat) (lv : Z) (sp : option (frame W)) (want : bool * W) (res : MiddlewareResult * Ctx W) : Prop :=
  levels (trackAsync res.2) = lv /\
  match res.1 with
  | MwResult true _ _ => suspended res.2 = sp /\ want = (false, world res.2)
  | MwResult false _ true => suspended res.2 = sp /\ want = (true, world res.2)
  | MwResult false async false => async = true /\ exists k j, suspended res.2 = Some k /\ (lo < j <= length stack)%nat /\
      mIndex (trackAsync res.2) = u16 (Z.of_nat j) /\
      want = (let '(r, w) := k (on_suspend (world res.2)) in let '(a, w) := settle resumed_failure r w in after a (drop j stack) w)
  end.

Lemma runs_weaken stack lo lo' lv sp want res : (lo' <= lo)%nat -> runs stack lo lv sp want res -> runs stack lo' lv sp want res.
Proof.
  intros Hl [H1 H2]. split; [done|]. destruct res as [[[] ? []] c]; try done. destruct H2 as (-> & k & j & ? & ? & ?).
  split; [done|]. exists k, j. split; [done|]. split; [lia|done].
Qed.

Lemma helper_loop_ok stack n : forall i (c : Ctx W), (length stack - i <= n)%nat ->
  runs stack i (levels (trackAsync c)) (suspended c) (spec_stack (drop i stack) (world c)) (helper_loop inline_failure (drop i stack) i c).
Proof.
  induction n as [|n IH]; intros i c Hn.
  { rewrite drop_ge by lia. by split. }
  destruct (drop i stack) as [|mw rest] eqn:E; [by split|].
  assert (Hi : (i < length stack)%nat) by (apply (f_equal length) in E; rewrite length_drop in E; cbn in E; lia).
  assert (Er : rest = drop (i + 1) stack) by (rewrite <- drop_drop, E; done).
  rewrite spec_stack_cons. cbn [helper_loop].
  pose proof (ExecuteFunction_ok mw c) as HF. destruct (ExecuteFunction inline_failure mw c) as [[a async] c'].
  destruct HF as (Hlv & Hmi & HF). destruct async.
  - destruct HF as (k & Hk & ->).
    assert (Hgoal : runs stack i (levels (trackAsync c)) (suspended c) (let '(a0, w) := let '(r, w) := k (on_suspend (world c')) in settle resumed_failure r w in after a0 rest w)
        (MwResult false true false, set_track (SetMIndex (Z.of_nat (i + 1)) (trackAsync c')) c')).
    { split; [exact Hlv|]. split; [done|]. exists k, (i + 1)%nat. split; [exact Hk|]. split; [lia|]. split; [done|]. cbn. rewrite <- Er.
      by destruct (k (on_suspend (world c'))). }
    destruct a as [[]|]; exact Hgoal.
  - destruct HF as (Hsp & b & -> & ->). destruct b; cbn [Middleware.after].
    + rewrite <- Hlv, <- Hsp, Er. apply (runs_weaken _ (i + 1)); [lia|]. apply IH. lia.
    + by split.
    + destruct rest as [|mw' rest']; [by split|]. cbn [tail].
      assert (Er' : rest' = drop (i + 2) stack) by (replace (i + 2)%nat with (i + 1 + 1)%nat by lia; rewrite <- drop_drop, <- Er; done).
      rewrite <- Hlv, <- Hsp, Er'. apply (runs_weaken _ (i + 2)); [lia|]. apply IH. lia.
Qed.

(** What a re-entered stack has left to do. *)
Definition resume_spec (stack : MiddlewareStack W) (c : Ctx W) : bool * W :=
  if 0 <? mIndex (trackAsync c)
  then after (default CONTINUE (action_of (mAction (trackAsync c)))) (drop (Z.to_nat (mIndex (trackAsync c))) stack) (world c)
  else spec_stack stack (world c).

Definition in_stack (stack : MiddlewareStack W) (c : Ctx W) : Prop :=
  0 <= mIndex (trackAsync c) <= Z.of_nat (length stack).

Lemma ExecuteHelper_ok stack (c : Ctx W) :
  in_stack stack c -> Z.of_nat (length stack) < 2 ^ 16 - 1 ->
  runs stack (Z.to_nat (mIndex (trackAsync c))) (levels (trackAsync c)) (suspended c) (resume_spec stack c) (ExecuteHelper inline_failure stack c).
Proof.
  intros Hi Hl. unfold in_stack in Hi. unfold ExecuteHelper, resume_spec, GetMIndex. set (mi := mIndex (trackAsync c)) in *.
  destruct (Nat.eqb_spec (length stack) 0) as [E|E].
  { apply nil_length_inv in E as ->. cbn in Hi. assert (Hm : mi = 0) by lia. rewrite Hm. by split. }
  destruct (Z.ltb_spec 0 mi) as [Hp|Hp].
  - destruct (action_of (mAction (trackAsync c))) as [[]|]; cbn [from_option Middleware.after]; unfold id; cbn [Middleware.after].
    + by apply helper_loop_ok with (n := length stack); lia.
    + by split.
    + rewrite (wrap_small 16) by lia.
      assert (Ed : tail (drop (Z.to_nat mi) stack) = drop (Z.to_nat (mi + 1)) stack).
      { replace (Z.to_nat (mi + 1)) with (Z.to_nat mi + 1)%nat by lia.
        rewrite <- drop_drop. by destruct (drop (Z.to_nat mi) stack). }
      rewrite Ed. apply (runs_weaken _ (Z.to_nat (mi + 1))); [lia|]. apply helper_loop_ok with (n := length stack); lia.
    + by apply helper_loop_ok with (n := length stack); lia.
  - assert (Hm : mi = 0) by lia. rewrite Hm. cbn [Z.to_nat]. by apply (helper_loop_ok stack (length stack) 0); lia.
Qed.

Context {K : Type} `{Countable K}.

(** What is left of the whole chain, and how many callbacks at most. *)
Definition chain_rest (m : HttpMiddleware W K) (node : option K) (c : Ctx W) : bool * W :=
  let per := default [] (per_route node m) in
  if GetMLevel (trackAsync c) =? GLOBAL
  then match resume_spec (middlewareGlobalCallbacks_ m) c with (true, w) => (true, w) | (false, w) => spec_stack per w end
  else resume_spec per c.

Definition stage_stack (m : HttpMiddleware W K) (node : option K) (c : Ctx W) : MiddlewareStack W :=
  if GetMLevel (trackAsync c) =? GLOBAL then middlewareGlobalCallbacks_ m else default [] (per_route node m).

Definition left_over (m : HttpMiddleware W K) (node : option K) (c : Ctx W) : nat :=
  (length (stage_stack m node c) - Z.to_nat (mIndex (trackAsync c)) +
   (if (GetMLevel (trackAsync c) =? GLOBAL)%Z then length (default [] (per_route node m)) else 0))%nat.

Definition small (stack : MiddlewareStack W) : Prop := Z.of_nat (length stack) < 2 ^ 16 - 1.

Context (m : HttpMiddleware W K) (node : option K).
Context (Hg : small (middlewareGlobalCallbacks_ m)) (Hp : small (default [] (per_route node m))).

Lemma GetMLevel_per_route t : GetMLevel (SetMLevel PER_ROUTE t) = PER_ROUTE.
Proof.
  unfold GetMLevel, SetMLevel. cbn [levels]. unfold wrap. rewrite <- (Z.land_ones _ 8), <- Z.land_assoc by lia.
  rewrite Z.land_lor_distr_l, <- !Z.land_assoc. change (Z.land 240 (Z.land (Z.ones 8) 15)) with 0.
  by rewrite Z.land_0_r.
Qed.

Lemma land_u8 a b : Z.land (u8 a) b = Z.land a (Z.land 255 b).
Proof. unfold wrap. rewrite <- (Z.land_ones _ 8), <- Z.land_assoc by lia. done. Qed.

Lemma GetELevel_mask t : GetELevel t = Z.land (Z.shiftr (levels t) 4) 15.
Proof. done. Qed.

Lemma shiftr4_u8 a : Z.land (Z.shiftr (u8 a) 4) 15 = Z.land (Z.shiftr a 4) 15.
Proof.
  unfold wrap. rewrite <- (Z.land_ones _ 8), Z.shiftr_land, <- Z.land_assoc by lia. done.
Qed.

Lemma GetELevel_SetMLevel v t : GetELevel (SetMLevel v t) = GetELevel t.
Proof.
  unfold GetELevel, SetMLevel. cbn [levels]. rewrite shiftr4_u8, Z.shiftr_lor, !Z.shiftr_land, Z.land_lor_distr_l, <- !Z.land_assoc.
  change (Z.land (Z.shiftr 15 4) 15) with 0. rewrite Z.land_0_r, Z.lor_0_r. done.
Qed.

Lemma GetELevel_RESPONSE t : GetELevel (SetELevel RESPONSE t) = RESPONSE.
Proof.
  unfold GetELevel, SetELevel. cbn [levels]. rewrite shiftr4_u8, Z.shiftr_lor, Z.shiftr_land, Z.land_lor_distr_l, <- !Z.land_assoc.
  change (Z.land (Z.shiftr 15 4) 15) with 0. by rewrite Z.land_0_r.
Qed.

Lemma GetELevel_levels t t' : levels t = levels t' -> GetELevel t = GetELevel t'.
Proof. unfold GetELevel. by intros ->. Qed.

Lemma runs_resume stack lo lv sp want r' (c' : Ctx W) :
  runs stack lo lv sp want (MwResult false r' false, c') -> small stack ->
  r' = true /\ exists k, suspended c' = Some k /\ levels (trackAsync c') = lv /\
    let '(r, w) := k (on_suspend (world c')) in
    let c'' := set_track (SetMAction (action r) (trackAsync c')) (set_suspended None (set_world w c')) in
    (lo < Z.to_nat (mIndex (trackAsync c'')) <= length stack)%nat /\ in_stack stack c'' /\
    want = (if completed r then resume_spec stack c'' else (true, resumed_failure w)).
Proof.
  intros (Hlv & Ha & k & j & Hk & Hj & Hm & Hw) Hs. split; [done|]. exists k. cbn [fst snd] in *. split; [done|]. split; [done|].
  unfold small in Hs. rewrite (wrap_small 16) in Hm by lia. destruct (k (on_suspend (world c'))) as [r w].
  cbn [trackAsync set_track set_suspended set_world SetMAction mIndex]. rewrite Hm, Nat2Z.id. split; [done|].
  split; [unfold in_stack; cbn; lia|]. rewrite Hw. unfold Middleware.settle. destruct (completed r); [|done].
  unfold resume_spec. cbn [trackAsync set_track set_suspended set_world SetMAction mIndex mAction world].
  rewrite Hm, action_of_value, Nat2Z.id. by rewrite (proj2 (Z.ltb_lt 0 _)) by lia.
Qed.

(** One entry of the chain. *)
Lemma ExecuteMiddleware_ok (c : Ctx W) :
  in_stack (stage_stack m node c) c ->
  GetELevel (trackAsync (ExecuteMiddleware inline_failure m node c).2) = GetELevel (trackAsync c) /\
  match ExecuteMiddleware inline_failure m node c with
  | (MwResult true _ _, c') => suspended c' = suspended c /\ chain_rest m node c = (false, world c')
  | (MwResult false _ true, c') => suspended c' = suspended c /\ chain_rest m node c = (true, world c')
  | (MwResult false async false, c') =>
      async = true /\ exists k, suspended c' = Some k /\
        let '(r, w) := k (on_suspend (world c')) in
        let c'' := set_track (SetMAction (action r) (trackAsync c')) (set_suspended None (set_world w c')) in
        in_stack (stage_stack m node c'') c'' /\ (left_over m node c'' < left_over m node c)%nat /\
        chain_rest m node c = (if completed r then chain_rest m node c'' else (true, resumed_failure w))
  end.
Proof.
  intros Hin. unfold ExecuteMiddleware, chain_rest, left_over, stage_stack in *.
  set (per := default [] (per_route node m)) in *.
  assert (Hfin : forall c, in_stack per c ->
     runs per (Z.to_nat (mIndex (trackAsync c))) (levels (trackAsync c)) (suspended c) (resume_spec per c)
       (match per_route node m with None => (MwResult true false false, c) | Some stack => ExecuteHelper inline_failure stack c end)).
  { intros c0 Hc0. unfold per in *. destruct (per_route node m) as [stack|]; cbn [default from_option] in *; unfold id in *.
    - by apply ExecuteHelper_ok.
    - split; [done|]. split; [done|]. unfold resume_spec, in_stack in *. cbn [length] in Hc0. by replace (mIndex (trackAsync c0)) with 0 by lia. }
  destruct (Z.eqb_spec (GetMLevel (trackAsync c)) GLOBAL) as [El|El].
  - pose proof (ExecuteHelper_ok _ c Hin Hg) as Hr. set (g := middlewareGlobalCallbacks_ m) in *.
    destruct (ExecuteHelper inline_failure g c) as [[[] a b] c1] eqn:E.
    + destruct Hr as (Hlv & Hsp & Hw). cbn [fst snd] in Hw, Hsp, Hlv. rewrite Hw.
      set (c2 := set_track _ c1). assert (E2 : GetMLevel (trackAsync c2) = PER_ROUTE) by apply GetMLevel_per_route.
      assert (E3 : GetELevel (trackAsync c2) = GetELevel (trackAsync c))
        by (unfold c2; cbn [trackAsync set_track]; rewrite GetELevel_SetMLevel; unfold GetELevel; cbn; by rewrite Hlv).
      assert (Em2 : mIndex (trackAsync c2) = 0) by done.
      assert (Hc2 : in_stack per c2) by (unfold in_stack; rewrite Em2; lia).
      assert (Hrs : resume_spec per c2 = spec_stack per (world c1)) by done.
      specialize (Hfin c2 Hc2). rewrite Hrs in Hfin. clear Hrs.
      assert (Hsp2 : suspended c2 = suspended c) by done. rewrite Hsp2 in Hfin.
      assert (E4 := GetELevel_levels _ _ (proj1 Hfin)).
      destruct (match per_route node m with None => _ | Some _ => _ end) as [[[] a' []] c3]; cbn [snd] in E4;
        (split; [cbn [snd]; congruence|]); try exact (proj2 Hfin).
      destruct (runs_resume _ _ _ _ _ _ c3 Hfin Hp) as (Ha & k & Hk & Hlv3 & Hres). split; [done|]. exists k. split; [done|].
      destruct (k (on_suspend (world c3))) as [r w]. destruct Hres as (Hlt & Hin3 & Hw3). unfold GetMLevel in *.
      cbn [trackAsync set_track SetMAction levels set_suspended set_world] in *. rewrite Hlv3, E2. cbn [Z.eqb PER_ROUTE GLOBAL].
      split; [exact Hin3|]. split; [|exact Hw3]. cbn [mIndex] in *. lia.
    + assert (E4 := GetELevel_levels _ _ (proj1 Hr)). cbn [snd] in E4. split; [exact E4|]. destruct b.
      * destruct Hr as (_ & Hsp & Hw). cbn [fst snd] in Hw. by rewrite Hw.
      * destruct (runs_resume _ _ _ _ _ _ c1 Hr Hg) as (Ha & k & Hk & Hlv1 & Hres). split; [done|]. exists k. split; [done|].
        destruct (k (on_suspend (world c1))) as [r w]. destruct Hres as (Hlt & Hin1 & Hw1). unfold GetMLevel in *.
        cbn [trackAsync set_track SetMAction levels set_suspended set_world] in *. rewrite Hlv1, El. cbn [Z.eqb GLOBAL].
        split; [exact Hin1|]. split; [cbn [mIndex] in *; lia|]. rewrite Hw1. by destruct (completed r).
  - specialize (Hfin c Hin). assert (E4 := GetELevel_levels _ _ (proj1 Hfin)).
    destruct (match per_route node m with None => _ | Some _ => _ end) as [[[] a []] c1]; cbn [snd] in E4;
      (split; [exact E4|]); try exact (proj2 Hfin).
    destruct (runs_resume _ _ _ _ _ _ c1 Hfin Hp) as (Ha & k & Hk & Hlv1 & Hres). split; [done|]. exists k. split; [done|].
    destruct (k (on_suspend (world c1))) as [r w]. destruct Hres as (Hlt & Hin1 & Hw1). unfold GetMLevel in *.
    cbn [trackAsync set_track SetMAction levels set_suspended set_world] in *. rewrite Hlv1.
    rewrite (proj2 (Z.eqb_neq _ _) El). split; [exact Hin1|]. split; [cbn [mIndex] in *; lia|exact Hw1].
Qed.

Lemma run_chain_ok fuel : forall c : Ctx W,
  in_stack (stage_stack m node c) c -> (left_over m node c <= fuel)%nat ->
  exists b c', run_chain inline_failure resumed_failure on_suspend fuel m node c = Some (b, c') /\ chain_rest m node c = (b, world c').
Proof.
  induction fuel as [|fuel IH]; intros c Hin Hf; cbn [run_chain]; pose proof (proj2 (ExecuteMiddleware_ok c Hin)) as HE;
    destruct (ExecuteMiddleware inline_failure m node c) as [[[] a []] c1];
    try (destruct HE as [_ HE]; by eexists _, _); destruct HE as (_ & k & Hk & HE); [destruct (k (on_suspend (world c1))) as [r w]; destruct HE as (_ & Hlt & _); lia|].
  rewrite Hk. destruct (k (on_suspend (world c1))) as [r w]; destruct HE as (Hin1 & Hlt & Hw).
  destruct (completed r); [|by eexists _, _]. rewrite Hw. apply IH; [exact Hin1|lia].
Qed.

End chain.

(** ** Properties *)

Section properties.
Context {W : Type} (inline_failure resumed_failure on_suspend : W -> W) {K : Type} `{Countable K}.

(** C19: suspending a middleware changes nothing but time.  From a request's first entry
    into the chain, resuming every suspended coroutine until the chain is over ends,
    after at most one resumption per middleware, with the verdict and the state of
    the chain in which every asynchronous middleware had run to its end at once:
    skips, breaks and failures included, and global middleware before the route's
    own.  Stacks are shorter than 65535, the range of the 16-bit position. *)
Theorem suspension_is_transparent (m : HttpMiddleware W K) node (c : Ctx W) :
  small (middlewareGlobalCallbacks_ m) -> small (default [] (per_route node m)) ->
  trackAsync c = track_of_bytes 0 ->
  exists b c',
    run_chain inline_failure resumed_failure on_suspend
      (length (middlewareGlobalCallbacks_ m) + length (default [] (per_route node m))) m node c = Some (b, c') /\
    spec_chain inline_failure resumed_failure on_suspend (middlewareGlobalCallbacks_ m) (default [] (per_route node m)) (world c) =
      (b, world c').
Proof.
  intros Hg Hp Ht.
  assert (El : GetMLevel (trackAsync c) = GLOBAL) by (by rewrite Ht).
  assert (Em : mIndex (trackAsync c) = 0) by (by rewrite Ht).
  destruct (run_chain_ok inline_failure resumed_failure on_suspend m node Hg Hp
    (length (middlewareGlobalCallbacks_ m) + length (default [] (per_route node m))) c) as (b & c' & Hr & Hw).
  - unfold in_stack. rewrite Em. lia.
  - unfold left_over, stage_stack. rewrite El, Em. cbn [Z.eqb GLOBAL]. lia.
  - exists b, c'. split; [done|]. rewrite <- Hw. unfold spec_chain, chain_rest, resume_spec. by rewrite El, Em.
Qed.

(** *** Loading *)

Lemma find_factory_Some name (fs : list (bytes * MwCallback W)) cb :
  find_factory name fs = Some cb -> (name, cb) ∈ fs.
Proof.
  unfold find_factory. intros Hf. destruct (List.find _ fs) as [[n c]|] eqn:E; [|done].
  apply find_some in E as [Hin Hn]. apply bool_decide_eq_true in Hn. cbn in *. subst n. injection Hf as ->. by apply list_elem_of_In.
Qed.

Lemma load_loop_ok (fs : list (bytes * MwCallback W)) order : forall loaded acc names stack,
  load_loop order loaded fs acc = Ret (names, stack) <->
  names = loaded ++ order /\ (NoDup order /\ (forall n, n ∈ order -> n ∉ loaded)) /\
  exists cbs, Forall2 (fun n cb => find_factory n fs = Some cb) order cbs /\ stack = acc ++ cbs.
Proof.
  induction order as [|name order IH]; intros loaded acc names stack; cbn [load_loop].
  - split.
    + intros [= <- <-]. rewrite app_nil_r. split; [done|]. split; [split; [constructor|]; intros n Hn; by apply elem_of_nil in Hn|].
      exists []. rewrite app_nil_r. by split; [constructor|].
    + intros (-> & _ & cbs & Hc & ->). inversion Hc. by rewrite !app_nil_r.
  - destruct (bool_decide_reflect (name ∈ loaded)) as [Hin|Hin].
    + split; [done|]. intros (_ & (_ & Hd) & _). by destruct (Hd name); [apply elem_of_cons; left|].
    + destruct (find_factory name fs) as [cb|] eqn:Ef.
      2:{ split; [done|]. intros (_ & _ & cbs & Hc & _). inversion Hc; congruence. }
      rewrite IH. split.
      * intros (-> & (Hnd & Hd) & cbs & Hc & ->). rewrite <- !app_assoc. split; [done|]. split.
        -- split.
           ++ constructor; [|done]. intros Hn. apply (Hd name Hn). apply elem_of_app. right. by apply list_elem_of_singleton.
           ++ intros n Hn. apply elem_of_cons in Hn as [->|Hn]; [done|]. intros Hl. apply (Hd n Hn). apply elem_of_app. by left.
        -- exists (cb :: cbs). split; [by constructor|done].
      * intros (-> & (Hnd & Hd) & cbs & Hc & ->). apply NoDup_cons in Hnd as [Hnn Hnd]. inversion Hc as [|? cb' ? cbs' E1 Hc']; subst.
        rewrite Ef in E1. injection E1 as <-. rewrite <- !app_assoc. split; [done|]. split.
        -- split; [done|]. intros n Hn Hl. apply elem_of_app in Hl as [Hl|Hl].
           ++ apply (Hd n); [apply elem_of_cons; by right|done].
           ++ apply list_elem_of_singleton in Hl as ->. done.
        -- exists cbs'. by rewrite <- app_assoc.
Qed.

(** loading accepts a configured order exactly when it lists every registered
    middleware once and nothing else, and then installs the callbacks in that
    order; everything else is refused at start-up. *)
Theorem load_order_spec (m : HttpMiddleware W K) order m' :
  LoadMiddlewareFromConfig order m = Ret m' <->
  NoDup order /\ (forall name, name ∈ order <-> name ∈ (middlewareFactories_ m).*1) /\
  middlewareFactories_ m' = middlewareFactories_ m /\
  middlewarePerRouteCallbacks_ m' = middlewarePerRouteCallbacks_ m /\
  Forall2 (fun n cb => find_factory n (middlewareFactories_ m) = Some cb) order (middlewareGlobalCallbacks_ m').
Proof.
  unfold LoadMiddlewareFromConfig. set (fs := middlewareFactories_ m).
  assert (Hall : forall l : list bytes, forallb (fun e => bool_decide (e.1 ∈ l)) fs = true <-> forall n, n ∈ fs.*1 -> n ∈ l).
  { intros l. rewrite forallb_forall. split.
    - intros Hf n Hn. apply list_elem_of_fmap in Hn as (e & -> & He). apply list_elem_of_In, Hf in He. by apply bool_decide_eq_true in He.
    - intros Hf e He. apply bool_decide_eq_true, Hf, list_elem_of_fmap. exists e. split; [done|]. by apply list_elem_of_In. }
  assert (Hdom : forall cbs, Forall2 (fun n cb => find_factory n fs = Some cb) order cbs -> forall n, n ∈ order -> n ∈ fs.*1).
  { intros cbs HF. induction HF as [|n cb ns cbs' Hc _ IH]; intros x Hx; [by apply elem_of_nil in Hx|].
    apply elem_of_cons in Hx as [->|Hx]; [|by apply IH]. apply find_factory_Some in Hc. apply list_elem_of_fmap. by exists (n, cb). }
  split.
  - destruct (load_loop order [] fs []) as [[names stack]|] eqn:E; [|done]. cbn [obind].
    apply load_loop_ok in E as (-> & (Hnd & _) & cbs & Hc & ->). cbn [app].
    destruct (forallb _ fs) eqn:Ef; [|done]. intros [= <-]. rewrite Hall in Ef. cbn. split; [done|]. split; [|done].
    intros n. split; [by apply (Hdom cbs)|apply Ef].
  - intros (Hnd & Heq & E1 & E2 & HF).
    assert (E : load_loop order [] fs [] = Ret (order, middlewareGlobalCallbacks_ m')).
    { apply load_loop_ok. split; [done|]. split; [split; [done|]; intros n _ Hn; by apply elem_of_nil in Hn|]. by exists (middlewareGlobalCallbacks_ m'). }
    rewrite E. cbn [obind]. rewrite (proj2 (Hall order)) by (intros n; apply Heq). destruct m'. cbn in *. by subst.
Qed.

End properties.

(** *** The packed position *)

Definition track_wf (t : AsyncTrack) : Prop := is_uint 8 (mAction t) /\ is_uint 8 (levels t) /\ is_uint 16 (mIndex t).

(** The nibbles, for every byte of levels and every value. *)
Definition nibble_ok (lv : Z) : bool :=
  forallb (fun v =>
    let t := Track 0 lv 0 in
    let e := SetELevel v t in let g := SetMLevel v t in
    (0 <=? levels e) && (levels e <? 256) && (0 <=? levels g) && (levels g <? 256) &&
    (GetELevel e =? v) && (GetMLevel e =? GetMLevel t) && (GetMLevel g =? v) && (GetELevel g =? GetELevel t)) (seqZ 0 16).

Lemma nibbles_ok : forallb nibble_ok (seqZ 0 256) = true.
Proof. vm_compute. reflexivity. Qed.

Lemma bytes_of_track_sum t :
  track_wf t -> bytes_of_track t = (mIndex t * 2 ^ 8 + levels t) * 2 ^ 8 + mAction t.
Proof.
  intros (H1 & H2 & H3). unfold is_uint in *. unfold bytes_of_track.
  rewrite (Z.lor_comm (Z.shiftl (levels t) 8)), Z.lor_comm, !Z.shiftl_mul_pow2 by lia.
  replace (mIndex t * 2 ^ 16) with (mIndex t * 2 ^ 8 * 2 ^ 8) by lia.
  rewrite <- (Z.shiftl_mul_pow2 (levels t)), <- (Z.shiftl_mul_pow2 (mIndex t * 2 ^ 8)), <- Z.shiftl_lor by lia.
  rewrite (lor_add (mIndex t) (levels t) 8), Z.shiftl_mul_pow2, lor_add by lia. done.
Qed.

Lemma track_round t : track_wf t -> track_of_bytes (bytes_of_track t) = t /\ is_uint 32 (bytes_of_track t).
Proof.
  intros Hwf. pose proof Hwf as (H1 & H2 & H3). pose proof (bytes_of_track_sum t Hwf) as Eb. unfold is_uint in *. split; [|lia].
  rewrite Eb. unfold track_of_bytes. destruct t as [ma lv mi]. cbn [mAction levels mIndex] in *.
  rewrite !Z.shiftr_div_pow2 by lia. unfold wrap. f_equal; Z.to_euclidean_division_equations; lia.
Qed.

Lemma word_round z : is_uint 32 z -> bytes_of_track (track_of_bytes z) = z /\ track_wf (track_of_bytes z).
Proof.
  intros Hz. assert (Hwf : track_wf (track_of_bytes z)) by (unfold track_wf, track_of_bytes; cbn [mAction levels mIndex]; split_and!; apply wrap_range; lia).
  split; [|done]. rewrite bytes_of_track_sum by done. unfold track_of_bytes, is_uint in *. cbn [mAction levels mIndex].
  rewrite !Z.shiftr_div_pow2 by lia. unfold wrap. Z.to_euclidean_division_equations; lia.
Qed.

(** The two levels share a byte: every byte and value is checked. *)
Lemma level_setters t v : track_wf t -> 0 <= v < 16 ->
  track_wf (SetELevel v t) /\ GetELevel (SetELevel v t) = v /\ GetMLevel (SetELevel v t) = GetMLevel t /\
  track_wf (SetMLevel v t) /\ GetMLevel (SetMLevel v t) = v /\ GetELevel (SetMLevel v t) = GetELevel t.
Proof.
  intros (H1 & H2 & H3) Hv. unfold is_uint in *.
  assert (Hn : nibble_ok (levels t) = true) by (apply (forall_bytes nibble_ok nibbles_ok); exact H2).
  unfold nibble_ok in Hn. rewrite forallb_forall in Hn.
  assert (Hin : v ∈ seqZ 0 16) by (apply elem_of_seqZ; lia). apply list_elem_of_In, Hn in Hin. clear Hn.
  bool_split. rewrite Z.leb_le, Z.ltb_lt in *. rewrite Z.eqb_eq in *.
  assert (Erange : 0 <= levels (SetELevel v t) < 2 ^ 8 /\ 0 <= levels (SetMLevel v t) < 2 ^ 8) by (cbn in *; lia).
  unfold track_wf, is_uint. cbn [mAction mIndex SetELevel SetMLevel levels] in *. split_and!; try done; destruct Erange; done || lia.
Qed.

(** What the word holds: the four fields, through their getters. *)
Definition fields (t : AsyncTrack) : Z * Z * Z * Z := (mAction t, GetELevel t, GetMLevel t, GetMIndex t).

Lemma fields_inj t t' : track_wf t -> track_wf t' -> fields t = fields t' -> t = t'.
Proof.
  destruct t as [ma lv mi], t' as [ma' lv' mi']. intros (_ & H2 & _) (_ & H2' & _). unfold fields, GetELevel, GetMLevel, GetMIndex. cbn [mAction levels mIndex] in *.
  change 0x0F with (Z.ones 4). rewrite !Z.land_ones, !Z.shiftr_div_pow2 by lia. unfold is_uint in *.
  intros [= -> Eh El ->]. f_equal. Z.to_euclidean_division_equations; lia.
Qed.

(** C40: the packed position keeps its type.  Each setter stays within the two bytes and
    the halfword of [trackBytes], gives the field it names its value and leaves the
    other three as they are; the word is its four fields, and the union reads back
    what was written through either member. *)
Theorem track_typed t v a i z :
  track_wf t -> 0 <= v < 16 -> is_uint 16 i -> is_uint 32 z ->
  (track_of_bytes (bytes_of_track t) = t /\ is_uint 32 (bytes_of_track t)) /\
  (bytes_of_track (track_of_bytes z) = z /\ track_wf (track_of_bytes z)) /\
  (forall t', track_wf t' -> fields t = fields t' -> t = t') /\
  (track_wf (SetELevel v t) /\ fields (SetELevel v t) = (mAction t, v, GetMLevel t, GetMIndex t)) /\
  (track_wf (SetMLevel v t) /\ fields (SetMLevel v t) = (mAction t, GetELevel t, v, GetMIndex t)) /\
  (track_wf (SetMIndex i t) /\ fields (SetMIndex i t) = (mAction t, GetELevel t, GetMLevel t, i)) /\
  (track_wf (SetMAction a t) /\ action_of (mAction (SetMAction a t)) = Some a /\
    fields (SetMAction a t) = (mAction (SetMAction a t), GetELevel t, GetMLevel t, GetMIndex t)).
Proof.
  intros Hwf Hv Hi Hz. destruct (level_setters t v Hwf Hv) as (E1 & E2 & E3 & M1 & M2 & M3).
  split; [by apply track_round|]. split; [by apply word_round|]. split; [intros t'; by apply fields_inj|].
  split; [split; [done|]; unfold fields; by rewrite E2, E3|]. split; [split; [done|]; unfold fields; by rewrite M2, M3|].
  pose proof Hwf as (H1 & H2 & H3). split.
  - split; [split_and!; try done; apply (wrap_range 16); lia|]. unfold fields, SetMIndex, GetMIndex. cbn [mIndex mAction]. by rewrite wrap_small.
  - split; [split_and!; try done; by destruct a|]. by destruct a.
Qed.

Lemma track_typed_witness :
  let t := Track 2 0x11 300 in
  fields (SetELevel 3 t) = (2, 3, 1, 300) /\ fields (SetMIndex 7 t) = (2, 1, 1, 7) /\ bytes_of_track (track_of_bytes 0x12340599) = 0x12340599.
Proof.
  assert (Hwf : track_wf (Track 2 0x11 300)) by (unfold track_wf, is_uint; cbn; lia).
  destruct (track_typed (Track 2 0x11 300) 3 BREAK 7 0x12340599 Hwf) as (_ & (H1 & _) & _ & (_ & H2) & _ & (_ & H3) & _); [lia|unfold is_uint; lia|unfold is_uint; lia|].
  cbv zeta. rewrite H1, H2, H3. done.
Defined.

(** *** A chain *)

(** Each callback logs its name; [m2] suspends and then asks to skip, [m5] fails after
    it was resumed. *)
Definition logs (n : Z) (w : list Z) : list Z := w ++ [n].
Definition w_sync (n : Z) (a : MiddlewareAction) : MwCallback (list Z) := MwSync (fun w => (a, logs n w)).
Definition w_later (n : Z) (r : AsyncResult) : MwCallback (list Z) :=
  MwAsync (fun w => (inr (fun w => (r, logs (n + 10) w)), logs n w)).
Definition w_inline (n : Z) (r : AsyncResult) : MwCallback (list Z) := MwAsync (fun w => (inl r, logs n w)).

Definition w_mw : HttpMiddleware (list Z) Z :=
  mkMiddleware [] [w_sync 1 CONTINUE; w_later 2 (Result true SKIP_NEXT); w_sync 3 CONTINUE]
    {[ 7 := [w_inline 4 (Result true CONTINUE); w_later 5 (Result false CONTINUE); w_sync 6 CONTINUE] ]}.

Definition w_ctx : Ctx (list Z) := mkCtx (track_of_bytes 0) IDLE false None [].

Example chain_log :
  (fun x => (x.1, world x.2)) <$> run_chain (logs 100) (logs 101) id 6 w_mw (Some 7) w_ctx =
  Some (true, [1; 2; 12; 4; 5; 15; 101]).
Proof. vm_compute. reflexivity. Qed.

Lemma suspension_is_transparent_witness :
  exists b c', run_chain (logs 100) (logs 101) id 6 w_mw (Some 7) w_ctx = Some (b, c') /\
    spec_chain (logs 100) (logs 101) id (middlewareGlobalCallbacks_ w_mw) (default [] (per_route (Some 7) w_mw)) [] = (b, world c').
Proof. apply (suspension_is_transparent (logs 100) (logs 101) id w_mw (Some 7) w_ctx); done. Defined.

End Middleware.
