(* ===== verification/Metrics.v ===== *)
(** * Metrics (utils/diagnostics/metric_tracer, include/wfx/telemetry.hpp)

    The shared block of counters: one stride per worker, in it the worker's own
    metrics and the arrays of route and endpoint slots and, when latency is on, of
    latency histograms.  A struct of [std::uint64_t] counters is the list of its
    fields in declaration order.

    The theorems: the slots of all workers are disjoint and inside the mapping, and a
    percentile read off the histograms summed over the workers is within a sixteenth
    of the exact order statistic of the samples recorded in any of them. *)

From S2P Require Import Prelude.

Module Metrics.

Definition counters := list Z.

(** ** Latency buckets *)

Definition LATENCY_BUCKET_COUNT : nat := 192.

Record LatencyMetrics := Latency { sumUs : Z; buckets : counters }.
Definition new_latency : LatencyMetrics := Latency 0 (replicate LATENCY_BUCKET_COUNT 0).

(** [63u - countl_zero(us)] is [Z.log2 us]. *)
Definition LatencyBucketIndex (us : Z) : nat :=
  if us =? 0 then 0%nat
  else
    let k := Z.log2 us in
    let sub := if 3 <=? k then Z.land (u32 (Z.shiftr us (k - 3))) 0x7 else u32 (Z.shiftl (us - Z.shiftl 1 k) (3 - k)) in
    let idx := u32 (k * 8 + sub) in
    if idx <? Z.of_nat LATENCY_BUCKET_COUNT then Z.to_nat idx else (LATENCY_BUCKET_COUNT - 1)%nat.

(** [l->sumUs += us; l->buckets[LatencyBucketIndex(us)]++] *)
Definition record_sample (us : Z) (l : LatencyMetrics) : LatencyMetrics :=
  Latency (u64 (sumUs l + us)) (alter (fun c => u64 (c + 1)) (LatencyBucketIndex us) (buckets l)).

(** The doubles are exact: [base] is a power of two and [s + 0.5] a half. *)
Definition LatencyBucketMidpointUs (idx : nat) : Z :=
  let k := Z.of_nat (idx / 8) in
  let s := Z.of_nat (idx mod 8) in
  let base := 2 ^ k in
  (16 * base + (2 * s + 1) * base) / 16.

Fixpoint percentile_loop (bs : counters) (i : nat) (cum rank : Z) : Z :=
  match bs with
  | [] => LatencyBucketMidpointUs (LATENCY_BUCKET_COUNT - 1)
  | b :: bs => let cum := u64 (cum + b) in if rank <=? cum then LatencyBucketMidpointUs i else percentile_loop bs (i + 1) cum rank
  end.

(** [rank] is [ceil(q * count)], computed in doubles. *)
Definition LatencyPercentile (h : LatencyMetrics) (count rank : Z) : Z :=
  if count =? 0 then 0
  else percentile_loop (buckets h) 0 0 (if rank =? 0 then 1 else rank).

(** The number of samples, as [ComputeLatencyStats] counts it. *)
Definition sample_count (h : LatencyMetrics) : Z := fold_left (fun c b => u64 (c + b)) (buckets h) 0.

(** ** The mapping *)

Definition Align64 (n : Z) : Z := Z.land (n + 63) (Z.lnot 63).

(** [sizeof] of the structs. *)
Definition sizeof_WorkerMetrics : Z := 192.
Definition sizeof_RouteMetrics : Z := 56.
Definition sizeof_EndpointMetrics : Z := 136.
Definition sizeof_LatencyMetrics : Z := 1544.

Record layout := Layout {
  GlobalStride : Z;
  GlobalRouteOffset : Z;
  GlobalEndpointOffset : Z;
  GlobalLatRouteOffset : Z;
  GlobalLatEndpointOffset : Z;
  GlobalMmapSize : Z
}.

Definition create_layout (workerCount maxRoutes maxEndpoints : Z) (latency : bool) : layout :=
  let routeOffset := sizeof_WorkerMetrics in
  let offset := routeOffset + Align64 (maxRoutes * sizeof_RouteMetrics) in
  let endpointOffset := offset in
  let offset := offset + Align64 (maxEndpoints * sizeof_EndpointMetrics) in
  let latRoute := if latency then offset else 0 in
  let offset := if latency then offset + Align64 (maxRoutes * sizeof_LatencyMetrics) else offset in
  let latEndpoint := if latency then offset else 0 in
  let offset := if latency then offset + Align64 (maxEndpoints * sizeof_LatencyMetrics) else offset in
  let stride := Align64 offset in
  Layout stride routeOffset endpointOffset latRoute latEndpoint (workerCount * stride).

(** ** The counters *)

(** A worker's block. *)
Record block := Block {
  log : counters;
  network : counters;
  routes : list counters;
  endpoints : list counters;
  routeLatency : list LatencyMetrics;
  endpointLatency : list LatencyMetrics
}.

(** The process: the blocks of all workers, and which one is its own. *)
Record tracer := Tracer {
  blocks : list block;
  GlobalWorkerIndex : option nat;
  GlobalMaxRoutes : Z;
  GlobalMaxEndpoints : Z;
  GlobalLatencyEnabled : bool
}.

Definition no_tracer : tracer := Tracer [] None 0 0 false.

Definition LOG_FIELDS : nat := 6.
Definition NETWORK_FIELDS : nat := 10.
Definition ROUTE_FIELDS : nat := 7.
Definition ENDPOINT_FIELDS : nat := 17.
Definition zeros (n : nat) : counters := replicate n 0.

(** [Create]: the mapping is zeroed; [mapped] is whether [mmap] succeeded. *)
Definition Create (mapped : bool) (workerCount maxRoutes maxEndpoints : Z) (latency : bool) (t : tracer) : bool * tracer :=
  if workerCount <=? 0 then (false, t)
  else if negb mapped then (false, t)
  else
    let lat n := if latency then replicate (Z.to_nat n) new_latency else [] in
    let b := Block (zeros LOG_FIELDS) (zeros NETWORK_FIELDS) (replicate (Z.to_nat maxRoutes) (zeros ROUTE_FIELDS))
               (replicate (Z.to_nat maxEndpoints) (zeros ENDPOINT_FIELDS)) (lat maxRoutes) (lat maxEndpoints) in
    (true, Tracer (replicate (Z.to_nat workerCount) b) (GlobalWorkerIndex t) maxRoutes maxEndpoints latency).

Definition InitWorker (index : Z) (t : tracer) : tracer :=
  if negb (length (blocks t) =? 0)%nat && (0 <=? index) && (index <? Z.of_nat (length (blocks t)))
  then Tracer (blocks t) (Some (Z.to_nat index)) (GlobalMaxRoutes t) (GlobalMaxEndpoints t) (GlobalLatencyEnabled t)
  else t.

Definition Destroy (t : tracer) : tracer := if (length (blocks t) =? 0)%nat then t else no_tracer.

(** This worker's block. *)
Definition on_block (f : block -> block) (t : tracer) : tracer :=
  match GlobalWorkerIndex t with
  | Some w => Tracer (alter f w (blocks t)) (GlobalWorkerIndex t) (GlobalMaxRoutes t) (GlobalMaxEndpoints t) (GlobalLatencyEnabled t)
  | None => t
  end.

(** What a caller does through [CurrentRoute(idx)]: nothing when it is null. *)
Definition on_route (idx : Z) (f : counters -> counters) (t : tracer) : tracer :=
  if GlobalMaxRoutes t <=? idx then t
  else on_block (fun b => Block (log b) (network b) (alter f (Z.to_nat idx) (routes b)) (endpoints b) (routeLatency b) (endpointLatency b)) t.

Definition on_endpoint (idx : Z) (f : counters -> counters) (t : tracer) : tracer :=
  if GlobalMaxEndpoints t <=? idx then t
  else on_block (fun b => Block (log b) (network b) (routes b) (alter f (Z.to_nat idx) (endpoints b)) (routeLatency b) (endpointLatency b)) t.

Definition RecordRouteLatencyUs (routeIdx us : Z) (t : tracer) : tracer :=
  if (GlobalMaxRoutes t <=? routeIdx) || negb (GlobalLatencyEnabled t) then t
  else on_block (fun b => Block (log b) (network b) (routes b) (endpoints b)
                            (alter (record_sample us) (Z.to_nat routeIdx) (routeLatency b)) (endpointLatency b)) t.

Definition RecordEndpointLatencyUs (endpointIdx us : Z) (t : tracer) : tracer :=
  if (GlobalMaxEndpoints t <=? endpointIdx) || negb (GlobalLatencyEnabled t) then t
  else on_block (fun b => Block (log b) (network b) (routes b) (endpoints b) (routeLatency b)
                            (alter (record_sample us) (Z.to_nat endpointIdx) (endpointLatency b))) t.

(** ** Aggregation *)

(** [out.f += m.f] for every field. *)
Definition add_counters (a b : counters) : counters := zip_with (fun x y => u64 (x + y)) a b.
Definition sum_counters (n : nat) (slots : list counters) : counters := fold_left add_counters slots (zeros n).

Definition AggregateLog (t : tracer) : counters := sum_counters LOG_FIELDS (log <$> blocks t).
Definition AggregateNetwork (t : tracer) : counters := sum_counters NETWORK_FIELDS (network <$> blocks t).

Definition AggregateRoute (routeIdx : Z) (t : tracer) : counters :=
  if GlobalMaxRoutes t <=? routeIdx then zeros ROUTE_FIELDS
  else sum_counters ROUTE_FIELDS ((fun b => default [] (routes b !! Z.to_nat routeIdx)) <$> blocks t).

Definition AggregateEndpoint (endpointIdx : Z) (t : tracer) : counters :=
  if GlobalMaxEndpoints t <=? endpointIdx then zeros ENDPOINT_FIELDS
  else sum_counters ENDPOINT_FIELDS ((fun b => default [] (endpoints b !! Z.to_nat endpointIdx)) <$> blocks t).

Definition add_latency (a b : LatencyMetrics) : LatencyMetrics :=
  Latency (u64 (sumUs a + sumUs b)) (add_counters (buckets a) (buckets b)).

Definition AggregateLatency (idx cap : Z) (slots : block -> list LatencyMetrics) (t : tracer) : LatencyMetrics :=
  if negb (GlobalLatencyEnabled t) || (cap <=? idx) then new_latency
  else fold_left add_latency ((fun b => default new_latency (slots b !! Z.to_nat idx)) <$> blocks t) new_latency.

Definition AggregateRouteLatency (routeIdx : Z) (t : tracer) : LatencyMetrics :=
  AggregateLatency routeIdx (GlobalMaxRoutes t) routeLatency t.
Definition AggregateEndpointLatency (endpointIdx : Z) (t : tracer) : LatencyMetrics :=
  AggregateLatency endpointIdx (GlobalMaxEndpoints t) endpointLatency t.

(** ** Buckets *)

Lemma log2_octave us k : 0 <= k -> 2 ^ k <= us < 2 ^ (k + 1) -> Z.log2 us = k.
Proof. intros Hk Hu. apply Z.log2_unique; [done|]. by rewrite <- Z.add_1_r. Qed.

(** A duration's place: octave [k], sub-bucket [s]. *)
Lemma bucket_place us :
  0 < us < 2 ^ 24 ->
  exists k s, 0 <= k < 24 /\ 0 <= s < 8 /\ LatencyBucketIndex us = Z.to_nat (8 * k + s) /\
    2 ^ k * (8 + s) <= 8 * us /\ 8 * us < 2 ^ k * (9 + s) /\ (k < 3 -> 2 ^ k * (8 + s) = 8 * us).
Proof.
  intros Hu. pose proof (Z.log2_spec us ltac:(lia)) as Hl. pose proof (Z.log2_nonneg us) as Hk.
  assert (Hk24 : Z.log2 us < 24) by (apply Z.log2_lt_pow2; lia).
  unfold LatencyBucketIndex. destruct (Z.eqb_spec us 0) as [->|_]; [lia|]. set (k := Z.log2 us) in *.
  rewrite Z.pow_succ_r in Hl by done.
  assert (Hsub : exists s, 0 <= s < 8 /\ 2 ^ k * (8 + s) <= 8 * us /\ 8 * us < 2 ^ k * (9 + s) /\ (k < 3 -> 2 ^ k * (8 + s) = 8 * us) /\
    (if 3 <=? k then Z.land (u32 (Z.shiftr us (k - 3))) 0x7 else u32 (Z.shiftl (us - Z.shiftl 1 k) (3 - k))) = s).
  { destruct (Z.leb_spec 3 k) as [H3|H3].
    - rewrite Z.shiftr_div_pow2 by lia. set (w := 2 ^ (k - 3)).
      assert (Ew : 2 ^ k = 8 * w) by (unfold w; replace k with (3 + (k - 3)) at 1 by lia; rewrite Z.pow_add_r by lia; done).
      assert (Hw : 0 < w) by (apply Z.pow_pos_nonneg; lia).
      assert (Hq : 8 <= us / w < 16) by (split; [apply Z.div_le_lower_bound; lia|apply Z.div_lt_upper_bound; lia]).
      exists (us / w - 8). rewrite Ew. pose proof (Z.div_mod us w ltac:(lia)) as Hd. pose proof (Z.mod_pos_bound us w Hw) as Hm.
      split; [lia|]. split; [nia|]. split; [nia|]. split; [lia|].
      rewrite (wrap_small 32) by lia. change 0x7 with (Z.ones 3). rewrite Z.land_ones by lia. change (2 ^ 3) with 8.
      replace (us / w) with (us / w - 8 + 1 * 8) at 1 by lia. rewrite Z.mod_add by lia. apply Z.mod_small. lia.
    - rewrite (Z.shiftl_mul_pow2 1) by lia. rewrite Z.shiftl_mul_pow2 by lia.
      assert (Hc : k = 0 \/ k = 1 \/ k = 2) by lia.
      exists ((us - 2 ^ k) * 2 ^ (3 - k)).
      rewrite Z.mul_1_l, (wrap_small 32) by (destruct Hc as [->|[->| ->]]; cbn in *; lia).
      destruct Hc as [->|[->| ->]]; cbn in *; lia. }
  destruct Hsub as (s & Hs & H1 & H2 & H3 & ->). exists k, s. split; [lia|]. split; [done|]. split; [|done].
  rewrite (wrap_small 32) by lia. rewrite (proj2 (Z.ltb_lt _ _)) by (unfold LATENCY_BUCKET_COUNT; lia). f_equal. lia.
Qed.

Lemma midpoint_place k s :
  0 <= k -> 0 <= s < 8 -> LatencyBucketMidpointUs (Z.to_nat (8 * k + s)) = (16 * 2 ^ k + (2 * s + 1) * 2 ^ k) / 16.
Proof.
  intros Hk Hs. unfold LatencyBucketMidpointUs.
  assert (E1 : (Z.to_nat (8 * k + s) / 8)%nat = Z.to_nat k).
  { rewrite <- (Z2Nat.inj_div _ 8) by lia. f_equal. Z.to_euclidean_division_equations; lia. }
  assert (E2 : (Z.to_nat (8 * k + s) mod 8)%nat = Z.to_nat s).
  { rewrite <- (Z2Nat.inj_mod _ 8) by lia. f_equal. Z.to_euclidean_division_equations; lia. }
  rewrite E1, E2, !Z2Nat.id by lia. done.
Qed.

(** A sample read back from its bucket is within a sixteenth of itself. *)
Lemma bucket_accuracy us :
  0 < us < 2 ^ 24 -> 16 * Z.abs (LatencyBucketMidpointUs (LatencyBucketIndex us) - us) <= us.
Proof.
  intros Hu. destruct (bucket_place us Hu) as (k & s & Hk & Hs & -> & H1 & H2 & H3). rewrite midpoint_place by lia.
  destruct (Z.lt_ge_cases k 4) as [Hk4|Hk4].
  - assert (Hc : k = 0 \/ k = 1 \/ k = 2 \/ k = 3) by lia.
    destruct Hc as [->|[->|[->| ->]]]; cbn in *; Z.to_euclidean_division_equations; lia.
  - set (w := 2 ^ (k - 4)). assert (Ew : 2 ^ k = 16 * w) by (unfold w; replace k with (4 + (k - 4)) at 1 by lia; rewrite Z.pow_add_r by lia; done).
    assert (Hw : 0 < w) by (apply Z.pow_pos_nonneg; lia). rewrite Ew in *.
    replace (16 * (16 * w) + (2 * s + 1) * (16 * w)) with ((16 * w + (2 * s + 1) * w) * 16) by lia.
    rewrite Z.div_mul by lia. nia.
Qed.

Lemma bucket_monotone us us' :
  0 < us < 2 ^ 24 -> 0 < us' < 2 ^ 24 -> us <= us' -> (LatencyBucketIndex us <= LatencyBucketIndex us')%nat.
Proof.
  intros Hu Hu' Hle. destruct (bucket_place us Hu) as (k & s & Hk & Hs & -> & H1 & H2 & _).
  destruct (bucket_place us' Hu') as (k' & s' & Hk' & Hs' & -> & H1' & H2' & _). apply Z2Nat.inj_le; [lia..|].
  destruct (Z.lt_trichotomy k k') as [Hlt|[->|Hgt]]; [lia| |].
  - pose proof (Z.pow_pos_nonneg 2 k' ltac:(lia) ltac:(lia)). assert (8 + s < 9 + s') by nia. lia.
  - exfalso. assert (Hp : 2 * 2 ^ k' <= 2 ^ k) by (rewrite <- Z.pow_succ_r by lia; apply Z.pow_le_mono_r; lia).
    pose proof (Z.pow_pos_nonneg 2 k' ltac:(lia) ltac:(lia)). nia.
Qed.

(** A sample of no microsecond shares the bucket of one microsecond. *)
Lemma bucket_zero : LatencyBucketIndex 0 = LatencyBucketIndex 1.
Proof. reflexivity. Qed.

Lemma bucket_clamped us : 0 <= us -> LatencyBucketIndex us = LatencyBucketIndex (Z.max 1 us).
Proof. intros Hu. destruct (decide (us = 0)) as [->|Hn]; [exact bucket_zero|]. by rewrite Z.max_r by lia. Qed.

Lemma bucket_monotone0 us us' :
  0 <= us < 2 ^ 24 -> 0 <= us' < 2 ^ 24 -> us <= us' -> (LatencyBucketIndex us <= LatencyBucketIndex us')%nat.
Proof. intros Hu Hu' Hle. rewrite (bucket_clamped us), (bucket_clamped us') by lia. apply bucket_monotone; lia. Qed.

(** ** Histograms of samples *)

Definition sampled (l : list Z) : Prop := Forall (fun us => 0 <= us < 2 ^ 24) l.

(** What a slot holds after recording [l]. *)
Definition hist (l : list Z) : LatencyMetrics := fold_left (fun h us => record_sample us h) l new_latency.

Definition cnt (i : nat) (l : list Z) : Z := Z.of_nat (length (filter (fun us => LatencyBucketIndex us = i) l)).
Definition below (i : nat) (l : list Z) : Z := Z.of_nat (length (filter (fun us => (LatencyBucketIndex us < i)%nat) l)).
Definition histogram (l : list Z) : list Z := (fun i => cnt i l) <$> seq 0 LATENCY_BUCKET_COUNT.

(** How many samples are under [x], and up to it. *)
Definition count_lt (x : Z) (l : list Z) : Z := Z.of_nat (length (filter (fun us => us < x) l)).
Definition count_le (x : Z) (l : list Z) : Z := Z.of_nat (length (filter (fun us => us <= x) l)).

Lemma cnt_app i l1 l2 : cnt i (l1 ++ l2) = cnt i l1 + cnt i l2.
Proof. unfold cnt. rewrite filter_app, length_app. lia. Qed.

Lemma cnt_bound i l : 0 <= cnt i l <= Z.of_nat (length l).
Proof. unfold cnt. pose proof (length_filter (fun us => LatencyBucketIndex us = i) l). lia. Qed.

Lemma histogram_nil : histogram [] = zeros LATENCY_BUCKET_COUNT.
Proof. done. Qed.

Lemma histogram_lookup l i : (i < LATENCY_BUCKET_COUNT)%nat -> histogram l !! i = Some (cnt i l).
Proof. intros Hi. unfold histogram. rewrite list_lookup_fmap, lookup_seq_lt by done. done. Qed.

Lemma length_histogram l : length (histogram l) = LATENCY_BUCKET_COUNT.
Proof. unfold histogram. by rewrite length_fmap, length_seq. Qed.

Lemma histogram_snoc l us :
  Z.of_nat (length l) + 1 < 2 ^ 64 ->
  alter (fun c => u64 (c + 1)) (LatencyBucketIndex us) (histogram l) = histogram (l ++ [us]).
Proof.
  intros Hl. apply list_eq_same_length with LATENCY_BUCKET_COUNT; [by rewrite length_histogram|by rewrite length_alter, length_histogram|].
  intros i a c Hi. rewrite (histogram_lookup (l ++ [us])) by done. intros Ha [= <-].
  assert (E : cnt i (l ++ [us]) = cnt i l + (if decide (LatencyBucketIndex us = i) then 1 else 0)).
  { rewrite cnt_app. unfold cnt at 2. rewrite filter_cons. cbn [filter]. by destruct (decide _). }
  rewrite E. pose proof (cnt_bound i l). destruct (decide (LatencyBucketIndex us = i)) as [<-|Hne].
  - rewrite list_lookup_alter_eq, histogram_lookup in Ha by done. injection Ha as <-. rewrite (wrap_small 64) by lia. lia.
  - rewrite list_lookup_alter_ne, histogram_lookup in Ha by done. injection Ha as <-. lia.
Qed.

Lemma buckets_hist l : Z.of_nat (length l) < 2 ^ 64 -> buckets (hist l) = histogram l.
Proof.
  induction l as [|us l IH] using rev_ind; intros Hl; [done|]. rewrite length_app in Hl. cbn in Hl.
  unfold hist in *. rewrite fold_left_app. cbn [fold_left record_sample buckets]. rewrite IH by lia. apply histogram_snoc. lia.
Qed.

Lemma add_histograms l1 l2 :
  Z.of_nat (length (l1 ++ l2)) < 2 ^ 64 -> add_counters (histogram l1) (histogram l2) = histogram (l1 ++ l2).
Proof.
  intros Hl. unfold add_counters, histogram. rewrite zip_with_fmap_l, zip_with_fmap_r, zip_with_diag.
  apply list_fmap_ext. intros i j _. rewrite cnt_app. apply (wrap_small 64). rewrite length_app in Hl.
  pose proof (cnt_bound j l1). pose proof (cnt_bound j l2). lia.
Qed.

Lemma sum_histograms ls : forall l0 (h0 : LatencyMetrics),
  buckets h0 = histogram l0 -> Z.of_nat (length (l0 ++ concat ls)) < 2 ^ 64 ->
  buckets (fold_left add_latency (hist <$> ls) h0) = histogram (l0 ++ concat ls).
Proof.
  induction ls as [|l ls IH]; intros l0 h0 Hh Hl; cbn; [by rewrite app_nil_r|].
  cbn in Hl. rewrite app_assoc in Hl |- *. apply IH; [|done]. cbn [add_latency buckets].
  rewrite length_app in Hl. rewrite Hh, buckets_hist by (rewrite length_app in Hl; lia). apply add_histograms. lia.
Qed.

(** ** Percentiles *)

Lemma below_S i l : below (S i) l = below i l + cnt i l.
Proof.
  unfold below, cnt. induction l as [|us l IH]; [done|]. rewrite !filter_cons.
  repeat case_decide; cbn [length] in *; lia.
Qed.

Lemma LatencyBucketIndex_lt us : (LatencyBucketIndex us < LATENCY_BUCKET_COUNT)%nat.
Proof.
  unfold LatencyBucketIndex, LATENCY_BUCKET_COUNT. destruct (us =? 0); [lia|]. cbv zeta.
  match goal with |- context [if ?x <? ?y then _ else _] => pose proof (wrap_range 32 x); destruct (Z.ltb_spec x y) end; lia.
Qed.

Lemma below_all l : below LATENCY_BUCKET_COUNT l = Z.of_nat (length l).
Proof.
  unfold below. f_equal. induction l as [|us l IH]; [done|]. rewrite filter_cons_True; [by cbn; rewrite IH|].
  apply LatencyBucketIndex_lt.
Qed.

Lemma below_zero l : below 0 l = 0.
Proof. unfold below. induction l as [|us l IH]; [done|]. rewrite filter_cons_False by lia. done. Qed.

Lemma below_bound i l : 0 <= below i l <= Z.of_nat (length l).
Proof. unfold below. pose proof (length_filter (fun us => (LatencyBucketIndex us < i)%nat) l). lia. Qed.

Lemma below_mono i j l : (i <= j)%nat -> below i l <= below j l.
Proof.
  induction 1 as [|j Hj IH]; [lia|]. rewrite below_S. pose proof (cnt_bound j l). lia.
Qed.

Lemma percentile_loop_ok l rank n : forall i,
  Z.of_nat (length l) < 2 ^ 64 -> below i l < rank <= below (i + n) l ->
  exists j, below j l < rank <= below (S j) l /\
    percentile_loop ((fun i => cnt i l) <$> seq i n) i (below i l) rank = LatencyBucketMidpointUs j.
Proof.
  induction n as [|n IH]; intros i Hl Hr; [rewrite Nat.add_0_r in Hr; lia|].
  cbn [seq fmap list_fmap percentile_loop].
  assert (Hs : u64 (below i l + cnt i l) = below (S i) l).
  { rewrite below_S. apply (wrap_small 64). pose proof (below_bound (S i) l). rewrite below_S in *. lia. }
  rewrite Hs. destruct (Z.leb_spec rank (below (S i) l)) as [Hle|Hgt].
  - exists i. split; [lia|done].
  - replace (i + 1)%nat with (S i) by lia. apply IH; [done|]. replace (S i + n)%nat with (i + S n)%nat by lia. lia.
Qed.

Lemma length_filter_mono {A} (P Q : A -> Prop) `{!forall x, Decision (P x), !forall x, Decision (Q x)} (l : list A) :
  (forall x, x ∈ l -> P x -> Q x) -> (length (filter P l) <= length (filter Q l))%nat.
Proof.
  induction l as [|x l IH]; intros Hpq; [done|]. rewrite !filter_cons.
  assert (IH' := IH (fun y Hy => Hpq y (list_elem_of_further _ _ _ Hy))).
  specialize (Hpq x (list_elem_of_here _ _)). repeat case_decide; cbn [length]; try lia. by exfalso; auto.
Qed.

(** The bucket of the sample of that rank. *)
Lemma rank_bucket l rank x j :
  sampled l -> x ∈ l -> count_lt x l < rank <= count_le x l -> below j l < rank <= below (S j) l -> LatencyBucketIndex x = j.
Proof.
  intros Hs Hx Hr Hj. unfold sampled in Hs. rewrite Forall_forall in Hs. pose proof (Hs x Hx) as Hx24.
  destruct (Nat.lt_trichotomy (LatencyBucketIndex x) j) as [Hlt|[->|Hgt]]; [|done|].
  - exfalso. assert (Hc : count_le x l <= below (S (LatencyBucketIndex x)) l).
    { unfold count_le, below. apply Nat2Z.inj_le, length_filter_mono. intros us Hus Hle. cbn.
      pose proof (bucket_monotone0 us x (Hs us Hus) Hx24 Hle). lia. }
    pose proof (below_mono (S (LatencyBucketIndex x)) j l ltac:(lia)). lia.
  - exfalso. assert (Hc : below (S j) l <= count_lt x l).
    { unfold count_lt, below. apply Nat2Z.inj_le, length_filter_mono. intros us Hus Hle. cbn in *.
      destruct (Z.lt_ge_cases us x) as [|Hge]; [done|]. pose proof (bucket_monotone0 x us Hx24 (Hs us Hus) Hge). lia. }
    lia.
Qed.

Lemma sum_counts l n : forall i,
  Z.of_nat (length l) < 2 ^ 64 ->
  fold_left (fun c b => u64 (c + b)) ((fun i => cnt i l) <$> seq i n) (below i l) = below (i + n) l.
Proof.
  induction n as [|n IH]; intros i Hl; cbn; [by rewrite Nat.add_0_r|].
  assert (Hs : u64 (below i l + cnt i l) = below (S i) l).
  { rewrite below_S. apply (wrap_small 64). pose proof (below_bound (S i) l). rewrite below_S in *. lia. }
  rewrite Hs, IH by done. f_equal. lia.
Qed.

Lemma sample_count_ok h l : buckets h = histogram l -> Z.of_nat (length l) < 2 ^ 64 -> sample_count h = Z.of_nat (length l).
Proof.
  intros Hh Hl. unfold sample_count. rewrite Hh. unfold histogram.
  rewrite <- (below_zero l), sum_counts by done. apply below_all.
Qed.

Lemma percentile_ok h l rank x :
  buckets h = histogram l -> Z.of_nat (length l) < 2 ^ 64 -> sampled l -> x ∈ l ->
  count_lt x l < rank <= count_le x l ->
  16 * Z.abs (LatencyPercentile h (sample_count h) rank - Z.max 1 x) <= x.
Proof.
  intros Hh Hl Hs Hx Hr. rewrite (sample_count_ok h l) by done. unfold LatencyPercentile.
  assert (Hlen : (0 < length l)%nat) by (destruct l; [by apply elem_of_nil in Hx|cbn; lia]).
  rewrite (proj2 (Z.eqb_neq _ _)) by lia.
  assert (H0 : 0 <= count_lt x l) by (unfold count_lt; lia). rewrite (proj2 (Z.eqb_neq rank 0)) by lia.
  assert (Hc : count_le x l <= Z.of_nat (length l)).
  { unfold count_le. pose proof (length_filter (fun us => us <= x) l). lia. }
  destruct (percentile_loop_ok l rank LATENCY_BUCKET_COUNT 0 Hl) as (j & Hj & E).
  { rewrite below_zero. cbn [Nat.add]. rewrite below_all. lia. }
  rewrite Hh. unfold histogram. rewrite below_zero in E. rewrite E.
  rewrite <- (rank_bucket l rank x j) by done. unfold sampled in Hs. rewrite Forall_forall in Hs. specialize (Hs x Hx). cbv beta in Hs.
  rewrite bucket_clamped by lia. pose proof (bucket_accuracy (Z.max 1 x) ltac:(lia)). destruct (decide (x = 0)) as [->|]; [by vm_compute|lia].
Qed.

(** C39: a percentile of the summed histograms is as good as one of the samples.  For any
    samples below the top octave recorded by any workers, the route's aggregate
    counts them all, and the percentile reported for a rank is within one
    sixteenth of the exact order statistic of that rank over all the workers'
    samples together: summing the buckets loses nothing.  (An order statistic of 0
    is reported as 1: the two share a bucket.) *)
Theorem percentile_accuracy t idx ls rank x :
  GlobalLatencyEnabled t = true -> 0 <= idx < GlobalMaxRoutes t ->
  ((fun b => routeLatency b !! Z.to_nat idx) <$> blocks t) = (fun l => Some (hist l)) <$> ls ->
  sampled (concat ls) -> Z.of_nat (length (concat ls)) < 2 ^ 64 ->
  x ∈ concat ls -> count_lt x (concat ls) < rank <= count_le x (concat ls) ->
  let h := AggregateRouteLatency idx t in
  sample_count h = Z.of_nat (length (concat ls)) /\
  16 * Z.abs (LatencyPercentile h (sample_count h) rank - Z.max 1 x) <= x.
Proof.
  intros He Hi Hb Hs Hl Hx Hr h.
  assert (Eh : buckets h = histogram (concat ls)).
  { unfold h, AggregateRouteLatency, AggregateLatency. rewrite He. cbn [negb orb].
    rewrite (proj2 (Z.leb_gt _ _)) by lia.
    assert (Em : (fun b => default new_latency (routeLatency b !! Z.to_nat idx)) <$> blocks t = hist <$> ls).
    { transitivity (default new_latency <$> ((fun b => routeLatency b !! Z.to_nat idx) <$> blocks t)); [by rewrite <- list_fmap_compose|].
      rewrite Hb, <- list_fmap_compose. done. }
    rewrite Em. apply (sum_histograms ls []); done. }
  split; [by apply sample_count_ok|by apply (percentile_ok h (concat ls))].
Qed.

Definition w_tracer : tracer :=
  let record us w t := RecordRouteLatencyUs 1 us (Tracer (blocks t) (Some w) (GlobalMaxRoutes t) (GlobalMaxEndpoints t) (GlobalLatencyEnabled t)) in
  record 1000 1%nat (record 90 0%nat (record 7 0%nat (snd (Create true 2 3 1 true no_tracer)))).

(** The median of 7, 90 and 1000, recorded by two workers. *)
Lemma percentile_accuracy_witness :
  let h := AggregateRouteLatency 1 w_tracer in
  sample_count h = 3 /\ 16 * Z.abs (LatencyPercentile h (sample_count h) 2 - Z.max 1 90) <= 90.
Proof.
  apply (percentile_accuracy w_tracer 1 [[7; 90]; [1000]] 2 90); [reflexivity|split; [lia|reflexivity]|vm_compute; reflexivity| | | |].
  - repeat constructor; lia.
  - reflexivity.
  - vm_compute. apply list_elem_of_further, list_elem_of_here.
  - split; vm_compute; [reflexivity|discriminate].
Defined.

(** ** The mapping *)

Lemma Align64_spec n : 0 <= n -> n <= Align64 n /\ Align64 n mod 64 = 0.
Proof.
  intros Hn. assert (E : Align64 n = (n + 63) / 64 * 64).
  { unfold Align64. rewrite <- Z.ldiff_land. change (Z.ldiff (n + 63) 63) with (Z.ldiff (n + 63) (Z.ones 6)).
    by rewrite Z.ldiff_ones_r, Z.shiftl_mul_pow2, Z.shiftr_div_pow2 by lia. }
  rewrite E. split; [Z.to_euclidean_division_equations; lia|]. apply Z.mod_mul. lia.
Qed.

(** What is addressed in a block. *)
Inductive slot := SWorker | SRoute (i : Z) | SEndpoint (i : Z) | SRouteLatency (i : Z) | SEndpointLatency (i : Z).

Definition slot_valid (maxRoutes maxEndpoints : Z) (latency : bool) (s : slot) : Prop :=
  match s with
  | SWorker => True
  | SRoute i => 0 <= i < maxRoutes
  | SEndpoint i => 0 <= i < maxEndpoints
  | SRouteLatency i => latency = true /\ 0 <= i < maxRoutes
  | SEndpointLatency i => latency = true /\ 0 <= i < maxEndpoints
  end.

(** [RouteSlots(worker) + i] and the like, from [GlobalBase]; and the size. *)
Definition slot_at (l : layout) (worker : Z) (s : slot) : Z :=
  worker * GlobalStride l +
  match s with
  | SWorker => 0
  | SRoute i => GlobalRouteOffset l + i * sizeof_RouteMetrics
  | SEndpoint i => GlobalEndpointOffset l + i * sizeof_EndpointMetrics
  | SRouteLatency i => GlobalLatRouteOffset l + i * sizeof_LatencyMetrics
  | SEndpointLatency i => GlobalLatEndpointOffset l + i * sizeof_LatencyMetrics
  end.

Definition slot_size (s : slot) : Z :=
  match s with
  | SWorker => sizeof_WorkerMetrics
  | SRoute _ => sizeof_RouteMetrics
  | SEndpoint _ => sizeof_EndpointMetrics
  | _ => sizeof_LatencyMetrics
  end.

Ltac unfold_slots :=
  unfold slot_at, slot_size in *;
  cbn [slot_valid GlobalStride GlobalRouteOffset GlobalEndpointOffset GlobalLatRouteOffset GlobalLatEndpointOffset] in *.

(** A slot within its block. *)
Lemma slot_in_block workers maxRoutes maxEndpoints latency s :
  0 <= maxRoutes -> 0 <= maxEndpoints -> slot_valid maxRoutes maxEndpoints latency s ->
  let l := create_layout workers maxRoutes maxEndpoints latency in
  0 <= slot_at l 0 s /\ slot_at l 0 s + slot_size s <= GlobalStride l.
Proof.
  intros Hr He Hs. unfold create_layout.
  pose proof (Align64_spec (maxRoutes * sizeof_RouteMetrics)) as A1. pose proof (Align64_spec (maxEndpoints * sizeof_EndpointMetrics)) as A2.
  pose proof (Align64_spec (maxRoutes * sizeof_LatencyMetrics)) as A3. pose proof (Align64_spec (maxEndpoints * sizeof_LatencyMetrics)) as A4.
  unfold sizeof_RouteMetrics, sizeof_EndpointMetrics, sizeof_LatencyMetrics in *.
  set (a1 := Align64 (maxRoutes * 56)) in *. set (a2 := Align64 (maxEndpoints * 136)) in *.
  set (a3 := Align64 (maxRoutes * 1544)) in *. set (a4 := Align64 (maxEndpoints * 1544)) in *. clearbody a1 a2 a3 a4.
  match goal with |- context [Layout (Align64 ?o)] => pose proof (Align64_spec o) as A5; set (st := Align64 o) in *; clearbody st end.
  unfold sizeof_WorkerMetrics in *. destruct latency, s; unfold_slots;
    unfold sizeof_WorkerMetrics, sizeof_RouteMetrics, sizeof_EndpointMetrics, sizeof_LatencyMetrics; lia.
Qed.

Lemma slots_apart workers maxRoutes maxEndpoints latency s s' :
  0 <= maxRoutes -> 0 <= maxEndpoints ->
  slot_valid maxRoutes maxEndpoints latency s -> slot_valid maxRoutes maxEndpoints latency s' -> s <> s' ->
  let l := create_layout workers maxRoutes maxEndpoints latency in
  slot_at l 0 s + slot_size s <= slot_at l 0 s' \/ slot_at l 0 s' + slot_size s' <= slot_at l 0 s.
Proof.
  intros Hr He Hs Hs' Hne. unfold create_layout.
  pose proof (Align64_spec (maxRoutes * sizeof_RouteMetrics)) as A1. pose proof (Align64_spec (maxEndpoints * sizeof_EndpointMetrics)) as A2.
  pose proof (Align64_spec (maxRoutes * sizeof_LatencyMetrics)) as A3. pose proof (Align64_spec (maxEndpoints * sizeof_LatencyMetrics)) as A4.
  unfold sizeof_RouteMetrics, sizeof_EndpointMetrics, sizeof_LatencyMetrics in *.
  set (a1 := Align64 (maxRoutes * 56)) in *. set (a2 := Align64 (maxEndpoints * 136)) in *.
  set (a3 := Align64 (maxRoutes * 1544)) in *. set (a4 := Align64 (maxEndpoints * 1544)) in *. clearbody a1 a2 a3 a4.
  assert (Hi : forall i j : Z, i <> j -> i < j \/ j < i) by lia.
  destruct s as [|i|i|i|i], s' as [|j|j|j|j]; try done; try (assert (Hij : i <> j) by congruence; destruct (Hi i j Hij));
    destruct latency; unfold_slots; try (by destruct Hs); try (by destruct Hs');
    unfold sizeof_WorkerMetrics, sizeof_RouteMetrics, sizeof_EndpointMetrics, sizeof_LatencyMetrics; lia.
Qed.

(** no two counters of the shared mapping overlap and all are inside it: the slots
    of distinct workers, distinct kinds or distinct indices occupy disjoint byte
    ranges, whether or not the latency arrays are mapped. *)
Theorem layout_disjoint workers maxRoutes maxEndpoints latency w s w' s' :
  0 <= maxRoutes -> 0 <= maxEndpoints ->
  0 <= w < workers -> 0 <= w' < workers ->
  slot_valid maxRoutes maxEndpoints latency s -> slot_valid maxRoutes maxEndpoints latency s' -> (w, s) <> (w', s') ->
  let l := create_layout workers maxRoutes maxEndpoints latency in
  (0 <= slot_at l w s /\ slot_at l w s + slot_size s <= GlobalMmapSize l) /\
  (slot_at l w s + slot_size s <= slot_at l w' s' \/ slot_at l w' s' + slot_size s' <= slot_at l w s).
Proof.
  intros Hr He Hw Hw' Hs Hs' Hne l.
  pose proof (slot_in_block workers _ _ _ s Hr He Hs) as B. pose proof (slot_in_block workers _ _ _ s' Hr He Hs') as B'.
  assert (Ha : s <> s' -> slot_at l 0 s + slot_size s <= slot_at l 0 s' \/ slot_at l 0 s' + slot_size s' <= slot_at l 0 s)
    by (intros Hd; by apply slots_apart).
  cbv zeta in B, B'. fold l in B, B'.
  assert (Hw0 : forall w s, slot_at l w s = w * GlobalStride l + slot_at l 0 s) by (intros w0 s0; unfold slot_at; lia).
  assert (Hpos : 0 <= slot_size s /\ 0 <= slot_size s') by (by destruct s, s').
  assert (Hsz : GlobalMmapSize l = workers * GlobalStride l) by done.
  rewrite Hsz, (Hw0 w s), (Hw0 w' s'). clearbody l. generalize dependent (GlobalStride l). intros st. intros.
  split; [nia|]. destruct (Z.lt_trichotomy w w') as [Hlt|[->|Hgt]]; [left; nia| |right; nia].
  assert (Hd : s <> s') by congruence. specialize (Ha Hd). lia.
Qed.

Lemma layout_disjoint_witness :
  let l := create_layout 4 100 20 true in
  (0 <= slot_at l 1 (SEndpoint 19) /\ slot_at l 1 (SEndpoint 19) + slot_size (SEndpoint 19) <= GlobalMmapSize l) /\
  (slot_at l 1 (SEndpoint 19) + slot_size (SEndpoint 19) <= slot_at l 1 (SRouteLatency 0) \/
   slot_at l 1 (SRouteLatency 0) + slot_size (SRouteLatency 0) <= slot_at l 1 (SEndpoint 19)).
Proof.
  apply (layout_disjoint 4 100 20 true 1 (SEndpoint 19) 1 (SRouteLatency 0)); first [cbn; lia|done|discriminate].
Defined.

End Metrics.
