(* ===== verification/Engine.v ===== *)
(** * The engine (engine/core_engine.cpp)

    One request from the read event to the answer: the parser's verdict, the
    connection header, the limits, CORS, public files, routing, middleware and the
    handler, and what ends them all, [HandleResponse].  It composes the components of
    the other files; the connection handler it calls is the list of calls made.

    [W] is what user code may read and write: the client's buffer and request, the
    response, the path segments and the user module's own state.  The response's
    buffer is the client's ([SetRWBuffer]), so every operation on it goes through
    [on_res].  [U] is the user module's state, [K] the address of a route's node,
    [now] and [nowUs] the clock. *)

From stdpp Require Import gmap.
From S2P Require Import Prelude Strings Constants RWBuffer Headers HttpParser HashShard RouteTrie Router.
From S2P Require Import BitmapPool IpUtils ShardMap ConnLimiter RateLimiter Response Middleware Metrics.
Import IpUtils StringUtils RWBuffer Constants.

Module Engine.

Abbreviation ClientCtx := HttpParser.ClientCtx.
Abbreviation HttpResponse := Response.HttpResponse.

(** ** Constants *)

(** [ConnectionHeader], a bit mask. *)
Definition NONE : Z := 0.
Definition CLOSE : Z := 1.
Definition KEEP_ALIVE : Z := 2.
Definition UPGRADE : Z := 4.
Definition ERROR : Z := 8.

Definition crlf : bytes := [CR; LF].

(** [WFX_HTTP_ERROR]. *)
Definition http_error (statusLine body length : bytes) : bytes :=
  lit "HTTP/1.1 " ++ statusLine ++ crlf ++
  lit "Content-Type: text/plain; charset=UTF-8" ++ crlf ++
  lit "Connection: close" ++ crlf ++
  lit "Content-Length: " ++ length ++ crlf ++ crlf ++ body.

Definition BAD_REQUEST : bytes := http_error (lit "400 Bad Request") (lit "Bad Request") (lit "11").
Definition INTERNAL_ERROR : bytes := http_error (lit "500 Internal Server Error") (lit "Internal Server Error") (lit "21").
Definition NOT_IMPLEMENTED : bytes := http_error (lit "501 Not Implemented") (lit "Not Implemented") (lit "15").
Definition CONTINUE_100 : bytes := lit "HTTP/1.1 100 Continue" ++ crlf ++ crlf.
Definition EXPECTATION_FAILED : bytes := lit "HTTP/1.1 417 Expectation Failed" ++ crlf ++ crlf.

Inductive ConnectionState := CONNECTION_CLOSE | CONNECTION_ALIVE.
#[export] Instance ConnectionState_eq_dec : EqDecision ConnectionState.
Proof. solve_decision. Defined.

Inductive RateLimitResult := ALLOWED | CONNECTION_LIMIT | REQUEST_LIMIT.

Record CORSConfig := Cors {
  enabled : bool;
  allowCredentials : bool;
  wildcardOrigin : bool;
  allowedOrigins : list bytes;
  allowedMethods : bytes;
  allowedHeaders : bytes;
  exposedHeaders : bytes;
  maxAge : bytes
}.

Record Config := MkConfig {
  net : HttpParser.NetworkConfig;
  headerTimeout : Z;
  bodyTimeout : Z;
  idleTimeout : Z;
  sendBufferIncSize : Z;
  maxSendBufferSize : Z;
  ipConfig : IpUtils.IPConfig;
  corsConfig : CORSConfig;
  publicDir : bytes
}.

(** The calls made on the connection handler. *)
Inductive event :=
| RefreshExpiry (timeout : Z)
| ResumeReceive
| Write (msg : bytes)
| WriteFile (path : bytes)
| Stream (generator : option Z).

(** ** The [Connection] header *)

Fixpoint connection_loop (fuel : nat) (header : bytes) (start : nat) (mask : Z) : Z :=
  match fuel with
  | O => mask
  | S f =>
      if (length header <=? start)%nat then mask
      else
        let e := match find_char COMMA (drop start header) with Some k => (start + k)%nat | None => length header end in
        let token := TrimView (take (e - start) (drop start header)) in
        if InsensitiveStringCompare token (lit "close") then
          if negb (Z.land mask KEEP_ALIVE =? 0) then ERROR else connection_loop f header (e + 1) (Z.lor mask CLOSE)
        else if InsensitiveStringCompare token (lit "keep-alive") then
          if negb (Z.land mask CLOSE =? 0) then ERROR else connection_loop f header (e + 1) (Z.lor mask KEEP_ALIVE)
        else if InsensitiveStringCompare token (lit "upgrade") then connection_loop f header (e + 1) (Z.lor mask UPGRADE)
        else ERROR
  end.

(** Every token takes a character. *)
Definition HandleConnectionHeader (header : bytes) : Z := connection_loop (S (length header)) header 0 NONE.

(** ** State *)

Section engine.
Context `{Allocator} {S : Type} {FM : ShardMap.FiniteMap IpUtils.WFXIpAddress Z S} {U : Type} {K : Type} `{Countable K}.
Context (inet_pton : Z -> bytes -> option bytes) (FileExists : bytes -> bool) (GetFileSize : bytes -> Z).
Context (cfg : Config).

Record W := World {
  client : ClientCtx;
  responseInfo : HttpResponse;
  connectionState : ConnectionState;
  pathSegments : RouteTrie.PathSegments;
  user : U
}.

Definition set_client c w := World c (responseInfo w) (connectionState w) (pathSegments w) (user w).
Definition set_responseInfo r w := World (client w) r (connectionState w) (pathSegments w) (user w).
Definition SetConnectionState s w := World (client w) (responseInfo w) s (pathSegments w) (user w).
Definition set_pathSegments p w := World (client w) (responseInfo w) (connectionState w) p (user w).

(** An operation on the response, whose buffer is the client's. *)
Definition on_res (f : HttpResponse -> HttpResponse) (w : W) : W :=
  let r := f (Response.set_rw (HttpParser.rwBuffer (client w)) (responseInfo w)) in
  set_responseInfo r (set_client (HttpParser.set_rwBuffer (Response.rwBuffer_ r) (client w)) w).

(** A route's callback, [shared/abis/types.hpp]. *)
Inductive RouteCallback :=
| RouteSync (f : W -> W)
| RouteAsync (start : W -> (Middleware.AsyncResult + Middleware.frame W) * W).

Abbreviation TrieNode := (RouteTrie.TrieNode RouteCallback).
Context (node_ptr : TrieNode -> K).

(** The engine and one client. *)
Record Ctx := mkCtx {
  cx : Middleware.Ctx W;
  routeNode_ : option TrieNode;
  connInfo : IpUtils.WFXIpAddress;
  ipAcquired : bool;
  rateLimiterAcquired : bool;
  routeStartUs : Z;
  middleware_ : Middleware.HttpMiddleware W K;
  router_ : Router.Router RouteCallback;
  connectionLimiter_ : S;
  requestRateLimiter_ : RateLimiter.limiter S;
  metrics : Metrics.tracer;
  calls : list event
}.

Definition set_cx x c := mkCtx x (routeNode_ c) (connInfo c) (ipAcquired c) (rateLimiterAcquired c) (routeStartUs c)
  (middleware_ c) (router_ c) (connectionLimiter_ c) (requestRateLimiter_ c) (metrics c) (calls c).
Definition set_node n c := mkCtx (cx c) n (connInfo c) (ipAcquired c) (rateLimiterAcquired c) (routeStartUs c)
  (middleware_ c) (router_ c) (connectionLimiter_ c) (requestRateLimiter_ c) (metrics c) (calls c).
Definition set_start t c := mkCtx (cx c) (routeNode_ c) (connInfo c) (ipAcquired c) (rateLimiterAcquired c) t
  (middleware_ c) (router_ c) (connectionLimiter_ c) (requestRateLimiter_ c) (metrics c) (calls c).
Definition set_metrics m c := mkCtx (cx c) (routeNode_ c) (connInfo c) (ipAcquired c) (rateLimiterAcquired c) (routeStartUs c)
  (middleware_ c) (router_ c) (connectionLimiter_ c) (requestRateLimiter_ c) m (calls c).
Definition call e c := mkCtx (cx c) (routeNode_ c) (connInfo c) (ipAcquired c) (rateLimiterAcquired c) (routeStartUs c)
  (middleware_ c) (router_ c) (connectionLimiter_ c) (requestRateLimiter_ c) (metrics c) (calls c ++ [e]).

Definition world (c : Ctx) : W := Middleware.world (cx c).
Definition on_world (f : W -> W) (c : Ctx) : Ctx := set_cx (Middleware.set_world (f (world c)) (cx c)) c.
Definition trackAsync (c : Ctx) : Middleware.AsyncTrack := Middleware.trackAsync (cx c).
Definition set_track (t : Middleware.AsyncTrack) (c : Ctx) : Ctx := set_cx (Middleware.set_track t (cx c)) c.

(** ** Reading the request *)

Definition request (w : W) : HttpParser.HttpRequest := default HttpParser.new_request (HttpParser.requestInfo (client w)).

(** What a view into the read buffer holds. *)
Definition read_view (w : W) (v : HttpHeaders.view) : bytes :=
  match readBuffer_ (HttpParser.rwBuffer (client w)) with
  | Some b => HttpHeaders.view_bytes (b_base b) (b_mem b) v
  | None => []
  end.

Definition req_path (w : W) : bytes := read_view w (HttpParser.path (request w)).
Definition req_headers (w : W) : list (bytes * bytes) :=
  map (fun h => (read_view w h.1, read_view w h.2)) (HttpParser.headers (request w)).
Definition GetHeader (w : W) (name : bytes) : bytes := HttpHeaders.GetHeader id [] name (req_headers w).

(** ** Response helpers *)

Definition inc := sendBufferIncSize cfg.
Definition max := maxSendBufferSize cfg.

Definition HandleError (code : Z) (message headerKey headerValue : bytes) (w : W) : W :=
  let close := bool_decide (connectionState w = CONNECTION_CLOSE) in
  let w := on_res (Response.SetShouldClose close) w in
  if (length headerKey =? 0)%nat then on_res (Response.AbortWithError inc max code message) w
  else
    on_res (Response.SendText inc max message)
      (on_res (Response.WriteStatus inc max code) (on_res (Response.WriteHeader inc max headerKey headerValue) w)).

Fixpoint allow_loop (methods : list HttpMethod) (allow : bytes) : bytes :=
  match methods with
  | [] => allow
  | m :: methods =>
      allow_loop methods ((match allow with [] => allow | _ => allow ++ lit ", " end) ++ HttpMethodToStringView m)
  end.

Definition BuildAllowList (c : Ctx) (path : bytes) : bytes := allow_loop (Router.MethodsAt (router_ c) path) [].

Definition FinishRequest (c : Ctx) : Ctx :=
  call (RefreshExpiry (idleTimeout cfg))
    (on_world (fun w => set_client (HttpParser.SetParseState HttpParser.PARSE_IDLE (client w)) w) c).

(** ** Metrics *)

(** Fields of [RouteMetrics]. *)
Definition bump (field : nat) (v : Z) (cs : Metrics.counters) : Metrics.counters := alter (fun x => u64 (x + v)) field cs.
Definition in_range (code lo : Z) : Z := Z.b2z ((lo <=? code) && (code <? lo + 100)).

Definition RecordRouteMetrics (nowUs : Z) (c : Ctx) : Ctx :=
  match routeNode_ c with
  | None => c
  | Some node =>
      let idx := RouteTrie.metricsIdx node in
      let t := metrics c in
      if (Metrics.GlobalMaxRoutes t <=? idx) || negb (bool_decide (is_Some (Metrics.GlobalWorkerIndex t))) then c
      else
        let code := Response.status_ (responseInfo (world c)) in
        let count cs :=
          bump 5 (in_range code 500) (bump 4 (in_range code 400) (bump 3 (in_range code 300)
            (bump 2 (in_range code 200) (bump 1 (in_range code 100) (bump 0 1 cs))))) in
        let out cs := match writeBuffer_ (HttpParser.rwBuffer (client (world c))) with
                      | Some b => bump 6 (b_dataLength b) cs
                      | None => cs
                      end in
        let t := Metrics.on_route idx (fun cs => out (count cs)) t in
        let t := if routeStartUs c =? 0 then t else Metrics.RecordRouteLatencyUs idx (u64 (nowUs - routeStartUs c)) t in
        set_metrics t c
  end.

(** ** The end of every request *)

Definition HandleResponse (nowUs : Z) (c : Ctx) : Ctx :=
  let c := on_world (on_res (fun res => if Response.IsCommitted res then res else Response.Commit inc max res)) c in
  let c := RecordRouteMetrics nowUs c in
  let res := responseInfo (world c) in
  if Response.IsFile res then
    call (WriteFile (Response.filePath_ res)) (on_world (on_res (Response.set_file [])) c)
  else if Response.IsGenStream res then
    let '(gen, res) := Response.TakeGenerator res in
    call (Stream gen) (on_world (set_responseInfo res) c)
  else call (Write []) c.

(** The failure branch of [OnCoroutineComplete] inside a call, and after one. *)
Definition inline_failure (w : W) : W :=
  HandleError 500 (lit "Inline Async Failure") [] [] (SetConnectionState CONNECTION_CLOSE w).
Definition resumed_failure (w : W) : W :=
  HandleError 500 (lit "Async Failure") [] [] (SetConnectionState CONNECTION_CLOSE w).

Definition respond (nowUs : Z) (c : Ctx) : Ctx := HandleResponse nowUs (FinishRequest c).

(** [node->callback], from [HandleSuccess]. *)
Definition run_route (nowUs : Z) (node : TrieNode) (c : Ctx) : Ctx :=
  match RouteTrie.callback node with
  | None => c
  | Some (RouteSync f) => respond nowUs (on_world f c)
  | Some (RouteAsync start) =>
      let '(doneInline, x) := Middleware.start_async inline_failure start (cx c) in
      if doneInline then respond nowUs (set_cx x c) else FinishRequest (set_cx x c)
  end.

Definition HandleSuccess (nowUs : Z) (c : Ctx) : Ctx :=
  match routeNode_ c with
  | None => c
  | Some node =>
      let eLevel := Middleware.GetELevel (trackAsync c) in
      if eLevel =? Middleware.RESPONSE then respond nowUs c
      else if eLevel =? Middleware.MIDDLEWARE then
        match Middleware.ExecuteMiddleware inline_failure (middleware_ c) (Some (node_ptr node)) (cx c) with
        | (Middleware.MwResult false isAsync isBroken, x) =>
            let c := set_cx x c in
            if isBroken then respond nowUs c
            else if negb isAsync then
              respond nowUs (on_world (fun w => HandleError 500 (lit "Middleware Execution Failure") [] []
                                                  (SetConnectionState CONNECTION_CLOSE w)) c)
            else FinishRequest c
        | (_, x) =>
            let c := set_cx x c in
            run_route nowUs node (set_track (Middleware.SetELevel Middleware.RESPONSE (trackAsync c)) c)
        end
      else run_route nowUs node c
  end.

(** [OnCoroutineComplete] from the event loop; the branch for a completion inside
    the starting call is [Middleware.OnCoroutineComplete_inline]. *)
Definition OnCoroutineComplete (nowUs : Z) (r : Middleware.AsyncResult) (c : Ctx) : Ctx :=
  if negb (Middleware.completed r) then HandleResponse nowUs (on_world resumed_failure c)
  else if Middleware.GetELevel (trackAsync c) =? Middleware.MIDDLEWARE then
    HandleSuccess nowUs (set_track (Middleware.SetMAction (Middleware.action r) (trackAsync c)) c)
  else HandleResponse nowUs c.

(** The event loop finishing the suspended coroutine. *)
Definition resume (nowUs : Z) (k : Middleware.frame W) (c : Ctx) : Ctx :=
  let '(r, w) := k (world c) in
  OnCoroutineComplete nowUs r (set_cx (Middleware.set_suspended None (Middleware.set_world w (cx c))) c).

(** ** Limits *)

Definition set_limits (info : WFXIpAddress) (ip rl : bool) (cl : S) (rr : RateLimiter.limiter S) (c : Ctx) : Ctx :=
  mkCtx (cx c) (routeNode_ c) info ip rl (routeStartUs c) (middleware_ c) (router_ c) cl rr (metrics c) (calls c).

(** Counting the connection, once. *)
Definition acquire_connection (c : Ctx) : outcome (Ctx * bool) :=
  if ipAcquired c then Ret (c, true)
  else
    let info := IpUtils.ResolveClientIp inet_pton (connInfo c) (req_headers (world c)) (ipConfig cfg) in
    let* x := ConnLimiter.AllowConnection (ipConfig cfg) info (connectionLimiter_ c) in
    let '(cl, allowed) := x in
    Ret (set_limits info allowed (rateLimiterAcquired c) cl (requestRateLimiter_ c) c, allowed).

Definition acquire_rate (now : Z) (c : Ctx) : outcome (Ctx * bool) :=
  if rateLimiterAcquired c then Ret (c, true)
  else
    let* x := RateLimiter.Acquire (ipConfig cfg) now (connInfo c) (requestRateLimiter_ c) in
    let '(rr, acquired) := x in
    Ret (set_limits (connInfo c) (ipAcquired c) acquired (connectionLimiter_ c) rr c, acquired).

Definition AllowRequest (now : Z) (c : Ctx) : outcome (Ctx * RateLimitResult) :=
  let* x := acquire_connection c in
  let '(c, ok) := x in
  if negb ok then Ret (c, CONNECTION_LIMIT)
  else
    let* x := acquire_rate now c in
    let '(c, ok) := x in
    if negb ok then Ret (c, REQUEST_LIMIT)
    else
      let* x := RateLimiter.AllowRequest (ipConfig cfg) now (connInfo c) (requestRateLimiter_ c) in
      let '(rr, allowed) := x in
      Ret (set_limits (connInfo c) (ipAcquired c) (rateLimiterAcquired c) (connectionLimiter_ c) rr c,
           if allowed then ALLOWED else REQUEST_LIMIT).

Definition HandleClose (c : Ctx) : outcome Ctx :=
  let* cl := if ipAcquired c then ConnLimiter.ReleaseConnection (connInfo c) (connectionLimiter_ c) else Ret (connectionLimiter_ c) in
  let* rr := if rateLimiterAcquired c then RateLimiter.Release (connInfo c) (requestRateLimiter_ c) else Ret (requestRateLimiter_ c) in
  Ret (set_limits (connInfo c) (ipAcquired c) (rateLimiterAcquired c) cl rr c).

(** ** CORS and OPTIONS *)

Definition persistent (key value : bytes) : W -> W := on_res (Response.WritePersistentHeader inc max key value).
Definition header (key value : bytes) : W -> W := on_res (Response.WriteHeader inc max key value).

(** 204 without a body. *)
Definition no_content (w : W) : W := on_res (Response.Commit inc max) (on_res (Response.WriteStatus inc max 204) w).

(** Whether the request is answered, and the world. *)
Definition HandleCors (w : W) : bool * W :=
  let cors := corsConfig cfg in
  if negb (enabled cors) then (false, w)
  else
    let origin := GetHeader w (lit "Origin") in
    if (length origin =? 0)%nat then (false, w)
    else if negb (wildcardOrigin cors) && negb (bool_decide (origin ∈ allowedOrigins cors)) then (false, w)
    else
      let w1 := persistent (lit "Vary") (lit "Origin") w in
      let w1 := persistent (lit "Access-Control-Allow-Origin") (if wildcardOrigin cors then lit "*" else origin) w1 in
      let w1 := if allowCredentials cors then persistent (lit "Access-Control-Allow-Credentials") (lit "true") w1 else w1 in
      let w1 := if (length (exposedHeaders cors) =? 0)%nat then w1
                else persistent (lit "Access-Control-Expose-Headers") (exposedHeaders cors) w1 in
      if negb (bool_decide (HttpParser.method (request w) = OPTIONS)) then (false, w1)
      else if (length (GetHeader w (lit "Access-Control-Request-Method")) =? 0)%nat then (false, w1)
      else
        let w1 := header (lit "Access-Control-Allow-Methods") (allowedMethods cors) w1 in
        let requestedHeaders := GetHeader w (lit "Access-Control-Request-Headers") in
        let w1 := if negb (length (allowedHeaders cors) =? 0)%nat
                  then header (lit "Access-Control-Allow-Headers") (allowedHeaders cors) w1
                  else if negb (length requestedHeaders =? 0)%nat
                  then header (lit "Access-Control-Allow-Headers") requestedHeaders w1
                  else w1 in
        (true, no_content (header (lit "Access-Control-Max-Age") (maxAge cors) w1)).

Definition HandleGenericOptions (c : Ctx) : bool * Ctx :=
  let w := world c in
  if negb (bool_decide (HttpParser.method (request w) = OPTIONS)) then (false, c)
  else
    let allow := BuildAllowList c (req_path w) in
    if (length allow =? 0)%nat then (false, c)
    else (true, on_world (fun w => no_content (header (lit "Allow") allow w)) c).

(** ** A request *)

Definition PUBLIC : bytes := lit "/public/".

Definition error (code : Z) (message headerKey headerValue : bytes) : Ctx -> Ctx :=
  on_world (HandleError code message headerKey headerValue).

(** After the limits let it through: CORS, public files, routing. *)
Definition route_request (nowUs : Z) (c : Ctx) : Ctx :=
  match HandleCors (world c) with
  | (true, w) => respond nowUs (on_world (fun _ => w) c)
  | (false, w) =>
      let c := on_world (fun _ => w) c in
      let path := req_path w in
      if bool_decide (take (length PUBLIC) path = PUBLIC) then
        respond nowUs (on_world (on_res (Response.SendFile inc max FileExists GetFileSize (publicDir cfg ++ drop 7 path) true)) c)
      else
        match Router.MatchRoute (router_ c) (HttpParser.method (request w)) path (pathSegments w) with
        | (Some node, segs) => HandleSuccess nowUs (set_node (Some node) (on_world (set_pathSegments segs) c))
        | (None, segs) =>
            let c := on_world (set_pathSegments segs) c in
            match HandleGenericOptions c with
            | (true, c) => respond nowUs c
            | (false, c) =>
                let allow := BuildAllowList c path in
                if negb (length allow =? 0)%nat
                then respond nowUs (error 405 (lit "405: Method not allowed") (lit "Allow") allow c)
                else respond nowUs (error 404 (lit "404: Route not found :(") [] [] c)
            end
        end
  end.

(** [SetConnectionState(CONNECTION_CLOSE); Write(msg)] *)
Definition refuse (msg : bytes) (c : Ctx) : Ctx := call (Write msg) (on_world (SetConnectionState CONNECTION_CLOSE) c).

(** [PARSE_SUCCESS]. *)
Definition dispatch (now nowUs : Z) (c : Ctx) : outcome Ctx :=
  let c := set_track (Middleware.track_of_bytes 0) c in
  let c := if Metrics.GlobalLatencyEnabled (metrics c) then set_start nowUs c else c in
  let w := world c in
  let connMask := HandleConnectionHeader (GetHeader w (lit "Connection")) in
  if negb (Z.land connMask ERROR =? 0) then Ret (refuse BAD_REQUEST c)
  else
    let version := HttpParser.version (request w) in
    let shouldClose := if connMask =? NONE then bool_decide (version = HTTP_1_0) else negb (Z.land connMask CLOSE =? 0) in
    let c := on_world (SetConnectionState (if shouldClose then CONNECTION_CLOSE else CONNECTION_ALIVE)) c in
    let rw := HttpParser.rwBuffer (client (world c)) in
    match (if bool_decide (is_Some (writeBuffer_ rw)) then (true, rw) else InitWriteBuffer (maxSendBufferSize cfg) rw) with
    | (false, _) => Ret (refuse INTERNAL_ERROR c)
    | (true, rw) =>
        let c := on_world (fun w => set_client (HttpParser.set_rwBuffer rw (client w)) w) c in
        let c := on_world (on_res (fun res => Response.SetShouldClose shouldClose (Response.SetVersion version (Response.Reset res)))) c in
        let* x := AllowRequest now c in
        match x with
        | (c, CONNECTION_LIMIT) => Ret (respond nowUs (error 503 (lit "503: Connection limit exceeded") [] [] c))
        | (c, REQUEST_LIMIT) => Ret (respond nowUs (error 429 (lit "429: Rate limit exceeded") (lit "Retry-After") (lit "1") c))
        | (c, ALLOWED) => Ret (route_request nowUs c)
        end
    end.

(** [HttpParser::Parse(ctx)], [trackBytes] being the union with [trackAsync]. *)
Definition parse (c : Ctx) : HttpParser.HttpParseState * Ctx :=
  let cl := HttpParser.set_trackBytes (Middleware.bytes_of_track (trackAsync c)) (client (world c)) in
  let '(state, cl) := HttpParser.Parse (net cfg) cl in
  (state, set_track (Middleware.track_of_bytes (HttpParser.trackBytes cl)) (on_world (set_client cl) c)).

Definition alive : Ctx -> Ctx := on_world (SetConnectionState CONNECTION_ALIVE).

Definition HandleRequest (now nowUs : Z) (c : Ctx) : outcome Ctx :=
  let '(state, c) := parse c in
  match state with
  | HttpParser.PARSE_INCOMPLETE_HEADERS => Ret (call ResumeReceive (call (RefreshExpiry (headerTimeout cfg)) (alive c)))
  | HttpParser.PARSE_INCOMPLETE_BODY => Ret (call ResumeReceive (call (RefreshExpiry (bodyTimeout cfg)) (alive c)))
  | HttpParser.PARSE_EXPECT_100 => Ret (call (Write CONTINUE_100) (call (RefreshExpiry (bodyTimeout cfg)) (alive c)))
  | HttpParser.PARSE_EXPECT_417 => Ret (refuse EXPECTATION_FAILED c)
  | HttpParser.PARSE_SUCCESS => dispatch now nowUs c
  | HttpParser.PARSE_ERROR => Ret (refuse BAD_REQUEST c)
  | _ => Ret (refuse NOT_IMPLEMENTED c)
  end.

(** ** Specification *)

(** Setting the parser idle, all [FinishRequest] does to the world. *)
Definition idle (w : W) : W := set_client (HttpParser.SetParseState HttpParser.PARSE_IDLE (client w)) w.

(** A handler whose coroutine runs to its end at once. *)
Definition handler_effect (node : TrieNode) (w : W) : W :=
  match RouteTrie.callback node with
  | None => w
  | Some (RouteSync f) => f w
  | Some (RouteAsync start) =>
      match start w with
      | (inl r, w) => if Middleware.completed r then w else inline_failure w
      | (inr k, w) => let '(r, w) := k (idle w) in if Middleware.completed r then w else resumed_failure w
      end
  end.

(** The chain, then the handler unless the chain stopped. *)
Definition spec_serve (m : Middleware.HttpMiddleware W K) (node : TrieNode) (w : W) : W :=
  match Middleware.spec_chain inline_failure resumed_failure idle (Middleware.middlewareGlobalCallbacks_ m)
          (default [] (Middleware.per_route (Some (node_ptr node)) m)) w with
  | (true, w) => w
  | (false, w) => handler_effect node w
  end.

(** What is handed to the connection, and the world left. *)
Definition sent (w : W) : event * W :=
  let w := on_res (fun res => if Response.IsCommitted res then res else Response.Commit inc max res) w in
  let res := responseInfo w in
  if Response.IsFile res then (WriteFile (Response.filePath_ res), on_res (Response.set_file []) w)
  else if Response.IsGenStream res then (Stream (Response.stream_ res), set_responseInfo (Response.TakeGenerator res).2 w)
  else (Write [], w).

(** Every suspension resumed. *)
Fixpoint complete (nowUs : Z) (fuel : nat) (c : Ctx) : option Ctx :=
  match Middleware.suspended (cx c) with
  | None => Some c
  | Some k => match fuel with O => None | Datatypes.S f => complete nowUs f (resume nowUs k c) end
  end.

(** An event that ends a step of the connection: an answer, or waiting for more. *)
Definition terminal (e : event) : bool := match e with RefreshExpiry _ => false | _ => true end.

(** [c'] is [c] answered with [w], refreshing the timer [n] times on the way. *)
Definition answered (c c' : Ctx) (w : W) : Prop :=
  Middleware.suspended (cx c') = None /\
  (world c' = (sent w).2 \/ world c' = idle (sent w).2) /\
  exists n, calls c' = calls c ++ replicate n (RefreshExpiry (idleTimeout cfg)) ++ [(sent w).1].

(** ** Lemmas *)

Lemma RecordRouteMetrics_frame n c :
  cx (RecordRouteMetrics n c) = cx c /\ calls (RecordRouteMetrics n c) = calls c.
Proof. unfold RecordRouteMetrics. destruct (routeNode_ c); [|done]. by destruct (_ || _). Qed.

Lemma HandleResponse_sent n c :
  Middleware.suspended (cx (HandleResponse n c)) = Middleware.suspended (cx c) /\
  world (HandleResponse n c) = (sent (world c)).2 /\ calls (HandleResponse n c) = calls c ++ [(sent (world c)).1].
Proof.
  unfold HandleResponse, sent. set (w := on_res _ (world c)). cbv zeta.
  set (c1 := on_world _ c). destruct (RecordRouteMetrics_frame n c1) as [Ex Ec]. set (c2 := RecordRouteMetrics n c1) in *.
  assert (Ew : world c2 = w) by (unfold world; rewrite Ex; done). rewrite !Ew.
  destruct (Response.IsFile (responseInfo w)); [|destruct (Response.IsGenStream (responseInfo w))]; cbn;
    rewrite ?Ex, ?Ec, ?Ew; unfold world in *; rewrite ?Ew; done.
Qed.

Lemma answered_now n c w :
  Middleware.suspended (cx c) = None -> world c = w -> answered c (HandleResponse n c) w.
Proof.
  intros Hs Hw. destruct (HandleResponse_sent n c) as (E1 & E2 & E3). rewrite Hw in *. split; [congruence|]. split; [by left|].
  by exists 0%nat.
Qed.

Lemma on_res_idle f w : on_res f (idle w) = idle (on_res f w).
Proof. done. Qed.

Lemma sent_idle w : sent (idle w) = ((sent w).1, idle (sent w).2).
Proof.
  unfold sent. rewrite !on_res_idle. set (w1 := on_res _ w). cbn [responseInfo idle set_client].
  change (responseInfo (idle w1)) with (responseInfo w1).
  destruct (Response.IsFile (responseInfo w1)); [done|]. by destruct (Response.IsGenStream (responseInfo w1)).
Qed.

Lemma idle_idle w : idle (idle w) = idle w.
Proof. done. Qed.

(** Answering a world, or the same world with the parser already idle. *)
Lemma answered_weaken c0 c c' w :
  (exists m, calls c = calls c0 ++ replicate m (RefreshExpiry (idleTimeout cfg))) ->
  answered c c' w \/ answered c c' (idle w) -> answered c0 c' w.
Proof.
  intros [m Hm] Ha.
  assert (Hb : forall w', (w' = w \/ w' = idle w) -> answered c c' w' -> answered c0 c' w).
  { intros w' Hw' (Hs & Hw & n & Hn). split; [done|]. split.
    - destruct Hw' as [->| ->]; [done|]. rewrite sent_idle in Hw. cbn [snd] in Hw. rewrite idle_idle in Hw. right. by destruct Hw.
    - exists (m + n)%nat. rewrite Hn, Hm, replicate_add, <- !app_assoc. do 3 f_equal. f_equal.
      destruct Hw' as [->| ->]; [done|]. by rewrite sent_idle. }
  destruct Ha as [Ha|Ha]; [apply (Hb w); [by left|done]|apply (Hb (idle w)); [by right|done]].
Qed.

Lemma respond_answered n c w :
  Middleware.suspended (cx c) = None -> world c = w -> answered c (respond n c) w.
Proof.
  intros Hs Hw. apply (answered_weaken c (FinishRequest c)); [by exists 1%nat|].
  right. apply answered_now; [done|]. unfold FinishRequest, world, on_world in *. cbn. by rewrite <- Hw.
Qed.

Lemma complete_done n fuel c : Middleware.suspended (cx c) = None -> complete n fuel c = Some c.
Proof. intros Hs. destruct fuel; cbn; by rewrite Hs. Qed.

(** A failed or finished coroutine outside the chain. *)
Lemma OnCoroutineComplete_route n r c :
  Middleware.suspended (cx c) = None -> Middleware.GetELevel (trackAsync c) = Middleware.RESPONSE ->
  answered c (OnCoroutineComplete n r c) (if Middleware.completed r then world c else resumed_failure (world c)).
Proof.
  intros Hs He. unfold OnCoroutineComplete. rewrite He. change (Middleware.RESPONSE =? Middleware.MIDDLEWARE) with false.
  destruct (Middleware.completed r); cbn [negb]; [by apply answered_now|].
  apply (answered_weaken c (on_world resumed_failure c)); [by exists 0%nat; rewrite app_nil_r|]. left. by apply answered_now.
Qed.

Lemma run_route_ok n node c fuel :
  RouteTrie.callback node <> None -> Middleware.suspended (cx c) = None ->
  Middleware.GetELevel (trackAsync c) = Middleware.RESPONSE -> (1 <= fuel)%nat ->
  exists c', complete n fuel (run_route n node c) = Some c' /\ answered c c' (handler_effect node (world c)).
Proof.
  intros Hcb Hs He Hf. unfold run_route, handler_effect. destruct (RouteTrie.callback node) as [[f|start]|]; [| |done].
  - pose proof (respond_answered n (on_world f c) _ Hs eq_refl) as Ha. exists (respond n (on_world f c)).
    split; [apply complete_done; apply Ha|exact Ha].
  - pose proof (Middleware.start_async_ok inline_failure start (cx c)) as Hst.
    destruct (Middleware.start_async inline_failure start (cx c)) as [done x].
    destruct Hst as (Hl & _ & Hst). fold (world c) in Hst. destruct (start (world c)) as [[r|k] w].
    + destruct Hst as (-> & Hsx & Hset & _). rewrite Hs in Hsx. pose proof (respond_answered n (set_cx x c) _ Hsx eq_refl) as Ha.
      exists (respond n (set_cx x c)). split; [apply complete_done; apply Ha|].
      assert (Ew : world (set_cx x c) = if Middleware.completed r then w else inline_failure w)
        by (unfold Middleware.settle in Hset; unfold world; cbn; destruct (Middleware.completed r); by injection Hset).
      rewrite <- Ew. exact Ha.
    + destruct Hst as (-> & Hsx & Hw). set (c1 := FinishRequest (set_cx x c)).
      assert (Hs1 : Middleware.suspended (cx c1) = Some k) by (unfold c1; cbn; exact Hsx).
      destruct fuel as [|fuel]; [lia|]. cbn [complete]. rewrite Hs1. unfold resume.
      assert (Ew : world c1 = idle w) by (unfold c1, FinishRequest, on_world, world; cbn; unfold world; cbn; by rewrite Hw).
      rewrite Ew. destruct (k (idle w)) as [r w'].
      set (c2 := set_cx (Middleware.set_suspended None (Middleware.set_world w' (cx c1))) c1).
      assert (He2 : Middleware.GetELevel (trackAsync c2) = Middleware.RESPONSE).
      { rewrite <- He. apply Middleware.GetELevel_levels. unfold c2, c1, trackAsync. cbn. exact Hl. }
      pose proof (OnCoroutineComplete_route n r c2 eq_refl He2) as Ha.
      eexists. split; [apply complete_done; apply Ha|].
      apply (answered_weaken c c2); [by exists 1%nat|]. left. exact Ha.
Qed.

(** *** The chain and the handler *)

Abbreviation stage c node := (Middleware.stage_stack (middleware_ c) (Some (node_ptr node)) (cx c)).
Abbreviation rest c node := (Middleware.chain_rest inline_failure resumed_failure idle (middleware_ c) (Some (node_ptr node)) (cx c)).
Abbreviation left c node := (Middleware.left_over (middleware_ c) (Some (node_ptr node)) (cx c)).

Definition small_stacks (m : Middleware.HttpMiddleware W K) (node : TrieNode) : Prop :=
  Middleware.small (Middleware.middlewareGlobalCallbacks_ m) /\ Middleware.small (default [] (Middleware.per_route (Some (node_ptr node)) m)).

Lemma HandleSuccess_ok nowUs node fuel : forall c,
  routeNode_ c = Some node -> RouteTrie.callback node <> None ->
  Middleware.GetELevel (trackAsync c) = Middleware.MIDDLEWARE -> Middleware.suspended (cx c) = None ->
  small_stacks (middleware_ c) node -> Middleware.in_stack (stage c node) (cx c) -> (left c node <= fuel)%nat ->
  exists c', complete nowUs (Datatypes.S fuel) (HandleSuccess nowUs c) = Some c' /\
    answered c c' (if (rest c node).1 then (rest c node).2 else handler_effect node (rest c node).2).
Proof.
  induction fuel as [fuel IH] using lt_wf_ind. intros c Hn Hcb He Hs Hsm Hin Hl.
  unfold HandleSuccess. rewrite Hn, He. change (Middleware.MIDDLEWARE =? Middleware.RESPONSE) with false.
  change (Middleware.MIDDLEWARE =? Middleware.MIDDLEWARE) with true. cbv iota.
  destruct (Middleware.ExecuteMiddleware_ok inline_failure resumed_failure idle (middleware_ c) (Some (node_ptr node))
              (proj1 Hsm) (proj2 Hsm) (cx c) Hin) as [HE HX].
  destruct (Middleware.ExecuteMiddleware inline_failure (middleware_ c) (Some (node_ptr node)) (cx c)) as [[[] async []] x] eqn:EX;
    cbn [snd] in HE.
  - destruct HX as [Hsx ->]. cbn [fst snd].
    destruct (run_route_ok nowUs node (set_track (Middleware.SetELevel Middleware.RESPONSE (trackAsync (set_cx x c))) (set_cx x c)) (Datatypes.S fuel))
      as (c' & Hc & Ha); [done|by cbn; rewrite Hsx|apply Middleware.GetELevel_RESPONSE|lia|].
    exists c'. split; [exact Hc|]. exact Ha.
  - destruct HX as [Hsx ->]. cbn [fst snd].
    destruct (run_route_ok nowUs node (set_track (Middleware.SetELevel Middleware.RESPONSE (trackAsync (set_cx x c))) (set_cx x c)) (Datatypes.S fuel))
      as (c' & Hc & Ha); [done|by cbn; rewrite Hsx|apply Middleware.GetELevel_RESPONSE|lia|].
    exists c'. split; [exact Hc|]. exact Ha.
  - destruct HX as [Hsx ->]. cbn [fst snd].
    assert (Hsx' : Middleware.suspended (cx (set_cx x c)) = None) by (cbn; by rewrite Hsx).
    pose proof (respond_answered nowUs (set_cx x c) _ Hsx' eq_refl) as Ha.
    exists (respond nowUs (set_cx x c)). split; [apply complete_done; apply Ha|exact Ha].
  - destruct HX as (-> & k & Hk & HX). cbn [negb]. cbv iota.
    set (c1 := FinishRequest (set_cx x c)). assert (Hs1 : Middleware.suspended (cx c1) = Some k) by (unfold c1; cbn; exact Hk).
    cbn [complete]. rewrite Hs1. unfold resume.
    assert (Ew : world c1 = idle (Middleware.world x)) by done. rewrite Ew.
    destruct (k (idle (Middleware.world x))) as [r w']. destruct HX as (Hin2 & Hl2 & ->).
    set (c2 := set_cx (Middleware.set_suspended None (Middleware.set_world w' (cx c1))) c1).
    assert (Hc2 : exists m, calls c2 = calls c ++ replicate m (RefreshExpiry (idleTimeout cfg))) by (by exists 1%nat).
    unfold OnCoroutineComplete. destruct (Middleware.completed r); cbn [negb].
    + assert (He2 : Middleware.GetELevel (trackAsync c2) = Middleware.MIDDLEWARE) by (rewrite <- He; exact HE).
      rewrite He2. change (Middleware.MIDDLEWARE =? Middleware.MIDDLEWARE) with true. cbv iota.
      set (c3 := set_track _ c2). destruct fuel as [|fuel]; [lia|].
      assert (Hl3 : (left c3 node <= fuel)%nat) by exact (proj1 (Nat.lt_succ_r _ _) (Nat.lt_le_trans _ _ _ Hl2 Hl)).
      destruct (IH fuel ltac:(lia) c3 Hn Hcb He2 eq_refl Hsm Hin2 Hl3) as (c' & Hc & Ha).
      exists c'. split; [exact Hc|]. apply (answered_weaken c c3); [exact Hc2|]. left. exact Ha.
    + pose proof (answered_now nowUs (on_world resumed_failure c2) _ eq_refl eq_refl) as Ha. eexists. split; [apply complete_done; apply Ha|].
      apply (answered_weaken c (on_world resumed_failure c2)); [exact Hc2|]. left. exact Ha.
Qed.

(** From the first entry, the answer is the specification's. *)
Lemma HandleSuccess_spec nowUs node c :
  routeNode_ c = Some node -> RouteTrie.callback node <> None -> trackAsync c = Middleware.track_of_bytes 0 ->
  Middleware.suspended (cx c) = None -> small_stacks (middleware_ c) node ->
  let m := middleware_ c in
  exists c', complete nowUs (Datatypes.S (length (Middleware.middlewareGlobalCallbacks_ m) +
                                length (default [] (Middleware.per_route (Some (node_ptr node)) m)))) (HandleSuccess nowUs c) = Some c' /\
    answered c c' (spec_serve m node (world c)).
Proof.
  intros Hn Hcb Ht Hs Hsm m.
  assert (El : Middleware.GetMLevel (Middleware.trackAsync (cx c)) = Middleware.GLOBAL) by (fold (trackAsync c); by rewrite Ht).
  assert (Em : Middleware.mIndex (Middleware.trackAsync (cx c)) = 0) by (fold (trackAsync c); by rewrite Ht).
  destruct (HandleSuccess_ok nowUs node (length (Middleware.middlewareGlobalCallbacks_ m) +
     length (default [] (Middleware.per_route (Some (node_ptr node)) m))) c) as (c' & Hc & Ha); try done.
  - by rewrite Ht.
  - unfold Middleware.in_stack. rewrite Em. lia.
  - unfold Middleware.left_over, Middleware.stage_stack. rewrite El, Em. cbn [Z.eqb Middleware.GLOBAL]. fold m. lia.
  - exists c'. split; [exact Hc|].
    assert (E : spec_serve m node (world c) = if (rest c node).1 then (rest c node).2 else handler_effect node (rest c node).2); [|by rewrite E].
    unfold spec_serve, Middleware.spec_chain, Middleware.chain_rest, Middleware.resume_spec. rewrite El, Em. cbn [Z.eqb Middleware.GLOBAL Z.ltb Z.compare].
    fold m. fold (world c).
    destruct (Middleware.spec_stack _ _ _ (Middleware.middlewareGlobalCallbacks_ m) (world c)) as [[] w]; [done|].
    by destruct (Middleware.spec_stack _ _ _ (default [] _) w) as [[] w'].
Qed.

(** *** A request *)

Lemma MatchRoute_callback (r : Router.Router RouteCallback) meth path out node segs :
  Router.MatchRoute r meth path out = (Some node, segs) -> RouteTrie.callback node <> None.
Proof.
  unfold Router.MatchRoute. destruct (_ <=? _)%nat; [done|]. unfold RouteTrie.Match. rewrite RouteTrie.MatchNode_first.
  destruct (RouteTrie.all_matches _ _) as [|[h ps] l] eqn:E; [done|]. cbn. intros [= -> _].
  assert (Hin : (node, ps) ∈ (node, ps) :: l) by apply list_elem_of_here. rewrite <- E in Hin.
  apply RouteTrie.all_matches_spec in Hin as (pats & _ & Hc & _). exact Hc.
Qed.

(** [c'] follows [c] with one terminal event, the last, and no coroutine left. *)
Definition served (c c' : Ctx) : Prop :=
  Middleware.suspended (cx c') = None /\
  exists pre e, calls c' = calls c ++ pre ++ [e] /\ Forall (fun e => terminal e = false) pre /\ terminal e = true.

Lemma sent_terminal w : terminal (sent w).1 = true.
Proof. unfold sent. set (w1 := on_res _ w). destruct (Response.IsFile _); [done|]. by destruct (Response.IsGenStream _). Qed.

Lemma answered_served c c' w : answered c c' w -> served c c'.
Proof.
  intros (Hs & _ & n & Hc). split; [done|]. eexists _, _. split; [exact Hc|]. split; [|apply sent_terminal].
  by apply Forall_replicate.
Qed.

Lemma served_from c0 c c' : calls c = calls c0 -> served c c' -> served c0 c'.
Proof. intros E (Hs & pre & e & Hc & Hp & Ht). split; [done|]. exists pre, e. by rewrite <- E. Qed.

Lemma complete_mono n f : forall f' c c', complete n f c = Some c' -> (f <= f')%nat -> complete n f' c = Some c'.
Proof.
  induction f as [|f IH]; intros [|f'] c c' Hc Hf; cbn in *; try lia; destruct (Middleware.suspended (cx c)) as [k|]; try done.
  apply IH; [exact Hc|lia].
Qed.

(** What the limits leave alone. *)
Definition same_but_limits (c c' : Ctx) : Prop :=
  cx c' = cx c /\ calls c' = calls c /\ middleware_ c' = middleware_ c /\ router_ c' = router_ c /\ routeNode_ c' = routeNode_ c.

Lemma same_but_limits_trans c1 c2 c3 : same_but_limits c1 c2 -> same_but_limits c2 c3 -> same_but_limits c1 c3.
Proof. unfold same_but_limits. intuition congruence. Qed.

Lemma acquire_connection_frame c c' b : acquire_connection c = Ret (c', b) -> same_but_limits c c'.
Proof.
  unfold acquire_connection. destruct (ipAcquired c); [by intros [= <- _]|].
  destruct (ConnLimiter.AllowConnection _ _ _) as [[cl a]|]; [|done]. by intros [= <- _].
Qed.

Lemma acquire_rate_frame now c c' b : acquire_rate now c = Ret (c', b) -> same_but_limits c c'.
Proof.
  unfold acquire_rate. destruct (rateLimiterAcquired c); [by intros [= <- _]|].
  destruct (RateLimiter.Acquire _ _ _ _) as [[cl a]|]; [|done]. by intros [= <- _].
Qed.

Lemma AllowRequest_frame now c c' r : AllowRequest now c = Ret (c', r) -> same_but_limits c c'.
Proof.
  unfold AllowRequest. destruct (acquire_connection c) as [[c1 a]|] eqn:E1; [|done].
  pose proof (acquire_connection_frame _ _ _ E1) as F1. cbn [obind]. destruct a; [|by intros [= <- _]].
  destruct (acquire_rate now c1) as [[c2 a]|] eqn:E2; [|done].
  pose proof (same_but_limits_trans _ _ _ F1 (acquire_rate_frame _ _ _ _ E2)) as F2. cbn [obind].
  destruct a; [|by intros [= <- _]].
  destruct (RateLimiter.AllowRequest _ _ _ _) as [[rr a]|]; [|done]. by intros [= <- _].
Qed.

Context (M : nat).

Definition bounded_stacks (m : Middleware.HttpMiddleware W K) : Prop :=
  Middleware.small (Middleware.middlewareGlobalCallbacks_ m) /\ Z.of_nat M < 2 ^ 16 - 1 /\
  forall node, (length (default [] (Middleware.per_route node m)) <= M)%nat.

(** Resumptions that finish any request. *)
Definition enough (m : Middleware.HttpMiddleware W K) : nat :=
  Datatypes.S (length (Middleware.middlewareGlobalCallbacks_ m) + M).

Lemma respond_served nowUs f c0 c :
  calls c = calls c0 -> Middleware.suspended (cx c) = None ->
  exists c', complete nowUs f (respond nowUs c) = Some c' /\ served c0 c'.
Proof.
  intros Hc Hs. pose proof (respond_answered nowUs c _ Hs eq_refl) as Ha. eexists. split; [apply complete_done; apply Ha|].
  apply (served_from c0 c); [done|]. by eapply answered_served.
Qed.

Lemma HandleSuccess_served nowUs node c0 c :
  calls c = calls c0 -> routeNode_ c = Some node -> RouteTrie.callback node <> None ->
  trackAsync c = Middleware.track_of_bytes 0 -> Middleware.suspended (cx c) = None -> bounded_stacks (middleware_ c) ->
  exists c', complete nowUs (enough (middleware_ c)) (HandleSuccess nowUs c) = Some c' /\ served c0 c'.
Proof.
  intros Hc Hn Hcb Ht Hs (Hg & HM & Hp). pose proof (Hp (Some (node_ptr node))) as Hp1.
  destruct (HandleSuccess_spec nowUs node c Hn Hcb Ht Hs) as (c' & E & Ha); [by split; [|unfold Middleware.small; lia]|].
  exists c'. split; [eapply complete_mono; [exact E|unfold enough; lia]|].
  apply (served_from c0 c); [done|]. by eapply answered_served.
Qed.

Lemma route_request_served nowUs c0 c :
  calls c = calls c0 -> trackAsync c = Middleware.track_of_bytes 0 -> Middleware.suspended (cx c) = None ->
  bounded_stacks (middleware_ c) ->
  exists c', complete nowUs (enough (middleware_ c)) (route_request nowUs c) = Some c' /\ served c0 c'.
Proof.
  intros Hc Ht Hs Hb. unfold route_request. destruct (HandleCors (world c)) as [[] w]; [by apply respond_served|].
  cbv zeta. destruct (bool_decide (take _ _ = PUBLIC)); [by apply respond_served|].
  destruct (Router.MatchRoute _ _ _ _) as [[node|] segs] eqn:Em.
  - apply MatchRoute_callback in Em. by apply (HandleSuccess_served nowUs node c0 (set_node (Some node) (on_world (set_pathSegments segs) (on_world (fun _ => w) c)))).
  - unfold HandleGenericOptions. cbv zeta.
    destruct (negb (bool_decide _)); [|destruct (length (BuildAllowList _ _) =? 0)%nat];
      try (destruct (negb _)); by apply respond_served.
Qed.

Lemma dispatch_served now nowUs c0 c c1 :
  calls c = calls c0 -> Middleware.suspended (cx c) = None -> bounded_stacks (middleware_ c) ->
  dispatch now nowUs c = Ret c1 ->
  exists c', complete nowUs (enough (middleware_ c)) c1 = Some c' /\ served c0 c'.
Proof.
  intros Hc Hs Hb. unfold dispatch. set (ca := set_track _ c). set (cb := if Metrics.GlobalLatencyEnabled _ then _ else ca).
  assert (Hcb : calls cb = calls c0 /\ trackAsync cb = Middleware.track_of_bytes 0 /\ Middleware.suspended (cx cb) = None /\ middleware_ cb = middleware_ c)
    by (unfold cb; by destruct (Metrics.GlobalLatencyEnabled _)).
  destruct Hcb as (H1 & H2 & H3 & H4). clearbody cb. clear ca. rewrite <- H4 in *. clear c H4 Hc Hs.
  assert (Hrefuse : forall msg c, calls c = calls c0 -> Middleware.suspended (cx c) = None ->
            exists c', complete nowUs (enough (middleware_ cb)) (refuse msg c) = Some c' /\ served c0 c').
  { intros msg c Hc Hs. exists (refuse msg c). split; [by apply complete_done|]. split; [done|]. exists [], (Write msg).
    by rewrite <- Hc. }
  destruct (negb _); [intros [= <-]; by apply Hrefuse|].
  match goal with |- (match ?x with (_, _) => _ end = _) -> _ => destruct x as [[] rw] end; [|intros [= <-]; by apply Hrefuse].
  set (cc := on_world _ (on_world _ (on_world _ cb))).
  destruct (AllowRequest now cc) as [[cd r]|] eqn:Ea; [|done]. cbn [obind].
  apply AllowRequest_frame in Ea as (E1 & E2 & E3 & E4 & E5).
  assert (Hd : calls cd = calls c0 /\ trackAsync cd = Middleware.track_of_bytes 0 /\ Middleware.suspended (cx cd) = None /\ middleware_ cd = middleware_ cb)
    by (unfold trackAsync in *; rewrite E1, E2, E3; done).
  destruct Hd as (D1 & D2 & D3 & D4). rewrite <- D4 in *. destruct r; intros Er; apply Ret_inj in Er as <-.
  - by apply route_request_served.
  - by apply respond_served.
  - by apply respond_served.
Qed.

End engine.

(** ** Properties *)

Section properties.
Context `{Allocator} {S : Type} {FM : ShardMap.FiniteMap IpUtils.WFXIpAddress Z S} {U : Type} {K : Type} `{Countable K}.
Context (inet_pton : Z -> bytes -> option bytes) (FileExists : bytes -> bool) (GetFileSize : bytes -> Z).
Context (cfg : Config) (node_ptr : RouteTrie.TrieNode (RouteCallback (U := U)) -> K).

(** C5: every read event is answered exactly once.  Whatever the bytes, the routes, the
    middleware and the handlers are, handling a request and resuming what it
    suspended, at most once per callback and once for the handler, leaves no
    coroutine behind and ends with exactly one call that answers the client or waits
    for more of the request; before it there are only timer refreshes. *)
Theorem every_request_answered_once M now nowUs (c c1 : Ctx (S := S) (U := U) (K := K)) :
  Middleware.suspended (cx c) = None -> bounded_stacks M (middleware_ c) ->
  HandleRequest inet_pton FileExists GetFileSize cfg node_ptr now nowUs c = Ret c1 ->
  exists c', complete cfg node_ptr nowUs (enough M (middleware_ c)) c1 = Some c' /\ served c c'.
Proof.
  intros Hs Hb. unfold HandleRequest. destruct (parse cfg c) as [state ca] eqn:Ep.
  assert (Ha : calls ca = calls c /\ Middleware.suspended (cx ca) = None /\ middleware_ ca = middleware_ c).
  { revert Ep. unfold parse. destruct (HttpParser.Parse _ _) as [st cl]. intros [= _ <-]. done. }
  destruct Ha as (H1 & H2 & H3). rewrite <- H3 in *.
  assert (Hone : forall pre e (c2 : Ctx (S := S) (U := U) (K := K)), Forall (fun e => terminal e = false) pre -> terminal e = true ->
     calls c2 = calls ca ++ pre ++ [e] -> Middleware.suspended (cx c2) = None ->
     exists c', complete cfg node_ptr nowUs (enough M (middleware_ ca)) c2 = Some c' /\ served c c').
  { intros pre e c2 Hp Ht Hc2 Hs2. exists c2. split; [by apply complete_done|]. split; [done|]. exists pre, e. by rewrite <- H1. }
  destruct state; try (intros [= <-]).
  - apply (Hone [RefreshExpiry (headerTimeout cfg)] ResumeReceive); [by repeat constructor|done| |done]. cbn. by rewrite <- app_assoc.
  - apply (Hone [RefreshExpiry (bodyTimeout cfg)] ResumeReceive); [by repeat constructor|done| |done]. cbn. by rewrite <- app_assoc.
  - apply (Hone [] (Write NOT_IMPLEMENTED)); done.
  - apply (Hone [RefreshExpiry (bodyTimeout cfg)] (Write CONTINUE_100)); [by repeat constructor|done| |done]. cbn. by rewrite <- app_assoc.
  - apply (Hone [] (Write EXPECTATION_FAILED)); done.
  - intros Hd. by apply (dispatch_served inet_pton FileExists GetFileSize cfg node_ptr M now nowUs c ca).
  - apply (Hone [] (Write BAD_REQUEST)); done.
  - apply (Hone [] (Write NOT_IMPLEMENTED)); done.
Qed.

(** C6: the pipeline is the specification.  For a matched route, running the chain and
    the handler through every suspension sends what the synchronous specification
    sends, and leaves the world it leaves but for the parser's state: global
    middleware, the route's own, then the handler unless one of them stopped the
    chain; a coroutine that fails is answered with a 500. *)
Theorem pipeline_refines_spec nowUs node (c : Ctx (S := S) (U := U) (K := K)) :
  routeNode_ c = Some node -> RouteTrie.callback node <> None -> trackAsync c = Middleware.track_of_bytes 0 ->
  Middleware.suspended (cx c) = None -> small_stacks node_ptr (middleware_ c) node ->
  let m := middleware_ c in
  exists c', complete cfg node_ptr nowUs (Datatypes.S (length (Middleware.middlewareGlobalCallbacks_ m) +
                length (default [] (Middleware.per_route (Some (node_ptr node)) m)))) (HandleSuccess cfg node_ptr nowUs c) = Some c' /\
    answered cfg c c' (spec_serve cfg node_ptr m node (world c)).
Proof. apply HandleSuccess_spec. Qed.

End properties.

(** ** Concrete runs

    A server with one global middleware, which logs, and three routes: a handler that
    answers at once, one that answers after a suspension, and one whose coroutine
    fails. *)

Definition w_map : ShardMap.FiniteMap IpUtils.WFXIpAddress Z (@HashShard.shard IpUtils.WFXIpAddress Z) :=
  ConnLimiter.w_shard_map.

Definition w_cfg : Config :=
  MkConfig HttpParser.w_cfg 5 15 20 64 4096 RateLimiter.w_cfg
    (Cors true false false [lit "https://a.example"] (lit "GET, POST") [] [] (lit "600")) (lit "/srv").

Definition w_text (s : bytes) (w : W (U := list Z)) : W := on_res (Response.SendText 64 4096 s) w.
Definition w_log (n : Z) (w : W (U := list Z)) : W :=
  World (client w) (responseInfo w) (connectionState w) (pathSegments w) (user w ++ [n]).

Definition w_ops : list (Router.reg_op (C := RouteCallback (U := list Z))) :=
  [Router.OpRoute GET (lit "/now") (Some (RouteSync (w_text (lit "now"))));
   Router.OpRoute GET (lit "/later/<id:uint>")
     (Some (RouteAsync (fun w => (inr (fun w => (Middleware.Result true Middleware.CONTINUE, w_text (lit "later") w)), w))));
   Router.OpRoute GET (lit "/fails")
     (Some (RouteAsync (fun w => (inr (fun w => (Middleware.Result false Middleware.CONTINUE, w)), w))))].

Definition w_router : Router.Router (RouteCallback (U := list Z)) :=
  match Router.run_ops 64 Router.new_router w_ops with Ret r => r | Fatal _ => Router.new_router end.

Definition w_mw : Middleware.HttpMiddleware (W (U := list Z)) Z :=
  Middleware.mkMiddleware []
    [Middleware.MwSync (fun w => (Middleware.CONTINUE, w_log 1 w));
     Middleware.MwAsync (fun w => (inr (fun w => (Middleware.Result true Middleware.CONTINUE, w_log 3 w)), w_log 2 w))] ∅.

Definition w_limiter : RateLimiter.limiter (@HashShard.shard IpUtils.WFXIpAddress Z) :=
  match RateLimiter.new_limiter (ipConfig w_cfg) 0 32 (fun _ => true) with
  | Ret l => l
  | Fatal _ => RateLimiter.Limiter (BitmapPool.Pool [] [] None 0 0 0) None 0 0
  end.

Definition w_connections : @HashShard.shard IpUtils.WFXIpAddress Z :=
  match ConnLimiter.new_limiter 32 (fun _ => true) with Ret s => s | Fatal _ => None end.

Abbreviation w_Ctx := (Ctx (S := @HashShard.shard IpUtils.WFXIpAddress Z) (U := list Z) (K := Z)).

(** A new connection, with a read buffer of [n] bytes, which has received [msg]. *)
Definition w_ctx_sized (n : nat) (msg : bytes) : w_Ctx :=
  let cl := HttpParser.recv msg (HttpParser.Client (RW (Some (Block 5000 (Z.of_nat n) 0 0 (replicate n 0))) None) HttpParser.PARSE_IDLE 0 0 None) in
  mkCtx (Middleware.mkCtx (Middleware.track_of_bytes 0) Middleware.IDLE false None
           (World cl (Response.set_rw (HttpParser.rwBuffer cl) Response.sample_response) CONNECTION_ALIVE [] []))
    None (IpUtils.IpAddress [10; 0; 0; 1] 0 IpUtils.AF_INET) false false 0 w_mw w_router w_connections w_limiter
    Metrics.no_tracer [].

Definition w_ctx := w_ctx_sized 128.

Definition w_node (n : RouteTrie.TrieNode (RouteCallback (U := list Z))) : Z := RouteTrie.metricsIdx n.

Abbreviation w_handle :=
  (HandleRequest (FM := w_map) (S := @HashShard.shard IpUtils.WFXIpAddress Z) (U := list Z) (K := Z)
     IpUtils.toy_pton (fun _ => false) (fun _ => 0) w_cfg w_node 7 7).

Definition w_line (method target : bytes) : bytes := method ++ lit " " ++ target ++ lit " HTTP/1.1" ++ crlf.

(** What the client reads, the calls made and the middleware's log. *)
Definition w_result (msg : bytes) : option (option (list bytes * bytes) * list event * list Z) :=
  match w_handle (w_ctx msg) with
  | Ret c =>
      match complete w_cfg w_node 7 8 c with
      | Some c => Some (Response.client_view (responseInfo (world c)), calls c, user (world c))
      | None => None
      end
  | Fatal _ => None
  end.

(** The status line and the body, the calls and the log. *)
Definition w_brief (msg : bytes) : option (bytes * bytes * list event * list Z) :=
  match w_result msg with
  | Some (Some (l :: _, body), cs, log) => Some (l, body, cs, log)
  | _ => None
  end.

Definition w_refreshes (n : nat) : list event := replicate n (RefreshExpiry 20).

Example serve_now : w_brief (w_line (lit "GET") (lit "/now") ++ crlf) =
  Some (lit "HTTP/1.1 200 ", lit "now", w_refreshes 2 ++ [Write []], [1; 2; 3]).
Proof. vm_compute. reflexivity. Qed.

Example serve_later : w_brief (w_line (lit "GET") (lit "/later/42") ++ crlf) =
  Some (lit "HTTP/1.1 200 ", lit "later", w_refreshes 2 ++ [Write []], [1; 2; 3]).
Proof. vm_compute. reflexivity. Qed.

Example serve_fails : w_brief (w_line (lit "GET") (lit "/fails") ++ crlf) =
  Some (lit "HTTP/1.1 500 ", lit "Async Failure", w_refreshes 2 ++ [Write []], [1; 2; 3]).
Proof. vm_compute. reflexivity. Qed.

Example serve_missing : w_brief (w_line (lit "GET") (lit "/later/x") ++ crlf) =
  Some (lit "HTTP/1.1 404 ", lit "404: Route not found :(", w_refreshes 1 ++ [Write []], []).
Proof. vm_compute. reflexivity. Qed.

Example serve_other_method :
  (fun x => (x.1.1, x.2)) <$> w_result (w_line (lit "POST") (lit "/now") ++ lit "Content-Length: 0" ++ crlf ++ crlf) =
  Some (Some ([lit "HTTP/1.1 405 "; lit "Connection: keep-alive"; lit "Allow: GET"; lit "Content-Type: text/plain";
               lit "Content-Length: 0000000023"], lit "405: Method not allowed"), []).
Proof. vm_compute. reflexivity. Qed.

Example serve_preflight :
  (fun x => (x.1.1, x.2)) <$> w_result (w_line (lit "OPTIONS") (lit "/now") ++ lit "Origin: https://a.example" ++ crlf ++
                                        lit "Access-Control-Request-Method: GET" ++ crlf ++ crlf) =
  Some (Some ([lit "HTTP/1.1 204 "; lit "Vary: Origin"; lit "Access-Control-Allow-Origin: https://a.example";
               lit "Connection: keep-alive"; lit "Access-Control-Allow-Methods: GET, POST";
               lit "Access-Control-Max-Age: 600"], []), []).
Proof. vm_compute. reflexivity. Qed.

Definition returns {A} (x : outcome A) : bool := match x with Ret _ => true | Fatal _ => false end.

Lemma ret_of_bool {A} (x : outcome A) : returns x = true -> exists a, x = Ret a.
Proof. destruct x as [a|]; [by exists a|done]. Qed.

Lemma every_request_answered_once_witness :
  exists c1 c', w_handle (w_ctx (w_line (lit "GET") (lit "/later/42") ++ crlf)) = Ret c1 /\
    complete w_cfg w_node 7 (enough 0 w_mw) c1 = Some c' /\
    served (w_ctx (w_line (lit "GET") (lit "/later/42") ++ crlf)) c'.
Proof.
  assert (E : exists c1, w_handle (w_ctx (w_line (lit "GET") (lit "/later/42") ++ crlf)) = Ret c1)
    by (apply ret_of_bool; vm_compute; reflexivity).
  destruct E as [c1 E]. exists c1.
  destruct (every_request_answered_once (FM := w_map) IpUtils.toy_pton (fun _ => false) (fun _ => 0) w_cfg w_node 0 7 7
              (w_ctx (w_line (lit "GET") (lit "/later/42") ++ crlf)) c1) as (c' & Hc & Hv).
  - reflexivity.
  - split; [unfold Middleware.small; cbn; lia|]. split; [lia|]. intros [k|]; apply le_n.
  - exact E.
  - exists c'. split; [exact E|]. split; [exact Hc|exact Hv].
Defined.

Definition w_matched : w_Ctx :=
  set_node (fst (Router.MatchRoute w_router GET (lit "/later/42") [])) (w_ctx []).

Lemma pipeline_refines_spec_witness :
  exists node c', routeNode_ w_matched = Some node /\
    complete w_cfg w_node 7 3 (HandleSuccess w_cfg w_node 7 w_matched) = Some c' /\
    answered w_cfg w_matched c' (spec_serve w_cfg w_node w_mw node (world w_matched)).
Proof.
  assert (Em : bool_decide (is_Some (fst (Router.MatchRoute w_router GET (lit "/later/42") []))) = true) by (vm_compute; reflexivity).
  apply bool_decide_eq_true in Em as [node Em]. exists node. assert (En : routeNode_ w_matched = Some node) by exact Em.
  assert (Hcb : RouteTrie.callback node <> None)
    by (destruct (Router.MatchRoute w_router GET (lit "/later/42") []) as [n segs] eqn:E; cbn in Em; subst n; exact (MatchRoute_callback _ _ _ _ _ _ E)).
  destruct (pipeline_refines_spec w_cfg w_node 7 node w_matched) as (c' & Hc & Ha); [exact En|exact Hcb|reflexivity|reflexivity| |].
  - split; reflexivity.
  - exists c'. split; [exact En|]. split; [exact Hc|exact Ha].
Defined.

(** ** [Expect: 100-continue]

    [HandleRequest] answers with [Write] on a connection that stays alive; when the
    interim response is sent, the connection handler clears the client, buffer and
    expected length included, while the parser still waits for a body. *)
Definition w_expect : bytes :=
  w_line (lit "POST") (lit "/form") ++ lit "Content-Length: 10" ++ crlf ++ lit "Expect: 100-continue" ++ crlf ++ crlf.

Definition w_cleared (body : bytes) (c : w_Ctx) : w_Ctx :=
  on_world (fun w => set_client (HttpParser.recv body (HttpParser.ClearClient (client w))) w)
    (set_track (Middleware.track_of_bytes 0) c).

(** What the handlers see once the body arrives: the verdict, the target and the body. *)
Definition w_after_continue (body : bytes) : option (list event * HttpParser.HttpParseState * bytes * bytes) :=
  match w_handle (w_ctx w_expect) with
  | Ret c =>
      let '(state, c') := parse w_cfg (w_cleared body c) in
      Some (calls c, state, req_path (world c'), read_view (world c') (HttpParser.body (request (world c'))))
  | Fatal _ => None
  end.

(** The interim response is sent, then the body's bytes are a request of their own, for
    a path read out of them, without a body. *)
Example body_after_continue : w_after_continue (lit "abcdefghij") =
  Some ([RefreshExpiry 15; Write CONTINUE_100], HttpParser.PARSE_SUCCESS, lit "fghij", []).
Proof. vm_compute. reflexivity. Qed.

End Engine.
