(* ===== verification/Connections.v ===== *)
(** * Many connections, one engine (engine/core_engine.cpp, http/limits)

    The connections of a worker share the two limiters.  [serving] is the run of the
    event loop over them, in any order: a connection is opened, a read event is handled,
    a suspended request is resumed, a connection closes, and between these the connection
    handler works on any client ([io]): bytes arrive, the buffer grows, a response is sent, the
    client is cleared for its next request.  A connection lives through any number of
    reads and requests.  The accounting of the limiters follows the flags of the
    connections that are open, whatever the interleaving. *)

From stdpp Require Import gmap.
From S2P Require Import Prelude Strings Constants RWBuffer Headers HttpParser HashShard RouteTrie Router BitmapPool.
From S2P Require Import IpUtils ShardMap ConnLimiter RateLimiter Response Middleware Metrics Engine.
Import IpUtils RWBuffer Engine.

Module Connections.

Abbreviation lru := (list (WFXIpAddress * RateLimiter.RequestRateLimiterEntry)).

(** ** Connections counted on an identity *)

Definition refs (k : WFXIpAddress) (V : lru) : Z := default 0 (RateLimiter.refCount <$> RateLimiter.spec_find k V).

(** Keys are distinct, counts are counts. *)
Definition tidy (V : lru) : Prop := NoDup (fst <$> V) /\ Forall (fun x => 0 <= RateLimiter.refCount (snd x)) V.

Lemma refs_cons k x V : refs k (x :: V) = if decide (fst x = k) then RateLimiter.refCount (snd x) else refs k V.
Proof. unfold refs, RateLimiter.spec_find. cbn. destruct (decide (x.1 = k)) as [E|E]; [by rewrite bool_decide_true|by rewrite bool_decide_false]. Qed.

Lemma refs_nonneg k V : tidy V -> 0 <= refs k V.
Proof.
  intros [_ H]. induction H as [|x V Hx _ IH]; [done|]. rewrite refs_cons. by destruct (decide _).
Qed.

Lemma refs_absent k V : k ∉ (fst <$> V) -> refs k V = 0.
Proof.
  induction V as [|x V IH]; [done|]. intros [Hn Hi]%not_elem_of_cons. rewrite refs_cons, decide_False by congruence. by apply IH.
Qed.

Lemma spec_find_absent k V : RateLimiter.spec_find k V = None -> k ∉ (fst <$> V).
Proof.
  unfold RateLimiter.spec_find. induction V as [|x V IH]; [intros _; apply not_elem_of_nil|]. cbn.
  destruct (decide (x.1 = k)) as [E|E]; [by rewrite bool_decide_true|rewrite bool_decide_false by done].
  intros H. apply not_elem_of_cons. split; [congruence|by apply IH].
Qed.

Lemma tidy_cons x V : tidy (x :: V) <-> (fst x ∉ (fst <$> V)) /\ 0 <= RateLimiter.refCount (snd x) /\ tidy V.
Proof. unfold tidy. rewrite fmap_cons, NoDup_cons, Forall_cons. tauto. Qed.

Lemma elem_remove k k' V : k' ∈ (fst <$> RateLimiter.spec_remove k V) -> k' ∈ (fst <$> V) /\ k' <> k.
Proof.
  intros (x & -> & Hx)%list_elem_of_fmap. apply list_elem_of_filter in Hx as [Hk Hx]. split; [by apply list_elem_of_fmap_2|done].
Qed.

Lemma remove_ok k V : tidy V ->
  tidy (RateLimiter.spec_remove k V) /\ forall k', refs k' (RateLimiter.spec_remove k V) = if decide (k = k') then 0 else refs k' V.
Proof.
  induction V as [|x V IH]; [by split; [|intros k'; destruct (decide _)]|]. intros (Hx & H0 & HV)%tidy_cons.
  destruct (IH HV) as [Ht Hr]. unfold RateLimiter.spec_remove in *. rewrite filter_cons. destruct (decide (x.1 <> k)) as [Hk|Hk].
  - split.
    + apply tidy_cons. split_and!; [|done|done]. intros [Hin _]%(elem_remove k). done.
    + intros k'. rewrite !refs_cons, Hr. destruct (decide (x.1 = k')), (decide (k = k')); congruence.
  - split; [done|]. apply dec_stable in Hk. intros k'. rewrite Hr, refs_cons. destruct (decide (k = k')) as [|Hne]; [done|].
    by rewrite decide_False by congruence.
Qed.

Lemma evict_ok V V' : RateLimiter.evict V = Some V' -> tidy V ->
  tidy V' /\ (forall k, k ∈ (fst <$> V') -> k ∈ (fst <$> V)) /\ forall k, refs k V' = refs k V.
Proof.
  revert V'. induction V as [|x V IH]; [done|]. intros V'. cbn [RateLimiter.evict]. intros E (Hx & H0 & HV)%tidy_cons.
  destruct (RateLimiter.evict V) as [r|].
  - injection E as <-. destruct (IH r eq_refl HV) as (Ht & Hi & Hr). split_and!.
    + apply tidy_cons. split_and!; [|done|done]. by intros Hin%Hi.
    + intros k. rewrite !fmap_cons, !elem_of_cons. intros [?|?%Hi]; auto.
    + intros k. rewrite !refs_cons. by rewrite Hr.
  - destruct (RateLimiter.live x) eqn:El; [done|]. injection E as <-. split_and!; [done|by intros k; rewrite fmap_cons; right|].
    intros k. rewrite refs_cons. destruct (decide (x.1 = k)) as [<-|]; [|done]. rewrite refs_absent by done.
    unfold RateLimiter.live in El. apply Z.ltb_ge in El. lia.
Qed.

Section counting.
Context (cfg : IPConfig) (cap now : Z).

Lemma acquire_counts k V V' b :
  RateLimiter.spec_acquire cfg cap now k V = (V', b) -> tidy V -> refs k V < 2 ^ 32 - 1 ->
  tidy V' /\ forall k', refs k' V' = refs k' V + if decide (k = k') then Z.b2z b else 0.
Proof.
  intros E Ht Hlt. pose proof (refs_nonneg k V Ht) as H0. unfold RateLimiter.spec_acquire in E.
  destruct (RateLimiter.spec_find k V) as [e|] eqn:Ef.
  - assert (Er : refs k V = RateLimiter.refCount e) by (unfold refs; by rewrite Ef). injection E as <- <-.
    destruct (remove_ok k V Ht) as [Ht' Hr]. split.
    + apply tidy_cons. split_and!; [by intros [_ Hk]%elem_remove|cbn; rewrite wrap_small; lia|done].
    + intros k'. rewrite refs_cons, Hr. cbn. destruct (decide (k = k')) as [<-|]; [rewrite wrap_small; lia|lia].
  - pose proof (spec_find_absent k V Ef) as Hn. assert (E0 : refs k V = 0) by by apply refs_absent.
    destruct (if Z.of_nat (length V) <? cap then Some V else RateLimiter.evict V) as [W|] eqn:EW.
    + injection E as <- <-.
      assert (Hw : tidy W /\ (forall k, k ∈ (fst <$> W) -> k ∈ (fst <$> V)) /\ forall k, refs k W = refs k V).
      { destruct (_ <? _); [by injection EW as <-|by apply evict_ok]. }
      destruct Hw as (Htw & Hi & Hr). split.
      * apply tidy_cons. split_and!; [by intros Hk%Hi|cbn; lia|done].
      * intros k'. rewrite refs_cons, Hr. cbn. destruct (decide (k = k')) as [<-|]; lia.
    + injection E as <- <-. split; [done|]. intros k'. cbn. destruct (decide _); lia.
Qed.

Lemma allow_counts k V :
  tidy V -> tidy (RateLimiter.spec_allow cfg now k V).1 /\ forall k', refs k' (RateLimiter.spec_allow cfg now k V).1 = refs k' V.
Proof.
  intros Ht. unfold RateLimiter.spec_allow. destruct (RateLimiter.spec_find k V) as [e|] eqn:Ef; [|done]. cbn [fst].
  assert (Er : refs k V = RateLimiter.refCount e) by (unfold refs; by rewrite Ef). pose proof (refs_nonneg k V Ht) as H0.
  destruct (remove_ok k V Ht) as [Ht' Hr]. split.
  - apply tidy_cons. split_and!; [by intros [_ Hk]%elem_remove|cbn; lia|done].
  - intros k'. rewrite refs_cons, Hr. cbn. destruct (decide (k = k')) as [<-|]; [lia|done].
Qed.

Lemma release_keys k V : fst <$> RateLimiter.spec_release k V = fst <$> V.
Proof. induction V as [|x V IH]; [done|]. cbn. f_equal; [by destruct (decide _)|exact IH]. Qed.

Lemma release_counts k V :
  tidy V -> 0 < refs k V < 2 ^ 32 ->
  tidy (RateLimiter.spec_release k V) /\
  forall k', refs k' (RateLimiter.spec_release k V) = refs k' V - if decide (k = k') then 1 else 0.
Proof.
  intros Ht. induction V as [|x V IH]; [cbn; lia|]. apply tidy_cons in Ht as (Hx & H0 & HV).
  assert (Hc : RateLimiter.spec_release k (x :: V) =
    (if decide (x.1 = k) then (x.1, RateLimiter.drop_ref x.2) else x) :: RateLimiter.spec_release k V) by done.
  rewrite Hc, refs_cons. destruct (decide (x.1 = k)) as [Ek|Ek].
  - intros Hr.
    assert (Es : RateLimiter.spec_release k V = V).
    { unfold RateLimiter.spec_release. rewrite <- (map_id V) at 2. apply map_ext_in. intros y Hy%list_elem_of_In.
      rewrite decide_False; [done|]. intros Ey. apply Hx. rewrite Ek, <- Ey. by apply list_elem_of_fmap_2. }
    rewrite Es. assert (Ed : RateLimiter.refCount (RateLimiter.drop_ref x.2) = RateLimiter.refCount x.2 - 1).
    { cbn. replace (0 <? RateLimiter.refCount x.2) with true by lia. cbn [Z.b2z]. rewrite wrap_small; lia. }
    split; [apply tidy_cons; cbn [fst snd]; rewrite Ed; split_and!; [done|lia|done]|].
    intros k'. rewrite !refs_cons. cbn [fst snd]. rewrite Ed. subst k. destruct (decide (x.1 = k')); lia.
  - intros Hr. destruct (IH HV Hr) as [Ht' Hr']. split.
    + apply tidy_cons. by rewrite release_keys.
    + intros k'. rewrite !refs_cons, Hr'. destruct (decide (x.1 = k')) as [<-|]; [|done]. rewrite decide_False by congruence. lia.
Qed.

End counting.

Section serving.
Context `{Allocator} {S : Type} {FM : ShardMap.FiniteMap WFXIpAddress Z S} {U : Type} {K : Type} `{Countable K}.
Context (inet_pton : Z -> bytes -> option bytes) (FileExists : bytes -> bool) (GetFileSize : bytes -> Z).
Context (cfg : Config) (node_ptr : RouteTrie.TrieNode (RouteCallback (U := U)) -> K) (cap : Z).

Abbreviation ctx := (Ctx (S := S) (U := U) (K := K)).
Abbreviation limiters := (S * RateLimiter.limiter S)%type.

(** ** The engine touches the limits in [AllowRequest] and [HandleClose] only *)

Definition limits (c : ctx) := (connInfo c, ipAcquired c, rateLimiterAcquired c, connectionLimiter_ c, requestRateLimiter_ c).

Lemma limits_RecordRouteMetrics nowUs (c : ctx) : limits (RecordRouteMetrics nowUs c) = limits c.
Proof. unfold RecordRouteMetrics. destruct (routeNode_ c); [|done]. by destruct (_ || _). Qed.

Lemma limits_HandleResponse nowUs (c : ctx) : limits (HandleResponse cfg nowUs c) = limits c.
Proof.
  unfold HandleResponse. set (c1 := on_world _ c). cbv zeta. pose proof (limits_RecordRouteMetrics nowUs c1) as E.
  set (c2 := RecordRouteMetrics nowUs c1) in *. transitivity (limits c2); [|exact E]. clearbody c2.
  destruct (Response.IsFile _); [done|]. destruct (Response.IsGenStream _); [|done]. by destruct (Response.TakeGenerator _).
Qed.

Lemma limits_respond nowUs (c : ctx) : limits (respond cfg nowUs c) = limits c.
Proof. unfold respond. by rewrite limits_HandleResponse. Qed.

Lemma limits_run_route nowUs node (c : ctx) : limits (run_route cfg nowUs node c) = limits c.
Proof.
  unfold run_route. destruct (RouteTrie.callback node) as [[f|start]|]; [by rewrite limits_respond| |done].
  destruct (Middleware.start_async _ _ _) as [[] x]; [by rewrite limits_respond|done].
Qed.

Lemma limits_HandleSuccess nowUs (c : ctx) : limits (HandleSuccess cfg node_ptr nowUs c) = limits c.
Proof.
  unfold HandleSuccess. destruct (routeNode_ c) as [node|]; [|done].
  destruct (_ =? _); [apply limits_respond|]. destruct (_ =? _); [|apply limits_run_route].
  destruct (Middleware.ExecuteMiddleware _ _ _ _) as [[[] [] []] x]; cbv zeta; cbn [negb]; rewrite ?limits_run_route, ?limits_respond; done.
Qed.

Lemma limits_resume nowUs k (c : ctx) : limits (resume cfg node_ptr nowUs k c) = limits c.
Proof.
  unfold resume. destruct (k (world c)) as [r w]. unfold OnCoroutineComplete.
  destruct (negb _); [by rewrite limits_HandleResponse|]. destruct (_ =? _); [by rewrite limits_HandleSuccess|by rewrite limits_HandleResponse].
Qed.

Lemma limits_route_request nowUs (c : ctx) : limits (route_request FileExists GetFileSize cfg node_ptr nowUs c) = limits c.
Proof.
  unfold route_request. destruct (HandleCors _ _) as [[] w]; [by rewrite limits_respond|]. cbv zeta.
  destruct (bool_decide _); [by rewrite limits_respond|].
  destruct (Router.MatchRoute _ _ _ _) as [[node|] segs]; [by rewrite limits_HandleSuccess|].
  unfold HandleGenericOptions. cbv zeta.
  destruct (negb (bool_decide _)); [|destruct (length (BuildAllowList _ _) =? 0)%nat]; try (destruct (negb _)); by rewrite limits_respond.
Qed.

Lemma limits_HandleRequest now nowUs (c c' : ctx) :
  HandleRequest inet_pton FileExists GetFileSize cfg node_ptr now nowUs c = Ret c' ->
  limits c' = limits c \/
  exists c1 c2 r, limits c1 = limits c /\ AllowRequest inet_pton cfg now c1 = Ret (c2, r) /\ limits c' = limits c2.
Proof.
  unfold HandleRequest, parse. destruct (HttpParser.Parse _ _) as [state cl].
  set (ca := set_track _ (on_world _ c)). assert (Ea : limits ca = limits c) by done. clearbody ca.
  destruct state; try (intros [= <-]; left; exact Ea). unfold dispatch.
  set (cb := set_track _ ca). set (cc := if Metrics.GlobalLatencyEnabled _ then _ else cb).
  assert (Ec : limits cc = limits c) by (rewrite <- Ea; unfold cc; by destruct (Metrics.GlobalLatencyEnabled _)).
  clearbody cc. destruct (negb _); [intros [= <-]; left; exact Ec|].
  match goal with |- (match ?x with (_, _) => _ end = _) -> _ => destruct x as [[] rw] end; [|intros [= <-]; left; exact Ec].
  set (cd := on_world _ (on_world _ (on_world _ cc))). assert (Ed : limits cd = limits c) by done. clearbody cd.
  destruct (AllowRequest inet_pton cfg now cd) as [[ce r]|] eqn:Ee; [|done]. cbn [obind]. intros Hr. right. exists cd, ce, r.
  split_and!; [done|done|]. destruct r; apply Ret_inj in Hr as <-; rewrite ?limits_route_request, ?limits_respond; done.
Qed.

(** ** Runs *)

(** The connection's handler works on the limiters all connections share. *)
Definition share (s : limiters) (c : ctx) : ctx := set_limits (connInfo c) (ipAcquired c) (rateLimiterAcquired c) s.1 s.2 c.
Definition shared (c : ctx) : limiters := (connectionLimiter_ c, requestRateLimiter_ c).

(** What the connection handler does to a client between the engine's callbacks: it
    allocates and grows the read buffer, stores what the socket hands out behind what is there,
    moves the mark of what is sent and compacts, and clears the client for the next request. *)
Inductive io :=
| InitRead (size : Z)
| GrowRead (growSize maxSize : Z)
| Receive (data : bytes)
| Send (n : Z)
| Compact
| Clear.

Definition on_client (f : HttpParser.ClientCtx -> HttpParser.ClientCtx) (c : ctx) : ctx := on_world (fun w => set_client (f (client w)) w) c.
Definition on_buffer (f : rwbuffer -> rwbuffer) (c : ctx) : ctx := on_client (fun cl => HttpParser.set_rwBuffer (f (HttpParser.rwBuffer cl)) cl) c.

(** [ClientCtx::Clear], with the request's [ClearInfo] and the response's [Reset]; what it
    leaves alone are the connection's address and its two limiter bits. *)
Definition ClearCtx (c : ctx) : ctx :=
  let w := on_res Response.Reset (set_client (HttpParser.ClearClient (client (world c))) (world c)) in
  set_node None (set_cx (Middleware.mkCtx (Middleware.track_of_bytes 0) Middleware.IDLE (Middleware.globalPtr (cx c)) None (set_pathSegments [] w)) c).

Definition do_io (op : io) (c : ctx) : ctx :=
  match op with
  | InitRead size => on_buffer (fun rw => (InitReadBuffer size rw).2) c
  | GrowRead growSize maxSize => on_client (fun cl => (HttpParser.ctx_GrowReadBuffer growSize maxSize 0 cl).2) c
  | Receive data =>
      on_client (fun cl => HttpParser.recv (take (Z.to_nat (default (0, 0) (GetWritableReadRegion (HttpParser.rwBuffer cl))).2) data) cl) c
  | Send n => on_buffer (AdvanceWriteLength n) c
  | Compact => on_buffer CompactWriteBuffer c
  | Clear => ClearCtx c
  end.

Inductive serving : limiters -> list ctx -> Prop :=
| serving_start cl rr :
    ShardMap.map_rep cl ∅ -> RateLimiter.refines cap rr [] -> serving (cl, rr) []
| serving_open s cs c :
    serving s cs -> ipAcquired c = false -> rateLimiterAcquired c = false -> serving s (c :: cs)
| serving_io s l c r op : serving s (l ++ c :: r) -> serving s (l ++ do_io op c :: r)
| serving_request s l c r now nowUs c' :
    serving s (l ++ c :: r) -> ShardMap.map_room s.1 -> ShardMap.map_room (RateLimiter.index_ s.2) ->
    HandleRequest inet_pton FileExists GetFileSize cfg node_ptr now nowUs (share s c) = Ret c' ->
    serving (shared c') (l ++ c' :: r)
| serving_resume s l c r nowUs k :
    serving s (l ++ c :: r) -> Middleware.suspended (cx c) = Some k ->
    serving s (l ++ resume cfg node_ptr nowUs k c :: r)
| serving_close s l c r c' :
    serving s (l ++ c :: r) -> HandleClose (share s c) = Ret c' -> serving (shared c') (l ++ r).

Lemma limits_do_io op (c : ctx) : limits (do_io op c) = limits c.
Proof. by destruct op. Qed.

(** The connections counted by either limiter. *)
Definition charge (c : ctx) : list WFXIpAddress := if ipAcquired c then [connInfo c] else [].
Definition rate (c : ctx) : list WFXIpAddress := if rateLimiterAcquired c then [connInfo c] else [].
Definition charged (cs : list ctx) : list WFXIpAddress := flat_map charge cs.
Definition rated (cs : list ctx) : list WFXIpAddress := flat_map rate cs.

Abbreviation open_on := ConnLimiter.open_on.

Lemma open_on_app k a b : open_on k (a ++ b) = open_on k a + open_on k b.
Proof. unfold open_on. rewrite filter_app, length_app. lia. Qed.

Lemma charged_mid l c r : charged (l ++ c :: r) = charged l ++ charge c ++ charged r.
Proof. unfold charged. by rewrite flat_map_app. Qed.
Lemma rated_mid l c r : rated (l ++ c :: r) = rated l ++ rate c ++ rated r.
Proof. unfold rated. by rewrite flat_map_app. Qed.
Lemma charged_app l r : charged (l ++ r) = charged l ++ charged r.
Proof. apply flat_map_app. Qed.
Lemma rated_app l r : rated (l ++ r) = rated l ++ rated r.
Proof. apply flat_map_app. Qed.

(** Only counted connections hold a place in the rate limiter. *)
Definition ordered (c : ctx) : Prop := rateLimiterAcquired c = true -> ipAcquired c = true.

Lemma rate_charge k c : ordered c -> open_on k (rate c) <= open_on k (charge c).
Proof.
  unfold ordered, rate, charge. destruct (rateLimiterAcquired c); [|intros _; apply ConnLimiter.open_on_nonneg].
  intros E. by rewrite E.
Qed.

Lemma rated_charged k cs : Forall ordered cs -> open_on k (rated cs) <= open_on k (charged cs).
Proof.
  induction 1 as [|c cs Hc _ IH]; [done|]. unfold rated, charged in *. cbn [flat_map]. rewrite !open_on_app.
  pose proof (rate_charge k c Hc). lia.
Qed.

(** ** The accounting *)

Context (Hmax : 0 < maxConnectionsPerIp (ipConfig cfg) < 2 ^ 32).

Record accounted (s : limiters) (cs : list ctx) : Prop := {
  acc_conns : exists m, ShardMap.map_rep s.1 m /\ ConnLimiter.counts m (charged cs) /\ ConnLimiter.within (ipConfig cfg) (charged cs);
  acc_rates : exists V, RateLimiter.refines cap s.2 V /\ tidy V /\ forall k, refs k V = open_on k (rated cs);
  acc_order : Forall ordered cs
}.

Lemma counts_mid m a ip b : ConnLimiter.counts m (ip :: a ++ b) -> ConnLimiter.counts m (a ++ ip :: b).
Proof. intros Hc k. rewrite ConnLimiter.open_on_mid. apply Hc. Qed.

Lemma within_mid a ip b : ConnLimiter.within (ipConfig cfg) (ip :: a ++ b) -> ConnLimiter.within (ipConfig cfg) (a ++ ip :: b).
Proof. intros Hc k. rewrite ConnLimiter.open_on_mid. apply Hc. Qed.

(** The accounting reads the flags and the address only. *)
Lemma accounted_same s l c c' r :
  connInfo c' = connInfo c -> ipAcquired c' = ipAcquired c -> rateLimiterAcquired c' = rateLimiterAcquired c ->
  accounted s (l ++ c :: r) -> accounted s (l ++ c' :: r).
Proof.
  intros E1 E2 E3 [Hc Hr Ho]. assert (Ech : charged (l ++ c' :: r) = charged (l ++ c :: r)) by (rewrite !charged_mid; unfold charge; by rewrite E1, E2).
  assert (Era : rated (l ++ c' :: r) = rated (l ++ c :: r)) by (rewrite !rated_mid; unfold rate; by rewrite E1, E3).
  split; rewrite ?Ech, ?Era; [done|done|]. apply Forall_app in Ho as [Hl Ho]. apply Forall_cons in Ho as [Hx Hr'].
  apply Forall_app. split; [done|]. apply Forall_cons. split; [|done]. unfold ordered. by rewrite E2, E3.
Qed.

Lemma acquire_connection_accounted l c r c' b :
  accounted (shared c) (l ++ c :: r) -> ShardMap.map_room (connectionLimiter_ c) ->
  acquire_connection inet_pton cfg c = Ret (c', b) ->
  accounted (shared c') (l ++ c' :: r) /\ b = ipAcquired c' /\ requestRateLimiter_ c' = requestRateLimiter_ c.
Proof.
  intros [(m & R & C & W) Hr Ho] Hroom. unfold acquire_connection. destruct (ipAcquired c) eqn:Ea; [intros [= <- <-]; split; [split; [by exists m|done|done]|done]|].
  set (info := ResolveClientIp _ _ _ _).
  assert (Erl : rateLimiterAcquired c = false).
  { apply Forall_app in Ho as [_ Ho]. apply Forall_cons in Ho as [Ho _]. unfold ordered in Ho. rewrite Ea in Ho.
    destruct (rateLimiterAcquired c); [discriminate (Ho eq_refl)|done]. }
  destruct (ConnLimiter.AllowConnection_ok (ipConfig cfg) Hmax info _ m _ R C W Hroom) as (s' & m' & E & R' & C' & W').
  cbn [shared fst] in E. rewrite E. cbn [obind]. intros [= <- <-]. set (acc := _ <? _) in *. split; [|done].
  assert (Ech : charged (l ++ c :: r) = charged l ++ charged r) by (rewrite charged_mid; unfold charge; by rewrite Ea).
  split.
  - exists m'. split; [exact R'|]. rewrite charged_mid. unfold charge. cbn [ipAcquired connInfo set_limits]. rewrite Ech in *.
    destruct acc; [|done]. split; [by apply counts_mid|by apply within_mid].
  - destruct Hr as (V & Hv & Ht & Hk). exists V. split; [exact Hv|]. split; [exact Ht|]. intros k. rewrite Hk, !rated_mid.
    unfold rate. cbn [rateLimiterAcquired connInfo set_limits]. by rewrite Erl.
  - apply Forall_app in Ho as [Hl Ho]. apply Forall_cons in Ho as [_ Hr']. apply Forall_app. split; [done|].
    apply Forall_cons. split; [|done]. unfold ordered. cbn [rateLimiterAcquired ipAcquired set_limits]. by rewrite Erl.
Qed.

Lemma acquire_rate_accounted now l c r c' b :
  accounted (shared c) (l ++ c :: r) -> ShardMap.map_room (RateLimiter.index_ (requestRateLimiter_ c)) ->
  ipAcquired c = true -> acquire_rate cfg now c = Ret (c', b) -> accounted (shared c') (l ++ c' :: r) /\ connInfo c' = connInfo c.
Proof.
  intros [(m & R & C & W) (V & Hv & Ht & Hk) Ho] Hroom Ea. unfold acquire_rate.
  destruct (rateLimiterAcquired c) eqn:Er; [intros [= <- <-]; split; [|done]; split; [by exists m|by exists V|done]|].
  destruct (RateLimiter.Acquire_refines (ipConfig cfg) cap now (connInfo c) _ V Hv Hroom) as (l' & E & Hv').
  cbn [shared snd] in E. rewrite E. cbn [obind]. set (k := NormalizeIp (connInfo c)) in *.
  destruct (RateLimiter.spec_acquire (ipConfig cfg) cap now k V) as [V' b'] eqn:Es. cbn [fst snd] in *. intros [= <- <-].
  split; [|done].
  assert (Hlt : refs k V < 2 ^ 32 - 1).
  { rewrite Hk. specialize (W k). rewrite charged_mid, !open_on_app in W. unfold charge in W. rewrite Ea in W.
    rewrite ConnLimiter.open_on_cons, decide_True in W by done. rewrite rated_mid, !open_on_app. unfold rate. rewrite Er.
    apply Forall_app in Ho as [Hl Ho]. apply Forall_cons in Ho as [_ Hr'].
    pose proof (rated_charged k l Hl). pose proof (rated_charged k r Hr').
    pose proof (ConnLimiter.open_on_nonneg k []). unfold open_on at 2. cbn. lia. }
  destruct (acquire_counts _ _ _ _ _ _ _ Es Ht Hlt) as [Ht' Hk']. split.
  - exists m. split; [exact R|]. rewrite !charged_mid in *. unfold charge in *. cbn [ipAcquired connInfo set_limits]. done.
  - exists V'. split; [exact Hv'|]. split; [exact Ht'|]. intros k'. rewrite Hk', Hk, !rated_mid, !open_on_app. unfold rate.
    cbn [rateLimiterAcquired connInfo set_limits]. rewrite Er. destruct b'.
    + rewrite ConnLimiter.open_on_cons. fold k. destruct (decide (k = k')); cbn [Z.b2z]; lia.
    + destruct (decide _); cbn [Z.b2z]; lia.
  - apply Forall_app in Ho as [Hl Ho]. apply Forall_cons in Ho as [_ Hr']. apply Forall_app. split; [done|].
    apply Forall_cons. split; [|done]. intros _. cbn. exact Ea.
Qed.

Lemma accounted_mid_cons l c r : accounted (shared c) (l ++ c :: r) -> ordered c.
Proof. intros [_ _ Ho]. apply Forall_app in Ho as [_ Ho]. by apply Forall_cons in Ho as [Ho _]. Qed.

Lemma AllowRequest_accounted now l c r c' res :
  accounted (shared c) (l ++ c :: r) ->
  ShardMap.map_room (connectionLimiter_ c) -> ShardMap.map_room (RateLimiter.index_ (requestRateLimiter_ c)) ->
  AllowRequest inet_pton cfg now c = Ret (c', res) -> accounted (shared c') (l ++ c' :: r).
Proof.
  intros Ha Hr1 Hr2. unfold AllowRequest. destruct (acquire_connection inet_pton cfg c) as [[c1 b]|] eqn:E1; [|done].
  destruct (acquire_connection_accounted l c r c1 b Ha Hr1 E1) as (Ha1 & Eb & Er). cbn [obind].
  destruct b; cbn [negb]; [|by intros [= <- _]].
  destruct (acquire_rate cfg now c1) as [[c2 b]|] eqn:E2; [|done]. rewrite <- Er in Hr2.
  destruct (acquire_rate_accounted now l c1 r c2 b Ha1 Hr2 (eq_sym Eb) E2) as [Ha2 Ei]. cbn [obind].
  destruct b; cbn [negb]; [|by intros [= <- _]].
  destruct Ha2 as [Hc (V & Hv & Ht & Hk) Ho].
  destruct (RateLimiter.AllowRequest_refines (ipConfig cfg) cap now (connInfo c2) _ V Hv) as (rr & E3 & Hv3).
  cbn [shared snd] in E3. rewrite E3. cbn [obind]. intros [= <- _].
  destruct (allow_counts (ipConfig cfg) now (NormalizeIp (connInfo c2)) V Ht) as [Ht3 Hk3].
  apply (accounted_same _ l c2); [done..|]. split; [exact Hc| |exact Ho]. eexists. split; [exact Hv3|]. split; [exact Ht3|].
  intros k. by rewrite Hk3, Hk.
Qed.

Lemma HandleClose_accounted l c r :
  accounted (shared c) (l ++ c :: r) -> exists c', HandleClose c = Ret c' /\ accounted (shared c') (l ++ r).
Proof.
  intros Ha. pose proof (accounted_mid_cons l c r Ha) as Hord. destruct Ha as [(m & R & C & W) (V & Hv & Ht & Hk) Ho].
  assert (Hc : exists cl m', (if ipAcquired c then ConnLimiter.ReleaseConnection (connInfo c) (connectionLimiter_ c) else Ret (connectionLimiter_ c)) = Ret cl /\
            ShardMap.map_rep cl m' /\ ConnLimiter.counts m' (charged (l ++ r)) /\ ConnLimiter.within (ipConfig cfg) (charged (l ++ r))).
  { rewrite charged_app. rewrite charged_mid in C, W. unfold charge in C, W. destruct (ipAcquired c).
    - destruct (ConnLimiter.ReleaseConnection_ok (ipConfig cfg) Hmax (connInfo c) _ m _ _ R C W) as (cl & m' & E & H'). by exists cl, m'.
    - by exists (connectionLimiter_ c), m. }
  destruct Hc as (cl & m' & Ec & R' & C' & W').
  assert (Hr : exists rr V', (if rateLimiterAcquired c then RateLimiter.Release (connInfo c) (requestRateLimiter_ c) else Ret (requestRateLimiter_ c)) = Ret rr /\
            RateLimiter.refines cap rr V' /\ tidy V' /\ forall k, refs k V' = open_on k (rated (l ++ r))).
  { pose proof (fun k => rated_charged k _ Ho) as Hle. setoid_rewrite rated_app. setoid_rewrite rated_mid in Hk.
    setoid_rewrite rated_mid in Hle. unfold rate in Hk, Hle. destruct (rateLimiterAcquired c).
    - destruct (RateLimiter.Release_refines cap (connInfo c) _ V Hv) as (rr & E & Hv').
      set (k0 := NormalizeIp (connInfo c)) in *.
      assert (Hlt : 0 < refs k0 V < 2 ^ 32).
      { split; [|specialize (Hle k0); specialize (W k0); rewrite Hk; lia]. rewrite Hk, !open_on_app, ConnLimiter.open_on_cons, decide_True by done.
        pose proof (ConnLimiter.open_on_nonneg k0 (rated l)). pose proof (ConnLimiter.open_on_nonneg k0 (rated r)).
        pose proof (ConnLimiter.open_on_nonneg k0 []). lia. }
      destruct (release_counts k0 V Ht Hlt) as [Ht' Hk']. exists rr, (RateLimiter.spec_release k0 V). split_and!; [done|done|done|].
      intros k. rewrite Hk', Hk, !open_on_app, ConnLimiter.open_on_cons. fold k0. unfold open_on at 2. cbn [filter list_filter length].
      destruct (decide (k0 = k)); cbn; lia.
    - by exists (requestRateLimiter_ c), V. }
  destruct Hr as (rr & V' & Er & Hv' & Ht' & Hk').
  eexists. unfold HandleClose. rewrite Ec, Er. cbn [obind]. split; [reflexivity|].
  split; [by exists m'|by exists V'|]. apply Forall_app in Ho as [Hl Ho]. apply Forall_cons in Ho as [_ Hr']. by apply Forall_app.
Qed.

Lemma share_accounted s l c r : accounted s (l ++ c :: r) -> accounted (shared (share s c)) (l ++ share s c :: r).
Proof. intros Ha. apply (accounted_same _ l c); [done..|]. by destruct s. Qed.

(** Same flags, same address, same limiters. *)
Lemma limits_accounted c1 c2 s l r : limits c1 = limits c2 -> accounted s (l ++ c1 :: r) -> accounted s (l ++ c2 :: r).
Proof. unfold limits. intros [= E1 E2 E3 _ _]. by apply accounted_same. Qed.

Lemma limits_shared c1 c2 : limits c1 = limits c2 -> shared c1 = shared c2.
Proof. unfold limits, shared. by intros [= _ _ _ -> ->]. Qed.

Lemma HandleRequest_accounted now nowUs l c r c' :
  accounted (shared c) (l ++ c :: r) ->
  ShardMap.map_room (connectionLimiter_ c) -> ShardMap.map_room (RateLimiter.index_ (requestRateLimiter_ c)) ->
  HandleRequest inet_pton FileExists GetFileSize cfg node_ptr now nowUs c = Ret c' -> accounted (shared c') (l ++ c' :: r).
Proof.
  intros Ha H1 H2 Hh. destruct (limits_HandleRequest now nowUs c c' Hh) as [E|(c1 & c2 & res & E1 & Hal & E2)].
  - rewrite (limits_shared _ _ E). by apply (limits_accounted c c').
  - rewrite (limits_shared _ _ E2). apply (limits_accounted c2 c'); [done|].
    assert (E3 := E1). unfold limits in E3. injection E3 as _ _ _ E4 E5.
    apply (AllowRequest_accounted now l c1 r c2 res); [|by rewrite E4|by rewrite E5|done].
    rewrite (limits_shared _ _ E1). by apply (limits_accounted c c1).
Qed.

Lemma serving_accounted s cs : serving s cs -> accounted s cs.
Proof.
  induction 1 as [cl rr R Hv|s cs c _ [Hc Hr Ho] E1 E2|s l c r op _ Ha|s l c r now nowUs c' _ Ha H1 H2 Hh|s l c r nowUs k _ Ha _|s l c r c' _ Ha Hc].
  - split; [|exists []; split_and!; [done|by split; [apply NoDup_nil_2|]|done]|done].
    exists ∅. split_and!; [done|done|]. intros k. unfold open_on. cbn. lia.
  - split; unfold charged, rated in *; cbn [flat_map].
    + unfold charge. by rewrite E1.
    + unfold rate. by rewrite E2.
    + constructor; [|done]. unfold ordered. by rewrite E2.
  - by apply (limits_accounted c); [rewrite limits_do_io|].
  - apply (HandleRequest_accounted now nowUs l (share s c) r c'); [by apply share_accounted|done|done|done].
  - by apply (limits_accounted c); [rewrite limits_resume|].
  - destruct (HandleClose_accounted l (share s c) r (share_accounted s l c r Ha)) as (c2 & E & Ha'). rewrite E in Hc. by injection Hc as <-.
Qed.

(** C9: the limits hold over every interleaving.  However the reads, requests, suspensions,
    clears and closes of the connections are ordered, over any number of requests on each,
    no subnet has more counted connections
    than the limit; the connection table is exactly the count of the open connections
    per subnet and the rate limiter's reference counts are exactly its own, so nothing
    leaks and nothing is released twice; and closing any open connection succeeds.  A
    request is taken only while the allocator can grow the two tables ([map_room]). *)
Theorem connections_accounted s cs :
  serving s cs ->
  (forall k, open_on k (charged cs) <= maxConnectionsPerIp (ipConfig cfg) /\
     ShardMap.map_get k s.1 = Ret (if 0 <? open_on k (charged cs) then Some (open_on k (charged cs)) else None)) /\
  (exists V, RateLimiter.refines cap s.2 V /\ forall k, refs k V = open_on k (rated cs)) /\
  (forall c, c ∈ cs -> exists c', HandleClose (share s c) = Ret c').
Proof.
  intros Hs. pose proof (serving_accounted s cs Hs) as Ha. split; [|split].
  - destruct Ha as [(m & R & C & W) _ _]. intros k. split; [apply W|]. rewrite (ShardMap.map_get_ok k s.1 m R). by rewrite C.
  - destruct Ha as [_ (V & Hv & _ & Hk) _]. by exists V.
  - intros c (l & r & ->)%list_elem_of_split.
    destruct (HandleClose_accounted l (share s c) r (share_accounted s l c r Ha)) as (c' & E & _). by exists c'.
Qed.

End serving.

(** ** A run *)

Abbreviation w_serving := (serving (FM := w_map) IpUtils.toy_pton (fun _ => false) (fun _ => 0) w_cfg w_node 64).

Definition w_shared : @HashShard.shard WFXIpAddress Z * RateLimiter.limiter (@HashShard.shard WFXIpAddress Z) := (w_connections, w_limiter).

Lemma w_opened c : ipAcquired c = false -> rateLimiterAcquired c = false -> w_serving w_shared [c].
Proof.
  intros Hi Hr. destruct ConnLimiter.w_new as (cl & E1 & R & Hm). destruct RateLimiter.w_fresh as (rr & E2 & Hv & _).
  assert (Ecl : w_connections = cl) by (unfold w_connections; by rewrite E1).
  assert (Err : w_limiter = rr) by (unfold w_limiter; cbn [ipConfig w_cfg]; by rewrite E2).
  unfold w_shared. rewrite Ecl, Err. apply serving_open; [|exact Hi|exact Hr]. apply serving_start; [exact R|exact Hv].
Qed.

(** Two requests on one connection: the first arrives in two reads, is answered and sent, the
    client is cleared, the second arrives and is answered; the connection is counted once. *)
Definition w_empty : w_Ctx := w_ctx [].
Definition w_now : bytes := w_line (lit "GET") (lit "/now") ++ crlf.

(** Deliver bytes, then call the engine; what it leaves stays when it fails. *)
Definition w_read (data : bytes) (c : w_Ctx) : w_Ctx :=
  match w_handle (share (shared c) (do_io (Receive data) c)) with Ret c => c | Fatal _ => c end.
Definition w_resume (c : w_Ctx) : w_Ctx := match Middleware.suspended (cx c) with Some k => resume w_cfg w_node 8 k c | None => c end.
Definition w_half : w_Ctx := w_read (take 9 w_now) w_empty.
Definition w_first : w_Ctx := w_resume (w_read (drop 9 w_now) w_half).
Definition w_cleared : w_Ctx := do_io Clear (do_io (Send 4096) w_first).
Definition w_second : w_Ctx := w_resume (w_read w_now w_cleared).

Definition w_room (s : @HashShard.shard WFXIpAddress Z * RateLimiter.limiter (@HashShard.shard WFXIpAddress Z)) : Prop :=
  ShardMap.map_room (FiniteMap := w_map) s.1 /\ ShardMap.map_room (FiniteMap := w_map) (RateLimiter.index_ s.2).

Lemma w_read_serves data c : returns (w_handle (share (shared c) (do_io (Receive data) c))) = true -> w_room (shared c) ->
  w_serving (shared c) [c] -> w_serving (shared (w_read data c)) [w_read data c].
Proof.
  intros [c' E]%ret_of_bool [H1 H2] Hs. unfold w_read. rewrite E.
  exact (serving_request _ _ _ _ _ _ (shared c) [] (do_io (Receive data) c) [] 7 7 c' (serving_io _ _ _ _ _ _ (shared c) [] c [] (Receive data) Hs) H1 H2 E).
Qed.

Lemma w_resume_serves c : w_serving (shared c) [c] -> w_serving (shared (w_resume c)) [w_resume c].
Proof.
  intros Hs. unfold w_resume. destruct (Middleware.suspended (cx c)) as [k|] eqn:E; [|exact Hs].
  rewrite (limits_shared _ c) by apply limits_resume. exact (serving_resume _ _ _ _ _ _ _ [] c [] 8 k Hs E).
Qed.

Lemma w_io_serves op c : w_serving (shared c) [c] -> w_serving (shared (do_io op c)) [do_io op c].
Proof. intros Hs. rewrite (limits_shared _ c) by apply limits_do_io. exact (serving_io _ _ _ _ _ _ _ [] c [] op Hs). Qed.

Definition w_small (u : @HashShard.shard WFXIpAddress Z) : bool :=
  match u with Some t => Z.of_nat (HashShard.capacity_ t) <=? 512 | None => false end.

Lemma w_room_by_eval s : w_small s.1 = true -> w_small (RateLimiter.index_ s.2) = true -> w_room s.
Proof.
  assert (H : forall u, w_small u = true -> ShardMap.map_room (FiniteMap := w_map) u).
  { intros [t|] E; [|done]. apply Z.leb_le in E. split; [done|]. split; [done|]. lia. }
  intros H1 H2. split; by apply H.
Qed.

(** The second request is answered on the connection the first was counted on; closing it
    succeeds. *)
Lemma connections_accounted_witness :
  w_serving (shared w_second) [w_second] /\ charged [w_second] = [connInfo w_second] /\
  calls w_second = [RefreshExpiry 5; ResumeReceive; RefreshExpiry 20; RefreshExpiry 20; Write []; RefreshExpiry 20; RefreshExpiry 20; Write []] /\
  exists c', HandleClose (FM := w_map) (share (shared w_second) w_second) = Ret c'.
Proof.
  assert (H0 : w_serving (shared w_empty) [w_empty]) by (apply w_opened; reflexivity).
  assert (H1 : w_serving (shared w_half) [w_half]).
  { apply w_read_serves; [vm_compute; reflexivity|apply w_room_by_eval; vm_compute; reflexivity|exact H0]. }
  assert (H2 : w_serving (shared w_first) [w_first]).
  { apply w_resume_serves, w_read_serves; [vm_compute; reflexivity|apply w_room_by_eval; vm_compute; reflexivity|exact H1]. }
  assert (H3 : w_serving (shared w_cleared) [w_cleared]) by (apply w_io_serves, w_io_serves; exact H2).
  assert (H : w_serving (shared w_second) [w_second]).
  { apply w_resume_serves, w_read_serves; [vm_compute; reflexivity|apply w_room_by_eval; vm_compute; reflexivity|exact H3]. }
  split; [exact H|]. split; [vm_compute; reflexivity|]. split; [vm_compute; reflexivity|].
  destruct (connections_accounted (FM := w_map) IpUtils.toy_pton (fun _ => false) (fun _ => 0) w_cfg w_node 64 ltac:(split; reflexivity)
              (shared w_second) [w_second] H) as (_ & _ & Hclose).
  apply Hclose, list_elem_of_here.
Defined.

End Connections.
