(* ===== verification/ClientIO.v ===== *)
(** * ClientIO: the client half of [os_specific/linux/epoll_connection.cpp]

    A client's slot from [accept] to release: the legal states, the loops that hand
    bytes to the socket, file transfers, generator streams, flushed rounds, closing, and
    the dispatch of an event.  Every handler of the event loop is a function on the
    slot; [Fatal] is [Logger::Fatal], which ends the worker.

    The kernel and the TLS library answer calls in the order they are made: [kernel] is
    what is left of their answers, [WouldBlock] when it is empty.  [log] is what the
    handler did to the world, in order; the bytes the peer gets are its [Sent] entries.

    The slot's endpoint request ([endpointCtx]) belongs to the outbound half, which is
    not modelled: releasing it is one entry of the log. *)

From stdpp Require Import list.
From S2P Require Import Prelude RWBuffer Response Metrics Engine.
Import RWBuffer.

Module ClientIO.

Abbreviation HttpResponse := Response.HttpResponse.
Abbreviation CONNECTION_CLOSE := Engine.CONNECTION_CLOSE.
Abbreviation CONNECTION_ALIVE := Engine.CONNECTION_ALIVE.
#[local] Existing Instance Engine.ConnectionState_eq_dec.
#[local] Existing Instance Response.BodyKind_eq_dec.

(** ** States of a slot *)

Inductive EventType :=
| EVENT_ACCEPT
| EVENT_HANDSHAKE
| EVENT_RECV
| EVENT_SEND
| EVENT_SEND_FILE
| EVENT_SHUTDOWN
| EVENT_CONNECT
| EVENT_ENDPOINT_HANDSHAKE
| EVENT_ENDPOINT_ONCONNECT
| EVENT_ENDPOINT_SEND
| EVENT_ENDPOINT_RECV
| EVENT_ENDPOINT_SHUTDOWN.

#[export] Instance EventType_eq_dec : EqDecision EventType.
Proof. solve_decision. Defined.

Definition event_value (e : EventType) : Z :=
  match e with
  | EVENT_ACCEPT => 0 | EVENT_HANDSHAKE => 1 | EVENT_RECV => 2 | EVENT_SEND => 3 | EVENT_SEND_FILE => 4 | EVENT_SHUTDOWN => 5
  | EVENT_CONNECT => 6 | EVENT_ENDPOINT_HANDSHAKE => 7 | EVENT_ENDPOINT_ONCONNECT => 8 | EVENT_ENDPOINT_SEND => 9
  | EVENT_ENDPOINT_RECV => 10 | EVENT_ENDPOINT_SHUTDOWN => 11
  end.

Definition bit (e : EventType) : Z := u16 (Z.shiftl 1 (event_value e)).
Definition bits (l : list EventType) : Z := fold_right (fun e m => Z.lor (bit e) m) 0 l.

(** Bit [i] of [LEGAL_FROM to]: state [i] may precede [to]. *)
Definition LEGAL_FROM (to : EventType) : Z :=
  let send := bits [EVENT_RECV; EVENT_SEND; EVENT_SEND_FILE] in
  let connect := bits [EVENT_ACCEPT; EVENT_CONNECT; EVENT_ENDPOINT_HANDSHAKE; EVENT_ENDPOINT_ONCONNECT] in
  let onconnect := Z.lor connect (bits [EVENT_ENDPOINT_ONCONNECT; EVENT_ENDPOINT_SEND]) in
  let endpoint_send := Z.lor onconnect (bits [EVENT_ENDPOINT_RECV]) in
  match to with
  | EVENT_ACCEPT => 0
  | EVENT_HANDSHAKE => bits [EVENT_ACCEPT; EVENT_HANDSHAKE]
  | EVENT_RECV => bits [EVENT_ACCEPT; EVENT_HANDSHAKE; EVENT_RECV; EVENT_SEND; EVENT_SEND_FILE]
  | EVENT_SEND => send
  | EVENT_SEND_FILE => send
  | EVENT_SHUTDOWN => bits [EVENT_ACCEPT; EVENT_HANDSHAKE; EVENT_RECV; EVENT_SEND; EVENT_SEND_FILE; EVENT_SHUTDOWN]
  | EVENT_CONNECT => connect
  | EVENT_ENDPOINT_HANDSHAKE => connect
  | EVENT_ENDPOINT_ONCONNECT => onconnect
  | EVENT_ENDPOINT_SEND => endpoint_send
  | EVENT_ENDPOINT_RECV => bits [EVENT_CONNECT; EVENT_ENDPOINT_ONCONNECT; EVENT_ENDPOINT_SEND; EVENT_ENDPOINT_RECV]
  | EVENT_ENDPOINT_SHUTDOWN => Z.lor endpoint_send (bits [EVENT_ENDPOINT_SHUTDOWN])
  end.

Definition legal (from to : EventType) : bool := negb (Z.land (Z.shiftr (LEGAL_FROM to) (event_value from)) 1 =? 0).

(** ** Answers and actions *)

(** [Took n]: the call moved [n] bytes (for a handshake or a shutdown: it is done).
    [Gone again]: the result 0, [errno] left at [EAGAIN] by an earlier call or not. *)
Inductive answer := Took (n : Z) | WouldBlock | Gone (again : bool) | Failed.

Inductive FlushStatus := COMPLETED | PENDING | FAILED.
Inductive StreamAction := CONTINUE | STOP_AND_ALIVE_CONN | STOP_AND_CLOSE_CONN.

#[export] Instance StreamAction_eq_dec : EqDecision StreamAction.
Proof. solve_decision. Defined.

Inductive action :=
| Sent (data : bytes)
| RefreshExpiry (timeout : Z)
| TimerCancelled
| AsyncTimerRemoved
| AsyncCompleted
| AsyncDestroyed
| EndpointReleased
| GeneratorDestroyed
| EpollAdd
| EpollDel
| OnClose
| SocketClosed
| SlotFreed.

(** [fd] is what reading the descriptor gives; [fileSize] is what the file cache said. *)
Record FileInfo := File {
  fd : option bytes;
  fileSize : Z;
  offset : Z
}.
Definition no_file : FileInfo := File None 0 0.

(** Fields of [NetworkMetrics]. *)
Definition ACCEPTS : nat := 0.
Definition READS : nat := 1.
Definition BYTES_READ : nat := 2.
Definition WRITES : nat := 3.
Definition BYTES_WRITTEN : nat := 4.
Definition FILE_CALLS : nat := 5.
Definition FILE_FALLBACKS : nat := 6.
Definition FILE_BYTES_WRITTEN : nat := 7.
Definition ACTIVE_CLIENT_CONNS : nat := 8.

Section client.
Context `{ALC : Allocator} {G : Type}.

(** A generator of user code ([next] is a parameter below), with a [destroy] or not, or
    the file reader the TLS fallback installs. *)
Inductive source := User (g : G) (destroy : bool) | FileReader.

Record flags := Flags {
  isStreamOperation : bool;
  isFileOperation : bool;
  isAsyncTimerOperation : bool;
  isShuttingDown : bool;
  streamChunked : bool;
  isAwaitFlush : bool;
  awaitFlushFinal : bool;
  suspended : bool          (* GetAsyncCallState() == SUSPENDED *)
}.
Definition no_flags : flags := Flags false false false false false false false false.

Record ClientCtx := Client {
  eventType : EventType;
  generationId : Z;
  connectionState : Engine.ConnectionState;
  fl : flags;
  sslConn : bool;
  socket : bool;
  asyncData : bool;         (* a coroutine waits: asyncComplete is set *)
  endpointCtx : bool;
  responseInfo : option HttpResponse;
  rwBuffer : rwbuffer;
  fileInfo : FileInfo;
  streamGenerator : option source;
  inbox : bytes;            (* received by the kernel, not yet read *)
  kernel : list answer;
  network : Metrics.counters;
  log : list action
}.

Definition set_eventType v c := Client v (generationId c) (connectionState c) (fl c) (sslConn c) (socket c) (asyncData c) (endpointCtx c) (responseInfo c) (rwBuffer c) (fileInfo c) (streamGenerator c) (inbox c) (kernel c) (network c) (log c).
Definition set_generationId v c := Client (eventType c) v (connectionState c) (fl c) (sslConn c) (socket c) (asyncData c) (endpointCtx c) (responseInfo c) (rwBuffer c) (fileInfo c) (streamGenerator c) (inbox c) (kernel c) (network c) (log c).
Definition set_connectionState v c := Client (eventType c) (generationId c) v (fl c) (sslConn c) (socket c) (asyncData c) (endpointCtx c) (responseInfo c) (rwBuffer c) (fileInfo c) (streamGenerator c) (inbox c) (kernel c) (network c) (log c).
Definition set_fl v c := Client (eventType c) (generationId c) (connectionState c) v (sslConn c) (socket c) (asyncData c) (endpointCtx c) (responseInfo c) (rwBuffer c) (fileInfo c) (streamGenerator c) (inbox c) (kernel c) (network c) (log c).
Definition set_sslConn v c := Client (eventType c) (generationId c) (connectionState c) (fl c) v (socket c) (asyncData c) (endpointCtx c) (responseInfo c) (rwBuffer c) (fileInfo c) (streamGenerator c) (inbox c) (kernel c) (network c) (log c).
Definition set_socket v c := Client (eventType c) (generationId c) (connectionState c) (fl c) (sslConn c) v (asyncData c) (endpointCtx c) (responseInfo c) (rwBuffer c) (fileInfo c) (streamGenerator c) (inbox c) (kernel c) (network c) (log c).
Definition set_asyncData v c := Client (eventType c) (generationId c) (connectionState c) (fl c) (sslConn c) (socket c) v (endpointCtx c) (responseInfo c) (rwBuffer c) (fileInfo c) (streamGenerator c) (inbox c) (kernel c) (network c) (log c).
Definition set_endpointCtx v c := Client (eventType c) (generationId c) (connectionState c) (fl c) (sslConn c) (socket c) (asyncData c) v (responseInfo c) (rwBuffer c) (fileInfo c) (streamGenerator c) (inbox c) (kernel c) (network c) (log c).
Definition set_responseInfo v c := Client (eventType c) (generationId c) (connectionState c) (fl c) (sslConn c) (socket c) (asyncData c) (endpointCtx c) v (rwBuffer c) (fileInfo c) (streamGenerator c) (inbox c) (kernel c) (network c) (log c).
Definition set_rwBuffer v c := Client (eventType c) (generationId c) (connectionState c) (fl c) (sslConn c) (socket c) (asyncData c) (endpointCtx c) (responseInfo c) v (fileInfo c) (streamGenerator c) (inbox c) (kernel c) (network c) (log c).
Definition set_fileInfo v c := Client (eventType c) (generationId c) (connectionState c) (fl c) (sslConn c) (socket c) (asyncData c) (endpointCtx c) (responseInfo c) (rwBuffer c) v (streamGenerator c) (inbox c) (kernel c) (network c) (log c).
Definition set_streamGenerator v c := Client (eventType c) (generationId c) (connectionState c) (fl c) (sslConn c) (socket c) (asyncData c) (endpointCtx c) (responseInfo c) (rwBuffer c) (fileInfo c) v (inbox c) (kernel c) (network c) (log c).
Definition set_inbox v c := Client (eventType c) (generationId c) (connectionState c) (fl c) (sslConn c) (socket c) (asyncData c) (endpointCtx c) (responseInfo c) (rwBuffer c) (fileInfo c) (streamGenerator c) v (kernel c) (network c) (log c).
Definition set_kernel v c := Client (eventType c) (generationId c) (connectionState c) (fl c) (sslConn c) (socket c) (asyncData c) (endpointCtx c) (responseInfo c) (rwBuffer c) (fileInfo c) (streamGenerator c) (inbox c) v (network c) (log c).
Definition set_network v c := Client (eventType c) (generationId c) (connectionState c) (fl c) (sslConn c) (socket c) (asyncData c) (endpointCtx c) (responseInfo c) (rwBuffer c) (fileInfo c) (streamGenerator c) (inbox c) (kernel c) v (log c).
Definition emit a c := Client (eventType c) (generationId c) (connectionState c) (fl c) (sslConn c) (socket c) (asyncData c) (endpointCtx c) (responseInfo c) (rwBuffer c) (fileInfo c) (streamGenerator c) (inbox c) (kernel c) (network c) (log c ++ [a]).
Definition set_isStreamOperation v c := set_fl (Flags v (isFileOperation (fl c)) (isAsyncTimerOperation (fl c)) (isShuttingDown (fl c)) (streamChunked (fl c)) (isAwaitFlush (fl c)) (awaitFlushFinal (fl c)) (suspended (fl c))) c.
Definition set_isFileOperation v c := set_fl (Flags (isStreamOperation (fl c)) v (isAsyncTimerOperation (fl c)) (isShuttingDown (fl c)) (streamChunked (fl c)) (isAwaitFlush (fl c)) (awaitFlushFinal (fl c)) (suspended (fl c))) c.
Definition set_isAsyncTimerOperation v c := set_fl (Flags (isStreamOperation (fl c)) (isFileOperation (fl c)) v (isShuttingDown (fl c)) (streamChunked (fl c)) (isAwaitFlush (fl c)) (awaitFlushFinal (fl c)) (suspended (fl c))) c.
Definition set_isShuttingDown v c := set_fl (Flags (isStreamOperation (fl c)) (isFileOperation (fl c)) (isAsyncTimerOperation (fl c)) v (streamChunked (fl c)) (isAwaitFlush (fl c)) (awaitFlushFinal (fl c)) (suspended (fl c))) c.
Definition set_streamChunked v c := set_fl (Flags (isStreamOperation (fl c)) (isFileOperation (fl c)) (isAsyncTimerOperation (fl c)) (isShuttingDown (fl c)) v (isAwaitFlush (fl c)) (awaitFlushFinal (fl c)) (suspended (fl c))) c.
Definition set_isAwaitFlush v c := set_fl (Flags (isStreamOperation (fl c)) (isFileOperation (fl c)) (isAsyncTimerOperation (fl c)) (isShuttingDown (fl c)) (streamChunked (fl c)) v (awaitFlushFinal (fl c)) (suspended (fl c))) c.
Definition set_awaitFlushFinal v c := set_fl (Flags (isStreamOperation (fl c)) (isFileOperation (fl c)) (isAsyncTimerOperation (fl c)) (isShuttingDown (fl c)) (streamChunked (fl c)) (isAwaitFlush (fl c)) v (suspended (fl c))) c.
Definition set_suspended v c := set_fl (Flags (isStreamOperation (fl c)) (isFileOperation (fl c)) (isAsyncTimerOperation (fl c)) (isShuttingDown (fl c)) (streamChunked (fl c)) (isAwaitFlush (fl c)) (awaitFlushFinal (fl c)) v) c.
Definition count (field : nat) (n : Z) (c : ClientCtx) : ClientCtx := set_network (Engine.bump field n (network c)) c.

Context (next : G -> Z -> bytes * StreamAction * G).
Context (idleTimeout readBufferIncSize maxReadBufferSize sendBufferIncSize maxSendBufferSize : Z).
(** What opening a path gives ([fileCache_]); whether the TLS library can send a file. *)
Context (GetFileDesc : bytes -> option (bytes * Z)) (ktls : bool).

Definition ask (c : ClientCtx) : answer * ClientCtx :=
  match kernel c with [] => (WouldBlock, c) | a :: k => (a, set_kernel k c) end.

(** A call of [send] or [sendfile] moves at least one byte and at most what it is
    given. *)
Definition moved (n : Z) (l : bytes) : nat := Z.to_nat (Z.max 1 (Z.min n (Z.of_nat (length l)))).

Definition WrapWrite (l : bytes) (c : ClientCtx) : answer * ClientCtx :=
  match ask c with
  | (Took n, c) =>
      let n := Z.of_nat (moved n l) in
      (Took n, emit (Sent (take (Z.to_nat n) l)) (count BYTES_WRITTEN n (count WRITES 1 c)))
  | r => r
  end.

(** ** [EnterState] *)

Definition EnterState (to : EventType) (c : ClientCtx) : outcome ClientCtx :=
  if negb (legal (eventType c) to) then Fatal "[Epoll]: illegal EventType transition" else Ret (set_eventType to c).

(** ** Closing *)

(** [AsyncCallbackImpl] with [destroy]: the suspended coroutine is dropped. *)
Definition DestroyAsync (c : ClientCtx) : ClientCtx := if asyncData c then emit AsyncDestroyed (set_asyncData false c) else c.

Definition CleanupStreamGenerator (c : ClientCtx) : ClientCtx :=
  let c := match streamGenerator c with Some (User _ true) => emit GeneratorDestroyed c | _ => c end in
  set_streamGenerator None c.

Definition Reset (c : ClientCtx) : ClientCtx :=
  let c := set_responseInfo None (set_rwBuffer (ResetBuffer (rwBuffer c)) c) in
  let c := CleanupStreamGenerator c in
  let c := set_connectionState CONNECTION_CLOSE (set_fl no_flags c) in
  set_endpointCtx false (set_asyncData false (set_fileInfo no_file (set_socket false (set_eventType EVENT_ACCEPT c)))).

Definition Clear (c : ClientCtx) : ClientCtx :=
  let c := set_rwBuffer (ClearBuffer (rwBuffer c)) c in
  let c := set_responseInfo (Response.Reset <$> responseInfo c) c in
  let c := set_suspended false (CleanupStreamGenerator c) in
  let c := set_streamChunked false (set_isAsyncTimerOperation false (set_isStreamOperation false (set_isFileOperation false c))) in
  set_endpointCtx false (set_asyncData false (set_fileInfo no_file c)).

(** [generationId++], never 0. *)
Definition bump_generation (c : ClientCtx) : ClientCtx :=
  let g := u16 (generationId c + 1) in set_generationId (if g =? 0 then 1 else g) c.

Definition ReleaseClient (c : ClientCtx) : ClientCtx :=
  let c := emit TimerCancelled (count ACTIVE_CLIENT_CONNS (-1) c) in
  let c := if isAsyncTimerOperation (fl c) then emit AsyncTimerRemoved c else c in
  let c := DestroyAsync c in
  let c := if endpointCtx c then emit EndpointReleased (set_endpointCtx false c) else c in
  let c := emit OnClose c in
  let c := if socket c then emit SocketClosed c else c in
  emit SlotFreed (Reset (bump_generation c)).

Definition CloseCommon (forceClose : bool) (c : ClientCtx) : outcome (bool * ClientCtx) :=
  if negb forceClose && isShuttingDown (fl c) then Ret (false, c)
  else
    let c := set_isShuttingDown true c in
    if negb (sslConn c) then Ret (true, c)
    else if forceClose then Ret (true, set_sslConn false c)
    else
      match ask c with
      | (WouldBlock, c) => let* c := EnterState EVENT_SHUTDOWN c in Ret (false, c)
      | (_, c) => Ret (true, set_sslConn false c)
      end.

Definition Close (forceClose : bool) (c : ClientCtx) : outcome ClientCtx :=
  let* x := CloseCommon forceClose c in
  let '(go, c) := x in
  Ret (if (go : bool) then ReleaseClient (emit EpollDel c) else c).

(** ** Sending *)

Definition on_write_block (f : block -> block) (c : ClientCtx) : ClientCtx :=
  set_rwBuffer (RW (readBuffer_ (rwBuffer c)) (f <$> writeBuffer_ (rwBuffer c))) c.
Definition set_writtenLength (n : Z) (b : block) : block := Block (b_base b) (b_bufferSize b) (b_dataLength b) n (b_mem b).
Definition set_dataLength (n : Z) (b : block) : block := Block (b_base b) (b_bufferSize b) n (b_writtenLength b) (b_mem b).
Definition store (off : nat) (data : bytes) (b : block) : block :=
  Block (b_base b) (b_bufferSize b) (b_dataLength b) (b_writtenLength b) (memcpy_at off data (b_mem b)).

(** The loop that hands the pending bytes to the socket.  [stale]: a result of 0 is
    judged by what [errno] says, as the stream's loop does. *)
Fixpoint send_loop (stale : bool) (fuel : nat) (c : ClientCtx) : FlushStatus * ClientCtx :=
  match fuel, writeBuffer_ (rwBuffer c) with
  | S f, Some b =>
      if b_writtenLength b <? b_dataLength b then
        match WrapWrite (pending b) c with
        | (Took n, c) => send_loop stale f (on_write_block (fun b => set_writtenLength (u32 (b_writtenLength b + n)) b) c)
        | (WouldBlock, c) => (PENDING, c)
        | (Gone again, c) => (if stale && again then PENDING else FAILED, c)
        | (Failed, c) => (FAILED, c)
        end
      else (COMPLETED, c)
  | _, _ => (COMPLETED, c)
  end.

(** Every turn moves a byte. *)
Definition send_pending (stale : bool) (c : ClientCtx) : FlushStatus * ClientCtx :=
  let left := match writeBuffer_ (rwBuffer c) with Some b => b_dataLength b - b_writtenLength b | None => 0 end in
  send_loop stale (S (Z.to_nat left)) c.

Definition after_send (x : FlushStatus * ClientCtx) : outcome (FlushStatus * ClientCtx) :=
  match x with
  | (COMPLETED, c) => Ret (COMPLETED, c)
  | (PENDING, c) => let* c := EnterState EVENT_SEND c in Ret (PENDING, c)
  | (FAILED, c) => let* c := Close false c in Ret (FAILED, c)
  end.

Definition DrainWriteBuffer (c : ClientCtx) : outcome (FlushStatus * ClientCtx) := after_send (send_pending false c).

Definition EnsureReadReady (c : ClientCtx) : outcome (bool * ClientCtx) :=
  match readBuffer_ (rwBuffer c) with
  | Some _ => Ret (true, c)
  | None =>
      let '(ok, rw) := InitReadBuffer readBufferIncSize (rwBuffer c) in
      let c := set_rwBuffer rw c in
      if ok then Ret (true, c) else let* c := Close false c in Ret (false, c)
  end.

Definition ResumeReceive (c : ClientCtx) : outcome ClientCtx :=
  let* x := EnsureReadReady c in
  let '(ok, c) := x in
  if (ok : bool) then EnterState EVENT_RECV c else Ret c.

(** The end of a response: close, or back to reading. *)
Definition finish (c : ClientCtx) : outcome ClientCtx :=
  if bool_decide (connectionState c = CONNECTION_CLOSE) then Close false c else ResumeReceive (Clear c).

(** [__CleanupOrRearm]. *)
Definition rearm_ (resume send_file : ClientCtx -> outcome ClientCtx) (c : ClientCtx) : outcome ClientCtx :=
  if isStreamOperation (fl c) then resume c else if isFileOperation (fl c) then send_file c else finish c.

Definition Write_ (resume send_file : ClientCtx -> outcome ClientCtx) (msg : bytes) (c : ClientCtx) : outcome ClientCtx :=
  match msg with
  | _ :: _ => rearm_ resume send_file (WrapWrite msg c).2
  | [] =>
      match writeBuffer_ (rwBuffer c) with
      | None => rearm_ resume send_file c
      | Some b =>
          if b_dataLength b <=? b_writtenLength b then rearm_ resume send_file c
          else
            let* x := DrainWriteBuffer c in
            match x with
            | (COMPLETED, c) => rearm_ resume send_file c
            | (_, c) => Ret c
            end
      end
  end.

(** *** Files *)

(** [sendfile] moves [fi.offset] itself; at the end of the file it moves nothing.
    [None]: the TLS library cannot do it, and the stream takes over. *)
Definition WrapFile (c : ClientCtx) : option answer * ClientCtx :=
  let fi := fileInfo c in
  if sslConn c && negb ktls then
    (None, set_streamGenerator (Some FileReader) (set_streamChunked false (set_isStreamOperation true
             (set_isFileOperation false (count FILE_FALLBACKS 1 c)))))
  else
    match ask c with
    | (Took n, c) =>
        let avail := take (Z.to_nat (fileSize fi - offset fi)) (drop (Z.to_nat (offset fi)) (default [] (fd fi))) in
        match avail with
        | [] => (Some (Gone false), c)
        | _ =>
            let n := Z.of_nat (moved n avail) in
            (Some (Took n), emit (Sent (take (Z.to_nat n) avail))
               (set_fileInfo (File (fd fi) (fileSize fi) (offset fi + n)) (count FILE_BYTES_WRITTEN n (count FILE_CALLS 1 c))))
        end
    | (a, c) => (Some a, c)
    end.

Fixpoint file_loop (resume : ClientCtx -> outcome ClientCtx) (fuel : nat) (c : ClientCtx) : outcome ClientCtx :=
  match fuel with
  | O => Fatal "out of fuel"
  | S f =>
      if offset (fileInfo c) <? fileSize (fileInfo c) then
        match WrapFile c with
        | (None, c) => resume c
        | (Some (Took _), c) => file_loop resume f c
        | (Some WouldBlock, c) => EnterState EVENT_SEND_FILE c
        | (Some (Gone _), c) => finish c
        | (Some Failed, c) => Close false c
        end
      else finish c
  end.

Definition SendFile_ (resume : ClientCtx -> outcome ClientCtx) (c : ClientCtx) : outcome ClientCtx :=
  let fi := fileInfo c in
  if negb (bool_decide (is_Some (fd fi))) || (fileSize fi <=? 0) then Close false c
  else file_loop resume (S (Z.to_nat (fileSize fi - offset fi))) c.

(** *** Streams *)

Definition HDR_RESERVE : Z := 10.
Definition CHUNK_END : bytes := Response.CHUNK_TERMINATOR.

(** [snprintf] with [%zX] and a line end. *)
Fixpoint hex_rev (fuel : nat) (n : Z) : bytes :=
  match fuel with
  | O => []
  | S f => at_ Response.HEX_DIGITS (Z.to_nat (n mod 16)) :: (if n / 16 =? 0 then [] else hex_rev f (n / 16))
  end.
Definition chunk_header (n : Z) : bytes := rev (hex_rev 16 n) ++ Response.CRLF.

(** The file reader: [pread] at [offset]. *)
Definition read_file (cap : Z) (c : ClientCtx) : bytes * StreamAction * ClientCtx :=
  let fi := fileInfo c in
  match fd fi with
  | None => ([], STOP_AND_CLOSE_CONN, c)
  | Some content =>
      let data := take (Z.to_nat cap) (drop (Z.to_nat (offset fi)) content) in
      match data with
      | [] => ([], STOP_AND_ALIVE_CONN, c)
      | _ => (data, CONTINUE, set_fileInfo (File (fd fi) (fileSize fi) (offset fi + Z.of_nat (length data))) c)
      end
  end.

Definition generate (cap : Z) (c : ClientCtx) : bytes * StreamAction * ClientCtx :=
  match streamGenerator c with
  | Some (User g d) => let '(data, a, g) := next g cap in (data, a, set_streamGenerator (Some (User g d)) c)
  | Some FileReader => read_file cap c
  | None => ([], CONTINUE, c)
  end.

(** A chunk laid out in the empty write buffer: framed, its size right before it, or
    as it is.  [None]: the size does not fit the ten bytes kept for it. *)
Definition place_chunk (chunked : bool) (data : bytes) (c : ClientCtx) : option ClientCtx :=
  let n := Z.of_nat (length data) in
  if negb chunked then Some (on_write_block (fun b => set_dataLength (u32 n) (store 0 data b)) c)
  else
    let c := on_write_block (store (Z.to_nat HDR_RESERVE) data) c in
    let hdr := chunk_header n in
    let hdrLen := Z.of_nat (length hdr) in
    if HDR_RESERVE <=? hdrLen then None
    else
      let c := on_write_block (fun b => store (Z.to_nat (HDR_RESERVE - hdrLen)) hdr (set_dataLength (u32 (HDR_RESERVE + n + 2)) b)) c in
      let c := set_rwBuffer (AdvanceWriteLength (HDR_RESERVE - hdrLen) (rwBuffer c)) c in
      Some (on_write_block (store (Z.to_nat (HDR_RESERVE + n)) Response.CRLF) c).

(** After the last chunk. *)
Definition end_stream (write : ClientCtx -> outcome ClientCtx) (c : ClientCtx) : outcome ClientCtx :=
  let chunked := streamChunked (fl c) in
  let c := CleanupStreamGenerator c in
  let c := set_rwBuffer (ClearWriteBuffer (rwBuffer c)) c in
  let c := set_streamChunked false (set_isStreamOperation false c) in
  if (chunked : bool) then
    let '(ok, rw) := AppendWriteData CHUNK_END sendBufferIncSize maxSendBufferSize (rwBuffer c) in
    let c := set_rwBuffer rw c in
    if (ok : bool) then write c else Close false c
  else if bool_decide (connectionState c = CONNECTION_ALIVE) then ResumeReceive (Clear c)
  else Close false c.

Definition ResumeStream_ (loop : ClientCtx -> outcome ClientCtx) (c : ClientCtx) : outcome ClientCtx :=
  match streamGenerator c, writeBuffer_ (rwBuffer c) with
  | Some _, Some _ => loop c
  | _, _ => Close false c
  end.

Fixpoint stream_loop (fuel : nat) (c : ClientCtx) : outcome ClientCtx :=
  match fuel with
  | O => Fatal "out of fuel"
  | S f =>
      let c := on_write_block (fun b => set_writtenLength 0 (set_dataLength 0 b)) c in
      match GetWritableWriteRegion (rwBuffer c) with
      | None => Close false c
      | Some (_, len) =>
          if len =? 0 then Close false c
          else
            let chunked := streamChunked (fl c) in
            let '(data, act, c) := generate (u64 (len - (if (chunked : bool) then HDR_RESERVE + 2 else 0))) c in
            let c := emit (RefreshExpiry idleTimeout) c in
            let isTerminal := negb (bool_decide (act = CONTINUE)) in
            if negb isTerminal && (length data =? 0)%nat then Close false c
            else if 2 ^ 32 - 1 <? Z.of_nat (length data) then Close false c
            else
              let c := if bool_decide (act = STOP_AND_CLOSE_CONN) then set_connectionState CONNECTION_CLOSE c else c in
              let go c :=
                if isTerminal
                then end_stream (Write_ (ResumeStream_ (stream_loop f)) (SendFile_ (ResumeStream_ (stream_loop f))) []) c
                else stream_loop f c in
              match data with
              | [] => go c
              | _ =>
                  match place_chunk chunked data c with
                  | None => Close false c
                  | Some c =>
                      let* x := after_send (send_pending true c) in
                      match x with (COMPLETED, c) => go c | (_, c) => Ret c end
                  end
              end
      end
  end.

(** Turns of the stream loop in one call: a bound for the evaluation. *)
Context (turns : nat).

Definition ResumeStream : ClientCtx -> outcome ClientCtx := ResumeStream_ (stream_loop turns).
Definition SendFile : ClientCtx -> outcome ClientCtx := SendFile_ ResumeStream.
Definition Write : bytes -> ClientCtx -> outcome ClientCtx := Write_ ResumeStream SendFile.

Definition WriteFile (path : bytes) (c : ClientCtx) : outcome ClientCtx :=
  match GetFileDesc path with
  | None => Write Engine.INTERNAL_ERROR (set_connectionState CONNECTION_CLOSE c)
  | Some (content, size) => Write [] (set_isFileOperation true (set_fileInfo (File (Some content) size 0) c))
  end.

Definition Stream (generator : option source) (chunked : bool) (c : ClientCtx) : outcome ClientCtx :=
  match generator with
  | None => Close false c
  | Some _ => Write [] (set_streamChunked chunked (set_isStreamOperation true (set_streamGenerator generator c)))
  end.

(** *** Flushed rounds *)

(** An operation on the response, whose buffer is the client's. *)
Definition on_res {R} (f : HttpResponse -> R * HttpResponse) (res : HttpResponse) (c : ClientCtx) : R * ClientCtx :=
  let '(x, res) := f (Response.set_rw (rwBuffer c) res) in
  (x, set_rwBuffer (Response.rwBuffer_ res) (set_responseInfo (Some res) c)).

(** No decision about the connection: [HandleResponse] takes it later. *)
Definition CompleteFlushRound (c : ClientCtx) : outcome (bool * ClientCtx) :=
  let isFinal := awaitFlushFinal (fl c) in
  let c := set_awaitFlushFinal false c in
  match responseInfo c with
  | None => Fatal "null response"
  | Some res =>
      match on_res (Response.FinishFlushRound sendBufferIncSize maxSendBufferSize isFinal) res c with
      | (false, c) => let* c := Close false c in Ret (false, c)
      | (true, c) => Ret (true, c)
      end
  end.

Definition FlushChunk (isFinal : bool) (c : ClientCtx) : outcome (FlushStatus * ClientCtx) :=
  let fail c := let* c := Close false c in Ret (FAILED, c) in
  match responseInfo c with
  | None => fail c
  | Some res =>
      if negb (bool_decide (Response.bodyKind_ res = Response.AWAIT_STREAM)) then fail c
      else if negb isFinal && negb (Response.HasPendingFlushData (Response.set_rw (rwBuffer c) res)) then Ret (COMPLETED, c)
      else
        match on_res (Response.PrepareFlushChunk sendBufferIncSize maxSendBufferSize isFinal) res c with
        | (false, c) => fail c
        | (true, c) =>
            let* x := DrainWriteBuffer (set_awaitFlushFinal isFinal c) in
            match x with
            | (PENDING, c) => Ret (PENDING, set_asyncData true (set_isAwaitFlush true c))
            | (COMPLETED, c) =>
                let* x := CompleteFlushRound c in
                let '(ok, c) := x in Ret (if (ok : bool) then COMPLETED else FAILED, c)
            | (FAILED, c) => Ret (FAILED, c)
            end
        end
  end.

(** ** Events *)

(** What resuming the suspended coroutine does ([asyncComplete], user code and the
    engine behind it), and the engine's read callback. *)
Context (complete : ClientCtx -> outcome ClientCtx) (onReceive_ : ClientCtx -> outcome ClientCtx).

Definition CompleteAsync (c : ClientCtx) : outcome ClientCtx :=
  if asyncData c then complete (emit AsyncCompleted (set_asyncData false c)) else Ret c.

Definition ResumeFlushChunk (c : ClientCtx) : outcome ClientCtx :=
  let* x := DrainWriteBuffer c in
  match x with
  | (COMPLETED, c) =>
      let* x := CompleteFlushRound (set_isAwaitFlush false c) in
      let '(ok, c) := x in
      if (ok : bool) then CompleteAsync c else Ret c
  | (_, c) => Ret c
  end.

Definition HandleClientWriteReady (c : ClientCtx) : outcome ClientCtx :=
  match eventType c with
  | EVENT_SEND => if isAwaitFlush (fl c) then ResumeFlushChunk c else Write [] c
  | EVENT_SEND_FILE => SendFile c
  | _ => Ret c
  end.

(** *** Reading *)

Definition WrapRead (len : Z) (c : ClientCtx) : answer * bytes * ClientCtx :=
  match ask c with
  | (Took n, c) =>
      let avail := take (Z.to_nat len) (inbox c) in
      match avail with
      | [] => (WouldBlock, [], c)
      | _ =>
          let n := Z.of_nat (moved n avail) in
          (Took n, take (Z.to_nat n) avail, set_inbox (drop (Z.to_nat n) (inbox c)) (count BYTES_READ n (count READS 1 c)))
      end
  | (a, c) => (a, [], c)
  end.

Definition on_read_block (f : block -> block) (c : ClientCtx) : ClientCtx :=
  set_rwBuffer (RW (f <$> readBuffer_ (rwBuffer c)) (writeBuffer_ (rwBuffer c))) c.

Definition room (c : ClientCtx) : Z := match GetWritableReadRegion (rwBuffer c) with Some (_, len) => len | None => 0 end.

(** Room for one more read: the buffer grows when it is full. *)
Definition ensure_room (c : ClientCtx) : bool * ClientCtx :=
  if room c =? 0 then
    let '(ok, rw) := GrowReadBuffer readBufferIncSize maxReadBufferSize 0 (rwBuffer c) in (ok, set_rwBuffer rw c)
  else (true, c).

(** Edge-triggered: until the socket would block. *)
Fixpoint receive_loop (fuel : nat) (gotData : bool) (c : ClientCtx) : outcome (bool * ClientCtx) :=
  match fuel with
  | O => Fatal "out of fuel"
  | S f =>
      let close c := let* c := Close false c in Ret (false, c) in
      match ensure_room c with
      | (false, c) => close c
      | (true, c) =>
          match WrapRead (room c) c with
          | (Took n, data, c) =>
              let c := on_read_block (fun b => store (Z.to_nat (b_dataLength b)) data b) c in
              receive_loop f true (set_rwBuffer (AdvanceReadLength n (rwBuffer c)) c)
          | (WouldBlock, _, c) => let* c := EnterState EVENT_RECV c in Ret (gotData, c)
          | (_, _, c) => close c
          end
      end
  end.

Definition Receive (c : ClientCtx) : outcome (bool * ClientCtx) :=
  let* x := EnsureReadReady c in
  let '(ok, c) := x in
  if (ok : bool) then receive_loop (S (length (inbox c))) false c else Ret (false, c).

(** *** Dispatch *)

(** The bits of [epoll_event.events] the client half looks at. *)
Record ready := Ready { EPOLLIN : bool; EPOLLOUT : bool; EPOLLRDHUP : bool; EPOLLERR_HUP : bool }.

Definition HandleClientEpollIn (ev : ready) (c : ClientCtx) : outcome ClientCtx :=
  match eventType c with
  | EVENT_RECV =>
      if suspended (fl c) then if EPOLLRDHUP ev then Close false c else Ret c
      else
        let* x := Receive c in
        let '(got, c) := x in
        if (got : bool) then onReceive_ c else Ret c
  | _ => Ret c
  end.

(** The handshake is done, goes on, or has failed. *)
Definition TryHandshake (onSuccess stayState : EventType) (c : ClientCtx) : outcome (bool * ClientCtx) :=
  match ask c with
  | (Took _, c) => let* c := EnterState onSuccess c in Ret (true, c)
  | (WouldBlock, c) => let* c := EnterState stayState c in Ret (true, c)
  | (_, c) => Ret (false, c)
  end.

Definition HandleClientHandshake (ev : ready) (c : ClientCtx) : outcome ClientCtx :=
  let* x := TryHandshake EVENT_RECV EVENT_HANDSHAKE c in
  match x with
  | (false, c) => Close false c
  | (true, c) =>
      if bool_decide (eventType c = EVENT_HANDSHAKE) then Ret c
      else if EPOLLIN ev then HandleClientEpollIn ev c else Ret c
  end.

Definition HandleClientEvent (ev : ready) (gen : Z) (c : ClientCtx) : outcome ClientCtx :=
  if bool_decide (eventType c = EVENT_HANDSHAKE) then HandleClientHandshake ev c
  else if bool_decide (eventType c = EVENT_SHUTDOWN) then
    match ask c with
    | (WouldBlock, c) => Ret c
    | (_, c) => Ret (ReleaseClient (emit EpollDel (set_sslConn false c)))
    end
  else if EPOLLERR_HUP ev then Close false c
  else
    let* c := if EPOLLIN ev then HandleClientEpollIn ev c else Ret c in
    if EPOLLOUT ev && (generationId c =? gen) then HandleClientWriteReady c else Ret c.

(** *** Timers *)

(** The timer wheel's callback for a client. *)
Definition HandleTimeout (c : ClientCtx) : outcome ClientCtx :=
  if negb (bool_decide (connectionState c = CONNECTION_CLOSE)) || asyncData c then Close true c else Ret c.

(** A client's turn in [HandleAsyncTimer]. *)
Definition HandleAsyncTimer (c : ClientCtx) : outcome ClientCtx := CompleteAsync (set_isAsyncTimerOperation false c).

(** [inserted]: the timer heap took the entry. *)
Definition RefreshAsyncTimer (inserted : bool) (c : ClientCtx) : bool * ClientCtx :=
  if negb inserted then (false, c) else (true, set_asyncData true (set_isAsyncTimerOperation true c)).

(** *** Accepting *)

(** [GetClientConnection] on the slot the pool gave. *)
Definition GetClientConnection (c : ClientCtx) : ClientCtx := count ACTIVE_CLIENT_CONNS 1 (bump_generation c).

(** [epoll_ctl] fails only by saying so. *)
Definition RegisterEpollAdd (c : ClientCtx) : bool * ClientCtx :=
  match ask c with (Failed, c) => (false, c) | (_, c) => (true, emit EpollAdd c) end.

Definition register_client (c : ClientCtx) : outcome ClientCtx :=
  match RegisterEpollAdd c with
  | (false, c) => Close false c
  | (true, c) => Ret (emit (RefreshExpiry idleTimeout) (set_connectionState CONNECTION_ALIVE (count ACCEPTS 1 c)))
  end.

Definition WrapAccept (useHttps : bool) (c : ClientCtx) : outcome ClientCtx :=
  if (useHttps : bool) then
    match ask c with
    | (Failed, c) => Ret (ReleaseClient c)
    | (_, c) =>
        let* x := TryHandshake EVENT_RECV EVENT_HANDSHAKE (set_sslConn true c) in
        match x with
        | (false, c) => Close false c
        | (true, c) => register_client c
        end
    end
  else let* c := EnterState EVENT_RECV c in register_client c.

(** [PackEpollData] and its inverse in [Run]: the tag, the generation, the slot. *)
Definition CLIENT_CONNECTION_TAG : Z := 0xFFFF.
Definition PackEpollData (idx : Z) (c : ClientCtx) : Z :=
  Z.lor (Z.lor (u64 (Z.shiftl CLIENT_CONNECTION_TAG 48)) (u64 (Z.shiftl (generationId c) 32))) idx.
Definition event_tag (meta : Z) : Z := Z.shiftr meta 48.
Definition event_gen (meta : Z) : Z := Z.land (Z.shiftr meta 32) 0xFFFF.
Definition event_slot (meta : Z) : Z := Z.land meta 0xFFFFFFFF.

(** An event of [epoll_wait] for a client's slot: one of a dead connection is ignored. *)
Definition client_event (ev : ready) (gen : Z) (c : ClientCtx) : outcome ClientCtx :=
  if negb (generationId c =? gen) then Ret c else HandleClientEvent ev gen c.

(** ** What the sending loop does *)

(** The bytes the peer gets. *)
Definition sent (l : list action) : bytes := concat (map (fun a => match a with Sent d => d | _ => [] end) l).

Lemma sent_app l1 l2 : sent (l1 ++ l2) = sent l1 ++ sent l2.
Proof. unfold sent. by rewrite map_app, concat_app. Qed.

(** Everything but the write buffer, the kernel, the counters and the log. *)
Definition core (c : ClientCtx) :=
  (eventType c, generationId c, connectionState c, fl c, sslConn c, socket c, asyncData c, endpointCtx c, responseInfo c,
   (fileInfo c, streamGenerator c, inbox c, readBuffer_ (rwBuffer c))).

(** The kernel never fails a call. *)
Definition smooth (k : list answer) : bool := forallb (fun a => match a with Took _ | WouldBlock => true | _ => false end) k.

(** It takes bytes at the first call. *)
Definition takes (k : list answer) : bool := match k with Took _ :: _ => true | _ => false end.

Definition quiet (l : list action) : Prop := Forall (fun a => a <> SlotFreed) l.

(** [onClose_] calls. *)
Definition closes (l : list action) : nat := length (List.filter (fun a => match a with OnClose => true | _ => false end) l).

Lemma moved_pos n l : l <> [] -> (0 < moved n l <= length l)%nat.
Proof. intros H. unfold moved. destruct l; [done|]. cbn [length]. lia. Qed.

Lemma pending_advance b n : wf b -> (n <= length (pending b))%nat ->
  wf (set_writtenLength (u32 (b_writtenLength b + Z.of_nat n)) b) /\
  pending (set_writtenLength (u32 (b_writtenLength b + Z.of_nat n)) b) = drop n (pending b).
Proof.
  intros Hwf Hn. pose proof (length_pending b Hwf) as HL. destruct Hwf as (H1 & H2 & H3).
  unfold wf, set_writtenLength. cbn [b_writtenLength b_dataLength b_bufferSize b_mem]. rewrite wrap_small by lia. split; [lia|].
  unfold pending, live. cbn [b_writtenLength b_dataLength b_mem]. rewrite drop_drop. f_equal. lia.
Qed.

Lemma ask_cons c a k : kernel c = a :: k -> ask c = (a, set_kernel k c).
Proof. unfold ask. by intros ->. Qed.

(** What a stretch of sending leaves: the rest pending, and how it ended. *)
Record sends (stale : bool) (c : ClientCtx) (b : block) (st : FlushStatus) (c' : ClientCtx) (b' : block) (l : list action) : Prop := {
  sends_core : core c' = core c;
  sends_log : log c' = log c ++ l;
  sends_block : writeBuffer_ (rwBuffer c') = Some b';
  sends_wf : wf b';
  sends_same : b_bufferSize b' = b_bufferSize b /\ b_mem b' = b_mem b;
  sends_bytes : sent l ++ pending b' = pending b;
  sends_quiet : quiet l;
  sends_closes : closes l = 0%nat;
  sends_smooth : smooth (kernel c) = true -> smooth (kernel c') = true;
  sends_end : match st with
              | COMPLETED => pending b' = [] /\ (pending b = [] -> kernel c' = kernel c)
              | PENDING => pending b' <> [] /\ (takes (kernel c) = true -> sent l <> [])
              | FAILED => smooth (kernel c) = false
              end
}.

Lemma sends_nothing stale c b st c' :
  writeBuffer_ (rwBuffer c') = Some b -> wf b -> core c' = core c -> log c' = log c -> (smooth (kernel c) = true -> smooth (kernel c') = true) ->
  match st with COMPLETED => pending b = [] /\ kernel c' = kernel c | PENDING => pending b <> [] /\ takes (kernel c) = false | FAILED => smooth (kernel c) = false end ->
  sends stale c b st c' b [].
Proof.
  intros Hb Hwf Hc Hl Hk Hend. split; try done; [by rewrite app_nil_r|constructor|].
  destruct st; [by destruct Hend| |done]. destruct Hend as [H1 H2]. split; [done|]. by rewrite H2.
Qed.

Lemma sends_step stale c b n c1 b1 st c' b' l :
  wf b -> pending b <> [] -> (n <= length (pending b))%nat -> (0 < n)%nat ->
  b1 = set_writtenLength (u32 (b_writtenLength b + Z.of_nat n)) b ->
  core c1 = core c -> log c1 = log c ++ [Sent (take n (pending b))] -> (smooth (kernel c) = true -> smooth (kernel c1) = true) ->
  sends stale c1 b1 st c' b' l -> (st = FAILED -> smooth (kernel c1) = false -> smooth (kernel c) = false) ->
  sends stale c b st c' b' (Sent (take n (pending b)) :: l).
Proof.
  intros Hwf Hp Hn Hpos -> Hc Hl Hk [S1 S2 S3 S4 S5 S6 S7 S7' S8 S9] Hf. destruct (pending_advance b n Hwf Hn) as [W1 W2].
  split; try done.
  - by rewrite S1.
  - rewrite S2, Hl, <- app_assoc. done.
  - change (Sent (take n (pending b)) :: l) with ([Sent (take n (pending b))] ++ l). rewrite sent_app, <- app_assoc, S6, W2.
    unfold sent at 1. cbn. rewrite app_nil_r. apply take_drop.
  - by apply Forall_cons.
  - eauto.
  - destruct st; [by destruct S9| |auto]. split; [by apply S9|]. intros _. unfold sent. cbn. destruct (pending b) as [|x r]; [done|]. by destruct n; [lia|].
Qed.

Lemma send_loop_ok stale f0 : forall c b, writeBuffer_ (rwBuffer c) = Some b -> wf b -> (length (pending b) < f0)%nat ->
  exists st c' b' l, send_loop stale f0 c = (st, c') /\ sends stale c b st c' b' l.
Proof.
  induction f0 as [|f IH]; intros c b Hb Hwf Hf; [lia|]. cbn [send_loop]. rewrite Hb. pose proof (length_pending b Hwf) as HL.
  destruct (Z.ltb_spec (b_writtenLength b) (b_dataLength b)) as [Hlt|Hge].
  2:{ exists COMPLETED, c, b, []. split; [done|]. apply sends_nothing; try done. split; [|done]. apply length_zero_iff_nil. lia. }
  assert (Hne : pending b <> []) by (intros E; rewrite E in HL; cbn in HL; lia).
  unfold WrapWrite, ask. destruct (kernel c) as [|a k] eqn:Ek.
  { exists PENDING, c, b, []. split; [done|]. apply sends_nothing; try done. by rewrite Ek. }
  destruct a as [n| |again|].
  - pose proof (moved_pos n _ Hne) as Hm. rewrite Nat2Z.id.
    set (b1 := set_writtenLength (u32 (b_writtenLength b + Z.of_nat (moved n (pending b)))) b).
    match goal with |- context [send_loop stale f ?x] => set (c1 := x) end.
    assert (Hb1 : writeBuffer_ (rwBuffer c1) = Some b1) by (unfold c1, on_write_block; cbn; by rewrite Hb).
    destruct (pending_advance b (moved n (pending b)) Hwf ltac:(lia)) as [W1 W2]. fold b1 in W1, W2.
    destruct (IH c1 b1 Hb1 W1) as (st & c' & b' & l & E & HS); [rewrite W2, length_drop; lia|].
    exists st, c', b', (Sent (take (moved n (pending b)) (pending b)) :: l). split; [done|].
    apply (sends_step stale c b _ c1 b1); try done; try lia.
    + rewrite Ek. cbn. done.
    + intros _. rewrite Ek. cbn. done.
  - exists PENDING, (set_kernel k c), b, []. split; [done|]. apply sends_nothing; try done; rewrite Ek; done.
  - exists (if stale && again then PENDING else FAILED), (set_kernel k c), b, []. split; [done|]. apply sends_nothing; try done; rewrite ?Ek; [done|].
    by destruct (stale && again).
  - exists FAILED, (set_kernel k c), b, []. split; [done|]. apply sends_nothing; try done; by rewrite ?Ek.
Qed.

Lemma send_pending_ok stale c b : writeBuffer_ (rwBuffer c) = Some b -> wf b ->
  exists st c' b' l, send_pending stale c = (st, c') /\ sends stale c b st c' b' l.
Proof. intros Hb Hwf. unfold send_pending. rewrite Hb. apply send_loop_ok; try done. pose proof (length_pending b Hwf). lia. Qed.

(** ** Fates of a response *)

Definition awake (c : ClientCtx) : Prop :=
  (eventType c = EVENT_RECV \/ eventType c = EVENT_SEND \/ eventType c = EVENT_SEND_FILE) /\ isShuttingDown (fl c) = false.

(** What [ReleaseClient] does to the world. *)
Definition release_log (c : ClientCtx) : list action :=
  [TimerCancelled] ++ (if isAsyncTimerOperation (fl c) then [AsyncTimerRemoved] else []) ++ (if asyncData c then [AsyncDestroyed] else []) ++
  (if endpointCtx c then [EndpointReleased] else []) ++ [OnClose] ++ (if socket c then [SocketClosed] else []) ++
  (match streamGenerator c with Some (User _ true) => [GeneratorDestroyed] | _ => [] end) ++ [SlotFreed].

Lemma ReleaseClient_log c : log (ReleaseClient c) = log c ++ release_log c.
Proof.
  unfold release_log, ReleaseClient, Reset, CleanupStreamGenerator, DestroyAsync, bump_generation.
  destruct c as [et gen cs [f1 f2 f3 f4 f5 f6 f7 f8] ssl so ad ep res rw fi sg ib k nw lg]. cbn.
  destruct f3, ad, ep, so, sg as [[g []|]|]; cbn; rewrite <- ?app_assoc; done.
Qed.

Lemma ReleaseClient_fields c :
  eventType (ReleaseClient c) = EVENT_ACCEPT /\ generationId (ReleaseClient c) = generationId (bump_generation c) /\ kernel (ReleaseClient c) = kernel c /\
  fl (ReleaseClient c) = no_flags /\ sslConn (ReleaseClient c) = sslConn c /\ asyncData (ReleaseClient c) = false /\ responseInfo (ReleaseClient c) = None.
Proof.
  unfold ReleaseClient, Reset, CleanupStreamGenerator, DestroyAsync, bump_generation.
  destruct c as [et gen cs [f1 f2 f3 f4 f5 f6 f7 f8] ssl so ad ep res rw fi sg ib k nw lg]. cbn.
  destruct f3, ad, ep, so, sg as [[g []|]|]; cbn; done.
Qed.

Lemma release_log_split c : exists l0, release_log c = l0 ++ [SlotFreed] /\ quiet l0 /\ sent l0 = [] /\ closes l0 = 1%nat.
Proof.
  unfold release_log. rewrite !app_assoc. eexists. split; [done|].
  destruct (isAsyncTimerOperation (fl c)), (asyncData c), (endpointCtx c), (socket c), (streamGenerator c) as [[g []|]|]; cbn;
    (split; [repeat (apply Forall_cons; split; [done|]); apply Forall_nil_2|by split]).
Qed.

(** A slot is given up: its callback is called once and freeing it is the last thing
    done, or the TLS shutdown goes on. *)
Inductive ended (c c' : ClientCtx) (l : list action) : Prop :=
| ended_freed l0 : l = l0 ++ [SlotFreed] -> quiet l0 -> closes l0 = 1%nat -> eventType c' = EVENT_ACCEPT ->
    generationId c' = generationId (bump_generation c) -> responseInfo c' = None -> ended c c' l
| ended_shutting : quiet l -> closes l = 0%nat -> sslConn c' = true -> eventType c' = EVENT_SHUTDOWN -> isShuttingDown (fl c') = true ->
    generationId c' = generationId c -> ended c c' l.

Lemma bump_same c c' : generationId c = generationId c' -> generationId (bump_generation c) = generationId (bump_generation c').
Proof. unfold bump_generation. cbn. by intros ->. Qed.

Lemma release_ended c : exists l, log (ReleaseClient (emit EpollDel c)) = log c ++ l /\ sent l = [] /\ ended c (ReleaseClient (emit EpollDel c)) l /\
  kernel (ReleaseClient (emit EpollDel c)) = kernel c.
Proof.
  destruct (release_log_split (emit EpollDel c)) as (l0 & E & H1 & H2 & H3). destruct (ReleaseClient_fields (emit EpollDel c)) as (F1 & F2 & F3 & _ & _ & _ & F4).
  exists (EpollDel :: l0 ++ [SlotFreed]). rewrite ReleaseClient_log, E. split; [cbn; by rewrite <- app_assoc|].
  split; [change (sent l0 = []) in H2; unfold sent in *; cbn; by rewrite map_app, concat_app, H2|]. split; [|done].
  apply (ended_freed _ _ _ (EpollDel :: l0)); try done. by apply Forall_cons.
Qed.

Lemma legal_shutdown c : awake c -> legal (eventType c) EVENT_SHUTDOWN = true.
Proof. intros [[->|[->| ->]] _]; reflexivity. Qed.
Lemma legal_recv c : awake c -> legal (eventType c) EVENT_RECV = true.
Proof. intros [[->|[->| ->]] _]; reflexivity. Qed.
Lemma legal_send c : awake c -> legal (eventType c) EVENT_SEND = true.
Proof. intros [[->|[->| ->]] _]; reflexivity. Qed.
Lemma legal_send_file c : awake c -> legal (eventType c) EVENT_SEND_FILE = true.
Proof. intros [[->|[->| ->]] _]; reflexivity. Qed.

Lemma Close_ok c : awake c -> exists c' l, Close false c = Ret c' /\ log c' = log c ++ l /\ sent l = [] /\ ended c c' l.
Proof.
  intros Ha. pose proof (legal_shutdown c Ha) as HL. destruct Ha as [_ Hs]. unfold Close, CloseCommon. rewrite Hs. cbn [negb andb].
  change (sslConn (set_isShuttingDown true c)) with (sslConn c).
  assert (Hgo : forall c1, log c1 = log c -> generationId c1 = generationId c -> exists c' l, Ret (ReleaseClient (emit EpollDel c1)) = Ret c' /\ log c' = log c ++ l /\ sent l = [] /\ ended c c' l).
  { intros c1 H1 H2. destruct (release_ended c1) as (l & R1 & R2 & R3 & _). eexists _, l. split; [done|]. rewrite R1, H1. split; [done|]. split; [done|].
    destruct R3; [eapply ended_freed|eapply ended_shutting]; eauto; [by rewrite (bump_same _ _ (eq_sym H2))|congruence]. }
  assert (Hwait : forall c1, log c1 = log c -> generationId c1 = generationId c -> eventType c1 = eventType c -> sslConn c1 = true -> isShuttingDown (fl c1) = true ->
    exists c' l, obind (obind (EnterState EVENT_SHUTDOWN c1) (fun c => Ret (false, c))) (fun x => let '(go, c) := x in Ret (if (go : bool) then ReleaseClient (emit EpollDel c) else c)) = Ret c' /\ log c' = log c ++ l /\ sent l = [] /\ ended c c' l).
  { intros c1 H1 H2 H3 H4 H5. unfold EnterState. rewrite H3, HL. cbn. eexists _, []. split; [done|]. cbn. rewrite app_nil_r. split; [done|]. split; [done|].
    apply ended_shutting; try done. constructor. }
  destruct (sslConn c) eqn:Es; cbn [negb]; [|by apply (Hgo (set_isShuttingDown true c))].
  unfold ask. change (kernel (set_isShuttingDown true c)) with (kernel c).
  destruct (kernel c) as [|[n| |again|] k]; [by apply Hwait|by apply (Hgo (set_sslConn false (set_kernel k (set_isShuttingDown true c))))|by apply Hwait| |];
    by apply (Hgo (set_sslConn false (set_kernel k (set_isShuttingDown true c)))).
Qed.

(** *** What is still to be sent *)

Definition frame (chunked : bool) (data : bytes) : bytes :=
  match data with [] => [] | _ => if chunked then chunk_header (Z.of_nat (length data)) ++ data ++ Response.CRLF else data end.

(** The room a generator is offered in a buffer of this size. *)
Definition offered (chunked : bool) (bufferSize : Z) : Z := u64 (bufferSize - (if chunked then HDR_RESERVE + 2 else 0)).

(** The body a generator makes, chunk by chunk, with the last chunk after it. *)
Fixpoint stream_text (fuel : nat) (cap : Z) (chunked : bool) (g : G) : bytes :=
  match fuel with
  | O => []
  | S f =>
      let '(data, a, g) := next g cap in
      frame chunked data ++ (match a with CONTINUE => stream_text f cap chunked g | _ => if chunked then CHUNK_END else [] end)
  end.

(** A generator of user code: it fills no more than it is offered, makes progress while
    it goes on, may stop with its last bytes or without, and once it has stopped with bytes
    stays stopped, making nothing more, if it is called again; [rank] bounds the chunks it
    still has. *)
Context (rank : G -> nat).
Definition stopped (g : G) : Prop := forall cap, 0 < cap -> exists a g', next g cap = ([], a, g') /\ a <> CONTINUE.
Definition well_behaved : Prop :=
  forall g cap data a g', 0 < cap -> next g cap = (data, a, g') ->
    Z.of_nat (length data) <= cap /\
    match a with
    | CONTINUE => data <> [] /\ (rank g' < rank g)%nat
    | _ => data = [] \/ stopped g' /\ (rank g' <= rank g)%nat
    end.

Definition block_of (c : ClientCtx) : block := default (Block 0 0 0 0 []) (writeBuffer_ (rwBuffer c)).

(** What follows the write buffer: a stream's text, the rest of a file, or nothing. *)
Definition rest (c : ClientCtx) : bytes :=
  if isStreamOperation (fl c) then
    match streamGenerator c with
    | Some (User g _) => let chunked := streamChunked (fl c) in stream_text (S (rank g)) (offered chunked (b_bufferSize (block_of c))) chunked g
    | Some FileReader => drop (Z.to_nat (offset (fileInfo c))) (default [] (fd (fileInfo c)))
    | None => []
    end
  else if isFileOperation (fl c) then drop (Z.to_nat (offset (fileInfo c))) (default [] (fd (fileInfo c)))
  else [].

Definition todo (c : ClientCtx) : bytes := pending (block_of c) ++ rest c.

(** The file cache knows the size of the file. *)
Definition file_ok (fi : FileInfo) : Prop :=
  exists content, fd fi = Some content /\ fileSize fi = Z.of_nat (length content) /\ 0 <= offset fi <= fileSize fi.

Definition stream_ok (c : ClientCtx) : Prop :=
  match streamGenerator c with
  | Some (User g _) => (rank g < turns)%nat
  | Some FileReader => streamChunked (fl c) = false /\ file_ok (fileInfo c) /\ fileSize (fileInfo c) - offset (fileInfo c) < Z.of_nat turns
  | None => False
  end.

(** A client in the middle of a response, or at its start. *)
Record sending (c : ClientCtx) : Prop := {
  sending_awake : awake c;
  sending_block : exists b, writeBuffer_ (rwBuffer c) = Some b;
  sending_wf : wf (block_of c);
  sending_size : 12 < b_bufferSize (block_of c) < 2 ^ 28;
  sending_flush : isAwaitFlush (fl c) = false;
  sending_stream : isStreamOperation (fl c) = true -> isFileOperation (fl c) = false /\ stream_ok c;
  sending_file : isStreamOperation (fl c) = false -> isFileOperation (fl c) = true ->
                 file_ok (fileInfo c) /\ 0 < fileSize (fileInfo c) < Z.of_nat turns
}.

Definition waiting (c : ClientCtx) : Prop :=
  sending c /\ todo c <> [] /\
  (eventType c = EVENT_SEND \/
   eventType c = EVENT_SEND_FILE /\ isStreamOperation (fl c) = false /\ isFileOperation (fl c) = true /\ pending (block_of c) = []).

(** How a handler leaves a response of which [T] was to be sent: waiting for the socket
    with the rest, back to reading with all of it sent, or closed. *)
Inductive fate (T : bytes) (c c' : ClientCtx) : Prop :=
| fate_waits l : log c' = log c ++ l -> quiet l -> closes l = 0%nat -> generationId c' = generationId c -> (smooth (kernel c) = true -> smooth (kernel c') = true) ->
    waiting c' -> sent l ++ todo c' = T -> (takes (kernel c) = true -> sent l <> []) -> fate T c c'
| fate_done l : log c' = log c ++ l -> quiet l -> closes l = 0%nat -> generationId c' = generationId c ->
    awake c' -> eventType c' = EVENT_RECV -> sent l `prefix_of` T -> (smooth (kernel c) = true -> sent l = T) -> fate T c c'
| fate_closed l : log c' = log c ++ l -> ended c c' l -> sent l `prefix_of` T -> (smooth (kernel c) = true -> sent l = T) -> fate T c c'.

Lemma closes_app l1 l2 : closes (l1 ++ l2) = (closes l1 + closes l2)%nat.
Proof. unfold closes. by rewrite List.filter_app, length_app. Qed.

Lemma quiet_app l1 l2 : quiet l1 -> quiet l2 -> quiet (l1 ++ l2).
Proof. apply Forall_app_2. Qed.

Lemma ended_prepend c c1 l1 c' l : quiet l1 -> closes l1 = 0%nat -> generationId c1 = generationId c -> ended c1 c' l -> ended c c' (l1 ++ l).
Proof.
  intros H1 H2 H3 [l0 -> E1 E2 E3 E4|E1 E2 E3 E4 E5 E6].
  - apply (ended_freed _ _ _ (l1 ++ l0)); try done; [by rewrite app_assoc|by apply quiet_app|by rewrite closes_app, H2|].
    rewrite E4. by apply bump_same.
  - apply ended_shutting; try done; [by apply quiet_app|by rewrite closes_app, H2|congruence].
Qed.

Lemma fate_prepend T c c1 l c' :
  log c1 = log c ++ l -> quiet l -> closes l = 0%nat -> generationId c1 = generationId c -> (smooth (kernel c) = true -> smooth (kernel c1) = true) ->
  (takes (kernel c) = true -> sent l <> [] \/ takes (kernel c1) = true) -> fate T c1 c' -> fate (sent l ++ T) c c'.
Proof.
  intros H1 H2 H3 H4 H5 H6 [l' F1 F2 F3 F4 F5 F6 F7 F8|l' F1 F2 F3 F4 F5 F6 F7 F8|l' F1 F2 F3 F4].
  - apply (fate_waits _ _ _ (l ++ l')); try done; [by rewrite F1, H1, app_assoc|by apply quiet_app|by rewrite closes_app, H3|congruence|auto|by rewrite sent_app, <- app_assoc, F7|].
    intros Ht. rewrite sent_app. intros E. apply app_eq_nil in E as [E1 E2]. destruct (H6 Ht); [done|]. by apply F8.
  - apply (fate_done _ _ _ (l ++ l')); try done; [by rewrite F1, H1, app_assoc|by apply quiet_app|by rewrite closes_app, H3|congruence|rewrite sent_app; by apply prefix_app|].
    intros Hs. rewrite sent_app. f_equal. auto.
  - apply (fate_closed _ _ _ (l ++ l')); [by rewrite F1, H1, app_assoc|by eapply ended_prepend| |].
    + rewrite sent_app. by apply prefix_app.
    + intros Hs. rewrite sent_app. f_equal. auto.
Qed.

Lemma Close_fate T c : awake c -> (smooth (kernel c) = true -> T = []) -> exists c', Close false c = Ret c' /\ fate T c c'.
Proof.
  intros Ha HT. destruct (Close_ok c Ha) as (c' & l & E & H1 & H2 & H3). exists c'. split; [done|].
  apply (fate_closed _ _ _ l); try done; rewrite H2; [apply prefix_nil|]. intros Hs. by rewrite HT.
Qed.

(** *** The end of a response *)

Lemma Clear_ok c : exists l, log (Clear c) = log c ++ l /\ sent l = [] /\ quiet l /\ closes l = 0%nat /\ eventType (Clear c) = eventType c /\
  generationId (Clear c) = generationId c /\ isShuttingDown (fl (Clear c)) = isShuttingDown (fl c) /\ kernel (Clear c) = kernel c.
Proof.
  destruct c as [et gen cs [f1 f2 f3 f4 f5 f6 f7 f8] ssl so ad ep res rw fi sg ib k nw lg]. unfold Clear, CleanupStreamGenerator. cbn.
  destruct sg as [[g []|]|]; cbn;
    first [exists [GeneratorDestroyed]; split; [done|]; split; [done|]; split; [by apply Forall_cons|]; done
          |exists []; rewrite app_nil_r; split; [done|]; split; [done|]; split; [constructor|]; done].
Qed.

Lemma ResumeReceive_ok c : awake c -> exists c', ResumeReceive c = Ret c' /\ fate [] c c'.
Proof.
  intros Ha. unfold ResumeReceive, EnsureReadReady.
  assert (Hgo : forall c1, log c1 = log c -> generationId c1 = generationId c -> eventType c1 = eventType c -> fl c1 = fl c -> exists c', EnterState EVENT_RECV c1 = Ret c' /\ fate [] c c').
  { intros c1 H1 H2 H3 H4. unfold EnterState. rewrite H3, (legal_recv c Ha). cbn. eexists. split; [done|].
    apply (fate_done _ _ _ []); cbn; rewrite ?app_nil_r; try done; [constructor|]. split; [by left|]. cbn. rewrite H4. apply Ha. }
  destruct (readBuffer_ (rwBuffer c)) as [b|]; [by apply Hgo|]. destruct (InitReadBuffer _ _) as [[] rw]; cbn [obind]; [by apply Hgo|].
  destruct (Close_fate [] (set_rwBuffer rw c)) as (c' & E & F); [done|done|]. rewrite E. cbn. exists c'. split; [done|].
  apply (fate_prepend [] c (set_rwBuffer rw c) []); try done; [by rewrite app_nil_r|constructor|by right].
Qed.

Lemma finish_ok c : awake c -> exists c', finish c = Ret c' /\ fate [] c c'.
Proof.
  intros Ha. unfold finish. case_bool_decide; [by apply Close_fate|]. destruct (Clear_ok c) as (l & H1 & H2 & H3 & H4 & H5 & H6 & H7 & H8).
  destruct (ResumeReceive_ok (Clear c)) as (c' & E & F); [unfold awake in *; by rewrite H5, H7|]. exists c'. split; [done|].
  rewrite <- (app_nil_r []), <- H2 at 1. apply (fate_prepend [] c (Clear c) l); try done; [by rewrite H8|]. rewrite H8. by right.
Qed.

(** *** A chunk in the buffer *)

Lemma hex_rev_length f : forall k n, (1 <= k)%nat -> 0 <= n < 16 ^ Z.of_nat k -> (length (hex_rev f n) <= k)%nat.
Proof.
  induction f as [|f IH]; intros k n Hk Hn; cbn [hex_rev]; [cbn; lia|]. cbn [length]. destruct (Z.eqb_spec (n / 16) 0) as [|Hne]; [cbn; lia|].
  destruct k as [|[|k]]; [lia| |].
  - exfalso. apply Hne, Z.div_small. rewrite Z.pow_1_r in Hn. lia.
  - assert (length (hex_rev f (n / 16)) <= S k)%nat; [|lia]. apply IH; [lia|]. rewrite Nat2Z.inj_succ, Z.pow_succ_r in Hn by lia.
    split; [apply Z.div_pos; lia|]. apply Z.div_lt_upper_bound; lia.
Qed.

Lemma chunk_header_length n : 0 <= n < 2 ^ 28 -> (2 <= length (chunk_header n) <= 9)%nat.
Proof.
  intros Hn. unfold chunk_header. rewrite length_app, length_rev. cbn [length Response.CRLF].
  pose proof (hex_rev_length 16 7 n ltac:(lia) Hn). change (length Response.CRLF) with 2%nat. lia.
Qed.

(** The three stores of a framed chunk. *)
Lemma framed_mem mem hdr data (h n : nat) : length hdr = h -> length data = n -> (h <= 10)%nat -> (12 + n <= length mem)%nat ->
  take (12 + n) (memcpy_at (10 + n) Response.CRLF (memcpy_at (10 - h) hdr (memcpy_at 10 data mem))) = take (10 - h) mem ++ hdr ++ data ++ Response.CRLF.
Proof.
  intros Hh Hd H10 Hm. set (m1 := memcpy_at 10 data mem). set (m2 := memcpy_at (10 - h) hdr m1).
  assert (L1 : length m1 = length mem) by (apply length_memcpy_at; lia). assert (L2 : length m2 = length mem) by (rewrite <- L1; apply length_memcpy_at; lia).
  replace (12 + n)%nat with (10 + n + length Response.CRLF)%nat by (cbn; lia). rewrite take_memcpy_at by (cbn; lia).
  enough (take (10 + n) m2 = take (10 - h) mem ++ hdr ++ data) as -> by (by rewrite <- !app_assoc).
  unfold m2, memcpy_at. rewrite app_assoc, take_app, length_app, length_take, Hh, L1. replace ((10 - h) `min` length mem + h)%nat with 10%nat by lia.
  rewrite take_ge by (rewrite length_app, length_take, L1; lia). replace (10 - h + h)%nat with 10%nat by lia.
  replace (10 + n - 10)%nat with n by lia. rewrite <- app_assoc. f_equal; [|f_equal].
  - unfold m1, memcpy_at. rewrite take_app_le by (rewrite length_take; lia). rewrite take_take. f_equal. lia.
  - unfold m1, memcpy_at. rewrite drop_app_length' by (rewrite length_take; lia). rewrite take_app_length' by done. done.
Qed.

Lemma place_chunk_ok chunked data c b :
  writeBuffer_ (rwBuffer c) = Some b -> wf b -> b_writtenLength b = 0 -> b_dataLength b = 0 -> data <> [] -> 12 < b_bufferSize b < 2 ^ 28 ->
  Z.of_nat (length data) <= offered chunked (b_bufferSize b) ->
  exists c1 b1, place_chunk chunked data c = Some c1 /\ core c1 = core c /\ log c1 = log c /\ kernel c1 = kernel c /\
    writeBuffer_ (rwBuffer c1) = Some b1 /\ wf b1 /\ b_bufferSize b1 = b_bufferSize b /\ pending b1 = frame chunked data.
Proof.
  intros Hb Hwf Hw Hd Hne Hsz Hlen. unfold place_chunk, frame. assert (HD : match data with [] => [] | _ => if chunked then chunk_header (Z.of_nat (length data)) ++ data ++ Response.CRLF else data end =
    if chunked then chunk_header (Z.of_nat (length data)) ++ data ++ Response.CRLF else data) by (by destruct data). rewrite HD. clear HD.
  unfold offered in Hlen. destruct Hwf as (W1 & W2 & W3). set (n := length data) in *. assert (0 < n)%nat by (unfold n; destruct data; [done|cbn; lia]).
  destruct chunked; cbn [negb] in *.
  - rewrite wrap_small in Hlen by (unfold HDR_RESERVE; lia). unfold HDR_RESERVE in *. pose proof (chunk_header_length (Z.of_nat n) ltac:(lia)) as HH. set (hdr := chunk_header _) in *.
    destruct (Z.leb_spec 10 (Z.of_nat (length hdr))); [lia|]. eexists _, _. split; [done|]. cbn. rewrite Hb. cbn. split; [done|]. split; [done|]. split; [done|]. split; [done|].
    change (wf (Block (b_base b) (b_bufferSize b) (u32 (10 + Z.of_nat n + 2)) (Z.min (u32 (b_writtenLength b + (10 - Z.of_nat (length hdr)))) (u32 (10 + Z.of_nat n + 2)))
      (memcpy_at (Z.to_nat (10 + Z.of_nat n)) Response.CRLF (memcpy_at (Z.to_nat (10 - Z.of_nat (length hdr))) hdr (memcpy_at 10 data (b_mem b))))) /\ b_bufferSize b = b_bufferSize b /\
      drop (Z.to_nat (Z.min (u32 (b_writtenLength b + (10 - Z.of_nat (length hdr)))) (u32 (10 + Z.of_nat n + 2)))) (take (Z.to_nat (u32 (10 + Z.of_nat n + 2)))
      (memcpy_at (Z.to_nat (10 + Z.of_nat n)) Response.CRLF (memcpy_at (Z.to_nat (10 - Z.of_nat (length hdr))) hdr (memcpy_at 10 data (b_mem b))))) = hdr ++ data ++ Response.CRLF).
    rewrite Hw, Z.add_0_l, !wrap_small by lia. rewrite Z.min_l by lia.
    replace (Z.to_nat (10 + Z.of_nat n)) with (10 + n)%nat by lia. replace (Z.to_nat (10 - Z.of_nat (length hdr))) with (10 - length hdr)%nat by lia.
    replace (Z.to_nat (10 + Z.of_nat n + 2)) with (12 + n)%nat by lia. split_and!; [|done|].
    + unfold wf. cbn [b_writtenLength b_dataLength b_bufferSize b_mem]. unfold n in *. rewrite !length_memcpy_at; rewrite ?length_memcpy_at; change (length Response.CRLF) with 2%nat; rewrite ?length_memcpy_at; lia.
    + rewrite (framed_mem (b_mem b) hdr data (length hdr) n) by (try done; lia). rewrite drop_app_length' by (rewrite length_take; lia). done.
  - rewrite Z.sub_0_r, wrap_small in Hlen by lia. eexists _, _. split; [done|]. cbn. rewrite Hb. cbn. split; [done|]. split; [done|]. split; [done|]. split; [done|].
    split_and!; [|done|].
    + unfold wf. cbn [b_writtenLength b_dataLength b_bufferSize b_mem set_dataLength store]. rewrite wrap_small by lia. rewrite length_memcpy_at by (cbn; lia). lia.
    + unfold pending, live. cbn [b_writtenLength b_dataLength b_bufferSize b_mem set_dataLength store]. rewrite wrap_small, Hw by lia. rewrite Nat2Z.id. change (Z.to_nat 0) with 0%nat. rewrite drop_0.
      apply (take_memcpy_at 0 data). cbn. lia.
Qed.

(** *** Sending, then going on *)

Lemma core_fields c c' : core c' = core c ->
  eventType c' = eventType c /\ generationId c' = generationId c /\ fl c' = fl c /\ fileInfo c' = fileInfo c /\ streamGenerator c' = streamGenerator c /\
  connectionState c' = connectionState c /\ readBuffer_ (rwBuffer c') = readBuffer_ (rwBuffer c).
Proof. unfold core. intros [=]. by split_and!. Qed.

Lemma rest_core c c' : core c' = core c -> b_bufferSize (block_of c') = b_bufferSize (block_of c) -> rest c' = rest c.
Proof. intros (_ & _ & Hf & Hi & Hs & _)%core_fields Hb. unfold rest. by rewrite Hf, Hi, Hs, Hb. Qed.

(** The same client with another event state and another buffer of its size. *)
Lemma sending_move c c' b : sending c -> fl c' = fl c -> fileInfo c' = fileInfo c -> streamGenerator c' = streamGenerator c ->
  (eventType c' = EVENT_RECV \/ eventType c' = EVENT_SEND \/ eventType c' = EVENT_SEND_FILE) ->
  writeBuffer_ (rwBuffer c') = Some b -> wf b -> b_bufferSize b = b_bufferSize (block_of c) -> sending c'.
Proof.
  intros [S1 S2 S3 S4 S5 S6 S7] Hf Hi Hg He Hb Hwf Hsz. unfold stream_ok in *.
  split; unfold stream_ok; unfold block_of in *; rewrite ?Hf, ?Hi, ?Hg, ?Hb; cbn [default]; rewrite ?Hsz; try done; [|by exists b|change (id b) with b; by rewrite Hsz].
  destruct S1 as [_ S1]. split; [done|by rewrite Hf].
Qed.

Lemma sending_some c : sending c -> writeBuffer_ (rwBuffer c) = Some (block_of c).
Proof. intros [_ [b Hb] _ _ _ _ _]. unfold block_of. by rewrite Hb. Qed.

(** Pending bytes go out; when they all have, [go] takes over. *)
Lemma drain_fate stale T c go : sending c -> rest c = T ->
  (forall c1, core c1 = core c -> sending c1 -> pending (block_of c1) = [] -> b_bufferSize (block_of c1) = b_bufferSize (block_of c) ->
     exists c', go c1 = Ret c' /\ fate T c1 c') ->
  exists c', (let* x := after_send (send_pending stale c) in match x with (COMPLETED, c) => go c | (_, c) => Ret c end) = Ret c' /\
    fate (pending (block_of c) ++ T) c c'.
Proof.
  intros HS HR Hgo. pose proof (sending_some c HS) as Hb. destruct (send_pending_ok stale c _ Hb (sending_wf c HS)) as (st & c1 & b1 & l & E & [S1 S2 S3 S4 S5 S6 S7 S7' S8 S9]).
  rewrite E. destruct (core_fields _ _ S1) as (C1 & C2 & C3 & C4 & C5 & C6 & C7). pose proof (sending_awake c HS) as Ha. rewrite <- S6, <- app_assoc.
  assert (Hb1 : block_of c1 = b1) by (unfold block_of; by rewrite S3). destruct S5 as [S5 _].
  assert (Hsend : forall et, et = EVENT_SEND \/ et = eventType c -> sending (set_eventType et c1)).
  { intros et Het. apply (sending_move c _ b1); try done. cbn. destruct Het as [->| ->]; [by right; left|apply Ha]. }
  destruct st; cbn [after_send obind].
  - destruct S9 as [S9 S10]. assert (HS1 : sending c1) by (specialize (Hsend (eventType c) (or_intror eq_refl)); rewrite <- C1 in Hsend; by destruct c1).
    destruct (Hgo c1) as (c' & E' & F); [done|done|by rewrite Hb1|by rewrite Hb1|]. exists c'. split; [done|]. rewrite S9. cbn [app].
    apply (fate_prepend _ _ c1); try done. intros Ht. rewrite S9, app_nil_r in S6. destruct (decide (pending (block_of c) = [])) as [Ep|Ep].
    + right. by rewrite S10.
    + left. by rewrite S6.
  - destruct S9 as [S9 S10]. unfold EnterState. rewrite C1, (legal_send c Ha). cbn [negb obind]. eexists. split; [done|].
    specialize (Hsend EVENT_SEND (or_introl eq_refl)). assert (Ht : todo (set_eventType EVENT_SEND c1) = pending b1 ++ T).
    { unfold todo. change (block_of (set_eventType EVENT_SEND c1)) with (block_of c1). rewrite Hb1. f_equal. rewrite <- HR. transitivity (rest c1); [done|]. apply rest_core; [done|by rewrite Hb1]. }
    apply (fate_waits _ _ _ l); try done; [|by rewrite Ht]. split; [done|]. split; [|by left]. rewrite Ht. by intros [? _]%app_eq_nil.
  - destruct (Close_ok c1) as (c' & l' & E' & H1 & H2 & H3); [by destruct Ha; split; [rewrite C1|rewrite C3]|]. rewrite E'. cbn [obind]. exists c'. split; [done|].
    apply (fate_closed _ _ _ (l ++ l')); [by rewrite H1, S2, app_assoc|by eapply ended_prepend| |].
    + rewrite sent_app, H2. by apply prefix_app, prefix_nil.
    + rewrite S9. done.
Qed.

Lemma Write_ok r s c : sending c ->
  (forall c1, core c1 = core c -> sending c1 -> pending (block_of c1) = [] -> b_bufferSize (block_of c1) = b_bufferSize (block_of c) ->
     exists c', rearm_ r s c1 = Ret c' /\ fate (rest c) c1 c') ->
  exists c', Write_ r s [] c = Ret c' /\ fate (todo c) c c'.
Proof.
  intros HS Hgo. unfold Write_. rewrite (sending_some c HS). pose proof (length_pending _ (sending_wf c HS)) as HL. pose proof (sending_wf c HS) as (W & _).
  destruct (Z.leb_spec (b_dataLength (block_of c)) (b_writtenLength (block_of c))).
  - assert (Hp : pending (block_of c) = []) by (apply length_zero_iff_nil; lia). unfold todo. rewrite Hp. by apply Hgo.
  - by apply drain_fate.
Qed.

(** A response with nothing after its buffer. *)
Lemma plain_rearm r s c : sending c -> isStreamOperation (fl c) = false -> isFileOperation (fl c) = false ->
  exists c', rearm_ r s c = Ret c' /\ fate [] c c'.
Proof. intros HS H1 H2. unfold rearm_. rewrite H1, H2. by apply finish_ok, sending_awake. Qed.

(** *** Streams *)

Lemma stream_text_fuel (HW : well_behaved) cap chunked f1 : forall f2 g, 0 < cap -> (rank g < f1)%nat -> (rank g < f2)%nat -> stream_text f1 cap chunked g = stream_text f2 cap chunked g.
Proof.
  induction f1 as [|f1 IH]; intros [|f2] g Hc H1 H2; [lia..|]. cbn [stream_text]. destruct (next g cap) as [[data a] g'] eqn:E.
  destruct (HW _ _ _ _ _ Hc E) as [_ Ha]. destruct a; [|done..]. f_equal. apply IH; [done|lia..].
Qed.

Lemma Cleanup_ok c : exists l, log (CleanupStreamGenerator c) = log c ++ l /\ sent l = [] /\ quiet l /\ closes l = 0%nat /\
  eventType (CleanupStreamGenerator c) = eventType c /\ generationId (CleanupStreamGenerator c) = generationId c /\ fl (CleanupStreamGenerator c) = fl c /\
  kernel (CleanupStreamGenerator c) = kernel c /\ rwBuffer (CleanupStreamGenerator c) = rwBuffer c /\ fileInfo (CleanupStreamGenerator c) = fileInfo c /\ streamGenerator (CleanupStreamGenerator c) = None.
Proof.
  unfold CleanupStreamGenerator. destruct (streamGenerator c) as [[g []|]|]; cbn;
    first [exists [GeneratorDestroyed]; split; [done|]; split; [done|]; split; [by apply Forall_cons|]; done
          |exists []; rewrite app_nil_r; split; [done|]; split; [done|]; split; [constructor|]; done].
Qed.

(** The last chunk and the decision about the connection, the generator gone. *)
Lemma last_chunk_ok r s c b : awake c -> writeBuffer_ (rwBuffer c) = Some b -> wf b -> 12 < b_bufferSize b < 2 ^ 28 ->
  isAwaitFlush (fl c) = false -> isFileOperation (fl c) = false -> isStreamOperation (fl c) = false ->
  exists c', (let '(ok, rw) := AppendWriteData CHUNK_END sendBufferIncSize maxSendBufferSize (ClearWriteBuffer (rwBuffer c)) in
              if (ok : bool) then Write_ r s [] (set_rwBuffer rw c) else Close false (set_rwBuffer rw c)) = Ret c' /\ fate CHUNK_END c c'.
Proof.
  intros Ha Hb (W1 & W2 & W3) Hsz H1 H2 H3. unfold AppendWriteData, on_write, ClearWriteBuffer. rewrite Hb. cbn [fmap option_fmap option_map writeBuffer_ readBuffer_].
  unfold GenericAppendData. change (Z.of_nat (length CHUNK_END)) with 5. cbn [Z.eqb clear_block b_dataLength b_bufferSize]. rewrite Z.add_0_l.
  destruct (Z.ltb_spec (b_bufferSize b) 5); [lia|]. destruct (append_at_end_ok CHUNK_END (clear_block b)) as (A1 & A2 & A3 & A4); [unfold wf; cbn; lia|cbn; lia|].
  set (b1 := append_at_end CHUNK_END (clear_block b)) in *. set (c1 := set_rwBuffer _ c).
  assert (Hb1 : writeBuffer_ (rwBuffer c1) = Some b1) by done. assert (Hbk : block_of c1 = b1) by done.
  assert (HS : sending c1).
  { split; rewrite ?Hbk; change (fl c1) with (fl c); try done; [by exists b1|by rewrite H3|by rewrite H2]. }
  assert (Hr : rest c1 = []) by (unfold rest; change (fl c1) with (fl c); by rewrite H3, H2).
  destruct (Write_ok r s c1 HS) as (c' & E & F).
  - intros c2 Hc2 HS2 _ _. rewrite Hr. apply plain_rearm; [done|..]; destruct (core_fields _ _ Hc2) as (_ & _ & -> & _); done.
  - exists c'. split; [done|]. replace CHUNK_END with (sent [] ++ todo c1).
    + apply (fate_prepend _ c c1 []); try done; [by rewrite app_nil_r|constructor|by right].
    + unfold todo. rewrite Hr, Hbk, app_nil_r. unfold pending. rewrite A2, A3. done.
Qed.

Lemma end_stream_ok r s c b : awake c -> writeBuffer_ (rwBuffer c) = Some b -> wf b -> 12 < b_bufferSize b < 2 ^ 28 -> isAwaitFlush (fl c) = false -> isFileOperation (fl c) = false ->
  exists c', end_stream (Write_ r s []) c = Ret c' /\ fate (if streamChunked (fl c) then CHUNK_END else []) c c'.
Proof.
  intros Ha Hb Hwf Hsz Hfl Hf. unfold end_stream. destruct (Cleanup_ok c) as (l & K1 & K2 & K3 & K4 & K5 & K6 & K7 & K8 & K9 & K10 & K11). set (c0 := CleanupStreamGenerator c) in *.
  rewrite K9. set (c1 := set_streamChunked false _).
  assert (Ha1 : awake c1) by (unfold awake in *; change (eventType c1) with (eventType c0); change (isShuttingDown (fl c1)) with (isShuttingDown (fl c0)); by rewrite K5, K7).
  assert (Hmain : exists c', (if streamChunked (fl c) then let '(ok, rw) := AppendWriteData CHUNK_END sendBufferIncSize maxSendBufferSize (rwBuffer c1) in
      let c := set_rwBuffer rw c1 in if (ok : bool) then Write_ r s [] c else Close false c
      else if bool_decide (connectionState c1 = CONNECTION_ALIVE) then ResumeReceive (Clear c1) else Close false c1) = Ret c' /\ fate (if streamChunked (fl c) then CHUNK_END else []) c1 c').
  { destruct (streamChunked (fl c)).
    - destruct (last_chunk_ok r s c1 (clear_block b)) as (c' & E & F); try done; [unfold c1; cbn; by rewrite Hb|unfold wf in *; cbn; lia|by rewrite <- K7 in Hfl|by rewrite <- K7 in Hf|].
      exists c'. split; [|done]. rewrite <- E. assert (ClearWriteBuffer (rwBuffer c1) = rwBuffer c1) as ->; [|done].
      unfold c1, ClearWriteBuffer. cbn. by destruct (writeBuffer_ (rwBuffer c)).
    - destruct (finish_ok c1 Ha1) as (c' & E & F). exists c'. split; [|done]. rewrite <- E. unfold finish.
      destruct (connectionState c1); [rewrite bool_decide_false, bool_decide_true by done|rewrite bool_decide_true, bool_decide_false by done]; reflexivity. }
  destruct Hmain as (c' & E & F). exists c'. split; [done|]. assert (Hk : kernel c1 = kernel c) by exact K8.
  pose proof (fate_prepend (if streamChunked (fl c) then CHUNK_END else []) c c1 l c' K1 K3 K4 K6) as P. rewrite Hk, K2 in P. apply P; [done|by right|done].
Qed.

Lemma fate_silent T c c1 l c' : log c1 = log c ++ l -> sent l = [] -> quiet l -> closes l = 0%nat -> generationId c1 = generationId c -> kernel c1 = kernel c ->
  fate T c1 c' -> fate T c c'.
Proof.
  intros H1 H2 H3 H4 H5 H6 F. pose proof (fate_prepend T c c1 l c' H1 H3 H4 H5) as P. rewrite H6, H2 in P. apply P; [done|by right|done].
Qed.

Lemma sending_source c c' b : sending c -> fl c' = fl c -> isStreamOperation (fl c) = true -> stream_ok c' -> eventType c' = eventType c ->
  writeBuffer_ (rwBuffer c') = Some b -> wf b -> b_bufferSize b = b_bufferSize (block_of c) -> sending c'.
Proof.
  intros [S1 S2 S3 S4 S5 S6 S7] Hf Ht Hs He Hb Hwf Hsz. assert (Hk : block_of c' = b) by (unfold block_of; by rewrite Hb).
  split; rewrite ?Hk, ?Hf, ?Hsz; try done; [|by exists b|by intros; split; [apply S6|]|by rewrite Ht].
  destruct S1 as [S1 S1']. split; [by rewrite He|by rewrite Hf].
Qed.

Lemma chunk_ok go chunked data c : sending c -> streamChunked (fl c) = chunked -> b_writtenLength (block_of c) = 0 -> b_dataLength (block_of c) = 0 ->
  data <> [] -> Z.of_nat (length data) <= offered chunked (b_bufferSize (block_of c)) ->
  (forall c1, core c1 = core c -> sending c1 -> b_bufferSize (block_of c1) = b_bufferSize (block_of c) -> exists c', go c1 = Ret c' /\ fate (rest c) c1 c') ->
  exists c', (match place_chunk chunked data c with
              | None => Close false c
              | Some c => let* x := after_send (send_pending true c) in match x with (COMPLETED, c) => go c | (_, c) => Ret c end
              end) = Ret c' /\ fate (frame chunked data ++ rest c) c c'.
Proof.
  intros HS Hch Hw Hd Hne Hlen Hgo. destruct (place_chunk_ok chunked data c _ (sending_some c HS) (sending_wf c HS) Hw Hd Hne (sending_size c HS) Hlen)
    as (c1 & b1 & E & C & HL & HK & Hb & Hwf & Hsz & Hp). rewrite E. destruct (core_fields _ _ C) as (C1 & C2 & C3 & C4 & C5 & C6 & C7).
  assert (Hk : block_of c1 = b1) by (unfold block_of; by rewrite Hb).
  assert (HS1 : sending c1) by (apply (sending_move c c1 b1); try done; rewrite C1; apply (sending_awake c HS)).
  destruct (drain_fate true (rest c) c1 go HS1) as (c' & E' & F).
  - apply rest_core; [done|by rewrite Hk].
  - intros c2 D1 D2 _ D4. apply Hgo; [by rewrite D1|done|by rewrite D4, Hk].
  - exists c'. split; [done|]. rewrite <- Hp, <- Hk. by apply (fate_silent _ c c1 []); [rewrite app_nil_r|..]; try done; constructor.
Qed.

(** The buffer emptied for the next chunk. *)
Definition emptied (c : ClientCtx) : ClientCtx := on_write_block (fun b => set_writtenLength 0 (set_dataLength 0 b)) c.

Lemma emptied_ok c : sending c -> sending (emptied c) /\ rest (emptied c) = rest c /\ b_writtenLength (block_of (emptied c)) = 0 /\ b_dataLength (block_of (emptied c)) = 0 /\
  b_bufferSize (block_of (emptied c)) = b_bufferSize (block_of c) /\ writeBuffer_ (rwBuffer (emptied c)) = Some (block_of (emptied c)).
Proof.
  intros HS. pose proof (sending_some c HS) as Hb. pose proof (sending_wf c HS) as (W1 & W2 & W3).
  assert (Hb' : writeBuffer_ (rwBuffer (emptied c)) = Some (set_writtenLength 0 (set_dataLength 0 (block_of c)))) by (unfold emptied, on_write_block; cbn; by rewrite Hb).
  assert (Hk : block_of (emptied c) = set_writtenLength 0 (set_dataLength 0 (block_of c))) by (unfold block_of at 1; by rewrite Hb').
  rewrite Hb', Hk. cbn. split_and!; try done.
  - eapply (sending_move c); try done; [apply (sending_awake c HS)|unfold wf; cbn; lia].
  - apply rest_core; [done|by rewrite Hk].
Qed.

Definition source_rank (c : ClientCtx) : nat :=
  match streamGenerator c with
  | Some (User g _) => rank g
  | Some FileReader => Z.to_nat (fileSize (fileInfo c) - offset (fileInfo c))
  | None => 0
  end.

Lemma offered_pos chunked size : 12 < size < 2 ^ 28 -> 0 < offered chunked size < 2 ^ 28.
Proof. intros H. unfold offered, HDR_RESERVE. destruct chunked; rewrite wrap_small; lia. Qed.

Lemma take_then_drop {A} n (l : list A) : take n l ++ drop (length (take n l)) l = l.
Proof.
  rewrite length_take. destruct (Nat.min_spec n (length l)) as [[H ->]|[H ->]]; [apply take_drop|].
  rewrite take_ge, drop_ge by lia. apply app_nil_r.
Qed.

(** What follows the last bytes of a stream. *)
Definition stream_end (c : ClientCtx) : bytes := if streamChunked (fl c) then CHUNK_END else [].

(** One call of the generator: a chunk and the rest of the text, or the end. *)
Lemma generate_ok (HW : well_behaved) c cap : sending c -> isStreamOperation (fl c) = true ->
  cap = offered (streamChunked (fl c)) (b_bufferSize (block_of c)) ->
  exists data act c1, generate cap c = (data, act, c1) /\ fl c1 = fl c /\ rwBuffer c1 = rwBuffer c /\ eventType c1 = eventType c /\ log c1 = log c /\
    generationId c1 = generationId c /\ kernel c1 = kernel c /\ connectionState c1 = connectionState c /\ Z.of_nat (length data) <= cap /\
    match act with
    | CONTINUE => data <> [] /\ sending c1 /\ (source_rank c1 < source_rank c)%nat /\ rest c = frame (streamChunked (fl c)) data ++ rest c1
    | _ => rest c = frame (streamChunked (fl c)) data ++ stream_end c /\ (data = [] \/ sending c1 /\ rest c1 = stream_end c)
    end.
Proof.
  intros HS Ht ->. pose proof (offered_pos (streamChunked (fl c)) _ (sending_size c HS)) as Hcap. set (cap := offered _ _) in *.
  destruct (sending_stream c HS Ht) as [_ Hs]. unfold stream_ok in Hs. unfold generate. destruct (streamGenerator c) as [[g d|]|] eqn:Eg; [| |done].
  - destruct (next g cap) as [[data a] g'] eqn:En. destruct (HW g cap data a g' (proj1 Hcap) En) as [Hl Ha]. eexists _, _, _. split; [done|]. split_and!; try done.
    assert (Hr : rest c = frame (streamChunked (fl c)) data ++ (match a with CONTINUE => stream_text (rank g) cap (streamChunked (fl c)) g' | _ => if streamChunked (fl c) then CHUNK_END else [] end)).
    { unfold rest. rewrite Ht, Eg. cbn [stream_text]. fold cap. by rewrite En. }
    assert (Hstop : data = [] \/ stopped g' /\ (rank g' <= rank g)%nat -> data = [] \/
      sending (set_streamGenerator (Some (User g' d)) c) /\ rest (set_streamGenerator (Some (User g' d)) c) = stream_end c).
    { intros [->|[Hst Hrk]]; [by left|right]. split.
      - apply (sending_source c _ (block_of c)); try done; [unfold stream_ok; cbn; lia|exact (sending_some c HS)|exact (sending_wf c HS)].
      - destruct (Hst cap (proj1 Hcap)) as (a' & g'' & En' & Hne). unfold rest. cbn [streamGenerator set_streamGenerator fl]. rewrite Ht. cbv zeta. cbn [stream_text].
        change (block_of (set_streamGenerator (Some (User g' d)) c)) with (block_of c). fold cap. rewrite En'. unfold stream_end. by destruct a'. }
    destruct a; [|split; [exact Hr|by apply Hstop]..]. destruct Ha as [Ha1 Ha2]. split; [done|]. split.
    + apply (sending_source c _ (block_of c)); try done; [unfold stream_ok; cbn; lia|exact (sending_some c HS)|exact (sending_wf c HS)].
    + split; [unfold source_rank; by rewrite Eg|]. rewrite Hr. f_equal. unfold rest. cbn [streamGenerator set_streamGenerator fl]. rewrite Ht. apply (stream_text_fuel HW); [exact (proj1 Hcap)|exact Ha2|apply Nat.lt_succ_diag_r].
  - destruct Hs as (Hch & (content & Hfd & Hsz & Hoff) & Hlt). unfold read_file. rewrite Hfd. set (data := take (Z.to_nat cap) (drop (Z.to_nat (offset (fileInfo c))) content)).
    assert (Hrest : rest c = drop (Z.to_nat (offset (fileInfo c))) content) by (unfold rest; by rewrite Ht, Eg, Hfd).
    assert (Hdl : (length data <= Z.to_nat cap)%nat) by (unfold data; rewrite length_take; lia). rewrite Hch.
    destruct (decide (data = [])) as [Ed|Ed].
    + rewrite Ed. eexists _, _, _. split; [done|]. split_and!; try done; [cbn; lia| |by left]. rewrite Hrest. unfold stream_end. rewrite Hch. apply length_zero_iff_nil. apply (f_equal length) in Ed. unfold data in Ed. rewrite length_take in Ed. cbn [length] in Ed. lia.
    + assert (Hd1 : (length data + Z.to_nat (offset (fileInfo c)) <= length content)%nat) by (unfold data; rewrite length_take, length_drop; lia).
      assert (Hd0 : (0 < length data)%nat) by (destruct data; [done|cbn; lia]).
      assert (Hm : forall (A : Type) (x y : A), (match data with [] => x | _ => y end) = y) by (intros; by destruct data). rewrite Hm. eexists _, _, _. split; [done|]. split_and!; try done; [lia| | |].
      { apply (sending_source c _ (block_of c)); try done; [|exact (sending_some c HS)|exact (sending_wf c HS)]. unfold stream_ok. cbn. rewrite Eg. split; [done|]. split; [|cbn; lia].
        exists content. split; [done|]. split; [done|]. cbn. lia. }
      { unfold source_rank. cbn. rewrite Eg. lia. }
      rewrite Hrest. unfold rest. cbn. rewrite Ht, Eg. unfold frame. rewrite Hm.
      replace (Z.to_nat (offset (fileInfo c) + Z.of_nat (length data))) with (Z.to_nat (offset (fileInfo c)) + length data)%nat by lia. rewrite <- drop_drop.
      symmetry. apply take_then_drop.
Qed.

Lemma stop_ok r s c c2 : sending c -> isStreamOperation (fl c) = true -> fl c2 = fl c -> rwBuffer c2 = rwBuffer c -> eventType c2 = eventType c ->
  exists c', end_stream (Write_ r s []) c2 = Ret c' /\ fate (if streamChunked (fl c) then CHUNK_END else []) c2 c'.
Proof.
  intros HS Ht Hf Hb He. rewrite <- Hf. apply (end_stream_ok r s c2 (block_of c)); rewrite ?Hf, ?Hb.
  - destruct (sending_awake _ HS) as [A1 A2]. split; [by rewrite He|by rewrite Hf].
  - by apply sending_some.
  - by apply sending_wf.
  - by apply sending_size.
  - by apply sending_flush.
  - by apply (sending_stream _ HS).
Qed.

(** A stop, with its last bytes or without. *)
Lemma stop_chunk_ok r s ch data c0 c1 c2 : sending c0 -> isStreamOperation (fl c0) = true -> streamChunked (fl c0) = ch -> fl c1 = fl c0 -> rwBuffer c1 = rwBuffer c0 -> eventType c1 = eventType c0 ->
  fl c2 = fl c1 -> rwBuffer c2 = rwBuffer c1 -> eventType c2 = eventType c1 -> fileInfo c2 = fileInfo c1 -> streamGenerator c2 = streamGenerator c1 ->
  b_writtenLength (block_of c0) = 0 -> b_dataLength (block_of c0) = 0 -> Z.of_nat (length data) <= offered ch (b_bufferSize (block_of c0)) ->
  data = [] \/ sending c1 /\ rest c1 = stream_end c0 ->
  exists c', match data with
    | [] => end_stream (Write_ r s []) c2
    | _ => match place_chunk ch data c2 with
           | None => Close false c2
           | Some c => let* x := after_send (send_pending true c) in match x with (COMPLETED, c) => end_stream (Write_ r s []) c | (_, c) => Ret c end
           end
    end = Ret c' /\ fate (frame ch data ++ stream_end c0) c2 c'.
Proof.
  intros HS0 Ht Hch A1 A2 A3 B1 B2 B3 B4 B5 Hw Hd Hlen Hor.
  assert (Hend : exists c', end_stream (Write_ r s []) c2 = Ret c' /\ fate (stream_end c0) c2 c') by (apply stop_ok; try done; congruence).
  destruct data as [|x data]; [exact Hend|]. destruct Hor as [?|[HS1 Hr1]]; [done|]. assert (Hk : block_of c2 = block_of c0) by (unfold block_of; by rewrite B2, A2).
  assert (Hk1 : block_of c1 = block_of c0) by (unfold block_of; by rewrite A2).
  assert (HS2 : sending c2).
  { apply (sending_move c1 c2 (block_of c1)); try done; [rewrite B3; apply (sending_awake _ HS1)|rewrite B2; exact (sending_some _ HS1)|exact (sending_wf _ HS1)]. }
  assert (Hr2 : rest c2 = stream_end c0) by (rewrite <- Hr1; unfold rest; by rewrite B1, B4, B5, Hk, Hk1). rewrite <- Hr2.
  apply chunk_ok; try done; rewrite ?Hk; try done; [by rewrite B1, A1|]. intros c3 D1 D2 D3. destruct (core_fields _ _ D1) as (_ & _ & D4 & _).
  destruct (stop_ok r s c3 c3 D2) as (c' & E & F); try done; [by rewrite D4, B1, A1|]. exists c'. split; [done|]. rewrite Hr2. unfold stream_end.
  by rewrite D4, B1, A1 in F.
Qed.

Lemma stream_loop_ok (HW : well_behaved) f : forall c, sending c -> isStreamOperation (fl c) = true -> (source_rank c < f)%nat ->
  exists c', stream_loop f c = Ret c' /\ fate (rest c) c c'.
Proof.
  induction f as [|f IH]; intros c HS Ht Hf; [lia|]. cbn [stream_loop]. fold (emptied c).
  destruct (emptied_ok c HS) as (HS0 & Hr0 & Hw0 & Hd0 & Hz0 & Hb0). set (c0 := emptied c) in *. pose proof (sending_size c HS) as Hsz.
  assert (Hlen : u32 (b_bufferSize (block_of c0) - 0) = b_bufferSize (block_of c)) by (rewrite Hz0, Z.sub_0_r, wrap_small; lia).
  unfold GetWritableWriteRegion. rewrite Hb0, Hd0, Hlen. destruct (Z.eqb_spec (b_bufferSize (block_of c)) 0); [lia|].
  assert (Ht0 : isStreamOperation (fl c0) = true) by done.
  destruct (generate_ok HW c0 (offered (streamChunked (fl c0)) (b_bufferSize (block_of c))) HS0 Ht0) as (data & act & c1 & E & G1 & G2 & G3 & G4 & G5 & G6 & G7 & G8 & G9); [by rewrite Hz0|].
  unfold offered at 1 in E. change (streamChunked (fl c0)) with (streamChunked (fl c)) in *. rewrite E. clear E. set (ch := streamChunked (fl c)) in *.
  assert (Hbk : block_of c1 = block_of c0) by (unfold block_of; by rewrite G2).
  assert (Hsil : forall T c', fate T (emit (RefreshExpiry idleTimeout) c1) c' -> fate T c c').
  { intros T c' F. apply (fate_silent _ _ (emit (RefreshExpiry idleTimeout) c1) [RefreshExpiry idleTimeout]); try done; [cbn; by rewrite G4|by apply Forall_cons]. }
  pose proof (offered_pos ch _ Hsz) as Hcap. destruct (Z.ltb_spec (2 ^ 32 - 1) (Z.of_nat (length data))); [lia|].
  destruct act.
  - destruct G9 as (N1 & N2 & N3 & N4). rewrite bool_decide_true by done. cbn [negb andb]. destruct (Nat.eqb_spec (length data) 0) as [Hz|_]; [by apply length_zero_iff_nil in Hz|].
    rewrite bool_decide_false by done. set (c2 := emit _ c1) in *.
    assert (HS2 : sending c2).
    { apply (sending_move c1 c2 (block_of c1)); try done; [apply (sending_awake _ N2)|exact (sending_some _ N2)|exact (sending_wf _ N2)]. }
    destruct (chunk_ok (stream_loop f) ch data c2 HS2) as (c' & E & F); try done.
    + change (streamChunked (fl c2)) with (streamChunked (fl c1)). by rewrite G1.
    + change (block_of c2) with (block_of c1). by rewrite Hbk.
    + change (block_of c2) with (block_of c1). by rewrite Hbk.
    + change (block_of c2) with (block_of c1). by rewrite Hbk, Hz0.
    + intros c3 D1 D2 D3. destruct (core_fields _ _ D1) as (_ & _ & D4 & D5 & D6 & _). rewrite <- (rest_core c2 c3 D1 D3). apply IH; [done| |].
      * rewrite D4. change (fl c2) with (fl c1). by rewrite G1.
      * assert (source_rank c3 = source_rank c1) as -> by (unfold source_rank; by rewrite D5, D6). unfold source_rank in N3 at 2. change (streamGenerator c0) with (streamGenerator c) in N3. change (fileInfo c0) with (fileInfo c) in N3. fold (source_rank c) in N3. lia.
    + exists c'. split; [by destruct data|]. apply Hsil. rewrite <- Hr0, N4. done.
  - destruct G9 as [Hr Hor]. rewrite bool_decide_false by done. cbn [negb andb]. rewrite bool_decide_false by done.
    destruct (stop_chunk_ok (ResumeStream_ (stream_loop f)) (SendFile_ (ResumeStream_ (stream_loop f))) ch data c0 c1 (emit (RefreshExpiry idleTimeout) c1)) as (c' & E & F); try done; [by rewrite Hz0|].
    exists c'. split; [done|]. apply Hsil. by rewrite <- Hr0, Hr.
  - destruct G9 as [Hr Hor]. rewrite bool_decide_false by done. cbn [negb andb]. rewrite bool_decide_true by done.
    destruct (stop_chunk_ok (ResumeStream_ (stream_loop f)) (SendFile_ (ResumeStream_ (stream_loop f))) ch data c0 c1 (set_connectionState CONNECTION_CLOSE (emit (RefreshExpiry idleTimeout) c1))) as (c' & E & F); try done; [by rewrite Hz0|].
    exists c'. split; [done|]. apply Hsil. rewrite <- Hr0, Hr.
    eapply (fate_silent _ _ (set_connectionState CONNECTION_CLOSE (emit (RefreshExpiry idleTimeout) c1)) []); try done; [by rewrite app_nil_r|constructor].
Qed.

(** *** Files *)

Lemma fate_fail T c c1 c' : smooth (kernel c) = false -> log c1 = log c -> generationId c1 = generationId c -> fate [] c1 c' -> fate T c c'.
Proof.
  intros Hk Hl Hg [l F1 F2 F3 F4 F5 F6 F7 F8|l F1 F2 F3 F4 F5 F6 F7 F8|l F1 F2 F3 F4].
  - exfalso. apply app_eq_nil in F7 as [_ F7]. by destruct F6 as (_ & ? & _).
  - apply (fate_done _ _ _ l); try done; [by rewrite F1, Hl|congruence|by apply prefix_nil_inv in F7 as ->; apply prefix_nil|by rewrite Hk].
  - apply (fate_closed _ _ _ l); [by rewrite F1, Hl| |by apply prefix_nil_inv in F3 as ->; apply prefix_nil|by rewrite Hk].
    apply (ended_prepend c c1 []); try done. constructor.
Qed.

Lemma ResumeStream_ok (HW : well_behaved) c : sending c -> isStreamOperation (fl c) = true -> exists c', ResumeStream c = Ret c' /\ fate (rest c) c c'.
Proof.
  intros HS Ht. unfold ResumeStream, ResumeStream_. rewrite (sending_some c HS). destruct (sending_stream c HS Ht) as [_ Hs]. unfold stream_ok in Hs.
  destruct (streamGenerator c) as [[g d|]|] eqn:Eg; [| |done]; apply (stream_loop_ok HW); try done; unfold source_rank; rewrite Eg; [done|].
  destruct Hs as (_ & (content & _ & _ & ?) & ?). lia.
Qed.

(** A turn of the file loop that moved bytes. *)
Lemma file_took c n content : sending c -> isStreamOperation (fl c) = false -> isFileOperation (fl c) = true -> pending (block_of c) = [] ->
  file_ok (fileInfo c) -> fd (fileInfo c) = Some content -> offset (fileInfo c) < fileSize (fileInfo c) ->
  let l := drop (Z.to_nat (offset (fileInfo c))) content in
  let c1 := set_fileInfo (File (fd (fileInfo c)) (fileSize (fileInfo c)) (offset (fileInfo c) + Z.of_nat (moved n l))) c in
  sending c1 /\ rest c = take (moved n l) l ++ rest c1 /\ l <> [] /\ offset (fileInfo c) < offset (fileInfo c1).
Proof.
  intros HS H1 H2 Hp (content' & Hfd & Hsz & Hoff) Hfd' Hlt l c1. rewrite Hfd in Hfd'. injection Hfd' as ->.
  assert (Hne : l <> []) by (unfold l; intros E; apply (f_equal length) in E; rewrite length_drop in E; cbn in E; lia). pose proof (moved_pos n l Hne) as Hm.
  split_and!; [|unfold rest; change (fl c1) with (fl c); rewrite H1, H2, Hfd; cbn [c1 fileInfo set_fileInfo fd offset default]|done|cbn; lia].
  - destruct HS as [S1 S2 S3 S4 S5 S6 S7]. split; try done; change (fl c1) with (fl c); [by rewrite H1|]. intros _ _. cbn. destruct (S7 H1 H2) as [_ S7']. split; [|done].
    exists content. cbn. split; [done|]. split; [done|]. assert (length l = length content - Z.to_nat (offset (fileInfo c)))%nat by apply length_drop. lia.
  - rewrite Hfd. cbn. replace (Z.to_nat (offset (fileInfo c) + Z.of_nat (moved n l))) with (Z.to_nat (offset (fileInfo c)) + moved n l)%nat by lia.
    rewrite <- drop_drop. symmetry. apply take_drop.
Qed.

(** The TLS library cannot send files: the reader takes over with the same bytes. *)
Lemma fallback_ok (HW : well_behaved) c : sending c -> isStreamOperation (fl c) = false -> isFileOperation (fl c) = true ->
  exists c', ResumeStream (set_streamGenerator (Some FileReader) (set_streamChunked false (set_isStreamOperation true
               (set_isFileOperation false (count FILE_FALLBACKS 1 c))))) = Ret c' /\ fate (rest c) c c'.
Proof.
  intros HS H1 H2. set (c1 := set_streamGenerator _ _). pose proof HS as [S1 S2 S3 S4 S5 S6 S7]. destruct (S7 H1 H2) as [(content & Hfd & Hsz & Hoff) Hlt].
  assert (HS1 : sending c1).
  { split; try done. intros _. split; [done|]. split; [done|]. split; [by exists content|]. cbn. lia. }
  destruct (ResumeStream_ok HW c1 HS1 eq_refl) as (c' & E & F). exists c'. split; [done|].
  apply (fate_silent _ c c1 []); try done; [by rewrite app_nil_r|constructor|]. replace (rest c) with (rest c1); [done|].
  unfold rest. cbn. by rewrite H1, H2.
Qed.

Lemma file_loop_ok (HW : well_behaved) f : forall c, sending c -> isStreamOperation (fl c) = false -> isFileOperation (fl c) = true -> pending (block_of c) = [] ->
  (Z.to_nat (fileSize (fileInfo c) - offset (fileInfo c)) < f)%nat -> exists c', file_loop ResumeStream f c = Ret c' /\ fate (rest c) c c'.
Proof.
  induction f as [|f IH]; intros c HS H1 H2 Hp Hf; [lia|]. cbn [file_loop]. destruct (sending_file c HS H1 H2) as [Hfile _].
  pose proof Hfile as (content & Hfd & Hsz & Hoff). pose proof (sending_awake c HS) as Ha.
  assert (Hrest : rest c = drop (Z.to_nat (offset (fileInfo c))) content) by (unfold rest; by rewrite H1, H2, Hfd).
  destruct (Z.ltb_spec (offset (fileInfo c)) (fileSize (fileInfo c))) as [Hlt|Hge].
  2:{ rewrite Hrest, drop_ge by lia. by apply finish_ok. }
  unfold WrapFile. destruct (sslConn c && negb ktls); [by apply (fallback_ok HW)|].
  assert (Hwait : forall c1, log c1 = log c -> generationId c1 = generationId c -> (smooth (kernel c) = true -> smooth (kernel c1) = true) -> takes (kernel c) = false ->
    set_eventType EVENT_SEND_FILE c1 = set_kernel (kernel c1) (set_eventType EVENT_SEND_FILE c) -> eventType c1 = eventType c ->
    exists c', EnterState EVENT_SEND_FILE c1 = Ret c' /\ fate (rest c) c c').
  { intros c1 L1 L2 L3 L4 L5 L6. unfold EnterState. rewrite L6, (legal_send_file c Ha). cbn [negb]. eexists. split; [done|]. rewrite L5.
    assert (HSw : sending (set_kernel (kernel c1) (set_eventType EVENT_SEND_FILE c))).
    { apply (sending_move c _ (block_of c)); try done; [by right; right|exact (sending_some c HS)|exact (sending_wf c HS)]. }
    assert (Ht : todo (set_kernel (kernel c1) (set_eventType EVENT_SEND_FILE c)) = rest c) by (unfold todo; change (pending (block_of c) ++ rest c = rest c); by rewrite Hp).
    apply (fate_waits _ _ _ []); try done; [by rewrite app_nil_r|constructor| |by rewrite L4]. split; [done|]. split; [|by right; split_and!].
    rewrite Ht, Hrest. intros E. apply (f_equal length) in E. rewrite length_drop in E. cbn in E. lia. }
  unfold ask. destruct (kernel c) as [|a k] eqn:Ek; [apply Hwait; try done; rewrite Ek; by destruct c|]. destruct a as [n| |again|].
  - assert (Hav : take (Z.to_nat (fileSize (fileInfo c) - offset (fileInfo c))) (drop (Z.to_nat (offset (fileInfo c))) (default [] (fd (fileInfo c)))) =
      drop (Z.to_nat (offset (fileInfo c))) content) by (rewrite Hfd; change (default [] (Some content)) with content; apply take_ge; rewrite length_drop; lia).
    rewrite Hav. clear Hav.
    destruct (file_took c n content HS H1 H2 Hp Hfile Hfd Hlt) as (T1 & T2 & T3 & T4). set (l := drop _ content) in *. set (c1 := set_fileInfo _ c) in *.
    assert (Hm : forall (A : Type) (x y : A), (match l with [] => x | _ => y end) = y) by (intros; by destruct l). rewrite Hm, Nat2Z.id.
    set (c2 := emit _ _). assert (HS2 : sending c2).
    { apply (sending_move c1 c2 (block_of c1)); try done; [apply (sending_awake _ T1)|exact (sending_some _ T1)|exact (sending_wf _ T1)]. }
    assert (Hm1 : (0 < moved n l)%nat) by (by apply moved_pos).
    destruct (IH c2) as (c' & E & F); try done.
    { change (fileSize (fileInfo c2)) with (fileSize (fileInfo c)). change (offset (fileInfo c2)) with (offset (fileInfo c) + Z.of_nat (moved n l)). lia. }
    exists c'. split; [done|].
    rewrite T2. replace (rest c1) with (rest c2) by (unfold rest, c2, c1; cbn; by rewrite H1, H2, Hfd).
    replace (take (moved n l) l) with (sent [Sent (take (moved n l) l)]) by (unfold sent; cbn; apply app_nil_r).
    apply (fate_prepend _ c c2); try done; [by apply Forall_cons|rewrite Ek; done|]. intros _. left. unfold sent. cbn. rewrite app_nil_r.
    intros E0. apply (f_equal length) in E0. rewrite length_take in E0. pose proof (moved_pos n l T3). cbn in E0. lia.
  - apply Hwait; try done.
  - destruct (finish_ok (set_kernel k c)) as (c' & E & F); [done|]. exists c'. split; [done|]. apply (fate_fail _ c (set_kernel k c)); try done. by rewrite Ek.
  - destruct (Close_fate [] (set_kernel k c)) as (c' & E & F); [done|done|]. exists c'. split; [done|]. apply (fate_fail _ c (set_kernel k c)); try done. by rewrite Ek.
Qed.

Lemma SendFile_ok (HW : well_behaved) c : sending c -> isStreamOperation (fl c) = false -> isFileOperation (fl c) = true -> pending (block_of c) = [] ->
  exists c', SendFile c = Ret c' /\ fate (rest c) c c'.
Proof.
  intros HS H1 H2 Hp. unfold SendFile, SendFile_. destruct (sending_file c HS H1 H2) as [(content & Hfd & Hsz & Hoff) Hlt].
  rewrite bool_decide_true by (rewrite Hfd; by eexists). destruct (Z.leb_spec (fileSize (fileInfo c)) 0); [lia|]. cbn [negb orb].
  apply (file_loop_ok HW); try done. lia.
Qed.

Lemma rearm_ok (HW : well_behaved) c : sending c -> pending (block_of c) = [] -> exists c', rearm_ ResumeStream SendFile c = Ret c' /\ fate (rest c) c c'.
Proof.
  intros HS Hp. unfold rearm_. destruct (isStreamOperation (fl c)) eqn:H1; [by apply (ResumeStream_ok HW)|].
  destruct (isFileOperation (fl c)) eqn:H2; [by apply (SendFile_ok HW)|].
  replace (rest c) with (@nil Z) by (unfold rest; by rewrite H1, H2). by apply finish_ok, sending_awake.
Qed.

Lemma Write_sends (HW : well_behaved) c : sending c -> exists c', Write [] c = Ret c' /\ fate (todo c) c c'.
Proof.
  intros HS. apply Write_ok; [done|]. intros c1 C1 HS1 Hp Hsz. rewrite <- (rest_core c c1 C1 Hsz). by apply (rearm_ok HW).
Qed.

(** The socket is writable again. *)
Lemma write_ready_ok (HW : well_behaved) c : waiting c -> exists c', HandleClientWriteReady c = Ret c' /\ fate (todo c) c c'.
Proof.
  intros (HS & _ & [He|(He & H1 & H2 & Hp)]); unfold HandleClientWriteReady; rewrite He.
  - rewrite (sending_flush c HS). by apply (Write_sends HW).
  - unfold todo. rewrite Hp. by apply (SendFile_ok HW).
Qed.

(** ** A response over many events *)

(** What may happen to the slot while a response is under way: the kernel reports any
    readiness, the calls made then answered by a script, or the slot's timer fires. *)
Inductive happening := Epoll (ev : ready) (k : list answer) | Timeout.

(** A timer is cancelled with its connection, an event of a dead one is ignored. *)
Definition happens (gen : Z) (e : happening) (c : ClientCtx) : outcome ClientCtx :=
  match e with
  | Epoll ev k => client_event ev gen (set_kernel k c)
  | Timeout => if negb (generationId c =? gen) then Ret c else HandleTimeout c
  end.

(** The response starts, and things happen until the client reads again: from there on the
    next request is under way. *)
Fixpoint events (gen : Z) (es : list happening) (c : ClientCtx) : outcome ClientCtx :=
  match es with
  | [] => Ret c
  | e :: es =>
      if (generationId c =? gen) && bool_decide (eventType c = EVENT_RECV) then Ret c
      else let* c := happens gen e c in events gen es c
  end.

Definition respond (es : list happening) (c : ClientCtx) : outcome ClientCtx :=
  let* c1 := Write [] c in events (generationId c) es c1.

(** Nothing fails; the socket is writable and takes bytes. *)
Definition fine (e : happening) : bool := match e with Epoll ev k => negb (EPOLLERR_HUP ev) && smooth k | Timeout => false end.
Definition moves (e : happening) : bool := match e with Epoll ev k => negb (EPOLLERR_HUP ev) && EPOLLOUT ev && takes k | Timeout => false end.

(** Where a response of [T] stands after the actions [l]; [ok]: no call has failed. *)
Inductive standing (T : bytes) (ok : bool) (c c' : ClientCtx) (l : list action) : Prop :=
| standing_waits : quiet l -> closes l = 0%nat -> generationId c' = generationId c -> waiting c' -> sent l ++ todo c' = T -> standing T ok c c' l
| standing_done : quiet l -> closes l = 0%nat -> generationId c' = generationId c -> awake c' -> eventType c' = EVENT_RECV ->
    sent l `prefix_of` T -> (ok = true -> sent l = T) -> standing T ok c c' l
| standing_closed : ended c c' l -> sent l `prefix_of` T -> (ok = true -> sent l = T) -> standing T ok c c' l.

Lemma standing_fate T c c' : fate T c c' -> exists l, log c' = log c ++ l /\ standing T (smooth (kernel c)) c c' l /\
  (takes (kernel c) = true -> sent l <> [] \/ ~ waiting c').
Proof.
  intros [l F1 F2 F3 F4 F5 F6 F7 F8|l F1 F2 F3 F4 F5 F6 F7 F8|l F1 F2 F3 F4]; exists l; (split; [done|]).
  - split; [by apply standing_waits|]. intros Ht. left. auto.
  - split; [by apply standing_done|]. intros _. right. intros (_ & _ & [He|[He _]]); congruence.
  - split; [by apply standing_closed|]. intros _. right. intros (HS & _ & [He|[He _]]); destruct F2; congruence.
Qed.

Lemma standing_sent T ok c c' l : standing T ok c c' l -> sent l `prefix_of` T.
Proof. intros [_ _ _ _ <-|? ? ? ? ? H _|? H _]; [by apply prefix_app_r|done|done]. Qed.

(** A response goes on from where it stood. *)
Lemma standing_then T T' ok ok' c c1 c' l l' : quiet l -> closes l = 0%nat -> generationId c1 = generationId c -> sent l ++ T' = T ->
  standing T' ok' c1 c' l' -> standing T (ok && ok') c c' (l ++ l').
Proof.
  intros H1 H2 H3 <- [A1 A2 A3 A4 A5|A1 A2 A3 A4 A5 A6 A7|A1 A2 A3].
  - apply standing_waits; [by apply quiet_app|by rewrite closes_app, H2|by rewrite A3|done|by rewrite sent_app, <- app_assoc, A5].
  - apply standing_done; try done; [by apply quiet_app|by rewrite closes_app, H2|by rewrite A3|rewrite sent_app; by apply prefix_app|].
    intros [_ H]%andb_true_iff. rewrite sent_app. f_equal. by apply A7.
  - apply standing_closed; [by apply (ended_prepend c c1)|rewrite sent_app; by apply prefix_app|].
    intros [_ H]%andb_true_iff. rewrite sent_app. f_equal. by apply A3.
Qed.

Lemma waiting_kernel k c : waiting c -> waiting (set_kernel k c) /\ todo (set_kernel k c) = todo c.
Proof.
  intros (HS & H1 & H2). split; [|done]. split; [|done]. destruct HS as [S1 S2 S3 S4 S5 S6 S7]. by split.
Qed.

(** A generation differs from the next one. *)
Lemma bump_differs c : 0 <= generationId c < 2 ^ 16 -> generationId (bump_generation c) <> generationId c.
Proof.
  intros H. unfold bump_generation. cbn [generationId set_generationId]. destruct (Z.eqb_spec (generationId c + 1) (2 ^ 16)) as [E|E].
  - rewrite E. change (u16 (2 ^ 16)) with 0. rewrite Z.eqb_refl. lia.
  - rewrite wrap_small by lia. destruct (Z.eqb_spec (generationId c + 1) 0); lia.
Qed.

(** The socket is given up at once. *)
Lemma force_close c : exists c' l, Close true c = Ret c' /\ log c' = log c ++ l /\ sent l = [] /\ ended c c' l.
Proof.
  unfold Close, CloseCommon. cbn [negb andb]. change (sslConn (set_isShuttingDown true c)) with (sslConn c).
  assert (Hrel : forall c1, log c1 = log c -> generationId c1 = generationId c -> exists c' l, Ret (ReleaseClient (emit EpollDel c1)) = Ret c' /\ log c' = log c ++ l /\ sent l = [] /\ ended c c' l).
  { intros c1 L1 L2. destruct (release_ended c1) as (l' & R1 & R2 & R3 & _). eexists _, l'. split; [done|]. rewrite R1, L1. split; [done|]. split; [done|].
    apply (ended_prepend c c1 []); try done; constructor. }
  destruct (sslConn c); cbn [obind negb]; by apply Hrel.
Qed.

Lemma timeout_ok c : (exists l, HandleTimeout c = Ret c /\ l = @nil action) \/ exists c' l, HandleTimeout c = Ret c' /\ log c' = log c ++ l /\ sent l = [] /\ ended c c' l.
Proof. unfold HandleTimeout. destruct (_ || _); [right; apply force_close|left; by eexists]. Qed.

(** A closing connection: the shutdown goes on, or the slot is released. *)
Lemma shutdown_event gen e c c' l : ended c c' l -> generationId c' = gen -> eventType c' = EVENT_SHUTDOWN ->
  exists c'' l', happens gen e c' = Ret c'' /\ log c'' = log c' ++ l' /\ sent l' = [] /\ ended c c'' (l ++ l').
Proof.
  intros [l0 -> E1 E2 E3 E4 E5|E1 E2 E3 E4 E5 E6] Hg He; [by rewrite He in E3|].
  assert (Hrel : forall c1 c2 l2, log c1 = log c' -> generationId c1 = generationId c' -> log c2 = log c1 ++ l2 -> sent l2 = [] -> ended c1 c2 l2 ->
    exists c'' l', Ret c2 = Ret c'' /\ log c'' = log c' ++ l' /\ sent l' = [] /\ ended c c'' (l ++ l')).
  { intros c1 c2 l2 L1 L2 L3 L4 L5. exists c2, l2. split; [done|]. split; [by rewrite L3, L1|]. split; [done|]. apply (ended_prepend c c1); try done. congruence. }
  destruct e as [ev k|].
  - unfold happens, client_event. change (generationId (set_kernel k c')) with (generationId c'). rewrite Hg, Z.eqb_refl. cbn [negb].
    unfold HandleClientEvent. change (eventType (set_kernel k c')) with (eventType c').
    rewrite He. cbn [bool_decide decide decide_rel]. unfold ask. change (kernel (set_kernel k c')) with k.
    assert (Hrl : forall c1, log c1 = log c' -> generationId c1 = generationId c' ->
      exists c'' l', Ret (ReleaseClient (emit EpollDel c1)) = Ret c'' /\ log c'' = log c' ++ l' /\ sent l' = [] /\ ended c c'' (l ++ l')).
    { intros c1 L1 L2. destruct (release_ended c1) as (l' & R1 & R2 & R3 & _). by apply (Hrel c1 _ l'). }
    destruct k as [|[n| |again|] k]; rewrite bool_decide_false, bool_decide_true by done;
      [|by apply Hrl| |by apply Hrl|by apply Hrl]; (eexists _, []; split; [done|]; rewrite !app_nil_r; split; [done|]; split; [done|]; by apply ended_shutting).
  - unfold happens. rewrite Hg, Z.eqb_refl. cbn [negb]. destruct (timeout_ok c') as [(l1 & E & _)|(c2 & l2 & E & L1 & L2 & L3)]; rewrite E.
    + exists c', []. rewrite !app_nil_r. split; [done|]. split; [done|]. split; [done|]. by apply ended_shutting.
    + by apply (Hrel c' c2 l2).
Qed.

Lemma ended_idle c c' l : ended c c' l -> ~ waiting c'.
Proof. intros He (_ & _ & [?|[? _]]); destruct He; congruence. Qed.

(** Whatever happens to a slot given to another connection leaves it alone. *)
Lemma stale_event gen e c' : generationId c' <> gen -> exists k, happens gen e c' = Ret (set_kernel k c').
Proof.
  intros Hg. destruct e as [ev k|]; unfold happens, client_event.
  - exists k. change (generationId (set_kernel k c')) with (generationId c'). by rewrite (proj2 (Z.eqb_neq _ _) Hg).
  - exists (kernel c'). rewrite (proj2 (Z.eqb_neq _ _) Hg). by destruct c'.
Qed.

(** Something happens to a client that waits for the socket. *)
Lemma waiting_event (HW : well_behaved) e c : waiting c ->
  exists c' l, happens (generationId c) e c = Ret c' /\ log c' = log c ++ l /\ standing (todo c) (fine e) c c' l /\ (moves e = true -> sent l <> [] \/ ~ waiting c').
Proof.
  intros Hw. assert (Hclose : forall k x, fine e = false -> moves e = false -> (exists c' l, x = Ret c' /\ log c' = log (set_kernel k c) ++ l /\ sent l = [] /\ ended (set_kernel k c) c' l) ->
    exists c' l, x = Ret c' /\ log c' = log c ++ l /\ standing (todo c) (fine e) c c' l /\ (moves e = true -> sent l <> [] \/ ~ waiting c')).
  { intros k x Hf Hm (c' & l & E & L & Hs & He). exists c', l. split; [done|]. split; [done|]. split; [|by rewrite Hm]. apply standing_closed; [by apply (ended_prepend c (set_kernel k c) [] c' l); [constructor|..]| |by rewrite Hf].
    rewrite Hs. apply prefix_nil. }
  assert (Hsame : forall k, moves e = false -> exists c' l, Ret (set_kernel k c) = Ret c' /\ log c' = log c ++ l /\ standing (todo c) (fine e) c c' l /\ (moves e = true -> sent l <> [] \/ ~ waiting c')).
  { intros k Hm. exists (set_kernel k c), []. rewrite app_nil_r. split; [done|]. split; [done|]. split; [|by rewrite Hm]. destruct (waiting_kernel k c Hw). apply standing_waits; [constructor|done..]. }
  destruct e as [ev k|]; unfold happens.
  - unfold client_event. change (generationId (set_kernel k c)) with (generationId c). rewrite Z.eqb_refl. cbn [negb].
    unfold HandleClientEvent. change (eventType (set_kernel k c)) with (eventType c).
    assert (He : eventType c = EVENT_SEND \/ eventType c = EVENT_SEND_FILE) by (destruct Hw as (_ & _ & [He|[He _]]); auto).
    rewrite !bool_decide_false by (destruct He; congruence). destruct (waiting_kernel k c Hw) as [W1 W2]. destruct (EPOLLERR_HUP ev) eqn:Eh.
    + apply (Hclose k); [unfold fine; by rewrite Eh|unfold moves; by rewrite Eh|]. apply Close_ok. exact (sending_awake _ (proj1 W1)).
    + assert (Hin : (if EPOLLIN ev then HandleClientEpollIn ev (set_kernel k c) else Ret (set_kernel k c)) = Ret (set_kernel k c)).
      { unfold HandleClientEpollIn. change (eventType (set_kernel k c)) with (eventType c). destruct (EPOLLIN ev); [|done]. by destruct He as [-> | ->]. }
      rewrite Hin. cbn [obind]. change (generationId (set_kernel k c)) with (generationId c). rewrite Z.eqb_refl. destruct (EPOLLOUT ev) eqn:Eo; cbn [andb].
      * destruct (write_ready_ok HW _ W1) as (c' & E & F). rewrite W2 in F. destruct (standing_fate _ _ _ F) as (l & L & St & Hp). exists c', l. split; [done|]. split; [done|].
        unfold fine, moves. rewrite Eh, Eo. split; [|exact Hp]. by apply (standing_then _ (todo c) true _ c (set_kernel k c) c' [] l); [constructor|..].
      * apply Hsame. unfold moves. by rewrite Eo, andb_false_r.
  - rewrite Z.eqb_refl. cbn [negb]. assert (Hk : set_kernel (kernel c) c = c) by by destruct c. destruct (timeout_ok c) as [(l1 & E & _)|H].
    + rewrite E. pose proof (Hsame (kernel c) eq_refl) as P. by rewrite Hk in P.
    + apply (Hclose (kernel c)); [done|done|]. by rewrite Hk.
Qed.

(** One more event, the response not over. *)
Lemma standing_event (HW : well_behaved) T ok c c' l e : 0 <= generationId c < 2 ^ 16 -> standing T ok c c' l ->
  (generationId c' =? generationId c) && bool_decide (eventType c' = EVENT_RECV) = false ->
  exists c'' l', happens (generationId c) e c' = Ret c'' /\ log c'' = log c' ++ l' /\ standing T (ok && fine e) c c'' (l ++ l') /\
      (waiting c'' -> moves e = true -> waiting c' /\ sent l' <> []).
Proof.
  intros Hgen [S1 S2 S3 S4 S5|S1 S2 S3 S4 S5 S6 S7|S1 S2 S3] Hgo.
  - destruct (waiting_event HW e c' S4) as (c'' & l' & E & L & St & Hp). rewrite S3 in E. exists c'', l'. split; [done|]. split; [done|].
    split; [by apply (standing_then T (todo c') ok _ c c')|]. intros Hw Ht. split; [done|by destruct (Hp Ht)].
  - rewrite S3, Z.eqb_refl, bool_decide_true in Hgo by done. discriminate Hgo.
  - assert (Hok : (ok && fine e) = true -> sent l = T) by (intros [H _]%andb_true_iff; auto). destruct (decide (generationId c' = generationId c)) as [Hg|Hg].
    + assert (He : eventType c' = EVENT_SHUTDOWN). { destruct S1; [|done]. exfalso. apply (bump_differs c Hgen). congruence. }
      destruct (shutdown_event (generationId c) e c c' l S1 Hg He) as (c'' & l' & E & L1 & L2 & L3). exists c'', l'. split; [done|]. split; [done|].
      split; [apply standing_closed; [done|..]; by rewrite sent_app, L2, app_nil_r|]. by intros []%(ended_idle _ _ _ L3).
    + destruct (stale_event (generationId c) e c' Hg) as [k E]. exists (set_kernel k c'), []. rewrite !app_nil_r.
      assert (He : ended c (set_kernel k c') l) by (by destruct S1; [eapply ended_freed|eapply ended_shutting]).
      split; [done|]. split; [done|]. split; [by apply standing_closed|]. by intros []%(ended_idle _ _ _ He).
Qed.

Lemma standing_short T ok c c' l : standing T ok c c' l -> waiting c' -> (length (sent l) < length T)%nat.
Proof.
  intros [_ _ _ _ <-|_ _ _ _ He _ _|He _ _] Hw; [|exfalso..].
  - rewrite length_app. destruct Hw as (_ & Hne & _). destruct (todo c'); [done|cbn; lia].
  - destruct Hw as (_ & _ & [?|[? _]]); congruence.
  - by apply (ended_idle _ _ _ He).
Qed.

Lemma standing_less T ok ok' c c' l : (ok' = true -> ok = true) -> standing T ok c c' l -> standing T ok' c c' l.
Proof. intros Ho [S1 S2 S3 S4 S5|S1 S2 S3 S4 S5 S6 S7|S1 S2 S3]; [by apply standing_waits|apply standing_done; auto|apply standing_closed; auto]. Qed.

(** A client that waits after events that each moved bytes has moved as many. *)
Lemma standing_events (HW : well_behaved) T c es : 0 <= generationId c < 2 ^ 16 -> forall ok c' l, standing T ok c c' l ->
  exists c'' l', events (generationId c) es c' = Ret c'' /\ log c'' = log c' ++ l' /\ standing T (ok && forallb fine es) c c'' (l ++ l') /\
    (waiting c'' -> forallb moves es = true -> waiting c' /\ (length es <= length (sent l'))%nat).
Proof.
  intros Hgen. induction es as [|e es IH]; intros ok c' l HS; cbn [events forallb].
  - exists c', []. rewrite !app_nil_r, andb_true_r. by split_and!.
  - destruct ((generationId c' =? generationId c) && bool_decide (eventType c' = EVENT_RECV)) eqn:Ego.
    + exists c', []. rewrite !app_nil_r. split; [done|]. split; [done|]. split; [eapply standing_less; [|exact HS]; by intros [? _]%andb_true_iff|].
      apply andb_true_iff in Ego as [_ Ego%bool_decide_eq_true]. intros (_ & _ & [He|[He _]]); congruence.
    + destruct (standing_event HW T ok c c' l e Hgen HS Ego) as (c1 & l1 & E1 & L1 & S1 & P1). rewrite E1. cbn [obind].
      destruct (IH _ _ _ S1) as (c2 & l2 & E2 & L2 & S2 & P2). exists c2, (l1 ++ l2). split; [done|]. split; [by rewrite L2, L1, app_assoc|].
      split; [by rewrite app_assoc, andb_assoc|]. intros Hw [Hk Hks]%andb_true_iff. destruct (P2 Hw Hks) as [Hw1 Hn]. destruct (P1 Hw1 Hk) as [Hw0 Hne].
      split; [done|]. rewrite sent_app, length_app. cbn [length]. destruct (sent l1); [done|cbn; lia].
Qed.

Lemma respond_standing (HW : well_behaved) c es : sending c -> 0 <= generationId c < 2 ^ 16 ->
  exists c' l, respond es c = Ret c' /\ log c' = log c ++ l /\ standing (todo c) (smooth (kernel c) && forallb fine es) c c' l /\
    (waiting c' -> forallb moves es = true -> (length es <= length (sent l))%nat).
Proof.
  intros HS Hgen. unfold respond. destruct (Write_sends HW c HS) as (c1 & E & F). rewrite E. cbn [obind].
  destruct (standing_fate _ _ _ F) as (l1 & L1 & S1 & _). destruct (standing_events HW _ c es Hgen _ c1 l1 S1) as (c2 & l2 & E2 & L2 & S2 & P).
  exists c2, (l1 ++ l2). split; [done|]. split; [by rewrite L2, L1, app_assoc|]. split; [done|]. intros Hw Ht. destruct (P Hw Ht) as [_ Hn].
  rewrite sent_app, length_app. lia.
Qed.

(** C1: A response is delivered.  Its text is what is pending in the write buffer, then
    what its generator makes chunk by chunk (framed with sizes when chunked, and ended by
    the last chunk) or the rest of its file.  From when the engine hands it over until the client
    reads again, whatever readiness the kernel reports (readable, writable, half closed, an error),
    whatever the calls return, and if the timer fires, the peer has received a prefix of that
    text, in order and nothing twice; when nothing has failed, the client either waits for
    the socket with exactly the rest still to send, or has sent all of it.  When each
    event moves bytes, as many events as the text has bytes are enough.  The generator is
    [well_behaved]: it may stop with its last bytes, but once stopped makes no more if called
    again (the code may call it again, see [called_after_stop]); the write buffer has more than
    12 bytes and less than 2 ^ 28, a file is not empty and has the size the cache recorded; a
    response in flushed rounds is outside. *)
Theorem response_delivered (HW : well_behaved) c es : sending c -> 0 <= generationId c < 2 ^ 16 ->
  exists c' l, respond es c = Ret c' /\ log c' = log c ++ l /\ sent l `prefix_of` todo c /\
    (smooth (kernel c) && forallb fine es = true -> waiting c' /\ sent l ++ todo c' = todo c \/ ~ waiting c' /\ sent l = todo c) /\
    (forallb moves es = true -> (length (todo c) <= length es)%nat -> ~ waiting c').
Proof.
  intros HS Hgen. destruct (respond_standing HW c es HS Hgen) as (c' & l & E & L & St & Ht). exists c', l. split; [done|]. split; [done|].
  split; [by eapply standing_sent|]. split.
  - intros Hok. destruct St as [_ _ _ ? ?|_ _ _ _ He _ Hs|He _ Hs]; [by left|right; split; [|auto]..].
    + intros (_ & _ & [?|[? _]]); congruence.
    + by apply (ended_idle _ _ _ He).
  - intros Hk Hn Hw. specialize (Ht Hw Hk). pose proof (standing_short _ _ _ _ _ St Hw). lia.
Qed.

(** C10: A slot is given back once.  While a response goes out (from when the engine hands
    it over until the client reads again, whatever the kernel reports and the calls
    return, and if the timer fires), no handler makes an
    illegal change of state, which would end the worker; and either the slot is still
    the connection's, its close callback not called and its generation the same, or freeing
    it was the last thing done, the callback was called once before, and the generation
    has moved on: every event still queued for the connection leaves the slot alone.  The
    response is one of those [response_delivered] speaks of; a response handed over while its client is already shutting down is outside, and does make
    an illegal change (see [shutdown_then_done]). *)
Theorem slot_released_once (HW : well_behaved) c es : sending c -> 0 <= generationId c < 2 ^ 16 ->
  exists c' l, respond es c = Ret c' /\ log c' = log c ++ l /\
    (quiet l /\ closes l = 0%nat /\ generationId c' = generationId c \/
     (exists l0, l = l0 ++ [SlotFreed] /\ quiet l0 /\ closes l0 = 1%nat /\ forall ev k, client_event ev (generationId c) (set_kernel k c') = Ret (set_kernel k c'))).
Proof.
  intros HS Hgen. destruct (respond_standing HW c es HS Hgen) as (c' & l & E & L & St & _). exists c', l. split; [done|]. split; [done|].
  destruct St as [A1 A2 A3 _ _|A1 A2 A3 _ _ _ _|[l0 -> E1 E2 E3 E4 E5|E1 E2 E3 E4 E5 E6] _ _]; [by left|by left| |by left].
  right. exists l0. split_and!; try done. intros ev k. unfold client_event. change (generationId (set_kernel k c')) with (generationId c').
  rewrite E4. by rewrite (proj2 (Z.eqb_neq _ _) (bump_differs c Hgen)).
Qed.

(** ** Reading *)

Section reading.
Context (AOK : AllocatorOk).
Hypothesis (increment : 0 <= readBufferIncSize).
Hypothesis (maximum : 0 <= maxReadBufferSize < 2 ^ 32 - 64).

Lemma grown_block b b' : wf b -> b_bufferSize b <= maxReadBufferSize ->
  GenericGrowBuffer sizeof_ReadMetadata readBufferIncSize maxReadBufferSize 0 b = Some b' ->
  wf b' /\ live b' = live b /\ b_dataLength b' = b_dataLength b /\ b_dataLength b' < b_bufferSize b' <= maxReadBufferSize.
Proof.
  intros Hwf Hm E. apply GenericGrowBuffer_ok in E as (G1 & G2 & G3 & G4 & G5 & G6); try done; try (unfold sizeof_ReadMetadata; lia).
  destruct Hwf as (W1 & W2 & W3). split_and!; try done; lia.
Qed.

(** One read into the free space of a block. *)
Lemma stored_block b (n : nat) data rw : wf b -> length data = n -> Z.of_nat n <= b_bufferSize b - b_dataLength b ->
  exists b', readBuffer_ (AdvanceReadLength (Z.of_nat n) (RW (Some (store (Z.to_nat (b_dataLength b)) data b)) rw)) = Some b' /\
    wf b' /\ live b' = live b ++ data /\ b_bufferSize b' = b_bufferSize b /\ b_dataLength b' = b_dataLength b + Z.of_nat n.
Proof.
  intros (W1 & W2 & W3) Hd Hn. unfold AdvanceReadLength. cbn [readBuffer_ b_base b_bufferSize b_dataLength b_writtenLength b_mem store].
  rewrite wrap_small by lia. rewrite Z.min_l by lia. eexists. split; [done|]. unfold wf, live. cbn [b_bufferSize b_dataLength b_writtenLength b_mem].
  rewrite length_memcpy_at by lia. split_and!; try done; try lia.
  replace (Z.to_nat (b_dataLength b + Z.of_nat n)) with (Z.to_nat (b_dataLength b) + length data)%nat by lia. rewrite take_memcpy_at by lia. done.
Qed.

(** Everything but the read buffer, the inbox, the kernel and the counters. *)
Definition reading_core (c : ClientCtx) :=
  (generationId c, connectionState c, fl c, sslConn c, socket c, asyncData c, endpointCtx c, responseInfo c, (fileInfo c, streamGenerator c, writeBuffer_ (rwBuffer c), log c)).

Definition received (c : ClientCtx) : bytes := match readBuffer_ (rwBuffer c) with Some b => live b | None => [] end.

(** A read buffer within its bound. *)
Definition read_ok (c : ClientCtx) : Prop := forall b, readBuffer_ (rwBuffer c) = Some b -> wf b /\ b_bufferSize b <= maxReadBufferSize.

(** How reading ends: nothing lost or reordered, or the client closed. *)
Inductive reads (g0 : bool) (c : ClientCtx) (got : bool) (c' : ClientCtx) : Prop :=
| reads_on : awake c' -> eventType c' = EVENT_RECV -> reading_core c' = reading_core c -> read_ok c' ->
    received c' ++ inbox c' = received c ++ inbox c -> (length (received c) <= length (received c'))%nat ->
    got = (g0 || (length (received c) <? length (received c'))%nat) -> reads g0 c got c'
| reads_closed l : got = false -> log c' = log c ++ l -> sent l = [] -> ended c c' l -> reads g0 c got c'.

Lemma reading_core_fields c c' : reading_core c' = reading_core c -> generationId c' = generationId c /\ fl c' = fl c /\ log c' = log c.
Proof. unfold reading_core. intros [=]. by split_and!. Qed.

Lemma close_reads c c1 : awake c -> reading_core c1 = reading_core c -> eventType c1 = eventType c ->
  exists c', (let* c := Close false c1 in Ret (false, c)) = Ret (false, c') /\ forall g0, reads g0 c false c'.
Proof.
  intros Ha Hc He. destruct (reading_core_fields _ _ Hc) as (H1 & H2 & H3).
  destruct (Close_ok c1) as (c' & l & E & L1 & L2 & L3); [destruct Ha; split; [by rewrite He|by rewrite H2]|].
  rewrite E. exists c'. split; [done|]. intros g0. apply (reads_closed _ _ _ _ l); try done; [by rewrite L1, H3|].
  by apply (ended_prepend c c1 []); [constructor|..].
Qed.

Lemma ensure_room_ok c b : readBuffer_ (rwBuffer c) = Some b -> wf b -> b_bufferSize b <= maxReadBufferSize ->
  exists ok c1, ensure_room c = (ok, c1) /\ reading_core c1 = reading_core c /\ eventType c1 = eventType c /\ inbox c1 = inbox c /\ kernel c1 = kernel c /\
    (ok = true -> exists b1, readBuffer_ (rwBuffer c1) = Some b1 /\ wf b1 /\ live b1 = live b /\ b_dataLength b1 < b_bufferSize b1 <= maxReadBufferSize).
Proof.
  intros Hb Hwf Hm. unfold ensure_room, room, GetWritableReadRegion, GrowReadBuffer, on_read. rewrite Hb. pose proof Hwf as (W1 & W2 & W3). rewrite wrap_small by lia.
  destruct (Z.eqb_spec (b_bufferSize b - b_dataLength b) 0) as [H0|H0].
  - destruct (GenericGrowBuffer _ _ _ _ _) as [b'|] eqn:E; [|eexists _, _; by split_and!].
    destruct (grown_block b b' Hwf Hm E) as (G1 & G2 & G3 & G4). eexists _, _. split; [done|]. split_and!; try done. intros _. by exists b'.
  - eexists _, _. split; [done|]. split_and!; try done. intros _. exists b. split_and!; try done. lia.
Qed.

Lemma read_took c b n : readBuffer_ (rwBuffer c) = Some b -> wf b -> b_dataLength b < b_bufferSize b <= maxReadBufferSize -> inbox c <> [] ->
  let avail := take (Z.to_nat (b_bufferSize b - b_dataLength b)) (inbox c) in
  let m := moved n avail in
  let c1 := on_read_block (fun b => store (Z.to_nat (b_dataLength b)) (take m avail) b) (set_inbox (drop m (inbox c)) c) in
  let c2 := set_rwBuffer (AdvanceReadLength (Z.of_nat m) (rwBuffer c1)) c1 in
  avail <> [] /\ exists b2, readBuffer_ (rwBuffer c2) = Some b2 /\ wf b2 /\ b_bufferSize b2 <= maxReadBufferSize /\ live b2 = live b ++ take m avail /\
    (0 < m)%nat /\ (length (inbox c2) < length (inbox c))%nat /\ live b2 ++ inbox c2 = live b ++ inbox c.
Proof.
  intros Hb Hwf Hm Hi avail m c1 c2. assert (Hne : avail <> []).
  { unfold avail. intros E. apply (f_equal length) in E. rewrite length_take in E. destruct (inbox c); [done|cbn in E; lia]. }
  split; [done|]. pose proof (moved_pos n avail Hne) as Hmv. fold m in Hmv.
  assert (Ha : (length avail <= Z.to_nat (b_bufferSize b - b_dataLength b))%nat /\ (length avail <= length (inbox c))%nat) by (unfold avail; rewrite length_take; lia).
  destruct (stored_block b m (take m avail) (writeBuffer_ (rwBuffer c)) Hwf) as (b2 & B1 & B2 & B3 & B4 & B5); [rewrite length_take; lia|lia|].
  exists b2. split; [unfold c2, c1, on_read_block; cbn; rewrite Hb; exact B1|]. split_and!; try done; [lia|lia| |].
  - change (inbox c2) with (drop m (inbox c)). rewrite length_drop. lia.
  - change (inbox c2) with (drop m (inbox c)). rewrite B3, <- app_assoc. f_equal. unfold avail. rewrite take_take, Nat.min_l by lia. apply take_drop.
Qed.

Lemma receive_loop_ok f : forall g0 c b, awake c -> readBuffer_ (rwBuffer c) = Some b -> wf b -> b_bufferSize b <= maxReadBufferSize -> (length (inbox c) < f)%nat ->
  exists got c', receive_loop f g0 c = Ret (got, c') /\ reads g0 c got c'.
Proof.
  induction f as [|f IH]; intros g0 c b Ha Hb Hwf Hm Hf; [lia|]. cbn [receive_loop].
  destruct (ensure_room_ok c b Hb Hwf Hm) as (ok & c1 & E & R1 & R2 & R3 & R4 & R5). rewrite E.
  destruct ok; [|destruct (close_reads c c1 Ha R1 R2) as (c' & E' & F); by exists false, c'].
  destruct (R5 eq_refl) as (b1 & B1 & B2 & B3 & B4). assert (Hr : received c1 = received c) by (unfold received; by rewrite B1, Hb, B3).
  assert (Hstop : forall c2, rwBuffer c2 = rwBuffer c1 -> inbox c2 = inbox c1 -> reading_core c2 = reading_core c1 -> eventType c2 = eventType c1 ->
    exists got c', (let* c := EnterState EVENT_RECV c2 in Ret (g0, c)) = Ret (got, c') /\ reads g0 c got c').
  { intros c2 H1 H2 H3 H4. unfold EnterState. rewrite H4, R2, (legal_recv c Ha). cbn. eexists _, _. split; [done|].
    assert (Hf2 : fl c2 = fl c) by (destruct (reading_core_fields c c2) as (_ & ? & _); [congruence|done]).
    assert (Hr2 : received (set_eventType EVENT_RECV c2) = received c) by (rewrite <- Hr; unfold received; cbn; by rewrite H1).
    apply reads_on; rewrite ?Hr2; try done; [split; [by left|cbn; rewrite Hf2; apply Ha]|unfold reading_core in *; cbn; congruence| |cbn; by rewrite H2, R3|by rewrite Nat.ltb_irrefl, orb_false_r].
    intros b2. cbn. rewrite H1, B1. intros [= <-]. split; [done|lia]. }
  assert (Hfail : forall k, exists got c', (let* c := Close false (set_kernel k c1) in Ret (false, c)) = Ret (got, c') /\ reads g0 c got c').
  { intros k. destruct (close_reads c (set_kernel k c1) Ha) as (c' & E' & F); [exact R1|exact R2|]. by exists false, c'. }
  assert (Hroom : room c1 = b_bufferSize b1 - b_dataLength b1).
  { unfold room, GetWritableReadRegion. rewrite B1. apply wrap_small. destruct B2 as (? & ? & ?). lia. }
  unfold WrapRead, ask. rewrite Hroom. destruct (kernel c1) as [|[n| |again|] k]; [by apply Hstop| |by apply Hstop|by apply Hfail..].
  change (inbox (set_kernel k c1)) with (inbox c1). destruct (decide (inbox c1 = [])) as [Ei|Ei]; [rewrite Ei, take_nil; by apply Hstop|].
  destruct (read_took c1 b1 n B1 B2 ltac:(lia) Ei) as (Hne & b2 & T1 & T2 & T3 & T4 & T5 & T6 & T7). set (avail := take _ (inbox c1)) in *.
  assert (Hmt : forall (A : Type) (x y : A), (match avail with [] => x | _ => y end) = y) by (intros; by destruct avail). rewrite Hmt, Nat2Z.id.
  match goal with |- context [receive_loop f true ?x] => set (c2 := x) end.
  destruct (IH true c2 b2) as (got & c' & E2 & F2); [unfold awake in *; change (eventType c2) with (eventType c1); rewrite R2; destruct (reading_core_fields _ _ R1) as (_ & Hfl & _); change (fl c2) with (fl c1); by rewrite Hfl
    |exact T1|done|done|change (inbox c2) with (drop (moved n avail) (inbox c1)); cbn in T6; rewrite R3 in T6 at 2; lia|].
  exists got, c'. split; [exact E2|]. assert (Hc2 : reading_core c2 = reading_core c) by (rewrite <- R1; unfold reading_core, c2, AdvanceReadLength; cbn; by rewrite B1).
  assert (T1' : readBuffer_ (rwBuffer c2) = Some b2) by exact T1. assert (Hr2 : received c2 = live b2) by (unfold received; by rewrite T1'). assert (Hr1 : received c = live b1) by (unfold received; by rewrite Hb, B3).
  destruct F2 as [A1 A2 A3 A4 A5 A6 A7|l A1 A2 A3 A4].
  - apply reads_on; try done; [congruence|rewrite A5, Hr2, Hr1; rewrite <- R3; exact T7|rewrite Hr2, T4, length_app in A6; rewrite Hr1; lia|].
    rewrite A7. cbn [orb]. rewrite Hr2, T4, length_app, length_take in A6. rewrite Hr1. symmetry. apply orb_true_iff. right. apply Nat.ltb_lt.
    pose proof (moved_pos n avail Hne). lia.
  - apply (reads_closed _ _ _ _ l); try done; destruct (reading_core_fields _ _ Hc2) as (H1 & H2 & H3); [by rewrite A2, H3|by apply (ended_prepend c c2 []); [constructor|..]].
Qed.

(** C28: Reading loses nothing.  However the socket hands out the bytes the kernel
    holds, [Receive] leaves the client open with the read buffer extended by what was taken, in
    order, the rest still in the kernel, the buffer within its configured maximum
    and the result telling whether anything came; or the client is closed. *)
Theorem Receive_keeps_order c : readBufferIncSize <= maxReadBufferSize -> awake c -> read_ok c ->
  exists got c', Receive c = Ret (got, c') /\ reads false c got c'.
Proof.
  intros Hinc Ha Hr. unfold Receive, EnsureReadReady. destruct (readBuffer_ (rwBuffer c)) as [b|] eqn:Eb.
  - cbn [obind]. destruct (Hr b Eb) as [Hwf Hm]. apply (receive_loop_ok _ false c b); try done. lia.
  - destruct (InitReadBuffer readBufferIncSize (rwBuffer c)) as [ok rw] eqn:E. unfold InitReadBuffer in E. rewrite Eb in E.
    destruct (alloc_block _ _ _) as [b|] eqn:Ea; injection E as <- <-; cbn [obind].
    + set (c1 := set_rwBuffer _ c).
      assert (Hbs : b_bufferSize b = readBufferIncSize) by (unfold alloc_block in Ea; destruct (Alloc _) as [[addr m]|]; [by injection Ea as <-|done]).
      apply alloc_block_ok in Ea as (A1 & A2 & A3); [|unfold sizeof_ReadMetadata; lia|lia].
      destruct (receive_loop_ok (S (length (inbox c1))) false c1 b) as (got & c' & E1 & F); try done; [by rewrite Hbs|lia|].
      exists got, c'. split; [done|]. assert (Hc : reading_core c1 = reading_core c) by (unfold reading_core; cbn; done).
      assert (R1 : received c1 = []) by exact A2. assert (R0 : received c = []) by (unfold received; by rewrite Eb).
      destruct F as [F1 F2 F3 F4 F5 F6 F7|l F1 F2 F3 F4].
      * rewrite R1 in F5, F6, F7. apply reads_on; rewrite ?R0; try done.
      * apply (reads_closed _ _ _ _ l); try done. by apply (ended_prepend c c1 []); [constructor|..].
    + destruct (close_reads c (set_rwBuffer (rwBuffer c) c) Ha) as (c' & E' & F); [by destruct c|done|]. exists false, c'. split; [by rewrite E'|apply F].
Qed.


End reading.


End client.

(** ** A concrete client *)

(** A generator over the bytes it still has to make. *)
Definition w_next (g : bytes) (cap : Z) : bytes * StreamAction * bytes :=
  match g with [] => ([], STOP_AND_ALIVE_CONN, []) | _ => (take (Z.to_nat cap) g, CONTINUE, drop (Z.to_nat cap) g) end.

Lemma w_well_behaved : well_behaved w_next length.
Proof.
  intros g cap data a g' Hc. unfold w_next. destruct g as [|x g]; intros [= <- <- <-]; [cbn; split; [lia|by left]|].
  rewrite length_take, length_drop. split; [lia|]. cbn [length]. split; [|lia]. destruct (Z.to_nat cap) eqn:E; [lia|done].
Qed.

Definition w_block : block := Block 4096 20 4 1 ([80; 72; 73; 10] ++ replicate 16 0).

(** Three bytes of a head are pending; a chunked stream of nine bytes follows. *)
Definition w_client : ClientCtx :=
  Client EVENT_RECV 7 CONNECTION_ALIVE (Flags true false false false true false false false) false true false false None
    (RW None (Some w_block)) no_file (Some (User [1; 2; 3; 4; 5; 6; 7; 8; 9] true)) [65; 66; 67] [Took 2; WouldBlock] [] [].

Definition w_idle (c : ClientCtx (G := bytes)) : outcome (ClientCtx (G := bytes)) := Ret c.

Definition w_respond := respond w_next 30 16 64 16 64 true 12 w_idle w_idle.

Definition readable : ready := Ready true true true false.
Definition writable : ready := Ready false true false false.
Definition broken : ready := Ready true true false true.

Definition w_events : list happening :=
  [Epoll writable [Took 1; WouldBlock]; Epoll readable [Took 100; Took 5; WouldBlock]; Epoll writable [Took 100]; Epoll writable [Took 100; Took 100]].
Definition w_failing : list happening := [Epoll writable [Took 1; WouldBlock]; Epoll broken []; Epoll writable [Took 4]; Timeout].

Lemma w_sending : sending 12 length w_client.
Proof.
  split.
  - split; [by left|done].
  - by eexists.
  - unfold wf. cbn. lia.
  - cbn. lia.
  - done.
  - intros _. split; [done|]. cbn. lia.
  - done.
Qed.

(** Each event moves bytes: the head, two framed chunks and the last chunk arrive. *)
Lemma response_delivered_witness :
  exists c' l, w_respond w_events w_client = Ret c' /\ log c' = log w_client ++ l /\
    sent l `prefix_of` todo w_next length w_client /\
    (smooth (kernel w_client) && forallb fine w_events = true ->
       waiting w_next 12 length c' /\ sent l ++ todo w_next length c' = todo w_next length w_client \/
       ~ waiting w_next 12 length c' /\ sent l = todo w_next length w_client) /\
    (forallb moves w_events = true ->
       (length (todo w_next length w_client) <= length w_events)%nat -> ~ waiting w_next 12 length c').
Proof.
  unfold w_respond. apply (response_delivered w_next 30 16 64 16 64 true 12 w_idle w_idle length w_well_behaved w_client w_events w_sending).
  cbn. lia.
Defined.

Example w_delivers : (fun c => (sent (log c), eventType c, streamGenerator c)) <$>
    match w_respond w_events w_client with Ret c => Some c | _ => None end =
  Some ([72; 73; 10] ++ [56; 13; 10; 1; 2; 3; 4; 5; 6; 7; 8; 13; 10] ++ [49; 13; 10; 9; 13; 10] ++ [48; 13; 10; 13; 10], EVENT_RECV, None).
Proof. vm_compute. reflexivity. Qed.

(** The peer goes away: the slot is released, and later events leave it alone. *)
Lemma slot_released_once_witness :
  exists c' l, w_respond w_failing w_client = Ret c' /\ log c' = log w_client ++ l /\
    (quiet l /\ closes l = 0%nat /\ generationId c' = generationId w_client \/
     (exists l0, l = l0 ++ [SlotFreed] /\ quiet l0 /\ closes l0 = 1%nat /\
        forall ev k, client_event w_next 30 16 64 16 64 true 12 w_idle w_idle ev (generationId w_client) (set_kernel k c') = Ret (set_kernel k c'))).
Proof.
  unfold w_respond. apply (slot_released_once w_next 30 16 64 16 64 true 12 w_idle w_idle length w_well_behaved w_client w_failing w_sending). cbn. lia.
Defined.

(** Two reads fill and grow the buffer. *)
Lemma Receive_keeps_order_witness :
  exists got c', Receive 2 64 (set_kernel [Took 9; Took 1; WouldBlock] w_client) = Ret (got, c') /\ reads 64 false (set_kernel [Took 9; Took 1; WouldBlock] w_client) got c'.
Proof.
  apply (Receive_keeps_order 2 64 zero_alloc_ok); [lia|lia|lia|split; [by left|done]|]. intros b. done.
Defined.

(** A generator that stops with its last bytes, and makes nothing more when called again. *)
Definition w_last (g : bytes) (cap : Z) : bytes * StreamAction * bytes :=
  (take (Z.to_nat cap) g, if Z.of_nat (length g) <=? cap then STOP_AND_ALIVE_CONN else CONTINUE, drop (Z.to_nat cap) g).

Lemma w_last_well_behaved : well_behaved w_last length.
Proof.
  intros g cap data a g' Hc. unfold w_last. intros [= <- <- <-]. rewrite length_take, length_drop. split; [lia|]. destruct (Z.leb_spec (Z.of_nat (length g)) cap).
  - right. rewrite drop_ge by lia. split; [|lia]. intros cap' Hc'. exists STOP_AND_ALIVE_CONN, []. rewrite take_nil, drop_nil. split; [|done]. destruct (Z.leb_spec (Z.of_nat (length (@nil Z))) cap'); [done|cbn in *; lia].
  - split; [|lia]. destruct g; [cbn in *; lia|]. destruct (Z.to_nat cap) eqn:E; [lia|done].
Qed.

(** Its last chunk meets a full socket: it is called again after that chunk, and the stream ends. *)
Example w_last_delivers :
  (fun c => sent (log c)) <$>
    match respond w_last 30 16 64 16 64 true 12 w_idle w_idle [Epoll writable [Took 1; WouldBlock]; Epoll writable [Took 100; Took 100]]
            (set_streamGenerator (Some (User [1; 2] true)) (set_kernel [Took 9; WouldBlock] w_client)) with Ret c => Some c | _ => None end =
  Some ([72; 73; 10] ++ [50; 13; 10; 1; 2; 13; 10] ++ [48; 13; 10; 13; 10]).
Proof. vm_compute. reflexivity. Qed.

(** ** Corner cases *)

(** A generator that ends with a byte of data each time it is called. *)
Definition w_ends (g : bytes) (cap : Z) : bytes * StreamAction * bytes := (take 1 g, STOP_AND_ALIVE_CONN, drop 1 g).

(** Its last chunk meets a full socket; once that chunk is out the generator is called
    again though it had stopped, and what it makes then is sent too. *)
Example called_after_stop :
  (fun c => sent (log c)) <$>
    match respond w_ends 30 16 64 16 64 true 12 w_idle w_idle [Epoll writable [Took 9; Took 9]]
            (set_streamChunked false (set_kernel [Took 9; WouldBlock] w_client)) with Ret c => Some c | _ => None end =
  Some [72; 73; 10; 1; 2].
Proof. vm_compute. reflexivity. Qed.

(** A file shorter than the size the cache remembers: the response counts as complete
    and the connection goes on. *)
Example short_file_stays_alive :
  (fun c => (sent (log c), eventType c, connectionState c)) <$>
    match respond w_next 30 16 64 16 64 true 12 w_idle w_idle []
            (set_fileInfo (File (Some [1; 2]) 4 0) (set_isFileOperation true (set_isStreamOperation false (set_kernel [Took 9; Took 9; Took 9] w_client)))) with
    Ret c => Some c | _ => None end =
  Some ([72; 73; 10; 1; 2], EVENT_RECV, CONNECTION_ALIVE).
Proof. vm_compute. reflexivity. Qed.

(** A coroutine that ends after its TLS client began to shut down, with nothing left to
    write, goes back to reading from there: the worker exits. *)
Example shutdown_then_done :
  Write w_next 30 16 16 64 true 12 []
    (set_isStreamOperation false (set_eventType EVENT_SHUTDOWN (set_rwBuffer (RW None (Some (Block 4096 20 4 4 (replicate 20 0)))) w_client))) =
  Fatal "[Epoll]: illegal EventType transition".
Proof. vm_compute. reflexivity. Qed.

End ClientIO.
