(* ===== verification/HttpClient.v ===== *)
(** * HttpClient: the outbound HTTP/1.1 codec of [include/wfx/endpoint/http.hpp]

    [Serialize] writes a request, [Parse] reads a response as its bytes arrive: the
    line reader with its carry-over, the status line, header lines, the three ways a
    body is framed.  A buffer is the list of the bytes from the cursor on; what a call
    leaves unread is part of its result. *)

From stdpp Require Import list.
From S2P Require Import Prelude Strings Constants RWBuffer Response ClientIO.
Import StringUtils.

Module HttpClient.

Abbreviation HttpMethod := Constants.HttpMethod.
#[local] Existing Instance Constants.HttpMethod_eq_dec.
#[local] Existing Instance Constants.HttpVersion_eq_dec.

(** ** Helpers: [helper.hpp] *)

Definition HasInjectionBytes (s : bytes) : bool := existsb (fun c => (c =? CR) || (c =? LF) || (c =? NUL)) s.

Definition ToLowerAscii (c : Z) : Z :=
  let isUpper := Z.b2z (u8 (c - 65) <? 26) in Z.lor c (u8 (Z.shiftl isUpper 5)).

Fixpoint same_lower (a b : bytes) : bool :=
  match a, b with
  | x :: a, y :: b => (ToLowerAscii x =? ToLowerAscii y) && same_lower a b
  | _, _ => true
  end.
Definition InsensitiveEqual (a b : bytes) : bool := if negb (length a =? length b)%nat then false else same_lower a b.

(** [BufWriter]: what is written so far, in a buffer of [cap] bytes. *)
Record BufWriter := Writer { cap_ : Z; written_ : bytes }.

Definition Append (s : bytes) (w : BufWriter) : option BufWriter :=
  if cap_ w - Z.of_nat (length (written_ w)) <? Z.of_nat (length s) then None else Some (Writer (cap_ w) (written_ w ++ s)).

Fixpoint append_all (l : list bytes) (w : BufWriter) : option BufWriter :=
  match l with
  | [] => Some w
  | s :: l => match Append s w with Some w => append_all l w | None => None end
  end.

Inductive LineReadStatus := NEED_MORE | GOT_LINE (line rest : bytes) | TOO_LONG.

Definition strip_cr (line : bytes) : bytes := match rev line with c :: r => if c =? CR then rev r else line | [] => line end.

(** The status and [lineAcc]. *)
Definition ReadLine (maxLineBytes : Z) (inp lineAcc : bytes) : LineReadStatus * bytes :=
  match find_char LF inp with
  | None =>
      if maxLineBytes <? Z.of_nat (length lineAcc + length inp) then (TOO_LONG, lineAcc) else (NEED_MORE, lineAcc ++ inp)
  | Some lineLen =>
      let part := take lineLen inp in
      let rest := drop (S lineLen) inp in
      match lineAcc with
      | _ :: _ =>
          if maxLineBytes <? Z.of_nat (length lineAcc + lineLen) then (TOO_LONG, lineAcc)
          else (GOT_LINE (strip_cr (lineAcc ++ part)) rest, lineAcc ++ part)
      | [] => if maxLineBytes <? Z.of_nat lineLen then (TOO_LONG, lineAcc) else (GOT_LINE (strip_cr part) rest, lineAcc)
      end
  end.

(** ** Header lists *)

Definition HttpHeaderList := list (bytes * bytes).

Definition Add (name value : bytes) (l : HttpHeaderList) : HttpHeaderList := l ++ [(name, value)].

Fixpoint replace_first (name value : bytes) (l : HttpHeaderList) : option HttpHeaderList :=
  match l with
  | [] => None
  | (n, v) :: l => if InsensitiveEqual n name then Some ((n, value) :: l) else cons (n, v) <$> replace_first name value l
  end.
Definition Set_ (name value : bytes) (l : HttpHeaderList) : HttpHeaderList :=
  match replace_first name value l with Some l => l | None => Add name value l end.

Fixpoint Get (name : bytes) (l : HttpHeaderList) : option bytes :=
  match l with
  | [] => None
  | (n, v) :: l => if InsensitiveEqual n name then Some v else Get name l
  end.
Definition Contains (name : bytes) (l : HttpHeaderList) : bool := match Get name l with Some _ => true | None => false end.

(** ** Data *)

Record HttpEndpointRequest := Request {
  method : HttpMethod;
  path : bytes;
  body : bytes;
  headers : HttpHeaderList
}.

Record HttpEndpointResponse := Resp {
  status : Z;
  res_body : bytes;
  res_headers : HttpHeaderList
}.
Definition new_response : HttpEndpointResponse := Resp 0 [] [].
Definition GetHeader (name : bytes) (r : HttpEndpointResponse) : option bytes := Get name (res_headers r).
Definition IsSuccess (r : HttpEndpointResponse) : bool := (200 <=? status r) && (status r <? 300).

Record HttpEndpointLimits := Limits { maxHeaderBytes : Z; maxBodyBytes : Z; maxHeaderCount : Z }.

(** What of [HttpEndpointConfig] the codec uses. *)
Inductive tls := TlsAuto | TlsRequire | TlsInsecure.
Record HttpEndpointOptions := Options { hostHeaderValue : bytes; limits : HttpEndpointLimits }.
Record SlotState := Slot { options : HttpEndpointOptions; lastMethod : HttpMethod }.

Inductive ParsePhase :=
| STATUS_LINE | HEADERS | BODY_CONTENT_LENGTH | BODY_CHUNK_SIZE | BODY_CHUNK_DATA | BODY_CHUNK_LINE_END | BODY_CHUNK_TRAILER | BODY_UNTIL_CLOSE.

#[export] Instance ParsePhase_eq_dec : EqDecision ParsePhase.
Proof. solve_decision. Defined.

Definition MAX_INFORMATIONAL_RESPONSES : Z := 8.

Record ParseState := PS {
  lineAcc : bytes;
  bodyRemaining : Z;
  headerBytes : Z;
  headerCount : Z;
  informationalCount : Z;
  phase : ParsePhase;
  chunked : bool;
  hasContentLength : bool;
  closeAfter : bool;
  httpMinor0 : bool
}.
Definition new_parse_state : ParseState := PS [] 0 0 0 0 STATUS_LINE false false false false.
Definition ResetParseStateFields (s : ParseState) : ParseState := PS [] 0 0 0 0 STATUS_LINE false false false false.

Definition set_lineAcc v s := PS v (bodyRemaining s) (headerBytes s) (headerCount s) (informationalCount s) (phase s) (chunked s) (hasContentLength s) (closeAfter s) (httpMinor0 s).
Definition set_bodyRemaining v s := PS (lineAcc s) v (headerBytes s) (headerCount s) (informationalCount s) (phase s) (chunked s) (hasContentLength s) (closeAfter s) (httpMinor0 s).
Definition set_headerBytes v s := PS (lineAcc s) (bodyRemaining s) v (headerCount s) (informationalCount s) (phase s) (chunked s) (hasContentLength s) (closeAfter s) (httpMinor0 s).
Definition set_headerCount v s := PS (lineAcc s) (bodyRemaining s) (headerBytes s) v (informationalCount s) (phase s) (chunked s) (hasContentLength s) (closeAfter s) (httpMinor0 s).
Definition set_informationalCount v s := PS (lineAcc s) (bodyRemaining s) (headerBytes s) (headerCount s) v (phase s) (chunked s) (hasContentLength s) (closeAfter s) (httpMinor0 s).
Definition set_phase v s := PS (lineAcc s) (bodyRemaining s) (headerBytes s) (headerCount s) (informationalCount s) v (chunked s) (hasContentLength s) (closeAfter s) (httpMinor0 s).
Definition set_chunked v s := PS (lineAcc s) (bodyRemaining s) (headerBytes s) (headerCount s) (informationalCount s) (phase s) v (hasContentLength s) (closeAfter s) (httpMinor0 s).
Definition set_hasContentLength v s := PS (lineAcc s) (bodyRemaining s) (headerBytes s) (headerCount s) (informationalCount s) (phase s) (chunked s) v (closeAfter s) (httpMinor0 s).
Definition set_closeAfter v s := PS (lineAcc s) (bodyRemaining s) (headerBytes s) (headerCount s) (informationalCount s) (phase s) (chunked s) (hasContentLength s) v (httpMinor0 s).
Definition set_httpMinor0 v s := PS (lineAcc s) (bodyRemaining s) (headerBytes s) (headerCount s) (informationalCount s) (phase s) (chunked s) (hasContentLength s) (closeAfter s) v.

(** ** Writing a request *)

Inductive SerializeResult := SER_OK (written : bytes) | SER_BUFFER_TOO_SMALL | SER_ERROR.

Definition crlf : bytes := [CR; LF].

(** The headers the codec writes itself. *)
Definition own_header (name : bytes) : bool :=
  InsensitiveEqual name (lit "host") || InsensitiveEqual name (lit "content-length") || InsensitiveEqual name (lit "transfer-encoding").

(** The loop over the request's headers: an error, or the writer ([None]: full). *)
Fixpoint header_loop (hs : HttpHeaderList) (w : BufWriter) : option (option BufWriter) :=
  match hs with
  | [] => Some (Some w)
  | (n, v) :: hs =>
      if HasInjectionBytes n || HasInjectionBytes v then None
      else if own_header n then header_loop hs w
      else match append_all [n; lit ": "; v; crlf] w with Some w => header_loop hs w | None => Some None end
  end.

Definition body_bearing (m : HttpMethod) : bool := match m with Constants.POST | Constants.PUT | Constants.PATCH => true | _ => false end.

Definition Serialize (req : HttpEndpointRequest) (bufLen : Z) (state : SlotState) : SerializeResult * SlotState :=
  if HasInjectionBytes (path req) then (SER_ERROR, state)
  else
    let state := Slot (options state) (method req) in
    let lenSv := if negb (bool_decide (body req = [])) || body_bearing (method req) then to_chars_uint (Z.of_nat (length (body req))) else [] in
    let w := append_all [Constants.HttpMethodToStringView (method req); [SPACE]; path req; lit " HTTP/1.1" ++ crlf ++ lit "Host: "; hostHeaderValue (options state); crlf] (Writer bufLen []) in
    let w := match w with Some w => match lenSv with [] => Some w | _ => append_all [lit "Content-Length: "; lenSv; crlf] w end | None => None end in
    match match w with Some w => header_loop (headers req) w | None => Some None end with
    | None => (SER_ERROR, state)
    | Some w =>
        match match w with Some w => append_all (crlf :: match body req with [] => [] | b => [b] end) w | None => None end with
        | Some w => (SER_OK (written_ w), state)
        | None => (SER_BUFFER_TOO_SMALL, state)
        end
    end.

(** ** Reading a response *)

(** [std::from_chars(first, last, value)] on all of the text. *)
Definition whole_uint (w : Z) (s : bytes) : option Z := match from_chars_uint w s with FcOk v [] => Some v | _ => None end.

Definition ParseStatusLine (line : bytes) (res : HttpEndpointResponse) (st : ParseState) : option (HttpEndpointResponse * ParseState) :=
  if (length line <? 12)%nat || negb (sv_eq (take 5 line) (lit "HTTP/")) || negb (at_ line 6 =? DOT) then None
  else
    let major := at_ line 5 in
    let minor := at_ line 7 in
    if negb (major =? 49) || (negb (minor =? 48) && negb (minor =? 49)) || negb (at_ line 8 =? SPACE) then None
    else
      match whole_uint 16 (take 3 (drop 9 line)) with
      | None => None
      | Some code => Some (Resp code (res_body res) (res_headers res), set_httpMinor0 (minor =? 48) st)
      end.

Definition is_blank (c : Z) : bool := (c =? SPACE) || (c =? TAB).

(** The tokens of a [Connection] value. *)
Definition wants_close (value : bytes) : bool := existsb (fun tok => InsensitiveEqual (trim_by is_blank tok) (lit "close")) (split_on COMMA value).

(** What a header says of the body and the connection. *)
Definition frame_header (lim : HttpEndpointLimits) (name value : bytes) (st : ParseState) : option ParseState :=
  if InsensitiveEqual name (lit "content-length") then
    if chunked st then None
    else
      match whole_uint 64 value with
      | None => None
      | Some val =>
          if maxBodyBytes lim <? val then None
          else if hasContentLength st && negb (bodyRemaining st =? val) then None
          else Some (set_bodyRemaining val (set_hasContentLength true st))
      end
  else if InsensitiveEqual name (lit "transfer-encoding") then
    if hasContentLength st then None else if negb (InsensitiveEqual value (lit "chunked")) then None else Some (set_chunked true st)
  else if InsensitiveEqual name (lit "connection") then Some (if wants_close value then set_closeAfter true st else st)
  else Some st.

(** One more header or trailer line. *)
Definition count_header (lim : HttpEndpointLimits) (st : ParseState) : option ParseState :=
  let st := set_headerCount (u16 (headerCount st + 1)) st in if maxHeaderCount lim <? headerCount st then None else Some st.

Definition split_header (line : bytes) : option (bytes * bytes) :=
  if is_blank (at_ line 0) then None
  else
    match find_char COLON line with
    | None => None
    | Some colon =>
        let name := take colon line in
        let value := trim_by is_blank (drop (S colon) line) in
        if bool_decide (name = []) || is_blank (at_ name (length name - 1)) then None else Some (name, value)
    end.

Definition ParseHeaderLine (lim : HttpEndpointLimits) (line : bytes) (res : HttpEndpointResponse) (st : ParseState) : option (HttpEndpointResponse * ParseState) :=
  match split_header line with
  | None => None
  | Some (name, value) =>
      match frame_header lim name value st with
      | None => None
      | Some st =>
          match count_header lim st with
          | None => None
          | Some st => Some (Resp (status res) (res_body res) (Add name value (res_headers res)), st)
          end
      end
  end.

(** A hexadecimal digit of either case. *)
Definition hex_val (c : Z) : option Z :=
  if (48 <=? c) && (c <=? 57) then Some (c - 48)
  else if (97 <=? c) && (c <=? 102) then Some (c - 87)
  else if (65 <=? c) && (c <=? 70) then Some (c - 55)
  else None.

(** [std::from_chars] in base 16 on all of the text. *)
Fixpoint hex_digits (s : bytes) (acc : Z) : option Z :=
  match s with
  | [] => Some acc
  | c :: s => match hex_val c with Some d => hex_digits s (acc * 16 + d) | None => None end
  end.
Definition whole_hex (w : Z) (s : bytes) : option Z :=
  match s with
  | [] => None
  | _ => match hex_digits s 0 with Some v => if v <? 2 ^ w then Some v else None | None => None end
  end.

Definition ParseChunkSizeLine (line : bytes) : option Z :=
  let hexPart := match find_char 59 line with Some semi => take semi line | None => line end in
  whole_hex 64 hexPart.

Inductive ParseResult := INCOMPLETE | CHUNK_READY | CHUNK_READY_FETCH | COMPLETE_KEEP_ALIVE | COMPLETE_CLOSE | PARSE_ERROR.

(** What one call returns: the result, the bytes it has not consumed, the parse state
    and the output.  With [PARSE_ERROR] the last two are those before the refused line: the
    slot is torn down, and nothing reads them again. *)
Record reply := Reply { result : ParseResult; unread : bytes; pstate : ParseState; output : HttpEndpointResponse }.

(** The end of a message. *)
Definition done_ (st : ParseState) : ParseResult := if closeAfter st || httpMinor0 st then COMPLETE_CLOSE else COMPLETE_KEEP_ALIVE.

(** A turn of the loop goes on or returns. *)
Inductive turn := Continue (inp : bytes) (st : ParseState) (res : HttpEndpointResponse) | Finish (r : reply).

(** The end of a header block. *)
Inductive head_end := HeadOver (st : ParseState) | HeadDone | HeadError.
Definition end_of_headers (last : HttpMethod) (lim : HttpEndpointLimits) (res : HttpEndpointResponse) (st : ParseState) : head_end :=
  let informational := (100 <=? status res) && (status res <? 200) in
  let noBody := bool_decide (last = Constants.HEAD) || (status res =? 204) || (status res =? 304) || informational in
  if informational then
    let st := set_informationalCount (u8 (informationalCount st + 1)) st in
    if MAX_INFORMATIONAL_RESPONSES <? informationalCount st then HeadError
    else HeadOver (set_phase STATUS_LINE (set_closeAfter false (set_hasContentLength false (set_chunked false st))))
  else if noBody then HeadDone
  else if chunked st then HeadOver (set_phase BODY_CHUNK_SIZE st)
  else if hasContentLength st then if bodyRemaining st =? 0 then HeadDone else HeadOver (set_phase BODY_CONTENT_LENGTH st)
  else HeadOver (set_phase BODY_UNTIL_CLOSE st).

(** A complete line in each of the phases made of lines. *)
Definition on_line (last : HttpMethod) (lim : HttpEndpointLimits) (line rest : bytes) (st : ParseState) (res : HttpEndpointResponse) : turn :=
  let fail st res := Finish (Reply PARSE_ERROR rest (set_lineAcc [] st) res) in
  let go st res := Continue rest (set_lineAcc [] st) res in
  match phase st with
  | STATUS_LINE =>
      match ParseStatusLine line res st with
      | None => fail st res
      | Some (res, st) => go (set_phase HEADERS (set_headerCount 0 st)) (Resp (status res) (res_body res) [])
      end
  | HEADERS =>
      match line with
      | [] =>
          match end_of_headers last lim res st with
          | HeadOver st => go st res
          | HeadDone => Finish (Reply (done_ st) rest st res)
          | HeadError => fail st res
          end
      | _ => match ParseHeaderLine lim line res st with None => fail st res | Some (res, st) => go st res end
      end
  | BODY_CHUNK_SIZE =>
      match ParseChunkSizeLine line with
      | None => fail st res
      | Some chunkSize =>
          if chunkSize =? 0 then go (set_phase BODY_CHUNK_TRAILER st) res
          else if u64 (maxBodyBytes lim - Z.of_nat (length (res_body res))) <? chunkSize then fail st res
          else go (set_phase BODY_CHUNK_DATA (set_bodyRemaining chunkSize st)) res
      end
  | BODY_CHUNK_LINE_END => match line with [] => go (set_phase BODY_CHUNK_SIZE st) res | _ => fail st res end
  | _ =>
      match line with
      | [] => Finish (Reply (done_ st) rest st res)
      | _ =>
          match count_header lim st with None => fail st res | Some st => go st res end
      end
  end.

(** A line may count against the header block: what it cost in this buffer. *)
Definition count_line (cost : Z) (st : ParseState) : ParseState :=
  match phase st with STATUS_LINE | HEADERS => set_headerBytes (u32 (headerBytes st + cost)) st | _ => st end.

Definition in_head (p : ParsePhase) : bool := match p with STATUS_LINE | HEADERS => true | _ => false end.

Definition line_turn (last : HttpMethod) (lim : HttpEndpointLimits) (isEof : bool) (inp : bytes) (st : ParseState) (res : HttpEndpointResponse) : turn :=
  match ReadLine (maxHeaderBytes lim) inp (lineAcc st) with
  | (TOO_LONG, _) => Finish (Reply PARSE_ERROR inp st res)
  | (NEED_MORE, acc) => Finish (Reply (if (isEof : bool) then PARSE_ERROR else INCOMPLETE) [] (set_lineAcc acc st) res)
  | (GOT_LINE line rest, acc) =>
      let st := count_line (Z.of_nat (length inp - length rest)) (set_lineAcc acc st) in
      if in_head (phase st) && (maxHeaderBytes lim <? headerBytes st) then Finish (Reply PARSE_ERROR rest st res)
      else on_line last lim line rest st res
  end.

Definition append_body (data : bytes) (res : HttpEndpointResponse) : HttpEndpointResponse := Resp (status res) (res_body res ++ data) (res_headers res).

Definition counted_turn (lim : HttpEndpointLimits) (isEof : bool) (inp : bytes) (st : ParseState) (res : HttpEndpointResponse) : turn :=
  let avail := Z.of_nat (length inp) in
  let n := Z.min (bodyRemaining st) avail in
  if maxBodyBytes lim <? Z.of_nat (length (res_body res)) + n then Finish (Reply PARSE_ERROR inp st res)
  else
    let res := append_body (take (Z.to_nat n) inp) res in
    let rest := drop (Z.to_nat n) inp in
    let st := set_bodyRemaining (bodyRemaining st - n) st in
    if bodyRemaining st =? 0 then
      if bool_decide (phase st = BODY_CHUNK_DATA) then Continue rest (set_phase BODY_CHUNK_LINE_END st) res
      else Finish (Reply (done_ st) rest st res)
    else Finish (Reply (if isEof then PARSE_ERROR else INCOMPLETE) rest st res).

Definition until_close_turn (lim : HttpEndpointLimits) (isEof : bool) (inp : bytes) (st : ParseState) (res : HttpEndpointResponse) : turn :=
  let answer := if isEof then COMPLETE_CLOSE else INCOMPLETE in
  match inp with
  | [] => Finish (Reply answer [] st res)
  | _ =>
      if maxBodyBytes lim <? Z.of_nat (length (res_body res) + length inp) then Finish (Reply PARSE_ERROR inp st res)
      else Finish (Reply answer [] st (append_body inp res))
  end.

Definition parse_turn (last : HttpMethod) (lim : HttpEndpointLimits) (isEof : bool) (inp : bytes) (st : ParseState) (res : HttpEndpointResponse) : turn :=
  match phase st with
  | BODY_CONTENT_LENGTH | BODY_CHUNK_DATA => counted_turn lim isEof inp st res
  | BODY_UNTIL_CLOSE => until_close_turn lim isEof inp st res
  | _ => line_turn last lim isEof inp st res
  end.

(** The loop: a turn that goes on has read a line, or a chunk's data, after which it
    reads one. *)
Definition turns_left (inp : bytes) (st : ParseState) : nat := 2 * length inp + (if bool_decide (phase st = BODY_CHUNK_DATA) then 1 else 0).

Fixpoint parse_loop (last : HttpMethod) (lim : HttpEndpointLimits) (isEof : bool) (fuel : nat) (inp : bytes) (st : ParseState) (res : HttpEndpointResponse) : option reply :=
  match fuel with
  | O => None
  | S f =>
      match parse_turn last lim isEof inp st res with
      | Continue inp st res => parse_loop last lim isEof f inp st res
      | Finish r => Some r
      end
  end.

Definition Parse (state : SlotState) (isEof : bool) (buf : bytes) (st : ParseState) (res : HttpEndpointResponse) : option reply :=
  parse_loop (lastMethod state) (limits (options state)) isEof (S (turns_left buf st)) buf st res.

(** ** Options *)

(** [std::from_chars] into a port that starts at 0. *)
Definition port_of (s : bytes) : Z := match from_chars_uint 16 s with FcOk v _ => v | _ => 0 end.

Definition BuildEndpointOptions (hostPort : bytes) (tlsConfig : tls) (lim : HttpEndpointLimits) : HttpEndpointOptions :=
  let colon := rfind_char COLON hostPort in
  let hostOnly := match colon with Some i => take i hostPort | None => hostPort end in
  let port := match colon with Some i => port_of (drop (S i) hostPort) | None => 0 end in
  let isSecure := match tlsConfig with TlsRequire => true | TlsInsecure => false | TlsAuto => port =? 443 end in
  let defaultPort := if isSecure then port =? 443 else port =? 80 in
  Options (if defaultPort then hostOnly else hostPort) lim.

(** ** The loop ends *)

Lemma find_char_length c l i : find_char c l = Some i -> (i < length l)%nat.
Proof. intros [H _]%find_char_Some. by apply lookup_lt_is_Some_1. Qed.

Lemma ReadLine_rest max inp acc line rest acc' : ReadLine max inp acc = (GOT_LINE line rest, acc') -> exists k, rest = drop (S k) inp /\ (k < length inp)%nat.
Proof.
  unfold ReadLine. destruct (find_char LF inp) as [k|] eqn:E; [|by destruct (_ <? _)]. apply find_char_length in E.
  destruct acc; (destruct (_ <? _); [done|]); intros [= <- <- <-]; by exists k.
Qed.

Lemma turn_measure last lim eof inp st res inp' st' res' : parse_turn last lim eof inp st res = Continue inp' st' res' -> (turns_left inp' st' < turns_left inp st)%nat.
Proof.
  unfold parse_turn, turns_left. intros H.
  assert (HL : phase st <> BODY_CHUNK_DATA -> line_turn last lim eof inp st res = Continue inp' st' res' -> (2 * length inp' + (if bool_decide (phase st' = BODY_CHUNK_DATA) then 1 else 0) <
    2 * length inp + (if bool_decide (phase st = BODY_CHUNK_DATA) then 1 else 0))%nat).
  { intros Hp. unfold line_turn. destruct (ReadLine _ _ _) as [[|line rest|] acc] eqn:E; [done| |done]. apply ReadLine_rest in E as (k & -> & Hk).
    destruct (_ && _); [done|]. intros Hl. assert (inp' = drop (S k) inp) as ->.
    { revert Hl. unfold on_line. generalize (count_line (Z.of_nat (length inp - length (drop (S k) inp))) (set_lineAcc acc st)) as s. intros s Hl.
      repeat (case_hyp Hl; try done); congruence. }
    rewrite length_drop. destruct (bool_decide _), (bool_decide _); lia. }
  destruct (phase st) eqn:Ep; try (by apply HL).
  - unfold counted_turn in H. cbv zeta in H. case_hyp H; [done|]. cbn in H. rewrite Ep in H. by case_hyp H.
  - unfold counted_turn in H. cbv zeta in H. case_hyp H; [done|]. cbn in H. rewrite Ep in H. case_hyp H; [|done]. injection H as <- <- <-. cbn.
    rewrite length_drop. repeat case_bool_decide; try done; lia.
  - unfold until_close_turn in H. destruct inp; [done|]. by case_hyp H.
Qed.

Section client.
Context (last : HttpMethod) (lim : HttpEndpointLimits).

(** [Parse] with its fuel. *)
Definition run (eof : bool) (inp : bytes) (st : ParseState) (res : HttpEndpointResponse) : option reply := parse_loop last lim eof (S (turns_left inp st)) inp st res.

Lemma loop_enough eof f : forall inp st res, (turns_left inp st < f)%nat -> parse_loop last lim eof f inp st res = run eof inp st res.
Proof.
  induction f as [f IH] using lt_wf_ind. intros inp st res Hf. destruct f as [|f]; [lia|]. unfold run. cbn [parse_loop].
  destruct (parse_turn last lim eof inp st res) as [inp' st' res'|r] eqn:E; [|done]. apply turn_measure in E.
  rewrite (IH f) by lia. destruct (Nat.eq_dec f (turns_left inp st)) as [->|Hne]; [by rewrite (IH (turns_left inp st)) by lia|].
  symmetry. apply IH; lia.
Qed.

Lemma run_turn eof inp st res :
  run eof inp st res = match parse_turn last lim eof inp st res with Continue inp' st' res' => run eof inp' st' res' | Finish r => Some r end.
Proof.
  unfold run at 1. cbn [parse_loop]. destruct (parse_turn _ _ _ _ _ _) as [inp' st' res'|r] eqn:E; [|done]. apply turn_measure in E. by apply loop_enough.
Qed.

Lemma turns_ind eof (P : bytes -> ParseState -> HttpEndpointResponse -> Prop) :
  (forall inp st res, (forall inp' st' res', parse_turn last lim eof inp st res = Continue inp' st' res' -> P inp' st' res') -> P inp st res) ->
  forall inp st res, P inp st res.
Proof.
  intros HP inp st res. remember (turns_left inp st) as n eqn:En. revert inp st res En. induction (lt_wf n) as [n _ IH]. intros inp st res ->.
  apply HP. intros inp' st' res' E. by apply (IH (turns_left inp' st') (turn_measure _ _ _ _ _ _ _ _ _ E)).
Qed.

Lemma run_total eof inp st res : exists r, run eof inp st res = Some r.
Proof. revert inp st res. apply (turns_ind eof). intros inp st res IH. rewrite run_turn. destruct (parse_turn _ _ _ _ _ _) eqn:E; [by apply IH|by eexists]. Qed.

(** ** Counting less of the head *)

Definition map_reply (f : ParseState -> ParseState) (r : reply) : reply := Reply (result r) (unread r) (f (pstate r)) (output r).
Definition map_turn (f : ParseState -> ParseState) (t : turn) : turn :=
  match t with Continue inp st res => Continue inp (f st) res | Finish r => Finish (map_reply f r) end.

(** Two functions on parse states that do not look at the head's size or the carried line. *)
Definition framed (h : Z) (a : bytes) (st : ParseState) : ParseState := set_headerBytes h (set_lineAcc a st).

Lemma status_line_framed h a line res st : ParseStatusLine line res (framed h a st) = (fun x => (x.1, framed h a x.2)) <$> ParseStatusLine line res st.
Proof. unfold ParseStatusLine. repeat (case_goal; try done). Qed.

Lemma frame_header_framed h a name value st : frame_header lim name value (framed h a st) = framed h a <$> frame_header lim name value st.
Proof. unfold frame_header. destruct st; cbn. by repeat case_goal. Qed.

Lemma count_header_framed h a st : count_header lim (framed h a st) = framed h a <$> count_header lim st.
Proof. unfold count_header. cbn. by destruct (_ <? _). Qed.

Lemma header_line_framed h a line res st : ParseHeaderLine lim line res (framed h a st) = (fun x => (x.1, framed h a x.2)) <$> ParseHeaderLine lim line res st.
Proof.
  unfold ParseHeaderLine. destruct (split_header line) as [[name value]|]; [|done]. rewrite frame_header_framed.
  destruct (frame_header _ _ _ _) as [st1|]; [|done]. cbn. rewrite count_header_framed. by destruct (count_header _ _).
Qed.

Lemma end_of_headers_framed h a res st :
  end_of_headers last lim res (framed h a st) = match end_of_headers last lim res st with HeadOver st => HeadOver (framed h a st) | r => r end.
Proof. unfold end_of_headers. destruct st; cbn. by repeat case_goal. Qed.

(** A line's effect: the same whatever the head has cost and however the line came. *)
Definition same_turn (h : Z) (t1 t2 : turn) : Prop :=
  match t1, t2 with
  | Continue i1 s1 r1, Continue i2 s2 r2 => i1 = i2 /\ s2 = set_headerBytes h s1 /\ r1 = r2 /\ lineAcc s1 = []
  | Finish r1, Finish r2 => result r1 = result r2 /\ unread r1 = unread r2 /\ output r1 = output r2 /\ result r1 <> INCOMPLETE
  | _, _ => False
  end.

Lemma on_line_framed h a line rest st res : same_turn h (on_line last lim line rest st res) (on_line last lim line rest (framed h a st) res).
Proof.
  unfold on_line. rewrite status_line_framed, header_line_framed, end_of_headers_framed, count_header_framed. change (phase (framed h a st)) with (phase st).
  assert (Hd : forall rest, same_turn h (Finish (Reply (done_ st) rest st res)) (Finish (Reply (done_ (framed h a st)) rest (framed h a st) res))).
  { intros r. cbn. split_and!; try done. unfold done_. by destruct (_ || _). }
  destruct (phase st); try (by destruct line; [|destruct (count_header lim st)]).
  - by destruct (ParseStatusLine line res st) as [[res1 st1]|].
  - destruct line as [|c line]; [|by destruct (ParseHeaderLine lim (c :: line) res st) as [[res1 st1]|]].
    by destruct (end_of_headers last lim res st).
  - destruct (ParseChunkSizeLine line) as [n|]; [|done]. by destruct (n =? 0); [|destruct (Z.ltb _ n)].
Qed.

(** ** Fragments *)

Context (Hmax : 0 <= maxHeaderBytes lim < 2 ^ 31).

Definition sane (st : ParseState) : Prop := 0 <= bodyRemaining st /\ 0 <= headerBytes st <= maxHeaderBytes lim.

(** The state of a parse in fragments: its head has cost less. *)
Definition behind (st st' : ParseState) : Prop := exists h, st' = set_headerBytes h st /\ 0 <= h <= headerBytes st.

Lemma behind_refl st : sane st -> behind st st.
Proof. intros [_ H]. exists (headerBytes st). split; [by destruct st|lia]. Qed.

Definition agree (r r' : reply) : Prop :=
  result r = result r' /\ unread r = unread r' /\ output r = output r' /\ (result r = INCOMPLETE -> sane (pstate r) /\ behind (pstate r) (pstate r')).

Definition turn_agrees (t t' : turn) : Prop :=
  match t, t' with
  | Continue i s r, Continue i' s' r' => i = i' /\ r = r' /\ sane s /\ behind s s' /\ lineAcc s = lineAcc s'
  | Finish r, Finish r' => agree r r'
  | Finish r, _ => result r = PARSE_ERROR
  | _, _ => False
  end.

Lemma whole_uint_nonneg w s v : whole_uint w s = Some v -> 0 <= v.
Proof.
  unfold whole_uint, from_chars_uint. pose proof (span_prefix is_digit s) as Hp. destruct (span is_digit s) as [[|d ds] rest]; [done|].
  destruct (_ <? _); [|done]. destruct rest; [|done]. intros [= <-]. by apply dec_value_nonneg.
Qed.

Lemma hex_val_range c d : hex_val c = Some d -> 0 <= d < 16.
Proof. unfold hex_val. repeat case_goal; intros [= <-]; zlia. Qed.

Lemma hex_digits_nonneg s : forall acc v, 0 <= acc -> hex_digits s acc = Some v -> 0 <= v.
Proof.
  induction s as [|c s IH]; intros acc v Ha; cbn; [by intros [= <-]|]. destruct (hex_val c) as [d|] eqn:E; [|done]. apply hex_val_range in E.
  apply IH. lia.
Qed.

Lemma chunk_size_nonneg line n : ParseChunkSizeLine line = Some n -> 0 <= n.
Proof.
  unfold ParseChunkSizeLine, whole_hex. destruct (match find_char 59 line with Some _ => _ | None => _ end) as [|c s]; [done|].
  destruct (hex_digits (c :: s) 0) as [v|] eqn:E; [|done]. destruct (_ <? _); [|done]. intros [= <-]. by eapply hex_digits_nonneg; [|exact E].
Qed.

(** What a line leaves alone. *)
Definition keeps (st st' : ParseState) : Prop := headerBytes st' = headerBytes st /\ (0 <= bodyRemaining st -> 0 <= bodyRemaining st').

Lemma header_line_keeps line res st res' st' : ParseHeaderLine lim line res st = Some (res', st') -> keeps st st'.
Proof.
  unfold ParseHeaderLine. destruct (split_header line) as [[name value]|]; [|done].
  assert (HF : forall s, frame_header lim name value st = Some s -> keeps st s).
  { intros s. unfold frame_header. destruct st; cbn. repeat (case_goal; try done); intros [= <-]; (split; [done|cbn; try done]).
    intros _. by eapply whole_uint_nonneg. }
  destruct (frame_header _ _ _ _) as [s|]; [|done]. specialize (HF s eq_refl). unfold count_header. destruct (_ <? _); [done|]. by intros [= <- <-].
Qed.

Lemma on_line_keeps line rest st res i s r : on_line last lim line rest st res = Continue i s r -> keeps st s /\ i = rest /\ lineAcc s = [].
Proof.
  unfold on_line. assert (Hg : forall s0 r0, keeps st s0 -> Continue rest (set_lineAcc [] s0) r0 = Continue i s r -> keeps st s /\ i = rest /\ lineAcc s = []) by (intros s0 r0 Hk [= <- <- <-]; done).
  assert (Hc : forall s0, count_header lim st = Some s0 -> keeps st s0) by (unfold count_header; intros s0; destruct (_ <? _); [done|by intros [= <-]]).
  destruct (phase st); try (destruct line; [done|]; destruct (count_header lim st) as [s0|] eqn:E; [apply Hg; by apply Hc|done]).
  - destruct (ParseStatusLine line res st) as [[res1 st1]|] eqn:E; [|done]. apply Hg. unfold ParseStatusLine in E. repeat (case_hyp E; try done). by injection E as <- <-.
  - destruct line as [|c line].
    + unfold end_of_headers. destruct st; cbn. repeat (case_goal; try done); apply Hg; done.
    + destruct (ParseHeaderLine lim (c :: line) res st) as [[res1 st1]|] eqn:E; [|done]. apply Hg. by eapply header_line_keeps.
  - destruct (ParseChunkSizeLine line) as [n|] eqn:E; [|done]. apply chunk_size_nonneg in E. destruct (n =? 0); [by apply Hg|]. destruct (Z.ltb _ n); [done|]. apply Hg. by split.
  - destruct line; [by apply Hg|done].
Qed.

Lemma find_char_skip c x b : find_char c x = None -> find_char c (x ++ b) = (fun k => length x + k)%nat <$> find_char c b.
Proof.
  induction x as [|y x IH]; cbn; [by destruct (find_char c b)|]. destruct (y =? c); [done|]. destruct (find_char c x); [done|]. intros _.
  rewrite IH by done. by destruct (find_char c b).
Qed.

Lemma ReadLine_eq max inp acc : ReadLine max inp acc =
  match find_char LF inp with
  | None => if max <? Z.of_nat (length acc + length inp) then (TOO_LONG, acc) else (NEED_MORE, acc ++ inp)
  | Some k => if max <? Z.of_nat (length acc + k) then (TOO_LONG, acc) else (GOT_LINE (strip_cr (acc ++ take k inp)) (drop (S k) inp), match acc with [] => [] | _ => acc ++ take k inp end)
  end.
Proof. unfold ReadLine. by destruct (find_char LF inp), acc. Qed.

(** A line read in one piece, and the same line with its first part carried over. *)
Lemma ReadLine_split max x b acc : find_char LF x = None ->
  match ReadLine max (x ++ b) acc with
  | (TOO_LONG, _) => True
  | (NEED_MORE, a) => ReadLine max b (acc ++ x) = (NEED_MORE, a) /\ Z.of_nat (length acc + length x) <= max
  | (GOT_LINE line rest, _) => (exists a, ReadLine max b (acc ++ x) = (GOT_LINE line rest, a)) /\ Z.of_nat (length acc + length x) <= max /\
      (exists k, rest = drop (S k) b /\ (k < length b)%nat /\ Z.of_nat (length acc + length x + k) <= max)
  end.
Proof.
  intros Hx. rewrite !ReadLine_eq, (find_char_skip _ _ _ Hx). destruct (find_char LF b) as [k|] eqn:E; cbn [fmap option_fmap option_map].
  - apply find_char_length in E. destruct (Z.ltb_spec max (Z.of_nat (length acc + (length x + k)))) as [|Hm]; [done|].
    rewrite length_app. destruct (Z.ltb_spec max (Z.of_nat (length acc + length x + k))); [lia|].
    replace (S (length x + k)) with (length x + S k)%nat by lia. rewrite take_app_add, drop_app_add, <- app_assoc.
    split; [by eexists|]. split; [lia|]. exists k. split_and!; [done|lia|lia].
  - rewrite !length_app. destruct (Z.ltb_spec max (Z.of_nat (length acc + (length x + length b)))); [done|].
    destruct (Z.ltb_spec max (Z.of_nat (length acc + length x + length b))); [lia|]. rewrite app_assoc. split; [done|lia].
Qed.

Definition is_line (p : ParsePhase) : bool := match p with BODY_CONTENT_LENGTH | BODY_CHUNK_DATA | BODY_UNTIL_CLOSE => false | _ => true end.

(** A line phase over the boundary of two fragments. *)
Lemma line_agrees eof x b st h res : find_char LF x = None -> is_line (phase st) = true -> sane st -> 0 <= h <= headerBytes st ->
  turn_agrees (line_turn last lim eof (x ++ b) st res) (line_turn last lim eof b (framed h (lineAcc st ++ x) st) res) \/
  (exists r, line_turn last lim eof (x ++ b) st res = Finish r /\ result r = PARSE_ERROR).
Proof.
  intros Hx Hp Hs Hh. pose proof (ReadLine_split (maxHeaderBytes lim) x b (lineAcc st) Hx) as HR. unfold line_turn.
  change (lineAcc (framed h (lineAcc st ++ x) st)) with (lineAcc st ++ x).
  destruct (ReadLine (maxHeaderBytes lim) (x ++ b) (lineAcc st)) as [[|line rest|] a] eqn:E; [| |right; by eexists].
  - destruct HR as [-> _]. destruct eof; [right; by eexists|]. left. split_and!; try done. intros _. cbn. split; [done|]. by exists h.
  - destruct HR as ([a' ->] & _ & (k & -> & Hk & Hm)).
    set (cost := Z.of_nat (length (x ++ b) - length (drop (S k) b))). set (cost' := Z.of_nat (length b - length (drop (S k) b))).
    assert (Hc : 0 <= cost' <= cost /\ cost <= maxHeaderBytes lim + 1) by (unfold cost, cost'; rewrite length_app, length_drop; lia).
    set (s := count_line cost (set_lineAcc a st)). set (s' := count_line cost' (set_lineAcc a' (framed h (lineAcc st ++ x) st))).
    destruct Hs as [Hs1 Hs2].
    assert (Hss : exists h', s' = framed h' a' s /\ 0 <= h' <= headerBytes s /\ 0 <= bodyRemaining s /\ phase s' = phase s).
    { unfold s, s', count_line. change (phase (set_lineAcc a st)) with (phase st). change (phase (set_lineAcc a' (framed h (lineAcc st ++ x) st))) with (phase st).
      destruct (phase st) eqn:Ep; try (exists h; cbn; rewrite ?Ep; split_and!; try done; lia);
        (exists (h + cost'); cbn; rewrite !wrap_small by lia; rewrite ?Ep; split_and!; try done; lia). }
    destruct Hss as (h' & E' & Hh' & Hb' & Hp'). rewrite Hp'. destruct (Z.ltb_spec (maxHeaderBytes lim) (headerBytes s)) as [Hover|Hfit].
    + destruct (in_head (phase s)) eqn:Eh; cbn [andb]; [right; by eexists|].
      exfalso. unfold s, count_line in Hover, Eh. change (phase (set_lineAcc a st)) with (phase st) in *. destruct (phase st) eqn:Ep; try discriminate Hp; cbn in *; try lia; rewrite Ep in Eh; done.
    + rewrite andb_false_r. assert (Hf' : (maxHeaderBytes lim <? headerBytes s') = false) by (rewrite E'; cbn; lia). rewrite Hf', andb_false_r.
      pose proof (on_line_framed h' a' line (drop (S k) b) s res) as HT. rewrite <- E' in HT. pose proof (on_line_keeps line (drop (S k) b) s res) as HK.
      destruct (on_line last lim line (drop (S k) b) s res) as [i1 s1 r1|r1], (on_line last lim line (drop (S k) b) s' res) as [i2 s2 r2|r2]; try done.
      * left. destruct HT as (-> & -> & -> & Ha). destruct (HK _ _ _ eq_refl) as ((K1 & K2) & K3 & K4). split_and!; try done; [split; [by apply K2|lia]|].
        exists h'. split; [done|]. lia.
      * left. destruct HT as (T1 & T2 & T3 & T4). by split_and!.
Qed.

Lemma append_body_app x y res : append_body y (append_body x res) = append_body (x ++ y) res.
Proof. unfold append_body. cbn. by rewrite app_assoc. Qed.

(** Body bytes over the boundary. *)
Lemma counted_agrees eof x b st st' res : sane st -> behind st st' -> phase st = BODY_CONTENT_LENGTH \/ phase st = BODY_CHUNK_DATA ->
  (exists r, counted_turn lim eof (x ++ b) st res = Finish r /\ result r = PARSE_ERROR) \/
  (bodyRemaining st <= Z.of_nat (length x) /\
   exists i s s' r, (counted_turn lim eof (x ++ b) st res = Continue (i ++ b) s r /\ counted_turn lim false x st' res = Continue i s' r /\ sane s /\ behind s s' /\ lineAcc s = lineAcc s' /\ lineAcc s = lineAcc st) \/
     (exists a, counted_turn lim eof (x ++ b) st res = Finish (Reply a (i ++ b) s r) /\ counted_turn lim false x st' res = Finish (Reply a i s' r) /\ a <> INCOMPLETE)) \/
  (Z.of_nat (length x) < bodyRemaining st /\
   exists s', counted_turn lim false x st' res = Finish (Reply INCOMPLETE [] s' (append_body x res)) /\ phase s' = phase st /\ sane s' /\
     turn_agrees (counted_turn lim eof (x ++ b) st res) (counted_turn lim eof b s' (append_body x res))).
Proof.
  intros Hs (h & -> & Hh) Hp. unfold counted_turn. cbv zeta. cbn [bodyRemaining set_bodyRemaining set_headerBytes phase res_body append_body].
  destruct Hs as [Hs1 Hs2]. rewrite !length_app. destruct (Z.ltb_spec (maxBodyBytes lim) (Z.of_nat (length (res_body res)) + Z.min (bodyRemaining st) (Z.of_nat (length x + length b)))) as [|Hfit]; [left; by eexists|].
  right. destruct (Z.le_gt_cases (bodyRemaining st) (Z.of_nat (length x))) as [Hin|Hout]; [left|right]; (split; [done|]).
  - rewrite !Z.min_l by lia. destruct (Z.ltb_spec (maxBodyBytes lim) (Z.of_nat (length (res_body res)) + bodyRemaining st)); [lia|].
    rewrite Z.sub_diag. cbn [Z.eqb]. rewrite take_app_le, drop_app_le by lia.
    destruct Hp as [->| ->]; cbn [bool_decide decide decide_rel]; do 4 eexists; [right|left].
    + rewrite bool_decide_false by done. eexists. split; [done|]. split; [done|]. unfold done_. cbn. by destruct (_ || _).
    + rewrite bool_decide_true by done. split; [done|]. split; [done|]. split; [by split; cbn|]. split; [|done]. by exists h.
  - rewrite (Z.min_r _ (Z.of_nat (length x))) by lia. destruct (Z.ltb_spec (maxBodyBytes lim) (Z.of_nat (length (res_body res)) + Z.of_nat (length x))); [lia|].
    destruct (Z.eqb_spec (bodyRemaining st - Z.of_nat (length x)) 0); [lia|]. rewrite Nat2Z.id, firstn_all, drop_all. eexists. split; [done|]. split; [done|]. split; [by split; cbn; lia|].
    cbn [bodyRemaining set_bodyRemaining set_headerBytes phase res_body append_body status res_headers].
    set (n' := Z.min (bodyRemaining st - Z.of_nat (length x)) (Z.of_nat (length b))).
    replace (Z.min (bodyRemaining st) (Z.of_nat (length x + length b))) with (Z.of_nat (length x) + n') in * by lia. rewrite ?length_app.
    destruct (Z.ltb_spec (maxBodyBytes lim) (Z.of_nat (length (res_body res) + length x) + n')); [lia|].
    replace (Z.to_nat (Z.of_nat (length x) + n')) with (length x + Z.to_nat n')%nat by lia. rewrite take_app_add, drop_app_add, append_body_app, Z.sub_add_distr.
    destruct (Z.eqb_spec (bodyRemaining st - Z.of_nat (length x) - n') 0).
    + destruct (bool_decide _); [split_and!; try done; [by split; cbn; lia|by exists h]|]. split_and!; try done. unfold done_. by destruct (_ || _).
    + split_and!; try done. intros _. split; [by split; cbn; lia|by exists h].
Qed.

(** More bytes after a turn that did not need them. *)
Definition app_turn (b : bytes) (t : turn) : turn :=
  match t with Continue i s r => Continue (i ++ b) s r | Finish r => Finish (Reply (result r) (unread r ++ b) (pstate r) (output r)) end.

Lemma on_line_app b line rest st res : on_line last lim line (rest ++ b) st res = app_turn b (on_line last lim line rest st res).
Proof. unfold on_line. by repeat (case_goal; try done). Qed.

Lemma line_turn_app eof eof' x b st res k : find_char LF x = Some k -> line_turn last lim eof (x ++ b) st res = app_turn b (line_turn last lim eof' x st res).
Proof.
  intros Hx. assert (Hk := find_char_length _ _ _ Hx). unfold line_turn. rewrite !ReadLine_eq.
  assert (find_char LF (x ++ b) = Some k) as ->.
  { apply find_char_Some in Hx as [H1 H2]. apply find_char_Some. rewrite lookup_app_l by done. split; [done|]. intros j Hj. rewrite lookup_app_l by lia. by apply H2. }
  rewrite Hx. destruct (_ <? _); [done|]. rewrite take_app_le, drop_app_le by lia. rewrite !length_app, length_drop.
  replace (length x + length b - (length x - S k + length b))%nat with (length x - (length x - S k))%nat by lia.
  destruct (_ && _); [done|]. apply on_line_app.
Qed.

Lemma counted_behind eof inp st st' res : sane st -> behind st st' ->
  turn_agrees (counted_turn lim eof inp st res) (counted_turn lim eof inp st' res) \/ (exists r, counted_turn lim eof inp st res = Finish r /\ result r = PARSE_ERROR).
Proof.
  intros [Hs1 Hs2] (h & -> & Hh). unfold counted_turn. cbv zeta. cbn [bodyRemaining set_bodyRemaining set_headerBytes phase].
  destruct (_ <? _); [right; by eexists|left]. destruct (_ =? 0).
  - destruct (bool_decide _); [split_and!; try done; [by split; cbn; lia|by exists h]|]. split_and!; try done. unfold done_. by destruct (_ || _).
  - split_and!; try done. intros _. split; [by split; cbn; lia|by exists h].
Qed.

Lemma until_close_behind eof inp st st' res : sane st -> behind st st' -> turn_agrees (until_close_turn lim eof inp st res) (until_close_turn lim eof inp st' res) \/
  (exists r, until_close_turn lim eof inp st res = Finish r /\ result r = PARSE_ERROR).
Proof. intros Hs Hb. unfold until_close_turn. destruct inp; [by left|]. destruct (_ <? _); [right; by eexists|by left]. Qed.

Lemma turn_behind eof inp st st' res : sane st -> behind st st' ->
  turn_agrees (parse_turn last lim eof inp st res) (parse_turn last lim eof inp st' res) \/ (exists r, parse_turn last lim eof inp st res = Finish r /\ result r = PARSE_ERROR).
Proof.
  intros Hs Hb. pose proof Hb as (h & E & Hh). unfold parse_turn. assert (Hp : phase st' = phase st) by (by rewrite E). rewrite Hp.
  destruct (is_line (phase st)) eqn:Hl.
  - assert (HL : turn_agrees (line_turn last lim eof inp st res) (line_turn last lim eof inp st' res) \/ (exists r, line_turn last lim eof inp st res = Finish r /\ result r = PARSE_ERROR)); [|by destruct (phase st)].
    pose proof (line_agrees eof [] inp st h res eq_refl Hl Hs Hh) as HA. rewrite app_nil_r in HA. cbn [app] in HA.
    replace (framed h (lineAcc st) st) with st' in HA by (rewrite E; by destruct st). done.
  - destruct (phase st); try done; [by apply counted_behind..|by apply until_close_behind].
Qed.

Lemma run_behind eof inp st res : forall st' r, sane st -> behind st st' -> run eof inp st res = Some r -> result r <> PARSE_ERROR ->
  exists r', run eof inp st' res = Some r' /\ agree r r'.
Proof.
  revert inp st res. apply (turns_ind eof (fun inp st res => forall st' r, sane st -> behind st st' -> run eof inp st res = Some r -> result r <> PARSE_ERROR ->
    exists r', run eof inp st' res = Some r' /\ agree r r')). intros inp st res IH st' r Hs Hb Hr He. rewrite run_turn in Hr. rewrite run_turn.
  destruct (turn_behind eof inp st st' res Hs Hb) as [HT|(r0 & E & Hr0)]; [|rewrite E in Hr; by injection Hr as ->].
  destruct (parse_turn last lim eof inp st res) as [i s r1|r1] eqn:E1, (parse_turn last lim eof inp st' res) as [i' s' r1'|r1'] eqn:E2; try done.
  - destruct HT as (-> & -> & H1 & H2 & _). by apply (IH _ _ _ eq_refl).
  - injection Hr as <-. cbn in HT. by rewrite HT in He.
  - injection Hr as <-. by exists r1'.
Qed.

(** Everything but an error, in two fragments. *)
Definition splits (eof : bool) (x b : bytes) (st' : ParseState) (res : HttpEndpointResponse) (r : reply) : Prop :=
  (exists s' res1 r', run false x st' res = Some (Reply INCOMPLETE [] s' res1) /\ sane s' /\ run eof b s' res1 = Some r' /\ agree r r') \/
  (exists i s', run false x st' res = Some (Reply (result r) i s' (output r)) /\ result r <> INCOMPLETE /\ unread r = i ++ b).

Lemma behind_sane st st' : sane st -> behind st st' -> sane st'.
Proof. intros [H1 H2] (h & -> & Hh). split; cbn; [done|lia]. Qed.

(** The second fragment takes over where the whole goes on. *)
Lemma takes_over eof inp st res r b s' res1 : run eof inp st res = Some r -> result r <> PARSE_ERROR ->
  turn_agrees (parse_turn last lim eof inp st res) (parse_turn last lim eof b s' res1) \/ (exists r0, parse_turn last lim eof inp st res = Finish r0 /\ result r0 = PARSE_ERROR) ->
  exists r', run eof b s' res1 = Some r' /\ agree r r'.
Proof.
  intros Hr He [HT|(r0 & E & H0)]; [|rewrite run_turn, E in Hr; by injection Hr as ->]. rewrite run_turn in Hr. rewrite run_turn.
  destruct (parse_turn last lim eof inp st res) as [i s r1|r1], (parse_turn last lim eof b s' res1) as [i' s1' r1'|r1']; try done.
  - destruct HT as (-> & -> & H1 & H2 & _). by apply (run_behind _ _ s).
  - injection Hr as <-. cbn in HT. by rewrite HT in He.
  - injection Hr as <-. by exists r1'.
Qed.

Lemma parse_turn_line eof inp st res : is_line (phase st) = true -> parse_turn last lim eof inp st res = line_turn last lim eof inp st res.
Proof. unfold parse_turn. by destruct (phase st). Qed.

Lemma split_stash eof x b st st' res r : sane st -> behind st st' -> is_line (phase st) = true -> find_char LF x = None ->
  run eof (x ++ b) st res = Some r -> result r <> PARSE_ERROR -> splits eof x b st' res r.
Proof.
  intros Hs (h & -> & Hh) Hl Hx Hr He. left. set (s' := framed h (lineAcc st ++ x) st).
  destruct (takes_over eof (x ++ b) st res r b s' res Hr He) as (r' & E & A).
  { rewrite !parse_turn_line by done. by apply line_agrees. }
  assert (Hfit : Z.of_nat (length (lineAcc st) + length x) <= maxHeaderBytes lim).
  { rewrite run_turn, parse_turn_line in Hr by done. unfold line_turn in Hr. pose proof (ReadLine_split (maxHeaderBytes lim) x b (lineAcc st) Hx) as HR.
    destruct (ReadLine _ _ _) as [[|line rest|] a]; [apply HR|apply HR|by injection Hr as <-]. }
  exists s', res, r'. split; [|split; [destruct Hs; split; cbn; [done|lia]|done]].
  rewrite run_turn, parse_turn_line by done. unfold line_turn. rewrite ReadLine_eq, Hx. change (lineAcc (set_headerBytes h st)) with (lineAcc st).
  destruct (Z.ltb_spec (maxHeaderBytes lim) (Z.of_nat (length (lineAcc st) + length x))); [lia|done].
Qed.

Lemma line_turn_final eof x st res k r : find_char LF x = Some k -> line_turn last lim eof x st res = Finish r -> result r <> INCOMPLETE.
Proof.
  intros Hx. unfold line_turn. rewrite ReadLine_eq, Hx. destruct (_ <? _); [by intros [= <-]|]. destruct (_ && _); [by intros [= <-]|].
  intros E. pose proof (on_line_framed 0 [] (strip_cr (lineAcc st ++ take k x)) (drop (S k) x)
    (count_line (Z.of_nat (length x - length (drop (S k) x))) (set_lineAcc (match lineAcc st with [] => [] | _ => lineAcc st ++ take k x end) st)) res) as HT.
  rewrite E in HT. cbn in HT. by destruct (on_line _ _ _ _ (framed _ _ _) _); [|destruct HT as (_ & _ & _ & ?)].
Qed.

(** Splitting a run at a turn that goes on. *)
Definition splits_after (eof : bool) (inp : bytes) (st : ParseState) (res : HttpEndpointResponse) : Prop :=
  forall i s r1, parse_turn last lim eof inp st res = Continue i s r1 -> forall x b st' r, i = x ++ b -> sane s -> behind s st' ->
    run eof i s r1 = Some r -> result r <> PARSE_ERROR -> splits eof x b st' r1 r.

Lemma split_go eof x b st st' res r i s s' r1 : splits_after eof (x ++ b) st res -> run eof (x ++ b) st res = Some r -> result r <> PARSE_ERROR ->
  parse_turn last lim eof (x ++ b) st res = Continue (i ++ b) s r1 -> parse_turn last lim false x st' res = Continue i s' r1 -> sane s -> behind s s' -> splits eof x b st' res r.
Proof.
  intros IH Hr He E1 E2 H1 H2. rewrite run_turn, E1 in Hr. destruct (IH _ _ _ E1 i b s' r eq_refl H1 H2 Hr He) as [(s1 & res1 & r' & F)|(i1 & s1 & F)].
  - left. exists s1, res1, r'. by rewrite run_turn, E2.
  - right. exists i1, s1. by rewrite run_turn, E2.
Qed.

Lemma split_line eof x b st st' res r k : splits_after eof (x ++ b) st res -> sane st -> behind st st' -> is_line (phase st) = true -> find_char LF x = Some k ->
  run eof (x ++ b) st res = Some r -> result r <> PARSE_ERROR -> splits eof x b st' res r.
Proof.
  intros IH Hs Hb Hl Hx Hr He. assert (Hl' : is_line (phase st') = true) by (by destruct Hb as (h & -> & _)). pose proof (line_turn_app eof false x b st res k Hx) as HA.
  pose proof (turn_behind false x st st' res Hs Hb) as HT. rewrite !parse_turn_line in HT by done.
  destruct (line_turn last lim false x st res) as [i s r1|r1] eqn:E1.
  - destruct HT as [HT|(? & ? & _)]; [|done]. destruct (line_turn last lim false x st' res) as [i' s' r1'|r1'] eqn:E2; [|done]. destruct HT as (<- & <- & H1 & H2 & _).
    apply (split_go eof x b st st' res r i s s' r1); try done; by rewrite parse_turn_line.
  - assert (Hr' := Hr). rewrite run_turn, parse_turn_line, HA in Hr' by done. injection Hr' as <-. cbn in He.
    destruct HT as [HT|(r0 & [= <-] & H0)]; [|done]. destruct (line_turn last lim false x st' res) as [i' s' r1'|r1'] eqn:E2; [by rewrite HT in He|]. destruct HT as (T1 & T2 & T3 & _).
    right. exists (unread r1'), (pstate r1'). rewrite run_turn, parse_turn_line, E2 by done. cbn. rewrite T1, T2, T3. split; [by destruct r1'|]. split; [|done].
    rewrite <- T1. by eapply line_turn_final.
Qed.

Lemma split_counted eof x b st st' res r : splits_after eof (x ++ b) st res -> sane st -> behind st st' -> phase st = BODY_CONTENT_LENGTH \/ phase st = BODY_CHUNK_DATA ->
  run eof (x ++ b) st res = Some r -> result r <> PARSE_ERROR -> splits eof x b st' res r.
Proof.
  intros IH Hs Hb Hc Hr He. assert (Hp : phase st' = phase st) by (by destruct Hb as (h & -> & _)).
  assert (HP : forall e i s r, phase s = phase st -> parse_turn last lim e i s r = counted_turn lim e i s r) by (intros e i s r0 E; unfold parse_turn; rewrite E; by destruct Hc as [->| ->]).
  assert (Hr' := Hr). rewrite run_turn, HP in Hr' by done.
  destruct (counted_agrees eof x b st st' res Hs Hb Hc) as [(r0 & E & H0)|[(_ & i & s & s' & r1 & [(C1 & C2 & C3 & C4 & _)|(a & C1 & C2 & C3)])|(_ & s' & C1 & C2 & C3 & C4)]].
  - rewrite E in Hr'. by injection Hr' as ->.
  - apply (split_go eof x b st st' res r i s s' r1); try done; by rewrite HP.
  - rewrite C1 in Hr'. injection Hr' as <-. right. exists i, s'. by rewrite run_turn, HP, C2 by done.
  - left. destruct (takes_over eof (x ++ b) st res r b s' (append_body x res) Hr He) as (r' & E & A); [left; by rewrite !HP|].
    exists s', (append_body x res), r'. by rewrite run_turn, HP, C1 by done.
Qed.

Lemma split_until_close eof x b st st' res r : sane st -> behind st st' -> phase st = BODY_UNTIL_CLOSE ->
  run eof (x ++ b) st res = Some r -> result r <> PARSE_ERROR -> splits eof x b st' res r.
Proof.
  intros Hs Hb Hc Hr He. assert (Hp : phase st' = BODY_UNTIL_CLOSE) by (by destruct Hb as (h & -> & _)).
  assert (HP : forall e i s r, phase s = BODY_UNTIL_CLOSE -> run e i s r = match until_close_turn lim e i s r with Continue i s r => run e i s r | Finish r => Some r end).
  { intros e i s r0 E. rewrite run_turn. unfold parse_turn. by rewrite E. }
  rewrite HP in Hr by done. left. exists st', (append_body x res). rewrite !HP by done. unfold until_close_turn in *. unfold append_body in *. cbn.
  set (ans := if eof then COMPLETE_CLOSE else INCOMPLETE) in *. destruct x as [|y x]; cbn [app] in *.
  - rewrite app_nil_r. destruct res as [s0 b0 h0]. cbn in *. destruct b as [|z b]; [|destruct (_ <? _)]; injection Hr as <-; try done; (eexists; split; [done|]; split; [by apply (behind_sane st)|]; split; [done|]; by split_and!).
  - destruct (Z.ltb_spec (maxBodyBytes lim) (Z.of_nat (length (res_body res) + length (y :: x ++ b)))); injection Hr as <-; [done|].
    cbn [length] in *. rewrite !length_app in *. destruct (Z.ltb_spec (maxBodyBytes lim) (Z.of_nat (length (res_body res) + S (length x)))); [lia|].
    destruct b as [|z b].
    + eexists. split; [done|]. split; [by apply (behind_sane st)|]. split; [done|]. rewrite app_nil_r. by split_and!.
    + destruct (Z.ltb_spec (maxBodyBytes lim) (Z.of_nat (length (res_body res) + length (y :: x) + length (z :: b)))); [cbn [length] in *; lia|].
      eexists. split; [done|]. split; [by apply (behind_sane st)|]. split; [done|]. cbn. rewrite <- app_assoc. by split_and!.
Qed.

Lemma run_split eof inp st res : forall x b st' r, inp = x ++ b -> sane st -> behind st st' -> run eof inp st res = Some r -> result r <> PARSE_ERROR -> splits eof x b st' res r.
Proof.
  revert inp st res. apply (turns_ind eof (fun inp st res => forall x b st' r, inp = x ++ b -> sane st -> behind st st' -> run eof inp st res = Some r -> result r <> PARSE_ERROR -> splits eof x b st' res r)).
  intros inp st res IH x b st' r -> Hs Hb Hr He. destruct (is_line (phase st)) eqn:Hl.
  - destruct (find_char LF x) as [k|] eqn:Hx; [by eapply split_line|by eapply split_stash].
  - destruct (phase st) eqn:Ep; try done; [apply (split_counted eof x b st); try done; by left|apply (split_counted eof x b st); try done; by right|by apply (split_until_close eof x b st)].
Qed.

End client.

(** ** Responses that arrive in pieces *)

(** The calls the event loop makes as bytes arrive: an incomplete message is parsed on
    with the next piece, and the last piece may come with the end of the connection. *)
Fixpoint feed (state : SlotState) (eof : bool) (carry : bytes) (pieces : list bytes) (st : ParseState) (res : HttpEndpointResponse) : option reply :=
  match pieces with
  | [] => None
  | p :: ps =>
      match ps with
      | [] => Parse state eof (carry ++ p) st res
      | _ =>
          match Parse state false (carry ++ p) st res with
          | Some (Reply INCOMPLETE i st res) => feed state eof i ps st res
          | Some (Reply a i st res) => Some (Reply a (i ++ concat ps) st res)
          | None => None
          end
      end
  end.

Lemma feed_splits state eof pieces : 0 <= maxHeaderBytes (limits (options state)) < 2 ^ 31 -> forall st res r, pieces <> [] -> sane (limits (options state)) st ->
  Parse state eof (concat pieces) st res = Some r -> result r <> PARSE_ERROR ->
  exists r', feed state eof [] pieces st res = Some r' /\ result r' = result r /\ unread r' = unread r /\ output r' = output r.
Proof.
  intros Hm. induction pieces as [|p ps IH]; intros st res r Hne Hs Hr He; [done|]. destruct ps as [|q ps].
  - cbn in *. rewrite app_nil_r in Hr. exists r. by cbn.
  - change (concat (p :: q :: ps)) with (p ++ concat (q :: ps)) in Hr.
    destruct (run_split (lastMethod state) (limits (options state)) Hm eof _ st res p (concat (q :: ps)) st r eq_refl Hs (behind_refl _ _ Hs) Hr He)
      as [(s' & res1 & r' & E1 & Hs' & E2 & A1 & A2 & A3 & A4)|(i & s' & E1 & E2 & E3)].
    + destruct (IH s' res1 r' ltac:(done) Hs' E2) as (r2 & F1 & F2 & F3 & F4); [by rewrite <- A1|].
      exists r2. split; [|by rewrite A1, A2, A3]. cbn [feed app]. unfold Parse at 1. unfold run in E1. by rewrite E1.
    + exists (Reply (result r) (i ++ concat (q :: ps)) s' (output r)). split; [cbn [feed app]; unfold Parse at 1; unfold run in E1; rewrite E1; by destruct (result r)|]. by rewrite E3.
Qed.

(** C11: However a response is cut into pieces, reading it piece by piece gives what reading
    it at once gives: the same verdict, the same status, headers and body, and the same
    bytes left for the next response.  (A response the whole refuses is the exception: the
    head's size is only counted in the piece that ends a line, so pieces may pass the limit;
    see [limit_evaded].) *)
Theorem parse_in_pieces state eof pieces r : 0 <= maxHeaderBytes (limits (options state)) < 2 ^ 31 -> pieces <> [] ->
  Parse state eof (concat pieces) new_parse_state new_response = Some r -> result r <> PARSE_ERROR ->
  exists r', feed state eof [] pieces new_parse_state new_response = Some r' /\ result r' = result r /\ unread r' = unread r /\ output r' = output r.
Proof. intros Hm Hne Hr He. apply feed_splits; try done. split; cbn; lia. Qed.

(** Reading ends: every call returns, whatever the state and the bytes. *)
Theorem Parse_total state eof buf st res : exists r, Parse state eof buf st res = Some r.
Proof. apply run_total. Qed.

Definition w_limits : HttpEndpointLimits := Limits 64 100 10.
Definition w_state : SlotState := Slot (Options (lit "h") w_limits) Constants.GET.

Definition w_pieces : list bytes :=
  [lit "HTTP/1.1 20"; lit "0 OK" ++ [CR]; [LF] ++ lit "Transfer-Enc"; lit "oding: chunked" ++ crlf ++ crlf ++ lit "3"; crlf ++ lit "ab"; lit "c" ++ crlf ++ lit "0" ++ crlf ++ crlf ++ lit "next"].

Lemma parse_in_pieces_witness : exists r', feed w_state false [] w_pieces new_parse_state new_response = Some r' /\ result r' = COMPLETE_KEEP_ALIVE /\ unread r' = lit "next" /\
  output r' = Resp 200 (lit "abc") [(lit "Transfer-Encoding", lit "chunked")].
Proof.
  destruct (Parse w_state false (concat w_pieces) new_parse_state new_response) as [r|] eqn:E; [|by vm_compute in E].
  destruct (parse_in_pieces w_state false w_pieces r) as (r' & F1 & F2 & F3 & F4); [cbn; lia|done|done|by vm_compute in E; injection E as <-|].
  exists r'. split; [done|]. rewrite F2, F3, F4. vm_compute in E. injection E as <-. repeat split; reflexivity.
Defined.

(** 66 bytes of head are refused in one piece and accepted in two. *)
Definition w_long : bytes := lit "HTTP/1.1 200 OK" ++ crlf ++ lit "A: 012345678901234567890123456789012345678901" ++ crlf ++ crlf.

Example limit_evaded :
  option_map result (Parse w_state false w_long new_parse_state new_response) = Some PARSE_ERROR /\
  option_map result (feed w_state false [] [take 40 w_long; drop 40 w_long] new_parse_state new_response) = Some INCOMPLETE.
Proof. vm_compute. done. Qed.

(** ** Requests on the wire *)

Definition content_length (req : HttpEndpointRequest) : HttpHeaderList :=
  if negb (bool_decide (body req = [])) || body_bearing (method req) then [(lit "Content-Length", to_chars_uint (Z.of_nat (length (body req))))] else [].

Definition request_line (req : HttpEndpointRequest) : bytes := Constants.HttpMethodToStringView (method req) ++ [SPACE] ++ path req ++ lit " HTTP/1.1".

(** The names a caller may not set, in any case of letters. *)
Definition reserved : list bytes := [lit "host"; lit "content-length"; lit "transfer-encoding"].
Definition callers (h : bytes * bytes) : bool := negb (existsb (InsensitiveEqual h.1) reserved).

Lemma callers_own h : callers h = negb (own_header h.1).
Proof. unfold callers, own_header, reserved. cbn [existsb]. by rewrite orb_false_r, orb_assoc. Qed.

(** The lines of a request: the codec's own headers, then the caller's others. *)
Definition request_lines (host : bytes) (req : HttpEndpointRequest) : list bytes :=
  request_line req :: map Response.header_line ((lit "Host", host) :: content_length req ++ List.filter callers (headers req)).

Lemma callers_filter hs : List.filter callers hs = List.filter (fun h => negb (own_header h.1)) hs.
Proof. apply List.filter_ext. exact callers_own. Qed.

Definition request_text (host : bytes) (req : HttpEndpointRequest) : bytes :=
  concat (map (fun l => l ++ crlf) (request_lines host req)) ++ crlf ++ body req.

Definition injection_free (req : HttpEndpointRequest) : bool :=
  negb (HasInjectionBytes (path req)) && forallb (fun h => negb (HasInjectionBytes h.1 || HasInjectionBytes h.2)) (headers req).

Lemma Append_ok s w : Append s w = if Z.of_nat (length (written_ w ++ s)) <=? cap_ w then Some (Writer (cap_ w) (written_ w ++ s)) else None.
Proof. unfold Append. rewrite length_app. destruct (Z.ltb_spec (cap_ w - Z.of_nat (length (written_ w))) (Z.of_nat (length s))), (Z.leb_spec (Z.of_nat (length (written_ w) + length s)) (cap_ w)); done || lia. Qed.

Lemma append_all_ok l : forall w, Z.of_nat (length (written_ w)) <= cap_ w ->
  append_all l w = if Z.of_nat (length (written_ w ++ concat l)) <=? cap_ w then Some (Writer (cap_ w) (written_ w ++ concat l)) else None.
Proof.
  induction l as [|s l IH]; intros w Hw; cbn [append_all concat].
  - rewrite app_nil_r. destruct (Z.leb_spec (Z.of_nat (length (written_ w))) (cap_ w)); [by destruct w|lia].
  - rewrite Append_ok. destruct (Z.leb_spec (Z.of_nat (length (written_ w ++ s))) (cap_ w)) as [H|H].
    + rewrite IH by done. cbn. by rewrite <- app_assoc.
    + rewrite !length_app in *. destruct (Z.leb_spec (Z.of_nat (length (written_ w) + (length s + length (concat l)))) (cap_ w)); [lia|done].
Qed.

Lemma append_all_fits l w w' : Z.of_nat (length (written_ w)) <= cap_ w -> append_all l w = Some w' -> Z.of_nat (length (written_ w')) <= cap_ w'.
Proof. intros Hw. rewrite append_all_ok by done. destruct (Z.leb_spec (Z.of_nat (length (written_ w ++ concat l))) (cap_ w)); [|done]. by intros [= <-]. Qed.

Definition header_text (hs : HttpHeaderList) : bytes := concat (map (fun h => Response.header_line h ++ crlf) (List.filter (fun h => negb (own_header h.1)) hs)).

Lemma header_loop_clean hs : forall w, forallb (fun h => negb (HasInjectionBytes h.1 || HasInjectionBytes h.2)) hs = true -> Z.of_nat (length (written_ w)) <= cap_ w ->
  header_loop hs w = Some (append_all [header_text hs] w).
Proof.
  induction hs as [|[n v] hs IH]; intros w Hc Hw; cbn [header_loop].
  - rewrite append_all_ok by done. unfold header_text. cbn. rewrite app_nil_r. destruct (Z.leb_spec (Z.of_nat (length (written_ w))) (cap_ w)); [by destruct w|lia].
  - cbn [forallb] in Hc. apply andb_true_iff in Hc as [Hc Hcs]. cbn [fst snd] in Hc. apply negb_true_iff in Hc. rewrite Hc. unfold header_text. cbn [List.filter fst].
    destruct (own_header n); cbn [negb]; [by rewrite IH|]. rewrite !append_all_ok by done. cbn [map concat]. fold (header_text hs). unfold Response.header_line. cbn [fst snd].
    set (one := n ++ lit ": " ++ v ++ crlf ++ []). replace ((n ++ lit ": " ++ v) ++ crlf) with one by (unfold one; by rewrite app_nil_r, <- !app_assoc).
    destruct (Z.leb_spec (Z.of_nat (length (written_ w ++ one))) (cap_ w)) as [H|H].
    + rewrite IH, append_all_ok by done. cbn [cap_ written_ concat]. by rewrite <- !app_assoc.
    + rewrite !length_app in *. destruct (Z.leb_spec (Z.of_nat (length (written_ w) + (length one + length (header_text hs) + length (@nil Z)))) (cap_ w)); [lia|done].
Qed.

Lemma header_loop_bad hs : forall w, forallb (fun h => negb (HasInjectionBytes h.1 || HasInjectionBytes h.2)) hs = false -> header_loop hs w = None \/ header_loop hs w = Some None.
Proof.
  induction hs as [|[n v] hs IH]; intros w Hc; [done|]. cbn [header_loop forallb fst snd] in *. destruct (HasInjectionBytes n || HasInjectionBytes v); [by left|].
  cbn [negb andb] in Hc. destruct (own_header n); [by apply IH|]. destruct (append_all _ w) as [w1|]; [by apply IH|by right].
Qed.

Lemma append_all_app l1 l2 : forall w, append_all (l1 ++ l2) w = match append_all l1 w with Some w => append_all l2 w | None => None end.
Proof. induction l1 as [|s l1 IH]; intros w; cbn; [done|]. destruct (Append s w); [apply IH|done]. Qed.

Lemma to_chars_nonempty v : to_chars_uint v <> [].
Proof.
  assert (H : forall f v acc, acc <> [] -> to_chars_loop f v acc <> []) by (induction f as [|f IH]; intros v' acc Ha; cbn; [done|]; destruct (_ <? _); [done|by apply IH]).
  unfold to_chars_uint. cbn [to_chars_loop]. destruct (v <? 10); [done|]. by apply (H 19%nat).
Qed.

(** What is appended, in order. *)
Definition pieces (host : bytes) (req : HttpEndpointRequest) : list bytes :=
  [Constants.HttpMethodToStringView (method req); [SPACE]; path req; lit " HTTP/1.1" ++ crlf ++ lit "Host: "; host; crlf] ++
  (match content_length req with [] => [] | (_, n) :: _ => [lit "Content-Length: "; n; crlf] end) ++ [header_text (headers req)] ++ (crlf :: match body req with [] => [] | b => [b] end).

Lemma pieces_text host req : concat (pieces host req) = request_text host req.
Proof.
  unfold pieces, request_text, request_lines, request_line, header_text. rewrite callers_filter, !concat_app.
  assert (Hb : concat (crlf :: match body req with [] => [] | b => [b] end) = crlf ++ body req) by (destruct (body req); cbn; by rewrite ?app_nil_r). rewrite Hb.
  change (lit "Content-Length: ") with (lit "Content-Length" ++ lit ": "). change (lit "Host: ") with (lit "Host" ++ lit ": ").
  cbn [concat map]. rewrite !map_app, map_map, concat_app. unfold Response.header_line at 1. cbn [fst snd].
  unfold content_length. destruct (_ || _); cbn [map concat]; unfold Response.header_line; cbn [fst snd]; rewrite ?map_map, ?app_nil_r, <- ?app_assoc; done.
Qed.

Lemma Serialize_clean req bufLen state : 0 <= bufLen -> injection_free req = true ->
  (Serialize req bufLen state).1 = if Z.of_nat (length (request_text (hostHeaderValue (options state)) req)) <=? bufLen
    then SER_OK (request_text (hostHeaderValue (options state)) req) else SER_BUFFER_TOO_SMALL.
Proof.
  intros Hb [Hp Hh]%andb_true_iff. unfold Serialize. apply negb_true_iff in Hp. rewrite Hp. cbv zeta. cbn [options method].
  rewrite <- pieces_text. pose proof (append_all_ok (pieces (hostHeaderValue (options state)) req) (Writer bufLen []) Hb) as HA. cbn [cap_ written_ app] in HA.
  unfold pieces in HA at 1. rewrite append_all_app in HA. destruct (append_all [_; _; _; _; _; _] (Writer bufLen [])) as [w1|] eqn:E1.
  2:{ by destruct (_ <=? bufLen). }
  set (mid := match (if negb (bool_decide (body req = [])) || body_bearing (method req) then to_chars_uint (Z.of_nat (length (body req))) else []) with [] => Some w1 | _ => _ end).
  assert (Hmid : mid = append_all (match content_length req with [] => [] | (_, n) :: _ => [lit "Content-Length: "; n; crlf] end) w1).
  { unfold mid, content_length. destruct (_ || _); [|done]. pose proof (to_chars_nonempty (Z.of_nat (length (body req)))) as Hn. by destruct (to_chars_uint _). }
  clearbody mid. subst mid. rewrite append_all_app in HA. destruct (append_all (match content_length req with [] => _ | _ => _ end) w1) as [w2|] eqn:E2.
  2:{ by destruct (_ <=? bufLen). }
  assert (Hw2 : Z.of_nat (length (written_ w2)) <= cap_ w2).
  { refine (append_all_fits _ _ _ (append_all_fits _ (Writer bufLen []) _ _ E1) E2). exact Hb. }
  rewrite header_loop_clean by done. rewrite append_all_app in HA. destruct (append_all [header_text (headers req)] w2) as [w3|].
  2:{ by destruct (_ <=? bufLen). }
  rewrite HA. by destruct (_ <=? bufLen).
Qed.

Lemma Serialize_bad req bufLen state out : injection_free req = false -> (Serialize req bufLen state).1 <> SER_OK out.
Proof.
  unfold injection_free, Serialize. destruct (HasInjectionBytes (path req)); [done|]. cbn [negb andb]. intros Hh. cbv zeta.
  match goal with |- context [match ?w with Some w => header_loop (headers req) w | None => Some None end] => destruct w as [w1|]; [|done] end.
  by destruct (header_loop_bad (headers req) w1 Hh) as [-> | ->].
Qed.

Lemma HasInjectionBytes_clean s : HasInjectionBytes s = false -> Response.clean s.
Proof.
  unfold HasInjectionBytes, Response.clean. induction s as [|c s IH]; cbn; [done|]. rewrite !orb_false_iff, !Z.eqb_neq. intros (((? & ?) & ?) & ?). constructor; [done|by apply IH].
Qed.

Lemma lines_clean host req : Response.clean host -> Z.of_nat (length (body req)) < 2 ^ 64 -> injection_free req = true ->
  Forall (fun l => Response.clean l /\ l <> []) (request_lines host req).
Proof.
  intros Hh Hlen [Hp Hhs]%andb_true_iff. apply negb_true_iff, HasInjectionBytes_clean in Hp. unfold request_lines. constructor.
  - unfold request_line. rewrite !Response.clean_app. split; [|by destruct (method req)]. split; [destruct (method req); by apply Response.cleanb_clean|].
    split; [by apply Response.cleanb_clean|]. split; [done|by apply Response.cleanb_clean].
  - assert (Hl : forall n v, Response.clean n -> Response.clean v -> Response.clean (Response.header_line (n, v)) /\ Response.header_line (n, v) <> []).
    { intros n v H1 H2. unfold Response.header_line. rewrite !Response.clean_app. split; [split; [done|]; split; [by apply Response.cleanb_clean|done]|]. by destruct n. }
    apply Forall_fmap. constructor; [apply Hl; [by apply Response.cleanb_clean|done]|]. apply Forall_app. split.
    + unfold content_length. destruct (_ || _); [|constructor]. constructor; [|constructor]. apply Hl; [by apply Response.cleanb_clean|].
      apply Response.digits_clean. by apply to_chars_uint_spec; lia.
    + rewrite forallb_forall in Hhs. apply Forall_forall. intros [n v] Hin. apply list_elem_of_In, filter_In in Hin as [Hin _]. apply Hhs in Hin. cbn in Hin.
      apply negb_true_iff, orb_false_iff in Hin as [H1 H2]. by apply Hl; apply HasInjectionBytes_clean.
Qed.

(** C12: A request is one message.  What [Serialize] writes is read back, by a reader
    that splits lines at CRLF, as exactly the request line, the codec's [Host] and
    [Content-Length] and the caller's other headers, with the body after them: no path or header
    value can add a line or a second [Content-Length], and a request with a CR, LF or NUL
    is never written.  It succeeds exactly when the text fits, and then stays within the buffer.
    The [Host] of the configuration is taken to have no CR, LF or NUL. *)
Theorem request_is_one_message req bufLen state : 0 <= bufLen -> Response.clean (hostHeaderValue (options state)) -> Z.of_nat (length (body req)) < 2 ^ 64 ->
  (forall out, (Serialize req bufLen state).1 = SER_OK out ->
     Response.read_message out = Some (request_lines (hostHeaderValue (options state)) req, body req) /\ Z.of_nat (length out) <= bufLen /\ injection_free req = true) /\
  (injection_free req = true -> Z.of_nat (length (request_text (hostHeaderValue (options state)) req)) <= bufLen ->
     (Serialize req bufLen state).1 = SER_OK (request_text (hostHeaderValue (options state)) req)).
Proof.
  intros Hb Hh Hlen. split.
  - intros out Ho. destruct (injection_free req) eqn:Hi; [|by apply Serialize_bad in Ho]. rewrite Serialize_clean in Ho by done.
    destruct (Z.leb_spec (Z.of_nat (length (request_text (hostHeaderValue (options state)) req))) bufLen); [|done]. injection Ho as <-. split; [|done].
    unfold Response.read_message, request_text. apply Response.read_lines_clean; [by apply lines_clean|apply Response.length_crlf_lines].
  - intros Hi Hfit. rewrite Serialize_clean by done. by rewrite (proj2 (Z.leb_le _ _) Hfit).
Qed.

Definition w_request : HttpEndpointRequest := Request Constants.POST (lit "/u") (lit "hi") [(lit "A", lit "b"); (lit "content-LENGTH", lit "9")].

Lemma request_is_one_message_witness :
  (forall out, (Serialize w_request 64 w_state).1 = SER_OK out ->
     Response.read_message out = Some (request_lines (lit "h") w_request, lit "hi") /\ Z.of_nat (length out) <= 64 /\ injection_free w_request = true) /\
  (injection_free w_request = true -> Z.of_nat (length (request_text (lit "h") w_request)) <= 64 ->
     (Serialize w_request 64 w_state).1 = SER_OK (request_text (lit "h") w_request)).
Proof. apply (request_is_one_message w_request 64 w_state); [lia|by apply Response.cleanb_clean|cbn; lia]. Defined.

Example w_request_text : (Serialize w_request 64 w_state).1 =
  SER_OK (lit "POST /u HTTP/1.1" ++ crlf ++ lit "Host: h" ++ crlf ++ lit "Content-Length: 2" ++ crlf ++ lit "A: b" ++ crlf ++ crlf ++ lit "hi").
Proof. vm_compute. reflexivity. Qed.

(** ** Reading what a server writes *)

Lemma find_char_app_in c l r : c ∉ l -> find_char c (l ++ c :: r) = Some (length l).
Proof.
  intros H. rewrite find_char_skip by (by apply find_char_None). cbn [find_char]. rewrite Z.eqb_refl. cbn. f_equal. lia.
Qed.

Lemma ReadLine_crlf max l rest : LF ∉ l -> Z.of_nat (S (length l)) <= max -> ReadLine max (l ++ crlf ++ rest) [] = (GOT_LINE l rest, []).
Proof.
  intros Hl Hm. rewrite ReadLine_eq. change (l ++ crlf ++ rest) with (l ++ [CR] ++ LF :: rest). rewrite app_assoc, find_char_app_in.
  2:{ intros [?|Hc]%elem_of_app; [done|]. by apply list_elem_of_singleton in Hc. }
  rewrite length_app. cbn [length plus]. replace (length l + 1)%nat with (S (length l)) by lia. destruct (Z.ltb_spec max (Z.of_nat (S (length l)))); [lia|].
  assert (Hlen : length (l ++ [CR]) = S (length l)) by (rewrite length_app; cbn; lia).
  rewrite take_app_length' by done. rewrite drop_app_ge by lia. rewrite Hlen. replace (S (S (length l)) - S (length l))%nat with 1%nat by lia. cbn [drop app].
  unfold strip_cr. rewrite rev_app_distr. cbn [rev app]. rewrite Z.eqb_refl, rev_involutive. done.
Qed.

Lemma hex_digits_app s1 : forall s2 acc, hex_digits (s1 ++ s2) acc = match hex_digits s1 acc with Some v => hex_digits s2 v | None => None end.
Proof. induction s1 as [|c s1 IH]; intros s2 acc; cbn; [done|]. destruct (hex_val c); [apply IH|done]. Qed.

Lemma hex_digit_val d : 0 <= d < 16 -> hex_val (at_ Response.HEX_DIGITS (Z.to_nat d)) = Some d /\ at_ Response.HEX_DIGITS (Z.to_nat d) <> 59 /\ at_ Response.HEX_DIGITS (Z.to_nat d) <> LF.
Proof.
  intros Hd. assert (H : d = 0 \/ d = 1 \/ d = 2 \/ d = 3 \/ d = 4 \/ d = 5 \/ d = 6 \/ d = 7 \/ d = 8 \/ d = 9 \/ d = 10 \/ d = 11 \/ d = 12 \/ d = 13 \/ d = 14 \/ d = 15) by lia.
  repeat (destruct H as [->|H]; [by vm_compute|]). subst d. by vm_compute.
Qed.

Lemma hex_rev_reads f : forall n acc, 0 <= n < 16 ^ Z.of_nat f -> (0 < f)%nat -> 0 <= acc ->
  exists k, hex_digits (rev (ClientIO.hex_rev f n)) acc = Some (acc * 16 ^ Z.of_nat k + n).
Proof.
  induction f as [|f IH]; intros n acc Hn Hf Ha; [lia|]. cbn [ClientIO.hex_rev rev]. rewrite hex_digits_app. destruct (hex_digit_val (n mod 16)) as (Hv & _); [apply Z.mod_pos_bound; lia|].
  rewrite Nat2Z.inj_succ, Z.pow_succ_r in Hn by lia. pose proof (Z.div_mod n 16 ltac:(lia)) as HD. destruct (Z.eqb_spec (n / 16) 0) as [H0|H0].
  - exists 1%nat. cbn [rev hex_digits]. rewrite Hv. f_equal. cbn. lia.
  - destruct f as [|f]; [exfalso; apply H0, Z.div_small; cbn in Hn; lia|]. destruct (IH (n / 16) acc) as (k & E); [split; [apply Z.div_pos; lia|apply Z.div_lt_upper_bound; lia]|lia|done|].
    rewrite E. cbn [hex_digits]. rewrite Hv. exists (S k). f_equal. rewrite Nat2Z.inj_succ, Z.pow_succ_r by lia. lia.
Qed.

Lemma hex_rev_chars f : forall n c, 0 <= n -> c ∈ ClientIO.hex_rev f n -> c <> 59 /\ c <> LF.
Proof.
  induction f as [|f IH]; intros n c Hn; cbn [ClientIO.hex_rev]; [by intros ?%elem_of_nil|]. intros [->|Hc]%elem_of_cons.
  - by apply (hex_digit_val (n mod 16)), Z.mod_pos_bound.
  - destruct (n / 16 =? 0); [by apply elem_of_nil in Hc|]. apply (IH (n / 16)); [by apply Z.div_pos|done].
Qed.

(** A chunk's size line. *)
Lemma chunk_size_reads n : 0 <= n < 2 ^ 28 ->
  ParseChunkSizeLine (rev (ClientIO.hex_rev 16 n)) = Some n /\ LF ∉ rev (ClientIO.hex_rev 16 n) /\ (length (rev (ClientIO.hex_rev 16 n)) <= 7)%nat.
Proof.
  intros Hn. assert (Hc : forall c, c ∈ rev (ClientIO.hex_rev 16 n) -> c <> 59 /\ c <> LF).
  { intros c Hc. apply list_elem_of_In, in_rev, list_elem_of_In in Hc. by apply (hex_rev_chars 16 n); [lia|]. }
  split; [|split; [intros H; by destruct (Hc _ H)|rewrite length_rev; apply (ClientIO.hex_rev_length 16 7); [lia|change (16 ^ Z.of_nat 7) with (2 ^ 28); lia]]].
  unfold ParseChunkSizeLine. rewrite (proj2 (find_char_None 59 _)) by (intros H; by destruct (Hc _ H)).
  destruct (hex_rev_reads 16 n 0) as (k & E); [split; [lia|]; etransitivity; [apply Hn|by vm_compute]|lia|lia|]. unfold whole_hex.
  destruct (rev (ClientIO.hex_rev 16 n)) as [|c s] eqn:Er; [by apply (f_equal (@rev Z)) in Er; rewrite rev_involutive in Er|]. rewrite E. rewrite Z.mul_0_l, Z.add_0_l.
  destruct (Z.ltb_spec n (2 ^ 64)); [done|lia].
Qed.

Lemma status_digits_read c : 100 <= c < 1000 -> whole_uint 16 (Response.status_digits c) = Some c /\ length (Response.status_digits c) = 3%nat /\ LF ∉ Response.status_digits c.
Proof.
  intros Hc. unfold Response.status_digits. assert (Hd : forall d, 0 <= d < 10 -> u8 (48 + d) = 48 + d) by (intros; apply (wrap_small 8); lia).
  rewrite !Hd by (Z.to_euclidean_division_equations; lia). split; [|split; [done|]].
  - unfold whole_uint. rewrite from_chars_uint_all; [|done|repeat (apply Forall_cons; split; [unfold is_digit; Z.to_euclidean_division_equations; lia|]); constructor].
    unfold dec_value. cbn [fold_left]. match goal with |- context [if ?x <? _ then _ else _] => assert (x = c) as -> by (Z.to_euclidean_division_equations; lia) end.
    destruct (Z.ltb_spec c (2 ^ 16)); [done|lia].
  - intros H. repeat (apply elem_of_cons in H as [H|H]; [Z.to_euclidean_division_equations; lia|]). by apply elem_of_nil in H.
Qed.

Lemma status_line_read v c res st : 100 <= c < 1000 ->
  ParseStatusLine (Response.status_line v c) res st = Some (Resp c (res_body res) (res_headers res), set_httpMinor0 (negb (bool_decide (v = Constants.HTTP_1_1))) st) /\ LF ∉ Response.status_line v c.
Proof.
  intros Hc. destruct (status_digits_read c Hc) as (H1 & H2 & H3). unfold Response.status_line. split.
  - unfold ParseStatusLine. destruct (Response.status_digits c) as [|d1 [|d2 [|d3 [|]]]] eqn:E; try done. destruct (bool_decide _); cbn -[whole_uint]; by rewrite H1.
  - intros H. apply elem_of_app in H as [H|H]; [by vm_compute in H; repeat (apply elem_of_cons in H as [H|H]; [done|]); apply elem_of_nil in H|].
    apply elem_of_app in H as [H|H]; [by destruct (bool_decide _); vm_compute in H; repeat (apply elem_of_cons in H as [H|H]; [done|]); apply elem_of_nil in H|].
    apply elem_of_app in H as [H|H]; [done|]. by vm_compute in H; repeat (apply elem_of_cons in H as [H|H]; [done|]); apply elem_of_nil in H.
Qed.

Definition full (h c : Z) (st : ParseState) : ParseState := set_headerCount c (framed h [] st).

Lemma frame_header_full lim h c name value st : frame_header lim name value (full h c st) = full h c <$> frame_header lim name value st.
Proof. unfold frame_header. destruct st; cbn. by repeat case_goal. Qed.

(** The framing a list of headers states. *)
Fixpoint frame_all (lim : HttpEndpointLimits) (hs : HttpHeaderList) (st : ParseState) : option ParseState :=
  match hs with
  | [] => Some st
  | (n, v) :: hs => match frame_header lim n v st with Some st => frame_all lim hs st | None => None end
  end.

(** A header line that is read back as the name and value it was made of. *)
Definition header_ok (h : bytes * bytes) : Prop := split_header (Response.header_line h) = Some h /\ LF ∉ Response.header_line h.

(** What a header needs to be read back: a name without a colon or blanks at its ends, and
    a value without blanks at its ends, on one line. *)
Lemma header_ok_plain n v : n <> [] -> COLON ∉ n -> is_blank (at_ n 0) = false -> is_blank (at_ n (length n - 1)) = false -> trim_by is_blank v = v ->
  LF ∉ n -> LF ∉ v -> header_ok (n, v).
Proof.
  intros Hne Hc H0 Hl Ht Hn Hv. split.
  - unfold split_header, Response.header_line. cbn [fst snd].
    assert (E0 : at_ (n ++ lit ": " ++ v) 0 = at_ n 0) by (by destruct n). rewrite E0, H0. change (lit ": " ++ v) with (COLON :: SPACE :: v).
    rewrite find_char_app_in by done. rewrite take_app_length. rewrite bool_decide_false by done. rewrite Hl. cbn [orb].
    assert (E1 : drop (S (length n)) (n ++ COLON :: SPACE :: v) = SPACE :: v).
    { clear. induction n as [|x n IH]; [done|]. exact IH. }
    rewrite E1. change (trim_by is_blank (SPACE :: v)) with (trim_by is_blank v). by rewrite Ht.
  - unfold Response.header_line. cbn [fst snd]. intros [H|H]%elem_of_app; [done|]. apply elem_of_app in H as [H|H]; [|done].
    vm_compute in H. repeat (apply elem_of_cons in H as [H|H]; [discriminate H|]). by apply elem_of_nil in H.
Qed.

(** *** What a list of headers announces

    Read off the names and values themselves, with none of the client's functions. *)

Definition lower (c : Z) : Z := if (65 <=? c) && (c <=? 90) then c + 32 else c.
Definition folds_to (s t : bytes) : Prop := map lower s = t.

(** How a body is carried. *)
Inductive framing := Unframed | Sized (n : Z) | Chunked.

Definition decimal (n : Z) (s : bytes) : Prop := s <> [] /\ Forall (fun c => 48 <= c <= 57) s /\ fold_left (fun v c => v * 10 + (c - 48)) s 0 = n.

(** A header does not contradict a framing; a list of headers states one. *)
Definition consistent (f : framing) (h : bytes * bytes) : Prop :=
  (folds_to h.1 (lit "content-length") -> exists n, f = Sized n /\ decimal n h.2) /\
  (folds_to h.1 (lit "transfer-encoding") -> f = Chunked /\ folds_to h.2 (lit "chunked")).

Definition announces (hs : HttpHeaderList) (f : framing) : Prop :=
  Forall (consistent f) hs /\
  match f with
  | Unframed => True
  | Sized _ => Exists (fun h => folds_to h.1 (lit "content-length")) hs
  | Chunked => Exists (fun h => folds_to h.1 (lit "transfer-encoding")) hs
  end.

(** A comma-separated value with an element "close". *)
Definition blank (c : Z) : Prop := c = SPACE \/ c = TAB.
Definition lists_close (value : bytes) : Prop := exists a l tok r b,
  value = a ++ l ++ tok ++ r ++ b /\ Forall blank l /\ Forall blank r /\ folds_to tok (lit "close") /\
  (a = [] \/ last a = Some COMMA) /\ (b = [] \/ head b = Some COMMA).

Definition says_close (h : bytes * bytes) : Prop := folds_to h.1 (lit "connection") /\ lists_close h.2.
Definition closes (v : Constants.HttpVersion) (hs : HttpHeaderList) : Prop := v <> Constants.HTTP_1_1 \/ Exists says_close hs.

(** A header that fits on its line: a name without a colon or a line feed, a value
    without a line feed, and no blank at an end of either. *)
Definition unpadded (s : bytes) : Prop := forall c, head s = Some c \/ last s = Some c -> ~ blank c.
Definition plain_header (h : bytes * bytes) : Prop :=
  h.1 <> [] /\ COLON ∉ h.1 /\ LF ∉ h.1 /\ LF ∉ h.2 /\ unpadded h.1 /\ unpadded h.2 /\ Forall is_byte h.1 /\ Forall is_byte h.2.

Lemma is_blank_spec c : is_blank c = true <-> blank c.
Proof. unfold is_blank, blank. rewrite orb_true_iff, !Z.eqb_eq. done. Qed.
Lemma is_blank_false c : is_blank c = false <-> ~ blank c.
Proof. rewrite <- is_blank_spec. by destruct (is_blank c). Qed.

Lemma ToLowerAscii_lower c : is_byte c -> ToLowerAscii c = lower c.
Proof. intros H. apply Z.eqb_eq. revert c H. apply (forall_bytes (fun c => ToLowerAscii c =? lower c)). by vm_compute. Qed.

Lemma same_lower_spec a : forall b, length a = length b -> same_lower a b = true <-> map ToLowerAscii a = map ToLowerAscii b.
Proof.
  induction a as [|x a IH]; intros [|y b] Hl; simplify_eq/=; [done|]. rewrite andb_true_iff, Z.eqb_eq, IH by done. split; [intros [-> ->]; done|by intros [= -> ->]].
Qed.

Lemma InsensitiveEqual_folds s t : Forall is_byte s -> map ToLowerAscii t = t -> InsensitiveEqual s t = true <-> folds_to s t.
Proof.
  intros Hs Ht. assert (Es : map ToLowerAscii s = map lower s) by (apply map_ext_in; intros c Hc%list_elem_of_In; apply ToLowerAscii_lower; by rewrite Forall_forall in Hs; apply Hs).
  unfold InsensitiveEqual, folds_to. destruct (Nat.eqb_spec (length s) (length t)) as [Hl|Hl]; cbn [negb].
  - by rewrite same_lower_spec, Es, Ht.
  - split; [done|]. intros E. by apply (f_equal length) in E; rewrite length_map in E.
Qed.

Lemma decimal_read n s : decimal n s -> 0 <= n < 2 ^ 64 -> whole_uint 64 s = Some n.
Proof.
  intros (Hne & Hd & Hv) Hn. unfold whole_uint. rewrite from_chars_uint_all; [|done|by eapply Forall_impl; [exact Hd|]; intros c Hc; apply is_digit_spec].
  change (dec_value s) with (fold_left (fun v c => v * 10 + (c - 48)) s 0). rewrite Hv. destruct (Z.ltb_spec n (2 ^ 64)); [done|lia].
Qed.

Lemma folds_lookup s t i : folds_to s t -> lower <$> s !! i = t !! i.
Proof. intros <-. symmetry. apply (list_lookup_fmap lower). Qed.

Lemma wants_close_spec value : Forall is_byte value -> wants_close value = true <-> lists_close value.
Proof.
  intros Hb. unfold wants_close. rewrite existsb_exists. setoid_rewrite <- list_elem_of_In. split.
  - intros (t & Ht & E). apply split_on_elem in Ht as (_ & a & b & -> & Ha & Hb'). destruct (trim_by_parts is_blank t) as (l & r & Et & Hl & Hr).
    exists a, l, (trim_by is_blank t), r, b. split; [by rewrite Et at 1; rewrite <- !app_assoc|].
    split; [by eapply Forall_impl; [exact Hl|]; intros c Hc; apply is_blank_spec|]. split; [by eapply Forall_impl; [exact Hr|]; intros c Hc; apply is_blank_spec|]. split; [|done].
    apply InsensitiveEqual_folds in E; [done| |done]. rewrite !Forall_app, Et, !Forall_app in Hb. tauto.
  - intros (a & l & tok & r & b & -> & Hl & Hr & E & Ha & Hb'). exists (l ++ tok ++ r). assert (Hc : forall c, c ∈ tok -> ~ blank c /\ c <> COMMA).
    { intros c (i & Hi)%list_elem_of_lookup. pose proof (folds_lookup _ _ i E) as Hk. rewrite Hi in Hk. cbn in Hk. symmetry in Hk. apply list_elem_of_lookup_2 in Hk.
      unfold blank. split; [intros [->| ->]|intros ->]; vm_compute in Hk; repeat (apply elem_of_cons in Hk as [Hk|Hk]; [discriminate Hk|]); by apply elem_of_nil in Hk. }
    assert (Hcl : forall s, Forall blank s -> COMMA ∉ s) by (intros s Hs Hin; rewrite Forall_forall in Hs; by destruct (Hs _ Hin)). split.
    + apply split_on_elem. split; [rewrite !not_elem_of_app; split; [by apply Hcl|]; split; [intros Hin; by destruct (Hc _ Hin)|by apply Hcl]|]. exists a, b. by rewrite <- !app_assoc.
    + rewrite trim_by_around.
      * apply InsensitiveEqual_folds; [rewrite !Forall_app in Hb; tauto|done|done].
      * by eapply Forall_impl; [exact Hl|]; intros c H; apply is_blank_spec.
      * by eapply Forall_impl; [exact Hr|]; intros c H; apply is_blank_spec.
      * intros c H. apply is_blank_false, Hc. destruct H as [H|H]; [by apply head_Some_elem_of in H|by apply last_Some_elem_of in H].
Qed.

Lemma plain_header_ok h : plain_header h -> header_ok h.
Proof.
  destruct h as [n v]. intros (Hne & Hcol & Hn & Hv & Hpn & Hpv & _ & _). cbn [fst snd] in *. apply header_ok_plain; try done.
  - apply is_blank_false, Hpn. left. by destruct n.
  - apply is_blank_false, Hpn. right. unfold at_. destruct n as [|x n]; [done|]. rewrite last_lookup. replace (length (x :: n) - 1)%nat with (pred (length (x :: n))) by lia.
    destruct ((x :: n) !! pred (length (x :: n))) eqn:E; [done|]. apply lookup_ge_None in E. cbn in E. lia.
  - rewrite <- (app_nil_r v) at 1. change (v ++ []) with ([] ++ v ++ []). apply trim_by_around; [constructor|constructor|]. intros c Hc. by apply is_blank_false, Hpv.
Qed.

(** The state of the client agrees with a framing. *)
Definition fits (f : framing) (st : ParseState) : Prop := (chunked st = true -> f = Chunked) /\ (hasContentLength st = true -> f = Sized (bodyRemaining st)).

(** What reading headers adds to the state. *)
Definition learns (hs : HttpHeaderList) (st st' : ParseState) : Prop :=
  httpMinor0 st' = httpMinor0 st /\
  (hasContentLength st' = true <-> hasContentLength st = true \/ Exists (fun h => folds_to h.1 (lit "content-length")) hs) /\
  (chunked st' = true <-> chunked st = true \/ Exists (fun h => folds_to h.1 (lit "transfer-encoding")) hs) /\
  (closeAfter st' = true <-> closeAfter st = true \/ Exists says_close hs).

Lemma frame_header_learns lim f h st : consistent f h -> Forall is_byte h.1 -> Forall is_byte h.2 ->
  (forall n, f = Sized n -> 0 <= n <= maxBodyBytes lim) -> maxBodyBytes lim < 2 ^ 32 -> fits f st ->
  exists st', frame_header lim h.1 h.2 st = Some st' /\ fits f st' /\ learns [h] st st'.
Proof.
  intros [Hcl Hte] B1 B2 Hn Hm [F1 F2]. unfold frame_header, learns, says_close. setoid_rewrite Exists_cons. setoid_rewrite Exists_nil.
  pose proof (InsensitiveEqual_folds h.1 (lit "content-length") B1 eq_refl) as E1. pose proof (InsensitiveEqual_folds h.1 (lit "transfer-encoding") B1 eq_refl) as E2.
  pose proof (InsensitiveEqual_folds h.1 (lit "connection") B1 eq_refl) as E3.
  assert (Hd : forall t u, bool_decide (t = u) = false -> folds_to h.1 t -> ~ folds_to h.1 u) by (unfold folds_to; intros t u Htu%bool_decide_eq_false <- Hu; done).
  destruct (InsensitiveEqual h.1 (lit "content-length")).
  - assert (Hc : folds_to h.1 (lit "content-length")) by by apply E1. destruct (Hcl Hc) as (n & -> & Hdec). specialize (Hn n eq_refl).
    pose proof (Hd (lit "content-length") (lit "transfer-encoding") eq_refl Hc). pose proof (Hd (lit "content-length") (lit "connection") eq_refl Hc).
    destruct (chunked st) eqn:Ec; [by discriminate (F1 eq_refl)|]. rewrite (decimal_read n) by (try done; lia). destruct (Z.ltb_spec (maxBodyBytes lim) n); [lia|].
    replace (hasContentLength st && negb (bodyRemaining st =? n)) with false.
    2:{ destruct (hasContentLength st); [|done]. injection (F2 eq_refl) as <-. by rewrite Z.eqb_refl. }
    eexists. split; [reflexivity|]. split; [split; [cbn; by rewrite Ec|done]|]. cbn. rewrite Ec. split; [done|]. split; [tauto|]. split; [tauto|tauto].
  - assert (Hc : ~ folds_to h.1 (lit "content-length")) by (rewrite <- E1; done). destruct (InsensitiveEqual h.1 (lit "transfer-encoding")).
    + assert (Ht : folds_to h.1 (lit "transfer-encoding")) by by apply E2. destruct (Hte Ht) as [-> Hv]. pose proof (Hd (lit "transfer-encoding") (lit "connection") eq_refl Ht).
      destruct (hasContentLength st) eqn:Eh; [by discriminate (F2 eq_refl)|]. rewrite (proj2 (InsensitiveEqual_folds h.2 (lit "chunked") B2 eq_refl) Hv). cbn [negb].
      eexists. split; [reflexivity|]. split; [split; [done|cbn; by rewrite Eh]|]. cbn. rewrite Eh. split; [done|]. split; [tauto|]. split; tauto.
    + assert (Ht : ~ folds_to h.1 (lit "transfer-encoding")) by (rewrite <- E2; done). destruct (InsensitiveEqual h.1 (lit "connection")).
      * assert (Hk : folds_to h.1 (lit "connection")) by by apply E3. pose proof (wants_close_spec h.2 B2) as Hw. eexists. split; [reflexivity|].
        destruct (wants_close h.2); (split; [done|]); cbn; (split; [done|]); (split; [tauto|]); (split; [tauto|]); [tauto|].
        assert (~ lists_close h.2) by (rewrite <- Hw; done). tauto.
      * assert (Hk : ~ folds_to h.1 (lit "connection")) by (rewrite <- E3; done). exists st. split; [done|]. split; [done|]. tauto.
Qed.

Lemma frame_all_learns lim f hs : Forall (consistent f) hs -> Forall plain_header hs -> (forall n, f = Sized n -> 0 <= n <= maxBodyBytes lim) -> maxBodyBytes lim < 2 ^ 32 ->
  forall st, fits f st -> exists st', frame_all lim hs st = Some st' /\ fits f st' /\ learns hs st st'.
Proof.
  intros Hc Hp Hn Hm. induction hs as [|h hs IH]; intros st Hf.
  - exists st. split; [done|]. split; [done|]. unfold learns. setoid_rewrite Exists_nil. tauto.
  - apply Forall_cons in Hc as [Hc1 Hc]. apply Forall_cons in Hp as [Hp1 Hp]. destruct Hp1 as (_ & _ & _ & _ & _ & _ & B1 & B2).
    destruct (frame_header_learns lim f h st Hc1 B1 B2 Hn Hm Hf) as (st1 & E1 & F1 & L1). destruct (IH Hc Hp st1 F1) as (st' & E' & F' & L'). exists st'.
    destruct h as [n v]. cbn [frame_all]. cbn [fst snd] in E1. rewrite E1. split; [done|]. split; [done|]. unfold learns in *. setoid_rewrite Exists_cons. setoid_rewrite Exists_cons in L1. setoid_rewrite Exists_nil in L1.
    destruct L1 as (A1 & A2 & A3 & A4), L' as (D1 & D2 & D3 & D4). split; [congruence|]. rewrite D2, D3, D4, A2, A3, A4. tauto.
Qed.

Lemma frame_header_phase lim name value st st' : frame_header lim name value st = Some st' -> phase st' = phase st.
Proof. unfold frame_header. repeat (case_goal; try done); by intros [= <-]. Qed.

Section reading.
Context (last : HttpMethod) (lim : HttpEndpointLimits) (eof : bool).
Context (Hmax : 0 <= maxHeaderBytes lim < 2 ^ 31).

Abbreviation run := (run last lim eof).

(** A line of the head. *)
Lemma head_turn l rest h c st res : in_head (phase st) = true -> LF ∉ l -> 0 <= h -> h + Z.of_nat (length l) + 2 <= maxHeaderBytes lim ->
  parse_turn last lim eof (l ++ crlf ++ rest) (full h c st) res = on_line last lim l rest (full (h + Z.of_nat (length l) + 2) c st) res.
Proof.
  intros Hp Hl Hh Hm. rewrite parse_turn_line by (change (phase (full h c st)) with (phase st); by destruct (phase st)). unfold line_turn.
  change (lineAcc (full h c st)) with (@nil Z). rewrite ReadLine_crlf by (try done; lia). rewrite !length_app. change (length crlf) with 2%nat.
  replace (Z.of_nat (length l + (2 + length rest) - length rest)) with (Z.of_nat (length l) + 2) by lia.
  assert (E : count_line (Z.of_nat (length l) + 2) (set_lineAcc [] (full h c st)) = full (h + Z.of_nat (length l) + 2) c st).
  { assert (Hc : u32 (h + (Z.of_nat (length l) + 2)) = h + Z.of_nat (length l) + 2) by (rewrite wrap_small by lia; lia).
    unfold count_line. change (phase (set_lineAcc [] (full h c st))) with (phase st). change (headerBytes (set_lineAcc [] (full h c st))) with h. rewrite Hc. by destruct (phase st). }
  rewrite E. change (headerBytes (full (h + Z.of_nat (length l) + 2) c st)) with (h + Z.of_nat (length l) + 2).
  destruct (Z.ltb_spec (maxHeaderBytes lim) (h + Z.of_nat (length l) + 2)); [lia|]. by rewrite andb_false_r.
Qed.

Lemma run_headers hs : forall rest h c st st1 res, phase st = HEADERS -> Forall header_ok hs -> frame_all lim hs st = Some st1 ->
  0 <= h -> h + Z.of_nat (length (Response.render_lines hs)) <= maxHeaderBytes lim -> 0 <= c -> c + Z.of_nat (length hs) <= maxHeaderCount lim < 2 ^ 16 ->
  run (Response.render_lines hs ++ rest) (full h c st) res =
  run rest (full (h + Z.of_nat (length (Response.render_lines hs))) (c + Z.of_nat (length hs)) st1) (Resp (status res) (res_body res) (res_headers res ++ hs)) /\ phase st1 = HEADERS.
Proof.
  induction hs as [|[n v] hs IH]; intros rest h c st st1 res Hp Hok Hf Hh Hm Hc Hmc.
  - injection Hf as <-. cbn. rewrite !Z.add_0_r, app_nil_r. by destruct res.
  - apply Forall_cons in Hok as [[Ho1 Ho2] Hok]. cbn [frame_all] in Hf. destruct (frame_header lim n v st) as [st0|] eqn:Ef; [|done].
    change (Response.render_lines ((n, v) :: hs)) with ((Response.header_line (n, v) ++ crlf) ++ Response.render_lines hs) in *. set (l := Response.header_line (n, v)) in *.
    rewrite !length_app in Hm. change (length crlf) with 2%nat in Hm. cbn [length] in Hmc. rewrite <- !app_assoc, run_turn, head_turn; [|by rewrite Hp|done|done|lia].
    unfold on_line. change (phase (full (h + Z.of_nat (length l) + 2) c st)) with (phase st). rewrite Hp. assert (Hne : l <> []) by (unfold l, Response.header_line; by destruct n).
    assert (Hl : forall (A : Type) (x y : A), (match l with [] => x | _ => y end) = y) by (intros; by destruct l). rewrite Hl.
    unfold ParseHeaderLine. rewrite Ho1, frame_header_full, Ef. cbn [fmap option_fmap option_map]. unfold count_header.
    change (headerCount (full (h + Z.of_nat (length l) + 2) c st0)) with c. rewrite wrap_small by lia.
    change (headerCount (set_headerCount (c + 1) (full (h + Z.of_nat (length l) + 2) c st0))) with (c + 1). destruct (Z.ltb_spec (maxHeaderCount lim) (c + 1)); [lia|].
    change (set_lineAcc [] (set_headerCount (c + 1) (full (h + Z.of_nat (length l) + 2) c st0))) with (full (h + Z.of_nat (length l) + 2) (c + 1) st0).
    destruct (IH rest (h + Z.of_nat (length l) + 2) (c + 1) st0 st1 (Resp (status res) (res_body res) (Add n v (res_headers res)))) as [-> Hp1];
      [by rewrite (frame_header_phase _ _ _ _ _ Ef)|done|done|lia|lia|lia|lia|]. split; [|done].
    rewrite !length_app. change (length crlf) with 2%nat. unfold Add. cbn [status res_body res_headers length]. rewrite <- app_assoc.
    replace (h + Z.of_nat (length l + (2 + length (Response.render_lines hs)))) with (h + Z.of_nat (length l) + 2 + Z.of_nat (length (Response.render_lines hs))) by lia.
    by replace (c + Z.of_nat (S (length hs))) with (c + 1 + Z.of_nat (length hs)) by lia.
Qed.

(** The state after the status line. *)
Definition after_status (v : Constants.HttpVersion) : ParseState := set_phase HEADERS (set_httpMinor0 (negb (bool_decide (v = Constants.HTTP_1_1))) new_parse_state).

Lemma run_head v c hs st1 rest : 200 <= c < 1000 -> Forall header_ok hs -> frame_all lim hs (after_status v) = Some st1 ->
  Z.of_nat (length (Response.head v c hs)) + 2 <= maxHeaderBytes lim -> Z.of_nat (length hs) <= maxHeaderCount lim < 2 ^ 16 ->
  exists h k, run (Response.message v c hs rest) new_parse_state new_response =
    match end_of_headers last lim (Resp c [] hs) (full h k st1) with
    | HeadOver st => run rest (set_lineAcc [] st) (Resp c [] hs)
    | HeadDone => Some (Reply (done_ st1) rest (full h k st1) (Resp c [] hs))
    | HeadError => Some (Reply PARSE_ERROR rest (full h k st1) (Resp c [] hs))
    end /\ phase st1 = HEADERS.
Proof.
  intros Hc Hok Hf Hm Hmc. destruct (status_line_read v c new_response (full 15 0 new_parse_state)) as [HS HL]; [lia|].
  unfold Response.message. unfold Response.head in Hm. rewrite !length_app, Response.length_status_line in Hm. change (length Response.CRLF) with 2%nat in Hm. change Response.CRLF with crlf.
  rewrite run_turn. change new_parse_state with (full 0 0 new_parse_state) at 1. rewrite head_turn; [|done|done|lia|rewrite Response.length_status_line; lia].
  rewrite Response.length_status_line. change (0 + Z.of_nat 13 + 2) with 15. unfold on_line. change (phase (full 15 0 new_parse_state)) with STATUS_LINE. cbv iota.
  rewrite HS. cbn [res_body res_headers status new_response]. 
  assert (E0 : set_lineAcc [] (set_phase HEADERS (set_headerCount 0 (set_httpMinor0 (negb (bool_decide (v = Constants.HTTP_1_1))) (full 15 0 new_parse_state)))) = full 15 0 (after_status v)) by done. rewrite E0.
  destruct (run_headers hs (crlf ++ rest) 15 0 (after_status v) st1 (Resp c [] []) eq_refl Hok Hf) as [-> Hp]; [lia|lia|lia|lia|]. cbn [status res_body res_headers app].
  exists (15 + Z.of_nat (length (Response.render_lines hs)) + Z.of_nat (length (@nil Z)) + 2), (0 + Z.of_nat (length hs)). split; [|exact Hp]. rewrite run_turn. pose proof (head_turn [] rest (15 + Z.of_nat (length (Response.render_lines hs))) (0 + Z.of_nat (length hs)) st1 (Resp c [] hs)) as HT.
  cbn [app] in HT. rewrite HT; [|by rewrite Hp|by intros ?%elem_of_nil|lia|cbn [length]; lia]. cbn [app]. unfold on_line. change (phase (full (15 + Z.of_nat (length (Response.render_lines hs)) + Z.of_nat (length (@nil Z)) + 2) (0 + Z.of_nat (length hs)) st1)) with (phase st1). rewrite Hp.
  destruct (end_of_headers _ _ _ _) eqn:E; [done|done|]. exfalso. unfold end_of_headers in E. cbn [status] in E. destruct (Z.leb_spec 100 c), (Z.ltb_spec c 200); try lia; cbn in E; by repeat case_hyp E.
Qed.

(** A size line, a chunk's data and its line end. *)
Lemma run_chunk data rest st res : phase st = BODY_CHUNK_SIZE -> lineAcc st = [] -> data <> [] -> Z.of_nat (length data) < 2 ^ 28 -> 8 <= maxHeaderBytes lim ->
  Z.of_nat (length (res_body res) + length data) <= maxBodyBytes lim < 2 ^ 32 ->
  exists st', run (ClientIO.frame true data ++ rest) st res = run rest st' (append_body data res) /\
    phase st' = BODY_CHUNK_SIZE /\ lineAcc st' = [] /\ done_ st' = done_ st.
Proof.
  intros Hp Ha Hne Hn Hmh Hmb. destruct (chunk_size_reads (Z.of_nat (length data))) as (HC1 & HC2 & HC3); [lia|].
  assert (Hfr : ClientIO.frame true data = rev (ClientIO.hex_rev 16 (Z.of_nat (length data))) ++ crlf ++ data ++ crlf).
  { unfold ClientIO.frame, ClientIO.chunk_header. destruct data; [done|]. by rewrite <- app_assoc. }
  rewrite Hfr, <- !app_assoc. set (size := rev _) in *. rewrite run_turn, parse_turn_line by (by rewrite Hp). unfold line_turn. rewrite Ha, ReadLine_crlf by (try done; lia).
  set (st0 := count_line _ (set_lineAcc [] st)). assert (Hst0 : st0 = set_lineAcc [] st) by (unfold st0, count_line; change (phase (set_lineAcc [] st)) with (phase st); by rewrite Hp).
  clearbody st0. subst st0. change (phase (set_lineAcc [] st)) with (phase st). rewrite Hp. cbn [in_head andb]. unfold on_line. change (phase (set_lineAcc [] st)) with (phase st). rewrite Hp, HC1.
  assert (Hd : (0 < length data)%nat) by (destruct data; [done|cbn; lia]). destruct (Z.eqb_spec (Z.of_nat (length data)) 0); [lia|].
  rewrite wrap_small by lia. destruct (Z.ltb_spec (maxBodyBytes lim - Z.of_nat (length (res_body res))) (Z.of_nat (length data))); [lia|].
  rewrite run_turn. unfold parse_turn. cbn [phase set_phase set_lineAcc]. unfold counted_turn. cbv zeta. cbn [bodyRemaining set_bodyRemaining set_phase set_lineAcc phase].
  rewrite length_app, Z.min_l by lia. destruct (Z.ltb_spec (maxBodyBytes lim) (Z.of_nat (length (res_body res)) + Z.of_nat (length data))); [lia|].
  rewrite Z.sub_diag, Nat2Z.id. cbn [Z.eqb]. rewrite bool_decide_true by done. rewrite take_app_length, drop_app_length.
  set (st2 := set_phase BODY_CHUNK_LINE_END _). rewrite run_turn, parse_turn_line by done. unfold line_turn. change (lineAcc st2) with (@nil Z).
  pose proof (ReadLine_crlf (maxHeaderBytes lim) [] rest) as HR. cbn [app] in HR. rewrite HR by (try (by intros ?%elem_of_nil); cbn; lia).
  eexists. split; [reflexivity|]. done.
Qed.

Lemma run_chunks chunks : forall tail st res, phase st = BODY_CHUNK_SIZE -> lineAcc st = [] ->
  Forall (fun d => d <> [] /\ Z.of_nat (length d) < 2 ^ 28) chunks -> 8 <= maxHeaderBytes lim -> Z.of_nat (length (res_body res) + length (concat chunks)) <= maxBodyBytes lim < 2 ^ 32 ->
  exists st', run (concat (map (ClientIO.frame true) chunks) ++ ClientIO.CHUNK_END ++ tail) st res = Some (Reply (done_ st) tail st' (append_body (concat chunks) res)).
Proof.
  induction chunks as [|d chunks IH]; intros tail st res Hp Ha Hok Hmh Hmb.
  - cbn [map concat app]. change (ClientIO.CHUNK_END ++ tail) with ([48] ++ crlf ++ crlf ++ tail).
    rewrite run_turn, parse_turn_line by (by rewrite Hp). unfold line_turn. rewrite Ha, ReadLine_crlf; [|by intros [?|?%elem_of_nil]%elem_of_cons|cbn; lia].
    set (st0 := count_line _ (set_lineAcc [] st)). assert (Hst0 : st0 = set_lineAcc [] st) by (unfold st0, count_line; change (phase (set_lineAcc [] st)) with (phase st); by rewrite Hp).
    clearbody st0. subst st0. change (phase (set_lineAcc [] st)) with (phase st). rewrite Hp. cbn [in_head andb]. unfold on_line. change (phase (set_lineAcc [] st)) with (phase st). rewrite Hp.
    change (ParseChunkSizeLine [48]) with (Some 0). cbv iota. cbn [Z.eqb]. set (st2 := set_lineAcc [] (set_phase BODY_CHUNK_TRAILER _)).
    rewrite run_turn, parse_turn_line by done. unfold line_turn. change (lineAcc st2) with (@nil Z).
    pose proof (ReadLine_crlf (maxHeaderBytes lim) [] tail) as HR. cbn [app] in HR. rewrite HR by (try (by intros ?%elem_of_nil); cbn; lia).
    eexists. unfold append_body. rewrite app_nil_r. by destruct res.
  - apply Forall_cons in Hok as [[H1 H2] Hok]. cbn [map concat] in *. rewrite length_app in Hmb. rewrite <- app_assoc.
    destruct (run_chunk d (concat (map (ClientIO.frame true) chunks) ++ ClientIO.CHUNK_END ++ tail) st res Hp Ha H1 H2 Hmh) as (st1 & -> & P1 & P2 & P3); [lia|].
    destruct (IH tail st1 (append_body d res) P1 P2 Hok Hmh) as (st' & ->); [cbn [res_body append_body]; rewrite length_app; lia|].
    exists st'. by rewrite P3, append_body_app.
Qed.

Lemma run_sized body tail st res : phase st = BODY_CONTENT_LENGTH -> bodyRemaining st = Z.of_nat (length body) ->
  Z.of_nat (length (res_body res) + length body) <= maxBodyBytes lim ->
  exists st', run (body ++ tail) st res = Some (Reply (done_ st) tail st' (append_body body res)).
Proof.
  intros Hp Hb Hm. rewrite run_turn. unfold parse_turn. rewrite Hp. unfold counted_turn. cbv zeta. rewrite Hb, length_app, Z.min_l by lia.
  destruct (Z.ltb_spec (maxBodyBytes lim) (Z.of_nat (length (res_body res)) + Z.of_nat (length body))); [lia|].
  rewrite Z.sub_diag, Nat2Z.id. cbn [Z.eqb bodyRemaining set_bodyRemaining phase]. rewrite bool_decide_false by (by rewrite Hp). rewrite take_app_length, drop_app_length. by eexists.
Qed.

End reading.

(** *** A response of the server's form *)

(** How a body is carried: not at all, by its length, or in chunks as the server frames them. *)
Definition no_body (last : HttpMethod) (c : Z) : bool := bool_decide (last = Constants.HEAD) || (c =? 204) || (c =? 304).

Inductive carries (last : HttpMethod) (c : Z) : framing -> bytes -> bytes -> Prop :=
| carries_none f : no_body last c = true -> carries last c f [] []
| carries_sized body : no_body last c = false -> carries last c (Sized (Z.of_nat (length body))) body body
| carries_chunks chunks : no_body last c = false -> Forall (fun d => d <> [] /\ Z.of_nat (length d) < 2 ^ 28) chunks ->
    carries last c Chunked (concat (map (ClientIO.frame true) chunks) ++ ClientIO.CHUNK_END) (concat chunks).

(** What the server makes of a generator is carried in chunks. *)
Lemma stream_chunks {G : Type} (next : G -> Z -> bytes * ClientIO.StreamAction * G) (rank : G -> nat) (HW : ClientIO.well_behaved next rank) cap fuel :
  forall g, 0 < cap < 2 ^ 28 -> (rank g < fuel)%nat ->
  exists chunks, ClientIO.stream_text next fuel cap true g = concat (map (ClientIO.frame true) chunks) ++ ClientIO.CHUNK_END /\
    Forall (fun d => d <> [] /\ Z.of_nat (length d) < 2 ^ 28) chunks.
Proof.
  induction fuel as [|f IH]; intros g Hc Hf; [lia|]. cbn [ClientIO.stream_text]. destruct (next g cap) as [[data a] g'] eqn:E.
  destruct (HW g cap data a g' (proj1 Hc) E) as [Hl Ha]. destruct a.
  2,3: destruct data as [|x data]; [by exists []|]; exists [x :: data]; cbn [map concat]; rewrite app_nil_r; (split; [done|]); constructor; [split; [done|lia]|constructor].
  destruct Ha as [Hne Hr]. destruct (IH g' Hc) as (chunks & E1 & E3); [lia|]. exists (data :: chunks). cbn [map concat]. rewrite E1, <- app_assoc.
  split; [done|]. constructor; [|done]. split; [done|lia].
Qed.

Lemma run_body last lim eof c hs f st text body tail h k :
  0 <= maxHeaderBytes lim < 2 ^ 31 -> 200 <= c < 1000 -> phase st = HEADERS -> carries last c f text body -> fits f st ->
  (hasContentLength st = true <-> exists n, f = Sized n) -> (chunked st = true <-> f = Chunked) ->
  8 <= maxHeaderBytes lim -> Z.of_nat (length body) <= maxBodyBytes lim < 2 ^ 32 ->
  exists st', match end_of_headers last lim (Resp c [] hs) (full h k st) with
    | HeadOver st => run last lim eof (text ++ tail) (set_lineAcc [] st) (Resp c [] hs)
    | HeadDone => Some (Reply (done_ st) (text ++ tail) (full h k st) (Resp c [] hs))
    | HeadError => Some (Reply PARSE_ERROR (text ++ tail) (full h k st) (Resp c [] hs))
    end = Some (Reply (done_ st) tail st' (Resp c body hs)).
Proof.
  intros Hmax Hc Hp HB [F1 F2] Hs Hk Hmh Hmb. unfold end_of_headers. cbv zeta. cbn [status].
  assert (Hi : (100 <=? c) && (c <? 200) = false) by (destruct (Z.leb_spec 100 c), (Z.ltb_spec c 200); try lia; done). rewrite Hi, orb_false_r.
  change (chunked (full h k st)) with (chunked st). change (hasContentLength (full h k st)) with (hasContentLength st). change (bodyRemaining (full h k st)) with (bodyRemaining st).
  fold (no_body last c). destruct HB as [f E|body E|chunks E Hch]; rewrite E.
  - by eexists.
  - assert (E2 : hasContentLength st = true) by (apply Hs; by eexists). injection (F2 E2) as E3. destruct (chunked st); [by discriminate (F1 eq_refl)|].
    rewrite E2, <- E3. destruct body as [|x body]; [by eexists|]. destruct (Z.eqb_spec (Z.of_nat (length (x :: body))) 0) as [?|_]; [done|].
    destruct (run_sized last lim eof (x :: body) tail (set_lineAcc [] (set_phase BODY_CONTENT_LENGTH (full h k st))) (Resp c [] hs)) as (st' & ->); [done|by symmetry|cbn [res_body length]; cbn [length] in Hmb; lia|]. by exists st'.
  - rewrite (proj2 Hk eq_refl), <- app_assoc.
    destruct (run_chunks last lim eof chunks tail (set_lineAcc [] (set_phase BODY_CHUNK_SIZE (full h k st))) (Resp c [] hs) eq_refl eq_refl Hch Hmh) as (st' & ->); [cbn [res_body length]; lia|]. by exists st'.
Qed.

(** The state after the headers of a response that announces [f]. *)
Lemma announced_state lim v hs f : Forall plain_header hs -> announces hs f -> (forall n, f = Sized n -> 0 <= n <= maxBodyBytes lim) -> maxBodyBytes lim < 2 ^ 32 ->
  exists st, frame_all lim hs (after_status v) = Some st /\ fits f st /\ (hasContentLength st = true <-> exists n, f = Sized n) /\ (chunked st = true <-> f = Chunked) /\
    (done_ st = COMPLETE_CLOSE /\ closes v hs \/ done_ st = COMPLETE_KEEP_ALIVE /\ ~ closes v hs).
Proof.
  intros Hp [Hc Hx] Hn Hm. destruct (frame_all_learns lim f hs Hc Hp Hn Hm (after_status v)) as (st & E & F & (L1 & L2 & L3 & L4)); [by split|].
  exists st. split; [done|]. split; [done|]. destruct F as [F1 F2]. cbn in L1, L2, L3, L4. split; [|split].
  - split; [intros H; by eexists; apply F2|]. intros [n ->]. apply L2. by right.
  - split; [done|]. intros ->. apply L3. by right.
  - unfold done_, closes. rewrite L1. destruct (bool_decide_reflect (v = Constants.HTTP_1_1)) as [->|Hv]; cbn [negb].
    + rewrite orb_false_r. destruct (closeAfter st); [left; split; [done|right]; by destruct (proj1 L4 eq_refl)|]. right. split; [done|]. intros [?|Hs]; [done|]. by discriminate (proj2 L4 (or_intror Hs)).
    + rewrite orb_true_r. left. split; [done|by left].
Qed.

(** C2: The client reads what the server sends.  A response of the server's form is read,
    however its bytes arrive in pieces, as its status, its headers in order and its body,
    and the bytes after it are left for the next response.  The form is a status line, header lines
    (no line feed, no colon in a name, no blank at an end of a name or a value), and a body carried as the headers announce it: with the
    length every [Content-Length] states in decimal, in chunks as the server frames them (none empty, each below 2 ^ 28 bytes)
    when every [Transfer-Encoding] is chunked, or no body where the status or the method
    has none.  The connection is then closed exactly when the version is not HTTP/1.1 or a
    [Connection] header lists "close" among its elements.  Names and values are matched
    whatever their case.  What the headers announce is stated on their bytes, apart from the
    client's own parser.  The limits on the head, the number of headers and the body are
    the hypotheses; informational responses and bodies that end with the connection are
    outside this theorem. *)
Theorem client_reads_response state eof v c hs f text body tail pieces :
  let lim := limits (options state) in
  maxHeaderBytes lim < 2 ^ 31 -> maxBodyBytes lim < 2 ^ 32 -> maxHeaderCount lim < 2 ^ 16 -> 200 <= c < 1000 ->
  Forall plain_header hs -> announces hs f -> carries (lastMethod state) c f text body ->
  Z.of_nat (length (Response.head v c hs)) + 2 <= maxHeaderBytes lim -> Z.of_nat (length hs) <= maxHeaderCount lim ->
  Z.of_nat (length body) <= maxBodyBytes lim -> (forall n, f = Sized n -> 0 <= n <= maxBodyBytes lim) ->
  pieces <> [] -> concat pieces = Response.message v c hs text ++ tail ->
  exists r, feed state eof [] pieces new_parse_state new_response = Some r /\ unread r = tail /\ output r = Resp c body hs /\
    (result r = COMPLETE_CLOSE /\ closes v hs \/ result r = COMPLETE_KEEP_ALIVE /\ ~ closes v hs).
Proof.
  intros lim H1 H2 H3 Hc Hok Han HB Hmh Hmc Hmb Hn Hne Hp. pose proof (Response.length_head v c hs) as Hl.
  assert (Hm : 0 <= maxHeaderBytes lim < 2 ^ 31) by lia.
  destruct (announced_state lim v hs f Hok Han Hn H2) as (st1 & Hf & F & S1 & S2 & HD).
  assert (Hok' : Forall header_ok hs) by (eapply Forall_impl; [exact Hok|]; apply plain_header_ok).
  destruct (run_head (lastMethod state) lim eof Hm v c hs st1 (text ++ tail) Hc Hok' Hf Hmh) as (h & k & E & Hph); [lia|].
  destruct (run_body (lastMethod state) lim eof c hs f st1 text body tail h k Hm Hc Hph HB F S1 S2) as (st' & E'); [lia|lia|]. rewrite E' in E.
  destruct (feed_splits state eof pieces Hm new_parse_state new_response (Reply (done_ st1) tail st' (Resp c body hs)) Hne) as (r & F1 & F2 & F3 & F4).
  - split; [done|]. change (0 <= 0 <= maxHeaderBytes lim). lia.
  - rewrite Hp. unfold Response.message in *. rewrite <- !app_assoc. exact E.
  - cbn [result]. unfold done_. by destruct (_ || _).
  - exists r. split; [done|]. split; [done|]. split; [done|]. by rewrite F2.
Qed.

(** A stream of nine bytes in buffers of eight, cut in three pieces, then the next bytes. *)
Definition w_served : HttpHeaderList := [(lit "Transfer-Encoding", lit "chunked"); (lit "Connection", lit "keep-alive, Close")].
Definition w_stream : bytes := Response.message Constants.HTTP_1_1 200 w_served (ClientIO.stream_text ClientIO.w_next 10 8 true [1; 2; 3; 4; 5; 6; 7; 8; 9]) ++ lit "next".
Definition w_cuts : list bytes := [take 30 w_stream; take 60 (drop 30 w_stream); drop 90 w_stream].
Definition w_reader : SlotState := Slot (Options (lit "h") (Limits 128 100 10)) Constants.GET.

Ltac not_among := intros H; vm_compute in H; repeat (apply elem_of_cons in H as [H|H]; [discriminate H|]); by apply elem_of_nil in H.
Ltac plain_by_eval := split_and!; [discriminate|not_among|not_among|not_among|
  intros c [E|E]; vm_compute in E; injection E as <-; unfold blank; vm_compute; by intros [?|?]|
  intros c [E|E]; vm_compute in E; injection E as <-; unfold blank; vm_compute; by intros [?|?]|by apply bytes_by_eval|by apply bytes_by_eval].

Lemma w_served_plain : Forall plain_header w_served.
Proof. apply Forall_cons. split; [plain_by_eval|]. apply Forall_cons. split; [plain_by_eval|constructor]. Qed.

Lemma w_served_chunked : announces w_served Chunked.
Proof.
  split; [|by left]. unfold w_served, consistent, folds_to. repeat (apply Forall_cons; split; [split; intros H; vm_compute in H; first [discriminate H|by vm_compute]|]). constructor.
Qed.

Lemma w_served_closes : closes Constants.HTTP_1_1 w_served.
Proof.
  right. right. left. split; [by vm_compute|]. exists (lit "keep-alive,"), (lit " "), (lit "Close"), [], [].
  split; [by vm_compute|]. split; [repeat constructor|]. split; [constructor|]. split; [by vm_compute|]. split; [by right|by left].
Qed.

Lemma client_reads_response_witness :
  exists r, feed w_reader false [] w_cuts new_parse_state new_response = Some r /\ unread r = lit "next" /\
    output r = Resp 200 [1; 2; 3; 4; 5; 6; 7; 8; 9] w_served /\ result r = COMPLETE_CLOSE.
Proof.
  destruct (client_reads_response w_reader false Constants.HTTP_1_1 200 w_served Chunked
    (concat (map (ClientIO.frame true) [[1; 2; 3; 4; 5; 6; 7; 8]; [9]]) ++ ClientIO.CHUNK_END) (concat [[1; 2; 3; 4; 5; 6; 7; 8]; [9]]) (lit "next") w_cuts)
    as (r & E1 & E2 & E3 & E4).
  - cbn; lia.
  - cbn; lia.
  - cbn; lia.
  - lia.
  - exact w_served_plain.
  - exact w_served_chunked.
  - apply carries_chunks; [done|]. repeat (apply Forall_cons; split; [split; [discriminate|cbn; lia]|]). constructor.
  - vm_compute. discriminate.
  - vm_compute. discriminate.
  - vm_compute. discriminate.
  - discriminate.
  - done.
  - vm_compute. reflexivity.
  - exists r. split; [exact E1|]. split; [exact E2|]. split; [exact E3|]. destruct E4 as [[E4 _]|[_ E4]]; [exact E4|]. destruct (E4 w_served_closes).
Defined.

(** A body by its length, on a connection that is kept. *)
Example w_sized : announces [(lit "CONTENT-length", lit "005")] (Sized 5) /\ ~ closes Constants.HTTP_1_1 [(lit "CONTENT-length", lit "005")].
Proof.
  split; [split|].
  - apply Forall_cons. split; [|constructor]. split; intros H; vm_compute in H; [|discriminate H]. exists 5. split; [done|]. split; [discriminate|]. split; [|by vm_compute].
    repeat (apply Forall_cons; split; [vm_compute; split; discriminate|]). constructor.
  - left. by vm_compute.
  - intros [H|H]; [done|]. apply Exists_cons in H as [[H _]|H]; [by vm_compute in H|by apply Exists_nil in H].
Qed.

End HttpClient.
