(* ===== verification/Smtp.v ===== *)
(** * Smtp: the outbound mail client of [include/wfx/endpoint/smtp.hpp]

    [Serialize] writes one command of a transaction or a whole message, [Parse] reads a
    reply, [SmtpOnConnect] is the handshake of a new connection (greeting, EHLO, STARTTLS,
    EHLO again, AUTH) and [SendMail] a whole exchange.  A coroutine is a function of the
    answers it is resumed with, a script: it stops where the script does. *)

From stdpp Require Import list.
From S2P Require Import Prelude Strings Constants RWBuffer Encoding HttpClient.
Import StringUtils.

Module Smtp.

#[local] Abbreviation Append := HttpClient.Append.
#[local] Abbreviation append_all := HttpClient.append_all.
#[local] Abbreviation BufWriter := HttpClient.BufWriter.
#[local] Abbreviation Writer := HttpClient.Writer.
#[local] Abbreviation crlf := HttpClient.crlf.
#[local] Abbreviation HasInjectionBytes := HttpClient.HasInjectionBytes.
#[local] Abbreviation InsensitiveEqual := HttpClient.InsensitiveEqual.
#[local] Abbreviation strip_cr := HttpClient.strip_cr.
#[local] Abbreviation ReadLine := HttpClient.ReadLine.

Definition SMTP_READY : Z := 220.
Definition SMTP_OK : Z := 250.
Definition SMTP_START_MAIL_INPUT : Z := 354.
Definition SMTP_AUTH_CONTINUE : Z := 334.
Definition SMTP_AUTH_SUCCESS : Z := 235.

(** ** Commands *)

Inductive SmtpCmdKind := MAIL_FROM | RCPT_TO | DATA_START | DATA_BODY | RSET | QUIT.
#[export] Instance SmtpCmdKind_eq_dec : EqDecision SmtpCmdKind.
Proof. solve_decision. Defined.

Record SmtpCmd := Cmd {
  kind : SmtpCmdKind;
  addr : bytes;
  fromAddr : bytes;
  fromName : bytes;
  toAddr : bytes;
  toName : bytes;
  subject : bytes;
  body : bytes;
  replyTo : bytes
}.

Record SmtpResponse := Reply { code : Z; text : bytes }.
Definition new_response : SmtpResponse := Reply 0 [].
Definition Success (r : SmtpResponse) : bool := (200 <=? code r) && (code r <? 300).
Definition Continue (r : SmtpResponse) : bool := code r =? SMTP_START_MAIL_INPUT.

Record SmtpOptions := Options {
  heloName : bytes;
  username : bytes;
  password : bytes;
  maxResponseLineBytes : Z;
  maxResponseLines : Z
}.

Definition InsensitiveStartsWith (s prefix : bytes) : bool :=
  (length prefix <=? length s)%nat && InsensitiveEqual (take (length prefix) s) prefix.

Definition AppendAddrHeader (w : BufWriter) (name addr : bytes) : option BufWriter :=
  match name with
  | _ :: _ => append_all [name; lit " <"; addr; lit ">"; crlf] w
  | [] => append_all [addr; crlf] w
  end.

(** The loop of [AppendDotStuffed]; [rest] is the body from [lineStart] on. *)
Fixpoint stuff_loop (fuel : nat) (rest : bytes) (w : BufWriter) : option BufWriter :=
  match fuel with
  | O => None
  | S f =>
      let nl := find_char LF rest in
      let line := strip_cr (match nl with None => rest | Some k => take k rest end) in
      let stuffed := match line with c :: _ => if c =? DOT then Append [DOT] w else Some w | [] => Some w end in
      match stuffed with
      | None => None
      | Some w =>
          match append_all [line; crlf] w with
          | None => None
          | Some w => match nl with None => Some w | Some k => stuff_loop f (drop (S k) rest) w end
          end
      end
  end.

Definition AppendDotStuffed (w : BufWriter) (body : bytes) : option BufWriter :=
  match body with [] => Some w | _ => stuff_loop (S (length body)) body w end.

(** [date] is what [strftime] wrote (nothing: it failed), [idBytes] sixteen random bytes. *)
Definition AppendGeneratedHeaders (date idBytes : bytes) (w : BufWriter) (helo : bytes) : option BufWriter :=
  if HasInjectionBytes helo then None
  else
    match date with
    | [] => None
    | _ =>
        match append_all [lit "Date: "; date; crlf] w with
        | None => None
        | Some w =>
            match append_all [lit "Message-ID: <"; Encoding.HexEncode idBytes false; lit "@"; helo; lit ">" ++ crlf] w with
            | None => None
            | Some w => append_all [lit "MIME-Version: 1.0" ++ crlf; lit "Content-Type: text/plain; charset=UTF-8" ++ crlf] w
            end
        end
    end.

Definition obind {A B} (x : option A) (f : A -> option B) : option B := match x with Some a => f a | None => None end.

(** The message of [DATA_BODY], each step while the buffer has room. *)
Definition append_message (date idBytes helo : bytes) (req : SmtpCmd) (w : BufWriter) : option BufWriter :=
  obind (Append (lit "From: ") w) (fun w => obind (AppendAddrHeader w (fromName req) (fromAddr req)) (fun w =>
  obind (Append (lit "To: ") w) (fun w => obind (AppendAddrHeader w (toName req) (toAddr req)) (fun w =>
  obind (match replyTo req with [] => Some w | _ => append_all [lit "Reply-To: "; replyTo req; crlf] w end) (fun w =>
  obind (append_all [lit "Subject: "; subject req; crlf] w) (fun w =>
  obind (AppendGeneratedHeaders date idBytes w helo) (fun w =>
  obind (Append crlf w) (fun w =>
  obind (AppendDotStuffed w (body req)) (fun w =>
  Append (lit "." ++ crlf) w))))))))).

Definition Serialize (date idBytes : bytes) (opts : SmtpOptions) (req : SmtpCmd) (bufLen : Z) : HttpClient.SerializeResult :=
  let w := Writer bufLen [] in
  let finish ok := match ok with None => HttpClient.SER_BUFFER_TOO_SMALL | Some w => HttpClient.SER_OK (HttpClient.written_ w) end in
  match kind req with
  | MAIL_FROM => if HasInjectionBytes (addr req) then HttpClient.SER_ERROR else finish (append_all [lit "MAIL FROM:<"; addr req; lit ">" ++ crlf] w)
  | RCPT_TO => if HasInjectionBytes (addr req) then HttpClient.SER_ERROR else finish (append_all [lit "RCPT TO:<"; addr req; lit ">" ++ crlf] w)
  | DATA_START => finish (Append (lit "DATA" ++ crlf) w)
  | DATA_BODY =>
      if HasInjectionBytes (fromAddr req) || HasInjectionBytes (fromName req) || HasInjectionBytes (toAddr req)
         || HasInjectionBytes (toName req) || HasInjectionBytes (subject req) || HasInjectionBytes (replyTo req) then HttpClient.SER_ERROR
      else match find_char NUL (body req) with
           | Some _ => HttpClient.SER_ERROR
           | None => finish (append_message date idBytes (heloName opts) req w)
           end
  | RSET => finish (Append (lit "RSET" ++ crlf) w)
  | QUIT => finish (Append (lit "QUIT" ++ crlf) w)
  end.

(** ** Replies *)

Record ParseState := PS { lineAcc : bytes; pcode : Z; lineCount : Z }.
Definition new_parse_state : ParseState := PS [] 0 0.
Definition ResetParseStateFields (s : ParseState) : ParseState := PS [] 0 0.

(** The code, whether the line is the last one, and its text. *)
Definition ParseResponseLine (line : bytes) : option (Z * bool * bytes) :=
  if (length line <? 3)%nat then None
  else if negb (forallb is_digit (take 3 line)) then None
  else
    let parsed := (at_ line 0 - 48) * 100 + (at_ line 1 - 48) * 10 + (at_ line 2 - 48) in
    if (length line =? 3)%nat then Some (parsed, true, [])
    else
      let sep := at_ line 3 in
      if negb (sep =? 45) && negb (sep =? SPACE) then None else Some (parsed, sep =? SPACE, drop 4 line).

(** What is in the line once [lineAcc] is cleared: a line that came in more than one piece is
    a view into [lineAcc], and clear writes the terminating NUL where the view starts. *)
Definition cleared (lineAcc line : bytes) : bytes := match lineAcc, line with _ :: _, _ :: l => NUL :: l | _, _ => line end.

Record reply := ReplyOf { result : HttpClient.ParseResult; unread : bytes; pstate : ParseState; output : SmtpResponse }.

Fixpoint parse_loop (lim : SmtpOptions) (isEof : bool) (fuel : nat) (inp : bytes) (st : ParseState) (res : SmtpResponse) : option reply :=
  match fuel with
  | O => None
  | S f =>
      match ReadLine (maxResponseLineBytes lim) inp (lineAcc st) with
      | (HttpClient.TOO_LONG, _) => Some (ReplyOf HttpClient.PARSE_ERROR inp st res)
      | (HttpClient.NEED_MORE, acc) =>
          Some (ReplyOf (if isEof then HttpClient.PARSE_ERROR else HttpClient.INCOMPLETE) [] (PS acc (pcode st) (lineCount st)) res)
      | (HttpClient.GOT_LINE line rest, _) =>
          let line := cleared (lineAcc st) line in
          let st := PS [] (pcode st) (lineCount st) in
          match ParseResponseLine line with
          | None => Some (ReplyOf HttpClient.PARSE_ERROR rest st res)
          | Some (lineCode, finalLine, text) =>
              let st := PS [] (pcode st) (u16 (lineCount st + 1)) in
              if maxResponseLines lim <? lineCount st then Some (ReplyOf HttpClient.PARSE_ERROR rest st res)
              else if negb (pcode st =? 0) && negb (lineCode =? pcode st) then Some (ReplyOf HttpClient.PARSE_ERROR rest st res)
              else
                let st := PS [] lineCode (lineCount st) in
                if (finalLine : bool) then Some (ReplyOf HttpClient.COMPLETE_KEEP_ALIVE rest st (Reply lineCode text))
                else parse_loop lim isEof f rest st res
          end
      end
  end.

Definition Parse (lim : SmtpOptions) (isEof : bool) (buf : bytes) (st : ParseState) (res : SmtpResponse) : option reply :=
  parse_loop lim isEof (S (length buf)) buf st res.

(** ** The handshake of a new connection *)

(** A reply under construction. *)
Record LineResponse := LR {
  lcode : Z;
  hasStartTls : bool;
  hasAuthPlain : bool;
  hasAuthLogin : bool;
  ok : bool;
  llineCount : Z;
  done_ : bool;
  llineAcc : bytes
}.
Definition new_line_response : LineResponse := LR 0 false false false false 0 false [].
Definition set_acc (acc : bytes) (r : LineResponse) : LineResponse := LR (lcode r) (hasStartTls r) (hasAuthPlain r) (hasAuthLogin r) (ok r) (llineCount r) (done_ r) acc.

(** The mechanisms of an AUTH line. *)
Definition scan_mechanisms (mechList : bytes) (r : LineResponse) : LineResponse :=
  fold_left (fun r mech =>
    if InsensitiveEqual mech (lit "PLAIN") then LR (lcode r) (hasStartTls r) true (hasAuthLogin r) (ok r) (llineCount r) (done_ r) (llineAcc r)
    else if InsensitiveEqual mech (lit "LOGIN") then LR (lcode r) (hasStartTls r) (hasAuthPlain r) true (ok r) (llineCount r) (done_ r) (llineAcc r)
    else r) (split_on SPACE mechList) r.

Definition scan_capability (text : bytes) (r : LineResponse) : LineResponse :=
  if InsensitiveEqual text (lit "STARTTLS") then LR (lcode r) true (hasAuthPlain r) (hasAuthLogin r) (ok r) (llineCount r) (done_ r) (llineAcc r)
  else if InsensitiveStartsWith text (lit "AUTH ") || InsensitiveStartsWith text (lit "AUTH=") then scan_mechanisms (drop 5 text) r
  else r.

(** [Feed]: whether all is well, and the bytes not consumed. *)
Fixpoint feed_loop (lim : SmtpOptions) (fuel : nat) (inp : bytes) (r : LineResponse) : option (bool * bytes * LineResponse) :=
  match inp with
  | [] => Some (true, [], r)
  | _ =>
      match fuel with
      | O => None
      | S f =>
          match ReadLine (maxResponseLineBytes lim) inp (llineAcc r) with
          | (HttpClient.TOO_LONG, _) => Some (false, inp, r)
          | (HttpClient.NEED_MORE, acc) => Some (true, [], set_acc acc r)
          | (HttpClient.GOT_LINE line rest, _) =>
              let line := cleared (llineAcc r) line in
              let r := set_acc [] r in
              match ParseResponseLine line with
              | None => Some (false, rest, r)
              | Some (lineCode, finalLine, text) =>
                  let r := LR (lcode r) (hasStartTls r) (hasAuthPlain r) (hasAuthLogin r) (ok r) (u16 (llineCount r + 1)) (done_ r) (llineAcc r) in
                  if maxResponseLines lim <? llineCount r then Some (false, rest, r)
                  else if negb (lcode r =? 0) && negb (lineCode =? lcode r) then Some (false, rest, r)
                  else
                    let r := LR lineCode (hasStartTls r) (hasAuthPlain r) (hasAuthLogin r) (ok r) (llineCount r) (done_ r) (llineAcc r) in
                    let r := scan_capability text r in
                    if (finalLine : bool) then Some (true, rest, LR (lcode r) (hasStartTls r) (hasAuthPlain r) (hasAuthLogin r) true (llineCount r) true (llineAcc r))
                    else feed_loop lim f rest r
              end
          end
      end
  end.

Definition Feed (lim : SmtpOptions) (inp : bytes) (r : LineResponse) : option (bool * bytes * LineResponse) := feed_loop lim (length inp) inp r.

(** What a suspended slot operation is resumed with. *)
Inductive answer := Completed (data : bytes) | Failed.

Inductive event := Sent (encrypted : bool) (data : bytes) | Upgraded.

(** The slot: the answers to come, the read buffer, whether TLS is on, what was done. *)
Record Conn := Slot { script : list answer; inbox : bytes; secure : bool; log : list event }.

(** A coroutine stops waiting for an answer, or goes on with a value. *)
Inductive stage (A : Type) := Suspended (c : Conn) | Next (a : A) (c : Conn).
Arguments Suspended {A} _.
Arguments Next {A} _ _.

Definition bind {A B} (m : stage A) (k : A -> Conn -> stage B) : stage B := match m with Suspended c => Suspended c | Next a c => k a c end.

Definition SlotSend (data : bytes) (c : Conn) : stage bool :=
  let c := Slot (script c) (inbox c) (secure c) (log c ++ [Sent (secure c) data]) in
  match script c with
  | [] => Suspended c
  | a :: s => Next (match a with Completed _ => true | Failed => false end) (Slot s (inbox c) (secure c) (log c))
  end.

(** Trims what was consumed, then waits for data; all that is buffered is delivered. *)
Definition SlotReceive (consumed : nat) (c : Conn) : stage (option bytes) :=
  if (length (inbox c) <? consumed)%nat then Next None c
  else
    let c := Slot (script c) (drop consumed (inbox c)) (secure c) (log c) in
    match script c with
    | [] => Suspended c
    | Failed :: s => Next None (Slot s (inbox c) (secure c) (log c))
    | Completed data :: s => Next (Some (inbox c ++ data)) (Slot s (inbox c ++ data) (secure c) (log c))
    end.

(** A second wrap is refused; what was read in the clear is thrown away. *)
Definition SlotUpgradeTls (c : Conn) : stage bool :=
  if secure c then Next false c
  else
    let c := Slot (script c) [] (secure c) (log c) in
    match script c with
    | [] => Suspended c
    | Failed :: s => Next false (Slot s [] (secure c) (log c))
    | Completed _ :: s => Next true (Slot s [] true (log c ++ [Upgraded]))
    end.

(** [ReadResponse] and what is still [pending]; each round takes an answer. *)
Fixpoint read_rounds (fuel : nat) (opts : SmtpOptions) (resp : LineResponse) (pending : nat) (c : Conn) : stage (LineResponse * nat) :=
  match fuel with
  | O => Suspended c
  | S f =>
      bind (SlotReceive pending c) (fun recv c =>
        match recv with
        | None => Next (resp, O) c
        | Some buf =>
            match Feed opts buf resp with
            | None => Suspended c
            | Some (false, rest, resp) => Next (resp, (length buf - length rest)%nat) c
            | Some (true, rest, resp) =>
                let pending := (length buf - length rest)%nat in
                if done_ resp then Next (resp, pending) c else read_rounds f opts resp pending c
            end
        end)
  end.

Definition ReadResponse (opts : SmtpOptions) (pending : nat) (c : Conn) : stage (LineResponse * nat) :=
  read_rounds (S (length (script c))) opts new_line_response pending c.

Inductive ConnectResult := READY | RETRY | FATAL.

(** A step that failed ends the connection. *)
Definition sending (data : bytes) (k : Conn -> stage ConnectResult) (c : Conn) : stage ConnectResult :=
  bind (SlotSend data c) (fun sent c => if (sent : bool) then k c else Next FATAL c).
Definition expecting (opts : SmtpOptions) (want : Z) (pending : nat) (k : LineResponse -> nat -> Conn -> stage ConnectResult) (c : Conn) : stage ConnectResult :=
  bind (ReadResponse opts pending c) (fun x c =>
    let '(resp, pending) := x in if negb (ok resp) || negb (lcode resp =? want) then Next FATAL c else k resp pending c).

Definition ehlo_line (opts : SmtpOptions) : bytes := lit "EHLO " ++ heloName opts ++ crlf.
Definition plain_blob (opts : SmtpOptions) : bytes := [NUL] ++ username opts ++ [NUL] ++ password opts.
Definition plain_line (opts : SmtpOptions) : bytes := lit "AUTH PLAIN " ++ Encoding.Base64Encode (plain_blob opts) false true ++ crlf.
Definition user_line (opts : SmtpOptions) : bytes := Encoding.Base64Encode (username opts) false true ++ crlf.
Definition pass_line (opts : SmtpOptions) : bytes := Encoding.Base64Encode (password opts) false true ++ crlf.

(** The last part: AUTH by what the encrypted EHLO offered. *)
Definition authenticated (opts : SmtpOptions) (pending : nat) : Conn -> stage ConnectResult :=
  expecting opts SMTP_AUTH_SUCCESS pending (fun _ _ c => Next READY c).

Definition authenticate (opts : SmtpOptions) (ehlo2 : LineResponse) (pending : nat) : Conn -> stage ConnectResult :=
  if hasAuthPlain ehlo2 then sending (plain_line opts) (authenticated opts pending)
  else if hasAuthLogin ehlo2 then
    sending (lit "AUTH LOGIN" ++ crlf) (
    expecting opts SMTP_AUTH_CONTINUE pending (fun _ pending =>
    sending (user_line opts) (
    expecting opts SMTP_AUTH_CONTINUE pending (fun _ pending =>
    sending (pass_line opts) (authenticated opts pending)))))
  else Next FATAL.

(** From the TLS upgrade on. *)
Definition secure_phase (opts : SmtpOptions) : Conn -> stage ConnectResult :=
  sending (ehlo_line opts) (expecting opts SMTP_OK 0 (authenticate opts)).

Definition SmtpOnConnect (opts : SmtpOptions) : Conn -> stage ConnectResult :=
  if HasInjectionBytes (heloName opts) then Next FATAL
  else
    expecting opts SMTP_READY 0 (fun _ pending =>
    sending (ehlo_line opts) (
    expecting opts SMTP_OK pending (fun ehlo1 pending =>
    if negb (hasStartTls ehlo1) then Next FATAL
    else
      sending (lit "STARTTLS" ++ crlf) (
      expecting opts SMTP_READY pending (fun _ _ c =>
      bind (SlotUpgradeTls c) (fun up c => if (up : bool) then secure_phase opts c else Next FATAL c)))))).

(** ** Sending a mail *)

Inductive EndpointStatus := EpOk | EpPoolExhausted | EpInternalError | EpOther (n : Z).

Record SmtpSendOutcome := Outcome { status : EndpointStatus; accepted : bool; response : option SmtpResponse }.
Definition new_outcome : SmtpSendOutcome := Outcome EpInternalError false None.

(** The commands of [SendMail], given the replies of the relay: what was sent, and the
    outcome ([None]: still waiting for a reply). *)
Definition transact (cmd : SmtpCmd) (good : SmtpResponse -> bool) (k : list (EndpointStatus * option SmtpResponse) -> SmtpSendOutcome -> list SmtpCmd * option SmtpSendOutcome)
    (replies : list (EndpointStatus * option SmtpResponse)) : list SmtpCmd * option SmtpSendOutcome :=
  match replies with
  | [] => ([cmd], None)
  | (s, r) :: replies =>
      let out := Outcome s false r in
      let fine := (match s with EpOk => true | _ => false end) && (match r with Some r => good r | None => false end) in
      if fine then let '(cmds, o) := k replies out in (cmd :: cmds, o) else ([cmd], Some out)
  end.

Definition MailFrom (a : bytes) : SmtpCmd := Cmd MAIL_FROM a [] [] [] [] [] [] [].
Definition RcptTo (a : bytes) : SmtpCmd := Cmd RCPT_TO a [] [] [] [] [] [] [].
Definition DataStart : SmtpCmd := Cmd DATA_START [] [] [] [] [] [] [] [].
Definition DataBody (fromAddr fromName toAddr toName subject body replyTo : bytes) : SmtpCmd := Cmd DATA_BODY [] fromAddr fromName toAddr toName subject body replyTo.
Definition Reset_ : SmtpCmd := Cmd RSET [] [] [] [] [] [] [] [].
Definition Quit_ : SmtpCmd := Cmd QUIT [] [] [] [] [] [] [] [].

Definition SendMail (reserved : bool) (fromAddr fromName toAddr toName subject body replyTo : bytes) (replies : list (EndpointStatus * option SmtpResponse)) : list SmtpCmd * option SmtpSendOutcome :=
  if negb reserved then ([], Some (Outcome EpPoolExhausted false None))
  else
    transact (MailFrom fromAddr) Success (
      fun replies _ => transact (RcptTo toAddr) Success (
      fun replies _ => transact DataStart Continue (
      fun replies _ => transact (DataBody fromAddr fromName toAddr toName subject body replyTo) Success (
      fun _ out => ([], Some (Outcome (status out) true (response out)))) replies) replies) replies) replies.


(** ** What a relay reads *)

(** The lines of a text, ended by LF or CRLF; and by CRLF alone, as the protocol says. *)
Definition lf_lines (s : bytes) : list bytes := map strip_cr (split_on LF s).

Fixpoint crlf_lines (s : bytes) : list bytes :=
  match s with
  | [] => [[]]
  | x :: r =>
      let keep ls := match ls with l :: ls => (x :: l) :: ls | [] => [[x]] end in
      match r with
      | y :: r' => if (x =? CR) && (y =? LF) then [] :: crlf_lines r' else keep (crlf_lines r)
      | [] => keep (crlf_lines r)
      end
  end.

(** The data of a message up to the line of one dot, and the lines after it. *)
Definition unstuff (l : bytes) : bytes := match l with c :: r => if c =? DOT then r else l | [] => [] end.
Fixpoint read_data (ls : list bytes) : option (list bytes * list bytes) :=
  match ls with
  | [] => None
  | l :: ls => if sv_eq l [DOT] then Some ([], ls) else match read_data ls with Some (d, rest) => Some (unstuff l :: d, rest) | None => None end
  end.

Definition stuff (l : bytes) : bytes := match l with c :: _ => if c =? DOT then DOT :: l else l | [] => l end.
Definition ended (ls : list bytes) : bytes := concat (map (fun l => l ++ crlf) ls).

Lemma ended_app a b : ended (a ++ b) = ended a ++ ended b.
Proof. unfold ended. by rewrite map_app, concat_app. Qed.
Lemma ended_cons l ls : ended (l :: ls) = l ++ crlf ++ ended ls.
Proof. unfold ended. cbn [map concat]. by rewrite <- app_assoc. Qed.
Lemma ended_one l : ended [l] = l ++ crlf.
Proof. unfold ended. cbn [map concat]. by rewrite app_nil_r. Qed.

Lemma strip_cr_snoc l : strip_cr (l ++ [CR]) = l.
Proof. unfold strip_cr. rewrite rev_app_distr. cbn. by rewrite rev_involutive. Qed.

Lemma strip_cr_LF l : LF ∉ l -> LF ∉ strip_cr l.
Proof.
  intros H. unfold strip_cr. destruct (rev l) as [|c r] eqn:E; [done|]. case_match; [|done]. intros Hin. apply H.
  rewrite <- (rev_involutive l), E. cbn. apply elem_of_app. by left.
Qed.

Lemma lf_lines_ended ls : Forall (fun l => LF ∉ l) ls -> lf_lines (ended ls) = ls ++ [[]].
Proof.
  unfold lf_lines. induction ls as [|l ls IH]; intros H; [done|]. apply Forall_cons in H as [H1 H2]. rewrite ended_cons.
  change (l ++ crlf ++ ended ls) with (l ++ [CR] ++ LF :: ended ls). rewrite app_assoc, split_on_skip.
  - cbn [map]. by rewrite strip_cr_snoc, IH.
  - intros [?|[?|?%elem_of_nil]%elem_of_cons]%elem_of_app; done.
Qed.

Lemma crlf_lines_skip l s : LF ∉ l -> crlf_lines (l ++ crlf ++ s) = l :: crlf_lines s.
Proof.
  induction l as [|x l IH]; intros H; [done|]. apply not_elem_of_cons in H as [H1 H2]. specialize (IH H2). cbn [app].
  destruct l as [|y l]; cbn [app crlf_lines] in *.
  - change (crlf ++ s) with (CR :: LF :: s). cbn [crlf_lines]. change ((CR =? CR) && (LF =? LF)) with true. change (CR =? LF) with false. rewrite andb_false_r. done.
  - apply not_elem_of_cons in H2 as [H2 _]. apply not_eq_sym, Z.eqb_neq in H2. rewrite H2, andb_false_r. by rewrite IH.
Qed.

Lemma crlf_lines_ended ls : Forall (fun l => LF ∉ l) ls -> crlf_lines (ended ls) = ls ++ [[]].
Proof.
  induction ls as [|l ls IH]; intros H; [done|]. apply Forall_cons in H as [H1 H2]. by rewrite ended_cons, crlf_lines_skip, IH.
Qed.

Lemma unstuff_stuff l : unstuff (stuff l) = l.
Proof. destruct l as [|c l]; [done|]. cbn [stuff]. destruct (c =? DOT) eqn:E; [done|]. cbn [unstuff]. by rewrite E. Qed.

Lemma stuff_not_dot l : sv_eq (stuff l) [DOT] = false.
Proof.
  apply bool_decide_eq_false. destruct l as [|c l]; [done|]. cbn [stuff]. destruct (c =? DOT) eqn:E; [done|]. intros [= -> ->]. done.
Qed.

Lemma read_data_stuffed ls rest : read_data (map stuff ls ++ [DOT] :: rest) = Some (ls, rest).
Proof. induction ls as [|l ls IH]; [done|]. cbn [map app read_data]. by rewrite stuff_not_dot, IH, unstuff_stuff. Qed.

(** ** What the writer appends *)

Definition fits (w : BufWriter) : Prop := Z.of_nat (length (HttpClient.written_ w)) <= HttpClient.cap_ w.
Definition wrote (t : bytes) (w : BufWriter) : option BufWriter :=
  if Z.of_nat (length (HttpClient.written_ w ++ t)) <=? HttpClient.cap_ w then Some (Writer (HttpClient.cap_ w) (HttpClient.written_ w ++ t)) else None.
Definition appends (t : bytes) (f : BufWriter -> option BufWriter) : Prop := forall w, fits w -> f w = wrote t w.

Lemma wrote_nil w : fits w -> wrote [] w = Some w.
Proof. intros H. unfold wrote. rewrite app_nil_r. destruct (Z.leb_spec (Z.of_nat (length (HttpClient.written_ w))) (HttpClient.cap_ w)); [by destruct w|unfold fits in H; lia]. Qed.

Lemma wrote_app t1 t2 w : wrote (t1 ++ t2) w = obind (wrote t1 w) (wrote t2).
Proof.
  unfold wrote. destruct (Z.leb_spec (Z.of_nat (length (HttpClient.written_ w ++ t1))) (HttpClient.cap_ w)) as [H|H]; cbn [obind].
  - cbn [HttpClient.written_ HttpClient.cap_]. by rewrite app_assoc.
  - rewrite !length_app in *. destruct (Z.leb_spec (Z.of_nat (length (HttpClient.written_ w) + (length t1 + length t2))) (HttpClient.cap_ w)); [lia|done].
Qed.

Lemma wrote_fits t w w' : wrote t w = Some w' -> fits w'.
Proof. unfold wrote, fits. destruct (Z.leb_spec (Z.of_nat (length (HttpClient.written_ w ++ t))) (HttpClient.cap_ w)); [|done]. by intros [= <-]. Qed.

Lemma appends_all l : appends (concat l) (append_all l).
Proof. intros w Hw. by apply HttpClient.append_all_ok. Qed.
Lemma appends_one s : appends s (Append s).
Proof. intros w _. apply HttpClient.Append_ok. Qed.
Lemma appends_nothing : appends [] Some.
Proof. intros w Hw. by rewrite wrote_nil. Qed.

Lemma appends_bind t1 t2 f g : appends t1 f -> appends t2 g -> appends (t1 ++ t2) (fun w => obind (f w) g).
Proof.
  intros Hf Hg w Hw. rewrite Hf, wrote_app by done. destruct (wrote t1 w) as [w'|] eqn:E; [|done]. cbn. by apply Hg, (wrote_fits t1 w).
Qed.

Lemma appends_eq t t' f : t = t' -> appends t f -> appends t' f.
Proof. by intros ->. Qed.

Lemma appends_line l : appends (l ++ crlf) (append_all [l; crlf]).
Proof. pose proof (appends_all [l; crlf]) as H. cbn [concat] in H. by rewrite app_nil_r in H. Qed.

Lemma stuff_loop_appends fuel : forall rest, (length rest < fuel)%nat -> appends (ended (map stuff (lf_lines rest))) (stuff_loop fuel rest).
Proof.
  induction fuel as [|f IH]; intros rest Hf; [lia|]. intros w Hw. cbn [stuff_loop]. unfold lf_lines. rewrite split_on_find.
  destruct (find_char LF rest) as [k|] eqn:E.
  - set (l := strip_cr (take k rest)). pose proof (HttpClient.find_char_length _ _ _ E) as Hk.
    assert (Hrest : appends (ended (map stuff (lf_lines (drop (S k) rest)))) (stuff_loop f (drop (S k) rest))) by (apply IH; rewrite length_drop; lia).
    cbn [map]. fold l. rewrite ended_cons. assert (Hl : appends (l ++ crlf) (append_all [l; crlf])) by apply appends_line.
    pose proof (appends_bind _ _ _ _ Hl Hrest) as H2. destruct l as [|c l']; [by apply H2|]. cbn [stuff]. destruct (c =? DOT); [|by rewrite app_assoc; apply H2].
    pose proof (appends_bind _ _ _ _ (appends_one [DOT]) H2 w Hw) as H3. cbn [app] in *. rewrite <- app_assoc in H3. exact H3.
  - set (l := strip_cr rest). cbn [map]. fold l. rewrite ended_one. assert (Hl : appends (l ++ crlf) (append_all [l; crlf])) by apply appends_line.
    pose proof (appends_bind _ _ _ _ Hl appends_nothing) as H2. rewrite app_nil_r in H2. destruct l as [|c l']; [by apply H2|]. cbn [stuff]. destruct (c =? DOT); [|by apply H2].
    pose proof (appends_bind _ _ _ _ (appends_one [DOT]) H2 w Hw) as H3. exact H3.
Qed.

(** The body's lines as the relay is to have them. *)
Definition body_lines (b : bytes) : list bytes := match b with [] => [] | _ => lf_lines b end.

Lemma AppendDotStuffed_appends b : appends (ended (map stuff (body_lines b))) (fun w => AppendDotStuffed w b).
Proof. destruct b as [|x b]; [apply appends_nothing|]. apply stuff_loop_appends. cbn; lia. Qed.


(** ** One command, or one message *)

Definition addr_header (field name addr : bytes) : bytes := field ++ match name with [] => addr | _ => name ++ lit " <" ++ addr ++ lit ">" end.

(** The header lines of a message. *)
Definition header_lines (date idBytes helo : bytes) (req : SmtpCmd) : list bytes :=
  [addr_header (lit "From: ") (fromName req) (fromAddr req); addr_header (lit "To: ") (toName req) (toAddr req)] ++
  match replyTo req with [] => [] | r => [lit "Reply-To: " ++ r] end ++
  [lit "Subject: " ++ subject req; lit "Date: " ++ date; lit "Message-ID: <" ++ Encoding.HexEncode idBytes false ++ lit "@" ++ helo ++ lit ">";
   lit "MIME-Version: 1.0"; lit "Content-Type: text/plain; charset=UTF-8"].

Definition message_lines (date idBytes helo : bytes) (req : SmtpCmd) : list bytes := header_lines date idBytes helo req ++ [] :: body_lines (body req).

Definition command_line (req : SmtpCmd) : bytes :=
  match kind req with
  | MAIL_FROM => lit "MAIL FROM:<" ++ addr req ++ lit ">"
  | RCPT_TO => lit "RCPT TO:<" ++ addr req ++ lit ">"
  | DATA_START => lit "DATA"
  | DATA_BODY => []
  | RSET => lit "RSET"
  | QUIT => lit "QUIT"
  end.

Definition message_text (date idBytes helo : bytes) (req : SmtpCmd) : bytes :=
  ended (header_lines date idBytes helo req ++ [] :: map stuff (body_lines (body req)) ++ [[DOT]]).

Lemma appends_addr field name addr : appends (ended [addr_header field name addr]) (fun w => obind (Append field w) (fun w => AppendAddrHeader w name addr)).
Proof.
  rewrite ended_one. unfold addr_header. rewrite <- app_assoc. apply appends_bind; [apply appends_one|]. unfold AppendAddrHeader. destruct name as [|c n].
  - apply appends_line.
  - pose proof (appends_all [c :: n; lit " <"; addr; lit ">"; crlf]) as H. cbn [concat] in H. rewrite app_nil_r in H. by rewrite <- !app_assoc.
Qed.

Lemma appends_field field v : appends (ended [field ++ v]) (append_all [field; v; crlf]).
Proof. rewrite ended_one. pose proof (appends_all [field; v; crlf]) as H. cbn [concat] in H. rewrite app_nil_r in H. by rewrite <- app_assoc. Qed.

Lemma appends_ext t f g : appends t f -> (forall w, f w = g w) -> appends t g.
Proof. intros H E w Hw. rewrite <- E. by apply H. Qed.

Lemma appends_generated date idBytes helo : HasInjectionBytes helo = false -> date <> [] ->
  appends (ended [lit "Date: " ++ date; lit "Message-ID: <" ++ Encoding.HexEncode idBytes false ++ lit "@" ++ helo ++ lit ">"; lit "MIME-Version: 1.0"; lit "Content-Type: text/plain; charset=UTF-8"])
    (fun w => AppendGeneratedHeaders date idBytes w helo).
Proof.
  intros Hh Hd. set (id := lit "Message-ID: <" ++ _).
  assert (Hid : appends (ended [id]) (append_all [lit "Message-ID: <"; Encoding.HexEncode idBytes false; lit "@"; helo; lit ">" ++ crlf])).
  { rewrite ended_one. pose proof (appends_all [lit "Message-ID: <"; Encoding.HexEncode idBytes false; lit "@"; helo; lit ">" ++ crlf]) as H. cbn [concat] in H. rewrite app_nil_r in H.
    unfold id. by rewrite <- !app_assoc. }
  assert (Hm : appends (ended [lit "MIME-Version: 1.0"; lit "Content-Type: text/plain; charset=UTF-8"]) (append_all [lit "MIME-Version: 1.0" ++ crlf; lit "Content-Type: text/plain; charset=UTF-8" ++ crlf])) by exact (appends_all _).
  rewrite (ended_app [_] [id; _; _] : ended [_; id; _; _] = _). rewrite (ended_app [id] [_; _] : ended [id; _; _] = _).
  pose proof (appends_bind _ _ _ _ (appends_field (lit "Date: ") date) (appends_bind _ _ _ _ Hid Hm)) as H. eapply appends_ext; [exact H|].
  intros w. unfold AppendGeneratedHeaders. rewrite Hh. destruct date; [done|]. done.
Qed.

Lemma append_message_appends date idBytes helo req : HasInjectionBytes helo = false -> date <> [] ->
  appends (message_text date idBytes helo req) (append_message date idBytes helo req).
Proof.
  intros Hh Hd. unfold message_text, header_lines, append_message. set (hs := [lit "Date: " ++ date; _; _; _]).
  assert (Hr : appends (ended (match replyTo req with [] => [] | r => [lit "Reply-To: " ++ r] end)) (fun w => match replyTo req with [] => Some w | _ => append_all [lit "Reply-To: "; replyTo req; crlf] w end)).
  { destruct (replyTo req) as [|c r]; [apply appends_nothing|apply appends_field]. }
  change ((lit "Subject: " ++ subject req) :: hs) with ([lit "Subject: " ++ subject req] ++ hs). set (from := addr_header (lit "From: ") _ _). set (to_ := addr_header (lit "To: ") _ _).
  change [from; to_] with ([from] ++ [to_]). rewrite !ended_app.
  pose proof (appends_addr (lit "From: ") (fromName req) (fromAddr req)) as H1. pose proof (appends_addr (lit "To: ") (toName req) (toAddr req)) as H2.
  pose proof (appends_generated date idBytes helo Hh Hd) as H4.
  assert (H5 : appends (ended ([] :: map stuff (body_lines (body req)) ++ [[DOT]])) (fun w => obind (Append crlf w) (fun w => obind (AppendDotStuffed w (body req)) (Append (lit "." ++ crlf))))).
  { rewrite ended_cons, ended_app. cbn [app]. apply (appends_bind crlf); [apply appends_one|]. apply appends_bind; [apply AppendDotStuffed_appends|]. exact (appends_one _). }
  pose proof (appends_bind _ _ _ _ H1 (appends_bind _ _ _ _ H2 (appends_bind _ _ _ _ Hr (appends_bind _ _ _ _ (appends_field (lit "Subject: ") (subject req)) (appends_bind _ _ _ _ H4 H5))))) as H.
  eapply appends_ext; [eapply appends_eq; [|exact H]|].
  - rewrite <- !app_assoc. done.
  - intros w. cbv beta. destruct (Append (lit "From: ") w) as [w1|]; [|done]. cbn [obind]. destruct (AppendAddrHeader w1 _ _) as [w2|]; [|done]. cbn [obind]. by destruct (Append (lit "To: ") w2).
Qed.


Lemma no_LF_app x y : LF ∉ x -> LF ∉ y -> LF ∉ x ++ y.
Proof. intros H1 H2 [H|H]%elem_of_app; done. Qed.

Lemma injection_no_LF s : HasInjectionBytes s = false -> LF ∉ s.
Proof.
  intros H Hin. apply list_elem_of_In in Hin. unfold HasInjectionBytes, HttpClient.HasInjectionBytes in H. assert (existsb (fun c => (c =? CR) || (c =? LF) || (c =? NUL)) s = true) as E; [|by rewrite E in H].
  apply existsb_exists. by exists LF.
Qed.

Lemma lit_no_LF s : find_char LF (lit s) = None -> LF ∉ lit s.
Proof. by rewrite find_char_None. Qed.

Ltac no_LF := repeat (first [assumption | apply not_elem_of_nil | apply no_LF_app | apply lit_no_LF; vm_compute; reflexivity | by apply injection_no_LF | apply Forall_cons; split | apply Forall_nil; exact I]).

Lemma hex_no_LF s u : Forall is_byte s -> LF ∉ Encoding.HexEncode s u.
Proof.
  intros H. unfold Encoding.HexEncode, Encoding.HexEncode_span. destruct (_ <? _)%nat; [apply not_elem_of_nil|]. cbn [default option_map from_option]. induction H as [|b s Hb _ IH]; [apply not_elem_of_nil|].
  cbn [mbind list_bind]. apply no_LF_app; [|exact IH]. assert (Hin : b ∈ seqZ 0 256) by (apply elem_of_seqZ; unfold is_byte, is_uint in Hb; lia).
  revert b Hin Hb. apply (Forall_forall (fun b => is_byte b -> LF ∉ Encoding.hex_pair (if u then Encoding.HEX_UPPER else Encoding.HEX_LOWER) b)).
  destruct u; vm_compute; repeat (constructor; [intros _ H; repeat (apply elem_of_cons in H as [H|H]; [discriminate H|]); by apply elem_of_nil in H|]); constructor.
Qed.

Definition fields_clean (req : SmtpCmd) : bool :=
  forallb (fun f => negb (HasInjectionBytes f)) [addr req; fromAddr req; fromName req; toAddr req; toName req; subject req; replyTo req].

Lemma stuff_no_LF l : LF ∉ l -> LF ∉ stuff l.
Proof. intros H. destruct l as [|c l]; [done|]. cbn [stuff]. destruct (c =? DOT); [|done]. by apply not_elem_of_cons. Qed.

Lemma body_lines_no_LF b : Forall (fun l => LF ∉ l) (body_lines b).
Proof.
  destruct b as [|x b]; [constructor|]. unfold body_lines, lf_lines. apply Forall_map, Forall_forall. intros l Hl. apply strip_cr_LF. exact (split_on_no _ _ _ Hl).
Qed.

Lemma header_lines_no_LF date idBytes helo req : LF ∉ date -> Forall is_byte idBytes -> HasInjectionBytes helo = false ->
  HasInjectionBytes (fromAddr req) || HasInjectionBytes (fromName req) || HasInjectionBytes (toAddr req) || HasInjectionBytes (toName req) || HasInjectionBytes (subject req) || HasInjectionBytes (replyTo req) = false ->
  Forall (fun l => LF ∉ l) (header_lines date idBytes helo req).
Proof.
  intros Hd Hi Hh [[[[[F1 F2]%orb_false_iff F3]%orb_false_iff F4]%orb_false_iff F5]%orb_false_iff F6]%orb_false_iff. pose proof (hex_no_LF idBytes false Hi) as Hx.
  unfold header_lines, addr_header. apply Forall_app; split; [|apply Forall_app; split].
  - destruct (fromName req), (toName req); no_LF.
  - destruct (replyTo req); no_LF.
  - no_LF.
Qed.

(** Headers never look like the end of the data. *)
Lemma headers_stuffed date idBytes helo req : map stuff (header_lines date idBytes helo req) = header_lines date idBytes helo req.
Proof. unfold header_lines. rewrite !map_app. by destruct (replyTo req). Qed.

Lemma message_lines_stuffed date idBytes helo req : message_text date idBytes helo req = ended (map stuff (message_lines date idBytes helo req) ++ [[DOT]]).
Proof. unfold message_text, message_lines. rewrite map_app, headers_stuffed, <- app_assoc. done. Qed.

Lemma wrote_text t f bufLen w : 0 <= bufLen -> appends t f -> f (Writer bufLen []) = Some w -> HttpClient.written_ w = t /\ Z.of_nat (length t) <= bufLen.
Proof.
  intros Hb Hf. rewrite Hf by (unfold fits; cbn; lia). unfold wrote. cbn. destruct (Z.leb_spec (Z.of_nat (length t)) bufLen); [|done]. by intros [= <-].
Qed.

Lemma appends_command pre a post : appends (ended [pre ++ a ++ post]) (append_all [pre; a; post ++ crlf]).
Proof. rewrite ended_one. pose proof (appends_all [pre; a; post ++ crlf]) as H. cbn [concat] in H. rewrite app_nil_r in H. by rewrite <- !app_assoc. Qed.

(** The commands of one line. *)
Lemma Serialize_command date idBytes opts req bufLen out : 0 <= bufLen -> kind req <> DATA_BODY -> Serialize date idBytes opts req bufLen = HttpClient.SER_OK out ->
  out = ended [command_line req] /\ LF ∉ command_line req.
Proof.
  intros Hb Hk. unfold Serialize, command_line. destruct (kind req); try done.
  1,2: destruct (HasInjectionBytes (addr req)) eqn:Ei; [done|]; destruct (append_all _ _) as [w|] eqn:E; [|done]; intros [= <-];
    apply (wrote_text _ _ _ _ Hb (appends_command _ _ _)) in E as [-> _]; split; [done|no_LF].
  all: destruct (Append _ _) as [w|] eqn:E; [|done]; intros [= <-]; apply (wrote_text _ _ _ _ Hb (appends_one _)) in E as [-> _]; split; [done|no_LF].
Qed.


Lemma Serialize_message date idBytes opts req bufLen out : 0 <= bufLen -> LF ∉ date -> Forall is_byte idBytes -> kind req = DATA_BODY -> Serialize date idBytes opts req bufLen = HttpClient.SER_OK out ->
  out = message_text date idBytes (heloName opts) req /\ Z.of_nat (length out) <= bufLen /\ Forall (fun l => LF ∉ l) (message_lines date idBytes (heloName opts) req).
Proof.
  intros Hb Hd Hi Hk. unfold Serialize. rewrite Hk. destruct (_ || _) eqn:Hf; [done|]. destruct (find_char NUL (body req)); [done|].
  destruct (append_message _ _ _ _ _) as [w|] eqn:E; [|done]. intros [= <-].
  assert (Hh : HasInjectionBytes (heloName opts) = false /\ date <> []).
  { unfold append_message in E. unfold AppendGeneratedHeaders in E. destruct (HasInjectionBytes (heloName opts)); [|split; [done|intros ->]];
      exfalso; revert E; do 5 (match goal with |- obind ?a _ = _ -> _ => destruct a; cbn [obind]; [|done] end); destruct (append_all _ _); cbn [obind]; done. }
  destruct Hh as [Hh Hne]. apply (wrote_text _ _ _ _ Hb (append_message_appends date idBytes _ req Hh Hne)) in E as [-> E]. split; [done|]. split; [done|].
  unfold message_lines. apply Forall_app; split; [by apply header_lines_no_LF|]. constructor; [apply not_elem_of_nil|apply body_lines_no_LF].
Qed.

(** C14: A mail is one message.  Every command but the message itself is one line; a relay
    that reads the data of a message up to the line of one dot, and takes a leading dot off
    each line, gets exactly the header lines, an empty line and the lines of the body, and
    nothing is left after them: no field can add a header or a command, and no body can end
    the data early.  This holds for a relay that ends lines at CRLF only and for one that
    takes a lone LF.  A message is written whenever no field has a CR, LF or NUL, the body no
    NUL, and it fits.  The date is what [strftime] writes. *)
Theorem mail_is_one_message date idBytes opts req bufLen : 0 <= bufLen -> LF ∉ date -> Forall is_byte idBytes ->
  (forall out, Serialize date idBytes opts req bufLen = HttpClient.SER_OK out ->
     if bool_decide (kind req = DATA_BODY) then
       let message := Some (message_lines date idBytes (heloName opts) req, [[]]) in read_data (lf_lines out) = message /\ read_data (crlf_lines out) = message
     else lf_lines out = [command_line req; []] /\ crlf_lines out = [command_line req; []]) /\
  (kind req = DATA_BODY -> forallb (fun f => negb (HasInjectionBytes f)) [fromAddr req; fromName req; toAddr req; toName req; subject req; replyTo req; heloName opts] = true ->
     NUL ∉ body req -> date <> [] -> Z.of_nat (length (message_text date idBytes (heloName opts) req)) <= bufLen ->
     Serialize date idBytes opts req bufLen = HttpClient.SER_OK (message_text date idBytes (heloName opts) req)).
Proof.
  intros Hb Hd Hi. split.
  - intros out Ho. case_bool_decide as Hk.
    + destruct (Serialize_message _ _ _ _ _ _ Hb Hd Hi Hk Ho) as (-> & _ & Hl). cbv zeta. rewrite message_lines_stuffed.
      assert (Hs : Forall (fun l => LF ∉ l) (map stuff (message_lines date idBytes (heloName opts) req) ++ [[DOT]])).
      { apply Forall_app; split; [|by no_LF]. apply Forall_map. eapply Forall_impl; [exact Hl|]. exact stuff_no_LF. }
      rewrite lf_lines_ended, crlf_lines_ended by done. rewrite <- app_assoc. split; apply read_data_stuffed.
    + destruct (Serialize_command _ _ _ _ _ _ Hb Hk Ho) as [-> Hl]. rewrite lf_lines_ended, crlf_lines_ended by (by constructor). done.
  - intros Hk Hf Hn Hne Hfit. cbn [forallb] in Hf. rewrite !andb_true_iff, !negb_true_iff in Hf. destruct Hf as (F1 & F2 & F3 & F4 & F5 & F6 & F7 & _).
    unfold Serialize. rewrite Hk, F1, F2, F3, F4, F5, F6. cbn [orb]. rewrite (proj2 (find_char_None _ _) Hn), append_message_appends by (try done; unfold fits; cbn; lia).
    unfold wrote. cbn [HttpClient.written_ HttpClient.cap_ app]. by rewrite (proj2 (Z.leb_le _ _) Hfit).
Qed.

Definition w_options : SmtpOptions := Options (lit "me") (lit "ann") (lit "pw") 64 8.
Definition w_mail : SmtpCmd := DataBody (lit "a@x") (lit "Ann") (lit "b@y") [] (lit "hi") (lit "one" ++ [LF] ++ lit "." ++ [LF] ++ lit "..two" ++ crlf) [].
Definition w_date : bytes := lit "Wed, 02 Aug 2026 14:23:01 +0000".

Lemma mail_is_one_message_witness :
  (forall out, Serialize w_date [1; 255] w_options w_mail 400 = HttpClient.SER_OK out ->
     let message := Some (message_lines w_date [1; 255] (lit "me") w_mail, [[]]) in read_data (lf_lines out) = message /\ read_data (crlf_lines out) = message) /\
  Serialize w_date [1; 255] w_options w_mail 400 = HttpClient.SER_OK (message_text w_date [1; 255] (lit "me") w_mail).
Proof.
  destruct (mail_is_one_message w_date [1; 255] w_options w_mail 400) as [H1 H2].
  - lia.
  - by apply lit_no_LF.
  - repeat constructor; lia.
  - split; [exact H1|]. apply H2; [done|done| |done|by vm_compute]. apply find_char_None. done.
Defined.



Example w_mail_body : drop 163 (message_text w_date [1; 255] (lit "me") w_mail) = lit "one" ++ crlf ++ lit ".." ++ crlf ++ lit "...two" ++ crlf ++ crlf ++ lit "." ++ crlf.
Proof. vm_compute. reflexivity. Qed.

(** ** The handshake *)

Lemma feed_loop_total lim f : forall inp r, (length inp <= f)%nat -> exists x, feed_loop lim f inp r = Some x.
Proof.
  induction f as [|f IH]; intros inp r Hf; destruct inp as [|c inp]; cbn [feed_loop]; [by eexists|cbn in Hf; lia|by eexists|].
  destruct (ReadLine _ _ _) as [[|line rest|] acc] eqn:E; [by eexists| |by eexists].
  destruct (ParseResponseLine (cleared _ line)) as [[[lc fl] t]|]; [|by eexists]. cbv zeta. repeat (case_match; try by eexists). apply IH.
  apply HttpClient.ReadLine_rest in E as (k & -> & Hk). rewrite length_drop. cbn [length] in *. lia.
Qed.

Lemma Feed_total lim inp r : exists x, Feed lim inp r = Some x.
Proof. by apply feed_loop_total. Qed.

Definition conn_of {A} (m : stage A) : Conn := match m with Suspended c | Next _ c => c end.
(** A part of the script is used, nothing else is done. *)
Definition only_reads (c c1 : Conn) : Prop := log c1 = log c /\ secure c1 = secure c /\ exists s, script c = s ++ script c1.

Lemma only_reads_refl c : only_reads c c.
Proof. split; [done|]. split; [done|]. by exists []. Qed.
Lemma only_reads_trans c1 c2 c3 : only_reads c1 c2 -> only_reads c2 c3 -> only_reads c1 c3.
Proof. intros (A1 & A2 & s & A3) (B1 & B2 & t & B3). split; [congruence|]. split; [congruence|]. exists (s ++ t). by rewrite A3, B3, app_assoc. Qed.

Lemma SlotReceive_reads n c : only_reads c (conn_of (SlotReceive n c)).
Proof.
  unfold SlotReceive. destruct (_ <? _)%nat; [apply only_reads_refl|]. cbn [script]. destruct (script c) as [|[data|] s] eqn:E; (split; [done|split; [done|]]); cbn [script conn_of].
  - by exists [].
  - by exists [Completed data].
  - by exists [Failed].
Qed.

Lemma read_rounds_reads f opts : forall resp pending c, only_reads c (conn_of (read_rounds f opts resp pending c)).
Proof.
  induction f as [|f IH]; intros resp pending c; cbn [read_rounds]; [apply only_reads_refl|]. pose proof (SlotReceive_reads pending c) as H.
  destruct (SlotReceive pending c) as [c1|recv c1]; [done|]. cbn [bind conn_of] in *. destruct recv as [buf|]; [|done].
  destruct (Feed opts buf resp) as [[[[] rest] r]|]; [|done|done]. cbv zeta. destruct (done_ r); [done|]. exact (only_reads_trans _ _ _ H (IH _ _ _)).
Qed.

(** Enough rounds: each takes an answer, and none is left when it stops for one. *)
Lemma read_rounds_enough f opts : forall g resp pending c, (length (script c) < f)%nat -> (length (script c) < g)%nat -> read_rounds f opts resp pending c = read_rounds g opts resp pending c.
Proof.
  induction f as [|f IH]; intros [|g] resp pending c Hf Hg; [lia..|]. cbn [read_rounds]. destruct (SlotReceive pending c) as [c1|recv c1] eqn:E; [done|]. cbn [bind].
  destruct recv as [buf|]; [|done]. destruct (Feed opts buf resp) as [[[[] rest] r]|]; [|done..]. cbv zeta. destruct (done_ r); [done|].
  unfold SlotReceive in E. destruct (_ <? _)%nat; [done|]. cbn [script] in E. destruct (script c) as [|[data|] s] eqn:Es; [done| |done]. injection E as _ <-. cbn [length] in *. apply IH; cbn [script]; lia.
Qed.

(** Waiting for a reply: the connection ends or waits, or the reply is the wanted one. *)
Lemma expecting_cases opts want pending k c :
  (exists c1, (expecting opts want pending k c = Suspended c1 \/ expecting opts want pending k c = Next FATAL c1) /\ only_reads c c1) \/
  (exists r p c1, expecting opts want pending k c = k r p c1 /\ only_reads c c1).
Proof.
  unfold expecting, ReadResponse. pose proof (read_rounds_reads (S (length (script c))) opts new_line_response pending c) as H.
  destruct (read_rounds _ _ _ _ _) as [c1|[r p] c1]; cbn [bind conn_of] in *; [left; eexists; split; [by left|done]|].
  destruct (_ || _); [left; eexists; split; [by right|done]|]. right. by exists r, p, c1.
Qed.

Definition sends (data : bytes) (c c1 : Conn) : Prop := log c1 = log c ++ [Sent (secure c) data] /\ secure c1 = secure c /\ exists s, script c = s ++ script c1.

Lemma sending_cases data k c :
  (exists c1, (sending data k c = Suspended c1 \/ sending data k c = Next FATAL c1) /\ sends data c c1) \/ (exists c1, sending data k c = k c1 /\ sends data c c1).
Proof.
  unfold sending, SlotSend. cbn [script inbox secure log]. destruct (script c) as [|[d|] s] eqn:E; cbn [bind].
  - left. eexists. split; [by left|]. split; [done|]. split; [done|]. cbn [script]. by exists [].
  - right. eexists. split; [done|]. split; [done|]. split; [done|]. cbn [script]. by exists [Completed d].
  - left. eexists. split; [by right|]. split; [done|]. split; [done|]. cbn [script]. by exists [Failed].
Qed.

(** A coroutine does the beginning of one of these, and the whole of it when it is ready. *)
Definition follows (full : list (list event)) (before : list event) (m : stage ConnectResult) : Prop :=
  exists f l, f ∈ full /\ log (conn_of m) = before ++ l /\ l `prefix_of` f /\ (forall c, m = Next READY c -> l = f).

Lemma follows_stop full before m : full <> [] -> log (conn_of m) = before -> (forall c, m <> Next READY c) -> follows full before m.
Proof.
  intros Hf Hl Hr. destruct full as [|f full]; [done|]. exists f, []. rewrite app_nil_r. split; [by left|]. split; [done|]. split; [apply prefix_nil|]. intros c E. by apply Hr in E.
Qed.

Lemma expecting_follows full opts want pending k c : full <> [] ->
  (forall r p c1, only_reads c c1 -> follows full (log c) (k r p c1)) -> follows full (log c) (expecting opts want pending k c).
Proof.
  intros Hf Hk. destruct (expecting_cases opts want pending k c) as [(c1 & [-> | ->] & H1 & _)|(r & p & c1 & -> & H1)]; [by apply follows_stop..|]. by apply Hk.
Qed.

Lemma sending_follows full data k c : full <> [] ->
  (forall c1, sends data c c1 -> follows full (log c1) (k c1)) -> follows (map (cons (Sent (secure c) data)) full) (log c) (sending data k c).
Proof.
  intros Hf Hk. assert (Hstop : forall m, log (conn_of m) = log c ++ [Sent (secure c) data] -> (forall c, m <> Next READY c) -> follows (map (cons (Sent (secure c) data)) full) (log c) m).
  { intros m Hl Hr. destruct full as [|f full]; [done|]. exists (Sent (secure c) data :: f), [Sent (secure c) data]. split; [by left|]. split; [done|].
    split; [exists f; done|]. intros c1 E. by apply Hr in E. }
  destruct (sending_cases data k c) as [(c1 & [-> | ->] & H1 & _)|(c1 & -> & H1)]; [by apply Hstop..|].
  destruct (Hk c1 H1) as (f & l & F1 & F2 & F3 & F4). exists (Sent (secure c) data :: f), (Sent (secure c) data :: l). destruct H1 as (E & _ & _).
  split; [by apply list_elem_of_fmap_2|]. split; [rewrite F2, E, <- app_assoc; done|]. split; [by apply prefix_cons|]. intros c2 Er. by rewrite (F4 c2 Er).
Qed.

Lemma follows_weaken full full' before m : follows full before m -> (forall f, f ∈ full -> f ∈ full') -> follows full' before m.
Proof. intros (f & l & F1 & F2) H. exists f, l. split; [by apply H|done]. Qed.


(** The sends of a complete handshake, by the mechanism. *)
Definition clear_log (opts : SmtpOptions) : list event := [Sent false (ehlo_line opts); Sent false (lit "STARTTLS" ++ crlf); Upgraded].
Definition auth_logs (opts : SmtpOptions) : list (list event) :=
  [[Sent true (plain_line opts)]; [Sent true (lit "AUTH LOGIN" ++ crlf); Sent true (user_line opts); Sent true (pass_line opts)]].
Definition secure_logs (opts : SmtpOptions) : list (list event) := map (cons (Sent true (ehlo_line opts))) (auth_logs opts).
Definition full_logs (opts : SmtpOptions) : list (list event) := map (app (clear_log opts)) (secure_logs opts).

Lemma authenticated_follows opts pending c : follows [[]] (log c) (authenticated opts pending c).
Proof.
  unfold authenticated. apply expecting_follows; [done|]. intros r p c1 (E & _ & _). exists [], []. split; [by left|]. cbn [conn_of]. rewrite app_nil_r. done.
Qed.

Lemma authenticate_follows opts r pending c : secure c = true -> follows (auth_logs opts) (log c) (authenticate opts r pending c).
Proof.
  intros Hs. unfold authenticate, auth_logs. destruct (hasAuthPlain r); [|destruct (hasAuthLogin r)].
  - eapply follows_weaken; [apply (sending_follows [[]]); [done|]|].
    + intros c1 _. apply authenticated_follows.
    + rewrite Hs. intros f [->|?%elem_of_nil]%elem_of_cons; [by left|done].
  - eapply follows_weaken; [apply (sending_follows [[Sent true (user_line opts); Sent true (pass_line opts)]]); [done|]|].
    + intros c1 (_ & S1 & _). apply expecting_follows; [done|]. intros r1 p1 c2 (E2 & S2 & _). rewrite <- E2.
      pose proof (sending_follows [[Sent true (pass_line opts)]] (user_line opts)) as H. rewrite S1, Hs in S2. specialize (H (expecting opts SMTP_AUTH_CONTINUE p1 (fun _ p => sending (pass_line opts) (authenticated opts p))) c2).
      rewrite S2 in H. apply H; [done|]. intros c3 (_ & S3 & _). apply expecting_follows; [done|]. intros r3 p3 c4 (E4 & S4 & _). rewrite <- E4. rewrite S3, S2 in S4.
      pose proof (sending_follows [[]] (pass_line opts) (authenticated opts p3) c4) as H'. rewrite S4 in H'. apply H'; [done|]. intros c5 _. apply authenticated_follows.
    + rewrite Hs. intros f [->|?%elem_of_nil]%elem_of_cons; [by right; left|done].
  - by apply follows_stop.
Qed.

Lemma secure_follows opts c : secure c = true -> follows (secure_logs opts) (log c) (secure_phase opts c).
Proof.
  intros Hs. unfold secure_phase, secure_logs. pose proof (sending_follows (auth_logs opts) (ehlo_line opts) (expecting opts SMTP_OK 0 (authenticate opts)) c) as H. rewrite Hs in H.
  apply H; [done|]. intros c1 (_ & S1 & _). apply expecting_follows; [done|]. intros r p c2 (E2 & S2 & _). rewrite <- E2. apply authenticate_follows. by rewrite S2, S1.
Qed.

(** The part in the clear: it stops with no more said than EHLO and STARTTLS, or what
    follows is the secure phase of a connection with an empty buffer. *)
Lemma clear_phase opts c : log c = [] -> secure c = false ->
  (log (conn_of (SmtpOnConnect opts c)) `prefix_of` [Sent false (ehlo_line opts); Sent false (lit "STARTTLS" ++ crlf)] /\ forall c1, SmtpOnConnect opts c <> Next READY c1) \/
  (exists s1 s2, script c = s1 ++ s2 /\ SmtpOnConnect opts c = secure_phase opts (Slot s2 [] true (clear_log opts))).
Proof.
  intros Hl Hs. unfold SmtpOnConnect. destruct (HasInjectionBytes _); [left; cbn [conn_of]; rewrite Hl; split; [apply prefix_nil|done]|].
  destruct (expecting_cases opts SMTP_READY 0 (fun _ pending => sending (ehlo_line opts) (expecting opts SMTP_OK pending (fun ehlo1 pending => if negb (hasStartTls ehlo1) then Next FATAL else
    sending (lit "STARTTLS" ++ crlf) (expecting opts SMTP_READY pending (fun _ _ c => bind (SlotUpgradeTls c) (fun up c => if (up : bool) then secure_phase opts c else Next FATAL c)))))) c)
    as [(c1 & E & L1 & _)|(r & p & c1 & -> & L1 & S1 & t1 & X1)].
  { left. rewrite Hl in L1. by destruct E as [-> | ->]; cbn [conn_of]; rewrite L1; (split; [apply prefix_nil|]). }
  rewrite Hl in L1. rewrite Hs in S1.
  match goal with |- context [sending ?d ?k c1] => destruct (sending_cases d k c1) as [(c2 & E & L2 & _)|(c2 & -> & L2 & S2 & t2 & X2)] end.
  { left. rewrite L1, S1 in L2. destruct E as [-> | ->]; cbn [conn_of]; rewrite L2; (split; [by eexists|done]). }
  rewrite L1, S1 in L2. rewrite S1 in S2. cbn [app] in L2.
  match goal with |- context [expecting _ _ p ?k c2] => destruct (expecting_cases opts SMTP_OK p k c2) as [(c3 & E & L3 & _)|(r3 & p3 & c3 & -> & L3 & S3 & t3 & X3)] end.
  { left. rewrite L2 in L3. destruct E as [-> | ->]; cbn [conn_of]; rewrite L3; (split; [by eexists|done]). }
  rewrite L2 in L3. rewrite S2 in S3. destruct (negb (hasStartTls r3)).
  { left. cbn [conn_of]. rewrite L3. split; [by eexists|done]. }
  match goal with |- context [sending ?d ?k c3] => destruct (sending_cases d k c3) as [(c4 & E & L4 & _)|(c4 & -> & L4 & S4 & t4 & X4)] end.
  { left. rewrite L3, S3 in L4. destruct E as [-> | ->]; cbn [conn_of]; rewrite L4; (split; [by eexists|done]). }
  rewrite L3, S3 in L4. rewrite S3 in S4. cbn [app] in L4.
  match goal with |- context [expecting _ _ p3 ?k c4] => destruct (expecting_cases opts SMTP_READY p3 k c4) as [(c5 & E & L5 & _)|(r5 & p5 & c5 & -> & L5 & S5 & t5 & X5)] end.
  { left. rewrite L4 in L5. destruct E as [-> | ->]; cbn [conn_of]; rewrite L5; (split; [by eexists|done]). }
  rewrite L4 in L5. rewrite S4 in S5. unfold SlotUpgradeTls. rewrite S5. cbn [script secure log]. destruct (script c5) as [|[d|] s2] eqn:X6; cbn [bind].
  1,3: left; cbn [conn_of log]; rewrite L5; (split; [by eexists|done]).
  right. exists (t1 ++ t2 ++ t3 ++ t4 ++ t5 ++ [Completed d]), s2. split; [by rewrite X1, X2, X3, X4, X5, <- !app_assoc|]. by rewrite L5.
Qed.


(** C13: Credentials travel over TLS only.  Whatever the relay answers, and wherever it
    stops answering, a new connection has sent the beginning of one of two sequences: EHLO
    and STARTTLS in the clear, then, after the upgrade, EHLO again and AUTH by PLAIN or by
    LOGIN; it is ready only after the whole of it.  In the clear it sends nothing but EHLO
    and STARTTLS; and what follows the upgrade is what a connection does that has read
    nothing, so bytes injected before the handshake have no effect after it. *)
Theorem credentials_only_over_tls opts c : log c = [] -> secure c = false ->
  let r := SmtpOnConnect opts c in
  (exists f, f ∈ full_logs opts /\ log (conn_of r) `prefix_of` f /\ (forall c1, r = Next READY c1 -> log c1 = f)) /\
  (forall d, Sent false d ∈ log (conn_of r) -> d = ehlo_line opts \/ d = lit "STARTTLS" ++ crlf) /\
  (Upgraded ∈ log (conn_of r) -> exists s1 s2, script c = s1 ++ s2 /\ r = secure_phase opts (Slot s2 [] true (clear_log opts))).
Proof.
  intros Hl Hs r.
  assert (Hfull : exists f, f ∈ full_logs opts /\ log (conn_of r) `prefix_of` f /\ (forall c1, r = Next READY c1 -> log c1 = f)).
  { destruct (clear_phase opts c Hl Hs) as [[Hp Hr]|(s1 & s2 & _ & E)].
    - eexists. split; [left|]. split; [etrans; [exact Hp|by eexists]|]. intros c1 E. by apply Hr in E.
    - destruct (secure_follows opts (Slot s2 [] true (clear_log opts)) eq_refl) as (f & l & F1 & F2 & F3 & F4). fold r in E. rewrite <- E in *. cbn [log] in F2. exists (clear_log opts ++ f).
      split; [by apply list_elem_of_fmap_2|]. split; [rewrite F2; by apply prefix_app|]. intros c1 E1. rewrite <- (F4 c1 E1), <- F2. by rewrite E1. }
  split; [done|]. split.
  - intros d Hd. destruct Hfull as (f & F1 & [t F2] & _). assert (Hin : Sent false d ∈ f) by (rewrite F2; apply elem_of_app; by left).
    unfold full_logs, secure_logs, auth_logs, clear_log in F1. cbn [map app] in F1.
    repeat (apply elem_of_cons in F1 as [->|F1]; [repeat (apply elem_of_cons in Hin as [Hin|Hin]; [try discriminate Hin; injection Hin as ->; auto|]); by apply elem_of_nil in Hin|]). by apply elem_of_nil in F1.
  - intros Hu. destruct (clear_phase opts c Hl Hs) as [[[t Hp] _]|H]; [|done]. exfalso.
    assert (Hin : Upgraded ∈ [Sent false (ehlo_line opts); Sent false (lit "STARTTLS" ++ crlf)]) by (rewrite Hp; apply elem_of_app; by left).
    repeat (apply elem_of_cons in Hin as [Hin|Hin]; [done|]). by apply elem_of_nil in Hin.
Qed.

(** A relay that offers both mechanisms; bytes are injected behind its STARTTLS answer. *)
Definition w_relay : list answer :=
  [Completed (lit "220 hello" ++ crlf); Completed []; Completed (lit "250-mx" ++ crlf ++ lit "250-AUTH PLAIN" ++ crlf); Completed (lit "250 starttls" ++ crlf); Completed [];
   Completed (lit "220 go" ++ crlf ++ lit "250 AUTH LOGIN" ++ crlf); Completed []; Completed []; Completed (lit "250-AUTH LOGIN Plain" ++ crlf ++ lit "250 OK" ++ crlf); Completed []; Completed (lit "235 fine" ++ crlf)].

Lemma credentials_only_over_tls_witness :
  let r := SmtpOnConnect w_options (Slot w_relay [] false []) in
  (exists f, f ∈ full_logs w_options /\ log (conn_of r) `prefix_of` f /\ (forall c1, r = Next READY c1 -> log c1 = f)) /\
  (forall d, Sent false d ∈ log (conn_of r) -> d = ehlo_line w_options \/ d = lit "STARTTLS" ++ crlf) /\
  (Upgraded ∈ log (conn_of r) -> exists s1 s2, script (Slot w_relay [] false []) = s1 ++ s2 /\ r = secure_phase w_options (Slot s2 [] true (clear_log w_options))).
Proof. apply (credentials_only_over_tls w_options (Slot w_relay [] false [])); reflexivity. Defined.

Example w_relay_ready : (match SmtpOnConnect w_options (Slot w_relay [] false []) with Next a c => Some (a, log c) | _ => None end) =
  Some (READY, clear_log w_options ++ [Sent true (lit "EHLO me" ++ crlf); Sent true (lit "AUTH PLAIN AGFubgBwdw==" ++ crlf)]).
Proof. vm_compute. reflexivity. Qed.

(** Without STARTTLS there is no AUTH. *)
Example w_no_starttls : (match SmtpOnConnect w_options (Slot [Completed (lit "220 x" ++ crlf); Completed []; Completed (lit "250 AUTH PLAIN" ++ crlf)] [] false []) with Next a c => Some (a, log c) | _ => None end) =
  Some (FATAL, [Sent false (lit "EHLO me" ++ crlf)]).
Proof. vm_compute. reflexivity. Qed.

(** ** Replies in pieces, and sending a mail *)

(** The commands of an exchange. *)
Definition exchange (fromAddr fromName toAddr toName subject body replyTo : bytes) : list SmtpCmd :=
  [MailFrom fromAddr; RcptTo toAddr; DataStart; DataBody fromAddr fromName toAddr toName subject body replyTo].

(** The relay took every step. *)
Definition all_taken (replies : list (EndpointStatus * option SmtpResponse)) : Prop :=
  exists r1 r2 r3 r4 rest, replies = (EpOk, Some r1) :: (EpOk, Some r2) :: (EpOk, Some r3) :: (EpOk, Some r4) :: rest /\ Success r1 = true /\ Success r2 = true /\ Continue r3 = true /\ Success r4 = true.


Lemma transact_step cmd good k replies : let '(cmds, out) := transact cmd good k replies in
  (exists r rest, replies = (EpOk, Some r) :: rest /\ good r = true /\ (cmds, out) = (cmd :: (k rest (Outcome EpOk false (Some r))).1, (k rest (Outcome EpOk false (Some r))).2)) \/
  (cmds = [cmd] /\ (forall r rest, replies = (EpOk, Some r) :: rest -> good r = false) /\ match out with Some o => accepted o = false /\ replies <> [] | None => replies = [] end).
Proof.
  unfold transact. destruct replies as [|[s r] rest]; [by right|]. destruct s, r as [r|]; cbn [andb]; try (right; split; [done|]; split; [intros ? ? E; discriminate E|split; [reflexivity|discriminate]]).
  destruct (good r) eqn:E; [|right; split; [done|]; split; [intros r' rest' E1; injection E1 as <- <-; exact E|split; [reflexivity|discriminate]]]. destruct (k rest (Outcome EpOk false (Some r))) as [c o] eqn:Ek. left. exists r, rest. by rewrite Ek.
Qed.

(** The exchange as a list of steps. *)
Fixpoint steps (l : list (SmtpCmd * (SmtpResponse -> bool))) (out : SmtpSendOutcome) (replies : list (EndpointStatus * option SmtpResponse)) : list SmtpCmd * option SmtpSendOutcome :=
  match l with
  | [] => ([], Some (Outcome (status out) true (response out)))
  | (cmd, good) :: l => transact cmd good (fun replies out => steps l out replies) replies
  end.

Fixpoint taken (l : list (SmtpCmd * (SmtpResponse -> bool))) (replies : list (EndpointStatus * option SmtpResponse)) : Prop :=
  match l with
  | [] => True
  | (_, good) :: l => exists r rest, replies = (EpOk, Some r) :: rest /\ good r = true /\ taken l rest
  end.

Lemma steps_taken l : forall out replies, let '(cmds, o) := steps l out replies in
  cmds `prefix_of` map fst l /\ (forall x, o = Some x -> accepted x = true <-> taken l replies) /\ (o = None -> length cmds = S (length replies)).
Proof.
  induction l as [|[cmd good] l IH]; intros out replies; [split; [done|]; split; [by intros ? [= <-]|done]|]. cbn [steps taken map fst].
  match goal with |- context [transact ?c ?g ?k replies] => pose proof (transact_step c g k replies) as H; destruct (transact c g k replies) as [cmds o] end.
  destruct H as [(r & rest & -> & G & E)|(-> & HG & Ho)].
  - specialize (IH (Outcome EpOk false (Some r)) rest). destruct (steps l _ rest) as [cs o'] eqn:Es. cbn [fst snd] in E. injection E as -> ->. destruct IH as (I1 & I2 & I3).
    split; [by apply prefix_cons|]. split; [|by intros E; cbn; rewrite I3]. intros x Hx. rewrite (I2 x Hx). split; [by exists r, rest|]. by intros (? & ? & [= <- <-] & _ & T).
  - split; [by eexists|]. split; [|by intros ->; subst]. intros x ->. destruct Ho as [-> _]. split; [done|]. intros (r & rest & E & G & _). by rewrite (HG _ _ E) in G.
Qed.

(** A mail counts as accepted exactly when the relay took all of MAIL, RCPT, DATA and the
    message, in this order; no command is sent unless all before it were taken, and while
    there is no outcome every command but the last has its reply. *)
Theorem SendMail_accepted fromAddr fromName toAddr toName subject body replyTo replies :
  let '(cmds, out) := SendMail true fromAddr fromName toAddr toName subject body replyTo replies in
  cmds `prefix_of` exchange fromAddr fromName toAddr toName subject body replyTo /\
  (forall o, out = Some o -> accepted o = true <-> all_taken replies) /\ (out = None -> length cmds = S (length replies)).
Proof.
  pose proof (steps_taken [(MailFrom fromAddr, Success); (RcptTo toAddr, Success); (DataStart, Continue); (DataBody fromAddr fromName toAddr toName subject body replyTo, Success)] new_outcome replies) as H.
  change (steps _ _ replies) with (SendMail true fromAddr fromName toAddr toName subject body replyTo replies) in H. destruct (SendMail _ _ _ _ _ _ _ _ _) as [cmds out].
  destruct H as (H1 & H2 & H3). split; [done|]. split; [|done]. intros o Ho. rewrite (H2 o Ho). cbn [taken]. split.
  - intros (r1 & ? & -> & G1 & r2 & ? & -> & G2 & r3 & ? & -> & G3 & r4 & l & -> & G4 & _). by exists r1, r2, r3, r4, l.
  - intros (r1 & r2 & r3 & r4 & l & -> & G1 & G2 & G3 & G4). do 4 (eexists _, _; split; [reflexivity|]; split; [assumption|]). exact I.
Qed.

(** A reply is read in as many rounds as it has lines. *)
Lemma reply_total lim eof buf st res : exists r, Parse lim eof buf st res = Some r.
Proof.
  unfold Parse. assert (Hf : (length buf < S (length buf))%nat) by lia. revert Hf. generalize (S (length buf)) as f. intros f. revert buf st.
  induction f as [|f IH]; intros buf st Hf; [lia|]. cbn [parse_loop]. destruct (ReadLine _ _ _) as [[|line rest|] acc] eqn:E; [by eexists| |by eexists].
  destruct (ParseResponseLine (cleared _ line)) as [[[lc fl] t]|]; [|by eexists]. cbv zeta. repeat (case_match; try by eexists). apply IH.
  apply HttpClient.ReadLine_rest in E as (k & -> & Hk). rewrite length_drop. lia.
Qed.

Lemma cleared_refused acc line : acc <> [] -> ParseResponseLine (cleared acc line) = None.
Proof. intros Ha. destruct acc as [|a acc]; [done|]. destruct line as [|c line]; [done|]. unfold ParseResponseLine. by destruct line as [|? [|? line]]. Qed.

(** A line that came in two pieces is refused, whatever it says: between commands and in the
    handshake. *)
Lemma split_line_refused lim eof acc pre rest code n res : acc <> [] -> LF ∉ pre -> Z.of_nat (length acc + length pre) <= maxResponseLineBytes lim ->
  result <$> Parse lim eof (pre ++ LF :: rest) (PS acc code n) res = Some HttpClient.PARSE_ERROR.
Proof.
  intros Ha Hp Hl. unfold Parse. cbn [parse_loop lineAcc]. unfold HttpClient.ReadLine. rewrite HttpClient.find_char_app_in by done. destruct acc as [|a acc]; [done|].
  rewrite (proj2 (Z.ltb_ge _ _)) by lia. by rewrite cleared_refused.
Qed.

Lemma split_line_ends_handshake lim r pre rest : llineAcc r <> [] -> LF ∉ pre -> Z.of_nat (length (llineAcc r) + length pre) <= maxResponseLineBytes lim ->
  (fun x => fst (fst x)) <$> Feed lim (pre ++ LF :: rest) r = Some false.
Proof.
  intros Ha Hp Hl. unfold Feed. assert (E : exists c l, pre ++ LF :: rest = c :: l) by (destruct pre; by eexists _, _). destruct E as (c & l & E). rewrite E. cbn [length feed_loop]. rewrite <- E.
  unfold HttpClient.ReadLine. rewrite HttpClient.find_char_app_in by done. destruct (llineAcc r) as [|a acc] eqn:Er; [done|].
  rewrite (proj2 (Z.ltb_ge _ _)) by lia. by rewrite cleared_refused.
Qed.

(** So a relay whose answer arrives cut inside a line is never ready. *)
Example w_split_answer : (match SmtpOnConnect w_options (Slot [Completed (lit "220 he"); Completed (lit "llo" ++ crlf)] [] false []) with Next a c => Some (a, log c) | _ => None end) = Some (FATAL, []).
Proof. vm_compute. reflexivity. Qed.

End Smtp.
