(* ===== verification/PgProtocol.v ===== *)
(** * PgProtocol: the PostgreSQL wire format of [endpoint/postgres/protocol.hpp]

    The big-endian stores and loads on a little-endian host, [PgWriter] (an append-only
    cursor whose overflow is sticky and whose length fields are patched by [End]),
    [FrameMessage], [PgFieldReader], and the startup messages.  The writer keeps the bytes
    below [pos_]; a buffer is the bytes it holds. *)

From stdpp Require Import list.
From S2P Require Import Prelude Strings Swar Hash.
Import StringUtils.

Module PgProtocol.

(** ** Big endian conversion *)

Definition ToBe16 (v : Z) : Z := u16 (Z.lor (Z.shiftr v 8) (Z.shiftl v 8)).

Definition ToBe32 (v : Z) : Z :=
  Z.lor (Z.lor (Z.lor (Z.shiftr v 24) (Z.land (Z.shiftr v 8) 0x0000FF00)) (Z.land (u32 (Z.shiftl v 8)) 0x00FF0000)) (u32 (Z.shiftl v 24)).

Definition ToBe64 (v : Z) : Z := Z.lor (u64 (Z.shiftl (ToBe32 (u32 v)) 32)) (ToBe32 (u32 (Z.shiftr v 32))).

(** [memcpy] of a word to and from memory, lowest byte first. *)
Definition Store16 (v : Z) : bytes := Hash.le_bytes 2 (ToBe16 v).
Definition Store32 (v : Z) : bytes := Hash.le_bytes 4 (ToBe32 v).
Definition Store64 (v : Z) : bytes := Hash.le_bytes 8 (ToBe64 v).

Definition LoadBe16 (p : bytes) : Z := ToBe16 (Swar.le_word (take 2 p)).
Definition LoadBe32 (p : bytes) : Z := ToBe32 (Swar.le_word (take 4 p)).
Definition LoadBe64 (p : bytes) : Z := ToBe64 (Swar.le_word (take 8 p)).

(** [static_cast] to a signed type of [w] bits. *)
Definition signed (w z : Z) : Z := let u := wrap w z in if u <? 2 ^ (w - 1) then u else u - 2 ^ w.
Abbreviation i16 := (signed 16).
Abbreviation i32 := (signed 32).
Abbreviation i64 := (signed 64).

(** ** Message tags *)

Definition chr (s : string) : Z := at_ (lit s) 0.
Arguments chr s%_string.

Definition FE_BIND : Z := chr "B".
Definition FE_CLOSE : Z := chr "C".
Definition FE_DESCRIBE : Z := chr "D".
Definition FE_EXECUTE : Z := chr "E".
Definition FE_PARSE : Z := chr "P".
Definition FE_PASSWORD : Z := chr "p".
Definition FE_QUERY : Z := chr "Q".
Definition FE_SYNC : Z := chr "S".

Definition BE_AUTHENTICATION : Z := chr "R".
Definition BE_BACKEND_KEY_DATA : Z := chr "K".
Definition BE_BIND_COMPLETE : Z := chr "2".
Definition BE_CLOSE_COMPLETE : Z := chr "3".
Definition BE_COMMAND_COMPLETE : Z := chr "C".
Definition BE_DATA_ROW : Z := chr "D".
Definition BE_EMPTY_QUERY_RESPONSE : Z := chr "I".
Definition BE_ERROR_RESPONSE : Z := chr "E".
Definition BE_NO_DATA : Z := chr "n".
Definition BE_NOTICE_RESPONSE : Z := chr "N".
Definition BE_PARAMETER_DESCRIPTION : Z := chr "t".
Definition BE_PARAMETER_STATUS : Z := chr "S".
Definition BE_PARSE_COMPLETE : Z := chr "1".
Definition BE_PORTAL_SUSPENDED : Z := chr "s".
Definition BE_READY_FOR_QUERY : Z := chr "Z".
Definition BE_ROW_DESCRIPTION : Z := chr "T".

Definition AUTH_OK : Z := 0.
Definition AUTH_CLEARTEXT_PASSWORD : Z := 3.
Definition AUTH_SASL : Z := 10.
Definition AUTH_SASL_CONTINUE : Z := 11.
Definition AUTH_SASL_FINAL : Z := 12.

Definition TX_IDLE : Z := chr "I".

Inductive PgStreamPhase := PHASE_NONE | PHASE_FETCH | PHASE_CLOSE | PHASE_DONE.
#[export] Instance PgStreamPhase_eq_dec : EqDecision PgStreamPhase.
Proof. solve_decision. Defined.

Definition STREAM_PORTAL : bytes := lit "wfxp".

Definition PROTOCOL_3_0 : Z := 196608.
Definition CANCEL_REQUEST_CODE : Z := 80877102.
Definition SSL_REQUEST_CODE : Z := 80877103.

Definition MESSAGE_HEADER_SIZE : nat := 5.
Definition MIN_LENGTH_FIELD : Z := 4.

Definition ERRF_SEVERITY : Z := chr "S".
Definition ERRF_SEVERITY_NONLOCALIZED : Z := chr "V".
Definition ERRF_SQLSTATE : Z := chr "C".
Definition ERRF_MESSAGE : Z := chr "M".
Definition ERRF_DETAIL : Z := chr "D".
Definition ERRF_HINT : Z := chr "H".
Definition ERRF_POSITION : Z := chr "P".
Definition ERRF_SCHEMA_NAME : Z := chr "s".
Definition ERRF_TABLE_NAME : Z := chr "t".
Definition ERRF_COLUMN_NAME : Z := chr "c".
Definition ERRF_CONSTRAINT_NAME : Z := chr "n".

(** ** PgWriter *)

Record PgWriter := Cursor { cap_ : Z; buf_ : bytes; msgLenPos_ : nat; ok_ : bool }.

Definition NewWriter (cap : Z) : PgWriter := Cursor cap [] 0 true.
Definition Ok (w : PgWriter) : bool := ok_ w.
Definition Pos (w : PgWriter) : nat := length (buf_ w).

Definition Fail (w : PgWriter) : PgWriter := Cursor (cap_ w) (buf_ w) (msgLenPos_ w) false.

(** [Reserve(n)], then [k] if there is room. *)
Definition Reserve (n : Z) (k : PgWriter -> PgWriter) (w : PgWriter) : PgWriter :=
  if negb (ok_ w) || (u32 (cap_ w - Z.of_nat (length (buf_ w))) <? n) then Fail w else k w.

(** An unchecked store at [pos_]. *)
Definition Put (bs : bytes) (w : PgWriter) : PgWriter := Cursor (cap_ w) (buf_ w ++ bs) (msgLenPos_ w) (ok_ w).
Definition Put16 (v : Z) : PgWriter -> PgWriter := Put (Store16 v).
Definition Put32 (v : Z) : PgWriter -> PgWriter := Put (Store32 v).
Definition Put64 (v : Z) : PgWriter -> PgWriter := Put (Store64 v).

Definition Patch32 (at' : nat) (v : Z) (w : PgWriter) : PgWriter :=
  Cursor (cap_ w) (take at' (buf_ w) ++ Store32 v ++ drop (at' + 4) (buf_ w)) (msgLenPos_ w) (ok_ w).

Definition U8 (v : Z) : PgWriter -> PgWriter := Reserve 1 (Put [u8 v]).
Definition I16 (v : Z) : PgWriter -> PgWriter := Reserve 2 (Put (Store16 (u16 v))).
Definition I32 (v : Z) : PgWriter -> PgWriter := Reserve 4 (Put (Store32 (u32 v))).
Definition I64 (v : Z) : PgWriter -> PgWriter := Reserve 8 (Put (Store64 (u64 v))).

Definition Bytes (p : bytes) (n : Z) : PgWriter -> PgWriter := Reserve n (Put (take (Z.to_nat n) p)).
Definition Str (s : bytes) : PgWriter -> PgWriter := Bytes s (u32 (Z.of_nat (length s))).
Definition CStr (s : bytes) (w : PgWriter) : PgWriter := U8 0 (Str s w).

Definition set_len_pos (w : PgWriter) : PgWriter := Cursor (cap_ w) (buf_ w) (length (buf_ w)) (ok_ w).

Definition Begin (type : Z) (w : PgWriter) : PgWriter := I32 0 (set_len_pos (U8 type w)).
Definition BeginUntyped (w : PgWriter) : PgWriter := I32 0 (set_len_pos w).

Definition End_ (w : PgWriter) : PgWriter :=
  if ok_ w then Patch32 (msgLenPos_ w) (Z.of_nat (length (buf_ w) - msgLenPos_ w)) w else w.

Definition Field (p : bytes) (n : Z) (w : PgWriter) : PgWriter := let w := I32 n w in if 0 <? n then Bytes p n w else w.
Definition FieldI16 (v : Z) : PgWriter -> PgWriter := Reserve 6 (fun w => Put16 (u16 v) (Put32 4 w)).
Definition FieldI32 (v : Z) : PgWriter -> PgWriter := Reserve 8 (fun w => Put32 (u32 v) (Put32 4 w)).
Definition FieldI64 (v : Z) : PgWriter -> PgWriter := Reserve 12 (fun w => Put64 (u64 v) (Put32 8 w)).
Definition FieldU8 (v : Z) : PgWriter -> PgWriter := Reserve 5 (fun w => Put [u8 v] (Put32 1 w)).
Definition FieldNull : PgWriter -> PgWriter := I32 (-1).

(** ** PgMessage *)

Record PgMessage := Message { mtype : Z; payload : bytes }.

Inductive FrameStatus := FRAME_OK (m : PgMessage) (pos : nat) | NEED_MORE | MALFORMED.

(** One message at [buf + pos]; [None]: bytes past the end of the buffer are read. *)
Definition FrameMessage (buf : bytes) (pos : nat) (maxMessageBytes : Z) : option FrameStatus :=
  let left := u32 (Z.of_nat (length buf) - Z.of_nat pos) in
  if left <? Z.of_nat MESSAGE_HEADER_SIZE then Some NEED_MORE
  else
    let declared := LoadBe32 (drop (pos + 1) buf) in
    if (declared <? MIN_LENGTH_FIELD) || (maxMessageBytes <? declared) then Some MALFORMED
    else
      let total := u32 (declared + 1) in
      if left <? total then Some NEED_MORE
      else
        let n := Z.to_nat (declared - MIN_LENGTH_FIELD) in
        let from := (pos + MESSAGE_HEADER_SIZE)%nat in
        if (from + n <=? length buf)%nat then Some (FRAME_OK (Message (at_ buf pos) (take n (drop from buf))) (pos + Z.to_nat total))
        else None.

(** ** PgFieldReader: the bytes from [p_] to [end_] *)

Record PgFieldReader := Reader { rest_ : bytes; rok : bool }.

Definition ReadMessage (m : PgMessage) : PgFieldReader := Reader (payload m) true.
Definition Empty (r : PgFieldReader) : bool := bool_decide (rest_ r = []).
Definition Remaining (r : PgFieldReader) : Z := if rok r then u32 (Z.of_nat (length (rest_ r))) else 0.

(** [Take(n)], and the bytes taken. *)
Definition Take (n : Z) (r : PgFieldReader) : option bytes * PgFieldReader :=
  if negb (rok r) || (u32 (Z.of_nat (length (rest_ r))) <? n) then (None, Reader (rest_ r) false)
  else (Some (take (Z.to_nat n) (rest_ r)), Reader (drop (Z.to_nat n) (rest_ r)) true).

Definition taking {A} (n : Z) (dflt : A) (f : bytes -> A) (r : PgFieldReader) : A * PgFieldReader :=
  let '(b, r) := Take n r in (match b with None => dflt | Some b => f b end, r).

Definition ReadU8 : PgFieldReader -> Z * PgFieldReader := taking 1 0 (fun b => at_ b 0).
Definition ReadI16 : PgFieldReader -> Z * PgFieldReader := taking 2 0 (fun b => i16 (LoadBe16 b)).
Definition ReadI32 : PgFieldReader -> Z * PgFieldReader := taking 4 0 (fun b => i32 (LoadBe32 b)).
Definition ReadI64 : PgFieldReader -> Z * PgFieldReader := taking 8 0 (fun b => i64 (LoadBe64 b)).
Definition ReadBytes (n : Z) : PgFieldReader -> bytes * PgFieldReader := taking n [] (fun b => b).

Definition ReadCStr (r : PgFieldReader) : bytes * PgFieldReader :=
  if negb (rok r) then ([], r)
  else match find_char NUL (rest_ r) with
       | None => ([], Reader (rest_ r) false)
       | Some n => (take n (rest_ r), Reader (drop (S n) (rest_ r)) true)
       end.

Definition Rest (r : PgFieldReader) : bytes * PgFieldReader :=
  if negb (rok r) then ([], r) else (rest_ r, Reader [] true).

(** ** Startup-phase messages *)

Definition WriteSslRequest (w : PgWriter) : PgWriter := End_ (I32 SSL_REQUEST_CODE (BeginUntyped w)).

Definition WriteCancelRequest (w : PgWriter) (backendPid secretKey : Z) : PgWriter :=
  End_ (I32 secretKey (I32 backendPid (I32 CANCEL_REQUEST_CODE (BeginUntyped w)))).

Definition WriteCancelRequestVariable (w : PgWriter) (backendPid : Z) (secretKey : bytes) : PgWriter :=
  End_ (Str secretKey (I32 backendPid (I32 CANCEL_REQUEST_CODE (BeginUntyped w)))).

(** ** The bytes of a big-endian word *)

Definition be16 (v : Z) : bytes := [v / 256; v mod 256].
Definition be32 (v : Z) : bytes := [v / 2 ^ 24; v / 2 ^ 16 mod 256; v / 256 mod 256; v mod 256].
Definition be64 (v : Z) : bytes := be32 (v / 2 ^ 32) ++ be32 (v mod 2 ^ 32).

Lemma land_byte x k : 0 <= k -> Z.land x (Z.shiftl 255 k) = x / 2 ^ k mod 256 * 2 ^ k.
Proof.
  intros Hk. change 256 with (2 ^ 8). rewrite <- (Z.land_ones _ 8), <- Z.shiftr_div_pow2, <- Z.shiftl_mul_pow2 by lia.
  change (Z.ones 8) with 255. apply Z.bits_inj'. intros n Hn. rewrite Z.land_spec, !Z.shiftl_spec by done.
  destruct (Z.lt_ge_cases n k) as [H|H]; [rewrite !(Z.testbit_neg_r _ (n - k)) by lia; apply andb_false_r|].
  rewrite Z.land_spec, Z.shiftr_spec by lia. by replace (n - k + k) with n by lia.
Qed.

Lemma ToBe16_bytes v : is_uint 16 v -> ToBe16 v = v mod 256 * 256 + v / 256.
Proof.
  unfold is_uint. intros Hv. unfold ToBe16. rewrite Z.lor_comm, Z.shiftl_mul_pow2, Z.shiftr_div_pow2 by lia.
  rewrite lor_add by (Z.to_euclidean_division_equations; lia). unfold wrap. Z.to_euclidean_division_equations; lia.
Qed.

Lemma ToBe32_bytes v : is_uint 32 v -> ToBe32 v = v mod 256 * 2 ^ 24 + (v / 256 mod 256 * 2 ^ 16 + (v / 2 ^ 16 mod 256 * 2 ^ 8 + v / 2 ^ 24)).
Proof.
  unfold is_uint. intros Hv. unfold ToBe32.
  change 0x0000FF00 with (Z.shiftl 255 8). change 0x00FF0000 with (Z.shiftl 255 16). rewrite !land_byte by lia.
  rewrite !Z.shiftr_div_pow2, !Z.shiftl_mul_pow2 by lia. rewrite Z.div_div by lia. change (2 ^ 8 * 2 ^ 8) with (2 ^ 16).
  replace (u32 (v * 2 ^ 8) / 2 ^ 16 mod 256) with (v / 256 mod 256) by (unfold wrap; Z.to_euclidean_division_equations; lia).
  replace (u32 (v * 2 ^ 24)) with (v mod 256 * 2 ^ 24) by (unfold wrap; Z.to_euclidean_division_equations; lia).
  rewrite (Z.lor_comm _ (v mod 256 * _)), (Z.lor_comm _ (v / 256 mod 256 * _)), (Z.lor_comm _ (v / 2 ^ 16 mod 256 * _)).
  assert (H0 : 0 <= v / 2 ^ 24 < 2 ^ 8) by (split; [apply Z.div_pos; lia|apply Z.div_lt_upper_bound; lia]).
  pose proof (Z.mod_pos_bound (v / 2 ^ 16) 256 eq_refl). pose proof (Z.mod_pos_bound (v / 256) 256 eq_refl).
  pose proof (Z.mod_pos_bound v 256 eq_refl).
  rewrite (lor_add (v / 2 ^ 16 mod 256)) by lia. rewrite (lor_add (v / 256 mod 256)) by lia. by rewrite lor_add by lia.
Qed.

Lemma Store16_be v : is_uint 16 v -> Store16 v = be16 v.
Proof.
  unfold is_uint. intros Hv. unfold Store16. rewrite ToBe16_bytes by done. cbn [Hash.le_bytes]. unfold be16.
  f_equal; [|f_equal]; Z.to_euclidean_division_equations; lia.
Qed.

(** Four bytes and the number they are, in either order. *)
Lemma le_bytes_four a b c d : is_byte a -> is_byte b -> is_byte c -> is_byte d -> Hash.le_bytes 4 (a * 2 ^ 24 + (b * 2 ^ 16 + (c * 2 ^ 8 + d))) = [d; c; b; a].
Proof.
  unfold is_byte. intros. cbn [Hash.le_bytes]. repeat (apply (f_equal2 cons); [|]); [| | | |done]; Z.to_euclidean_division_equations; lia.
Qed.

Lemma Store32_be v : is_uint 32 v -> Store32 v = be32 v.
Proof.
  unfold is_uint. intros Hv. unfold Store32. rewrite ToBe32_bytes by done. assert (Hm : forall x, 0 <= x mod 256 < 256) by (intros; by apply Z.mod_pos_bound).
  assert (H0 : 0 <= v / 2 ^ 24 < 256) by (split; [apply Z.div_pos; lia|apply Z.div_lt_upper_bound; lia]).
  rewrite le_bytes_four by (unfold is_byte; first [apply Hm|lia]). done.
Qed.

Lemma le_bytes_app n m v : 0 <= v -> Hash.le_bytes (n + m) v = Hash.le_bytes n (v mod 256 ^ Z.of_nat n) ++ Hash.le_bytes m (v / 256 ^ Z.of_nat n).
Proof.
  revert v. induction n as [|n IH]; intros v Hv; [cbn; by rewrite Z.div_1_r|].
  assert (Hp : 256 ^ Z.of_nat (S n) = 256 * 256 ^ Z.of_nat n) by (rewrite Nat2Z.inj_succ, Z.pow_succ_r by lia; done).
  assert (0 < 256 ^ Z.of_nat n) by (apply Z.pow_pos_nonneg; lia).
  cbn [plus Hash.le_bytes app]. rewrite IH by (apply Z.div_pos; lia). rewrite Hp. f_equal; [|f_equal; f_equal].
  - rewrite Z.rem_mul_r by lia. rewrite Z.mul_comm, Z.mod_add by lia. by rewrite Z.mod_mod by lia.
  - rewrite Z.rem_mul_r by lia. rewrite (Z.mul_comm 256), Z.div_add by lia. pose proof (Z.mod_pos_bound v 256 eq_refl). by rewrite (Z.div_small (v mod 256)) by lia.
  - by rewrite Z.div_div by lia.
Qed.

Lemma Store64_be v : is_uint 64 v -> Store64 v = be64 v.
Proof.
  unfold is_uint. intros Hv. unfold Store64, ToBe64.
  assert (Hb : forall x, is_uint 32 x -> is_uint 32 (ToBe32 x)).
  { intros x Hx. rewrite ToBe32_bytes by done. unfold is_uint in *. Z.to_euclidean_division_equations; lia. }
  assert (Hlo : is_uint 32 (u32 v)) by (apply wrap_range; lia).
  assert (Hhi : is_uint 32 (v / 2 ^ 32)) by (unfold is_uint; Z.to_euclidean_division_equations; lia).
  rewrite Z.shiftr_div_pow2 by lia. rewrite (wrap_small 32 (v / 2 ^ 32)) by exact Hhi. pose proof (Hb _ Hlo) as Bl. pose proof (Hb _ Hhi) as Bh. unfold is_uint in Bl, Bh.
  rewrite (wrap_small 64), Z.shiftl_mul_pow2 by (rewrite ?Z.shiftl_mul_pow2; lia). rewrite lor_add by lia.
  rewrite (le_bytes_app 4 4) by lia. change (256 ^ Z.of_nat 4) with (2 ^ 32).
  set (l := ToBe32 (v / 2 ^ 32)) in *. set (m := ToBe32 (u32 v)) in *.
  replace ((m * 2 ^ 32 + l) mod 2 ^ 32) with l by (Z.to_euclidean_division_equations; lia).
  replace ((m * 2 ^ 32 + l) / 2 ^ 32) with m by (Z.to_euclidean_division_equations; lia). unfold be64.
  rewrite <- (Store32_be (v / 2 ^ 32)) by done. by rewrite <- (Store32_be (v mod 2 ^ 32)) by exact Hlo.
Qed.

Lemma LoadBe16_be v r : is_uint 16 v -> LoadBe16 (be16 v ++ r) = v.
Proof.
  unfold is_uint. intros Hv. unfold LoadBe16, be16. cbn [app take]. rewrite take_0. cbn [Swar.le_word].
  assert (E : exists a b, 0 <= a < 256 /\ 0 <= b < 256 /\ v = a * 256 + b) by (exists (v / 256), (v mod 256); Z.to_euclidean_division_equations; lia).
  destruct E as (a & b & Ha & Hb & ->).
  replace ((a * 256 + b) / 256) with a by (Z.to_euclidean_division_equations; lia).
  replace ((a * 256 + b) mod 256) with b by (Z.to_euclidean_division_equations; lia). rewrite ToBe16_bytes by (unfold is_uint; lia).
  replace ((a + 256 * (b + 256 * 0)) mod 256) with a by (Z.to_euclidean_division_equations; lia).
  replace ((a + 256 * (b + 256 * 0)) / 256) with b by (Z.to_euclidean_division_equations; lia). lia.
Qed.

Lemma LoadBe32_be v r : is_uint 32 v -> LoadBe32 (be32 v ++ r) = v.
Proof.
  unfold is_uint. intros Hv. unfold LoadBe32, be32. cbn [app take]. rewrite take_0. cbn [Swar.le_word].
  assert (E : exists a b c d, 0 <= a < 256 /\ 0 <= b < 256 /\ 0 <= c < 256 /\ 0 <= d < 256 /\ v = a * 2 ^ 24 + (b * 2 ^ 16 + (c * 2 ^ 8 + d))).
  { exists (v / 2 ^ 24), (v / 2 ^ 16 mod 256), (v / 256 mod 256), (v mod 256). Z.to_euclidean_division_equations; lia. }
  destruct E as (a & b & c & d & Ha & Hb & Hc & Hd & ->).
  replace ((a * 2 ^ 24 + (b * 2 ^ 16 + (c * 2 ^ 8 + d))) / 2 ^ 24) with a by (Z.to_euclidean_division_equations; lia).
  replace ((a * 2 ^ 24 + (b * 2 ^ 16 + (c * 2 ^ 8 + d))) / 2 ^ 16 mod 256) with b by (Z.to_euclidean_division_equations; lia).
  replace ((a * 2 ^ 24 + (b * 2 ^ 16 + (c * 2 ^ 8 + d))) / 256 mod 256) with c by (Z.to_euclidean_division_equations; lia).
  replace ((a * 2 ^ 24 + (b * 2 ^ 16 + (c * 2 ^ 8 + d))) mod 256) with d by (Z.to_euclidean_division_equations; lia).
  set (w := a + 256 * (b + 256 * (c + 256 * (d + 256 * 0)))). rewrite ToBe32_bytes by (unfold is_uint, w; lia).
  replace (w mod 256) with a by (unfold w; Z.to_euclidean_division_equations; lia).
  replace (w / 256 mod 256) with b by (unfold w; Z.to_euclidean_division_equations; lia).
  replace (w / 2 ^ 16 mod 256) with c by (unfold w; Z.to_euclidean_division_equations; lia).
  replace (w / 2 ^ 24) with d by (unfold w; Z.to_euclidean_division_equations; lia). lia.
Qed.

Lemma le_word_app a b : Swar.le_word (a ++ b) = Swar.le_word a + 256 ^ Z.of_nat (length a) * Swar.le_word b.
Proof.
  induction a as [|x a IH]; [cbn; lia|]. cbn [app Swar.le_word length]. rewrite IH, Nat2Z.inj_succ, Z.pow_succ_r by lia. lia.
Qed.

Lemma is_byte_be32 v : is_uint 32 v -> Forall is_byte (be32 v).
Proof. unfold is_uint. intros H. unfold be32. repeat constructor; unfold is_byte; Z.to_euclidean_division_equations; lia. Qed.

Lemma LoadBe64_be v r : is_uint 64 v -> LoadBe64 (be64 v ++ r) = v.
Proof.
  unfold is_uint. intros Hv. unfold LoadBe64.
  assert (Hlo : is_uint 32 (v mod 2 ^ 32)) by (unfold is_uint; apply Z.mod_pos_bound; lia).
  assert (Hhi : is_uint 32 (v / 2 ^ 32)) by (unfold is_uint; Z.to_euclidean_division_equations; lia).
  change (take 8 (be64 v ++ r)) with (be32 (v / 2 ^ 32) ++ be32 (v mod 2 ^ 32)). rewrite le_word_app. change (256 ^ Z.of_nat (length (be32 (v / 2 ^ 32)))) with (2 ^ 32).
  pose proof (Swar.le_word_range _ (is_byte_be32 _ Hlo)) as Rl. pose proof (Swar.le_word_range _ (is_byte_be32 _ Hhi)) as Rh.
  change (256 ^ Z.of_nat _) with (2 ^ 32) in Rl, Rh. unfold ToBe64.
  pose proof (LoadBe32_be _ [] Hlo) as El. pose proof (LoadBe32_be _ [] Hhi) as Eh. unfold LoadBe32 in El, Eh. rewrite app_nil_r in El, Eh.
  rewrite take_ge in El, Eh by done. set (wl := Swar.le_word (be32 (v mod 2 ^ 32))) in *. set (wh := Swar.le_word (be32 (v / 2 ^ 32))) in *.
  replace (u32 (wh + 2 ^ 32 * wl)) with wh by (unfold wrap; Z.to_euclidean_division_equations; lia).
  replace (Z.shiftr (wh + 2 ^ 32 * wl) 32) with wl by (rewrite Z.shiftr_div_pow2 by lia; Z.to_euclidean_division_equations; lia).
  rewrite (wrap_small 32 wl), Eh, El by lia. unfold is_uint in Hlo, Hhi.
  rewrite (wrap_small 64), Z.shiftl_mul_pow2 by (rewrite ?Z.shiftl_mul_pow2; lia). rewrite lor_add by lia.
  clearbody wl wh. clear El Eh. Z.to_euclidean_division_equations; lia.
Qed.

Lemma signed_small w z : 0 < w -> - 2 ^ (w - 1) <= z < 2 ^ (w - 1) -> signed w (wrap w z) = z.
Proof.
  intros Hw Hz. unfold signed. rewrite wrap_idem. assert (H : 2 ^ w = 2 * 2 ^ (w - 1)) by (rewrite <- Z.pow_succ_r by lia; f_equal; lia).
  unfold wrap. destruct (Z.lt_ge_cases z 0).
  - rewrite <- (Z.mod_add z 1), Z.mod_small by lia. case_match; lia.
  - rewrite Z.mod_small by lia. case_match; lia.
Qed.

(** ** What the writer writes *)

Definition run (ops : list (PgWriter -> PgWriter)) (w : PgWriter) : PgWriter := fold_left (fun w f => f w) ops w.

(** [Begin], the fields, [End]. *)
Definition message (type : Z) (ops : list (PgWriter -> PgWriter)) (w : PgWriter) : PgWriter := End_ (run ops (Begin type w)).

Definition fits (w : PgWriter) : Prop := Z.of_nat (length (buf_ w)) <= cap_ w < 2 ^ 32.

(** [f] appends [bs] when there is room, and fails when there is not. *)
Definition emits (bs : bytes) (f : PgWriter -> PgWriter) : Prop :=
  forall w, fits w -> fits (f w) /\ cap_ (f w) = cap_ w /\
    (ok_ (f w) = true <-> ok_ w = true /\ Z.of_nat (length (buf_ w) + length bs) <= cap_ w) /\
    (ok_ (f w) = true -> buf_ (f w) = buf_ w ++ bs).

(** The same for an operation that leaves the start of the message where it is. *)
Definition writes (bs : bytes) (f : PgWriter -> PgWriter) : Prop :=
  emits bs f /\ forall w, msgLenPos_ (f w) = msgLenPos_ w.

Lemma emits_seq a b f g : emits a f -> emits b g -> emits (a ++ b) (fun w => g (f w)).
Proof.
  intros Hf Hg w Hw. destruct (Hf w Hw) as (F1 & C1 & O1 & B1). destruct (Hg (f w) F1) as (F2 & C2 & O2 & B2).
  split; [done|]. split; [congruence|]. rewrite length_app. split.
  - rewrite O2, C1. split.
    + intros [H1 H2]. pose proof (B1 H1) as E. rewrite E, length_app in H2. apply O1 in H1 as [? ?]. split; [done|lia].
    + intros [H1 H2]. assert (Ho : ok_ (f w) = true) by (apply O1; split; [done|lia]). split; [done|]. rewrite (B1 Ho), length_app. lia.
  - intros Ho. pose proof Ho as Ho'. apply O2 in Ho' as [H1 _]. by rewrite (B2 Ho), (B1 H1), app_assoc.
Qed.

Lemma emits_nil : emits [] (fun w => w).
Proof. intros w Hw. rewrite app_nil_r, Nat.add_0_r. unfold fits in Hw. repeat split; tauto || lia. Qed.

Lemma writes_emits bs f : writes bs f -> emits bs f.
Proof. by intros [H _]. Qed.

Lemma writes_seq a b f g : writes a f -> writes b g -> writes (a ++ b) (fun w => g (f w)).
Proof. intros [Hf Pf] [Hg Pg]. split; [by apply emits_seq|]. intros w. by rewrite Pg, Pf. Qed.

Lemma writes_nil : writes [] (fun w => w).
Proof. split; [exact emits_nil|done]. Qed.

Lemma emits_run bss ops : Forall2 emits bss ops -> emits (concat bss) (run ops).
Proof.
  induction 1 as [|b f bss ops Hf _ IH]; [exact emits_nil|]. cbn [concat].
  change (run (f :: ops)) with (fun w => run ops (f w)). by apply emits_seq.
Qed.

Lemma writes_run bss ops : Forall2 writes bss ops -> writes (concat bss) (run ops).
Proof.
  induction 1 as [|b f bss ops Hf _ IH]; [exact writes_nil|]. cbn [concat].
  change (run (f :: ops)) with (fun w => run ops (f w)). by apply writes_seq.
Qed.

Lemma writes_reserve n bs k : Z.of_nat (length bs) = n -> (forall w, k w = Put bs w) -> writes bs (Reserve n k).
Proof.
  intros Hn Hk. split.
  - intros w Hw. unfold fits in Hw. unfold Reserve. rewrite wrap_small by lia.
    destruct (ok_ w) eqn:E; cbn [negb orb].
    + destruct (Z.ltb_spec (cap_ w - Z.of_nat (length (buf_ w))) n) as [H|H]; rewrite ?Hk; unfold Put, Fail, fits; cbn [cap_ buf_ ok_]; rewrite ?length_app.
      * repeat split; try done; try lia.
      * repeat split; try done; try lia.
    + unfold Fail, fits. cbn [cap_ buf_ ok_]. repeat split; try done; try lia.
  - intros w. unfold Reserve. destruct (_ || _); [done|]. by rewrite Hk.
Qed.

Lemma length_be32 v : length (be32 v) = 4%nat.
Proof. done. Qed.

Lemma writes_U8 v : is_byte v -> writes [v] (U8 v).
Proof. intros H. apply writes_reserve; [done|]. intros w. by rewrite (wrap_small 8 v) by exact H. Qed.

Lemma writes_I16 v : writes (be16 (u16 v)) (I16 v).
Proof. apply writes_reserve; [done|]. intros w. by rewrite Store16_be by (apply wrap_range; lia). Qed.

Lemma writes_I32 v : writes (be32 (u32 v)) (I32 v).
Proof. apply writes_reserve; [done|]. intros w. by rewrite Store32_be by (apply wrap_range; lia). Qed.

Lemma writes_I64 v : writes (be64 (u64 v)) (I64 v).
Proof. apply writes_reserve; [done|]. intros w. by rewrite Store64_be by (apply wrap_range; lia). Qed.

Lemma writes_Bytes s : writes s (Bytes s (Z.of_nat (length s))).
Proof. apply writes_reserve; [done|]. intros w. by rewrite Nat2Z.id, take_ge. Qed.

Lemma writes_Str s : Z.of_nat (length s) < 2 ^ 32 -> writes s (Str s).
Proof. intros H. unfold Str. rewrite wrap_small by lia. apply writes_Bytes. Qed.

Lemma writes_CStr s : Z.of_nat (length s) < 2 ^ 32 -> writes (s ++ [NUL]) (CStr s).
Proof. intros H. apply (writes_seq s [NUL] (Str s) (U8 0)); [by apply writes_Str|]. apply writes_U8. by unfold is_byte. Qed.

Definition framed (type : Z) (p : bytes) : bytes := type :: be32 (Z.of_nat (length p) + 4) ++ p.

(** The patched length covers itself and the payload. *)
Lemma patch_length pre (p : bytes) n : take (length pre) (pre ++ be32 0 ++ p) ++ be32 n ++ drop (length pre + 4) (pre ++ be32 0 ++ p) = pre ++ be32 n ++ p.
Proof.
  rewrite take_app_length. do 2 f_equal. rewrite drop_app_add. by change (be32 0 ++ p) with ([0; 0; 0; 0] ++ p).
Qed.

Lemma emits_End_ pre bs f : emits (pre ++ be32 0 ++ bs) f -> (forall w, fits w -> ok_ (f w) = true -> msgLenPos_ (f w) = (length (buf_ w) + length pre)%nat) ->
  emits (pre ++ be32 (Z.of_nat (length bs) + 4) ++ bs) (fun w => End_ (f w)).
Proof.
  intros Hf Hp w Hw. destruct (Hf w Hw) as (F & C & O & B). unfold End_. destruct (ok_ (f w)) eqn:E.
  2: { rewrite E. rewrite !length_app, !length_be32 in *. repeat split; try done; try apply F; try (intros; by apply O). }
  specialize (B eq_refl). specialize (Hp w Hw E). unfold Patch32. cbn [cap_ buf_ ok_].
  unfold fits in *. rewrite B, Hp in *. rewrite !length_app, !length_be32 in *.
  replace (length (buf_ w) + (length pre + (4 + length bs)) - (length (buf_ w) + length pre))%nat with (length bs + 4)%nat by lia.
  rewrite Store32_be by (unfold is_uint; lia). rewrite Nat2Z.inj_add. change (Z.of_nat 4) with 4.
  replace (length (buf_ w) + length pre)%nat with (length (buf_ w ++ pre)) by apply length_app.
  rewrite (app_assoc (buf_ w) pre), patch_length, <- (app_assoc (buf_ w) pre).
  cbn [cap_ buf_ ok_]. rewrite !length_app, !length_be32. repeat split; try done; try lia; by apply O.
Qed.

Lemma emits_message t bss ops : is_byte t -> Forall2 writes bss ops -> emits (framed t (concat bss)) (message t ops).
Proof.
  intros Ht H. pose proof (writes_run _ _ H) as [Hr Pr]. apply (emits_End_ [t] (concat bss) (fun w => run ops (Begin t w))).
  - unfold Begin. apply (emits_seq [t] (be32 0 ++ concat bss) (fun w => set_len_pos (U8 t w)) (fun w => run ops (I32 0 w))).
    + intros w Hw. exact (writes_emits _ _ (writes_U8 t Ht) w Hw).
    + apply (emits_seq (be32 0) (concat bss) (I32 0) (run ops)); [|done]. apply writes_emits, writes_I32.
  - intros w Hw Ho. rewrite Pr. unfold Begin. rewrite (proj2 (writes_I32 0)). cbn [set_len_pos msgLenPos_].
    pose proof (writes_emits _ _ (writes_U8 t Ht)) as HU. destruct (HU w Hw) as (F & _ & _ & B).
    rewrite B; [by rewrite length_app|]. destruct (Hr (Begin t w)) as (_ & _ & O & _).
    + destruct (writes_emits _ _ (writes_I32 0) (set_len_pos (U8 t w)) F) as (F2 & _). exact F2.
    + apply O in Ho as [Ho _]. unfold Begin in Ho.
      destruct (writes_emits _ _ (writes_I32 0) (set_len_pos (U8 t w)) F) as (_ & _ & O2 & _). by apply O2 in Ho as [Ho _].
Qed.

Lemma emits_untyped bss ops : Forall2 writes bss ops -> emits (be32 (Z.of_nat (length (concat bss)) + 4) ++ concat bss) (fun w => End_ (run ops (BeginUntyped w))).
Proof.
  intros H. pose proof (writes_run _ _ H) as [Hr Pr]. apply (emits_End_ [] (concat bss) (fun w => run ops (BeginUntyped w))).
  - apply (emits_seq (be32 0) (concat bss) BeginUntyped (run ops)); [|done]. intros w Hw. exact (writes_emits _ _ (writes_I32 0) (set_len_pos w) Hw).
  - intros w Hw Ho. rewrite Pr. unfold BeginUntyped. rewrite (proj2 (writes_I32 0)). cbn [set_len_pos msgLenPos_ length]. lia.
Qed.

(** From an empty buffer: everything if it fits, nothing usable otherwise. *)
Lemma emits_new bs f cap : emits bs f -> 0 <= cap < 2 ^ 32 ->
  if Z.of_nat (length bs) <=? cap then ok_ (f (NewWriter cap)) = true /\ buf_ (f (NewWriter cap)) = bs else ok_ (f (NewWriter cap)) = false.
Proof.
  intros Hf Hc. destruct (Hf (NewWriter cap)) as (_ & _ & O & B); [unfold fits; cbn; lia|]. cbn [NewWriter ok_ buf_ cap_ app length plus] in O, B.
  destruct (Z.leb_spec (Z.of_nat (length bs)) cap).
  - assert (Ho : ok_ (f (NewWriter cap)) = true) by (by apply O). split; [done|by apply B].
  - apply not_true_iff_false. intros Ho. apply O in Ho. lia.
Qed.

(** ** What the reader reads *)

Lemma Take_app a r : Z.of_nat (length (a ++ r)) < 2 ^ 32 -> Take (Z.of_nat (length a)) (Reader (a ++ r) true) = (Some a, Reader r true).
Proof.
  intros H. unfold Take. cbn [rok rest_ negb orb]. rewrite wrap_small by lia. rewrite length_app in *.
  rewrite (proj2 (Z.ltb_ge _ _)) by lia. by rewrite Nat2Z.id, take_app_length, drop_app_length.
Qed.

Lemma ReadI16_be v r : is_uint 16 v -> Z.of_nat (length (be16 v ++ r)) < 2 ^ 32 -> ReadI16 (Reader (be16 v ++ r) true) = (i16 v, Reader r true).
Proof.
  intros Hv H. unfold ReadI16, taking. change 2 with (Z.of_nat (length (be16 v))). rewrite Take_app by done. rewrite <- (app_nil_r (be16 v)), LoadBe16_be by done. done.
Qed.

Lemma ReadI32_be v r : is_uint 32 v -> Z.of_nat (length (be32 v ++ r)) < 2 ^ 32 -> ReadI32 (Reader (be32 v ++ r) true) = (i32 v, Reader r true).
Proof.
  intros Hv H. unfold ReadI32, taking. change 4 with (Z.of_nat (length (be32 v))). rewrite Take_app by done. rewrite <- (app_nil_r (be32 v)), LoadBe32_be by done. done.
Qed.

Lemma ReadBytes_app a r : Z.of_nat (length (a ++ r)) < 2 ^ 32 -> ReadBytes (Z.of_nat (length a)) (Reader (a ++ r) true) = (a, Reader r true).
Proof. intros H. unfold ReadBytes, taking. by rewrite Take_app. Qed.

Lemma find_char_app c s r : c ∉ s -> find_char c (s ++ c :: r) = Some (length s).
Proof.
  induction s as [|x s IH]; intros H; cbn; [by rewrite Z.eqb_refl|]. apply not_elem_of_cons in H as [H1 H2].
  destruct (Z.eqb_spec x c); [congruence|]. by rewrite IH.
Qed.

Lemma ReadCStr_app s r : NUL ∉ s -> ReadCStr (Reader (s ++ [NUL] ++ r) true) = (s, Reader r true).
Proof.
  intros H. unfold ReadCStr. cbn [rok rest_ negb app]. rewrite find_char_app by done.
  rewrite take_app_length. replace (S (length s)) with (length s + 1)%nat by lia. by rewrite drop_app_add.
Qed.

Lemma ReadU8_byte v r : is_byte v -> Z.of_nat (length (v :: r)) < 2 ^ 32 -> ReadU8 (Reader (v :: r) true) = (v, Reader r true).
Proof. intros Hv H. unfold ReadU8, taking. pose proof (Take_app [v] r H) as E. cbn [app length] in E. change (Z.of_nat 1) with 1 in E. by rewrite E. Qed.

Lemma ReadI64_be v r : is_uint 64 v -> Z.of_nat (length (be64 v ++ r)) < 2 ^ 32 -> ReadI64 (Reader (be64 v ++ r) true) = (i64 v, Reader r true).
Proof.
  intros Hv H. unfold ReadI64, taking. change 8 with (Z.of_nat (length (be64 v))). rewrite Take_app by done. rewrite <- (app_nil_r (be64 v)), LoadBe64_be by done. done.
Qed.

(** ** Frames *)

Lemma at_app_head (l r : bytes) x : at_ (l ++ x :: r) (length l) = x.
Proof. rewrite <- (Nat.add_0_r (length l)) at 1. by rewrite at_app_r. Qed.

Lemma FrameMessage_framed pre t p tail maxMessageBytes : Z.of_nat (length (pre ++ framed t p ++ tail)) < 2 ^ 32 -> maxMessageBytes < 2 ^ 32 - 1 ->
  FrameMessage (pre ++ framed t p ++ tail) (length pre) maxMessageBytes =
  Some (if maxMessageBytes <? Z.of_nat (length p) + 4 then MALFORMED else FRAME_OK (Message t p) (length pre + length (framed t p))).
Proof.
  intros Hl Hm. unfold FrameMessage, framed in *. set (n := Z.of_nat (length p) + 4) in *.
  rewrite !length_app in *. cbn [length] in *. rewrite !length_app in *. rewrite length_be32 in *.
  rewrite wrap_small by lia. unfold MESSAGE_HEADER_SIZE. rewrite (proj2 (Z.ltb_ge _ _)) by lia.
  assert (E : drop (length pre + 1) (pre ++ (t :: be32 n ++ p) ++ tail) = be32 n ++ p ++ tail) by (rewrite drop_app_add; cbn [app drop]; by rewrite <- app_assoc).
  rewrite E, LoadBe32_be by (unfold is_uint; lia). unfold MIN_LENGTH_FIELD. rewrite (proj2 (Z.ltb_ge n 4)) by lia. cbn [orb].
  destruct (Z.ltb_spec maxMessageBytes n); [done|]. rewrite wrap_small by lia. rewrite (proj2 (Z.ltb_ge _ _)) by lia.
  rewrite (proj2 (Nat.leb_le _ _)) by lia. cbn [app]. rewrite at_app_head. do 3 f_equal; [|lia].
  f_equal. replace (length pre + 5)%nat with (length pre + (1 + length (be32 n)))%nat by (rewrite length_be32; lia). rewrite drop_app_add. cbn [plus drop].
  rewrite <- app_assoc, drop_app_length. replace (Z.to_nat (n - 4)) with (length p) by lia. by rewrite take_app_length.
Qed.

(** A message that has not arrived whole is left alone, unless its length is already refused. *)
Lemma FrameMessage_partial pre t p k maxMessageBytes : Z.of_nat (length (pre ++ framed t p)) < 2 ^ 32 -> maxMessageBytes < 2 ^ 32 - 1 -> (k < length (framed t p))%nat ->
  FrameMessage (pre ++ take k (framed t p)) (length pre) maxMessageBytes =
  Some (if (5 <=? k)%nat && (maxMessageBytes <? Z.of_nat (length p) + 4) then MALFORMED else NEED_MORE).
Proof.
  intros Hl Hm Hk. unfold FrameMessage. rewrite length_app in Hl. rewrite length_app, length_take, Nat.min_l by lia.
  rewrite wrap_small by lia. unfold MESSAGE_HEADER_SIZE. replace (Z.of_nat (length pre + k) - Z.of_nat (length pre)) with (Z.of_nat k) by lia.
  destruct (Nat.leb_spec 5 k) as [H5|H5]; [rewrite (proj2 (Z.ltb_ge _ _)) by lia|by rewrite (proj2 (Z.ltb_lt _ _)) by lia].
  rewrite drop_app_add. unfold framed in *. set (n := Z.of_nat (length p) + 4) in *. cbn [length] in *. rewrite length_app, length_be32 in *.
  assert (E : drop 1 (take k (t :: be32 n ++ p)) = be32 n ++ take (k - 5) p).
  { replace k with (S (length (be32 n) + (k - 5))) at 1 by (rewrite length_be32; lia). rewrite firstn_cons, skipn_cons. by rewrite take_app_add. }
  rewrite E, LoadBe32_be by (unfold is_uint; lia). unfold MIN_LENGTH_FIELD. rewrite (proj2 (Z.ltb_ge n 4)) by lia. cbn [orb andb].
  destruct (Z.ltb_spec maxMessageBytes n); [done|]. rewrite wrap_small by lia. by rewrite (proj2 (Z.ltb_lt _ _)) by lia.
Qed.

(** ** One field of a message, as both sides name it *)

Inductive wire := WU8 (v : Z) | WI16 (v : Z) | WI32 (v : Z) | WI64 (v : Z) | WCStr (s : bytes) | WBytes (s : bytes).

Definition put (f : wire) : PgWriter -> PgWriter :=
  match f with WU8 v => U8 v | WI16 v => I16 v | WI32 v => I32 v | WI64 v => I64 v | WCStr s => CStr s | WBytes s => Str s end.

(** The reader's call for the same field; bytes are read by their length. *)
Definition get (f : wire) (r : PgFieldReader) : wire * PgFieldReader :=
  match f with
  | WU8 _ => let '(v, r) := ReadU8 r in (WU8 v, r)
  | WI16 _ => let '(v, r) := ReadI16 r in (WI16 v, r)
  | WI32 _ => let '(v, r) := ReadI32 r in (WI32 v, r)
  | WI64 _ => let '(v, r) := ReadI64 r in (WI64 v, r)
  | WCStr _ => let '(s, r) := ReadCStr r in (WCStr s, r)
  | WBytes s => let '(b, r) := ReadBytes (Z.of_nat (length s)) r in (WBytes b, r)
  end.

Fixpoint get_all (fs : list wire) (r : PgFieldReader) : list wire * PgFieldReader :=
  match fs with [] => ([], r) | f :: fs => let '(g, r) := get f r in let '(gs, r) := get_all fs r in (g :: gs, r) end.

Definition wire_ok (f : wire) : Prop :=
  match f with
  | WU8 v => is_byte v
  | WI16 v => (- (2 ^ 15)) <= v < 2 ^ 15
  | WI32 v => (- (2 ^ 31)) <= v < 2 ^ 31
  | WI64 v => (- (2 ^ 63)) <= v < 2 ^ 63
  | WCStr s => NUL ∉ s /\ Z.of_nat (length s) < 2 ^ 32
  | WBytes s => Z.of_nat (length s) < 2 ^ 32
  end.

Definition wire_bytes (f : wire) : bytes :=
  match f with
  | WU8 v => [v] | WI16 v => be16 (u16 v) | WI32 v => be32 (u32 v) | WI64 v => be64 (u64 v) | WCStr s => s ++ [NUL] | WBytes s => s
  end.

Lemma put_writes f : wire_ok f -> writes (wire_bytes f) (put f).
Proof.
  destruct f; cbn [wire_ok wire_bytes put]; intros H;
    [by apply writes_U8|apply writes_I16|apply writes_I32|apply writes_I64|apply writes_CStr; tauto|by apply writes_Str].
Qed.

Lemma get_wire f r : wire_ok f -> Z.of_nat (length (wire_bytes f ++ r)) < 2 ^ 32 -> get f (Reader (wire_bytes f ++ r) true) = (f, Reader r true).
Proof.
  destruct f; cbn [wire_ok wire_bytes get]; intros H Hl.
  - change ([v] ++ r) with (v :: r). by rewrite ReadU8_byte.
  - rewrite ReadI16_be by (done || (apply wrap_range; lia)). by rewrite (signed_small 16) by (try exact H; lia).
  - rewrite ReadI32_be by (done || (apply wrap_range; lia)). by rewrite (signed_small 32) by (try exact H; lia).
  - rewrite ReadI64_be by (done || (apply wrap_range; lia)). by rewrite (signed_small 64) by (try exact H; lia).
  - destruct H as [H _]. rewrite <- app_assoc. by rewrite ReadCStr_app.
  - by rewrite ReadBytes_app.
Qed.

Lemma get_all_wires fs r : Forall wire_ok fs -> Z.of_nat (length (concat (map wire_bytes fs) ++ r)) < 2 ^ 32 ->
  get_all fs (Reader (concat (map wire_bytes fs) ++ r) true) = (fs, Reader r true).
Proof.
  induction 1 as [|f fs Hf _ IH]; cbn [map concat app get_all]; intros Hl; [done|]. rewrite <- app_assoc in *.
  rewrite get_wire by done. rewrite IH; [done|]. rewrite length_app in Hl. lia.
Qed.

Lemma puts_write fs : Forall wire_ok fs -> Forall2 writes (map wire_bytes fs) (map put fs).
Proof. induction 1 as [|f fs Hf _ IH]; cbn [map]; constructor; [by apply put_writes|done]. Qed.

(** C38: A typed message is read back as it was written.  [Begin], any fields and [End] give
    a usable buffer exactly when the message fits; [FrameMessage] then cuts that message out
    of whatever precedes and follows it, or refuses it when its length is over the limit,
    asks for more as long as bytes of it are missing, and [PgFieldReader] returns every
    field in order, with nothing left and no error.  Fields fit their width, and a C string
    has no NUL. *)
Theorem message_frames_back t fs cap : is_byte t -> Forall wire_ok fs -> 0 <= cap < 2 ^ 32 ->
  let w := message t (map put fs) (NewWriter cap) in
  let p := concat (map wire_bytes fs) in
  if 5 + Z.of_nat (length p) <=? cap then
    Ok w = true /\ Pos w = (5 + length p)%nat /\
    (forall pre tail maxMessageBytes, Z.of_nat (length (pre ++ buf_ w ++ tail)) < 2 ^ 32 -> maxMessageBytes < 2 ^ 32 - 1 ->
      FrameMessage (pre ++ buf_ w ++ tail) (length pre) maxMessageBytes =
        Some (if maxMessageBytes <? Z.of_nat (length p) + 4 then MALFORMED else FRAME_OK (Message t p) (length pre + Pos w)) /\
      forall k, (k < Pos w)%nat -> Z.of_nat (length p) + 4 <= maxMessageBytes ->
        FrameMessage (pre ++ take k (buf_ w)) (length pre) maxMessageBytes = Some NEED_MORE) /\
    get_all fs (ReadMessage (Message t p)) = (fs, Reader [] true)
  else Ok w = false.
Proof.
  intros Ht Hf Hc w p. pose proof (emits_new _ _ cap (emits_message t _ _ Ht (puts_write fs Hf)) Hc) as H. fold p w in H.
  assert (Hn : length (framed t p) = (5 + length p)%nat) by (unfold framed; cbn [length]; by rewrite length_app).
  rewrite Hn in H. replace (Z.of_nat (5 + length p)) with (5 + Z.of_nat (length p)) in H by lia.
  destruct (Z.leb_spec (5 + Z.of_nat (length p)) cap); [|done]. destruct H as [Hok Hb]. unfold Ok, Pos. rewrite Hb, Hn.
  split; [done|]. split; [done|]. split.
  - intros pre tail mx Hl Hm. split; [rewrite FrameMessage_framed by done; by rewrite Hn|].
    intros k Hk Hx. rewrite FrameMessage_partial; [|rewrite !length_app in *; lia|done|lia].
    rewrite (proj2 (Z.ltb_ge _ _)) by lia. by rewrite andb_false_r.
  - unfold ReadMessage. cbn [payload]. rewrite <- (app_nil_r p). apply get_all_wires; [done|]. fold p. rewrite app_nil_r. lia.
Qed.

Definition w_fields : list wire := [WCStr (lit "s7"); WI16 (-2); WI32 65536; WI64 (-1099511627776); WU8 80; WBytes [1; 0; 255]].

Lemma w_fields_ok : Forall wire_ok w_fields.
Proof.
  unfold w_fields. repeat (apply Forall_cons; split; [unfold wire_ok, is_byte; cbn [length]; try lia|]); [|constructor].
  split; [|done]. by apply find_char_None.
Qed.

Lemma message_frames_back_witness :
  Forall wire_ok w_fields /\
  get_all w_fields (ReadMessage (Message FE_BIND (concat (map wire_bytes w_fields)))) = (w_fields, Reader [] true) /\
  buf_ (message FE_BIND (map put w_fields) (NewWriter 64)) = framed FE_BIND (concat (map wire_bytes w_fields)).
Proof.
  split; [exact w_fields_ok|]. assert (Ht : is_byte FE_BIND) by (by vm_compute).
  pose proof (message_frames_back FE_BIND w_fields 64 Ht w_fields_ok ltac:(lia)) as H.
  assert (E : (5 + Z.of_nat (length (concat (map wire_bytes w_fields))) <=? 64) = true) by reflexivity.
  cbv zeta in H. rewrite E in H. split; [exact (proj2 (proj2 (proj2 H)))|]. by vm_compute.
Defined.

(** A 16-bit value goes out with the length of a 32-bit one: the reader takes two bytes of
    the next value with it, or runs off the end. *)
Example FieldI16_length : buf_ (FieldI16 7 (NewWriter 16)) = be32 4 ++ be16 7.
Proof. reflexivity. Qed.

Example FieldI16_unreadable :
  let r := Reader (buf_ (FieldI16 7 (NewWriter 16))) true in
  let '(n, r) := ReadI32 r in n = 4 /\ rok (snd (ReadBytes n r)) = false.
Proof. by vm_compute. Qed.

(** With the limit at the largest 32-bit value, the total of a message that declares as
    much wraps to 0 and bytes past the buffer are taken for its payload. *)
Example FrameMessage_wraps : FrameMessage (lit "D" ++ be32 (2 ^ 32 - 1)) 0 (2 ^ 32 - 1) = None.
Proof. reflexivity. Qed.

Example ssl_request_bytes : buf_ (WriteSslRequest (NewWriter 8)) = be32 8 ++ be32 80877103.
Proof. reflexivity. Qed.

Example cancel_request_bytes : buf_ (WriteCancelRequest (NewWriter 16) 5 (-1)) = be32 16 ++ be32 80877102 ++ be32 5 ++ [255; 255; 255; 255].
Proof. reflexivity. Qed.

End PgProtocol.
