(* ===== verification/PgResult.v ===== *)
(** * PgResult: result sets, rows and errors of [endpoint/postgres/result.hpp]

    A result owns the bytes it keeps: the RowDescription payload with the columns as
    offsets into it, one arena of field bytes and one flat table of fields.  Releasing the
    capacity of a large buffer in [Reset] changes no value and is left out. *)

From stdpp Require Import list.
From S2P Require Import Prelude Strings PgProtocol.
Import StringUtils.

Module PgResult.

Import PgProtocol.

Definition FORMAT_TEXT : Z := 0.
Definition FORMAT_BINARY : Z := 1.

Record PgColumn := Column_ {
  nameOffset : nat;
  nameLen : nat;
  tableOid : Z;
  typeOid : Z;
  typeModifier : Z;
  columnAttr : Z;
  typeSize : Z;
  format : Z
}.

(** Where a field's bytes sit in the arena; a negative length is SQL NULL. *)
Record PgField := FieldAt_ { foffset : Z; flen : Z }.

(** [DecodeText] of an unsigned type of [w] bits: 0 when nothing parses. *)
Definition DecodeText (w : Z) (f : bytes) : Z := match from_chars_uint w f with FcOk v _ => v | _ => 0 end.

(** ** PgError *)

Record PgError := Error_ { raw_ : bytes }.
Definition IsSet (e : PgError) : bool := negb (bool_decide (raw_ e = [])).
Definition Assign (payload : bytes) : PgError := Error_ payload.

Fixpoint error_field (fuel : nat) (p : bytes) (code : Z) : bytes :=
  match fuel, p with
  | S f, c :: p =>
      if c =? NUL then []
      else match find_char NUL p with
           | None => []
           | Some n => if c =? code then take n p else error_field f (drop (S n) p) code
           end
  | _, _ => []
  end.

Definition ErrorField (e : PgError) (code : Z) : bytes := error_field (length (raw_ e)) (raw_ e) code.
Definition SqlState (e : PgError) : bytes := ErrorField e ERRF_SQLSTATE.
Definition ErrorMessage (e : PgError) : bytes := ErrorField e ERRF_MESSAGE.
Definition Detail (e : PgError) : bytes := ErrorField e ERRF_DETAIL.
Definition Hint (e : PgError) : bytes := ErrorField e ERRF_HINT.
Definition Severity (e : PgError) : bytes :=
  match ErrorField e ERRF_SEVERITY_NONLOCALIZED with [] => ErrorField e ERRF_SEVERITY | v => v end.
Definition ConstraintName (e : PgError) : bytes := ErrorField e ERRF_CONSTRAINT_NAME.
Definition TableName (e : PgError) : bytes := ErrorField e ERRF_TABLE_NAME.
Definition ErrorColumnName (e : PgError) : bytes := ErrorField e ERRF_COLUMN_NAME.
Definition SchemaName (e : PgError) : bytes := ErrorField e ERRF_SCHEMA_NAME.

(** ** PgResult *)

Record PgResult := Result_ {
  columns_ : list PgColumn;
  descRaw_ : bytes;
  arena_ : bytes;
  fields_ : list PgField;
  error_ : PgError;
  rowCount_ : Z;
  affectedRows_ : Z
}.

Definition new_result : PgResult := Result_ [] [] [] [] (Error_ []) 0 0.

Definition RowCount (r : PgResult) : Z := rowCount_ r.
Definition ColumnCount (r : PgResult) : Z := u16 (Z.of_nat (length (columns_ r))).
Definition AffectedRows (r : PgResult) : Z := affectedRows_ r.
Definition Failed (r : PgResult) : bool := IsSet (error_ r).

Definition column_text (r : PgResult) (c : PgColumn) : bytes := take (nameLen c) (drop (nameOffset c) (descRaw_ r)).

(** [columns_[col]], out of range [None]. *)
Definition ColumnName (r : PgResult) (col : nat) : option bytes := column_text r <$> columns_ r !! col.

Fixpoint index_from (r : PgResult) (name : bytes) (i : Z) (cs : list PgColumn) : Z :=
  match cs with
  | [] => -1
  | c :: cs => if (nameLen c =? length name)%nat && sv_eq (column_text r c) name then i else index_from r name (i + 1) cs
  end.

Definition IndexOf (r : PgResult) (name : bytes) : Z := index_from r name 0 (columns_ r).

(** [fields_[row * columns_.size() + col]], out of range [None]. *)
Definition FieldAt (r : PgResult) (row col : Z) : option PgField := fields_ r !! Z.to_nat (row * Z.of_nat (length (columns_ r)) + col).

Definition FieldBytes (r : PgResult) (f : PgField) : bytes :=
  if flen f <=? 0 then [] else take (Z.to_nat (flen f)) (drop (Z.to_nat (foffset f)) (arena_ r)).

Definition Reset (r : PgResult) : PgResult := new_result.
Definition ResetRows (r : PgResult) : PgResult := Result_ (columns_ r) (descRaw_ r) [] [] (Error_ []) 0 0.

Definition push_column (c : PgColumn) (r : PgResult) : PgResult :=
  Result_ (columns_ r ++ [c]) (descRaw_ r) (arena_ r) (fields_ r) (error_ r) (rowCount_ r) (affectedRows_ r).
Definition push_field (f : PgField) (bs : bytes) (r : PgResult) : PgResult :=
  Result_ (columns_ r) (descRaw_ r) (arena_ r ++ bs) (fields_ r ++ [f]) (error_ r) (rowCount_ r) (affectedRows_ r).
Definition bump_rows (r : PgResult) : PgResult :=
  Result_ (columns_ r) (descRaw_ r) (arena_ r) (fields_ r) (error_ r) (u32 (rowCount_ r + 1)) (affectedRows_ r).
Definition set_affected (n : Z) (r : PgResult) : PgResult :=
  Result_ (columns_ r) (descRaw_ r) (arena_ r) (fields_ r) (error_ r) (rowCount_ r) n.
Definition SetError (payload : bytes) (r : PgResult) : PgResult :=
  Result_ (columns_ r) (descRaw_ r) (arena_ r) (fields_ r) (Assign payload) (rowCount_ r) (affectedRows_ r).

(** One column of a RowDescription: the name's place in the payload and the six numbers. *)
Definition read_column (size : nat) (r : PgFieldReader) : PgColumn * PgFieldReader :=
  let offset := (size - length (rest_ r))%nat in
  let '(name, r) := ReadCStr r in
  let '(t, r) := ReadI32 r in
  let '(a, r) := ReadI16 r in
  let '(o, r) := ReadI32 r in
  let '(sz, r) := ReadI16 r in
  let '(md, r) := ReadI32 r in
  let '(fm, r) := ReadI16 r in
  (Column_ offset (length name) (u32 t) (u32 o) md a sz fm, r).

Fixpoint description_loop (count : nat) (r : PgFieldReader) (res : PgResult) : bool * PgResult :=
  match count with
  | O => (true, res)
  | S n =>
      let '(c, r) := read_column (length (descRaw_ res)) r in
      if rok r then description_loop n r (push_column c res) else (false, res)
  end.

Definition SetDescription (payload : bytes) (res : PgResult) : bool * PgResult :=
  let res := Result_ [] payload [] [] (error_ res) 0 (affectedRows_ res) in
  let '(count, r) := ReadI16 (Reader payload true) in
  if (count <? 0) || negb (rok r) then (false, res) else description_loop (Z.to_nat count) r res.

Fixpoint row_loop (ncols : nat) (r : PgFieldReader) (res : PgResult) : bool * PgResult :=
  match ncols with
  | O => (true, bump_rows res)
  | S n =>
      let '(len, r) := ReadI32 r in
      if negb (rok r) then (false, res)
      else if 0 <? len then
        let '(bs, r) := ReadBytes len r in
        if negb (rok r) then (false, res)
        else row_loop n r (push_field (FieldAt_ (u32 (Z.of_nat (length (arena_ res)))) len) bs res)
      else row_loop n r (push_field (FieldAt_ 0 len) [] res)
  end.

Definition AppendRow (payload : bytes) (res : PgResult) : bool * PgResult :=
  let ncols := ColumnCount res in
  let '(count, r) := ReadI16 (Reader payload true) in
  if (count <? 0) || negb (u16 count =? ncols) || negb (rok r) then (false, res)
  else row_loop (Z.to_nat ncols) r res.

(** The trailing digits of a command tag. *)
Definition SetCommandTag (tag : bytes) (res : PgResult) : PgResult :=
  match rev (fst (span is_digit (rev tag))) with
  | [] => set_affected 0 res
  | digits => set_affected (DecodeText 64 digits) res
  end.

(** ** PgRow *)

Record PgRow := Row_ { rresult : PgResult; rindex : Z }.
Definition At (r : PgResult) (row : Z) : PgRow := Row_ r row.

Definition InRange (w : PgRow) (col : Z) : bool := (rindex w <? RowCount (rresult w)) && (col <? ColumnCount (rresult w)).

(** [None]: a field that is not in the table is read. *)
Definition IsNull (w : PgRow) (col : Z) : option bool :=
  if negb (InRange w col) then Some true else (fun f => flen f <? 0) <$> FieldAt (rresult w) (rindex w) col.
Definition Raw (w : PgRow) (col : Z) : option bytes :=
  if negb (InRange w col) then Some [] else FieldBytes (rresult w) <$> FieldAt (rresult w) (rindex w) col.

(** By name: a name that no column has reads as NULL. *)
Definition IsNullByName (w : PgRow) (name : bytes) : option bool :=
  let i := IndexOf (rresult w) name in if i <? 0 then Some true else IsNull w (u16 i).

(** ** The table a server describes and sends *)

Record column_spec := ColumnSpec { cname : bytes; ctable : Z; cattr : Z; ctype : Z; csize : Z; cmod : Z; cformat : Z }.

Definition column_wires (c : column_spec) : list wire :=
  [WCStr (cname c); WI32 (i32 (ctable c)); WI16 (cattr c); WI32 (i32 (ctype c)); WI16 (csize c); WI32 (cmod c); WI16 (cformat c)].

(** RowDescription and DataRow, as the protocol documents them. *)
Definition description (cols : list column_spec) : bytes := concat (map wire_bytes (WI16 (Z.of_nat (length cols)) :: concat (map column_wires cols))).

Definition field_wires (v : option bytes) : list wire :=
  match v with None => [WI32 (-1)] | Some b => [WI32 (Z.of_nat (length b)); WBytes b] end.

Definition data_row (vs : list (option bytes)) : bytes := concat (map wire_bytes (WI16 (Z.of_nat (length vs)) :: concat (map field_wires vs))).

Definition column_ok (c : column_spec) : Prop :=
  (NUL ∉ cname c) /\ is_uint 32 (ctable c) /\ is_uint 32 (ctype c) /\ (- (2 ^ 15)) <= cattr c < 2 ^ 15 /\ (- (2 ^ 15)) <= csize c < 2 ^ 15 /\ (- (2 ^ 31)) <= cmod c < 2 ^ 31 /\ (- (2 ^ 15)) <= cformat c < 2 ^ 15.

Definition value_ok (v : option bytes) : Prop := match v with None => True | Some b => Z.of_nat (length b) < 2 ^ 31 end.

Fixpoint append_rows (rows : list (list (option bytes))) (res : PgResult) : bool * PgResult :=
  match rows with
  | [] => (true, res)
  | vs :: rows => let '(ok, res) := AppendRow (data_row vs) res in if ok : bool then append_rows rows res else (false, res)
  end.

(** *** Reading the columns *)

Lemma signed_range w z : 0 < w -> - 2 ^ (w - 1) <= signed w z < 2 ^ (w - 1).
Proof.
  intros Hw. unfold signed. pose proof (wrap_range w z ltac:(lia)). assert (H2 : 2 ^ w = 2 * 2 ^ (w - 1)) by (rewrite <- Z.pow_succ_r by lia; f_equal; lia).
  case_match; lia.
Qed.

Lemma wrap_signed w z : 0 < w -> is_uint w z -> wrap w (signed w z) = z.
Proof.
  unfold is_uint. intros Hw Hz. unfold signed. rewrite (wrap_small w z) by done. case_match; [by apply wrap_small|].
  unfold wrap. rewrite <- (Z.mod_add _ 1), Z.mod_small by lia. lia.
Qed.

Lemma read_i32 v r : - (2 ^ 31) <= v < 2 ^ 31 -> Z.of_nat (length (be32 (u32 v) ++ r)) < 2 ^ 32 -> ReadI32 (Reader (be32 (u32 v) ++ r) true) = (v, Reader r true).
Proof. intros Hv Hl. rewrite ReadI32_be by (done || (apply wrap_range; lia)). by rewrite (signed_small 32) by (try exact Hv; lia). Qed.

Lemma read_i16 v r : - (2 ^ 15) <= v < 2 ^ 15 -> Z.of_nat (length (be16 (u16 v) ++ r)) < 2 ^ 32 -> ReadI16 (Reader (be16 (u16 v) ++ r) true) = (v, Reader r true).
Proof. intros Hv Hl. rewrite ReadI16_be by (done || (apply wrap_range; lia)). by rewrite (signed_small 16) by (try exact Hv; lia). Qed.

Definition column_at (offset : nat) (c : column_spec) : PgColumn :=
  Column_ offset (length (cname c)) (ctable c) (ctype c) (cmod c) (cattr c) (csize c) (cformat c).

Definition column_bytes (c : column_spec) : bytes := concat (map wire_bytes (column_wires c)).

Lemma read_column_spec (pre : bytes) c r : column_ok c -> Z.of_nat (length (column_bytes c ++ r)) < 2 ^ 32 ->
  read_column (length pre + length (column_bytes c ++ r)) (Reader (column_bytes c ++ r) true) = (column_at (length pre) c, Reader r true).
Proof.
  intros (Hn & Ht & Ho & Ha & Hs & Hm & Hf) Hl. unfold read_column, column_at. cbn [rest_]. rewrite Nat.add_sub.
  unfold column_bytes, column_wires in *. cbn [map concat wire_bytes] in *. rewrite <- !app_assoc in *. rewrite !app_nil_l in *. rewrite ?length_app in Hl.
  rewrite ReadCStr_app by done. rewrite read_i32 by (try (apply (signed_range 32); lia); rewrite ?length_app; lia).
  rewrite read_i16 by (done || (rewrite ?length_app; lia)). rewrite read_i32 by (try (apply (signed_range 32); lia); rewrite ?length_app; lia).
  rewrite read_i16 by (done || (rewrite ?length_app; lia)). rewrite read_i32 by (done || (rewrite ?length_app; lia)). rewrite read_i16 by (done || (rewrite ?length_app; lia)).
  by rewrite !(wrap_signed 32) by (done || lia).
Qed.

(** [cs] stand for the columns [cols] of the description [desc]. *)
Definition describes (desc : bytes) (c : PgColumn) (s : column_spec) : Prop :=
  exists pre post, desc = pre ++ cname s ++ post /\ c = column_at (length pre) s.

Lemma description_loop_spec cols : forall pre res, descRaw_ res = pre ++ concat (map column_bytes cols) -> Z.of_nat (length (descRaw_ res)) < 2 ^ 32 -> Forall column_ok cols ->
  exists cs, description_loop (length cols) (Reader (concat (map column_bytes cols)) true) res =
    (true, Result_ (columns_ res ++ cs) (descRaw_ res) (arena_ res) (fields_ res) (error_ res) (rowCount_ res) (affectedRows_ res)) /\
    Forall2 (describes (descRaw_ res)) cs cols.
Proof.
  induction cols as [|c cols IH]; intros pre res Hd Hl Hok; cbn [length description_loop map concat].
  - exists []. rewrite app_nil_r. split; [by destruct res|constructor].
  - inversion Hok as [|? ? Hc Hcs]; subst. cbn [map concat] in Hd. rewrite Hd, length_app in *. rewrite read_column_spec by (done || lia). cbn [rok].
    destruct (IH (pre ++ column_bytes c) (push_column (column_at (length pre) c) res)) as (cs & -> & Hcs2);
      [cbn [push_column descRaw_]; by rewrite Hd, <- app_assoc|cbn [push_column descRaw_]; rewrite Hd, length_app; lia|done|].
    cbn [push_column columns_ descRaw_ arena_ fields_ error_ rowCount_ affectedRows_] in *. exists (column_at (length pre) c :: cs).
    rewrite <- (app_assoc (columns_ res)), <- Hd. split; [done|]. constructor; [|done].
    exists pre. rewrite Hd. eexists. split; [|done]. unfold column_bytes, column_wires. cbn [map concat wire_bytes]. by rewrite <- !app_assoc.
Qed.

Lemma concat_wires {A} (f : A -> list wire) (xs : list A) : concat (map wire_bytes (concat (map f xs))) = concat (map (fun x => concat (map wire_bytes (f x))) xs).
Proof. induction xs as [|x xs IH]; [done|]. cbn [map concat]. by rewrite map_app, concat_app, IH. Qed.

Lemma SetDescription_spec cols res : Forall column_ok cols -> Z.of_nat (length cols) < 2 ^ 15 -> Z.of_nat (length (description cols)) < 2 ^ 32 ->
  exists cs, SetDescription (description cols) res = (true, Result_ cs (description cols) [] [] (error_ res) 0 (affectedRows_ res)) /\
    Forall2 (describes (description cols)) cs cols.
Proof.
  intros Hok Hn Hl. unfold SetDescription. set (res0 := Result_ [] _ _ _ _ _ _).
  assert (E : description cols = be16 (u16 (Z.of_nat (length cols))) ++ concat (map column_bytes cols)) by (unfold description; cbn [map concat wire_bytes]; by rewrite concat_wires).
  assert (ER : ReadI16 (Reader (description cols) true) = (Z.of_nat (length cols), Reader (concat (map column_bytes cols)) true)).
  { rewrite E in *. by rewrite read_i16 by lia. }
  rewrite ER. rewrite (proj2 (Z.ltb_ge _ _)) by lia. cbn [rok orb negb]. rewrite Nat2Z.id.
  destruct (description_loop_spec cols (be16 (u16 (Z.of_nat (length cols)))) res0) as (cs & -> & Hcs); [exact E|exact Hl|done|]. by exists cs.
Qed.

Lemma describes_name desc c s : describes desc c s -> take (nameLen c) (drop (nameOffset c) desc) = cname s.
Proof. intros (pre & post & -> & ->). cbn [column_at nameLen nameOffset]. by rewrite drop_app_length, take_app_length. Qed.

(** *** Reading the rows *)

(** The field stands for the value, in this arena and any longer one. *)
Definition stored (arena : bytes) (f : PgField) (v : option bytes) : Prop :=
  match v with
  | None => flen f < 0
  | Some b => flen f = Z.of_nat (length b) /\ (b = [] \/ exists pre post, arena = pre ++ b ++ post /\ foffset f = Z.of_nat (length pre))
  end.

Lemma stored_mono arena more f v : stored arena f v -> stored (arena ++ more) f v.
Proof.
  destruct v as [b|]; [|done]. intros (Hl & Hb). split; [done|]. destruct Hb as [Hb|(pre & post & -> & Ho)]; [by left|right].
  exists pre, (post ++ more). by rewrite <- !app_assoc.
Qed.

Definition row_text (vs : list (option bytes)) : bytes := concat (map (default []) vs).

Definition with_row (res : PgResult) (fs : list PgField) (bs : bytes) (n : Z) : PgResult :=
  Result_ (columns_ res) (descRaw_ res) (arena_ res ++ bs) (fields_ res ++ fs) (error_ res) n (affectedRows_ res).

Lemma row_loop_spec vs : forall res, Forall value_ok vs -> Z.of_nat (length (concat (map wire_bytes (concat (map field_wires vs))))) < 2 ^ 32 ->
  Z.of_nat (length (arena_ res ++ row_text vs)) < 2 ^ 32 ->
  exists fs, row_loop (length vs) (Reader (concat (map wire_bytes (concat (map field_wires vs)))) true) res = (true, with_row res fs (row_text vs) (u32 (rowCount_ res + 1))) /\
    Forall2 (stored (arena_ res ++ row_text vs)) fs vs.
Proof.
  induction vs as [|v vs IH]; intros res Hok Hl Ha; cbn [length row_loop map concat].
  - exists []. unfold with_row, row_text. cbn [map concat]. rewrite !app_nil_r. split; [done|constructor].
  - inversion Hok as [|? ? Hv Hvs]; subst. unfold row_text in *. cbn [map concat] in *. rewrite map_app, concat_app in *.
    destruct v as [b|]; cbn [field_wires map concat wire_bytes default value_ok from_option] in *; unfold id in *.
    + rewrite app_nil_r, <- app_assoc, !length_app in *. rewrite read_i32 by (try lia; rewrite !length_app in *; lia). cbn [rok negb].
      destruct (Z.ltb_spec 0 (Z.of_nat (length b))) as [Hp|Hp].
      * rewrite ReadBytes_app by (rewrite length_app; lia). cbn [rok negb]. rewrite wrap_small by lia.
        destruct (IH (push_field (FieldAt_ (Z.of_nat (length (arena_ res))) (Z.of_nat (length b))) b res)) as (fs & -> & Hfs); [done|lia|cbn [push_field arena_]; rewrite !length_app; lia|].
        cbn [push_field arena_ fields_ columns_ descRaw_ error_ rowCount_ affectedRows_ with_row] in *. exists (FieldAt_ (Z.of_nat (length (arena_ res))) (Z.of_nat (length b)) :: fs).
        unfold with_row. cbn [push_field arena_ fields_ columns_ descRaw_ error_ rowCount_ affectedRows_]. rewrite <- !app_assoc in *. split; [done|]. constructor; [|done].
        split; [done|]. right. eexists _, _. split; [reflexivity|done].
      * destruct b as [|? ?]; [|cbn [length] in Hp; lia]. cbn [app length] in *. change (Z.of_nat 0) with 0 in *. destruct (IH (push_field (FieldAt_ 0 0) [] res)) as (fs & -> & Hfs); [done|lia|cbn [push_field arena_]; rewrite app_nil_r, length_app; lia|].
        exists (FieldAt_ 0 0 :: fs). unfold with_row. cbn [push_field arena_ fields_ columns_ descRaw_ error_ rowCount_ affectedRows_] in *. rewrite app_nil_r, <- !app_assoc in *. split; [done|].
        constructor; [|done]. split; [done|by left].
    + rewrite app_nil_r, !length_app in *. rewrite read_i32 by (try lia; rewrite length_app; lia). cbn [rok negb Z.ltb Z.compare].
      destruct (IH (push_field (FieldAt_ 0 (-1)) [] res)) as (fs & -> & Hfs); [done|lia|cbn [push_field arena_]; rewrite app_nil_r, length_app; cbn [app length] in Ha; lia|].
      exists (FieldAt_ 0 (-1) :: fs). unfold with_row. cbn [push_field arena_ fields_ columns_ descRaw_ error_ rowCount_ affectedRows_] in *. rewrite app_nil_r, <- !app_assoc in *. split; [done|].
      constructor; [done|done].
Qed.

Lemma AppendRow_spec vs res : Forall value_ok vs -> Z.of_nat (length (columns_ res)) < 2 ^ 15 -> length vs = length (columns_ res) -> Z.of_nat (length (data_row vs)) < 2 ^ 32 ->
  Z.of_nat (length (arena_ res ++ row_text vs)) < 2 ^ 32 ->
  exists fs, AppendRow (data_row vs) res = (true, with_row res fs (row_text vs) (u32 (rowCount_ res + 1))) /\ Forall2 (stored (arena_ res ++ row_text vs)) fs vs.
Proof.
  intros Hok Hn Hc Hl Ha. unfold AppendRow, data_row, ColumnCount in *. cbn [map concat wire_bytes] in *. rewrite read_i16 by lia.
  rewrite (proj2 (Z.ltb_ge _ _)) by lia. cbn [rok negb orb]. rewrite Hc, Z.eqb_refl. cbn [negb orb]. rewrite wrap_small, Nat2Z.id by lia. rewrite <- Hc.
  apply row_loop_spec; [done| |done]. rewrite length_app in Hl. lia.
Qed.
(** The result holds the columns [cols] and the rows [rows]. *)
Definition holds (cols : list column_spec) (rows : list (list (option bytes))) (r : PgResult) : Prop :=
  Forall2 (describes (descRaw_ r)) (columns_ r) cols /\ Forall2 (stored (arena_ r)) (fields_ r) (concat rows) /\ rowCount_ r = Z.of_nat (length rows).

Definition rows_text (rows : list (list (option bytes))) : bytes := concat (map row_text rows).

Lemma append_rows_spec cols more : forall rows res, holds cols rows res -> Forall (Forall value_ok) more -> Forall (fun vs => length vs = length cols /\ Z.of_nat (length (data_row vs)) < 2 ^ 32) more ->
  Z.of_nat (length cols) < 2 ^ 15 -> Z.of_nat (length rows + length more) < 2 ^ 32 -> Z.of_nat (length (arena_ res ++ rows_text more)) < 2 ^ 32 ->
  exists res', append_rows more res = (true, res') /\ holds cols (rows ++ more) res' /\ descRaw_ res' = descRaw_ res /\ error_ res' = error_ res.
Proof.
  induction more as [|vs more IH]; intros rows res Hh Hv Hlen Hn Hr Ha; cbn [append_rows].
  - exists res. by rewrite app_nil_r.
  - inversion Hv as [|? ? Hv1 Hv2]; subst. inversion Hlen as [|? ? [Hl1 Hl2] Hlen2]; subst. destruct Hh as (Hc & Hf & Hcount).
    pose proof (Forall2_length _ _ _ Hc) as Hcl. unfold rows_text in Ha. cbn [map concat length] in Ha, Hr. rewrite !length_app in Ha.
    destruct (AppendRow_spec vs res) as (fs & -> & Hfs); [done|lia|lia|done|rewrite length_app; lia|].
    destruct (IH (rows ++ [vs]) (with_row res fs (row_text vs) (u32 (rowCount_ res + 1)))) as (res' & -> & Hh' & Hd & He); try done.
    + unfold holds, with_row. cbn [columns_ descRaw_ arena_ fields_ rowCount_]. split; [done|]. split.
      * rewrite concat_app. cbn [concat]. rewrite app_nil_r. apply Forall2_app; [|done]. eapply Forall2_impl; [exact Hf|]. intros f v. apply stored_mono.
      * rewrite Hcount, length_app. cbn [length]. rewrite wrap_small by lia. lia.
    + rewrite length_app. cbn [length]. lia.
    + unfold with_row. cbn [arena_]. unfold rows_text. rewrite !length_app. lia.
    + exists res'. split; [done|]. by rewrite <- app_assoc in Hh'.
Qed.

Lemma concat_lookup {A} (xss : list (list A)) n i j xs x : Forall (fun l => length l = n) xss -> xss !! i = Some xs -> xs !! j = Some x -> concat xss !! (i * n + j)%nat = Some x.
Proof.
  intros H. revert i. induction H as [|l xss Hl _ IH]; intros i Hi Hj; [done|]. destruct i as [|i]; cbn [lookup list_lookup] in Hi.
  - injection Hi as ->. cbn [concat]. by apply lookup_app_l_Some.
  - cbn [concat]. rewrite lookup_app_r by lia. replace (S i * n + j - length l)%nat with (i * n + j)%nat by lia. by apply IH.
Qed.

Lemma stored_bytes r f v : stored (arena_ r) f v -> value_ok v -> FieldBytes r f = default [] v /\ (flen f <? 0) = bool_decide (v = None).
Proof.
  unfold FieldBytes. destruct v as [b|]; cbn [stored default].
  - intros (Hl & Hb) _. rewrite Hl. rewrite (proj2 (Z.ltb_ge _ _)) by lia. split; [|done].
    destruct Hb as [->|(pre & post & Ha & Ho)]; [done|]. destruct (Z.leb_spec (Z.of_nat (length b)) 0); [by destruct b; [|cbn in *; lia]|].
    rewrite Ho, Ha, !Nat2Z.id. by rewrite drop_app_length, take_app_length.
  - intros Hl _. rewrite (proj2 (Z.leb_le _ _)), (proj2 (Z.ltb_lt _ _)) by lia. done.
Qed.

Lemma index_from_spec r name cols : forall cs i, Forall2 (describes (descRaw_ r)) cs cols ->
  index_from r name i cs = match list_find (fun c => cname c = name) cols with Some (k, _) => i + Z.of_nat k | None => -1 end.
Proof.
  induction cols as [|s cols IH]; intros cs i H; inversion H as [|c ? cs' ? Hd Hcs]; subst; [done|]. cbn [index_from list_find].
  unfold column_text. rewrite (describes_name _ _ _ Hd). pose proof Hd as (pre & post & _ & ->). cbn [column_at nameLen].
  destruct (decide (cname s = name)) as [<-|Hne].
  - rewrite Nat.eqb_refl, sv_eq_refl. cbn [andb]. lia.
  - assert (E : sv_eq (cname s) name = false) by (apply not_true_iff_false; by rewrite sv_eq_true). rewrite E, andb_false_r, IH by done.
    destruct (list_find _ cols) as [[k x]|]; cbn; [lia|done].
Qed.

(** C37: A result is the table the server sent.  Whatever the result held before, a
    RowDescription of [cols] followed by DataRows leaves exactly those rows: every field
    reads back as the bytes sent or as NULL, an index outside the table is NULL, the
    columns have their names and [IndexOf] finds the first column of a name; a row whose
    field count is not the described one is refused. *)
Theorem result_refines_table cols rows res : Forall column_ok cols -> Z.of_nat (length cols) < 2 ^ 15 -> Z.of_nat (length (description cols)) < 2 ^ 32 ->
  Forall (Forall value_ok) rows -> Forall (fun vs => length vs = length cols /\ Z.of_nat (length (data_row vs)) < 2 ^ 32) rows ->
  Z.of_nat (length rows) < 2 ^ 32 -> Z.of_nat (length (rows_text rows)) < 2 ^ 32 ->
  exists r0 r, SetDescription (description cols) res = (true, r0) /\ append_rows rows r0 = (true, r) /\
    RowCount r = Z.of_nat (length rows) /\ ColumnCount r = Z.of_nat (length cols) /\ error_ r = error_ res /\
    (forall i j vs v, rows !! i = Some vs -> vs !! j = Some v ->
      Raw (At r (Z.of_nat i)) (Z.of_nat j) = Some (default [] v) /\ IsNull (At r (Z.of_nat i)) (Z.of_nat j) = Some (bool_decide (v = None))) /\
    (forall i j, Z.of_nat (length rows) <= i \/ Z.of_nat (length cols) <= j -> Raw (At r i) j = Some [] /\ IsNull (At r i) j = Some true) /\
    (forall j, ColumnName r j = cname <$> cols !! j) /\
    (forall name, IndexOf r name = match list_find (fun c => cname c = name) cols with Some (k, _) => Z.of_nat k | None => -1 end) /\
    (forall vs, length vs <> length cols -> Z.of_nat (length vs) < 2 ^ 15 -> Z.of_nat (length (data_row vs)) < 2 ^ 32 -> fst (AppendRow (data_row vs) r) = false).
Proof.
  intros Hok Hn Hd Hv Hlen Hr Ha. destruct (SetDescription_spec cols res Hok Hn Hd) as (cs & HS & Hcs).
  destruct (append_rows_spec cols rows [] (Result_ cs (description cols) [] [] (error_ res) 0 (affectedRows_ res))) as (r & HA & (Hc & Hf & Hcount) & Hraw & He); try done.
  cbn [app error_ descRaw_] in *. exists (Result_ cs (description cols) [] [] (error_ res) 0 (affectedRows_ res)), r.
  pose proof (Forall2_length _ _ _ Hc) as Hcl. assert (HC : ColumnCount r = Z.of_nat (length cols)) by (unfold ColumnCount; rewrite wrap_small by lia; lia).
  split; [done|]. split; [done|]. split; [done|]. split; [done|]. split; [done|]. split; [|split; [|split; [|split]]].
  - intros i j vs v Hi Hj. pose proof (lookup_lt_Some _ _ _ Hi) as Li. pose proof (lookup_lt_Some _ _ _ Hj) as Lj.
    assert (Hlv : length vs = length cols) by (apply (Forall_lookup_1 _ _ _ _ Hlen Hi)).
    assert (Hvv : value_ok v) by exact (Forall_lookup_1 _ _ _ _ (Forall_lookup_1 _ _ _ _ Hv Hi) Hj).
    assert (Hall : Forall (fun l => length l = length cols) rows) by (eapply Forall_impl; [exact Hlen|]; cbv beta; tauto).
    pose proof (concat_lookup rows (length cols) i j vs v Hall Hi Hj) as Hcc. destruct (Forall2_lookup_r _ _ _ _ _ Hf Hcc) as (f & Hff & Hst).
    destruct (stored_bytes r f v Hst Hvv) as [Hb Hnl]. unfold Raw, IsNull, InRange, FieldAt, At, RowCount. cbn [rresult rindex].
    rewrite HC, Hcount, (proj2 (Z.ltb_lt _ _)), (proj2 (Z.ltb_lt _ _)) by lia. cbn [andb negb]. rewrite Hcl.
    replace (Z.to_nat (Z.of_nat i * Z.of_nat (length cols) + Z.of_nat j)) with (i * length cols + j)%nat by lia. rewrite Hff. cbn. by rewrite Hb, Hnl.
  - intros i j Hij. unfold Raw, IsNull, InRange, At, RowCount. cbn [rresult rindex]. rewrite HC, Hcount.
    assert (E : (i <? Z.of_nat (length rows)) && (j <? Z.of_nat (length cols)) = false) by (apply andb_false_iff; destruct Hij; [left|right]; by apply Z.ltb_ge). by rewrite E.
  - intros j. unfold ColumnName. destruct (cols !! j) as [s|] eqn:E.
    + destruct (Forall2_lookup_r _ _ _ _ _ Hc E) as (c & -> & Hds). cbn. unfold column_text. by rewrite (describes_name _ _ _ Hds).
    + apply lookup_ge_None in E. rewrite (proj2 (lookup_ge_None _ _)) by lia. done.
  - intros name. unfold IndexOf. rewrite (index_from_spec r name cols) by done. by destruct (list_find _ cols) as [[k x]|].
  - intros vs Hne Hvl Hl. unfold AppendRow, data_row in *. rewrite HC. cbn [map concat wire_bytes] in *. rewrite read_i16 by lia. cbn [rok negb]. rewrite wrap_small by lia.
    rewrite (proj2 (Z.eqb_neq _ _)) by lia. cbn [negb orb]. by rewrite orb_true_r.
Qed.

Definition w_columns : list column_spec := [ColumnSpec (lit "id") 7 1 23 4 (-1) 1; ColumnSpec (lit "name") 7 2 25 (-1) (-1) 0].
Definition w_rows : list (list (option bytes)) := [[Some [0; 0; 0; 9]; None]; [Some []; Some (lit "ann")]].

Lemma w_columns_ok : Forall column_ok w_columns.
Proof.
  unfold w_columns. repeat (apply Forall_cons; split; [split; [by apply find_char_None|cbn; unfold is_uint; lia]|]). constructor.
Qed.

Lemma result_refines_table_witness : Forall column_ok w_columns /\
  exists r0 r, SetDescription (description w_columns) new_result = (true, r0) /\ append_rows w_rows r0 = (true, r) /\ RowCount r = 2 /\
    Raw (At r 1) 1 = Some (lit "ann") /\ IsNull (At r 0) 1 = Some true /\ IndexOf r (lit "name") = 1.
Proof.
  split; [exact w_columns_ok|].
  assert (Hv : Forall (Forall value_ok) w_rows) by (repeat constructor).
  assert (Hl : Forall (fun vs => length vs = length w_columns /\ Z.of_nat (length (data_row vs)) < 2 ^ 32) w_rows) by (repeat constructor).
  destruct (result_refines_table w_columns w_rows new_result w_columns_ok ltac:(by vm_compute) ltac:(by vm_compute) Hv Hl ltac:(by vm_compute) ltac:(by vm_compute))
    as (r0 & r & HS & HA & Hr & _ & _ & Hf & _ & _ & Hi & _).
  exists r0, r. split; [exact HS|]. split; [exact HA|]. split; [exact Hr|]. split; [exact (proj1 (Hf 1%nat 1%nat _ (Some (lit "ann")) eq_refl eq_refl))|].
  split; [exact (proj2 (Hf 0%nat 1%nat _ None eq_refl eq_refl))|]. exact (Hi (lit "name")).
Defined.

(** A row cut short is refused. *)
Example short_row : fst (AppendRow (take 8 (data_row [Some (lit "ann")])) (snd (SetDescription (description [ColumnSpec (lit "name") 0 0 25 (-1) (-1) 0]) new_result))) = false.
Proof. by vm_compute. Qed.

Example command_tags : (AffectedRows (SetCommandTag (lit "INSERT 0 5") new_result), AffectedRows (SetCommandTag (lit "COMMIT") new_result)) = (5, 0).
Proof. by vm_compute. Qed.

Example error_fields :
  let e := Assign (lit "SERROR" ++ [NUL] ++ lit "C42601" ++ [NUL] ++ lit "Mbad" ++ [NUL; NUL]) in
  (SqlState e, ErrorMessage e, Severity e, Hint e) = (lit "42601", lit "bad", lit "ERROR", []).
Proof. by vm_compute. Qed.

End PgResult.
