(* ===== verification/PgParams.v ===== *)
(** * PgParams: the parameters of a request, [endpoint/postgres/types.hpp] and [wire.hpp]

    A parameter is encoded by the codec of its C++ type, which is one constructor here: the
    8-, 16-, 32- and 64-bit integers of either sign, and floating point by its bits.  Types
    that only decode (numeric, arrays) have no constructor. *)

From stdpp Require Import list.
From S2P Require Import Prelude Strings PgProtocol PgResult.
Import StringUtils.

Module PgParams.

Import PgProtocol PgResult.

Definition OID_UNSPECIFIED : Z := 0.
Definition OID_BOOL : Z := 16.
Definition OID_BYTEA : Z := 17.
Definition OID_INT8 : Z := 20.
Definition OID_INT2 : Z := 21.
Definition OID_INT4 : Z := 23.
Definition OID_TEXT : Z := 25.
Definition OID_FLOAT4 : Z := 700.
Definition OID_FLOAT8 : Z := 701.
Definition OID_DATE : Z := 1082.
Definition OID_TIME : Z := 1083.
Definition OID_TIMESTAMPTZ : Z := 1184.
Definition OID_INTERVAL : Z := 1186.
Definition OID_UUID : Z := 2950.

Definition PG_EPOCH_UNIX_SECONDS : Z := 946684800.
Definition PG_EPOCH_UNIX_MICROS : Z := PG_EPOCH_UNIX_SECONDS * 1000000.
Definition PG_EPOCH_UNIX_DAYS : Z := PG_EPOCH_UNIX_SECONDS / 86400.

Inductive PgParam :=
| PgNull
| PgBool (v : bool)
| PgInt16 (v : Z)
| PgInt32 (v : Z)
| PgInt64 (v : Z)
| PgFloat (bits : Z)
| PgDouble (bits : Z)
| PgText (s : bytes)
| PgBytes (s : bytes)
| PgUuid (s : bytes)
| PgTimestamp (unixMicros : Z)
| PgDate (unixDays : Z)
| PgTime (micros : Z)
| PgInterval (micros days months : Z).

Definition ParamOid (p : PgParam) : Z :=
  match p with
  | PgNull => OID_UNSPECIFIED
  | PgBool _ => OID_BOOL
  | PgInt16 _ => OID_INT2
  | PgInt32 _ => OID_INT4
  | PgInt64 _ => OID_INT8
  | PgFloat _ => OID_FLOAT4
  | PgDouble _ => OID_FLOAT8
  | PgText _ => OID_TEXT
  | PgBytes _ => OID_BYTEA
  | PgUuid _ => OID_UUID
  | PgTimestamp _ => OID_TIMESTAMPTZ
  | PgDate _ => OID_DATE
  | PgTime _ => OID_TIME
  | PgInterval _ _ _ => OID_INTERVAL
  end.

(** A shifted date or time is wrapped where C++ leaves the overflow undefined. *)
Definition EncodeParam (p : PgParam) (w : PgWriter) : PgWriter :=
  match p with
  | PgNull => FieldNull w
  | PgBool v => FieldU8 (if v then 1 else 0) w
  | PgInt16 v => FieldI16 (i16 v) w
  | PgInt32 v => FieldI32 (i32 v) w
  | PgInt64 v => FieldI64 (i64 v) w
  | PgFloat b => I32 (i32 b) (I32 4 w)
  | PgDouble b => I64 (i64 b) (I32 8 w)
  | PgText s | PgBytes s => Field s (i32 (Z.of_nat (length s))) w
  | PgUuid s => Field s 16 w
  | PgTimestamp v => I64 (i64 (v - PG_EPOCH_UNIX_MICROS)) (I32 8 w)
  | PgDate v => I32 (i32 (v - PG_EPOCH_UNIX_DAYS)) (I32 4 w)
  | PgTime v => I64 v (I32 8 w)
  | PgInterval v d m => I32 m (I32 d (I64 v (I32 16 w)))
  end.

Definition PG_MAX_SCALAR_PARAM : Z := 4 + 16.
Definition PG_MAX_PARAM_BYTES : Z := 1024 * 1024 * 1024.

Definition ParamUpperBound (p : PgParam) : Z :=
  match p with
  | PgNull => 4
  | PgText s | PgBytes s => u64 (4 + Z.of_nat (length s))
  | _ => PG_MAX_SCALAR_PARAM
  end.

(** What [encoded] and [params] of the request become. *)
Definition EncodeParams (ps : list PgParam) : bool * bytes :=
  match ps with
  | [] => (true, [])
  | _ =>
      let needed := fold_left (fun n p => u64 (n + ParamUpperBound p)) ps 0 in
      if PG_MAX_PARAM_BYTES <? needed then (false, [])
      else
        let w := fold_left (fun w p => EncodeParam p w) ps (NewWriter (u32 needed)) in
        if Ok w then (true, buf_ w) else (false, [])
  end.

(** ** What a server reads *)

(** The value of a parameter in the binary format of its type; [None] is NULL. *)
Definition value_of (p : PgParam) : option bytes :=
  match p with
  | PgNull => None
  | PgBool v => Some [if v then 1 else 0]
  | PgInt16 v => Some (be16 (u16 v))
  | PgInt32 v => Some (be32 (u32 v))
  | PgInt64 v => Some (be64 (u64 v))
  | PgFloat b => Some (be32 (u32 b))
  | PgDouble b => Some (be64 (u64 b))
  | PgText s | PgBytes s | PgUuid s => Some s
  | PgTimestamp v => Some (be64 (u64 (v - PG_EPOCH_UNIX_MICROS)))
  | PgDate v => Some (be32 (u32 (v - PG_EPOCH_UNIX_DAYS)))
  | PgTime v => Some (be64 (u64 v))
  | PgInterval v d m => Some (be64 (u64 v) ++ be32 (u32 d) ++ be32 (u32 m))
  end.

(** Not an 8- or 16-bit integer, whose length is written wrong; texts and uuids of their C++
    sizes. *)
Definition param_ok (p : PgParam) : Prop :=
  match p with
  | PgInt16 _ => False
  | PgText s | PgBytes s => Z.of_nat (length s) < 2 ^ 32
  | PgUuid s => length s = 16%nat
  | _ => True
  end.

Definition param_bytes (p : PgParam) : bytes := concat (map wire_bytes (field_wires (value_of p))).

Lemma u32_i32 v : u32 (i32 v) = u32 v.
Proof. unfold signed. case_match; [apply wrap_idem|]. unfold wrap. rewrite <- (Z.mod_add _ 1) by lia. replace (v mod 2 ^ 32 - 2 ^ 32 + 1 * 2 ^ 32) with (v mod 2 ^ 32) by lia. by rewrite Z.mod_mod by lia. Qed.

Lemma u64_i64 v : u64 (i64 v) = u64 v.
Proof. unfold signed. case_match; [apply wrap_idem|]. unfold wrap. rewrite <- (Z.mod_add _ 1) by lia. replace (v mod 2 ^ 64 - 2 ^ 64 + 1 * 2 ^ 64) with (v mod 2 ^ 64) by lia. by rewrite Z.mod_mod by lia. Qed.

(** A length and the words after it. *)
Lemma writes_word32 n v : writes (be32 (u32 n) ++ be32 (u32 v)) (fun w => I32 v (I32 n w)).
Proof. apply writes_seq; apply writes_I32. Qed.
Lemma writes_word64 n v : writes (be32 (u32 n) ++ be64 (u64 v)) (fun w => I64 v (I32 n w)).
Proof. apply writes_seq; [apply writes_I32|apply writes_I64]. Qed.

Lemma writes_Field s : Z.of_nat (length s) < 2 ^ 31 -> writes (be32 (Z.of_nat (length s)) ++ s) (Field s (Z.of_nat (length s))).
Proof.
  intros Hl. unfold Field. destruct (Z.ltb_spec 0 (Z.of_nat (length s))) as [H|H].
  - rewrite <- (wrap_small 32 (Z.of_nat (length s))) at 1 by lia. apply (writes_seq _ _ (I32 (Z.of_nat (length s))) (Bytes s (Z.of_nat (length s)))); [apply writes_I32|apply writes_Bytes].
  - destruct s; [|cbn in H; lia]. rewrite app_nil_r. exact (writes_I32 0).
Qed.

Lemma writes_text s : Z.of_nat (length (be32 (u32 (Z.of_nat (length s))) ++ s)) <= 1024 * 1024 * 1024 -> writes (be32 (u32 (Z.of_nat (length s))) ++ s) (Field s (i32 (Z.of_nat (length s)))).
Proof.
  rewrite length_app, length_be32. intros Hl. rewrite wrap_small by lia.
  replace (i32 (Z.of_nat (length s))) with (Z.of_nat (length s)) by (rewrite <- (signed_small 32 (Z.of_nat (length s))) at 1 by lia; by rewrite wrap_small by lia).
  apply writes_Field. lia.
Qed.

Lemma EncodeParam_writes p : param_ok p -> Z.of_nat (length (param_bytes p)) <= PG_MAX_PARAM_BYTES -> writes (param_bytes p) (EncodeParam p).
Proof.
  unfold PG_MAX_PARAM_BYTES. intros Hp Hl. destruct p as [|v|v|v|v|b|b|s|s|s|v|v|v|v d m]; cbn [param_ok] in Hp; try done; unfold param_bytes in *;
    cbn [value_of field_wires map concat wire_bytes] in *; rewrite ?app_nil_r in *; cbn [EncodeParam].
  - apply writes_I32.
  - apply (writes_reserve 5 (be32 1 ++ [if v then 1 else 0])); [done|]. intros w. unfold Put32, Put. rewrite Store32_be by done. cbn. rewrite <- app_assoc. by destruct v.
  - apply (writes_reserve 8 (be32 4 ++ be32 (u32 v))); [done|]. intros w. unfold Put32, Put. rewrite !Store32_be by (done || (apply wrap_range; lia)). cbn [buf_ cap_ msgLenPos_ ok_]. by rewrite u32_i32, <- app_assoc.
  - apply (writes_reserve 12 (be32 8 ++ be64 (u64 v))); [done|]. intros w. unfold Put64, Put32, Put. rewrite Store32_be, Store64_be by (done || (apply wrap_range; lia)). cbn [buf_ cap_ msgLenPos_ ok_]. by rewrite u64_i64, <- app_assoc.
  - rewrite <- (u32_i32 b). apply (writes_word32 4).
  - rewrite <- (u64_i64 b). apply (writes_word64 8).
  - by apply writes_text.
  - by apply writes_text.
  - rewrite Hp. pose proof (writes_Field s ltac:(lia)) as H. by rewrite Hp in H.
  - rewrite <- (u64_i64 (v - _)). apply (writes_word64 8).
  - rewrite <- (u32_i32 (v - _)). apply (writes_word32 4).
  - apply (writes_word64 8).
  - change (Z.of_nat (length (be64 (u64 v) ++ be32 (u32 d) ++ be32 (u32 m)))) with 16.
    rewrite (app_assoc (be64 _)). rewrite (app_assoc (be32 _) _ (be32 (u32 m))), (app_assoc (be32 _) (be64 _)).
    apply (writes_seq _ _ (fun w => I32 d (I64 v (I32 16 w))) (I32 m)); [|apply writes_I32]. apply (writes_seq _ _ (fun w => I64 v (I32 16 w)) (I32 d)); [|apply writes_I32]. apply (writes_word64 16).
Qed.

(** *** All of them *)

Lemma bound_covers p : param_ok p -> Z.of_nat (length (param_bytes p)) <= ParamUpperBound p < 2 ^ 33.
Proof.
  destruct p as [|v|v|v|v|b|b|s|s|s|v|v|v|v d m]; cbn [param_ok]; intros Hp; try done; unfold param_bytes; cbn [value_of field_wires map concat wire_bytes ParamUpperBound]; rewrite ?app_nil_r;
    try (rewrite ?length_app, ?length_be32, ?(wrap_small 64) by lia; lia); unfold PG_MAX_SCALAR_PARAM; rewrite ?length_app; try (cbn; lia).
Qed.

Lemma needed_sum ps : forall n, Forall param_ok ps -> 0 <= n -> n + 2 ^ 33 * Z.of_nat (length ps) < 2 ^ 64 ->
  n + Z.of_nat (length (concat (map param_bytes ps))) <= fold_left (fun n p => u64 (n + ParamUpperBound p)) ps n /\
  Forall (fun p => ParamUpperBound p <= fold_left (fun n p => u64 (n + ParamUpperBound p)) ps n) ps /\ n <= fold_left (fun n p => u64 (n + ParamUpperBound p)) ps n.
Proof.
  induction ps as [|p ps IH]; intros n Hok Hn Hl; cbn [fold_left map concat length] in *; [split; [lia|split; [constructor|lia]]|].
  apply Forall_cons in Hok as [Hp Hok]. pose proof (bound_covers p Hp) as Hb. rewrite (wrap_small 64) by lia. destruct (IH (n + ParamUpperBound p) Hok) as (H1 & H2 & H3); [lia|lia|].
  rewrite length_app. split; [lia|]. split; [|lia]. constructor; [lia|exact H2].
Qed.

Lemma encode_all ps : Forall param_ok ps -> Forall (fun p => Z.of_nat (length (param_bytes p)) <= PG_MAX_PARAM_BYTES) ps ->
  emits (concat (map param_bytes ps)) (fun w => fold_left (fun w p => EncodeParam p w) ps w).
Proof.
  induction ps as [|p ps IH]; intros Hok Hl; [exact emits_nil|]. apply Forall_cons in Hok as [Hp Hok], Hl as [Hlp Hl]. cbn [fold_left map concat].
  apply (emits_seq (param_bytes p) _ (EncodeParam p) (fun w => fold_left (fun w p => EncodeParam p w) ps w)); [by apply writes_emits, EncodeParam_writes|by apply IH].
Qed.

(** Parameters within the limit are written as their values, each with its length. *)
Lemma EncodeParams_spec ps : Forall param_ok ps -> Z.of_nat (length ps) < 2 ^ 16 -> fst (EncodeParams ps) = true ->
  snd (EncodeParams ps) = concat (map wire_bytes (concat (map field_wires (map value_of ps)))) /\
  Forall value_ok (map value_of ps) /\ Z.of_nat (length (snd (EncodeParams ps))) <= PG_MAX_PARAM_BYTES.
Proof.
  intros Hok Hn. rewrite concat_wires, map_map. change (map _ ps) with (map param_bytes ps) at 1. unfold EncodeParams. destruct ps as [|p0 ps0] eqn:Eps; [by split; [|split; [constructor|]]|]. rewrite <- Eps in *. clear Eps p0 ps0.
  destruct (needed_sum ps 0 Hok) as (H1 & H2 & H3); [lia|lia|]. set (needed := fold_left _ ps 0) in *.
  destruct (Z.ltb_spec PG_MAX_PARAM_BYTES needed) as [|Hle]; [done|]. intros Hf.
  assert (Hl : Forall (fun p => Z.of_nat (length (param_bytes p)) <= PG_MAX_PARAM_BYTES) ps).
  { apply Forall_forall. intros p Hp. rewrite Forall_forall in Hok, H2. pose proof (bound_covers p (Hok p Hp)). specialize (H2 p Hp). cbv beta in H2. lia. }
  unfold PG_MAX_PARAM_BYTES in *. rewrite (wrap_small 32) in * by lia. pose proof (emits_new _ _ needed (encode_all ps Hok Hl) ltac:(lia)) as He.
  rewrite (proj2 (Z.leb_le _ _)) in He by lia. destruct He as [Ho Hb]. unfold Ok in *. rewrite Ho. cbn [snd]. rewrite Hb. split; [done|]. split; [|lia].
  apply Forall_map. rewrite Forall_forall in Hl. apply Forall_forall. intros p Hp. specialize (Hl p Hp). cbv beta in Hl. unfold param_bytes in Hl. unfold value_ok.
  destruct (value_of p) as [b|]; [|done]. cbn [field_wires map concat wire_bytes] in Hl. rewrite !length_app, length_be32 in Hl. cbn in *. lia.
Qed.

(** A 16-bit value is written with the length of a 32-bit one. *)
Example int16_length : EncodeParams [PgInt16 7] = (true, [0; 0; 0; 4; 0; 7]).
Proof. vm_compute. reflexivity. Qed.

End PgParams.
