(* ===== verification/PgClient.v ===== *)
(** * PgClient: requests and replies of [endpoint/postgres/stmt_cache.hpp] and [wire.hpp]

    [PgStatementCache] gives names to the statements of one connection, [Serialize] turns a
    request into the messages of one round and [Parse] reads the replies; the epoch behind
    the cache is shared by every connection of an endpoint and is passed in and out.  The
    theorems are about a session: any requests, retries, replies and epochs moved by other
    connections, against what an observer of the two byte streams knows by the protocol. *)

From stdpp Require Import list gmap.
From S2P Require Import Prelude Strings Hash HttpClient PgProtocol PgResult PgParams.
Import StringUtils.

Module PgClient.

Import PgProtocol PgResult PgParams.

#[local] Abbreviation SerializeResult := HttpClient.SerializeResult.
#[local] Abbreviation SER_OK := HttpClient.SER_OK.
#[local] Abbreviation SER_BUFFER_TOO_SMALL := HttpClient.SER_BUFFER_TOO_SMALL.
#[local] Abbreviation SER_ERROR := HttpClient.SER_ERROR.

(** ** The statement cache *)

Definition SQLSTATE_FEATURE_NOT_SUPPORTED : bytes := lit "0A000".
Definition SQLSTATE_INVALID_STATEMENT_NAME : bytes := lit "26000".

Definition STMT_NAME_MAX : nat := 8.
Definition STMT_PROBE_LEN : nat := 4.
Definition STMT_CACHE_MAX : Z := 4096.
Definition STMT_NONE : Z := 0xFFFFFFFF.
Definition STMT_EPOCH_UNPARSED : Z := 0.

(** [PgCacheControl::Invalidate]. *)
Definition Invalidate (epoch : Z) : Z := let e := u32 (epoch + 1) in if e =? STMT_EPOCH_UNPARSED then 1 else e.

Record PgStatementEntry := Entry {
  esql : bytes;
  eoids : list Z;
  ehash : Z;
  eepoch : Z;
  eparamCount : Z;
  euses : Z;
  ename : bytes;
  elive : bool
}.

Record PgStatementLookup := Lookup { lname : bytes; lindex : Z; lparse : bool; lclose : bool }.
Definition no_lookup : PgStatementLookup := Lookup [] STMT_NONE true false.

Record PgStatementCache := Cache { entries_ : list PgStatementEntry; mask_ : Z; minUses_ : Z }.
Definition new_cache : PgStatementCache := Cache [] 0 1.

(** The name rendered into the entry: [s] and the index, or [s] alone if it does not fit. *)
Definition stmt_name (i : nat) : bytes :=
  let digits := to_chars_uint (Z.of_nat i) in
  if (length digits <=? STMT_NAME_MAX - 1)%nat then chr "s" :: digits else [chr "s"].

Fixpoint round_up (fuel : nat) (cap size : Z) : Z :=
  match fuel with
  | O => cap
  | S f => if (cap <? size) && (cap <? STMT_CACHE_MAX) then round_up f (u32 (Z.shiftl cap 1)) size else cap
  end.

Definition Init (size minUses : Z) (c : PgStatementCache) : PgStatementCache :=
  if size =? 0 then c
  else
    let cap := round_up 32 1 size in
    Cache (map (fun i => Entry [] [] 0 STMT_EPOCH_UNPARSED 0 0 (stmt_name i) false) (seq 0 (Z.to_nat cap))) (cap - 1) (if minUses =? 0 then 1 else minUses).

(** [Hash]; [None]: the hash reads out of its input. *)
Definition stmt_hash (sql : bytes) (oids : list Z) (paramCount : Z) : option Z :=
  h ← Hash.Xxh3 sql 0;
  if paramCount =? 0 then Some h
  else raw ← Hash.Xxh3 (concat (map (Hash.le_bytes 4) (take (Z.to_nat paramCount) oids))) 0; Some (Hash.HashCombine h raw).

(** The arrays are constants of the program, so an equal pointer is an equal array. *)
Definition SameOids (a b : list Z) (count : Z) : bool := (count =? 0) || bool_decide (take (Z.to_nat count) a = take (Z.to_nat count) b).

Definition set_entry (i : nat) (e : PgStatementEntry) (c : PgStatementCache) : PgStatementCache := Cache (<[i := e]> (entries_ c)) (mask_ c) (minUses_ c).

Definition set_uses (n : Z) (e : PgStatementEntry) : PgStatementEntry := Entry (esql e) (eoids e) (ehash e) (eepoch e) (eparamCount e) n (ename e) (elive e).
Definition set_epoch (n : Z) (e : PgStatementEntry) : PgStatementEntry := Entry (esql e) (eoids e) (ehash e) n (eparamCount e) (euses e) (ename e) (elive e).
Definition set_live (b : bool) (e : PgStatementEntry) : PgStatementEntry := Entry (esql e) (eoids e) (ehash e) (eepoch e) (eparamCount e) (euses e) (ename e) b.

Definition Describe (e : PgStatementEntry) (idx : nat) (epoch : Z) (c : PgStatementCache) : PgStatementCache * PgStatementLookup :=
  let e := if euses e <? minUses_ c then set_uses (u16 (euses e + 1)) e else e in
  let c := set_entry idx e c in
  if euses e <? minUses_ c then (c, no_lookup)
  else
    let parse := negb (eepoch e =? epoch) in
    (c, Lookup (ename e) (Z.of_nat idx) parse (parse && elive e)).

(** What the walk of [Acquire] ends on: the statement's entry, or the one to take over. *)
Inductive walk := Found (idx : nat) (e : PgStatementEntry) | Victim (idx : nat).

Fixpoint probe (fuel : nat) (i : Z) (c : PgStatementCache) (h home : Z) (sql : bytes) (oids : list Z) (paramCount : Z) (victim : nat) (victimUses : Z) : option walk :=
  match fuel with
  | O => Some (Victim victim)
  | S f =>
      let idx := Z.to_nat (Z.land (u32 (home + i)) (mask_ c)) in
      e ← entries_ c !! idx;
      if bool_decide (esql e = []) then Some (Victim idx)
      else if (ehash e =? h) && (eparamCount e =? paramCount) && sv_eq (esql e) sql && SameOids (eoids e) oids paramCount then Some (Found idx e)
      else if euses e <? victimUses then probe f (i + 1) c h home sql oids paramCount idx (euses e)
      else probe f (i + 1) c h home sql oids paramCount victim victimUses
  end.

(** [None]: an entry outside the table is used. *)
Definition Acquire (sql : bytes) (oids : list Z) (paramCount epoch : Z) (c : PgStatementCache) : option (PgStatementCache * PgStatementLookup) :=
  match entries_ c with
  | [] => Some (c, no_lookup)
  | _ =>
      h ← stmt_hash sql oids paramCount;
      let home := Z.land (u32 h) (mask_ c) in
      w ← probe STMT_PROBE_LEN 0 c h home sql oids paramCount (Z.to_nat home) 0xFFFF;
      match w with
      | Found idx e => Some (Describe e idx epoch c)
      | Victim idx =>
          e ← entries_ c !! idx;
          let e := Entry sql oids h STMT_EPOCH_UNPARSED paramCount 0 (ename e) (elive e) in
          Some (Describe e idx epoch (set_entry idx e c))
      end
  end.

Definition at_entry (index : Z) (f : PgStatementEntry -> PgStatementEntry) (c : PgStatementCache) : PgStatementCache :=
  if Z.of_nat (length (entries_ c)) <=? index then c
  else match entries_ c !! Z.to_nat index with Some e => set_entry (Z.to_nat index) (f e) c | None => c end.

Definition MarkParsed (index epoch : Z) : PgStatementCache -> PgStatementCache := at_entry index (fun e => set_epoch epoch (set_live true e)).
Definition MarkFailed (index : Z) : PgStatementCache -> PgStatementCache := at_entry index (fun e => set_epoch STMT_EPOCH_UNPARSED (set_live false e)).

(** ** Requests *)

Definition FORMAT_COUNT_UNIFORM : Z := 1.
Definition MAX_IDENTIFIER_LEN : nat := 63.
Definition SQL_STREAM_BEGIN : bytes := lit "BEGIN".
Definition SQL_STREAM_COMMIT : bytes := lit "COMMIT".

Inductive PgStatementKind := QUERY | SAVEPOINT | ROLLBACK_TO | RELEASE_SAVEPOINT.
#[export] Instance PgStatementKind_eq_dec : EqDecision PgStatementKind.
Proof. solve_decision. Defined.

Fixpoint identifier_chars (first : bool) (name : bytes) : bool :=
  match name with
  | [] => true
  | c :: r =>
      let alpha := ((65 <=? c) && (c <=? 90)) || ((97 <=? c) && (c <=? 122)) || (c =? UNDERSCORE) in
      let digit := (48 <=? c) && (c <=? 57) in
      (alpha || (digit && negb first)) && identifier_chars false r
  end.

Definition IsValidIdentifier (name : bytes) : bool :=
  negb (bool_decide (name = [])) && (length name <=? MAX_IDENTIFIER_LEN)%nat && identifier_chars true name.

Record PgRequest := Request {
  sql : bytes;
  paramOids : list Z;
  params : bytes;
  session : Z;
  streamRows : Z;
  paramCount : Z;
  binaryResults : bool;
  encoded : bool;
  kind : PgStatementKind
}.

(** The requests the API makes: a query (of a session, 0 for none; a stream when
    [chunkRows] is not 0) and a savepoint statement. *)
Definition MakeRequest (sql : bytes) (ps : list PgParam) : PgRequest :=
  let '(ok, text) := EncodeParams ps in Request sql (map ParamOid ps) text 0 0 (u16 (Z.of_nat (length ps))) true ok QUERY.

Definition MakeSessionRequest (session' : Z) (sql : bytes) (ps : list PgParam) : PgRequest :=
  let r := MakeRequest sql ps in Request sql (paramOids r) (params r) session' 0 (paramCount r) true (encoded r) QUERY.

Definition MakeStreamRequest (chunkRows session' : Z) (sql : bytes) (ps : list PgParam) : PgRequest :=
  let r := MakeRequest sql ps in Request sql (paramOids r) (params r) session' chunkRows (paramCount r) true (encoded r) QUERY.

Definition MakeSavepointRequest (session' : Z) (k : PgStatementKind) (name : bytes) : PgRequest :=
  Request name [] [] session' 0 0 true (IsValidIdentifier name) k.

(** The options read here; [cacheControl] is the argument [ctl] below. *)
Record PgOptions := Options { maxMessageBytes : Z; preferBinary : bool }.

(** ** The slot

    Without the fields of the handshake ([backendPid], [secretKey], [ready]). *)

Record SlotState := Slot {
  stmtCache : PgStatementCache;
  ssession : Z;
  txStatus : Z;
  expectedReady : Z;
  pendingStmt : Z;
  sstreamRows : Z;
  streamPhase : PgStreamPhase;
  streamOwnsTx : bool;
  streamRowsStale : bool
}.

Definition new_slot (c : PgStatementCache) : SlotState := Slot c 0 TX_IDLE 1 STMT_NONE 0 PHASE_NONE false false.

Definition set_cache x s := Slot x (ssession s) (txStatus s) (expectedReady s) (pendingStmt s) (sstreamRows s) (streamPhase s) (streamOwnsTx s) (streamRowsStale s).
Definition set_session x s := Slot (stmtCache s) x (txStatus s) (expectedReady s) (pendingStmt s) (sstreamRows s) (streamPhase s) (streamOwnsTx s) (streamRowsStale s).
Definition set_txStatus x s := Slot (stmtCache s) (ssession s) x (expectedReady s) (pendingStmt s) (sstreamRows s) (streamPhase s) (streamOwnsTx s) (streamRowsStale s).
Definition set_expected x s := Slot (stmtCache s) (ssession s) (txStatus s) x (pendingStmt s) (sstreamRows s) (streamPhase s) (streamOwnsTx s) (streamRowsStale s).
Definition set_pending x s := Slot (stmtCache s) (ssession s) (txStatus s) (expectedReady s) x (sstreamRows s) (streamPhase s) (streamOwnsTx s) (streamRowsStale s).
Definition set_streamRows x s := Slot (stmtCache s) (ssession s) (txStatus s) (expectedReady s) (pendingStmt s) x (streamPhase s) (streamOwnsTx s) (streamRowsStale s).
Definition set_phase x s := Slot (stmtCache s) (ssession s) (txStatus s) (expectedReady s) (pendingStmt s) (sstreamRows s) x (streamOwnsTx s) (streamRowsStale s).
Definition set_ownsTx x s := Slot (stmtCache s) (ssession s) (txStatus s) (expectedReady s) (pendingStmt s) (sstreamRows s) (streamPhase s) x (streamRowsStale s).
Definition set_stale x s := Slot (stmtCache s) (ssession s) (txStatus s) (expectedReady s) (pendingStmt s) (sstreamRows s) (streamPhase s) (streamOwnsTx s) x.

(** ** Serialize *)

Definition query_message (text : bytes) : PgWriter -> PgWriter := message FE_QUERY [CStr text].
Definition close_message (what : Z) (name : bytes) : PgWriter -> PgWriter := message FE_CLOSE [U8 what; CStr name].
Definition execute_message (portal : bytes) (rows : Z) : PgWriter -> PgWriter := message FE_EXECUTE [CStr portal; I32 rows].
Definition sync_message : PgWriter -> PgWriter := message FE_SYNC [].

Definition parse_message (name : bytes) (req : PgRequest) : PgWriter -> PgWriter :=
  message FE_PARSE ([CStr name; CStr (sql req); I16 (i16 (paramCount req))] ++ map (fun o => I32 (i32 o)) (take (Z.to_nat (paramCount req)) (paramOids req))).

Definition bind_message (portal name : bytes) (resultFormat : Z) (req : PgRequest) : PgWriter -> PgWriter :=
  message FE_BIND [CStr portal; CStr name; I16 FORMAT_COUNT_UNIFORM; I16 FORMAT_BINARY; I16 (i16 (paramCount req)); Str (params req); I16 FORMAT_COUNT_UNIFORM; I16 resultFormat].

Definition describe_message (portal : bytes) : PgWriter -> PgWriter := message FE_DESCRIBE [U8 (chr "P"); CStr portal].

Definition finish (w : PgWriter) : SerializeResult := if Ok w then SER_OK (buf_ w) else SER_BUFFER_TOO_SMALL.

(** A further round of an open stream. *)
Definition continue_stream (bufLen : Z) (st : SlotState) : SerializeResult * SlotState :=
  let st := set_stale true st in
  let w := NewWriter bufLen in
  let w :=
    if bool_decide (streamPhase st = PHASE_FETCH) then sync_message (execute_message STREAM_PORTAL (i32 (sstreamRows st)) w)
    else if streamOwnsTx st then query_message SQL_STREAM_COMMIT w
    else sync_message (close_message (chr "P") STREAM_PORTAL w) in
  (finish w, st).

Definition savepoint_prefix (k : PgStatementKind) : bytes :=
  match k with SAVEPOINT => lit "SAVEPOINT " | ROLLBACK_TO => lit "ROLLBACK TO SAVEPOINT " | _ => lit "RELEASE SAVEPOINT " end.

(** The extended query sequence of a request, once its statement has been looked up. *)
Definition extended_query (stmt : PgStatementLookup) (resultFormat : Z) (req : PgRequest) (st : SlotState) (w : PgWriter) : SlotState * PgWriter :=
  let w := if lclose stmt then close_message (chr "S") (lname stmt) w else w in
  let '(st, w) := if lparse stmt then (set_pending (lindex stmt) st, parse_message (lname stmt) req w) else (st, w) in
  let portal := if sstreamRows st =? 0 then [] else STREAM_PORTAL in
  (st, sync_message (execute_message portal (i32 (sstreamRows st)) (describe_message portal (bind_message portal (lname stmt) resultFormat req w)))).

(** [ctl] is the shared epoch, [None] when there is no control block; [None] returned: an
    entry outside the cache is used. *)
Definition Serialize (opts : PgOptions) (ctl : option Z) (req : PgRequest) (bufLen : Z) (st : SlotState) : option (SerializeResult * SlotState) :=
  if negb (encoded req) then Some (SER_ERROR, st)
  else
    let resultFormat := if binaryResults req && preferBinary opts then FORMAT_BINARY else FORMAT_TEXT in
    let st := set_streamRows (streamRows req) (set_pending STMT_NONE (set_expected 1 st)) in
    let st := if sstreamRows st =? 0 then set_phase PHASE_NONE st else st in
    if negb (bool_decide (streamPhase st = PHASE_NONE)) then Some (continue_stream bufLen st)
    else
      let st := set_stale false st in
      let w := NewWriter bufLen in
      let leftover := negb (txStatus st =? TX_IDLE) && ((session req =? 0) || negb (session req =? ssession st)) in
      let '(st, w) := if leftover then (set_expected 2 st, query_message (lit "ROLLBACK") w) else (st, w) in
      if negb (bool_decide (kind req = QUERY)) then
        let w := message FE_QUERY [Str (savepoint_prefix (kind req)); Str (sql req); U8 0] w in
        Some (if Ok w then (SER_OK (buf_ w), set_session (session req) st) else (SER_BUFFER_TOO_SMALL, st))
      else
        let '(st, w) :=
          if sstreamRows st =? 0 then (st, w)
          else
            let st := set_ownsTx (leftover || (txStatus st =? TX_IDLE)) st in
            if streamOwnsTx st then (set_expected (u8 (expectedReady st + 1)) st, query_message SQL_STREAM_BEGIN w) else (st, w) in
        '(c, stmt) ← (match ctl with
                      | Some epoch => Acquire (sql req) (paramOids req) (paramCount req) epoch (stmtCache st)
                      | None => Some (stmtCache st, no_lookup) end);
        let '(st, w) := extended_query stmt resultFormat req (set_cache c st) w in
        Some (if Ok w then (SER_OK (buf_ w), set_session (session req) st) else (SER_BUFFER_TOO_SMALL, st)).

(** ** Parse *)

Definition InvalidateCachedPlans (sqlState : bytes) (ctl : option Z) : option Z :=
  match ctl with
  | None => None
  | Some e => if sv_eq sqlState SQLSTATE_FEATURE_NOT_SUPPORTED || sv_eq sqlState SQLSTATE_INVALID_STATEMENT_NAME then Some (Invalidate e) else ctl
  end.

(** What one call works on: the slot, the shared epoch, the result. *)
Record Work := On { slot : SlotState; ctl : option Z; res : PgResult }.
Definition on_slot (f : SlotState -> SlotState) (k : Work) : Work := On (f (slot k)) (ctl k) (res k).
Definition on_res (f : PgResult -> PgResult) (k : Work) : Work := On (slot k) (ctl k) (f (res k)).

Definition close_phase (st : SlotState) : SlotState :=
  set_phase (if bool_decide (streamPhase st = PHASE_CLOSE) then PHASE_DONE else PHASE_CLOSE) st.

(** [ReadyForQuery]: the result of the call, if this one ends the round. *)
Definition on_ready (status : Z) (k : Work) : option HttpClient.ParseResult * Work :=
  let k := on_slot (set_txStatus status) k in
  if 1 <? expectedReady (slot k) then (None, on_res Reset (on_slot (fun s => set_expected (expectedReady s - 1) s) k))
  else
    let k := if pendingStmt (slot k) =? STMT_NONE then k
             else on_slot (fun s => set_pending STMT_NONE (set_cache (MarkFailed (pendingStmt s) (stmtCache s)) s)) k in
    let k := if (sstreamRows (slot k) =? 0) || negb (Failed (res k)) then k else on_slot close_phase k in
    if negb (sstreamRows (slot k) =? 0) && negb (bool_decide (streamPhase (slot k) = PHASE_DONE)) then (Some HttpClient.CHUNK_READY_FETCH, k)
    else (Some HttpClient.COMPLETE_KEEP_ALIVE, on_slot (fun s => set_ownsTx false (set_phase PHASE_NONE (set_streamRows 0 s))) k).

(** One message; [None]: the epoch is read without a control block. *)
Definition on_message (m : PgMessage) (k : Work) : option (option HttpClient.ParseResult * Work) :=
  let t := mtype m in
  let streaming := negb (sstreamRows (slot k) =? 0) in
  if t =? BE_ROW_DESCRIPTION then
    let '(ok, r) := SetDescription (payload m) (res k) in Some (if ok : bool then None else Some HttpClient.PARSE_ERROR, On (slot k) (ctl k) r)
  else if t =? BE_DATA_ROW then
    let '(ok, r) := AppendRow (payload m) (res k) in Some (if ok : bool then None else Some HttpClient.PARSE_ERROR, On (slot k) (ctl k) r)
  else if t =? BE_COMMAND_COMPLETE then
    let k := on_res (SetCommandTag (fst (ReadCStr (ReadMessage m)))) k in
    Some (None, if streaming && (expectedReady (slot k) =? 1) then on_slot close_phase k else k)
  else if t =? BE_ERROR_RESPONSE then
    let r := SetError (payload m) (res k) in
    Some (None, On (slot k) (InvalidateCachedPlans (SqlState (error_ r)) (ctl k)) r)
  else if t =? BE_READY_FOR_QUERY then Some (on_ready (fst (ReadU8 (ReadMessage m))) k)
  else if t =? BE_PARSE_COMPLETE then
    if pendingStmt (slot k) =? STMT_NONE then Some (None, k)
    else match ctl k with
         | None => None
         | Some epoch => Some (None, on_slot (fun s => set_pending STMT_NONE (set_cache (MarkParsed (pendingStmt s) epoch (stmtCache s)) s)) k)
         end
  else if t =? BE_PORTAL_SUSPENDED then
    Some (None, if streaming && (expectedReady (slot k) =? 1) then on_slot (set_phase PHASE_FETCH) k else k)
  else if t =? BE_CLOSE_COMPLETE then
    Some (None, if streaming && bool_decide (streamPhase (slot k) = PHASE_CLOSE) then on_slot (set_phase PHASE_DONE) k else k)
  else if (t =? BE_BIND_COMPLETE) || (t =? BE_NO_DATA) || (t =? BE_EMPTY_QUERY_RESPONSE) || (t =? BE_PARAMETER_STATUS) || (t =? BE_NOTICE_RESPONSE)
          || (t =? BE_PARAMETER_DESCRIPTION) then Some (None, k)
  else Some (Some HttpClient.PARSE_ERROR, k).

(** The loop from [pos]; [None]: memory outside the buffer is read, or [fuel] is short. *)
Fixpoint parse_loop (fuel : nat) (opts : PgOptions) (buf : bytes) (isEof : bool) (pos : nat) (k : Work) : option (HttpClient.ParseResult * nat * Work) :=
  match fuel with
  | O => None
  | S f =>
      fs ← FrameMessage buf pos (maxMessageBytes opts);
      match fs with
      | MALFORMED => Some (HttpClient.PARSE_ERROR, pos, k)
      | NEED_MORE => Some (if isEof then HttpClient.PARSE_ERROR else HttpClient.INCOMPLETE, pos, k)
      | FRAME_OK m pos =>
          '(r, k) ← on_message m k;
          match r with
          | Some r => Some (r, pos, k)
          | None => parse_loop f opts buf isEof pos k
          end
      end
  end.

Definition Parse (opts : PgOptions) (buf : bytes) (isEof : bool) (k : Work) : option (HttpClient.ParseResult * nat * Work) :=
  let k := if streamRowsStale (slot k) then on_slot (set_stale false) (on_res ResetRows k) else k in
  parse_loop (S (length buf)) opts buf isEof 0 k.

(** ** The messages of a round, and how a server reads them *)

Inductive FeMessage :=
| FeQuery (text : bytes)
| FeParse (name text : bytes) (oids : list Z)
| FeBind (portal name : bytes) (vals : list (option bytes)) (resultFormat : Z)
| FeDescribe (portal : bytes)
| FeExecute (portal : bytes) (rows : Z)
| FeClose (what : Z) (name : bytes)
| FeSync.

Definition fe_tag (m : FeMessage) : Z :=
  match m with FeQuery _ => FE_QUERY | FeParse _ _ _ => FE_PARSE | FeBind _ _ _ _ => FE_BIND | FeDescribe _ => FE_DESCRIBE | FeExecute _ _ => FE_EXECUTE | FeClose _ _ => FE_CLOSE | FeSync => FE_SYNC end.

Definition fe_wires (m : FeMessage) : list wire :=
  match m with
  | FeQuery t => [WCStr t]
  | FeParse n t os => [WCStr n; WCStr t; WI16 (Z.of_nat (length os))] ++ map (fun o => WI32 (i32 o)) os
  | FeBind p n vs f => [WCStr p; WCStr n; WI16 1; WI16 1; WI16 (Z.of_nat (length vs))] ++ concat (map field_wires vs) ++ [WI16 1; WI16 f]
  | FeDescribe p => [WU8 (chr "P"); WCStr p]
  | FeExecute p n => [WCStr p; WI32 n]
  | FeClose w n => [WU8 w; WCStr n]
  | FeSync => []
  end.

Definition fe_bytes (m : FeMessage) : bytes := framed (fe_tag m) (concat (map wire_bytes (fe_wires m))).
Definition fe_text (ms : list FeMessage) : bytes := concat (map fe_bytes ms).

Definition fe_ok (m : FeMessage) : Prop :=
  Forall wire_ok (fe_wires m) /\
  match m with
  | FeParse _ _ os => Forall (is_uint 32) os
  | FeClose w _ => is_byte w
  | _ => True
  end.

(** *** Reading, by the documented layouts *)

Definition ended {A} (x : A) (r : PgFieldReader) : option A := if rok r && Empty r then Some x else None.

Fixpoint read_oids (n : nat) (r : PgFieldReader) : list Z * PgFieldReader :=
  match n with O => ([], r) | S n => let '(o, r) := ReadI32 r in let '(os, r) := read_oids n r in (u32 o :: os, r) end.

Fixpoint read_values (n : nat) (r : PgFieldReader) : list (option bytes) * PgFieldReader :=
  match n with
  | O => ([], r)
  | S n =>
      let '(len, r) := ReadI32 r in
      let '(v, r) := if len <? 0 then (None, r) else let '(b, r) := ReadBytes len r in (Some b, r) in
      let '(vs, r) := read_values n r in (v :: vs, r)
  end.

Definition read_fe (m : PgMessage) : option FeMessage :=
  let r := ReadMessage m in
  let t := mtype m in
  if t =? FE_QUERY then let '(s, r) := ReadCStr r in ended (FeQuery s) r
  else if t =? FE_PARSE then
    let '(n, r) := ReadCStr r in let '(s, r) := ReadCStr r in let '(c, r) := ReadI16 r in let '(os, r) := read_oids (Z.to_nat c) r in ended (FeParse n s os) r
  else if t =? FE_BIND then
    let '(p, r) := ReadCStr r in let '(n, r) := ReadCStr r in let '(k, r) := ReadI16 r in let '(f, r) := ReadI16 r in let '(c, r) := ReadI16 r in
    let '(vs, r) := read_values (Z.to_nat c) r in let '(k2, r) := ReadI16 r in let '(f2, r) := ReadI16 r in
    if (k =? 1) && (f =? 1) && (k2 =? 1) then ended (FeBind p n vs f2) r else None
  else if t =? FE_DESCRIBE then let '(w, r) := ReadU8 r in let '(p, r) := ReadCStr r in if w =? chr "P" then ended (FeDescribe p) r else None
  else if t =? FE_EXECUTE then let '(p, r) := ReadCStr r in let '(n, r) := ReadI32 r in ended (FeExecute p n) r
  else if t =? FE_CLOSE then let '(w, r) := ReadU8 r in let '(n, r) := ReadCStr r in ended (FeClose w n) r
  else if t =? FE_SYNC then ended FeSync r
  else None.

Fixpoint server_loop (fuel : nat) (buf : bytes) (pos : nat) : option (list FeMessage) :=
  match fuel with
  | O => None
  | S f =>
      if (length buf <=? pos)%nat then Some []
      else match FrameMessage buf pos (2 ^ 32 - 2) with
           | Some (FRAME_OK m pos) => m ← read_fe m; ms ← server_loop f buf pos; Some (m :: ms)
           | _ => None
           end
  end.

(** The messages in what a client sent; nothing if any byte of it is out of place. *)
Definition server_reads (buf : bytes) : option (list FeMessage) := server_loop (S (length buf)) buf 0.

Lemma get_str s r : NUL ∉ s -> ReadCStr (Reader (wire_bytes (WCStr s) ++ r) true) = (s, Reader r true).
Proof. intros H. cbn [wire_bytes]. rewrite <- app_assoc. by apply ReadCStr_app. Qed.

Lemma read_oids_spec os r : Forall (is_uint 32) os -> Z.of_nat (length (concat (map wire_bytes (map (fun o => WI32 (i32 o)) os)) ++ r)) < 2 ^ 32 ->
  read_oids (length os) (Reader (concat (map wire_bytes (map (fun o => WI32 (i32 o)) os)) ++ r) true) = (os, Reader r true).
Proof.
  induction 1 as [|o os Ho _ IH]; intros Hl; [done|]. cbn [length read_oids map concat wire_bytes] in *. rewrite <- app_assoc in *.
  rewrite read_i32 by (try (apply (signed_range 32); lia); lia). rewrite length_app in Hl. rewrite IH by lia. by rewrite (wrap_signed 32) by (done || lia).
Qed.

Lemma read_values_spec vs r : Forall value_ok vs -> Z.of_nat (length (concat (map wire_bytes (concat (map field_wires vs))) ++ r)) < 2 ^ 32 ->
  read_values (length vs) (Reader (concat (map wire_bytes (concat (map field_wires vs))) ++ r) true) = (vs, Reader r true).
Proof.
  induction 1 as [|v vs Hv _ IH]; intros Hl; [done|]. cbn [length read_values map concat] in *. rewrite map_app, concat_app, <- app_assoc in *.
  destruct v as [b|]; cbn [field_wires map concat wire_bytes app value_ok] in *.
  - rewrite app_nil_r, <- app_assoc in *. rewrite !length_app in Hl. rewrite read_i32 by (try lia; rewrite !length_app; lia). rewrite (proj2 (Z.ltb_ge _ _)) by lia.
    rewrite ReadBytes_app by (rewrite !length_app; lia). by rewrite IH by (rewrite !length_app; lia).
  - rewrite app_nil_r in *. rewrite !length_app in Hl. rewrite read_i32 by (try lia; rewrite !length_app; lia). cbn [Z.ltb Z.compare]. by rewrite IH by (rewrite !length_app; lia).
Qed.

Lemma read_u8 v r : is_byte v -> Z.of_nat (length (v :: r)) < 2 ^ 32 -> ReadU8 (Reader ([v] ++ r) true) = (v, Reader r true).
Proof. intros. by apply ReadU8_byte. Qed.

Lemma values_ok vs : Forall wire_ok (concat (map field_wires vs)) -> Forall value_ok vs.
Proof.
  induction vs as [|v vs IH]; [constructor|]. cbn [map concat]. rewrite Forall_app. intros [H1 H2]. constructor; [|by apply IH].
  destruct v as [b|]; [|done]. cbn [field_wires] in H1. apply Forall_cons in H1 as [[_ H] _]. exact H.
Qed.

Lemma read_fe_spec m : fe_ok m -> Z.of_nat (length (fe_bytes m)) < 2 ^ 32 -> read_fe (Message (fe_tag m) (concat (map wire_bytes (fe_wires m)))) = Some m.
Proof.
  intros [Hw Ho] Hl. assert (Hp : Z.of_nat (length (concat (map wire_bytes (fe_wires m)))) < 2 ^ 32).
  { unfold fe_bytes, framed in Hl. cbn [length] in Hl. rewrite length_app in Hl. lia. } clear Hl.
  unfold read_fe, ReadMessage. cbn [mtype payload].
  destruct m as [t|n t os|p n vs f|p|p n|w n|]; cbn [fe_tag fe_wires] in *;
    repeat match goal with |- context [?a =? ?b] => let c := eval vm_compute in (a =? b) in change (a =? b) with c; cbv iota end.
  - apply Forall_cons in Hw as [[H _] _]. cbn [map concat]. by rewrite get_str.
  - apply Forall_cons in Hw as [[H1 _] Hw]. apply Forall_cons in Hw as [[H2 _] Hw]. apply Forall_cons in Hw as [H3 _]. cbn [app map concat] in *.
    rewrite get_str by done. rewrite get_str by done. cbn [wire_bytes wire_ok] in *. rewrite !length_app in Hp. rewrite read_i16 by (try lia; rewrite length_app; lia).
    rewrite Nat2Z.id. rewrite <- (app_nil_r (concat _)). by rewrite read_oids_spec by (done || (rewrite app_nil_r; lia)).
  - apply Forall_cons in Hw as [[H1 _] Hw]. apply Forall_cons in Hw as [[H2 _] Hw]. do 3 (apply Forall_cons in Hw as [? Hw]). apply Forall_app in Hw as [Hv Hf].
    apply Forall_cons in Hf as [_ Hf]. apply Forall_cons in Hf as [Hf _]. cbn [app map concat] in *. rewrite map_app, concat_app in *.
    rewrite get_str by done. rewrite get_str by done. cbn [wire_bytes wire_ok map concat app] in *. rewrite ?app_nil_r in *. rewrite !length_app in Hp.
    do 3 (rewrite read_i16 by (try lia; rewrite ?length_app; lia)). rewrite Nat2Z.id. rewrite read_values_spec by (try (by apply values_ok); rewrite ?length_app; lia).
    rewrite read_i16 by (try lia; rewrite ?length_app; lia). rewrite <- (app_nil_r (be16 (u16 f))). rewrite read_i16 by (try lia; rewrite ?app_nil_r; lia). done.
  - apply Forall_cons in Hw as [_ Hw]. apply Forall_cons in Hw as [[H _] _]. cbn [map concat] in *. change (wire_bytes (WU8 (chr "P"))) with [chr "P"] in *. cbn [app] in Hp.
    rewrite read_u8 by (done || exact Hp). by rewrite get_str.
  - apply Forall_cons in Hw as [[H _] Hw]. apply Forall_cons in Hw as [H2 _]. cbn [map concat] in *. rewrite get_str by done. cbn [wire_bytes wire_ok] in *. rewrite !length_app in Hp.
    by rewrite read_i32 by (try lia; rewrite length_app; lia).
  - apply Forall_cons in Hw as [Hb Hw]. apply Forall_cons in Hw as [[H _] _]. cbn [map concat] in *. change (wire_bytes (WU8 w)) with [w] in *. cbn [app] in Hp.
    rewrite read_u8 by (done || exact Hp). by rewrite get_str.
  - done.
Qed.

Lemma server_loop_spec ms : forall pre fuel, Forall fe_ok ms -> (length ms < fuel)%nat -> Z.of_nat (length (pre ++ fe_text ms)) < 2 ^ 32 - 1 ->
  server_loop fuel (pre ++ fe_text ms) (length pre) = Some ms.
Proof.
  induction ms as [|m ms IH]; intros pre fuel Hok Hf Hl; (destruct fuel as [|fuel]; [lia|]); cbn [server_loop].
  - unfold fe_text. cbn [map concat]. by rewrite app_nil_r, (proj2 (Nat.leb_le _ _)).
  - inversion Hok as [|? ? Hm Hms]; subst. unfold fe_text in *. cbn [map concat] in *.
    assert (Hn : (5 <= length (fe_bytes m))%nat) by (unfold fe_bytes, framed; cbn [length]; rewrite length_app, length_be32; lia).
    rewrite (proj2 (Nat.leb_gt _ _)) by (rewrite !length_app; lia). unfold fe_bytes at 1. rewrite FrameMessage_framed by (fold (fe_bytes m); lia).
    fold (fe_bytes m). rewrite !length_app in Hl. rewrite (proj2 (Z.ltb_ge _ _)).
    2: { unfold fe_bytes, framed in Hl. cbn [length] in Hl. rewrite length_app, length_be32 in Hl. lia. }
    rewrite read_fe_spec by (done || lia). cbn [option_bind mbind]. rewrite (app_assoc pre), <- length_app. cbn [length] in Hf.
    rewrite IH; [done|done|lia|]. rewrite !length_app. lia.
Qed.

Lemma fe_text_length ms : (length ms <= length (fe_text ms))%nat.
Proof.
  unfold fe_text. induction ms as [|m ms IH]; [done|]. cbn [map concat length]. rewrite length_app. unfold fe_bytes at 1, framed. cbn [length]. lia.
Qed.

Lemma server_reads_spec ms : Forall fe_ok ms -> Z.of_nat (length (fe_text ms)) < 2 ^ 32 - 1 -> server_reads (fe_text ms) = Some ms.
Proof. intros H Hl. apply (server_loop_spec ms [] (S (length (fe_text ms)))); [done| |done]. pose proof (fe_text_length ms). lia. Qed.

(** ** [Serialize] writes whole messages *)

(** The writer after the messages [ms]. *)
Definition wrote (cap : Z) (ms : list FeMessage) (w : PgWriter) : Prop :=
  fits w /\ cap_ w = cap /\ (ok_ w = true <-> Z.of_nat (length (fe_text ms)) <= cap) /\ (ok_ w = true -> buf_ w = fe_text ms).

Lemma fe_text_app a b : fe_text (a ++ b) = fe_text a ++ fe_text b.
Proof. unfold fe_text. by rewrite map_app, concat_app. Qed.

Lemma wrote_new cap : 0 <= cap < 2 ^ 32 -> wrote cap [] (NewWriter cap).
Proof. intros H. unfold wrote, fits, NewWriter, fe_text. cbn. repeat split; try done; lia. Qed.

Lemma wrote_more cap ms m f w : emits (fe_bytes m) f -> wrote cap ms w -> wrote cap (ms ++ [m]) (f w).
Proof.
  intros Hf (F & C & O & B). destruct (Hf w F) as (F2 & C2 & O2 & B2). assert (E : fe_text (ms ++ [m]) = fe_text ms ++ fe_bytes m) by (rewrite fe_text_app; unfold fe_text; cbn; by rewrite app_nil_r).
  split; [done|]. split; [congruence|]. rewrite E, length_app. split.
  - rewrite O2, C. split; intros H.
    + destruct H as [H1 H2]. rewrite (B H1) in H2. lia.
    + assert (Ho : ok_ w = true) by (apply O; lia). split; [done|]. rewrite (B Ho). lia.
  - intros H. pose proof H as H1. apply O2 in H1 as [H1 _]. by rewrite (B2 H), (B H1).
Qed.

Lemma wrote_if cap (b : bool) ms m f w : emits (fe_bytes m) f -> wrote cap ms w -> wrote cap (ms ++ if b then [m] else []) (if b then f w else w).
Proof. intros Hf H. destruct b; [by apply wrote_more|]. by rewrite app_nil_r. Qed.

Lemma wrote_finish cap ms w : wrote cap ms w -> finish w = if Z.of_nat (length (fe_text ms)) <=? cap then SER_OK (fe_text ms) else SER_BUFFER_TOO_SMALL.
Proof.
  intros (_ & _ & O & B). unfold finish, Ok. destruct (ok_ w) eqn:E.
  - rewrite (proj2 (Z.leb_le _ _)) by tauto. by rewrite B.
  - rewrite (proj2 (Z.leb_gt _ _)); [done|]. apply Z.nle_gt. intros H. apply O in H. congruence.
Qed.

(** A text the writer takes as one string. *)
Definition text_ok (s : bytes) : Prop := (NUL ∉ s) /\ Z.of_nat (length s) < 2 ^ 32.

Lemma emits_fe m ops : is_byte (fe_tag m) -> Forall2 writes (map wire_bytes (fe_wires m)) ops -> emits (fe_bytes m) (message (fe_tag m) ops).
Proof. intros. unfold fe_bytes. by apply emits_message. Qed.

Lemma emits_put m : is_byte (fe_tag m) -> Forall wire_ok (fe_wires m) -> emits (fe_bytes m) (message (fe_tag m) (map put (fe_wires m))).
Proof. intros. apply emits_fe; [done|by apply puts_write]. Qed.

Lemma byte_tag m : is_byte (fe_tag m).
Proof. destruct m; by vm_compute. Qed.

Lemma fe_ok_query t : text_ok t -> fe_ok (FeQuery t).
Proof. intros [H1 H2]. split; [|done]. repeat constructor; done. Qed.
Lemma emits_query t : text_ok t -> emits (fe_bytes (FeQuery t)) (query_message t).
Proof. intros H. exact (emits_put _ (byte_tag _) (proj1 (fe_ok_query t H))). Qed.

Lemma fe_ok_close w n : is_byte w -> text_ok n -> fe_ok (FeClose w n).
Proof. intros Hw [H1 H2]. split; [|done]. repeat constructor; done || apply Hw. Qed.
Lemma emits_close w n : is_byte w -> text_ok n -> emits (fe_bytes (FeClose w n)) (close_message w n).
Proof. intros Hw H. exact (emits_put _ (byte_tag _) (proj1 (fe_ok_close w n Hw H))). Qed.

Lemma fe_ok_execute p n : text_ok p -> (- (2 ^ 31)) <= n < 2 ^ 31 -> fe_ok (FeExecute p n).
Proof. intros [H1 H2] Hn. split; [|done]. repeat constructor; done || apply Hn. Qed.
Lemma emits_execute p n : text_ok p -> (- (2 ^ 31)) <= n < 2 ^ 31 -> emits (fe_bytes (FeExecute p n)) (execute_message p n).
Proof. intros H Hn. exact (emits_put _ (byte_tag _) (proj1 (fe_ok_execute p n H Hn))). Qed.

Lemma fe_ok_describe p : text_ok p -> fe_ok (FeDescribe p).
Proof. intros [H1 H2]. split; [|done]. repeat constructor; done. Qed.
Lemma emits_describe p : text_ok p -> emits (fe_bytes (FeDescribe p)) (describe_message p).
Proof. intros H. exact (emits_put _ (byte_tag _) (proj1 (fe_ok_describe p H))). Qed.

Lemma fe_ok_sync : fe_ok FeSync.
Proof. split; [constructor|done]. Qed.
Lemma emits_sync : emits (fe_bytes FeSync) sync_message.
Proof. exact (emits_put _ (byte_tag _) (proj1 fe_ok_sync)). Qed.

(** What [Serialize] relies on: texts without NUL, an oid per parameter, and the parameters
    as the values [vals], each with its length before it; only queries are streams.  Every
    request the API makes and does not mark as failed is such: see [made_ok]. *)
Definition request_ok (r : PgRequest) (vals : list (option bytes)) : Prop :=
  text_ok ((if bool_decide (kind r = QUERY) then [] else savepoint_prefix (kind r)) ++ sql r) /\ Forall (is_uint 32) (paramOids r) /\ Z.of_nat (length (paramOids r)) = paramCount r /\ paramCount r < 2 ^ 15 /\
  Z.of_nat (length vals) = paramCount r /\ Forall value_ok vals /\ params r = concat (map wire_bytes (concat (map field_wires vals))) /\
  Z.of_nat (length (params r)) < 2 ^ 32 /\ (kind r <> QUERY -> streamRows r = 0).

(** A request made by the API, and the values a server should read for its parameters: any
    SQL without NUL, any parameters but 8- and 16-bit integers. *)
Inductive made : PgRequest -> list (option bytes) -> Prop :=
| made_query chunkRows session' sql ps : text_ok sql -> Forall param_ok ps -> Z.of_nat (length ps) < 2 ^ 15 ->
    made (MakeStreamRequest chunkRows session' sql ps) (map value_of ps)
| made_savepoint session' k name : k <> QUERY -> made (MakeSavepointRequest session' k name) [].

Lemma stream_of_none session' sql ps : MakeSessionRequest session' sql ps = MakeStreamRequest 0 session' sql ps.
Proof. done. Qed.
Lemma session_of_none sql ps : MakeRequest sql ps = MakeStreamRequest 0 0 sql ps.
Proof. unfold MakeStreamRequest, MakeRequest. by destruct (EncodeParams ps). Qed.

Lemma identifier_no_nul b name : identifier_chars b name = true -> NUL ∉ name.
Proof.
  revert b. induction name as [|c name IH]; intros b H; [apply not_elem_of_nil|]. cbn [identifier_chars] in H. apply andb_true_iff in H as [H Hr].
  apply not_elem_of_cons. split; [|by eapply IH]. intros <-. by destruct b.
Qed.

Lemma oids_uint ps : Forall (is_uint 32) (map ParamOid ps).
Proof. apply Forall_map, Forall_forall. intros p _. by destruct p; vm_compute. Qed.

Lemma made_ok r vals : made r vals -> encoded r = true -> request_ok r vals.
Proof.
  destruct 1 as [rows s q ps Hq Hps Hn|s k name Hk]; intros He.
  - pose proof (EncodeParams_spec ps Hps ltac:(lia)) as HE. unfold MakeStreamRequest, MakeRequest in *. destruct (EncodeParams ps) as [ok text]. cbn [encoded params paramOids paramCount fst snd] in *.
    destruct (HE He) as (Ht & Hv & Hl). unfold request_ok, PG_MAX_PARAM_BYTES in *. cbn [kind sql paramOids paramCount params streamRows savepoint_prefix]. rewrite wrap_small by lia. rewrite !length_map.
    split; [done|]. split; [apply oids_uint|]. split; [done|]. split; [lia|]. split; [done|]. split; [done|]. split; [done|]. split; [lia|done].
  - unfold MakeSavepointRequest, request_ok in *. cbn [encoded kind sql paramOids paramCount params streamRows] in *. unfold IsValidIdentifier in He. apply andb_true_iff in He as [He Hc]. apply andb_true_iff in He as [_ Hl].
    apply Nat.leb_le in Hl. unfold MAX_IDENTIFIER_LEN in Hl. rewrite bool_decide_false by done. split; [split|].
    + intros [H|H]%elem_of_app; [|by apply identifier_no_nul in Hc]. revert H. apply find_char_None. by destruct k.
    + rewrite length_app. assert (length (savepoint_prefix k) < 64)%nat by (destruct k; cbn; lia). lia.
    + split; [constructor|]. by repeat split.
Qed.

Lemma sql_ok r vals : request_ok r vals -> text_ok (sql r).
Proof. intros ([H1 H2] & _). rewrite length_app in H2. split; [intros H; apply H1; apply elem_of_app; by right|lia]. Qed.

Lemma take_oids r vals : request_ok r vals -> take (Z.to_nat (paramCount r)) (paramOids r) = paramOids r.
Proof. intros (_ & _ & H & _). apply take_ge. lia. Qed.

Lemma fe_ok_parse r vals n : request_ok r vals -> text_ok n -> fe_ok (FeParse n (sql r) (paramOids r)).
Proof.
  intros Hr [Hn1 Hn2]. pose proof (sql_ok r vals Hr) as [Hs1 Hs2]. destruct Hr as (_ & Ho & Hc & Hc2 & _). split; [|done]. cbn [fe_wires app].
  repeat (apply Forall_cons; split; [cbn [wire_ok]; first [by split | lia]|]). apply Forall_map. eapply Forall_impl; [exact Ho|]. intros o _. cbn. apply (signed_range 32). lia.
Qed.

Lemma emits_parse r vals n : request_ok r vals -> text_ok n -> emits (fe_bytes (FeParse n (sql r) (paramOids r))) (parse_message n r).
Proof.
  intros Hr Hn. unfold parse_message. rewrite (take_oids r vals) by done. pose proof (fe_ok_parse r vals n Hr Hn) as [Hw _].
  destruct Hr as (_ & _ & Hc & Hc2 & _). replace (i16 (paramCount r)) with (Z.of_nat (length (paramOids r))).
  2: { rewrite <- (signed_small 16 (Z.of_nat (length (paramOids r)))) by lia. rewrite Hc. unfold signed. by rewrite wrap_idem. }
  pose proof (emits_put _ (byte_tag _) Hw) as H. cbn [fe_wires fe_tag map app put] in H. by rewrite map_map in H.
Qed.

Lemma field_wires_ok vals : Forall value_ok vals -> Forall wire_ok (concat (map field_wires vals)).
Proof.
  induction 1 as [|v vals Hv _ IH]; [constructor|]. cbn [map concat]. apply Forall_app. split; [|done]. destruct v as [b|]; cbn [field_wires value_ok] in *; repeat constructor; cbn; lia.
Qed.

Lemma fe_ok_bind r vals p n f : request_ok r vals -> text_ok p -> text_ok n -> - (2 ^ 15) <= f < 2 ^ 15 -> fe_ok (FeBind p n vals f).
Proof.
  intros (_ & _ & _ & Hc2 & Hl & Hv & _) [Hp1 Hp2] [Hn1 Hn2] Hf. split; [|done]. cbn [fe_wires app].
  repeat (apply Forall_cons; split; [cbn [wire_ok]; first [by split | lia]|]). apply Forall_app. split; [by apply field_wires_ok|].
  repeat (apply Forall_cons; split; [cbn [wire_ok]; first [done | lia]|]). constructor.
Qed.

Lemma emits_bind r vals p n f : request_ok r vals -> text_ok p -> text_ok n -> - (2 ^ 15) <= f < 2 ^ 15 -> emits (fe_bytes (FeBind p n vals f)) (bind_message p n f r).
Proof.
  intros Hr Hp Hn Hf. unfold bind_message. destruct Hr as (_ & _ & _ & Hc2 & Hl & Hv & Hpar & Hps & _).
  unfold fe_bytes. cbn [fe_wires fe_tag app map]. rewrite map_app.
  replace (concat _) with (concat (map wire_bytes [WCStr p; WCStr n; WI16 1; WI16 1; WI16 (Z.of_nat (length vals))] ++ [params r] ++ map wire_bytes [WI16 1; WI16 f]))
    by (rewrite Hpar; cbn [map app concat]; by rewrite !concat_app).
  apply emits_message; [by vm_compute|]. cbn [map app]. destruct Hp as [Hp1 Hp2], Hn as [Hn1 Hn2].
  replace (i16 (paramCount r)) with (Z.of_nat (length vals)).
  2: { rewrite <- (signed_small 16 (Z.of_nat (length vals))) by lia. rewrite Hl. unfold signed. by rewrite wrap_idem. }
  repeat (apply Forall2_cons_2; [first [by apply writes_CStr | by apply (writes_I16 1) | by apply writes_I16 | by apply writes_Str]|]). constructor.
Qed.

(** A savepoint statement goes out in two pieces of one string. *)
Lemma emits_savepoint r vals : kind r <> QUERY -> request_ok r vals -> emits (fe_bytes (FeQuery (savepoint_prefix (kind r) ++ sql r))) (message FE_QUERY [Str (savepoint_prefix (kind r)); Str (sql r); U8 0]).
Proof.
  intros Hk Hr. pose proof Hr as ([_ Hl] & _). rewrite bool_decide_false, length_app in Hl by done. unfold fe_bytes. cbn [fe_tag fe_wires map wire_bytes].
  replace (concat _) with (concat [savepoint_prefix (kind r); sql r; [NUL]]) by (cbn [concat]; by rewrite !app_nil_r, app_assoc).
  apply emits_message; [by vm_compute|]. repeat (apply Forall2_cons_2; [first [apply writes_Str; lia | apply (writes_U8 0); by unfold is_byte]|]). constructor.
Qed.

(** *** The round of a request, as messages *)

Definition stmt_messages (stmt : PgStatementLookup) (resultFormat : Z) (r : PgRequest) (vals : list (option bytes)) (rows : Z) : list FeMessage :=
  let portal := if rows =? 0 then [] else STREAM_PORTAL in
  (if lclose stmt then [FeClose (chr "S") (lname stmt)] else []) ++ (if lparse stmt then [FeParse (lname stmt) (sql r) (paramOids r)] else []) ++
  [FeBind portal (lname stmt) vals resultFormat; FeDescribe portal; FeExecute portal (i32 rows); FeSync].

Definition leftover (r : PgRequest) (st : SlotState) : bool := negb (txStatus st =? TX_IDLE) && ((session r =? 0) || negb (session r =? ssession st)).

Definition prepare (r : PgRequest) (st : SlotState) : SlotState :=
  let st := set_streamRows (streamRows r) (set_pending STMT_NONE (set_expected 1 st)) in
  if sstreamRows st =? 0 then set_phase PHASE_NONE st else st.

Definition format_of (opts : PgOptions) (r : PgRequest) : Z := if binaryResults r && preferBinary opts then FORMAT_BINARY else FORMAT_TEXT.

Definition lookup_stmt (ctl : option Z) (r : PgRequest) (st : SlotState) : option (PgStatementCache * PgStatementLookup) :=
  match ctl with
  | Some epoch => Acquire (sql r) (paramOids r) (paramCount r) epoch (stmtCache st)
  | None => Some (stmtCache st, no_lookup)
  end.

(** The messages, the slot if they do not fit, and the slot if they do. *)
Definition continue_round (st : SlotState) : list FeMessage * SlotState * SlotState :=
  let st := set_stale true st in
  (if bool_decide (streamPhase st = PHASE_FETCH) then [FeExecute STREAM_PORTAL (i32 (sstreamRows st)); FeSync]
   else if streamOwnsTx st then [FeQuery SQL_STREAM_COMMIT]
   else [FeClose (chr "P") STREAM_PORTAL; FeSync], st, st).

Definition rollback_messages (l : bool) : list FeMessage := if l then [FeQuery (lit "ROLLBACK")] else [].
Definition begin_messages (b : bool) : list FeMessage := if b then [FeQuery SQL_STREAM_BEGIN] else [].

Definition open_round (opts : PgOptions) (ctl : option Z) (r : PgRequest) (vals : list (option bytes)) (st : SlotState) : option (list FeMessage * SlotState * SlotState) :=
  let l := leftover r st in
  let st := set_stale false st in
  let st := if l then set_expected 2 st else st in
  if negb (bool_decide (kind r = QUERY)) then Some (rollback_messages l ++ [FeQuery (savepoint_prefix (kind r) ++ sql r)], st, set_session (session r) st)
  else
    let streaming := negb (sstreamRows st =? 0) in
    let owns := l || (txStatus st =? TX_IDLE) in
    let st := if streaming then set_ownsTx owns st else st in
    let st := if streaming && owns then set_expected (u8 (expectedReady st + 1)) st else st in
    '(c, stmt) ← lookup_stmt ctl r st;
    let st := set_cache c st in
    let st := if lparse stmt then set_pending (lindex stmt) st else st in
    Some (rollback_messages l ++ begin_messages (streaming && owns) ++ stmt_messages stmt (format_of opts r) r vals (sstreamRows st), st, set_session (session r) st).

Definition round (opts : PgOptions) (ctl : option Z) (r : PgRequest) (vals : list (option bytes)) (st : SlotState) : option (list FeMessage * SlotState * SlotState) :=
  let st := prepare r st in
  if bool_decide (streamPhase st = PHASE_NONE) then open_round opts ctl r vals st else Some (continue_round st).

Lemma text_ok_lit (s : bytes) : find_char NUL s = None -> Z.of_nat (length s) < 2 ^ 32 -> text_ok s.
Proof. intros H1 H2. split; [by apply find_char_None|done]. Qed.

Lemma text_portal (b : bool) : text_ok (if b then [] else STREAM_PORTAL).
Proof. destruct b; by apply text_ok_lit. Qed.

Lemma i32_range n : (- (2 ^ 31)) <= i32 n < 2 ^ 31.
Proof. apply (signed_range 32). lia. Qed.

Lemma format_range opts r : (- (2 ^ 15)) <= format_of opts r < 2 ^ 15.
Proof. unfold format_of. by destruct (_ && _). Qed.

Lemma extended_query_wrote cap ms w stmt f r vals st : request_ok r vals -> text_ok (lname stmt) -> (- (2 ^ 15)) <= f < 2 ^ 15 -> wrote cap ms w ->
  exists w', extended_query stmt f r st w = (if lparse stmt then set_pending (lindex stmt) st else st, w') /\ wrote cap (ms ++ stmt_messages stmt f r vals (sstreamRows st)) w'.
Proof.
  intros Hr Hn Hf Hw. unfold extended_query, stmt_messages.
  pose proof (wrote_if cap (lclose stmt) ms _ _ w (emits_close (chr "S") (lname stmt) ltac:(by vm_compute) Hn) Hw) as H1.
  pose proof (wrote_if cap (lparse stmt) _ _ _ _ (emits_parse r vals (lname stmt) Hr Hn) H1) as H2.
  set (w1 := if lclose stmt then _ else w) in *. set (w2 := if lparse stmt then _ else w1) in H2.
  replace (if lparse stmt then (set_pending (lindex stmt) st, parse_message (lname stmt) r w1) else (st, w1)) with (if lparse stmt then set_pending (lindex stmt) st else st, w2) by (unfold w2; by destruct (lparse stmt)).
  replace (sstreamRows (if lparse stmt then set_pending (lindex stmt) st else st)) with (sstreamRows st) by (by destruct (lparse stmt)).
  eexists. split; [reflexivity|]. set (portal := if _ =? 0 then _ else _). assert (Hp : text_ok portal) by apply (text_portal (sstreamRows st =? 0)).
  pose proof (wrote_more _ _ _ _ _ (emits_bind r vals portal (lname stmt) f Hr Hp Hn Hf) H2) as H3.
  pose proof (wrote_more _ _ _ _ _ (emits_describe portal Hp) H3) as H4.
  pose proof (wrote_more _ _ _ _ _ (emits_execute portal (i32 (sstreamRows st)) Hp (i32_range _)) H4) as H5.
  pose proof (wrote_more _ _ _ _ _ emits_sync H5) as H6. rewrite <- !app_assoc in H6. exact H6.
Qed.

(** A result and the slot after it. *)
Definition settle (cap : Z) (x : list FeMessage * SlotState * SlotState) : SerializeResult * SlotState :=
  let '(ms, small, whole) := x in
  if Z.of_nat (length (fe_text ms)) <=? cap then (SER_OK (fe_text ms), whole) else (SER_BUFFER_TOO_SMALL, small).

Lemma settle_finish cap ms w small whole : wrote cap ms w -> (if Ok w then (SER_OK (buf_ w), whole) else (SER_BUFFER_TOO_SMALL, small)) = settle cap (ms, small, whole).
Proof. intros H. pose proof (wrote_finish _ _ _ H) as E. unfold finish in E. unfold settle. destruct (Ok w), (_ <=? cap); try discriminate; [|done]. by injection E as ->. Qed.

Lemma wrote_rollback cap (l : bool) : 0 <= cap < 2 ^ 32 -> wrote cap (rollback_messages l) (if l then query_message (lit "ROLLBACK") (NewWriter cap) else NewWriter cap).
Proof. intros H. exact (wrote_if cap l [] _ _ _ (emits_query _ (text_ok_lit (lit "ROLLBACK") eq_refl eq_refl)) (wrote_new cap H)). Qed.

Lemma continue_stream_round cap st : 0 <= cap < 2 ^ 32 -> continue_stream cap st = settle cap (continue_round st).
Proof.
  intros H. unfold continue_stream, continue_round. cbv zeta. pose proof (wrote_new cap H) as H0. unfold finish.
  set (st' := set_stale true st). assert (Hp : text_ok STREAM_PORTAL) by apply (text_portal false).
  assert (E : forall ms w, wrote cap ms w -> (if Ok w then SER_OK (buf_ w) else SER_BUFFER_TOO_SMALL, st') = settle cap (ms, st', st')).
  { intros ms w Hw. rewrite <- (settle_finish cap ms w st' st' Hw). by destruct (Ok w). }
  case_bool_decide; [|destruct (streamOwnsTx st')]; apply E.
  - pose proof (wrote_more _ _ _ _ _ (emits_execute STREAM_PORTAL (i32 (sstreamRows st')) Hp (i32_range _)) H0) as Hq. exact (wrote_more _ _ _ _ _ emits_sync Hq).
  - exact (wrote_more _ _ _ _ _ (emits_query _ (text_ok_lit SQL_STREAM_COMMIT eq_refl eq_refl)) H0).
  - pose proof (wrote_more _ _ _ _ _ (emits_close (chr "P") STREAM_PORTAL ltac:(by vm_compute) Hp) H0) as Hq. exact (wrote_more _ _ _ _ _ emits_sync Hq).
Qed.


(** ** The cache *)

Definition statement := (bytes * list Z)%type.

Definition stmt_of (e : PgStatementEntry) : statement := (esql e, take (Z.to_nat (eparamCount e)) (eoids e)).

(** [P] is what the server holds, by name.  Every entry, but for one whose outcome is not
    known yet: parsed at some epoch, its name is its SQL; not live, its name is free. *)
Definition entry_ok (P : gmap bytes statement) (e : PgStatementEntry) : Prop :=
  (eepoch e <> STMT_EPOCH_UNPARSED -> P !! ename e = Some (stmt_of e)) /\ (elive e = false -> P !! ename e = None).

Definition cache_ok (P : gmap bytes statement) (skip : option nat) (c : PgStatementCache) : Prop :=
  (length (entries_ c) <= 4096)%nat /\ (entries_ c <> [] -> 0 <= mask_ c < Z.of_nat (length (entries_ c))) /\
  forall i e, entries_ c !! i = Some e -> ename e = stmt_name i /\ (skip <> Some i -> entry_ok P e).

Lemma stmt_digits i : (i < 4096)%nat -> stmt_name i = chr "s" :: to_chars_uint (Z.of_nat i).
Proof.
  intros H. assert (A : forallb (fun i => (length (to_chars_uint (Z.of_nat i)) <=? STMT_NAME_MAX - 1)%nat) (seq 0 4096) = true) by (by vm_compute).
  rewrite forallb_forall in A. unfold stmt_name. rewrite A; [done|]. apply in_seq. lia.
Qed.

Lemma stmt_name_inj i j : (i < 4096)%nat -> (j < 4096)%nat -> stmt_name i = stmt_name j -> i = j.
Proof.
  intros Hi Hj. rewrite !stmt_digits by done. intros [= E].
  destruct (to_chars_uint_spec (Z.of_nat i)) as (_ & _ & _ & Ei); [lia|]. destruct (to_chars_uint_spec (Z.of_nat j)) as (_ & _ & _ & Ej); [lia|].
  rewrite E in Ei. lia.
Qed.

Lemma stmt_name_text i : (i < 4096)%nat -> text_ok (stmt_name i) /\ stmt_name i <> [].
Proof.
  intros Hi. rewrite stmt_digits by done. destruct (to_chars_uint_spec (Z.of_nat i)) as (_ & Hl & Hd & _); [lia|]. split; [|done]. split; [|cbn [length]; lia].
  apply not_elem_of_cons. split; [done|]. intros H. rewrite Forall_forall in Hd. apply Hd in H. by vm_compute in H.
Qed.

Lemma land_below x m : 0 <= m -> 0 <= Z.land x m <= m.
Proof.
  intros Hm. split; [apply Z.land_nonneg; by right|]. apply Z.ldiff_le; [done|]. apply Z.bits_inj'. intros n Hn.
  rewrite Z.ldiff_spec, Z.land_spec, Z.bits_0. destruct (Z.testbit m n); [by rewrite andb_false_r|by rewrite andb_false_r].
Qed.

Lemma cache_name P skip c i e : cache_ok P skip c -> entries_ c !! i = Some e -> ename e = stmt_name i /\ (i < 4096)%nat.
Proof. intros (Hl & _ & H) Hi. split; [by apply (H i e)|]. apply lookup_lt_Some in Hi. lia. Qed.

(** An entry exchanged for another of its name. *)
Lemma cache_set P skip c i e e' : cache_ok P skip c -> entries_ c !! i = Some e -> ename e' = ename e -> (skip <> Some i -> entry_ok P e') -> cache_ok P skip (set_entry i e' c).
Proof.
  intros (Hl & Hm & H) Hi Hn He. unfold cache_ok, set_entry. cbn [entries_ mask_]. rewrite length_insert. split; [done|]. split.
  - intros _. apply Hm. intros E. by rewrite E in Hi.
  - intros j x Hj. destruct (decide (i = j)) as [<-|Hne].
    + apply lookup_lt_Some in Hi as Hlt. rewrite list_lookup_insert_eq in Hj by done. injection Hj as <-. rewrite Hn. split; [exact (proj1 (H i e Hi))|done].
    + rewrite list_lookup_insert_ne in Hj by done. by apply H.
Qed.

Lemma cache_idx P c x : cache_ok P None c -> entries_ c <> [] -> exists e, entries_ c !! Z.to_nat (Z.land x (mask_ c)) = Some e.
Proof.
  intros (_ & Hm & _) Hne. specialize (Hm Hne). pose proof (land_below x (mask_ c) ltac:(lia)). apply lookup_lt_is_Some_2. lia.
Qed.

(** What [Acquire] answers about a statement. *)
Definition acquired (c : PgStatementCache) (s : statement) (epoch : Z) (l : PgStatementLookup) : Prop :=
  l = no_lookup \/
  exists i e, entries_ c !! i = Some e /\ stmt_of e = s /\ lname l = stmt_name i /\ lindex l = Z.of_nat i /\
    lparse l = negb (eepoch e =? epoch) /\ lclose l = lparse l && elive e.

Lemma Describe_spec P c idx e epoch c' l : cache_ok P None c -> entries_ c !! idx = Some e -> Describe e idx epoch c = (c', l) ->
  cache_ok P None c' /\ acquired c' (stmt_of e) epoch l.
Proof.
  intros Hc Hi. unfold Describe. set (e' := if euses e <? minUses_ c then set_uses (u16 (euses e + 1)) e else e).
  assert (Hn : ename e' = ename e /\ stmt_of e' = stmt_of e /\ eepoch e' = eepoch e /\ elive e' = elive e) by (unfold e'; by destruct (_ <? _)).
  destruct Hn as (Hn & Hs & Hep & Hlv). assert (Hok : entry_ok P e') by (unfold entry_ok; rewrite Hn, Hs, Hep, Hlv; by apply Hc in Hi as [_ Hi]; apply Hi).
  assert (Hc' : cache_ok P None (set_entry idx e' c)) by (by apply (cache_set P None c idx e)).
  case_match; intros [= <- <-]; (split; [done|]); [by left|]. right. exists idx, e'. cbn [lname lindex lparse lclose set_entry entries_].
  apply lookup_lt_Some in Hi as Hlt. rewrite list_lookup_insert_eq by done. split; [done|]. split; [done|]. rewrite Hn. split; [by apply (cache_name P None c idx e)|]. done.
Qed.

Lemma probe_spec P c h home sq os n : cache_ok P None c -> entries_ c <> [] -> forall fuel i v vu, (v < length (entries_ c))%nat ->
  exists w, probe fuel i c h home sq os n v vu = Some w /\
    match w with Found idx e => entries_ c !! idx = Some e /\ eparamCount e = n /\ esql e = sq /\ SameOids (eoids e) os n = true | Victim idx => (idx < length (entries_ c))%nat end.
Proof.
  intros Hc Hne. induction fuel as [|f IH]; intros i v vu Hv; cbn [probe]; [by exists (Victim v)|].
  destruct (cache_idx P c (u32 (home + i)) Hc Hne) as [e He]. rewrite He. cbn [option_bind mbind]. apply lookup_lt_Some in He as Hlt.
  case_bool_decide; [by eexists|]. destruct (_ && _) eqn:E.
  - bool_split. exists (Found (Z.to_nat (Z.land (u32 (home + i)) (mask_ c))) e). split; [done|]. split; [done|]. split; [lia|]. split; [by apply sv_eq_true|done].
  - destruct (_ <? vu); by apply IH.
Qed.

Lemma SameOids_take a b n : SameOids a b n = true -> take (Z.to_nat n) a = take (Z.to_nat n) b.
Proof.
  unfold SameOids. intros [H|H]%orb_true_iff; [|by apply bool_decide_eq_true in H]. apply Z.eqb_eq in H as ->. by rewrite !take_0.
Qed.

Lemma stmt_hash_total sq os n : is_Some (stmt_hash sq os n).
Proof.
  unfold stmt_hash. destruct (Hash.hash_reads_in_bounds sq 0) as [_ [h ->]]. cbn [option_bind mbind]. destruct (n =? 0); [by eexists|].
  destruct (Hash.hash_reads_in_bounds (concat (map (Hash.le_bytes 4) (take (Z.to_nat n) os))) 0) as [_ [h2 ->]]. by eexists.
Qed.

Lemma Acquire_spec P c sq os n epoch : cache_ok P None c -> exists c' l, Acquire sq os n epoch c = Some (c', l) /\ cache_ok P None c' /\ acquired c' (sq, take (Z.to_nat n) os) epoch l.
Proof.
  intros Hc. unfold Acquire. destruct (entries_ c) as [|e0 es] eqn:E; [exists c, no_lookup; split; [done|]; split; [done|by left]|]. rewrite <- E.
  assert (Hne : entries_ c <> []) by (by rewrite E). destruct (stmt_hash_total sq os n) as [h ->]. cbn [option_bind mbind].
  destruct (cache_idx P c (u32 h) Hc Hne) as [e He]. apply lookup_lt_Some in He as Hlt.
  destruct (probe_spec P c h (Z.land (u32 h) (mask_ c)) sq os n Hc Hne STMT_PROBE_LEN 0 _ 0xFFFF Hlt) as (w & -> & Hw). cbn [option_bind mbind]. destruct w as [idx e1|idx].
  - destruct Hw as (Hi & Hn & Hs & Ho). destruct (Describe e1 idx epoch c) as [c' l] eqn:D. exists c', l. split; [done|].
    destruct (Describe_spec P c idx e1 epoch c' l Hc Hi D) as [H1 H2]. split; [done|]. replace (sq, _) with (stmt_of e1); [done|].
    unfold stmt_of. rewrite Hs, Hn. f_equal. by apply SameOids_take.
  - apply lookup_lt_is_Some_2 in Hw as [e1 Hi]. rewrite Hi. cbn [option_bind mbind]. set (e2 := Entry _ _ _ _ _ _ _ _).
    assert (Hc2 : cache_ok P None (set_entry idx e2 c)).
    { apply (cache_set P None c idx e1); [done|done|done|]. intros _. unfold entry_ok, e2. cbn [eepoch elive ename]. split; [done|]. by apply Hc in Hi as [_ Hi]; apply Hi. }
    destruct (Describe e2 idx epoch (set_entry idx e2 c)) as [c' l] eqn:D. exists c', l. split; [done|].
    apply (Describe_spec P _ idx e2 epoch c' l Hc2); [|exact D]. unfold set_entry. cbn [entries_]. apply list_lookup_insert_eq. by apply lookup_lt_Some in Hi.
Qed.

(** A fresh cache: every name is free. *)
Lemma round_up_bounds fuel cap size : 1 <= cap <= 4096 -> Z.of_nat (Z.to_nat cap) = cap -> (exists k, 0 <= k <= 12 /\ cap = 2 ^ k) -> 1 <= round_up fuel cap size <= 4096.
Proof.
  revert cap. induction fuel as [|f IH]; intros cap Hc Hn (k & Hk & Ek); cbn [round_up]; [done|]. destruct (_ && _) eqn:E; [|done].
  apply andb_true_iff in E as [_ E]. unfold STMT_CACHE_MAX in E. assert (Hk2 : k <> 12) by (intros ->; rewrite Ek in E; by vm_compute in E).
  assert (E2 : u32 (Z.shiftl cap 1) = 2 ^ (k + 1)).
  { rewrite Z.shiftl_mul_pow2, Ek, <- Z.pow_add_r by lia. apply wrap_small. split; [apply Z.pow_nonneg; lia|apply Z.pow_lt_mono_r; lia]. }
  rewrite E2. assert (H12 : 2 ^ (k + 1) <= 2 ^ 12) by (apply Z.pow_le_mono_r; lia). assert (0 < 2 ^ (k + 1)) by (apply Z.pow_pos_nonneg; lia).
  apply IH; [split; [lia|exact H12]|lia|exists (k + 1); lia].
Qed.

Lemma Init_empty_cache size minUses : cache_ok ∅ None (Init size minUses new_cache).
Proof.
  unfold Init. destruct (size =? 0); [split; [cbn; lia|]; split; [done|]; intros i e H; by destruct i|].
  assert (H0 : exists k, 0 <= k <= 12 /\ 1 = 2 ^ k) by (exists 0; lia). pose proof (round_up_bounds 32 1 size ltac:(lia) eq_refl H0) as Hc. unfold cache_ok. cbn [entries_ mask_].
  rewrite length_map, length_seq. split; [lia|]. split; [lia|]. intros i e Hi. rewrite list_lookup_fmap in Hi. apply fmap_Some in Hi as (j & Hj & ->).
  apply lookup_seq in Hj as [-> Hj]. cbn [ename]. rewrite Nat.add_0_l. split; [done|]. intros _. unfold entry_ok. cbn [eepoch elive]. split; [done|]. intros _. by apply lookup_empty.
Qed.

(** ** [Serialize] is the round, encoded *)

Definition ctl_ok (ctl : option Z) : Prop := match ctl with Some e => 0 < e < 2 ^ 32 | None => True end.

(** The statement of a request, and what its entry says: see [acquired]. *)
Definition looked_up (ctl : option Z) (c : PgStatementCache) (s : statement) (l : PgStatementLookup) : Prop :=
  match ctl with Some epoch => acquired c s epoch l | None => l = no_lookup end.

Lemma lookup_stmt_spec P ctl r vals st : cache_ok P None (stmtCache st) -> request_ok r vals ->
  exists c l, lookup_stmt ctl r st = Some (c, l) /\ cache_ok P None c /\ looked_up ctl c (sql r, paramOids r) l /\ text_ok (lname l).
Proof.
  intros Hc Hr. unfold lookup_stmt. destruct ctl as [epoch|]; [|exists (stmtCache st), no_lookup; split; [done|]; split; [done|]; split; [done|]; by apply text_ok_lit].
  destruct (Acquire_spec P (stmtCache st) (sql r) (paramOids r) (paramCount r) epoch Hc) as (c & l & E & Hc' & Ha). rewrite (take_oids r vals Hr) in Ha.
  exists c, l. split; [done|]. split; [done|]. split; [exact Ha|]. destruct Ha as [->|(i & e & Hi & _ & -> & _)]; [by apply text_ok_lit|].
  apply stmt_name_text. by apply (cache_name P None c i e).
Qed.

Lemma begin_wrote cap (b : bool) ms w : wrote cap ms w -> wrote cap (ms ++ begin_messages b) (if b then query_message SQL_STREAM_BEGIN w else w).
Proof. intros H. exact (wrote_if cap b ms _ _ w (emits_query SQL_STREAM_BEGIN (text_ok_lit SQL_STREAM_BEGIN eq_refl eq_refl)) H). Qed.

Lemma open_round_ok P opts ctl r vals st : cache_ok P None (stmtCache st) -> request_ok r vals -> exists x, open_round opts ctl r vals st = Some x.
Proof.
  intros Hc Hr. unfold open_round. destruct (negb (bool_decide (kind r = QUERY))); [by eexists|]. cbv zeta. set (st' := if _ && _ then _ else _).
  destruct (lookup_stmt_spec P ctl r vals st') as (c & l & -> & _); [|done|by eexists]. unfold st'. by repeat case_match.
Qed.

(** The rest of [Serialize], from a slot that starts a request. *)
Lemma Serialize_open P opts ctl r vals cap st : encoded r = true -> cache_ok P None (stmtCache st) -> request_ok r vals -> 0 <= cap < 2 ^ 32 -> streamPhase (prepare r st) = PHASE_NONE ->
  Serialize opts ctl r cap st = (x ← open_round opts ctl r vals (prepare r st); Some (settle cap x)).
Proof.
  intros He Hc Hr Hcap Hp. unfold Serialize. rewrite He. cbn [negb]. fold (prepare r st). fold (format_of opts r). rewrite Hp. cbn [bool_decide decide_rel negb]. rewrite bool_decide_true by done. cbn [negb].
  assert (Hc' : cache_ok P None (stmtCache (prepare r st))) by (unfold prepare; by case_match). clear Hc Hp. set (st0 := prepare r st) in *. clearbody st0. clear st. unfold open_round.
  change (negb (txStatus (set_stale false st0) =? TX_IDLE) && ((session r =? 0) || negb (session r =? ssession (set_stale false st0)))) with (leftover r st0).
  set (l := leftover r st0) in *. pose proof (wrote_rollback cap l Hcap) as W. set (st1 := set_stale false st0) in *.
  set (st2 := if l then set_expected 2 st1 else st1) in *. set (w2 := if l then query_message _ _ else _) in W.
  replace (if l then (set_expected 2 st1, query_message (lit "ROLLBACK") (NewWriter cap)) else (st1, NewWriter cap)) with (st2, w2) by (unfold st2, w2; by destruct l).
  assert (E2 : stmtCache st2 = stmtCache st0 /\ txStatus st2 = txStatus st0 /\ txStatus st1 = txStatus st0) by (unfold st2, st1; by destruct l).
  destruct E2 as (E2 & T2 & T1). clearbody w2. destruct (negb (bool_decide (kind r = QUERY))) eqn:Ek.
  { apply negb_true_iff, bool_decide_eq_false in Ek. cbn [option_bind mbind]. f_equal. apply settle_finish. exact (wrote_more cap _ _ _ _ (emits_savepoint r vals Ek Hr) W). }
  rewrite T2. set (owns := l || (txStatus st0 =? TX_IDLE)) in *.
  set (st3 := if negb (sstreamRows st2 =? 0) then set_ownsTx owns st2 else st2) in *.
  set (st4 := if negb (sstreamRows st2 =? 0) && owns then set_expected (u8 (expectedReady st3 + 1)) st3 else st3) in *.
  pose proof (begin_wrote cap (negb (sstreamRows st2 =? 0) && owns) _ w2 W) as W4. set (w4 := if _ && _ then query_message _ _ else w2) in W4.
  replace (if sstreamRows st2 =? 0 then (st2, w2) else _) with (st4, w4) by (unfold st4, st3, w4; destruct (sstreamRows st2 =? 0); [done|]; cbn [negb andb]; destruct owns; done).
  fold (lookup_stmt ctl r st4). assert (Hc4 : cache_ok P None (stmtCache st4)) by (unfold st4, st3; by repeat case_match; cbn; rewrite E2).
  destruct (lookup_stmt_spec P ctl r vals st4 Hc4 Hr) as (c & s & -> & _ & _ & Hn). cbn [option_bind mbind].
  destruct (extended_query_wrote cap _ w4 s (format_of opts r) r vals (set_cache c st4) Hr Hn (format_range opts r) W4) as (w5 & -> & W5).
  f_equal. rewrite <- app_assoc in W5. replace (sstreamRows (if lparse s then _ else _)) with (sstreamRows (set_cache c st4)) by (by destruct (lparse s)).
  apply settle_finish. exact W5.
Qed.

Lemma Serialize_round P opts ctl r vals cap st : encoded r = true -> cache_ok P None (stmtCache st) -> request_ok r vals -> 0 <= cap < 2 ^ 32 ->
  exists x, round opts ctl r vals st = Some x /\ Serialize opts ctl r cap st = Some (settle cap x).
Proof.
  intros He Hc Hr Hcap. unfold round. destruct (decide (streamPhase (prepare r st) = PHASE_NONE)) as [Hp|Hp].
  - rewrite bool_decide_true by done. rewrite (Serialize_open P opts ctl r vals) by done.
    destruct (open_round_ok P opts ctl r vals (prepare r st)) as [x ->]; [unfold prepare; by case_match|done|by exists x].
  - rewrite bool_decide_false by done. eexists. split; [done|]. unfold Serialize. rewrite He. cbn [negb]. fold (prepare r st). fold (format_of opts r).
    rewrite bool_decide_false by done. cbn [negb]. by rewrite continue_stream_round.
Qed.

(** ** The session, as the protocol has it

    What an observer of both byte streams knows: the statements the server confirmed by
    name, the one whose Parse is unanswered, the portals bound, whose transaction is open,
    and which ReadyForQuery are still to come (of a ROLLBACK or not). *)

Definition portal := (statement * list (option bytes))%type.

Record Observer := Obs {
  prepared : gmap bytes statement;
  unanswered : option (bytes * statement);
  portals : gmap bytes portal;
  owner : option Z;
  awaiting : list bool;
  current : Z;
  began : bool
}.

Definition new_observer : Observer := Obs ∅ None ∅ None [] 0 false.

(** What a server does with a round whose commands succeed; [None]: it refuses one, a Bind
    to a statement or an Execute of a portal that is not there, or a Parse of a name in use.
    A portal stands for the statement bound to it last. *)
Inductive action := Run (text : bytes) | Exec (s : statement) (vals : list (option bytes)) (rows : Z).

Fixpoint perform (P : gmap bytes statement) (Q : gmap bytes portal) (ms : list FeMessage) : option (gmap bytes portal * list action) :=
  match ms with
  | [] => Some (Q, [])
  | FeQuery t :: ms => '(Q, acts) ← perform P Q ms; Some (Q, Run t :: acts)
  | FeParse n t os :: ms => if negb (bool_decide (n = [])) && bool_decide (is_Some (P !! n)) then None else perform (<[n := (t, os)]> P) Q ms
  | FeBind p n vals _ :: ms => s ← P !! n; perform P (<[p := (s, vals)]> Q) ms
  | FeDescribe p :: ms => if bool_decide (is_Some (Q !! p)) then perform P Q ms else None
  | FeExecute p rows :: ms => b ← Q !! p; '(Q, acts) ← perform P Q ms; Some (Q, Exec (fst b) (snd b) rows :: acts)
  | FeClose w n :: ms => perform (if w =? chr "S" then delete n P else P) Q ms
  | FeSync :: ms => perform P Q ms
  end.

(** The names a round puts in doubt: the ones it closes or parses. *)
Fixpoint doubtful (P : gmap bytes statement) (ms : list FeMessage) : gmap bytes statement :=
  match ms with
  | [] => P
  | FeParse n _ _ :: ms => doubtful (delete n P) ms
  | FeClose w n :: ms => doubtful (if w =? chr "S" then delete n P else P) ms
  | _ :: ms => doubtful P ms
  end.

Fixpoint last_parse (ms : list FeMessage) : option (bytes * statement) :=
  match ms with
  | [] => None
  | FeParse n t os :: ms => match last_parse ms with Some x => Some x | None => if bool_decide (n = []) then None else Some (n, (t, os)) end
  | _ :: ms => last_parse ms
  end.

Fixpoint replies (ms : list FeMessage) : list bool :=
  match ms with
  | [] => []
  | FeQuery t :: ms => bool_decide (t = lit "ROLLBACK") :: replies ms
  | FeSync :: ms => false :: replies ms
  | _ :: ms => replies ms
  end.

(** A round that binds the stream's portal opens the stream, in a transaction of its own if
    there is a BEGIN before it. *)
Definition opens_stream (ms : list FeMessage) : bool := existsb (fun m => match m with FeBind p _ _ _ => bool_decide (p = STREAM_PORTAL) | _ => false end) ms.
Definition has_begin (ms : list FeMessage) : bool := existsb (fun m => match m with FeQuery t => bool_decide (t = SQL_STREAM_BEGIN) | _ => false end) ms.

Definition sent (by' : Z) (ms : list FeMessage) (o : Observer) : Observer :=
  Obs (doubtful (prepared o) ms) (last_parse ms) (match perform (prepared o) (portals o) ms with Some (Q, _) => Q | None => portals o end)
    (owner o) (replies ms) by' (if opens_stream ms then has_begin ms else began o).

Definition heard (o : Observer) (m : PgMessage) : Observer :=
  if mtype m =? BE_PARSE_COMPLETE then
    match unanswered o with
    | Some (n, s) => Obs (<[n := s]> (prepared o)) None (portals o) (owner o) (awaiting o) (current o) (began o)
    | None => o
    end
  else if mtype m =? BE_READY_FOR_QUERY then
    match awaiting o with
    | [] => o
    | rollback :: rest =>
        let status := fst (ReadU8 (ReadMessage m)) in
        let before := if rollback : bool then None else owner o in
        Obs (prepared o) (match rest with [] => None | _ => unanswered o end) (portals o)
          (if status =? TX_IDLE then None else match before with Some s => Some s | None => Some (current o) end) rest (current o) (began o)
    end
  else o.

(** The messages of a buffer up to [stop]. *)
Fixpoint frames (fuel : nat) (opts : PgOptions) (buf : bytes) (pos stop : nat) : list PgMessage :=
  match fuel with
  | O => []
  | S f =>
      if (pos <? stop)%nat then
        match FrameMessage buf pos (maxMessageBytes opts) with
        | Some (FRAME_OK m pos) => m :: frames f opts buf pos stop
        | _ => []
        end
      else []
  end.

Definition heard_all (opts : PgOptions) (buf : bytes) (stop : nat) (o : Observer) : Observer := fold_left heard (frames (length buf) opts buf 0 stop) o.

(** ** Runs of one connection *)

(** Between requests; a round sent for a request (with its parameters); a chunk of its
    stream handed over; the connection given up. *)
Inductive progress := Idle | Busy (r : PgRequest) (vals : list (option bytes)) | Chunk (r : PgRequest) (vals : list (option bytes)) | Broken.

Record World := In { work : Work; obs : Observer; now : progress }.

(** A request may be started between requests, and over an abandoned stream if it is not a
    stream itself; an open stream's own request continues it. *)
Definition may_send (p : progress) (r : PgRequest) (vals : list (option bytes)) : Prop :=
  match p with
  | Idle => True
  | Chunk r0 vals0 => (r = r0 /\ vals = vals0) \/ streamRows r = 0
  | _ => False
  end.

Definition after_refusal (p : progress) (r : PgRequest) : progress :=
  match p with Chunk r0 vals0 => if streamRows r =? 0 then Idle else p | _ => p end.

Definition after_result (res : HttpClient.ParseResult) (r : PgRequest) (vals : list (option bytes)) : progress :=
  match res with
  | HttpClient.INCOMPLETE => Busy r vals
  | HttpClient.CHUNK_READY_FETCH => Chunk r vals
  | HttpClient.COMPLETE_KEEP_ALIVE => Idle
  | _ => Broken
  end.

Inductive step (opts : PgOptions) : World -> World -> Prop :=
| Epoch_moved s e e' res o p : 0 < e' < 2 ^ 32 -> step opts (In (On s (Some e) res) o p) (In (On s (Some e') res) o p)
| Round_refused k o p r vals cap x st : may_send p r vals -> made r vals -> 0 <= cap < 2 ^ 32 ->
    Serialize opts (ctl k) r cap (slot k) = Some (x, st) -> (forall out, x <> SER_OK out) ->
    step opts (In k o p) (In (On st (ctl k) (res k)) o (if encoded r then after_refusal p r else p))
| Round_sent k o p r vals cap out ms st : may_send p r vals -> made r vals -> 0 <= cap < 2 ^ 32 - 1 ->
    Serialize opts (ctl k) r cap (slot k) = Some (SER_OK out, st) -> server_reads out = Some ms ->
    step opts (In k o p) (In (On st (ctl k) (res k)) (sent (session r) ms o) (Busy r vals))
| Bytes_read k o r vals buf isEof x stop k' : Parse opts buf isEof k = Some (x, stop, k') -> Z.of_nat (length buf) < 2 ^ 32 ->
    step opts (In k o (Busy r vals)) (In k' (heard_all opts buf stop o) (after_result x r vals)).

(** Reachable from a new connection with any cache and an empty result. *)
Inductive reachable (opts : PgOptions) : World -> Prop :=
| Connected size minUses epoch : ctl_ok epoch -> reachable opts (In (On (new_slot (Init size minUses new_cache)) epoch new_result) new_observer Idle)
| Stepped w w' : reachable opts w -> step opts w w' -> reachable opts w'.

(** The request's own statement. *)
Definition own (r : PgRequest) (vals : list (option bytes)) : action :=
  if bool_decide (kind r = QUERY) then Exec (sql r, paramOids r) vals (i32 (streamRows r)) else Run (savepoint_prefix (kind r) ++ sql r).

(** A transaction is open that is not this request's to keep. *)
Definition foreign (o : Observer) (r : PgRequest) : bool :=
  match owner o with Some s => (session r =? 0) || negb (session r =? s) | None => false end.

(** What a round of [r] may have the server do. *)
Definition honest (o : Observer) (p : progress) (r : PgRequest) (vals : list (option bytes)) (acts : list action) : Prop :=
  (exists b : bool, acts = (if foreign o r then [Run (lit "ROLLBACK")] else []) ++ (if b then [Run SQL_STREAM_BEGIN] else []) ++ [own r vals] /\
    (b = true -> streamRows r <> 0 /\ (foreign o r = true \/ owner o = None))) \/
  (p = Chunk r vals /\ streamRows r <> 0 /\ (acts = [own r vals] \/ acts = [Run SQL_STREAM_COMMIT] /\ began o = true \/ acts = [])).

(** ** What one round does *)

Definition skip_of (pending : Z) : option nat := if pending =? STMT_NONE then None else Some (Z.to_nat pending).

(** The client's mark of an unanswered Parse is the observer's. *)
Definition marks (P : gmap bytes statement) (c : PgStatementCache) (pending : Z) (u : option (bytes * statement)) : Prop :=
  match u with
  | None => pending = STMT_NONE
  | Some (n, s) => exists i e, pending = Z.of_nat i /\ entries_ c !! i = Some e /\ n = stmt_name i /\ s = stmt_of e /\ P !! n = None
  end.

Lemma cache_delete P c n : cache_ok P None c -> (forall i, (i < 4096)%nat -> stmt_name i <> n) -> cache_ok (delete n P) None c.
Proof.
  intros Hc Hn. pose proof Hc as (Hl & Hm & H). split; [done|]. split; [done|]. intros i e Hi. destruct (H i e Hi) as [E Ho]. split; [done|]. intros Hs. specialize (Ho Hs).
  unfold entry_ok in *. rewrite lookup_delete_ne; [done|]. intros ->. apply lookup_lt_Some in Hi. apply (Hn i); [lia|done].
Qed.

Lemma cache_delete_own P c i : cache_ok P None c -> (i < 4096)%nat -> cache_ok (delete (stmt_name i) P) (Some i) c.
Proof.
  intros Hc Hi4. pose proof Hc as (Hl & Hm & H). split; [done|]. split; [done|]. intros j e Hj. destruct (H j e Hj) as [E Ho]. split; [done|]. intros Hs. specialize (Ho ltac:(done)).
  apply lookup_lt_Some in Hj. unfold entry_ok in *. rewrite lookup_delete_ne; [done|]. rewrite E. intros Hn. apply stmt_name_inj in Hn; [congruence|done|lia].
Qed.

Lemma portal_ne : STREAM_PORTAL <> [].
Proof. done. Qed.

(** The messages of a statement: it is what they execute, they put its name in doubt when
    they parse it, and they ask for one reply. *)
Definition stmt_rounds (P : gmap bytes statement) (Q : gmap bytes portal) (c : PgStatementCache) (l : PgStatementLookup) (f : Z) (r : PgRequest) (vals : list (option bytes)) (rows : Z) : Prop :=
  let ms := stmt_messages l f r vals rows in
  (exists Q', perform P Q ms = Some (Q', [Exec (sql r, paramOids r) vals (i32 rows)]) /\ (rows <> 0 -> Q' !! STREAM_PORTAL = Some (sql r, paramOids r, vals))) /\
  (let pending := if lparse l then lindex l else STMT_NONE in
   cache_ok (doubtful P ms) (skip_of pending) c /\ marks (doubtful P ms) c pending (last_parse ms)) /\
  replies ms = [false] /\ opens_stream ms = negb (rows =? 0) /\ has_begin ms = false.

Definition round_portal (rows : Z) : bytes := if rows =? 0 then [] else STREAM_PORTAL.

(** A Bind to a name that holds [s] runs [s]. *)
Lemma bind_performs (P : gmap bytes statement) Q n (s : statement) vals f rows : P !! n = Some s ->
  exists Q', perform P Q [FeBind (round_portal rows) n vals f; FeDescribe (round_portal rows); FeExecute (round_portal rows) (i32 rows); FeSync] = Some (Q', [Exec s vals (i32 rows)]) /\
    (rows <> 0 -> Q' !! STREAM_PORTAL = Some (s, vals)).
Proof.
  intros Hn. exists (<[round_portal rows := (s, vals)]> Q). cbn [perform]. rewrite Hn. cbn [option_bind mbind perform]. rewrite lookup_insert_eq, bool_decide_true by done. rewrite ?lookup_insert_eq. cbn [option_bind mbind].
  split; [done|]. intros H. unfold round_portal. by rewrite (proj2 (Z.eqb_neq _ _) H), lookup_insert_eq.
Qed.

Lemma opens_bound pre n vals f rows : opens_stream pre = false ->
  opens_stream (pre ++ [FeBind (round_portal rows) n vals f; FeDescribe (round_portal rows); FeExecute (round_portal rows) (i32 rows); FeSync]) = negb (rows =? 0).
Proof.
  unfold opens_stream. intros H. rewrite existsb_app, H. cbn [existsb orb]. rewrite orb_false_r. unfold round_portal. destruct (rows =? 0); [by rewrite bool_decide_false|by rewrite bool_decide_true].
Qed.

Lemma perform_parse (P : gmap bytes statement) Q n t os ms : n = [] \/ P !! n = None -> perform P Q (FeParse n t os :: ms) = perform (<[n := (t, os)]> P) Q ms.
Proof.
  intros H. cbn [perform]. destruct H as [->|H]; [by rewrite bool_decide_true|]. rewrite H, (bool_decide_false (is_Some None)) by (by intros [? ?]). by rewrite andb_false_r.
Qed.

Lemma perform_close (P : gmap bytes statement) Q n ms : perform P Q (FeClose (chr "S") n :: ms) = perform (delete n P) Q ms.
Proof. done. Qed.

(** Without a name: a Parse of the unnamed statement each time. *)
Lemma unnamed_rounds P Q c f r vals rows : cache_ok P None c -> stmt_rounds P Q c no_lookup f r vals rows.
Proof.
  intros Hc. unfold stmt_rounds, stmt_messages. fold (round_portal rows). cbv zeta. cbn [no_lookup lclose lparse lname lindex app]. split; [|split; [|split; [done|split; [|done]]]].
  - rewrite perform_parse by (by left). apply (bind_performs _ Q [] (sql r, paramOids r)). apply lookup_insert_eq.
  - cbn [doubtful last_parse]. rewrite bool_decide_true by done. split; [|done]. apply cache_delete; [done|]. intros i Hi. by apply stmt_name_text.
  - exact (opens_bound [FeParse [] (sql r) (paramOids r)] _ vals f rows eq_refl).
Qed.

(** With the name of an entry: closed and parsed again, parsed, or just bound. *)
Lemma named_rounds P Q epoch c l f r vals rows : cache_ok P None c -> 0 < epoch -> (exists i e, entries_ c !! i = Some e /\ stmt_of e = (sql r, paramOids r) /\ lname l = stmt_name i /\ lindex l = Z.of_nat i /\
    lparse l = negb (eepoch e =? epoch) /\ lclose l = lparse l && elive e) -> stmt_rounds P Q c l f r vals rows.
Proof.
  intros Hc Hpos (i & e & Hi & Hs & Hn & Hx & Hpar & Hcl). destruct (cache_name P None c i e Hc Hi) as [Hen H4]. destruct (stmt_name_text i H4) as [_ Hnn].
  pose proof Hc as (_ & _ & Hall). destruct (Hall i e Hi) as [_ He]. specialize (He ltac:(done)). destruct He as [He1 He2]. rewrite Hen in He1, He2.
  assert (Hskip : skip_of (Z.of_nat i) = Some i) by (unfold skip_of, STMT_NONE; rewrite (proj2 (Z.eqb_neq _ _)) by lia; by rewrite Nat2Z.id).
  unfold stmt_rounds, stmt_messages. fold (round_portal rows). cbv zeta. rewrite Hx, Hcl, Hn. set (s := ((sql r, paramOids r) : statement)) in *.
  destruct (lparse l) eqn:Ep; cbn [andb]; [destruct (elive e) eqn:El|]; cbn [app]; (split; [|split; [|split; [done|split; [|done]]]]).
  - rewrite perform_close, perform_parse by (right; apply lookup_delete_eq). apply (bind_performs _ Q _ s). apply lookup_insert_eq.
  - cbn [doubtful last_parse]. change (chr "S" =? chr "S") with true. cbv iota. rewrite bool_decide_false by done. rewrite Hskip, delete_delete_eq. split; [by apply cache_delete_own|]. exists i, e. rewrite lookup_delete_eq. done.
  - exact (opens_bound [FeClose (chr "S") (stmt_name i); FeParse (stmt_name i) (sql r) (paramOids r)] _ vals f rows eq_refl).
  - rewrite perform_parse by (right; by apply He2). apply (bind_performs _ Q _ s). apply lookup_insert_eq.
  - cbn [doubtful last_parse]. rewrite bool_decide_false by done. rewrite Hskip. split; [by apply cache_delete_own|]. exists i, e. rewrite lookup_delete_eq. done.
  - exact (opens_bound [FeParse (stmt_name i) (sql r) (paramOids r)] _ vals f rows eq_refl).
  - apply (bind_performs _ Q _ s). symmetry in Hpar. apply negb_false_iff, Z.eqb_eq in Hpar. rewrite He1; [by rewrite Hs|]. unfold STMT_EPOCH_UNPARSED. lia.
  - cbn [doubtful last_parse]. done.
  - exact (opens_bound [] _ vals f rows eq_refl).
Qed.

Lemma stmt_round P Q ctl c l f r vals rows : cache_ok P None c -> looked_up ctl c (sql r, paramOids r) l -> ctl_ok ctl -> stmt_rounds P Q c l f r vals rows.
Proof.
  intros Hc Hl Hctl. destruct ctl as [epoch|]; cbn [looked_up ctl_ok] in *; [destruct Hl as [->|Ha]|subst l]; try by apply unnamed_rounds. apply (named_rounds P Q epoch); [done|lia|exact Ha].
Qed.

(** ** The invariant of a run *)

Definition settled (st : SlotState) (o : Observer) : Prop :=
  if txStatus st =? TX_IDLE then owner o = None else owner o = Some (ssession st).

(** The open portal is the request's. *)
Definition streaming (st : SlotState) (o : Observer) (r : PgRequest) (vals : list (option bytes)) : Prop :=
  portals o !! STREAM_PORTAL = Some ((sql r, paramOids r, vals) : portal) /\ streamOwnsTx st = began o.

Definition busy_ok (st : SlotState) (o : Observer) (r : PgRequest) (vals : list (option bytes)) : Prop :=
  request_ok r vals /\ encoded r = true /\ current o = session r /\ ssession st = session r /\ sstreamRows st = streamRows r /\
  expectedReady st = Z.of_nat (length (awaiting o)) /\ Forall (fun b => b = false) (drop 1 (awaiting o)) /\ awaiting o <> [] /\
  (match awaiting o with true :: _ => True | _ => settled st o end) /\
  cache_ok (prepared o) (skip_of (pendingStmt st)) (stmtCache st) /\ marks (prepared o) (stmtCache st) (pendingStmt st) (unanswered o) /\
  (streamRows r <> 0 -> streaming st o r vals).

(** Between rounds. *)
Definition resting (st : SlotState) (o : Observer) : Prop := cache_ok (prepared o) None (stmtCache st) /\ settled st o.

Definition world_ok (w : World) : Prop :=
  let st := slot (work w) in
  let o := obs w in
  ctl_ok (ctl (work w)) /\
  match now w with
  | Idle => resting st o /\ streamPhase st = PHASE_NONE
  | Chunk r vals => resting st o /\ request_ok r vals /\ encoded r = true /\ streamRows r <> 0 /\ ssession st = session r /\ (streamPhase st <> PHASE_NONE -> streaming st o r vals)
  | Busy r vals => busy_ok st o r vals /\ (match unanswered o with Some _ => ctl (work w) <> None | None => True end)
  | Broken => True
  end.

Lemma prepare_fields r st : let st' := prepare r st in
  stmtCache st' = stmtCache st /\ txStatus st' = txStatus st /\ ssession st' = ssession st /\ sstreamRows st' = streamRows r /\ pendingStmt st' = STMT_NONE /\ expectedReady st' = 1 /\
  streamOwnsTx st' = streamOwnsTx st /\ streamPhase st' = if streamRows r =? 0 then PHASE_NONE else streamPhase st.
Proof. unfold prepare. cbn [set_streamRows set_pending set_expected sstreamRows]. destruct (streamRows r =? 0); done. Qed.

Lemma foreign_leftover st o r : settled st o -> leftover r st = foreign o r.
Proof. unfold settled, leftover, foreign. destruct (txStatus st =? TX_IDLE); intros ->; done. Qed.

(** A slot a round leaves: what a refused one keeps, and what a sent one sets besides. *)
Definition kept (st st' : SlotState) (P : gmap bytes statement) : Prop :=
  cache_ok P None (stmtCache st') /\ txStatus st' = txStatus st /\ ssession st' = ssession st /\ streamPhase st' = streamPhase st /\
  (streamPhase st <> PHASE_NONE -> streamOwnsTx st' = streamOwnsTx st).

Definition put_session (s : Z) (st : SlotState) : SlotState := set_session s st.

(** The opening messages before the statement's own. *)
Lemma perform_prologue P Q l b ms : perform P Q (rollback_messages l ++ begin_messages b ++ ms) =
  ('(Q', acts) ← perform P Q ms; Some (Q', (if l then [Run (lit "ROLLBACK")] else []) ++ (if b then [Run SQL_STREAM_BEGIN] else []) ++ acts)).
Proof. destruct l, b; cbn [rollback_messages begin_messages app perform]; by destruct (perform P Q ms) as [[? ?]|]. Qed.

Lemma prologue_rest P l b ms : let all := rollback_messages l ++ begin_messages b ++ ms in
  doubtful P all = doubtful P ms /\ last_parse all = last_parse ms /\ replies all = (if l then [true] else []) ++ (if b then [false] else []) ++ replies ms /\
  opens_stream all = opens_stream ms /\ has_begin all = b || has_begin ms.
Proof. destruct l, b; done. Qed.

Lemma savepoint_texts k s : k <> QUERY -> bool_decide (savepoint_prefix k ++ s = lit "ROLLBACK") = false /\ bool_decide (savepoint_prefix k ++ s = SQL_STREAM_BEGIN) = false.
Proof. intros Hk. split; apply bool_decide_false; destruct k; done. Qed.

Lemma count_replies (l b : bool) : 1 <= (if b then u8 ((if l then 2 else 1) + 1) else if l then 2 else 1) /\
  (if b then u8 ((if l then 2 else 1) + 1) else if l then 2 else 1) = Z.of_nat (length ((if l then [true] else []) ++ (if b then [false] else []) ++ [false])).
Proof. by destruct l, b. Qed.

Lemma tail_false (l b : bool) : Forall (fun x => x = false) (drop 1 ((if l then [true] else []) ++ (if b then [false] else []) ++ [false])).
Proof. destruct l, b; repeat constructor. Qed.

Lemma open_round_savepoint opts ctl r vals st : kind r <> QUERY -> open_round opts ctl r vals st =
  let st1 := if leftover r st then set_expected 2 (set_stale false st) else set_stale false st in
  Some (rollback_messages (leftover r st) ++ begin_messages false ++ [FeQuery (savepoint_prefix (kind r) ++ sql r)], st1, set_session (session r) st1).
Proof. intros Hk. unfold open_round. rewrite bool_decide_false by done. done. Qed.

(** The opening round of a query. *)
Lemma open_round_query P opts ctl r vals st : kind r = QUERY -> cache_ok P None (stmtCache st) -> request_ok r vals -> ctl_ok ctl ->
  let l := leftover r st in
  let b := negb (sstreamRows st =? 0) && (l || (txStatus st =? TX_IDLE)) in
  exists c lk small, text_ok (lname lk) /\ open_round opts ctl r vals st = Some (rollback_messages l ++ begin_messages b ++ stmt_messages lk (format_of opts r) r vals (sstreamRows st), small, set_session (session r) small) /\
    cache_ok P None c /\ looked_up ctl c (sql r, paramOids r) lk /\ stmtCache small = c /\ txStatus small = txStatus st /\ ssession small = ssession st /\ streamPhase small = streamPhase st /\ sstreamRows small = sstreamRows st /\
    pendingStmt small = (if lparse lk then lindex lk else pendingStmt st) /\
    expectedReady small = (if b then u8 ((if l then 2 else expectedReady st) + 1) else if l then 2 else expectedReady st) /\
    (sstreamRows st <> 0 -> streamOwnsTx small = b).
Proof.
  intros Hk Hc Hr Hctl l b. unfold open_round. rewrite bool_decide_true by done. cbn [negb]. fold l. cbv zeta.
  set (st2 := if l then set_expected 2 (set_stale false st) else set_stale false st).
  assert (E2 : stmtCache st2 = stmtCache st /\ txStatus st2 = txStatus st /\ ssession st2 = ssession st /\ streamPhase st2 = streamPhase st /\ sstreamRows st2 = sstreamRows st /\ pendingStmt st2 = pendingStmt st /\ expectedReady st2 = if l then 2 else expectedReady st) by (unfold st2; by destruct l).
  destruct E2 as (E2 & T2 & S2 & Ph2 & R2 & Pe2 & X2). rewrite T2, R2. fold b.
  set (st3 := if negb (sstreamRows st =? 0) then set_ownsTx (l || (txStatus st =? TX_IDLE)) st2 else st2). set (st4 := if b then set_expected (u8 (expectedReady st3 + 1)) st3 else st3).
  assert (E4 : stmtCache st4 = stmtCache st /\ txStatus st4 = txStatus st /\ ssession st4 = ssession st /\ streamPhase st4 = streamPhase st /\ sstreamRows st4 = sstreamRows st /\ pendingStmt st4 = pendingStmt st /\
    expectedReady st4 = (if b then u8 ((if l then 2 else expectedReady st) + 1) else if l then 2 else expectedReady st) /\ (sstreamRows st <> 0 -> streamOwnsTx st4 = b)).
  { rewrite <- X2. unfold st4, st3, b. destruct (Z.eqb_spec (sstreamRows st) 0); cbn [negb andb]; [done|]. by destruct (l || _). }
  clearbody st4. clear st3. destruct E4 as (E4 & T4 & S4 & Ph4 & R4 & Pe4 & X4 & O4).
  destruct (lookup_stmt_spec P ctl r vals st4) as (c & lk & -> & Hc' & Hlk & Hname); [by rewrite E4|done|]. cbn [option_bind mbind]. rewrite <- R4.
  exists c, lk, (if lparse lk then set_pending (lindex lk) (set_cache c st4) else set_cache c st4).
  replace (sstreamRows (if lparse lk then _ else _)) with (sstreamRows st4) by (by destruct (lparse lk)). split; [done|]. split; [done|]. split; [done|]. split; [done|].
  rewrite <- T4, <- S4, <- Ph4, <- Pe4, <- X4, R4 in *. destruct (lparse lk); cbn [set_pending set_cache stmtCache txStatus ssession streamPhase sstreamRows pendingStmt expectedReady streamOwnsTx]; repeat split; try done.
Qed.

(** ** A round that is sent *)

(** A list property, member by member. *)
Ltac each := repeat first [apply Forall_cons; split | apply Forall_nil; exact I]; try done.

Lemma fe_ok_prologue l b ms : Forall fe_ok ms -> Forall fe_ok (rollback_messages l ++ begin_messages b ++ ms).
Proof.
  intros H. assert (Hr : fe_ok (FeQuery (lit "ROLLBACK"))) by (apply fe_ok_query, text_ok_lit; done).
  assert (Hb : fe_ok (FeQuery SQL_STREAM_BEGIN)) by (apply fe_ok_query, text_ok_lit; done). destruct l, b; cbn [rollback_messages begin_messages app]; each.
Qed.

Lemma fe_ok_stmt l f r vals rows : request_ok r vals -> text_ok (lname l) -> (- (2 ^ 15)) <= f < 2 ^ 15 -> Forall fe_ok (stmt_messages l f r vals rows).
Proof.
  intros Hr Hn Hf. unfold stmt_messages. set (p := if rows =? 0 then [] else STREAM_PORTAL). assert (Hp : text_ok p) by apply (text_portal (rows =? 0)).
  assert (Hc : fe_ok (FeClose (chr "S") (lname l))) by (apply fe_ok_close; [by vm_compute|done]).
  pose proof (fe_ok_parse r vals (lname l) Hr Hn) as Hps. apply Forall_app. split; [destruct (lclose l); each|]. apply Forall_app. split; [destruct (lparse l); each|].
  repeat (apply Forall_cons; split); [by apply (fe_ok_bind r)|by apply fe_ok_describe|apply fe_ok_execute; [done|apply i32_range]|apply fe_ok_sync|constructor].
Qed.

(** What the sending of a round establishes. *)
Record good_round (o : Observer) (p : progress) (ctl : option Z) (r : PgRequest) (vals : list (option bytes)) (st : SlotState) (x : list FeMessage * SlotState * SlotState) : Prop := Good {
  good_read : Forall fe_ok x.1.1;
  good_acts : exists Q acts, perform (prepared o) (portals o) x.1.1 = Some (Q, acts) /\ honest o p r vals acts;
  good_small : kept st x.1.2 (prepared o);
  good_busy : busy_ok x.2 (sent (session r) x.1.1 o) r vals;
  good_ctl : match last_parse x.1.1 with Some _ => ctl <> None | None => True end
}.

Lemma settled_sent st st' o r ms l : settled st o -> l = leftover r st -> txStatus st' = txStatus st -> l = false -> settled (set_session (session r) st') (sent (session r) ms o).
Proof.
  unfold settled, leftover, sent. cbn [owner set_session txStatus ssession]. intros H -> T Hl. rewrite T. destruct (txStatus st =? TX_IDLE); [done|].
  cbn [negb andb] in Hl. apply orb_false_iff in Hl as [_ Hl]. apply negb_false_iff, Z.eqb_eq in Hl. by rewrite Hl.
Qed.

Lemma busy_sent o r vals st ms (l : bool) : request_ok r vals -> encoded r = true -> ssession st = session r -> sstreamRows st = streamRows r ->
  replies ms = (if l then [true] else []) ++ drop (if l then 1 else 0) (replies ms) ->
  Forall (fun b => b = false) (drop (if l then 1 else 0) (replies ms)) -> replies ms <> [] -> expectedReady st = Z.of_nat (length (replies ms)) ->
  (l = false -> settled st (sent (session r) ms o)) ->
  cache_ok (doubtful (prepared o) ms) (skip_of (pendingStmt st)) (stmtCache st) -> marks (doubtful (prepared o) ms) (stmtCache st) (pendingStmt st) (last_parse ms) ->
  (streamRows r <> 0 -> streaming st (sent (session r) ms o) r vals) ->
  busy_ok st (sent (session r) ms o) r vals.
Proof.
  intros Hr He Hses Hrows Hrep Htail Hne Hx Hs Hc Hm Hst. unfold busy_ok. cbn [sent current awaiting prepared unanswered].
  split; [done|]. split; [done|]. split; [done|]. split; [done|]. split; [done|]. split; [done|]. split; [|split; [done|split; [|split; [done|split; [done|exact Hst]]]]].
  - destruct l; [exact Htail|]. rewrite drop_0 in Htail. destruct (replies ms) as [|x rest]; [constructor|]. by inversion Htail.
  - destruct (replies ms) as [|x rest] eqn:E; [done|]. destruct l.
    + cbn [app drop] in Hrep. injection Hrep as Hx1. by subst x.
    + rewrite drop_0 in Htail. inversion Htail as [|? ? Hx1 Hx2]; subst x. by apply Hs.
Qed.

Lemma savepoint_good o p opts ctl r vals st : kind r <> QUERY -> resting st o -> request_ok r vals -> encoded r = true -> streamPhase (prepare r st) = PHASE_NONE ->
  exists x, open_round opts ctl r vals (prepare r st) = Some x /\ good_round o p ctl r vals (prepare r st) x.
Proof.
  intros Hk [Hc Hs] Hr He Hp. pose proof (prepare_fields r st) as (Ec & Et & Es & Er & Epd & Ex & Eo & Eph). set (st0 := prepare r st) in *. clearbody st0.
  rewrite open_round_savepoint by done. cbv zeta. set (l := leftover r st0). set (small := if l then set_expected 2 (set_stale false st0) else set_stale false st0).
  assert (Es' : stmtCache small = stmtCache st0 /\ txStatus small = txStatus st0 /\ ssession small = ssession st0 /\ streamPhase small = streamPhase st0 /\ sstreamRows small = sstreamRows st0 /\ pendingStmt small = pendingStmt st0 /\
    expectedReady small = (if l then 2 else 1) /\ streamOwnsTx small = streamOwnsTx st0) by (unfold small; rewrite <- Ex; by destruct l).
  destruct Es' as (Fc & Ft & Fs & Fph & Fr & Fp & Fx & Fo). eexists. split; [reflexivity|].
  assert (Hs0 : settled st0 o) by (unfold settled in *; by rewrite Et, Es). pose proof (foreign_leftover st0 o r Hs0) as Hf. fold l in Hf.
  destruct (savepoint_texts (kind r) (sql r) Hk) as [T1 T2]. assert (Hrows : streamRows r = 0) by (by apply Hr).
  set (ms := rollback_messages l ++ begin_messages false ++ [FeQuery (savepoint_prefix (kind r) ++ sql r)]).
  pose proof (prologue_rest (prepared o) l false [FeQuery (savepoint_prefix (kind r) ++ sql r)]) as (D & L & R & O & B). fold ms in D, L, R, O, B.
  cbn [replies doubtful last_parse opens_stream existsb] in *. rewrite T1 in R. split; cbn [fst snd].
  - apply fe_ok_prologue. each. apply fe_ok_query. destruct Hr as [Hr _]. by rewrite bool_decide_false in Hr.
  - exists (portals o), ((if l then [Run (lit "ROLLBACK")] else []) ++ [] ++ [own r vals]). unfold ms. rewrite perform_prologue. cbn [perform option_bind mbind].
    assert (Hown : own r vals = Run (savepoint_prefix (kind r) ++ sql r)) by (unfold own; by rewrite bool_decide_false). rewrite <- Hown. split; [done|]. left. exists false. rewrite <- Hf. split; [done|]. intros ?. discriminate.
  - unfold kept. rewrite Fc, Ft, Fs, Fph, Fo, Ec. done.
  - apply (busy_sent o r vals (set_session (session r) small) ms l); cbn [set_session ssession sstreamRows expectedReady stmtCache pendingStmt]; try done; try congruence.
    + rewrite R. by destruct l.
    + rewrite R. destruct l; each.
    + rewrite R. by destruct l.
    + rewrite R, Fx. by destruct l.
    + intros Hl. by apply (settled_sent st0 small o r ms l).
    + rewrite D, Fc, Ec, Fp, Epd. done.
    + rewrite L, Fp, Epd. done.
  - by rewrite L.
Qed.

Lemma query_good o p opts ctl r vals st : kind r = QUERY -> resting st o -> request_ok r vals -> encoded r = true -> ctl_ok ctl -> streamPhase (prepare r st) = PHASE_NONE ->
  exists x, open_round opts ctl r vals (prepare r st) = Some x /\ good_round o p ctl r vals (prepare r st) x.
Proof.
  intros Hk [Hc Hs] Hr He Hctl Hp. pose proof (prepare_fields r st) as (Ec & Et & Es & Er & Epd & Ex & Eo & Eph). set (st0 := prepare r st) in *. clearbody st0.
  rewrite <- Ec in Hc. assert (Hs0 : settled st0 o) by (unfold settled in *; by rewrite Et, Es). clear Hs Ec Et Es Eo Eph st.
  destruct (open_round_query (prepared o) opts ctl r vals st0 Hk Hc Hr Hctl) as (c & lk & small & Hn & E & Hc' & Hlk & Fc & Ft & Fs & Fph & Fr & Fp & Fx & Fo).
  rewrite E. eexists. split; [reflexivity|]. clear E. rewrite Ex, Epd in *. set (l := leftover r st0) in *. set (b := negb (sstreamRows st0 =? 0) && (l || (txStatus st0 =? TX_IDLE))) in *.
  pose proof (foreign_leftover st0 o r Hs0) as Hf. fold l in Hf. set (sm := stmt_messages lk (format_of opts r) r vals (sstreamRows st0)).
  destruct (stmt_round (prepared o) (portals o) ctl c lk (format_of opts r) r vals (sstreamRows st0) Hc' Hlk Hctl) as ((Q & HP & HQ) & (Hcd & Hmk) & HR & HO & HB). fold sm in HP, HQ, Hcd, Hmk, HR, HO, HB.
  set (ms := rollback_messages l ++ begin_messages b ++ sm). pose proof (prologue_rest (prepared o) l b sm) as (D & L & R & O & B). fold ms in D, L, R, O, B. rewrite HR in R.
  assert (HPm : perform (prepared o) (portals o) ms = Some (Q, (if l then [Run (lit "ROLLBACK")] else []) ++ (if b then [Run SQL_STREAM_BEGIN] else []) ++ [own r vals])).
  { unfold ms. rewrite perform_prologue, HP. cbn [option_bind mbind]. unfold own. by rewrite bool_decide_true, Er by done. }
  split; cbn [fst snd].
  - apply fe_ok_prologue, fe_ok_stmt; [done|done|apply format_range].
  - eexists _, _. split; [exact HPm|]. left. exists b. rewrite <- Hf. split; [done|]. intros Hb. unfold b in Hb. apply andb_true_iff in Hb as [Hb1 Hb2]. apply negb_true_iff, Z.eqb_neq in Hb1. rewrite Er in Hb1.
    split; [done|]. apply orb_true_iff in Hb2 as [->|Hb2]; [by left|right]. unfold settled in Hs0. by rewrite Hb2 in Hs0.
  - unfold kept. rewrite Fc, Ft, Fs, Fph. split; [done|]. split; [done|]. split; [done|]. split; [done|]. intros H. congruence.
  - apply (busy_sent o r vals (set_session (session r) small) ms l); cbn [set_session ssession sstreamRows expectedReady stmtCache pendingStmt]; try done; try congruence.
    + rewrite R. by destruct l.
    + rewrite R. destruct l, b; each.
    + rewrite R. by destruct l, b.
    + rewrite R, Fx. destruct (count_replies l b) as [_ ->]. done.
    + intros Hl. by apply (settled_sent st0 small o r ms l).
    + intros Hne. unfold streaming, sent. cbn [portals began set_session streamOwnsTx]. rewrite HPm, O, HO, Er, (proj2 (Z.eqb_neq _ _)), B, HB, orb_false_r by done. cbn [negb].
      split; [apply HQ; congruence|apply Fo; congruence].
  - rewrite L. destruct (last_parse sm) as [[n s]|] eqn:El; [|done]. intros ->. cbn [looked_up] in Hlk. subst lk. by vm_compute in El.
Qed.

Lemma perform_execute (P : gmap bytes statement) (Q : gmap bytes portal) p rows (b : portal) : Q !! p = Some b -> perform P Q [FeExecute p rows; FeSync] = Some (Q, [Exec (fst b) (snd b) rows]).
Proof. intros H. cbn [perform]. unfold portal in *. by rewrite H. Qed.

(** A further round of a stream. *)
Lemma continue_good o ctl r vals st : resting st o -> request_ok r vals -> encoded r = true -> streamRows r <> 0 -> ssession st = session r -> streamPhase st <> PHASE_NONE -> streaming st o r vals ->
  good_round o (Chunk r vals) ctl r vals (prepare r st) (continue_round (prepare r st)).
Proof.
  intros [Hc Hs] Hr He Hrows Hses Hph [Hpo How]. pose proof (prepare_fields r st) as (Ec & Et & Es & Er & Epd & Ex & Eo & Eph). set (st0 := prepare r st) in *. clearbody st0.
  rewrite (proj2 (Z.eqb_neq _ _) Hrows) in Eph. unfold continue_round. set (small := set_stale true st0).
  assert (Hk : kind r = QUERY) by (destruct (decide (kind r = QUERY)); [done|]; exfalso; by apply Hrows, Hr).
  assert (Hown : own r vals = Exec (sql r, paramOids r) vals (i32 (sstreamRows small))) by (unfold own, small; cbn [set_stale sstreamRows]; by rewrite bool_decide_true, Er by done).
  assert (Hp : text_ok STREAM_PORTAL) by apply (text_portal false).
  set (ms := if bool_decide (streamPhase small = PHASE_FETCH) then _ else _).
  assert (Hms : ms = [FeExecute STREAM_PORTAL (i32 (sstreamRows small)); FeSync] \/ ms = [FeQuery SQL_STREAM_COMMIT] /\ streamOwnsTx small = true \/ ms = [FeClose (chr "P") STREAM_PORTAL; FeSync])
    by (unfold ms; case_bool_decide; [by left|]; destruct (streamOwnsTx small); [right; by left|by do 2 right]). clearbody ms.
  assert (Hfacts : doubtful (prepared o) ms = prepared o /\ last_parse ms = None /\ replies ms = [false] /\ opens_stream ms = false) by (by destruct Hms as [->|[[-> _]| ->]]).
  destruct Hfacts as (D & L & R & O).
  assert (HP : exists acts, perform (prepared o) (portals o) ms = Some (portals o, acts) /\ (acts = [own r vals] \/ acts = [Run SQL_STREAM_COMMIT] /\ began o = true \/ acts = [])).
  { destruct Hms as [->|[[-> Hb]| ->]]; [exists [own r vals]|exists [Run SQL_STREAM_COMMIT]|exists []]; [|cbn [perform]..].
    - rewrite Hown. split; [exact (perform_execute _ _ _ _ _ Hpo)|by left].
    - split; [done|]. right. left. split; [done|]. rewrite <- How, <- Eo. exact Hb.
    - split; [done|by do 2 right]. }
  destruct HP as (acts & HP & Hacts). split; cbn [fst snd].
  - pose proof (fe_ok_execute STREAM_PORTAL (i32 (sstreamRows small)) Hp (i32_range _)). pose proof fe_ok_sync. assert (fe_ok (FeQuery SQL_STREAM_COMMIT)) by (apply fe_ok_query, text_ok_lit; done).
    assert (fe_ok (FeClose (chr "P") STREAM_PORTAL)) by (apply fe_ok_close; [by vm_compute|done]). destruct Hms as [->|[[-> _]| ->]]; repeat (apply Forall_cons_2; [done|]); apply Forall_nil_2.
  - exists (portals o), acts. split; [exact HP|]. right. done.
  - unfold kept, small. cbn [set_stale stmtCache txStatus ssession streamPhase streamOwnsTx]. rewrite Ec. done.
  - apply (busy_sent o r vals small ms false); rewrite ?R, ?D, ?L; unfold small; cbn [set_stale ssession sstreamRows expectedReady stmtCache pendingStmt]; rewrite ?Ec, ?Epd; try done; try congruence.
    + each.
    + intros _. unfold settled, sent in *. cbn [set_stale txStatus ssession owner]. by rewrite Et, Es.
    + intros _. unfold streaming, sent. cbn [portals began streamOwnsTx set_stale]. rewrite HP, O. split; [done|congruence].
  - by rewrite L.
Qed.

(** Whatever round is due. *)
Lemma round_good opts w r vals : world_ok w -> may_send (now w) r vals -> request_ok r vals -> encoded r = true ->
  exists x, round opts (ctl (work w)) r vals (slot (work w)) = Some x /\ good_round (obs w) (now w) (ctl (work w)) r vals (prepare r (slot (work w))) x.
Proof.
  destruct w as [[st ctl0 res0] o p]. unfold world_ok. cbn [work obs now slot ctl]. intros [Hctl Hw] Hm Hr He. unfold round.
  pose proof (prepare_fields r st) as (_ & _ & _ & _ & _ & _ & _ & Eph).
  assert (Hopen : resting st o -> streamPhase (prepare r st) = PHASE_NONE -> exists x, (if bool_decide (streamPhase (prepare r st) = PHASE_NONE) then open_round opts ctl0 r vals (prepare r st) else Some (continue_round (prepare r st))) = Some x /\ good_round o p ctl0 r vals (prepare r st) x).
  { intros Hrest Hp. rewrite bool_decide_true by done. destruct (decide (kind r = QUERY)); [by apply query_good|by apply savepoint_good]. }
  destruct p as [|? ?|r0 vals0|]; [| done | | done].
  - destruct Hw as [Hrest Hp]. apply Hopen; [exact Hrest|]. rewrite Eph. destruct (streamRows r =? 0); [done|exact Hp].
  - destruct Hw as (Hrest & Hr0 & He0 & Hrows & Hses & Hst). cbn [may_send] in Hm. destruct (decide (streamPhase (prepare r st) = PHASE_NONE)) as [Hp|Hp]; [by apply Hopen|].
    assert (Hne : streamRows r <> 0) by (intros H0; rewrite H0 in Eph; by rewrite Eph in Hp). destruct Hm as [[-> ->]|]; [|done].
    rewrite (proj2 (Z.eqb_neq _ _) Hne) in Eph. rewrite Eph in Hp. rewrite bool_decide_false by congruence. eexists. split; [reflexivity|]. apply continue_good; try done. by apply Hst.
Qed.

(** ** A reply that arrives *)

Lemma heard_other o m : mtype m <> BE_PARSE_COMPLETE -> mtype m <> BE_READY_FOR_QUERY -> heard o m = o.
Proof. intros H1 H2. unfold heard. by rewrite (proj2 (Z.eqb_neq _ _) H1), (proj2 (Z.eqb_neq _ _) H2). Qed.

Lemma at_entry_here c i e f : entries_ c !! i = Some e -> at_entry (Z.of_nat i) f c = set_entry i (f e) c.
Proof. intros H. unfold at_entry. apply lookup_lt_Some in H as Hlt. rewrite (proj2 (Z.leb_gt _ _)) by lia. by rewrite Nat2Z.id, H. Qed.

Lemma skip_index i : (i < 4096)%nat -> skip_of (Z.of_nat i) = Some i /\ (Z.of_nat i =? STMT_NONE) = false.
Proof. intros H. unfold skip_of, STMT_NONE. rewrite (proj2 (Z.eqb_neq _ _)) by lia. by rewrite Nat2Z.id. Qed.

(** The outcome of the entry in doubt: its statement, confirmed, or a name that is free. *)
Lemma entry_decided P c i e e' s : cache_ok P (Some i) c -> entries_ c !! i = Some e -> ename e' = ename e -> entry_ok s e' -> (forall n, n <> ename e -> s !! n = P !! n) -> cache_ok s None (set_entry i e' c).
Proof.
  intros (Hl & Hm & H) Hi Hn He Hs. destruct (H i e Hi) as [En _]. apply lookup_lt_Some in Hi as Hlt. unfold cache_ok, set_entry. cbn [entries_ mask_]. rewrite length_insert. split; [done|]. split.
  - intros _. apply Hm. intros E. by rewrite E in Hi.
  - intros j x Hj. destruct (decide (i = j)) as [<-|Hne].
    + rewrite list_lookup_insert_eq in Hj by done. injection Hj as <-. rewrite Hn. done.
    + rewrite list_lookup_insert_ne in Hj by done. destruct (H j x Hj) as [Ex Ho]. split; [done|]. intros _. unfold entry_ok. apply lookup_lt_Some in Hj.
      rewrite Hs; [apply Ho; congruence|]. rewrite Ex, En. intros E. apply stmt_name_inj in E; lia.
Qed.

Lemma parsed_ok P c i e epoch : cache_ok P (Some i) c -> entries_ c !! i = Some e -> cache_ok (<[stmt_name i := stmt_of e]> P) None (MarkParsed (Z.of_nat i) epoch c).
Proof.
  intros Hc Hi. destruct (cache_name P _ c i e Hc Hi) as [En _]. unfold MarkParsed. rewrite (at_entry_here c i e) by done. apply (entry_decided P c i e); [done|done|done| |].
  - unfold entry_ok. cbn [set_epoch set_live eepoch elive ename]. rewrite En. split; [|done]. intros _. by rewrite lookup_insert_eq.
  - intros n Hn. rewrite lookup_insert_ne by congruence. done.
Qed.

Lemma failed_ok P c i e : cache_ok P (Some i) c -> entries_ c !! i = Some e -> P !! stmt_name i = None -> cache_ok P None (MarkFailed (Z.of_nat i) c).
Proof.
  intros Hc Hi HP. destruct (cache_name P _ c i e Hc Hi) as [En _]. unfold MarkFailed. rewrite (at_entry_here c i e) by done. apply (entry_decided P c i e); [done|done|done| |done].
  unfold entry_ok. cbn [set_epoch set_live eepoch elive ename]. rewrite En. done.
Qed.

Definition known (ctl : option Z) (o : Observer) : Prop := match unanswered o with Some _ => ctl <> None | None => True end.

(** What a call may end with after one message. *)
Definition message_outcome (x : option HttpClient.ParseResult) (k : Work) (o : Observer) (r : PgRequest) (vals : list (option bytes)) : Prop :=
  match x with
  | None => busy_ok (slot k) o r vals /\ known (ctl k) o
  | Some HttpClient.PARSE_ERROR => awaiting o <> []
  | Some res => awaiting o = [] /\ (res = HttpClient.CHUNK_READY_FETCH \/ res = HttpClient.COMPLETE_KEEP_ALIVE) /\ world_ok (In k o (after_result res r vals))
  end.

Lemma busy_parsed k o m r vals : mtype m = BE_PARSE_COMPLETE -> ctl_ok (ctl k) -> busy_ok (slot k) o r vals -> known (ctl k) o ->
  exists k', on_message m k = Some (None, k') /\ ctl k' = ctl k /\ busy_ok (slot k') (heard o m) r vals /\ known (ctl k') (heard o m).
Proof.
  intros Hm Hctl Hb Hk. unfold on_message, heard. rewrite Hm. change (BE_PARSE_COMPLETE =? BE_ROW_DESCRIPTION) with false. change (BE_PARSE_COMPLETE =? BE_DATA_ROW) with false. change (BE_PARSE_COMPLETE =? BE_COMMAND_COMPLETE) with false.
  change (BE_PARSE_COMPLETE =? BE_ERROR_RESPONSE) with false. change (BE_PARSE_COMPLETE =? BE_READY_FOR_QUERY) with false. change (BE_PARSE_COMPLETE =? BE_PARSE_COMPLETE) with true. cbv iota.
  pose proof Hb as (B1 & B2 & B3 & B4 & B5 & B6 & B7 & B8 & B9 & Hc & Hmk & Hst). unfold marks in Hmk. destruct (unanswered o) as [[n s]|] eqn:Eu.
  - destruct Hmk as (i & e & Hp & Hi & -> & -> & HP). assert (H4 : (i < 4096)%nat) by (destruct Hc as [Hc _]; apply lookup_lt_Some in Hi; lia).
    destruct (skip_index i H4) as [Hs1 Hs2]. rewrite Hp, Hs1 in *. rewrite Hs2. unfold known in Hk. rewrite Eu in Hk. destruct (ctl k) as [epoch|] eqn:Ectl; [|done].
    eexists. split; [reflexivity|]. cbn [on_slot slot ctl]. split; [done|]. split; [|done]. unfold busy_ok, set_pending, set_cache. cbn [stmtCache ssession txStatus expectedReady pendingStmt sstreamRows streamPhase streamOwnsTx streamRowsStale current awaiting prepared unanswered].
    rewrite Hp. do 9 (split; [done|]). split; [by apply parsed_ok|]. split; [done|]. exact Hst.
  - rewrite Hmk. change (STMT_NONE =? STMT_NONE) with true. cbv iota. exists k. done.
Qed.

(** The transaction after a ReadyForQuery. *)
Lemma settled_ready st o r (b : bool) rest status : current o = session r -> ssession st = session r -> awaiting o = b :: rest -> (if b then True else settled st o) ->
  forall m, mtype m = BE_READY_FOR_QUERY -> fst (ReadU8 (ReadMessage m)) = status -> settled (set_txStatus status st) (heard o m).
Proof.
  intros Hc Hs Ha Hset m Hm Hst. unfold heard. rewrite Hm. change (BE_READY_FOR_QUERY =? BE_PARSE_COMPLETE) with false. change (BE_READY_FOR_QUERY =? BE_READY_FOR_QUERY) with true. cbv iota. rewrite Ha, Hst.
  unfold settled. cbn [set_txStatus txStatus ssession owner]. destruct (status =? TX_IDLE); [done|]. rewrite Hs, Hc. destruct b; [done|]. unfold settled in Hset. destruct (txStatus st =? TX_IDLE); rewrite Hset; [done|by rewrite Hs].
Qed.

Lemma heard_ready o m b rest : mtype m = BE_READY_FOR_QUERY -> awaiting o = b :: rest ->
  let o' := heard o m in prepared o' = prepared o /\ unanswered o' = (match rest with [] => None | _ => unanswered o end) /\ portals o' = portals o /\ awaiting o' = rest /\ current o' = current o /\ began o' = began o.
Proof.
  intros Hm Ha. unfold heard. rewrite Hm. change (BE_READY_FOR_QUERY =? BE_PARSE_COMPLETE) with false. change (BE_READY_FOR_QUERY =? BE_READY_FOR_QUERY) with true. cbv iota. by rewrite Ha.
Qed.

(** The outcome of a Parse that was not confirmed by the end of the round. *)
Definition resolve (st : SlotState) : SlotState :=
  if pendingStmt st =? STMT_NONE then st else set_pending STMT_NONE (set_cache (MarkFailed (pendingStmt st) (stmtCache st)) st).

Lemma resolve_ok P st u : cache_ok P (skip_of (pendingStmt st)) (stmtCache st) -> marks P (stmtCache st) (pendingStmt st) u -> cache_ok P None (stmtCache (resolve st)).
Proof.
  intros Hc Hm. unfold resolve. destruct u as [[n s]|]; cbn [marks] in Hm.
  - destruct Hm as (i & e & Hp & Hi & -> & _ & HP). assert (H4 : (i < 4096)%nat) by (destruct Hc as [Hc _]; apply lookup_lt_Some in Hi; lia).
    destruct (skip_index i H4) as [Hs1 Hs2]. rewrite Hp, Hs1 in *. rewrite Hs2. cbn [set_pending set_cache stmtCache]. by apply (failed_ok P (stmtCache st) i e).
  - rewrite Hm in *. exact Hc.
Qed.

Lemma resolve_fields st : let st' := resolve st in txStatus st' = txStatus st /\ ssession st' = ssession st /\ sstreamRows st' = sstreamRows st /\ streamOwnsTx st' = streamOwnsTx st /\ streamPhase st' = streamPhase st.
Proof. unfold resolve. by destruct (_ =? _). Qed.

Lemma last_ready status k : expectedReady (slot k) = 1 -> exists x k',
  on_ready status k = (Some x, k') /\ ctl k' = ctl k /\
  (x = HttpClient.CHUNK_READY_FETCH /\ sstreamRows (slot k) <> 0 \/ x = HttpClient.COMPLETE_KEEP_ALIVE) /\
  stmtCache (slot k') = stmtCache (resolve (slot k)) /\ txStatus (slot k') = status /\ ssession (slot k') = ssession (slot k) /\
  (x = HttpClient.COMPLETE_KEEP_ALIVE -> streamPhase (slot k') = PHASE_NONE) /\ (x = HttpClient.CHUNK_READY_FETCH -> streamOwnsTx (slot k') = streamOwnsTx (slot k)).
Proof.
  intros Hx. unfold on_ready. cbn [on_slot slot set_txStatus expectedReady pendingStmt]. rewrite Hx. change (1 <? 1) with false. cbv iota.
  set (k1 := if pendingStmt (slot k) =? STMT_NONE then _ else _).
  assert (E1 : slot k1 = set_txStatus status (resolve (slot k)) /\ ctl k1 = ctl k /\ res k1 = res k) by (unfold k1, resolve; by destruct (_ =? _)). destruct E1 as (E1 & C1 & R1). clearbody k1.
  destruct (resolve_fields (slot k)) as (_ & Fs & Fr & Fo & _). rewrite E1. cbn [set_txStatus sstreamRows]. rewrite Fr.
  set (k2 := if _ || _ then k1 else _).
  assert (E2 : ctl k2 = ctl k /\ stmtCache (slot k2) = stmtCache (resolve (slot k)) /\ txStatus (slot k2) = status /\ ssession (slot k2) = ssession (slot k) /\ streamOwnsTx (slot k2) = streamOwnsTx (slot k) /\ sstreamRows (slot k2) = sstreamRows (slot k)).
  { unfold k2. destruct (_ || _); [rewrite E1|cbn [on_slot slot ctl]; rewrite E1]; cbn; by rewrite Fs, Fr, Fo, C1. }
  destruct E2 as (C2 & A & B & C & D & R). clearbody k2. rewrite R. destruct (_ && _) eqn:E; eexists _, _; (split; [reflexivity|]).
  - apply andb_true_iff in E as [E _]. apply negb_true_iff, Z.eqb_neq in E. split; [done|]. split; [by left|]. split; [done|]. split; [done|]. split; [done|]. done.
  - cbn [on_slot slot ctl set_ownsTx set_phase set_streamRows stmtCache txStatus ssession streamPhase streamOwnsTx]. split; [done|]. split; [by right|]. split; [done|]. split; [done|]. split; [done|]. done.
Qed.

Lemma busy_ready k o m r vals : mtype m = BE_READY_FOR_QUERY -> ctl_ok (ctl k) -> busy_ok (slot k) o r vals -> known (ctl k) o ->
  exists x k', on_ready (fst (ReadU8 (ReadMessage m))) k = (x, k') /\ ctl k' = ctl k /\ message_outcome x k' (heard o m) r vals.
Proof.
  intros Hm Hctl Hb Hk. pose proof Hb as (B1 & B2 & B3 & B4 & B5 & B6 & B7 & B8 & B9 & Hc & Hmk & Hst). destruct (awaiting o) as [|b rest] eqn:Ea; [done|]. cbn [length] in B6.
  set (status := fst (ReadU8 (ReadMessage m))).
  pose proof (settled_ready (slot k) o r b rest status B3 B4 Ea ltac:(by destruct b) m Hm eq_refl) as Hset. destruct (heard_ready o m b rest Hm Ea) as (Hp' & Hu' & Hpo' & Ha' & Hcur' & Hbg').
  destruct rest as [|b2 rest].
  - destruct (last_ready status k) as (x & k' & -> & Hck & Hx & Fc & Ft & Fs & Fph & Fo); [exact B6|]. exists (Some x), k'. split; [done|]. split; [done|].
    assert (Hrest : resting (slot k') (heard o m)).
    { split; [rewrite Fc, Hp'; by apply (resolve_ok _ _ (unanswered o))|]. unfold settled in *. cbn [set_txStatus txStatus ssession] in Hset. by rewrite Ft, Fs. }
    unfold message_outcome, world_ok. destruct Hx as [[-> Hrows]| ->]; cbn [after_result work obs now]; rewrite Hck; (split; [done|]); (split; [tauto|]); (split; [done|]).
    + rewrite B5 in Hrows. split; [done|]. split; [done|]. split; [done|]. split; [done|]. split; [congruence|]. intros _. destruct (Hst Hrows) as [S1 S2]. unfold streaming. rewrite Hpo', Hbg', (Fo eq_refl). done.
    + split; [done|by apply Fph].
  - exists None. unfold on_ready. cbn [on_slot slot set_txStatus expectedReady]. rewrite (proj2 (Z.ltb_lt 1 (expectedReady (slot k)))) by (rewrite B6; cbn [length]; lia). eexists. split; [reflexivity|]. cbn [on_res on_slot ctl slot]. split; [done|].
    cbn [drop] in B7. inversion B7 as [|? ? Hb2 Hrest]; subst b2. unfold message_outcome, busy_ok, known. cbn [on_res on_slot slot ctl set_expected set_txStatus stmtCache ssession txStatus expectedReady pendingStmt sstreamRows streamPhase streamOwnsTx].
    rewrite Hp', Hu', Ha', Hcur'. split; [|done]. do 5 (split; [done|]). split; [rewrite B6; cbn [length]; lia|]. split; [exact Hrest|]. split; [done|]. split; [exact Hset|]. split; [done|]. split; [done|].
    intros Hrows. destruct (Hst Hrows) as [S1 S2]. unfold streaming. rewrite Hpo', Hbg'. done.
Qed.

Lemma Invalidate_ok e : 0 < e < 2 ^ 32 -> 0 < Invalidate e < 2 ^ 32.
Proof.
  intros He. unfold Invalidate, STMT_EPOCH_UNPARSED. pose proof (wrap_range 32 (e + 1) ltac:(lia)). destruct (Z.eqb_spec (u32 (e + 1)) 0); lia.
Qed.

Lemma busy_phase p st o r vals : busy_ok st o r vals -> busy_ok (set_phase p st) o r vals.
Proof. exact (fun H => H). Qed.

Lemma outcome_same k k' o r vals : ctl_ok (ctl k') -> (ctl k <> None -> ctl k' <> None) -> (slot k' = slot k \/ exists p, slot k' = set_phase p (slot k)) -> busy_ok (slot k) o r vals -> known (ctl k) o ->
  ctl_ok (ctl k') /\ message_outcome None k' o r vals.
Proof.
  intros Hctl Hn Hs Hb Hk. split; [done|]. split; [|unfold known in *; destruct (unanswered o); [by apply Hn|done]]. destruct Hs as [->|[p ->]]; [done|by apply busy_phase].
Qed.

(** Every message keeps the client's state and the session's in step. *)
Lemma message_ok k o m r vals : ctl_ok (ctl k) -> busy_ok (slot k) o r vals -> known (ctl k) o ->
  exists x k', on_message m k = Some (x, k') /\ ctl_ok (ctl k') /\ message_outcome x k' (heard o m) r vals.
Proof.
  intros Hctl Hb Hk. destruct (decide (mtype m = BE_PARSE_COMPLETE)) as [Hm|Hm1].
  { destruct (busy_parsed k o m r vals Hm Hctl Hb Hk) as (k' & E & Ec & Hb' & Hk'). exists None, k'. rewrite Ec. split; [done|]. split; [done|]. split; [done|exact Hk']. }
  destruct (decide (mtype m = BE_READY_FOR_QUERY)) as [Hm|Hm2].
  { destruct (busy_ready k o m r vals Hm Hctl Hb Hk) as (x & k' & E & Ec & Ho). exists x, k'. rewrite Ec. split; [|done].
    unfold on_message. rewrite Hm. rewrite <- E. done. }
  rewrite heard_other by done. assert (Hne : awaiting o <> []) by apply Hb. unfold on_message. apply Z.eqb_neq in Hm1, Hm2. rewrite Hm1, Hm2.
  assert (Hcc : forall s, ctl_ok (InvalidateCachedPlans s (ctl k)) /\ (ctl k <> None -> InvalidateCachedPlans s (ctl k) <> None)).
  { intros s. unfold InvalidateCachedPlans. destruct (ctl k) as [e|]; [|done]. destruct (_ || _); [|done]. split; [by apply Invalidate_ok|done]. }
  assert (Hsame : forall k', ctl k' = ctl k -> (slot k' = slot k \/ exists p, slot k' = set_phase p (slot k)) -> ctl_ok (ctl k') /\ message_outcome None k' o r vals).
  { intros k' E Hs. apply (outcome_same k); [by rewrite E|by rewrite E|done|done|done]. }
  destruct (mtype m =? BE_ROW_DESCRIPTION).
  { destruct (SetDescription (payload m) (res k)) as [ok rs]. destruct ok; eexists _, _; (split; [reflexivity|]); [apply Hsame; [done|by left]|done]. }
  destruct (mtype m =? BE_DATA_ROW).
  { destruct (AppendRow (payload m) (res k)) as [ok rs]. destruct ok; eexists _, _; (split; [reflexivity|]); [apply Hsame; [done|by left]|done]. }
  destruct (mtype m =? BE_COMMAND_COMPLETE).
  { eexists _, _. split; [reflexivity|]. destruct (_ && _); apply Hsame; try done; [right; by eexists|by left]. }
  destruct (mtype m =? BE_ERROR_RESPONSE).
  { eexists _, _. split; [reflexivity|]. apply (outcome_same k); cbn [ctl slot]; [apply Hcc|apply Hcc|by left|done|done]. }
  destruct (mtype m =? BE_PORTAL_SUSPENDED).
  { eexists _, _. split; [reflexivity|]. destruct (_ && _); apply Hsame; try done; [right; by eexists|by left]. }
  destruct (mtype m =? BE_CLOSE_COMPLETE).
  { eexists _, _. split; [reflexivity|]. destruct (_ && _); apply Hsame; try done; [right; by eexists|by left]. }
  destruct (_ || _); eexists _, _; (split; [reflexivity|]); [apply Hsame; [done|by left]|done].
Qed.

(** ** A whole buffer of replies *)

(** Within a buffer of 32-bit length [FrameMessage] stays inside and moves on. *)
Lemma FrameMessage_bounds buf pos mx : Z.of_nat (length buf) < 2 ^ 32 -> (pos <= length buf)%nat -> mx < 2 ^ 32 - 1 ->
  exists fs, FrameMessage buf pos mx = Some fs /\ match fs with FRAME_OK _ pos' => (pos < pos' <= length buf)%nat | _ => True end.
Proof.
  intros Hl Hp Hm. unfold FrameMessage. rewrite wrap_small by lia. destruct (_ <? Z.of_nat MESSAGE_HEADER_SIZE) eqn:E5; [by eexists|].
  set (d := LoadBe32 (drop (pos + 1) buf)). unfold MIN_LENGTH_FIELD, MESSAGE_HEADER_SIZE in *. destruct (_ || _) eqn:Ed; [by eexists|]. apply orb_false_iff in Ed as [Ed1%Z.ltb_ge Ed2%Z.ltb_ge].
  rewrite wrap_small by lia. destruct (_ <? d + 1) eqn:Et; [by eexists|]. apply Z.ltb_ge in Et. rewrite (proj2 (Nat.leb_le _ _)) by lia. eexists. split; [reflexivity|]. cbv beta iota. lia.
Qed.

Definition finished (x : HttpClient.ParseResult) : bool := match x with HttpClient.CHUNK_READY_FETCH | HttpClient.COMPLETE_KEEP_ALIVE => true | _ => false end.

(** What a call ends with. *)
Definition call_outcome (x : HttpClient.ParseResult) (k : Work) (o : Observer) (r : PgRequest) (vals : list (option bytes)) : Prop :=
  world_ok (In k o (after_result x r vals)) /\ (if finished x then awaiting o = [] else awaiting o <> []).

Lemma busy_awaiting st o r vals : busy_ok st o r vals -> awaiting o <> [].
Proof. by intros (_ & _ & _ & _ & _ & _ & _ & H & _). Qed.

Lemma parse_loop_ok opts buf isEof r vals : Z.of_nat (length buf) < 2 ^ 32 -> maxMessageBytes opts < 2 ^ 32 - 1 ->
  forall fuel pos k o, (pos <= length buf)%nat -> (length buf - pos < fuel)%nat -> ctl_ok (ctl k) -> busy_ok (slot k) o r vals -> known (ctl k) o ->
  exists x stop k', parse_loop fuel opts buf isEof pos k = Some (x, stop, k') /\ (pos <= stop <= length buf)%nat /\
    forall g, (length buf - pos <= g)%nat -> call_outcome x k' (fold_left heard (frames g opts buf pos stop) o) r vals.
Proof.
  intros Hl Hm. induction fuel as [|f IH]; intros pos k o Hp Hf Hctl Hb Hk; [lia|]. cbn [parse_loop].
  destruct (FrameMessage_bounds buf pos (maxMessageBytes opts) Hl Hp Hm) as (fs & E & Hfs). rewrite E. cbn [option_bind mbind].
  assert (Hstay : forall g, frames g opts buf pos pos = []) by (intros [|g]; cbn [frames]; [done|]; by rewrite Nat.ltb_irrefl).
  destruct fs as [m pos'| |].
  - destruct (message_ok k o m r vals Hctl Hb Hk) as (x & k1 & -> & Hctl1 & Ho). cbn [option_bind mbind]. destruct x as [x|].
    + exists x, pos', k1. split; [done|]. split; [lia|]. intros g Hg. destruct g as [|g]; [lia|]. cbn [frames]. rewrite (proj2 (Nat.ltb_lt _ _)), E by lia.
      assert (Hend : frames g opts buf pos' pos' = []) by (destruct g; cbn [frames]; [done|]; by rewrite Nat.ltb_irrefl). rewrite Hend. cbn [fold_left].
      unfold call_outcome. destruct x; cbn [message_outcome after_result finished] in *; try tauto; first [by split; [split|] | by destruct Ho as (_ & [E'|E'] & _)].
    + destruct Ho as [Hb1 Hk1]. destruct (IH pos' k1 (heard o m)) as (x & stop & k' & -> & Hs & Hg); [lia|lia|done|done|done|]. exists x, stop, k'. split; [done|]. split; [lia|].
      intros g Hgl. destruct g as [|g]; [lia|]. cbn [frames]. rewrite (proj2 (Nat.ltb_lt _ _)), E by lia. cbn [fold_left]. apply Hg. lia.
  - exists (if isEof then HttpClient.PARSE_ERROR else HttpClient.INCOMPLETE), pos, k. split; [done|]. split; [lia|]. intros g _. rewrite Hstay. cbn [fold_left]. pose proof (busy_awaiting _ _ _ _ Hb).
    destruct isEof; (split; [|done]); split; done.
  - exists HttpClient.PARSE_ERROR, pos, k. split; [done|]. split; [lia|]. intros g _. rewrite Hstay. cbn [fold_left]. pose proof (busy_awaiting _ _ _ _ Hb). split; [|done]. split; done.
Qed.

Lemma Parse_ok opts buf isEof k o r vals : Z.of_nat (length buf) < 2 ^ 32 -> maxMessageBytes opts < 2 ^ 32 - 1 -> ctl_ok (ctl k) -> busy_ok (slot k) o r vals -> known (ctl k) o ->
  exists x stop k', Parse opts buf isEof k = Some (x, stop, k') /\ (stop <= length buf)%nat /\ call_outcome x k' (heard_all opts buf stop o) r vals.
Proof.
  intros Hl Hm Hctl Hb Hk. unfold Parse. set (k1 := if streamRowsStale (slot k) then _ else k).
  assert (H1 : ctl k1 = ctl k /\ busy_ok (slot k1) o r vals) by (unfold k1; by destruct (streamRowsStale (slot k))). destruct H1 as [E1 Hb1].
  destruct (parse_loop_ok opts buf isEof r vals Hl Hm (S (length buf)) 0 k1 o) as (x & stop & k' & -> & Hs & Hg); [lia|lia|by rewrite E1|done|by rewrite E1|].
  exists x, stop, k'. split; [done|]. split; [lia|]. apply Hg. lia.
Qed.

(** ** The invariant holds on every run *)

Lemma encoded_ok opts c r cap st x st' : Serialize opts c r cap st = Some (x, st') -> (exists out, x = SER_OK out) -> encoded r = true.
Proof. unfold Serialize. destruct (encoded r); [done|]. cbn [negb]. intros [= <- _] [out H]. discriminate. Qed.

Lemma sending_cache w r vals : world_ok w -> may_send (now w) r vals -> cache_ok (prepared (obs w)) None (stmtCache (slot (work w))).
Proof. destruct w as [k o p]. unfold world_ok. cbn [work obs now]. intros [_ H] Hm. destruct p; try done; apply H. Qed.

Lemma refused_ok opts k o p r vals cap x st : world_ok (In k o p) -> may_send p r vals -> made r vals -> 0 <= cap < 2 ^ 32 ->
  Serialize opts (ctl k) r cap (slot k) = Some (x, st) -> (forall out, x <> SER_OK out) -> world_ok (In (On st (ctl k) (res k)) o (if encoded r then after_refusal p r else p)).
Proof.
  intros Hw Hm Hr Hcap HS Hx. pose proof (sending_cache _ r vals Hw Hm) as Hc. cbn [work obs slot] in Hc. destruct (encoded r) eqn:He.
  2: { unfold Serialize in HS. rewrite He in HS. injection HS as _ <-. destruct k. exact Hw. }
  apply made_ok in Hr; [|done].
  destruct (round_good opts (In k o p) r vals Hw Hm Hr He) as (y & Hy & [_ _ (K1 & K2 & K3 & K4 & K5) _ _]). cbn [work obs now] in *.
  destruct (Serialize_round (prepared o) opts (ctl k) r vals cap (slot k) He Hc Hr Hcap) as (y' & Hy' & HS'). rewrite Hy in Hy'. injection Hy' as <-. rewrite HS in HS'. injection HS' as HS'.
  destruct y as [[ms small] whole]. unfold settle in HS'. cbn [fst snd] in *. destruct (_ <=? cap); injection HS' as -> ->; [by destruct (Hx (fe_text ms))|]. clear Hx HS Hy.
  pose proof (prepare_fields r (slot k)) as (_ & Et & Es & _ & _ & _ & Eo & Eph). rewrite Et in K2. rewrite Es in K3. unfold world_ok in *. cbn [work obs now slot ctl] in *. destruct Hw as [Hctl Hw]. split; [done|].
  assert (Hset : settled (slot k) o -> settled small o) by (unfold settled; by rewrite K2, K3).
  destruct p as [| |r0 vals0|]; cbn [after_refusal may_send] in *; try done.
  - destruct Hw as [[_ Hs] Hp]. split; [split; [done|by apply Hset]|]. rewrite K4, Eph. by destruct (streamRows r =? 0).
  - destruct Hw as ([_ Hs] & Hr0 & He0 & Hrows & Hses & Hst). destruct (Z.eqb_spec (streamRows r) 0) as [H0|H0]; [split; [split; [done|by apply Hset]|]; by rewrite K4, Eph|].
    destruct Hm as [[-> ->]|]; [|done]. split; [split; [done|by apply Hset]|]. do 3 (split; [done|]). split; [congruence|]. intros Hne. rewrite K4, Eph in Hne. destruct (Hst Hne) as [S1 S2]. split; [done|].
    rewrite K5, Eo; [done|]. by rewrite Eph.
Qed.

Lemma sent_ok opts k o p r vals cap out ms st : world_ok (In k o p) -> may_send p r vals -> made r vals -> 0 <= cap < 2 ^ 32 - 1 ->
  Serialize opts (ctl k) r cap (slot k) = Some (SER_OK out, st) -> server_reads out = Some ms ->
  world_ok (In (On st (ctl k) (res k)) (sent (session r) ms o) (Busy r vals)) /\ exists Q acts, perform (prepared o) (portals o) ms = Some (Q, acts) /\ honest o p r vals acts.
Proof.
  intros Hw Hm Hr Hcap HS Hread. pose proof (sending_cache _ r vals Hw Hm) as Hc. cbn [work obs slot] in Hc. pose proof (encoded_ok _ _ _ _ _ _ _ HS (ex_intro _ out eq_refl)) as He. apply made_ok in Hr; [|done].
  destruct (round_good opts (In k o p) r vals Hw Hm Hr He) as (y & Hy & [G1 G2 _ G4 G5]). cbn [work obs now] in *.
  destruct (Serialize_round (prepared o) opts (ctl k) r vals cap (slot k) He Hc Hr ltac:(lia)) as (y' & Hy' & HS'). rewrite Hy in Hy'. injection Hy' as <-. rewrite HS in HS'. injection HS' as HS'.
  destruct y as [[ms' small] whole]. unfold settle in HS'. cbn [fst snd] in *. destruct (Z.leb_spec (Z.of_nat (length (fe_text ms'))) cap); [|discriminate]. injection HS' as -> ->.
  rewrite server_reads_spec in Hread by (done || lia). injection Hread as ->. split; [|done]. unfold world_ok in *. cbn [work obs now slot ctl] in *. destruct Hw as [Hctl _]. split; [done|]. split; [done|]. exact G5.
Qed.

Lemma reachable_ok opts w : maxMessageBytes opts < 2 ^ 32 - 1 -> reachable opts w -> world_ok w.
Proof.
  intros Hm. induction 1 as [size minUses epoch He|w w' _ IH Hs].
  - unfold world_ok. cbn. split; [done|]. split; [|done]. split; [apply Init_empty_cache|done].
  - destruct Hs as [s e e' rs o p He|k o p r vals cap x st Hsend Hr Hc HS Hx|k o p r vals cap out ms st Hsend Hr Hc HS Hread|k o r vals buf isEof x stop k' HP Hl].
    + destruct IH as [_ IH]. split; [done|]. destruct p; try exact IH. destruct IH as [Hb Hk]. split; [exact Hb|]. unfold known in *. cbn [work obs ctl] in *. by destruct (unanswered o).
    + by apply (refused_ok opts k o p r vals cap x st).
    + by apply (sent_ok opts k o p r vals cap out ms st).
    + destruct IH as [Hctl [Hb Hk]]. destruct (Parse_ok opts buf isEof k o r vals Hl Hm Hctl Hb Hk) as (x' & stop' & k2 & HP' & _ & Hout). rewrite HP in HP'. injection HP' as -> -> ->. apply Hout.
Qed.

(** C15: A connection serves every request with that request's own statement, in a
    transaction of its own session.  The requests are those the API makes, of any SQL
    without NUL and any parameters but 8- and 16-bit integers (which are not readable, see
    [int16_unreadable]); [maxMessageBytes] is below [2 ^ 32 - 1].  Whatever such requests,
    retries, replies (of a correct server or not) and epochs moved by other connections came
    before: a request whose parameters were too large is refused; any other makes a round
    that, if it fits its buffer, is read by a server as whole messages it can perform, no
    name is used that does not hold the request's SQL and parameter types and none is parsed
    while it is taken; a transaction another session left open is rolled back first and kept
    for the session that opened it; a stream fetches from its own portal and commits only a
    transaction it began.  A buffer of replies is read within its bounds, and a round ends
    exactly when every ReadyForQuery it asked for has come.  Left out is a second stream sent
    over one that has not ended: it is answered from the first one's portal (see
    [open_stream_is_continued]). *)
Theorem session_is_sound opts w : maxMessageBytes opts < 2 ^ 32 - 1 -> reachable opts w ->
  (forall r vals cap, may_send (now w) r vals -> made r vals -> 0 <= cap < 2 ^ 32 - 1 ->
    exists x st, Serialize opts (ctl (work w)) r cap (slot (work w)) = Some (x, st) /\
      if encoded r then
        x = SER_BUFFER_TOO_SMALL \/
        exists out ms Q acts, x = SER_OK out /\ Z.of_nat (length out) <= cap /\ server_reads out = Some ms /\
          perform (prepared (obs w)) (portals (obs w)) ms = Some (Q, acts) /\ honest (obs w) (now w) r vals acts
      else x = SER_ERROR) /\
  (forall r vals buf isEof, now w = Busy r vals -> Z.of_nat (length buf) < 2 ^ 32 ->
    exists x stop k, Parse opts buf isEof (work w) = Some (x, stop, k) /\ (stop <= length buf)%nat /\
      (finished x = true <-> awaiting (heard_all opts buf stop (obs w)) = [])).
Proof.
  intros Hm Hreach. pose proof (reachable_ok opts w Hm Hreach) as Hw. destruct w as [k o p]. cbn [work obs now] in *. split.
  - intros r vals cap Hsend Hr Hcap. destruct (encoded r) eqn:He; [|exists SER_ERROR, (slot k); unfold Serialize; by rewrite He]. apply made_ok in Hr; [|done].
    pose proof (sending_cache _ r vals Hw Hsend) as Hc. cbn [work obs slot] in Hc.
    destruct (round_good opts (In k o p) r vals Hw Hsend Hr He) as (y & Hy & [G1 G2 _ _ _]). cbn [work obs now] in *.
    destruct (Serialize_round (prepared o) opts (ctl k) r vals cap (slot k) He Hc Hr ltac:(lia)) as (y' & Hy' & ->). rewrite Hy in Hy'. injection Hy' as <-.
    destruct y as [[ms small] whole]. unfold settle. cbn [fst snd] in *. destruct (Z.leb_spec (Z.of_nat (length (fe_text ms))) cap); eexists _, _; (split; [reflexivity|]); [right|by left].
    destruct G2 as (Q & acts & HP & Hh). exists (fe_text ms), ms, Q, acts. do 2 (split; [done|]). split; [by apply server_reads_spec; [|lia]|]. done.
  - intros r vals buf isEof -> Hl. destruct Hw as [Hctl [Hb Hk]]. destruct (Parse_ok opts buf isEof k o r vals Hl Hm Hctl Hb Hk) as (x & stop & k' & HP & Hs & _ & Hout).
    exists x, stop, k'. split; [done|]. split; [done|]. destruct (finished x); split; done.
Qed.

(** ** Two streams on one connection *)

(** While a stream's portal is recorded as open, the round of another stream fetches from it. *)
Lemma open_stream_is_continued opts ctl r cap st : encoded r = true -> streamRows r <> 0 -> streamPhase st = PHASE_FETCH ->
  fst <$> Serialize opts ctl r cap st = Some (finish (sync_message (execute_message STREAM_PORTAL (i32 (streamRows r)) (NewWriter cap)))).
Proof.
  intros He Hr Hp. unfold Serialize. rewrite He. cbn [negb set_streamRows set_pending set_expected sstreamRows]. rewrite (proj2 (Z.eqb_neq _ _) Hr).
  cbn [set_streamRows set_pending set_expected streamPhase]. rewrite Hp. unfold continue_stream. cbn [set_stale set_streamRows set_pending set_expected streamPhase sstreamRows]. by rewrite Hp.
Qed.

(** A stream of no statement at all is answered with neither a tag nor a suspension: the
    phase stays, and the caller is asked to fetch again. *)
Lemma empty_stream_goes_on k s : expectedReady (slot k) = 1 -> sstreamRows (slot k) <> 0 -> streamPhase (slot k) = PHASE_NONE -> pendingStmt (slot k) = STMT_NONE -> Failed (res k) = false ->
  on_message (Message BE_EMPTY_QUERY_RESPONSE []) k = Some (None, k) /\
  on_ready s k = (Some HttpClient.CHUNK_READY_FETCH, on_slot (set_txStatus s) k).
Proof.
  intros H1 Hr Hp Hs Hf. split; [done|]. destruct k as [[c ss tx er ps sr ph ot old] e r]. cbn [slot res expectedReady sstreamRows streamPhase pendingStmt] in *. subst er ph ps.
  unfold on_ready, on_slot, on_res, set_txStatus. cbn [slot ctl res expectedReady pendingStmt sstreamRows streamPhase stmtCache ssession txStatus streamOwnsTx streamRowsStale].
  change (1 <? 1) with false. rewrite Z.eqb_refl. cbv iota zeta. cbn [slot ctl res sstreamRows streamPhase]. rewrite (proj2 (Z.eqb_neq _ _) Hr), Hf. cbn [negb orb slot sstreamRows streamPhase]. rewrite (proj2 (Z.eqb_neq _ _) Hr). by rewrite bool_decide_false.
Qed.

(** ** A session *)

Definition demo_opts : PgOptions := Options 65536 true.
Definition demo_request : PgRequest := MakeSessionRequest 7 (lit "SELECT $1") [PgText (lit "hi")].
Definition demo_vals : list (option bytes) := [Some (lit "hi")].
Definition demo_start : World := In (On (new_slot (Init 4 1 new_cache)) (Some 1) new_result) new_observer Idle.

(** The first round, as the client leaves it and the observer sees it. *)
Definition demo_sent : World :=
  match Serialize demo_opts (Some 1) demo_request 1024 (slot (work demo_start)) with
  | Some (SER_OK out, st) =>
      match server_reads out with
      | Some ms => In (On st (Some 1) new_result) (sent 7 ms new_observer) (Busy demo_request demo_vals)
      | None => demo_start
      end
  | _ => demo_start
  end.

Definition demo_replies : bytes :=
  framed BE_PARSE_COMPLETE [] ++ framed BE_BIND_COMPLETE [] ++
  framed BE_ROW_DESCRIPTION (be16 1 ++ lit "c" ++ [0] ++ be32 0 ++ be16 0 ++ be32 25 ++ be16 65535 ++ be32 (2 ^ 32 - 1) ++ be16 0) ++ framed BE_DATA_ROW (be16 1 ++ be32 2 ++ lit "hi") ++
  framed BE_COMMAND_COMPLETE (lit "SELECT 1" ++ [0]) ++ framed BE_READY_FOR_QUERY [TX_IDLE].

Lemma demo_request_made : made demo_request demo_vals.
Proof.
  apply (made_query 0 7 (lit "SELECT $1") [PgText (lit "hi")]); [by apply text_ok_lit|repeat constructor|done].
Qed.

Lemma demo_start_reachable : reachable demo_opts demo_start.
Proof. apply (Connected demo_opts 4 1 (Some 1)). done. Qed.

Lemma demo_sent_reachable : reachable demo_opts demo_sent.
Proof.
  unfold demo_sent. destruct (Serialize _ _ _ _ _) as [[[out| |] st]|] eqn:E; try exact demo_start_reachable. destruct (server_reads out) as [ms|] eqn:E2; [|exact demo_start_reachable].
  apply (Stepped _ demo_start); [exact demo_start_reachable|]. apply (Round_sent demo_opts (work demo_start) new_observer Idle demo_request demo_vals 1024 out ms st); [exact I|exact demo_request_made|lia|exact E|exact E2].
Qed.

Lemma demo_waits : now demo_sent = Busy demo_request demo_vals.
Proof. by vm_compute. Qed.

(** The replies end the round, name the statement and fill one row. *)
Example demo_round : option_map (fun '(x, stop, k) => (x, stop, RowCount (res k), eepoch <$> entries_ (stmtCache (slot k)) !! 0%nat)) (Parse demo_opts demo_replies false (work demo_sent)) =
  Some (HttpClient.COMPLETE_KEEP_ALIVE, length demo_replies, 1, Some 1).
Proof. by vm_compute. Qed.

Lemma session_is_sound_witness :
  (exists x st, Serialize demo_opts (Some 1) demo_request 1024 (slot (work demo_start)) = Some (x, st) /\
    (x = SER_BUFFER_TOO_SMALL \/
     exists out ms Q acts, x = SER_OK out /\ Z.of_nat (length out) <= 1024 /\ server_reads out = Some ms /\
       perform ∅ ∅ ms = Some (Q, acts) /\ honest new_observer Idle demo_request demo_vals acts)) /\
  (exists x stop k, Parse demo_opts demo_replies false (work demo_sent) = Some (x, stop, k) /\ (stop <= length demo_replies)%nat /\
    (finished x = true <-> awaiting (heard_all demo_opts demo_replies stop (obs demo_sent)) = [])).
Proof.
  assert (Hm : maxMessageBytes demo_opts < 2 ^ 32 - 1) by done. split.
  - apply (proj1 (session_is_sound demo_opts demo_start Hm demo_start_reachable) demo_request demo_vals 1024); [done|exact demo_request_made|lia].
  - apply (proj2 (session_is_sound demo_opts demo_sent Hm demo_sent_reachable) demo_request demo_vals); [exact demo_waits|by vm_compute].
Defined.

(** A 16-bit parameter: the request is written, and its Bind cannot be read. *)
Example int16_unreadable :
  match Serialize demo_opts (Some 1) (MakeRequest (lit "SELECT $1") [PgInt16 7]) 1024 (slot (work demo_start)) with
  | Some (SER_OK out, _) => server_reads out = None
  | _ => False
  end.
Proof. by vm_compute. Qed.

End PgClient.
