(* ===== verification/JsonStore.v ===== *)
(** * JsonStore: [shared/json/json_object.hpp]

    The store of a JSON document: nodes, keys and string bytes in three growing arrays
    addressed by index, and for every object one buffer holding its key list and a
    linear-probing hash table.  Part one, the table and the operations of [JsonRef] on
    arrays and objects, with the proof that an object is an ordered map.

    The buffer of an object is the array of words the code lays out: [htCap], a pad
    word, [kvCap] key indices in insertion order, [htCap] slots.  A [JsonRef] is the
    index of its node.  [Alloc_ok] says which sizes the allocator grants, [junk] is what
    fresh memory holds. *)

From stdpp Require Import list.
From S2P Require Import Prelude Hash.

Module JsonStore.

Definition JSON_NIL : Z := 0xFFFFFFFF.
Definition JSON_TOMB : Z := 0xFFFFFFFE.
Definition JSON_INIT_CAP : Z := 8.

Definition sizeof_JsonNode : Z := 24.
Definition sizeof_JsonKV : Z := 16.

(** A view keeps the bytes it points to; the caller owns them. *)
Inductive JsonNode :=
| EMPTY
| BOOL (v : bool)
| INT64 (v : Z)
| UINT64 (v : Z)
| DOUBLE (v : Z)
| STR_VIEW (v : bytes)
| STR_OWN (off len : Z)
| ARRAY (count cap : Z) (buf : option (list Z))
| OBJECT (count kvCap : Z) (buf : option (list Z)).

Record JsonKV := KV {
  keyOff : Z;
  keyLen : Z;
  valIdx : Z;
  pad : Z
}.

Definition new_kv : JsonKV := KV JSON_NIL 0 JSON_NIL 0.

(** The live prefix of each array; [nodeLen], [kvLen] and [strLen] are the lengths. *)
Record JsonStore := Store {
  nodes : list JsonNode;
  nodeCap : Z;
  kvs : list JsonKV;
  kvCap_ : Z;
  kvFree : Z;
  strs : bytes;
  strCap : Z
}.

Definition new_store : JsonStore := Store [] 0 [] 0 JSON_NIL [] 0.

Definition nodeLen (s : JsonStore) : Z := Z.of_nat (length (nodes s)).
Definition kvLen (s : JsonStore) : Z := Z.of_nat (length (kvs s)).
Definition strLen (s : JsonStore) : Z := Z.of_nat (length (strs s)).

Definition set_nodes l cap s := Store l cap (kvs s) (kvCap_ s) (kvFree s) (strs s) (strCap s).
Definition set_kvs l cap free s := Store (nodes s) (nodeCap s) l cap free (strs s) (strCap s).
Definition set_strs l cap s := Store (nodes s) (nodeCap s) (kvs s) (kvCap_ s) (kvFree s) l cap.

Definition node (s : JsonStore) (i : Z) : JsonNode := default EMPTY (nodes s !! Z.to_nat i).
Definition kv (s : JsonStore) (i : Z) : JsonKV := default new_kv (kvs s !! Z.to_nat i).
Definition set_node (i : Z) (n : JsonNode) (s : JsonStore) : JsonStore :=
  set_nodes (<[Z.to_nat i := n]> (nodes s)) (nodeCap s) s.
Definition set_kv (i : Z) (k : JsonKV) (s : JsonStore) : JsonStore :=
  set_kvs (<[Z.to_nat i := k]> (kvs s)) (kvCap_ s) (kvFree s) s.

(** [strs + off], [len] bytes. *)
Definition str_at (s : JsonStore) (off len : Z) : bytes := take (Z.to_nat len) (drop (Z.to_nat off) (strs s)).
Definition key_of (s : JsonStore) (k : JsonKV) : bytes := str_at s (keyOff k) (keyLen k).

(** ** Words of an object buffer *)

Definition word (b : list Z) (i : Z) : Z := default 0 (b !! Z.to_nat i).
Definition set_word (i v : Z) (b : list Z) : list Z := <[Z.to_nat i := v]> b.

(** [memmove]/[memset] of [l] to word [i]. *)
Definition blit (i : Z) (l : list Z) (b : list Z) : list Z :=
  take (Z.to_nat i) b ++ l ++ drop (Z.to_nat i + length l) b.

Definition ObjHtCap (b : list Z) : Z := word b 0.
Definition ObjKVList (b : list Z) (i : Z) : Z := word b (2 + i).
Definition ObjHTSlot (b : list Z) (kvCap h : Z) : Z := word b (2 + kvCap + h).
Definition ObjBufSize (kvCap htCap : Z) : Z := u32 (2 + kvCap + htCap).

(** [std::bit_ceil]. *)
Definition bit_ceil (x : Z) : Z := 2 ^ Z.log2_up x.
Definition ObjHtCapFor (count : Z) : Z :=
  let cap := bit_ceil (u32 (count * 2)) in if cap <? 8 then 8 else cap.

Definition hash_key (key : bytes) (htCap : Z) : Z := Z.land (u32 (default 0 (Hash.WyHash key 0))) (htCap - 1).

Section store.
Context (Alloc_ok : Z -> bool) (junk : Z).

(** [Realloc] of a word buffer, [Alloc] when there is none. *)
Definition realloc_words (b : option (list Z)) (total : Z) : option (list Z) :=
  if Alloc_ok (total * 4) then Some (resize (Z.to_nat total) junk (default [] b)) else None.

(** ** [JsonStore] *)

Definition Reserve (nodeHint kvHint strHint : Z) (s : JsonStore) : bool * JsonStore :=
  if (nodeCap s <? nodeHint) && negb (Alloc_ok (nodeHint * sizeof_JsonNode)) then (false, s)
  else
    let s := if nodeCap s <? nodeHint then set_nodes (nodes s) nodeHint s else s in
    if (kvCap_ s <? kvHint) && negb (Alloc_ok (kvHint * sizeof_JsonKV)) then (false, s)
    else
      let s := if kvCap_ s <? kvHint then set_kvs (kvs s) kvHint (kvFree s) s else s in
      if (strCap s <? strHint) && negb (Alloc_ok strHint) then (false, s)
      else (true, if strCap s <? strHint then set_strs (strs s) strHint s else s).

Definition grow (len more cap : Z) : Z :=
  let need := u32 (len + more) in
  if need <=? cap then cap else if u32 (cap * 2) <? need then need else u32 (cap * 2).

Definition ReserveMore (nodeMore kvMore strMore : Z) (s : JsonStore) : bool * JsonStore :=
  Reserve (grow (nodeLen s) nodeMore (nodeCap s)) (grow (kvLen s) kvMore (kvCap_ s)) (grow (strLen s) strMore (strCap s)) s.

Definition AllocNode (s : JsonStore) : Z * JsonStore :=
  if nodeLen s =? nodeCap s then
    let nc := if nodeCap s =? 0 then JSON_INIT_CAP else u32 (nodeCap s * 2) in
    if Alloc_ok (nc * sizeof_JsonNode) then (nodeLen s, set_nodes (nodes s ++ [EMPTY]) nc s) else (JSON_NIL, s)
  else (nodeLen s, set_nodes (nodes s ++ [EMPTY]) (nodeCap s) s).

Definition AllocKV (s : JsonStore) : Z * JsonStore :=
  if negb (kvFree s =? JSON_NIL) then
    let idx := kvFree s in
    (idx, set_kv idx new_kv (set_kvs (kvs s) (kvCap_ s) (pad (kv s idx)) s))
  else if kvLen s =? kvCap_ s then
    let kc := if kvCap_ s =? 0 then JSON_INIT_CAP else u32 (kvCap_ s * 2) in
    if Alloc_ok (kc * sizeof_JsonKV) then (kvLen s, set_kvs (kvs s ++ [new_kv]) kc (kvFree s) s) else (JSON_NIL, s)
  else (kvLen s, set_kvs (kvs s ++ [new_kv]) (kvCap_ s) (kvFree s) s).

Definition FreeKV (idx : Z) (s : JsonStore) : JsonStore :=
  let k := kv s idx in
  let s := set_kv idx (KV (keyOff k) (keyLen k) JSON_NIL (kvFree s)) s in
  set_kvs (kvs s) (kvCap_ s) idx s.

(** [while(sc < need) sc *= 2]: at most 32 doublings reach any 32-bit size; past 2^31
    the product wraps to 0 and the loop does not end. *)
Fixpoint double_until (fuel : nat) (sc need : Z) : Z :=
  match fuel with
  | O => 0
  | S f => if sc <? need then double_until f (u32 (sc * 2)) need else sc
  end.

(** [data]: the bytes to copy, or [nullptr]. *)
Definition AllocStr (data : option bytes) (len : Z) (s : JsonStore) : Z * JsonStore :=
  let need := u32 (strLen s + len + 1) in
  let l := strs s ++ default (replicate (Z.to_nat len) junk) data ++ [0] in
  if strCap s <? need then
    let sc := double_until 33 (if strCap s =? 0 then 64 else u32 (strCap s * 2)) need in
    if Alloc_ok sc then (strLen s, set_strs l sc s) else (JSON_NIL, s)
  else (strLen s, set_strs l (strCap s) s).

(** ** The table of an object *)

(** Linear probing for [key] from slot [h]: the slot and what it holds. *)
Fixpoint find_loop (fuel : nat) (s : JsonStore) (b : list Z) (kvCap htCap : Z) (key : bytes) (h : Z) : option (Z * Z) :=
  match fuel with
  | O => None
  | S f =>
      let x := ObjHTSlot b kvCap h in
      if x =? JSON_NIL then None
      else if (if x =? JSON_TOMB then false else (keyLen (kv s x) =? Z.of_nat (length key)) && bool_decide (key_of s (kv s x) = key))
      then Some (h, x)
      else find_loop f s b kvCap htCap key (Z.land (h + 1) (htCap - 1))
  end.

(** The loop visits a slot at most once while one is free. *)
Definition find_slot (s : JsonStore) (b : list Z) (kvCap : Z) (key : bytes) : option (Z * Z) :=
  find_loop (Z.to_nat (ObjHtCap b)) s b kvCap (ObjHtCap b) key (hash_key key (ObjHtCap b)).

Definition HTFind (s : JsonStore) (i : Z) (key : bytes) : Z :=
  match node s i with
  | OBJECT _ kvCap (Some b) =>
      if ObjHtCap b =? 0 then JSON_NIL
      else match find_slot s b kvCap key with Some (_, x) => x | None => JSON_NIL end
  | _ => JSON_NIL
  end.

Fixpoint free_slot (fuel : nat) (b : list Z) (kvCap htCap h : Z) : Z :=
  match fuel with
  | O => h
  | S f =>
      let x := ObjHTSlot b kvCap h in
      if negb (x =? JSON_NIL) && negb (x =? JSON_TOMB) then free_slot f b kvCap htCap (Z.land (h + 1) (htCap - 1)) else h
  end.

(** [slots[h] = ki] at the first free slot from the key's home. *)
Definition insert_slot (s : JsonStore) (kvCap htCap ki : Z) (b : list Z) : list Z :=
  let h := free_slot (Z.to_nat htCap) b kvCap htCap (hash_key (key_of s (kv s ki)) htCap) in
  set_word (2 + kvCap + h) ki b.

Fixpoint reinsert (n : nat) (i : Z) (s : JsonStore) (kvCap htCap : Z) (b : list Z) : list Z :=
  match n with
  | O => b
  | S m => reinsert m (i + 1) s kvCap htCap (insert_slot s kvCap htCap (ObjKVList b i) b)
  end.

Definition RebuildHT (s : JsonStore) (count : Z) (buf : option (list Z)) (newHtCap newKvCap : Z) : option (list Z) :=
  match realloc_words buf (ObjBufSize newKvCap newHtCap) with
  | None => None
  | Some b =>
      let b := set_word 1 0 (set_word 0 newHtCap b) in
      let b := blit (2 + newKvCap) (replicate (Z.to_nat newHtCap) JSON_NIL) b in
      Some (reinsert (Z.to_nat count) 0 s newKvCap newHtCap b)
  end.

Definition GrowKVCap (kvCap : Z) (buf : option (list Z)) : option (Z * list Z) :=
  let newKvCap := if kvCap =? 0 then JSON_INIT_CAP else u32 (kvCap * 2) in
  let htCap := match buf with Some b => ObjHtCap b | None => 0 end in
  match realloc_words buf (ObjBufSize newKvCap htCap) with
  | None => None
  | Some b =>
      let b := if negb (htCap =? 0) && negb (newKvCap =? kvCap)
               then blit (2 + newKvCap) (take (Z.to_nat htCap) (drop (Z.to_nat (2 + kvCap)) b)) b else b in
      Some (newKvCap, set_word 1 0 (set_word 0 htCap b))
  end.

(** [count] counts the new key already. *)
Definition HTInsert (s : JsonStore) (count kvCap : Z) (b : list Z) (ki : Z) : option (list Z) :=
  let htCap := ObjHtCap b in
  if (htCap =? 0) || (htCap / 2 <? count) then RebuildHT s count (Some b) (ObjHtCapFor count) kvCap
  else Some (insert_slot s kvCap htCap ki b).

Definition ObjAppendKV (i ki : Z) (s : JsonStore) : bool * JsonStore :=
  match node s i with
  | OBJECT count kvCap buf =>
      let append kvCap b :=
        let b := set_word (2 + count) ki b in
        let s := set_node i (OBJECT (count + 1) kvCap (Some b)) s in
        match HTInsert s (count + 1) kvCap b ki with
        | None => (false, s)
        | Some b => (true, set_node i (OBJECT (count + 1) kvCap (Some b)) s)
        end in
      if kvCap <=? count then
        match GrowKVCap kvCap buf with
        | None => (false, s)
        | Some (kvCap, b) => append kvCap b
        end
      else append kvCap (default [] buf)
  | _ => (false, s)
  end.

(** An [EMPTY] node becomes an object (or an array) when used as one. *)
Definition become (n : JsonNode) (i : Z) (s : JsonStore) : JsonStore :=
  match node s i with EMPTY => set_node i n s | _ => s end.

Definition is_object (n : JsonNode) : bool := match n with OBJECT _ _ _ => true | _ => false end.
Definition is_array (n : JsonNode) : bool := match n with ARRAY _ _ _ => true | _ => false end.

(** A fresh value node and the key that names it. *)
Definition link_key (i keyOff keyLen : Z) (s : JsonStore) : Z * JsonStore :=
  let '(v, s) := AllocNode s in
  if v =? JSON_NIL then (JSON_NIL, s)
  else
    let '(ki, s) := AllocKV s in
    if ki =? JSON_NIL then (JSON_NIL, s)
    else
      let '(ok, s) := ObjAppendKV i ki (set_kv ki (KV keyOff keyLen v 0) s) in
      (if ok then v else JSON_NIL, s).

Definition AppendKey (i : Z) (key : bytes) (s : JsonStore) : Z * JsonStore :=
  let '(off, s) := AllocStr (Some key) (Z.of_nat (length key)) s in
  if off =? JSON_NIL then (JSON_NIL, s) else link_key i off (Z.of_nat (length key)) s.

(** The reference is the index, [JSON_NIL] the dead one. *)
Definition GetOrCreate (i : Z) (key : bytes) (s : JsonStore) : Z * JsonStore :=
  if i =? JSON_NIL then (JSON_NIL, s)
  else
    let s := become (OBJECT 0 0 None) i s in
    if negb (is_object (node s i)) then (JSON_NIL, s)
    else
      let existing := HTFind s i key in
      if negb (existing =? JSON_NIL) then (valIdx (kv s existing), s) else AppendKey i key s.

Definition GetOrCreateStored (i keyOff keyLen : Z) (s : JsonStore) : Z * JsonStore :=
  if i =? JSON_NIL then (JSON_NIL, s)
  else
    let s := become (OBJECT 0 0 None) i s in
    if negb (is_object (node s i)) then (JSON_NIL, s)
    else
      let existing := HTFind s i (str_at s keyOff keyLen) in
      if negb (existing =? JSON_NIL) then (valIdx (kv s existing), s) else link_key i keyOff keyLen s.

Definition Find (i : Z) (key : bytes) (s : JsonStore) : Z :=
  if (i =? JSON_NIL) || negb (is_object (node s i)) then JSON_NIL
  else let ki := HTFind s i key in if ki =? JSON_NIL then JSON_NIL else valIdx (kv s ki).

(** [Set(key, JsonRef v)] within one store: the key names [v]'s node. *)
Definition SetRef (i : Z) (key : bytes) (v : Z) (s : JsonStore) : Z * JsonStore :=
  if (i =? JSON_NIL) || (v =? JSON_NIL) then (JSON_NIL, s)
  else
    let s := become (OBJECT 0 0 None) i s in
    if negb (is_object (node s i)) then (JSON_NIL, s)
    else
      let existing := HTFind s i key in
      if negb (existing =? JSON_NIL) then
        let k := kv s existing in (v, set_kv existing (KV (keyOff k) (keyLen k) v (pad k)) s)
      else
        let '(off, s) := AllocStr (Some key) (Z.of_nat (length key)) s in
        if off =? JSON_NIL then (JSON_NIL, s)
        else
          let '(ki, s) := AllocKV s in
          if ki =? JSON_NIL then (JSON_NIL, s)
          else
            let '(ok, s) := ObjAppendKV i ki (set_kv ki (KV off (Z.of_nat (length key)) v 0) s) in
            (if ok then v else JSON_NIL, s).

(** *** Erasing *)

(** [memmove(list + i, list + i + 1, ...)] at the first entry equal to [ki]. *)
Fixpoint unlist (n : nat) (i count ki : Z) (b : list Z) : list Z :=
  match n with
  | O => b
  | S m =>
      if ObjKVList b i =? ki
      then blit (2 + i) (take (Z.to_nat (count - i - 1)) (drop (Z.to_nat (2 + i + 1)) b)) b
      else unlist m (i + 1) count ki b
  end.

Definition tombstones (b : list Z) (kvCap htCap : Z) : Z :=
  Z.of_nat (length (filter (fun x => x = JSON_TOMB) (take (Z.to_nat htCap) (drop (Z.to_nat (2 + kvCap)) b)))).

Definition EraseKey (i : Z) (key : bytes) (s : JsonStore) : bool * JsonStore :=
  match node s i with
  | OBJECT count kvCap (Some b) =>
      let htCap := ObjHtCap b in
      if htCap =? 0 then (false, s)
      else
        match find_slot s b kvCap key with
        | None => (false, s)
        | Some (h, ki) =>
            let b := set_word (2 + kvCap + h) JSON_TOMB b in
            let b := unlist (Z.to_nat count) 0 count ki b in
            let s := FreeKV ki s in
            let b := if htCap / 4 <? tombstones b kvCap htCap
                     then default b (RebuildHT s (count - 1) (Some b) htCap kvCap) else b in
            (true, set_node i (OBJECT (count - 1) kvCap (Some b)) s)
        end
  | _ => (false, s)
  end.

Definition Erase (i : Z) (key : bytes) (s : JsonStore) : bool * JsonStore :=
  if (i =? JSON_NIL) || negb (is_object (node s i)) then (false, s) else EraseKey i key s.

(** ** Arrays *)

Definition ArrAppend (i elem : Z) (s : JsonStore) : bool * JsonStore :=
  match node s i with
  | ARRAY count cap buf =>
      if cap <=? count then
        let nc := if cap =? 0 then JSON_INIT_CAP else u32 (cap * 2) in
        match realloc_words buf nc with
        | None => (false, s)
        | Some b => (true, set_node i (ARRAY (count + 1) nc (Some (set_word count elem b))) s)
        end
      else (true, set_node i (ARRAY (count + 1) cap (Some (set_word count elem (default [] buf)))) s)
  | _ => (false, s)
  end.

Definition PushBack (i : Z) (s : JsonStore) : Z * JsonStore :=
  if i =? JSON_NIL then (JSON_NIL, s)
  else
    let s := become (ARRAY 0 0 None) i s in
    if negb (is_array (node s i)) then (JSON_NIL, s)
    else
      let '(v, s) := AllocNode s in
      if v =? JSON_NIL then (JSON_NIL, s)
      else let '(ok, s) := ArrAppend i v s in (if ok then v else JSON_NIL, s).

Definition At (i : Z) (n : Z) (s : JsonStore) : Z :=
  if i =? JSON_NIL then JSON_NIL
  else match node s i with
       | ARRAY count _ (Some b) => if count <=? n then JSON_NIL else word b n
       | _ => JSON_NIL
       end.

Definition EraseIndex (i n : Z) (s : JsonStore) : bool * JsonStore :=
  if i =? JSON_NIL then (false, s)
  else match node s i with
       | ARRAY count cap (Some b) =>
           if count <=? n then (false, s)
           else (true, set_node i (ARRAY (count - 1) cap
                   (Some (blit n (take (Z.to_nat (count - n - 1)) (drop (Z.to_nat (n + 1)) b)) b))) s)
       | _ => (false, s)
       end.

(** A node that is no container answers with the low word of its payload, whatever
    that is. *)
Definition Length (i : Z) (s : JsonStore) : option Z :=
  if i =? JSON_NIL then Some 0
  else match node s i with ARRAY count _ _ => Some count | OBJECT count _ _ => Some count | _ => None end.

(** ** Assignment *)

(** The container buffer the node held goes with it. *)
Definition assign (i : Z) (n : JsonNode) (s : JsonStore) : JsonStore := if i =? JSON_NIL then s else set_node i n s.

Definition assign_string (i : Z) (v : bytes) (s : JsonStore) : JsonStore :=
  if i =? JSON_NIL then s
  else
    let '(off, s) := AllocStr (Some v) (Z.of_nat (length v)) s in
    if off =? JSON_NIL then s else set_node i (STR_OWN off (Z.of_nat (length v))) s.

Definition AsString (i : Z) (s : JsonStore) : bytes :=
  if i =? JSON_NIL then []
  else match node s i with STR_VIEW v => v | STR_OWN off len => str_at s off len | _ => [] end.

(** [JsonObject::Init]. *)
Definition Init : option JsonStore :=
  let '(r, s) := AllocNode new_store in
  if r =? JSON_NIL then None else Some (set_node 0 (OBJECT 0 0 None) s).

End store.

(** ** Lists with one element changed *)

Lemma insert_split {A} (l : list A) h x y : l !! h = Some x ->
  exists l1 l2, l = l1 ++ x :: l2 /\ <[h := y]> l = l1 ++ y :: l2 /\ length l1 = h.
Proof.
  intros H. exists (take h l), (drop (S h) l). pose proof (lookup_lt_Some _ _ _ H) as Hl.
  rewrite take_drop_middle by done. split; [done|]. split; [by rewrite insert_take_drop|]. rewrite length_take. lia.
Qed.

Section changed.
Context {A : Type} (P : A -> Prop) `{!forall x, Decision (P x)}.

Lemma filter_gain (l : list A) (h : nat) x y : l !! h = Some x -> ~ P x -> P y -> filter P (<[h := y]> l) ≡ₚ y :: filter P l.
Proof.
  intros Hl Hx Hy. destruct (insert_split l h x y Hl) as (l1 & l2 & -> & -> & _).
  rewrite !filter_app, !filter_cons, (decide_True _ _ Hy), (decide_False _ _ Hx). by rewrite Permutation_middle.
Qed.

Lemma filter_lose (l : list A) (h : nat) x y : l !! h = Some x -> P x -> ~ P y -> x :: filter P (<[h := y]> l) ≡ₚ filter P l.
Proof.
  intros Hl Hx Hy. destruct (insert_split l h x y Hl) as (l1 & l2 & -> & -> & _).
  rewrite !filter_app, !filter_cons, (decide_True _ _ Hx), (decide_False _ _ Hy). by rewrite Permutation_middle.
Qed.

Lemma filter_same (l : list A) (h : nat) x y : l !! h = Some x -> ~ P x -> ~ P y -> filter P (<[h := y]> l) = filter P l.
Proof.
  intros Hl Hx Hy. destruct (insert_split l h x y Hl) as (l1 & l2 & -> & -> & _).
  by rewrite !filter_app, !filter_cons, (decide_False _ _ Hx), (decide_False _ _ Hy).
Qed.

End changed.

(** The least index with a decidable property. *)
Lemma least (P : nat -> Prop) `{!forall n, Decision (P n)} n : P n -> exists m, (m <= n)%nat /\ P m /\ forall k, (k < m)%nat -> ~ P k.
Proof.
  induction n as [n IH] using lt_wf_ind. intros Hn.
  destruct (decide (Exists P (seq 0 n))) as [He|He].
  - apply Exists_exists in He as (k & Hk & HP). apply elem_of_seq in Hk. destruct (IH k ltac:(lia) HP) as (m & Hm & H2).
    exists m. split; [lia|done].
  - exists n. split_and!; [done|done|]. intros k Hk HP. apply He, Exists_exists. exists k. split; [apply elem_of_seq; lia|done].
Qed.

Lemma land_low h k : 0 <= k -> Z.land h (2 ^ k - 1) = h mod 2 ^ k.
Proof. intros Hk. rewrite <- Z.land_ones by done. f_equal. rewrite Z.ones_equiv. lia. Qed.

(** ** The buffer of an object, region by region *)

Definition buf_of (ht pd : Z) (kr sl : list Z) : list Z := ht :: pd :: kr ++ sl.
Definition nth_word (l : list Z) (i : Z) : Z := default 0 (l !! Z.to_nat i).

Lemma lookup2 (x y : Z) l k : (x :: y :: l) !! S (S k) = l !! k.
Proof. done. Qed.

Lemma insert2 (x y v : Z) l k : <[S (S k) := v]> (x :: y :: l) = x :: y :: <[k := v]> l.
Proof. done. Qed.

Section layout.
Context (ht pd : Z) (kr sl : list Z).
Abbreviation n := (Z.of_nat (length kr)).

Lemma word_cap : ObjHtCap (buf_of ht pd kr sl) = ht.
Proof. done. Qed.

Lemma word_list i : 0 <= i < n -> ObjKVList (buf_of ht pd kr sl) i = nth_word kr i.
Proof.
  intros Hi. unfold ObjKVList, word, nth_word, buf_of. replace (Z.to_nat (2 + i)) with (S (S (Z.to_nat i))) by lia.
  rewrite lookup2. by rewrite lookup_app_l by lia.
Qed.

Lemma word_slot h : 0 <= h -> ObjHTSlot (buf_of ht pd kr sl) n h = nth_word sl h.
Proof.
  intros Hh. unfold ObjHTSlot, word, nth_word, buf_of. replace (Z.to_nat (2 + n + h)) with (S (S (length kr + Z.to_nat h))) by lia.
  rewrite lookup2, lookup_app_r by lia. by rewrite Nat.add_comm, Nat.add_sub.
Qed.

Lemma set_header v w : set_word 1 w (set_word 0 v (buf_of ht pd kr sl)) = buf_of v w kr sl.
Proof. done. Qed.

Lemma set_list i v : 0 <= i < n -> set_word (2 + i) v (buf_of ht pd kr sl) = buf_of ht pd (<[Z.to_nat i := v]> kr) sl.
Proof.
  intros Hi. unfold set_word, buf_of. replace (Z.to_nat (2 + i)) with (S (S (Z.to_nat i))) by lia.
  rewrite insert2. by rewrite insert_app_l by lia.
Qed.

Lemma set_slot h v : 0 <= h -> set_word (2 + n + h) v (buf_of ht pd kr sl) = buf_of ht pd kr (<[Z.to_nat h := v]> sl).
Proof.
  intros Hh. unfold set_word, buf_of. replace (Z.to_nat (2 + n + h)) with (S (S (length kr + Z.to_nat h))) by lia.
  rewrite insert2. by rewrite insert_app_r.
Qed.

Lemma blit_slots l : length l = length sl -> blit (2 + n) l (buf_of ht pd kr sl) = buf_of ht pd kr l.
Proof.
  intros Hl. unfold blit, buf_of. replace (Z.to_nat (2 + n)) with (S (S (length kr))) by lia. cbn.
  rewrite take_app_length, drop_ge, app_nil_r; [done|]. rewrite length_app. lia.
Qed.

Lemma slots_of l : drop (Z.to_nat (2 + n)) (buf_of ht pd kr sl ++ l) = sl ++ l.
Proof.
  unfold buf_of. replace (Z.to_nat (2 + n)) with (S (S (length kr))) by lia. cbn. by rewrite <- app_assoc, drop_app_length.
Qed.

End layout.

(** A larger list region, the slots slid behind it. *)
Lemma slide ht pd kr sl extra m :
  0 <= m -> Z.of_nat (length extra) = m ->
  blit (2 + (Z.of_nat (length kr) + m)) sl (buf_of ht pd kr sl ++ extra) =
  buf_of ht pd (kr ++ take (Z.to_nat m) (sl ++ extra)) sl.
Proof.
  intros Hm He. unfold blit, buf_of. replace (Z.to_nat _) with (S (S (length kr + Z.to_nat m))) by lia. cbn.
  rewrite <- (app_assoc kr), take_app_add, drop_ge by (rewrite !length_app; lia). by rewrite app_nil_r, <- app_assoc.
Qed.

(** ** Linear probing *)

Definition live (x : Z) : Prop := x <> JSON_NIL /\ x <> JSON_TOMB.
#[export] Instance live_dec x : Decision (live x).
Proof. unfold live. apply _. Defined.

(** [x] is found from [home]: no empty slot before it. *)
Definition reach (N : Z) (sl : list Z) (home x : Z) : Prop :=
  exists d, 0 <= d < N /\ nth_word sl ((home + d) mod N) = x /\ forall j, 0 <= j < d -> nth_word sl ((home + j) mod N) <> JSON_NIL.

(** A table of [N] slots that holds the key indices [kl]. *)
Record table_ok (key : Z -> bytes) (N : Z) (kl sl : list Z) : Prop := {
  tk_pow : exists k, 3 <= k /\ N = 2 ^ k;
  tk_len : Z.of_nat (length sl) = N;
  tk_live : filter live sl ≡ₚ kl;
  tk_reach : forall x, x ∈ kl -> reach N sl (hash_key (key x) N) x;
  tk_tomb : 4 * Z.of_nat (length (filter (fun x => x = JSON_TOMB) sl)) <= N;
  tk_load : 2 * Z.of_nat (length kl) <= N
}.

Lemma pow_pos N : (exists k, 3 <= k /\ N = 2 ^ k) -> 8 <= N.
Proof. intros (k & Hk & ->). change 8 with (2 ^ 3). apply Z.pow_le_mono_r; lia. Qed.

Lemma pow_mask N h : (exists k, 3 <= k /\ N = 2 ^ k) -> Z.land h (N - 1) = h mod N.
Proof. intros (k & Hk & ->). apply land_low. lia. Qed.

Lemma hash_key_range key N : (exists k, 3 <= k /\ N = 2 ^ k) -> 0 <= hash_key key N < N.
Proof. intros HN. unfold hash_key. rewrite pow_mask by done. apply Z.mod_pos_bound. pose proof (pow_pos N HN). lia. Qed.

Lemma hash_key_mod key N : (exists k, 3 <= k /\ N = 2 ^ k) -> hash_key key N = (hash_key key N + 0) mod N.
Proof. intros HN. rewrite Z.add_0_r, Z.mod_small; [done|by apply hash_key_range]. Qed.

Lemma step_mod N home j : (exists k, 3 <= k /\ N = 2 ^ k) -> Z.land ((home + j) mod N + 1) (N - 1) = (home + (j + 1)) mod N.
Proof.
  intros HN. pose proof (pow_pos N HN). rewrite pow_mask by done. rewrite Zplus_mod_idemp_l. f_equal. lia.
Qed.

(** Every slot is at some distance from [home]. *)
Lemma distance N home h : 0 < N -> 0 <= h < N -> exists d, 0 <= d < N /\ (home + d) mod N = h.
Proof.
  intros HN Hh. exists ((h - home) mod N). split; [by apply Z.mod_pos_bound|].
  rewrite Zplus_mod_idemp_r. replace (home + (h - home)) with h by lia. by apply Z.mod_small.
Qed.

Lemma filter_parts (l : list Z) :
  (JSON_NIL ∉ l) -> length l = (length (filter live l) + length (filter (fun x => x = JSON_TOMB) l))%nat.
Proof.
  induction l as [|x l IH]; [done|]. intros [Hx Hl]%not_elem_of_cons. rewrite !filter_cons, length_cons, (IH Hl).
  destruct (decide (live x)) as [Hv|Hv].
  - rewrite (decide_False (P := x = JSON_TOMB)) by (intros ->; by destruct Hv). cbn. lia.
  - rewrite (decide_True (P := x = JSON_TOMB)).
    + cbn. lia.
    + destruct (decide (x = JSON_TOMB)); [done|]. by destruct Hv.
Qed.

Lemma table_has_nil key N kl sl : table_ok key N kl sl -> exists h, 0 <= h < N /\ nth_word sl h = JSON_NIL.
Proof.
  intros [HN Hl Hv _ Ht Hld]. pose proof (pow_pos N HN). destruct (decide (JSON_NIL ∈ sl)) as [Hin|Hn].
  - apply list_elem_of_lookup in Hin as [h Hh]. exists (Z.of_nat h). pose proof (lookup_lt_Some _ _ _ Hh).
    split; [lia|]. unfold nth_word. by rewrite Nat2Z.id, Hh.
  - pose proof (filter_parts sl Hn) as E. rewrite Hv in E. lia.
Qed.

Lemma nth_word_elem sl h : 0 <= h < Z.of_nat (length sl) -> sl !! Z.to_nat h = Some (nth_word sl h).
Proof. intros Hh. unfold nth_word. destruct (lookup_lt_is_Some_2 sl (Z.to_nat h)) as [x E]; [lia|]. by rewrite E. Qed.

Lemma nth_word_insert sl h v i :
  0 <= h < Z.of_nat (length sl) -> 0 <= i -> nth_word (<[Z.to_nat h := v]> sl) i = if decide (h = i) then v else nth_word sl i.
Proof.
  intros Hh Hi. unfold nth_word. destruct (decide (h = i)) as [<-|Hne].
  - by rewrite list_lookup_insert_eq by lia.
  - by rewrite list_lookup_insert_ne by lia.
Qed.

(** What was found stays found when another slot is filled or tombstoned. *)
Lemma reach_insert N sl home x h v :
  Z.of_nat (length sl) = N -> 0 <= h < N -> v <> JSON_NIL -> nth_word sl h <> x -> 0 < N ->
  reach N sl home x -> reach N (<[Z.to_nat h := v]> sl) home x.
Proof.
  intros Hl Hh Hv Hx HN (d & Hd & E & Hj). exists d. split; [done|]. split.
  - pose proof (Z.mod_pos_bound (home + d) N HN). rewrite nth_word_insert by lia. rewrite decide_False; [done|]. intros ->. congruence.
  - intros j Hjd. pose proof (Z.mod_pos_bound (home + j) N HN). rewrite nth_word_insert by lia. case_decide; [done|by apply Hj].
Qed.

Section probing.
Context (ht pd : Z) (kr : list Z).
Abbreviation n := (Z.of_nat (length kr)).

(** The first slot that is not live. *)
Lemma free_slot_first N sl home d : (exists k, 3 <= k /\ N = 2 ^ k) -> Z.of_nat (length sl) = N ->
  forall fuel j, 0 <= j <= d -> (d - j < Z.of_nat fuel) ->
  (forall m, j <= m < d -> live (nth_word sl ((home + m) mod N))) -> ~ live (nth_word sl ((home + d) mod N)) ->
  free_slot fuel (buf_of ht pd kr sl) n N ((home + j) mod N) = (home + d) mod N.
Proof.
  intros HN Hl. pose proof (pow_pos N HN). induction fuel as [|f IH]; intros j Hj Hf Hlive Hd; [lia|].
  cbn [free_slot]. pose proof (Z.mod_pos_bound (home + j) N ltac:(lia)). rewrite word_slot by lia.
  destruct (decide (j = d)) as [->|Hne].
  - assert (E : negb (nth_word sl ((home + d) mod N) =? JSON_NIL) && negb (nth_word sl ((home + d) mod N) =? JSON_TOMB) = false).
    { destruct (Z.eqb_spec (nth_word sl ((home + d) mod N)) JSON_NIL); [done|].
      destruct (Z.eqb_spec (nth_word sl ((home + d) mod N)) JSON_TOMB); [done|]. by destruct Hd. }
    by rewrite E.
  - destruct (Hlive j ltac:(lia)) as [H1 H2]. rewrite (proj2 (Z.eqb_neq _ _) H1), (proj2 (Z.eqb_neq _ _) H2). cbn [negb andb].
    rewrite step_mod by done. apply IH; [lia|lia| |done]. intros m Hm. apply Hlive. lia.
Qed.

Lemma insert_slot_ok (s : JsonStore) N kl sl x :
  table_ok (fun k => key_of s (kv s k)) N kl sl -> live x -> x ∉ kl -> 2 * (Z.of_nat (length kl) + 1) <= N ->
  exists sl', insert_slot s n N x (buf_of ht pd kr sl) = buf_of ht pd kr sl' /\
    table_ok (fun k => key_of s (kv s k)) N (kl ++ [x]) sl'.
Proof.
  intros T Hx Hnin Hld. pose proof T as [HN Hl Hv Hr Ht _]. pose proof (pow_pos N HN).
  set (home := hash_key (key_of s (kv s x)) N).
  destruct (table_has_nil _ _ _ _ T) as (h0 & Hh0 & E0). destruct (distance N home h0 ltac:(lia) Hh0) as (d0 & Hd0 & Ed0).
  destruct (least (fun m => ~ live (nth_word sl ((home + Z.of_nat m) mod N))) (Z.to_nat d0)) as (m & Hm & Hfree & Hbefore).
  { rewrite Z2Nat.id, Ed0, E0 by lia. by intros []. }
  set (h := (home + Z.of_nat m) mod N). assert (Hh : 0 <= h < N) by (apply Z.mod_pos_bound; lia).
  assert (Efree : free_slot (Z.to_nat N) (buf_of ht pd kr sl) n N home = h).
  { unfold home at 1. rewrite hash_key_mod by done. apply free_slot_first; [done|done|lia|lia| |done].
    intros j Hj. destruct (decide (live (nth_word sl ((home + j) mod N)))) as [|Hn]; [done|].
    destruct (Hbefore (Z.to_nat j)); [lia|]. by rewrite Z2Nat.id by lia. }
  exists (<[Z.to_nat h := x]> sl). split; [unfold insert_slot; fold home; by rewrite Efree, set_slot by lia|].
  assert (Ex : sl !! Z.to_nat h = Some (nth_word sl h)) by (apply nth_word_elem; lia).
  split; [done|by rewrite length_insert| | | |rewrite length_app; cbn; lia].
  - rewrite (filter_gain live sl (Z.to_nat h) _ x Ex Hfree Hx), Hv. by rewrite Permutation_app_comm.
  - intros y [Hy|Hy%list_elem_of_singleton]%elem_of_app.
    + apply reach_insert; [done|done|apply Hx| |lia|by apply Hr]. intros E. apply Hfree. fold h. rewrite E.
      rewrite <- Hv in Hy. by apply list_elem_of_filter in Hy as [Hy _].
    + subst y. exists (Z.of_nat m). fold home. split; [lia|]. fold h. split; [rewrite nth_word_insert by lia; by rewrite decide_True|].
      intros j Hj. pose proof (Z.mod_pos_bound (home + j) N ltac:(lia)). rewrite nth_word_insert by lia. case_decide; [apply Hx|].
      intros E. apply (Hbefore (Z.to_nat j)); [lia|]. rewrite Z2Nat.id by lia. rewrite E. by intros [].
  - destruct (decide (nth_word sl h = JSON_TOMB)) as [Et|Et].
    + pose proof (filter_lose (fun x => x = JSON_TOMB) sl (Z.to_nat h) _ x Ex Et (proj2 Hx)) as HP.
      apply Permutation_length in HP. cbn in HP. lia.
    + rewrite (filter_same (fun x => x = JSON_TOMB) sl (Z.to_nat h) _ x Ex Et (proj2 Hx)). lia.
Qed.

Lemma reinsert_ok (s : JsonStore) N : (exists k, 3 <= k /\ N = 2 ^ k) -> forall m i kl sl,
  table_ok (fun k => key_of s (kv s k)) N kl sl -> kl = take i kr -> (i + m <= length kr)%nat ->
  NoDup (take (i + m) kr) -> Forall live (take (i + m) kr) -> 2 * Z.of_nat (i + m) <= N ->
  exists sl', reinsert m (Z.of_nat i) s n N (buf_of ht pd kr sl) = buf_of ht pd kr sl' /\
    table_ok (fun k => key_of s (kv s k)) N (take (i + m) kr) sl'.
Proof.
  intros HN. induction m as [|m IH]; intros i kl sl T Hkl Hlen Hnd Hlive Hld.
  - exists sl. rewrite Nat.add_0_r. cbn. split; [done|]. by rewrite <- Hkl.
  - cbn [reinsert]. destruct (lookup_lt_is_Some_2 kr i) as [x Ex]; [lia|].
    rewrite word_list by lia. unfold nth_word. rewrite Nat2Z.id, Ex. change (default 0 (Some x)) with x.
    assert (Etk : take (S i) kr = take i kr ++ [x]) by by apply take_S_r.
    assert (Epre : take (i + S m) kr = take (S i) kr ++ take m (drop (S i) kr))
      by (rewrite <- (take_drop (S i) kr) at 1; rewrite take_app_ge by (rewrite length_take; lia); f_equal; f_equal; rewrite length_take; lia).
    pose proof Hnd as Hnd'. pose proof Hlive as Hlive'.
    rewrite Epre, Etk in Hnd', Hlive'. apply NoDup_app in Hnd' as (Hnd' & _ & _). apply NoDup_app in Hnd' as (_ & Hd & _).
    apply Forall_app in Hlive' as [Hlive' _]. apply Forall_app in Hlive' as [_ Hx]. apply Forall_inv in Hx.
    destruct (insert_slot_ok s N kl sl x T Hx) as (sl' & -> & T').
    + rewrite Hkl. intros Hin. apply (Hd x Hin), list_elem_of_here.
    + rewrite Hkl, length_take. lia.
    + replace (Z.of_nat i + 1) with (Z.of_nat (S i)) by lia. replace (i + S m)%nat with (S i + m)%nat by lia.
      apply (IH (S i) (kl ++ [x])); [done|by rewrite Hkl|lia| | |lia].
      all: replace (S i + m)%nat with (i + S m)%nat by lia; done.
Qed.

End probing.

(** ** Objects *)

Definition kv_ok (s : JsonStore) (x : Z) : Prop :=
  0 <= x < kvLen s /\ x < JSON_TOMB /\ 0 <= valIdx (kv s x) < nodeLen s /\
  0 <= keyOff (kv s x) /\ 0 <= keyLen (kv s x) /\ keyOff (kv s x) + keyLen (kv s x) <= strLen s.

Definition key (s : JsonStore) (x : Z) : bytes := key_of s (kv s x).

Definition table (s : JsonStore) (count kvCap : Z) (buf : option (list Z)) (kl : list Z) : Prop :=
  match buf with
  | None => count = 0 /\ kvCap = 0 /\ kl = []
  | Some b =>
      exists N pd kr sl, b = buf_of N pd kr sl /\ kvCap = Z.of_nat (length kr) /\ kvCap <= 2 ^ 29 /\ N <= 2 ^ 30 /\
        0 <= count <= kvCap /\ kl = take (Z.to_nat count) kr /\ table_ok (key s) N kl sl
  end.

(** The keys of an object, in order of insertion. *)
Record obj_ok (s : JsonStore) (count kvCap : Z) (buf : option (list Z)) (kl : list Z) : Prop := {
  ok_table : table s count kvCap buf kl;
  ok_kvs : Forall (kv_ok s) kl;
  ok_keys : NoDup (key s <$> kl)
}.

(** What an object stands for: its keys with the nodes they name. *)
Definition entries (s : JsonStore) (kl : list Z) : list (bytes * Z) := (fun x => (key s x, valIdx (kv s x))) <$> kl.

Lemma kv_ok_live s x : kv_ok s x -> live x.
Proof. intros (H1 & H2 & _). unfold live, JSON_NIL, JSON_TOMB in *. lia. Qed.

Lemma key_length s x : kv_ok s x -> Z.of_nat (length (key s x)) = keyLen (kv s x).
Proof.
  intros (_ & _ & _ & H1 & H2 & H3). unfold key, key_of, str_at, strLen in *. rewrite length_take, length_drop. lia.
Qed.

Lemma table_count s count kvCap buf kl : table s count kvCap buf kl -> count = Z.of_nat (length kl).
Proof.
  destruct buf as [b|]; [|by intros (-> & _ & ->)]. intros (N & pd & kr & sl & _ & -> & _ & _ & Hc & -> & _).
  rewrite length_take. lia.
Qed.

Lemma keys_nodup s kl : NoDup (key s <$> kl) -> NoDup kl.
Proof. apply NoDup_fmap_1. Qed.

Definition hit (s : JsonStore) (k : bytes) (x : Z) : bool :=
  if x =? JSON_TOMB then false else (keyLen (kv s x) =? Z.of_nat (length k)) && bool_decide (key s x = k).

Lemma hit_spec s k x : kv_ok s x -> hit s k x = bool_decide (key s x = k).
Proof.
  intros Hx. unfold hit. destruct (kv_ok_live s x Hx) as [_ H2]. rewrite (proj2 (Z.eqb_neq _ _) H2).
  rewrite <- (key_length s x Hx). case_bool_decide as E; [|apply andb_false_r]. by rewrite E, Z.eqb_refl.
Qed.

Lemma find_first s k ht pd kr sl N home d : (exists k, 3 <= k /\ N = 2 ^ k) -> Z.of_nat (length sl) = N ->
  forall fuel j, 0 <= j <= d -> (d - j < Z.of_nat fuel) ->
  (forall m, j <= m < d -> nth_word sl ((home + m) mod N) <> JSON_NIL /\ hit s k (nth_word sl ((home + m) mod N)) = false) ->
  nth_word sl ((home + d) mod N) = JSON_NIL \/ hit s k (nth_word sl ((home + d) mod N)) = true ->
  find_loop fuel s (buf_of ht pd kr sl) (Z.of_nat (length kr)) N k ((home + j) mod N) =
    let x := nth_word sl ((home + d) mod N) in if x =? JSON_NIL then None else Some ((home + d) mod N, x).
Proof.
  intros HN Hl. pose proof (pow_pos N HN). induction fuel as [|f IH]; intros j Hj Hf Hpath Hd; [lia|].
  cbn [find_loop]. cbv zeta. pose proof (Z.mod_pos_bound (home + j) N ltac:(lia)). rewrite word_slot by lia.
  fold (key s (nth_word sl ((home + j) mod N))). fold (hit s k (nth_word sl ((home + j) mod N))).
  destruct (decide (j = d)) as [->|Hne].
  - destruct (Z.eqb_spec (nth_word sl ((home + d) mod N)) JSON_NIL); [done|]. destruct Hd as [Hd|Hd]; [done|]. by rewrite Hd.
  - destruct (Hpath j ltac:(lia)) as [H1 H2]. rewrite (proj2 (Z.eqb_neq _ _) H1), H2, step_mod by done.
    apply IH; [lia|lia| |done]. intros m Hm. apply Hpath. lia.
Qed.

Section finding.
Context (s : JsonStore) (N pd : Z) (kr sl kl : list Z).
Context (T : table_ok (key s) N kl sl) (Hkv : Forall (kv_ok s) kl) (Hnd : NoDup (key s <$> kl)).
Abbreviation b := (buf_of N pd kr sl).
Abbreviation n := (Z.of_nat (length kr)).

Lemma live_in h : 0 <= h < N -> live (nth_word sl h) -> nth_word sl h ∈ kl.
Proof.
  destruct T as [_ Hl Hv _ _ _]. intros Hh Hx. rewrite <- Hv. apply list_elem_of_filter. split; [done|].
  apply (list_elem_of_lookup_2 _ (Z.to_nat h)), nth_word_elem. lia.
Qed.

Lemma find_slot_hit x : x ∈ kl -> exists h, find_slot s b n (key s x) = Some (h, x) /\ 0 <= h < N /\ nth_word sl h = x.
Proof.
  intros Hx. pose proof T as [HN Hl Hv Hr _ _]. pose proof (pow_pos N HN).
  rewrite Forall_forall in Hkv. pose proof (Hkv x Hx) as Hxk. set (home := hash_key (key s x) N).
  destruct (Hr x Hx) as (d & Hd & Ed & Hpath). fold home in Ed, Hpath.
  destruct (least (fun m => nth_word sl ((home + Z.of_nat m) mod N) = JSON_NIL \/ hit s (key s x) (nth_word sl ((home + Z.of_nat m) mod N)) = true) (Z.to_nat d))
    as (m & Hm & Hfound & Hbefore).
  { rewrite Z2Nat.id, Ed by lia. right. rewrite hit_spec by done. by apply bool_decide_eq_true. }
  set (h := (home + Z.of_nat m) mod N) in *. assert (Hh : 0 <= h < N) by (apply Z.mod_pos_bound; lia).
  assert (Hnil : nth_word sl h <> JSON_NIL).
  { destruct (decide (Z.of_nat m = d)) as [E|E]; [|apply Hpath; lia]. unfold h. rewrite E, Ed. apply (kv_ok_live s x Hxk). }
  destruct Hfound as [|Hhit]; [done|].
  assert (Hy : nth_word sl h ∈ kl).
  { apply live_in; [done|]. split; [done|]. intros E. unfold hit in Hhit. by rewrite E in Hhit. }
  rewrite hit_spec in Hhit by by apply Hkv. apply bool_decide_eq_true in Hhit.
  assert (Exy : nth_word sl h = x).
  { apply list_elem_of_lookup in Hx as [ix Hix]. apply list_elem_of_lookup in Hy as [iy Hiy].
    assert (iy = ix) as -> by (apply (NoDup_lookup (key s <$> kl) iy ix (key s x)); [done|by rewrite list_lookup_fmap, Hiy; cbn; rewrite Hhit|by rewrite list_lookup_fmap, Hix]).
    congruence. }
  exists h. split; [|done]. unfold find_slot. rewrite word_cap. fold home. unfold home at 1. rewrite hash_key_mod by done. fold home.
  rewrite (find_first s (key s x) N pd kr sl N home (Z.of_nat m)); [|done|done|lia|lia| |].
  - fold h. cbv zeta. by rewrite (proj2 (Z.eqb_neq _ _) Hnil), Exy.
  - intros j Hj. specialize (Hbefore (Z.to_nat j) ltac:(lia)). rewrite Z2Nat.id in Hbefore by lia.
    apply Decidable.not_or in Hbefore as [H1 H2]. split; [done|]. by apply not_true_is_false.
  - fold h. right. rewrite hit_spec by (by apply Hkv; rewrite Exy). by apply bool_decide_eq_true.
Qed.

Lemma find_slot_miss k : k ∉ (key s <$> kl) -> find_slot s b n k = None.
Proof.
  intros Hk. pose proof T as [HN Hl Hv Hr _ _]. pose proof (pow_pos N HN). rewrite Forall_forall in Hkv. set (home := hash_key k N).
  assert (Hno : forall h, 0 <= h < N -> nth_word sl h <> JSON_NIL -> hit s k (nth_word sl h) = false).
  { intros h Hh Hn. destruct (decide (nth_word sl h = JSON_TOMB)) as [E|E]; [unfold hit; by rewrite E|].
    assert (Hin : nth_word sl h ∈ kl) by by apply live_in. rewrite hit_spec by by apply Hkv.
    apply bool_decide_eq_false. intros E2. apply Hk. rewrite <- E2. by apply list_elem_of_fmap_2. }
  destruct (table_has_nil _ _ _ _ T) as (h0 & Hh0 & E0). destruct (distance N home h0 ltac:(lia) Hh0) as (d0 & Hd0 & Ed0).
  destruct (least (fun m => nth_word sl ((home + Z.of_nat m) mod N) = JSON_NIL) (Z.to_nat d0)) as (m & Hm & Hfound & Hbefore).
  { by rewrite Z2Nat.id, Ed0 by lia. }
  unfold find_slot. rewrite word_cap. fold home. unfold home at 1. rewrite hash_key_mod by done. fold home.
  rewrite (find_first s k N pd kr sl N home (Z.of_nat m)); [|done|done|lia|lia| |by left].
  - cbv zeta. by rewrite Hfound.
  - intros j Hj. specialize (Hbefore (Z.to_nat j) ltac:(lia)). rewrite Z2Nat.id in Hbefore by lia.
    split; [done|]. apply Hno; [apply Z.mod_pos_bound; lia|done].
Qed.

End finding.

(** ** Growing *)

Section growing.
Context (Alloc_ok : Z -> bool) (junk : Z) (mem : forall n, Alloc_ok n = true).

Lemma realloc_ok buf total : realloc_words Alloc_ok junk buf total = Some (resize (Z.to_nat total) junk (default [] buf)).
Proof. unfold realloc_words. by rewrite mem. Qed.

Lemma resize_prefix (l r : list Z) m : (length l <= m)%nat -> exists e, resize m junk (l ++ r) = l ++ e /\ length e = (m - length l)%nat.
Proof.
  intros Hm. rewrite resize_spec, take_app_ge by done. eexists. rewrite <- app_assoc. split; [reflexivity|].
  rewrite !length_app, length_take, length_replicate. lia.
Qed.

Lemma table_empty k N : (exists e, 3 <= e /\ N = 2 ^ e) -> table_ok k N [] (replicate (Z.to_nat N) JSON_NIL).
Proof.
  intros HN. pose proof (pow_pos N HN).
  assert (Hf : forall (P : Z -> Prop) `{!forall x, Decision (P x)} m, ~ P JSON_NIL -> filter P (replicate m JSON_NIL) = []).
  { intros P ? m HP. induction m as [|m IH]; [done|]. cbn [replicate]. by rewrite filter_cons, decide_False. }
  split; [done|rewrite length_replicate; lia| |by intros x Hx%elem_of_nil| |cbn; lia].
  - rewrite Hf; [done|]. by intros [].
  - rewrite Hf by done. cbn. lia.
Qed.

Lemma RebuildHT_ok s count buf kr newHt newKv :
  (exists N pd sl, buf = Some (buf_of N pd kr sl)) \/ (buf = None /\ kr = [] /\ count = 0) ->
  Z.of_nat (length kr) <= newKv <= 2 ^ 29 -> newHt <= 2 ^ 30 -> (exists e, 3 <= e /\ newHt = 2 ^ e) ->
  0 <= count <= Z.of_nat (length kr) -> 2 * count <= newHt ->
  NoDup (take (Z.to_nat count) kr) -> Forall live (take (Z.to_nat count) kr) ->
  exists kr' sl', RebuildHT Alloc_ok junk s count buf newHt newKv = Some (buf_of newHt 0 kr' sl') /\
    Z.of_nat (length kr') = newKv /\ take (Z.to_nat count) kr' = take (Z.to_nat count) kr /\
    table_ok (key s) newHt (take (Z.to_nat count) kr) sl'.
Proof.
  intros Hbuf Hkv Hht HN Hc Hld Hnd Hlive. pose proof (pow_pos newHt HN).
  assert (Hb : exists ht pd kr' sl0, resize (Z.to_nat (ObjBufSize newKv newHt)) junk (default [] buf) = buf_of ht pd kr' sl0 /\
            Z.of_nat (length kr') = newKv /\ take (Z.to_nat count) kr' = take (Z.to_nat count) kr /\ Z.of_nat (length sl0) = newHt).
  { unfold ObjBufSize. rewrite wrap_small by lia. destruct Hbuf as [(N & pd & sl & ->)|(-> & -> & ->)].
    - change (default [] (Some (buf_of N pd kr sl))) with (N :: pd :: kr ++ sl). destruct (resize_prefix (N :: pd :: kr) sl (Z.to_nat (2 + newKv + newHt))) as (e & E & He); [cbn; lia|].
      cbn [length] in He. exists N, pd, (kr ++ take (Z.to_nat newKv - length kr) e), (drop (Z.to_nat newKv - length kr) e).
      split_and!; [unfold buf_of; cbn [app] in E; rewrite E; cbn [app]; by rewrite <- app_assoc, take_drop| | |rewrite length_drop; lia].
      + rewrite length_app, length_take. lia.
      + rewrite take_app_le by lia. done.
    - change (default [] None) with (@nil Z). rewrite resize_nil. exists junk, junk, (replicate (Z.to_nat newKv) junk), (replicate (Z.to_nat newHt) junk).
      split_and!; [|by rewrite length_replicate; lia|done|rewrite length_replicate; lia].
      replace (Z.to_nat (2 + newKv + newHt)) with (S (S (Z.to_nat newKv + Z.to_nat newHt))) by lia. cbn. by rewrite replicate_add. }
  destruct Hb as (ht & pd & kr' & sl0 & Er & Hlen & Etk & Hsl). unfold RebuildHT. rewrite realloc_ok, Er. cbv beta iota zeta. rewrite set_header.
  replace (2 + newKv) with (2 + Z.of_nat (length kr')) by lia. rewrite blit_slots by (rewrite length_replicate; lia).
  destruct (reinsert_ok newHt 0 kr' s newHt HN (Z.to_nat count) 0 [] (replicate (Z.to_nat newHt) JSON_NIL)) as (sl' & E & T).
  - by apply table_empty.
  - done.
  - lia.
  - cbn [Nat.add]. by rewrite Etk.
  - cbn [Nat.add]. by rewrite Etk.
  - lia.
  - exists kr', sl'. rewrite Hlen in E. change (Z.of_nat 0) with 0 in E. cbn [Nat.add] in T. rewrite E, <- Etk. done.
Qed.

(** The list region doubles, the slots follow it. *)
Lemma GrowKVCap_ok N pd kr sl :
  Z.of_nat (length sl) = N -> N <= 2 ^ 30 -> Z.of_nat (length kr) <= 2 ^ 28 ->
  exists kr', GrowKVCap Alloc_ok junk (Z.of_nat (length kr)) (Some (buf_of N pd kr sl)) =
      Some (Z.of_nat (length kr'), buf_of N 0 kr' sl) /\
    (length kr < length kr')%nat /\ Z.of_nat (length kr') <= 2 ^ 29 /\ take (length kr) kr' = kr.
Proof.
  intros Hsl HN Hkr. unfold GrowKVCap. rewrite word_cap. set (n := Z.of_nat (length kr)).
  set (nk := if n =? 0 then JSON_INIT_CAP else u32 (n * 2)).
  assert (Hnk : n < nk <= 2 ^ 29).
  { unfold nk, n. destruct (Z.eqb_spec (Z.of_nat (length kr)) 0); [unfold JSON_INIT_CAP; lia|]. rewrite wrap_small by lia. lia. }
  set (m := nk - n). cbv zeta. rewrite realloc_ok. unfold ObjBufSize. rewrite wrap_small by lia.
  change (default [] (Some (buf_of N pd kr sl))) with (buf_of N pd kr sl).
  destruct (resize_prefix (buf_of N pd kr sl) [] (Z.to_nat (2 + nk + N))) as (e & E & He); [unfold buf_of; cbn; rewrite length_app; lia|].
  rewrite app_nil_r in E. rewrite E.
  assert (Hel : Z.of_nat (length e) = m) by (rewrite He; unfold buf_of; cbn; rewrite length_app; lia).
  assert (Hne : negb (nk =? n) = true) by (apply negb_true_iff, Z.eqb_neq; lia). rewrite Hne, andb_true_r.
  assert (Hdr : drop (Z.to_nat (2 + n)) (buf_of N pd kr sl ++ e) = sl ++ e) by apply slots_of. rewrite Hdr.
  destruct (Z.eqb_spec N 0) as [E0|E0]; cbn [negb].
  - assert (sl = []) as -> by (destruct sl; [done|cbn in Hsl; lia]). exists (kr ++ e).
    assert (Hle : Z.of_nat (length (kr ++ e)) = nk) by (rewrite length_app; lia). rewrite Hle. split_and!; [|lia|lia|apply take_app_length].
    unfold buf_of. cbn. by rewrite E0, !app_nil_r.
  - replace (Z.to_nat N) with (length sl) by lia. rewrite take_app_length. replace (2 + nk) with (2 + (Z.of_nat (length kr) + m)) by lia.
    rewrite slide by lia. rewrite set_header.
    assert (Hx : Z.of_nat (length (take (Z.to_nat m) (sl ++ e))) = m) by (rewrite length_take, length_app; lia).
    exists (kr ++ take (Z.to_nat m) (sl ++ e)).
    assert (Hle : Z.of_nat (length (kr ++ take (Z.to_nat m) (sl ++ e))) = nk) by (rewrite length_app; lia). rewrite Hle.
    split_and!; [done|lia|lia|apply take_app_length].
Qed.

Lemma GrowKVCap_none :
  exists kr', GrowKVCap Alloc_ok junk 0 None = Some (Z.of_nat (length kr'), buf_of 0 0 kr' []) /\ length kr' = 8%nat.
Proof.
  unfold GrowKVCap. rewrite realloc_ok. change (default [] None) with (@nil Z). cbn [Z.eqb negb andb]. exists (replicate 8 junk). split; [|done].
  rewrite resize_nil. reflexivity.
Qed.

Lemma bit_ceil_ok x : 0 < x -> exists e, 0 <= e /\ bit_ceil x = 2 ^ e /\ x <= 2 ^ e < 2 * x \/ x = 1.
Proof.
  intros Hx. destruct (decide (x = 1)) as [->|]; [by exists 0; right|]. exists (Z.log2_up x). left. split; [apply Z.log2_up_nonneg|]. split; [done|].
  pose proof (Z.log2_up_spec x ltac:(lia)) as [H1 H2]. split; [done|]. rewrite <- Z.sub_1_r in H1.
  pose proof (Z.log2_up_pos x ltac:(lia)). rewrite Z.pow_sub_r in H1 by lia. change (2 ^ 1) with 2 in H1.
  assert (2 ^ Z.log2_up x = 2 * (2 ^ Z.log2_up x / 2)); [|lia].
  replace (Z.log2_up x) with (1 + (Z.log2_up x - 1)) by lia. rewrite Z.pow_add_r by lia. change (2 ^ 1) with 2. rewrite Z.mul_comm at 2.
  rewrite Z.div_mul by lia. done.
Qed.

Lemma ObjHtCapFor_ok count : 1 <= count <= 2 ^ 28 ->
  (exists e, 3 <= e /\ ObjHtCapFor count = 2 ^ e) /\ 2 * count <= ObjHtCapFor count <= 2 ^ 30.
Proof.
  intros Hc. unfold ObjHtCapFor. rewrite wrap_small by lia. destruct (bit_ceil_ok (count * 2)) as (e & [(He & -> & Hb)|]); [lia| |lia].
  destruct (Z.ltb_spec (2 ^ e) 8) as [Hlt|Hge].
  - split; [by exists 3|]. lia.
  - split; [|lia]. exists e. split; [|done]. change 8 with (2 ^ 3) in Hge. apply Z.pow_le_mono_r_iff in Hge; lia.
Qed.

End growing.

(** ** Well-formed stores *)

Definition keys_of (n : JsonNode) : list Z :=
  match n with OBJECT count _ (Some b) => map (ObjKVList b) (seqZ 0 count) | _ => [] end.
Definition elems_of (n : JsonNode) : list Z :=
  match n with ARRAY count _ (Some b) => take (Z.to_nat count) b | _ => [] end.

Definition node_ok (s : JsonStore) (n : JsonNode) : Prop :=
  match n with
  | OBJECT count kvCap buf => obj_ok s count kvCap buf (keys_of n)
  | ARRAY count cap None => count = 0 /\ cap = 0
  | ARRAY count cap (Some b) =>
      Z.of_nat (length b) = cap /\ 0 <= count <= cap /\ Forall (fun x => 0 <= x < nodeLen s) (elems_of n) /\ NoDup (elems_of n)
  | STR_OWN off len => 0 <= off /\ 0 <= len /\ off + len <= strLen s
  | _ => True
  end.

(** The free list of keys. *)
Fixpoint chain (s : JsonStore) (head : Z) (fl : list Z) : Prop :=
  match fl with
  | [] => head = JSON_NIL
  | x :: r => head = x /\ 0 <= x < kvLen s /\ chain s (pad (kv s x)) r
  end.

Definition owned (s : JsonStore) : list Z := concat (keys_of <$> nodes s).

Record store_ok (s : JsonStore) (fl : list Z) : Prop := {
  so_nodes : Forall (node_ok s) (nodes s);
  so_free : chain s (kvFree s) fl;
  so_owned : NoDup (owned s ++ fl);
  so_small : nodeLen s <= 2 ^ 28 /\ kvLen s <= 2 ^ 28 /\ strLen s <= 2 ^ 30;
  so_caps : nodeLen s <= nodeCap s /\ kvLen s <= kvCap_ s /\ strLen s <= strCap s
}.

(** What a node stands for. *)
Inductive nview :=
| VScalar (n : JsonNode)
| VString (v : bytes)
| VArray (elems : list Z)
| VObject (members : list (bytes * Z)).

Definition view_node (s : JsonStore) (n : JsonNode) : nview :=
  match n with
  | STR_VIEW v => VString v
  | STR_OWN off len => VString (str_at s off len)
  | ARRAY _ _ _ => VArray (elems_of n)
  | OBJECT _ _ _ => VObject (entries s (keys_of n))
  | _ => VScalar n
  end.
Definition view (s : JsonStore) (i : Z) : nview := view_node s (node s i).

(** [s'] keeps what [s] has: the text, the keys in use and the nodes but [i]. *)
Record extends (i : Z) (s s' : JsonStore) : Prop := {
  ex_nodes : forall j, 0 <= j < nodeLen s -> j <> i -> node s' j = node s j;
  ex_len : nodeLen s <= nodeLen s';
  ex_strs : exists t, strs s' = strs s ++ t;
  ex_kvs : forall x, x ∈ owned s -> x ∉ keys_of (node s i) -> kv s' x = kv s x
}.

Lemma keys_of_buf count kvCap N pd kr sl :
  0 <= count <= Z.of_nat (length kr) -> keys_of (OBJECT count kvCap (Some (buf_of N pd kr sl))) = take (Z.to_nat count) kr.
Proof.
  intros Hc. apply list_eq. intros j. cbn [keys_of]. rewrite list_lookup_fmap.
  destruct (decide (j < Z.to_nat count)%nat) as [Hj|Hj].
  - rewrite lookup_seqZ_lt by lia. cbn. rewrite Z.add_0_l, word_list by lia. rewrite lookup_take_lt by lia.
    unfold nth_word. rewrite Nat2Z.id. destruct (lookup_lt_is_Some_2 kr j) as [x ->]; [lia|done].
  - rewrite lookup_seqZ_ge by lia. by rewrite lookup_take_ge by lia.
Qed.

Lemma keys_of_table s count kvCap buf kl : table s count kvCap buf kl -> keys_of (OBJECT count kvCap buf) = kl.
Proof.
  destruct buf as [b|]; [|by intros (-> & _ & ->)]. intros (N & pd & kr & sl & -> & -> & _ & _ & Hc & -> & _).
  by apply keys_of_buf.
Qed.

Lemma str_at_app s s' off len : (exists t, strs s' = strs s ++ t) -> 0 <= off -> 0 <= len -> off + len <= strLen s ->
  str_at s' off len = str_at s off len.
Proof.
  intros [t E] H1 H2 H3. unfold str_at, strLen in *. rewrite E, drop_app_le, take_app_le; [done|rewrite length_drop; lia|lia].
Qed.

(** A node reads the store through its text, its keys and the number of nodes. *)
Lemma kv_ok_ext s s' x : nodeLen s <= nodeLen s' -> kvLen s <= kvLen s' -> (exists t, strs s' = strs s ++ t) -> kv s' x = kv s x ->
  kv_ok s x -> kv_ok s' x /\ key s' x = key s x.
Proof.
  intros Hn Hk Ht E (H1 & H2 & H3 & H4 & H5 & H6). pose proof Ht as [t Et]. unfold kv_ok, key, key_of. rewrite E. split.
  - unfold strLen in *. rewrite Et, length_app. lia.
  - by apply str_at_app.
Qed.

Lemma keys_ext s s' kl : nodeLen s <= nodeLen s' -> kvLen s <= kvLen s' -> (exists t, strs s' = strs s ++ t) ->
  (forall x, x ∈ kl -> kv s' x = kv s x) -> Forall (kv_ok s) kl ->
  Forall (kv_ok s') kl /\ (forall x, x ∈ kl -> key s' x = key s x) /\ entries s' kl = entries s kl.
Proof.
  intros Hn Hk Ht E HF. rewrite Forall_forall in HF. split_and!.
  - apply Forall_forall. intros x Hx. by apply (kv_ok_ext s s' x Hn Hk Ht (E x Hx) (HF x Hx)).
  - intros x Hx. by apply (kv_ok_ext s s' x Hn Hk Ht (E x Hx) (HF x Hx)).
  - apply map_ext_in. intros x Hx%list_elem_of_In. destruct (kv_ok_ext s s' x Hn Hk Ht (E x Hx) (HF x Hx)) as [_ ->]. by rewrite E.
Qed.

Lemma table_ok_ext k k' N kl sl : (forall x, x ∈ kl -> k' x = k x) -> table_ok k N kl sl -> table_ok k' N kl sl.
Proof. intros E [H1 H2 H3 H4 H5 H6]. split; try done. intros x Hx. rewrite E by done. by apply H4. Qed.

Lemma table_ext s s' count kvCap buf kl : (forall x, x ∈ kl -> key s' x = key s x) -> table s count kvCap buf kl -> table s' count kvCap buf kl.
Proof.
  intros E. destruct buf as [b|]; [|done]. intros (N & pd & kr & sl & ? & ? & ? & ? & ? & ? & T).
  exists N, pd, kr, sl. pose proof (table_ok_ext (key s) (key s') N kl sl E T). tauto.
Qed.

Lemma obj_ok_ext s s' count kvCap buf kl : nodeLen s <= nodeLen s' -> kvLen s <= kvLen s' -> (exists t, strs s' = strs s ++ t) ->
  (forall x, x ∈ kl -> kv s' x = kv s x) -> obj_ok s count kvCap buf kl -> obj_ok s' count kvCap buf kl.
Proof.
  intros Hn Hk Ht E [T HF Hnd]. destruct (keys_ext s s' kl Hn Hk Ht E HF) as (HF' & Hkey & _). split; [by eapply table_ext|done|].
  replace (key s' <$> kl) with (key s <$> kl); [done|]. apply map_ext_in. intros x Hx%list_elem_of_In. by rewrite Hkey.
Qed.

Lemma node_ok_ext s s' n : nodeLen s <= nodeLen s' -> kvLen s <= kvLen s' -> (exists t, strs s' = strs s ++ t) ->
  (forall x, x ∈ keys_of n -> kv s' x = kv s x) -> node_ok s n -> node_ok s' n /\ view_node s' n = view_node s n.
Proof.
  intros Hn Hk Ht E. destruct n as [| | | | | |off len|count cap [b|]|count kvCap buf]; try done; cbn [node_ok view_node].
  - intros (H1 & H2 & H3). pose proof Ht as [t Et]. split; [unfold strLen in *; rewrite Et, length_app; lia|].
    by rewrite (str_at_app s s').
  - intros (H1 & H2 & H3 & H4). split; [|done]. split_and!; [done|lia|lia| |done]. eapply Forall_impl; [exact H3|]. cbn. lia.
  - intros Hok. split; [by apply (obj_ok_ext s s')|]. destruct Hok as [_ HF _]. by rewrite (proj2 (proj2 (keys_ext s s' _ Hn Hk Ht E HF))).
Qed.

(** ** Allocation *)

Lemma node_lookup s i : 0 <= i < nodeLen s -> nodes s !! Z.to_nat i = Some (node s i).
Proof. intros Hi. unfold node. destruct (lookup_lt_is_Some_2 (nodes s) (Z.to_nat i)) as [n E]; [unfold nodeLen in Hi; lia|]. by rewrite E. Qed.

Lemma node_set_node s i n j : 0 <= i < nodeLen s -> 0 <= j -> node (set_node i n s) j = if decide (i = j) then n else node s j.
Proof.
  intros Hi Hj. unfold node, set_node. cbn [nodes set_nodes]. unfold nodeLen in Hi. destruct (decide (i = j)) as [<-|Hne].
  - by rewrite list_lookup_insert_eq by lia.
  - by rewrite list_lookup_insert_ne by lia.
Qed.

Lemma nodeLen_set s i n : nodeLen (set_node i n s) = nodeLen s.
Proof. unfold nodeLen, set_node. cbn. by rewrite length_insert. Qed.

Lemma kv_set s i k j : 0 <= i < kvLen s -> 0 <= j -> kv (set_kv i k s) j = if decide (i = j) then k else kv s j.
Proof.
  intros Hi Hj. unfold kv, set_kv. cbn [kvs set_kvs]. unfold kvLen in Hi. destruct (decide (i = j)) as [<-|Hne].
  - by rewrite list_lookup_insert_eq by lia.
  - by rewrite list_lookup_insert_ne by lia.
Qed.

Lemma kvLen_set s i k : kvLen (set_kv i k s) = kvLen s.
Proof. unfold kvLen, set_kv. cbn. by rewrite length_insert. Qed.

Lemma concat_insert (L : list (list Z)) i l l' : L !! i = Some l -> l ++ concat (<[i := l']> L) ≡ₚ l' ++ concat L.
Proof.
  intros Hl. destruct (insert_split L i l l' Hl) as (L1 & L2 & -> & -> & _). rewrite !concat_app. cbn [concat].
  by rewrite (Permutation_app_swap_app l), (Permutation_app_swap_app l' (concat L1)), (Permutation_app_swap_app l l').
Qed.

Lemma owned_set s i n : 0 <= i < nodeLen s -> keys_of (node s i) ++ owned (set_node i n s) ≡ₚ keys_of n ++ owned s.
Proof.
  intros Hi. unfold owned, set_node. cbn [nodes set_nodes]. rewrite list_fmap_insert. apply concat_insert.
  by rewrite list_lookup_fmap, node_lookup.
Qed.

Lemma owned_in s i x : 0 <= i < nodeLen s -> x ∈ keys_of (node s i) -> x ∈ owned s.
Proof.
  intros Hi Hx. unfold owned. apply list_elem_of_In, in_concat. exists (keys_of (node s i)). split; [|by apply list_elem_of_In].
  apply list_elem_of_In, list_elem_of_fmap_2, list_elem_of_lookup. exists (Z.to_nat i). by apply node_lookup.
Qed.

Lemma owned_inv s x : x ∈ owned s -> exists j, 0 <= j < nodeLen s /\ x ∈ keys_of (node s j).
Proof.
  unfold owned. intros Hx%list_elem_of_In%in_concat. destruct Hx as (l & Hl%list_elem_of_In & Hx%list_elem_of_In).
  apply list_elem_of_fmap in Hl as (n & -> & Hn). apply list_elem_of_lookup in Hn as [j Hj]. exists (Z.of_nat j).
  pose proof (lookup_lt_Some _ _ _ Hj). unfold nodeLen, node. rewrite Nat2Z.id, Hj. split; [lia|done].
Qed.

Lemma node_is_ok s fl i : store_ok s fl -> 0 <= i < nodeLen s -> node_ok s (node s i).
Proof. intros [H _ _ _ _] Hi. rewrite Forall_lookup in H. apply (H (Z.to_nat i)). by apply node_lookup. Qed.

Lemma keys_are_ok s fl x : store_ok s fl -> x ∈ owned s -> kv_ok s x.
Proof.
  intros Hs (j & Hj & Hx)%owned_inv. pose proof (node_is_ok s fl j Hs Hj) as Hn. destruct (node s j); try by apply elem_of_nil in Hx.
  cbn [node_ok] in Hn. destruct Hn as [_ HF _]. rewrite Forall_forall in HF. by apply HF.
Qed.

Lemma chain_ext s s' h fl : kvLen s <= kvLen s' -> (forall y, 0 <= y -> y ∈ fl -> kv s' y = kv s y) -> chain s h fl -> chain s' h fl.
Proof.
  intros Hl. revert h. induction fl as [|y fl IH]; intros h E; [done|]. cbn [chain]. intros (-> & Hy & Hc).
  split_and!; [done|lia|lia|]. rewrite E by (lia || apply list_elem_of_here). apply IH; [|done]. intros z H0 Hz. by apply E, list_elem_of_further.
Qed.

Lemma bounded_length (l : list Z) n : NoDup l -> (forall x, x ∈ l -> 0 <= x < n) -> Z.of_nat (length l) <= Z.max 0 n.
Proof.
  intros Hnd Hin. assert (Hsub : l ⊆+ seqZ 0 n) by (apply NoDup_submseteq; [done|]; intros x Hx; apply elem_of_seqZ; specialize (Hin x Hx); lia).
  apply submseteq_length in Hsub. rewrite length_seqZ in Hsub. lia.
Qed.

Section allocation.
Context (Alloc_ok : Z -> bool) (junk : Z) (mem : forall n, Alloc_ok n = true).

Lemma AllocNode_ok s : nodeLen s < 2 ^ 30 -> nodeLen s <= nodeCap s ->
  exists cap, AllocNode Alloc_ok s = (nodeLen s, set_nodes (nodes s ++ [EMPTY]) cap s) /\ nodeLen s + 1 <= cap.
Proof.
  intros Hs Hc. unfold AllocNode. destruct (Z.eqb_spec (nodeLen s) (nodeCap s)) as [E|E]; [|exists (nodeCap s); split; [done|lia]].
  rewrite mem. eexists. split; [reflexivity|]. destruct (Z.eqb_spec (nodeCap s) 0) as [E0|E0]; [unfold JSON_INIT_CAP; lia|].
  assert (0 <= nodeLen s) by (unfold nodeLen; lia). rewrite wrap_small by lia. lia.
Qed.

Lemma double_until_ok fuel sc need : 0 < sc -> sc <= 2 ^ 31 -> need <= 2 ^ 30 + 1 -> need <= sc * 2 ^ (Z.of_nat fuel - 1) -> (0 < fuel)%nat ->
  need <= double_until fuel sc need.
Proof.
  revert sc. induction fuel as [|f IH]; intros sc H1 H2 H3 H4 H5; [lia|]. cbn [double_until].
  destruct (Z.ltb_spec sc need) as [Hlt|Hge]; [|done]. rewrite wrap_small by lia. destruct f as [|f].
  - change (Z.of_nat 1 - 1) with 0 in H4. lia.
  - apply IH; [lia|lia|lia| |lia].
    replace (Z.of_nat (S (S f)) - 1) with (1 + (Z.of_nat (S f) - 1)) in H4 by lia. rewrite Z.pow_add_r in H4 by lia. lia.
Qed.

Lemma AllocStr_ok data len s :
  0 <= len -> (forall d, data = Some d -> Z.of_nat (length d) = len) -> strLen s + len + 1 <= 2 ^ 30 -> strLen s <= strCap s ->
  exists d cap, AllocStr Alloc_ok junk data len s = (strLen s, set_strs (strs s ++ d ++ [0]) cap s) /\
    d = default (replicate (Z.to_nat len) junk) data /\ strLen s + len + 1 <= cap.
Proof.
  intros Hl Hd Hb Hc. exists (default (replicate (Z.to_nat len) junk) data). assert (0 <= strLen s) by (unfold strLen; lia).
  unfold AllocStr. rewrite (wrap_small 32 (strLen s + len + 1)) by lia.
  destruct (Z.ltb_spec (strCap s) (strLen s + len + 1)) as [Hlt|Hge]; [|exists (strCap s); split_and!; [done|done|lia]].
  rewrite mem. eexists. split; [reflexivity|]. split; [done|]. destruct (Z.eqb_spec (strCap s) 0) as [E|E].
  - apply double_until_ok; lia.
  - rewrite wrap_small by lia. apply double_until_ok; lia.
Qed.

(** A key that no object has; the rest of the store is as it was. *)
Lemma AllocKV_ok s fl : store_ok s fl -> kvLen s < 2 ^ 28 ->
  exists x s' fl', AllocKV Alloc_ok s = (x, s') /\ nodes s' = nodes s /\ strs s' = strs s /\ nodeCap s' = nodeCap s /\ strCap s' = strCap s /\
    0 <= x < kvLen s' /\ kvLen s <= kvLen s' <= kvLen s + 1 /\ kvLen s' <= kvCap_ s' /\ x ∉ owned s /\
    (forall y, 0 <= y -> y <> x -> kv s' y = kv s y) /\ chain s' (kvFree s') fl' /\ NoDup (owned s ++ (x :: fl')).
Proof.
  intros Hs Hk. pose proof Hs as [_ Hfree Hnd _ (_ & Hcap & _)]. unfold AllocKV. destruct fl as [|x fl]; cbn [chain] in Hfree.
  - assert (Eb : negb (kvFree s =? JSON_NIL) = false) by by rewrite Hfree. rewrite Eb. clear Eb.
    assert (Hcom : forall cap, kvLen s + 1 <= cap -> exists x s' fl', (kvLen s, set_kvs (kvs s ++ [new_kv]) cap (kvFree s) s) = (x, s') /\
       nodes s' = nodes s /\ strs s' = strs s /\ nodeCap s' = nodeCap s /\ strCap s' = strCap s /\
       0 <= x < kvLen s' /\ kvLen s <= kvLen s' <= kvLen s + 1 /\ kvLen s' <= kvCap_ s' /\ x ∉ owned s /\
       (forall y, 0 <= y -> y <> x -> kv s' y = kv s y) /\ chain s' (kvFree s') fl' /\ NoDup (owned s ++ (x :: fl'))).
    { intros cap Hc. clear mem. assert (Hn : kvLen s ∉ owned s) by (intros Hin; destruct (keys_are_ok s _ _ Hs Hin); lia).
      assert (El : kvLen (set_kvs (kvs s ++ [new_kv]) cap (kvFree s) s) = kvLen s + 1) by (unfold kvLen; cbn; rewrite length_app; cbn; lia).
      exists (kvLen s), (set_kvs (kvs s ++ [new_kv]) cap (kvFree s) s), []. rewrite El. unfold kvLen in *. split_and!; try done; try lia; [|].
      - intros y Hy Hne. unfold kv. cbn [kvs set_kvs]. destruct (decide (Z.to_nat y < length (kvs s))%nat).
        + by rewrite lookup_app_l by lia.
        + rewrite lookup_ge_None_2 by (rewrite length_app; cbn; lia). by rewrite lookup_ge_None_2 by lia.
      - rewrite app_nil_r in Hnd. apply NoDup_app. split_and!; [done| |apply NoDup_singleton].
        intros y Hy Hy'%list_elem_of_singleton. by subst. }
    destruct (Z.eqb_spec (kvLen s) (kvCap_ s)) as [E|E].
    + cbv zeta. rewrite mem. cbv iota. apply Hcom. destruct (Z.eqb_spec (kvCap_ s) 0); [unfold JSON_INIT_CAP; lia|].
      assert (0 <= kvLen s) by (unfold kvLen; lia). rewrite wrap_small by lia. lia.
    + apply Hcom. lia.
  - destruct Hfree as (E & Hx & Hch). rewrite E, (proj2 (Z.eqb_neq x JSON_NIL)) by (unfold JSON_NIL; lia). cbn [negb]. cbv zeta.
    set (s0 := set_kvs (kvs s) (kvCap_ s) (pad (kv s x)) s). exists x, (set_kv x new_kv s0), fl.
    assert (Ekv : forall y, 0 <= y -> y <> x -> kv (set_kv x new_kv s0) y = kv s y) by (intros y Hy Hne; rewrite kv_set by done; by rewrite decide_False by congruence).
    rewrite kvLen_set. assert (El : kvLen s0 = kvLen s) by done. rewrite El. apply NoDup_app in Hnd as (Ho & Hd & Hf). split_and!; try done; try lia.
    + intros Hin. apply (Hd x Hin), list_elem_of_here.
    + change (kvFree (set_kv x new_kv s0)) with (pad (kv s x)). apply NoDup_cons in Hf as [Hnx _].
      apply (chain_ext s); [by rewrite kvLen_set|intros y Hy0 Hy; apply Ekv; [done|by intros ->]|done].
    + by apply NoDup_app.
Qed.

End allocation.

(** ** Adding a key *)

Lemma set_node_twice i m n s : set_node i n (set_node i m s) = set_node i n s.
Proof. unfold set_node. cbn. by rewrite list_insert_insert_eq. Qed.

Lemma take_insert_snoc {A} (l : list A) k x : (k < length l)%nat -> take (S k) (<[k := x]> l) = take k l ++ [x].
Proof.
  intros Hk. rewrite (take_S_r _ _ x) by by apply list_lookup_insert_eq. by rewrite take_insert_ge.
Qed.

Section adding.
Context (Alloc_ok : Z -> bool) (junk : Z) (mem : forall n, Alloc_ok n = true).

(** Room for one more key in the list region. *)
Lemma room_ok s count kvCap buf kl :
  table s count kvCap buf kl -> count + 1 <= 2 ^ 28 ->
  exists kvCap' N pd kr sl,
    (if kvCap <=? count then GrowKVCap Alloc_ok junk kvCap buf else Some (kvCap, default [] buf)) = Some (kvCap', buf_of N pd kr sl) /\
    kvCap' = Z.of_nat (length kr) /\ kvCap' <= 2 ^ 29 /\ N <= 2 ^ 30 /\ 0 <= count < kvCap' /\ take (Z.to_nat count) kr = kl /\
    (N = 0 \/ table_ok (key s) N kl sl).
Proof.
  intros T Hc. destruct buf as [b|].
  - destruct T as (N & pd & kr & sl & -> & -> & Hkv & HN & Hcount & -> & T). destruct (Z.leb_spec (Z.of_nat (length kr)) count) as [Hle|Hlt].
    + destruct (GrowKVCap_ok Alloc_ok junk mem N pd kr sl) as (kr' & E & H1 & H2 & H3); [apply (tk_len _ _ _ _ T)|done|lia|].
      exists (Z.of_nat (length kr')), N, 0, kr', sl. split_and!; [done|done|done|done|lia|lia| |by right].
      replace (Z.to_nat count) with (length kr) by lia. by rewrite H3, firstn_all.
    + exists (Z.of_nat (length kr)), N, pd, kr, sl. split_and!; [done|done|done|done|lia|lia|done|by right].
  - destruct T as (-> & -> & ->). destruct (GrowKVCap_none Alloc_ok junk mem) as (kr' & E & Hlen).
    exists (Z.of_nat (length kr')), 0, 0, kr', []. split_and!; [done|done|lia|lia|lia|lia|done|by left].
Qed.

Lemma HTInsert_ok s count N pd kr sl kl x :
  (N = 0 \/ table_ok (key s) N kl sl) -> count = Z.of_nat (length kl) -> count + 1 <= 2 ^ 28 -> count < Z.of_nat (length kr) <= 2 ^ 29 ->
  N <= 2 ^ 30 -> take (Z.to_nat (count + 1)) kr = kl ++ [x] -> NoDup (kl ++ [x]) -> Forall live (kl ++ [x]) ->
  exists N' pd' kr' sl', HTInsert Alloc_ok junk s (count + 1) (Z.of_nat (length kr)) (buf_of N pd kr sl) x = Some (buf_of N' pd' kr' sl') /\
    length kr' = length kr /\ N' <= 2 ^ 30 /\ take (Z.to_nat (count + 1)) kr' = kl ++ [x] /\ table_ok (key s) N' (kl ++ [x]) sl'.
Proof.
  intros HT Hcount Hc Hkr HN Etk Hnd Hlive. unfold HTInsert. rewrite word_cap. cbv zeta. destruct ((N =? 0) || (N / 2 <? count + 1)) eqn:Eb.
  - destruct (ObjHtCapFor_ok (count + 1)) as [Hpow Hcap]; [lia|].
    destruct (RebuildHT_ok Alloc_ok junk mem s (count + 1) (Some (buf_of N pd kr sl)) kr (ObjHtCapFor (count + 1)) (Z.of_nat (length kr)))
      as (kr' & sl' & E & Hlen & Htk & T); [left; by exists N, pd, sl|lia|lia|done|lia|lia|by rewrite Etk|by rewrite Etk|].
    exists (ObjHtCapFor (count + 1)), 0, kr', sl'. rewrite Etk in *. split_and!; [done|lia|lia|done|done].
  - bool_split. destruct HT as [->|T]; [done|]. apply Z.ltb_ge in H0. rewrite Forall_app in Hlive. destruct Hlive as [_ Hx%Forall_inv].
    destruct (insert_slot_ok N pd kr s N kl sl x T Hx) as (sl' & E & T').
    + apply NoDup_app in Hnd as (_ & Hd & _). intros Hin. apply (Hd x Hin), list_elem_of_here.
    + Z.to_euclidean_division_equations. lia.
    + exists N, pd, kr, sl'. split_and!; [by rewrite E|done|done|done|exact T'].
Qed.

Lemma ObjAppendKV_ok s i x count kvCap buf kl :
  node s i = OBJECT count kvCap buf -> 0 <= i < nodeLen s -> obj_ok s count kvCap buf kl -> kv_ok s x ->
  key s x ∉ (key s <$> kl) -> count + 1 <= 2 ^ 28 ->
  exists kvCap' buf', ObjAppendKV Alloc_ok junk i x s = (true, set_node i (OBJECT (count + 1) kvCap' buf') s) /\
    obj_ok s (count + 1) kvCap' buf' (kl ++ [x]).
Proof.
  intros En Hi [T HF Hnd] Hx Hnew Hc. pose proof (table_count _ _ _ _ _ T) as Hcount.
  assert (Hnd' : NoDup (key s <$> (kl ++ [x]))).
  { rewrite fmap_app. apply NoDup_app. split_and!; [done| |apply NoDup_singleton]. intros k Hk Hk'%list_elem_of_singleton. by subst. }
  assert (HF' : Forall (kv_ok s) (kl ++ [x])) by (apply Forall_app; split; [done|by apply Forall_singleton]).
  destruct (room_ok s count kvCap buf kl T Hc) as (kvCap' & N & pd & kr & sl & Eroom & -> & Hkv & HN & Hcr & Etk & HT).
  set (kr1 := <[Z.to_nat count := x]> kr). assert (Hl1 : length kr1 = length kr) by apply length_insert.
  assert (Etk1 : take (Z.to_nat (count + 1)) kr1 = kl ++ [x]).
  { replace (Z.to_nat (count + 1)) with (S (Z.to_nat count)) by lia. unfold kr1. rewrite take_insert_snoc by lia. by rewrite Etk. }
  set (s1 := set_node i (OBJECT (count + 1) (Z.of_nat (length kr)) (Some (buf_of N pd kr1 sl))) s).
  destruct (HTInsert_ok s1 count N pd kr1 sl kl x) as (N' & pd' & kr' & sl' & Eins & Hlen & HN' & Etk' & T').
  - exact HT.
  - done.
  - done.
  - lia.
  - done.
  - done.
  - by apply (keys_nodup s).
  - eapply Forall_impl; [exact HF'|]. intros y. apply kv_ok_live.
  - exists (Z.of_nat (length kr)), (Some (buf_of N' pd' kr' sl')). split.
    + unfold ObjAppendKV. rewrite En.
      assert (Eset : set_word (2 + count) x (buf_of N pd kr sl) = buf_of N pd kr1 sl) by (apply set_list; lia). rewrite Hl1 in Eins.
      destruct (kvCap <=? count).
      * rewrite Eroom, Eset. fold s1. rewrite Eins. unfold s1. by rewrite set_node_twice.
      * injection Eroom as -> Eb. rewrite Eb, Eset. fold s1. rewrite Eins. unfold s1. by rewrite set_node_twice.
    + split; [|done|done]. exists N', pd', kr', sl'. split_and!; [done|lia|done|done|lia|lia|done|exact T'].
Qed.

End adding.

(** ** Finding and adding keys *)

Lemma HTFind_in s i count kvCap buf kl x :
  node s i = OBJECT count kvCap buf -> obj_ok s count kvCap buf kl -> x ∈ kl -> HTFind s i (key s x) = x.
Proof.
  intros En [T HF Hnd] Hx. unfold HTFind. rewrite En. destruct buf as [b|]; [|destruct T as (_ & _ & ->); by apply elem_of_nil in Hx].
  destruct T as (N & pd & kr & sl & -> & -> & _ & _ & _ & _ & T). rewrite word_cap.
  pose proof (pow_pos N (tk_pow _ _ _ _ T)). rewrite (proj2 (Z.eqb_neq N 0)) by lia.
  by destruct (find_slot_hit s N pd kr sl kl T HF Hnd x Hx) as (h & -> & _).
Qed.

Lemma HTFind_out s i count kvCap buf kl k :
  node s i = OBJECT count kvCap buf -> obj_ok s count kvCap buf kl -> k ∉ (key s <$> kl) -> HTFind s i k = JSON_NIL.
Proof.
  intros En [T HF _] Hk. unfold HTFind. rewrite En. destruct buf as [b|]; [|done].
  destruct T as (N & pd & kr & sl & -> & -> & _ & _ & _ & _ & T). rewrite word_cap.
  pose proof (pow_pos N (tk_pow _ _ _ _ T)). rewrite (proj2 (Z.eqb_neq N 0)) by lia.
  by rewrite (find_slot_miss s N pd kr sl kl T HF k Hk).
Qed.

Lemma keys_disjoint s fl i j x : store_ok s fl -> 0 <= i < nodeLen s -> 0 <= j < nodeLen s -> i <> j ->
  x ∈ keys_of (node s i) -> x ∉ keys_of (node s j).
Proof.
  intros [_ _ Hnd _ _] Hi Hj Hne Hx Hy. apply NoDup_app in Hnd as (Hnd & _ & _). unfold owned in Hnd.
  pose proof (node_lookup s i Hi) as Ei. destruct (insert_split (nodes s) _ _ EMPTY Ei) as (l1 & l2 & El & Ed & Hlen).
  pose proof (owned_set s i EMPTY Hi) as Hp. cbn [keys_of app] in Hp. unfold owned in Hp at 2. rewrite <- Hp in Hnd.
  apply NoDup_app in Hnd as (_ & Hd & _). apply (Hd x Hx). apply (owned_in _ j); [by rewrite nodeLen_set|].
  rewrite node_set_node by lia. by rewrite decide_False.
Qed.

(** A store that extends a sound one at one node is sound when that node and the new
    ones are; the other nodes stand for what they stood for. *)
Lemma extends_view s s' fl i j : store_ok s fl -> 0 <= i < nodeLen s -> extends i s s' -> kvLen s <= kvLen s' ->
  0 <= j < nodeLen s -> j <> i -> node_ok s' (node s' j) /\ view s' j = view s j.
Proof.
  intros Hs Hi [En El Et Ek] Hk Hj Hne. unfold view. rewrite En by done.
  apply node_ok_ext; [done|done|done| |by apply (node_is_ok s fl)].
  intros x Hx. apply Ek; [by apply (owned_in s j)|]. by apply (keys_disjoint s fl j i).
Qed.

Lemma extends_ok s s' fl fl' i : store_ok s fl -> 0 <= i < nodeLen s -> extends i s s' -> kvLen s <= kvLen s' ->
  node_ok s' (node s' i) -> (forall j, nodeLen s <= j < nodeLen s' -> node_ok s' (node s' j)) ->
  chain s' (kvFree s') fl' -> NoDup (owned s' ++ fl') ->
  nodeLen s' <= 2 ^ 28 /\ kvLen s' <= 2 ^ 28 /\ strLen s' <= 2 ^ 30 ->
  nodeLen s' <= nodeCap s' /\ kvLen s' <= kvCap_ s' /\ strLen s' <= strCap s' -> store_ok s' fl'.
Proof.
  intros Hs Hi He Hk Hn Hnew Hc Hnd H1 H2. split; [|done..]. apply Forall_lookup. intros m n Hm.
  pose proof (lookup_lt_Some _ _ _ Hm) as Hlt. assert (E : n = node s' (Z.of_nat m)) by (unfold node; by rewrite Nat2Z.id, Hm).
  subst n. destruct (decide (Z.of_nat m < nodeLen s)).
  - destruct (decide (Z.of_nat m = i)) as [->|Hne]; [done|]. by apply (extends_view s s' fl i); [| | | |lia|].
  - apply Hnew. unfold nodeLen in *. lia.
Qed.

Lemma extends_refl i s : extends i s s.
Proof. split; [done|done|exists []; by rewrite app_nil_r|done]. Qed.

Section building.
Context (Alloc_ok : Z -> bool) (junk : Z) (mem : forall n, Alloc_ok n = true).

(** A new node is [EMPTY]; everything else is kept. *)
Lemma add_node_ok s fl cap : store_ok s fl -> nodeLen s < 2 ^ 28 -> nodeLen s + 1 <= cap ->
  let s' := set_nodes (nodes s ++ [EMPTY]) cap s in
  store_ok s' fl /\ nodeLen s' = nodeLen s + 1 /\ owned s' = owned s /\ node s' (nodeLen s) = EMPTY /\
  (forall j, 0 <= j < nodeLen s -> node s' j = node s j).
Proof.
  intros Hs Hlen Hcap s'. assert (El : nodeLen s' = nodeLen s + 1) by (unfold nodeLen; cbn; rewrite length_app; cbn; lia).
  assert (Eo : owned s' = owned s) by (unfold owned; cbn; by rewrite fmap_app, concat_app, !app_nil_r).
  assert (En : forall j, 0 <= j < nodeLen s -> node s' j = node s j).
  { intros j Hj. unfold node, nodeLen in *. cbn. by rewrite lookup_app_l by lia. }
  assert (Ee : node s' (nodeLen s) = EMPTY) by (unfold node, nodeLen; cbn; by rewrite Nat2Z.id, lookup_app_r, Nat.sub_diag).
  split_and!; try done. destruct Hs as [Hn Hf Hd Hsm Hca]. split.
  - cbn. apply Forall_app. split; [|by apply Forall_singleton]. eapply Forall_impl; [exact Hn|]. intros n Hok.
    apply (node_ok_ext s s'); [lia|done|by exists []; rewrite app_nil_r|done|done].
  - by apply (chain_ext s).
  - by rewrite Eo.
  - rewrite El. change (kvLen s') with (kvLen s). change (strLen s') with (strLen s). lia.
  - rewrite El. change (kvLen s') with (kvLen s). change (strLen s') with (strLen s). cbn. lia.
Qed.

Lemma str_add_ok s fl t cap : store_ok s fl -> strLen s + Z.of_nat (length t) <= 2 ^ 30 -> strLen s + Z.of_nat (length t) <= cap ->
  let s' := set_strs (strs s ++ t) cap s in
  store_ok s' fl /\ (forall j, 0 <= j < nodeLen s -> view s' j = view s j) /\ extends (-1) s s'.
Proof.
  intros Hs Hlen Hcap s'. assert (El : strLen s' = strLen s + Z.of_nat (length t)) by (unfold strLen; cbn; rewrite length_app; lia).
  assert (Et : exists t, strs s' = strs s ++ t) by by exists t.
  assert (Hok : forall n, node_ok s n -> node_ok s' n /\ view_node s' n = view_node s n) by (intros n; by apply node_ok_ext).
  split_and!.
  - destruct Hs as [Hn Hf Hd Hsm Hca]. split.
    + eapply Forall_impl; [exact Hn|]. intros n Hn'. by apply Hok.
    + by apply (chain_ext s).
    + done.
    + rewrite El. change (kvLen s') with (kvLen s). change (nodeLen s') with (nodeLen s). lia.
    + rewrite El. change (kvLen s') with (kvLen s). change (nodeLen s') with (nodeLen s). cbn. lia.
  - intros j Hj. apply Hok. by apply (node_is_ok s fl).
  - split; [done|done|done|done].
Qed.

(** What adding a key does to object [i]. *)
Record added (i : Z) (k : bytes) (m : list (bytes * Z)) (v : Z) (s s' : JsonStore) : Prop := {
  ad_view : view s' i = VObject (m ++ [(k, v)]);
  ad_rest : forall j, 0 <= j < nodeLen s -> j <> i -> view s' j = view s j
}.

Lemma obj_count s fl i count kvCap buf : store_ok s fl -> 0 <= i < nodeLen s -> node s i = OBJECT count kvCap buf ->
  obj_ok s count kvCap buf (keys_of (node s i)) /\ 0 <= count <= kvLen s.
Proof.
  intros Hs Hi En. pose proof (node_is_ok s fl i Hs Hi) as Hn. rewrite En in *. cbn [node_ok] in Hn. split; [done|].
  destruct Hn as [T HF Hnd]. rewrite (table_count _ _ _ _ _ T).
  pose proof (bounded_length _ (kvLen s) (keys_nodup _ _ Hnd)) as Hb. rewrite Forall_forall in HF.
  assert (0 <= kvLen s) by (unfold kvLen; lia). assert (forall x, x ∈ keys_of (OBJECT count kvCap buf) -> 0 <= x < kvLen s).
  { intros x Hx. destruct (HF x Hx); lia. } specialize (Hb H0). lia.
Qed.

Lemma append_kv_ok s fl i count kvCap buf off len v :
  store_ok s fl -> 0 <= i < nodeLen s -> node s i = OBJECT count kvCap buf -> kvLen s < 2 ^ 28 -> 0 <= v < nodeLen s ->
  0 <= off -> 0 <= len -> off + len <= strLen s -> str_at s off len ∉ (key s <$> keys_of (node s i)) ->
  exists ki s0 s1 fl', AllocKV Alloc_ok s = (ki, s0) /\ ki <> JSON_NIL /\
    ObjAppendKV Alloc_ok junk i ki (set_kv ki (KV off len v 0) s0) = (true, s1) /\
    store_ok s1 fl' /\ added i (str_at s off len) (entries s (keys_of (node s i))) v s s1 /\
    is_object (node s1 i) = true /\ extends i s s1 /\ nodeLen s1 = nodeLen s /\ kvLen s <= kvLen s1 <= kvLen s + 1 /\ strs s1 = strs s.
Proof.
  intros Hs Hi En Hkv Hv Hoff Hlen Hstr Hnew. destruct (obj_count s fl i count kvCap buf Hs Hi En) as [Hobj Hcount].
  destruct (AllocKV_ok Alloc_ok mem s fl Hs Hkv) as (x & s0 & fl' & E0 & En0 & Et0 & Ecn & Ecs & Hx & Hl0 & Hc0 & Hxo & Hkv0 & Hch & Hnd).
  set (s2 := set_kv x (KV off len v 0) s0). pose proof (so_small _ _ Hs) as Hsm. pose proof (so_caps _ _ Hs) as Hca.
  assert (Ek2 : forall y, 0 <= y -> y <> x -> kv s2 y = kv s y).
  { intros y Hy Hne. unfold s2. rewrite kv_set by done. rewrite decide_False by congruence. by apply Hkv0. }
  assert (Ex2 : kv s2 x = KV off len v 0) by (unfold s2; rewrite kv_set by lia; by rewrite decide_True).
  assert (En2 : nodes s2 = nodes s) by done. assert (El2 : nodeLen s2 = nodeLen s) by (unfold nodeLen; by rewrite En2).
  assert (Et2 : strs s2 = strs s) by done. assert (Ekl : kvLen s2 = kvLen s0) by (unfold s2; apply kvLen_set).
  assert (Est : strLen s2 = strLen s) by (unfold strLen; by rewrite Et2).
  assert (Eni : node s2 i = OBJECT count kvCap buf) by (unfold node; rewrite En2; exact En).
  set (kl := keys_of (node s i)) in *.
  assert (Hin : forall y, y ∈ kl -> kv s2 y = kv s y).
  { intros y Hy. assert (y ∈ owned s) by by apply (owned_in s i). apply Ek2; [destruct (keys_are_ok s fl y Hs H); lia|]. by intros ->. }
  assert (Ht2 : exists t, strs s2 = strs s ++ t) by (exists []; by rewrite Et2, app_nil_r).
  destruct (keys_ext s s2 kl) as (HF2 & Hk2 & Ee2); [lia|lia|done|done|by destruct Hobj|].
  assert (Hobj2 : obj_ok s2 count kvCap buf kl) by (apply (obj_ok_ext s s2); [lia|lia|done|done|done]).
  assert (Ekx : key s2 x = str_at s off len) by (unfold key, key_of, str_at; by rewrite Ex2, Et2).
  assert (Hxok : kv_ok s2 x). { unfold kv_ok. rewrite Ex2, Est, El2, Ekl. cbn [valIdx keyOff keyLen]. unfold JSON_TOMB. lia. }
  destruct (ObjAppendKV_ok Alloc_ok junk mem s2 i x count kvCap buf kl) as (kvCap' & buf' & Eapp & Hobj'); [done|lia|done|done| |lia|].
  { rewrite Ekx. intros Hbad. apply Hnew. apply list_elem_of_fmap in Hbad as (y & E & Hy). rewrite E, (Hk2 y Hy). by apply list_elem_of_fmap_2. }
  set (nd := OBJECT (count + 1) kvCap' buf') in *. set (s1 := set_node i nd s2) in *.
  assert (Ekn : keys_of nd = kl ++ [x]) by (eapply keys_of_table, ok_table, Hobj').
  assert (El1 : nodeLen s1 = nodeLen s) by (unfold s1; by rewrite nodeLen_set).
  assert (E1i : node s1 i = nd) by (unfold s1; rewrite node_set_node by lia; by rewrite decide_True).
  assert (Hext : extends i s s1).
  { split; [|lia|done|].
    - intros j Hj Hne. unfold s1. rewrite node_set_node by lia. rewrite decide_False by congruence. unfold node. by rewrite En2.
    - intros y Hy _. change (kv s1 y) with (kv s2 y). apply Ek2; [destruct (keys_are_ok s fl y Hs Hy); lia|by intros ->]. }
  assert (Eks1 : kvLen s1 = kvLen s0) by exact Ekl.
  assert (Hnok : node_ok s1 (node s1 i)).
  { rewrite E1i. cbn [node_ok nd]. fold nd. rewrite Ekn. apply (obj_ok_ext s2 s1); [lia|lia|exists []; by rewrite app_nil_r|done|done]. }
  assert (Hok1 : store_ok s1 fl').
  { apply (extends_ok s s1 fl fl' i); [done|done|done|lia|done|intros; lia| | |unfold strLen; change (strs s1) with (strs s2); rewrite Et2; unfold strLen in *; lia|].
    - apply (chain_ext s0); [lia| |done]. intros y Hy0 Hy. change (kv s1 y) with (kv s2 y). unfold s2. rewrite kv_set by lia.
      rewrite decide_False; [done|]. intros ->. apply NoDup_app in Hnd as (_ & _ & Hnd). by apply NoDup_cons in Hnd as [? _].
    - assert (Hp : owned s1 ≡ₚ x :: owned s); [|rewrite Hp; rewrite <- Permutation_middle in Hnd; exact Hnd].
      apply (Permutation_app_inv_l kl). pose proof (owned_set s2 i nd ltac:(lia)) as Hp. fold s1 in Hp. rewrite Eni, <- En in Hp. fold kl in Hp.
      rewrite Hp, Ekn. unfold owned. rewrite En2. by rewrite <- app_assoc.
    - change (nodeCap s1) with (nodeCap s0). change (kvCap_ s1) with (kvCap_ s0). change (strCap s1) with (strCap s0).
      change (strLen s1) with (strLen s2). lia. }
  exists x, s0, s1, fl'. split_and!; [done|unfold JSON_NIL; lia|exact Eapp|done| |by rewrite E1i|done|done|lia|lia|done].
  split; [|intros j Hj Hne; apply (extends_view s s1 fl i j); [done|done|done|lia|done|done]].
  unfold view. rewrite E1i. cbn [view_node nd]. fold nd. rewrite Ekn. change (entries s1) with (entries s2). unfold entries at 1. rewrite fmap_app.
  fold (entries s2 kl). rewrite Ee2. cbn. by rewrite Ekx, Ex2.
Qed.

End building.

(** ** Objects as ordered maps *)

Definition find_member (k : bytes) (m : list (bytes * Z)) : option Z :=
  snd <$> find (fun e => bool_decide (e.1 = k)) m.

Lemma find_member_in s kl x : NoDup (key s <$> kl) -> x ∈ kl -> find_member (key s x) (entries s kl) = Some (valIdx (kv s x)).
Proof.
  unfold find_member. induction kl as [|y kl IH]; intros Hnd Hx; [by apply elem_of_nil in Hx|]. cbn.
  cbn [fmap list_fmap] in Hnd. apply NoDup_cons in Hnd as [Hy Hnd]. case_bool_decide as E.
  - apply elem_of_cons in Hx as [->|Hx]; [done|]. destruct Hy. rewrite E. by apply list_elem_of_fmap_2.
  - apply elem_of_cons in Hx as [->|Hx]; [done|]. by apply IH.
Qed.

Lemma find_member_out s kl k : k ∉ (key s <$> kl) -> find_member k (entries s kl) = None.
Proof.
  unfold find_member. induction kl as [|y kl IH]; intros Hk; [done|]. cbn [fmap list_fmap] in Hk. apply not_elem_of_cons in Hk as [H1 H2]. cbn.
  case_bool_decide as E; [by subst|]. by apply IH.
Qed.

(** The two outcomes of a search. *)
Lemma HTFind_spec s fl i count kvCap buf k :
  store_ok s fl -> 0 <= i < nodeLen s -> node s i = OBJECT count kvCap buf ->
  let kl := keys_of (node s i) in
  (exists x, x ∈ kl /\ key s x = k /\ HTFind s i k = x /\ x <> JSON_NIL /\ find_member k (entries s kl) = Some (valIdx (kv s x))) \/
  (k ∉ (key s <$> kl) /\ HTFind s i k = JSON_NIL /\ find_member k (entries s kl) = None).
Proof.
  intros Hs Hi En kl. destruct (obj_count s fl i count kvCap buf Hs Hi En) as [Hobj _]. fold kl in Hobj.
  destruct (decide (k ∈ (key s <$> kl))) as [Hin|Hn].
  - left. apply list_elem_of_fmap in Hin as (x & -> & Hx). exists x. split_and!; [done|done| | |].
    + by eapply HTFind_in.
    + destruct Hobj as [_ HF _]. rewrite Forall_forall in HF. destruct (HF x Hx). unfold JSON_NIL, JSON_TOMB in *. lia.
    + apply find_member_in; [by destruct Hobj|done].
  - right. split_and!; [done|by eapply HTFind_out|by apply find_member_out].
Qed.

(** A node replaced by one that has no keys: what keys it had are lost, not freed. *)
Lemma set_node_ok s fl i n : store_ok s fl -> 0 <= i < nodeLen s -> keys_of n = [] -> node_ok s n ->
  let s' := set_node i n s in
  store_ok s' fl /\ extends i s s' /\ node s' i = n /\ nodeLen s' = nodeLen s /\ (forall j, 0 <= j < nodeLen s -> j <> i -> view s' j = view s j).
Proof.
  intros Hs Hi Hk' Hn s'. assert (El : nodeLen s' = nodeLen s) by apply nodeLen_set.
  assert (Ei : node s' i = n) by (unfold s'; rewrite node_set_node by lia; by rewrite decide_True).
  assert (He : extends i s s').
  { split; [|lia|by exists []; rewrite app_nil_r|done]. intros j Hj Hne. unfold s'. rewrite node_set_node by lia. by rewrite decide_False by congruence. }
  assert (Hni : node_ok s' (node s' i)).
  { rewrite Ei. apply (node_ok_ext s s'); [lia|done|by exists []; rewrite app_nil_r| |done]. rewrite Hk'. by intros x Hx%elem_of_nil. }
  pose proof (owned_set s i n Hi) as Hp. rewrite Hk' in Hp. cbn [app] in Hp. fold s' in Hp.
  assert (Hok : store_ok s' fl).
  { destruct (Hs) as [_ Hf Hnd Hsm Hca]. apply (extends_ok s s' fl fl i); try done; [intros; lia|by apply (chain_ext s)| |by rewrite El|by rewrite El].
    rewrite <- Hp, <- app_assoc in Hnd. by apply NoDup_app in Hnd as (_ & _ & ?). }
  split_and!; try done. intros j Hj Hne. by apply (extends_view s s' fl i j).
Qed.

(** A node used as a container. *)
Lemma become_ok s fl i m : store_ok s fl -> 0 <= i < nodeLen s -> view s i = VScalar EMPTY \/ view s i = VObject m ->
  let s' := become (OBJECT 0 0 None) i s in
  let m' := match view s i with VObject m => m | _ => [] end in
  store_ok s' fl /\ is_object (node s' i) = true /\ view s' i = VObject m' /\ extends i s s' /\ nodeLen s' = nodeLen s /\
  kvLen s' = kvLen s /\ strs s' = strs s /\ (forall j, 0 <= j < nodeLen s -> j <> i -> view s' j = view s j).
Proof.
  intros Hs Hi Hv s'. unfold s', become, view in *. destruct (node s i) as [| | | | | |off len|count cap b|count kvCap buf] eqn:En; try (destruct Hv; discriminate).
  - destruct (set_node_ok s fl i (OBJECT 0 0 None) Hs Hi) as (H1 & H2 & H3 & H4 & H5); [done|split; [done|by apply Forall_nil|by apply NoDup_nil_2]|].
    rewrite H3. by split_and!.
  - rewrite En. split_and!; try done. apply extends_refl.
Qed.

Section objects.
Context (Alloc_ok : Z -> bool) (junk : Z) (mem : forall n, Alloc_ok n = true).

(** A fresh node under a key that was not there. *)
Lemma link_key_ok s fl i off len :
  store_ok s fl -> 0 <= i < nodeLen s -> is_object (node s i) = true -> nodeLen s < 2 ^ 28 -> kvLen s < 2 ^ 28 ->
  0 <= off -> 0 <= len -> off + len <= strLen s -> str_at s off len ∉ (key s <$> keys_of (node s i)) ->
  exists s' fl', link_key Alloc_ok junk i off len s = (nodeLen s, s') /\ store_ok s' fl' /\
    view s' i = VObject (entries s (keys_of (node s i)) ++ [(str_at s off len, nodeLen s)]) /\ view s' (nodeLen s) = VScalar EMPTY /\
    (forall j, 0 <= j < nodeLen s -> j <> i -> view s' j = view s j) /\
    nodeLen s' = nodeLen s + 1 /\ kvLen s <= kvLen s' <= kvLen s + 1 /\ strs s' = strs s.
Proof.
  intros Hs Hi Ho Hn Hk Hoff Hlen Hstr Hnew. unfold link_key. destruct (so_caps _ _ Hs) as (Hca & _ & _).
  destruct (AllocNode_ok Alloc_ok mem s) as (cap & -> & Hcap); [lia|done|]. rewrite (proj2 (Z.eqb_neq _ _)) by (unfold JSON_NIL; lia).
  set (s1 := set_nodes (nodes s ++ [EMPTY]) cap s). destruct (add_node_ok s fl cap Hs Hn Hcap) as (Hs1 & El1 & Eo1 & Ee1 & En1). fold s1 in Hs1, El1, Eo1, Ee1, En1.
  assert (Hne : node s1 i = node s i) by by apply En1.
  destruct (node s1 i) as [| | | | | | | |count kvCap buf] eqn:Eni; try (rewrite <- Hne in Ho; discriminate).
  destruct (append_kv_ok Alloc_ok junk mem s1 fl i count kvCap buf off len (nodeLen s)) as (ki & s0 & s2 & fl' & EA & Hki & Eap & Hs2 & [Hv Hr] & Hob & He & El2 & Hk2 & Et2);
    [done|lia|done|done|lia|done|done|done| |].
  { rewrite Eni, Hne. exact Hnew. }
  exists s2, fl'. rewrite EA, (proj2 (Z.eqb_neq _ _) Hki), Eap. rewrite Eni, Hne in Hv. split_and!; [done|done|exact Hv| | |lia|exact (proj1 Hk2)|exact (proj2 Hk2)|exact Et2].
  - rewrite Hr by lia. unfold view. by rewrite Ee1.
  - intros j Hj Hji. rewrite Hr by lia. unfold view. rewrite En1 by done.
    apply (node_ok_ext s s1); [lia|done|by exists []; rewrite app_nil_r|done|by apply (node_is_ok s fl)].
Qed.

End objects.

(** ** The document a store holds, and what the operations do to it *)

(** One view per node; a reference is an index of the list, [JSON_NIL] the dead one. *)
Abbreviation document := (list nview).
Definition doc (s : JsonStore) : document := view_node s <$> nodes s.
Definition at_ref (D : document) (i : Z) : nview := default (VScalar EMPTY) (D !! Z.to_nat i).

Lemma doc_length s : length (doc s) = length (nodes s).
Proof. apply length_map. Qed.

Lemma doc_lookup s i : 0 <= i < nodeLen s -> doc s !! Z.to_nat i = Some (view s i).
Proof. intros Hi. unfold doc, view. by rewrite list_lookup_fmap, node_lookup. Qed.

Lemma doc_at s i : 0 <= i < nodeLen s -> at_ref (doc s) i = view s i.
Proof. intros Hi. unfold at_ref. by rewrite doc_lookup. Qed.

Lemma doc_change s s' i v : 0 <= i < nodeLen s -> nodeLen s' = nodeLen s -> view s' i = v ->
  (forall j, 0 <= j < nodeLen s -> j <> i -> view s' j = view s j) -> doc s' = <[Z.to_nat i := v]> (doc s).
Proof.
  intros Hi El Ev Er. apply list_eq_same_length with (n := length (nodes s)); [rewrite length_insert; apply doc_length|rewrite doc_length; unfold nodeLen in El; lia|].
  intros m x y Hm Hx Hy. replace m with (Z.to_nat (Z.of_nat m)) in Hx, Hy by lia. rewrite doc_lookup in Hx by (unfold nodeLen in *; lia).
  injection Hx as <-. destruct (decide (Z.of_nat m = i)) as [E|E].
  - rewrite E in Hy |- *. rewrite list_lookup_insert_eq in Hy by (rewrite doc_length; unfold nodeLen in *; lia). injection Hy as <-. done.
  - rewrite list_lookup_insert_ne in Hy by lia. rewrite doc_lookup in Hy by (unfold nodeLen in *; lia). injection Hy as <-. apply Er; [unfold nodeLen; lia|done].
Qed.

Lemma doc_same s s' : nodeLen s' = nodeLen s -> (forall j, 0 <= j < nodeLen s -> view s' j = view s j) -> doc s' = doc s.
Proof.
  intros El Er. apply list_eq_same_length with (n := length (nodes s)); [apply doc_length|rewrite doc_length; unfold nodeLen in El; lia|].
  intros m x y Hm Hx Hy. replace m with (Z.to_nat (Z.of_nat m)) in Hx, Hy by lia. rewrite doc_lookup in Hx, Hy by (unfold nodeLen in *; lia).
  injection Hx as <-. injection Hy as <-. apply Er. unfold nodeLen. lia.
Qed.

Lemma doc_grow s s' i v w : 0 <= i < nodeLen s -> nodeLen s' = nodeLen s + 1 -> view s' i = v -> view s' (nodeLen s) = w ->
  (forall j, 0 <= j < nodeLen s -> j <> i -> view s' j = view s j) -> doc s' = <[Z.to_nat i := v]> (doc s) ++ [w].
Proof.
  intros Hi El Ev Ew Er. pose proof (doc_length s) as Hd.
  apply list_eq_same_length with (n := S (length (nodes s))); [rewrite length_app, length_insert; cbn; lia|rewrite doc_length; unfold nodeLen in El; lia|].
  intros m x y Hm Hx Hy. replace m with (Z.to_nat (Z.of_nat m)) in Hx by lia. rewrite doc_lookup in Hx by (unfold nodeLen in *; lia).
  injection Hx as <-. destruct (decide (m < length (nodes s))%nat) as [Hlt|Hge].
  - rewrite lookup_app_l in Hy by (rewrite length_insert; lia). destruct (decide (Z.of_nat m = i)) as [E|E].
    + rewrite E. replace m with (Z.to_nat i) in Hy by lia. rewrite list_lookup_insert_eq in Hy by lia. by injection Hy as <-.
    + rewrite list_lookup_insert_ne in Hy by lia. replace m with (Z.to_nat (Z.of_nat m)) in Hy by lia. rewrite doc_lookup in Hy by (unfold nodeLen; lia).
      injection Hy as <-. apply Er; [unfold nodeLen; lia|done].
  - rewrite lookup_app_r in Hy by (rewrite length_insert; lia). rewrite length_insert in Hy. replace (m - length (doc s))%nat with 0%nat in Hy by lia.
    injection Hy as <-. replace (Z.of_nat m) with (nodeLen s) by (unfold nodeLen; lia). done.
Qed.

(** A node that can be used as an object, with its members; as an array, with its
    elements. *)
Definition members (v : nview) : option (list (bytes * Z)) :=
  match v with VScalar EMPTY => Some [] | VObject m => Some m | _ => None end.
Definition elements (v : nview) : option (list Z) :=
  match v with VScalar EMPTY => Some [] | VArray l => Some l | _ => None end.

Definition doc_get_or_create (i : Z) (k : bytes) (D : document) : Z * document :=
  if i =? JSON_NIL then (JSON_NIL, D)
  else match members (at_ref D i) with
       | None => (JSON_NIL, D)
       | Some m =>
           match find_member k m with
           | Some v => (v, D)
           | None => (Z.of_nat (length D), <[Z.to_nat i := VObject (m ++ [(k, Z.of_nat (length D))])]> D ++ [VScalar EMPTY])
           end
       end.

Definition doc_find (i : Z) (k : bytes) (D : document) : Z :=
  if i =? JSON_NIL then JSON_NIL
  else match at_ref D i with VObject m => default JSON_NIL (find_member k m) | _ => JSON_NIL end.

Definition replace_member (k : bytes) (v : Z) (m : list (bytes * Z)) : list (bytes * Z) :=
  (fun e => if bool_decide (e.1 = k) then (k, v) else e) <$> m.

Definition doc_set_ref (i : Z) (k : bytes) (v : Z) (D : document) : Z * document :=
  if (i =? JSON_NIL) || (v =? JSON_NIL) then (JSON_NIL, D)
  else match members (at_ref D i) with
       | None => (JSON_NIL, D)
       | Some m =>
           (v, <[Z.to_nat i := VObject (match find_member k m with Some _ => replace_member k v m | None => m ++ [(k, v)] end)]> D)
       end.

Definition doc_erase (i : Z) (k : bytes) (D : document) : bool * document :=
  if i =? JSON_NIL then (false, D)
  else match at_ref D i with
       | VObject m =>
           match find_member k m with
           | Some _ => (true, <[Z.to_nat i := VObject (filter (fun e => e.1 <> k) m)]> D)
           | None => (false, D)
           end
       | _ => (false, D)
       end.

Definition doc_push_back (i : Z) (D : document) : Z * document :=
  if i =? JSON_NIL then (JSON_NIL, D)
  else match elements (at_ref D i) with
       | None => (JSON_NIL, D)
       | Some l => (Z.of_nat (length D), <[Z.to_nat i := VArray (l ++ [Z.of_nat (length D)])]> D ++ [VScalar EMPTY])
       end.

Definition doc_at_index (i n : Z) (D : document) : Z :=
  if i =? JSON_NIL then JSON_NIL
  else match at_ref D i with VArray l => default JSON_NIL (l !! Z.to_nat n) | _ => JSON_NIL end.

Definition doc_erase_index (i n : Z) (D : document) : bool * document :=
  if i =? JSON_NIL then (false, D)
  else match at_ref D i with
       | VArray l => if n <? Z.of_nat (length l) then (true, <[Z.to_nat i := VArray (delete (Z.to_nat n) l)]> D) else (false, D)
       | _ => (false, D)
       end.

Definition doc_assign (i : Z) (v : nview) (D : document) : document :=
  if i =? JSON_NIL then D else <[Z.to_nat i := v]> D.

(** One step of the store and what it does to the document. *)
Definition simulates {R} (s : JsonStore) (l : Z) (out : R * JsonStore) (spec : R * document) : Prop :=
  out.1 = spec.1 /\ doc out.2 = spec.2 /\ (exists fl, store_ok out.2 fl) /\
  nodeLen out.2 <= nodeLen s + 1 /\ kvLen out.2 <= kvLen s + 1 /\ strLen out.2 <= strLen s + l.

Definition good_ref (s : JsonStore) (i : Z) : Prop := i = JSON_NIL \/ 0 <= i < nodeLen s.

(** Room for [n] nodes and keys and [l] bytes of text. *)
Definition room (s : JsonStore) (n l : Z) : Prop := nodeLen s + n <= 2 ^ 28 /\ kvLen s + n <= 2 ^ 28 /\ strLen s + l <= 2 ^ 30.

Lemma simulates_same {R} s fl l (r : R) : store_ok s fl -> 0 <= l -> simulates s l (r, s) (r, doc s).
Proof. intros Hs Hl. split_and!; cbn; try done; try lia. by exists fl. Qed.

Lemma small_ref s fl i : store_ok s fl -> 0 <= i < nodeLen s -> (i =? JSON_NIL) = false.
Proof. intros Hs Hi. destruct (so_small _ _ Hs). apply Z.eqb_neq. unfold JSON_NIL. lia. Qed.

Lemma become_none s i : 0 <= i < nodeLen s -> members (view s i) = None ->
  become (OBJECT 0 0 None) i s = s /\ is_object (node s i) = false.
Proof. intros Hi. unfold view, become. by destruct (node s i). Qed.

Lemma become_some s fl i m : store_ok s fl -> 0 <= i < nodeLen s -> members (view s i) = Some m ->
  let s' := become (OBJECT 0 0 None) i s in
  store_ok s' fl /\ is_object (node s' i) = true /\ view s' i = VObject m /\ nodeLen s' = nodeLen s /\
  kvLen s' = kvLen s /\ strs s' = strs s /\ (forall j, 0 <= j < nodeLen s -> j <> i -> view s' j = view s j).
Proof.
  intros Hs Hi Hm. destruct (become_ok s fl i m Hs Hi) as (H1 & H2 & H3 & _ & H4 & H5 & H6 & H7).
  - destruct (view s i) as [[]| | |]; try discriminate; [by left|right]. by injection Hm as ->.
  - split_and!; try done. rewrite H3. destruct (view s i) as [[]| | |]; try discriminate; by injection Hm as ->.
Qed.

Lemma object_view s i m : view s i = VObject m -> is_object (node s i) = true /\ entries s (keys_of (node s i)) = m /\
  exists count kvCap buf, node s i = OBJECT count kvCap buf.
Proof. unfold view. destruct (node s i) as [| | | | | | | |count kvCap buf]; try discriminate. injection 1 as <-. split_and!; [done|done|by eexists _, _, _]. Qed.

Section operations.
Context (Alloc_ok : Z -> bool) (junk : Z) (mem : forall n, Alloc_ok n = true).

(** Text appended to the strings: nothing else changes. *)
Definition with_text (v : bytes) (cap : Z) (s : JsonStore) : JsonStore := set_strs (strs s ++ v ++ [0]) cap s.

Lemma with_text_ok s fl v cap : store_ok s fl -> strLen s + Z.of_nat (length v) + 1 <= 2 ^ 30 -> strLen s + Z.of_nat (length v) + 1 <= cap ->
  let s' := with_text v cap s in
  store_ok s' fl /\ strLen s' = strLen s + Z.of_nat (length v) + 1 /\ str_at s' (strLen s) (Z.of_nat (length v)) = v /\
  (forall j, 0 <= j < nodeLen s -> view s' j = view s j) /\ (forall x, x ∈ owned s -> key s' x = key s x).
Proof.
  intros Hs Hl Hcap s'. assert (Hlen : Z.of_nat (length (v ++ [0])) = Z.of_nat (length v) + 1) by (rewrite length_app; cbn; lia).
  destruct (str_add_ok s fl (v ++ [0]) cap Hs) as (H1 & H2 & H3); [lia|lia|].
  split_and!; try done; [unfold strLen; cbn; rewrite !length_app; cbn; lia| |].
  - unfold str_at, strLen. cbn. rewrite !Nat2Z.id, drop_app_length, take_app_length. done.
  - intros x Hx. destruct (kv_ok_ext s s' x) as [_ E2]; [done|done|by eexists|done|by apply (keys_are_ok s fl)|done].
Qed.

(** The text of a new key, then its node. *)
Lemma new_key_ok s fl k : store_ok s fl -> strLen s + Z.of_nat (length k) + 1 <= 2 ^ 30 ->
  exists s', AllocStr Alloc_ok junk (Some k) (Z.of_nat (length k)) s = (strLen s, s') /\ (strLen s =? JSON_NIL) = false /\
    store_ok s' fl /\ nodes s' = nodes s /\ kvs s' = kvs s /\ kvFree s' = kvFree s /\ strLen s' = strLen s + Z.of_nat (length k) + 1 /\
    str_at s' (strLen s) (Z.of_nat (length k)) = k /\
    (forall j, 0 <= j < nodeLen s -> view s' j = view s j) /\ (forall x, x ∈ owned s -> key s' x = key s x).
Proof.
  intros Hs Hl. destruct (so_caps _ _ Hs) as (_ & _ & Hca).
  destruct (AllocStr_ok Alloc_ok junk mem (Some k) (Z.of_nat (length k)) s) as (d & cap & E & -> & Hcap); [lia|by intros d [= <-]|lia|done|].
  eexists. split; [exact E|]. destruct (with_text_ok s fl k cap Hs Hl Hcap) as (H1 & H2 & H3 & H4 & H5).
  split_and!; try done. apply Z.eqb_neq. unfold JSON_NIL. lia.
Qed.

Lemma AppendKey_ok s fl i k m : store_ok s fl -> 0 <= i < nodeLen s -> view s i = VObject m -> find_member k m = None ->
  room s 1 (Z.of_nat (length k) + 1) ->
  simulates s (Z.of_nat (length k) + 1) (AppendKey Alloc_ok junk i k s)
    (nodeLen s, <[Z.to_nat i := VObject (m ++ [(k, nodeLen s)])]> (doc s) ++ [VScalar EMPTY]).
Proof.
  intros Hs Hi Hv Hk (R1 & R2 & R3). destruct (object_view s i m Hv) as (Ho & Em & count & kvCap & buf & En).
  destruct (HTFind_spec s fl i count kvCap buf k Hs Hi En) as [(x & _ & _ & _ & _ & E)|(Hout & _ & _)]; [rewrite Em in E; congruence|].
  destruct (new_key_ok s fl k Hs) as (s1 & EA & Enil & Hs1 & Enod & Ekv & _ & Est & Estr & Hvw & Hkey); [lia|].
  assert (Hn1 : node s1 i = node s i) by (unfold node; by rewrite Enod). assert (El1 : nodeLen s1 = nodeLen s) by (unfold nodeLen; by rewrite Enod).
  assert (Ek1 : kvLen s1 = kvLen s) by (unfold kvLen; by rewrite Ekv).
  destruct (link_key_ok Alloc_ok junk mem s1 fl i (strLen s) (Z.of_nat (length k))) as (s2 & fl2 & EL & Hs2 & Hv2 & He2 & Hr2 & El2 & Ek2 & Et2);
    [done|lia|by rewrite Hn1|lia|lia|unfold strLen; lia|lia|lia| |].
  { rewrite Estr, Hn1. intros Hbad. apply Hout. apply list_elem_of_fmap in Hbad as (y & E & Hy). rewrite E, Hkey by by apply (owned_in s i). by apply list_elem_of_fmap_2. }
  unfold AppendKey. rewrite EA, Enil, EL. rewrite El1 in *. split_and!; cbn; [done| |by exists fl2|lia|lia|unfold strLen in *; rewrite Et2; lia].
  apply doc_grow; [done|lia| |done|].
  - rewrite Hv2, Estr, Hn1. f_equal. f_equal. rewrite <- Em. specialize (Hvw i Hi). unfold view in Hvw. rewrite Hn1, En in Hvw. cbn [view_node] in Hvw.
    rewrite En. by injection Hvw.
  - intros j Hj Hne. rewrite Hr2 by lia. by apply Hvw.
Qed.

Theorem GetOrCreate_ok s fl i k : store_ok s fl -> good_ref s i -> room s 1 (Z.of_nat (length k) + 1) ->
  simulates s (Z.of_nat (length k) + 1) (GetOrCreate Alloc_ok junk i k s) (doc_get_or_create i k (doc s)).
Proof.
  intros Hs [->|Hi] Hr; [by apply (simulates_same s fl); [|lia]|]. unfold GetOrCreate, doc_get_or_create.
  rewrite (small_ref s fl i Hs Hi), doc_at, doc_length by done. fold (nodeLen s). destruct (members (view s i)) as [m|] eqn:Em.
  - destruct (become_some s fl i m Hs Hi Em) as (Hs1 & Ho & Hv & El & Ek & Et & Hrest). set (s1 := become (OBJECT 0 0 None) i s) in *. cbv zeta. rewrite Ho. cbn [negb].
    destruct (object_view s1 i m Hv) as (_ & Ee & count & kvCap & buf & En). rewrite <- El in Hi.
    destruct (HTFind_spec s1 fl i count kvCap buf k Hs1 Hi En) as [(x & Hx & Hkx & Hf & Hne & Efm)|(_ & Hf & Efm)]; rewrite Ee in Efm; rewrite Hf, Efm.
    + rewrite (proj2 (Z.eqb_neq _ _) Hne). cbn [negb]. assert (E1 : s1 = s).
      { unfold s1, become. unfold view in Em. destruct (node s i); try done. by injection Em as <-. }
      rewrite E1. apply (simulates_same s fl); [done|lia].
    + rewrite Z.eqb_refl. cbn [negb]. destruct (AppendKey_ok s1 fl i k m) as (A1 & A2 & A3 & A4 & A5 & A6); [done|done|done|done|unfold room, strLen in *; rewrite El, Ek, Et; exact Hr|].
      unfold strLen in *. rewrite El, ?Ek, ?Et in *. split_and!; try done. rewrite A2. cbn. f_equal.
      rewrite (doc_change s s1 i (VObject m)) by done. by rewrite list_insert_insert_eq.
  - destruct (become_none s i Hi Em) as [-> Ho]. cbv zeta. rewrite Ho. cbn [negb]. apply (simulates_same s fl); [done|lia].
Qed.

Theorem GetOrCreateStored_ok s fl i off len : store_ok s fl -> good_ref s i -> room s 1 0 -> 0 <= off -> 0 <= len -> off + len <= strLen s ->
  simulates s 0 (GetOrCreateStored Alloc_ok junk i off len s) (doc_get_or_create i (str_at s off len) (doc s)).
Proof.
  intros Hs [->|Hi] (R1 & R2 & R3) Hoff Hlen Hstr; [by apply (simulates_same s fl)|]. unfold GetOrCreateStored, doc_get_or_create.
  rewrite (small_ref s fl i Hs Hi), doc_at, doc_length by done. fold (nodeLen s). set (k := str_at s off len). destruct (members (view s i)) as [m|] eqn:Em.
  - destruct (become_some s fl i m Hs Hi Em) as (Hs1 & Ho & Hv & El & Ek & Et & Hrest). set (s1 := become (OBJECT 0 0 None) i s) in *. cbv zeta. rewrite Ho. cbn [negb].
    destruct (object_view s1 i m Hv) as (_ & Ee & count & kvCap & buf & En). rewrite <- El in Hi.
    assert (Estr : str_at s1 off len = k) by (unfold k, str_at; by rewrite Et). rewrite Estr.
    destruct (HTFind_spec s1 fl i count kvCap buf k Hs1 Hi En) as [(x & Hx & Hkx & Hf & Hne & Efm)|(Hout & Hf & Efm)]; rewrite Ee in Efm; rewrite Hf, Efm.
    + rewrite (proj2 (Z.eqb_neq _ _) Hne). cbn [negb]. assert (E1 : s1 = s).
      { unfold s1, become. unfold view in Em. destruct (node s i); try done. by injection Em as <-. }
      rewrite E1. apply (simulates_same s fl); [done|lia].
    + rewrite Z.eqb_refl. cbn [negb].
      destruct (link_key_ok Alloc_ok junk mem s1 fl i off len) as (s2 & fl2 & EL & Hs2 & Hv2 & He2 & Hr2 & El2 & Ek2 & Et2);
        [done|done|done|lia|lia|done|done|unfold strLen in *; rewrite Et; lia|by rewrite Estr|].
      rewrite EL, El. split_and!; cbn [fst snd]; [done| |by exists fl2|lia|lia|unfold strLen in *; rewrite Et2, Et; lia].
      apply doc_grow; [lia|lia|by rewrite Hv2, Ee, Estr, El|by rewrite <- El|]. intros j Hj Hne. rewrite Hr2 by lia. by apply Hrest.
  - destruct (become_none s i Hi Em) as [-> Ho]. cbv zeta. rewrite Ho. cbn [negb]. apply (simulates_same s fl); [done|lia].
Qed.

Theorem Find_ok s fl i k : store_ok s fl -> good_ref s i -> Find i k s = doc_find i k (doc s).
Proof.
  intros Hs [->|Hi]; [done|]. unfold Find, doc_find. rewrite (small_ref s fl i Hs Hi), doc_at by done. cbn [orb].
  destruct (is_object (node s i)) eqn:Ho; cbn [negb].
  - unfold view. destruct (node s i) as [| | | | | | | |count kvCap buf] eqn:En; try discriminate. cbn [view_node].
    destruct (HTFind_spec s fl i count kvCap buf k Hs Hi En) as [(x & Hx & Hkx & Hf & Hne & Efm)|(_ & Hf & Efm)]; rewrite En in Efm; rewrite Hf, Efm.
    + by rewrite (proj2 (Z.eqb_neq _ _) Hne).
    + done.
  - unfold view. by destruct (node s i).
Qed.

End operations.

(** *** A key renamed to another node *)

Lemma replace_entries s s' kl x v :
  NoDup (key s <$> kl) -> x ∈ kl -> (forall y, key s' y = key s y) -> valIdx (kv s' x) = v ->
  (forall y, y ∈ kl -> y <> x -> kv s' y = kv s y) -> entries s' kl = replace_member (key s x) v (entries s kl).
Proof.
  intros Hnd Hx Hkey Hv Hr. unfold entries, replace_member. rewrite <- list_fmap_compose. apply map_ext_in. intros y Hy%list_elem_of_In. cbn.
  rewrite Hkey. case_bool_decide as E.
  - assert (y = x) as ->; [|by rewrite Hv]. apply list_elem_of_lookup in Hx as [a Ha], Hy as [b Hb]. 
    assert (a = b); [|congruence]. apply (NoDup_lookup (key s <$> kl) a b (key s x) Hnd); rewrite list_lookup_fmap; [by rewrite Ha|by rewrite Hb; cbn; rewrite E].
  - rewrite Hr; [done|done|]. by intros ->.
Qed.

Lemma rename_ok s fl i count kvCap buf x v :
  store_ok s fl -> 0 <= i < nodeLen s -> node s i = OBJECT count kvCap buf -> x ∈ keys_of (node s i) -> 0 <= v < nodeLen s ->
  let s' := set_kv x (KV (keyOff (kv s x)) (keyLen (kv s x)) v (pad (kv s x))) s in
  store_ok s' fl /\ view s' i = VObject (replace_member (key s x) v (entries s (keys_of (node s i)))) /\
  (forall j, 0 <= j < nodeLen s -> j <> i -> view s' j = view s j).
Proof.
  intros Hs Hi En Hx Hv s'. set (kl := keys_of (node s i)) in *. destruct (obj_count s fl i count kvCap buf Hs Hi En) as [[T HF Hnd] _]. fold kl in T, HF, Hnd.
  assert (Hxo : x ∈ owned s) by by apply (owned_in s i). pose proof (keys_are_ok s fl x Hs Hxo) as (X1 & X2 & X3 & X4).
  assert (Ek : forall y, 0 <= y -> kv s' y = if decide (x = y) then KV (keyOff (kv s x)) (keyLen (kv s x)) v (pad (kv s x)) else kv s y) by (intros y Hy; by apply kv_set).
  assert (Ekx : forall y, 0 <= y -> y <> x -> kv s' y = kv s y) by (intros y Hy Hne; rewrite Ek by done; by rewrite decide_False by congruence).
  assert (Exx : kv s' x = KV (keyOff (kv s x)) (keyLen (kv s x)) v (pad (kv s x))) by (rewrite Ek by lia; by rewrite decide_True).
  assert (Ekl : kvLen s' = kvLen s) by apply kvLen_set.
  assert (Hpos : forall y, y ∈ owned s -> 0 <= y) by (intros y Hy; destruct (keys_are_ok s fl y Hs Hy); lia).
  assert (Ekey : forall y, key s' y = key s y).
  { intros y. unfold key, key_of. destruct (decide (y = x)) as [->|Hne]; [by rewrite Exx|]. unfold kv, s', set_kv. cbn.
    destruct (decide (Z.to_nat x = Z.to_nat y)) as [E|E]; [|by rewrite list_lookup_insert_ne].
    rewrite <- E, list_lookup_insert_eq by (unfold kvLen in *; lia). cbn. unfold kv. by rewrite E. }
  assert (He : extends i s s').
  { split; [done|done|by exists []; rewrite app_nil_r|]. intros y Hy Hn. apply Ekx; [by apply Hpos|]. by intros ->. }
  assert (Hn : node_ok s' (node s' i)).
  { change (node s' i) with (node s i). rewrite En. cbn [node_ok]. fold (keys_of (OBJECT count kvCap buf)). rewrite <- En. fold kl. split.
    - apply (table_ext s); [intros; apply Ekey|done].
    - rewrite Forall_forall in HF |- *. intros y Hy. unfold kv_ok. destruct (HF y Hy) as (Y1 & Y2 & Y3 & Y4). rewrite Ekl. destruct (decide (y = x)) as [->|Hne].
      + rewrite Exx. done.
      + rewrite Ekx by (done || lia). done.
    - replace (key s' <$> kl) with (key s <$> kl); [done|]. apply map_ext. intros. by rewrite Ekey. }
  assert (Hok : store_ok s' fl).
  { destruct (Hs) as [_ Hf Hno Hsm Hca]. apply (extends_ok s s' fl fl i); try done; [lia|intros; change (nodeLen s') with (nodeLen s) in *; lia| |by rewrite Ekl|by rewrite Ekl].
    apply (chain_ext s); [lia| |done]. intros y Hy Hy'. apply Ekx; [done|]. intros ->. apply NoDup_app in Hno as (_ & Hd & _). by apply (Hd x). }
  split_and!; [done| |intros j Hj Hne; apply (extends_view s s' fl i j); [done|done|done|lia|done|done]].
  unfold view. change (node s' i) with (node s i). rewrite En. cbn [view_node]. fold (keys_of (OBJECT count kvCap buf)). rewrite <- En. fold kl. f_equal.
  apply replace_entries; [done|done|done|by rewrite Exx|]. intros y Hy Hne. apply Ekx; [|done]. apply Hpos. by apply (owned_in s i).
Qed.

Section operations_more.
Context (Alloc_ok : Z -> bool) (junk : Z) (mem : forall n, Alloc_ok n = true).

Theorem SetRef_ok s fl i k v : store_ok s fl -> good_ref s i -> good_ref s v -> room s 1 (Z.of_nat (length k) + 1) ->
  simulates s (Z.of_nat (length k) + 1) (SetRef Alloc_ok junk i k v s) (doc_set_ref i k v (doc s)).
Proof.
  intros Hs [->|Hi] Hv Hr; [by apply (simulates_same s fl); [|lia]|]. unfold SetRef, doc_set_ref. rewrite (small_ref s fl i Hs Hi), doc_at by done. cbn [orb].
  destruct Hv as [->|Hv]; [by apply (simulates_same s fl); [|lia]|]. rewrite (small_ref s fl v Hs Hv).
  destruct (members (view s i)) as [m|] eqn:Em.
  - destruct (become_some s fl i m Hs Hi Em) as (Hs1 & Ho & Hvi & El & Ek & Et & Hrest). set (s1 := become (OBJECT 0 0 None) i s) in *. cbv zeta. rewrite Ho. cbn [negb].
    destruct (object_view s1 i m Hvi) as (_ & Ee & count & kvCap & buf & En). destruct Hr as (R1 & R2 & R3).
    destruct (HTFind_spec s1 fl i count kvCap buf k Hs1 ltac:(lia) En) as [(x & Hx & Hkx & Hf & Hne & Efm)|(Hout & Hf & Efm)]; rewrite Ee in Efm; rewrite Hf, Efm.
    + rewrite (proj2 (Z.eqb_neq _ _) Hne). cbn [negb]. destruct (rename_ok s1 fl i count kvCap buf x v Hs1 ltac:(lia) En Hx ltac:(lia)) as (A1 & A2 & A3).
      rewrite Ee, Hkx in A2. split_and!; cbn [fst snd]; [done| |by exists fl|unfold nodeLen in *; cbn; lia|rewrite kvLen_set; lia|unfold strLen in *; cbn; rewrite Et; lia].
      apply doc_change; [done|unfold nodeLen in *; cbn; lia|done|]. intros j Hj Hji. rewrite A3 by (done || lia). by apply Hrest.
    + rewrite Z.eqb_refl. cbn [negb]. assert (Est : strLen s1 = strLen s) by (unfold strLen; by rewrite Et).
      destruct (new_key_ok Alloc_ok junk mem s1 fl k Hs1) as (s2 & EA & Enil & Hs2 & Enod & Ekv & _ & Est2 & Estr & Hvw & Hkey); [lia|].
      rewrite EA, Enil. assert (Hn2 : node s2 i = node s1 i) by (unfold node; by rewrite Enod). assert (El2 : nodeLen s2 = nodeLen s1) by (unfold nodeLen; by rewrite Enod).
      assert (Ek2 : kvLen s2 = kvLen s1) by (unfold kvLen; by rewrite Ekv).
      destruct (append_kv_ok Alloc_ok junk mem s2 fl i count kvCap buf (strLen s1) (Z.of_nat (length k)) v) as (ki & s0 & s3 & fl' & EK & Hki & Eap & Hs3 & [Hv3 Hr3] & _ & _ & El3 & Hk3 & Et3);
        [done|lia|by rewrite Hn2|lia|lia|unfold strLen; lia|lia|lia| |].
      { rewrite Estr, Hn2. intros Hbad. apply Hout. apply list_elem_of_fmap in Hbad as (y & E & Hy).
        rewrite E, Hkey by (apply (owned_in s1 i); [lia|done]). by apply list_elem_of_fmap_2. }
      rewrite EK, (proj2 (Z.eqb_neq _ _) Hki), Eap. split_and!; cbn; [done| |by exists fl'|lia|lia|unfold strLen in *; rewrite Et3; lia].
      apply doc_change; [done|lia| |].
      * rewrite Hv3, Estr, Hn2. f_equal. f_equal. rewrite <- Ee. specialize (Hvw i ltac:(lia)). unfold view in Hvw. rewrite Hn2, En in Hvw. cbn [view_node] in Hvw.
        rewrite En. by injection Hvw.
      * intros j Hj Hji. rewrite Hr3 by lia. rewrite Hvw by lia. by apply Hrest.
  - destruct (become_none s i Hi Em) as [-> Ho]. cbv zeta. rewrite Ho. cbn [negb]. apply (simulates_same s fl); [done|lia].
Qed.

End operations_more.

(** ** Arrays and values *)

Lemma assign_ok s fl i n : store_ok s fl -> good_ref s i -> keys_of n = [] -> node_ok s n ->
  doc (assign i n s) = doc_assign i (view_node s n) (doc s) /\ store_ok (assign i n s) fl /\ nodeLen (assign i n s) = nodeLen s.
Proof.
  intros Hs [->|Hi] Hk Hn; [done|]. unfold assign, doc_assign. rewrite (small_ref s fl i Hs Hi).
  destruct (set_node_ok s fl i n Hs Hi Hk Hn) as (H1 & H2 & H3 & H4 & H5). split_and!; [|done|done].
  apply doc_change; [done|done| |done]. unfold view. rewrite H3. apply (node_ok_ext s (set_node i n s)); [lia|done|by exists []; rewrite app_nil_r|done|done].
Qed.

Lemma bounded_elems s l : NoDup l -> Forall (fun x => 0 <= x < nodeLen s) l -> Z.of_nat (length l) <= nodeLen s.
Proof.
  intros Hnd HF. rewrite Forall_forall in HF. pose proof (bounded_length l (nodeLen s) Hnd HF). assert (0 <= nodeLen s) by (unfold nodeLen; lia). lia.
Qed.

Lemma elements_spec s fl i l : store_ok s fl -> 0 <= i < nodeLen s -> elements (view s i) = Some l ->
  Forall (fun x => 0 <= x < nodeLen s) l /\ NoDup l /\
  exists cap buf, node (become (ARRAY 0 0 None) i s) i = ARRAY (Z.of_nat (length l)) cap buf /\
    ((buf = None /\ l = [] /\ cap = 0) \/ exists b, buf = Some b /\ Z.of_nat (length b) = cap /\ take (length l) b = l /\ (length l <= length b)%nat).
Proof.
  intros Hs Hi He. pose proof (node_is_ok s fl i Hs Hi) as Hn. unfold view, become in *. destruct (node s i) as [| | | | | | |count cap [b|]|] eqn:En; try discriminate.
  - injection He as <-. split_and!; [by apply Forall_nil|by apply NoDup_nil_2|]. exists 0, None. rewrite node_set_node by lia. rewrite decide_True by done. split; [done|by left].
  - injection He as <-. cbn [node_ok elems_of] in *. destruct Hn as (H1 & H2 & H3 & H4). split_and!; [done|done|]. exists cap, (Some b). rewrite En, length_take.
    split; [f_equal; lia|]. right. exists b. split_and!; [done|done| |lia]. by rewrite Nat.min_l by lia.
  - injection He as <-. destruct Hn as [-> ->]. split_and!; [by apply Forall_nil|by apply NoDup_nil_2|]. exists 0, None. rewrite En. split; [done|by left].
Qed.

Lemma become_array s fl i l : store_ok s fl -> 0 <= i < nodeLen s -> elements (view s i) = Some l ->
  let s' := become (ARRAY 0 0 None) i s in
  store_ok s' fl /\ nodeLen s' = nodeLen s /\ nodeCap s' = nodeCap s /\ kvLen s' = kvLen s /\ strs s' = strs s /\
  view s' i = VArray l /\ (forall j, 0 <= j < nodeLen s -> j <> i -> view s' j = view s j).
Proof.
  intros Hs Hi He s'. unfold s', become. destruct (node s i) as [| | | | | | |count cap b|] eqn:En; try by (unfold view in He; rewrite En in He).
  - destruct (set_node_ok s fl i (ARRAY 0 0 None) Hs Hi) as (H1 & H2 & H3 & H4 & H5); [done|done|]. split_and!; try done.
    unfold view in *. rewrite H3. rewrite En in He. by injection He as <-.
  - split_and!; try done. unfold view in *. rewrite En in *. by injection He as <-.
Qed.

Section arrays.
Context (Alloc_ok : Z -> bool) (junk : Z) (mem : forall n, Alloc_ok n = true).

Lemma ArrAppend_ok s i l cap buf v :
  node s i = ARRAY (Z.of_nat (length l)) cap buf -> Z.of_nat (length l) < 2 ^ 28 ->
  (buf = None /\ l = [] /\ cap = 0) \/ (exists b, buf = Some b /\ Z.of_nat (length b) = cap /\ take (length l) b = l /\ (length l <= length b)%nat) ->
  exists cap' b', ArrAppend Alloc_ok junk i v s = (true, set_node i (ARRAY (Z.of_nat (length l) + 1) cap' (Some b')) s) /\
    Z.of_nat (length b') = cap' /\ (length l < length b')%nat /\ take (S (length l)) b' = l ++ [v].
Proof.
  intros En Hl Hb. unfold ArrAppend. rewrite En.
  assert (Hput : forall c b, Z.of_nat (length b) = c -> take (length l) b = l -> (length l < length b)%nat ->
    exists cap' b', (true, set_node i (ARRAY (Z.of_nat (length l) + 1) c (Some (set_word (Z.of_nat (length l)) v b))) s) =
      (true, set_node i (ARRAY (Z.of_nat (length l) + 1) cap' (Some b')) s) /\ Z.of_nat (length b') = cap' /\ (length l < length b')%nat /\ take (S (length l)) b' = l ++ [v]).
  { intros c b Hc Ht Hlt. exists c, (set_word (Z.of_nat (length l)) v b). unfold set_word. rewrite Nat2Z.id, length_insert.
    split_and!; [done|done|done|]. by rewrite take_insert_snoc, Ht. }
  destruct (Z.leb_spec cap (Z.of_nat (length l))) as [Hle|Hgt]; cbv zeta.
  - unfold realloc_words. rewrite mem. apply Hput; destruct Hb as [(-> & -> & ->)|(b & -> & <- & Ht & Hlen)].
    + done.
    + rewrite length_resize. destruct (Z.of_nat (length b) =? 0); unfold wrap, JSON_INIT_CAP; [done|]. rewrite Z2Nat.id by (apply Z.mod_pos_bound; done). done.
    + done.
    + change (default [] (Some b)) with b. rewrite take_resize_le; [|]. 
      * by rewrite resize_le.
      * destruct (Z.eqb_spec (Z.of_nat (length b)) 0); unfold JSON_INIT_CAP; [lia|]. rewrite wrap_small by lia. lia.
    + rewrite length_resize. apply Nat.ltb_lt. by vm_compute.
    + rewrite length_resize. destruct (Z.eqb_spec (Z.of_nat (length b)) 0); unfold JSON_INIT_CAP; [lia|]. rewrite wrap_small by lia. lia.
  - destruct Hb as [(-> & -> & ->)|(b & -> & <- & Ht & Hlen)]; [cbn in Hgt; lia|]. change (default [] (Some b)) with b. apply Hput; [done|done|lia].
Qed.

Theorem PushBack_ok s fl i : store_ok s fl -> good_ref s i -> room s 1 0 ->
  simulates s 0 (PushBack Alloc_ok junk i s) (doc_push_back i (doc s)).
Proof.
  intros Hs [->|Hi] (R1 & R2 & R3); [by apply (simulates_same s fl)|]. unfold PushBack, doc_push_back.
  rewrite (small_ref s fl i Hs Hi), doc_at, doc_length by done. fold (nodeLen s). destruct (elements (view s i)) as [l|] eqn:El.
  - destruct (elements_spec s fl i l Hs Hi El) as (HF & Hnd & cap & buf & En & Hb). pose proof (bounded_elems s l Hnd HF) as Hlen.
    destruct (become_array s fl i l Hs Hi El) as (Hs1 & El1 & Ec1 & Ek1 & Et1 & Hv1 & Hr1). set (s1 := become (ARRAY 0 0 None) i s) in *.
    cbv zeta. rewrite En. cbn [is_array negb]. destruct (so_caps _ _ Hs1) as (Hca & _ & _).
    destruct (AllocNode_ok Alloc_ok mem s1) as (cp & -> & Hcp); [lia|done|]. rewrite (proj2 (Z.eqb_neq _ _)) by (unfold JSON_NIL; lia).
    destruct (add_node_ok s1 fl cp Hs1 ltac:(lia) Hcp) as (Hs2 & El2 & Eo2 & Ee2 & En2). set (s2 := set_nodes (nodes s1 ++ [EMPTY]) cp s1) in *.
    assert (Eni : node s2 i = ARRAY (Z.of_nat (length l)) cap buf) by (rewrite En2 by lia; exact En).
    destruct (ArrAppend_ok s2 i l cap buf (nodeLen s1) Eni ltac:(lia) Hb) as (cap' & b' & -> & Hc' & Hlt & Htk).
    set (n := ARRAY (Z.of_nat (length l) + 1) cap' (Some b')). assert (Hel : elems_of n = l ++ [nodeLen s1]).
    { cbn. replace (Z.to_nat (Z.of_nat (length l) + 1)) with (S (length l)) by lia. done. }
    rewrite Forall_forall in HF.
    destruct (set_node_ok s2 fl i n Hs2 ltac:(lia)) as (H1 & H2 & H3 & H4 & H5); [done| |].
    { cbn [node_ok n]. fold n. rewrite Hel. split_and!; [done|lia|lia| |].
      - apply Forall_app. split; [|by apply Forall_singleton; lia]. apply Forall_forall. intros x Hx. specialize (HF x Hx). lia.
      - apply NoDup_app. split_and!; [done| |apply NoDup_singleton]. intros x Hx Hx'%list_elem_of_singleton. specialize (HF x Hx). lia. }
    split_and!; cbn [fst snd]; [done| |by exists fl|lia|change (kvLen s1 <= kvLen s + 1); lia|unfold strLen in *; change (Z.of_nat (length (strs s1)) <= Z.of_nat (length (strs s)) + 0); rewrite Et1; lia].
    apply doc_grow; [done|lia| | |].
    + unfold view. rewrite H3. cbn [view_node n]. fold n. by rewrite Hel, El1.
    + rewrite <- El1, H5 by lia. unfold view. by rewrite Ee2.
    + intros j Hj Hne. rewrite H5 by lia. rewrite <- Hr1 by done. unfold view. rewrite En2 by lia.
      apply (node_ok_ext s1 s2); [lia|done|by exists []; rewrite app_nil_r|done|]. apply (node_is_ok s1 fl); [done|lia].
  - assert (Eb : become (ARRAY 0 0 None) i s = s /\ is_array (node s i) = false) by (unfold view, become in *; by destruct (node s i)).
    destruct Eb as [-> Hn]. cbv zeta. rewrite Hn. cbn [negb]. apply (simulates_same s fl); [done|lia].
Qed.

End arrays.

(** ** Erasing *)

Lemma filter_neq_split {A} `{EqDecision A} (l1 l2 : list A) x :
  NoDup (l1 ++ x :: l2) -> filter (fun y => y <> x) (l1 ++ x :: l2) = l1 ++ l2.
Proof.
  intros Hnd. assert (Hid : forall l : list A, x ∉ l -> filter (fun y => y <> x) l = l).
  { induction l as [|y l IH]; intros Hn; [done|]. apply not_elem_of_cons in Hn as [H1 H2]. rewrite filter_cons, decide_True by congruence. by rewrite IH. }
  apply NoDup_app in Hnd as (_ & Hd & Hnd). apply NoDup_cons in Hnd as [Hx _]. rewrite filter_app, filter_cons, decide_False by (intros ?; done).
  rewrite !Hid; [done|done|]. intros Hin. apply (Hd x Hin), list_elem_of_here.
Qed.

Lemma unlist_ok N pd l1 m x l2 rest sl n :
  x ∉ m -> (length m < n)%nat ->
  exists rest', unlist n (Z.of_nat (length l1)) (Z.of_nat (length (l1 ++ m ++ x :: l2))) x (buf_of N pd ((l1 ++ m ++ x :: l2) ++ rest) sl) =
    buf_of N pd ((l1 ++ m ++ l2) ++ rest') sl /\ length rest' = S (length rest).
Proof.
  revert l1 n. induction m as [|y m IH]; intros l1 n Hx Hn; (destruct n as [|n]; [cbn in Hn; lia|]).
  - cbn [unlist app]. rewrite word_list by (rewrite !length_app; cbn; lia).
    assert (Ew : nth_word ((l1 ++ x :: l2) ++ rest) (Z.of_nat (length l1)) = x).
    { unfold nth_word. rewrite Nat2Z.id, <- app_assoc, lookup_app_r, Nat.sub_diag by lia. done. }
    rewrite Ew, Z.eqb_refl. exists (drop (length (l1 ++ l2)) ((l1 ++ x :: l2) ++ rest)). split; [|rewrite length_drop, !length_app; cbn; lia].
    unfold blit, buf_of. replace (Z.to_nat (2 + Z.of_nat (length l1) + 1)) with (S (S (S (length l1)))) by lia.
    replace (Z.to_nat (2 + Z.of_nat (length l1))) with (S (S (length l1))) by lia. cbn [drop take app].
    replace (drop (S (length l1)) (((l1 ++ x :: l2) ++ rest) ++ sl)) with (l2 ++ rest ++ sl).
    2:{ rewrite <- !app_assoc. cbn [app]. replace (S (length l1)) with (length l1 + 1)%nat by lia. rewrite <- drop_drop, drop_app_length. done. }
    replace (Z.to_nat (Z.of_nat (length (l1 ++ x :: l2)) - Z.of_nat (length l1) - 1)) with (length l2) by (rewrite length_app; cbn; lia).
    rewrite take_app_length. cbn [Nat.add drop]. rewrite <- length_app, (drop_app_le _ sl) by (rewrite !length_app; cbn; lia).
    rewrite <- !app_assoc, take_app_length. done.
  - apply not_elem_of_cons in Hx as [H1 H2]. cbn [unlist]. rewrite word_list by (rewrite !length_app; cbn; lia).
    assert (Ew : nth_word ((l1 ++ (y :: m) ++ x :: l2) ++ rest) (Z.of_nat (length l1)) = y).
    { unfold nth_word. rewrite Nat2Z.id, <- app_assoc, lookup_app_r, Nat.sub_diag by lia. done. }
    rewrite Ew, (proj2 (Z.eqb_neq y x)) by congruence. cbn in Hn. destruct (IH (l1 ++ [y]) n H2 ltac:(lia)) as (rest' & E & Hl).
    rewrite <- !app_assoc in E. cbn [app] in E. rewrite length_app in E. cbn [length] in E. exists rest'. rewrite <- !app_assoc. cbn [app].
    replace (Z.of_nat (length l1) + 1) with (Z.of_nat (length l1 + 1)) by lia. split; [exact E|done].
Qed.

Lemma tombstones_of N pd kr sl : tombstones (buf_of N pd kr sl) (Z.of_nat (length kr)) (Z.of_nat (length sl)) =
  Z.of_nat (length (filter (fun x => x = JSON_TOMB) sl)).
Proof.
  unfold tombstones. pose proof (slots_of N pd kr sl []) as E. rewrite !app_nil_r in E. rewrite E, Nat2Z.id, firstn_all. done.
Qed.

(** A tombstone in the place of [x]: the other keys are still reached. *)
Lemma bury_ok k N l1 l2 x sl h :
  table_ok k N (l1 ++ x :: l2) sl -> NoDup (l1 ++ x :: l2) -> live x -> 0 <= h < N -> nth_word sl h = x ->
  let sl' := <[Z.to_nat h := JSON_TOMB]> sl in
  Z.of_nat (length sl') = N /\ filter live sl' ≡ₚ l1 ++ l2 /\ (forall y, y ∈ l1 ++ l2 -> reach N sl' (hash_key (k y) N) y).
Proof.
  intros [HN Hl Hv Hr Ht Hld] Hnd Hx Hh Ex sl'. pose proof (pow_pos N HN). split_and!.
  - unfold sl'. by rewrite length_insert.
  - apply (Permutation_cons_inv (a := x)). rewrite (Permutation_middle l1 l2 x), <- Hv. apply filter_lose; [|done|by intros []].
    rewrite nth_word_elem by lia. by rewrite Ex.
  - intros y Hy. assert (Hyx : y <> x).
    { intros ->. apply NoDup_app in Hnd as (_ & Hd & Hnd). apply NoDup_cons in Hnd as [H2 _]. apply elem_of_app in Hy as [Hy|Hy]; [|done].
      apply (Hd x Hy), list_elem_of_here. }
    destruct (Hr y) as (d & Hd & Ed & Hp); [apply elem_of_app in Hy as [|]; apply elem_of_app; [by left|right; by apply list_elem_of_further]|].
    assert (Hw : forall m, 0 <= m -> nth_word sl' m = if decide (m = h) then JSON_TOMB else nth_word sl m).
    { intros m Hm. unfold nth_word, sl'. destruct (decide (m = h)) as [->|Hne]; [rewrite list_lookup_insert_eq by lia; done|]. by rewrite list_lookup_insert_ne by lia. }
    exists d. split; [done|]. split.
    + rewrite Hw by (apply Z.mod_pos_bound; lia). rewrite decide_False; [done|]. intros E. congruence.
    + intros j Hj. rewrite Hw by (apply Z.mod_pos_bound; lia). destruct (decide _); [done|]. by apply Hp.
Qed.

Lemma FreeKV_facts s x : 0 <= x < kvLen s ->
  kvLen (FreeKV x s) = kvLen s /\ (forall y, key (FreeKV x s) y = key s y) /\ (forall y, 0 <= y -> y <> x -> kv (FreeKV x s) y = kv s y) /\
  kvFree (FreeKV x s) = x /\ pad (kv (FreeKV x s) x) = kvFree s.
Proof.
  intros Hx. set (k := KV (keyOff (kv s x)) (keyLen (kv s x)) JSON_NIL (kvFree s)).
  assert (Ek : forall y, 0 <= y -> kv (FreeKV x s) y = if decide (x = y) then k else kv s y) by (intros y Hy; by apply (kv_set s x k y)).
  split_and!; [apply (kvLen_set s x k)| |intros y Hy Hne; rewrite Ek by done; by rewrite decide_False by congruence|done|rewrite Ek by lia; by rewrite decide_True].
  intros y. unfold key, key_of. destruct (decide (Z.to_nat x = Z.to_nat y)) as [E|E].
  - assert (kv s y = kv s x) as -> by (unfold kv; by rewrite E). replace (kv (FreeKV x s) y) with k; [done|].
    specialize (Ek x ltac:(lia)). rewrite decide_True in Ek by done. rewrite <- Ek. unfold kv. by rewrite E.
  - unfold kv, FreeKV, set_kv. cbn. by rewrite list_lookup_insert_ne.
Qed.

Section erasing.
Context (Alloc_ok : Z -> bool) (junk : Z) (mem : forall n, Alloc_ok n = true).

(** The buffer without key [x]: buried in the table, taken off the list, and the table
    rebuilt when tombstones fill a quarter of it. *)
Lemma erase_table s s1 N pd kr sl l1 l2 x h rest :
  kr = (l1 ++ x :: l2) ++ rest -> Z.of_nat (length kr) <= 2 ^ 29 -> N <= 2 ^ 30 -> table_ok (key s) N (l1 ++ x :: l2) sl ->
  NoDup (l1 ++ x :: l2) -> Forall live (l1 ++ x :: l2) -> 0 <= h < N -> nth_word sl h = x -> (forall y, key s1 y = key s y) ->
  let count := Z.of_nat (length (l1 ++ x :: l2)) in
  let kvCap := Z.of_nat (length kr) in
  let b := unlist (Z.to_nat count) 0 count x (set_word (2 + kvCap + h) JSON_TOMB (buf_of N pd kr sl)) in
  table s1 (count - 1) kvCap
    (Some (if N / 4 <? tombstones b kvCap N then default b (RebuildHT Alloc_ok junk s1 (count - 1) (Some b) N kvCap) else b)) (l1 ++ l2).
Proof.
  intros -> Hkr HN T Hnd Hlive Hh Ex Hkey count kvCap b. destruct (Forall_app live l1 (x :: l2)) as [Hsp _]. destruct (Hsp Hlive) as [Hl1 Hxl2].
  apply Forall_cons in Hxl2 as [Hx Hl2]. destruct (bury_ok _ N l1 l2 x sl h T Hnd Hx Hh Ex) as (B1 & B2 & B3). set (sl' := <[Z.to_nat h := JSON_TOMB]> sl) in *.
  apply NoDup_app in Hnd as (Hn1 & Hd & Hn2). apply NoDup_cons in Hn2 as [Hx2 Hn2].
  assert (Hx1 : x ∉ l1) by (intros Hin; apply (Hd x Hin), list_elem_of_here).
  assert (Hnd' : NoDup (l1 ++ l2)) by (apply NoDup_app; split_and!; [done| |done]; intros y Hy Hy'; apply (Hd y Hy); by apply list_elem_of_further).
  destruct (unlist_ok N pd [] l1 x l2 rest sl' (Z.to_nat count)) as (rest' & Eu & Hrest'); [done|unfold count; rewrite length_app; cbn; lia|].
  cbn [app length] in Eu. change (Z.of_nat 0) with 0 in Eu.
  assert (Eb : b = buf_of N pd ((l1 ++ l2) ++ rest') sl') by (unfold b, kvCap; rewrite set_slot by lia; exact Eu).
  assert (Ekr : Z.of_nat (length ((l1 ++ l2) ++ rest')) = kvCap) by (unfold kvCap; rewrite !length_app, Hrest'; cbn; lia).
  assert (Ec : count - 1 = Z.of_nat (length (l1 ++ l2))) by (unfold count; rewrite !length_app; cbn; lia).
  assert (Hkc : kvCap <= 2 ^ 29 /\ Z.of_nat (length (l1 ++ l2)) <= kvCap) by (split; [exact Hkr|rewrite <- Ekr, (length_app (l1 ++ l2)); lia]).
  pose proof T as [HNp Hsl _ _ _ Hload].
  assert (Hload' : 2 * Z.of_nat (length (l1 ++ l2)) <= N) by (unfold count in Ec; lia).
  assert (Et : tombstones b kvCap N = Z.of_nat (length (filter (fun x => x = JSON_TOMB) sl'))).
  { rewrite Eb, <- Ekr. rewrite <- B1. apply tombstones_of. }
  destruct (Z.ltb_spec (N / 4) (tombstones b kvCap N)) as [Hlt|Hge].
  - destruct (RebuildHT_ok Alloc_ok junk mem s1 (count - 1) (Some b) ((l1 ++ l2) ++ rest') N kvCap) as (kr' & sl2 & -> & Hlen & Htk & T').
    + left. exists N, pd, sl'. by rewrite Eb.
    + lia.
    + done.
    + done.
    + rewrite !length_app in *. lia.
    + lia.
    + rewrite Ec, Nat2Z.id, take_app_length. done.
    + rewrite Ec, Nat2Z.id, take_app_length. by apply Forall_app.
    + rewrite Ec, Nat2Z.id, take_app_length in *. change (default b (Some (buf_of N 0 kr' sl2))) with (buf_of N 0 kr' sl2).
      exists N, 0, kr', sl2. split_and!; [done|done|lia|done|lia|lia|by rewrite Nat2Z.id|done].
  - rewrite Eb. exists N, pd, ((l1 ++ l2) ++ rest'), sl'. rewrite Ec. rewrite Ekr. split_and!; [done|done|lia|done|lia|lia|by rewrite Nat2Z.id, take_app_length|].
    apply (table_ok_ext (key s)); [by intros; apply Hkey|]. split; [done|done|done|done| |done].
    rewrite Et in Hge. Z.to_euclidean_division_equations. lia.
Qed.

Lemma entries_without s l1 l2 x : NoDup (key s <$> (l1 ++ x :: l2)) ->
  filter (fun e => e.1 <> key s x) (entries s (l1 ++ x :: l2)) = entries s (l1 ++ l2).
Proof.
  intros Hnd. unfold entries. rewrite !fmap_app in *. cbn [fmap list_fmap] in *. apply NoDup_app in Hnd as (_ & Hd & Hnd). apply NoDup_cons in Hnd as [Hx _].
  assert (Hid : forall l : list Z, key s x ∉ (key s <$> l) -> filter (fun e : bytes * Z => e.1 <> key s x) ((fun x => (key s x, valIdx (kv s x))) <$> l) = (fun x => (key s x, valIdx (kv s x))) <$> l).
  { induction l as [|y l IH]; intros Hn; [done|]. cbn [fmap list_fmap] in *. apply not_elem_of_cons in Hn as [H1 H2]. rewrite filter_cons, decide_True by (cbn; congruence). by rewrite IH. }
  rewrite filter_app, filter_cons, decide_False by (cbn; intros ?; done). rewrite !Hid; [done|done|]. intros Hin. apply (Hd _ Hin), list_elem_of_here.
Qed.

(** The key goes to the free list, the object keeps the others. *)
Lemma erase_store s fl i count kvCap buf l1 x l2 c' kvCap' b' :
  store_ok s fl -> 0 <= i < nodeLen s -> node s i = OBJECT count kvCap buf -> keys_of (node s i) = l1 ++ x :: l2 ->
  table (FreeKV x s) c' kvCap' (Some b') (l1 ++ l2) ->
  let s' := set_node i (OBJECT c' kvCap' (Some b')) (FreeKV x s) in
  store_ok s' (x :: fl) /\ view s' i = VObject (filter (fun e => e.1 <> key s x) (entries s (l1 ++ x :: l2))) /\
  (forall j, 0 <= j < nodeLen s -> j <> i -> view s' j = view s j).
Proof.
  intros Hs Hi En Ekl T s'. set (n := OBJECT c' kvCap' (Some b')) in *. assert (Ekn : keys_of n = l1 ++ l2) by (eapply keys_of_table, T).
  destruct (obj_count s fl i count kvCap buf Hs Hi En) as [[_ HF Hnd] _]. rewrite Ekl in HF, Hnd. rewrite Forall_forall in HF.
  assert (Hx : kv_ok s x) by (apply HF, elem_of_app; right; apply list_elem_of_here). destruct (Hx) as (Hxr & _).
  destruct (FreeKV_facts s x Hxr) as (F1 & F2 & F3 & F4 & F5). set (s1 := FreeKV x s) in *.
  assert (Hxo : x ∈ owned s) by (apply (owned_in s i); [done|]; rewrite Ekl; apply elem_of_app; right; apply list_elem_of_here).
  assert (Hpos : forall y, y ∈ owned s -> 0 <= y) by (intros y Hy; destruct (keys_are_ok s fl y Hs Hy); lia).
  assert (Hsub : forall y, y ∈ l1 ++ l2 -> kv_ok s y /\ y <> x).
  { intros y Hy. pose proof (keys_nodup _ _ Hnd) as Hn. split; [apply HF; rewrite elem_of_app in Hy |- *; rewrite elem_of_cons; tauto|].
    intros ->. apply NoDup_app in Hn as (_ & Hd & Hn). apply NoDup_cons in Hn as [Hn _]. apply elem_of_app in Hy as [Hy|Hy]; [|done]. apply (Hd x Hy), list_elem_of_here. }
  assert (El : nodeLen s' = nodeLen s) by (unfold s'; rewrite nodeLen_set; done). assert (Eni : node s' i = n) by (unfold s'; rewrite node_set_node by (exact Hi || lia); by rewrite decide_True).
  assert (He : extends i s s').
  { split; [|lia|by exists []; rewrite app_nil_r|].
    - intros j Hj Hne. unfold s'. rewrite node_set_node by (exact Hi || lia). by rewrite decide_False by congruence.
    - intros y Hy Hn. apply F3; [by apply Hpos|]. intros ->. apply Hn. rewrite Ekl. apply elem_of_app; right; apply list_elem_of_here. }
  assert (Hn : node_ok s' (node s' i)).
  { rewrite Eni. cbn [node_ok n]. fold n. rewrite Ekn. split; [exact T| |].
    - apply Forall_forall. intros y Hy. destruct (Hsub y Hy) as [Hy1 Hy2]. pose proof Hy1 as (Y0 & _). unfold kv_ok. change (kvLen s') with (kvLen s1). change (strLen s') with (strLen s).
      change (kv s' y) with (kv s1 y). rewrite F1, F3 by (done || lia). rewrite El. exact Hy1.
    - replace (key s' <$> (l1 ++ l2)) with (key s <$> (l1 ++ l2)) by (apply map_ext; intros; symmetry; apply F2).
      rewrite fmap_app in *. apply NoDup_app in Hnd as (H1 & Hd & H2). cbn in H2, Hd. apply NoDup_cons in H2 as [_ H2].
      apply NoDup_app. split_and!; [done| |done]. intros y Hy Hy'. apply (Hd y Hy). by apply list_elem_of_further. }
  assert (Hok : store_ok s' (x :: fl)).
  { pose proof Hs as [_ Hf Hno Hsm Hca]. apply (extends_ok s s' fl (x :: fl) i); [done|done|done|change (kvLen s <= kvLen s1); lia|done|intros; lia| | | |].
    - change (kvFree s') with x. cbn [chain]. split_and!; [done|lia|change (x < kvLen s1); lia|]. change (kv s' x) with (kv s1 x). rewrite F5.
      apply (chain_ext s); [change (kvLen s <= kvLen s1); lia| |done]. intros y Hy Hy'. apply F3; [done|]. intros ->. apply NoDup_app in Hno as (_ & Hd & _). by apply (Hd x).
    - assert (Hp : x :: owned s' ≡ₚ owned s).
      { apply (Permutation_app_inv_l (l1 ++ l2)). pose proof (owned_set s1 i n Hi) as Hp. fold s' in Hp. change (node s1 i) with (node s i) in Hp.
        change (owned s1) with (owned s) in Hp. rewrite Ekl, Ekn in Hp. rewrite <- Hp, <- !Permutation_middle. done. }
      rewrite <- Permutation_middle. change (x :: owned s' ++ fl) with ((x :: owned s') ++ fl). by rewrite Hp.
    - rewrite El. change (kvLen s') with (kvLen s1). change (strLen s') with (strLen s). by rewrite F1.
    - rewrite El. change (kvLen s') with (kvLen s1). change (strLen s') with (strLen s). by rewrite F1. }
  split_and!; [done| |intros j Hj Hne; apply (extends_view s s' fl i j); [done|done|done|change (kvLen s <= kvLen s1); lia|done|done]].
  unfold view. rewrite Eni. cbn [view_node n]. fold n. rewrite Ekn, entries_without by done. f_equal. apply map_ext_in. intros y Hy%list_elem_of_In.
  destruct (Hsub y Hy) as [(Y0 & _) Y2]. rewrite (F2 y : key s' y = key s y). change (kv s' y) with (kv s1 y). by rewrite F3 by (done || lia).
Qed.

Theorem Erase_ok s fl i k : store_ok s fl -> good_ref s i ->
  simulates s 0 (Erase Alloc_ok junk i k s) (doc_erase i k (doc s)).
Proof.
  intros Hs [->|Hi]; [by apply (simulates_same s fl)|]. unfold Erase, doc_erase. rewrite (small_ref s fl i Hs Hi), doc_at by done. cbn [orb].
  unfold view. destruct (node s i) as [| | | | | | | |count kvCap buf] eqn:En; cbn [is_object negb view_node]; try by apply (simulates_same s fl).
  unfold EraseKey. rewrite En. fold (keys_of (OBJECT count kvCap buf)). rewrite <- En. set (kl := keys_of (node s i)) in *.
  destruct (obj_count s fl i count kvCap buf Hs Hi En) as [Hobj Hcount]. fold kl in Hobj. pose proof Hobj as [T HF Hnd].
  destruct (decide (k ∈ (key s <$> kl))) as [Hin|Hout].
  - apply list_elem_of_fmap in Hin as (x & -> & Hx). rewrite (find_member_in s kl x Hnd Hx). pose proof (table_count _ _ _ _ _ T) as Ec.
    destruct buf as [b|]; [|destruct T as (_ & _ & E); rewrite E in Hx; by apply elem_of_nil in Hx].
    destruct T as (N & pd & kr & sl & -> & -> & Hkv & HN & Hc & Ekl & T). rewrite word_cap.
    pose proof (pow_pos N (tk_pow _ _ _ _ T)). rewrite (proj2 (Z.eqb_neq N 0)) by lia.
    destruct (find_slot_hit s N pd kr sl kl T HF Hnd x Hx) as (h & -> & Hh & Ex). cbv zeta.
    apply list_elem_of_split in Hx as (l1 & l2 & Esp). assert (Hxr : 0 <= x < kvLen s).
    { rewrite Forall_forall in HF. destruct (HF x); [|done]. rewrite Esp. apply elem_of_app; right; apply list_elem_of_here. }
    assert (Ekr : kr = (l1 ++ x :: l2) ++ drop (Z.to_nat count) kr) by (rewrite <- Esp, Ekl; symmetry; apply take_drop).
    pose proof (erase_table s (FreeKV x s) N pd kr sl l1 l2 x h (drop (Z.to_nat count) kr) Ekr Hkv HN) as Htab. rewrite <- Esp in Htab.
    assert (Hlive : Forall live kl) by (eapply Forall_impl; [exact HF|]; intros y; apply kv_ok_live).
    specialize (Htab T (keys_nodup _ _ Hnd) Hlive Hh Ex (proj1 (proj2 (FreeKV_facts s x Hxr)))). cbv zeta in Htab. rewrite <- Ec in Htab.
    destruct (erase_store s fl i _ _ _ l1 x l2 _ _ _ Hs Hi En Esp Htab) as (E1 & E2 & E3).
    split_and!; cbn [fst snd]; [done| |by eexists|rewrite nodeLen_set; change (nodeLen s <= nodeLen s + 1); lia| |unfold strLen; cbn; lia].
    + apply doc_change; [done|by rewrite nodeLen_set| |done]. by rewrite E2, <- Esp.
    + change (kvLen (FreeKV x s) <= kvLen s + 1). rewrite (proj1 (FreeKV_facts s x Hxr)). lia.
  - rewrite (find_member_out s kl k Hout). destruct buf as [b|]; [|by apply (simulates_same s fl)].
    destruct T as (N & pd & kr & sl & -> & -> & Hkv & HN & Hc & Ekl & T). rewrite word_cap.
    pose proof (pow_pos N (tk_pow _ _ _ _ T)). rewrite (proj2 (Z.eqb_neq N 0)) by lia.
    rewrite (find_slot_miss s N pd kr sl kl T HF k Hout). by apply (simulates_same s fl).
Qed.

End erasing.

(** ** Reading and shortening an array, assigning text *)

Lemma At_ok s fl i n : store_ok s fl -> good_ref s i -> 0 <= n -> At i n s = doc_at_index i n (doc s).
Proof.
  intros Hs [->|Hi] Hn; [done|]. unfold At, doc_at_index. rewrite (small_ref s fl i Hs Hi), doc_at by done.
  pose proof (node_is_ok s fl i Hs Hi) as Hok. unfold view. destruct (node s i) as [| | | | | | |count cap [b|]|]; try done. cbn [view_node elems_of] in *.
  destruct Hok as (H1 & H2 & _). destruct (Z.leb_spec count n).
  - by rewrite lookup_take_ge by lia.
  - rewrite lookup_take_lt by lia. unfold word. destruct (lookup_lt_is_Some_2 b (Z.to_nat n)) as [y ->]; [lia|done].
Qed.

Lemma take_shift (b : list Z) count n : (n < count)%nat -> (count <= length b)%nat ->
  take (count - 1) (blit (Z.of_nat n) (take (count - n - 1) (drop (n + 1) b)) b) = delete n (take count b).
Proof.
  intros H1 H2. unfold blit. rewrite Nat2Z.id, delete_take_drop, !take_take, Nat.min_l by lia.
  rewrite app_assoc, take_app_le by (rewrite length_app, !length_take, length_drop; lia).
  rewrite take_ge by (rewrite length_app, !length_take, length_drop; lia). f_equal.
  rewrite skipn_firstn_comm. f_equal; [lia|f_equal; lia].
Qed.

Lemma EraseIndex_ok s fl i n : store_ok s fl -> good_ref s i -> 0 <= n -> simulates s 0 (EraseIndex i n s) (doc_erase_index i n (doc s)).
Proof.
  intros Hs [->|Hi] Hn; [by apply (simulates_same s fl)|]. unfold EraseIndex, doc_erase_index. rewrite (small_ref s fl i Hs Hi), doc_at by done.
  pose proof (node_is_ok s fl i Hs Hi) as Hok. unfold view. destruct (node s i) as [| | | | | | |count cap [b|]|] eqn:En; try by apply (simulates_same s fl).
  - cbn [view_node elems_of node_ok] in *. destruct Hok as (H1 & H2 & H3 & H4). rewrite length_take, Nat.min_l by lia.
    rewrite Z2Nat.id by lia. destruct (Z.leb_spec count n) as [Hle|Hlt].
    + rewrite (proj2 (Z.ltb_ge _ _)) by lia. by apply (simulates_same s fl).
    + rewrite (proj2 (Z.ltb_lt _ _)) by lia. pose proof (take_shift b (Z.to_nat count) (Z.to_nat n) ltac:(lia) ltac:(lia)) as Et. rewrite Z2Nat.id in Et by lia.
      replace (Z.to_nat count - Z.to_nat n - 1)%nat with (Z.to_nat (count - n - 1)) in Et by lia. replace (Z.to_nat n + 1)%nat with (Z.to_nat (n + 1)) in Et by lia.
      replace (Z.to_nat count - 1)%nat with (Z.to_nat (count - 1)) in Et by lia. set (b' := blit _ _ _) in *.
      assert (Hb' : length b' = length b) by (unfold b', blit; rewrite !length_app, !length_take, !length_drop; lia).
      destruct (set_node_ok s fl i (ARRAY (count - 1) cap (Some b')) Hs Hi) as (A1 & A2 & A3 & A4 & A5); [done| |].
      { cbn [node_ok elems_of]. rewrite Et. split_and!; [lia|lia|lia| |].
        - apply Forall_delete. done.
        - eapply sublist_NoDup; [exact H4|]. apply sublist_delete. }
      split_and!; cbn [fst snd]; [done| |by exists fl|lia|change (kvLen s <= kvLen s + 1); lia|unfold strLen; cbn; lia].
      apply doc_change; [done|done| |done]. unfold view. rewrite A3. cbn [view_node elems_of]. by rewrite Et.
  - cbn [view_node elems_of length]. rewrite (proj2 (Z.ltb_ge _ _)) by (cbn; lia). by apply (simulates_same s fl).
Qed.

Lemma assign_string_ok Alloc_ok junk (mem : forall n, Alloc_ok n = true) s fl i v :
  store_ok s fl -> good_ref s i -> room s 0 (Z.of_nat (length v) + 1) ->
  simulates s (Z.of_nat (length v) + 1) (i, assign_string Alloc_ok junk i v s) (i, doc_assign i (VString v) (doc s)).
Proof.
  intros Hs [->|Hi] (R1 & R2 & R3); [by apply (simulates_same s fl); [|lia]|]. unfold assign_string, doc_assign. rewrite (small_ref s fl i Hs Hi).
  destruct (new_key_ok Alloc_ok junk mem s fl v Hs) as (s1 & EA & Enil & Hs1 & Enod & Ekv & _ & Est & Estr & Hvw & Hkey); [lia|]. rewrite EA, Enil.
  assert (El : nodeLen s1 = nodeLen s) by (unfold nodeLen; by rewrite Enod). assert (Ek : kvLen s1 = kvLen s) by (unfold kvLen; by rewrite Ekv).
  destruct (set_node_ok s1 fl i (STR_OWN (strLen s) (Z.of_nat (length v))) Hs1 ltac:(lia)) as (A1 & A2 & A3 & A4 & A5); [done|cbn [node_ok]; unfold strLen in *; lia|].
  split_and!; cbn [fst snd]; [done| |by exists fl|lia|change (kvLen s1 <= kvLen s + 1); lia|change (strLen s1 <= strLen s + (Z.of_nat (length v) + 1)); lia].
  apply doc_change; [done|lia| |].
  - unfold view. rewrite A3. cbn [view_node]. f_equal. exact Estr.
  - intros j Hj Hne. rewrite A5 by (done || lia). by apply Hvw.
Qed.

(** ** Scripts of operations *)

Inductive op :=
| OpGetOrCreate (i : Z) (k : bytes)
| OpFind (i : Z) (k : bytes)
| OpSet (i : Z) (k : bytes) (v : Z)
| OpErase (i : Z) (k : bytes)
| OpPushBack (i : Z)
| OpAt (i n : Z)
| OpEraseIndex (i n : Z)
| OpAssign (i : Z) (n : JsonNode)
| OpAssignString (i : Z) (v : bytes).

Definition scalar (n : JsonNode) : bool :=
  match n with EMPTY | BOOL _ | INT64 _ | UINT64 _ | DOUBLE _ | STR_VIEW _ => true | _ => false end.

(** Bytes of text an operation may store. *)
Definition op_text (o : op) : Z :=
  match o with
  | OpGetOrCreate _ k | OpSet _ k _ | OpAssignString _ k => Z.of_nat (length k) + 1
  | _ => 0
  end.

(** References come from earlier operations: they name nodes, or are dead. *)
Definition ref_in (D : document) (i : Z) : bool := (i =? JSON_NIL) || (0 <=? i) && (i <? Z.of_nat (length D)).
Definition op_valid (D : document) (o : op) : bool :=
  match o with
  | OpGetOrCreate i _ | OpFind i _ | OpErase i _ | OpPushBack i | OpAssignString i _ => ref_in D i
  | OpSet i _ v => ref_in D i && ref_in D v
  | OpAt i n | OpEraseIndex i n => ref_in D i && (0 <=? n)
  | OpAssign i n => ref_in D i && scalar n
  end.

Definition doc_op (o : op) (D : document) : Z * document :=
  match o with
  | OpGetOrCreate i k => doc_get_or_create i k D
  | OpFind i k => (doc_find i k D, D)
  | OpSet i k v => doc_set_ref i k v D
  | OpErase i k => let '(b, D) := doc_erase i k D in (Z.b2z b, D)
  | OpPushBack i => doc_push_back i D
  | OpAt i n => (doc_at_index i n D, D)
  | OpEraseIndex i n => let '(b, D) := doc_erase_index i n D in (Z.b2z b, D)
  | OpAssign i n => (i, doc_assign i (match n with STR_VIEW v => VString v | _ => VScalar n end) D)
  | OpAssignString i v => (i, doc_assign i (VString v) D)
  end.

Fixpoint doc_run (ops : list op) (D : document) : list Z * document :=
  match ops with
  | [] => ([], D)
  | o :: r => let '(x, D) := doc_op o D in let '(xs, D) := doc_run r D in (x :: xs, D)
  end.

Fixpoint script_valid (ops : list op) (D : document) : bool :=
  match ops with [] => true | o :: r => op_valid D o && script_valid r (doc_op o D).2 end.

Definition script_text (ops : list op) : Z := fold_right Z.add 0 (op_text <$> ops).

Section scripts.
Context (Alloc_ok : Z -> bool) (junk : Z).

Definition run_op (o : op) (s : JsonStore) : Z * JsonStore :=
  match o with
  | OpGetOrCreate i k => GetOrCreate Alloc_ok junk i k s
  | OpFind i k => (Find i k s, s)
  | OpSet i k v => SetRef Alloc_ok junk i k v s
  | OpErase i k => let '(b, s) := Erase Alloc_ok junk i k s in (Z.b2z b, s)
  | OpPushBack i => PushBack Alloc_ok junk i s
  | OpAt i n => (At i n s, s)
  | OpEraseIndex i n => let '(b, s) := EraseIndex i n s in (Z.b2z b, s)
  | OpAssign i n => (i, assign i n s)
  | OpAssignString i v => (i, assign_string Alloc_ok junk i v s)
  end.

Fixpoint run_ops (ops : list op) (s : JsonStore) : list Z * JsonStore :=
  match ops with
  | [] => ([], s)
  | o :: r => let '(x, s) := run_op o s in let '(xs, s) := run_ops r s in (x :: xs, s)
  end.

Context (mem : forall n, Alloc_ok n = true).

Lemma ref_in_good s i : ref_in (doc s) i = true -> good_ref s i.
Proof. unfold ref_in, good_ref. rewrite doc_length. fold (nodeLen s). intros H. bool_split; lia. Qed.

Lemma room_less s a a' b b' : a' <= a -> b' <= b -> room s a b -> room s a' b'.
Proof. unfold room. lia. Qed.

Lemma simulates_b2z s l out spec : simulates s l out spec ->
  simulates s l (let '(b, s) := out in (Z.b2z b, s)) (let '(b, D) := spec in (Z.b2z b, D)).
Proof. destruct out as [b s'], spec as [b' D]. intros (E & ?). cbn in E. subst b'. by split. Qed.

Lemma run_op_ok s fl o : store_ok s fl -> op_valid (doc s) o = true -> room s 1 (op_text o) ->
  simulates s (op_text o) (run_op o s) (doc_op o (doc s)).
Proof.
  intros Hs Hv Hr. destruct o as [i k|i k|i k v|i k|i|i n|i n|i n|i v]; cbn [op_valid op_text run_op doc_op] in *; bool_split; repeat match goal with
    | H : ref_in _ _ = true |- _ => apply ref_in_good in H
    | H : (0 <=? _) = true |- _ => apply Z.leb_le in H end.
  - by apply (GetOrCreate_ok Alloc_ok junk mem s fl).
  - rewrite (Find_ok s fl) by done. by apply (simulates_same s fl).
  - by apply (SetRef_ok Alloc_ok junk mem s fl).
  - by apply simulates_b2z, (Erase_ok Alloc_ok junk mem s fl).
  - by apply (PushBack_ok Alloc_ok junk mem s fl).
  - rewrite (At_ok s fl) by done. by apply (simulates_same s fl).
  - by apply simulates_b2z, (EraseIndex_ok s fl).
  - destruct (assign_ok s fl i n Hs) as (A1 & A2 & A3); [done|by destruct n|by destruct n|]. split_and!; cbn [fst snd]; [done| |by exists fl|lia| |].
    + rewrite A1. by destruct n.
    + unfold assign. destruct (i =? JSON_NIL); change (kvLen s <= kvLen s + 1); lia.
    + unfold assign. destruct (i =? JSON_NIL); change (strLen s <= strLen s + 0); lia.
  - apply (assign_string_ok Alloc_ok junk mem s fl); [done|done|]. unfold room in *. lia.
Qed.

Lemma run_ops_ok ops s fl : store_ok s fl -> script_valid ops (doc s) = true -> room s (Z.of_nat (length ops)) (script_text ops) ->
  (run_ops ops s).1 = (doc_run ops (doc s)).1 /\ doc (run_ops ops s).2 = (doc_run ops (doc s)).2 /\ exists fl', store_ok (run_ops ops s).2 fl'.
Proof.
  assert (Hpos : forall r, 0 <= script_text r).
  { intros r. unfold script_text. induction r as [|o r IH]; [done|]. cbn. destruct o; cbn; lia. }
  revert s fl. induction ops as [|o r IH]; intros s fl Hs Hv Hr; [split_and!; [done|done|by exists fl]|].
  cbn [script_valid] in Hv. bool_split. cbn [run_ops doc_run]. change (script_text (o :: r)) with (op_text o + script_text r) in Hr. specialize (Hpos r).
  destruct (run_op_ok s fl o Hs) as (E1 & E2 & (fl' & Hs') & L1 & L2 & L3); [done|eapply room_less; [| |exact Hr]; cbn; lia|].
  destruct (run_op o s) as [x s'], (doc_op o (doc s)) as [x' D']. cbn [fst snd] in *. subst x' D'.
  destruct (IH s' fl' Hs') as (I1 & I2 & I3); [done|unfold room in *; cbn in Hr; lia|].
  destruct (run_ops r s') as [xs s2], (doc_run r (doc s')) as [xs' D2]. cbn [fst snd] in *. by subst.
Qed.

Lemma Init_ok : exists s, Init Alloc_ok = Some s /\ store_ok s [] /\ doc s = [VObject []] /\ nodeLen s = 1 /\ kvLen s = 0 /\ strLen s = 0.
Proof.
  unfold Init, AllocNode. cbn. rewrite mem. cbn. eexists. split; [reflexivity|]. split_and!; try done. split; try done; [|by apply NoDup_nil_2].
  apply Forall_singleton. split; [done|by apply Forall_nil|by apply NoDup_nil_2].
Qed.

(** C8: a document built by any sequence of the operations of [JsonRef] (looking up or
    creating a key, setting a key to a node, erasing a key or an index, pushing,
    indexing, assigning), on references the operations returned, answers and ends as
    the abstract document does: an object is a list of distinct keys in the order of
    insertion, an array a list, whatever the hash table, its growth, its tombstones,
    the free list of keys and the buffers do, as long as memory is granted and the
    store stays within its 32-bit indices. *)
Theorem store_refines_document ops :
  script_valid ops [VObject []] = true -> Z.of_nat (length ops) < 2 ^ 28 -> script_text ops <= 2 ^ 30 ->
  exists s, Init Alloc_ok = Some s /\
    (run_ops ops s).1 = (doc_run ops [VObject []]).1 /\ doc (run_ops ops s).2 = (doc_run ops [VObject []]).2.
Proof.
  intros Hv Hl Ht. destruct Init_ok as (s & E & Hs & Ed & L1 & L2 & L3). exists s. split; [done|].
  pose proof (run_ops_ok ops s [] Hs) as H. rewrite Ed in H. destruct H as (A & B & _); [done|unfold room; lia|done].
Qed.

End scripts.

(** Two members, one erased and put again, an array, a shared node, a value. *)
Definition w_script : list op :=
  [OpGetOrCreate 0 [97]; OpGetOrCreate 0 [98]; OpAssign 1 (INT64 5); OpGetOrCreate 0 [97]; OpErase 0 [97]; OpFind 0 [97];
   OpGetOrCreate 0 [97]; OpPushBack 3; OpPushBack 3; OpAssignString 4 [120; 121]; OpAt 3 1; OpEraseIndex 3 0; OpAt 3 0;
   OpSet 0 [98] 3; OpFind 0 [98]; OpGetOrCreate 4 [99]; OpAt 0 0].

Example w_script_runs : (doc_run w_script [VObject []]).1 = [1; 2; 1; 1; 1; JSON_NIL; 3; 4; 5; 4; 5; 1; 5; 3; 3; JSON_NIL; JSON_NIL].
Proof. reflexivity. Qed.

Lemma store_refines_document_witness : exists s, Init (fun _ => true) = Some s /\
  (run_ops (fun _ => true) 0 w_script s).1 = [1; 2; 1; 1; 1; JSON_NIL; 3; 4; 5; 4; 5; 1; 5; 3; 3; JSON_NIL; JSON_NIL].
Proof.
  destruct (store_refines_document (fun _ => true) 0 (fun _ => eq_refl) w_script) as (s & E & H & _); [reflexivity|reflexivity|unfold script_text; cbn; lia|].
  exists s. split; [exact E|]. rewrite H. reflexivity.
Defined.

(** The same script run on the store itself. *)
Example w_script_stored :
  match Init (fun _ => true) with Some s => (run_ops (fun _ => true) 0 w_script s).1 | None => [] end =
  [1; 2; 1; 1; 1; JSON_NIL; 3; 4; 5; 4; 5; 1; 5; 3; 3; JSON_NIL; JSON_NIL].
Proof. vm_compute. reflexivity. Qed.

End JsonStore.
