(* ===== verification/JsonText.v ===== *)
(** * JsonText: the text of a JSON value

    The values a document stands for, the grammar of the texts that denote them, and the
    writer of [shared/json/json_object.hpp] ([Escaped], [Serialize]) over the store of
    [JsonStore], with the proof that what it writes is a text of the grammar. *)

From stdpp Require Import list.
From S2P Require Import Prelude Strings JsonStore.

Module JsonText.
Import StringUtils.
Import JsonStore.

(** ** Values *)

(** [JDouble] carries the 64 bits of the number. *)
Inductive json :=
| JNull
| JBool (v : bool)
| JInt (v : Z)
| JUInt (v : Z)
| JDouble (v : Z)
| JStr (v : bytes)
| JArr (l : list json)
| JObj (m : list (bytes * json)).

Section json_ind.
Context (P : json -> Prop).
Context (Hn : P JNull) (Hb : forall v, P (JBool v)) (Hi : forall v, P (JInt v)) (Hu : forall v, P (JUInt v)) (Hd : forall v, P (JDouble v)) (Hs : forall v, P (JStr v)).
Context (Ha : forall l, Forall P l -> P (JArr l)) (Ho : forall m, Forall (fun e => P e.2) m -> P (JObj m)).

Fixpoint json_nested_ind (t : json) : P t :=
  match t with
  | JNull => Hn
  | JBool v => Hb v
  | JInt v => Hi v
  | JUInt v => Hu v
  | JDouble v => Hd v
  | JStr v => Hs v
  | JArr l => Ha l ((fix go l := match l return Forall P l with [] => Forall_nil_2 P | t :: r => Forall_cons_2 P t r (json_nested_ind t) (go r) end) l)
  | JObj m => Ho m ((fix go m := match m return Forall (fun e => P e.2) m with
                                 | [] => Forall_nil_2 _ | e :: r => Forall_cons_2 _ e r (json_nested_ind e.2) (go r) end) m)
  end.

End json_ind.

(** Levels of containers. *)
Fixpoint height (t : json) : Z :=
  match t with
  | JArr l => 1 + fold_right Z.max 0 (map height l)
  | JObj m => 1 + fold_right Z.max 0 (map (fun e => height e.2) m)
  | _ => 0
  end.

(** ** What a node of a document stands for *)

Section all2.
Context {A B : Type} (P : A -> B -> Prop).

Fixpoint all2 (l : list B) (c : list A) : Prop :=
  match l, c with
  | [], [] => True
  | y :: l, x :: c => P x y /\ all2 l c
  | _, _ => False
  end.

Lemma all2_Forall2 l c : all2 l c <-> Forall2 P c l.
Proof.
  revert c. induction l as [|y l IH]; intros [|x c]; cbn; [by split|split; [done|by inversion 1]|split; [done|by inversion 1]|].
  rewrite IH. split; [intros []; by constructor|by inversion 1].
Qed.

End all2.

(** Reference [i] of [D] stands for the value; the children of a container are nodes
    from [lo] on. *)
Fixpoint stands (D : document) (lo i : Z) (t : json) : Prop :=
  match t with
  | JNull => at_ref D i = VScalar EMPTY
  | JBool v => at_ref D i = VScalar (BOOL v)
  | JInt v => at_ref D i = VScalar (INT64 v)
  | JUInt v => at_ref D i = VScalar (UINT64 v)
  | JDouble v => at_ref D i = VScalar (DOUBLE v)
  | JStr v => at_ref D i = VString v
  | JArr l => exists cs, at_ref D i = VArray cs /\ all2 (fun c t => lo <= c < Z.of_nat (length D) /\ stands D lo c t) l cs
  | JObj m => exists es, at_ref D i = VObject es /\
      all2 (fun e kt => e.1 = kt.1 /\ lo <= e.2 < Z.of_nat (length D) /\ stands D lo e.2 kt.2) m es
  end.

(** ** Writing: [JsonObject::Serialize] *)

(** The switch of [Escaped]: a byte with a short escape. *)
Definition short_escape (c : Z) : option bytes :=
  if c =? DQUOTE then Some [BACKSLASH; DQUOTE]
  else if c =? BACKSLASH then Some [BACKSLASH; BACKSLASH]
  else if c =? 10 then Some [BACKSLASH; 110]
  else if c =? 13 then Some [BACKSLASH; 114]
  else if c =? 9 then Some [BACKSLASH; 116]
  else if c =? 8 then Some [BACKSLASH; 98]
  else if c =? 12 then Some [BACKSLASH; 102]
  else None.

(** The bytes written for [p]: [run] is what lies between [start] and [p], written
    when an escape comes or at the end. *)
Fixpoint escape_from (esc : Z -> option bytes) (run p : bytes) : bytes :=
  match p with
  | [] => run
  | c :: r =>
      match esc c with
      | Some e => run ++ e ++ escape_from esc [] r
      | None => escape_from esc (run ++ [c]) r
      end
  end.
Definition escaped (esc : Z -> option bytes) (p : bytes) : bytes := escape_from esc [] p.
Definition Escaped (p : bytes) : bytes := escaped short_escape p.

Section writing.
Context (to_chars_double : Z -> bytes).

(** The loops over elements and members: a comma before all but the first. *)
Fixpoint separated (item : Z -> option bytes) (n : nat) (i : Z) : option bytes :=
  match n with
  | O => Some []
  | S m =>
      match item i, separated item m (i + 1) with
      | Some t, Some r => Some ((if i =? 0 then [] else [COMMA]) ++ t ++ r)
      | _, _ => None
      end
  end.

(** A document with a node inside itself is written without end; [None] when the fuel
    is out. *)
Fixpoint Serialize (fuel : nat) (s : JsonStore) (idx : Z) : option bytes :=
  match fuel with
  | O => None
  | S f =>
      match node s idx with
      | EMPTY => Some (lit "null")
      | BOOL v => Some (if v then lit "true" else lit "false")
      | INT64 v => Some (to_chars_int v)
      | UINT64 v => Some (to_chars_uint v)
      | DOUBLE v => Some (to_chars_double v)
      | STR_VIEW v => Some (DQUOTE :: Escaped v ++ [DQUOTE])
      | STR_OWN off len => Some (DQUOTE :: Escaped (str_at s off len) ++ [DQUOTE])
      | ARRAY count _ buf =>
          let item i := Serialize f s (word (default [] buf) i) in
          (fun r => LBRACKET :: r ++ [RBRACKET]) <$> separated item (Z.to_nat count) 0
      | OBJECT count _ buf =>
          let item i :=
            let k := kv s (ObjKVList (default [] buf) i) in
            (fun t => DQUOTE :: Escaped (str_at s (keyOff k) (keyLen k)) ++ DQUOTE :: COLON :: t) <$> Serialize f s (valIdx k) in
          (fun r => LBRACE :: r ++ [RBRACE]) <$> separated item (Z.to_nat count) 0
      end
  end.

End writing.

Definition commas (l : list bytes) : bytes :=
  match l with [] => [] | x :: r => x ++ concat (map (fun y => COMMA :: y) r) end.

(** The text of a value, for a way to escape bytes. *)
Section text.
Context (esc : Z -> option bytes) (to_chars_double : Z -> bytes).

Fixpoint text (t : json) : bytes :=
  match t with
  | JNull => lit "null"
  | JBool v => if v then lit "true" else lit "false"
  | JInt v => to_chars_int v
  | JUInt v => to_chars_uint v
  | JDouble v => to_chars_double v
  | JStr v => DQUOTE :: escaped esc v ++ [DQUOTE]
  | JArr l => LBRACKET :: commas (map text l) ++ [RBRACKET]
  | JObj m => LBRACE :: commas (map (fun e => DQUOTE :: escaped esc e.1 ++ DQUOTE :: COLON :: text e.2) m) ++ [RBRACE]
  end.

End text.

Section serialize.
Context (to_chars_double : Z -> bytes).

Lemma separated_after item l n i : (0 < i) -> length l = n -> (forall j x, l !! j = Some x -> item (i + Z.of_nat j) = Some x) ->
  separated item n i = Some (concat (map (fun y => COMMA :: y) l)).
Proof.
  revert l i. induction n as [|n IH]; intros [|x l] i Hi Hl Hit; try discriminate; [done|]. cbn [separated map concat].
  pose proof (Hit 0%nat x eq_refl) as E. rewrite Z.add_0_r in E. rewrite E, (IH l); [|lia|by injection Hl|].
  - rewrite (proj2 (Z.eqb_neq i 0)) by lia. done.
  - intros j y Hj. rewrite <- (Hit (Datatypes.S j) y Hj). f_equal. lia.
Qed.

Lemma separated_commas item l : (forall j x, l !! j = Some x -> item (Z.of_nat j) = Some x) -> separated item (length l) 0 = Some (commas l).
Proof.
  intros Hit. destruct l as [|x l]; [done|]. cbn [separated length]. pose proof (Hit 0%nat x eq_refl) as E. change (Z.of_nat 0) with 0 in E. rewrite E.
  rewrite (separated_after item l); [done|lia|done|]. intros j y Hj. rewrite <- (Hit (Datatypes.S j) y Hj). f_equal. lia.
Qed.

Lemma fold_max_le l : Forall (fun x => x <= fold_right Z.max 0 l) l.
Proof. induction l as [|x l IH]; cbn; [done|]. apply Forall_cons. split; [lia|]. eapply Forall_impl; [exact IH|]. cbn. intros. lia. Qed.

Lemma height_nonneg t : 0 <= height t.
Proof. destruct t; cbn; try lia; [induction l|induction m]; cbn; lia. Qed.

Lemma map_lookup {A B} (f : A -> B) l j x : map f l !! j = Some x -> exists y, l !! j = Some y /\ x = f y.
Proof. intros Hx. change (map f l) with (f <$> l) in Hx. rewrite list_lookup_fmap in Hx. destruct (l !! j) as [y|]; [|discriminate]. injection Hx as <-. by exists y. Qed.

(** What [Serialize] writes for a node is the text of the value it stands for. *)
Lemma Serialize_text s fl lo t i fuel :
  store_ok s fl -> 0 <= lo -> 0 <= i < nodeLen s -> stands (doc s) lo i t -> height t < Z.of_nat fuel ->
  Serialize to_chars_double fuel s i = Some (text short_escape to_chars_double t).
Proof.
  intros Hs Hlo. revert i fuel. induction t as [|v|v|v|v|v|l IH|m IH] using json_nested_ind; intros i fuel Hi Hst Hf.
  all: match type of Hf with height ?t < _ => pose proof (height_nonneg t) as Hpos end; destruct fuel as [|f]; [lia|].
  1-6: cbn [stands] in Hst; rewrite doc_at in Hst by done; unfold view in Hst; cbn [Serialize]; destruct (node s i); try discriminate; cbn [view_node] in Hst; first [by injection Hst as <- | done].
  - cbn [stands] in Hst. destruct Hst as (cs & Ev & Hall). rewrite doc_at in Ev by done. apply all2_Forall2 in Hall. pose proof (node_is_ok s fl i Hs Hi) as Hn.
    cbn [Serialize]. unfold view in Ev. destruct (node s i) as [| | | | | | |count cap buf|] eqn:En; try discriminate. cbn [view_node] in Ev. injection Ev as <-.
    assert (Hw : Z.to_nat count = length (elems_of (ARRAY count cap buf)) /\ forall j c, elems_of (ARRAY count cap buf) !! j = Some c -> word (default [] buf) (Z.of_nat j) = c).
    { destruct buf as [b|]; cbn [node_ok elems_of] in *.
      - destruct Hn as (H1 & H2 & _). rewrite length_take. split; [lia|]. intros j c Hj. unfold word. rewrite Nat2Z.id. change (default [] (Some b)) with b.
        rewrite lookup_take_lt in Hj by (apply lookup_lt_Some in Hj; rewrite length_take in Hj; lia). by rewrite Hj.
      - destruct Hn as [-> _]. by split. }
    destruct Hw as [Hlen Hword]. assert (El : length (elems_of (ARRAY count cap buf)) = length l) by exact (Forall2_length _ _ _ Hall).
    rewrite Hlen, El, <- (length_map (text short_escape to_chars_double) l), (separated_commas _ (map (text short_escape to_chars_double) l)); [done|].
    intros j x Hj. apply map_lookup in Hj as (t & Ht & ->). eapply Forall2_lookup_r in Hall as (c & Hc & Hr & Hst); [|exact Ht].
    rewrite (Hword j c Hc). rewrite Forall_lookup in IH. apply (IH j t Ht); [rewrite doc_length in Hr; unfold nodeLen; lia|done|].
    cbn [height] in Hf. pose proof (fold_max_le (map height l)) as HF. rewrite Forall_lookup in HF. specialize (HF j (height t)). rewrite list_lookup_fmap, Ht in HF. specialize (HF eq_refl). cbn in HF. lia.
  - cbn [stands] in Hst. destruct Hst as (es & Ev & Hall). rewrite doc_at in Ev by done. apply all2_Forall2 in Hall. pose proof (node_is_ok s fl i Hs Hi) as Hn.
    cbn [Serialize]. unfold view in Ev. destruct (node s i) as [| | | | | | | |count kvCap buf] eqn:En; try discriminate. cbn [view_node] in Ev. injection Ev as <-.
    assert (Hw : Z.to_nat count = length (keys_of (OBJECT count kvCap buf)) /\ forall j x, keys_of (OBJECT count kvCap buf) !! j = Some x -> ObjKVList (default [] buf) (Z.of_nat j) = x).
    { destruct buf as [b|]; cbn [node_ok keys_of] in *.
      - rewrite length_map, length_seqZ. split; [done|]. intros j x Hj. apply map_lookup in Hj as (z & Hz & ->). apply lookup_seqZ in Hz as [-> _]. done.
      - destruct Hn as [(-> & _ & _) _ _]. by split. }
    destruct Hw as [Hlen Hword]. set (item_text := fun e : bytes * json => DQUOTE :: Escaped e.1 ++ DQUOTE :: COLON :: text short_escape to_chars_double e.2).
    assert (El : length (keys_of (OBJECT count kvCap buf)) = length m) by (rewrite <- (Forall2_length _ _ _ Hall); unfold entries; by rewrite length_fmap).
    rewrite Hlen, El, <- (length_map item_text m), (separated_commas _ (map item_text m)); [done|].
    intros j x Hj. apply map_lookup in Hj as (kt & Ht & ->). eapply Forall2_lookup_r in Hall as (e & He & Ek & Hr & Hst); [|exact Ht].
    apply map_lookup in He as (y & Hy & ->). cbn [fst snd] in *. rewrite (Hword j y Hy). fold (key_of s (kv s y)). fold (key s y). rewrite Ek.
    rewrite Forall_lookup in IH. rewrite (IH j kt Ht); [done|rewrite doc_length in Hr; unfold nodeLen; lia|done|].
    cbn [height] in Hf. pose proof (fold_max_le (map (fun e : bytes * json => height e.2) m)) as HF. rewrite Forall_lookup in HF. specialize (HF j (height kt.2)).
    rewrite list_lookup_fmap, Ht in HF. specialize (HF eq_refl). cbn in HF. lia.
Qed.

End serialize.

(** ** The grammar *)

Definition is_ws (c : Z) : bool := (c =? SPACE) || (c =? TAB) || (c =? LF) || (c =? CR).
Definition blank (w : bytes) : Prop := Forall (fun c => is_ws c = true) w.

Definition hex_digit (c : Z) : option Z :=
  if (48 <=? c) && (c <=? 57) then Some (c - 48)
  else if (97 <=? c) && (c <=? 102) then Some (c - 97 + 10)
  else if (65 <=? c) && (c <=? 70) then Some (c - 65 + 10)
  else None.

(** Four hexadecimal digits. *)
Inductive hex4 : bytes -> Z -> Prop :=
| Hex4 a b c d x y z w : hex_digit a = Some x -> hex_digit b = Some y -> hex_digit c = Some z -> hex_digit d = Some w ->
    hex4 [a; b; c; d] (4096 * x + 256 * y + 16 * z + w).

(** The UTF-8 form of a code point. *)
Definition utf8 (cp : Z) : bytes :=
  if cp <? 0x80 then [cp]
  else if cp <? 0x800 then [192 + cp / 64; 128 + cp mod 64]
  else if cp <? 0x10000 then [224 + cp / 4096; 128 + cp / 64 mod 64; 128 + cp mod 64]
  else [240 + cp / 262144; 128 + cp / 4096 mod 64; 128 + cp / 64 mod 64; 128 + cp mod 64].

Definition simple_escape (c : Z) : option Z :=
  if c =? DQUOTE then Some DQUOTE else if c =? BACKSLASH then Some BACKSLASH else if c =? SLASH then Some SLASH
  else if c =? 98 then Some 8 else if c =? 102 then Some 12 else if c =? 110 then Some 10
  else if c =? 114 then Some 13 else if c =? 116 then Some 9 else None.

(** What follows a backslash, and the bytes it denotes. *)
Inductive escape : bytes -> bytes -> Prop :=
| Es_simple c x : simple_escape c = Some x -> escape [c] [x]
| Es_unit h cp : hex4 h cp -> ~ (0xD800 <= cp <= 0xDFFF) -> escape (117 :: h) (utf8 cp)
| Es_pair h hi l lo : hex4 h hi -> hex4 l lo -> 0xD800 <= hi <= 0xDBFF -> 0xDC00 <= lo <= 0xDFFF ->
    escape (117 :: h ++ BACKSLASH :: 117 :: l) (utf8 (0x10000 + (hi - 0xD800) * 1024 + (lo - 0xDC00))).

(** The inside of a string, and the bytes it denotes. *)
Inductive chars : bytes -> bytes -> Prop :=
| Ch_nil : chars [] []
| Ch_plain c r v : 32 <= c -> c <> DQUOTE -> c <> BACKSLASH -> chars r v -> chars (c :: r) (c :: v)
| Ch_escape e x r v : escape e x -> chars r v -> chars (BACKSLASH :: e ++ r) (x ++ v).

Definition digits (ds : bytes) : Prop := ds <> [] /\ Forall (fun c => is_digit c = true) ds.
Definition fraction (f : bytes) : Prop := f = [] \/ exists ds, digits ds /\ f = DOT :: ds.
Definition exponent (e : bytes) : Prop :=
  e = [] \/ exists m sg ds, (m = 101 \/ m = 69) /\ (sg = [] \/ sg = [PLUS] \/ sg = [MINUS]) /\ digits ds /\ e = m :: sg ++ ds.

Section grammar.
Context (from_chars_double : bytes -> option Z).

Inductive number : bytes -> json -> Prop :=
| Nu_uint ds : digits ds -> dec_value ds < 2 ^ 64 -> number ds (JUInt (dec_value ds))
| Nu_int ds : digits ds -> - 2 ^ 63 <= - dec_value ds -> number (MINUS :: ds) (JInt (- dec_value ds))
| Nu_double sg ds f e d : (sg = [] \/ sg = [MINUS]) -> digits ds -> fraction f -> exponent e -> f ++ e <> [] ->
    from_chars_double (sg ++ ds ++ f ++ e) = Some d -> number (sg ++ ds ++ f ++ e) (JDouble d).

(** The texts of a value. *)
Fixpoint denotes (t : json) (x : bytes) : Prop :=
  match t with
  | JNull => x = lit "null"
  | JBool v => x = if v then lit "true" else lit "false"
  | JInt _ | JUInt _ | JDouble _ => number x t
  | JStr v => exists r, chars r v /\ x = DQUOTE :: r ++ [DQUOTE]
  | JArr l =>
      (l = [] /\ exists w, blank w /\ x = LBRACKET :: w ++ [RBRACKET]) \/
      (l <> [] /\ exists parts, x = LBRACKET :: commas parts ++ [RBRACKET] /\
        all2 (fun p t => exists w1 y w2, blank w1 /\ blank w2 /\ p = w1 ++ y ++ w2 /\ denotes t y) l parts)
  | JObj m =>
      (m = [] /\ exists w, blank w /\ x = LBRACE :: w ++ [RBRACE]) \/
      (m <> [] /\ NoDup (map fst m) /\ exists parts, x = LBRACE :: commas parts ++ [RBRACE] /\
        all2 (fun p kt => exists w1 r w2 w3 y w4, blank w1 /\ blank w2 /\ blank w3 /\ blank w4 /\ chars r kt.1 /\
          p = w1 ++ DQUOTE :: r ++ DQUOTE :: w2 ++ COLON :: w3 ++ y ++ w4 /\ denotes kt.2 y) m parts)
  end.

Definition container (t : json) : bool := match t with JArr _ | JObj _ => true | _ => false end.

(** A JSON text: an array or an object between blanks. *)
Definition json_text (t : json) (x : bytes) : Prop :=
  container t = true /\ exists w1 y w2, blank w1 /\ blank w2 /\ x = w1 ++ y ++ w2 /\ denotes t y.

End grammar.

(** ** What is written is a text of the grammar *)

Lemma escape_from_concat esc run p : escape_from esc run p = run ++ concat (map (fun c => default [c] (esc c)) p).
Proof.
  revert run. induction p as [|c p IH]; intros run; cbn [escape_from map concat]; [by rewrite app_nil_r|].
  destruct (esc c) as [e|]; rewrite IH; cbn; [done|]. by rewrite <- app_assoc.
Qed.

Lemma escaped_cons esc c v : escaped esc (c :: v) = default [c] (esc c) ++ escaped esc v.
Proof. unfold escaped. by rewrite !escape_from_concat. Qed.

(** A byte written in a way that reads back. *)
Definition writable_byte (esc : Z -> option bytes) (c : Z) : Prop :=
  match esc c with
  | Some e => exists r, e = BACKSLASH :: r /\ escape r [c]
  | None => 32 <= c /\ c <> DQUOTE /\ c <> BACKSLASH
  end.

Lemma escaped_chars esc v : Forall (writable_byte esc) v -> chars (escaped esc v) v.
Proof.
  induction v as [|c v IH]; intros Hv; [by constructor|]. apply Forall_cons in Hv as [Hc Hv]. rewrite escaped_cons. specialize (IH Hv). unfold writable_byte in Hc.
  destruct (esc c) as [e|].
  - destruct Hc as (r & -> & Hr). change (chars (BACKSLASH :: r ++ escaped esc v) ([c] ++ v)). by apply Ch_escape.
  - destruct Hc as (H1 & H2 & H3). by apply (Ch_plain c).
Qed.

Lemma short_escape_simple c e : short_escape c = Some e -> exists d, e = [BACKSLASH; d] /\ simple_escape d = Some c.
Proof.
  unfold short_escape. intros E. repeat match type of E with context [?a =? ?b] => destruct (Z.eqb_spec a b) as [->|] end; try discriminate; injection E as <-; by eexists.
Qed.

Lemma short_escape_none c : short_escape c = None -> c <> DQUOTE /\ c <> BACKSLASH.
Proof. unfold short_escape. intros E. destruct (Z.eqb_spec c DQUOTE); [discriminate|]. destruct (Z.eqb_spec c BACKSLASH); [discriminate|]. done. Qed.

(** [JsonObject] writes every byte but the control bytes without a short escape. *)
Lemma short_writable c : 32 <= c \/ short_escape c <> None -> writable_byte short_escape c.
Proof.
  intros Hc. unfold writable_byte. destruct (short_escape c) as [e|] eqn:E.
  - destruct (short_escape_simple c e E) as (d & -> & Hd). exists [d]. split; [done|]. by apply Es_simple.
  - destruct Hc as [Hc|]; [|done]. split; [done|]. by apply short_escape_none.
Qed.

(** A value as it reads back: an integer without sign is unsigned. *)
Fixpoint norm (t : json) : json :=
  match t with
  | JInt v => if v <? 0 then JInt v else JUInt v
  | JArr l => JArr (map norm l)
  | JObj m => JObj (map (fun e => (e.1, norm e.2)) m)
  | _ => t
  end.

Section written.
Context (esc : Z -> option bytes) (from_chars_double : bytes -> option Z) (to_chars_double : Z -> bytes).

(** Numbers within 64 bits, doubles written with a fraction or an exponent that reads
    back, text whose bytes are written in a way that reads back, distinct keys. *)
Fixpoint writable (t : json) : Prop :=
  match t with
  | JNull | JBool _ => True
  | JInt v => - 2 ^ 63 <= v < 2 ^ 63
  | JUInt v => 0 <= v < 2 ^ 64
  | JDouble v => number from_chars_double (to_chars_double v) (JDouble v)
  | JStr v => Forall (writable_byte esc) v
  | JArr l => fold_right and True (map writable l)
  | JObj m => NoDup (map fst m) /\ fold_right and True (map (fun e => Forall (writable_byte esc) e.1 /\ writable e.2) m)
  end.

Lemma fold_and {A} (P : A -> Prop) l : fold_right and True (map P l) <-> Forall P l.
Proof. induction l as [|x l IH]; cbn; [by split; [constructor|]|]. by rewrite IH, Forall_cons. Qed.

Lemma uint_number v : 0 <= v < 2 ^ 64 -> number from_chars_double (to_chars_uint v) (JUInt v).
Proof.
  intros Hv. destruct (to_chars_uint_spec v Hv) as (H1 & _ & H2 & E). rewrite <- E at 2. apply Nu_uint; [by split|]. rewrite E. lia.
Qed.

Lemma int_number v : - 2 ^ 63 <= v < 2 ^ 63 -> number from_chars_double (to_chars_int v) (norm (JInt v)).
Proof.
  intros Hv. unfold to_chars_int. cbn [norm]. destruct (Z.ltb_spec v 0); [|apply uint_number; lia].
  destruct (to_chars_uint_spec (- v) ltac:(lia)) as (H1 & _ & H2 & E). replace v with (- dec_value (to_chars_uint (- v))) at 2 by lia.
  apply Nu_int; [by split|]. lia.
Qed.

Lemma all2_map {A B C} (P : B -> C -> Prop) (f : A -> B) (g : A -> C) l : Forall (fun x => P (f x) (g x)) l -> all2 P (map g l) (map f l).
Proof. induction 1; cbn; [done|by split]. Qed.

Lemma blank_nil : blank [].
Proof. by constructor. Qed.

(** What [Serialize] writes for a value is a text of that value. *)
Lemma text_denotes t : writable t -> denotes from_chars_double (norm t) (text esc to_chars_double t).
Proof.
  induction t as [|v|v|v|v|v|l IH|m IH] using json_nested_ind; intros Hw; try done.
  - cbn [writable] in Hw. pose proof (int_number v Hw) as Hn. cbn [norm] in *. by destruct (v <? 0).
  - by apply uint_number.
  - cbn. exists (escaped esc v). split; [by apply escaped_chars|done].
  - cbn [writable norm] in *. apply fold_and in Hw. cbn [text]. destruct l as [|t l]; [left; split; [done|exists []; split; [apply blank_nil|done]]|]. right. split; [done|].
    exists (map (text esc to_chars_double) (t :: l)). split; [done|]. apply all2_map. apply Forall_forall. intros u Hu. rewrite Forall_forall in IH, Hw.
    exists [], (text esc to_chars_double u), []. rewrite app_nil_r. split_and!; [apply blank_nil..|done|]. apply IH; [done|by apply Hw].
  - cbn [writable norm] in *. destruct Hw as [Hnd Hw]. apply fold_and in Hw. cbn [text]. destruct m as [|e m]; [left; split; [done|exists []; split; [apply blank_nil|done]]|]. right. split; [done|].
    split; [rewrite map_map; exact Hnd|]. set (item := fun e : bytes * json => DQUOTE :: escaped esc e.1 ++ DQUOTE :: COLON :: text esc to_chars_double e.2).
    exists (map item (e :: m)). split; [done|]. apply all2_map. apply Forall_forall. intros u Hu. rewrite Forall_forall in IH, Hw. destruct (Hw u Hu) as [Hk Hv].
    exists [], (escaped esc u.1), [], [], (text esc to_chars_double u.2), []. rewrite app_nil_r. split_and!; [apply blank_nil..|by apply escaped_chars|done|]. by apply IH.
Qed.

Lemma norm_text t : writable t -> text esc to_chars_double (norm t) = text esc to_chars_double t.
Proof.
  induction t as [|v|v|v|v|v|l IH|m IH] using json_nested_ind; intros Hw; try done.
  - cbn. unfold to_chars_int. by destruct (v <? 0) eqn:E; cbn; unfold to_chars_int; rewrite ?E.
  - cbn [writable] in Hw. apply fold_and in Hw. cbn [norm text]. f_equal. f_equal. f_equal. rewrite map_map. apply map_ext_in. intros u Hu%list_elem_of_In.
    rewrite Forall_forall in IH, Hw. apply IH; [done|by apply Hw].
  - cbn [writable] in Hw. destruct Hw as [_ Hw]. apply fold_and in Hw. cbn [norm text]. f_equal. f_equal. f_equal. rewrite map_map. apply map_ext_in. intros u Hu%list_elem_of_In.
    rewrite Forall_forall in IH, Hw. cbn. rewrite IH; [done|done|]. by apply Hw.
Qed.

End written.

End JsonText.
