(* ===== verification/JsonParser.v ===== *)
(** * JsonParser: [shared/json/json_parser.hpp]

    The recursive-descent parser that fills a [JsonStore], and its correctness: it
    always returns, what it accepts is a text of the grammar of [JsonText], and every
    text of the grammar within the depth limit is accepted, with the root standing for
    the value the text denotes.

    The state is the parser's: [src] is what remains of the input, so [pos_] is the
    length less that of [src].  A parsing function returns [Ok], or [No] for the
    [false] of the code with the error recorded, or [Fuel] when the recursion bound is
    out, which [ParseImpl] never reaches. *)

From stdpp Require Import list.
From S2P Require Import Prelude Strings JsonStore JsonText.

Module JsonParser.
Import StringUtils.
Import JsonStore.
Import JsonText.

Record JsonParser := Parser {
  src : bytes;
  len_ : Z;
  depth_ : Z;
  maxDepth_ : Z;
  isView_ : bool;
  err_ : option (bytes * Z);
  st : JsonStore
}.

Inductive result (A : Type) := Ok (a : A) | No | Fuel.
Arguments Ok {A} a.
Arguments No {A}.
Arguments Fuel {A}.

Definition M (A : Type) : Type := JsonParser -> result A * JsonParser.
Definition ret {A} (a : A) : M A := fun p => (Ok a, p).
Definition bind {A B} (m : M A) (k : A -> M B) : M B :=
  fun p => match m p with (Ok a, p) => k a p | (No, p) => (No, p) | (Fuel, p) => (Fuel, p) end.

Declare Scope parser_scope.
Delimit Scope parser_scope with parser.
Local Open Scope parser_scope.
Notation "'do' x '<-' m ';' k" := (bind m (fun x => k)) (at level 200, x pattern, m at level 100, k at level 200) : parser_scope.
Notation "m ';;' k" := (bind m (fun _ => k)) (at level 100, k at level 200, right associativity) : parser_scope.

Definition set_src l p := Parser l (len_ p) (depth_ p) (maxDepth_ p) (isView_ p) (err_ p) (st p).
Definition set_depth d p := Parser (src p) (len_ p) d (maxDepth_ p) (isView_ p) (err_ p) (st p).
Definition set_view v p := Parser (src p) (len_ p) (depth_ p) (maxDepth_ p) v (err_ p) (st p).
Definition set_err e p := Parser (src p) (len_ p) (depth_ p) (maxDepth_ p) (isView_ p) e (st p).
Definition set_st s p := Parser (src p) (len_ p) (depth_ p) (maxDepth_ p) (isView_ p) (err_ p) s.

Definition pos_ (p : JsonParser) : Z := len_ p - Z.of_nat (length (src p)).
Definition modify (f : JsonParser -> JsonParser) : M unit := fun p => (Ok tt, f p).
Definition gets {A} (f : JsonParser -> A) : M A := fun p => (Ok (f p), p).

(** ** Primitives *)

Definition IsOk (p : JsonParser) : bool := match err_ p with None => true | Some _ => false end.
Definition End_ (p : JsonParser) : bool := match src p with [] => true | _ => false end.
Definition Peek (p : JsonParser) : Z := match src p with c :: _ => c | [] => 0 end.

Definition Fail_ (msg : bytes) (p : JsonParser) : JsonParser :=
  match err_ p with None => set_err (Some (msg, pos_ p)) p | Some _ => p end.
Definition failing {A} (msg : bytes) : M A := fun p => (No, Fail_ msg p).

(** [pos_ += n]. *)
Definition advance (n : nat) : M unit := modify (fun p => set_src (drop n (src p)) p).

Definition SkipWS : M unit := modify (fun p => set_src (span is_ws (src p)).2 p).

Definition Expect (c : Z) : M unit :=
  SkipWS ;;
  do x <- gets Peek ;
  if negb (x =? c) then failing (lit "unexpected token") else advance 1.

Definition SkipDigits : M bool := fun p =>
  match span is_digit (src p) with
  | ([], _) => (Ok false, p)
  | (_, r) => (Ok true, set_src r p)
  end.

(** ** Unicode *)

Fixpoint hex_loop (n : nat) (cp : Z) : M Z :=
  match n with
  | O => ret cp
  | S m =>
      do c <- gets Peek ;
      advance 1 ;;
      match hex_digit c with
      | Some d => hex_loop m (Z.lor (u32 (Z.shiftl cp 4)) d)
      | None => failing (lit "invalid hex digit in \u escape")
      end
  end.

Definition DecodeHex4 : M Z :=
  do l <- gets src ;
  if (length l <? 4)%nat then failing (lit "truncated \u escape") else hex_loop 4 0.

Definition EncodeUTF8 (cp : Z) : bytes :=
  if cp <? 0x80 then [cp]
  else if cp <? 0x800 then [Z.lor 0xC0 (Z.shiftr cp 6); Z.lor 0x80 (Z.land cp 0x3F)]
  else if cp <? 0x10000 then [Z.lor 0xE0 (Z.shiftr cp 12); Z.lor 0x80 (Z.land (Z.shiftr cp 6) 0x3F); Z.lor 0x80 (Z.land cp 0x3F)]
  else [Z.lor 0xF0 (Z.shiftr cp 18); Z.lor 0x80 (Z.land (Z.shiftr cp 12) 0x3F); Z.lor 0x80 (Z.land (Z.shiftr cp 6) 0x3F); Z.lor 0x80 (Z.land cp 0x3F)].

(** ** Strings *)

(** How far the string runs, up to the closing quote or the first backslash. *)
Fixpoint scan (l : bytes) (i : nat) : option nat * bool * bool :=
  match l with
  | [] => (None, false, false)
  | c :: r => if c <? 0x20 then (None, false, true) else if c =? BACKSLASH then (Some i, true, false) else if c =? DQUOTE then (Some i, false, false) else scan r (S i)
  end.

Definition ScanString : M (nat * bool) :=
  do l <- gets src ;
  match scan l 0 with
  | (Some n, esc, _) => ret (n, esc)
  | (None, _, true) => failing (lit "control character in string")
  | (None, _, false) => failing (lit "unterminated string")
  end.

(** The bytes an escape appends, the backslash already consumed. *)
Definition DecodeEscape : M bytes :=
  do e <- gets End_ ;
  if e then failing (lit "truncated escape")
  else
    do esc <- gets Peek ;
    advance 1 ;;
    if esc =? DQUOTE then ret [DQUOTE]
    else if esc =? BACKSLASH then ret [BACKSLASH]
    else if esc =? SLASH then ret [SLASH]
    else if esc =? 98 then ret [8]
    else if esc =? 102 then ret [12]
    else if esc =? 110 then ret [10]
    else if esc =? 114 then ret [13]
    else if esc =? 116 then ret [9]
    else if esc =? 117 then
      do cp <- DecodeHex4 ;
      if (0xD800 <=? cp) && (cp <=? 0xDBFF) then
        do l <- gets src ;
        match l with
        | a :: b :: _ =>
            if negb (a =? BACKSLASH) || negb (b =? 117) then failing (lit "missing low surrogate")
            else
              advance 2 ;;
              do low <- DecodeHex4 ;
              if (low <? 0xDC00) || (0xDFFF <? low) then failing (lit "invalid low surrogate")
              else ret (EncodeUTF8 (u32 (u32 (0x10000 + u32 (Z.shiftl (u32 (cp - 0xD800)) 10)) + u32 (low - 0xDC00))))
        | _ => failing (lit "missing low surrogate")
        end
      else if (0xDC00 <=? cp) && (cp <=? 0xDFFF) then failing (lit "unexpected low surrogate")
      else ret (EncodeUTF8 cp)
    else failing (lit "invalid escape sequence").

(** The loop of [ParseStringEscaped]; the end of the input ends it too, the missing
    quote is noticed by what follows. *)
Fixpoint unescape (fuel : nat) (out : bytes) : M bytes :=
  match fuel with
  | O => fun p => (Fuel, p)
  | S f =>
      do l <- gets src ;
      match l with
      | [] => ret out
      | c :: _ =>
          if c =? DQUOTE then advance 1 ;; ret out
          else if c <? 0x20 then failing (lit "control character in string")
          else if negb (c =? BACKSLASH) then advance 1 ;; unescape f (out ++ [c])
          else
            advance 1 ;;
            do x <- DecodeEscape ;
            unescape f (out ++ x)
      end
  end.

Section parser.
Context (Alloc_ok : Z -> bool) (junk : Z) (from_chars_double : bytes -> option Z).

Definition alloc_str (data : option bytes) (n : Z) : M Z := fun p =>
  let '(off, s) := AllocStr Alloc_ok junk data n (st p) in
  if off =? JSON_NIL then (No, Fail_ (lit "out of memory") (set_st s p)) else (Ok off, set_st s p).

(** The reserved text gives way to what was decoded: [strLen = strOff + outLen + 1]. *)
Definition patch_text (off : Z) (out : bytes) (s : JsonStore) : JsonStore :=
  set_strs (take (Z.to_nat off) (strs s) ++ out ++ [0]) (strCap s) s.

Definition ParseStringEscaped : M JsonNode :=
  do l <- gets src ;
  do off <- alloc_str None (u32 (u32 (Z.of_nat (length l)) + 4)) ;
  do out <- unescape (S (length l)) [] ;
  modify (fun p => set_st (patch_text off out (st p)) p) ;;
  ret (STR_OWN off (Z.of_nat (length out))).

Definition ParseString : M JsonNode :=
  Expect DQUOTE ;;
  do r <- ScanString ;
  let '(n, hasEscape) := r in
  if (hasEscape : bool) then ParseStringEscaped
  else
    do l <- gets src ;
    do v <- gets isView_ ;
    if (v : bool) then advance (S n) ;; ret (STR_VIEW (take n l))
    else
      do off <- alloc_str (Some (take n l)) (Z.of_nat n) ;
      advance (S n) ;;
      ret (STR_OWN off (Z.of_nat n)).

(** ** Numbers *)

(** The two optional parts; [isFloat] so far. *)
Definition scan_fraction : M bool :=
  do c <- gets Peek ;
  if c =? DOT then
    advance 1 ;;
    do d <- SkipDigits ;
    if (d : bool) then ret true else failing (lit "invalid number")
  else ret false.

Definition scan_exponent (isFloat : bool) : M bool :=
  do e <- gets Peek ;
  if (e =? 101) || (e =? 69) then
    advance 1 ;;
    do sg <- gets Peek ;
    (if (sg =? PLUS) || (sg =? MINUS) then advance 1 else ret tt) ;;
    do d <- SkipDigits ;
    if (d : bool) then ret true else failing (lit "invalid number")
  else ret isFloat.

Definition ScanNumber : M bool :=
  do d <- SkipDigits ;
  if negb d then failing (lit "invalid number") else do f1 <- scan_fraction ; scan_exponent f1.

Definition ParseNumber : M JsonNode :=
  do start <- gets src ;
  do c <- gets Peek ;
  let isNeg := c =? MINUS in
  (if isNeg then advance 1 else ret tt) ;;
  do isFloat <- ScanNumber ;
  do rest <- gets src ;
  let t := take (length start - length rest) start in
  if (isFloat : bool) then
    match from_chars_double t with Some v => ret (DOUBLE v) | None => failing (lit "invalid number") end
  else if isNeg then
    match from_chars_int 64 t with FcOk v _ => ret (INT64 v) | _ => failing (lit "invalid number") end
  else
    match from_chars_uint 64 t with FcOk v _ => ret (UINT64 v) | _ => failing (lit "invalid number") end.

(** ** Values *)

Definition put_node (i : Z) (n : JsonNode) : M unit := modify (fun p => set_st (set_node i n (st p)) p).

Definition literal (t : bytes) (i : Z) (n : JsonNode) : M unit :=
  do l <- gets src ;
  if negb (bool_decide (take (length t) l = t)) then failing (lit "invalid literal") else advance (length t) ;; put_node i n.

(** [++depth_ > maxDepth_]. *)
Definition enter : M unit := fun p =>
  let p := set_depth (u32 (depth_ p + 1)) p in
  if maxDepth_ p <? depth_ p then (No, Fail_ (lit "max depth exceeded") p) else (Ok tt, p).

(** [--depth_; return Ok();]. *)
Definition leave : M unit := fun p =>
  let p := set_depth (u32 (depth_ p - 1)) p in if IsOk p then (Ok tt, p) else (No, p).

(** The opening of a container: [close] right away, or the loop. *)
Definition ParseContainer (n : JsonNode) (close : Z) (loop : M unit) (i : Z) : M unit :=
  advance 1 ;;
  enter ;;
  put_node i n ;;
  SkipWS ;;
  do c <- gets Peek ;
  if c =? close then advance 1 ;; modify (fun p => set_depth (u32 (depth_ p - 1)) p) else loop.

Definition ParseObject (members : Z -> M unit) (i : Z) : M unit := ParseContainer (OBJECT 0 0 None) RBRACE (members i) i.
Definition ParseArray (elements : Z -> M unit) (i : Z) : M unit := ParseContainer (ARRAY 0 0 None) RBRACKET (elements i) i.

(** A key, the opening quote not yet consumed: its node in object [i]. *)
Definition ParseKey (i : Z) : M Z :=
  do start <- gets src ;
  advance 1 ;;
  do r <- ScanString ;
  let '(n, hasEscape) := r in
  do nodesBefore <- gets (fun p => nodeLen (st p)) ;
  do v <- (if negb hasEscape then
             do l <- gets src ;
             advance (S n) ;;
             (fun p => let '(v, s) := GetOrCreate Alloc_ok junk i (take n l) (st p) in (Ok v, set_st s p))
           else
             modify (set_src start) ;;
             do savedView <- gets isView_ ;
             modify (set_view false) ;;
             (fun p => match ParseString p with
                       | (Ok n, p) =>
                           let p := set_view savedView p in
                           let '(off, len) := match n with STR_OWN off len => (off, len) | _ => (0, 0) end in
                           let '(v, s) := GetOrCreateStored Alloc_ok junk i off len (st p) in (Ok v, set_st s p)
                       | (No, p) => (No, set_view savedView p)
                       | (Fuel, p) => (Fuel, p)
                       end)) ;
  if v =? JSON_NIL then failing (lit "out of memory")
  else
    do nodesAfter <- gets (fun p => nodeLen (st p)) ;
    if nodesAfter =? nodesBefore then failing (lit "duplicate key") else ret v.

Fixpoint ParseValue (fuel : nat) (i : Z) : M unit :=
  match fuel with
  | O => fun p => (Fuel, p)
  | S f =>
      SkipWS ;;
      do bad <- gets (fun p => negb (IsOk p) || End_ p) ;
      if (bad : bool) then failing (lit "unexpected end of input")
      else
        do c <- gets Peek ;
        if c =? DQUOTE then do n <- ParseString ; put_node i n
        else if c =? LBRACE then ParseObject (ParseMembers f) i
        else if c =? LBRACKET then ParseArray (ParseElements f) i
        else if c =? 116 then literal (lit "true") i (BOOL true)
        else if c =? 102 then literal (lit "false") i (BOOL false)
        else if c =? 110 then literal (lit "null") i EMPTY
        else if (c =? MINUS) || is_digit c then do n <- ParseNumber ; put_node i n
        else failing (lit "unexpected character")
  end
with ParseMembers (fuel : nat) (i : Z) : M unit :=
  match fuel with
  | O => fun p => (Fuel, p)
  | S f =>
      do ok <- gets IsOk ;
      if negb ok then leave
      else
        SkipWS ;;
        do q <- gets Peek ;
        if negb (q =? DQUOTE) then failing (lit "expected string key")
        else
          do v <- ParseKey i ;
          Expect COLON ;;
          SkipWS ;;
          ParseValue f v ;;
          SkipWS ;;
          do next <- gets Peek ;
          if next =? RBRACE then advance 1 ;; leave
          else if negb (next =? COMMA) then failing (lit "expected ',' or '}'")
          else advance 1 ;; ParseMembers f i
  end
with ParseElements (fuel : nat) (i : Z) : M unit :=
  match fuel with
  | O => fun p => (Fuel, p)
  | S f =>
      do ok <- gets IsOk ;
      if negb ok then leave
      else
        do elem <- (fun p => let '(v, s) := PushBack Alloc_ok junk i (st p) in (Ok v, set_st s p)) ;
        if elem =? JSON_NIL then failing (lit "out of memory")
        else
          SkipWS ;;
          ParseValue f elem ;;
          SkipWS ;;
          do next <- gets Peek ;
          if next =? RBRACKET then advance 1 ;; leave
          else if negb (next =? COMMA) then failing (lit "expected ',' or ']'")
          else advance 1 ;; ParseElements f i
  end.

(** ** Entry point *)

Record JsonParseResult := Result {
  object : option JsonStore;
  error : option bytes;
  offset : Z
}.

(** Every recursive call but that for an element has consumed a byte. *)
Definition fuel_for (body : bytes) : nat := 2 * length body + 2.

Definition ParseImpl (body : bytes) (isView : bool) (maxDepth : Z) : option JsonParseResult :=
  match body with
  | [] => Some (Result None (Some (lit "empty input")) 0)
  | _ =>
      match Init Alloc_ok with
      | None => Some (Result None (Some (lit "out of memory")) 0)
      | Some s =>
          let p := (SkipWS (Parser body (Z.of_nat (length body)) 0 maxDepth isView None s)).2 in
          if negb (Peek p =? LBRACE) && negb (Peek p =? LBRACKET)
          then Some (Result (Some (st p)) (Some (lit "root must be object or array")) (pos_ p))
          else
            let f := fuel_for body in
            match (if Peek p =? LBRACE then ParseObject (ParseMembers f) 0 p else ParseArray (ParseElements f) 0 p) with
            | (Fuel, _) => None
            | (No, p) => Some (Result (Some (st p)) (Some (match err_ p with Some (m, _) => m | None => lit "parse error" end))
                                      (match err_ p with Some (_, o) => o | None => 0 end))
            | (Ok _, p) =>
                if negb (IsOk p) then Some (Result (Some (st p)) (fst <$> err_ p) (match err_ p with Some (_, o) => o | None => 0 end))
                else
                  let p := (SkipWS p).2 in
                  if negb (End_ p) then Some (Result (Some (st p)) (Some (lit "trailing content after root")) (pos_ p))
                  else Some (Result (Some (st p)) None 0)
            end
      end
  end.

End parser.

(** ** Evaluation

    A parser without error, by its fields. *)

Lemma bind_ok {A B} (m : M A) (k : A -> M B) p a p' : m p = (Ok a, p') -> bind m k p = k a p'.
Proof. unfold bind. by intros ->. Qed.

Lemma bind_gets {A B} (f : JsonParser -> A) (k : A -> M B) p : bind (gets f) k p = k (f p) p.
Proof. done. Qed.

Lemma bind_modify {B} f (k : unit -> M B) p : bind (modify f) k p = k tt (f p).
Proof. done. Qed.

Definition not_ws (l : bytes) : Prop := match l with [] => True | c :: _ => is_ws c = false end.

Lemma span_blank w l : blank w -> not_ws l -> (span is_ws (w ++ l)).2 = l.
Proof.
  intros Hw Hl. induction Hw as [|c w Hc Hw IH]; cbn.
  - destruct l as [|c l]; [done|]. cbn in *. by rewrite Hl.
  - rewrite Hc. by destruct (span is_ws (w ++ l)).
Qed.

(** The lengths of texts, spelled out. *)
Ltac len := repeat (rewrite length_app || cbn [length]).
Ltac len_in H := repeat (rewrite length_app in H || cbn [length] in H).

Section evaluation.
Context (L MD : Z).
Abbreviation P V l d s := (Parser l L d MD V None s).

Lemma SkipWS_eq V w l d s : blank w -> not_ws l -> SkipWS (P V (w ++ l) d s) = (Ok tt, P V l d s).
Proof. intros Hw Hl. unfold SkipWS, modify, set_src. cbn [src]. by rewrite span_blank. Qed.

Lemma Expect_eq V w c l d s : blank w -> is_ws c = false -> Expect c (P V (w ++ c :: l) d s) = (Ok tt, P V l d s).
Proof.
  intros Hw Hc. unfold Expect. rewrite (bind_ok _ _ _ _ _ (SkipWS_eq V w (c :: l) d s Hw Hc)), bind_gets. cbn [Peek src]. by rewrite Z.eqb_refl.
Qed.

Lemma bind_advance {B} V n (k : unit -> M B) l d s : bind (advance n) k (P V l d s) = k tt (P V (drop n l) d s).
Proof. done. Qed.

Definition not_digit (l : bytes) : Prop := match l with [] => True | c :: _ => is_digit c = false end.

Lemma SkipDigits_eq V ds l d s : digits ds -> not_digit l -> SkipDigits (P V (ds ++ l) d s) = (Ok true, P V l d s).
Proof.
  intros [Hne Hd] Hl. unfold SkipDigits. cbn [src]. assert (E : span is_digit (ds ++ l) = (ds, l)).
  { clear Hne. induction Hd as [|c ds Hc Hd IH]; cbn; [destruct l as [|c l]; [done|]; cbn in *; by rewrite Hl|]. by rewrite Hc, IH. }
  rewrite E. by destruct ds.
Qed.

(** *** Escapes *)

Lemma hex_digit_range c x : hex_digit c = Some x -> 0 <= x < 16.
Proof. unfold hex_digit. intros H. repeat (case_hyp H; bool_split); try discriminate; injection H as <-; lia. Qed.

Lemma hex_step cp x : 0 <= cp < 2 ^ 12 -> 0 <= x < 16 -> Z.lor (u32 (Z.shiftl cp 4)) x = 16 * cp + x.
Proof.
  intros Hc Hx. rewrite Z.shiftl_mul_pow2 by lia. rewrite wrap_small by lia.
  rewrite (lor_add cp x 4) by lia. lia.
Qed.

Lemma DecodeHex4_eq V h cp l d s : hex4 h cp -> DecodeHex4 (P V (h ++ l) d s) = (Ok cp, P V l d s) /\ 0 <= cp < 0x10000.
Proof.
  intros [a b c e x y z w Ha Hb Hc He]. pose proof (hex_digit_range _ _ Ha). pose proof (hex_digit_range _ _ Hb).
  pose proof (hex_digit_range _ _ Hc). pose proof (hex_digit_range _ _ He). split; [|lia].
  unfold DecodeHex4. rewrite bind_gets. cbn [src length Nat.ltb Nat.leb app]. unfold hex_loop, bind, gets, advance, modify, Peek, set_src. cbn [src drop].
  rewrite Ha. cbn [src drop]. rewrite Hb. cbn [src drop]. rewrite Hc. cbn [src drop]. rewrite He. cbn [src drop]. unfold ret.
  rewrite (hex_step 0 x), (hex_step _ y), (hex_step _ z), (hex_step _ w) by lia. f_equal. f_equal. lia.
Qed.

End evaluation.

(** The bit operations of [EncodeUTF8] are the arithmetic of UTF-8. *)
Lemma low_bits x : Z.land x 0x3F = x mod 64.
Proof. change 0x3F with (Z.ones 6). by rewrite Z.land_ones. Qed.

Lemma tail_byte x : 0 <= x -> Z.lor 0x80 (x mod 64) = 128 + x mod 64.
Proof. intros Hx. pose proof (Z.mod_pos_bound x 64 ltac:(lia)). change 0x80 with (2 * 2 ^ 6). rewrite (lor_add 2 _ 6) by lia. lia. Qed.

Lemma EncodeUTF8_utf8 cp : 0 <= cp < 0x110000 -> EncodeUTF8 cp = utf8 cp.
Proof.
  intros Hc. unfold EncodeUTF8, utf8. rewrite !low_bits, !Z.shiftr_div_pow2 by lia. change (2 ^ 6) with 64. change (2 ^ 12) with 4096. change (2 ^ 18) with 262144.
  destruct (Z.ltb_spec cp 0x80); [done|]. destruct (Z.ltb_spec cp 0x800); [|destruct (Z.ltb_spec cp 0x10000)].
  - rewrite tail_byte by lia. change 0xC0 with (6 * 2 ^ 5). rewrite (lor_add 6 _ 5) by (try lia; Z.to_euclidean_division_equations; lia). done.
  - rewrite !tail_byte by (try lia; Z.to_euclidean_division_equations; lia). change 0xE0 with (14 * 2 ^ 4).
    rewrite (lor_add 14 _ 4) by (try lia; Z.to_euclidean_division_equations; lia). done.
  - rewrite !tail_byte by (try lia; Z.to_euclidean_division_equations; lia). change 0xF0 with (30 * 2 ^ 3).
    rewrite (lor_add 30 _ 3) by (try lia; Z.to_euclidean_division_equations; lia). done.
Qed.

(** Decoding never writes more than it reads. *)
Lemma utf8_length cp : (1 <= length (utf8 cp) <= 4)%nat.
Proof. unfold utf8. repeat case_goal; cbn; lia. Qed.

Lemma hex4_length h cp : hex4 h cp -> length h = 4%nat /\ 0 <= cp < 0x10000.
Proof.
  intros [a b c e x y z w Ha Hb Hc He]. pose proof (hex_digit_range _ _ Ha). pose proof (hex_digit_range _ _ Hb).
  pose proof (hex_digit_range _ _ Hc). pose proof (hex_digit_range _ _ He). split; [done|lia].
Qed.

Lemma escape_length e x : escape e x -> (1 <= length x <= length e)%nat.
Proof.
  intros [c y _|h cp Hh _|h hi l lo Hh Hl _ _]; [done| |].
  - destruct (hex4_length _ _ Hh) as [E _]. pose proof (utf8_length cp). cbn. lia.
  - destruct (hex4_length _ _ Hh) as [E _], (hex4_length _ _ Hl) as [E2 _]. cbn. rewrite length_app. cbn.
    match goal with |- context [utf8 ?c] => pose proof (utf8_length c) end. lia.
Qed.

Lemma chars_length r v : chars r v -> (length v <= length r)%nat.
Proof.
  induction 1 as [|c r v _ _ _ _ IH|e x r v He _ IH]; cbn; [done|lia|]. rewrite !length_app. pose proof (escape_length e x He). lia.
Qed.

(** *** Scanning *)

Lemma scan_plain r v t i : chars r v -> BACKSLASH ∉ r -> v = r /\ scan (r ++ DQUOTE :: t) i = (Some (i + length r)%nat, false, false).
Proof.
  intros Hc. revert i. induction Hc as [|c r v H1 H2 H3 _ IH|e x r v He _ IH]; intros i Hn.
  - cbn. by rewrite Nat.add_0_r.
  - apply not_elem_of_cons in Hn as [_ Hn]. destruct (IH (S i) Hn) as [-> E]. split; [done|]. cbn [app scan length].
    rewrite (proj2 (Z.ltb_ge c 32)), (proj2 (Z.eqb_neq c _)), (proj2 (Z.eqb_neq c _)) by done. rewrite E. do 3 f_equal. lia.
  - apply not_elem_of_cons in Hn as [Hn _]. done.
Qed.

Lemma scan_escape r v t i : chars r v -> BACKSLASH ∈ r -> exists n, scan (r ++ t) i = (Some n, true, false).
Proof.
  intros Hc. revert i. induction Hc as [|c r v H1 H2 H3 _ IH|e x r v He _ IH]; intros i Hn.
  - by apply elem_of_nil in Hn.
  - apply elem_of_cons in Hn as [Hn|Hn]; [done|]. cbn [app scan].
    rewrite (proj2 (Z.ltb_ge c 32)), (proj2 (Z.eqb_neq c _)), (proj2 (Z.eqb_neq c _)) by done. by apply IH.
  - by exists i.
Qed.

Section strings.
Context (L MD : Z).
Abbreviation P V l d s := (Parser l L d MD V None s).

Lemma DecodeEscape_eq V e x l d s : escape e x -> DecodeEscape (P V (e ++ l) d s) = (Ok x, P V l d s).
Proof.
  intros [c y Hc|h cp Hh Hr|h hi q lo Hh Hl Hhi Hlo]; unfold DecodeEscape; rewrite bind_gets; cbn [End_ src app].
  - rewrite bind_gets. cbn [Peek src]. rewrite bind_advance. cbn [drop]. rewrite ?drop_0.
    unfold simple_escape in Hc. repeat match type of Hc with context [?a =? ?b] => destruct (a =? b) end; try discriminate; by injection Hc as <-.
  - rewrite bind_gets. cbn [Peek src]. rewrite bind_advance. cbn [drop]. rewrite ?drop_0.
    change (?a =? ?b) with (Z.eqb a b). cbn [Z.eqb Pos.eqb]. destruct (DecodeHex4_eq L MD V h cp l d s Hh) as [E Hb]. rewrite (bind_ok _ _ _ _ _ E).
    assert ((0xD800 <=? cp) && (cp <=? 0xDBFF) = false) as -> by (destruct (Z.leb_spec 0xD800 cp), (Z.leb_spec cp 0xDBFF); cbn; lia).
    assert ((0xDC00 <=? cp) && (cp <=? 0xDFFF) = false) as -> by (destruct (Z.leb_spec 0xDC00 cp), (Z.leb_spec cp 0xDFFF); cbn; lia).
    unfold ret. by rewrite EncodeUTF8_utf8 by lia.
  - rewrite bind_gets. cbn [Peek src]. rewrite bind_advance. cbn [drop]. rewrite ?drop_0.
    cbn [Z.eqb Pos.eqb]. rewrite <- app_assoc. cbn [app]. destruct (DecodeHex4_eq L MD V h hi (BACKSLASH :: 117 :: q ++ l) d s Hh) as [E _]. rewrite (bind_ok _ _ _ _ _ E).
    assert ((0xD800 <=? hi) && (hi <=? 0xDBFF) = true) as -> by (apply andb_true_iff; lia).
    rewrite bind_gets. cbn [src Z.eqb Pos.eqb negb orb]. rewrite bind_advance. cbn [drop]. rewrite ?drop_0.
    destruct (DecodeHex4_eq L MD V q lo l d s Hl) as [E2 _]. rewrite (bind_ok _ _ _ _ _ E2).
    assert ((lo <? 0xDC00) || (0xDFFF <? lo) = false) as -> by (apply orb_false_iff; lia).
    unfold ret. rewrite (wrap_small 32 (hi - 0xD800)) by lia. rewrite Z.shiftl_mul_pow2 by lia. change (2 ^ 10) with 1024.
    rewrite (wrap_small 32 ((hi - 0xD800) * 1024)), (wrap_small 32 (lo - 0xDC00)) by lia. rewrite (wrap_small 32 (0x10000 + _)) by lia.
    rewrite wrap_small by lia. by rewrite EncodeUTF8_utf8 by lia.
Qed.

Lemma unescape_eq V r v out l d s fuel : chars r v -> (length r < fuel)%nat ->
  unescape fuel out (P V (r ++ DQUOTE :: l) d s) = (Ok (out ++ v), P V l d s).
Proof.
  intros Hc. revert out fuel. induction Hc as [|c r v H1 H2 H3 _ IH|e x r v He _ IH]; intros out fuel Hf; (destruct fuel as [|f]; [cbn in Hf; lia|]).
  - cbn [unescape app]. rewrite bind_gets. cbn [src]. rewrite Z.eqb_refl, bind_advance. unfold ret. by rewrite app_nil_r.
  - cbn [unescape app]. rewrite bind_gets. cbn [src]. rewrite (proj2 (Z.ltb_ge c 32)), (proj2 (Z.eqb_neq c _)), (proj2 (Z.eqb_neq c _)) by done. cbn [negb]. rewrite bind_advance. cbn [drop]. rewrite ?drop_0.
    rewrite IH by (cbn in Hf; lia). by rewrite <- app_assoc.
  - cbn [unescape app]. rewrite bind_gets. cbn [src Z.eqb Pos.eqb Z.ltb Z.compare Pos.compare Pos.compare_cont negb]. rewrite bind_advance. cbn [drop]. rewrite ?drop_0.
    rewrite <- app_assoc.
    rewrite (bind_ok _ _ _ _ _ (DecodeEscape_eq V e x _ d s He)). rewrite IH by (cbn in Hf; rewrite length_app in Hf; lia). by rewrite <- app_assoc.
Qed.

End strings.

Section text_values.
Context (Alloc_ok : Z -> bool) (junk : Z) (mem : forall n, Alloc_ok n = true) (L MD : Z).
Abbreviation P V l d s := (Parser l L d MD V None s).

(** A string value: a view of the input, or a copy in the store. *)
Definition stored (V : bool) (v : bytes) (s s' : JsonStore) (n : JsonNode) : Prop :=
  (V = true /\ n = STR_VIEW v /\ s' = s) \/
  (n = STR_OWN (strLen s) (Z.of_nat (length v)) /\ exists cap, s' = with_text v cap s /\ strLen s + Z.of_nat (length v) + 1 <= cap).

Lemma alloc_str_eq V data n l d s : 0 <= n -> (forall x, data = Some x -> Z.of_nat (length x) = n) -> strLen s + n + 1 <= 2 ^ 30 -> strLen s <= strCap s ->
  exists cap, alloc_str Alloc_ok junk data n (P V l d s) =
      (Ok (strLen s), P V l d (set_strs (strs s ++ default (replicate (Z.to_nat n) junk) data ++ [0]) cap s)) /\ strLen s + n + 1 <= cap.
Proof.
  intros Hn Hd Hl Hc. destruct (AllocStr_ok Alloc_ok junk mem data n s Hn Hd Hl Hc) as (x & cap & E & -> & Hcap). exists cap. split; [|done].
  unfold alloc_str. cbn [st]. rewrite E. rewrite (proj2 (Z.eqb_neq _ _)) by (unfold JSON_NIL; lia). done.
Qed.

Lemma ParseStringEscaped_eq V r v l d s : chars r v -> strLen s + Z.of_nat (length (r ++ DQUOTE :: l)) + 5 <= 2 ^ 30 -> strLen s <= strCap s ->
  exists cap, ParseStringEscaped Alloc_ok junk (P V (r ++ DQUOTE :: l) d s) =
      (Ok (STR_OWN (strLen s) (Z.of_nat (length v))), P V l d (with_text v cap s)) /\ strLen s + Z.of_nat (length v) + 1 <= cap.
Proof.
  intros Hr Hl Hc. assert (Hs0 : 0 <= strLen s) by (unfold strLen; lia). unfold ParseStringEscaped. rewrite bind_gets. cbn [src].
  rewrite (wrap_small 32 (Z.of_nat _)), wrap_small by (rewrite ?wrap_small by lia; lia).
  destruct (alloc_str_eq V None (Z.of_nat (length (r ++ DQUOTE :: l)) + 4) (r ++ DQUOTE :: l) d s) as (cap & E & Hcap); [lia|done|lia|done|].
  rewrite (bind_ok _ _ _ _ _ E). clear E. change (default ?a None) with a.
  set (s1 := set_strs _ cap s). rewrite (bind_ok _ _ _ _ _ (unescape_eq L MD V r v [] l d s1 (S (length (r ++ DQUOTE :: l))) Hr ltac:(rewrite length_app; cbn; lia))).
  rewrite bind_modify. exists cap. cbn [app]. split; [|pose proof (chars_length r v Hr); rewrite length_app in Hcap; cbn in Hcap; lia].
  unfold ret, set_st, patch_text, with_text, s1, set_strs. cbn [src len_ depth_ maxDepth_ isView_ err_ st strs nodes nodeCap kvs kvCap_ kvFree strCap].
  unfold strLen at 2. by rewrite Nat2Z.id, take_app_length.
Qed.

Lemma ParseString_eq V w r v l d s : blank w -> chars r v -> strLen s + Z.of_nat (length (r ++ DQUOTE :: l)) + 5 <= 2 ^ 30 -> strLen s <= strCap s ->
  exists s' n, ParseString Alloc_ok junk (P V (w ++ DQUOTE :: r ++ DQUOTE :: l) d s) = (Ok n, P V l d s') /\ stored V v s s' n /\
    (BACKSLASH ∈ r -> exists cap, s' = with_text v cap s /\ strLen s + Z.of_nat (length v) + 1 <= cap /\ n = STR_OWN (strLen s) (Z.of_nat (length v))).
Proof.
  intros Hw Hr Hl Hc. unfold ParseString. rewrite (bind_ok _ _ _ _ _ (Expect_eq L MD V w DQUOTE (r ++ DQUOTE :: l) d s Hw eq_refl)).
  unfold ScanString. unfold bind at 1. rewrite bind_gets. cbn [src]. destruct (decide (BACKSLASH ∈ r)) as [Hin|Hn].
  - destruct (scan_escape r v (DQUOTE :: l) 0 Hr Hin) as [n ->]. unfold ret.
    destruct (ParseStringEscaped_eq V r v l d s Hr Hl Hc) as (cap & E & Hcap). eexists _, _. split; [exact E|]. split; [right; split; [done|by exists cap]|intros _; by exists cap].
  - destruct (scan_plain r v l 0 Hr Hn) as [-> ->]. unfold ret. cbn [Nat.add]. rewrite !bind_gets. cbn [src isView_]. rewrite take_app_length.
    assert (Ed : drop (S (length r)) (r ++ DQUOTE :: l) = l) by (replace (S (length r)) with (length r + 1)%nat by lia; by rewrite <- drop_drop, drop_app_length).
    destruct V.
    + rewrite bind_advance, Ed. exists s, (STR_VIEW r). split; [done|]. split; [by left|done].
    + destruct (alloc_str_eq false (Some r) (Z.of_nat (length r)) (r ++ DQUOTE :: l) d s) as (cap & E & Hcap); [lia|by intros x [= <-]|rewrite length_app in Hl; cbn in Hl; lia|done|].
      rewrite (bind_ok _ _ _ _ _ E), bind_advance, Ed. change (default ?a (Some r)) with r. eexists _, _. split; [reflexivity|]. split; [right; split; [done|by exists cap]|done].
Qed.

End text_values.

(** *** Numbers *)

(** What may follow a number. *)
Definition number_end (l : bytes) : Prop :=
  match l with [] => True | c :: _ => is_digit c = false /\ c <> DOT /\ c <> 101 /\ c <> 69 end.

Definition scalar_node (t : json) : JsonNode :=
  match t with JBool v => BOOL v | JInt v => INT64 v | JUInt v => UINT64 v | JDouble v => DOUBLE v | _ => EMPTY end.

Section numbers.
Context (from_chars_double : bytes -> option Z) (L MD : Z).
Abbreviation P V l d s := (Parser l L d MD V None s).

Lemma digits_head ds : digits ds -> exists c r, ds = c :: r /\ is_digit c = true.
Proof. intros [Hne Hd]. destruct ds as [|c r]; [done|]. exists c, r. split; [done|]. by apply Forall_cons in Hd as [? _]. Qed.

Lemma is_digit_not c k : is_digit c = true -> is_digit k = false -> c <> k.
Proof. congruence. Qed.

Lemma scan_fraction_eq V f l d s : fraction f -> not_digit l -> Peek (P V l d s) <> DOT ->
  scan_fraction (P V (f ++ l) d s) = (Ok (match f with [] => false | _ => true end), P V l d s).
Proof.
  intros Hf Hl Hp. unfold scan_fraction. rewrite bind_gets. destruct Hf as [->|(ds & Hds & ->)]; cbn [app].
  - by rewrite (proj2 (Z.eqb_neq _ _) Hp).
  - cbn [Peek src]. rewrite Z.eqb_refl, bind_advance. cbn [drop]. rewrite ?drop_0. by rewrite (bind_ok _ _ _ _ _ (SkipDigits_eq L MD V ds l d s Hds Hl)).
Qed.

Lemma scan_exponent_eq V b e l d s : exponent e -> not_digit l -> Peek (P V l d s) <> 101 -> Peek (P V l d s) <> 69 ->
  scan_exponent b (P V (e ++ l) d s) = (Ok (match e with [] => b | _ => true end), P V l d s).
Proof.
  intros He Hl H1 H2. unfold scan_exponent. rewrite bind_gets. destruct He as [->|(m & sg & ds & Hm & Hsg & Hds & ->)]; cbn [app].
  - by rewrite (proj2 (Z.eqb_neq _ _) H1), (proj2 (Z.eqb_neq _ _) H2).
  - cbn [Peek src]. assert ((m =? 101) || (m =? 69) = true) as -> by (destruct Hm as [->| ->]; done). rewrite bind_advance. cbn [drop]. rewrite ?drop_0, bind_gets.
    assert (E : forall k : unit -> M bool, bind (if (Peek (P V ((sg ++ ds) ++ l) d s) =? PLUS) || (Peek (P V ((sg ++ ds) ++ l) d s) =? MINUS) then advance 1 else ret tt) k (P V ((sg ++ ds) ++ l) d s) = k tt (P V (ds ++ l) d s)).
    { intros k. destruct Hsg as [->|[->| ->]]; [|done..]. destruct (digits_head ds Hds) as (c & r & -> & Hc). cbn [app Peek src].
      rewrite (proj2 (Z.eqb_neq c _)), (proj2 (Z.eqb_neq c _)) by by apply is_digit_not. done. }
    rewrite E. by rewrite (bind_ok _ _ _ _ _ (SkipDigits_eq L MD V ds l d s Hds Hl)).
Qed.

Lemma ScanNumber_eq V ds f e l d s : digits ds -> fraction f -> exponent e -> number_end l ->
  ScanNumber (P V (ds ++ f ++ e ++ l) d s) = (Ok (match f ++ e with [] => false | _ => true end), P V l d s).
Proof.
  intros Hds Hf He Hl. unfold ScanNumber.
  assert (Hnd : not_digit (f ++ e ++ l) /\ not_digit (e ++ l) /\ not_digit l /\ Peek (P V (e ++ l) d s) <> DOT /\ Peek (P V l d s) <> 101 /\ Peek (P V l d s) <> 69).
  { destruct Hf as [->|(fd & _ & ->)]; destruct He as [->|(m & sg & ed & [->| ->] & _ & _ & ->)]; destruct l as [|c l]; cbn in *; (tauto || (split_and!; lia || done)). }
  destruct Hnd as (N1 & N2 & N3 & N4 & N5 & N6). rewrite (bind_ok _ _ _ _ _ (SkipDigits_eq L MD V ds _ d s Hds N1)). cbn [negb].
  rewrite (bind_ok _ _ _ _ _ (scan_fraction_eq V f _ d s Hf N2 N4)), scan_exponent_eq by done. by destruct f, e.
Qed.

Lemma take_front {A} (a b : list A) : take (length (a ++ b) - length b) (a ++ b) = a.
Proof. replace (length (a ++ b) - length b)%nat with (length a) by (rewrite length_app; lia). apply take_app_length. Qed.

(** A number, up to what cannot continue it. *)
Lemma ParseNumber_eq V x t l d s : number from_chars_double x t -> number_end l ->
  ParseNumber from_chars_double (P V (x ++ l) d s) = (Ok (scalar_node t), P V l d s).
Proof.
  intros Hx Hl. unfold ParseNumber. rewrite !bind_gets. cbn [src]. destruct Hx as [ds Hds Hv|ds Hds Hv|sg ds f e v Hsg Hds Hf He Hne Hv].
  - destruct (digits_head ds Hds) as (c & r & Ec & Hc). assert (Peek (P V (ds ++ l) d s) =? MINUS = false) as -> by (rewrite Ec; apply Z.eqb_neq; by apply is_digit_not).
    unfold bind at 1. unfold ret at 1. pose proof (ScanNumber_eq V ds [] [] l d s Hds (or_introl eq_refl) (or_introl eq_refl) Hl) as E. cbn [app] in E.
    rewrite (bind_ok _ _ _ _ _ E), bind_gets. cbn [src]. rewrite take_front. destruct Hds as [Hds1 Hds2]. rewrite from_chars_uint_all by done. by rewrite (proj2 (Z.ltb_lt _ _) Hv).
  - cbn [Peek src app Z.eqb Pos.eqb]. rewrite bind_advance. cbn [drop]. rewrite ?drop_0.
    pose proof (ScanNumber_eq V ds [] [] l d s Hds (or_introl eq_refl) (or_introl eq_refl) Hl) as E. cbn [app] in E.
    rewrite (bind_ok _ _ _ _ _ E), bind_gets. cbn [src]. pose proof (take_front (MINUS :: ds) l) as Et. cbn [app] in Et. rewrite Et. destruct Hds as [Hds1 Hds2].
    unfold from_chars_int. cbn [Z.eqb Pos.eqb drop]. rewrite ?drop_0, span_digits by done. destruct ds as [|c r]; [done|].
    pose proof (dec_value_nonneg _ Hds2). rewrite (proj2 (Z.leb_le _ _)), (proj2 (Z.ltb_lt _ _)) by lia. done.
  - assert (E0 : forall k : unit -> M JsonNode, bind (if Peek (P V ((sg ++ ds ++ f ++ e) ++ l) d s) =? MINUS then advance 1 else ret tt) k (P V ((sg ++ ds ++ f ++ e) ++ l) d s) = k tt (P V (ds ++ f ++ e ++ l) d s)).
    { intros k. rewrite <- !app_assoc. destruct Hsg as [->| ->]; [|done]. destruct (digits_head ds Hds) as (c & r & -> & Hc). cbn [app Peek src].
      rewrite (proj2 (Z.eqb_neq c _)) by by apply is_digit_not. done. }
    rewrite E0, (bind_ok _ _ _ _ _ (ScanNumber_eq V ds f e l d s Hds Hf He Hl)), bind_gets. cbn [src]. rewrite take_front, Hv. by destruct (f ++ e).
Qed.

End numbers.

(** *** The document after a step *)

Lemma doc_grow_inv s s' i v w : 0 <= i < nodeLen s -> doc s' = <[Z.to_nat i := v]> (doc s) ++ [w] ->
  nodeLen s' = nodeLen s + 1 /\ view s' i = v /\ view s' (nodeLen s) = w /\ (forall j, 0 <= j < nodeLen s -> j <> i -> view s' j = view s j).
Proof.
  intros Hi E. assert (El : nodeLen s' = nodeLen s + 1).
  { apply (f_equal length) in E. rewrite length_app, length_insert, !doc_length in E. unfold nodeLen. cbn in E. lia. }
  pose proof (doc_length s) as Hd. split_and!; [done| | |].
  - pose proof (doc_lookup s' i ltac:(lia)) as Hx. rewrite E, lookup_app_l, list_lookup_insert_eq in Hx by (rewrite ?length_insert; unfold nodeLen in *; lia). by injection Hx.
  - pose proof (doc_lookup s' (nodeLen s) ltac:(unfold nodeLen in *; lia)) as Hx. rewrite E, lookup_app_r in Hx by (rewrite length_insert; unfold nodeLen; lia).
    rewrite length_insert, Hd in Hx. unfold nodeLen in Hx at 1. rewrite Nat2Z.id, Nat.sub_diag in Hx. by injection Hx.
  - intros j Hj Hne. pose proof (doc_lookup s' j ltac:(lia)) as Hx. rewrite E, lookup_app_l, list_lookup_insert_ne, doc_lookup in Hx by (rewrite ?length_insert; unfold nodeLen in *; lia). by injection Hx.
Qed.

(** Room in the store for all that remains of the input. *)
Definition fits (l : bytes) (s : JsonStore) : Prop :=
  nodeLen s + Z.of_nat (length l) <= 2 ^ 28 /\ kvLen s + Z.of_nat (length l) <= 2 ^ 28 /\ strLen s + Z.of_nat (length l) <= 2 ^ 29.

Section keys.
Context (Alloc_ok : Z -> bool) (junk : Z) (mem : forall n, Alloc_ok n = true) (L MD : Z).
Abbreviation P V l d s := (Parser l L d MD V None s).

Record new_member (i : Z) (m : list (bytes * Z)) (k : bytes) (s s' : JsonStore) : Prop := {
  nm_ok : exists fl, store_ok s' fl;
  nm_view : view s' i = VObject (m ++ [(k, nodeLen s)]);
  nm_new : view s' (nodeLen s) = VScalar EMPTY;
  nm_same : forall j, 0 <= j < nodeLen s -> j <> i -> view s' j = view s j;
  nm_nodes : nodeLen s' = nodeLen s + 1
}.

Lemma new_member_of s s' fl i m k l out : store_ok s fl -> 0 <= i < nodeLen s -> view s i = VObject m -> find_member k m = None ->
  simulates s l out (doc_get_or_create i k (doc s)) -> out.2 = s' -> out.1 = nodeLen s /\ new_member i m k s s'.
Proof.
  intros Hs Hi Hv Hk (E1 & E2 & E3 & _) <-. unfold doc_get_or_create in E1, E2. rewrite (small_ref s fl i Hs Hi), doc_at, doc_length, Hv in E1, E2 by done.
  cbn [members] in E1, E2. rewrite Hk in E1, E2. cbn [fst snd] in E1, E2. fold (nodeLen s) in E1, E2. split; [done|].
  destruct (doc_grow_inv _ _ _ _ _ Hi E2) as (H1 & H2 & H3 & H4). by split.
Qed.

Lemma ParseKey_eq V i r k l d s fl m :
  store_ok s fl -> 0 <= i < nodeLen s -> view s i = VObject m -> find_member k m = None -> chars r k -> fits (DQUOTE :: r ++ DQUOTE :: l) s ->
  exists s', ParseKey Alloc_ok junk i (P V (DQUOTE :: r ++ DQUOTE :: l) d s) = (Ok (nodeLen s), P V l d s') /\ new_member i m k s s' /\
    kvLen s' <= kvLen s + 1 /\ strLen s' <= strLen s + Z.of_nat (length r) + 1.
Proof.
  intros Hs Hi Hv Hk Hr (F1 & F2 & F3). cbn [length] in F1, F2, F3. rewrite length_app in F1, F2, F3. cbn [length] in F1, F2, F3.
  destruct (so_caps _ _ Hs) as (_ & _ & Hca). pose proof (chars_length r k Hr) as Hlen.
  unfold ParseKey. rewrite bind_gets. cbn [src]. rewrite bind_advance. cbn [drop]. rewrite ?drop_0. unfold ScanString. unfold bind at 1. rewrite bind_gets. cbn [src].
  assert (Hend : forall s', nodeLen s' = nodeLen s + 1 -> (nodeLen s =? JSON_NIL) = false /\ (nodeLen s' =? nodeLen s) = false).
  { intros s' E. split; apply Z.eqb_neq; [unfold JSON_NIL; lia|lia]. }
  destruct (decide (BACKSLASH ∈ r)) as [Hin|Hn].
  - destruct (scan_escape r k (DQUOTE :: l) 0 Hr Hin) as [n ->]. unfold ret at 1. cbv iota beta. rewrite bind_gets. cbn [negb].
    destruct (ParseString_eq Alloc_ok junk mem L MD false [] r k l d s ltac:(by constructor) Hr) as (s1 & nd & E & _ & Hesc); [rewrite length_app; cbn; lia|done|].
    destruct (Hesc Hin) as (cap & -> & Hcap & ->). destruct (with_text_ok s fl k cap Hs ltac:(lia) Hcap) as (Hs1 & El1 & Estr & Hvw & _). set (s1 := with_text k cap s) in *.
    pose proof (GetOrCreateStored_ok Alloc_ok junk mem s1 fl i (strLen s) (Z.of_nat (length k)) Hs1 ltac:(by right) ltac:(split_and!; [change (nodeLen s + 1 <= 2 ^ 28)|change (kvLen s + 1 <= 2 ^ 28)|]; lia)
      ltac:(unfold strLen; lia) ltac:(lia) ltac:(lia)) as Hsim. rewrite Estr in Hsim.
    destruct (new_member_of s1 _ fl i m k _ _ Hs1 Hi ltac:(by rewrite Hvw) Hk Hsim eq_refl) as [E1 N].
    destruct Hsim as (_ & _ & _ & _ & G2 & G3). destruct (GetOrCreateStored Alloc_ok junk i (strLen s) (Z.of_nat (length k)) s1) as [v s2] eqn:Eg. cbn [fst snd] in *. subst v.
    change (nodeLen s1) with (nodeLen s) in N, Eg. change (kvLen s1) with (kvLen s) in G2.
    exists s2. destruct (Hend s2 (nm_nodes _ _ _ _ _ N)) as [Z1 Z2]. split_and!; [| |done|lia].
    + unfold bind, modify, gets, set_src, set_view. cbn [src len_ depth_ maxDepth_ isView_ err_ st]. cbn [app] in E. rewrite E. cbn [src len_ depth_ maxDepth_ isView_ err_ st].
      rewrite Eg. cbn [st]. rewrite Z1. unfold set_st. cbn [st]. rewrite Z2. done.
    + destruct N as [N1 N2 N3 N4 N5]. split; [done|done|done| |done]. intros j Hj Hne. rewrite N4 by done. by apply Hvw.
  - destruct (scan_plain r k l 0 Hr Hn) as [-> ->]. unfold ret at 1. cbv iota beta. cbn [Nat.add]. rewrite bind_gets. cbn [negb].
    pose proof (GetOrCreate_ok Alloc_ok junk mem s fl i r Hs ltac:(by right) ltac:(split_and!; lia)) as Hsim.
    destruct (new_member_of s _ fl i m r _ _ Hs Hi Hv Hk Hsim eq_refl) as [E1 N]. destruct Hsim as (_ & _ & _ & _ & G2 & G3).
    destruct (GetOrCreate Alloc_ok junk i r s) as [v s2] eqn:Eg. cbn [fst snd] in *. subst v.
    exists s2. destruct (Hend s2 (nm_nodes _ _ _ _ _ N)) as [Z1 Z2]. split_and!; [|done|done|lia].
    assert (Ed : drop (S (length r)) (r ++ DQUOTE :: l) = l) by (replace (S (length r)) with (length r + 1)%nat by lia; by rewrite <- drop_drop, drop_app_length).
    unfold bind, gets, advance, modify, set_src. cbn [src len_ depth_ maxDepth_ isView_ err_ st]. rewrite take_app_length, Eg, Ed. cbn [st]. rewrite Z1. unfold set_st. cbn [st]. rewrite Z2. done.
Qed.

End keys.

(** ** Reading a text of the grammar *)

Lemma Forall2_weaken {A B} (P Q : A -> B -> Prop) l k : Forall2 P l k -> (forall x y, x ∈ l -> y ∈ k -> P x y -> Q x y) -> Forall2 Q l k.
Proof.
  induction 1 as [|x y l k H HF IH]; intros Hi; constructor; [apply Hi; [apply list_elem_of_here..|done]|].
  apply IH. intros a b Ha Hb. apply Hi; by apply list_elem_of_further.
Qed.

Lemma stands_mono D lo lo' i t : lo' <= lo -> stands D lo i t -> stands D lo' i t.
Proof.
  intros Hlo. revert i. induction t as [|v|v|v|v|v|l IH|m IH] using json_nested_ind; intros i H; try done; cbn [stands] in *.
  - destruct H as (cs & E & H). exists cs. split; [done|]. apply all2_Forall2 in H. apply all2_Forall2. rewrite Forall_forall in IH.
    eapply Forall2_weaken; [exact H|]. cbn. intros c t _ Ht (H1 & H2). split; [lia|]. by apply IH.
  - destruct H as (es & E & H). exists es. split; [done|]. apply all2_Forall2 in H. apply all2_Forall2. rewrite Forall_forall in IH.
    eapply Forall2_weaken; [exact H|]. cbn. intros e kt _ Ht (H1 & H2 & H3). split_and!; [done|lia|lia|]. by apply IH.
Qed.

(** Nodes that keep their views keep their values. *)
Lemma stands_frame D D' lo i t : at_ref D' i = at_ref D i -> (forall j, lo <= j < Z.of_nat (length D) -> at_ref D' j = at_ref D j) ->
  (length D <= length D')%nat -> stands D lo i t -> stands D' lo i t.
Proof.
  intros Ei Hj Hl. revert i Ei. induction t as [|v|v|v|v|v|l IH|m IH] using json_nested_ind; intros i Ei H; cbn [stands] in *; try (by rewrite Ei).
  - destruct H as (cs & E & H). exists cs. split; [by rewrite Ei|]. apply all2_Forall2 in H. apply all2_Forall2. rewrite Forall_forall in IH.
    eapply Forall2_weaken; [exact H|]. cbn. intros c t _ Ht (H1 & H2). split; [lia|]. apply IH; [done|by apply Hj|done].
  - destruct H as (es & E & H). exists es. split; [by rewrite Ei|]. apply all2_Forall2 in H. apply all2_Forall2. rewrite Forall_forall in IH.
    eapply Forall2_weaken; [exact H|]. cbn. intros e kt _ Ht (H1 & H2 & H3). split_and!; [done|lia|lia|]. apply IH; [done|apply Hj; lia|done].
Qed.

(** The value of node [i], read from [l] down to [l'], in nodes new to [s]. *)
Record built (i : Z) (l l' : bytes) (s s' : JsonStore) : Prop := {
  b_ok : exists fl, store_ok s' fl;
  b_same : forall j, 0 <= j < nodeLen s -> j <> i -> view s' j = view s j;
  b_nodes : nodeLen s <= nodeLen s';
  b_cost : nodeLen s' + Z.of_nat (length l') < nodeLen s + Z.of_nat (length l) /\
    kvLen s' + Z.of_nat (length l') < kvLen s + Z.of_nat (length l) /\ strLen s' + Z.of_nat (length l') < strLen s + Z.of_nat (length l)
}.

Lemma built_fits i l l' s s' : built i l l' s s' -> fits l s -> fits l' s'.
Proof. intros [_ _ _ (H1 & H2 & H3)] (F1 & F2 & F3). split_and!; lia. Qed.

(** A value read earlier survives what only touches [i] and new nodes. *)
Lemma stands_kept s s' lo i c t : 0 <= lo -> 0 <= c < nodeLen s -> nodeLen s <= nodeLen s' -> i < lo -> i <> c ->
  (forall j, 0 <= j < nodeLen s -> j <> i -> view s' j = view s j) -> stands (doc s) lo c t -> stands (doc s') lo c t.
Proof.
  intros Hlo Hc Hn Hi Hne Hv. apply stands_frame; [rewrite !doc_at by lia; by apply Hv| |rewrite !doc_length; unfold nodeLen in Hn; lia].
  intros j Hj. rewrite doc_length in Hj. rewrite !doc_at by (unfold nodeLen in *; lia). apply Hv; [unfold nodeLen; lia|lia].
Qed.

Definition value_end (l : bytes) : Prop :=
  match l with [] => True | c :: _ => is_ws c = true \/ c = COMMA \/ c = RBRACKET \/ c = RBRACE end.

Lemma value_end_number l : value_end l -> number_end l.
Proof.
  destruct l as [|c l]; [done|]. cbn. intros [H|[->|[->| ->]]]; try (split_and!; done).
  unfold is_ws in H. unfold is_digit. repeat match type of H with (_ || _)%bool = true => apply orb_true_iff in H as [H|H] end; apply Z.eqb_eq in H; subst; split_and!; done.
Qed.

Lemma value_end_blank w l : blank w -> value_end l -> value_end (w ++ l).
Proof. intros Hw Hl. destruct Hw as [|c w Hc Hw]; [done|by left]. Qed.

Lemma number_head fcd x t : number fcd x t -> exists c r, x = c :: r /\ (c =? MINUS) || is_digit c = true.
Proof.
  intros [ds Hds _|ds _ _|sg ds f e d [->| ->] Hds _ _ _ _].
  - destruct (digits_head ds Hds) as (c & r & -> & Hc). exists c, r. split; [done|]. rewrite Hc. apply orb_true_r.
  - by exists MINUS, ds.
  - destruct (digits_head ds Hds) as (c & r & -> & Hc). exists c, (r ++ f ++ e). split; [done|]. rewrite Hc. apply orb_true_r.
  - by exists MINUS, (ds ++ f ++ e).
Qed.

Lemma number_char c : (c =? MINUS) || is_digit c = true -> is_ws c = false /\ c <> DQUOTE /\ c <> LBRACE /\ c <> LBRACKET /\ c <> 116 /\ c <> 102 /\ c <> 110 /\ c <> RBRACKET.
Proof.
  intros H. apply orb_true_iff in H as [H|H]; [apply Z.eqb_eq in H; subst; done|]. apply is_digit_spec in H. unfold is_ws.
  rewrite !(proj2 (Z.eqb_neq c _)) by lia. split_and!; (done || lia).
Qed.

(** Every text of a value starts with a byte that is not blank and closes nothing. *)
Lemma denotes_head fcd t x : denotes fcd t x -> exists c r, x = c :: r /\ is_ws c = false /\ c <> RBRACKET.
Proof.
  assert (Hnum : number fcd x t -> exists c r, x = c :: r /\ is_ws c = false /\ c <> RBRACKET).
  { intros H. destruct (number_head _ _ _ H) as (c & r & -> & Hc). exists c, r. destruct (number_char c Hc) as (C0 & _ & _ & _ & _ & _ & _ & C7). done. }
  destruct t as [|v|v|v|v|v|l|m]; cbn [denotes]; intros H; try by apply Hnum.
  - subst. by eexists _, _.
  - subst. destruct v; by eexists _, _.
  - destruct H as (r & _ & ->). by eexists _, _.
  - destruct H as [(_ & w & _ & ->)|(_ & parts & -> & _)]; by eexists _, _.
  - destruct H as [(_ & w & _ & ->)|(_ & _ & parts & -> & _)]; by eexists _, _.
Qed.

Lemma denotes_not_ws fcd t x l : denotes fcd t x -> not_ws (x ++ l).
Proof. intros H. by destruct (denotes_head fcd t x H) as (c & r & -> & Hc & _). Qed.

Lemma commas_front w p ps : commas ((w ++ p) :: ps) = w ++ commas (p :: ps).
Proof. unfold commas. by rewrite app_assoc. Qed.

Lemma commas_cons x y r : commas (x :: y :: r) = x ++ COMMA :: commas (y :: r).
Proof. done. Qed.

Section reading.
Context (Alloc_ok : Z -> bool) (junk : Z) (from_chars_double : bytes -> option Z) (mem : forall n, Alloc_ok n = true) (L MD : Z) (HMD : MD < 2 ^ 32).
Abbreviation P V l d s := (Parser l L d MD V None s).
Abbreviation ParseValue := (ParseValue Alloc_ok junk from_chars_double).
Abbreviation ParseMembers := (ParseMembers Alloc_ok junk from_chars_double).
Abbreviation ParseElements := (ParseElements Alloc_ok junk from_chars_double).
Abbreviation denotes := (denotes from_chars_double).

(** The text of [t] comes next; it is read into node [i]. *)
Definition reads (t : json) : Prop := forall x V l d s fl i fuel,
  denotes t x -> value_end l -> store_ok s fl -> 0 <= i < nodeLen s -> fits (x ++ l) s ->
  0 <= d -> d + height t <= MD -> (2 * length x + 1 <= fuel)%nat ->
  exists s', ParseValue fuel i (P V (x ++ l) d s) = (Ok tt, P V l d s') /\ built i (x ++ l) l s s' /\ stands (doc s') (nodeLen s) i t.

(** Setting a node that is new. *)
Lemma put_built s fl i n x l : store_ok s fl -> 0 <= i < nodeLen s -> keys_of n = [] -> node_ok s n -> x <> [] ->
  built i (x ++ l) l s (set_node i n s) /\ at_ref (doc (set_node i n s)) i = view_node s n.
Proof.
  intros Hs Hi Hk Hn Hx. destruct (set_node_ok s fl i n Hs Hi Hk Hn) as (H1 & H2 & H3 & H4 & H5). split.
  - split; [by exists fl|done|lia|]. rewrite H4. change (kvLen (set_node i n s)) with (kvLen s). change (strLen (set_node i n s)) with (strLen s).
    rewrite length_app. destruct x; [done|]. cbn. lia.
  - rewrite doc_at by lia. unfold view. rewrite H3. apply (node_ok_ext s (set_node i n s)); [lia|done|by exists []; rewrite app_nil_r|done|done].
Qed.

Lemma SkipWS_stay V l d s {B} (k : unit -> M B) : not_ws l -> bind SkipWS k (P V l d s) = k tt (P V l d s).
Proof. intros H. exact (bind_ok _ _ _ _ _ (SkipWS_eq L MD V [] l d s blank_nil H)). Qed.

Lemma ParseValue_start V c l d s fuel i : is_ws c = false ->
  ParseValue (S fuel) i (P V (c :: l) d s) =
    (if c =? DQUOTE then do n <- ParseString Alloc_ok junk ; put_node i n
     else if c =? LBRACE then ParseObject (ParseMembers fuel) i
     else if c =? LBRACKET then ParseArray (ParseElements fuel) i
     else if c =? 116 then literal (lit "true") i (BOOL true)
     else if c =? 102 then literal (lit "false") i (BOOL false)
     else if c =? 110 then literal (lit "null") i EMPTY
     else if (c =? MINUS) || is_digit c then do n <- ParseNumber from_chars_double ; put_node i n
     else failing (lit "unexpected character")) (P V (c :: l) d s).
Proof. intros Hc. cbn [JsonParser.ParseValue]. rewrite SkipWS_stay by done. rewrite bind_gets. cbn [IsOk err_ negb End_ src orb]. rewrite bind_gets. done. Qed.

Lemma literal_eq V x l d s i n : x <> [] -> literal x i n (P V (x ++ l) d s) = (Ok tt, P V l d (set_node i n s)).
Proof.
  intros Hx. unfold literal. rewrite bind_gets. cbn [src]. rewrite take_app_length, bool_decide_eq_true_2 by done. cbn [negb].
  rewrite bind_advance, drop_app_length. done.
Qed.

Lemma reads_literal t x n : (forall y, denotes t y -> y = x) -> scalar_node t = n -> keys_of n = [] -> (forall s, node_ok s n) ->
  (forall D lo i s, at_ref D i = view_node s n -> stands D lo i t) ->
  (forall f i V l d s, ParseValue (S f) i (P V (x ++ l) d s) = (Ok tt, P V l d (set_node i n s))) -> x <> [] -> reads t.
Proof.
  intros Hx Hn Hk Hok Hst Hp Hne y V l d s fl i fuel Hy _ Hs Hi _ _ _ Hf. rewrite (Hx y Hy) in *. destruct fuel as [|f]; [lia|].
  rewrite Hp. eexists. split; [reflexivity|]. destruct (put_built s fl i n x l Hs Hi Hk (Hok s) Hne) as [B E]. split; [done|]. by apply (Hst _ _ _ s).
Qed.

Lemma reads_number t : (forall x, denotes t x -> number from_chars_double x t) -> (forall D lo i, at_ref D i = VScalar (scalar_node t) -> stands D lo i t) ->
  (forall s, view_node s (scalar_node t) = VScalar (scalar_node t)) -> reads t.
Proof.
  intros Hnum Hst Hv x V l d s fl i fuel Hx Hl Hs Hi _ _ _ Hf. specialize (Hnum x Hx). destruct fuel as [|f]; [lia|].
  destruct (number_head _ _ _ Hnum) as (c & r & -> & Hc). destruct (number_char c Hc) as (C0 & C1 & C2 & C3 & C4 & C5 & C6 & _).
  cbn [app]. rewrite ParseValue_start by done. rewrite !(proj2 (Z.eqb_neq c _)), Hc by done.
  rewrite (bind_ok _ _ _ _ _ (ParseNumber_eq from_chars_double L MD V (c :: r) t l d s Hnum (value_end_number l Hl))).
  exists (set_node i (scalar_node t) s). split; [reflexivity|]. destruct (put_built s fl i (scalar_node t) (c :: r) l Hs Hi) as [B E]; [by destruct t|by destruct t|done|].
  split; [done|]. apply Hst. by rewrite E, Hv.
Qed.

(** A string value put in its node. *)
Lemma stored_built V v s s1 n fl i x l : store_ok s fl -> 0 <= i < nodeLen s -> strLen s + Z.of_nat (length v) + 1 <= 2 ^ 30 -> (length v + 2 <= length x)%nat ->
  stored V v s s1 n -> built i (x ++ l) l s (set_node i n s1) /\ at_ref (doc (set_node i n s1)) i = VString v.
Proof.
  intros Hs Hi Hl Hx [(_ & -> & ->)|(-> & cap & -> & Hcap)].
  - apply (put_built s fl i (STR_VIEW v) x l Hs Hi eq_refl I). intros ->; cbn in Hx; lia.
  - destruct (with_text_ok s fl v cap Hs Hl Hcap) as (Hs1 & El & Estr & Hvw & _). set (s1 := with_text v cap s) in *.
    destruct (put_built s1 fl i (STR_OWN (strLen s) (Z.of_nat (length v))) x l Hs1 Hi eq_refl) as [[B1 B2 B3 B4] Ev]; [cbn [node_ok]; unfold strLen in *; lia|intros ->; cbn in Hx; lia|].
    change (nodeLen s1) with (nodeLen s) in *. change (kvLen s1) with (kvLen s) in *. split; [split|].
    + done.
    + intros j Hj Hne. rewrite B2 by done. by apply Hvw.
    + done.
    + change (strLen (set_node i _ s1)) with (strLen s1) in B4 |- *. change (kvLen (set_node i _ s1)) with (kvLen s) in B4 |- *. rewrite nodeLen_set in *. change (nodeLen s1) with (nodeLen s) in *.
      rewrite !length_app in *. lia.
    + rewrite Ev. cbn [view_node]. by rewrite Estr.
Qed.

Lemma reads_string v : reads (JStr v).
Proof.
  intros x V l d s fl i fuel (r & Hr & ->) Hl Hs Hi (F1 & F2 & F3) _ _ Hf. destruct fuel as [|f]; [lia|]. set (x := DQUOTE :: r ++ [DQUOTE]) in *.
  assert (Ex : x ++ l = DQUOTE :: r ++ DQUOTE :: l) by (unfold x; cbn; by rewrite <- app_assoc). rewrite Ex in *.
  cbn [length] in F1, F2, F3. rewrite !length_app in F1, F2, F3. cbn [length] in F1, F2, F3. rewrite ParseValue_start by done. cbn [Z.eqb Pos.eqb].
  destruct (so_caps _ _ Hs) as (_ & _ & Hca). pose proof (chars_length r v Hr) as Hlen.
  destruct (ParseString_eq Alloc_ok junk mem L MD V [] r v l d s blank_nil Hr) as (s1 & n & E & Hst & _); [rewrite length_app; cbn; lia|done|].
  cbn [app] in E. rewrite (bind_ok _ _ _ _ _ E). eexists. split; [reflexivity|]. cbn [st]. rewrite <- Ex.
  apply (stored_built V v s s1 n fl); [done|done|lia|unfold x; cbn; rewrite length_app; cbn; lia|done].
Qed.

(** *** Containers *)

Lemma enter_eq V l d s {B} (k : unit -> M B) : 0 <= d -> d + 1 <= MD -> bind enter k (P V l d s) = k tt (P V l (d + 1) s).
Proof.
  intros Hd Hm. apply bind_ok. unfold enter. cbn [depth_]. rewrite wrap_small by lia. unfold set_depth. cbn [src len_ depth_ maxDepth_ isView_ err_ st].
  by rewrite (proj2 (Z.ltb_ge _ _)) by lia.
Qed.

Lemma leave_eq V l d s : 0 <= d < MD -> leave (P V l (d + 1) s) = (Ok tt, P V l d s).
Proof.
  intros Hd. unfold leave, set_depth. cbn [src len_ depth_ maxDepth_ isView_ err_ st]. rewrite wrap_small by lia. cbn [IsOk err_]. by replace (d + 1 - 1) with d by lia.
Qed.

(** What follows an item: the end of the container or a comma and the other items. *)
Definition tail_of (parts : list bytes) (close : Z) (l : bytes) : bytes :=
  match parts with [] => close :: l | _ => COMMA :: commas parts ++ close :: l end.

Lemma commas_tail p parts close l : commas (p :: parts) ++ close :: l = p ++ tail_of parts close l.
Proof. destruct parts as [|q parts]; cbn [tail_of]; [cbn; by rewrite app_nil_r|]. by rewrite commas_cons, <- app_assoc. Qed.

Lemma tail_value_end parts close l : (close = RBRACKET \/ close = RBRACE) -> value_end (tail_of parts close l) /\ not_ws (tail_of parts close l).
Proof. intros [->| ->]; destruct parts; cbn; split; auto. Qed.

Definition element_text (p : bytes) (t : json) : Prop := exists w1 y w2, blank w1 /\ blank w2 /\ p = w1 ++ y ++ w2 /\ denotes t y.

(** A new element, read. *)
Lemma element_step t p V T d s fl i cs0 f : reads t -> element_text p t -> value_end T -> not_ws T ->
  store_ok s fl -> 0 <= i < nodeLen s -> view s i = VArray cs0 -> fits (0 :: p ++ T) s -> 0 <= d -> d + height t <= MD -> (2 * length p + 1 <= f)%nat ->
  exists s', ParseElements (S f) i (P V (p ++ T) d s) =
      (do next <- gets Peek ;
       if next =? RBRACKET then advance 1 ;; leave
       else if negb (next =? COMMA) then failing (lit "expected ',' or ']'") else advance 1 ;; ParseElements f i) (P V T d s') /\
    view s' i = VArray (cs0 ++ [nodeLen s]) /\ nodeLen s < nodeLen s' /\ stands (doc s') (nodeLen s) (nodeLen s) t /\ built i (0 :: p ++ T) T s s'.
Proof.
  intros Ht (w1 & y & w2 & Hw1 & Hw2 & -> & Hy) HT1 HT2 Hs Hi Hv (F1 & F2 & F3) Hd Hh Hf. cbn [length] in F1, F2, F3.
  pose proof (PushBack_ok Alloc_ok junk mem s fl i Hs ltac:(by right) ltac:(split_and!; lia)) as (G1 & G2 & (fl1 & Hs1) & _ & G5 & G6).
  unfold doc_push_back in G1, G2. rewrite (small_ref s fl i Hs Hi), doc_at, doc_length, Hv in G1, G2 by done. cbn [elements fst snd] in G1, G2. fold (nodeLen s) in G1, G2.
  destruct (PushBack Alloc_ok junk i s) as [c s1] eqn:Ep. cbn [fst snd] in *. subst c. destruct (doc_grow_inv _ _ _ _ _ Hi G2) as (D1 & D2 & D3 & D4).
  rewrite <- !app_assoc in *. rewrite !length_app in *.
  destruct (Ht y V (w2 ++ T) d s1 fl1 (nodeLen s) f Hy) as (s2 & E & [B1 B2 B3 B4] & Hst);
    [by apply value_end_blank|done|lia|unfold fits in *; rewrite !length_app; lia|lia|done|lia|].
  exists s2. split_and!.
  - cbn [JsonParser.ParseElements]. rewrite bind_gets. cbn [IsOk err_ negb]. unfold bind at 1. cbn [st]. rewrite Ep. unfold set_st. cbn [src len_ depth_ maxDepth_ isView_ err_ st].
    rewrite (proj2 (Z.eqb_neq _ _)) by (unfold JSON_NIL; lia).
    rewrite (bind_ok _ _ _ _ _ (SkipWS_eq L MD V w1 _ d s1 Hw1 (denotes_not_ws _ _ _ _ Hy))), (bind_ok _ _ _ _ _ E).
    by rewrite (bind_ok _ _ _ _ _ (SkipWS_eq L MD V w2 T d s2 Hw2 HT2)).
  - rewrite B2 by lia. done.
  - lia.
  - apply (stands_mono _ (nodeLen s1)); [lia|done].
  - rewrite D1 in *. split.
    + done.
    + intros j Hj Hne. rewrite B2 by lia. by apply D4.
    + lia.
    + cbn [length]. rewrite !length_app in *. lia.
Qed.

Lemma ParseElements_eq ts : Forall reads ts -> forall parts V l d s fl i cs0 fuel,
  ts <> [] -> Forall2 element_text parts ts -> store_ok s fl -> 0 <= i < nodeLen s -> view s i = VArray cs0 -> fits (0 :: commas parts ++ RBRACKET :: l) s ->
  0 <= d < MD -> Forall (fun t => d + 1 + height t <= MD) ts -> (2 * length (commas parts) + 2 <= fuel)%nat ->
  exists s' cs, ParseElements fuel i (P V (commas parts ++ RBRACKET :: l) (d + 1) s) = (Ok tt, P V l d s') /\ view s' i = VArray (cs0 ++ cs) /\
    Forall2 (fun c t => nodeLen s <= c < nodeLen s' /\ stands (doc s') (nodeLen s) c t) cs ts /\ built i (0 :: commas parts ++ RBRACKET :: l) l s s'.
Proof.
  induction 1 as [|t ts Ht _ IH]; intros parts V l d s fl i cs0 fuel Hne Hp Hs Hi Hv HF Hd Hh Hf; [done|]. inversion Hp as [|p t' ps ts' Hpt Hps]; subst.
  apply Forall_cons in Hh as [Hh Hhs]. destruct fuel as [|f]; [lia|]. rewrite commas_tail in *. destruct (tail_value_end ps RBRACKET l (or_introl eq_refl)) as [T1 T2].
  assert (Hpl : (length p <= length (commas (p :: ps)))%nat) by (cbn; rewrite length_app; lia).
  destruct (element_step t p V (tail_of ps RBRACKET l) (d + 1) s fl i cs0 f Ht Hpt T1 T2 Hs Hi Hv HF ltac:(lia) ltac:(lia) ltac:(lia)) as (s1 & E & Hv1 & Hn1 & Hst & HB).
  rewrite E, bind_gets. clear E. pose proof (built_fits _ _ _ _ _ HB HF) as HF1. destruct HB as [(fl1 & Hs1) B2 B3 B4]. destruct ps as [|q ps]; cbn [tail_of] in *; cbn [Peek src Z.eqb Pos.eqb negb].
  - inversion Hps; subst. rewrite bind_advance. cbn [drop]. rewrite ?drop_0, leave_eq by done. exists s1, [nodeLen s]. split_and!; [done|done| |].
    + constructor; [split; [lia|done]|by constructor].
    + split; [by exists fl1|done|lia|]. cbn [length] in B4 |- *. lia.
  - rewrite bind_advance. cbn [drop]. rewrite ?drop_0. inversion Hps as [|? t2 ? ts2]; subst.
    destruct (IH (q :: ps) V l d s1 fl1 i (cs0 ++ [nodeLen s]) f) as (s2 & cs & E & Hv2 & Hcs & HB2);
      [done|done|done|lia|done|exact HF1|done|done|rewrite commas_cons, length_app in Hf; cbn [length] in Hf; lia|].
    rewrite E. destruct HB2 as [C1 C2 C3 C4]. exists s2, (nodeLen s :: cs). split_and!; [done|by rewrite Hv2, <- app_assoc| |].
    + constructor; [split; [lia|]|].
      * apply (stands_kept s1 s2 (nodeLen s) i); [lia|lia|lia|lia|lia|exact C2|done].
      * eapply Forall2_weaken; [exact Hcs|]. cbn. intros c u _ _ (X1 & X2). split; [lia|]. apply (stands_mono _ (nodeLen s1)); [lia|done].
    + split; [done| |lia|cbn [length] in *; lia]. intros j Hj Hji. rewrite C2 by lia. by apply B2.
Qed.

Definition member_text (p : bytes) (kt : bytes * json) : Prop := exists w1 r w2 w3 y w4, blank w1 /\ blank w2 /\ blank w3 /\ blank w4 /\ chars r kt.1 /\
  p = w1 ++ DQUOTE :: r ++ DQUOTE :: w2 ++ COLON :: w3 ++ y ++ w4 /\ denotes kt.2 y.

Lemma find_member_absent k m : k ∉ map fst m -> find_member k m = None.
Proof.
  unfold find_member. induction m as [|e m IH]; intros Hk; [done|]. cbn [map] in Hk. apply not_elem_of_cons in Hk as [H1 H2]. cbn.
  case_bool_decide; [by subst|]. by apply IH.
Qed.

(** A new member, read. *)
Lemma member_step kt p V T d s fl i m f : reads kt.2 -> member_text p kt -> value_end T -> not_ws T ->
  store_ok s fl -> 0 <= i < nodeLen s -> view s i = VObject m -> kt.1 ∉ map fst m -> fits (p ++ T) s -> 0 <= d -> d + height kt.2 <= MD -> (2 * length p + 1 <= f)%nat ->
  exists s', ParseMembers (S f) i (P V (p ++ T) d s) =
      (do next <- gets Peek ;
       if next =? RBRACE then advance 1 ;; leave
       else if negb (next =? COMMA) then failing (lit "expected ',' or '}'") else advance 1 ;; ParseMembers f i) (P V T d s') /\
    view s' i = VObject (m ++ [(kt.1, nodeLen s)]) /\ nodeLen s < nodeLen s' /\ stands (doc s') (nodeLen s) (nodeLen s) kt.2 /\ built i (p ++ T) T s s'.
Proof.
  intros Ht (w1 & r & w2 & w3 & y & w4 & Hw1 & Hw2 & Hw3 & Hw4 & Hr & -> & Hy) HT1 HT2 Hs Hi Hv Hk HF Hd Hh Hf.
  assert (Et : (w1 ++ DQUOTE :: r ++ DQUOTE :: w2 ++ COLON :: w3 ++ y ++ w4) ++ T = w1 ++ DQUOTE :: r ++ DQUOTE :: w2 ++ COLON :: w3 ++ y ++ w4 ++ T)
    by (repeat (rewrite <- app_assoc; cbn [app]); done).
  rewrite Et in *. clear Et. destruct HF as (F1 & F2 & F3). len_in F1. len_in F2. len_in F3. len_in Hf.
  destruct (ParseKey_eq Alloc_ok junk mem L MD V i r kt.1 (w2 ++ COLON :: w3 ++ y ++ w4 ++ T) d s fl m Hs Hi Hv (find_member_absent _ _ Hk) Hr)
    as (s1 & E1 & [(fl1 & N1) N2 N3 N4 N5] & G5 & G6); [unfold fits; len; lia|].
  destruct (Ht y V (w4 ++ T) d s1 fl1 (nodeLen s) f Hy) as (s2 & E & [B1 B2 B3 B4] & Hst);
    [by apply value_end_blank|done|lia|unfold fits; len; lia|lia|done|lia|].
  exists s2. split_and!.
  - cbn [JsonParser.ParseMembers]. rewrite bind_gets. cbn [IsOk err_ negb].
    rewrite (bind_ok _ _ _ _ _ (SkipWS_eq L MD V w1 (DQUOTE :: r ++ DQUOTE :: w2 ++ COLON :: w3 ++ y ++ w4 ++ T) d s Hw1 eq_refl)), bind_gets. cbn [Peek src Z.eqb Pos.eqb negb].
    rewrite (bind_ok _ _ _ _ _ E1), (bind_ok _ _ _ _ _ (Expect_eq L MD V w2 COLON _ d s1 Hw2 eq_refl)).
    rewrite (bind_ok _ _ _ _ _ (SkipWS_eq L MD V w3 _ d s1 Hw3 (denotes_not_ws _ _ _ _ Hy))), (bind_ok _ _ _ _ _ E).
    by rewrite (bind_ok _ _ _ _ _ (SkipWS_eq L MD V w4 T d s2 Hw4 HT2)).
  - rewrite B2 by lia. done.
  - lia.
  - apply (stands_mono _ (nodeLen s1)); [lia|done].
  - split.
    + done.
    + intros j Hj Hne. rewrite B2 by lia. by apply N4.
    + lia.
    + len_in B4. len. lia.
Qed.

Lemma ParseMembers_eq ms : Forall (fun kt => reads kt.2) ms -> forall parts V l d s fl i m fuel,
  ms <> [] -> Forall2 member_text parts ms -> NoDup (map fst m ++ map fst ms) -> store_ok s fl -> 0 <= i < nodeLen s -> view s i = VObject m ->
  fits (commas parts ++ RBRACE :: l) s -> 0 <= d < MD -> Forall (fun kt => d + 1 + height kt.2 <= MD) ms -> (2 * length (commas parts) + 2 <= fuel)%nat ->
  exists s' es, ParseMembers fuel i (P V (commas parts ++ RBRACE :: l) (d + 1) s) = (Ok tt, P V l d s') /\ view s' i = VObject (m ++ es) /\
    Forall2 (fun e kt => e.1 = kt.1 /\ nodeLen s <= e.2 < nodeLen s' /\ stands (doc s') (nodeLen s) e.2 kt.2) es ms /\ built i (commas parts ++ RBRACE :: l) l s s'.
Proof.
  induction 1 as [|kt ms Ht _ IH]; intros parts V l d s fl i m fuel Hne Hp Hnd Hs Hi Hv HF Hd Hh Hf; [done|]. inversion Hp as [|p kt' ps ms' Hpt Hps]; subst.
  apply Forall_cons in Hh as [Hh Hhs]. destruct fuel as [|f]; [lia|]. rewrite commas_tail in *. destruct (tail_value_end ps RBRACE l (or_intror eq_refl)) as [T1 T2].
  assert (Hpl : (length p <= length (commas (p :: ps)))%nat) by (cbn; rewrite length_app; lia). cbn [map] in Hnd.
  assert (Hk : kt.1 ∉ map fst m) by (intros Hin; apply NoDup_app in Hnd as (_ & Hd' & _); apply (Hd' _ Hin), list_elem_of_here).
  destruct (member_step kt p V (tail_of ps RBRACE l) (d + 1) s fl i m f Ht Hpt T1 T2 Hs Hi Hv Hk HF ltac:(lia) ltac:(lia) ltac:(lia)) as (s1 & E & Hv1 & Hn1 & Hst & HB).
  rewrite E, bind_gets. clear E. pose proof (built_fits _ _ _ _ _ HB HF) as HF1. destruct HB as [(fl1 & Hs1) B2 B3 B4]. destruct ps as [|q ps]; cbn [tail_of] in *; cbn [Peek src Z.eqb Pos.eqb negb].
  - inversion Hps; subst. rewrite bind_advance. cbn [drop]. rewrite ?drop_0, leave_eq by done. exists s1, [(kt.1, nodeLen s)]. split_and!; [done|done| |].
    + constructor; [split_and!; [done|cbn; lia|cbn; lia|done]|by constructor].
    + split; [by exists fl1|done|lia|]. cbn [length] in B4 |- *. lia.
  - rewrite bind_advance. cbn [drop]. rewrite ?drop_0. inversion Hps as [|? t2 ? ts2]; subst.
    destruct (IH (q :: ps) V l d s1 fl1 i (m ++ [(kt.1, nodeLen s)]) f) as (s2 & es & E & Hv2 & Hes & HB2);
      [done|done|by rewrite map_app, <- app_assoc|done|lia|done| |done|done|rewrite commas_cons, length_app in Hf; cbn [length] in Hf; lia|].
    { unfold fits in *. cbn [length] in HF1. lia. }
    rewrite E. destruct HB2 as [C1 C2 C3 C4]. exists s2, ((kt.1, nodeLen s) :: es). split_and!; [done|by rewrite Hv2, <- app_assoc| |].
    + constructor; [cbn [fst snd]; split_and!; [done|lia|lia|]|].
      * apply (stands_kept s1 s2 (nodeLen s) i); [lia|lia|lia|lia|lia|exact C2|done].
      * eapply Forall2_weaken; [exact Hes|]. cbn. intros c u _ _ (X0 & X1 & X2). split_and!; [done|lia|lia|]. apply (stands_mono _ (nodeLen s1)); [lia|done].
    + split; [done| |lia|cbn [length] in *; lia]. intros j Hj Hji. rewrite C2 by lia. by apply B2.
Qed.

(** The opening of a container, up to its first item or its end. *)
Lemma ParseContainer_eq V n close loop i c w l d s : 0 <= d < MD -> blank w -> not_ws l ->
  ParseContainer n close loop i (P V (c :: w ++ l) d s) =
    (if Peek (P V l (d + 1) (set_node i n s)) =? close then advance 1 ;; modify (fun p => set_depth (u32 (depth_ p - 1)) p) else loop) (P V l (d + 1) (set_node i n s)).
Proof.
  intros Hd Hw Hl. unfold ParseContainer. rewrite bind_advance. cbn [drop]. rewrite ?drop_0, enter_eq by lia. unfold put_node. rewrite bind_modify. unfold set_st. cbn [src len_ depth_ maxDepth_ isView_ err_ st].
  rewrite (bind_ok _ _ _ _ _ (SkipWS_eq L MD V w l (d + 1) _ Hw Hl)). done.
Qed.

(** An empty container. *)
Lemma empty_container V n close loop i c w l d s fl : 0 <= d < MD -> blank w -> is_ws close = false -> store_ok s fl -> 0 <= i < nodeLen s -> keys_of n = [] -> node_ok s n ->
  ParseContainer n close loop i (P V (c :: w ++ close :: l) d s) = (Ok tt, P V l d (set_node i n s)) /\
  built i ((c :: w ++ [close]) ++ l) l s (set_node i n s) /\ at_ref (doc (set_node i n s)) i = view_node s n.
Proof.
  intros Hd Hw Hc Hs Hi Hk Hn. split; [|by apply (put_built s fl)]. rewrite ParseContainer_eq by done. cbn [Peek src]. rewrite Z.eqb_refl, bind_advance. cbn [drop]. rewrite ?drop_0.
  unfold modify, set_depth. cbn [src len_ depth_ maxDepth_ isView_ err_ st]. rewrite wrap_small by lia. by replace (d + 1 - 1) with d by lia.
Qed.

(** The first item of a container is no end of it. *)
Lemma container_body V n close loop i c w a l d s : 0 <= d < MD -> blank w -> is_ws a = false -> a <> close ->
  ParseContainer n close loop i (P V (c :: w ++ a :: l) d s) = loop (P V (a :: l) (d + 1) (set_node i n s)).
Proof. intros Hd Hw Ha Hac. rewrite ParseContainer_eq by done. cbn [Peek src]. by rewrite (proj2 (Z.eqb_neq a close)) by done. Qed.

(** A node made a container, its items read. *)
Lemma built_container i n x y l s s' fl : store_ok s fl -> 0 <= i < nodeLen s -> keys_of n = [] -> node_ok s n -> (length y <= length x)%nat ->
  built i (y ++ l) l (set_node i n s) s' -> built i (x ++ l) l s s'.
Proof.
  intros Hs Hi Hk Hn Hl [B1 B2 B3 B4]. destruct (set_node_ok s fl i n Hs Hi Hk Hn) as (H1 & H2 & H3 & H4 & H5). rewrite H4 in *. split; [done| |done|].
  - intros j Hj Hne. rewrite B2 by done. by apply H5.
  - change (kvLen (set_node i n s)) with (kvLen s) in B4. change (strLen (set_node i n s)) with (strLen s) in B4. rewrite length_app in *. lia.
Qed.

Lemma element_strip w p t : blank w -> element_text (w ++ p) t -> not_ws p -> p <> [] -> element_text p t.
Proof.
  intros Hw (w1 & y & w2 & Hw1 & Hw2 & E & Hy) Hp Hne. destruct (denotes_head _ _ _ Hy) as (c & r & -> & Hc & _).
  exists [], (c :: r), w2. split_and!; [apply blank_nil|done| |done]. pose proof (span_blank w p Hw Hp) as E1.
  rewrite E, span_blank in E1 by done. by rewrite <- E1.
Qed.

Lemma fold_max_nonneg l : 0 <= fold_right Z.max 0 l.
Proof. induction l; cbn; lia. Qed.

Lemma height_items {A} (f : A -> Z) ts d : d + (1 + fold_right Z.max 0 (map f ts)) <= MD -> d < MD /\ Forall (fun x => d + 1 + f x <= MD) ts.
Proof.
  intros H. pose proof (fold_max_nonneg (map f ts)). split; [lia|]. pose proof (fold_max_le (map f ts)) as HF. rewrite Forall_forall in HF. apply Forall_forall. intros x Hx.
  specialize (HF (f x) ltac:(by apply list_elem_of_fmap_2)). cbn in HF. lia.
Qed.

Lemma reads_array ts : Forall reads ts -> reads (JArr ts).
Proof.
  intros Hts x V l d s fl i fuel Hx Hl Hs Hi HF Hd Hh Hf. destruct fuel as [|f]; [lia|]. set (n := ARRAY 0 0 None).
  destruct (height_items height ts d Hh) as [Hd1 Hhs].
  destruct (set_node_ok s fl i n Hs Hi eq_refl ltac:(done)) as (H1 & H2 & H3 & H4 & H5).
  destruct Hx as [(-> & w & Hw & ->)|(Hne & parts & -> & Hall)].
  - cbn [app]. rewrite <- app_assoc. cbn [app]. rewrite ParseValue_start by done. cbn [Z.eqb Pos.eqb]. unfold ParseArray.
    destruct (empty_container V n RBRACKET (ParseElements f i) i LBRACKET w l d s fl ltac:(lia) Hw eq_refl Hs Hi eq_refl ltac:(done)) as (E & B & Ev).
    unfold n in E. rewrite E. eexists. split; [reflexivity|]. cbn [app] in B. rewrite <- app_assoc in B. split; [exact B|]. cbn [stands]. exists []. split; [exact Ev|done].
  - apply all2_Forall2 in Hall. inversion Hall as [|p t ps ts' (w1 & y & w2 & Hw1 & Hw2 & Ep & Hy) Hps]; subst; [done|].
    destruct (denotes_head _ _ _ Hy) as (a & r & -> & Ha & Hac).
    assert (Hp2 : Forall2 element_text (((a :: r) ++ w2) :: ps) (t :: ts')) by (constructor; [exists [], (a :: r), w2; split_and!; [apply blank_nil|exact Hw2|done|exact Hy]|exact Hps]).
    assert (Ec : commas ((w1 ++ (a :: r) ++ w2) :: ps) = w1 ++ commas (((a :: r) ++ w2) :: ps)) by apply commas_front.
    rewrite Ec in *. set (body := commas (((a :: r) ++ w2) :: ps)) in *.
    assert (Eb : exists b, body = a :: b) by (unfold body; destruct ps; by eexists). destruct Eb as [b Eb].
    cbn [app]. rewrite <- !app_assoc. cbn [app]. rewrite ParseValue_start by done. cbn [Z.eqb Pos.eqb]. unfold ParseArray. rewrite Eb. cbn [app].
    rewrite container_body by (done || lia). change (a :: b ++ RBRACKET :: l) with ((a :: b) ++ RBRACKET :: l). rewrite <- Eb.
    destruct (ParseElements_eq (t :: ts') Hts (((a :: r) ++ w2) :: ps) V l d (set_node i n s) fl i [] f) as (s' & cs & E & Hv' & Hcs & HB); try done.
    + lia.
    + unfold view. by rewrite H3.
    + unfold fits in *. fold body. len_in HF. rewrite H4. change (kvLen (set_node i n s)) with (kvLen s). change (strLen (set_node i n s)) with (strLen s). len. lia.
    + fold body. len_in Hf. lia.
    + fold body in E, HB. exists s'. split; [exact E|]. cbn [app] in Hv'. rewrite H4 in Hcs. split.
      * replace (LBRACKET :: w1 ++ body ++ RBRACKET :: l) with ((LBRACKET :: w1 ++ body ++ [RBRACKET]) ++ l) by (cbn [app]; by rewrite <- !app_assoc).
        apply (built_container i n _ (0 :: body ++ [RBRACKET]) l s s' fl Hs Hi eq_refl ltac:(done)); [len; lia|].
        cbn [app]. rewrite <- app_assoc. exact HB.
      * cbn [stands]. exists cs. split; [|].
        -- rewrite doc_at; [done|]. destruct HB. lia.
        -- apply all2_Forall2. eapply Forall2_weaken; [exact Hcs|]. cbn. intros c u _ _ (X1 & X2). split; [rewrite doc_length; exact X1|exact X2].
Qed.

Lemma reads_object ms : Forall (fun kt => reads kt.2) ms -> reads (JObj ms).
Proof.
  intros Hts x V l d s fl i fuel Hx Hl Hs Hi HF Hd Hh Hf. destruct fuel as [|f]; [lia|]. set (n := OBJECT 0 0 None).
  destruct (height_items (fun kt : bytes * json => height kt.2) ms d Hh) as [Hd1 Hhs].
  assert (Hn : node_ok s n) by (split; [done|by apply Forall_nil|by apply NoDup_nil_2]).
  destruct (set_node_ok s fl i n Hs Hi eq_refl Hn) as (H1 & H2 & H3 & H4 & H5).
  destruct Hx as [(-> & w & Hw & ->)|(Hne & Hnd & parts & -> & Hall)].
  - cbn [app]. rewrite <- app_assoc. cbn [app]. rewrite ParseValue_start by done. cbn [Z.eqb Pos.eqb]. unfold ParseObject.
    destruct (empty_container V n RBRACE (ParseMembers f i) i LBRACE w l d s fl ltac:(lia) Hw eq_refl Hs Hi eq_refl Hn) as (E & B & Ev).
    unfold n in E. rewrite E. eexists. split; [reflexivity|]. cbn [app] in B. rewrite <- app_assoc in B. split; [exact B|]. cbn [stands]. exists []. split; [exact Ev|done].
  - apply all2_Forall2 in Hall. inversion Hall as [|p kt ps ms' (w1 & r & w2 & w3 & y & w4 & Hw1 & Hw2 & Hw3 & Hw4 & Hr & Ep & Hy) Hps]; subst; [done|].
    set (q := DQUOTE :: r ++ DQUOTE :: w2 ++ COLON :: w3 ++ y ++ w4) in *.
    assert (Hp2 : Forall2 member_text (q :: ps) (kt :: ms')) by (constructor; [exists [], r, w2, w3, y, w4; split_and!; [apply blank_nil|exact Hw2|exact Hw3|exact Hw4|exact Hr|done|exact Hy]|exact Hps]).
    assert (Ec : commas ((w1 ++ q) :: ps) = w1 ++ commas (q :: ps)) by apply commas_front.
    rewrite Ec in *. set (body := commas (q :: ps)) in *.
    assert (Eb : exists b, body = DQUOTE :: b) by (unfold body; destruct ps; by eexists). destruct Eb as [b Eb].
    cbn [app]. rewrite <- !app_assoc. cbn [app]. rewrite ParseValue_start by done. cbn [Z.eqb Pos.eqb]. unfold ParseObject. rewrite Eb. cbn [app].
    rewrite container_body by (done || lia). change (DQUOTE :: b ++ RBRACE :: l) with ((DQUOTE :: b) ++ RBRACE :: l). rewrite <- Eb.
    destruct (ParseMembers_eq (kt :: ms') Hts (q :: ps) V l d (set_node i n s) fl i [] f) as (s' & es & E & Hv' & Hes & HB); try done.
    + lia.
    + unfold view. by rewrite H3.
    + unfold fits in *. fold body. len_in HF. rewrite H4. change (kvLen (set_node i n s)) with (kvLen s). change (strLen (set_node i n s)) with (strLen s). len. lia.
    + fold body. len_in Hf. lia.
    + fold body in E, HB. exists s'. split; [exact E|]. cbn [app] in Hv'. rewrite H4 in Hes. split.
      * replace (LBRACE :: w1 ++ body ++ RBRACE :: l) with ((LBRACE :: w1 ++ body ++ [RBRACE]) ++ l) by (cbn [app]; by rewrite <- !app_assoc).
        apply (built_container i n _ (body ++ [RBRACE]) l s s' fl Hs Hi eq_refl Hn); [len; lia|].
        rewrite <- app_assoc. exact HB.
      * cbn [stands]. exists es. split; [|].
        -- rewrite doc_at; [done|]. destruct HB. lia.
        -- apply all2_Forall2. eapply Forall2_weaken; [exact Hes|]. cbn. intros c u _ _ (X0 & X1 & X2). split; [done|]. split; [rewrite doc_length; exact X1|exact X2].
Qed.

(** Every text of a value is read. *)
Lemma reads_all t : reads t.
Proof.
  induction t as [|v|v|v|v|v|l IH|m IH] using json_nested_ind.
  - apply (reads_literal JNull (lit "null") EMPTY); done.
  - destruct v.
    + apply (reads_literal (JBool true) (lit "true") (BOOL true)); done.
    + apply (reads_literal (JBool false) (lit "false") (BOOL false)); done.
  - by apply reads_number.
  - by apply reads_number.
  - by apply reads_number.
  - apply reads_string.
  - by apply reads_array.
  - by apply reads_object.
Qed.

End reading.

Section entry.
Context (Alloc_ok : Z -> bool) (junk : Z) (from_chars_double : bytes -> option Z) (mem : forall n, Alloc_ok n = true).

Lemma container_dispatch V MD L t y l d s f : container t = true -> denotes from_chars_double t y ->
  let p := Parser (y ++ l) L d MD V None s in
  ((Peek p =? LBRACE) || (Peek p =? LBRACKET)) = true /\
  (if Peek p =? LBRACE then ParseObject (ParseMembers Alloc_ok junk from_chars_double f) 0 p else ParseArray (ParseElements Alloc_ok junk from_chars_double f) 0 p) =
    ParseValue Alloc_ok junk from_chars_double (S f) 0 p.
Proof.
  intros Hc Hy p. assert (Hh : exists c r, y = c :: r /\ (c = LBRACE \/ c = LBRACKET)).
  { destruct t as [|v|v|v|v|v|l0|m]; try discriminate; cbn [denotes] in Hy.
    - destruct Hy as [(_ & w & _ & ->)|(_ & parts & -> & _)]; eexists _, _; (split; [reflexivity|by right]).
    - destruct Hy as [(_ & w & _ & ->)|(_ & _ & parts & -> & _)]; eexists _, _; (split; [reflexivity|by left]). }
  destruct Hh as (c & r & -> & [->| ->]); unfold p; cbn [Peek src app Z.eqb Pos.eqb orb]; by rewrite ParseValue_start.
Qed.

(** Every text of the grammar within the depth limit is accepted, and the root stands
    for the value the text denotes. *)
Lemma ParseImpl_accepts t body V MD : json_text from_chars_double t body -> height t <= MD < 2 ^ 32 -> Z.of_nat (length body) < 2 ^ 28 ->
  exists s fl, ParseImpl Alloc_ok junk from_chars_double body V MD = Some (Result (Some s) None 0) /\ store_ok s fl /\ 0 < nodeLen s /\ stands (doc s) 1 0 t.
Proof.
  intros (Hc & w1 & y & w2 & Hw1 & Hw2 & -> & Hy) Hd Hlen. destruct (Init_ok Alloc_ok mem) as (s0 & E0 & Hs0 & Ed & L1 & L2 & L3).
  set (body := w1 ++ y ++ w2) in *. assert (Hlb : length body = (length w1 + length y + length w2)%nat) by (unfold body; rewrite !length_app; lia).
  set (f := fuel_for body).
  destruct (reads_all Alloc_ok junk from_chars_double mem (Z.of_nat (length body)) MD ltac:(lia) t y V w2 0 s0 [] 0 (S f) Hy) as (s & E & [(fl & B1) B2 B3 B4] & Hst).
  - rewrite <- (app_nil_r w2). by apply value_end_blank.
  - done.
  - lia.
  - unfold fits. rewrite length_app. lia.
  - lia.
  - lia.
  - unfold f, fuel_for. lia.
  - exists s, fl. rewrite L1 in Hst. split_and!; [|done|lia|done]. unfold ParseImpl.
    assert (Hm : forall X Y : option JsonParseResult, match body with [] => X | _ => Y end = Y).
    { intros X Y. unfold body. destruct (denotes_head _ _ _ Hy) as (c & r & -> & _). by destruct w1. }
    assert (Ep : (SkipWS (Parser body (Z.of_nat (length body)) 0 MD V None s0)).2 = Parser (y ++ w2) (Z.of_nat (length body)) 0 MD V None s0).
    { unfold body at 1. by rewrite (SkipWS_eq _ MD V w1 (y ++ w2) 0 s0 Hw1 (denotes_not_ws _ _ _ _ Hy)). }
    rewrite Hm, E0. cbv zeta. rewrite Ep. clear Ep Hm.
    destruct (container_dispatch V MD (Z.of_nat (length body)) t y w2 0 s0 f Hc Hy) as [Hor Heq]. cbv zeta in Hor, Heq. fold f. rewrite Heq, E.
    rewrite <- negb_orb, Hor. cbn [negb IsOk err_].
    pose proof (SkipWS_eq (Z.of_nat (length body)) MD V w2 [] 0 s Hw2 I) as Ews. rewrite app_nil_r in Ews. rewrite Ews. done.
Qed.

Lemma norm_height t : height (norm t) = height t.
Proof.
  induction t as [|v|v|v|v|v|l IH|m IH] using json_nested_ind; try done; [by cbn; destruct (v <? 0)|..]; cbn [norm height]; rewrite map_map; do 2 f_equal;
    apply map_ext_in; intros u Hu%list_elem_of_In; rewrite Forall_forall in IH; by apply IH.
Qed.

(** C22: what a document writes, it reads back: [Serialize] of a document whose root
    stands for a container, with numbers within 64 bits, text without the control
    bytes [Escaped] leaves raw and doubles that read back, is accepted by [ParseImpl]
    within the depth limit, copying or viewing; the new document stands for the same
    value, integers without sign being unsigned, and writes the same text. *)
Theorem serialize_parse_roundtrip to_chars_double s fl t V MD x :
  store_ok s fl -> 0 < nodeLen s -> stands (doc s) 0 0 t -> container t = true -> writable short_escape from_chars_double to_chars_double t -> height t <= MD < 2 ^ 32 ->
  Serialize to_chars_double (S (Z.to_nat (height t))) s 0 = Some x -> Z.of_nat (length x) < 2 ^ 28 ->
  exists s' fl', ParseImpl Alloc_ok junk from_chars_double x V MD = Some (Result (Some s') None 0) /\ store_ok s' fl' /\
    stands (doc s') 1 0 (norm t) /\ Serialize to_chars_double (S (Z.to_nat (height t))) s' 0 = Some x.
Proof.
  intros Hs Hn Hst Hc Hw Hd Hx Hlen. pose proof (height_nonneg t) as Hh.
  rewrite (Serialize_text _ s fl 0 t 0 _ Hs ltac:(lia) ltac:(lia) Hst) in Hx by lia. injection Hx as <-.
  pose proof (text_denotes short_escape from_chars_double to_chars_double t Hw) as Hden.
  pose proof (norm_height t) as Hh2. assert (Hc2 : container (norm t) = true) by by destruct t.
  destruct (ParseImpl_accepts (norm t) (text short_escape to_chars_double t) V MD) as (s' & fl' & E & Hs' & Hn' & Hst').
  - split; [done|]. exists [], (text short_escape to_chars_double t), []. rewrite app_nil_r. split_and!; [apply blank_nil..|done|done].
  - lia.
  - done.
  - exists s', fl'. split_and!; [done|done|done|]. rewrite (Serialize_text _ s' fl' 1 (norm t) 0 _ Hs' ltac:(lia) ltac:(lia) Hst') by lia.
    by rewrite (norm_text short_escape from_chars_double).
Qed.

End entry.

(** ** What is accepted

    Weakest preconditions: [m] from [p] ends in [Q], or fails in [E]; it does not run
    out of fuel. *)

Definition wp {A} (m : M A) (p : JsonParser) (Q : A -> JsonParser -> Prop) (E : JsonParser -> Prop) : Prop :=
  match m p with (Ok a, p) => Q a p | (No, p) => E p | (Fuel, _) => False end.

Lemma wp_bind {A B} (m : M A) (k : A -> M B) p Q E : wp m p (fun a p => wp (k a) p Q E) E -> wp (bind m k) p Q E.
Proof. unfold wp, bind. by destruct (m p) as [[a| |] p']. Qed.

Lemma wp_mono {A} (m : M A) p (Q Q' : A -> JsonParser -> Prop) E : wp m p Q E -> (forall a p, Q a p -> Q' a p) -> wp m p Q' E.
Proof. unfold wp. destruct (m p) as [[a| |] p']; auto. Qed.

Lemma wp_ok {A} (m : M A) p a p' Q E : m p = (Ok a, p') -> Q a p' -> wp m p Q E.
Proof. unfold wp. by intros ->. Qed.

Lemma wp_gets {A B} (f : JsonParser -> A) (k : A -> M B) p Q E : wp (k (f p)) p Q E -> wp (bind (gets f) k) p Q E.
Proof. done. Qed.

Lemma wp_modify {B} f (k : unit -> M B) p Q E : wp (k tt) (f p) Q E -> wp (bind (modify f) k) p Q E.
Proof. done. Qed.

Lemma wp_ret {A} (a : A) p (Q : A -> JsonParser -> Prop) E : Q a p -> wp (ret a) p Q E.
Proof. done. Qed.

Definition failed (p : JsonParser) : Prop := err_ p <> None.

Lemma wp_failing {A} msg p Q : @wp A (failing msg) p Q failed.
Proof. unfold wp, failing, failed, Fail_. by destruct (err_ p) eqn:E; cbn; [rewrite E|]. Qed.

Lemma wp_if {A} (b : bool) (m1 m2 : M A) p Q E : (b = true -> wp m1 p Q E) -> (b = false -> wp m2 p Q E) -> wp (if b then m1 else m2) p Q E.
Proof. destruct b; auto. Qed.

Section soundness_text.
Context (L MD : Z).
Abbreviation P V l d s := (Parser l L d MD V None s).

Lemma span_split {A} (f : A -> bool) l : exists a b, span f l = (a, b) /\ l = a ++ b /\ Forall (fun x => f x = true) a /\ match b with [] => True | x :: _ => f x = false end.
Proof.
  induction l as [|x l IH]; [by exists [], []|]. destruct IH as (a & b & E & El & Ha & Hb). cbn. rewrite E. destruct (f x) eqn:Ef.
  - exists (x :: a), b. split_and!; [done|by rewrite El|by constructor|done].
  - exists [], (x :: l). by split_and!.
Qed.

Lemma wp_SkipWS V l d s {B} (k : unit -> M B) Q E :
  (forall w l', l = w ++ l' -> blank w -> not_ws l' -> wp (k tt) (P V l' d s) Q E) -> wp (bind SkipWS k) (P V l d s) Q E.
Proof.
  intros H. destruct (span_split is_ws l) as (w & l' & Es & El & Hw & Hl). specialize (H w l' El Hw Hl).
  apply wp_bind. apply (wp_ok _ _ tt (P V l' d s)); [|done]. unfold SkipWS, modify, set_src. cbn [src]. by rewrite Es.
Qed.

Lemma wp_advance V n l d s {B} (k : unit -> M B) Q E : wp (k tt) (P V (drop n l) d s) Q E -> wp (bind (advance n) k) (P V l d s) Q E.
Proof. done. Qed.

(** Digits taken, if any. *)
Lemma wp_SkipDigits V l d s {B} (k : bool -> M B) Q E :
  (forall ds l', l = ds ++ l' -> digits ds -> not_digit l' -> wp (k true) (P V l' d s) Q E) -> wp (k false) (P V l d s) Q E -> wp (bind SkipDigits k) (P V l d s) Q E.
Proof.
  intros H1 H2. destruct (span_split is_digit l) as (ds & l' & Es & El & Hw & Hl). apply wp_bind. unfold wp at 1, SkipDigits. cbn [src]. rewrite Es.
  destruct ds as [|c ds]; [exact H2|]. by apply (H1 (c :: ds) l' El).
Qed.

Lemma wp_hex_loop V n cp l d s Q : (n <= length l)%nat ->
  (forall h x, l = h ++ drop n l -> length h = n -> Forall2 (fun c y => hex_digit c = Some y) h x -> wp (ret (fold_left (fun a y => Z.lor (u32 (Z.shiftl a 4)) y) x cp)) (P V (drop n l) d s) Q failed) ->
  wp (hex_loop n cp) (P V l d s) Q failed.
Proof.
  revert cp l. induction n as [|n IH]; intros cp l Hl Hk; cbn [hex_loop].
  - rewrite drop_0 in Hk. by apply (Hk [] []).
  - destruct l as [|c l]; [cbn in Hl; lia|]. apply wp_gets. cbn [src Peek]. apply wp_advance. cbn [drop]. rewrite drop_0.
    destruct (hex_digit c) as [y|] eqn:Ec; [|apply wp_failing]. apply IH; [cbn in Hl; lia|]. intros h x E1 E2 E3. cbn [drop] in Hk.
    apply (Hk (c :: h) (y :: x)); [cbn; by rewrite <- E1|by cbn; rewrite E2|by constructor].
Qed.

Lemma wp_DecodeHex4 V l d s {B} (k : Z -> M B) Q :
  (forall h cp l', l = h ++ l' -> hex4 h cp -> wp (k cp) (P V l' d s) Q failed) -> wp (bind DecodeHex4 k) (P V l d s) Q failed.
Proof.
  intros Hk. apply wp_bind. unfold DecodeHex4. apply wp_gets. cbn [src Peek]. destruct (length l <? 4)%nat eqn:El; [apply wp_failing|]. apply Nat.ltb_ge in El.
  apply wp_hex_loop; [done|]. intros h x E1 E2 E3. apply wp_ret. destruct h as [|a [|b [|c [|e [|? ?]]]]]; try discriminate.
  inversion E3 as [|? x1 ? ? H1 E4]; subst. inversion E4 as [|? x2 ? ? H2 E5]; subst. inversion E5 as [|? x3 ? ? H3 E6]; subst. inversion E6 as [|? x4 ? ? H4 E7]; subst. inversion E7; subst.
  pose proof (hex_digit_range _ _ H1). pose proof (hex_digit_range _ _ H2). pose proof (hex_digit_range _ _ H3). pose proof (hex_digit_range _ _ H4).
  cbn [fold_left]. rewrite (hex_step 0 x1), (hex_step _ x2), (hex_step _ x3), (hex_step _ x4) by lia. apply (Hk _ _ _ E1).
  replace (16 * (16 * (16 * (16 * 0 + x1) + x2) + x3) + x4) with (4096 * x1 + 256 * x2 + 16 * x3 + x4) by lia. by constructor.
Qed.

(** An escape accepted is one of the grammar. *)
Lemma wp_DecodeEscape V l d s {B} (k : bytes -> M B) Q :
  (forall e x l', l = e ++ l' -> escape e x -> wp (k x) (P V l' d s) Q failed) -> wp (bind DecodeEscape k) (P V l d s) Q failed.
Proof.
  intros Hk. apply wp_bind. unfold DecodeEscape. apply wp_gets. cbn [src Peek]. destruct l as [|c l]; [apply wp_failing|]. cbn [End_ src].
  apply wp_gets. cbn [src Peek]. apply wp_advance. cbn [drop]. rewrite drop_0.
  assert (Hsimple : forall x, simple_escape c = Some x -> wp (ret [x]) (P V l d s) (fun a p => wp (k a) p Q failed) failed).
  { intros x Hx. apply wp_ret, (Hk [c] [x] l); [done|by constructor]. }
  unfold simple_escape in Hsimple.
  do 8 (apply wp_if; intros Eb; rewrite Eb in Hsimple; [by apply Hsimple|]; clear Eb). apply wp_if; intros Eb; [|apply wp_failing].
  apply Z.eqb_eq in Eb. subst c. clear Hsimple. apply wp_DecodeHex4. intros h cp l1 -> Hh. pose proof (hex4_length _ _ Hh) as [Hhl Hcp]. apply wp_if; intros Eb.
  - apply wp_gets. cbn [src Peek]. destruct l1 as [|a [|b l2]]; try apply wp_failing. apply wp_if; intros Eb2; [apply wp_failing|].
    apply orb_false_iff in Eb2 as [Ea Eb2]. apply negb_false_iff, Z.eqb_eq in Ea, Eb2. subst. apply wp_advance. cbn [drop]. rewrite drop_0.
    apply wp_DecodeHex4. intros h2 lo l3 -> Hlo. apply wp_if; intros Eb3; [apply wp_failing|]. apply orb_false_iff in Eb3. apply andb_true_iff in Eb. apply wp_ret.
    rewrite (wrap_small 32 (cp - 0xD800)) by lia. rewrite Z.shiftl_mul_pow2 by lia. change (2 ^ 10) with 1024.
    rewrite (wrap_small 32 ((cp - 0xD800) * 1024)), (wrap_small 32 (lo - 0xDC00)) by lia. rewrite (wrap_small 32 (0x10000 + _)) by lia.
    rewrite wrap_small by lia. rewrite EncodeUTF8_utf8 by lia. apply (Hk (117 :: h ++ BACKSLASH :: 117 :: h2)); [cbn; by rewrite <- app_assoc|]. constructor; [done|done|lia|lia].
  - apply wp_if; intros Eb2; [apply wp_failing|]. apply wp_ret. rewrite EncodeUTF8_utf8 by lia. apply (Hk (117 :: h)); [done|]. constructor; [done|].
    intros [X1 X2]. destruct (Z.leb_spec 0xD800 cp), (Z.leb_spec cp 0xDBFF), (Z.leb_spec 0xDC00 cp), (Z.leb_spec cp 0xDFFF); cbn in Eb, Eb2; (discriminate || lia).
Qed.

End soundness_text.

(** *** Strings accepted *)

Lemma scan_inv l i n e b : scan l i = (Some n, e, b) ->
  exists r rest, l = r ++ rest /\ n = (i + length r)%nat /\ BACKSLASH ∉ r /\ chars r r /\
    ((e = false /\ exists t, rest = DQUOTE :: t) \/ (e = true /\ exists t, rest = BACKSLASH :: t)).
Proof.
  revert i. induction l as [|c l IH]; intros i H; cbn in H; [discriminate|]. destruct (Z.ltb_spec c 32) as [|Hc]; [discriminate|].
  destruct (Z.eqb_spec c BACKSLASH) as [->|Hb]; [|destruct (Z.eqb_spec c DQUOTE) as [->|Hq]].
  - injection H as <- <- _. exists [], (BACKSLASH :: l). split_and!; [done|cbn; lia|apply not_elem_of_nil|constructor|right; split; [done|by eexists]].
  - injection H as <- <- _. exists [], (DQUOTE :: l). split_and!; [done|cbn; lia|apply not_elem_of_nil|constructor|left; split; [done|by eexists]].
  - destruct (IH (S i) H) as (r & rest & -> & -> & Hn & Hr & Hcase). exists (c :: r), rest. split_and!; [done|cbn; lia|by apply not_elem_of_cons|by constructor|done].
Qed.

Lemma scan_inv_plain l n b : scan l 0 = (Some n, false, b) -> exists r t, l = r ++ DQUOTE :: t /\ n = length r /\ BACKSLASH ∉ r /\ chars r r.
Proof. intros H. destruct (scan_inv _ _ _ _ _ H) as (r & rest & -> & -> & Hn & Hr & [(_ & t & ->)|(He & _)]); [|done]. by exists r, t. Qed.

Lemma scan_inv_escape l n b : scan l 0 = (Some n, true, b) -> BACKSLASH ∈ l.
Proof. intros H. destruct (scan_inv _ _ _ _ _ H) as (r & rest & -> & _ & _ & _ & [(He & _)|(_ & t & ->)]); [done|]. apply elem_of_app. right. apply list_elem_of_here. Qed.

Section soundness_strings.
Context (L MD : Z).
Abbreviation P V l d s := (Parser l L d MD V None s).

(** The rest of an escaped string: to its closing quote, or to the end of the input. *)
Lemma wp_unescape V fuel l d s out Q : (length l < fuel)%nat ->
  (forall r v l', l = r ++ DQUOTE :: l' -> chars r v -> Q (out ++ v) (P V l' d s)) -> (forall v, Q v (P V [] d s)) -> wp (unescape fuel out) (P V l d s) Q failed.
Proof.
  revert l out Q. induction fuel as [|f IH]; intros l out Q Hf H1 H2; [lia|]. cbn [unescape]. apply wp_gets. cbn [src]. destruct l as [|c l]; [apply H2|].
  apply wp_if; intros Eq; [|apply wp_if; intros Ec; [apply wp_failing|apply wp_if; intros Eb]].
  - apply Z.eqb_eq in Eq. subst c. apply wp_advance. cbn [drop]. rewrite drop_0. apply wp_ret. rewrite <- (app_nil_r out). apply (H1 [] []); [done|constructor].
  - apply wp_advance. cbn [drop]. rewrite drop_0. apply Z.eqb_neq in Eq. apply Z.ltb_ge in Ec. apply negb_true_iff, Z.eqb_neq in Eb. cbn in Hf. apply IH; [lia| |exact H2].
    intros r v l' -> Hr. rewrite <- app_assoc. apply (H1 (c :: r) (c :: v)); [done|by constructor].
  - apply negb_false_iff, Z.eqb_eq in Eb. subst c. apply wp_advance. cbn [drop]. rewrite drop_0. apply wp_DecodeEscape. intros e x l1 -> He. cbn in Hf. rewrite length_app in Hf.
    pose proof (escape_length e x He). apply IH; [lia| |exact H2]. intros r v l' -> Hr. rewrite <- app_assoc.
    apply (H1 (BACKSLASH :: e ++ r) (x ++ v)); [cbn; by rewrite <- app_assoc|by constructor].
Qed.

End soundness_strings.

Section soundness_values.
Context (Alloc_ok : Z -> bool) (junk : Z) (from_chars_double : bytes -> option Z) (mem : forall n, Alloc_ok n = true) (L MD : Z) (HMD : MD < 2 ^ 32).
Abbreviation P V l d s := (Parser l L d MD V None s).

(** Nothing is left to read. *)
Definition spent (p : JsonParser) : Prop := src p = [] /\ err_ p = None.

Lemma wp_ParseString V l d s Q : strLen s + Z.of_nat (length l) + 5 <= 2 ^ 30 -> strLen s <= strCap s ->
  (forall w r v l' s' n, l = w ++ DQUOTE :: r ++ DQUOTE :: l' -> blank w -> chars r v -> stored V v s s' n ->
     (BACKSLASH ∈ r -> exists cap, s' = with_text v cap s /\ strLen s + Z.of_nat (length v) + 1 <= cap /\ n = STR_OWN (strLen s) (Z.of_nat (length v))) -> Q n (P V l' d s')) ->
  (forall n s', Q n (P V [] d s')) -> wp (ParseString Alloc_ok junk) (P V l d s) Q failed.
Proof.
  intros Hl Hc H1 H2. unfold ParseString, Expect. unfold bind at 2. apply wp_bind. apply wp_SkipWS. intros w l1 -> Hw _. rewrite length_app in Hl. apply wp_gets. cbn [Peek src].
  apply wp_if; intros Eq; [apply wp_failing|]. apply negb_false_iff, Z.eqb_eq in Eq. destruct l1 as [|c l1]; [done|]. cbn in Eq. subst c. apply (wp_ok _ _ tt (P V l1 d s)); [by cbn; rewrite ?drop_0|].
  unfold ScanString. apply wp_bind, wp_gets. cbn [src]. destruct (scan l1 0) as [[[n|] e] b] eqn:Es; [|by destruct b; apply wp_failing].
  apply wp_ret. destruct e.
  - pose proof (scan_inv_escape _ _ _ Es) as Hin. cbn [length] in Hl. unfold ParseStringEscaped. apply wp_gets. cbn [src].
    assert (0 <= strLen s) by (unfold strLen; lia). rewrite (wrap_small 32 (Z.of_nat _)), wrap_small by (rewrite ?wrap_small by lia; lia).
    destruct (alloc_str_eq Alloc_ok junk mem L MD V None (Z.of_nat (length l1) + 4) l1 d s) as (cap & E & Hcap); [lia|done|lia|done|].
    apply wp_bind, (wp_ok _ _ _ _ _ _ E). apply wp_bind, wp_unescape; [lia| |].
    + intros r v l' El Hr. apply wp_modify, wp_ret. unfold set_st. cbn [src len_ depth_ maxDepth_ isView_ err_ st app].
      pose proof (chars_length r v Hr) as Hrl. rewrite El, length_app in Hcap. cbn [length] in Hcap.
      assert (Ep : patch_text (strLen s) v (set_strs (strs s ++ default (replicate (Z.to_nat (Z.of_nat (length l1) + 4)) junk) None ++ [0]) cap s) = with_text v cap s).
      { unfold patch_text, with_text, set_strs. cbn [strs nodes nodeCap kvs kvCap_ kvFree strCap]. unfold strLen at 1. by rewrite Nat2Z.id, take_app_length. }
      rewrite Ep. apply (H1 w r v l'); [by rewrite El|done|done|right; split; [done|exists cap; split; [done|lia]]|intros _; exists cap; split_and!; [done|lia|done]].
    + intros v. apply wp_modify, wp_ret. apply H2.
  - destruct (scan_inv_plain _ _ _ Es) as (r & t & El & -> & Hn & Hr). cbn [length] in Hl.
    destruct (ParseString_eq Alloc_ok junk mem L MD V w r r t d s Hw Hr) as (s' & n & E & Hst & Hesc); [rewrite <- El; lia|done|].
    unfold ParseString in E. rewrite (bind_ok _ _ _ _ _ (Expect_eq L MD V w DQUOTE (r ++ DQUOTE :: t) d s Hw eq_refl)) in E. unfold ScanString in E. unfold bind at 1 in E. rewrite bind_gets in E.
    cbn [src] in E. rewrite <- El, Es in E. unfold ret at 1 in E. cbv iota beta in E. unfold wp. rewrite E. apply (H1 w r r t); [by rewrite El|done|done|done|done].
Qed.

(** *** Numbers accepted *)

Lemma wp_scan_fraction V l d s {B} (k : bool -> M B) Q :
  (forall f l', l = f ++ l' -> fraction f -> wp (k (match f with [] => false | _ => true end)) (P V l' d s) Q failed) -> wp (bind scan_fraction k) (P V l d s) Q failed.
Proof.
  intros Hk. apply wp_bind. unfold scan_fraction. apply wp_gets, wp_if; intros Ec; [|by apply wp_ret, (Hk [] l); [|left]].
  destruct l as [|c l]; [done|]. cbn in Ec. apply Z.eqb_eq in Ec. subst c. apply wp_advance. cbn [drop]. rewrite drop_0.
  apply wp_SkipDigits; [|apply wp_failing]. intros ds l' -> Hds _. apply wp_ret, (Hk (DOT :: ds)); [done|]. right. by exists ds.
Qed.

Lemma wp_scan_exponent V b l d s Q :
  (forall e l', l = e ++ l' -> exponent e -> Q (match e with [] => b | _ => true end) (P V l' d s)) -> wp (scan_exponent b) (P V l d s) Q failed.
Proof.
  intros Hk. unfold scan_exponent. apply wp_gets, wp_if; intros Em; [|by apply wp_ret, (Hk [] l); [|left]].
  destruct l as [|m l]; [done|]. cbn in Em. apply wp_advance. cbn [drop]. rewrite drop_0. apply wp_gets.
  assert (Hm : m = 101 \/ m = 69) by (apply orb_true_iff in Em as [E|E]; apply Z.eqb_eq in E; auto).
  assert (Hrest : forall sg l1, l = sg ++ l1 -> sg = [] \/ sg = [PLUS] \/ sg = [MINUS] ->
    wp (do d <- SkipDigits; if (d : bool) then ret true else failing (lit "invalid number")) (P V l1 d s) Q failed).
  { intros sg l1 -> Hsg. apply wp_SkipDigits; [|apply wp_failing]. intros ds l' -> Hds _. apply wp_ret.
    pose proof (Hk (m :: sg ++ ds) l' ltac:(by cbn; rewrite <- app_assoc) ltac:(right; by exists m, sg, ds)) as H. done. }
  apply wp_bind, wp_if; intros Es.
  - destruct l as [|c l]; [done|]. cbn in Es. apply (wp_ok _ _ tt (P V l d s)); [by cbn; rewrite ?drop_0|]. apply (Hrest [c]); [done|].
    apply orb_true_iff in Es as [E|E]; apply Z.eqb_eq in E; subst; auto.
  - apply wp_ret, (Hrest []); auto.
Qed.

Lemma wp_ScanNumber V l d s {B} (k : bool -> M B) Q :
  (forall ds f e l', l = ds ++ f ++ e ++ l' -> digits ds -> fraction f -> exponent e -> wp (k (match f ++ e with [] => false | _ => true end)) (P V l' d s) Q failed) ->
  wp (bind ScanNumber k) (P V l d s) Q failed.
Proof.
  intros Hk. apply wp_bind. unfold ScanNumber. apply wp_SkipDigits; [|apply wp_failing]. intros ds l1 -> Hds _. cbn [negb].
  apply wp_scan_fraction. intros f l2 -> Hf. apply wp_scan_exponent. intros e l3 -> He. pose proof (Hk ds f e l3 eq_refl Hds Hf He) as H. by destruct f, e.
Qed.


Lemma wp_ParseNumber V l d s Q :
  (forall x t l', l = x ++ l' -> number from_chars_double x t -> Q (scalar_node t) (P V l' d s)) -> wp (ParseNumber from_chars_double) (P V l d s) Q failed.
Proof.
  intros Hk. unfold ParseNumber. apply wp_gets, wp_gets. cbn [src]. apply wp_bind.
  assert (Hrest : forall (neg : bool) sg l1, l = sg ++ l1 -> sg = (if neg then [MINUS] else []) ->
    wp (do isFloat <- ScanNumber ; do rest <- gets src ;
        let t := take (length l - length rest) l in
        if (isFloat : bool) then match from_chars_double t with Some v => ret (DOUBLE v) | None => failing (lit "invalid number") end
        else if neg then match from_chars_int 64 t with FcOk v _ => ret (INT64 v) | _ => failing (lit "invalid number") end
        else match from_chars_uint 64 t with FcOk v _ => ret (UINT64 v) | _ => failing (lit "invalid number") end) (P V l1 d s) Q failed).
  { intros neg sg l1 -> Hsg. apply wp_ScanNumber. intros ds f e l' -> Hds Hf He. apply wp_gets. cbn [src].
    replace (take _ _) with (sg ++ ds ++ f ++ e) by (rewrite !app_assoc; symmetry; apply take_front). cbv zeta. destruct (f ++ e) as [|c r] eqn:Efe.
    - apply app_nil in Efe as [-> ->]. rewrite !app_nil_r in *. cbn [app] in *. pose proof Hds as [Hd1 Hd2]. destruct neg; subst sg.
      + cbn [app]. unfold from_chars_int. cbn [Z.eqb Pos.eqb drop]. rewrite ?drop_0, span_digits by done. destruct ds as [|c ds]; [done|]. set (dd := c :: ds) in *.
        destruct ((- 2 ^ (64 - 1) <=? - dec_value dd) && (- dec_value dd <? 2 ^ (64 - 1))) eqn:Eb; [|apply wp_failing]. apply andb_true_iff in Eb as [Eb _]. apply Z.leb_le in Eb.
        apply wp_ret. apply (Hk (MINUS :: dd) (JInt (- dec_value dd))); [done|]. by apply Nu_int.
      + cbn [app]. rewrite from_chars_uint_all by done. destruct (Z.ltb_spec (dec_value ds) (2 ^ 64)); [|apply wp_failing]. apply wp_ret. apply (Hk ds (JUInt (dec_value ds))); [done|]. by apply Nu_uint.
    - destruct (from_chars_double (sg ++ ds ++ c :: r)) as [v|] eqn:Ev; [|apply wp_failing]. apply wp_ret. rewrite <- Efe in Ev.
      apply (Hk (sg ++ ds ++ f ++ e) (JDouble v)); [by rewrite <- !app_assoc|]. apply Nu_double; [destruct neg; auto|done|done|done|by rewrite Efe|done]. }
  apply wp_if; intros Ec; rewrite Ec in *.
  - destruct l as [|c l]; [done|]. cbn in Ec. apply Z.eqb_eq in Ec. subst c. apply (wp_ok _ _ tt (P V l d s)); [by cbn; rewrite ?drop_0|]. by apply (Hrest true [MINUS] l).
  - apply wp_ret. by apply (Hrest false []).
Qed.

(** *** Keys accepted *)

Lemma find_member_none_inv k m : find_member k m = None -> k ∉ map fst m.
Proof.
  unfold find_member. induction m as [|e m IH]; intros H; [apply not_elem_of_nil|]. cbn in H. case_bool_decide as E; [done|]. cbn [map]. apply not_elem_of_cons. split; [by intros ->|by apply IH].
Qed.

Lemma get_cases s fl i m k l out : store_ok s fl -> 0 <= i < nodeLen s -> view s i = VObject m -> simulates s l out (doc_get_or_create i k (doc s)) ->
  (k ∉ map fst m /\ out.1 = nodeLen s /\ new_member i m k s out.2) \/ nodeLen out.2 = nodeLen s.
Proof.
  intros Hs Hi Hv Hsim. destruct (find_member k m) as [v|] eqn:Ek.
  - right. destruct Hsim as (_ & E & _). unfold doc_get_or_create in E. rewrite (small_ref s fl i Hs Hi), doc_at, Hv in E by done. cbn [members] in E. rewrite Ek in E. cbn [snd] in E.
    apply (f_equal length) in E. rewrite !doc_length in E. unfold nodeLen. lia.
  - left. destruct (new_member_of s _ fl i m k l out Hs Hi Hv Ek Hsim eq_refl) as [E N]. split; [by apply find_member_none_inv|by split].
Qed.

Lemma wp_key_end V l d (s s2 : JsonStore) v (Q : Z -> JsonParser -> Prop) :
  (nodeLen s2 <> nodeLen s -> v <> JSON_NIL -> Q v (P V l d s2)) ->
  wp (if v =? JSON_NIL then failing (lit "out of memory")
      else do nodesAfter <- gets (fun p => nodeLen (st p)) ; if nodesAfter =? nodeLen s then failing (lit "duplicate key") else ret v) (P V l d s2) Q failed.
Proof.
  intros HQ. apply wp_if; intros E1; [apply wp_failing|]. apply wp_gets. cbn [st]. apply wp_if; intros E2; [apply wp_failing|]. apply wp_ret, HQ; by apply Z.eqb_neq.
Qed.

Lemma wp_ParseKey V i l d s fl m (Q : Z -> JsonParser -> Prop) :
  store_ok s fl -> 0 <= i < nodeLen s -> view s i = VObject m -> fits (DQUOTE :: l) s ->
  (forall r k l' s', l = r ++ DQUOTE :: l' -> chars r k -> k ∉ map fst m -> new_member i m k s s' -> kvLen s' <= kvLen s + 1 -> strLen s' <= strLen s + Z.of_nat (length r) + 1 ->
     Q (nodeLen s) (P V l' d s')) ->
  (forall v s', Q v (P V [] d s')) -> wp (ParseKey Alloc_ok junk i) (P V (DQUOTE :: l) d s) Q failed.
Proof.
  intros Hs Hi Hv (F1 & F2 & F3) HQ HQ0. cbn [length] in F1, F2, F3. destruct (so_caps _ _ Hs) as (_ & _ & Hca).
  unfold ParseKey. apply wp_gets. cbn [src]. apply wp_advance. cbn [drop]. rewrite drop_0. unfold ScanString. apply wp_bind, wp_gets. cbn [src].
  destruct (scan l 0) as [[[n|] e] b] eqn:Es; [|by destruct b; apply wp_failing]. apply wp_ret, wp_gets. cbn [st]. destruct e; cbn [negb].
  - apply wp_bind, wp_modify, wp_gets, wp_modify. unfold set_src, set_view. cbn [src len_ depth_ maxDepth_ isView_ err_ st].
    assert (HW : wp (ParseString Alloc_ok junk) (P false (DQUOTE :: l) d s) (fun n p => exists s1 l', p = P false l' d s1 /\ (l' = [] \/ exists r k cap, l = r ++ DQUOTE :: l' /\ chars r k /\
      s1 = with_text k cap s /\ strLen s + Z.of_nat (length k) + 1 <= cap /\ n = STR_OWN (strLen s) (Z.of_nat (length k)))) failed).
    { apply wp_ParseString; [cbn [length]; lia|done| |].
      - intros w r k l' s' n0 E Hw Hr Hst _. exists s', l'. split; [done|]. right. destruct Hw as [|c w Hc _]; [|cbn in E; injection E as <- _; done].
        injection E as E. destruct Hst as [(? & _)|(-> & cap & -> & Hcap)]; [done|]. by exists r, k, cap.
      - intros n0 s'. exists s', []. split; [done|by left]. }
    unfold wp at 1. unfold wp in HW. destruct (ParseString Alloc_ok junk (P false (DQUOTE :: l) d s)) as [[n0| |] p']; [|exact HW|done].
    destruct HW as (s1 & l' & -> & Hl'). unfold set_view. cbn [src len_ depth_ maxDepth_ isView_ err_ st]. set (ol := match n0 with STR_OWN off len => (off, len) | _ => (0, 0) end).
    destruct ol as [off ln] eqn:Eol. destruct Hl' as [->|(r & k & cap & -> & Hr & -> & Hcap & ->)].
    + destruct (GetOrCreateStored Alloc_ok junk i off ln s1) as [v s2]. unfold set_st. cbn [src len_ depth_ maxDepth_ isView_ err_ st].
      apply (wp_key_end V [] d s s2). intros _ _. apply HQ0.
    + injection Eol as <- <-. rewrite length_app in F1, F2, F3. cbn [length] in F1, F2, F3. pose proof (chars_length r k Hr) as Hlen.
      destruct (with_text_ok s fl k cap Hs ltac:(lia) Hcap) as (Hs1 & El1 & Estr & Hvw & _). set (s1 := with_text k cap s) in *.
      pose proof (GetOrCreateStored_ok Alloc_ok junk mem s1 fl i (strLen s) (Z.of_nat (length k)) Hs1 ltac:(by right) ltac:(split_and!; [change (nodeLen s + 1 <= 2 ^ 28)|change (kvLen s + 1 <= 2 ^ 28)|]; lia)
        ltac:(unfold strLen; lia) ltac:(lia) ltac:(lia)) as Hsim. rewrite Estr in Hsim. pose proof (get_cases s1 fl i m k _ _ Hs1 Hi ltac:(by rewrite Hvw) Hsim) as Hcase.
      destruct Hsim as (_ & _ & _ & _ & G2 & G3). destruct (GetOrCreateStored Alloc_ok junk i (strLen s) (Z.of_nat (length k)) s1) as [v s2] eqn:Eg. cbn [fst snd] in *.
      unfold set_st. cbn [src len_ depth_ maxDepth_ isView_ err_ st]. apply (wp_key_end V l' d s s2). intros Hne _. change (nodeLen s1) with (nodeLen s) in Hcase.
      destruct Hcase as [(Hk & -> & [N1 N2 N3 N4 N5])|Hsame]; [|done]. apply (HQ r k l'); [done|done|done| |exact G2|lia].
      split; [done|done|done| |done]. intros j Hj Hji. rewrite N4 by done. by apply Hvw.
  - destruct (scan_inv_plain _ _ _ Es) as (r & t & -> & -> & Hn & Hr). apply wp_bind, wp_gets. cbn [src]. apply wp_advance. rewrite take_app_length.
    assert (Ed : drop (S (length r)) (r ++ DQUOTE :: t) = t) by (replace (S (length r)) with (length r + 1)%nat by lia; by rewrite <- drop_drop, drop_app_length). rewrite Ed.
    rewrite length_app in F1, F2, F3. cbn [length] in F1, F2, F3.
    pose proof (GetOrCreate_ok Alloc_ok junk mem s fl i r Hs ltac:(by right) ltac:(split_and!; lia)) as Hsim. pose proof (get_cases s fl i m r _ _ Hs Hi Hv Hsim) as Hcase.
    destruct Hsim as (_ & _ & _ & _ & G2 & G3). unfold wp at 1. cbn [st]. destruct (GetOrCreate Alloc_ok junk i r s) as [v s2] eqn:Eg. cbn [fst snd] in *. unfold set_st. cbn [src len_ depth_ maxDepth_ isView_ err_ st].
    apply (wp_key_end V t d s s2). intros Hne _. destruct Hcase as [(Hk & -> & N)|Hsame]; [|done]. apply (HQ r r t); [done|done|done|done|done|lia].
Qed.

End soundness_values.

(** *** Values accepted *)

Section accepted.
Context (Alloc_ok : Z -> bool) (junk : Z) (from_chars_double : bytes -> option Z) (mem : forall n, Alloc_ok n = true) (L MD : Z) (HMD : MD + 1 < 2 ^ 32).
Abbreviation P V l d s := (Parser l L d MD V None s).
Abbreviation ParseValue := (ParseValue Alloc_ok junk from_chars_double).
Abbreviation ParseMembers := (ParseMembers Alloc_ok junk from_chars_double).
Abbreviation ParseElements := (ParseElements Alloc_ok junk from_chars_double).
Abbreviation denotes := (denotes from_chars_double).
Abbreviation element_text := (element_text from_chars_double).
Abbreviation member_text := (member_text from_chars_double).

(** A value was read, or a string ran to the end of the input. *)
Definition value_read (V : bool) (l : bytes) (d : Z) (s : JsonStore) (i : Z) (p' : JsonParser) : Prop :=
  (exists w x t l' s', l = w ++ x ++ l' /\ blank w /\ denotes t x /\ d + height t <= MD /\ p' = P V l' d s' /\ built i l l' s s') \/
  (spent p' /\ exists w l1, l = w ++ DQUOTE :: l1 /\ blank w).

Definition elements_read (V : bool) (l : bytes) (d : Z) (s : JsonStore) (i : Z) (p' : JsonParser) : Prop :=
  exists parts ts l' s', l = commas parts ++ RBRACKET :: l' /\ ts <> [] /\ Forall2 element_text parts ts /\ Forall (fun t => d + 1 + height t <= MD) ts /\
     p' = P V l' d s' /\ built i (0 :: l) l' s s'.

Definition members_read (V : bool) (l : bytes) (d : Z) (s : JsonStore) (i : Z) (m : list (bytes * Z)) (p' : JsonParser) : Prop :=
  exists parts ms l' s', l = commas parts ++ RBRACE :: l' /\ ms <> [] /\ Forall2 member_text parts ms /\ NoDup (map fst ms) /\ (forall k, k ∈ map fst ms -> k ∉ map fst m) /\
     Forall (fun kt => d + 1 + height kt.2 <= MD) ms /\ p' = P V l' d s' /\ built i l l' s s'.

Lemma wp_literal V x i n l d s Q : (forall l', l = x ++ l' -> Q tt (P V l' d (set_node i n s))) -> wp (literal x i n) (P V l d s) Q failed.
Proof.
  intros H. unfold literal. apply wp_gets. cbn [src]. apply wp_if; intros E; [apply wp_failing|]. apply negb_false_iff, bool_decide_eq_true in E.
  apply wp_advance. apply (wp_ok _ _ tt (P V (drop (length x) l) d (set_node i n s))); [done|]. apply H. rewrite <- E at 1. by rewrite take_drop.
Qed.

Lemma wp_container V n close loop i c l d s Q : 0 <= d <= MD ->
  (d + 1 <= MD -> forall w l', l = w ++ close :: l' -> blank w -> Q tt (P V l' d (set_node i n s))) ->
  (d + 1 <= MD -> forall w l', l = w ++ l' -> blank w -> not_ws l' -> wp loop (P V l' (d + 1) (set_node i n s)) Q failed) -> close <> 0 ->
  wp (ParseContainer n close loop i) (P V (c :: l) d s) Q failed.
Proof.
  intros Hd H1 H2 Hc0. unfold ParseContainer. apply wp_advance. cbn [drop]. rewrite drop_0. apply wp_bind.
  assert (Ee : enter (P V l d s) = if MD <? d + 1 then (No, Fail_ (lit "max depth exceeded") (P V l (d + 1) s)) else (Ok tt, P V l (d + 1) s)).
  { unfold enter, set_depth. cbn [src len_ depth_ maxDepth_ isView_ err_ st]. by rewrite wrap_small by lia. }
  unfold wp at 1. rewrite Ee. destruct (Z.ltb_spec MD (d + 1)) as [Hlt|Hge]; [by unfold failed, Fail_; cbn|]. apply wp_modify. unfold set_st. cbn [src len_ depth_ maxDepth_ isView_ err_ st].
  apply wp_SkipWS. intros w l' -> Hw Hl. apply wp_gets, wp_if; intros Ec; [|by apply (H2 Hge w)]. destruct l' as [|a l']; [apply Z.eqb_eq in Ec; by subst|].
  cbn in Ec. apply Z.eqb_eq in Ec. subst a. apply wp_advance. cbn [drop]. rewrite drop_0.
  apply (wp_ok _ _ tt (P V l' d (set_node i n s))); [|by apply (H1 Hge w)]. unfold modify, set_depth. cbn [src len_ depth_ maxDepth_ isView_ err_ st].
  rewrite wrap_small by lia. by replace (d + 1 - 1) with d by lia.
Qed.

Lemma all2_of {A B} (R : A -> B -> Prop) l k : Forall2 R l k -> all2 R k l.
Proof. apply all2_Forall2. Qed.

(** What a container read denotes. *)
Lemma array_denotes w parts ts : blank w -> ts <> [] -> Forall2 element_text parts ts -> denotes (JArr ts) (LBRACKET :: w ++ commas parts ++ [RBRACKET]).
Proof.
  intros Hw Hne HF. cbn [JsonText.denotes]. right. split; [done|]. inversion HF as [|p t ps ts' (w1 & y & w2 & H1 & H2 & -> & Hy) Hps]; subst; [done|].
  exists ((w ++ w1 ++ y ++ w2) :: ps). split.
  - by rewrite (commas_front w), <- app_assoc.
  - apply all2_of. constructor; [|exact Hps]. exists (w ++ w1), y, w2. split_and!; [by apply Forall_app|done|by rewrite <- app_assoc|done].
Qed.

Lemma object_denotes w parts ms : blank w -> ms <> [] -> NoDup (map fst ms) -> Forall2 member_text parts ms -> denotes (JObj ms) (LBRACE :: w ++ commas parts ++ [RBRACE]).
Proof.
  intros Hw Hne Hnd HF. cbn [JsonText.denotes]. right. split; [done|]. split; [done|].
  inversion HF as [|p kt ps ms' (w1 & r & w2 & w3 & y & w4 & H1 & H2 & H3 & H4 & Hr & -> & Hy) Hps]; subst; [done|].
  eexists ((w ++ w1 ++ _) :: ps). split.
  - by rewrite (commas_front w), <- app_assoc.
  - apply all2_of. constructor; [|exact Hps]. exists (w ++ w1), r, w2, w3, y, w4. split_and!; [by apply Forall_app|done|done|done|done|by rewrite <- app_assoc|done].
Qed.

Lemma height_array ts d : d + 1 <= MD -> Forall (fun t => d + 1 + height t <= MD) ts -> d + height (JArr ts) <= MD.
Proof. intros H. cbn [height]. induction 1 as [|t ts Ht _ IH]; cbn; lia. Qed.

Lemma height_object (ms : list (bytes * json)) d : d + 1 <= MD -> Forall (fun kt => d + 1 + height kt.2 <= MD) ms -> d + height (JObj ms) <= MD.
Proof. intros H. cbn [height]. induction 1 as [|t ts Ht _ IH]; cbn; lia. Qed.

Lemma fits_drop w l s : fits (w ++ l) s -> fits l s.
Proof. unfold fits. len. lia. Qed.

Lemma built_prefix w i l l' s s' : built i l l' s s' -> built i (w ++ l) l' s s'.
Proof. intros [B1 B2 B3 B4]. split; [done|done|done|]. len. lia. Qed.

Lemma spent_next {A} (k : Z -> M A) p Q : spent p -> (forall p, spent p -> wp (k 0) p Q failed) -> wp (SkipWS ;; do c <- gets Peek ; k c) p Q failed.
Proof. intros [E1 E2] Hk. destruct p as [l ln dd md v er s]. cbn in E1, E2. subst. apply wp_SkipWS. intros w l' E _ _. destruct w; [|done]. cbn in E. subst l'. apply wp_gets. by apply Hk. Qed.

(** The three kinds of calls, with enough fuel for what remains. *)
Definition value_sound (fuel : nat) : Prop := forall V l d s fl i, store_ok s fl -> 0 <= i < nodeLen s -> fits l s -> 0 <= d <= MD -> (2 * length l + 1 <= fuel)%nat ->
  wp (ParseValue fuel i) (P V l d s) (fun _ p' => value_read V l d s i p') failed.
Definition members_sound (fuel : nat) : Prop := forall V l d s fl i m, store_ok s fl -> 0 <= i < nodeLen s -> view s i = VObject m -> fits l s -> 0 <= d < MD -> (2 * length l + 1 <= fuel)%nat ->
  wp (ParseMembers fuel i) (P V l (d + 1) s) (fun _ p' => members_read V l d s i m p') failed.
Definition elements_sound (fuel : nat) : Prop := forall V l d s fl i cs, store_ok s fl -> 0 <= i < nodeLen s -> view s i = VArray cs -> fits (0 :: l) s -> 0 <= d < MD -> (2 * length l + 2 <= fuel)%nat ->
  wp (ParseElements fuel i) (P V l (d + 1) s) (fun _ p' => elements_read V l d s i p') failed.

Lemma leave_ok V l d s (Q : unit -> JsonParser -> Prop) : 0 <= d < MD -> Q tt (P V l d s) -> wp leave (P V l (d + 1) s) Q failed.
Proof. intros Hd. apply wp_ok. apply leave_eq; [lia|done]. Qed.

Lemma elements_step f : value_sound f -> elements_sound f -> elements_sound (S f).
Proof.
  intros HV HE V l d s fl i cs Hs Hi Hv (F1 & F2 & F3) Hd Hf. cbn [length] in F1, F2, F3. cbn [JsonParser.ParseElements]. apply wp_gets. cbn [IsOk err_ negb].
  pose proof (PushBack_ok Alloc_ok junk mem s fl i Hs ltac:(by right) ltac:(split_and!; lia)) as (G1 & G2 & (fl1 & Hs1) & _ & G5 & G6).
  unfold doc_push_back in G1, G2. rewrite (small_ref s fl i Hs Hi), doc_at, doc_length, Hv in G1, G2 by done. cbn [elements fst snd] in G1, G2. fold (nodeLen s) in G1, G2.
  destruct (PushBack Alloc_ok junk i s) as [c s1] eqn:Ep. cbn [fst snd] in *. subst c. destruct (doc_grow_inv _ _ _ _ _ Hi G2) as (D1 & D2 & D3 & D4).
  apply wp_bind. unfold wp at 1. cbn [st]. rewrite Ep. unfold set_st. cbn [src len_ depth_ maxDepth_ isView_ err_ st]. rewrite (proj2 (Z.eqb_neq _ _)) by (unfold JSON_NIL; lia).
  apply wp_SkipWS. intros w1 l1 -> Hw1 _. rewrite length_app in F1, F2, F3, Hf. apply wp_bind.
  eapply wp_mono; [apply (HV V l1 (d + 1) s1 fl1 (nodeLen s)); [done|lia|unfold fits; lia|lia|lia]|]. cbn beta. intros _ p' [(w & x & t & l2 & s2 & -> & Hw & Hx & Hh & -> & [B1 B2 B3 B4])|[Hsp _]].
  2:{ apply spent_next; [done|]. intros p [E1 E2]. apply wp_failing. }
  apply wp_SkipWS. intros w2 l3 -> Hw2 _. apply wp_gets. destruct B1 as [fl2 Hs2].
  assert (Hp : element_text (w1 ++ w ++ x ++ w2) t) by (exists (w1 ++ w), x, w2; split_and!; [by apply Forall_app|done|by rewrite <- app_assoc|done]).
  assert (HB : built i (0 :: (w1 ++ w ++ x ++ w2) ++ l3) l3 s s2).
  { split; [by exists fl2| |lia|len; len_in B4; lia]. intros j Hj Hne. rewrite B2 by lia. by apply D4. }
  assert (Ev2 : view s2 i = VArray (cs ++ [nodeLen s])) by (rewrite B2 by lia; done).
  replace (w1 ++ w ++ x ++ w2 ++ l3) with ((w1 ++ w ++ x ++ w2) ++ l3) by (by rewrite <- !app_assoc). set (p := w1 ++ w ++ x ++ w2) in *.
  destruct l3 as [|c l3]; [apply wp_failing|]. cbn [Peek src]. apply wp_if; intros Ec; [|apply wp_if; intros Ec2; [apply wp_failing|]].
  - apply Z.eqb_eq in Ec. subst c. apply wp_advance. cbn [drop]. rewrite drop_0. apply leave_ok; [done|]. exists [p], [t], l3, s2. split_and!; [cbn; by rewrite app_nil_r|done|by constructor|by constructor|done|].
    destruct HB as [C1 C2 C3 C4]. split; [done|done|done|]. cbn [length] in *. lia.
  - apply negb_false_iff, Z.eqb_eq in Ec2. subst c. apply wp_advance. cbn [drop]. rewrite drop_0.
    assert (Hlen3 : (2 * length l3 + 2 <= f)%nat) by (len_in Hf; lia).
    eapply wp_mono; [apply (HE V l3 d s2 fl2 i (cs ++ [nodeLen s])); [done|lia|done| |done|done]|].
    { apply (built_fits _ _ _ _ _ HB). unfold fits, p. len. len_in F1. len_in F2. len_in F3. lia. }
    cbn beta. intros _ p' (parts & ts & l' & s' & -> & Hne & HF & Hhs & -> & [C1 C2 C3 C4]). exists (p :: parts), (t :: ts), l', s'.
    split_and!; [|done|by constructor|by constructor|done|].
    + inversion HF; subst; [done|]. by rewrite commas_cons, <- app_assoc.
    + destruct HB as [_ B5 B6 B7]. split; [done| |lia|cbn [length] in *; len; len_in B7; len_in C4; lia]. intros j Hj Hne'. rewrite C2 by lia. by apply B5.
Qed.

Lemma Expect_spent c p Q : c <> 0 -> spent p -> wp (Expect c) p Q failed.
Proof.
  intros Hc [E1 E2]. destruct p as [l ln dd md v er s]. cbn in E1, E2. subst. unfold Expect. apply wp_SkipWS. intros w l' E _ _. destruct w; [|done]. cbn in E. subst l'. apply wp_gets. cbn [Peek src].
  apply wp_if; intros Eq; [apply wp_failing|]. apply negb_false_iff, Z.eqb_eq in Eq. by subst.
Qed.

Lemma wp_Expect V c l d s {B} (k : unit -> M B) Q : c <> 0 ->
  (forall w l', l = w ++ c :: l' -> blank w -> wp (k tt) (P V l' d s) Q failed) -> wp (bind (Expect c) k) (P V l d s) Q failed.
Proof.
  intros Hc Hk. apply wp_bind. unfold Expect. apply wp_SkipWS. intros w l1 -> Hw _. apply wp_gets, wp_if; intros Eq; [apply wp_failing|].
  apply negb_false_iff, Z.eqb_eq in Eq. destruct l1 as [|a l1]; cbn in Eq; [by subst|]. subst a. apply (wp_ok _ _ tt (P V l1 d s)); [by cbn; rewrite ?drop_0|]. by apply (Hk w).
Qed.

Lemma members_step f : value_sound f -> members_sound f -> members_sound (S f).
Proof.
  intros HV HM V l d s fl i m Hs Hi Hv HF Hd Hf. cbn [JsonParser.ParseMembers]. apply wp_gets. cbn [IsOk err_ negb].
  apply wp_SkipWS. intros w1 l1 -> Hw1 _. apply wp_gets, wp_if; intros Eq; [apply wp_failing|]. apply negb_false_iff, Z.eqb_eq in Eq. destruct l1 as [|c l1]; [done|]. cbn in Eq. subst c.
  apply wp_bind, (wp_ParseKey Alloc_ok junk mem L MD V i l1 (d + 1) s fl m); [done|done|done|by apply (fits_drop w1)| |].
  2:{ intros v s'. apply wp_bind, Expect_spent; [done|by split]. }
  intros r k l2 s1 -> Hr Hk [(fl1 & N1) N2 N3 N4 N5] G5 G6. apply wp_Expect; [done|]. intros w2 l3 -> Hw2. apply wp_SkipWS. intros w3 l4 -> Hw3 _.
  destruct HF as (F1 & F2 & F3). len_in F1. len_in F2. len_in F3. len_in Hf. apply wp_bind.
  eapply wp_mono; [apply (HV V l4 (d + 1) s1 fl1 (nodeLen s)); [done|lia|unfold fits; lia|lia|lia]|]. cbn beta. intros _ p' [(w & x & t & l5 & s2 & -> & Hw & Hx & Hh & -> & [B1 B2 B3 B4])|[Hsp _]].
  2:{ apply spent_next; [done|]. intros p [E1 E2]. apply wp_failing. }
  apply wp_SkipWS. intros w4 l6 -> Hw4 _. apply wp_gets. destruct B1 as [fl2 Hs2]. set (p := w1 ++ DQUOTE :: r ++ DQUOTE :: w2 ++ COLON :: (w3 ++ w) ++ x ++ w4).
  assert (Hp : member_text p (k, t)) by (exists w1, r, w2, (w3 ++ w), x, w4; split_and!; [done|done|by apply Forall_app|done|done|done|done]).
  assert (Epl : w1 ++ DQUOTE :: r ++ DQUOTE :: w2 ++ COLON :: w3 ++ w ++ x ++ w4 ++ l6 = p ++ l6) by (unfold p; repeat (rewrite <- app_assoc; cbn [app]); done). rewrite Epl.
  assert (Hpl : length p = (length w1 + length r + length w2 + length w3 + length w + length x + length w4 + 3)%nat) by (unfold p; len; lia).
  assert (HB : built i (p ++ l6) l6 s s2).
  { split; [by exists fl2| |lia|len; len_in B4; lia]. intros j Hj Hne. rewrite B2 by lia. by apply N4. }
  assert (Ev2 : view s2 i = VObject (m ++ [(k, nodeLen s)])) by (rewrite B2 by lia; done).
  destruct l6 as [|c l6]; [apply wp_failing|]. cbn [Peek src]. apply wp_if; intros Ec; [|apply wp_if; intros Ec2; [apply wp_failing|]].
  - apply Z.eqb_eq in Ec. subst c. apply wp_advance. cbn [drop]. rewrite drop_0. apply leave_ok; [done|]. exists [p], [(k, t)], l6, s2.
    split_and!; [cbn; by rewrite app_nil_r|done|by constructor|by apply NoDup_singleton|by intros k' ->%list_elem_of_singleton|by constructor|done|].
    destruct HB as [C1 C2 C3 C4]. split; [done|done|done|]. cbn [length] in *. lia.
  - apply negb_false_iff, Z.eqb_eq in Ec2. subst c. apply wp_advance. cbn [drop]. rewrite drop_0.
    assert (Hlen3 : (2 * length l6 + 1 <= f)%nat) by (len_in Hf; lia).
    eapply wp_mono; [apply (HM V l6 d s2 fl2 i (m ++ [(k, nodeLen s)])); [done|lia|done| |done|done]|].
    { apply (fits_drop [COMMA]), (built_fits _ _ _ _ _ HB). unfold fits. len. len_in F1. len_in F2. len_in F3. lia. }
    cbn beta. intros _ p' (parts & ms & l' & s' & -> & Hne & HF & Hnd & Hdis & Hhs & -> & [C1 C2 C3 C4]). exists (p :: parts), ((k, t) :: ms), l', s'.
    assert (Hk2 : forall k', k' ∈ map fst ms -> k' ∉ map fst m /\ k' <> k).
    { intros k' Hk'. specialize (Hdis k' Hk'). rewrite map_app in Hdis. split; [intros Hin; apply Hdis, elem_of_app; by left|intros ->; apply Hdis, elem_of_app; right; apply list_elem_of_here]. }
    split_and!; [|done|by constructor| | |by constructor|done|].
    + inversion HF; subst; [done|]. by rewrite commas_cons, <- app_assoc.
    + cbn [map fst]. apply NoDup_cons. split; [|done]. intros Hin. by apply (Hk2 k Hin).
    + cbn [map fst]. intros k' Hk'. apply elem_of_cons in Hk' as [->|Hk']; [done|]. by apply Hk2.
    + destruct HB as [_ B5 B6 B7]. split; [done| |lia|cbn [length] in *; len; len_in B7; len_in C4; lia]. intros j Hj Hne'. rewrite C2 by lia. by apply B5.
Qed.

Lemma scalar_read V w x t l' d s fl i n : store_ok s fl -> 0 <= i < nodeLen s -> blank w -> denotes t x -> height t = 0 -> d <= MD -> keys_of n = [] -> node_ok s n ->
  value_read V (w ++ x ++ l') d s i (P V l' d (set_node i n s)).
Proof.
  intros Hs Hi Hw Hx Hh Hd Hk Hn. left. exists w, x, t, l', (set_node i n s). split_and!; [done|done|done|lia|done|]. apply built_prefix.
  apply (put_built s fl i n x l' Hs Hi Hk Hn). destruct (denotes_head _ _ _ Hx) as (c & r & -> & _). done.
Qed.

Lemma value_step f : members_sound f -> elements_sound f -> value_sound (S f).
Proof.
  intros HM HE V l d s fl i Hs Hi HF Hd Hf. cbn [JsonParser.ParseValue]. apply wp_SkipWS. intros w l1 -> Hw _. pose proof (fits_drop _ _ _ HF) as HF1. len_in Hf.
  apply wp_gets. cbn [IsOk err_ negb End_ src orb]. destruct l1 as [|c l1]; [apply wp_failing|]. apply wp_gets. cbn [Peek src].
  assert (Hlit : forall x t n, (forall y, y = x -> denotes t y) -> height t = 0 -> keys_of n = [] -> node_ok s n ->
    wp (literal x i n) (P V (c :: l1) d s) (fun _ p' => value_read V (w ++ c :: l1) d s i p') failed).
  { intros x t n Hx Hh Hk Hn. apply wp_literal. intros l' ->. apply (scalar_read V w x t l' d s fl); [done|done|done|by apply Hx|done|lia|done|done]. }
  destruct (so_caps _ _ Hs) as (_ & _ & Hca). pose proof HF1 as (F1 & F2 & F3). cbn [length] in F1, F2, F3.
  apply wp_if; intros E1; [apply Z.eqb_eq in E1; subst c; clear Hlit|clear E1; apply wp_if; intros E1; [apply Z.eqb_eq in E1; subst c; clear Hlit|clear E1; apply wp_if; intros E1; [apply Z.eqb_eq in E1; subst c; clear Hlit|clear E1]]].
  - apply wp_bind, (wp_ParseString Alloc_ok junk mem L MD); [cbn [length]; lia|done| |].
    + intros w' r v l' s' n E Hw' Hr Hst _. apply (wp_ok _ _ tt (P V l' d (set_node i n s'))); [done|]. left.
      destruct Hw' as [|c w' Hc _]; [|cbn in E; injection E as <- _; done]. injection E as E. subst l1. rewrite length_app in F3. cbn [length] in F3. pose proof (chars_length r v Hr).
      assert (Ex : DQUOTE :: r ++ DQUOTE :: l' = (DQUOTE :: r ++ [DQUOTE]) ++ l') by (cbn; by rewrite <- app_assoc). rewrite Ex.
      exists w, (DQUOTE :: r ++ [DQUOTE]), (JStr v), l', (set_node i n s'). split_and!; [done|done|by exists r|cbn; lia|done|]. apply built_prefix.
      apply (stored_built V v s s' n fl); [done|done|lia|cbn; rewrite length_app; cbn; lia|done].
    + intros n s'. apply (wp_ok _ _ tt (P V [] d (set_node i n s'))); [done|]. right. split; [done|by exists w, l1].
  - unfold ParseObject. set (n := OBJECT 0 0 None). assert (Hn : node_ok s n) by (split; [done|by apply Forall_nil|by apply NoDup_nil_2]).
    destruct (set_node_ok s fl i n Hs Hi eq_refl Hn) as (H1 & H2 & H3 & H4 & H5). apply wp_container; [done| | |done].
    + intros Hd1 w' l' -> Hw'. left. assert (Ex : LBRACE :: w' ++ RBRACE :: l' = (LBRACE :: w' ++ [RBRACE]) ++ l') by (cbn; by rewrite <- app_assoc). rewrite Ex.
      exists w, (LBRACE :: w' ++ [RBRACE]), (JObj []), l', (set_node i n s). split_and!; [done|done|left; split; [done|by exists w']|cbn; lia|done|]. apply built_prefix. by apply (put_built s fl).
    + intros Hd1 w' l' -> Hw' _. rewrite length_app in F1, F2, F3. len_in Hf. eapply wp_mono; [apply (HM V l' d (set_node i n s) fl i []); [done|lia|by unfold view; rewrite H3| |lia|lia]|].
      { unfold fits. rewrite H4. change (kvLen (set_node i n s)) with (kvLen s). change (strLen (set_node i n s)) with (strLen s). lia. }
      cbn beta. intros _ p' (parts & ms & l2 & s' & -> & Hne & HFm & Hnd & _ & Hhs & -> & HB). left.
      assert (Ex : LBRACE :: w' ++ commas parts ++ RBRACE :: l2 = (LBRACE :: w' ++ commas parts ++ [RBRACE]) ++ l2) by (cbn; by rewrite <- !app_assoc). rewrite Ex.
      exists w, (LBRACE :: w' ++ commas parts ++ [RBRACE]), (JObj ms), l2, s'. split_and!; [done|done|by apply object_denotes|by apply height_object|done|]. apply built_prefix.
      apply (built_container i n _ (commas parts ++ [RBRACE]) l2 s s' fl Hs Hi eq_refl Hn); [len; lia|]. by rewrite <- app_assoc.
  - unfold ParseArray. set (n := ARRAY 0 0 None). destruct (set_node_ok s fl i n Hs Hi eq_refl ltac:(done)) as (H1 & H2 & H3 & H4 & H5). apply wp_container; [done| | |done].
    + intros Hd1 w' l' -> Hw'. left. assert (Ex : LBRACKET :: w' ++ RBRACKET :: l' = (LBRACKET :: w' ++ [RBRACKET]) ++ l') by (cbn; by rewrite <- app_assoc). rewrite Ex.
      exists w, (LBRACKET :: w' ++ [RBRACKET]), (JArr []), l', (set_node i n s). split_and!; [done|done|left; split; [done|by exists w']|cbn; lia|done|]. apply built_prefix. by apply (put_built s fl).
    + intros Hd1 w' l' -> Hw' _. rewrite length_app in F1, F2, F3. len_in Hf. eapply wp_mono; [apply (HE V l' d (set_node i n s) fl i []); [done|lia|by unfold view; rewrite H3| |lia|lia]|].
      { unfold fits. rewrite H4. change (kvLen (set_node i n s)) with (kvLen s). change (strLen (set_node i n s)) with (strLen s). cbn [length]. lia. }
      cbn beta. intros _ p' (parts & ts & l2 & s' & -> & Hne & HFm & Hhs & -> & HB). left.
      assert (Ex : LBRACKET :: w' ++ commas parts ++ RBRACKET :: l2 = (LBRACKET :: w' ++ commas parts ++ [RBRACKET]) ++ l2) by (cbn; by rewrite <- !app_assoc). rewrite Ex.
      exists w, (LBRACKET :: w' ++ commas parts ++ [RBRACKET]), (JArr ts), l2, s'. split_and!; [done|done|by apply array_denotes|by apply height_array|done|]. apply built_prefix.
      apply (built_container i n _ (0 :: commas parts ++ [RBRACKET]) l2 s s' fl Hs Hi eq_refl ltac:(done)); [len; lia|]. cbn [app]. by rewrite <- app_assoc.
  - apply wp_if; intros E2; [by apply (Hlit _ (JBool true)); [intros y ->|..]|]. apply wp_if; intros E3; [by apply (Hlit _ (JBool false)); [intros y ->|..]|].
    apply wp_if; intros E4; [by apply (Hlit _ JNull); [intros y ->|..]|]. apply wp_if; intros E5; [|apply wp_failing].
    apply wp_bind, wp_ParseNumber. intros x t l' -> Hx. apply (wp_ok _ _ tt (P V l' d (set_node i (scalar_node t) s))); [done|].
    assert (Hxt : denotes t x) by (pose proof Hx as Hx2; destruct Hx; exact Hx2). apply (scalar_read V w x t l' d s fl); try done; [by destruct Hx|lia|by destruct Hx|by destruct Hx].
Qed.

(** Every call that has its fuel returns; what it accepts is a text of the grammar. *)
Lemma parser_sound fuel : value_sound fuel /\ members_sound fuel /\ elements_sound fuel.
Proof.
  induction fuel as [|f (IV & IM & IE)]; [split_and!; intros ?; intros; lia|]. split_and!; [by apply value_step|by apply members_step|by apply elements_step].
Qed.

End accepted.

Section theorems.
Context (Alloc_ok : Z -> bool) (junk : Z) (from_chars_double : bytes -> option Z) (mem : forall n, Alloc_ok n = true).

Definition run_root (body : bytes) (V : bool) (MD : Z) (s0 : JsonStore) (l : bytes) : result unit * JsonParser :=
  let p := Parser l (Z.of_nat (length body)) 0 MD V None s0 in
  if Peek p =? LBRACE then ParseObject (ParseMembers Alloc_ok junk from_chars_double (fuel_for body)) 0 p
  else ParseArray (ParseElements Alloc_ok junk from_chars_double (fuel_for body)) 0 p.

(** From the root's first byte: a container was read, or the parser failed. *)
Lemma run_root_sound body V MD s0 w l : body = w ++ l -> blank w -> not_ws l -> Z.of_nat (length body) < 2 ^ 28 -> 0 <= MD -> MD + 1 < 2 ^ 32 -> Init Alloc_ok = Some s0 ->
  (Peek (Parser l (Z.of_nat (length body)) 0 MD V None s0) = LBRACE \/ Peek (Parser l (Z.of_nat (length body)) 0 MD V None s0) = LBRACKET) ->
  match run_root body V MD s0 l with
  | (Ok _, p') => exists t x l' s', l = x ++ l' /\ denotes from_chars_double t x /\ container t = true /\ height t <= MD /\ p' = Parser l' (Z.of_nat (length body)) 0 MD V None s'
  | (No, p') => failed p'
  | (Fuel, _) => False
  end.
Proof.
  intros -> Hw Hl Hlen HM HM2 E0 Hp. destruct (Init_ok Alloc_ok mem) as (s & E & Hs & Ed & L1 & L2 & L3). rewrite E0 in E. injection E as <-. set (body := w ++ l) in *.
  destruct (parser_sound Alloc_ok junk from_chars_double mem (Z.of_nat (length body)) MD HM2 (S (fuel_for body))) as (HV & _ & _).
  assert (Hbl : (length l <= length body)%nat) by (unfold body; rewrite length_app; lia).
  specialize (HV V l 0 s0 [] 0 Hs ltac:(lia) ltac:(unfold fits; lia) ltac:(lia) ltac:(unfold fuel_for; lia)).
  destruct l as [|c l]; [by destruct Hp|]. cbn [Peek src] in Hp. unfold wp in HV. rewrite ParseValue_start in HV by done.
  assert (Er : run_root body V MD s0 (c :: l) = (if c =? DQUOTE then do n <- ParseString Alloc_ok junk ; put_node 0 n
     else if c =? LBRACE then ParseObject (ParseMembers Alloc_ok junk from_chars_double (fuel_for body)) 0
     else if c =? LBRACKET then ParseArray (ParseElements Alloc_ok junk from_chars_double (fuel_for body)) 0
     else if c =? 116 then literal (lit "true") 0 (BOOL true)
     else if c =? 102 then literal (lit "false") 0 (BOOL false)
     else if c =? 110 then literal (lit "null") 0 EMPTY
     else if (c =? MINUS) || is_digit c then do n <- ParseNumber from_chars_double ; put_node 0 n
     else failing (lit "unexpected character")) (Parser (c :: l) (Z.of_nat (length body)) 0 MD V None s0)) by (by destruct Hp as [->| ->]).
  rewrite <- Er in HV. clear Er. destruct (run_root body V MD s0 (c :: l)) as [[u| |] p']; [|exact HV|exact HV].
  destruct HV as [(w' & x & t & l' & s' & El & Hw' & Hx & Hh & -> & _)|(_ & w' & l1 & El & Hw')].
  2:{ destruct Hw' as [|a w' Ha _]; cbn in El; injection El as -> _; destruct Hp as [Ec|Ec]; (discriminate || (rewrite Ec in Ha; discriminate)). }
  exists t, x, l', s'.
  destruct Hw' as [|a w' Ha _]; [|cbn in El; injection El as -> _; destruct Hp as [Ec|Ec]; rewrite Ec in Ha; discriminate].
  split_and!; [done|done| |lia|done]. cbn [app] in El. destruct (denotes_head _ _ _ Hx) as (a & r & -> & _ & _). injection El as <- _.
  destruct t as [|v|v|v|v|v|ts|ms]; try done; cbn [denotes] in Hx.
  - destruct Hp as [->| ->]; discriminate.
  - destruct v, Hp as [->| ->]; discriminate.
  - destruct (number_head _ _ _ Hx) as (a & r' & [= <- _] & Ha). destruct Hp as [->| ->]; discriminate.
  - destruct (number_head _ _ _ Hx) as (a & r' & [= <- _] & Ha). destruct Hp as [->| ->]; discriminate.
  - destruct (number_head _ _ _ Hx) as (a & r' & [= <- _] & Ha). destruct Hp as [->| ->]; discriminate.
  - destruct Hx as (r' & _ & [= -> _]). destruct Hp; discriminate.
Qed.

(** C7: the parser decides the grammar.  [ParseImpl] always returns, and it returns no
    error exactly when the body is a JSON text of a value nested no deeper than the
    limit; the object it then returns stands for that value.  (Leading zeros are in
    the grammar, as in the code; keys are distinct; numbers fit their 64 bits.  The body is
    shorter than [2 ^ 28] bytes and memory is granted.) *)
Theorem ParseImpl_decides body V MD : Z.of_nat (length body) < 2 ^ 28 -> 0 <= MD -> MD + 1 < 2 ^ 32 ->
  exists r, ParseImpl Alloc_ok junk from_chars_double body V MD = Some r /\
    (error r = None <-> exists t, json_text from_chars_double t body /\ height t <= MD) /\
    (error r = None -> exists t s fl, json_text from_chars_double t body /\ object r = Some s /\ store_ok s fl /\ stands (doc s) 1 0 t).
Proof.
  intros Hlen HM HM2.
  assert (Hacc : forall r, ParseImpl Alloc_ok junk from_chars_double body V MD = Some r -> (error r = None -> exists t, json_text from_chars_double t body /\ height t <= MD) ->
    (error r = None <-> exists t, json_text from_chars_double t body /\ height t <= MD) /\
    (error r = None -> exists t s fl, json_text from_chars_double t body /\ object r = Some s /\ store_ok s fl /\ stands (doc s) 1 0 t)).
  { intros r Er Hs. split; [split; [done|]|].
    - intros (t & Ht & Hh). destruct (ParseImpl_accepts Alloc_ok junk from_chars_double mem t body V MD Ht ltac:(lia) Hlen) as (s & fl & E & _). rewrite E in Er. by injection Er as <-.
    - intros He. destruct (Hs He) as (t & Ht & Hh). destruct (ParseImpl_accepts Alloc_ok junk from_chars_double mem t body V MD Ht ltac:(lia) Hlen) as (s & fl & E & Hok & _ & Hst).
      rewrite E in Er. injection Er as <-. by exists t, s, fl. }
  destruct (Init_ok Alloc_ok mem) as (s0 & E0 & _).
  assert (HP : exists r, ParseImpl Alloc_ok junk from_chars_double body V MD = Some r /\ (error r = None -> exists t, json_text from_chars_double t body /\ height t <= MD)).
  2:{ destruct HP as (r & Er & Hs). exists r. split; [done|]. by apply Hacc. }
  unfold ParseImpl. rewrite E0. destruct body as [|c b] eqn:Eb; [by eexists|]. rewrite <- Eb in *. cbv zeta.
  destruct (span_split is_ws body) as (w & l & Es & El & Hw & Hl). assert (Ep : (SkipWS (Parser body (Z.of_nat (length body)) 0 MD V None s0)).2 = Parser l (Z.of_nat (length body)) 0 MD V None s0).
  { unfold SkipWS, modify, set_src. cbn [src]. by rewrite Es. }
  rewrite Ep. destruct (negb _ && negb _) eqn:Enot; [by eexists|].
  assert (Hp : Peek (Parser l (Z.of_nat (length body)) 0 MD V None s0) = LBRACE \/ Peek (Parser l (Z.of_nat (length body)) 0 MD V None s0) = LBRACKET).
  { apply andb_false_iff in Enot as [E|E]; apply negb_false_iff, Z.eqb_eq in E; auto. }
  pose proof (run_root_sound body V MD s0 w l El Hw Hl Hlen HM HM2 E0 Hp) as Hr. unfold run_root in Hr.
  destruct (if Peek _ =? LBRACE then _ else _) as [[u| |] p'] eqn:Er; [|eexists; split; [reflexivity|done]|done].
  destruct Hr as (t & x & l' & s' & El' & Hx & Hc & Hh & ->). cbn [IsOk err_ negb]. destruct (span_split is_ws l') as (w2 & l2 & Es2 & El2 & Hw2 & Hl2).
    assert (Ep2 : (SkipWS (Parser l' (Z.of_nat (length body)) 0 MD V None s')).2 = Parser l2 (Z.of_nat (length body)) 0 MD V None s') by (unfold SkipWS, modify, set_src; cbn [src]; by rewrite Es2).
    rewrite Ep2. destruct l2 as [|c2 l2]; cbn [End_ src negb]; [|by eexists]. eexists. split; [reflexivity|]. intros _. exists t. split; [|done]. split; [done|].
    exists w, x, w2. rewrite app_nil_r in El2. subst l'. rewrite El' in El. done.
Qed.

End theorems.

(** ** Concrete runs *)

(** {"a":5,"b":["x\n"]} built by the operations of [JsonRef]. *)
Definition w_build : list op := [OpGetOrCreate 0 [97]; OpAssign 1 (INT64 5); OpGetOrCreate 0 [98]; OpPushBack 2; OpAssignString 3 [120; 10]].
Definition w_value : json := JObj [([97], JInt 5); ([98], JArr [JStr [120; 10]])].
Definition w_text : bytes := [123; 34; 97; 34; 58; 53; 44; 34; 98; 34; 58; 91; 34; 120; 92; 110; 34; 93; 125].

Lemma w_built : exists s fl, store_ok s fl /\ 0 < nodeLen s /\ stands (doc s) 0 0 w_value.
Proof.
  destruct (Init_ok (fun _ => true) (fun _ => eq_refl)) as (s0 & _ & Hs & Ed & L1 & L2 & L3).
  destruct (run_ops_ok (fun _ => true) 0 (fun _ => eq_refl) w_build s0 [] Hs) as (_ & E & fl & Hs'); [by rewrite Ed|unfold room; rewrite L1, L2, L3; split_and!; by vm_compute|].
  rewrite Ed in E. set (s := (run_ops (fun _ => true) 0 w_build s0).2) in *. exists s, fl.
  assert (El : nodeLen s = 4) by (unfold nodeLen; rewrite <- doc_length, E; reflexivity).
  split_and!; [done|lia|]. rewrite E. exists [([97], 1); ([98], 2)]. split; [by vm_compute|]. split_and!; try by vm_compute. split; [|done]. split_and!; try by vm_compute. exists [3]. split_and!; by vm_compute.
Qed.

Lemma serialize_parse_roundtrip_witness :
  exists s s' fl', Serialize (fun _ => []) 3 s 0 = Some w_text /\ ParseImpl (fun _ => true) 0 (fun _ => None) w_text true 64 = Some (Result (Some s') None 0) /\
    store_ok s' fl' /\ stands (doc s') 1 0 (norm w_value) /\ Serialize (fun _ => []) 3 s' 0 = Some w_text.
Proof.
  destruct w_built as (s & fl & Hs & Hn & Hst).
  assert (Et : Serialize (fun _ => []) 3 s 0 = Some w_text) by (by rewrite (Serialize_text (fun _ => []) s fl 0 w_value 0 3 Hs ltac:(lia) ltac:(lia) Hst)).
  assert (Hw : writable short_escape (fun _ => None) (fun _ => []) w_value).
  { assert (Hb : forall l, forallb (fun c => 32 <=? c) l = true -> Forall (writable_byte short_escape) l).
    { intros l Hl. apply Forall_forall. intros c Hc. rewrite forallb_forall in Hl. apply short_writable. left. apply Z.leb_le, Hl. by apply list_elem_of_In. }
    cbn. split_and!; try (by apply Hb); try done; try lia; [refine (bool_decide_unpack _ _); by vm_compute|].
    apply Forall_cons; split; [by apply short_writable; left|]. apply Forall_cons; split; [by apply short_writable; right|done]. }
  destruct (serialize_parse_roundtrip (fun _ => true) 0 (fun _ => None) (fun _ => eq_refl) (fun _ => []) s fl w_value true 64 w_text Hs Hn Hst eq_refl Hw) as (s' & fl' & E1 & E2 & E3 & E4).
  - split; by vm_compute.
  - exact Et.
  - by vm_compute.
  - exists s, s', fl'. exact (conj Et (conj E1 (conj E2 (conj E3 E4)))).
Defined.

(** Accepted, and refused: a repeated key, a control byte, too deep, text after the
    root. *)
Lemma ParseImpl_decides_witness :
  exists r, ParseImpl (fun _ => true) 0 (fun _ => None) w_text false 2 = Some r /\ (error r = None <-> exists t, json_text (fun _ => None) t w_text /\ height t <= 2).
Proof.
  destruct (ParseImpl_decides (fun _ => true) 0 (fun _ => None) (fun _ => eq_refl) w_text false 2) as (r & E & H & _); [by vm_compute|by vm_compute|by vm_compute|].
  exists r. split; [exact E|exact H].
Defined.

Definition refusal (body : bytes) (MD : Z) : option (option bytes * Z) :=
  (fun r => (error r, offset r)) <$> ParseImpl (fun _ => true) 0 (fun _ => None) body false MD.

Example refused : map (fun b => refusal b 2)
    [[123; 34; 97; 34; 58; 49; 44; 34; 97; 34; 58; 50; 125]; [91; 34; 1; 34; 93]; [91; 91; 91; 93; 93; 93]; [91; 93; 32; 49]; [91; 34; 92; 110]; [49]] =
  [Some (Some (lit "duplicate key"), 10); Some (Some (lit "control character in string"), 2); Some (Some (lit "max depth exceeded"), 3);
   Some (Some (lit "trailing content after root"), 3); Some (Some (lit "expected ',' or ']'"), 4); Some (Some (lit "root must be object or array"), 0)].
Proof. vm_compute. reflexivity. Qed.

(** [01] is accepted as a number. *)
Example leading_zero : refusal [91; 48; 49; 93] 2 = Some (None, 0).
Proof. vm_compute. reflexivity. Qed.

(** A control byte without a short escape is written as it is, and refused. *)
Example own_text_refused : refusal (text short_escape (fun _ => []) (JArr [JStr [1]])) 2 = Some (Some (lit "control character in string"), 2).
Proof. vm_compute. reflexivity. Qed.

End JsonParser.
