(* ===== verification/JsonWriter.v ===== *)
(** * JsonWriter: [shared/json/json_writter.hpp]

    The writer that streams JSON into a response: containers opened and closed by
    calls, the commas and the brackets kept in two 64-bit masks, one bit a level.  For
    every value of a nesting the masks can hold, the calls that describe it write its
    text, and the parser of [JsonParser] reads that text back as the value.

    [out] is what [Raw] wrote to the response, in order. *)

From stdpp Require Import list.
From S2P Require Import Prelude Strings JsonStore JsonText JsonParser.

Module JsonWriter.
Import StringUtils.
Import JsonStore.
Import JsonText.
Import JsonParser.

Definition MAX_DEPTH : Z := 63.

Record JsonWriter := Writer {
  out : bytes;
  commas_ : Z;
  closes_ : Z;
  over_ : Z;
  depth_ : Z;
  done_ : bool
}.

Definition Raw (d : bytes) (w : JsonWriter) : JsonWriter := Writer (out w ++ d) (commas_ w) (closes_ w) (over_ w) (depth_ w) (done_ w).
Definition set_commas v w := Writer (out w) v (closes_ w) (over_ w) (depth_ w) (done_ w).
Definition set_closes v w := Writer (out w) (commas_ w) v (over_ w) (depth_ w) (done_ w).
Definition set_over v w := Writer (out w) (commas_ w) (closes_ w) v (depth_ w) (done_ w).
Definition set_depth v w := Writer (out w) (commas_ w) (closes_ w) (over_ w) v (done_ w).

(** [1ull << d] with [d] at most 63. *)
Definition bit (d : Z) : Z := Z.shiftl 1 d.

(** The switch of [Escaped]: the short escapes, and [\u00XX] for the other control
    bytes. *)
Definition HEX (n : Z) : Z := at_ (lit "0123456789abcdef") (Z.to_nat n).
Definition long_escape (c : Z) : option bytes :=
  match short_escape c with
  | Some e => Some e
  | None => if c <? 0x20 then Some [BACKSLASH; 117; 48; 48; HEX (Z.land (Z.shiftr c 4) 0xF); HEX (Z.land c 0xF)] else None
  end.

Definition WKey (k : bytes) (w : JsonWriter) : JsonWriter := Raw (DQUOTE :: escaped long_escape k ++ [DQUOTE; COLON]) w.
Definition WStr (v : bytes) (w : JsonWriter) : JsonWriter := Raw (DQUOTE :: escaped long_escape v ++ [DQUOTE]) w.

Definition Comma (w : JsonWriter) : JsonWriter :=
  let b := bit (depth_ w) in
  let w := if negb (Z.land (commas_ w) b =? 0) then Raw [COMMA] w else w in
  set_commas (Z.lor (commas_ w) b) w.

Definition ResetComma (w : JsonWriter) : JsonWriter := set_commas (Z.ldiff (commas_ w) (bit (depth_ w))) w.

(** The four overloads of [Obj] and [Arr]. *)
Definition Open (key : option bytes) (arr : bool) (w : JsonWriter) : JsonWriter :=
  if negb (over_ w =? 0) || (MAX_DEPTH <=? depth_ w) then set_over (u32 (over_ w + 1)) w
  else
    let w := Comma w in
    let w := match key with Some k => WKey k w | None => w end in
    let w := Raw [if arr then LBRACKET else LBRACE] w in
    let w := set_closes (if arr then Z.lor (closes_ w) (bit (depth_ w)) else Z.ldiff (closes_ w) (bit (depth_ w))) w in
    ResetComma (set_depth (wrap 8 (depth_ w + 1)) w).

Definition Close (w : JsonWriter) : JsonWriter :=
  if negb (over_ w =? 0) then set_over (over_ w - 1) w
  else if depth_ w =? 0 then w
  else
    let w := set_depth (depth_ w - 1) w in
    Raw [if negb (Z.land (Z.shiftr (closes_ w) (depth_ w)) 1 =? 0) then RBRACKET else RBRACE] w.

Section writer.
Context (to_chars_double : Z -> bytes).

(** The scalar overloads of [Write] and [Push]. *)
Definition WScalar (v : json) (w : JsonWriter) : JsonWriter :=
  match v with
  | JNull => Raw (lit "null") w
  | JBool b => Raw (if b then lit "true" else lit "false") w
  | JInt n => Raw (to_chars_int n) w
  | JUInt n => Raw (to_chars_uint n) w
  | JDouble d => Raw (to_chars_double d) w
  | JStr s => WStr s w
  | _ => w
  end.

Definition Write (key : option bytes) (v : json) (w : JsonWriter) : JsonWriter :=
  let w := Comma w in
  WScalar v (match key with Some k => WKey k w | None => w end).

(** ** Calls *)

Inductive call :=
| COpen (key : option bytes) (arr : bool)
| CEnd
| CWrite (key : option bytes) (v : json).

Definition run_call (c : call) (w : JsonWriter) : JsonWriter :=
  match c with COpen k a => Open k a w | CEnd => Close w | CWrite k v => Write k v w end.
Definition run_calls (cs : list call) (w : JsonWriter) : JsonWriter := fold_left (fun w c => run_call c w) cs w.

(** The constructor, and the destructor: [while(depth_) Close()]; a level or an
    over-deep opening goes at each turn. *)
Definition new_writer : JsonWriter := Raw [LBRACE] (Writer [] 0 0 0 1 false).

Fixpoint close_all (fuel : nat) (w : JsonWriter) : JsonWriter :=
  match fuel with O => w | S f => if depth_ w =? 0 then w else close_all f (Close w) end.
Definition destroy (w : JsonWriter) : JsonWriter :=
  if done_ w then w
  else
    let w := close_all (Z.to_nat (over_ w + depth_ w)) w in
    Writer (out w) (commas_ w) (closes_ w) (over_ w) (depth_ w) true.

(** The calls that describe a value. *)
Fixpoint calls_for (key : option bytes) (t : json) : list call :=
  match t with
  | JArr l => COpen key true :: concat (map (calls_for None) l) ++ [CEnd]
  | JObj m => COpen key false :: concat (map (fun e => calls_for (Some e.1) e.2) m) ++ [CEnd]
  | _ => [CWrite key t]
  end.

(** What a handler that describes the members of an object sends. *)
Definition written (m : list (bytes * json)) : bytes :=
  out (destroy (run_calls (concat (map (fun e => calls_for (Some e.1) e.2) m)) new_writer)).

End writer.

(** ** Bits *)

Lemma bit_test m d : 0 <= d -> negb (Z.land m (bit d) =? 0) = Z.testbit m d.
Proof.
  intros Hd. unfold bit. rewrite Z.shiftl_mul_pow2, Z.mul_1_l by done. destruct (Z.testbit m d) eqn:E.
  - apply negb_true_iff, Z.eqb_neq. intros H. apply (f_equal (fun x => Z.testbit x d)) in H. rewrite Z.land_spec, E, Z.pow2_bits_true, Z.bits_0 in H by done. done.
  - apply negb_false_iff, Z.eqb_eq. apply Z.bits_inj'. intros j Hj. rewrite Z.land_spec, Z.bits_0. destruct (decide (j = d)) as [->|Hne]; [by rewrite E|].
    rewrite Z.pow2_bits_false by done. apply andb_false_r.
Qed.

Lemma bit_set m d j : 0 <= d -> Z.testbit (Z.lor m (bit d)) j = (Z.testbit m j || (d =? j))%bool.
Proof. intros Hd. unfold bit. by rewrite Z.shiftl_mul_pow2, Z.mul_1_l, Z.lor_spec, Z.pow2_bits_eqb by done. Qed.

Lemma bit_clear m d j : 0 <= d -> Z.testbit (Z.ldiff m (bit d)) j = (Z.testbit m j && negb (d =? j))%bool.
Proof. intros Hd. unfold bit. by rewrite Z.shiftl_mul_pow2, Z.mul_1_l, Z.ldiff_spec, Z.pow2_bits_eqb by done. Qed.

Lemma bit_shift m d : 0 <= d -> negb (Z.land (Z.shiftr m d) 1 =? 0) = Z.testbit m d.
Proof. intros Hd. change 1 with (bit 0). rewrite bit_test by done. by rewrite Z.shiftr_spec by done. Qed.

(** ** What is written *)

(** From [w] to [w']: [t] is written, the level and the bits of the levels below are
    kept, a comma is due. *)
Record wrote (t : bytes) (w w' : JsonWriter) : Prop := {
  wr_out : out w' = out w ++ t;
  wr_over : over_ w' = over_ w;
  wr_depth : depth_ w' = depth_ w;
  wr_done : done_ w' = done_ w;
  wr_commas : forall j, 0 <= j < depth_ w -> Z.testbit (commas_ w') j = Z.testbit (commas_ w) j;
  wr_closes : forall j, 0 <= j < depth_ w -> Z.testbit (closes_ w') j = Z.testbit (closes_ w) j
}.

Definition due (w : JsonWriter) : bytes := if Z.testbit (commas_ w) (depth_ w) then [COMMA] else [].
Definition key_text (key : option bytes) : bytes := match key with Some k => DQUOTE :: escaped long_escape k ++ [DQUOTE; COLON] | None => [] end.

Section written.
Context (to_chars_double : Z -> bytes).
Abbreviation text := (text long_escape to_chars_double).
Abbreviation run_calls := (run_calls to_chars_double).

Lemma Comma_spec w : 0 <= depth_ w -> wrote (due w) w (Comma w) /\ Z.testbit (commas_ (Comma w)) (depth_ w) = true.
Proof.
  intros Hd. unfold Comma, due. rewrite bit_test by done. destruct (Z.testbit (commas_ w) (depth_ w)) eqn:E; cbn [Raw set_commas commas_ out]; (split; [split|]); cbn [out commas_ closes_ over_ depth_ done_ set_commas Raw]; rewrite ?app_nil_r; try done.
  - intros j Hj. rewrite bit_set by done. rewrite (proj2 (Z.eqb_neq (depth_ w) j)) by lia. apply orb_false_r.
  - rewrite bit_set by done. rewrite Z.eqb_refl. apply orb_true_r.
  - intros j Hj. rewrite bit_set by done. rewrite (proj2 (Z.eqb_neq (depth_ w) j)) by lia. apply orb_false_r.
  - rewrite bit_set by done. rewrite Z.eqb_refl. apply orb_true_r.
Qed.

Lemma wrote_nothing w : wrote [] w w.
Proof. split; try done. by rewrite app_nil_r. Qed.

Lemma wrote_trans a b w1 w2 w3 : wrote a w1 w2 -> wrote b w2 w3 -> wrote (a ++ b) w1 w3.
Proof.
  intros [A1 A2 A3 A4 A5 A6] [B1 B2 B3 B4 B5 B6]. split; try congruence; [by rewrite B1, A1, <- app_assoc| |]; intros j Hj.
  - rewrite B5 by lia. by apply A5.
  - rewrite B6 by lia. by apply A6.
Qed.

Lemma wrote_raw t w : wrote t w (Raw t w).
Proof. by split. Qed.

Lemma WKey_wrote key w : wrote (key_text key) w (match key with Some k => WKey k w | None => w end).
Proof. destruct key; [apply wrote_raw|apply wrote_nothing]. Qed.

Lemma WScalar_wrote t w : container t = false -> wrote (text t) w (WScalar to_chars_double t w).
Proof. destruct t; try discriminate; intros _; apply wrote_raw. Qed.

(** A member or an element that is no container. *)
Lemma Write_wrote key t w : container t = false -> 0 <= depth_ w ->
  wrote (due w ++ key_text key ++ text t) w (Write to_chars_double key t w) /\ Z.testbit (commas_ (Write to_chars_double key t w)) (depth_ w) = true.
Proof.
  intros Ht Hd. destruct (Comma_spec w Hd) as [HC Hb]. unfold Write. set (w1 := Comma w) in *. pose proof (WKey_wrote key w1) as HK.
  set (w2 := match key with Some k => WKey k w1 | None => w1 end) in *. pose proof (WScalar_wrote t w2 Ht) as HS. split.
  - eapply wrote_trans; [exact HC|]. by eapply wrote_trans.
  - assert (E : commas_ (WScalar to_chars_double t w2) = commas_ w1) by (unfold w2; by destruct t, key). by rewrite E.
Qed.

(** A container opened: its level is new, no comma due, its bracket noted. *)
Lemma Open_wrote key arr w : over_ w = 0 -> 0 <= depth_ w < MAX_DEPTH ->
  let w' := Open key arr w in
  out w' = out w ++ due w ++ key_text key ++ [if arr then LBRACKET else LBRACE] /\ over_ w' = 0 /\ depth_ w' = depth_ w + 1 /\ done_ w' = done_ w /\
  (forall j, 0 <= j < depth_ w -> Z.testbit (commas_ w') j = Z.testbit (commas_ w) j) /\ Z.testbit (commas_ w') (depth_ w) = true /\ Z.testbit (commas_ w') (depth_ w + 1) = false /\
  (forall j, 0 <= j < depth_ w -> Z.testbit (closes_ w') j = Z.testbit (closes_ w) j) /\ Z.testbit (closes_ w') (depth_ w) = arr.
Proof.
  intros Ho Hd. unfold MAX_DEPTH in Hd. destruct (Comma_spec w ltac:(lia)) as [HC Hb]. unfold Open, MAX_DEPTH. rewrite Ho, (proj2 (Z.leb_gt _ _)) by lia. cbn [Z.eqb negb orb]. set (w1 := Comma w) in *.
  pose proof (WKey_wrote key w1) as HK. assert (Ec : commas_ (match key with Some k => WKey k w1 | None => w1 end) = commas_ w1) by (by destruct key).
  set (w2 := match key with Some k => WKey k w1 | None => w1 end) in *. destruct (wrote_trans _ _ _ _ _ HC HK) as [A1 A2 A3 A4 A5 A6].
  unfold ResetComma, set_depth, set_closes, set_commas, Raw. cbn [out commas_ closes_ over_ depth_ done_]. rewrite A3. rewrite (wrap_small 8) by lia.
  split_and!; try congruence; [by rewrite A1, <- !app_assoc|..].
  - intros j Hj. rewrite bit_clear, (proj2 (Z.eqb_neq (depth_ w + 1) j)), andb_true_r by lia. by apply A5.
  - rewrite bit_clear, (proj2 (Z.eqb_neq (depth_ w + 1) (depth_ w))), andb_true_r by lia. by rewrite Ec.
  - rewrite bit_clear, Z.eqb_refl by lia. apply andb_false_r.
  - intros j Hj. destruct arr; [rewrite bit_set, (proj2 (Z.eqb_neq (depth_ w) j)), orb_false_r by lia|rewrite bit_clear, (proj2 (Z.eqb_neq (depth_ w) j)), andb_true_r by lia]; by apply A6.
  - destruct arr; [rewrite bit_set by lia; rewrite Z.eqb_refl; apply orb_true_r|rewrite bit_clear by lia; rewrite Z.eqb_refl; apply andb_false_r].
Qed.

Lemma Close_spec w : over_ w = 0 -> 0 < depth_ w ->
  Close w = Writer (out w ++ [if Z.testbit (closes_ w) (depth_ w - 1) then RBRACKET else RBRACE]) (commas_ w) (closes_ w) 0 (depth_ w - 1) (done_ w).
Proof.
  intros Ho Hd. unfold Close. rewrite Ho, (proj2 (Z.eqb_neq (depth_ w) 0)) by lia. cbn [Z.eqb negb]. unfold Raw, set_depth. cbn [out commas_ closes_ over_ depth_ done_]. rewrite bit_shift by lia. by rewrite Ho.
Qed.

(** Items one after the other; [b]: a comma is due before the first. *)
Definition joined (b : bool) (items : list bytes) : bytes := if b then concat (map (fun y => COMMA :: y) items) else commas items.

Definition item_ok (key : option bytes) (t : json) : Prop := forall w, over_ w = 0 -> 0 <= depth_ w -> depth_ w + height t <= MAX_DEPTH ->
  wrote (due w ++ key_text key ++ text t) w (run_calls (calls_for key t) w) /\ Z.testbit (commas_ (run_calls (calls_for key t) w)) (depth_ w) = true.

Lemma run_calls_app a b w : run_calls (a ++ b) w = run_calls b (run_calls a w).
Proof. apply fold_left_app. Qed.

Lemma items_ok (l : list (option bytes * json)) : Forall (fun e => item_ok e.1 e.2) l -> forall w, over_ w = 0 -> 0 <= depth_ w ->
  Forall (fun e => depth_ w + height e.2 <= MAX_DEPTH) l ->
  wrote (joined (Z.testbit (commas_ w) (depth_ w)) (map (fun e => key_text e.1 ++ text e.2) l)) w (run_calls (concat (map (fun e => calls_for e.1 e.2) l)) w).
Proof.
  induction 1 as [|[key t] l Ht _ IH]; intros w Ho Hd Hh; [destruct (Z.testbit _ _); apply wrote_nothing|]. apply Forall_cons in Hh as [Hh Hhs]. cbn [map concat fst snd] in *.
  rewrite run_calls_app. destruct (Ht w Ho Hd Hh) as [HW Hb]. set (w1 := run_calls (calls_for key t) w) in *. pose proof HW as [A1 A2 A3 A4 A5 A6].
  specialize (IH w1 ltac:(congruence) ltac:(lia) ltac:(by rewrite A3)). rewrite A3, Hb in IH. pose proof (wrote_trans _ _ _ _ _ HW IH) as HT.
  unfold due in HT. cbn [joined] in *. destruct (Z.testbit (commas_ w) (depth_ w)); cbn [joined commas map concat app] in *; rewrite <- ?app_assoc in *; exact HT.
Qed.

(** A container: its opening, its items, its end. *)
Lemma container_ok key arr l w : over_ w = 0 -> 0 <= depth_ w < MAX_DEPTH -> Forall (fun e => item_ok e.1 e.2) l -> Forall (fun e => depth_ w + 1 + height e.2 <= MAX_DEPTH) l ->
  let w' := run_calls (COpen key arr :: concat (map (fun e => calls_for e.1 e.2) l) ++ [CEnd]) w in
  wrote (due w ++ key_text key ++ [if arr then LBRACKET else LBRACE] ++ commas (map (fun e => key_text e.1 ++ text e.2) l) ++ [if arr then RBRACKET else RBRACE]) w w' /\
  Z.testbit (commas_ w') (depth_ w) = true.
Proof.
  intros Ho Hd Hl Hh w'. destruct (Open_wrote key arr w Ho Hd) as (O1 & O2 & O3 & O4 & O5 & O6 & O7 & O8 & O9). unfold w'. clear w'.
  change (run_calls (COpen key arr :: ?r) w) with (run_calls r (Open key arr w)). set (w1 := Open key arr w) in *. rewrite run_calls_app.
  pose proof (items_ok l Hl w1 O2 ltac:(lia) ltac:(by rewrite O3)) as HW. rewrite O3, O7 in HW. cbn [joined] in HW. set (w2 := run_calls _ w1) in *. destruct HW as [A1 A2 A3 A4 A5 A6].
  change (run_calls [CEnd] w2) with (Close w2). rewrite Close_spec by lia. assert (Ed : depth_ w2 - 1 = depth_ w) by lia. rewrite Ed, (A6 (depth_ w)), O9 by lia. split.
  - split; cbn [out commas_ closes_ over_ depth_ done_]; try congruence.
    + by rewrite A1, O1, <- !app_assoc.
    + intros j Hj. rewrite A5 by lia. by apply O5.
    + intros j Hj. rewrite A6 by lia. by apply O8.
  - cbn [commas_]. rewrite A5 by lia. exact O6.
Qed.

Lemma all_items_ok t key : item_ok key t.
Proof.
  revert key. induction t as [|v|v|v|v|v|l IH|m IH] using json_nested_ind; intros key w Ho Hd Hh; try by apply Write_wrote.
  - cbn [height] in Hh. destruct (height_items MAX_DEPTH height l (depth_ w) Hh) as [Hd1 Hhs]. pose proof (container_ok key true (map (pair None) l) w Ho ltac:(lia)) as HC.
    rewrite !map_map in HC. apply HC; apply Forall_map; [|done]. eapply Forall_impl; [exact IH|]. auto.
  - cbn [height] in Hh. destruct (height_items MAX_DEPTH (fun e : bytes * json => height e.2) m (depth_ w) Hh) as [Hd1 Hhs].
    pose proof (container_ok key false (map (fun e => (Some e.1, e.2)) m) w Ho ltac:(lia)) as HC. rewrite !map_map in HC. cbn [fst snd key_text] in HC.
    assert (Em : commas (map (fun e => (DQUOTE :: escaped long_escape e.1 ++ [DQUOTE; COLON]) ++ text e.2) m) = commas (map (fun e => DQUOTE :: escaped long_escape e.1 ++ DQUOTE :: COLON :: text e.2) m)).
    { f_equal. apply map_ext. intros e. cbn [app]. by rewrite <- app_assoc. }
    rewrite Em in HC. apply HC; apply Forall_map; [|done]. eapply Forall_impl; [exact IH|]. auto.
Qed.

End written.

(** Every byte is written in a way that reads back. *)
Lemma long_writable c : is_byte c -> writable_byte long_escape c.
Proof.
  intros Hc. unfold writable_byte, long_escape. destruct (short_escape c) as [e|] eqn:E.
  - destruct (short_escape_simple c e E) as (d & -> & Hd). exists [d]. split; [done|]. by apply Es_simple.
  - destruct (Z.ltb_spec c 32) as [Hlt|Hge]; [|split; [done|by apply short_escape_none]].
    exists (117 :: [48; 48; HEX (Z.land (Z.shiftr c 4) 0xF); HEX (Z.land c 0xF)]). split; [done|].
    assert (Hx : hex_digit (HEX (Z.land (Z.shiftr c 4) 0xF)) = Some (c / 16) /\ hex_digit (HEX (Z.land c 0xF)) = Some (c mod 16)).
    { assert (Hall : forallb (fun c => bool_decide (hex_digit (HEX (Z.land (Z.shiftr c 4) 0xF)) = Some (c / 16)) && bool_decide (hex_digit (HEX (Z.land c 0xF)) = Some (c mod 16))) (seqZ 0 32) = true) by by vm_compute.
      rewrite forallb_forall in Hall. specialize (Hall c ltac:(apply list_elem_of_In, elem_of_seqZ; unfold is_byte in Hc; lia)).
      apply andb_true_iff in Hall as [H1 H2]. split; by eapply bool_decide_eq_true. }
    destruct Hx as [H1 H2]. unfold is_byte in Hc. replace [c] with (utf8 (4096 * 0 + 256 * 0 + 16 * (c / 16) + c mod 16)).
    + apply Es_unit; [by constructor|]. Z.to_euclidean_division_equations. lia.
    + unfold utf8. replace (4096 * 0 + 256 * 0 + 16 * (c / 16) + c mod 16) with c by (Z.to_euclidean_division_equations; lia). by rewrite (proj2 (Z.ltb_lt c 128)) by lia.
Qed.

(** The calls for the members of an object write the text of the object. *)
Lemma written_text to_chars_double m : height (JObj m) <= MAX_DEPTH -> written to_chars_double m = text long_escape to_chars_double (JObj m).
Proof.
  intros Hh. destruct (height_items MAX_DEPTH (fun e : bytes * json => height e.2) m 0 Hh) as [_ Hhs]. unfold written. set (w0 := new_writer).
  pose proof (items_ok to_chars_double (map (fun e => (Some e.1, e.2)) m)) as HW. rewrite map_map in HW. cbn [fst snd] in HW.
  specialize (HW ltac:(apply Forall_map, Forall_forall; intros e _; apply all_items_ok) w0 eq_refl ltac:(done) ltac:(by apply Forall_map)).
  rewrite map_map in HW. cbn [fst snd key_text] in HW. set (w1 := run_calls _ _ w0) in *. destruct HW as [A1 A2 A3 A4 A5 A6].
  unfold destroy. rewrite A4. cbn [w0 new_writer Raw done_]. rewrite A2, A3. cbn [w0 new_writer Raw over_ depth_]. change (Z.to_nat (0 + 1)) with 1%nat. cbn [close_all].
  rewrite A3. cbn [w0 new_writer Raw depth_ Z.eqb]. rewrite Close_spec by (rewrite ?A2, ?A3; done). cbn [out]. rewrite A1, A3. change (depth_ w0 - 1) with 0. rewrite (A6 0) by done. cbn [w0 new_writer Raw depth_ closes_ commas_ out app Z.sub].
  cbn [text joined Z.testbit]. f_equal. f_equal. f_equal. apply map_ext. intros e. cbn [app]. by rewrite <- app_assoc.
Qed.

(** C23: what [JsonWriter] streams is the value described: the calls that describe the
    members of an object nested within 63 levels, and the destructor, write the text of the
    object, commas and brackets in place, whatever its strings, numbers and keys are.  When
    integers fit 64 bits, the keys of each object are distinct and the text of each double is a
    number that reads back as it, the text is JSON whatever bytes the strings hold:
    [ParseImpl] accepts it and its root stands for the object, integers without sign being
    unsigned.  (A double written as [nan], [inf] or without a point does not read back.) *)
Theorem writer_reads_back to_chars_double m : height (JObj m) <= MAX_DEPTH ->
  written to_chars_double m = text long_escape to_chars_double (JObj m) /\
  forall Alloc_ok junk from_chars_double V MD, (forall n, Alloc_ok n = true) ->
    writable long_escape from_chars_double to_chars_double (JObj m) -> height (JObj m) <= MD < 2 ^ 32 ->
    Z.of_nat (length (written to_chars_double m)) < 2 ^ 28 ->
    exists s fl, ParseImpl Alloc_ok junk from_chars_double (written to_chars_double m) V MD = Some (Result (Some s) None 0) /\ store_ok s fl /\ stands (doc s) 1 0 (norm (JObj m)).
Proof.
  intros Hh. pose proof (written_text to_chars_double m Hh) as E. split; [done|]. intros Alloc_ok junk from_chars_double V MD mem Hw Hd Hlen. rewrite E in *.
  destruct (ParseImpl_accepts Alloc_ok junk from_chars_double mem (norm (JObj m)) (text long_escape to_chars_double (JObj m)) V MD) as (s & fl & EP & Hs & _ & Hst).
  - split; [done|]. exists [], (text long_escape to_chars_double (JObj m)), []. rewrite app_nil_r. split_and!; [apply blank_nil..|done|by apply text_denotes].
  - by rewrite norm_height.
  - done.
  - by exists s, fl.
Qed.

(** ** Concrete runs *)

(** {"a":-5,"b":["\u0000\n",null]} *)
Definition w_members : list (bytes * json) := [([97], JInt (-5)); ([98], JArr [JStr [0; 10]; JNull])].

Example w_members_written : written (fun _ => []) w_members =
  [123; 34; 97; 34; 58; 45; 53; 44; 34; 98; 34; 58; 91; 34; 92; 117; 48; 48; 48; 48; 92; 110; 34; 44; 110; 117; 108; 108; 93; 125].
Proof. vm_compute. reflexivity. Qed.

Lemma writer_reads_back_witness :
  exists s fl, ParseImpl (fun _ => true) 0 (fun _ => None) (written (fun _ => []) w_members) true 64 = Some (Result (Some s) None 0) /\
    store_ok s fl /\ stands (doc s) 1 0 (norm (JObj w_members)).
Proof.
  apply (writer_reads_back (fun _ => []) w_members ltac:(by vm_compute)).
  - done.
  - assert (Hb : forall l, forallb (fun c => (0 <=? c) && (c <? 256)) l = true -> Forall (writable_byte long_escape) l).
    { intros l Hl%bytes_by_eval. eapply Forall_impl; [exact Hl|]. apply long_writable. }
    cbn. split_and!; try (by apply Hb); try done; try lia. refine (bool_decide_unpack _ _); by vm_compute.
  - split; by vm_compute.
  - by vm_compute.
Defined.

(** A value written in a container opened past the last level goes to the container
    around it: the opening wrote nothing, the value is written all the same. *)
Example over_deep_value :
  out (run_calls (fun _ => []) (repeat (COpen None true) 62 ++ [COpen None false; CWrite (Some [97]) JNull; CEnd]) new_writer) =
  LBRACE :: repeat LBRACKET 62 ++ [34; 97; 34; 58; 110; 117; 108; 108].
Proof. vm_compute. reflexivity. Qed.

End JsonWriter.
